(* ===== verification/_CoqProject ===== *)
-Q . S2P
Prelude.v
GoTime.v
GoStrings.v
GoSlices.v
Rules.v
Exceptions.v
Baseline.v
Conformance.v
Regex.v
DomainKernel.v
Errors.v
Channel.v
Admission.v
KafkaWorker.v
Ports.v
Envelope.v
Consumer.v
Codec.v
OutboundKey.v
Interfaces.v
Memory.v
Ledger.v
Application.v
AppMemory.v
ServiceRuns.v
Dispatch.v
PgLedger.v
PgServer.v
PgTable.v
ObjectStore.v
S3Store.v
Retry.v
Breaker.v
Resilience.v
Deadline.v
Outbox.v
Relay.v
RelayInvariant.v
Orders.v
Bookings.v
Reservations.v
Fixture.v
StoreTheorems.v
LedgerTheorems.v
UseCaseTheorems.v
CycleTheorems.v
ResilienceTheorems.v
OutboxTheorems.v
RelayTheorems.v
ConsumerTheorems.v
OrdersTheorems.v
BookingsTheorems.v
ReservationsTheorems.v
ChannelTheorems.v
KafkaInvariant.v
KafkaTheorems.v
ManifestTheorems.v
ConformanceTheorems.v
PgLedgerTheorems.v
PgLedgerRaces.v
PgServerTheorems.v
PgTableTheorems.v
PgGuardTheorems.v
ObjectStoreTheorems.v
S3Theorems.v
Sessions.v
RedisRevocation.v
Authn.v
Polling.v
SessionsTheorems.v
PollingTheorems.v
FakeClock.v
Platform.v
PlatformTheorems.v
Loops.v
HttpClient.v
Sqs.v
Grpc.v
GrpcTheorems.v
KafkaPublish.v
