(* ===== verification/Prelude.v ===== *)
(** * A verification development for dmpf's Go kernel

    dmpf is a platform of Go modules under [src/libs/backend/go] and of services
    under [src/apps/backend].  A service is a domain (pure decisions over an
    aggregate), an application block that runs a decision as a use case, ports
    (interfaces), and realizations of the ports.  This library models the part
    that carries the platform's own guarantees, in the order a command crosses
    it, and proves what makes it correct.

    ** How the parts interact

    A caller's command arrives with a request-scoped carrier ([Ports.Ctx]): an
    execution context, an idempotency key, slots the layers below write marks
    into.  [Application.Execute] authorizes it, resolves the identity of the
    facts it may produce, and opens a unit of work.  Inside, [RunIdempotent]
    registers the key in the inbox; a first reception runs the command, whose
    [Decide] loads a row, decides, saves the row under its version and enqueues
    the events; a repetition replays the stored outcome ([Codec]).  The unit of
    work commits row, inbox and outbox together ([Memory]).  A command to an
    external partner goes through [Dispatch]: an attempt is begun in the attempt
    ledger ([Ledger]) in a transaction of its own, the partner is called outside
    any transaction under a key derived from the intent ([OutboundKey]), and the
    outcome is settled in a second one; [Resolve], [Abandon] and [SweepStale]
    close what stayed open.  Calls to dependencies are wrapped by the decorators
    of the resilience packages ([Retry], [Breaker], [Resilience]).

    The events a use case enqueues leave through the outbox table of Postgres
    ([Outbox]).  Any number of relays ([Relay]) claim its rows under a lease,
    assemble each into an [Envelope], publish it, and settle the row under the
    claim they hold.  On the other side a [Consumer] decodes the message, judges
    where it comes from and whether it is for it, hands it to the application
    under an execution context of its own, and acknowledges, releases or
    quarantines it by the disposition the application answered with.

    ** Files

    - [Prelude]: Go's 64-bit integers on [Z] with the wrap-around written out,
      results with panics, the state-and-error monad [M], bytes and strings.
    - [Regex]: the regular expressions of the format checks, a derivative
      matcher, and its agreement with the language.
    - [DomainKernel] ([domain/]): codes, rejections, decisions, [DecideOver].
    - [Errors] ([application/failure.go], [disposition.go], the sentinels of
      [ports/]): error trees with [errors.Is] and [errors.As], categories,
      dispositions.
    - [Ports] ([ports/]): the data of the ports and the carrier; a slot is a
      pointer, so the carrier holds a location and [Slots] its content.
    - [Codec] ([application/varint.go], [fingerprint.go], [outcome.go],
      [outcome_codec.go]).
    - [OutboundKey] ([application/external_profile.go], [outbound_key.go],
      [next_step.go]).
    - [Interfaces] ([ports/]): the Go interfaces as records of operations over
      any world, the calculus [Confined] of computations that leave a view of
      the world alone, and the promises as classes: [ConfinedInbox],
      [ConfinedInstrumentation], [AtomicUnit].  An operation whose Go type answers
      no error and that a realization may make panic, as the instrumentation's,
      is a computation with no error ([Empty_set]), entered by [unfailing].
    - [Memory] ([memory/store.go], [tx.go], [inbox.go]): the world is the store,
      the working copies as heap cells (a port that escapes its callback still
      points at its own), the pending receptions and the slots.
    - [Ledger] ([memory/attempt_ledger.go]).
    - [Application] ([application/authorize.go], [identity.go], [enqueue.go],
      [decide.go], [idempotent.go], [execute.go], [query.go]), against the
      interfaces; [AppMemory] runs it over [Memory], with the clock and the
      identifiers in memory ([memory/clock.go]).
    - [Dispatch] ([application/dispatch.go], [resolve.go], [abandon.go],
      [sweep.go]), against the interfaces; and, over [Memory], what [Begin] commits.
    - [GoTime]: instants, durations and binary64 floats; [GoStrings]: the
      functions of [strings], [strconv] and [unicode/utf8] the code calls;
      [GoSlices]: comparisons, stable sorting, and the class [MapOrder] of the
      orders in which Go may range over its maps.
    - [Channel] ([transport/channel], [transport/attempt]): channels, windows,
      the catalogue, the attempt header.  [Admission] ([transport/admission]):
      the controller, with its buckets behind pointers and its invariant.
      [Deadline] ([transport/deadline]): the deadline of an outgoing hop.
    - [KafkaWorker] ([kafka/offsets.go], [acknowledger.go], [worker.go],
      [consumer.go], [panic.go]): one worker per partition, the poll loop, the
      rebalance and the shutdown as the steps [run_label] of one system; the
      client and the sink are the environment.  [KafkaInvariant]
      holds its inductive invariants.
    - [Retry] ([observability/retry], [resilience/retry_decorator.go]),
      [Breaker] ([resilience/breaker.go]), [Resilience] (the rest of
      [observability/resilience]).
    - [Envelope] ([contracts/envelope], [contracts/payloadhash]): the envelope,
      its CloudEvent, validation, serialization.  The protobuf runtime is the
      class [ProtoCodec].
    - [Outbox] ([postgres/outbox.go], [mapper.go], [destination.go], [claim.go],
      [signals.go], [purge.go], [app/relay/record.go]): the table and its SQL
      statements as functions on it, each run under an [Answer] (applied,
      refused, or applied with the answer lost), and the assembly of a row.
    - [PgServer]: Postgres as the SQL of the repository uses it, at READ
      COMMITTED: sessions, row locks, unique constraints, savepoints, advisory
      locks, commits; a program [prog] of a session is the tree of statements
      its Go code sends, and [runs_in] runs it while other sessions interleave
      and statements fail.  [PgServerTheorems] holds the server's invariant.
    - [PgTable] ([postgres/table.go], [guard.go], [unique.go], [uow.go], and
      [inbox.go], [purge.go]): the operations as programs.
    - [PgLedger] ([postgres/attempt_ledger.go], [external_attempt.sql]): the
      attempt ledger, its statements as functions on the table each one sees.
    - [ObjectStore] ([ports/objectstore.go], [s3/internal/worm/rules.go],
      [memory/objectstore.go]): versions under retention, the rules, the bucket
      in memory; [S3Store] ([s3/store.go], [worm/wire.go], [s3/admin]): the store
      over a client of S3 that is a parameter, and the administrative path.
    - [Relay] ([app/relay]): configuration, backoff, the delivery of one record
      as a tree of calls [prog], and the relays over one table as the step
      relation [sy_step]; [RelayInvariant] holds its inductive invariant.
    - [Consumer] ([app/consumer.go], [containment.go], [discard.go],
      [attempt.go]): [Consume] and what it is made of, over any world.
    - [Sessions] ([authn/revocation.go], [revocation_memory.go],
      [revocation_apply.go]): the deny list of sessions and users, in memory, and what
      feeds it, and what a deny list promises, as the class [DenyList], with the
      store in memory as an instance; [RedisRevocation] ([redis/]): the store
      over Redis, its script and Redis's answers, as another.
    - [Authn] ([authn/]): the verifier of a credential, the
      consultation of the deny list, permissions, the back-channel logout and
      the declaration of a process; [Polling] ([authn/sessionpolling.go]): the
      cycle over Keycloak's events.
    - [FakeClock] ([observability/clock]): the clock a test advances.
    - [Platform] ([ports/platform.go], [memory/platform.go],
      [postgres/platform.go]): the readers over all tenants and the projectors,
      with their audit; [PlatformTheorems] holds what they promise.
    - [Loops] ([app/sweep.go], [purge.go], [external_budget.go], [policies.go],
      [idempotency.go]): the loops that close stale attempts and purge the
      tables, and the declarations they run under.
    - [HttpClient] ([http/], [transport/compose]): routes, what the edge resolves
      and refuses about a caller, the admission middleware; the client of a
      dependency, whose requests cross the decorators of its sheet as functions on
      one world (clock, budget, breaker, bulkhead), with the round trip and the
      scheduler a parameter; outbound keys and the class of an answer.
    - [Sqs] ([sqs/]): what is published to queues and topics and quarantined, how a
      body is read back; the consumer as two step relations: a receipt's gesture
      against its heartbeat, and the pool of workers.
    - [Grpc] ([grpc/]): statuses and what errors become of them; the client of a
      dependency over the composition of [HttpClient]; the server, whose
      interceptors are functions on the rest of their chain, over the controller of
      [Admission] and the contexts of [Ports].  [GrpcTheorems] holds what it
      promises.
    - [KafkaPublish] ([kafka/publisher.go], [dlq.go], [config.go], [auth.go],
      [classifier.go]): what a process declares towards the broker, what it
      publishes and quarantines, through the same composition.
    - [ServiceRuns]: commands over one table seen from outside, for following a
      row through any sequence of calls.
    - [Orders], [Bookings], [Reservations] ([apps/backend/orders],
      [bookings], [reservations]: [domain/], [application/], the mappers of
      [provider/] and the permissions and consumer of [app/]): the aggregates,
      the commands as [Application.Command]s, the consumption of [OrderPlaced].
    - The conformance tool ([src/tools/dmpf-conformance/internal]), which decides
      whether a workspace keeps the dependency rule: [Rules] ([rule/]: the
      matrix of blocks, capabilities, edges, external dependencies,
      diagnostics, the universe), [Exceptions] ([exception/], [manifest/]),
      [Baseline] ([baseline/]), [Conformance] ([conformance/], over the ports
      of [port/]).
    - [Fixture]: concrete worlds, for the witnesses.
    - [StoreTheorems], [LedgerTheorems], [UseCaseTheorems], [CycleTheorems],
      [ResilienceTheorems], [OutboxTheorems], [RelayTheorems],
      [ConsumerTheorems], [OrdersTheorems], [BookingsTheorems],
      [ReservationsTheorems], [ChannelTheorems], [KafkaTheorems],
      [ManifestTheorems], [ConformanceTheorems],
      [PgLedgerTheorems], [PgLedgerRaces], [PgTableTheorems],
      [PgGuardTheorems], [ObjectStoreTheorems],
      [S3Theorems], [SessionsTheorems], [PollingTheorems]: what the components promise.

    ** What the theorems show

    - Encodings ([Codec]): varints, fingerprints and outcomes are lossless, bytes
      that cannot be read are an error, and a rejection of more than 1024
      details cannot be read back.
    - Partner keys and steps ([OutboundKey]): a derived key is always produced,
      long enough and separates intents; the effect is resent only when that is
      safe, and waiting is bounded.
    - Store ([StoreTheorems]): all or nothing, optimistic saves, unique
      constraints as an invariant, isolation of tenants, one reception per
      message, keys of tenants that never meet.
    - Ledger ([LedgerTheorems]): an invariant over every run of calls, one
      attempt in flight per key, messages that stay ended, complete pages.
    - Postgres, under every interleaving of transactions, aborts, retries,
      deadlocks and lost connections: a save that answers nil commits over the
      version its caller expected ([PgTableTheorems]); a series read under its
      guard is the committed series until its reader ends, every save of a
      guarded table writes under its series' lock, and the lock's text tells
      tenants apart ([PgGuardTheorems]); a first reception is one transaction's
      alone, a repetition reads what was committed ([PgTableTheorems]); the
      ledger refines the in-memory one call by call ([PgLedgerTheorems]), never
      has two attempts of a key in flight, and may begin a message again when a
      final outcome commits between its two reads ([PgLedgerRaces]).
    - Objects: what a retention protects stands, unchanged, and the keys of two
      owners never meet ([ObjectStoreTheorems]); a write over S3 is answered
      honestly and read back as it was written ([S3Theorems]).
    - Use cases ([UseCaseTheorems]): a command runs once and replays afterwards,
      a row and its events travel together; an error leaves nothing, a panic up to
      the commit leaves nothing, and the panics that may follow it, those of the
      instrumentation, leave what the unit of work committed.
    - External cycle ([CycleTheorems]): answers, no second call, sweep pages.
    - Resilience ([ResilienceTheorems]): retries and budgets, the breaker's state
      machine, the bulkhead, orders, routes and sheets.
    - Identity ([AppMemory]) and construction ([Ports], [DomainKernel]).
    - Messages ([Envelope], [OutboxTheorems]): events decode to exactly the valid
      envelopes, what is enqueued is claimable and assembles to what was
      authored, a claim takes exactly the oldest eligible rows.
    - Relays ([RelayTheorems]), under every interleaving of relays, crashes,
      cancellation, retention and lost answers: nothing is marked published
      that the broker did not accept, no committed record is lost, ended
      records stay ended, deliveries are bounded and never share a claim.
    - Consumers ([ConsumerTheorems]): the gestures a delivery meets, in order,
      and the context a handler runs in.
    - Transport: a channel validates exactly when it is operable and a catalogue
      exactly when no addresses collide ([ChannelTheorems]); admission bounds
      what is in flight, and tenants do not meet ([Admission]); a hop's deadline
      keeps its slack ([Deadline]).
    - Kafka ([KafkaTheorems]), under every interleaving of polls, workers,
      panics, rebalances and shutdown: nothing is committed that was not
      acknowledged with all before it, a partition is served in order by one
      worker at a time, no wake-up is lost, what is queued can reach its commit;
      and two runs that leave a partition paused for good.
    - Services, after any sequence of calls, whatever fails between them: an
      order is what its events say ([OrdersTheorems]), a booking is reserved and
      cancelled at most once and resources keep distinct names
      ([BookingsTheorems]), the first decision on a reservation stands and a
      redelivered message decides nothing ([ReservationsTheorems]).
    - Sessions: once a revocation reached the store, no token of that session
      or user issued before it authenticates, and a store that cannot answer
      rejects; Redis answers exactly what the deny list in memory answers,
      whatever expires in it ([SessionsTheorems]); the permissions of a
      credential are those of its claims ([Authn]); exactly the admin events that
      end sessions are recognised ([PollingTheorems]); after a cycle that succeeds the
      store holds every revocation of the window, and an event enters the counts
      once ([PollingTheorems]).
    - Across tenants ([PlatformTheorems]): a walk over the pages sees every row
      once, and no read or projection escapes the audit or the policy, in memory
      and over Postgres.
    - Loops ([Loops]): a cycle of the sweep abandons every stale attempt once,
      and a budget that validates leaves no running dispatch to it.
    - SQS ([Sqs]): a receipt is acknowledged or released once, never extended
      afterwards; no more workers run than declared and no message received is
      lost track of; a body is read back as it was published.
    - HTTP ([HttpClient]): a command under an outbound key is written once at most
      and its failure classed honestly, a request is tried up to its sheet's
      ceiling, and the edge admits exactly what its routes demand.
    - Production to Kafka ([KafkaPublish]): a message goes to the topic its
      destination names, byte for byte, or nothing is produced; success means the
      client acknowledged it; a configuration that validates is authenticated.
    - gRPC ([GrpcTheorems]): a server runs a method only for a call it vetted, once,
      under the contexts it authored, answers every call with a public status, a
      panic included, and gives back what admission granted; a client repeats only
      what is declared idempotent.
    - The fake clock ([FakeClock]): an alarm fires once, at the first
      advance that reaches it, in the order of deadlines.
    - Conformance: the matrix is closed under paths, diagnostics stay on one
      line, an authorisation in force is nominal and none opens a pure block
      ([ManifestTheorems]); the digest tells baselines apart, the comparison is
      exact, a rewritten baseline conforms, the designation marks what it names
      ([ManifestTheorems]); the report does not depend on the order of maps, and
      a clean one means every edge is allowed ([ConformanceTheorems]).

    ** Conventions and bounds

    An [int], [int64], duration or instant is a [Z]; arithmetic that can leave
    the range is written with [+!], [-!] and [*!].  A mutex makes what it guards
    one step, so concurrency is a sequence of steps ([txMu] of the store, the
    locks of the breaker, the compare-and-swap loops of the budget) or a step
    relation where calls overlap.  Loops on lists are structural.  The loops with
    fuel are: the varint writer (10 rounds of seven bits cover 64), [symbolBits]
    (63 halvings), the decimal digits (19 for an [int]), each with a lemma that
    the fuel is enough, the scans of blanks ([blank], [TrimSpace]: a rune takes a
    byte at least, so the length is enough), the pages of a sweep's cycle
    ([cycle_abandons_every_stale]: one more than there are stale attempts), the
    batches of a purge's, the pages of a polling cycle (the code's own bound), the
    pages of a topic's subscriptions (the broker names them: without enough fuel
    there is no answer), and the retry loop, whose fuel is [MaxAttempts] and for
    which [NewRetry_bounded] proves that it always answers.  Hash functions, the
    partner, the order of maps and Unicode's table of printable runes are
    parameters.  Error values keep the constant part of their text; no decision of
    the program reads it.

    ** Not modelled

    Spans, metrics and logs; nil checks of interface fields other than
    [Dispatch]'s; the cancel functions of contexts; the kafka client, and the
    construction of the clients of S3, SQS, SNS, Redis and
    Keycloak; Postgres's grants, migrations, pool and
    quarantine; the failure of a statement of the Postgres ledger itself; the
    handlers of the HTTP edge, and the listener, streams and descriptors of gRPC; generated code and test kits; the conformance
    tool's reading of files and of go list, and its synchronisation of modules and infrastructure.

    A clock and a source of identifiers answer a value always ([Clock],
    [IDGenerator]).  The Postgres ledger's attempt number is a [Z], not an [int4],
    and the texts Postgres refuses are not among its columns' values; its calls
    interleave with each other ([PgLedgerRaces]) and not with [PurgeAttempts],
    which forgets old attempts and so breaks their numbering from one.
    [RedisRevocation]'s theorems read the server's clock as the store's.  A relay's
    statement ends before its client gives up on it, and [release] does not panic
    ([sy_step]).  [Grpc]'s chain is the one of unary calls. *)

From Stdlib Require Export ZArith Lia Ascii String.
From stdpp Require Export base tactics numbers option list strings gmap.

#[global] Open Scope Z_scope.
#[global] Set Default Goal Selector "!".

(** * Machine integers

    Go's [int], [int64], [time.Duration] and [domain.Instant] are two's
    complement integers of 64 bits whose arithmetic wraps.  They are modelled
    as [Z] kept in range by [wrap64]. *)
Definition min_int64 : Z := - 2 ^ 63.
Definition max_int64 : Z := 2 ^ 63 - 1.
Definition in_int64 (z : Z) : Prop := min_int64 <= z <= max_int64.
Definition wrap64 (z : Z) : Z := (z + 2 ^ 63) mod 2 ^ 64 - 2 ^ 63.
Definition wrapu64 (z : Z) : Z := z mod 2 ^ 64.
(** [int32(z)]. *)
Definition int32_of (z : Z) : Z := (z + 2 ^ 31) mod 2 ^ 32 - 2 ^ 31.

Declare Scope go_scope.
Delimit Scope go_scope with go.
Notation "a +! b" := (wrap64 (a + b)) (at level 50, left associativity) : go_scope.
Notation "a -! b" := (wrap64 (a - b)) (at level 50, left associativity) : go_scope.
Notation "a *! b" := (wrap64 (a * b)) (at level 40, left associativity) : go_scope.
#[global] Open Scope go_scope.

Lemma wrap64_id z : in_int64 z -> wrap64 z = z.
Proof.
  unfold in_int64, min_int64, max_int64, wrap64. intros H.
  rewrite Z.mod_small; lia.
Qed.

Lemma wrap64_in z : in_int64 (wrap64 z).
Proof.
  unfold in_int64, min_int64, max_int64, wrap64.
  pose proof (Z.mod_pos_bound (z + 2 ^ 63) (2 ^ 64) ltac:(lia)). lia.
Qed.

(** Wrapping forgets multiples of [2 ^ 64]. *)
Lemma wrap64_mod z : wrap64 z mod 2 ^ 64 = z mod 2 ^ 64.
Proof.
  unfold wrap64.
  rewrite Zminus_mod_idemp_l. f_equal. lia.
Qed.

#[global] Instance in_int64_dec z : Decision (in_int64 z).
Proof. unfold in_int64. apply _. Defined.

(** [solve_int64] closes range side conditions. *)
Ltac solve_int64 :=
  unfold in_int64, min_int64, max_int64 in *;
  try change (2 ^ 63) with 9223372036854775808 in *;
  try change (2 ^ 64) with 18446744073709551616 in *; lia.

(** * Results and stateful computations

    A Go function that returns [(T, error)] is a [result]: a value, an error,
    or a panic that unwinds.  One that also mutates state is a computation
    [M S E A]; a failure keeps the mutations made before it, as in Go. *)
Inductive result (E A : Type) : Type :=
| Ok (a : A)
| Err (e : E)
| Panic (why : string).
Arguments Ok {E A} a.
Arguments Err {E A} e.
Arguments Panic {E A} why.

#[global] Instance result_ret {E} : MRet (result E) := fun _ a => Ok a.
#[global] Instance result_bind {E} : MBind (result E) := fun _ _ f r =>
  match r with Ok a => f a | Err e => Err e | Panic w => Panic w end.

Definition is_Ok {E A} (r : result E A) : bool :=
  match r with Ok _ => true | _ => false end.
Definition is_Err {E A} (r : result E A) : bool :=
  match r with Err _ => true | _ => false end.

(** A guard of the form [if !cond { return err }]. *)
Definition require {E} (b : bool) (e : E) : result E unit :=
  if b then Ok () else Err e.

Definition M (S E A : Type) : Type := S -> result E A * S.

#[global] Instance M_ret {S E} : MRet (M S E) := fun _ a s => (Ok a, s).
#[global] Instance M_bind {S E} : MBind (M S E) := fun _ _ f m s =>
  match m s with
  | (Ok a, s') => f a s'
  | (Err e, s') => (Err e, s')
  | (Panic w, s') => (Panic w, s')
  end.

Section Monad.
Context {S E : Type}.

Definition throw {A} (e : E) : M S E A := fun s => (Err e, s).
Definition panic {A} (w : string) : M S E A := fun s => (Panic w, s).
Definition get : M S E S := fun s => (Ok s, s).
Definition gets {A} (f : S -> A) : M S E A := fun s => (Ok (f s), s).
Definition modify (f : S -> S) : M S E unit := fun s => (Ok (), f s).
Definition lift {A} (r : result E A) : M S E A := fun s => (r, s).
(** Run [m] and hand its result to [k] whatever it is: how Go code inspects
    an error instead of returning it. *)
Definition attempt {A} (m : M S E A) : M S E (result E A) := fun s =>
  match m s with
  | (Panic w, s') => (Panic w, s')
  | (r, s') => (Ok r, s')
  end.
(** [if err != nil { return f(err) }]. *)
Definition map_err {A} (f : E -> E) (m : M S E A) : M S E A := fun s =>
  match m s with
  | (Err e, s') => (Err (f e), s')
  | r => r
  end.

Lemma bind_Ok {A B} (m : M S E A) (f : A -> M S E B) s a s' :
  m s = (Ok a, s') -> (m ≫= f) s = f a s'.
Proof. intros H. unfold mbind, M_bind. by rewrite H. Qed.

Lemma bind_Err {A B} (m : M S E A) (f : A -> M S E B) s e s' :
  m s = (Err e, s') -> (m ≫= f) s = (Err e, s').
Proof. intros H. unfold mbind, M_bind. by rewrite H. Qed.

Lemma bind_inv {A B} (m : M S E A) (f : A -> M S E B) s b s'' :
  (m ≫= f) s = (Ok b, s'') ->
  exists a s', m s = (Ok a, s') /\ f a s' = (Ok b, s'').
Proof.
  unfold mbind, M_bind. destruct (m s) as [[a | e | w] s'] eqn:E'; [eauto | done | done].
Qed.

Lemma bind_ret_l {A B} (a : A) (f : A -> M S E B) s : (mret a ≫= f) s = f a s.
Proof. done. Qed.

Lemma bind_assoc_at {A B C} (m : M S E A) (f : A -> M S E B) (g : B -> M S E C) s :
  ((m ≫= f) ≫= g) s = (m ≫= (fun a => f a ≫= g)) s.
Proof. unfold mbind, M_bind. by destruct (m s) as [[] ?]. Qed.
End Monad.

(** * Bytes

    A byte is an integer of [0, 255]; a Go string is converted to its bytes and
    back without loss. *)
Definition byte_ok (b : Z) : Prop := 0 <= b < 256.
Definition bytes_of (s : string) : list Z :=
  map (fun c => Z.of_N (N_of_ascii c)) (list_ascii_of_string s).
Definition string_of (bs : list Z) : string :=
  string_of_list_ascii (map (fun b => ascii_of_N (Z.to_N b)) bs).

Lemma string_of_bytes_of s : string_of (bytes_of s) = s.
Proof.
  unfold string_of, bytes_of. rewrite map_map.
  rewrite <- (string_of_list_ascii_of_string s) at 2. f_equal.
  induction (list_ascii_of_string s) as [| c l IH]; [done |]. cbn.
  by rewrite N2Z.id, ascii_N_embedding, IH.
Qed.

Lemma bytes_of_inj s1 s2 : bytes_of s1 = bytes_of s2 -> s1 = s2.
Proof. intros H. by rewrite <- (string_of_bytes_of s1), H, string_of_bytes_of. Qed.

Lemma bytes_of_append s t : bytes_of (s ++ t) = (bytes_of s ++ bytes_of t)%list.
Proof.
  induction s as [| c s IH]; [done |].
  change (bytes_of (String c (s ++ t)) = (bytes_of (String c s) ++ bytes_of t)%list).
  unfold bytes_of in *. cbn in *. by rewrite IH.
Qed.
Lemma bytes_of_ok s : Forall byte_ok (bytes_of s).
Proof.
  unfold bytes_of. induction (list_ascii_of_string s) as [| c l IH]; [constructor |].
  cbn. constructor; [| done]. unfold byte_ok. pose proof (N_ascii_bounded c). lia.
Qed.

Lemma bytes_of_string_of bs : Forall byte_ok bs -> bytes_of (string_of bs) = bs.
Proof.
  unfold bytes_of, string_of. rewrite list_ascii_of_string_of_list_ascii, map_map.
  induction 1 as [| b bs Hb _ IH]; [done |]. cbn. rewrite IH. f_equal.
  unfold byte_ok in Hb. rewrite N_ascii_embedding; lia.
Qed.

(** [len], as an [int]. *)
Definition len {A} (l : list A) : Z := Z.of_nat (length l).

Lemma len_app {A} (l k : list A) : len (l ++ k) = len l + len k.
Proof. unfold len. rewrite length_app. lia. Qed.

Lemma len_nonneg {A} (l : list A) : 0 <= len l.
Proof. unfold len. lia. Qed.

(** A run of a prefix's length takes the prefix off. *)
Lemma take_len_app {A} (l k : list A) : take (Z.to_nat (len l)) (l ++ k) = l.
Proof. unfold len. rewrite Nat2Z.id. apply take_app_length. Qed.
Lemma drop_len_app {A} (l k : list A) : drop (Z.to_nat (len l)) (l ++ k) = k.
Proof. unfold len. rewrite Nat2Z.id. apply drop_app_length. Qed.

(** Low bits and shifted bits do not meet. *)
Lemma lor_disjoint a b s :
  0 <= s -> 0 <= a < 2 ^ s -> 0 <= b -> Z.lor a (Z.shiftl b s) = a + b * 2 ^ s.
Proof.
  intros Hs Ha Hb. rewrite <- Z.shiftl_mul_pow2 by done.
  assert (Z.land a (Z.shiftl b s) = 0) as H0.
  { apply Z.bits_inj'. intros n Hn. rewrite Z.land_spec, Z.bits_0.
    destruct (Z.lt_ge_cases n s) as [Hlt | Hge].
    - rewrite Z.shiftl_spec_low by done. apply andb_false_r.
    - rewrite <- (Z.mod_small a (2 ^ s)) by done.
      rewrite Z.mod_pow2_bits_high by lia. done. }
  rewrite <- (Z.lxor_lor _ _ H0). symmetry. by apply Z.add_nocarry_lxor.
Qed.

(** Two tests that agree on a list keep the same of it. *)
Lemma filter_agree {A} (P Q : A -> Prop) `{!forall x, Decision (P x), !forall x, Decision (Q x)} (l : list A) :
  (forall x, x ∈ l -> P x <-> Q x) -> filter P l = filter Q l.
Proof.
  induction l as [| x l IH]; intros Hl; [done |]. rewrite !filter_cons.
  rewrite IH by (intros y Hy; apply Hl, elem_of_cons; by right).
  assert (P x <-> Q x) by (apply Hl, elem_of_cons; by left).
  destruct (decide (P x)), (decide (Q x)); tauto || done.
Qed.

(** * Decimal digits, as [fmt] and [strconv] print an [int] *)
Fixpoint digits_loop (fuel : nat) (n : Z) (acc : list Z) : list Z :=
  match fuel with
  | O => acc
  | S fuel' => if n <? 10 then n :: acc else digits_loop fuel' (n / 10) (n mod 10 :: acc)
  end.
(** An [int] has at most nineteen digits. *)
Definition digits (n : Z) : list Z := digits_loop 19 n [].
Definition digit_char (d : Z) : Z := 48 + d.
(** [strconv.Itoa]. *)
Definition Itoa (n : Z) : string :=
  if n <? 0 then (String "-" (string_of (map digit_char (digits (- n)))))
  else string_of (map digit_char (digits n)).
