(* ===== verification/GoTime.v ===== *)
(** Durations, instants and 64-bit floats as the resilience and transport
    packages use them: [time.Duration] is an [int64] of nanoseconds,
    [time.Time.Sub] saturates, and a [float64] is Stdlib's executable
    specification of IEEE 754 binary64. *)

From Stdlib Require Import SpecFloat.
From S2P Require Import Prelude.

(** * Time *)
Definition Millisecond : Z := 1000000.
Definition Second : Z := 1000 * Millisecond.

(** A [time.Time] is its nanoseconds; the difference of two saturates. *)
Definition time_sub (a b : Z) : Z := Z.max min_int64 (Z.min max_int64 (a - b)).

Lemma time_sub_id a b : in_int64 (a - b) -> time_sub a b = a - b.
Proof. unfold time_sub, in_int64. lia. Qed.

Lemma time_sub_in a b : in_int64 (time_sub a b).
Proof. unfold time_sub. solve_int64. Qed.

(** * Floats *)
Notation float64 := spec_float.

Definition float_of_Z (z : Z) : float64 := binary_normalize 53 1024 z 0 false.
Definition float_div : float64 -> float64 -> float64 := SFdiv 53 1024.
Definition float_mul : float64 -> float64 -> float64 := SFmul 53 1024.
Definition float_leb : float64 -> float64 -> bool := SFleb.
Definition float_ltb : float64 -> float64 -> bool := SFltb.
Definition float_add : float64 -> float64 -> float64 := SFadd 53 1024.
Definition float_sub : float64 -> float64 -> float64 := SFsub 53 1024.

(** The builtin [min]: a NaN wins, and a negative zero before a positive one. *)
Definition float_min (a b : float64) : float64 :=
  match a, b with
  | S754_nan, _ | _, S754_nan => S754_nan
  | _, _ =>
      if float_ltb a b then a else if float_ltb b a then b
      else match a with S754_zero true => a | _ => b end
  end.

(** [Duration.Seconds]. *)
Definition duration_seconds (d : Z) : float64 :=
  float_add (float_of_Z (Z.quot d Second))
    (float_div (float_of_Z (Z.rem d Second)) (float_of_Z 1000000000)).

(** Conversion of a float to [int64] truncates. *)
Definition float_trunc (f : float64) : Z :=
  match f with
  | S754_finite s m e =>
      let v := if e <? 0 then Z.pos m / 2 ^ (- e) else Z.pos m * 2 ^ e in
      if s then - v else v
  | _ => 0
  end.

(** 0.5 and friends: [num / 2 ^ k]. *)
Definition float_half : float64 := float_div (float_of_Z 1) (float_of_Z 2).
