(* ===== verification/GoStrings.v ===== *)
(** The functions of [strings], [strconv] and [time] the program calls on
    strings: splitting, searching, blanks, decimal integers and the text of a
    duration. *)

From S2P Require Import Prelude GoTime.

(** * Cutting ([strings.Split], [strings.LastIndex], [strings.Contains]) *)

(** [strings.Split(s, sep)] for a separator of one character. *)
Fixpoint split_on (sep : ascii) (s : string) : list string :=
  match s with
  | EmptyString => [""%string]
  | String c s' =>
      if Ascii.eqb c sep then ""%string :: split_on sep s'
      else match split_on sep s' with
           | seg :: segs => String c seg :: segs
           | [] => [String c ""%string]
           end
  end.

(** [s[strings.LastIndex(s, sep)+1:]], and whether the separator occurs. *)
Fixpoint after_last (sep : ascii) (s : string) : option string :=
  match s with
  | EmptyString => None
  | String c s' =>
      match after_last sep s' with
      | Some r => Some r
      | None => if Ascii.eqb c sep then Some s' else None
      end
  end.

(** [strings.Contains(s, sub)]. *)
Fixpoint contains (sub s : string) : bool :=
  String.prefix sub s || match s with EmptyString => false | String _ s' => contains sub s' end.

(** [strings.NewReplacer(from, to)] for one character. *)
Definition replace_char (from to : ascii) (s : string) : string :=
  String.string_of_list_ascii
    (map (fun c => if Ascii.eqb c from then to else c) (String.list_ascii_of_string s)).

(** * Blanks: the blank strings [strings.TrimSpace] empties *)

(** The bytes of a leading [unicode.IsSpace] rune, and what follows it. *)
Definition space_rune (bs : list Z) : option (list Z) :=
  match bs with
  | b :: rest =>
      if (9 <=? b) && (b <=? 13) || (b =? 32) then Some rest
      else match rest with
      | b2 :: rest2 =>
          if (b =? 194) && ((b2 =? 133) || (b2 =? 160)) then Some rest2      (* U+0085, U+00A0 *)
          else match rest2 with
          | b3 :: rest3 =>
              if (b =? 225) && (b2 =? 154) && (b3 =? 128) then Some rest3    (* U+1680 *)
              else if (b =? 226) && (b2 =? 128)
                      && ((128 <=? b3) && (b3 <=? 138) || (b3 =? 168) || (b3 =? 169) || (b3 =? 175))
              then Some rest3                               (* U+2000-200A, U+2028/9, U+202F *)
              else if (b =? 226) && (b2 =? 129) && (b3 =? 159) then Some rest3   (* U+205F *)
              else if (b =? 227) && (b2 =? 128) && (b3 =? 128) then Some rest3   (* U+3000 *)
              else None
          | [] => None
          end
      | [] => None
      end
  | [] => None
  end.
Fixpoint blank_loop (fuel : nat) (bs : list Z) : bool :=
  match bs, fuel with
  | [], _ => true
  | _, O => false
  | _, S fuel' => match space_rune bs with Some rest => blank_loop fuel' rest | None => false end
  end.
(** Every step takes a byte at least, so the length is fuel enough. *)
Definition blank (s : string) : bool := blank_loop (String.length s) (bytes_of s).

(** * Decimal integers ([strconv.Itoa], [strconv.Atoi]) *)
Definition value_of (ds : list Z) : Z := foldl (fun v d => v * 10 + d) 0 ds.

Lemma foldl_value ds v : foldl (fun v d => v * 10 + d) v ds = v * 10 ^ len ds + value_of ds.
Proof.
  unfold value_of. revert v. induction ds as [| d ds IH]; intros v; cbn [foldl].
  - change (len []) with 0. rewrite Z.pow_0_r. lia.
  - rewrite IH, (IH (0 * 10 + d)). replace (len (d :: ds)) with (len ds + 1) by (unfold len; cbn [length]; lia).
    rewrite Z.pow_add_r by (pose proof (len_nonneg ds); lia). lia.
Qed.

Lemma value_of_app l k : value_of (l ++ k) = value_of l * 10 ^ len k + value_of k.
Proof. unfold value_of at 1. rewrite foldl_app. apply foldl_value. Qed.

Lemma digits_loop_app fuel n acc : digits_loop fuel n acc = digits_loop fuel n [] ++ acc.
Proof.
  revert n acc. induction fuel as [| fuel IH]; intros n acc; cbn; [done |].
  case_match; [done |]. rewrite IH, (IH _ [_]), <- app_assoc. done.
Qed.

Lemma digits_loop_value fuel n :
  0 <= n < 10 ^ Z.of_nat fuel -> value_of (digits_loop fuel n []) = n.
Proof.
  revert n. induction fuel as [| fuel IH]; intros n Hn; cbn [digits_loop].
  - change (Z.of_nat 0) with 0 in Hn. rewrite Z.pow_0_r in Hn. unfold value_of. cbn. lia.
  - destruct (Z.ltb_spec n 10) as [_ | Hge]; [unfold value_of; cbn; lia |].
    rewrite Nat2Z.inj_succ, Z.pow_succ_r in Hn by lia.
    rewrite digits_loop_app, value_of_app, IH.
    + change (len [n mod 10]) with 1. unfold value_of. cbn [foldl].
      pose proof (Z.div_mod n 10 ltac:(lia)). lia.
    + pose proof (Z.div_mod n 10 ltac:(lia)). pose proof (Z.mod_pos_bound n 10 ltac:(lia)). lia.
Qed.

Lemma digits_range fuel n :
  0 <= n -> Forall (fun d => 0 <= d < 10) (digits_loop fuel n []).
Proof.
  revert n. induction fuel as [| fuel IH]; intros n Hn; cbn [digits_loop]; [constructor |].
  destruct (Z.ltb_spec n 10); [repeat constructor; lia |].
  rewrite digits_loop_app. apply Forall_app. split.
  - apply IH. apply Z.div_pos; lia.
  - repeat constructor; pose proof (Z.mod_pos_bound n 10 ltac:(lia)); lia.
Qed.

(** The value of a run of digits; nothing else is accepted. *)
Fixpoint parse_digits (bs : list Z) (v : Z) : option Z :=
  match bs with
  | [] => Some v
  | b :: bs' => if (48 <=? b) && (b <=? 57) then parse_digits bs' (v * 10 + (b - 48)) else None
  end.
Definition parse_unsigned (bs : list Z) : option Z :=
  match bs with [] => None | _ => parse_digits bs 0 end.
(** [strconv.Atoi]: an optional sign, then at least one digit, within the range
    of an [int]. *)
Definition parse_signed (bs : list Z) : option Z :=
  match bs with
  | 45 :: rest => Z.opp <$> parse_unsigned rest
  | 43 :: rest => parse_unsigned rest
  | _ => parse_unsigned bs
  end.
Definition Atoi (s : string) : option Z :=
  match parse_signed (bytes_of s) with
  | Some v => if bool_decide (in_int64 v) then Some v else None
  | None => None
  end.

Lemma parse_digits_map ds v :
  Forall (fun d => 0 <= d < 10) ds ->
  parse_digits (map digit_char ds) v = Some (foldl (fun v d => v * 10 + d) v ds).
Proof.
  intros Hds. revert v. induction Hds as [| d ds Hd _ IH]; intros v; [done |].
  cbn [map parse_digits foldl]. replace (digit_char d - 48) with d by (unfold digit_char; lia).
  destruct (Z.leb_spec 48 (digit_char d)); [| unfold digit_char in *; lia].
  destruct (Z.leb_spec (digit_char d) 57); [| unfold digit_char in *; lia]. apply IH.
Qed.

Lemma digits_loop_nonempty fuel n acc : (0 < fuel)%nat -> digits_loop fuel n acc <> [].
Proof.
  revert n acc. induction fuel as [| fuel IH]; intros n acc Hf; [lia |]. cbn.
  destruct (n <? 10); [done |]. destruct fuel; [done |]. apply IH. lia.
Qed.

Lemma parse_unsigned_digits n :
  0 <= n < 10 ^ 19 -> parse_unsigned (map digit_char (digits n)) = Some n.
Proof.
  intros Hn. unfold parse_unsigned, digits.
  pose proof (digits_loop_nonempty 19 n [] ltac:(lia)) as Hne.
  pose proof (digits_range 19 n ltac:(lia)) as Hr.
  pose proof (digits_loop_value 19 n Hn) as Hv.
  destruct (digits_loop 19 n []) as [| d ds] eqn:Hd; [done |].
  cbn [map]. change (parse_digits (map digit_char (d :: ds)) 0 = Some n). rewrite parse_digits_map by done.
  unfold value_of in Hv. by rewrite Hv.
Qed.

Lemma digit_bytes n :
  0 <= n < 10 ^ 19 ->
  bytes_of (string_of (map digit_char (digits n))) = map digit_char (digits n).
Proof.
  intros Hn. apply bytes_of_string_of, Forall_map.
  eapply Forall_impl; [apply digits_range; lia |]. cbv beta. unfold digit_char, byte_ok. intros d Hd. lia.
Qed.

Lemma parse_unsigned_head b bs v : parse_unsigned (b :: bs) = Some v -> 48 <= b <= 57.
Proof. cbn. destruct (Z.leb_spec 48 b); destruct (Z.leb_spec b 57); cbn; (lia || done). Qed.

(** An [int] is read back from its decimal text. *)
Lemma Atoi_Itoa n : in_int64 n -> Atoi (Itoa n) = Some n.
Proof.
  intros Hn. pose proof Hn as [H1 H2]. unfold min_int64, max_int64 in *. unfold Atoi, Itoa.
  destruct (Z.ltb_spec n 0) as [Hneg | Hpos].
  - assert (bytes_of (String "-" (string_of (map digit_char (digits (- n))))) =
      45 :: map digit_char (digits (- n))) as ->.
    { transitivity (45 :: bytes_of (string_of (map digit_char (digits (- n))))); [done |].
      rewrite digit_bytes by lia. done. }
    cbn [parse_signed]. rewrite parse_unsigned_digits by lia. cbn. rewrite Z.opp_involutive, bool_decide_eq_true_2; done.
  - rewrite digit_bytes by lia. pose proof (parse_unsigned_digits n ltac:(lia)) as Hp.
    destruct (map digit_char (digits n)) as [| b bs] eqn:Hb; rewrite ?Hb in Hp; [done |].
    pose proof (parse_unsigned_head _ _ _ Hp) as Hh.
    assert (parse_signed (b :: bs) = Some n) as ->.
    { unfold parse_signed. repeat (case_match; try done; try lia). }
    by rewrite bool_decide_eq_true_2.
Qed.

Lemma Atoi_in s n : Atoi s = Some n -> in_int64 n.
Proof.
  unfold Atoi. destruct (parse_signed _) as [v |]; [| done].
  case_bool_decide; [by intros [= <-] | done].
Qed.

(** * [strconv.FormatBool] *)
Definition FormatBool (b : bool) : string := if b then "true" else "false".

(** * [time.Duration.String] *)

(** [fmtFrac]: the last [prec] digits without their trailing zeros, and the rest. *)
Fixpoint fmt_frac (prec : nat) (v : Z) (print : bool) (acc : list Z) : list Z * Z :=
  match prec with
  | O => (if print then 46 :: acc else acc, v)
  | S prec' =>
      let digit := v mod 10 in
      let print := print || negb (digit =? 0) in
      fmt_frac prec' (v / 10) print (if print then digit_char digit :: acc else acc)
  end.
Definition fmt_int (v : Z) : list Z := map digit_char (digits v).
Definition duration_text (u : Z) : list Z :=
  if u =? 0 then bytes_of "0s"
  else if u <? 1000 then fmt_int u ++ bytes_of "ns"
  else if u <? 1000000 then
    let '(frac, v) := fmt_frac 3 u false [] in fmt_int v ++ frac ++ [194; 181; 115]
  else if u <? Second then
    let '(frac, v) := fmt_frac 6 u false [] in fmt_int v ++ frac ++ bytes_of "ms"
  else
    let '(frac, v) := fmt_frac 9 u false [] in
    let seconds := fmt_int (v mod 60) ++ frac ++ bytes_of "s" in
    let minutes := v / 60 in
    if minutes =? 0 then seconds
    else
      let text := fmt_int (minutes mod 60) ++ bytes_of "m" ++ seconds in
      let hours := minutes / 60 in
      if hours =? 0 then text else fmt_int hours ++ bytes_of "h" ++ text.
Definition Duration_String (d : Z) : string :=
  string_of (if d <? 0 then 45 :: duration_text (- d) else duration_text d).

Example duration_texts :
  map Duration_String [0; 1; 1500; 2000000; 1500000000; 604800000000000; -90000000000] =
  ["0s"; "1ns"; String (ascii_of_nat 49) (String "." (String "5" (string_of [194; 181; 115])));
   "2ms"; "1.5s"; "168h0m0s"; "-1m30s"]%string.
Proof. vm_compute. reflexivity. Qed.

(** ** Numbers and durations are not blank *)
Lemma space_rune_digit b rest : 48 <= b <= 57 -> space_rune (b :: rest) = None.
Proof.
  intros Hb. cbn [space_rune]. destruct (Z.leb_spec 9 b); [| lia]. destruct (Z.leb_spec b 13); [lia |].
  destruct (Z.eqb_spec b 32); [lia |]. cbn [andb orb]. destruct rest as [| b2 [| b3 rest]]; try done.
  - destruct (Z.eqb_spec b 194); [lia | done].
  - destruct (Z.eqb_spec b 194); [lia |]. destruct (Z.eqb_spec b 225); [lia |].
    destruct (Z.eqb_spec b 226); [lia |]. destruct (Z.eqb_spec b 227); [lia |]. done.
Qed.

Lemma blank_digit d l : 0 <= d < 10 -> blank (string_of (digit_char d :: l)) = false.
Proof.
  intros Hd. unfold blank.
  assert (exists b rest, bytes_of (string_of (digit_char d :: l)) = b :: rest /\ 48 <= b <= 57)
    as (b & rest & -> & Hb).
  { assert (d = 0 \/ d = 1 \/ d = 2 \/ d = 3 \/ d = 4 \/ d = 5 \/ d = 6 \/ d = 7 \/ d = 8 \/ d = 9)
      as Hcase by lia.
    destruct Hcase as [-> | [-> | [-> | [-> | [-> | [-> | [-> | [-> | [-> | ->]]]]]]]]];
      (eexists _, _; split; [reflexivity | vm_compute; split; discriminate]). }
  destruct (String.length _); cbn [blank_loop]; [done |]. by rewrite space_rune_digit.
Qed.

Lemma fmt_int_head v : 0 <= v -> exists d l, fmt_int v = digit_char d :: l /\ 0 <= d < 10.
Proof.
  intros Hv. unfold fmt_int, digits. pose proof (digits_range 19 v Hv) as Hr.
  pose proof (digits_loop_nonempty 19 v [] ltac:(lia)) as Hne.
  destruct (digits_loop 19 v []) as [| d l]; [done |]. apply Forall_cons in Hr as [Hd _].
  by exists d, (map digit_char l).
Qed.
Lemma blank_fmt_int v l : 0 <= v -> blank (string_of (fmt_int v ++ l)) = false.
Proof. intros Hv. destruct (fmt_int_head v Hv) as (d & k & -> & Hd). by apply blank_digit. Qed.

Lemma blank_Itoa n : 0 <= n -> blank (Itoa n) = false.
Proof.
  intros Hn. unfold Itoa. destruct (Z.ltb_spec n 0); [lia |].
  rewrite <- (app_nil_r (map digit_char (digits n))). by apply blank_fmt_int.
Qed.

Lemma fmt_frac_rest prec v print acc : (fmt_frac prec v print acc).2 = v / 10 ^ Z.of_nat prec.
Proof.
  revert v print acc. induction prec as [| prec IH]; intros v print acc; cbn [fmt_frac snd].
  { by rewrite Z.div_1_r. }
  rewrite IH, Z.div_div by (try lia; apply Z.pow_pos_nonneg; lia). f_equal.
  rewrite Nat2Z.inj_succ, Z.pow_succ_r by lia. lia.
Qed.
Lemma fmt_frac_pos prec v print acc : 0 <= v -> 0 <= (fmt_frac prec v print acc).2.
Proof. intros Hv. rewrite fmt_frac_rest. apply Z.div_pos; [done |]. apply Z.pow_pos_nonneg; lia. Qed.

Lemma duration_text_head u : 0 < u -> exists v l, 0 <= v /\ duration_text u = fmt_int v ++ l.
Proof.
  intros Hu. unfold duration_text. destruct (Z.eqb_spec u 0); [lia |].
  destruct (u <? 1000); [by eexists u, _; split; [lia |] |].
  pose proof (fmt_frac_pos 3 u false [] ltac:(lia)) as H3.
  pose proof (fmt_frac_pos 6 u false [] ltac:(lia)) as H6.
  pose proof (fmt_frac_pos 9 u false [] ltac:(lia)) as H9.
  destruct (u <? 1000000); [destruct (fmt_frac 3 _ _ _) as [frac v]; by eexists v, _ |].
  destruct (u <? Second); [destruct (fmt_frac 6 _ _ _) as [frac v]; by eexists v, _ |].
  destruct (fmt_frac 9 _ _ _) as [frac v]. cbn in H9. cbv zeta.
  destruct (v / 60 =? 0); [eexists (v mod 60), _; split; [apply Z.mod_pos_bound; lia | done] |].
  destruct (v / 60 / 60 =? 0).
  - eexists (v / 60 mod 60), _. split; [apply Z.mod_pos_bound; lia | done].
  - eexists (v / 60 / 60), _. split; [repeat apply Z.div_pos; lia | done].
Qed.

Lemma blank_Duration_String d : 0 < d -> blank (Duration_String d) = false.
Proof.
  intros Hd. unfold Duration_String. destruct (Z.ltb_spec d 0); [lia |].
  destruct (duration_text_head d Hd) as (v & l & Hv & ->). by apply blank_fmt_int.
Qed.

(** * UTF-8 ([unicode/utf8]) *)

(** The width of a valid first rune, as [utf8.DecodeRune] has it. *)
Definition in_range (lo hi : Z) (b : Z) : bool := (lo <=? b) && (b <=? hi).
Definition rune_width (bs : list Z) : option nat :=
  let cont := in_range 128 191 in
  match bs with
  | b :: _ =>
      if b <? 128 then Some 1%nat
      else match bs with
      | _ :: c :: rest =>
          if in_range 194 223 b && cont c then Some 2%nat
          else match rest with
          | d :: rest' =>
              if ((b =? 224) && in_range 160 191 c
                  || (in_range 225 236 b || in_range 238 239 b) && cont c
                  || (b =? 237) && in_range 128 159 c) && cont d then Some 3%nat
              else match rest' with
              | e :: _ =>
                  if ((b =? 240) && in_range 144 191 c || in_range 241 243 b && cont c
                      || (b =? 244) && in_range 128 143 c) && cont d && cont e
                  then Some 4%nat else None
              | [] => None
              end
          | [] => None
          end
      | _ => None
      end
  | [] => None
  end.
(** U+FFFD, and a text whose invalid bytes are replaced by it. *)
Definition replacement : list Z := [239; 191; 189].
Fixpoint coerce_from (skip : nat) (bs : list Z) : list Z :=
  match bs with
  | [] => []
  | b :: bs' =>
      match skip with
      | S k => b :: coerce_from k bs'
      | O => match rune_width bs with
             | Some w => b :: coerce_from (w - 1) bs'
             | None => replacement ++ coerce_from 0 bs'
             end
      end
  end.
Fixpoint valid_from (skip : nat) (bs : list Z) : bool :=
  match bs with
  | [] => true
  | _ :: bs' =>
      match skip with
      | S k => valid_from k bs'
      | O => match rune_width bs with Some w => valid_from (w - 1) bs' | None => false end
      end
  end.
Definition valid_utf8 (s : string) : bool := valid_from 0 (bytes_of s).

Lemma coerce_valid skip bs : valid_from skip bs = true -> coerce_from skip bs = bs.
Proof.
  revert skip. induction bs as [| b bs IH]; intros skip; [done |].
  cbn [valid_from coerce_from]. destruct skip as [| k].
  - destruct (rune_width _); [| done]. intros Hv. by rewrite IH.
  - intros Hv. by rewrite IH.
Qed.

(** Text in one-byte runes is valid. *)
Lemma valid_ascii bs : Forall (fun b => b < 128) bs -> valid_from 0 bs = true.
Proof.
  induction 1 as [| b bs Hb _ IH]; [done |]. cbn [valid_from rune_width].
  destruct (Z.ltb_spec b 128); [exact IH | lia].
Qed.


(** The rune of a valid encoding. *)
Definition rune_value (w : nat) (bs : list Z) : Z :=
  match w, bs with
  | 1%nat, b :: _ => b
  | 2%nat, b :: c :: _ => Z.land b 31 * 64 + Z.land c 63
  | 3%nat, b :: c :: d :: _ => (Z.land b 15 * 64 + Z.land c 63) * 64 + Z.land d 63
  | 4%nat, b :: c :: d :: e :: _ => ((Z.land b 7 * 64 + Z.land c 63) * 64 + Z.land d 63) * 64 + Z.land e 63
  | _, _ => 65533
  end.

(** * Quoting ([strconv.Quote], the verb [%q])

    Which runes beyond ASCII print is a table of Unicode's. *)
Class Printable := { IsPrint : Z -> bool }.

Definition hex_digit (d : Z) : Z := if d <? 10 then 48 + d else 87 + d.
(** [n] digits of [v], most significant first. *)
Fixpoint hex (n : nat) (v : Z) : list Z :=
  match n with O => [] | S n' => hex n' (v / 16) ++ [hex_digit (v mod 16)] end.

Definition escape (r : Z) : list Z :=
  if r =? 7 then [92; 97] else if r =? 8 then [92; 98] else if r =? 12 then [92; 102]
  else if r =? 10 then [92; 110] else if r =? 13 then [92; 114] else if r =? 9 then [92; 116]
  else if r =? 11 then [92; 118]
  else if (r <? 32) || (r =? 127) then [92; 120] ++ hex 2 r
  else if r <? 65536 then [92; 117] ++ hex 4 r else [92; 85] ++ hex 8 r.

Section Quote.
Context `{Printable}.
Definition printable (r : Z) : bool := if r <? 128 then (32 <=? r) && (r <? 127) else IsPrint r.
(** The text between the quotes; [keep] bytes belong to a rune that prints,
    [skip] ones to a rune already escaped. *)
Fixpoint quote_from (keep skip : nat) (bs : list Z) : list Z :=
  match bs with
  | [] => []
  | b :: bs' =>
      match keep, skip with
      | S k, _ => b :: quote_from k 0 bs'
      | O, S k => quote_from 0 k bs'
      | O, O =>
          match rune_width bs with
          | None => [92; 120] ++ hex 2 b ++ quote_from 0 0 bs'
          | Some w =>
              let r := rune_value w bs in
              if (r =? 34) || (r =? 92) then 92 :: b :: quote_from 0 0 bs'
              else if printable r then b :: quote_from (w - 1) 0 bs'
              else escape r ++ quote_from 0 (w - 1) bs'
          end
      end
  end.
Definition Quote (s : string) : string := string_of ([34] ++ quote_from 0 0 (bytes_of s) ++ [34]).
End Quote.

(** * Trimming and folding *)

(** [strings.TrimSpace]: the leading blanks, and the last rune that is not one. *)
Fixpoint trim_left (fuel : nat) (bs : list Z) : list Z :=
  match fuel with
  | O => bs
  | S fuel' => match space_rune bs with Some rest => trim_left fuel' rest | None => bs end
  end.
Fixpoint trim_right (bs : list Z) : list Z :=
  match bs with
  | [] => []
  | b :: bs' => if blank_loop (length bs) bs then [] else b :: trim_right bs'
  end.
Definition TrimSpace (s : string) : string :=
  string_of (trim_right (trim_left (String.length s) (bytes_of s))).

(** [strings.TrimSuffix] for a suffix of one character. *)
Definition trim_suffix_char (c : ascii) (s : string) : string :=
  match reverse (String.list_ascii_of_string s) with
  | c' :: rest => if Ascii.eqb c' c then String.string_of_list_ascii (reverse rest) else s
  | [] => s
  end.

(** [strings.ToLower], as far as a comparison with an ASCII text can tell: the
    letters of ASCII, and the two runes beyond it whose lower case is in it
    (U+0130 and U+212A). *)
Fixpoint lower_bytes (bs : list Z) : list Z :=
  match bs with
  | [] => []
  | b :: bs' =>
      if (65 <=? b) && (b <=? 90) then b + 32 :: lower_bytes bs'
      else
        match bs' with
        | c :: bs'' =>
            if (b =? 196) && (c =? 176) then 105 :: lower_bytes bs''
            else
              match bs'' with
              | d :: bs3 =>
                  if (b =? 226) && (c =? 132) && (d =? 170) then 107 :: lower_bytes bs3
                  else b :: lower_bytes bs'
              | [] => b :: lower_bytes bs'
              end
        | [] => b :: lower_bytes bs'
        end
  end.
Definition ToLower (s : string) : string := string_of (lower_bytes (bytes_of s)).

(** [strings.ContainsAny] for a set of ASCII characters. *)
Definition ContainsAny (s : string) (cs : list ascii) : bool :=
  existsb (fun c => existsb (Ascii.eqb c) cs) (String.list_ascii_of_string s).
(** [strings.HasPrefix]. *)
Definition HasPrefix (s prefix : string) : bool := String.prefix prefix s.
(** [strings.Join]. *)
Definition Join_strings (sep : string) (ss : list string) : string := String.concat sep ss.

Example quoted_text :
  @Quote {| IsPrint := fun _ => true |} (string_of [97; 34; 10; 195; 169; 255; 127]) =
  string_of [34; 97; 92; 34; 92; 110; 195; 169; 92; 120; 102; 102; 92; 120; 55; 102; 34].
Proof. vm_compute. reflexivity. Qed.
Example trimmed_text : TrimSpace (" a b" ++ string_of [194; 160; 10]) = "a b"%string.
Proof. vm_compute. reflexivity. Qed.
Example lowered_text : ToLower ("BLOC" ++ string_of [226; 132; 170]) = "block"%string.
Proof. vm_compute. reflexivity. Qed.

(** More of the functions of [strings] and [strconv] the program calls: cutting,
    folding, fields and booleans. *)

(** [strings.Cut] at a separator of one character: what precedes it and what
    follows it. *)
Fixpoint Cut (sep : ascii) (s : string) : option (string * string) :=
  match s with
  | EmptyString => None
  | String c s' =>
      if Ascii.eqb c sep then Some (""%string, s')
      else match Cut sep s' with Some (before, after) => Some (String c before, after) | None => None end
  end.
(** [strings.CutPrefix] and [strings.TrimPrefix]. *)
Definition CutPrefix (s prefix : string) : option string :=
  if HasPrefix s prefix
  then Some (String.substring (String.length prefix) (String.length s - String.length prefix) s) else None.
Definition TrimPrefix (s prefix : string) : string := default s (CutPrefix s prefix).
(** [strings.LastIndex(s, sub)]: what precedes the last occurrence, and the text
    from it on. *)
Fixpoint CutLast (sub s : string) : option (string * string) :=
  match s with
  | EmptyString => if HasPrefix s sub then Some (""%string, s) else None
  | String c s' =>
      match CutLast sub s' with
      | Some (before, from) => Some (String c before, from)
      | None => if HasPrefix s sub then Some (""%string, s) else None
      end
  end.

(** [strings.EqualFold] with a text of ASCII: its letters, and the two runes
    beyond it that fold into them (U+017F and U+212A). *)
Fixpoint fold_bytes (bs : list Z) : list Z :=
  match bs with
  | [] => []
  | b :: bs' =>
      if in_range 65 90 b then b + 32 :: fold_bytes bs'
      else match bs' with
           | 191 :: rest => if b =? 197 then 115 :: fold_bytes rest else b :: fold_bytes bs'
           | 132 :: 170 :: rest => if b =? 226 then 107 :: fold_bytes rest else b :: fold_bytes bs'
           | _ => b :: fold_bytes bs'
           end
  end.
Definition EqualFold (s ascii_ : string) : bool :=
  bool_decide (fold_bytes (bytes_of s) = fold_bytes (bytes_of ascii_)).

(** [strings.Fields]: what lies between blanks.  A byte is taken at every step. *)
Fixpoint fields_loop (fuel : nat) (bs field : list Z) : list (list Z) :=
  let close := match field with [] => [] | _ => [reverse field] end in
  match fuel, bs with
  | O, _ | _, [] => close
  | S fuel', b :: bs' =>
      match space_rune bs with
      | Some rest => (close ++ fields_loop fuel' rest [])%list
      | None => fields_loop fuel' bs' (b :: field)
      end
  end.
Definition Fields (s : string) : list string :=
  map string_of (fields_loop (S (String.length s)) (bytes_of s) []).

(** [strconv.ParseBool]. *)
Definition strconv_ParseBool (s : string) : option bool :=
  if bool_decide (s ∈ ["1"; "t"; "T"; "true"; "TRUE"; "True"]%string) then Some true
  else if bool_decide (s ∈ ["0"; "f"; "F"; "false"; "FALSE"; "False"]%string) then Some false
  else None.

(** * Facts *)
Lemma Cut_Some sep s before after :
  Cut sep s = Some (before, after) -> s = (before ++ String sep after)%string.
Proof.
  revert before. induction s as [| c s IH]; intros before; [done |]. cbn.
  destruct (Ascii.eqb_spec c sep) as [-> | _]; [by intros [= <- <-] |].
  destruct (Cut sep s) as [[b a] |]; [| done]. intros [= <- <-]. cbn. by rewrite (IH b).
Qed.
(** A text without the separator ends where the separator is put. *)
Lemma Cut_app sep s t :
  ~ In sep (list_ascii_of_string s) -> Cut sep (s ++ String sep t)%string = Some (s, t).
Proof.
  induction s as [| c s IH]; intros Hn.
  - simpl. by rewrite Ascii.eqb_refl.
  - simpl in *. destruct (Ascii.eqb_spec c sep) as [-> |]; [by destruct Hn; left |]. rewrite IH by tauto. done.
Qed.
Lemma HasPrefix_spec s prefix : HasPrefix s prefix = true <-> exists rest, s = (prefix ++ rest)%string.
Proof.
  unfold HasPrefix. revert s. induction prefix as [| c prefix IH]; intros s.
  - split; [by exists s | by destruct s].
  - destruct s as [| d s]; cbn; [split; [done | by intros (rest & ?)] |].
    destruct (ascii_dec c d) as [-> | Hne].
    + rewrite IH. split; intros (rest & Hr); exists rest; [by rewrite Hr | by injection Hr].
    + split; [done |]. intros (rest & [= ? ?]). congruence.
Qed.
Lemma substring_all s : String.substring 0 (String.length s) s = s.
Proof. induction s as [| c s IH]; [done |]. simpl. by rewrite IH. Qed.
Lemma CutPrefix_app prefix rest : CutPrefix (prefix ++ rest)%string prefix = Some rest.
Proof.
  unfold CutPrefix. replace (HasPrefix _ _) with true by (symmetry; apply HasPrefix_spec; by exists rest).
  f_equal. induction prefix as [| c prefix IH]; [| done].
  simpl. rewrite Nat.sub_0_r. apply substring_all.
Qed.
Lemma CutPrefix_Some s prefix rest : CutPrefix s prefix = Some rest <-> s = (prefix ++ rest)%string.
Proof.
  split; [| intros ->; apply CutPrefix_app]. intros Hc. unfold CutPrefix in Hc.
  destruct (HasPrefix s prefix) eqn:Hp; [| done]. apply HasPrefix_spec in Hp as [rest' ->].
  pose proof (CutPrefix_app prefix rest') as Ha. unfold CutPrefix in Ha.
  destruct (HasPrefix _ _); [| done]. congruence.
Qed.

Example fields_text : Fields " orders:read  orders:write " = ["orders:read"; "orders:write"]%string.
Proof. vm_compute. reflexivity. Qed.
Example cut_last_text : CutLast "/realms/" "https://idp/realms/acme" = Some ("https://idp", "/realms/acme")%string.
Proof. vm_compute. reflexivity. Qed.
Example equal_fold_text : EqualFold "bEaRer" "Bearer" = true.
Proof. vm_compute. reflexivity. Qed.
