(* ===== verification/GoSlices.v ===== *)
(** Comparisons, [slices] and [sort] of the Go library, and the order in which Go
    ranges over a map, which is its own on every run. *)

From Stdlib Require Import OrdersEx.
From stdpp Require Import sorting.
From S2P Require Import Prelude.

(** * Comparisons ([cmp.Compare], [cmp.Or]) *)

(** A three-way comparison that is a total order. *)
Class TotalCompare {A} (cmp : A -> A -> comparison) := {
  cmp_eq : forall a b, cmp a b = Eq <-> a = b;
  cmp_opp : forall a b, cmp b a = CompOpp (cmp a b);
  cmp_trans : forall a b c, cmp a b = Lt -> cmp b c = Lt -> cmp a c = Lt
}.

#[export] Instance Z_total_compare : TotalCompare Z.compare.
Proof.
  split; [apply Z.compare_eq_iff | intros; apply Z.compare_antisym |].
  intros a b c. rewrite !Z.compare_lt_iff. lia.
Qed.

#[export] Instance string_total_compare : TotalCompare String_as_OT.compare.
Proof.
  assert (forall a b, String_as_OT.compare a b = Eq <-> a = b) as Heq.
  { intros a b. destruct (String_as_OT.compare_spec a b) as [-> | H | H]; split; try done;
      intros ->; by apply String_as_OT.lt_strorder in H. }
  split; [done | | intros a b c; apply (StrictOrder_Transitive (R := String_as_OT.lt))].
  intros a b. destruct (String_as_OT.compare_spec a b) as [-> | H | H]; cbn.
  - by apply Heq.
  - destruct (String_as_OT.compare_spec b a) as [-> | H' | H']; [| | done].
    + by apply String_as_OT.lt_strorder in H.
    + exfalso. apply (StrictOrder_Irreflexive (R := String_as_OT.lt) a). by transitivity b.
  - done.
Qed.

(** [cmp.Or] over two comparisons. *)
Definition cmp_or (c1 c2 : comparison) : comparison := match c1 with Eq => c2 | _ => c1 end.
Definition pair_compare {A B} (ca : A -> A -> comparison) (cb : B -> B -> comparison)
    (x y : A * B) : comparison := cmp_or (ca x.1 y.1) (cb x.2 y.2).

#[export] Instance pair_total_compare {A B} ca cb `{TotalCompare A ca, TotalCompare B cb} :
  TotalCompare (pair_compare ca cb).
Proof.
  unfold pair_compare, cmp_or. split.
  - intros [a b] [a' b']. cbn. destruct (ca a a') eqn:E1.
    + apply cmp_eq in E1 as ->. rewrite cmp_eq. naive_solver.
    + split; [done |]. intros [= -> ->]. by rewrite (proj2 (cmp_eq a' a') eq_refl) in E1.
    + split; [done |]. intros [= -> ->]. by rewrite (proj2 (cmp_eq a' a') eq_refl) in E1.
  - intros [a b] [a' b']. cbn. rewrite (cmp_opp (cmp := ca) a a'), (cmp_opp (cmp := cb) b b'). by destruct (ca a a').
  - intros [a b] [a' b'] [a'' b'']. cbn.
    destruct (ca a a') eqn:E1; [apply cmp_eq in E1 as -> | | done].
    + destruct (ca a' a''); [| done | done]. apply cmp_trans.
    + intros _. destruct (ca a' a'') eqn:E2; [apply cmp_eq in E2 as <- | | done].
      * intros _. by rewrite E1.
      * intros _. by rewrite (cmp_trans a a' a'' E1 E2).
Qed.


(** A comparison by the fields a record is made of. *)
Lemma total_compare_on {A B} (f : A -> B) (c : B -> B -> comparison) `{!TotalCompare c} :
  (forall x y, f x = f y -> x = y) -> TotalCompare (fun x y => c (f x) (f y)).
Proof.
  intros Hf. split.
  - intros a b. rewrite cmp_eq. split; [apply Hf | by intros ->].
  - intros a b. apply cmp_opp.
  - intros a b c0. apply cmp_trans.
Qed.

(** * Sorting ([slices.SortStableFunc], [sort.Strings]) *)
Section Sort.
Context {A : Type} (c : A -> A -> comparison).

Fixpoint insert_before (x : A) (l : list A) : list A :=
  match l with
  | [] => [x]
  | y :: l' => match c x y with Gt => y :: insert_before x l' | _ => x :: l end
  end.
(** Each element goes before those not below it, the ones equal to it included:
    the sort is stable. *)
Definition SortStableFunc (l : list A) : list A := foldr insert_before [] l.

Lemma insert_before_perm x l : insert_before x l ≡ₚ x :: l.
Proof.
  induction l as [| y l IH]; cbn; [done |]. destruct (c x y); try done.
  rewrite IH. apply Permutation_swap.
Qed.
Lemma SortStableFunc_perm l : SortStableFunc l ≡ₚ l.
Proof. induction l as [| x l IH]; cbn; [done |]. by rewrite insert_before_perm, IH. Qed.

Definition not_above (x y : A) : Prop := c x y <> Gt.

Context `{!TotalCompare c}.
#[local] Instance not_above_trans : Transitive not_above.
Proof.
  intros x y z. unfold not_above. destruct (c x y) eqn:E1; [| | done].
  - apply (cmp_eq (cmp := c)) in E1 as ->. done.
  - intros _. destruct (c y z) eqn:E2; [| | done].
    + apply (cmp_eq (cmp := c)) in E2 as <-. by rewrite E1.
    + intros _. by rewrite (cmp_trans (cmp := c) x y z E1 E2).
Qed.
#[local] Instance not_above_antisymm : AntiSymm (=) not_above.
Proof.
  intros x y. unfold not_above. rewrite (cmp_opp (cmp := c) x y).
  destruct (c x y) eqn:E; [| | done]; [by intros; apply (cmp_eq (cmp := c)) |]; cbn; intros; done.
Qed.

Lemma insert_before_sorted x l :
  StronglySorted not_above l -> StronglySorted not_above (insert_before x l).
Proof.
  induction 1 as [| y l Hl IH Hall]; cbn; [repeat constructor |].
  destruct (c x y) eqn:E.
  - constructor; [by constructor |]. constructor; [by unfold not_above; rewrite E |].
    eapply Forall_impl; [exact Hall |]. intros z Hz. transitivity y; [by unfold not_above; rewrite E | done].
  - constructor; [by constructor |]. constructor; [by unfold not_above; rewrite E |].
    eapply Forall_impl; [exact Hall |]. intros z Hz. transitivity y; [by unfold not_above; rewrite E | done].
  - constructor; [done |]. rewrite insert_before_perm. constructor; [| done].
    unfold not_above. rewrite (cmp_opp (cmp := c) x y), E. done.
Qed.
Lemma SortStableFunc_sorted l : StronglySorted not_above (SortStableFunc l).
Proof. induction l as [| x l IH]; cbn; [constructor | by apply insert_before_sorted]. Qed.

(** Under a total order the result depends on the elements alone. *)
Lemma SortStableFunc_unique l1 l2 : l1 ≡ₚ l2 -> SortStableFunc l1 = SortStableFunc l2.
Proof.
  intros Hp. apply (StronglySorted_unique not_above); try apply SortStableFunc_sorted.
  by rewrite !SortStableFunc_perm.
Qed.
Lemma SortStableFunc_id l : StronglySorted not_above l -> SortStableFunc l = l.
Proof.
  intros Hs. apply (StronglySorted_unique not_above); [apply SortStableFunc_sorted | done |].
  apply SortStableFunc_perm.
Qed.
End Sort.

Definition sort_Strings : list string -> list string := SortStableFunc String_as_OT.compare.

Lemma SortStableFunc_nil {A} (c : A -> A -> comparison) l : SortStableFunc c l = [] <-> l = [].
Proof.
  split; [| by intros ->]. intros Hl. pose proof (SortStableFunc_perm c l) as Hp. rewrite Hl in Hp.
  by apply Permutation_nil in Hp.
Qed.
Lemma elem_of_SortStableFunc {A} (c : A -> A -> comparison) l x : x ∈ SortStableFunc c l <-> x ∈ l.
Proof. by rewrite SortStableFunc_perm. Qed.

(** ** Sorting by a key *)
Section ByKey.
Context {A B : Type} (c : A -> A -> comparison) (c' : B -> B -> comparison) (g : A -> B).
Hypothesis Hkey : forall x y, c x y = c' (g x) (g y).

Lemma insert_map x l : map g (insert_before c x l) = insert_before c' (g x) (map g l).
Proof. induction l as [| y l IH]; cbn; [done |]. rewrite <- Hkey. destruct (c x y); cbn; by rewrite ?IH. Qed.
Lemma sort_map l : map g (SortStableFunc c l) = SortStableFunc c' (map g l).
Proof. unfold SortStableFunc. induction l as [| x l IH]; cbn; [done |]. by rewrite insert_map, IH. Qed.

Context `{!TotalCompare c'}.
Lemma sort_key_sorted l : StronglySorted (not_above c) (SortStableFunc c l).
Proof.
  pose proof (SortStableFunc_sorted c' (map g l)) as Hs. rewrite <- sort_map in Hs.
  induction (SortStableFunc c l) as [| x k IH]; [constructor |]. cbn [map] in Hs. apply StronglySorted_inv in Hs as [Hk Hall].
  constructor; [by apply IH |]. rewrite Forall_forall in Hall. apply Forall_forall. intros y Hy. unfold not_above. rewrite Hkey.
  apply Hall, list_elem_of_fmap. eauto.
Qed.
Lemma insert_first x l : Forall (not_above c x) l -> insert_before c x l = x :: l.
Proof. destruct 1 as [| y l Hxy Hl]; cbn; [done |]. unfold not_above in Hxy. by destruct (c x y). Qed.
Lemma not_above_all x y l : not_above c x y -> Forall (not_above c y) l -> Forall (not_above c x) l.
Proof.
  intros Hxy Hl. eapply Forall_impl; [exact Hl |]. intros z. unfold not_above in *. rewrite !Hkey in *. by apply (not_above_trans c').
Qed.
Lemma insert_filter (P : A -> Prop) `{!forall x, Decision (P x)} x l : StronglySorted (not_above c) l ->
  filter P (insert_before c x l) = if decide (P x) then insert_before c x (filter P l) else filter P l.
Proof.
  induction 1 as [| y l Hl IH Hall]; [cbn [insert_before]; rewrite filter_cons; by destruct (decide (P x)) |].
  destruct (decide (not_above c x y)) as [Hxy | Hxy].
  - assert (Forall (not_above c x) (y :: l)) as Hx by (constructor; [done | by eapply not_above_all]).
    rewrite (insert_first x (y :: l) Hx), (filter_cons P x). destruct (decide (P x)); [| done].
    rewrite insert_first; [done |]. apply Forall_forall. intros z [_ Hz]%list_elem_of_filter. rewrite Forall_forall in Hx. by apply Hx.
  - unfold not_above in Hxy. cbn [insert_before]. destruct (c x y) eqn:E; [by destruct Hxy | by destruct Hxy |].
    rewrite !filter_cons, IH. destruct (decide (P y)), (decide (P x)); cbn; by rewrite ?E.
Qed.
Lemma sort_filter (P : A -> Prop) `{!forall x, Decision (P x)} l :
  filter P (SortStableFunc c l) = SortStableFunc c (filter P l).
Proof.
  induction l as [| x l IH]; [done |]. change (SortStableFunc c (x :: l)) with (insert_before c x (SortStableFunc c l)). rewrite insert_filter, IH by apply sort_key_sorted.
  rewrite filter_cons. by destruct (decide (P x)).
Qed.
End ByKey.

(** * Ranging over a map

    Go picks an order on every run: an instance is one choice of orders. *)
Class MapOrder := {
  ranged : forall {K : Type} `{Countable K} {V : Type}, gmap K V -> list (K * V);
  ranged_perm : forall {K : Type} `{Countable K} {V : Type} (m : gmap K V), ranged m ≡ₚ map_to_list m
}.

Lemma elem_of_ranged `{MapOrder} {K : Type} `{Countable K} {V : Type} (m : gmap K V) k v :
  (k, v) ∈ ranged m <-> m !! k = Some v.
Proof. by rewrite ranged_perm, elem_of_map_to_list. Qed.

(** The order of the keys, for witnesses. *)
Definition by_key : MapOrder := {| ranged := fun K _ _ V m => map_to_list m; ranged_perm := fun K _ _ V m => reflexivity _ |}.

(** * Counting in a map ([m[k]++]) *)
Section Count.
Context {A : Type} (f : A -> option string).

Definition count_step (m : gmap string Z) (a : A) : gmap string Z :=
  match f a with Some k => <[k := default 0 (m !! k) + 1]> m | None => m end.
Definition count_by (l : list A) : gmap string Z := foldl count_step ∅ l.

Lemma count_from m l k :
  default 0 (foldl count_step m l !! k) = default 0 (m !! k) + len (filter (fun a => f a = Some k) l).
Proof.
  revert m. induction l as [| a l IH]; intros m; cbn [foldl]; [cbn; unfold len; cbn; lia |].
  rewrite IH, filter_cons. unfold count_step at 1. destruct (f a) as [k' |].
  - destruct (decide (Some k' = Some k)) as [[= ->] | Hne].
    + rewrite lookup_insert_eq. cbn [default]. unfold len. cbn [length]. unfold default, id. lia.
    + rewrite lookup_insert_ne by congruence. done.
  - rewrite decide_False by done. done.
Qed.
Lemma count_by_lookup l k : default 0 (count_by l !! k) = len (filter (fun a => f a = Some k) l).
Proof. unfold count_by. by rewrite count_from, lookup_empty. Qed.
Lemma count_by_many l k :
  1 < len (filter (fun a => f a = Some k) l) ->
  count_by l !! k = Some (len (filter (fun a => f a = Some k) l)).
Proof. rewrite <- count_by_lookup. destruct (count_by l !! k) as [n |]; cbn; [done | lia]. Qed.
End Count.
