(* ===== verification/Rules.v ===== *)
(** The dependency rule of the conformance tool
    ([tools/dmpf-conformance/internal/rule]): blocks and their matrix,
    capabilities and their policy, the decision on an edge, external
    dependencies, diagnostics, and the universe of classified packages. *)

From Stdlib Require Import OrdersEx.
From S2P Require Import Prelude GoTime GoStrings GoSlices.

(** * Blocks ([matrix.go]) *)
Definition Block := string.
Definition BlockDomain : Block := "domain".
Definition BlockApplication : Block := "application".
Definition BlockApp : Block := "app".
Definition BlockPort : Block := "port".
Definition BlockProvider : Block := "provider".
Definition BlockContract : Block := "contract".
Definition blocks : list Block :=
  [BlockDomain; BlockApplication; BlockApp; BlockPort; BlockProvider; BlockContract].
Definition Contains (x : string) (l : list string) : bool := existsb (String.eqb x) l.
Definition IsBlock (v : Block) : bool := Contains v blocks.

Definition matrixRow : Type := list bool.
Definition permitida : bool := true.
Definition proibida : bool := false.
Definition matrix : list (Block * matrixRow) :=
  [(BlockDomain,      [permitida; proibida; proibida; proibida; proibida; proibida]);
   (BlockApplication, [permitida; permitida; proibida; permitida; proibida; proibida]);
   (BlockApp,         [permitida; permitida; permitida; permitida; permitida; permitida]);
   (BlockPort,        [permitida; proibida; proibida; permitida; proibida; proibida]);
   (BlockProvider,    [permitida; proibida; proibida; permitida; permitida; permitida]);
   (BlockContract,    [proibida; proibida; proibida; proibida; proibida; permitida])].
(** A map literal, its keys distinct. *)
Fixpoint literal {V} (k : string) (m : list (string * V)) : option V :=
  match m with
  | [] => None
  | (k', v) :: m' => if String.eqb k k' then Some v else literal k m'
  end.
Fixpoint index_of (x : string) (l : list string) : option nat :=
  match l with
  | [] => None
  | y :: l' => if String.eqb x y then Some 0%nat else S <$> index_of x l'
  end.
Definition blockIndex (b : Block) : option nat := index_of b blocks.
Definition AllowedByMatrix (source target : Block) : bool :=
  match literal source matrix with
  | None => false
  | Some row =>
      match blockIndex target with None => false | Some j => nth j row false end
  end.

(** * Capabilities ([capability.go], [stdlib.go]) *)
Definition Capability := string.
Definition CapPure : Capability := "pure".
Definition CapIOStorage : Capability := "io.storage".
Definition CapIOMessaging : Capability := "io.messaging".
Definition CapIONetwork : Capability := "io.network".
Definition CapIOFilesystem : Capability := "io.filesystem".
Definition CapIOClock : Capability := "io.clock".
Definition CapIORandom : Capability := "io.random".
Definition CapRuntimeFramework : Capability := "runtime.framework".
Definition CapWireCodec : Capability := "wire.codec".
Definition CapObservability : Capability := "observability".
Definition capabilities : list Capability :=
  [CapIOStorage; CapIOMessaging; CapIONetwork; CapIOFilesystem; CapIOClock; CapIORandom;
   CapRuntimeFramework; CapWireCodec; CapObservability; CapPure].
Definition IsCapability (c : Capability) : bool := Contains c capabilities.
Definition capabilityPolicy : list (Block * list Capability) :=
  [(BlockDomain, [CapPure]); (BlockPort, [CapPure]); (BlockApplication, [CapPure; CapObservability]);
   (BlockContract, [CapPure; CapWireCodec])].
Definition permissiveBlocks : list Block := [BlockProvider; BlockApp].
Definition isPermissiveBlock (b : Block) : bool := Contains b permissiveBlocks.
Definition CapabilityAllowed (b : Block) (c : Capability) : bool :=
  if negb (IsBlock b) || negb (IsCapability c) then false
  else if isPermissiveBlock b then true
  else Contains c (default [] (literal b capabilityPolicy)).

Record AllowlistEntry := mkAllowlistEntry {
  al_Package : string; al_Entrypoints : list string; al_Capability : Capability; al_Versions : string
}.
Definition EntrypointRoot : string := ".".
Definition Covers (e : AllowlistEntry) (importPath : string) : bool :=
  existsb (fun ep =>
    if String.eqb ep EntrypointRoot then String.eqb importPath (al_Package e)
    else String.eqb importPath ep) (al_Entrypoints e).
Definition faltando (e : AllowlistEntry) : list string :=
  (if String.eqb (al_Package e) "" then ["package"] else []) ++
  (if String.eqb (al_Versions e) "" then ["versions"] else []) ++
  (if len (al_Entrypoints e) =? 0 then ["entrypoints"] else []) ++
  (if negb (IsCapability (al_Capability e)) then ["capability"] else []).
Definition Complete (e : AllowlistEntry) : bool :=
  negb (String.eqb (al_Package e) "") && negb (String.eqb (al_Versions e) "") &&
  (0 <? len (al_Entrypoints e)) && IsCapability (al_Capability e).

Record ExceptionEntry := mkExceptionEntry {
  xe_Unit : string; xe_Dependency : string; xe_Reason : string; xe_Owner : string; xe_ReviewBy : string
}.
Definition ExceptionEntry_Valid (e : ExceptionEntry) : bool :=
  negb (String.eqb (xe_Unit e) "") && negb (String.eqb (xe_Dependency e) "") &&
  negb (String.eqb (xe_Reason e) "") && negb (String.eqb (xe_Owner e) "") &&
  negb (String.eqb (xe_ReviewBy e) "").

Definition stdlibCapability : list (string * Capability) :=
  [
    ("io/ioutil", CapIOFilesystem); ("os", CapIOFilesystem); ("path/filepath", CapIOFilesystem);
    ("io/fs", CapIOFilesystem); ("embed", CapIOFilesystem); ("net", CapIONetwork);
    ("net/http", CapIONetwork); ("net/url", CapPure); ("net/rpc", CapIONetwork);
    ("net/smtp", CapIONetwork); ("net/mail", CapPure); ("net/textproto", CapIONetwork);
    ("database/sql", CapIOStorage); ("time", CapIOClock); ("math/rand", CapIORandom);
    ("math/rand/v2", CapIORandom); ("crypto/rand", CapIORandom); ("encoding", CapWireCodec);
    ("encoding/json", CapWireCodec); ("encoding/xml", CapWireCodec);
    ("encoding/gob", CapWireCodec); ("encoding/csv", CapWireCodec);
    ("encoding/asn1", CapWireCodec); ("encoding/pem", CapWireCodec);
    ("encoding/base64", CapPure); ("encoding/hex", CapPure); ("encoding/binary", CapPure);
    ("mime", CapWireCodec); ("mime/multipart", CapWireCodec); ("text/template", CapWireCodec);
    ("html/template", CapWireCodec); ("log", CapObservability); ("log/slog", CapObservability);
    ("runtime/pprof", CapObservability); ("runtime/trace", CapObservability);
    ("expvar", CapObservability); ("testing", CapObservability);
    ("plugin", CapRuntimeFramework); ("os/exec", CapIOFilesystem); ("syscall", CapIOFilesystem);
    ("runtime", CapRuntimeFramework); ("reflect", CapRuntimeFramework);
    ("unsafe", CapRuntimeFramework); ("errors", CapPure); ("fmt", CapPure);
    ("strconv", CapPure); ("strings", CapPure); ("bytes", CapPure); ("sort", CapPure);
    ("slices", CapPure); ("maps", CapPure); ("cmp", CapPure); ("iter", CapPure);
    ("math", CapPure); ("math/big", CapPure); ("math/bits", CapPure); ("unicode", CapPure);
    ("unicode/utf8", CapPure); ("unicode/utf16", CapPure); ("regexp", CapPure);
    ("regexp/syntax", CapPure); ("crypto", CapPure); ("crypto/sha256", CapPure);
    ("crypto/sha512", CapPure); ("crypto/sha1", CapPure); ("crypto/md5", CapPure);
    ("crypto/hmac", CapPure); ("crypto/subtle", CapPure); ("hash/fnv", CapPure);
    ("hash/crc32", CapPure); ("math/cmplx", CapPure); ("strings/builder", CapPure);
    ("hash", CapPure); ("container/list", CapPure); ("container/heap", CapPure);
    ("path", CapPure); ("io", CapPure); ("bufio", CapPure); ("context", CapPure);
    ("sync", CapPure); ("sync/atomic", CapPure); ("structs", CapPure); ("go/ast", CapPure);
    ("go/token", CapPure); ("go/parser", CapPure); ("go/format", CapPure);
    ("go/types", CapPure); ("go/build", CapIOFilesystem); ("go/build/constraint", CapPure)].
Definition StdlibCapability (importPath : string) : option Capability := literal importPath stdlibCapability.

(** * Diagnostics ([diagnostic.go]) *)
Definition Code := string.
Definition CodeU001 : Code := "DMPF-U001".
Definition CodeU002 : Code := "DMPF-U002".
Definition CodeU003 : Code := "DMPF-U003".
Definition CodeU004 : Code := "DMPF-U004".
Definition CodeM001 : Code := "DMPF-M001".
Definition CodeM002 : Code := "DMPF-M002".
Definition CodeM003 : Code := "DMPF-M003".
Definition CodeM004 : Code := "DMPF-M004".
Definition CodeT001 : Code := "DMPF-T001".
Definition CodeT002 : Code := "DMPF-T002".
Definition CodeD001 : Code := "DMPF-D001".
Definition CodeD002 : Code := "DMPF-D002".
Definition CodeE001 : Code := "DMPF-E001".
Definition CodeE002 : Code := "DMPF-E002".
Definition CodeE003 : Code := "DMPF-E003".
Definition CodeE004 : Code := "DMPF-E004".
Definition CodeX001 : Code := "DMPF-X001".
Definition CodeX002 : Code := "DMPF-X002".
Definition CodeX003 : Code := "DMPF-X003".
Definition CodeX004 : Code := "DMPF-X004".
Definition CodeX005 : Code := "DMPF-X005".
Definition CodeX006 : Code := "DMPF-X006".
Definition CodeX007 : Code := "DMPF-X007".
Record CodeSpec := mkCodeSpec {
  cs_Code : Code; cs_Summary : string; cs_Section : string; cs_Applicable : bool
}.
Definition codeSpecs : list CodeSpec :=
  [
   mkCodeSpec CodeU001 "Arquivo de produção não coberto por nenhuma unidade" "RFC §3.6" true;
   mkCodeSpec CodeU002 "Arquivo coberto por mais de uma unidade" "RFC §3.6" true;
   mkCodeSpec CodeU003 "canonical_key duplicada no universo" "RFC §3.6" true;
   mkCodeSpec CodeU004 "Manifesto ausente em módulo com código de produção" "RFC §3.6" true;
   mkCodeSpec CodeM001 "Campo obrigatório ausente no manifesto" "RFC §10.1" true;
   mkCodeSpec CodeM002 "Valor fora do conjunto fechado" "RFC §10.1, §7.2" true;
   mkCodeSpec CodeM003 "Unidade duplicada no manifesto" "RFC §10.1" true;
   mkCodeSpec CodeM004 "Unidade de shared kernel não resolvida" "ADR-042; RFC §7.2 estendida" true;
   mkCodeSpec CodeT001 "Divergência entre manifesto e baseline" "RFC §10.2 T3" true;
   mkCodeSpec CodeT002 "Mudança normativa sem evidência de autorização" "RFC §10.2 T5; ADR-058" false;
   mkCodeSpec CodeD001 "Aresta proibida entre blocos" "RFC §7.1 C1, §7.3" true;
   mkCodeSpec CodeD002 "Aresta proibida entre bounded contexts" "RFC §7.1 C2, §5.5" true;
   mkCodeSpec CodeE001 "Capability externa não permitida para o bloco" "RFC §6.2" true;
   mkCodeSpec CodeE002 "Dependência declarada pure com fechamento impuro" "RFC §6.3" true;
   mkCodeSpec CodeE003 "Import não resolvido" "RFC §10.3" true;
   mkCodeSpec CodeE004 "Import dinâmico com alvo não determinável" "RFC §10.3" false].
Definition governanceSpecs : list CodeSpec :=
  [
   mkCodeSpec CodeX001 "Pedido de exceção sem os itens obrigatórios" "GOV-30, GOV-33" true;
   mkCodeSpec CodeX002 "Objeto da exceção fora da classe E1" "GOV-31" true;
   mkCodeSpec CodeX003 "Objeto que nenhuma exceção alcança: aresta, célula ou política de bloco" "GOV-32 N1, N2" true;
   mkCodeSpec CodeX004 "Objeto sob identidade reservada do catálogo fechado" "GOV-32 N1, N3–N7" true;
   mkCodeSpec CodeX005 "Ciclo de vida da exceção inconsistente" "GOV-34" true;
   mkCodeSpec CodeX006 "Exceção vencida sem renovação posterior" "GOV-34" true;
   mkCodeSpec CodeX007 "Exceção declarada fora do registro que a comporta" "GOV-35" true].
Definition LookupCode (c : Code) : option CodeSpec :=
  List.find (fun s => String.eqb (cs_Code s) c) (codeSpecs ++ governanceSpecs).

Record Diagnostic := mkDiagnostic {
  dg_Code : Code; dg_CanonicalKey : string; dg_Target : string; dg_SourceFile : string; dg_Detail : string
}.
#[global] Instance Diagnostic_eq_dec : EqDecision Diagnostic.
Proof. solve_decision. Defined.
Definition Section_ (d : Diagnostic) : string :=
  match LookupCode (dg_Code d) with Some s => cs_Section s | None => "" end.

(** Controls and invalid bytes become U+FFFD. *)
Fixpoint uma_linha (skip : nat) (bs : list Z) : list Z :=
  match bs with
  | [] => []
  | b :: bs' =>
      match skip with
      | S k => b :: uma_linha k bs'
      | O =>
          match rune_width bs with
          | None => replacement ++ uma_linha 0 bs'
          | Some w =>
              let r := rune_value w bs in
              if (r <? 32) || (r =? 127) then replacement ++ uma_linha (w - 1) bs'
              else b :: uma_linha (w - 1) bs'
          end
      end
  end.
Definition umaLinha (v : string) : string := string_of (uma_linha 0 (bytes_of v)).

Definition Diagnostic_String (d : Diagnostic) : string :=
  dg_Code d ++ ": " ++
  (if negb (String.eqb (dg_Target d) "")
   then umaLinha (dg_CanonicalKey d) ++ " -> " ++ umaLinha (dg_Target d)
   else umaLinha (dg_CanonicalKey d)) ++
  (if negb (String.eqb (dg_SourceFile d) "") then " (" ++ umaLinha (dg_SourceFile d) ++ ")" else "") ++
  (if negb (String.eqb (dg_Detail d) "") then ": " ++ umaLinha (dg_Detail d) else "") ++
  (if negb (String.eqb (Section_ d) "") then " [" ++ Section_ d ++ "]" else "").

Definition diagnostic_tuple (d : Diagnostic) : string * (string * (string * (string * string))) :=
  (dg_CanonicalKey d, (dg_Code d, (dg_Target d, (dg_SourceFile d, dg_Detail d)))).
Definition compareDiagnostics (a b : Diagnostic) : comparison :=
  let c := String_as_OT.compare in
  pair_compare c (pair_compare c (pair_compare c (pair_compare c c))) (diagnostic_tuple a) (diagnostic_tuple b).
Definition SortDiagnostics : list Diagnostic -> list Diagnostic := SortStableFunc compareDiagnostics.
Arguments SortDiagnostics : simpl never.

(** * The decision on an edge ([decide.go]) *)
Record Endpoint := mkEndpoint {
  ep_CanonicalKey : string; ep_Block : Block; ep_BoundedContext : string;
  ep_PublicIntegrationSurface : bool; ep_SharedKernel : bool
}.
Record EdgeDecision := mkEdgeDecision { C1 : bool; C2 : bool }.
Definition Allowed (d : EdgeDecision) : bool := C1 d && C2 d.
Definition SameBoundedContext (source target : Endpoint) : bool :=
  String.eqb (ep_BoundedContext source) (ep_BoundedContext target).
Definition PublicIntegrationSurface (target : Endpoint) : bool :=
  String.eqb (ep_Block target) BlockContract || ep_PublicIntegrationSurface target.
Definition Decide (source target : Endpoint) : EdgeDecision :=
  mkEdgeDecision (AllowedByMatrix (ep_Block source) (ep_Block target))
    (SameBoundedContext source target || PublicIntegrationSurface target || ep_SharedKernel target).
Definition DiagnoseEdge (source target : Endpoint) (sourceFile : string) : list Diagnostic :=
  let d := Decide source target in
  (if negb (C1 d)
   then [mkDiagnostic CodeD001 (ep_CanonicalKey source) (ep_CanonicalKey target) sourceFile
           ("bloco " ++ ep_Block source ++ " não pode depender de " ++ ep_Block target)]
   else []) ++
  (if negb (C2 d)
   then [mkDiagnostic CodeD002 (ep_CanonicalKey source) (ep_CanonicalKey target) sourceFile
           ("bounded context " ++ ep_BoundedContext source ++ " não pode depender de " ++
            ep_BoundedContext target ++ " sem superfície pública")]
   else []).

(** * External dependencies ([external.go]) *)
Record ExternalPolicy := mkExternalPolicy {
  po_Allowlist : list AllowlistEntry; po_Exceptions : list ExceptionEntry
}.
(** A nil function is [None]. *)
Definition Closure : Type := option (string -> option (list string)).
Definition Standard : Type := option (string -> bool).

Definition policy_lookup (p : ExternalPolicy) (importPath : string) : option AllowlistEntry :=
  List.find (fun e => Complete e && Covers e importPath) (po_Allowlist p).
Definition exceptionFor (p : ExternalPolicy) (unitID importPath : string) : bool :=
  existsb (fun x => String.eqb (xe_Unit x) unitID && String.eqb (xe_Dependency x) importPath &&
                    ExceptionEntry_Valid x) (po_Exceptions p).
Definition policy_Validate (p : ExternalPolicy) (manifestPath : string) : list Diagnostic :=
  concat (imap (fun i e =>
    match faltando e with
    | [] => []
    | falta =>
        [mkDiagnostic CodeM001 manifestPath "" ""
           ("external[" ++ Itoa (Z.of_nat i) ++ "] (" ++ al_Package e ++ "): entrada incompleta, falta " ++
            Join_strings ", " falta)]
    end) (po_Allowlist p)) ++
  concat (imap (fun i x =>
    if negb (ExceptionEntry_Valid x) then
      [mkDiagnostic CodeM001 manifestPath "" ""
         ("exceptions[" ++ Itoa (Z.of_nat i) ++
          "]: exceção não é nominal — exige unit, dependency, reason, owner e review_by")]
    else []) (po_Exceptions p)).

Definition ResolveCapability (importPath : string) (policy : ExternalPolicy) (isStandard : Standard)
    : option Capability :=
  match policy_lookup policy importPath with
  | Some e => if IsCapability (al_Capability e) then Some (al_Capability e) else None
  | None =>
      match isStandard with
      | Some std => if std importPath then StdlibCapability importPath else None
      | None => None
      end
  end.

Record impureza := mkImpureza { im_via : string; im_capability : Capability }.
(** What [achados] holds of a dependency: its capability, empty when unknown. *)
Definition achado (entrypoint : string) (policy : ExternalPolicy) (isStandard : Standard) (d : string)
    : option Capability :=
  if String.eqb d entrypoint then None
  else
    match ResolveCapability d policy isStandard with
    | None => Some ""%string
    | Some cap => if String.eqb cap CapPure then None else Some cap
    end.
Definition achados (entrypoint : string) (policy : ExternalPolicy) (isStandard : Standard)
    (deps : list string) : gmap string Capability :=
  foldl (fun m d => match achado entrypoint policy isStandard d with
                    | Some cap => <[d := cap]> m
                    | None => m
                    end) ∅ deps.
Definition impurezaNoFechamento `{MapOrder} (entrypoint : string) (policy : ExternalPolicy)
    (closure : Closure) (isStandard : Standard) : option impureza :=
  match closure with
  | None => None
  | Some close =>
      match close entrypoint with
      | None => None
      | Some deps =>
          let found := achados entrypoint policy isStandard deps in
          match sort_Strings (ranged found).*1 with
          | [] => None
          | via :: _ =>
              let c := default ""%string (found !! via) in
              Some (mkImpureza via (if String.eqb c "" then "capability não declarada" else c))
          end
      end
  end.

Definition EvaluateExternal `{MapOrder} (source : Endpoint) (sourceUnitID target sourceFile : string)
    (policy : ExternalPolicy) (closure : Closure) (isStandard : Standard) : list Diagnostic :=
  match ResolveCapability target policy isStandard with
  | None =>
      if isPermissiveBlock (ep_Block source) then []
      else [mkDiagnostic CodeE001 (ep_CanonicalKey source) target sourceFile
              "dependência externa sem capability declarada na allowlist"]
  | Some cap =>
      (if negb (CapabilityAllowed (ep_Block source) cap) && negb (exceptionFor policy sourceUnitID target)
       then [mkDiagnostic CodeE001 (ep_CanonicalKey source) target sourceFile
               ("capability " ++ cap ++ " não permitida para o bloco " ++ ep_Block source)]
       else []) ++
      (if String.eqb cap CapPure && bool_decide (is_Some (policy_lookup policy target)) then
         match impurezaNoFechamento target policy closure isStandard with
         | Some impura =>
             [mkDiagnostic CodeE002 (ep_CanonicalKey source) target sourceFile
                ("declarada pure, mas o fechamento alcança " ++ im_capability impura ++ " por " ++ im_via impura)]
         | None => []
         end
       else [])
  end.

(** * The universe ([universe.go]) *)
Record Unit := mkUnit {
  u_ID : string; u_Block : Block; u_BoundedContext : string; u_PublicIntegrationSurface : bool;
  u_SharedKernel : bool; u_Include : list string; u_Module : string; u_ManifestPath : string;
  u_ReadOnly : bool
}.
Definition UnitKey : Type := string * string.            (* module, id *)
Definition Unit_Key (u : Unit) : UnitKey := (u_Module u, u_ID u).
Definition UnitKey_String (k : UnitKey) : string := k.1 ++ "#" ++ k.2.
Record Package := mkPackage { pk_CanonicalKey : string; pk_Module : string }.
Record Module_ := mkModule {
  md_Path : string; md_Dir : string; md_HasManifest : bool; md_HasProduction : bool;
  md_WorkspaceMember : bool
}.
Record Universe := mkUniverse {
  un_units : list Unit;
  un_byKey : gmap string nat;
  un_descobertos : gset string
}.
Definition Discovered (u : Universe) (canonicalKey : string) : bool :=
  bool_decide (canonicalKey ∈ un_descobertos u).
Definition Universe_Lookup (u : Universe) (canonicalKey : string) : option Unit :=
  un_byKey u !! canonicalKey ≫= fun i => un_units u !! i.
Definition Universe_Endpoint (u : Universe) (canonicalKey : string) : option Endpoint :=
  (fun unit => mkEndpoint canonicalKey (u_Block unit) (u_BoundedContext unit)
                 (u_PublicIntegrationSurface unit) (u_SharedKernel unit)) <$> Universe_Lookup u canonicalKey.
(** The packages of each unit, collected over the map and sorted. *)
Definition Membership `{MapOrder} (u : Universe) : gmap UnitKey (list string) :=
  sort_Strings <$>
    foldl (fun out entry =>
      match un_units u !! entry.2 with
      | Some unit => <[Unit_Key unit := default [] (out !! Unit_Key unit) ++ [entry.1]]> out
      | None => out
      end) ∅ (ranged (un_byKey u)).

Definition NormalizeInclude (include : string) : string := trim_suffix_char "/" include.
Definition covers (include canonicalKey : string) : bool := String.eqb (NormalizeInclude include) canonicalKey.
Definition owns (pkg : Package) (u : Unit) : bool :=
  String.eqb (u_Module u) (pk_Module pkg) && existsb (fun inc => covers inc (pk_CanonicalKey pkg)) (u_Include u).
(** The units that own a package, with their positions. *)
Definition owners_of (units : list Unit) (pkg : Package) : list (nat * Unit) :=
  filter (fun ju => owns pkg ju.2 = true) (imap pair units).

Definition count_keys (packages : list Package) : gmap string Z :=
  count_by (fun p => Some (pk_CanonicalKey p)) packages.

Definition u003 (entry : string * Z) : list Diagnostic :=
  if 1 <? entry.2 then
    [mkDiagnostic CodeU003 entry.1 "" ""
       ("canonical_key descoberta " ++ Itoa entry.2 ++ " vezes no universo")]
  else [].
Definition u004 (m : Module_) : list Diagnostic :=
  if md_HasProduction m && negb (md_HasManifest m) then
    [mkDiagnostic CodeU004 (md_Path m) "" "" "módulo com código de produção e sem dmpf-units.json"]
  else [].

(** One package of the loop, unless its key was seen. *)
Definition classify_package (pkg : Package) (u : Universe) : Universe * list Diagnostic :=
  if bool_decide (pk_CanonicalKey pkg ∈ un_descobertos u) then (u, [])
  else
    let descobertos := {[pk_CanonicalKey pkg]} ∪ un_descobertos u in
    match owners_of (un_units u) pkg with
    | [] =>
        (mkUniverse (un_units u) (un_byKey u) descobertos,
         [mkDiagnostic CodeU001 (pk_CanonicalKey pkg) "" "" "package de produção fora de todo include"])
    | [(owner, _)] =>
        (mkUniverse (un_units u) (<[pk_CanonicalKey pkg := owner]> (un_byKey u)) descobertos, [])
    | owners =>
        (mkUniverse (un_units u) (un_byKey u) descobertos,
         [mkDiagnostic CodeU002 (pk_CanonicalKey pkg) "" ""
            ("package coberto pelas unidades " ++
             Join_strings ", " (sort_Strings (map (fun ju => UnitKey_String (Unit_Key ju.2)) owners)))])
    end.
Fixpoint classify_packages (packages : list Package) (u : Universe) : Universe * list Diagnostic :=
  match packages with
  | [] => (u, [])
  | pkg :: packages' =>
      let '(u, diags) := classify_package pkg u in
      let '(u, diags') := classify_packages packages' u in (u, diags ++ diags')
  end.
Definition BuildUniverse `{MapOrder} (units : list Unit) (packages : list Package)
    (modules : list Module_) : Universe * list Diagnostic :=
  let repeated := concat (map u003 (ranged (count_keys packages))) in
  let missing := concat (map u004 modules) in
  let '(u, coverage) := classify_packages packages (mkUniverse units ∅ ∅) in
  (u, SortDiagnostics (repeated ++ missing ++ coverage)).
