(* ===== verification/Exceptions.v ===== *)
(** The admission of a nominal exception
    ([tools/dmpf-conformance/internal/exception]): its required items, the closed
    catalogue of what no exception reaches, its life cycle and expiry; then the
    manifest of a module that declares it. *)

From S2P Require Import Prelude GoTime GoStrings GoSlices Rules.

(** * The schema ([schema.go]) *)
Definition Instant := Z.
Definition Kind := string.
Definition KindExternalDependency : Kind := "external-dependency".
Definition Kinds : list Kind := [KindExternalDependency].
Definition IsKind (k : Kind) : bool := Contains k Kinds.
Definition Event := string.
Definition EventGranted : Event := "granted".
Definition EventRenewed : Event := "renewed".
Definition EventRevoked : Event := "revoked".
Definition EventConverged : Event := "converged".
Definition Events : list Event := [EventGranted; EventRenewed; EventRevoked; EventConverged].
Definition IsEvent (e : Event) : bool := Contains e Events.
Definition ConvergenceKind := string.
Definition ConvergencePlan : ConvergenceKind := "plan".
Definition ConvergenceReview : ConvergenceKind := "review".

Record Object := mkObject {
  ob_Kind : Kind; ob_Unit : string; ob_Identity : string;
  ob_PresentKind : bool; ob_PresentUnit : bool; ob_PresentIdentity : bool
}.
Record Convergence := mkConvergence {
  cv_Kind : ConvergenceKind; cv_Deadline : Instant; cv_Condition : string;
  cv_ReviewBy : Instant; cv_ReplanningCondition : string; cv_PresentKind : bool
}.
Record HistoryEntry := mkHistoryEntry { he_Event : Event; he_At : Instant; he_By : string; he_Reason : string }.
Record Exception := mkException {
  x_ID : string; x_Object : Object; x_ADR : string; x_Owner : string; x_Justification : string;
  x_Convergence : Convergence; x_ValidFrom : Instant; x_ValidUntil : Instant; x_ReviewBy : Instant;
  x_History : list HistoryEntry; x_InvalidDates : list string;
  x_PresentID : bool; x_PresentADR : bool; x_PresentOwner : bool; x_PresentJustification : bool;
  x_PresentConvergence : bool; x_PresentValidFrom : bool; x_PresentValidUntil : bool;
  x_PresentReviewBy : bool; x_PresentHistory : bool
}.

(** A refusal, when its condition holds. *)
Definition when (b : bool) (d : Diagnostic) : list Diagnostic := if b then [d] else [].

Section Admission.
Context `{Printable}.

(** * The closed catalogue ([denied.go]) *)
Definition identityHasPrefix (prefix : string) (o : Object) : bool := HasPrefix (ob_Identity o) prefix.
Definition identityNamesEdge (o : Object) : bool := contains "->" (ob_Identity o).
Definition identityNamesCell (o : Object) : bool := HasPrefix (ob_Identity o) "cell:".
(** The last three characters are what is looked at. *)
Definition identityNamesTrigger (o : Object) : bool :=
  match reverse (String.list_ascii_of_string (ob_Identity o)) with
  | last :: t :: rest =>
      Ascii.eqb t "T" && Contains (String last "") ["1"; "2"; "3"; "4"; "5"; "6"]%string &&
      match rest with
      | [] => true
      | prev :: _ => existsb (Ascii.eqb prev) ["-"; "_"; ":"; "/"; " "]%char
      end
  | _ => false
  end.
Definition identityIsClassification (o : Object) : bool :=
  let id := ToLower (ob_Identity o) in
  String.eqb id "block" || String.eqb id "bounded_context" || HasPrefix id "block:" ||
  HasPrefix id "bounded_context:".
Definition identityIsBufRite (o : Object) : bool :=
  existsb (fun marker => contains marker (ob_Identity o))
    ["buf.sh"; "buf.gen.yaml"; "github.com/bufbuild/buf"; "protoc-gen-"]%string.

Record deniedRule := mkDeniedRule {
  dr_item : string; dr_code : Code; dr_detail : string; dr_match : Object -> bool
}.
Definition deniedCatalog : list deniedRule :=
  [mkDeniedRule "N1" CodeX004 "constraint P0 não admite exceção" (identityHasPrefix "P0-");
   mkDeniedRule "N2" CodeX003
     "aresta entre unidades não admite exceção: a regra de dependência é a norma, não uma política negociável"
     identityNamesEdge;
   mkDeniedRule "N2" CodeX003 "célula da matriz de blocos não admite exceção" identityNamesCell;
   mkDeniedRule "N3" CodeX004 "âncora versionada não admite exceção" (identityHasPrefix "ANC-");
   mkDeniedRule "N4" CodeX004 "gatilho de autorização T1–T6 não admite exceção" identityNamesTrigger;
   mkDeniedRule "N5" CodeX004 "classificação de bloco ou bounded context não admite exceção"
     identityIsClassification;
   mkDeniedRule "N6" CodeX004 "rito Buf e plugins pinados não admitem exceção" identityIsBufRite;
   mkDeniedRule "N7" CodeX004 "evidência de certificação não admite exceção" (identityHasPrefix "evidence_")].
Definition deniedBy (o : Object) : list Diagnostic :=
  concat (map (fun r => when (dr_match r o)
    (mkDiagnostic (dr_code r) "" (ob_Identity o) "" (dr_item r ++ ": " ++ dr_detail r))) deniedCatalog).

Record Subject := mkSubject { su_Block : Block; su_Capability : Capability }.
Definition blockPolicyDiagnostics (x : Exception) (s : Subject) : list Diagnostic :=
  if String.eqb (su_Block s) "" || negb (String.eqb (ob_Kind (x_Object x)) KindExternalDependency) then []
  else if negb (String.eqb (su_Block s) BlockDomain) && negb (String.eqb (su_Block s) BlockPort) then []
  else if String.eqb (su_Capability s) CapPure then []
  else
    let qual := if String.eqb (su_Capability s) "" then "de capability não classificada"%string
                else ("de capability " ++ su_Capability s)%string in
    [mkDiagnostic CodeX003 "" (ob_Identity (x_Object x)) ""
       ("N1: o bloco " ++ su_Block s ++
        " admite apenas pure (RFC §6.2, constraint P0), e a dependência é " ++ qual)].

(** * The life cycle ([lifecycle.go]) *)
Definition x005 (x : Exception) (detail : string) : Diagnostic := mkDiagnostic CodeX005 "" (x_ID x) "" detail.
Definition historyDiagnostics (x : Exception) (i : nat) (h : HistoryEntry) : list Diagnostic :=
  let at_ := ("history[" ++ Itoa (Z.of_nat i) ++ "]: ")%string in
  when (negb (IsEvent (he_Event h)))
    (x005 x (at_ ++ "evento " ++ Quote (he_Event h) ++ " fora do conjunto fechado")) ++
  when (String.eqb (he_By h) "") (x005 x (at_ ++ "evento sem autor")) ++
  when (String.eqb (he_Event h) EventRenewed && String.eqb (he_Reason h) "")
    (x005 x (at_ ++ "renewed sem reason")) ++
  when (String.eqb (he_Event h) EventRenewed && negb (x_ValidUntil x =? 0) && (x_ValidUntil x <? he_At h))
    (x005 x (at_ ++ "renewed depois de valid_until sem vigência nova")).
Definition lifecycleDiagnostics (x : Exception) : list Diagnostic :=
  map (fun campo => x005 x (campo ++ " não é data RFC3339 nem AAAA-MM-DD")) (x_InvalidDates x) ++
  when (negb (x_ValidFrom x =? 0) && negb (x_ValidUntil x =? 0) && (x_ValidUntil x <? x_ValidFrom x))
    (x005 x "valid_from posterior a valid_until") ++
  when (negb (x_ReviewBy x =? 0) && negb (x_ValidUntil x =? 0) && (x_ValidUntil x <? x_ReviewBy x))
    (x005 x "review_by posterior a valid_until") ++
  match x_History x with
  | [] => [x005 x "history vazio: a exceção precisa registrar ao menos a concessão"]
  | h0 :: _ =>
      when (negb (String.eqb (he_Event h0) EventGranted))
        (x005 x ("history[0] é " ++ Quote (he_Event h0) ++ ", e a concessão é sempre o primeiro evento")) ++
      concat (imap (historyDiagnostics x) (x_History x))
  end.
Definition Expired (x : Exception) (now : Instant) : bool :=
  negb (x_ValidUntil x =? 0) && (x_ValidUntil x <? now).
Definition Closed (x : Exception) : bool :=
  existsb (fun h => String.eqb (he_Event h) EventRevoked || String.eqb (he_Event h) EventConverged) (x_History x).
Definition expiryDiagnostics (x : Exception) (now : Instant) : list Diagnostic :=
  if Closed x || negb (Expired x now) then []
  else [mkDiagnostic CodeX006 "" (x_ID x) ""
          "exceção vencida sem renovação posterior: deixa de autorizar e a unidade fica não conforme"].

(** * Admission ([admit.go]) *)
Definition Registry := string.
Definition RegistryManifest : Registry := "manifest".

(** [range] over a string decodes runes; none beyond ASCII is among those looked
    for, and none of their bytes is. *)
Definition isNominalID (id : string) : bool :=
  HasPrefix id "X-" && (2 <? Z.of_nat (String.length id)) &&
  forallb (fun b => (97 <=? b) && (b <=? 122) || (48 <=? b) && (b <=? 57) || (b =? 45)) (drop 2 (bytes_of id)).
Definition isADRRef (ref : string) : bool :=
  (Z.of_nat (String.length ref) =? 7) && HasPrefix ref "ADR-" &&
  forallb (fun b => (48 <=? b) && (b <=? 57)) (drop 4 (bytes_of ref)).

Definition x001 (x : Exception) (detail : string) : Diagnostic := mkDiagnostic CodeX001 "" (x_ID x) "" detail.
Definition convergenceDiagnostics (x : Exception) : list Diagnostic :=
  if negb (x_PresentConvergence x) then
    [x001 x "convergence ausente: exceção sem saída declarada é permissão permanente"]
  else
    let c := x_Convergence x in
    if String.eqb (cv_Kind c) ConvergencePlan then
      when (cv_Deadline c =? 0) (x001 x "convergence plan sem deadline") ++
      when (blank (cv_Condition c)) (x001 x "convergence plan sem condition")
    else if String.eqb (cv_Kind c) ConvergenceReview then
      when (cv_ReviewBy c =? 0) (x001 x "convergence review sem review_by") ++
      when (blank (cv_ReplanningCondition c)) (x001 x "convergence review sem replanning_condition")
    else [x001 x ("convergence.kind " ++ Quote (cv_Kind c) ++ " fora de plan|review")].
Definition requiredDiagnostics (x : Exception) : list Diagnostic :=
  when (negb (isNominalID (x_ID x)))
    (x001 x ("id " ++ Quote (x_ID x) ++ " não é nominal: GOV-33 exige X-<minúsculas, dígitos e hífens>")) ++
  when (negb (isADRRef (x_ADR x)))
    (x001 x ("adr " ++ Quote (x_ADR x) ++ " ausente ou fora do formato ADR-NNN")) ++
  when (negb (HasPrefix (x_Owner x) "team:") || (Z.of_nat (String.length (x_Owner x)) <=? 5))
    (x001 x ("owner " ++ Quote (x_Owner x) ++ " não nomeia uma equipe (team:<nome>)")) ++
  when (blank (x_Justification x)) (x001 x "justification vazia") ++
  when (blank (ob_Unit (x_Object x)) || blank (ob_Identity (x_Object x)))
    (x001 x "object sem unit ou identity: a exceção nomeia o par (unidade, objeto), GOV-33") ++
  when ((x_ValidUntil x =? 0) && negb (Contains "valid_until" (x_InvalidDates x)))
    (x001 x "valid_until ausente: sem data de fim a exceção é inválida (GOV-34)") ++
  when ((x_ReviewBy x =? 0) && negb (Contains "review_by" (x_InvalidDates x)))
    (x001 x "review_by ausente: a revisão tem data obrigatória (GOV-34)") ++
  convergenceDiagnostics x.
Definition kindDiagnostics (x : Exception) : list Diagnostic :=
  when (negb (IsKind (ob_Kind (x_Object x))))
    (mkDiagnostic CodeX002 "" (x_ID x) "" ("object.kind " ++ Quote (ob_Kind (x_Object x)) ++ " fora da classe E1")).
Definition registryDiagnostics (x : Exception) (reg : Registry) : list Diagnostic :=
  if negb (IsKind (ob_Kind (x_Object x))) || String.eqb reg RegistryManifest then []
  else [mkDiagnostic CodeX007 "" (x_ID x) ""
          ("exceção " ++ ob_Kind (x_Object x) ++ " declarada no " ++ reg ++ "; GOV-35 a comporta no " ++
           RegistryManifest)].

Definition under_unit (x : Exception) (d : Diagnostic) : Diagnostic :=
  if String.eqb (dg_CanonicalKey d) ""
  then mkDiagnostic (dg_Code d) (ob_Unit (x_Object x)) (dg_Target d) (dg_SourceFile d) (dg_Detail d)
  else d.
Definition AdmitIn (x : Exception) (reg : Registry) (s : Subject) (now : Instant) : list Diagnostic :=
  SortDiagnostics (map (under_unit x)
    (requiredDiagnostics x ++ kindDiagnostics x ++ deniedBy (x_Object x) ++ blockPolicyDiagnostics x s ++
     lifecycleDiagnostics x ++ expiryDiagnostics x now ++ registryDiagnostics x reg)).
Definition Admit (x : Exception) (now : Instant) : list Diagnostic :=
  AdmitIn x RegistryManifest (mkSubject "" "") now.
End Admission.

(** The manifest of a module ([tools/dmpf-conformance/internal/manifest]): the
    decoded document, its validation, and the admission of its exceptions. *)

(** * The decoded document ([schema.go]) *)
Definition SchemaID : string := "dmpf/units@1".
Record MUnit := mkMUnit {
  mu_ID : string; mu_Block : string; mu_BoundedContext : string; mu_Include : list string;
  mu_PublicIntegrationSurface : bool;
  mu_PresentID : bool; mu_PresentBlock : bool; mu_PresentBoundedContext : bool;
  mu_PresentInclude : bool; mu_PresentPublicIntegrationSurface : bool
}.
Record External := mkExternal {
  mx_Package : string; mx_Entrypoints : list string; mx_Capability : string; mx_Versions : string
}.
Record MException := mkMException {
  me_Unit : string; me_Dependency : string; me_Reason : string; me_Owner : string; me_ReviewBy : string;
  me_ID : string; me_Object : Object; me_ADR : string; me_Justification : string;
  me_Convergence : Convergence; me_ValidFrom : Instant; me_ValidUntil : Instant;
  me_History : list HistoryEntry; me_ReviewByAt : Instant; me_InvalidDates : list string;
  me_PresentID : bool; me_PresentObject : bool; me_PresentADR : bool; me_PresentJustification : bool;
  me_PresentConvergence : bool; me_PresentValidFrom : bool; me_PresentValidUntil : bool;
  me_PresentHistory : bool
}.
Record Document := mkDocument {
  do_Path : string; do_Module : string; do_Schema : string; do_Units : list MUnit;
  do_External : list External; do_Exceptions : list MException
}.

(** * Two representations of one exception ([conflict.go]) *)
Definition differ (legacy now_ : string) : bool :=
  negb (String.eqb legacy "") && negb (String.eqb now_ "") && negb (String.eqb legacy now_).
Definition ConflictPairs (x : MException) : list string :=
  let o := me_Object x in
  (if me_PresentObject x then
     (if ob_PresentUnit o && differ (me_Unit x) (ob_Unit o) then ["unit vs object.unit"] else []) ++
     (if ob_PresentIdentity o && differ (me_Dependency x) (ob_Identity o)
      then ["dependency vs object.identity"] else [])
   else []) ++
  (if me_PresentJustification x && differ (me_Reason x) (me_Justification x)
   then ["reason vs justification"] else []).
Definition conflictDiagnostics (x : MException) : list Diagnostic :=
  match ConflictPairs x with
  | [] => []
  | pairs =>
      [mkDiagnostic CodeX001 (ob_Unit (me_Object x)) (me_ID x) ""
         ("representação legada diverge da nova: " ++ Join_strings ", " pairs)]
  end.

(** * The admission of the manifest's exceptions ([exception.go]) *)
Definition no_convergence : Convergence := mkConvergence "" 0 "" 0 "" false.
Definition ToException (x : MException) : Exception :=
  mkException (me_ID x) (me_Object x) (me_ADR x) (me_Owner x) (me_Justification x)
    (if me_PresentConvergence x then me_Convergence x else no_convergence)
    (me_ValidFrom x) (me_ValidUntil x) (me_ReviewByAt x)
    (if me_PresentHistory x then me_History x else []) (me_InvalidDates x)
    (me_PresentID x) (me_PresentADR x) (negb (String.eqb (me_Owner x) "")) (me_PresentJustification x)
    (me_PresentConvergence x) (me_PresentValidFrom x) (me_PresentValidUntil x)
    (negb (String.eqb (me_ReviewBy x) "")) (me_PresentHistory x).

Definition resolveSubject (x : MException) (doc : Document) (policy : ExternalPolicy) (isStandard : Standard)
    : Subject * bool :=
  let unit := List.find (fun u => String.eqb (mu_ID u) (ob_Unit (me_Object x))) (do_Units doc) in
  let capability :=
    if String.eqb (ob_Identity (me_Object x)) "" then ""%string
    else default ""%string (ResolveCapability (ob_Identity (me_Object x)) policy isStandard) in
  (mkSubject (match unit with Some u => mu_Block u | None => "" end) capability, bool_decide (is_Some unit)).

Definition count_ids (xs : list MException) : gmap string Z := count_by (fun x => Some (me_ID x)) xs.

Record Admitted_ := mkAdmitted { ad_Exc : Exception; ad_Subject : Subject; ad_Source : MException }.
Definition entry (a : Admitted_) : ExceptionEntry :=
  mkExceptionEntry (ob_Unit (x_Object (ad_Exc a))) (ob_Identity (x_Object (ad_Exc a)))
    (x_Justification (ad_Exc a)) (x_Owner (ad_Exc a)) (me_ReviewBy (ad_Source a)).

Definition allowlistOf (doc : Document) : ExternalPolicy :=
  mkExternalPolicy
    (map (fun e => mkAllowlistEntry (mx_Package e) (mx_Entrypoints e) (mx_Capability e) (mx_Versions e))
         (do_External doc)) [].

(** * Import paths and units ([validate.go]) *)
Definition insideModule (module include : string) : bool :=
  let norm := NormalizeInclude include in
  String.eqb norm module || HasPrefix norm (module ++ "/").

Definition first_some {A B} (f : A -> option B) : list A -> option B :=
  foldr (fun a acc => match f a with Some b => Some b | None => acc end) None.

Record Admission := mkAdmission { am_IsStandard : Standard; am_Now : Instant }.
Record Validation := mkValidation {
  va_Manifest : list Diagnostic; va_Exceptions : list Diagnostic; va_Admitted : list Admitted_;
  va_Policy : ExternalPolicy
}.

Section Validate.
Context `{Printable}.

Definition manifestDiagnostics (x : MException) (exc : Exception) (unitFound : bool) (ids : gmap string Z)
    : list Diagnostic :=
  let n := default 0 (ids !! me_ID x) in
  when (negb (String.eqb (me_ID x) "") && (1 <? n))
    (mkDiagnostic CodeX001 (ob_Unit (me_Object x)) (me_ID x) ""
       ("id " ++ Quote (me_ID x) ++ " repetido " ++ Itoa n ++
        " vezes no manifesto: GOV-33 exige identidade única")) ++
  when (String.eqb (ob_Kind (x_Object exc)) KindExternalDependency &&
        negb (String.eqb (ob_Unit (me_Object x)) "") && negb unitFound)
    (mkDiagnostic CodeX007 (ob_Unit (me_Object x)) (me_ID x) ""
       ("E1 da unidade " ++ Quote (ob_Unit (me_Object x)) ++
        ", que este manifesto não declara: GOV-35 a comporta no manifesto da própria unidade")).

(** One exception: its diagnostics, or its admission when it has none and is open. *)
Definition admit_one (doc : Document) (policy : ExternalPolicy) (isStandard : Standard) (now_ : Instant)
    (ids : gmap string Z) (x : MException) : list Admitted_ * list Diagnostic :=
  let exc := ToException x in
  let '(subj, unitFound) := resolveSubject x doc policy isStandard in
  let diags := conflictDiagnostics x ++ manifestDiagnostics x exc unitFound ids ++
               AdmitIn exc RegistryManifest subj now_ in
  match diags with
  | _ :: _ => ([], diags)
  | [] => if Closed exc then ([], []) else ([mkAdmitted exc subj x], [])
  end.
Definition Admitidas (doc : Document) (policy : ExternalPolicy) (isStandard : Standard) (now_ : Instant)
    : list Admitted_ * list Diagnostic :=
  let results := map (admit_one doc policy isStandard now_ (count_ids (do_Exceptions doc))) (do_Exceptions doc) in
  (concat (map fst results), concat (map snd results)).

Definition segment_motive (seg : string) : option string :=
  if Contains seg ["."; ".."]%string then Some ("segmento relativo " ++ Quote seg)%string
  else if Contains seg ["*"; "**"]%string
  then Some "glob não é binding de Go (RFC §10.1): declare o import path"%string else None.
(** The reason an import path is refused, empty for none. *)
Definition invalidImportPath (v : string) : string :=
  let norm := NormalizeInclude v in
  if String.eqb (TrimSpace v) "" then "vazio"
  else if String.eqb norm "" then "vazio após normalizar a barra final"
  else if negb (String.eqb v (TrimSpace v)) then "espaço em branco nas bordas"
  else if HasPrefix norm "/" then "barra inicial"
  else if contains "//" norm then "barra dupla"
  else if ContainsAny norm [" "; "009"; "010"]%char then "espaço no meio"
  else default ""%string (first_some segment_motive (split_on "/" norm)).

Definition include_diagnostics (key module where_ : string) (k : nat) (inc : string) : list Diagnostic :=
  let at_ := (where_ ++ ": include[" ++ Itoa (Z.of_nat k) ++ "] " ++ Quote inc)%string in
  let motivo := invalidImportPath inc in
  if negb (String.eqb motivo "") then
    [mkDiagnostic CodeM002 key "" "" (at_ ++ " não é import path válido: " ++ motivo)]
  else
    when (negb (String.eqb module "") && negb (insideModule module inc))
      (mkDiagnostic CodeM002 key "" "" (at_ ++ " fora do módulo " ++ Quote module)).
Definition validateUnit (key module : string) (i : nat) (u : MUnit) : list Diagnostic :=
  let index := ("units[" ++ Itoa (Z.of_nat i) ++ "]")%string in
  let where_ := if mu_PresentID u && negb (String.eqb (mu_ID u) "")
                then (index ++ " (" ++ Quote (mu_ID u) ++ ")")%string else index in
  let required (name : string) (present empty : bool) :=
    when (negb present || empty)
      (mkDiagnostic CodeM001 key "" ""
         (where_ ++ ": campo obrigatório " ++ Quote name ++ " ausente ou vazio")) in
  required "id" (mu_PresentID u) (String.eqb (mu_ID u) "") ++
  required "block" (mu_PresentBlock u) (String.eqb (mu_Block u) "") ++
  required "bounded_context" (mu_PresentBoundedContext u) (String.eqb (mu_BoundedContext u) "") ++
  required "include" (mu_PresentInclude u) (len (mu_Include u) =? 0) ++
  concat (imap (include_diagnostics key module where_) (mu_Include u)) ++
  when (mu_PresentBlock u && negb (String.eqb (mu_Block u) "") && negb (IsBlock (mu_Block u)))
    (mkDiagnostic CodeM002 key "" ""
       (where_ ++ ": block " ++ Quote (mu_Block u) ++ " fora do conjunto fechado dos seis")) ++
  when (mu_PublicIntegrationSurface u && String.eqb (mu_Block u) BlockDomain)
    (mkDiagnostic CodeM002 key "" ""
       (where_ ++ ": public_integration_surface: true em unidade de bloco domain")).

Definition named (u : MUnit) : option string :=
  if mu_PresentID u && negb (String.eqb (mu_ID u) "") then Some (mu_ID u) else None.
Definition count_units (us : list MUnit) : gmap string Z := count_by named us.
Definition repeated_unit (key : string) (e : string * Z) : list Diagnostic :=
  when (1 <? e.2)
    (mkDiagnostic CodeM003 key "" ""
       ("id " ++ Quote e.1 ++ " declarado " ++ Itoa e.2 ++ " vezes no mesmo manifesto")).
Definition validateSchema `{MapOrder} (doc : Document) : list Diagnostic :=
  let key := do_Path doc in
  SortDiagnostics
    (when (negb (String.eqb (do_Schema doc) SchemaID))
       (mkDiagnostic CodeM002 key "" ""
          ("schema " ++ Quote (do_Schema doc) ++ " fora do conjunto fechado (esperado " ++
           Quote SchemaID ++ ")")) ++
     concat (imap (validateUnit key (do_Module doc)) (do_Units doc)) ++
     concat (map (repeated_unit key) (ranged (count_units (do_Units doc))))).

Definition Validate `{MapOrder} (doc : Document) (a : Admission) : Validation :=
  let allowlist := allowlistOf doc in
  let '(admitted, recusas) := Admitidas doc allowlist (am_IsStandard a) (am_Now a) in
  let policy := mkExternalPolicy (po_Allowlist allowlist) (po_Exceptions allowlist ++ map entry admitted) in
  mkValidation (SortDiagnostics (validateSchema doc ++ policy_Validate policy (do_Path doc)))
    (SortDiagnostics recusas) admitted policy.
End Validate.
