(* ===== verification/Baseline.v ===== *)
(** The baseline of the classification
    ([tools/dmpf-conformance/internal/baseline]): its derivation from the
    universe, its digest, the comparison with a versioned copy, and the
    designation of the shared kernel. *)

From Stdlib Require Import OrdersEx.
From S2P Require Import Prelude GoTime GoStrings GoSlices Rules.

Definition SchemaID : string := "dmpf/units-baseline@1".
Definition Path : string := "tools/dmpf-baseline/units-baseline.json".

Record Entry := mkEntry {
  en_Unit : string; en_Module : string; en_Block : string; en_BoundedContext : string;
  en_Membership : list string
}.
Record Document := mkDocument {
  bd_Schema : string; bd_Digest : string; bd_Entries : list Entry;
  bd_SharedKernelUnits : list string; bd_HasSharedKernelUnits : bool
}.
Definition Entry_Key (e : Entry) : UnitKey := (en_Module e, en_Unit e).

(** * The digest ([digest.go])

    A text is its length in eight bytes, then its bytes; [crypto/sha256] is an
    argument. *)
Definition escreverUint (n : Z) : list Z :=
  map (fun k => Z.land (Z.shiftr (wrapu64 n) (8 * k)) 255) [7; 6; 5; 4; 3; 2; 1; 0].
Definition escreverCampo (v : string) : list Z :=
  escreverUint (Z.of_nat (String.length v)) ++ bytes_of v.
Definition escreverLista {A} (f : A -> list Z) (l : list A) : list Z :=
  escreverUint (len l) ++ concat (map f l).
Definition escreverEntry (e : Entry) : list Z :=
  escreverCampo (en_Module e) ++ escreverCampo (en_Unit e) ++ escreverCampo (en_Block e) ++
  escreverCampo (en_BoundedContext e) ++ escreverLista escreverCampo (en_Membership e).
Definition digerido (entries : list Entry) (sharedKernelUnits : list string) (has : bool) : list Z :=
  escreverLista escreverEntry entries ++
  (if has then escreverLista escreverCampo sharedKernelUnits else []).

Section Digest.
Context (sha256 : list Z -> list Z).

Definition EncodeToString (bs : list Z) : string := string_of (concat (map (hex 2) bs)).
Definition digestar (entries : list Entry) (sharedKernelUnits : list string) (has : bool) : string :=
  "sha256:" ++ EncodeToString (sha256 (digerido entries sharedKernelUnits has)).
Definition Digest (entries : list Entry) : string := digestar entries [] false.
Definition DigestOf (doc : Document) : string :=
  digestar (bd_Entries doc) (bd_SharedKernelUnits doc) (bd_HasSharedKernelUnits doc).

(** * The derivation ([baseline.go]) *)
Definition by_module_unit (a b : Entry) : comparison :=
  pair_compare String_as_OT.compare String_as_OT.compare (Entry_Key a) (Entry_Key b).
Definition ordenar : list Entry -> list Entry := SortStableFunc by_module_unit.
Definition entry_of (membership : gmap UnitKey (list string)) (u : Unit) : Entry :=
  mkEntry (u_ID u) (u_Module u) (u_Block u) (u_BoundedContext u)
    (sort_Strings (default [] (membership !! Unit_Key u))).
Definition FromUniverse (units : list Unit) (membership : gmap UnitKey (list string)) : Document :=
  let entries := ordenar (map (entry_of membership) units) in
  mkDocument SchemaID (Digest entries) entries [] false.

(** [atual] is [None] when no baseline existed. *)
Definition Regravar (atual : option Document) (units : list Unit)
    (membership : gmap UnitKey (list string)) : Document :=
  let entries := bd_Entries (FromUniverse units membership) in
  let shared := match atual with
                | Some d => if bd_HasSharedKernelUnits d then bd_SharedKernelUnits d else []
                | None => []
                end in
  mkDocument SchemaID (digestar entries shared true) entries shared true.

(** * The comparison *)
Definition quote (s : string) : string := string_of [34] ++ s ++ string_of [34].
Definition indexar (entries : list Entry) : gmap UnitKey Entry :=
  foldl (fun m e => <[Entry_Key e := e]> m) ∅ entries.
Definition t001 (key detail : string) : Diagnostic := mkDiagnostic CodeT001 key "" "" detail.
Definition divergencias (chave : UnitKey) (versionado derivado : Entry) : list Diagnostic :=
  (if negb (String.eqb (en_Block versionado) (en_Block derivado)) then
     [t001 (UnitKey_String chave)
        ("block: baseline " ++ quote (en_Block versionado) ++ ", manifesto " ++ quote (en_Block derivado))]
   else []) ++
  (if negb (String.eqb (en_BoundedContext versionado) (en_BoundedContext derivado)) then
     [t001 (UnitKey_String chave)
        ("bounded_context: baseline " ++ quote (en_BoundedContext versionado) ++ ", manifesto " ++
         quote (en_BoundedContext derivado))]
   else []) ++
  (if negb (bool_decide (en_Membership versionado = en_Membership derivado)) then
     [t001 (UnitKey_String chave)
        ("membership: baseline [" ++ Join_strings " " (en_Membership versionado) ++ "], manifesto [" ++
         Join_strings " " (en_Membership derivado) ++ "]")]
   else []).
Definition declared (noBaseline : gmap UnitKey Entry) (e : UnitKey * Entry) : list Diagnostic :=
  match noBaseline !! e.1 with
  | None => [t001 (UnitKey_String e.1) "unidade declarada no manifesto e ausente do baseline"]
  | Some v => divergencias e.1 v e.2
  end.
Definition registered (noManifesto : gmap UnitKey Entry) (e : UnitKey * Entry) : list Diagnostic :=
  match noManifesto !! e.1 with
  | None => [t001 (UnitKey_String e.1) "unidade registrada no baseline e ausente do manifesto"]
  | Some _ => []
  end.
Definition Compare `{MapOrder} (versionado derivado : Document) : list Diagnostic :=
  let schema :=
    if negb (String.eqb (bd_Schema versionado) SchemaID) then
      [t001 Path ("schema " ++ quote (bd_Schema versionado) ++ " fora do conjunto fechado (esperado " ++
                  quote SchemaID ++ ")")]
    else [] in
  let esperado := DigestOf versionado in
  let digest :=
    if negb (String.eqb (bd_Digest versionado) esperado) then
      [t001 Path ("digest não fecha com as entradas do arquivo: registrado " ++ quote (bd_Digest versionado) ++
                  ", calculado " ++ quote esperado)]
    else [] in
  let noBaseline := indexar (bd_Entries versionado) in
  let noManifesto := indexar (bd_Entries derivado) in
  SortDiagnostics
    (schema ++ digest ++ concat (map (declared noBaseline) (ranged noManifesto)) ++
     concat (map (registered noManifesto) (ranged noBaseline))).
End Digest.

(** * The designation of the shared kernel *)
Definition m004 (chave detail : string) : Diagnostic := mkDiagnostic CodeM004 chave "" "" detail.
Definition designated (u : Unit) : Unit :=
  mkUnit (u_ID u) (u_Block u) (u_BoundedContext u) (u_PublicIntegrationSurface u) true (u_Include u)
    (u_Module u) (u_ManifestPath u) (u_ReadOnly u).
(** The last position of each key. *)
Definition porUnitKey (units : list Unit) : gmap UnitKey nat :=
  foldl (fun m iu => <[Unit_Key iu.2 := iu.1]> m) ∅ (imap pair units).
Definition designar_um (entries : list Entry) (positions : gmap UnitKey nat)
    (acc : list Unit * list Diagnostic) (chave : string) : list Unit * list Diagnostic :=
  let '(out, diags) := acc in
  match filter (fun e => en_Unit e = chave) entries with
  | [] => (out, diags ++ [m004 chave "shared_kernel_units referencia unidade inexistente no baseline"])
  | [e] =>
      match positions !! Entry_Key e with
      | None =>
          (out, diags ++ [m004 chave ("shared_kernel_units resolvida no baseline (" ++
                                      UnitKey_String (Entry_Key e) ++ ") e ausente do universo")])
      | Some i => (alter designated i out, diags)
      end
  | _ =>
      (out, diags ++ [m004 chave
        "shared_kernel_units referencia unidade ambígua no baseline (presente em múltiplos módulos)"])
  end.
Definition Designar (doc : Document) (units : list Unit) : list Unit * list Diagnostic :=
  let '(out, diags) :=
    foldl (designar_um (bd_Entries doc) (porUnitKey units)) (units, [])
          (sort_Strings (bd_SharedKernelUnits doc)) in
  (out, SortDiagnostics diags).
