(* ===== verification/Conformance.v ===== *)
(** The check of a workspace ([tools/dmpf-conformance/internal/conformance], over
    the ports of [internal/port]): manifests, shared kernel, kernel by version,
    coverage, edges and baseline, in the order that decides what is reported.

    Each port is called once, so what it returns is a field of the input; an
    error is its text. *)

From S2P Require Import Prelude GoTime GoStrings GoSlices Rules Exceptions Baseline.

Record Edge := mkEdge {
  ed_From : string; ed_To : string; ed_SourceFile : string; ed_Unresolved : bool; ed_Detail : string
}.
Record Kernel := mkKernel { ke_Documents : list Exceptions.Document; ke_Packages : list Package }.

Record Input := mkInput {
  in_Modules : list Module_;
  in_Manifests : string + list Exceptions.Document;
  in_Packages : string + list Package;
  in_Edges : string + list Edge;
  in_Closure : Closure;
  in_Standard : Standard;
  in_Baseline : option (string + (Baseline.Document * bool));
  in_SharedKernelUnits : list string;
  in_Kernel : option (string + Kernel);
  in_Now : Instant
}.
Record Report := mkReport {
  re_Diagnostics : list Diagnostic; re_PhaseHalted : string; re_NaoVerificado : list string; re_Falha : bool
}.
Definition Reprovado (r : Report) : bool := (0 <? len (re_Diagnostics r)) || (0 <? len (re_NaoVerificado r)).
Definition Resumo (r : Report) : string :=
  let n := Itoa (len (re_Diagnostics r)) in
  if 0 <? len (re_NaoVerificado r) then
    "conformance: REPROVADO com " ++ n ++ " diagnóstico(s) e " ++ Itoa (len (re_NaoVerificado r)) ++
    " condição(oes) não verificada(s)"
  else if len (re_Diagnostics r) =? 0 then "conformance: conforme"
  else if negb (String.eqb (re_PhaseHalted r) "") then
    "conformance: REPROVADO com " ++ n ++ " diagnóstico(s); parou em " ++ re_PhaseHalted r
  else "conformance: REPROVADO com " ++ n ++ " diagnóstico(s)".

Definition UnidadesDoDocumento (doc : Exceptions.Document) : list Unit :=
  map (fun u => mkUnit (mu_ID u) (mu_Block u) (mu_BoundedContext u) (mu_PublicIntegrationSurface u) false
                  (mu_Include u) (do_Module doc) (do_Path doc) false) (do_Units doc).
Definition documentoSinteticoDeUnits (units : list Unit) (chaves : list string) : Baseline.Document :=
  Baseline.mkDocument "" "" (map (fun u => mkEntry (u_ID u) (u_Module u) "" "" []) units) chaves true.
Definition detalheOuPadrao (d : string) : string :=
  if String.eqb d "" then "import não resolvido pelo toolchain" else d.

Record kernelDeLeitura := mkKernelDeLeitura {
  kl_unidades : list Unit; kl_pacotes : list Package; kl_chaves : gset string
}.
Definition contem (k : kernelDeLeitura) (canonicalKey : string) : bool := bool_decide (canonicalKey ∈ kl_chaves k).
Definition received (u : Unit) : Unit :=
  mkUnit (u_ID u) (u_Block u) (u_BoundedContext u) (u_PublicIntegrationSurface u) true (u_Include u)
    (u_Module u) (u_ManifestPath u) true.

Section Check.
Context (sha256 : list Z -> list Z).
Context `{Printable} `{MapOrder}.

Definition admission (i : Input) : Admission := mkAdmission (in_Standard i) (in_Now i).
Fixpoint kernel_units (i : Input) (docs : list Exceptions.Document) : string + list Unit :=
  match docs with
  | [] => inr []
  | doc :: docs' =>
      match va_Manifest (Validate doc (admission i)) with
      | d :: _ => inl ("manifesto do kernel inválido em " ++ do_Path doc ++ ": " ++ Diagnostic_String d)%string
      | [] =>
          match kernel_units i docs' with
          | inl falha => inl falha
          | inr us => inr (map received (UnidadesDoDocumento doc) ++ us)
          end
      end
  end.
(** The condition not verified, on the left, when the kernel cannot be read. *)
Definition lerKernel (i : Input) : string + kernelDeLeitura :=
  match in_Kernel i with
  | None => inr (mkKernelDeLeitura [] [] ∅)
  | Some (inl err) => inl ("kernel por versão: " ++ err)%string
  | Some (inr k) =>
      match kernel_units i (ke_Documents k) with
      | inl falha => inl falha
      | inr us => inr (mkKernelDeLeitura us (ke_Packages k) (list_to_set (map pk_CanonicalKey (ke_Packages k))))
      end
  end.

Definition unresolved_diagnostic (e : Edge) : Diagnostic :=
  mkDiagnostic CodeE003 (ed_From e) (ed_To e) (ed_SourceFile e) (detalheOuPadrao (ed_Detail e)).
Definition diagnose_edge (i : Input) (universo : Universe) (kernel : kernelDeLeitura)
    (politicas : gmap string ExternalPolicy) (e : Edge) : list Diagnostic :=
  if ed_Unresolved e then [unresolved_diagnostic e]
  else
    match Universe_Endpoint universo (ed_From e) with
    | None => []
    | Some origem =>
        match Universe_Endpoint universo (ed_To e) with
        | Some destino => DiagnoseEdge origem destino (ed_SourceFile e)
        | None =>
            if Discovered universo (ed_To e) then
              when (contem kernel (ed_To e))
                (mkDiagnostic CodeU001 (ed_To e) "" (ed_SourceFile e)
                   "package do kernel por versão sem unidade única no manifesto do módulo")
            else
              let dono := default (mkUnit "" "" "" false false [] "" "" false) (Universe_Lookup universo (ed_From e)) in
              EvaluateExternal origem (u_ID dono) (ed_To e) (ed_SourceFile e)
                (default (mkExternalPolicy [] []) (politicas !! u_Module dono)) (in_Closure i) (in_Standard i)
        end
    end.

Definition conferirBaseline (i : Input) (units : list Unit) (universo : Universe)
    (versionado : Baseline.Document) (existe : bool) : list Diagnostic * list string :=
  match in_Baseline i with
  | None => ([], ["baseline da classificação (RFC §10.2, T1-T3): nenhum BaselineStore fornecido"%string])
  | Some _ =>
      if negb existe then
        ([], [("baseline ausente em " ++ Path ++ ": a divergência de T3 não pode ser avaliada")%string])
      else (Compare sha256 versionado (FromUniverse sha256 units (Membership universo)), [])
  end.

(** The policies by module: a later document of a module replaces an earlier one. *)
Definition politicaPorModulo (docs : list Exceptions.Document) (vs : list Validation) : gmap string ExternalPolicy :=
  foldl (fun m dv => <[do_Module dv.1 := va_Policy dv.2]> m) ∅ (zip docs vs).

(** From the designation on: the kernel, the universe, the edges, the baseline. *)
Definition check_edges (i : Input) (politicas : gmap string ExternalPolicy) (admitidas : Z)
    (diags : list Diagnostic) (units : list Unit) (baselineDoc : Baseline.Document) (existe : bool)
    : string + Report :=
  match lerKernel i with
  | inl falha => inr (mkReport (SortDiagnostics diags) "leitura do kernel" [falha] true)
  | inr kernel =>
      match in_Packages i with
      | inl err => inl err
      | inr pkgs =>
          let '(universo, cobertura) :=
            BuildUniverse (units ++ kl_unidades kernel) (pkgs ++ kl_pacotes kernel) (in_Modules i) in
          let cobertura := filter (fun d => contem kernel (dg_CanonicalKey d) = false) cobertura in
          if existsb (fun d => String.eqb (dg_Code d) CodeU004) cobertura then
            inr (mkReport (SortDiagnostics (diags ++ cobertura)) "módulo sem manifesto" [] false)
          else
            match in_Edges i with
            | inl err => inl err
            | inr edges =>
                let arestas := concat (map (diagnose_edge i universo kernel politicas) edges) in
                let vencimento :=
                  if (in_Now i =? 0) && (0 <? admitidas) then
                    [("vencimento de " ++ Itoa admitidas ++
                      " exceção(ões) admitida(s) (GOV-34, DMPF-X006): Input.Now ausente")%string]
                  else [] in
                let '(t001s, pendente) := conferirBaseline i units universo baselineDoc existe in
                inr (mkReport (SortDiagnostics (diags ++ cobertura ++ arestas ++ t001s)) ""
                       (vencimento ++ pendente) false)
            end
      end
  end.

(** From the baseline on, over the manifests and what their validation gave. *)
Definition check_units (i : Input) (docs : list Exceptions.Document) (vs : list Validation)
    (baselineDoc : Baseline.Document) (existe : bool) : string + Report :=
  let recusas := concat (map va_Exceptions vs) in
  let '(units, m004s) := Designar baselineDoc (concat (map UnidadesDoDocumento docs)) in
  match m004s with
  | _ :: _ => inr (mkReport (SortDiagnostics (recusas ++ m004s)) "designação de shared kernel" [] false)
  | [] =>
      check_edges i (politicaPorModulo docs vs) (len (concat (map va_Admitted vs))) recusas units
        baselineDoc existe
  end.

Definition Check (i : Input) : string + Report :=
  match in_Manifests i with
  | inl err => inl err
  | inr docs =>
      let vs := map (fun doc => Validate doc (admission i)) docs in
      let units := concat (map UnidadesDoDocumento docs) in
      let recusas := concat (map va_Exceptions vs) in
      match concat (map va_Manifest vs) with
      | (_ :: _) as invalid =>
          inr (mkReport (SortDiagnostics (invalid ++ recusas)) "validação de manifesto" [] false)
      | [] =>
          match in_Baseline i with
          | Some (inl err) =>
              inr (mkReport (SortDiagnostics recusas) "designação de shared kernel"
                     [("baseline ilegível (" ++ Path ++ "): " ++ err)%string] false)
          | Some (inr (baselineDoc, existe)) => check_units i docs vs baselineDoc existe
          | None => check_units i docs vs (documentoSinteticoDeUnits units (in_SharedKernelUnits i)) false
          end
      end
  end.
End Check.
