(* ===== verification/Regex.v ===== *)
(** Regular expressions: the fragment of Go's [regexp] syntax the program's
    format checks use, as a syntax tree with its language, an executable
    matcher by derivatives, and the theorem that the two agree.  The patterns
    themselves are declared where the code declares them. *)

From S2P Require Import Prelude.

(** * Syntax and language *)
Inductive re : Type :=
| RNone                        (* no word *)
| REps                         (* the empty word *)
| RChar (p : ascii -> bool)    (* one character of a class *)
| RSeq (r1 r2 : re)
| RAlt (r1 r2 : re)
| RStar (r : re).

Definition word := (list ascii).

Inductive lang : re -> word -> Prop :=
| lang_eps : lang REps []
| lang_char p c : p c = true -> lang (RChar p) [c]
| lang_seq r1 r2 w1 w2 : lang r1 w1 -> lang r2 w2 -> lang (RSeq r1 r2) (w1 ++ w2)
| lang_alt_l r1 r2 w : lang r1 w -> lang (RAlt r1 r2) w
| lang_alt_r r1 r2 w : lang r2 w -> lang (RAlt r1 r2) w
| lang_star_nil r : lang (RStar r) []
| lang_star_cons r w1 w2 : lang r w1 -> lang (RStar r) w2 -> lang (RStar r) (w1 ++ w2).

Create HintDb regex.
#[export] Hint Constructors lang : regex.

(** * Matcher *)
Fixpoint nullable (r : re) : bool :=
  match r with
  | RNone => false
  | REps => true
  | RChar _ => false
  | RSeq r1 r2 => nullable r1 && nullable r2
  | RAlt r1 r2 => nullable r1 || nullable r2
  | RStar _ => true
  end.

(** Smart constructors keep derivatives from growing. *)
Definition seq (r1 r2 : re) : re :=
  match r1 with RNone => RNone | REps => r2 | _ => RSeq r1 r2 end.
Definition alt (r1 r2 : re) : re :=
  match r1, r2 with RNone, r | r, RNone => r | _, _ => RAlt r1 r2 end.

Fixpoint der (c : ascii) (r : re) : re :=
  match r with
  | RNone | REps => RNone
  | RChar p => if p c then REps else RNone
  | RSeq r1 r2 =>
      if nullable r1 then alt (seq (der c r1) r2) (der c r2) else seq (der c r1) r2
  | RAlt r1 r2 => alt (der c r1) (der c r2)
  | RStar r1 => seq (der c r1) (RStar r1)
  end.

Fixpoint matches (r : re) (w : word) : bool :=
  match w with
  | [] => nullable r
  | c :: w' => matches (der c r) w'
  end.

(** [MatchString] of a pattern anchored at both ends. *)
Definition re_match (r : re) (s : string) : bool := matches r (String.list_ascii_of_string s).

(** Derived forms. *)
Definition RPlus (r : re) : re := RSeq r (RStar r).
(** [r{0,n}], nested so that a derivative stays linear in [n]. *)
Fixpoint RUpto (n : nat) (r : re) : re :=
  match n with O => REps | S n' => RAlt (RSeq r (RUpto n' r)) REps end.
(** [r{1,n}]. *)
Definition RBetween1 (n : nat) (r : re) : re := RSeq r (RUpto (n - 1) r).

(** * Correctness *)
Lemma lang_seq_inv r1 r2 w :
  lang (RSeq r1 r2) w -> exists w1 w2, w = w1 ++ w2 /\ lang r1 w1 /\ lang r2 w2.
Proof. inversion 1; subst; eauto. Qed.

Lemma lang_alt_inv r1 r2 w : lang (RAlt r1 r2) w -> lang r1 w \/ lang r2 w.
Proof. inversion 1; subst; eauto. Qed.

Lemma lang_none_inv w : ~ lang RNone w.
Proof. inversion 1. Qed.

Lemma lang_eps_inv w : lang REps w -> w = [].
Proof. by inversion 1. Qed.

Lemma lang_char_inv p w : lang (RChar p) w -> exists c, w = [c] /\ p c = true.
Proof. inversion 1; subst; eauto. Qed.

Lemma lang_seq_smart r1 r2 w : lang (seq r1 r2) w <-> lang (RSeq r1 r2) w.
Proof.
  destruct r1; simpl; try done; split; intros H.
  - by apply lang_none_inv in H.
  - by apply lang_seq_inv in H as (? & ? & _ & ?%lang_none_inv & _).
  - apply (lang_seq REps r2 [] w); auto with regex.
  - by apply lang_seq_inv in H as (? & ? & -> & ->%lang_eps_inv & ?).
Qed.

Lemma lang_alt_smart r1 r2 w : lang (alt r1 r2) w <-> lang (RAlt r1 r2) w.
Proof.
  split; intros H.
  - destruct r1, r2; simpl in H; auto with regex.
  - apply lang_alt_inv in H as [H | H]; destruct r1, r2; simpl;
      auto with regex; by apply lang_none_inv in H.
Qed.

Lemma nullable_lang r : nullable r = true <-> lang r [].
Proof.
  induction r as [| | p | r1 IH1 r2 IH2 | r1 IH1 r2 IH2 | r1 IH1]; simpl.
  - split; [done | inversion 1].
  - split; auto with regex.
  - split; [done | inversion 1].
  - rewrite andb_true_iff, IH1, IH2. split.
    + intros [H1 H2]. by apply (lang_seq _ _ [] []).
    + intros (w1 & w2 & Hw & H1 & H2)%lang_seq_inv.
      symmetry in Hw. by apply app_eq_nil in Hw as [-> ->].
  - rewrite orb_true_iff, IH1, IH2. split.
    + intros [H | H]; auto with regex.
    + apply lang_alt_inv.
  - split; auto with regex.
Qed.

Lemma lang_star_cons_inv r c w :
  lang (RStar r) (c :: w) ->
  exists w1 w2, w = w1 ++ w2 /\ lang r (c :: w1) /\ lang (RStar r) w2.
Proof.
  intros H. remember (RStar r) as r' eqn:Er. remember (c :: w) as u eqn:Eu.
  induction H as [| | | | | | r0 w1 w2 H1 _ H2 IH]; try done; simplify_eq.
  destruct w1 as [| c' w1']; simpl in *; [by apply IH |].
  simplify_eq. eauto.
Qed.

Lemma der_lang c r w : lang (der c r) w <-> lang r (c :: w).
Proof.
  revert w.
  induction r as [| | p | r1 IH1 r2 IH2 | r1 IH1 r2 IH2 | r1 IH1]; intros w; simpl.
  - split; inversion 1.
  - split; inversion 1.
  - destruct (p c) eqn:Ep; split.
    + intros ->%lang_eps_inv. auto with regex.
    + intros (c' & [= -> ->] & _)%lang_char_inv. auto with regex.
    + inversion 1.
    + intros (c' & [= -> ->] & ?)%lang_char_inv. congruence.
  - assert (Hseq : lang (seq (der c r1) r2) w <->
      exists w1 w2, w = w1 ++ w2 /\ lang r1 (c :: w1) /\ lang r2 w2).
    { rewrite lang_seq_smart. split.
      - intros (w1 & w2 & -> & H1%IH1 & H2)%lang_seq_inv. eauto.
      - intros (w1 & w2 & -> & H1 & H2). constructor; [by apply IH1 | done]. }
    assert (Hcons : lang (RSeq r1 r2) (c :: w) <->
      (exists w1 w2, w = w1 ++ w2 /\ lang r1 (c :: w1) /\ lang r2 w2)
      \/ (lang r1 [] /\ lang r2 (c :: w))).
    { split.
      - intros (w1 & w2 & Hw & H1 & H2)%lang_seq_inv.
        destruct w1 as [| c' w1]; simplify_eq/=; [by right | left; eauto].
      - intros [(w1 & w2 & -> & H1 & H2) | [H1 H2]].
        + by apply (lang_seq _ _ (c :: w1) w2).
        + by apply (lang_seq _ _ [] (c :: w)). }
    destruct (nullable r1) eqn:En.
    + rewrite lang_alt_smart, Hcons. apply nullable_lang in En. split.
      * intros [H%Hseq | H%IH2]%lang_alt_inv; [by left | by right].
      * intros [H%Hseq | [_ H%IH2]]; auto with regex.
    + rewrite Hseq, Hcons. split; [by left |].
      intros [H | [H _]]; [done |]. apply nullable_lang in H. congruence.
  - rewrite lang_alt_smart. split.
    + intros [H%IH1 | H%IH2]%lang_alt_inv; auto with regex.
    + intros [H%IH1 | H%IH2]%lang_alt_inv; auto with regex.
  - rewrite lang_seq_smart. split.
    + intros (w1 & w2 & -> & H1%IH1 & H2)%lang_seq_inv.
      by apply (lang_star_cons _ (c :: w1) w2).
    + intros (w1 & w2 & -> & H1 & H2)%lang_star_cons_inv.
      constructor; [by apply IH1 | done].
Qed.

Lemma matches_lang r w : matches r w = true <-> lang r w.
Proof.
  revert r. induction w as [| c w IH]; intros r; simpl.
  - apply nullable_lang.
  - by rewrite IH, der_lang.
Qed.

Lemma re_match_lang r s : re_match r s = true <-> lang r (String.list_ascii_of_string s).
Proof. apply matches_lang. Qed.

(** * Repetitions of one character class *)
Lemma lang_star_char p w : lang (RStar (RChar p)) w <-> Forall (fun c => p c = true) w.
Proof.
  split.
  - intros H. remember (RStar (RChar p)) as r eqn:Er.
    induction H as [| | | | | | r w1 w2 H1 _ _ IH]; simplify_eq; [done |].
    apply lang_char_inv in H1 as (c & -> & Hc). simpl. constructor; auto.
  - induction 1 as [| c w Hc _ IH]; [constructor |].
    apply (lang_star_cons _ [c] w); auto with regex.
Qed.

Lemma lang_plus_char p w :
  lang (RPlus (RChar p)) w <-> w <> [] /\ Forall (fun c => p c = true) w.
Proof.
  unfold RPlus. split.
  - intros (w1 & w2 & -> & (c & -> & Hc)%lang_char_inv & H2%lang_star_char)%lang_seq_inv.
    split; [done |]. simpl. by constructor.
  - intros [Hne H]. destruct H as [| c w Hc H]; [done |].
    apply (lang_seq _ _ [c] w); [by constructor | by apply lang_star_char].
Qed.

Lemma lang_upto_char n p w :
  lang (RUpto n (RChar p)) w <-> (length w <= n)%nat /\ Forall (fun c => p c = true) w.
Proof.
  revert w. induction n as [| n IH]; intros w; simpl.
  - split.
    + intros ->%lang_eps_inv. simpl. auto.
    + intros [H _]. destruct w; simpl in *; [constructor | lia].
  - split.
    + intros [(w1 & w2 & -> & (c & -> & Hc)%lang_char_inv & [H2 H3]%IH)%lang_seq_inv
             | ->%lang_eps_inv]%lang_alt_inv; simpl.
      * split; [lia |]. by constructor.
      * split; [lia | done].
    + intros [Hl H]. destruct H as [| c w Hc H]; simpl in *; [auto with regex |].
      apply lang_alt_l, (lang_seq _ _ [c] w); [by constructor |].
      apply IH. split; [lia | done].
Qed.

Lemma lang_between1_char n p w :
  (1 <= n)%nat ->
  lang (RBetween1 n (RChar p)) w <->
  (1 <= length w <= n)%nat /\ Forall (fun c => p c = true) w.
Proof.
  intros Hn. unfold RBetween1. split.
  - intros (w1 & w2 & -> & (c & -> & Hc)%lang_char_inv & [H2 H3]%lang_upto_char)%lang_seq_inv.
    simpl. split; [lia |]. by constructor.
  - intros [Hl H]. destruct H as [| c w Hc H]; simpl in *; [lia |].
    apply (lang_seq _ _ [c] w); [by constructor |].
    apply lang_upto_char. split; [lia | done].
Qed.

(** * Character classes *)
Definition between (lo hi : ascii) (c : ascii) : bool :=
  (N_of_ascii lo <=? N_of_ascii c)%N && (N_of_ascii c <=? N_of_ascii hi)%N.
Definition is_char (d c : ascii) : bool := Ascii.eqb d c.
Definition lower : ascii -> bool := between "a" "z".
Definition upper : ascii -> bool := between "A" "Z".
Definition digit : ascii -> bool := between "0" "9".
Definition either (p q : ascii -> bool) (c : ascii) : bool := p c || q c.
Arguments is_char : simpl never.
Arguments between : simpl never.
Arguments either : simpl never.
