(* ===== verification/DomainKernel.v ===== *)
(** The domain kernel ([src/libs/backend/go/domain]): rejections and their
    codes, decisions, and [DecideOver], which runs a decision over a copy of
    the aggregate and keeps the copy on acceptance only. *)

From S2P Require Import Prelude Regex.

(** * Rejections *)
Definition Code := string.
Definition Instant := Z.

Record Detail := mkDetail { Key : string; Value : string }.

Record Rejection := mkRejection {
  rej_code : Code;
  rej_message : string;
  rej_details : list Detail
}.

#[global] Instance Detail_eq_dec : EqDecision Detail.
Proof. solve_decision. Defined.
#[global] Instance Rejection_eq_dec : EqDecision Rejection.
Proof. solve_decision. Defined.

Definition Reject (code : Code) (message : string) (details : list Detail) : Rejection :=
  mkRejection code message details.

(** [codePattern]: a kebab segment, then one or two more behind a slash. *)
Definition dash : ascii := "-".
Definition slash : ascii := "/".
Definition lower_digit (c : ascii) : bool := either lower digit c.
Arguments lower_digit : simpl never.
Definition segmentPattern : re :=
  RSeq (RChar lower) (RSeq (RStar (RChar lower_digit))
    (RStar (RSeq (RChar (is_char dash)) (RPlus (RChar lower_digit))))).
Definition codePattern : re :=
  RSeq segmentPattern
    (RSeq (RSeq (RChar (is_char slash)) segmentPattern)
       (RAlt (RSeq (RChar (is_char slash)) segmentPattern) REps)).

Definition Valid (c : Code) : bool := re_match codePattern c.

(** * Decisions *)
Section Decision.
Context {Event : Type}.

Record Accepted (R : Type) := mkAccepted { response : R; events : list Event }.
Arguments mkAccepted {R}.
Arguments response {R}.
Arguments events {R}.

Definition Accept {R} (r : R) (evs : list Event) : Accepted R := mkAccepted r evs.

(** The two branches of a decision: Go returns a pair of which exactly one
    component is meaningful. *)
Definition Decision_of (R : Type) : Type := Accepted R + Rejection.

Definition Refuse {R} (code : Code) (message : string) (details : list Detail)
  : Decision_of R := inr (Reject code message details).

(** [decide] receives a pointer to the copy, so it returns the copy as it
    left it along with its decision; the result pairs what the caller gets
    with the final content of the target. *)
Definition DecideOver {A R} (target : A) (copyOf : A -> A)
    (decide : A -> A * Decision_of R) : A * Decision_of R :=
  let next := copyOf target in
  let '(next', d) := decide next in
  match d with
  | inr rejection => (target, inr rejection)
  | inl accepted => (next', inl accepted)
  end.

Lemma DecideOver_rejected {A R} (target : A) copyOf (decide : A -> A * Decision_of R) t r :
  DecideOver target copyOf decide = (t, inr r) -> t = target.
Proof. unfold DecideOver. destruct (decide _) as [n [a | r']]; naive_solver. Qed.
End Decision.
Arguments Accepted : clear implicits.
Arguments mkAccepted {Event R}.
Arguments response {Event R}.
Arguments events {Event R}.
Arguments Decision_of : clear implicits.

(** * What a valid code looks like *)
(** The kebab automaton: [after_dash] is true when the next character must be
    alphanumeric. *)
Fixpoint kebab_rest (after_dash : bool) (w : word) : bool :=
  match w with
  | [] => negb after_dash
  | c :: w' =>
      if lower_digit c then kebab_rest false w'
      else is_char dash c && negb after_dash && kebab_rest true w'
  end.
(** A segment starts with a letter, holds letters, digits and single dashes
    between them, and does not end with a dash. *)
Definition kebab (w : word) : bool :=
  match w with [] => false | c :: w' => lower c && kebab_rest false w' end.

Lemma lower_digit_dash c : is_char dash c = true -> lower_digit c = false.
Proof. intros <-%Ascii.eqb_eq. reflexivity. Qed.

Lemma kebab_rest_app w1 w2 :
  Forall (fun c => lower_digit c = true) w1 ->
  kebab_rest false (w1 ++ w2) = kebab_rest false w2.
Proof. induction 1 as [| c w Hc _ IH]; [done |]. cbn. by rewrite Hc. Qed.

Lemma kebab_groups w :
  lang (RStar (RSeq (RChar (is_char dash)) (RPlus (RChar lower_digit)))) w ->
  kebab_rest false w = true.
Proof.
  intros H. remember (RStar _) as r eqn:Er.
  induction H as [| | | | | | r w1 w2 H1 _ _ IH]; simplify_eq; [done |].
  apply lang_seq_inv in H1 as (u & v & -> & (c & -> & Hc)%lang_char_inv
    & [Hne Hv]%lang_plus_char).
  cbn. rewrite (lower_digit_dash c Hc), Hc. cbn.
  destruct Hv as [| d v Hd Hv]; [done |]. cbn. rewrite Hd.
  rewrite kebab_rest_app by done. auto.
Qed.

(** A word accepted by the automaton is letters and digits, then groups. *)
Lemma kebab_split b w :
  kebab_rest b w = true ->
  exists w1 w2, w = w1 ++ w2 /\ Forall (fun c => lower_digit c = true) w1 /\
    (b = true -> w1 <> []) /\
    lang (RStar (RSeq (RChar (is_char dash)) (RPlus (RChar lower_digit)))) w2.
Proof.
  revert b. induction w as [| c w IH]; intros b H; cbn in H.
  - exists [], []. destruct b; [done |]. repeat split; [done | done | auto with regex].
  - destruct (lower_digit c) eqn:Ec.
    + destruct (IH false H) as (w1 & w2 & -> & H1 & _ & H2).
      exists (c :: w1), w2. repeat split; [by constructor | done | done].
    + apply andb_true_iff in H as [[Hc Hb]%andb_true_iff H].
      destruct (IH true H) as (w1 & w2 & -> & H1 & Hne & H2).
      exists [], (c :: w1 ++ w2). destruct b; [done |].
      repeat split; [done | done |].
      apply (lang_star_cons _ (c :: w1) w2); [| done].
      apply (lang_seq _ _ [c] w1); [by constructor |].
      apply lang_plus_char. auto.
Qed.

Lemma segment_kebab w : lang segmentPattern w <-> kebab w = true.
Proof.
  unfold segmentPattern. split.
  - intros (? & ? & -> & (c & -> & Hc)%lang_char_inv & H)%lang_seq_inv.
    apply lang_seq_inv in H as (w1 & w2 & -> & H1%lang_star_char & H2).
    cbn. rewrite Hc. cbn. rewrite kebab_rest_app by done. by apply kebab_groups.
  - destruct w as [| c w]; [done |]. cbn. intros [Hc H]%andb_true_iff.
    apply kebab_split in H as (w1 & w2 & -> & H1 & _ & H2).
    apply (lang_seq _ _ [c]); [by constructor |].
    constructor; [by apply lang_star_char | done].
Qed.

Lemma slash_segment w :
  lang (RSeq (RChar (is_char slash)) segmentPattern) w <->
  exists s, w = slash :: s /\ kebab s = true.
Proof.
  split.
  - intros (? & s & -> & (c & -> & Hc)%lang_char_inv & ?%segment_kebab)%lang_seq_inv.
    apply Ascii.eqb_eq in Hc as <-. by exists s.
  - intros (s & -> & H%segment_kebab). by apply (lang_seq _ _ [slash] s); [constructor |].
Qed.

Lemma codePattern_lang w :
  lang codePattern w <->
  (exists a b, w = a ++ slash :: b /\ kebab a /\ kebab b) \/
  (exists a b c, w = a ++ slash :: b ++ slash :: c /\ kebab a /\ kebab b /\ kebab c).
Proof.
  unfold codePattern. split.
  - intros (a & ? & -> & Ha%segment_kebab & H)%lang_seq_inv.
    apply lang_seq_inv in H as (? & ? & -> & (b & -> & Hb)%slash_segment & H).
    apply lang_alt_inv in H as [(c & -> & Hc)%slash_segment | ->%lang_eps_inv].
    + right. exists a, b, c. rewrite Ha, Hb, Hc. auto.
    + left. exists a, b. rewrite app_nil_r, Ha, Hb. auto.
  - intros [(a & b & -> & Ha & Hb) | (a & b & c & -> & Ha & Hb & Hc)].
    + apply lang_seq; [by apply segment_kebab, Is_true_true |].
      rewrite <- (app_nil_r (slash :: b)). apply lang_seq.
      * apply slash_segment. eexists. split; [done | by apply Is_true_true].
      * auto with regex.
    + apply lang_seq; [by apply segment_kebab, Is_true_true |].
      change (slash :: b ++ slash :: c) with ((slash :: b) ++ slash :: c).
      apply lang_seq.
      * apply slash_segment. eexists. split; [done | by apply Is_true_true].
      * apply lang_alt_l, slash_segment. eexists. split; [done | by apply Is_true_true].
Qed.

(** A rejection code is two or three kebab-case segments between slashes:
    each starts with a lower-case letter, holds lower-case letters, digits and
    single dashes, and does not end with a dash. *)
Theorem Code_Valid_shape (c : Code) :
  Valid c = true <->
  let w := String.list_ascii_of_string c in
  (exists x y, w = x ++ slash :: y /\ kebab x /\ kebab y) \/
  (exists x y z, w = x ++ slash :: y ++ slash :: z /\ kebab x /\ kebab y /\ kebab z).
Proof. unfold Valid. rewrite re_match_lang. apply codePattern_lang. Qed.
