(* ===== verification/Errors.v ===== *)
(** Go errors as values: trees built by [fmt.Errorf] and [errors.Join], their
    traversals [errors.Is] and [errors.As], the sentinels of
    [src/libs/backend/go/ports], the classified [Failure] of
    [application/failure.go] and the dispositions of
    [application/disposition.go]. *)

From S2P Require Import Prelude DomainKernel.

(** * Error trees *)

(** FND-07's categories, [Category] of [failure.go]. *)
Inductive Category :=
| Validation | DomainRejection | NotFound | Conflict | Forbidden | Unauthenticated
| TransientDependency | RateLimited | DeadlineExceeded | Cancelled | Unexpected.

#[global] Instance Category_eq_dec : EqDecision Category.
Proof. solve_decision. Defined.

(** An error value.  A sentinel is identified by the variable that declares it;
    message text matters to no decision, so a wrapper keeps only the constant
    part of its format.  [DriverError] is a foreign error seen through the
    interfaces the code asserts: [SQLState], [SafeToRetry] and [Timeout].  [Typed]
    is a value of an error type the code asks for by name, with the text and the
    numbers it holds. *)
Inductive error :=
| Sentinel (name : string)
| Opaque (note : string)
| Wrap (note : string) (cause : error)
| Join (note : string) (causes : list error)
| RejectionError (r : Rejection)
| UniqueViolation (table constraint : string) (rejection : option Rejection)
| CrossTenantAccess (object context_tenant data_tenant : string)
| NewFailure (category : Category) (retryable : bool) (cause : option error)
| DriverError (sql_state : option string) (safe_to_retry timeout : option bool)
    (cause : option error)
| Typed (type text : string) (numbers : list Z) (cause : option error).

(** [errors.As]: the first node, depth first, a projection recognises. *)
Section ErrorsAs.
Context {A : Type} (f : error -> option A).

Fixpoint errors_as (e : error) : option A :=
  match f e with
  | Some a => Some a
  | None =>
      match e with
      | Wrap _ c => errors_as c
      | Join _ cs =>
          (fix go (l : list error) : option A :=
             match l with
             | [] => None
             | c :: l' => match errors_as c with Some a => Some a | None => go l' end
             end) cs
      | NewFailure _ _ (Some c) | DriverError _ _ _ (Some c) | Typed _ _ _ (Some c) => errors_as c
      | _ => None
      end
  end.

Lemma errors_as_wrap note c : f (Wrap note c) = None -> errors_as (Wrap note c) = errors_as c.
Proof. intros H. cbn. by rewrite H. Qed.
End ErrorsAs.

(** ** Sentinels *)
Definition ErrNotFound : error := Sentinel "ports.ErrNotFound".
Definition ErrVersionConflict : error := Sentinel "ports.ErrVersionConflict".
Definition ErrAlreadyExists : error := Sentinel "ports.ErrAlreadyExists".
Definition ErrUniqueViolation : error := Sentinel "ports.ErrUniqueViolation".
Definition ErrIdempotencyMismatch : error := Sentinel "ports.ErrIdempotencyMismatch".
Definition ErrIdempotencyInFlight : error := Sentinel "ports.ErrIdempotencyInFlight".
Definition ErrIdempotencyKeyAbsent : error := Sentinel "ports.ErrIdempotencyKeyAbsent".
Definition ErrIdempotencyKeyInvalid : error := Sentinel "ports.ErrIdempotencyKeyInvalid".
Definition ErrPlatformReachUndeclared : error := Sentinel "ports.ErrPlatformReachUndeclared".
Definition ErrPlatformLimitInvalid : error := Sentinel "ports.ErrPlatformLimitInvalid".
Definition ErrAuditUnavailable : error := Sentinel "ports.ErrAuditUnavailable".
Definition ErrProjectionDenied : error := Sentinel "ports.ErrProjectionDenied".
Definition ErrProjectionDestinationAbsent : error :=
  Sentinel "ports.ErrProjectionDestinationAbsent".
Definition ErrInvalidAttempt : error := Sentinel "ports.ErrInvalidAttempt".
Definition ErrAttemptUnknown : error := Sentinel "ports.ErrAttemptUnknown".
Definition ErrAttemptInFlight : error := Sentinel "ports.ErrAttemptInFlight".
Definition ErrRegisterTimeout : error := Sentinel "ports.ErrRegisterTimeout".
Definition ErrPendingNotCompleted : error := Sentinel "ports.ErrPendingNotCompleted".
Definition ErrContextFieldMissing : error := Sentinel "ports.ErrContextFieldMissing".
Definition ErrContextValueEmpty : error := Sentinel "ports.ErrContextValueEmpty".
Definition ErrContextPermissionsMismatch : error :=
  Sentinel "ports.ErrContextPermissionsMismatch".
Definition ErrContextAbsent : error := Sentinel "ports.ErrContextAbsent".
Definition ErrDenied : error := Sentinel "ports.ErrDenied".
(** The standard library's [context.Canceled] and [context.DeadlineExceeded]. *)
Definition ContextCanceled : error := Sentinel "context.Canceled".
Definition ContextDeadlineExceeded : error := Sentinel "context.DeadlineExceeded".

(** [errors.Is]: the typed errors of the ports match through their [Unwrap]. *)
Definition same_error (target e : error) : option unit :=
  match target, e with
  | Sentinel t, Sentinel n => if String.eqb t n then Some () else None
  | Sentinel t, UniqueViolation _ _ _ =>
      if String.eqb t "ports.ErrUniqueViolation" then Some () else None
  | Sentinel t, CrossTenantAccess _ _ _ =>
      if String.eqb t "ports.ErrNotFound" then Some () else None
  | _, _ => None
  end.
Definition errors_is (e target : error) : bool :=
  bool_decide (is_Some (errors_as (same_error target) e)).

Lemma errors_is_wrap note e target : errors_is (Wrap note e) target = errors_is e target.
Proof. unfold errors_is. by rewrite errors_as_wrap by (by destruct target). Qed.

(** * Classification *)

(** [errors.AsType[*Failure]]. *)
Definition as_failure : error -> option (Category * bool) :=
  errors_as (fun e => match e with NewFailure c r _ => Some (c, r) | _ => None end).
(** [errors.AsType[ports.UniqueViolation]]. *)
Definition as_violation : error -> option (option Rejection) :=
  errors_as (fun e => match e with UniqueViolation _ _ r => Some r | _ => None end).

(** [errors.As] of a [ports.CrossTenantAccess]. *)
Definition as_cross_tenant : error -> option error :=
  errors_as (fun e => match e with CrossTenantAccess _ _ _ => Some e | _ => None end).

(** [context.DeadlineExceeded] also satisfies the timeout interface. *)
Definition as_sql_state : error -> option string :=
  errors_as (fun e => match e with DriverError s _ _ _ => s | _ => None end).
Definition as_safe_to_retry : error -> option bool :=
  errors_as (fun e => match e with DriverError _ b _ _ => b | _ => None end).
Definition as_timeout : error -> option bool :=
  errors_as (fun e =>
    match e with
    | DriverError _ _ b _ => b
    | Sentinel n => if String.eqb n "context.DeadlineExceeded" then Some true else None
    | _ => None
    end).

Definition category_string (c : Category) : string :=
  match c with
  | Validation => "Validation"
  | DomainRejection => "DomainRejection"
  | NotFound => "NotFound"
  | Conflict => "Conflict"
  | Forbidden => "Forbidden"
  | Unauthenticated => "Unauthenticated"
  | TransientDependency => "TransientDependency"
  | RateLimited => "RateLimited"
  | DeadlineExceeded => "DeadlineExceeded"
  | Cancelled => "Cancelled"
  | Unexpected => "Unexpected"
  end.

Definition CategoryOf (err : error) : string :=
  if errors_is err ErrPlatformReachUndeclared || errors_is err ErrProjectionDenied
  then category_string Forbidden
  else match as_failure err with
  | Some (category, _) => category_string category
  | None =>
      if errors_is err ErrIdempotencyKeyAbsent || errors_is err ErrIdempotencyKeyInvalid
         || errors_is err ErrIdempotencyMismatch
      then category_string Validation
      else if errors_is err ErrIdempotencyInFlight || errors_is err ErrAlreadyExists
         || errors_is err ErrVersionConflict || errors_is err ErrUniqueViolation
      then category_string Conflict
      else if errors_is err ErrNotFound then category_string NotFound
      else if errors_is err ErrPlatformLimitInvalid
         || errors_is err ErrProjectionDestinationAbsent
      then category_string Validation
      else if errors_is err ErrAuditUnavailable then category_string TransientDependency
      else ""
  end.

(** The seven consumption outcomes of FND-04, and the invalid zero value. *)
Inductive Disposition :=
| DispositionNone | R1D1 | R1D2 | R1D3 | R1D4 | R2 | R3 | R4.

#[global] Instance Disposition_eq_dec : EqDecision Disposition.
Proof. solve_decision. Defined.

Definition transientDatabase (err : error) : bool :=
  match as_sql_state err with
  | None => false
  | Some state =>
      String.prefix "08" state
      || String.eqb state "40001" || String.eqb state "40P01" || String.eqb state "57P01"
  end.

Definition transientTransport (err : error) : bool :=
  match as_safe_to_retry err with
  | Some true => true
  | _ => match as_timeout err with Some b => b | None => false end
  end.

Definition Classify (err : error) : Disposition :=
  match as_failure err with
  | Some (_, retryable) => if retryable then R1D3 else R1D4
  | None =>
      if errors_is err ErrRegisterTimeout then R1D3
      else if errors_is err ContextDeadlineExceeded || transientDatabase err
              || transientTransport err then R1D3
      else if errors_is err ContextCanceled then R1D4
      else R1D4
  end.

(** [DeclaredRejection] of [application/decide.go]. *)
Definition DeclaredRejection (err : error) : option Rejection :=
  match as_violation err with
  | Some (Some rejection) => Some rejection
  | _ => None
  end.

(** A failure is technical: it resolves to a retry or to containment. *)
Lemma Classify_two e : Classify e = R1D3 \/ Classify e = R1D4.
Proof.
  unfold Classify. repeat case_match; auto.
Qed.

Lemma Classify_wrap note e : Classify (Wrap note e) = Classify e.
Proof.
  unfold Classify, as_failure, transientDatabase, transientTransport, as_sql_state,
    as_safe_to_retry, as_timeout.
  by rewrite !errors_as_wrap, !errors_is_wrap.
Qed.
