(* ===== verification/Channel.v ===== *)
(** The channel catalogue ([transport/channel]): the entry of a channel and its
    validation, the redelivery windows of the three transports, the names of
    Kafka addresses, and the catalogue that resolves a destination; with it the
    attempt count carried beside a message ([transport/attempt]). *)

From S2P Require Import Prelude GoTime GoStrings Regex DomainKernel Errors.

(** * Errors *)
Definition ErrMissingItem : error := Sentinel "channel.ErrMissingItem".
Definition ErrUnknownTransport : error := Sentinel "channel.ErrUnknownTransport".
Definition ErrInvalidOrdering : error := Sentinel "channel.ErrInvalidOrdering".
Definition ErrOrderedChannelWithSeparateRetry : error :=
  Sentinel "channel.ErrOrderedChannelWithSeparateRetry".
Definition ErrUnitTransportMismatch : error := Sentinel "channel.ErrUnitTransportMismatch".
Definition ErrWindowTransportMismatch : error := Sentinel "channel.ErrWindowTransportMismatch".
Definition ErrUnknownChannel : error := Sentinel "channel.ErrUnknownChannel".
Definition ErrDuplicateChannel : error := Sentinel "channel.ErrDuplicateChannel".
Definition ErrRepeatedChannel : error := Sentinel "channel.ErrRepeatedChannel".
Definition ErrEmptyCatalog : error := Sentinel "channel.ErrEmptyCatalog".
Definition ErrInvalidWindow : error := Sentinel "channel.ErrInvalidWindow".
Definition ErrInvalidAddress : error := Sentinel "channel.ErrInvalidAddress".
Definition ErrEnvironmentInAddress : error := Sentinel "channel.ErrEnvironmentInAddress".
Definition ErrAddressCollision : error := Sentinel "channel.ErrAddressCollision".

(** * Names ([naming.go]) *)
Definition MaxAddressLength : Z := 249.
Definition address_char : ascii -> bool :=
  either lower (either digit (either (is_char ".") (either (is_char "_") (is_char "-")))).
Definition addressAlphabet : re := RPlus (RChar address_char).
Definition environmentSegments : list string := ["prod"; "staging"; "hml"]%string.
Definition collisionKey (address : string) : string := replace_char "_" "." address.

Definition ValidateAddress (address environmentPrefix : string) : result error unit :=
  if String.eqb address "" then Err (Wrap "empty" ErrInvalidAddress)
  else if MaxAddressLength <? Z.of_nat (String.length address)
  then Err (Wrap "too long" ErrInvalidAddress)
  else if negb (re_match addressAlphabet address) then Err (Wrap "alphabet" ErrInvalidAddress)
  else if negb (String.eqb environmentPrefix "") then
    if negb (re_match addressAlphabet environmentPrefix) then Err (Wrap "prefix" ErrInvalidAddress)
    else if negb (String.prefix (environmentPrefix ++ ".") address)
    then Err (Wrap "declared prefix" ErrEnvironmentInAddress)
    else Ok ()
  else if existsb (fun segment => bool_decide (segment ∈ environmentSegments)) (split_on "." address)
  then Err (Wrap "segment" ErrEnvironmentInAddress)
  else Ok ().

(** * Vocabulary ([channel.go]): each is a string type *)
Definition Transport := string.
Definition Kafka : Transport := "kafka".
Definition SQS : Transport := "sqs".
Definition SNSSQS : Transport := "sns-sqs".
Definition Unit_ := string.
Definition Partition : Unit_ := "partition".
Definition Group : Unit_ := "group".
Definition None_ : Unit_ := "none".
Definition Strategy := string.
Definition InlineWithLimit : Strategy := "inline-with-limit".
Definition SeparateChannel : Strategy := "separate-channel".

(** * Redelivery windows ([window.go]) *)
Definition Hour : Z := 3600 * Second.
Definition MaxVisibility : Z := 12 * Hour.
Definition FormulaKafka : string :=
  "kafka: min(retentionByTime, retentionBySize as time) under cleanupPolicy, remoteStorage and initialOffset".
(** The text of the source has a multiplication sign, U+00D7. *)
Definition FormulaSQS : string :=
  ("sqs: min(maxReceiveCount " ++ string_of [195; 151] ++ " min(visibilityBase, 12h), retention)").
Definition FormulaSNSSQS : string := "sns-sqs: subscriptionDeliveryWindow + sqs.upperBound".

Definition requiredParams (formula : string) : option (list string) :=
  if String.eqb formula FormulaKafka
  then Some ["retentionByTime"; "retentionBySize"; "cleanupPolicy"; "remoteStorage"; "initialOffset"]%string
  else if String.eqb formula FormulaSQS
  then Some ["maxReceiveCount"; "visibilityBase"; "retention"]%string
  else if String.eqb formula FormulaSNSSQS
  then Some ["subscriptionDeliveryWindow"; "sqs.upperBound"]%string
  else None.
Definition formulaTransport (formula : string) : Transport :=
  if String.eqb formula FormulaKafka then Kafka
  else if String.eqb formula FormulaSQS then SQS
  else if String.eqb formula FormulaSNSSQS then SNSSQS
  else "".

Record RedeliveryWindow := mkRedeliveryWindow {
  rw_Formula : string;
  rw_Params : gmap string string;
  rw_UpperBound : Z
}.
Definition param (params : gmap string string) (name : string) : string :=
  default "" (params !! name).

Definition RedeliveryWindow_IsZero (w : RedeliveryWindow) : bool :=
  String.eqb (rw_Formula w) "" && bool_decide (rw_Params w = ∅) && (rw_UpperBound w =? 0).
Definition RedeliveryWindow_Transport (w : RedeliveryWindow) : Transport :=
  formulaTransport (rw_Formula w).
Definition RedeliveryWindow_Validate (w : RedeliveryWindow) : result error unit :=
  match requiredParams (rw_Formula w) with
  | None => Err (Wrap "formula is unknown" ErrInvalidWindow)
  | Some required =>
      if existsb (fun name => blank (param (rw_Params w) name)) required
      then Err (Wrap "parameter absent" ErrInvalidWindow)
      else if rw_UpperBound w <=? 0 then Err (Wrap "upper bound" ErrInvalidWindow)
      else Ok ()
  end.

Record KafkaRetention := mkKafkaRetention {
  kr_RetentionByTime : Z;
  kr_RetentionBySize : Z;
  kr_SizeHorizon : Z;
  kr_CleanupPolicy : string;
  kr_RemoteStorage : bool;
  kr_InitialOffset : string
}.
(** A parameter written under a condition. *)
Definition set_param (b : bool) (name value : string) (params : gmap string string)
    : gmap string string := if b then <[name := value]> params else params.

Definition KafkaWindow (r : KafkaRetention) : RedeliveryWindow :=
  let params : gmap string string :=
    <["cleanupPolicy"%string := kr_CleanupPolicy r]>
    (<["remoteStorage"%string := FormatBool (kr_RemoteStorage r)]>
    (<["initialOffset"%string := kr_InitialOffset r]> ∅)) in
  let params := set_param (0 <? kr_RetentionByTime r) "retentionByTime"
                  (Duration_String (kr_RetentionByTime r)) params in
  let params := set_param (negb (kr_RetentionBySize r =? 0)) "retentionBySize"
                  (Itoa (kr_RetentionBySize r) ++ " bytes") params in
  if contains "delete" (kr_CleanupPolicy r) then
    let bounded := (0 <? kr_SizeHorizon r) && (kr_SizeHorizon r <? kr_RetentionByTime r) in
    mkRedeliveryWindow FormulaKafka
      (set_param bounded "sizeHorizon" (Duration_String (kr_SizeHorizon r)) params)
      (if bounded then kr_SizeHorizon r else kr_RetentionByTime r)
  else mkRedeliveryWindow FormulaKafka params 0.

Definition SQSWindow (maxReceiveCount visibilityBase retention : Z) : RedeliveryWindow :=
  let params := set_param (0 <? maxReceiveCount) "maxReceiveCount" (Itoa maxReceiveCount) ∅ in
  let params := set_param (0 <? visibilityBase) "visibilityBase" (Duration_String visibilityBase) params in
  let params := set_param (0 <? retention) "retention" (Duration_String retention) params in
  let perAttempt := Z.min visibilityBase MaxVisibility in
  let bound := Z.min (maxReceiveCount *! perAttempt) retention in
  mkRedeliveryWindow FormulaSQS params
    (if (maxReceiveCount <=? 0) || (visibilityBase <=? 0) || (retention <=? 0) then 0 else bound).

Definition prefix_params (prefix : string) (params : gmap string string) : gmap string string :=
  kmap (String.append prefix) params.

Definition SNSSQSWindow (subscriptionDeliveryWindow : Z) (sqs : RedeliveryWindow) : RedeliveryWindow :=
  let params := set_param (0 <? subscriptionDeliveryWindow) "subscriptionDeliveryWindow"
                  (Duration_String subscriptionDeliveryWindow) ∅ in
  let params := prefix_params "sqs." (rw_Params sqs) ∪ params in
  if String.eqb (rw_Formula sqs) FormulaSQS && is_Ok (RedeliveryWindow_Validate sqs)
     && (0 <? subscriptionDeliveryWindow)
  then mkRedeliveryWindow FormulaSNSSQS
         (<["sqs.upperBound"%string := Duration_String (rw_UpperBound sqs)]> params)
         (subscriptionDeliveryWindow +! rw_UpperBound sqs)
  else mkRedeliveryWindow FormulaSNSSQS params 0.

(** * Channels ([channel.go]) *)
Record Ordering := mkOrdering { or_Key : string; or_Unit : Unit_ }.
Definition Ordering_Validate (o : Ordering) : result error unit :=
  if String.eqb (or_Unit o) None_ then
    if negb (String.eqb (or_Key o) "") then Err (Wrap "unit none with key" ErrInvalidOrdering) else Ok ()
  else if String.eqb (or_Unit o) Partition || String.eqb (or_Unit o) Group then
    if String.eqb (or_Key o) "" then Err (Wrap "unit without a key" ErrInvalidOrdering) else Ok ()
  else Err (Wrap "unit is unknown" ErrInvalidOrdering).
Definition Ordering_Ordered (o : Ordering) : bool := negb (String.eqb (or_Unit o) None_).

Record Retry := mkRetry { rt_Strategy : Strategy; rt_MaxAttempts : Z }.
Definition Retry_Validate (r : Retry) : result error unit :=
  if negb (String.eqb (rt_Strategy r) InlineWithLimit || String.eqb (rt_Strategy r) SeparateChannel)
  then Err (Wrap "retry strategy is unknown" ErrMissingItem)
  else if rt_MaxAttempts r <=? 0 then Err (Wrap "retry.maxAttempts" ErrMissingItem)
  else Ok ().

Record Event := mkEvent { ev_Type : string; ev_ContractRef : string }.
Record Channel := mkChannel {
  ch_Name : string; ch_Transport : Transport; ch_Address : string; ch_Events : list Event;
  ch_ContractMajor : Z; ch_Ordering : Ordering; ch_Redelivery : RedeliveryWindow;
  ch_Containment : string; ch_Retry : Retry; ch_Group : string; ch_Partitions : Z;
  ch_Partitioner : string; ch_KeyEncoding : string; ch_EnvironmentPrefix : string
}.

(** The events in order, [earlier] being those already passed. *)
Fixpoint validate_events (earlier events : list Event) : result error unit :=
  match events with
  | [] => Ok ()
  | event :: events' =>
      if String.eqb (ev_Type event) "" then Err (Wrap "events.type" ErrMissingItem)
      else if String.eqb (ev_ContractRef event) "" then Err (Wrap "events.contractRef" ErrMissingItem)
      else if existsb (fun e => String.eqb (ev_Type e) (ev_Type event)) earlier
      then Err (Wrap "events.type repeated" ErrMissingItem)
      else validate_events (earlier ++ [event]) events'
  end.
Definition Channel_validateEvents (c : Channel) : result error unit :=
  if len (ch_Events c) =? 0 then Err (Wrap "events" ErrMissingItem)
  else validate_events [] (ch_Events c).

Definition Channel_validateTransport (c : Channel) : result error unit :=
  if String.eqb (ch_Transport c) Kafka then
    if String.eqb (or_Unit (ch_Ordering c)) Group
    then Err (Wrap "kafka orders by partition" ErrUnitTransportMismatch)
    else
      match ValidateAddress (ch_Address c) (ch_EnvironmentPrefix c) with
      | Err e => Err (Wrap "channel" e)
      | Panic p => Panic p
      | Ok _ =>
          if String.eqb (ch_Group c) "" then Err (Wrap "group" ErrMissingItem)
          else if ch_Partitions c <=? 0 then Err (Wrap "partitions" ErrMissingItem)
          else if String.eqb (ch_Partitioner c) "" then Err (Wrap "partitioner" ErrMissingItem)
          else if String.eqb (ch_KeyEncoding c) "" then Err (Wrap "keyEncoding" ErrMissingItem)
          else Ok ()
      end
  else if String.eqb (ch_Transport c) SQS || String.eqb (ch_Transport c) SNSSQS then
    if String.eqb (or_Unit (ch_Ordering c)) Partition
    then Err (Wrap "sqs orders by message group" ErrUnitTransportMismatch) else Ok ()
  else Ok ().

(** [fmt.Errorf] around the error of a part. *)
Definition under_name (r : result error unit) : result error unit :=
  match r with Err e => Err (Wrap "channel" e) | r => r end.

Definition Channel_Validate (c : Channel) : result error unit :=
  if String.eqb (ch_Name c) "" then Err (Wrap "name" ErrMissingItem)
  else if String.eqb (ch_Address c) "" then Err (Wrap "address" ErrMissingItem)
  else if ch_ContractMajor c <=? 0 then Err (Wrap "contractMajor" ErrMissingItem)
  else if String.eqb (ch_Containment c) "" then Err (Wrap "containment" ErrMissingItem)
  else
    _ ← Channel_validateEvents c;
    _ ← (if String.eqb (ch_Transport c) Kafka || String.eqb (ch_Transport c) SQS
            || String.eqb (ch_Transport c) SNSSQS then Ok ()
         else if String.eqb (ch_Transport c) "" then Err (Wrap "transport" ErrMissingItem)
         else Err (Wrap "channel" ErrUnknownTransport));
    _ ← under_name (Ordering_Validate (ch_Ordering c));
    _ ← under_name (Retry_Validate (ch_Retry c));
    if Ordering_Ordered (ch_Ordering c) && String.eqb (rt_Strategy (ch_Retry c)) SeparateChannel
    then Err (Wrap "channel" ErrOrderedChannelWithSeparateRetry)
    else if RedeliveryWindow_IsZero (ch_Redelivery c) then Err (Wrap "redelivery" ErrMissingItem)
    else
      _ ← under_name (RedeliveryWindow_Validate (ch_Redelivery c));
      if negb (String.eqb (RedeliveryWindow_Transport (ch_Redelivery c)) (ch_Transport c))
      then Err (Wrap "window" ErrWindowTransportMismatch)
      else Channel_validateTransport c.

(** * Catalogue *)
Definition Catalog := gmap string Channel.

(** The loop over the map; [entries] is the map in the order of this run, [seen]
    the addresses met, by collision key. *)
Fixpoint catalog_loop (seen : gmap string string) (entries : list (string * Channel))
    : result error unit :=
  match entries with
  | [] => Ok ()
  | (key, ch) :: entries' =>
      if negb (String.eqb key (ch_Name ch)) then Err (Wrap "key" ErrDuplicateChannel)
      else
        _ ← Channel_Validate ch;
        if negb (String.eqb (ch_Transport ch) Kafka) then catalog_loop seen entries'
        else
          let collision := collisionKey (ch_Address ch) in
          match seen !! collision with
          | Some _ => Err (Wrap "addresses" ErrAddressCollision)
          | None => catalog_loop (<[collision := ch_Address ch]> seen) entries'
          end
  end.
(** Go ranges over a map in an order of its own: [order] is that order. *)
Definition Catalog_Validate (order : Catalog -> list (string * Channel)) (c : Catalog)
    : result error unit := catalog_loop ∅ (order c).

Fixpoint new_catalog_loop (channels : list Channel) (catalog : Catalog) : result error Catalog :=
  match channels with
  | [] => Ok catalog
  | ch :: channels' =>
      match catalog !! ch_Name ch with
      | Some _ => Err (Wrap "name" ErrRepeatedChannel)
      | None => new_catalog_loop channels' (<[ch_Name ch := ch]> catalog)
      end
  end.
Definition NewCatalog (order : Catalog -> list (string * Channel)) (channels : list Channel)
    : result error Catalog :=
  if len channels =? 0 then Err ErrEmptyCatalog
  else
    catalog ← new_catalog_loop channels ∅;
    _ ← Catalog_Validate order catalog;
    Ok catalog.

Definition emptyChannel : Channel :=
  mkChannel "" "" "" [] 0 (mkOrdering "" "") (mkRedeliveryWindow "" ∅ 0) "" (mkRetry "" 0) "" 0 "" "" "".
Definition Catalog_AddressOf (c : Catalog) (destination : string) : string :=
  ch_Address (default emptyChannel (c !! destination)).
Definition Catalog_Resolve (c : Catalog) (destination : string) : result error Channel :=
  match c !! destination with
  | Some ch => Ok ch
  | None => Err (Wrap destination ErrUnknownChannel)
  end.

(** * Kafka channels of the workspace ([kafka_channel.go]) *)
Definition InlineAttempts : Z := 2.
Definition RetentionByTime : Z := 7 * 24 * Hour.
Definition NewKafka (name address dlq group : string) (events : list Event) : Channel :=
  mkChannel name Kafka address events 1 (mkOrdering "partitionkey" Partition)
    (KafkaWindow (mkKafkaRetention RetentionByTime (-1) 0 "delete" false "earliest"))
    dlq (mkRetry InlineWithLimit InlineAttempts) group 1 "default" "utf-8" "".
Definition WireTypes (ch : Channel) : list string :=
  map (fun event => (ev_Type event ++ ".v" ++ Itoa (ch_ContractMajor ch))%string) (ch_Events ch).

(** * The attempt beside the message ([transport/attempt/attempt.go]) *)
Definition Header : string := "dmpf-attempt".
Definition ErrInvalidAttemptHeader : error := Sentinel "attempt.ErrInvalidAttempt".
Definition Encode (n : Z) : string := Itoa n.
Definition Decode (value : string) : result error Z :=
  match Atoi value with
  | None => Err (Wrap "attempt" ErrInvalidAttemptHeader)
  | Some n => if n <=? 0 then Err (Wrap "attempt" ErrInvalidAttemptHeader) else Ok n
  end.
