(* ===== verification/Admission.v ===== *)
(** Admission ([transport/admission]): a token bucket and a concurrency ceiling
    per route and tenant, under a bound on the number of buckets, decided under
    one lock; and what every sequence of admissions and releases keeps. *)

From S2P Require Import Prelude GoTime DomainKernel Errors.

(** * Declarations ([admission.go]) *)
Inductive Reason := Admitted_ | RateLimited_ | Saturated | UndeclaredRoute.

Definition ErrInvalidLimit : error := Sentinel "admission.ErrInvalidLimit".
Definition ErrNoRoutes : error := Sentinel "admission.ErrNoRoutes".
Definition ErrNoClock : error := Sentinel "admission.ErrNoClock".
Definition ErrNoKeyCeiling : error := Sentinel "admission.ErrNoKeyCeiling".
Definition DefaultMaxKeys : Z := 64.

Record Limit := mkLimit { lm_PerSecond : float64; lm_Burst : Z; lm_Concurrency : Z }.
Definition Limit_Validate (l : Limit) : result error unit :=
  if float_leb (lm_PerSecond l) (float_of_Z 0) || (lm_Burst l <=? 0) || (lm_Concurrency l <=? 0)
  then Err (Wrap "limit" ErrInvalidLimit) else Ok ().

(** The tenants of [Config] only label metrics; the clock is shown by its readings. *)
Record Config := mkConfig {
  cfg_Limits : gmap string Limit;
  cfg_MaxKeys : Z;
  cfg_HasClock : bool
}.
(** [order] is the order Go ranges over the limits. *)
Definition Config_Validate (order : gmap string Limit -> list (string * Limit)) (c : Config)
    : result error unit :=
  if len (order (cfg_Limits c)) =? 0 then Err ErrNoRoutes
  else if negb (cfg_HasClock c) then Err ErrNoClock
  else if cfg_MaxKeys c <=? 0 then Err ErrNoKeyCeiling
  else
    match List.find (fun entry => negb (is_Ok (Limit_Validate entry.2))) (order (cfg_Limits c)) with
    | Some (route, _) => Err (Wrap route ErrInvalidLimit)
    | None => Ok ()
    end.

(** * The controller: buckets behind pointers, an index, and a list by recency *)
Definition loc := nat.
Definition key : Type := string * string.                     (* route, tenant *)
Record bucket := mkBucket {
  b_key : key; b_tokens : float64; b_refilled : Z; b_inflight : Z
}.
(** A release is the closure of one admission: its bucket, and whether its
    [sync.Once] has run. *)
Record Controller := mkController {
  c_heap : gmap loc bucket;
  c_next : loc;
  c_buckets : gmap key loc;
  c_lru : list loc;                                            (* front to back *)
  c_grants : list (loc * bool)
}.
Definition New : Controller := mkController ∅ 0%nat ∅ [] [].

Definition Keys (c : Controller) : Z := len (c_lru c).

(** [lru.MoveToFront]. *)
Definition move_to_front (l : loc) (lru : list loc) : list loc :=
  l :: filter (fun x => x <> l) lru.

(** [evictIdle]: the least recently used bucket with nothing in flight. *)
Definition idle (heap : gmap loc bucket) (l : loc) : bool :=
  match heap !! l with Some b => b_inflight b =? 0 | None => false end.
Definition evictIdle (c : Controller) : option Controller :=
  match List.find (idle (c_heap c)) (reverse (c_lru c)) with
  | None => None
  | Some l =>
      match c_heap c !! l with
      | Some b =>
          Some (mkController (c_heap c) (c_next c) (delete (b_key b) (c_buckets c))
                  (filter (fun x => x <> l) (c_lru c)) (c_grants c))
      | None => None
      end
  end.

(** [lookup]: the bucket of the key, created under the ceiling. *)
Definition create (k : key) (limit : Limit) (now : Z) (c : Controller) : loc * Controller :=
  let l := c_next c in
  (l, mkController (<[l := mkBucket k (float_of_Z (lm_Burst limit)) now 0]> (c_heap c)) (S l)
        (<[k := l]> (c_buckets c)) (l :: c_lru c) (c_grants c)).
Definition lookup_bucket (cfg : Config) (k : key) (limit : Limit) (now : Z) (c : Controller)
    : option loc * Controller :=
  match c_buckets c !! k with
  | Some l =>
      (Some l, mkController (c_heap c) (c_next c) (c_buckets c) (move_to_front l (c_lru c)) (c_grants c))
  | None =>
      if cfg_MaxKeys cfg <=? len (c_lru c) then
        match evictIdle c with
        | None => (None, c)
        | Some c' => let '(l, c'') := create k limit now c' in (Some l, c'')
        end
      else let '(l, c') := create k limit now c in (Some l, c')
  end.

Definition set_bucket (l : loc) (b : bucket) (c : Controller) : Controller :=
  mkController (<[l := b]> (c_heap c)) (c_next c) (c_buckets c) (c_lru c) (c_grants c).

(** Tokens up to [now], up to the burst. *)
Definition refill (limit : Limit) (now : Z) (b : bucket) : bucket :=
  let elapsed := time_sub now (b_refilled b) in
  if 0 <? elapsed then
    mkBucket (b_key b)
      (float_min (float_of_Z (lm_Burst limit))
         (float_add (b_tokens b) (float_mul (duration_seconds elapsed) (lm_PerSecond limit))))
      now (b_inflight b)
  else b.

(** [Admit]: the grant's position in [c_grants] stands for the release it returns;
    a refusal returns none, its release doing nothing. *)
Definition Admit (cfg : Config) (route tenant : string) (now : Z) (c : Controller)
    : option nat * Reason * Controller :=
  match cfg_Limits cfg !! route with
  | None => (None, UndeclaredRoute, c)
  | Some limit =>
      match lookup_bucket cfg (route, tenant) limit now c with
      | (None, c) => (None, Saturated, c)
      | (Some l, c) =>
          match c_heap c !! l with
          | None => (None, Saturated, c)       (* the index points at live buckets *)
          | Some b =>
              if lm_Concurrency limit <=? b_inflight b then (None, Saturated, c)
              else
                let b := refill limit now b in
                if float_ltb (b_tokens b) (float_of_Z 1)
                then (None, RateLimited_, set_bucket l b c)
                else
                  let b := mkBucket (b_key b) (float_sub (b_tokens b) (float_of_Z 1)) (b_refilled b)
                             (b_inflight b + 1) in
                  let c := set_bucket l b c in
                  (Some (length (c_grants c)), Admitted_,
                   mkController (c_heap c) (c_next c) (c_buckets c) (c_lru c)
                     (c_grants c ++ [(l, false)]))
          end
      end
  end.

(** The release of grant [g]: once. *)
Definition Release (g : nat) (c : Controller) : Controller :=
  match c_grants c !! g with
  | Some (l, false) =>
      let grants := <[g := (l, true)]> (c_grants c) in
      match c_heap c !! l with
      | Some b =>
          mkController (<[l := mkBucket (b_key b) (b_tokens b) (b_refilled b) (b_inflight b - 1)]> (c_heap c))
            (c_next c) (c_buckets c) (c_lru c) grants
      | None => mkController (c_heap c) (c_next c) (c_buckets c) (c_lru c) grants
      end
  | _ => c
  end.

(** * What every sequence of calls keeps *)

(** The admissions of a bucket that were not released yet. *)
Definition open_on (l : loc) (grants : list (loc * bool)) : Z :=
  len (filter (fun g => g = (l, false)) grants).

Lemma open_on_app l g1 g2 : open_on l (g1 ++ g2) = open_on l g1 + open_on l g2.
Proof. unfold open_on. by rewrite filter_app, len_app. Qed.
Lemma open_on_one l l' b :
  open_on l [(l', b)] = if decide ((l', b) = (l, false)) then 1 else 0.
Proof. unfold open_on. rewrite filter_cons, filter_nil. by destruct (decide _). Qed.
Lemma open_on_nonneg l grants : 0 <= open_on l grants.
Proof. apply len_nonneg. Qed.
Lemma open_on_zero l grants : open_on l grants = 0 -> (l, false) ∉ grants.
Proof.
  unfold open_on. intros H Hin.
  assert ((l, false) ∈ filter (fun g => g = (l, false)) grants) as Hf by (by apply list_elem_of_filter).
  destruct (filter _ grants); [by apply not_elem_of_nil in Hf | unfold len in H; cbn in H; lia].
Qed.
Lemma open_on_none l grants : (l, false) ∉ grants -> open_on l grants = 0.
Proof.
  unfold open_on. induction grants as [| g grants IH]; [done |].
  intros [Hne Hn]%not_elem_of_cons. rewrite filter_cons, decide_False by congruence. by apply IH.
Qed.
Lemma open_on_release l l' grants g :
  grants !! g = Some (l, false) ->
  open_on l' (<[g := (l, true)]> grants) = open_on l' grants - if decide (l' = l) then 1 else 0.
Proof.
  intros Hg. rewrite <- (take_drop_middle _ _ _ Hg) at 2.
  assert (g < length grants)%nat as Hlt by (by eapply lookup_lt_Some).
  rewrite (insert_take_drop grants g) by done.
  change ((l, false) :: drop (S g) grants) with ([(l, false)] ++ drop (S g) grants).
  change ((l, true) :: drop (S g) grants) with ([(l, true)] ++ drop (S g) grants).
  rewrite !open_on_app, !open_on_one. rewrite decide_False by congruence.
  destruct (decide (l' = l)) as [-> |]; [rewrite decide_True by done | rewrite decide_False by congruence]; lia.
Qed.

Section Runs.
Context (cfg : Config) (Hmax : 0 < cfg_MaxKeys cfg).

Inductive step : Controller -> Controller -> Prop :=
| step_Admit route tenant now g r c c' :
    Admit cfg route tenant now c = (g, r, c') -> step c c'
| step_Release g c : step c (Release g c).

Record ok (c : Controller) : Prop := {
  ok_nodup : NoDup (c_lru c);
  ok_keys : Keys c <= cfg_MaxKeys cfg;
  ok_index : forall k l, c_buckets c !! k = Some l ->
    l ∈ c_lru c /\ exists b, c_heap c !! l = Some b /\ b_key b = k;
  ok_listed : forall l, l ∈ c_lru c -> exists b, c_heap c !! l = Some b /\ c_buckets c !! b_key b = Some l;
  ok_fresh : forall l : loc, (c_next c <= l)%nat -> c_heap c !! l = None /\ (l, false) ∉ c_grants c;
  ok_inflight : forall l b, c_heap c !! l = Some b -> b_inflight b = open_on l (c_grants c);
  ok_live : forall l, (l, false) ∈ c_grants c -> l ∈ c_lru c;
  ok_ceiling : forall l b limit, c_heap c !! l = Some b -> cfg_Limits cfg !! (b_key b).1 = Some limit ->
    0 < b_inflight b -> b_inflight b <= lm_Concurrency limit
}.

Lemma ok_New : ok New.
Proof.
  split; cbn; try done.
  - constructor.
  - change (Keys New) with 0. lia.
  - intros l H. by apply not_elem_of_nil in H.
  - intros l _. split; [done | apply not_elem_of_nil].
  - intros l H. by apply not_elem_of_nil in H.
Qed.

Lemma filter_ne_length (l : loc) lru :
  NoDup lru -> l ∈ lru -> S (length (filter (fun x => x <> l) lru)) = length lru.
Proof.
  induction 1 as [| x lru Hx _ IH]; intros Hl; [by apply not_elem_of_nil in Hl |].
  rewrite filter_cons. apply elem_of_cons in Hl as [-> | Hl].
  - rewrite decide_False by (intros Hn; by apply Hn). cbn. f_equal.
    clear IH. induction lru as [| y lru IH]; [done |].
    apply not_elem_of_cons in Hx as [Hxy Hx]. rewrite filter_cons, decide_True by done. cbn. by rewrite IH.
  - rewrite decide_True by (intros ->; done). cbn. by rewrite IH.
Qed.

Lemma move_ok l c :
  ok c -> l ∈ c_lru c ->
  ok (mkController (c_heap c) (c_next c) (c_buckets c) (move_to_front l (c_lru c)) (c_grants c)).
Proof.
  intros [Hn Hk Hi Hl Hf Hin Hv Hc] Hm.
  assert (forall x, x ∈ move_to_front l (c_lru c) <-> x ∈ c_lru c) as Hmem.
  { intros x. unfold move_to_front. rewrite elem_of_cons, list_elem_of_filter.
    destruct (decide (x = l)) as [-> |]; naive_solver. }
  split; cbn; try done.
  - unfold move_to_front. constructor; [| by apply NoDup_filter].
    rewrite list_elem_of_filter. by intros [? _].
  - unfold Keys, len in *. cbn. rewrite (filter_ne_length l (c_lru c) Hn Hm). done.
  - intros k l' Hk'. destruct (Hi k l' Hk') as [? ?]. by rewrite Hmem.
  - intros l' Hl'%Hmem. by apply Hl.
  - intros l' Hl'. by apply Hmem, Hv.
Qed.

Lemma evict_ok c c' :
  ok c -> evictIdle c = Some c' -> ok c' /\ Keys c' + 1 = Keys c /\
  c_grants c' = c_grants c /\ forall k l, c_buckets c' !! k = Some l -> c_buckets c !! k = Some l.
Proof.
  intros [Hn Hk Hi Hl Hf Hin Hv Hc]. unfold evictIdle.
  destruct (List.find _ _) as [l |] eqn:Hfind; [| done].
  apply find_some in Hfind as [Hl'%list_elem_of_In Hidle]. rewrite elem_of_reverse in Hl'.
  destruct (Hl l Hl') as (b & Hb & Hkey). rewrite Hb. intros [= <-].
  unfold idle in Hidle. rewrite Hb in Hidle. apply Z.eqb_eq in Hidle.
  rewrite (Hin l b Hb) in Hidle. apply open_on_zero in Hidle.
  assert (Keys (mkController (c_heap c) (c_next c) (delete (b_key b) (c_buckets c))
    (filter (fun x => x <> l) (c_lru c)) (c_grants c)) + 1 = Keys c) as Hlen.
  { unfold Keys, len in *. cbn. pose proof (filter_ne_length l (c_lru c) Hn Hl'). lia. }
  split; [| split; [done |]; split; [done |]; cbn; intros k l2; rewrite lookup_delete_Some; naive_solver].
  split; cbn; try done.
  - by apply NoDup_filter.
  - unfold Keys in *. cbn in *. lia.
  - intros k l2 [Hne H2]%lookup_delete_Some. destruct (Hi k l2 H2) as [Hm (b2 & Hb2 & Hk2)].
    split; [| by exists b2]. apply list_elem_of_filter. split; [| done]. intros ->. congruence.
  - intros l2 [Hne Hm]%list_elem_of_filter. destruct (Hl l2 Hm) as (b2 & Hb2 & Hk2).
    exists b2. split; [done |]. rewrite lookup_delete_ne; [done |]. congruence.
  - intros l2 Hl2. apply list_elem_of_filter. split; [by intros -> | by apply Hv].
Qed.

Lemma create_ok k limit now c :
  ok c -> c_buckets c !! k = None -> Keys c < cfg_MaxKeys cfg ->
  ok (create k limit now c).2 /\ c_buckets (create k limit now c).2 !! k = Some (c_next c).
Proof.
  intros [Hn Hk Hi Hl Hf Hin Hv Hc] Hnone Hlt. split; [| cbn; by rewrite lookup_insert_eq].
  destruct (Hf (c_next c) ltac:(lia)) as [Hfresh Hnog].
  assert (c_next c ∉ c_lru c) as Hnew by (intros Hm; destruct (Hl _ Hm) as (b & Hb & _); congruence).
  split; cbn.
  - by constructor.
  - unfold Keys, len in *. cbn in *. lia.
  - intros k' l. rewrite lookup_insert_Some. intros [[<- <-] | [Hne Hk']].
    + split; [apply elem_of_cons; by left |]. eexists. by rewrite lookup_insert_eq.
    + destruct (Hi k' l Hk') as [Hm (b & Hb & Hbk)]. split; [apply elem_of_cons; by right |].
      exists b. rewrite lookup_insert_ne by congruence. done.
  - intros l [-> | Hm]%elem_of_cons.
    + eexists. rewrite lookup_insert_eq. split; [done |]. cbn. by rewrite lookup_insert_eq.
    + destruct (Hl l Hm) as (b & Hb & Hbk). exists b. rewrite lookup_insert_ne by congruence.
      split; [done |]. rewrite lookup_insert_ne; [done |]. congruence.
  - intros l Hle. rewrite lookup_insert_ne by lia. apply Hf. lia.
  - intros l b. rewrite lookup_insert_Some. intros [[<- <-] | [Hne Hb]]; [| by apply Hin].
    cbn. by rewrite open_on_none.
  - intros l Hg. apply elem_of_cons. right. by apply Hv.
  - intros l b limit'. rewrite lookup_insert_Some. intros [[<- <-] | [Hne Hb]]; [cbn; lia |].
    by apply (Hc l).
Qed.

(** A bucket takes another content, with the grants that account for it. *)
Lemma set_ok l b b' grants c :
  ok c -> c_heap c !! l = Some b -> b_key b' = b_key b ->
  b_inflight b' = open_on l grants ->
  (forall l', l' <> l -> open_on l' grants = open_on l' (c_grants c)) ->
  (forall l', (l', false) ∈ grants -> l' ∈ c_lru c) ->
  (forall limit, cfg_Limits cfg !! (b_key b).1 = Some limit -> 0 < b_inflight b' ->
     b_inflight b' <= lm_Concurrency limit) ->
  ok (mkController (<[l := b']> (c_heap c)) (c_next c) (c_buckets c) (c_lru c) grants).
Proof.
  intros [Hn Hk Hi Hl Hf Hin Hv Hc] Hb Hkey Hopen Hothers Hlive Hceil. split; cbn; try done.
  - intros k l' H. destruct (Hi k l' H) as [Hm (b2 & Hb2 & Hk2)]. split; [done |].
    destruct (decide (l' = l)) as [-> | Hne].
    + exists b'. rewrite lookup_insert_eq. split; [done |]. congruence.
    + exists b2. by rewrite lookup_insert_ne.
  - intros l' Hm. destruct (Hl l' Hm) as (b2 & Hb2 & Hk2).
    destruct (decide (l' = l)) as [-> | Hne].
    + exists b'. rewrite lookup_insert_eq. split; [done |]. congruence.
    + exists b2. by rewrite lookup_insert_ne.
  - intros l' Hle. destruct (Hf l' Hle) as [Hnone _].
    rewrite lookup_insert_ne by congruence. split; [done |].
    intros Hg%Hlive. destruct (Hl l' Hg) as (b2 & Hb2 & _). congruence.
  - intros l' b2. rewrite lookup_insert_Some. intros [[<- <-] | [Hne Hb2]]; [done |].
    rewrite Hothers by done. by apply Hin.
  - intros l' b2 limit. rewrite lookup_insert_Some. intros [[<- <-] | [Hne Hb2]]; [| by apply (Hc l')].
    rewrite Hkey. apply Hceil.
Qed.

Lemma lookup_ok k limit now c found c' :
  ok c -> lookup_bucket cfg k limit now c = (found, c') ->
  ok c' /\ forall l, found = Some l -> exists b, c_heap c' !! l = Some b /\ b_key b = k /\ l ∈ c_lru c'.
Proof.
  intros Hok. unfold lookup_bucket. destruct (c_buckets c !! k) as [l |] eqn:Hk.
  { intros [= <- <-]. destruct (ok_index c Hok k l Hk) as [Hm (b & Hb & Hbk)].
    split; [by apply move_ok |]. intros l' [= <-]. exists b. cbn. repeat split; [done.. |].
    apply elem_of_cons. by left. }
  assert (forall c1, ok c1 -> c_buckets c1 !! k = None -> Keys c1 < cfg_MaxKeys cfg ->
    forall l c2, create k limit now c1 = (l, c2) ->
    ok c2 /\ exists b, c_heap c2 !! l = Some b /\ b_key b = k /\ l ∈ c_lru c2) as Hcreate.
  { intros c1 Hok1 Hn1 Hlt l c2 Hc. pose proof (create_ok k limit now c1 Hok1 Hn1 Hlt) as [Hok2 Hk2].
    assert (l = c_next c1) as -> by (by injection Hc). rewrite Hc in Hok2, Hk2. cbn [snd] in *.
    split; [done |]. destruct (ok_index c2 Hok2 k _ Hk2) as [? (b & ? & ?)]. by exists b. }
  destruct (Z.leb_spec (cfg_MaxKeys cfg) (len (c_lru c))) as [Hfull | Hroom].
  - destruct (evictIdle c) as [c1 |] eqn:He; [| intros [= <- <-]; by split].
    destruct (evict_ok c c1 Hok He) as (Hok1 & Hlen & _ & Hsub).
    destruct (create k limit now c1) as [l c2] eqn:Hc. intros [= <- <-].
    destruct (Hcreate c1 Hok1) with (l := l) (c2 := c2) as [Hok2 Hb]; [| | done |].
    + destruct (c_buckets c1 !! k) eqn:H1; [| done]. apply Hsub in H1. congruence.
    + pose proof (ok_keys c Hok). lia.
    + split; [done |]. by intros l' [= <-].
  - destruct (create k limit now c) as [l c2] eqn:Hc. intros [= <- <-].
    destruct (Hcreate c Hok Hk Hroom l c2 Hc) as [Hok2 Hb]. split; [done |]. by intros l' [= <-].
Qed.

Lemma refill_same limit now b :
  b_key (refill limit now b) = b_key b /\ b_inflight (refill limit now b) = b_inflight b.
Proof. unfold refill. by destruct (0 <? _). Qed.

Lemma Admit_ok route tenant now c g r c' :
  ok c -> Admit cfg route tenant now c = (g, r, c') -> ok c'.
Proof.
  intros Hok. unfold Admit. destruct (cfg_Limits cfg !! route) as [limit |] eqn:Hlimit;
    [| by intros [= _ _ <-]].
  destruct (lookup_bucket cfg (route, tenant) limit now c) as [found c1] eqn:Hl.
  apply lookup_ok in Hl as [Hok1 Hfound]; [| done].
  destruct found as [l |]; [| by intros [= _ _ <-]].
  destruct (Hfound l eq_refl) as (b & Hb & Hbk & Hm). rewrite Hb.
  destruct (Z.leb_spec (lm_Concurrency limit) (b_inflight b)) as [| Hlt]; [by intros [= _ _ <-] |].
  destruct (refill_same limit now b) as [Hrk Hri].
  pose proof (ok_inflight c1 Hok1 l b Hb) as Hin.
  destruct (float_ltb _ _); intros [= _ _ <-].
  - apply (set_ok l b); try done; [congruence | by apply (ok_live c1 Hok1) |].
    intros limit' Hl'. rewrite Hri. by apply (ok_ceiling c1 Hok1 l b).
  - cbn. rewrite Hri. apply (set_ok l b); try done; cbn.
    + rewrite open_on_app, open_on_one, decide_True by done. lia.
    + intros l' Hne. rewrite open_on_app, open_on_one, decide_False by congruence. lia.
    + intros l' [Hg | Hg]%elem_of_app; [by apply (ok_live c1 Hok1) |].
      apply list_elem_of_singleton in Hg. by injection Hg as ->.
    + intros limit' Hl' _. rewrite Hbk in Hl'. cbn in Hl'. assert (limit' = limit) as -> by congruence. lia.
Qed.

Lemma Release_ok g c : ok c -> ok (Release g c).
Proof.
  intros Hok. unfold Release. destruct (c_grants c !! g) as [[l []] |] eqn:Hg; try done.
  assert ((l, false) ∈ c_grants c) as Hin by (by eapply list_elem_of_lookup_2).
  destruct (ok_listed c Hok l (ok_live c Hok l Hin)) as (b & Hb & _). rewrite Hb.
  pose proof (ok_inflight c Hok l b Hb) as Hf.
  apply (set_ok l b); try done; cbn.
  - rewrite (open_on_release l) by done. rewrite decide_True by done. lia.
  - intros l' Hne. rewrite (open_on_release l) by done. rewrite decide_False by done. lia.
  - intros l' Hl'. apply (ok_live c Hok). apply list_elem_of_lookup in Hl' as [i Hi].
    apply list_lookup_insert_Some in Hi as [(_ & [= _] & _) | [_ Hi]]. by eapply list_elem_of_lookup_2.
  - intros limit Hl Hpos. pose proof (ok_ceiling c Hok l b limit Hb Hl). lia.
Qed.

Lemma run_ok c c' : ok c -> rtc step c c' -> ok c'.
Proof.
  intros Hok. induction 1 as [| c c1 c' Hs _ IH]; [done |]. apply IH. destruct Hs.
  - by eapply Admit_ok.
  - by apply Release_ok.
Qed.

(** The admissions of a route and tenant that were not released yet. *)
Definition in_flight (k : key) (c : Controller) : Z :=
  len (filter (fun g => g.2 = false /\ b_key <$> c_heap c !! g.1 = Some k) (c_grants c)).

Lemma in_flight_bucket k c :
  ok c -> in_flight k c = 0 \/ exists l b, c_buckets c !! k = Some l /\ c_heap c !! l = Some b /\
    in_flight k c = b_inflight b.
Proof.
  intros Hok. unfold in_flight.
  destruct (filter _ (c_grants c)) as [| [l o] rest] eqn:Hf; [by left |]. rewrite <- Hf. right.
  assert ((l, o) ∈ filter (fun g => g.2 = false /\ b_key <$> c_heap c !! g.1 = Some k) (c_grants c)) as Hin
    by (rewrite Hf; apply elem_of_cons; by left).
  apply list_elem_of_filter in Hin as [[Ho Hk] Hin]. cbn in Ho, Hk. subst o.
  destruct (ok_listed c Hok l (ok_live c Hok l Hin)) as (b & Hb & Hbk). rewrite Hb in Hk. injection Hk as Hk.
  rewrite Hk in Hbk. exists l, b. split; [done |]. split; [done |].
  rewrite (ok_inflight c Hok l b Hb). unfold open_on. f_equal. apply filter_agree.
  intros [l2 o2] Hin2. cbn. split; [intros [-> Hk2] | by intros [= -> ->]; rewrite Hb; cbn; rewrite Hk].
  destruct (ok_listed c Hok l2 (ok_live c Hok l2 Hin2)) as (b2 & Hb2 & Hbk2).
  rewrite Hb2 in Hk2. injection Hk2 as Hk2. rewrite Hk2 in Hbk2. congruence.
Qed.

(** C31: Under every interleaving of admissions and releases, whatever the clock and
    the rates: the buckets never outnumber the ceiling; what a route has in flight
    for a tenant never exceeds its concurrency, even across evictions, because a
    bucket with something in flight is never evicted; and a release frees its slot
    once, however often it is called. *)
Theorem admission_bounded c (Hrun : rtc step New c) :
  Keys c <= cfg_MaxKeys cfg /\
  (forall route tenant limit, cfg_Limits cfg !! route = Some limit -> 0 <= lm_Concurrency limit ->
     in_flight (route, tenant) c <= lm_Concurrency limit) /\
  (forall g, Release g (Release g c) = Release g c).
Proof.
  pose proof (run_ok New c ok_New Hrun) as Hok. split; [apply (ok_keys c Hok) |]. split.
  - intros route tenant limit Hl Hpos.
    destruct (in_flight_bucket (route, tenant) c Hok) as [-> | (l & b & Hk & Hb & ->)]; [done |].
    destruct (ok_index c Hok _ l Hk) as [_ (b2 & Hb2 & Hbk)].
    assert (b2 = b) as -> by congruence.
    destruct (Z.le_gt_cases (b_inflight b) 0) as [| Hpos2]; [lia |].
    apply (ok_ceiling c Hok l b limit Hb); [by rewrite Hbk | lia].
  - intros g. unfold Release at 2 3. destruct (c_grants c !! g) as [[l []] |] eqn:Hg.
    + unfold Release. by rewrite Hg.
    + assert (g < length (c_grants c))%nat as Hlt by (by eapply lookup_lt_Some).
      destruct (c_heap c !! l); unfold Release; cbn [c_grants]; by rewrite list_lookup_insert_eq.
    + unfold Release. by rewrite Hg.
Qed.

(** Every tenant owns its bucket: an admission of another route or tenant leaves
    the bucket as it was; at most it evicts it, when nothing of it is in flight. *)
Theorem admission_apart c k l route tenant now g r c'
    (Hrun : rtc step New c) (Hk : c_buckets c !! k = Some l) (Hne : (route, tenant) <> k)
    (Hadmit : Admit cfg route tenant now c = (g, r, c')) :
  c_heap c' !! l = c_heap c !! l /\
  (c_buckets c' !! k = Some l \/ c_buckets c' !! k = None /\ in_flight k c = 0).
Proof.
  pose proof (run_ok New c ok_New Hrun) as Hok. revert Hadmit. unfold Admit.
  destruct (cfg_Limits cfg !! route) as [limit |]; [| intros [= _ _ <-]; by split; [| left]].
  destruct (lookup_bucket cfg (route, tenant) limit now c) as [found c1] eqn:Hl.
  assert ((c_heap c1 !! l = c_heap c !! l /\ found <> Some l) /\
    (c_buckets c1 !! k = Some l \/ c_buckets c1 !! k = None /\ in_flight k c = 0)) as [[Hh Hf] Hb].
  { destruct (ok_index c Hok k l Hk) as [Hm (b & Hhb & Hbk)]. revert Hl. unfold lookup_bucket.
    destruct (c_buckets c !! ((route, tenant) : key)) as [l2 |] eqn:Hk2.
    { intros [= <- <-]. cbn. destruct (ok_index c Hok _ l2 Hk2) as [_ (b2 & Hb2 & Hbk2)].
      split; [split; [done | congruence] | by left]. }
    assert (forall c2, c_next c2 = c_next c -> c_heap c2 = c_heap c ->
      (c_buckets c2 !! k = Some l \/ c_buckets c2 !! k = None /\ in_flight k c = 0) ->
      forall l2 c3, create (route, tenant) limit now c2 = (l2, c3) ->
      (c_heap c3 !! l = c_heap c !! l /\ Some l2 <> Some l) /\
      (c_buckets c3 !! k = Some l \/ c_buckets c3 !! k = None /\ in_flight k c = 0)) as Hcreate.
    { intros c2 Hn2 Hh2 Hb2 l2 c3 [= <- <-]. cbn. rewrite Hn2, Hh2, (lookup_insert_ne (c_buckets c2)) by done.
      assert (c_next c <> l) as Hnl.
      { intros <-. destruct (ok_fresh c Hok (c_next c) ltac:(lia)). congruence. }
      rewrite lookup_insert_ne by done. split; [split; [done | congruence] | done]. }
    destruct (_ <=? _).
    2: { destruct (create _ _ _ c) as [l2 c2] eqn:Hcr. intros [= <- <-].
         apply (Hcreate c); [done | done | by left | done]. }
    unfold evictIdle. destruct (List.find _ _) as [l0 |] eqn:Hfind.
    2: { intros [= <- <-]. split; [by split | by left]. }
    apply find_some in Hfind as [Hl0%list_elem_of_In Hidle]. rewrite elem_of_reverse in Hl0.
    destruct (ok_listed c Hok l0 Hl0) as (b0 & Hb0 & Hk0). rewrite Hb0.
    destruct (create _ _ _ _) as [l2 c2] eqn:Hcr. intros [= <- <-].
    refine (Hcreate _ _ _ _ l2 c2 Hcr); cbn; [done | done |].
    destruct (decide (b_key b0 = k)) as [Heq | Hn0].
    - right. rewrite Heq, lookup_delete_eq. split; [done |].
      destruct (in_flight_bucket k c Hok) as [| (l3 & b3 & Hk3 & Hb3 & ->)]; [done |].
      unfold idle in Hidle. assert (l0 = l3) as -> by congruence. rewrite Hb3 in Hidle. lia.
    - left. by rewrite lookup_delete_ne. }
  destruct found as [l2 |]; [| intros [= _ _ <-]; done].
  destruct (c_heap c1 !! l2) as [b2 |]; [| intros [= _ _ <-]; done].
  destruct (_ <=? _); [intros [= _ _ <-]; done |].
  destruct (float_ltb _ _); intros [= _ _ <-]; cbn; rewrite lookup_insert_ne by congruence; done.
Qed.
End Runs.

(** * A run: one request a second, one at once, two tenants *)
Module AdmissionRun.
Definition cfg : Config :=
  mkConfig {["orders"%string := mkLimit (float_of_Z 1) 1 10]} 10 true.
Definition first : option nat * Reason * Controller := Admit cfg "orders" "acme" 0 New.
Definition second : option nat * Reason * Controller := Admit cfg "orders" "acme" 0 first.2.
Definition third : option nat * Reason * Controller := Admit cfg "orders" "globex" 0 second.2.
Definition later : option nat * Reason * Controller := Admit cfg "orders" "acme" 1500000000 third.2.

Example admission_reasons :
  (first.1, second.1, third.1, later.1) =
    ((Some 0%nat, Admitted_), (None, RateLimited_), (Some 1%nat, Admitted_), (Some 2%nat, Admitted_)) /\
  in_flight ("orders", "acme")%string later.2 = 2 /\ Keys later.2 = 2.
Proof. vm_compute. repeat split. Qed.

Lemma admission_run : rtc (step cfg) New second.2.
Proof.
  eapply rtc_l; [exact (step_Admit cfg "orders" "acme" 0 _ _ New first.2 (surjective_pairing _)) |].
  apply rtc_once. exact (step_Admit cfg "orders" "acme" 0 _ _ first.2 second.2 eq_refl).
Qed.
End AdmissionRun.

Lemma admission_bounded_witness :
  Keys AdmissionRun.second.2 <= 10 /\
  in_flight ("orders", "acme")%string AdmissionRun.second.2 <= 10.
Proof.
  destruct (admission_bounded AdmissionRun.cfg ltac:(done) AdmissionRun.second.2
    AdmissionRun.admission_run) as (Hkeys & Hflight & _).
  split; [exact Hkeys |].
  exact (Hflight "orders"%string "acme"%string (mkLimit (float_of_Z 1) 1 10) eq_refl ltac:(done)).
Defined.

Lemma admission_apart_witness :
  c_heap AdmissionRun.third.2 !! 0%nat = c_heap AdmissionRun.second.2 !! 0%nat.
Proof.
  apply (admission_apart AdmissionRun.cfg ltac:(done) AdmissionRun.second.2 ("orders", "acme")%string 0%nat
    "orders" "globex" 0 (Some 1%nat) Admitted_ AdmissionRun.third.2 AdmissionRun.admission_run);
    by vm_compute.
Defined.
