(* ===== verification/KafkaWorker.v ===== *)
(** The Kafka consumer ([kafka/offsets.go], [worker.go], [acknowledger.go],
    [panic.go], [consumer.go]): one worker per partition with its queue and its
    cursor, the poll loop that feeds them, the rebalance that takes partitions
    away, and the shutdown.  Every critical section is one step and every call to
    the client is one of its own, so the goroutines interleave as they can in Go.

    The client and the sink are parameters of the run: a label of a step says
    what the client delivered or answered and which gestures the sink made. *)

From S2P Require Import Prelude Regex DomainKernel Errors Channel.

(** * The cursor ([offsets.go]) *)
Record record := mkRecord { r_Offset : Z; r_Value : list Z }.
#[global] Instance record_eq_dec : EqDecision record.
Proof. solve_decision. Defined.
Record tracked := mkTracked { t_record : record; t_acked : bool }.
Definition cursor := list tracked.

Definition Track (r : record) (c : cursor) : cursor := c ++ [mkTracked r false].
(** The first record at the offset; an unknown offset is ignored. *)
Fixpoint Mark (offset : Z) (c : cursor) : cursor :=
  match c with
  | [] => []
  | t :: c' =>
      if r_Offset (t_record t) =? offset then mkTracked (t_record t) true :: c'
      else t :: Mark offset c'
  end.
(** The acknowledged prefix popped: its last record, and what is left. *)
Fixpoint pop_acked (last : option record) (c : cursor) : option record * cursor :=
  match c with
  | t :: c' => if t_acked t then pop_acked (Some (t_record t)) c' else (last, c)
  | [] => (last, [])
  end.
Definition NextContiguous (c : cursor) : option record * cursor := pop_acked None c.
Definition cursor_Pending (c : cursor) : Z := len c.

(** * Gestures ([acknowledger.go]) *)
Inductive gesture := Undecided | Acked | Released.
#[global] Instance gesture_eq_dec : EqDecision gesture.
Proof. solve_decision. Defined.
Definition ErrAlreadyDisposed : error := Sentinel "kafka.ErrAlreadyDisposed".
Definition decide_gesture (g current : gesture) : result error unit * gesture :=
  match current with
  | Undecided => (Ok (), g)
  | _ => (Err ErrAlreadyDisposed, current)
  end.
(** The decision a sink leaves that makes the gestures [gs], in order. *)
Definition decision (gs : list gesture) : gesture :=
  foldl (fun current g => (decide_gesture g current).2) Undecided gs.

(** * The worker ([worker.go]) *)
Definition loc := nat.
Definition pkey : Type := string * Z.              (* topic, partition *)

(** Where the goroutine of a worker is. *)
Inductive pc :=
| Selecting                                        (* the select of [run] *)
| Draining                                         (* the head of the inner loop *)
| Resuming (r : record)                            (* [next] lifts the pause: the call is due *)
| Tracking (r : record)                            (* [process] begins *)
| Attempting (r : record) (n : Z)                  (* the head of its loop *)
| Handling (r : record) (n : Z)                    (* inside the sink *)
| Handled (r : record) (n : Z) (g : gesture)       (* the sink returned *)
| Marking (r : record)
| Committing                                       (* [commitContiguous] *)
| CommitCall (r : record)
| Stalling (r : record)
| StallCall
| BackingOff (r : record) (n : Z)                  (* [pauseForBackoff] *)
| BackoffPauseCall (r : record) (n : Z)
| Sleeping (r : record) (n : Z)
| Waking (r : record) (n : Z) (slept : bool)       (* [resumeAfterBackoff] *)
| BackoffResumeCall (r : record) (n : Z) (slept : bool)
| Exited.

Record worker := mkWorker {
  w_key : pkey;
  w_cancelled : bool;                              (* its context *)
  w_signal : bool;                                 (* the buffered channel *)
  w_queue : list record;
  w_paused : bool;
  w_stalled : bool;
  w_revoked : bool;
  w_cursor : cursor;
  w_pc : pc
}.
Definition newPartitionWorker (k : pkey) : worker :=
  mkWorker k false false [] false false false [] Selecting.
Definition w_done (w : worker) : bool := match w_pc w with Exited => true | _ => false end.

Definition set_pc (p : pc) (w : worker) : worker :=
  mkWorker (w_key w) (w_cancelled w) (w_signal w) (w_queue w) (w_paused w) (w_stalled w)
    (w_revoked w) (w_cursor w) p.
Definition set_signal (b : bool) (w : worker) : worker :=
  mkWorker (w_key w) (w_cancelled w) b (w_queue w) (w_paused w) (w_stalled w) (w_revoked w)
    (w_cursor w) (w_pc w).
Definition set_paused (b : bool) (w : worker) : worker :=
  mkWorker (w_key w) (w_cancelled w) (w_signal w) (w_queue w) b (w_stalled w) (w_revoked w)
    (w_cursor w) (w_pc w).
Definition set_cursor (c : cursor) (w : worker) : worker :=
  mkWorker (w_key w) (w_cancelled w) (w_signal w) (w_queue w) (w_paused w) (w_stalled w)
    (w_revoked w) c (w_pc w).
Definition cancel (w : worker) : worker :=
  mkWorker (w_key w) true (w_signal w) (w_queue w) (w_paused w) (w_stalled w) (w_revoked w)
    (w_cursor w) (w_pc w).
Definition markRevoked (w : worker) : worker :=
  mkWorker (w_key w) (w_cancelled w) (w_signal w) (w_queue w) (w_paused w) (w_stalled w) true
    (w_cursor w) (w_pc w).

(** What the consumer declares of the channel and of the queue. *)
Record limits := mkLimits { QueuePerPartition : Z; MaxAttempts : Z }.

(** The critical section of [enqueue]; whether the fetch must be paused. *)
Definition enqueue (l : limits) (r : record) (w : worker) : worker * bool :=
  let queue := w_queue w ++ [r] in
  let pause := negb (w_paused w) && (QueuePerPartition l <=? len queue) in
  (mkWorker (w_key w) (w_cancelled w) (w_signal w) queue (w_paused w || pause) (w_stalled w)
     (w_revoked w) (w_cursor w) (w_pc w), pause).

(** [next]: the head of the queue, and whether the fetch resumes. *)
Definition next (l : limits) (w : worker) : option (record * bool) * worker :=
  if w_stalled w then (None, w)
  else
    match w_queue w with
    | [] => (None, w)
    | r :: queue =>
        let resume := w_paused w && (len queue <? QueuePerPartition l / 2) in
        (Some (r, resume),
         mkWorker (w_key w) (w_cancelled w) (w_signal w) queue (w_paused w && negb resume)
           (w_stalled w) (w_revoked w) (w_cursor w) (w_pc w))
    end.

(** The critical section of [stall]; whether the fetch must be paused. *)
Definition stall (w : worker) : worker * bool :=
  (mkWorker (w_key w) (w_cancelled w) (w_signal w) (w_queue w) true true (w_revoked w) (w_cursor w)
     (w_pc w), negb (w_paused w)).
Definition pauseForBackoff (w : worker) : worker * bool := (set_paused true w, negb (w_paused w)).
Definition resumeAfterBackoff (l : limits) (w : worker) : worker * bool :=
  let resume := w_paused w && negb (w_stalled w) && (len (w_queue w) <? QueuePerPartition l) in
  (set_paused (w_paused w && negb resume) w, resume).
(** [resumeFetch]: the pause a worker leaves behind. *)
Definition resumeFetch (w : worker) : worker * bool := (set_paused false w, w_paused w).
(** The critical section of [commitContiguous]. *)
Definition commitContiguous (final : bool) (w : worker) : option record * worker :=
  if w_revoked w && negb final then (None, w)
  else let '(last, c) := NextContiguous (w_cursor w) in (last, set_cursor c w).

(** * One step of a worker's goroutine

    What the environment decides: which ready channel the select takes, the
    gestures the sink makes before it returns or panics, whether the backoff was
    slept out. *)
Inductive choice :=
| Go
| TakeDone | TakeSignal
| SinkReturns (gs : list gesture)
| SleepEnds (slept : bool).

(** The calls to the client. *)
Inductive call := NoCall | PauseFetch | ResumeFetch | CommitRecords (r : record).

Definition worker_step (l : limits) (ch : choice) (w : worker) : option (worker * call) :=
  match w_pc w, ch with
  | Selecting, TakeDone => if w_cancelled w then Some (set_pc Exited w, NoCall) else None
  | Selecting, TakeSignal =>
      if w_signal w then Some (set_pc Draining (set_signal false w), NoCall) else None
  | Draining, Go =>
      if w_cancelled w then Some (set_pc Exited w, NoCall)
      else
        match next l w with
        | (None, w') => Some (set_pc Selecting w', NoCall)
        | (Some (r, true), w') => Some (set_pc (Resuming r) w', NoCall)
        | (Some (r, false), w') => Some (set_pc (Tracking r) w', NoCall)
        end
  | Resuming r, Go => Some (set_pc (Tracking r) w, ResumeFetch)
  | Tracking r, Go => Some (set_pc (Attempting r 1) (set_cursor (Track r (w_cursor w)) w), NoCall)
  | Attempting r n, Go =>
      if w_cancelled w then Some (set_pc Draining w, NoCall)
      else Some (set_pc (Handling r n) w, NoCall)
  | Handling r n, SinkReturns gs => Some (set_pc (Handled r n (decision gs)) w, NoCall)
  | Handled r n g, Go =>
      if w_cancelled w then Some (set_pc Draining w, NoCall)
      else
        match g with
        | Acked => Some (set_pc (Marking r) w, NoCall)
        | Undecided => Some (set_pc (Stalling r) w, NoCall)
        | Released =>
            if MaxAttempts l <=? n then Some (set_pc (Stalling r) w, NoCall)
            else Some (set_pc (BackingOff r n) w, NoCall)
        end
  | Marking r, Go => Some (set_pc Committing (set_cursor (Mark (r_Offset r) (w_cursor w)) w), NoCall)
  | Committing, Go =>
      match commitContiguous false w with
      | (Some r, w') => Some (set_pc (CommitCall r) w', NoCall)
      | (None, w') => Some (set_pc Draining w', NoCall)
      end
  | CommitCall r, Go => Some (set_pc Draining w, CommitRecords r)
  | Stalling r, Go =>
      let '(w', pause) := stall w in
      Some (set_pc (if pause then StallCall else Draining) w', NoCall)
  | StallCall, Go => Some (set_pc Draining w, PauseFetch)
  | BackingOff r n, Go =>
      let '(w', pause) := pauseForBackoff w in
      Some (set_pc (if pause then BackoffPauseCall r n else Sleeping r n) w', NoCall)
  | BackoffPauseCall r n, Go => Some (set_pc (Sleeping r n) w, PauseFetch)
  | Sleeping r n, SleepEnds slept =>
      (* the sleep fails only with its context *)
      if slept || w_cancelled w then Some (set_pc (Waking r n slept) w, NoCall) else None
  | Waking r n slept, Go =>
      let '(w', resume) := resumeAfterBackoff l w in
      Some (set_pc (if resume then BackoffResumeCall r n slept
                    else if slept then Attempting r (n + 1) else Draining) w', NoCall)
  | BackoffResumeCall r n slept, Go =>
      Some (set_pc (if slept then Attempting r (n + 1) else Draining) w, ResumeFetch)
  | _, _ => None
  end.

(** * The consumer ([consumer.go]) *)

(** The poll loop: between polls, which allows a rebalance, or handing out what a
    poll fetched; [PStopped] once its context is done. *)
Definition batch := list (pkey * list record).
Inductive poller :=
| Polling
| Dispatching (rest : batch)
| Enqueueing (w : loc) (rs : list record) (rest : batch)
| PauseCall (w : loc) (rs : list record) (rest : batch)
| Signalling (w : loc) (rs : list record) (rest : batch)
| Stopped.

(** [release] and [stopAll] from the moment the workers left the registry. *)
Inductive settling :=
| Idle
| Revoking (todo waiting : list loc)               (* markRevoked *)
| Cancelling (w : loc) (todo waiting : list loc)   (* and cancel *)
| Awaiting (todo left stuck : list loc) (expired : bool)
| ResumingFetch (left stuck : list loc)
| ResumeCall (w : loc) (left stuck : list loc)
| FinalCommit (w : loc) (left stuck : list loc)
| FinalCommitCall (w : loc) (r : record) (left stuck : list loc)
| Registering (stuck : list loc)
| PausingStuck (todo : list loc) (n : nat)
| Tripping (n : nat).

Definition ErrPanicked : error := Sentinel "kafka.ErrPanicked".
Definition ErrRevokeStuck : error := Sentinel "kafka.ErrRevokeStuck".

(** What was observed of a worker from outside: the records handed to it, the
    records it took, the answers of the sink, the records it committed. *)
Record history := mkHistory {
  h_received : list record;
  h_handled : list (record * Z * gesture);
  h_commits : list record
}.
Definition no_history : history := mkHistory [] [] [].

Record system := mkSystem {
  sy_workers : gmap loc worker;                    (* the goroutines *)
  sy_next : loc;
  sy_registry : gmap pkey loc;                     (* [c.workers] *)
  sy_stuck : gmap pkey loc;
  sy_fault : option error;
  sy_poller : poller;
  sy_rebalance : settling;
  sy_shutdown : option settling;                   (* [stopAll], once it began *)
  sy_paused : gset pkey;                           (* the client's paused partitions *)
  sy_history : gmap loc history
}.
Definition initial : system :=
  mkSystem ∅ 0%nat ∅ ∅ None Polling Idle None ∅ ∅.

Definition set_worker (id : loc) (w : worker) (s : system) : system :=
  mkSystem (<[id := w]> (sy_workers s)) (sy_next s) (sy_registry s) (sy_stuck s) (sy_fault s)
    (sy_poller s) (sy_rebalance s) (sy_shutdown s) (sy_paused s) (sy_history s).
Definition set_poller (p : poller) (s : system) : system :=
  mkSystem (sy_workers s) (sy_next s) (sy_registry s) (sy_stuck s) (sy_fault s) p
    (sy_rebalance s) (sy_shutdown s) (sy_paused s) (sy_history s).
Definition set_client_paused (p : gset pkey) (s : system) : system :=
  mkSystem (sy_workers s) (sy_next s) (sy_registry s) (sy_stuck s) (sy_fault s) (sy_poller s)
    (sy_rebalance s) (sy_shutdown s) p (sy_history s).
Definition set_history (id : loc) (h : history) (s : system) : system :=
  mkSystem (sy_workers s) (sy_next s) (sy_registry s) (sy_stuck s) (sy_fault s) (sy_poller s)
    (sy_rebalance s) (sy_shutdown s) (sy_paused s) (<[id := h]> (sy_history s)).
Definition set_registry (m : gmap pkey loc) (s : system) : system :=
  mkSystem (sy_workers s) (sy_next s) m (sy_stuck s) (sy_fault s) (sy_poller s)
    (sy_rebalance s) (sy_shutdown s) (sy_paused s) (sy_history s).
Definition set_stuck (m : gmap pkey loc) (s : system) : system :=
  mkSystem (sy_workers s) (sy_next s) (sy_registry s) m (sy_fault s) (sy_poller s)
    (sy_rebalance s) (sy_shutdown s) (sy_paused s) (sy_history s).
(** [fault.trip] keeps the first fault. *)
Definition trip (e : error) (s : system) : system :=
  mkSystem (sy_workers s) (sy_next s) (sy_registry s) (sy_stuck s)
    (match sy_fault s with Some f => Some f | None => Some e end) (sy_poller s)
    (sy_rebalance s) (sy_shutdown s) (sy_paused s) (sy_history s).
(** Which of the two settles: the callback of the client, or the shutdown. *)
Definition set_settling (shutdown : bool) (x : settling) (s : system) : system :=
  mkSystem (sy_workers s) (sy_next s) (sy_registry s) (sy_stuck s) (sy_fault s) (sy_poller s)
    (if shutdown then sy_rebalance s else x)
    (if shutdown then Some x else sy_shutdown s) (sy_paused s) (sy_history s).
Definition get_settling (shutdown : bool) (s : system) : option settling :=
  if shutdown then sy_shutdown s else Some (sy_rebalance s).

Definition history_of (id : loc) (s : system) : history := default no_history (sy_history s !! id).
Definition received (id : loc) (r : record) (s : system) : system :=
  let h := history_of id s in
  set_history id (mkHistory (h_received h ++ [r]) (h_handled h) (h_commits h)) s.
Definition handled (id : loc) (r : record) (n : Z) (g : gesture) (s : system) : system :=
  let h := history_of id s in
  set_history id (mkHistory (h_received h) (h_handled h ++ [(r, n, g)]) (h_commits h)) s.
Definition committed (id : loc) (r : record) (s : system) : system :=
  let h := history_of id s in
  set_history id (mkHistory (h_received h) (h_handled h) (h_commits h ++ [r])) s.

(** The effect of a call, [k] being the partition of the caller. *)
Definition call_client (id : loc) (k : pkey) (c : call) (s : system) : system :=
  match c with
  | NoCall => s
  | PauseFetch => set_client_paused (sy_paused s ∪ {[k]}) s
  | ResumeFetch => set_client_paused (sy_paused s ∖ {[k]}) s
  | CommitRecords r => committed id r s
  end.

(** [c.worker]: the worker of a partition, created on first sight unless a stuck
    one still holds the partition. *)
Definition worker_of (k : pkey) (s : system) : option loc * system :=
  match sy_stuck s !! k with
  | Some _ => (None, s)
  | None =>
      match sy_registry s !! k with
      | Some id => (Some id, s)
      | None =>
          let id := sy_next s in
          (Some id,
           mkSystem (<[id := newPartitionWorker k]> (sy_workers s)) (S id)
             (<[k := id]> (sy_registry s)) (sy_stuck s) (sy_fault s) (sy_poller s)
             (sy_rebalance s) (sy_shutdown s) (sy_paused s) (<[id := no_history]> (sy_history s)))
      end
  end.

(** ** Steps *)
Inductive settle_choice := SGo | STimer | SLeft | SStuck.
Inductive label :=
| LWorker (id : loc) (ch : choice)
| LPanic (id : loc)                                (* a worker's goroutine panics *)
| LContext (id : loc)                              (* the context a worker came from ends *)
| LPoll (fetched : batch)
| LPoller
| LPollStops | LPollPanics
| LAssign (k : pkey)
| LRelease (gone : list pkey)
| LStopAll (order : list (pkey * loc))
| LSettle (shutdown : bool) (ch : settle_choice).

Section Steps.
Context (l : limits).

Definition observe (id : loc) (ch : choice) (w : worker) (s : system) : system :=
  match w_pc w, ch with
  | Handling r n, SinkReturns gs => handled id r n (decision gs) s
  | _, _ => s
  end.
Definition run_worker (id : loc) (ch : choice) (s : system) : option system :=
  match sy_workers s !! id with
  | None => None
  | Some w =>
      match worker_step l ch w with
      | None => None
      | Some (w', c) => Some (call_client id (w_key w) c (set_worker id w' (observe id ch w s)))
      end
  end.

Definition run_poller (s : system) : option system :=
  match sy_poller s with
  | Dispatching [] => Some (set_poller Polling s)
  | Dispatching ((k, []) :: rest) => Some (set_poller (Dispatching rest) s)
  | Dispatching ((k, rs) :: rest) =>
      match worker_of k s with
      | (None, s) => Some (set_poller (Dispatching rest) s)
      | (Some id, s) => Some (set_poller (Enqueueing id rs rest) s)
      end
  | Enqueueing id [] rest => Some (set_poller (Dispatching rest) s)
  | Enqueueing id (r :: rs) rest =>
      match sy_workers s !! id with
      | None => None
      | Some w =>
          let '(w', pause) := enqueue l r w in
          Some (set_poller (if pause then PauseCall id rs rest else Signalling id rs rest)
                  (received id r (set_worker id w' s)))
      end
  | PauseCall id rs rest =>
      match sy_workers s !! id with
      | None => None
      | Some w => Some (set_poller (Signalling id rs rest) (call_client id (w_key w) PauseFetch s))
      end
  | Signalling id rs rest =>
      match sy_workers s !! id with
      | None => None
      | Some w => Some (set_poller (Enqueueing id rs rest) (set_worker id (set_signal true w) s))
      end
  | Polling | Stopped => None
  end.

(** The first half of [release]: the workers found leave the registry. *)
Fixpoint take_gone (gone : list pkey) (registry : gmap pkey loc) : list loc * gmap pkey loc :=
  match gone with
  | [] => ([], registry)
  | k :: gone =>
      match registry !! k with
      | None => take_gone gone registry
      | Some id => let '(ids, m) := take_gone gone (delete k registry) in (id :: ids, m)
      end
  end.
Definition begin_settling (ids : list loc) : settling :=
  match ids with [] => Idle | _ => Revoking ids [] end.

Definition register_stuck (ids : list loc) (s : system) : gmap pkey loc :=
  foldl (fun m id =>
    match sy_workers s !! id with Some w => <[w_key w := id]> m | None => m end) (sy_stuck s) ids.

Definition run_settling (x : settling) (ch : settle_choice) (s : system) : option (settling * system) :=
  match x, ch with
  | Revoking [] waiting, SGo => Some (Awaiting waiting [] [] false, s)
  | Revoking (id :: todo) waiting, SGo =>
      match sy_workers s !! id with
      | None => None
      | Some w => Some (Cancelling id todo waiting, set_worker id (markRevoked w) s)
      end
  | Cancelling id todo waiting, SGo =>
      match sy_workers s !! id with
      | None => None
      | Some w => Some (Revoking todo (waiting ++ [id]), set_worker id (cancel w) s)
      end
  | Awaiting [] exited stuck _, SGo => Some (ResumingFetch exited stuck, s)
  | Awaiting todo exited stuck false, STimer => Some (Awaiting todo exited stuck true, s)
  | Awaiting (id :: todo) exited stuck expired, SLeft =>
      match sy_workers s !! id with
      | Some w => if w_done w then Some (Awaiting todo (exited ++ [id]) stuck expired, s) else None
      | None => None
      end
  | Awaiting (id :: todo) exited stuck true, SStuck =>
      match sy_workers s !! id with
      | Some w => if w_done w then None else Some (Awaiting todo exited (stuck ++ [id]) true, s)
      | None => None
      end
  | ResumingFetch [] stuck, SGo =>
      Some (match stuck with [] => Idle | _ => Registering stuck end, s)
  | ResumingFetch (id :: exited) stuck, SGo =>
      match sy_workers s !! id with
      | None => None
      | Some w =>
          let '(w', resume) := resumeFetch w in
          Some (if resume then ResumeCall id exited stuck else FinalCommit id exited stuck,
                set_worker id w' s)
      end
  | ResumeCall id exited stuck, SGo =>
      match sy_workers s !! id with
      | None => None
      | Some w => Some (FinalCommit id exited stuck, call_client id (w_key w) ResumeFetch s)
      end
  | FinalCommit id exited stuck, SGo =>
      match sy_workers s !! id with
      | None => None
      | Some w =>
          match commitContiguous true w with
          | (Some r, w') => Some (FinalCommitCall id r exited stuck, set_worker id w' s)
          | (None, w') => Some (ResumingFetch exited stuck, set_worker id w' s)
          end
      end
  | FinalCommitCall id r exited stuck, SGo => Some (ResumingFetch exited stuck, committed id r s)
  | Registering stuck, SGo =>
      Some (PausingStuck stuck (length stuck), set_stuck (register_stuck stuck s) s)
  | PausingStuck (id :: todo) n, SGo =>
      match sy_workers s !! id with
      | None => None
      | Some w => Some (PausingStuck todo n, call_client id (w_key w) PauseFetch s)
      end
  | PausingStuck [] n, SGo => Some (Tripping n, s)
  | Tripping n, SGo => Some (Idle, trip ErrRevokeStuck s)
  | _, _ => None
  end.

(** The client calls back between polls only ([BlockRebalanceOnPoll]), one
    callback at a time. *)
Definition between_polls (s : system) : bool :=
  match sy_poller s, sy_rebalance s with (Polling | Stopped), Idle => true | _, _ => false end.

Definition run_label (x : label) (s : system) : option system :=
  match x with
  | LWorker id ch => run_worker id ch s
  | LPanic id =>
      match sy_workers s !! id with
      | Some w => if w_done w then None else Some (trip ErrPanicked (set_worker id (set_pc Exited w) s))
      | None => None
      end
  | LContext id =>
      match sy_workers s !! id with Some w => Some (set_worker id (cancel w) s) | None => None end
  | LPoll fetched =>
      match sy_poller s, sy_rebalance s with
      | Polling, Idle => Some (set_poller (Dispatching fetched) s)
      | _, _ => None
      end
  | LPoller => run_poller s
  | LPollStops => match sy_poller s with Polling => Some (set_poller Stopped s) | _ => None end
  | LPollPanics =>
      match sy_poller s with Stopped => None | _ => Some (trip ErrPanicked (set_poller Stopped s)) end
  | LAssign k => if between_polls s then Some (worker_of k s).2 else None
  | LRelease gone =>
      if between_polls s then
        let '(ids, registry) := take_gone gone (sy_registry s) in
        Some (set_settling false (begin_settling ids) (set_registry registry s))
      else None
  | LStopAll order =>
      match sy_poller s, sy_shutdown s with
      | Stopped, None =>
          if bool_decide (order ≡ₚ map_to_list (sy_registry s))
          then Some (set_settling true (begin_settling order.*2) (set_registry ∅ s))
          else None
      | _, _ => None
      end
  | LSettle shutdown ch =>
      match get_settling shutdown s with
      | None => None
      | Some x =>
          match run_settling x ch s with
          | None => None
          | Some (x', s') => Some (set_settling shutdown x' s')
          end
      end
  end.

Definition system_step (s s' : system) : Prop := exists x, run_label x s = Some s'.
Fixpoint run_labels (xs : list label) (s : system) : option system :=
  match xs with
  | [] => Some s
  | x :: xs => match run_label x s with Some s' => run_labels xs s' | None => None end
  end.
Lemma run_labels_rtc xs s s' : run_labels xs s = Some s' -> rtc system_step s s'.
Proof.
  revert s. induction xs as [| x xs IH]; intros s; cbn; [by intros [= ->] |].
  destruct (run_label x s) as [s1 |] eqn:Hx; [| done]. intros Hr. eapply rtc_l; [by exists x | by apply IH].
Qed.
End Steps.
