(* ===== verification/Ports.v ===== *)
(** The ports' data ([src/libs/backend/go/ports]): the execution context and the
    request-scoped carrier, the outcomes of an external command, the inbox and
    attempt-ledger vocabulary, and the outbox entry.  The ports' operations are
    in [Interfaces]. *)

From S2P Require Import Prelude Regex DomainKernel Errors.

Definition MessageID := string.
Definition Version := Z.
Definition SubjectID := string.
Definition TenantID := string.
Definition Permission := string.
Definition OutboundKey := string.
(** Bytes are integers of [0, 255]. *)
Notation bytes := (list Z).

(** * External commands ([external.go]) *)

(** Every enumeration is a Go [uint8]: the zero value and the values no constant
    names are constructors of their own. *)
Inductive ExternalClass :=
| ClassNone | ClassAccepted | ClassRetryableTransport | ClassRetryableUpstream
| ClassFinalValidation | ClassFinalBusiness | ClassFinalAuthorization
| ClassUnknownSent | ClassUnknownAmbiguous | ClassSchemaMismatch
| ClassOther (n : N).
Inductive Finding :=
| FindingNone | FindingApplied | FindingAbsent | FindingRejected | FindingPending
| FindingInconclusive | FindingOther (n : N).
Inductive KeySemantics :=
| KeyUndeclared | KeyNative | KeyHeader | KeyNone | KeyOther (n : N).
Inductive Efficacy :=
| EfficacyUndeclared | EfficacyOnSubmit | EfficacyByObservation | EfficacyOther (n : N).

#[global] Instance ExternalClass_eq_dec : EqDecision ExternalClass.
Proof. solve_decision. Defined.
#[global] Instance Finding_eq_dec : EqDecision Finding.
Proof. solve_decision. Defined.
#[global] Instance KeySemantics_eq_dec : EqDecision KeySemantics.
Proof. solve_decision. Defined.
#[global] Instance Efficacy_eq_dec : EqDecision Efficacy.
Proof. solve_decision. Defined.

Record Observation := mkObservation {
  obs_Key : OutboundKey;
  obs_Finding : Finding;
  obs_SourceAt : Instant;
  obs_Provider : string;
  obs_ExternalRef : string;
  obs_ID : string
}.
Definition zeroObservation : Observation := mkObservation "" FindingNone 0 "" "" "".
#[global] Instance Observation_eq_dec : EqDecision Observation.
Proof. solve_decision. Defined.

Record ExternalProfile := mkExternalProfile {
  pr_KeySemantics : KeySemantics;
  pr_Efficacy : Efficacy;
  pr_Quiescence : Z;
  pr_AuthoritativeAbsence : bool;
  pr_MaxQueries : Z;
  pr_KeyAlphabet : string;
  pr_KeyMaxLength : Z
}.

(** * Attempt ledger ([attempt_ledger.go]) *)
Record Attempt := mkAttempt {
  att_Tenant : TenantID;
  att_Key : OutboundKey;
  att_N : Z;
  att_MessageID : MessageID;
  att_StartedAt : Instant
}.
#[global] Instance Attempt_eq_dec : EqDecision Attempt.
Proof. solve_decision. Defined.

Inductive AttemptStart :=
| AttemptStartZero
| StartedAttempt (a : Attempt)
| PendingAttempt (a : Attempt)
| DoneAttempt (a : Attempt) (class : ExternalClass).

(** [AttemptStart.Match], given its three branches. *)
Definition AttemptStart_Match {W A} (start : AttemptStart)
    (started pending : Attempt -> M W error A)
    (done_ : Attempt -> ExternalClass -> M W error A) : M W error A :=
  match start with
  | StartedAttempt a => started a
  | PendingAttempt a => pending a
  | DoneAttempt a class => done_ a class
  | AttemptStartZero => panic "ports: AttemptStart zero value has no classification"
  end.

Definition Retryable (c : ExternalClass) : bool :=
  match c with ClassRetryableTransport | ClassRetryableUpstream => true | _ => false end.

Record AttemptOutcome := mkAttemptOutcome {
  out_Key : OutboundKey;
  out_N : Z;
  out_Class : ExternalClass;
  out_Observation : Observation;
  out_FinishedAt : Instant;
  out_Presumed : bool
}.

Definition MaxAttemptEntries : Z := 64.

Inductive FinishResult :=
| FinishNone | FinishRecorded | FinishUnchanged | FinishConflict | FinishSaturated.
#[global] Instance FinishResult_eq_dec : EqDecision FinishResult.
Proof. solve_decision. Defined.
Record Finished := mkFinished { fin_Result : FinishResult; fin_Recorded : ExternalClass }.
Definition zeroFinished : Finished := mkFinished FinishNone ClassNone.

Inductive ObserveResult :=
| ObserveNone | ObserveRecorded | ObserveDuplicate | ObserveConflict | ObserveSaturated.
#[global] Instance ObserveResult_eq_dec : EqDecision ObserveResult.
Proof. solve_decision. Defined.
Record Observed := mkObserved {
  obd_Result : ObserveResult;
  obd_N : Z;
  obd_Class : ExternalClass;
  obd_QueriesDone : Z
}.

Record AttemptCursor := mkAttemptCursor {
  cur_StartedAt : Instant;
  cur_Tenant : TenantID;
  cur_Key : OutboundKey;
  cur_N : Z
}.
Definition zeroCursor : AttemptCursor := mkAttemptCursor 0 "" "" 0.
#[global] Instance AttemptCursor_eq_dec : EqDecision AttemptCursor.
Proof. solve_decision. Defined.

Definition Cursor (a : Attempt) : AttemptCursor :=
  mkAttemptCursor (att_StartedAt a) (att_Tenant a) (att_Key a) (att_N a).

(** * Inbox ([inbox.go]) *)
Inductive Status := StatusInvalid | StatusProcessed | StatusRejected.
#[global] Instance Status_eq_dec : EqDecision Status.
Proof. solve_decision. Defined.

Record Receipt := mkReceipt {
  rcp_Consumer : string;
  rcp_MessageID : MessageID;
  rcp_MessageType : string;
  rcp_PayloadHash : string;
  rcp_ReceivedAt : Instant;
  rcp_WaitUntil : Instant;
  rcp_ExpiresAt : Instant
}.

Record Completion := mkCompletion {
  cmp_Status : Status;
  cmp_At : Instant;
  cmp_LastError : string;
  cmp_Outcome : bytes
}.

(** * Execution context ([execcontext.go]) *)
Record ExecutionContextSpec := mkExecutionContextSpec {
  spec_RequestID : string;
  spec_CorrelationID : string;
  spec_CausationID : option string;
  spec_TraceContext : string;
  spec_Subject : option SubjectID;
  spec_Tenant : option TenantID;
  spec_Permissions : option (list Permission);   (* a nil slice is None *)
  spec_Deadline : Instant;
  spec_Locale : string
}.

Record ExecutionContext := mkExecutionContext {
  requestID : string;
  correlationID : string;
  causationID : string;
  traceContext : string;
  subject : SubjectID;
  tenant : TenantID;
  permissions : list Permission;
  deadline : Instant;
  locale : string;
  hasCausation : bool;
  hasSubject : bool;
  hasTenant : bool
}.

Definition missing (field : string) : error := Wrap field ErrContextFieldMissing.
Definition empty_value (field : string) : error := Wrap field ErrContextValueEmpty.

Definition present_empty (v : option string) : bool :=
  match v with Some s => String.eqb s "" | None => false end.

Definition NewExecutionContext (spec : ExecutionContextSpec) : result error ExecutionContext :=
  if String.eqb (spec_RequestID spec) "" then Err (missing "request_id")
  else if String.eqb (spec_CorrelationID spec) "" then Err (missing "correlation_id")
  else if String.eqb (spec_TraceContext spec) "" then Err (missing "trace_context")
  else if spec_Deadline spec <=? 0 then Err (missing "deadline")
  else if String.eqb (spec_Locale spec) "" then Err (missing "locale")
  else if present_empty (spec_CausationID spec) then Err (empty_value "causation_id")
  else if present_empty (spec_Subject spec) then Err (empty_value "authenticated_subject")
  else if present_empty (spec_Tenant spec) then Err (empty_value "tenant_id")
  else match spec_Subject spec, spec_Permissions spec with
  | Some _, None =>
      Err (Wrap "subject resolved without a permission set" ErrContextPermissionsMismatch)
  | None, Some _ =>
      Err (Wrap "permission set without a resolved subject" ErrContextPermissionsMismatch)
  | sub, perms =>
      Ok {| requestID := spec_RequestID spec;
            correlationID := spec_CorrelationID spec;
            causationID := default "" (spec_CausationID spec);
            traceContext := spec_TraceContext spec;
            subject := default "" sub;
            tenant := default "" (spec_Tenant spec);
            permissions := default [] perms;
            deadline := spec_Deadline spec;
            locale := spec_Locale spec;
            hasCausation := bool_decide (is_Some (spec_CausationID spec));
            hasSubject := bool_decide (is_Some sub);
            hasTenant := bool_decide (is_Some (spec_Tenant spec)) |}
  end.

Definition CausationID (ec : ExecutionContext) : option string :=
  if hasCausation ec then Some (causationID ec) else None.
Definition Subject (ec : ExecutionContext) : option SubjectID :=
  if hasSubject ec then Some (subject ec) else None.
Definition Tenant (ec : ExecutionContext) : option TenantID :=
  if hasTenant ec then Some (tenant ec) else None.
Definition Permissions (ec : ExecutionContext) : option (list Permission) :=
  if hasSubject ec then Some (permissions ec) else None.

(** * Outbox ([outbox.go], [message_context.go]) *)
Record MessageContext := mkMessageContext {
  mc_CorrelationID : string;
  mc_CausationID : string;
  mc_Traceparent : string;
  mc_Tracestate : string
}.
Definition zeroMessageContext : MessageContext := mkMessageContext "" "" "" "".
#[global] Instance MessageContext_eq_dec : EqDecision MessageContext.
Proof. solve_decision. Defined.
Definition MessageContext_IsZero (mc : MessageContext) : bool :=
  bool_decide (mc = zeroMessageContext).

Record OutboxEntry (Event : Type) := mkOutboxEntry {
  ent_MessageID : MessageID;
  ent_OccurredAt : Instant;
  ent_Destination : string;
  ent_PartitionKey : string;
  ent_AggregateType : string;
  ent_AggregateID : string;
  ent_AggregateVersion : Version;
  ent_Event : Event;
  ent_Context : MessageContext
}.
Arguments mkOutboxEntry {Event}.
Arguments ent_MessageID {Event}.
Arguments ent_OccurredAt {Event}.
Arguments ent_Destination {Event}.
Arguments ent_PartitionKey {Event}.
Arguments ent_AggregateType {Event}.
Arguments ent_AggregateID {Event}.
Arguments ent_AggregateVersion {Event}.
Arguments ent_Event {Event}.
Arguments ent_Context {Event}.

(** * Instrumentation ([instrumentation.go]) *)
Inductive OutcomeCategory := OutcomeAccepted | OutcomeRejected | OutcomeDenied | OutcomeFailed.
Record Result := mkResult { res_Outcome : OutcomeCategory; res_Err : option error }.

Definition AuthorizationResult (err : error) : Result :=
  if errors_is err ErrDenied then mkResult OutcomeDenied None
  else mkResult OutcomeFailed (Some err).

Record AuditEvent := mkAuditEvent {
  aud_Object : string;
  aud_Action : string;
  aud_Outcome : OutcomeCategory;
  aud_At : Instant
}.

(** * Idempotency key ([idempotency_key.go]) *)
Definition key_char (c : ascii) : bool :=
  either (either (either upper lower) digit)
    (either (is_char "."%char) (either (is_char "_"%char) (is_char "-"%char))) c.
Definition IdempotencyKeyPattern : re := RBetween1 128 (RChar key_char).
Definition ValidIdempotencyKey (key : string) : bool := re_match IdempotencyKeyPattern key.

Inductive IdempotencyOutcome :=
| IdempotencyNone | IdempotencyNew | IdempotencyReplayed | IdempotencyMismatch
| IdempotencyInFlight.
#[global] Instance IdempotencyOutcome_eq_dec : EqDecision IdempotencyOutcome.
Proof. solve_decision. Defined.

Lemma ValidIdempotencyKey_spec key :
  ValidIdempotencyKey key = true <->
  (1 <= String.length key <= 128)%nat /\
  Forall (fun c => key_char c = true) (String.list_ascii_of_string key).
Proof.
  unfold ValidIdempotencyKey, IdempotencyKeyPattern.
  rewrite re_match_lang, lang_between1_char by lia.
  assert (length (String.list_ascii_of_string key) = String.length key) as ->.
  { induction key as [| c k IH]; cbn; congruence. }
  done.
Qed.

Lemma key_char_slash c : key_char c = true -> c <> slash.
Proof. intros H ->. vm_compute in H. done. Qed.

(** * The request-scoped carrier *)

(** What [context.Context] carries: cancellation, and the values the [With…]
    functions deposit.  A slot is a pointer, so the carrier holds its location
    and [Slots] its content. *)
Inductive PlatformReach := ReachUndeclared | ReachAllTenants.
Definition loc := nat.

Record Ctx := mkCtx {
  ctx_Err : option error;                       (* [ctx.Err()] *)
  ctx_Deadline : option Instant;                (* [ctx.Deadline()] *)
  ctx_execution : option ExecutionContext;
  ctx_key : option string;
  ctx_message : option MessageContext;
  ctx_reach : option PlatformReach;
  ctx_idempotency_slot : option loc;
  ctx_class_slot : option loc;
  ctx_conflict_slot : option loc;
  ctx_saturation_slot : option loc
}.
Definition Background : Ctx := mkCtx None None None None None None None None None None.

Definition WithExecutionContext (ctx : Ctx) (ec : ExecutionContext) : Ctx :=
  mkCtx (ctx_Err ctx) (ctx_Deadline ctx) (Some ec) (ctx_key ctx) (ctx_message ctx)
    (ctx_reach ctx) (ctx_idempotency_slot ctx) (ctx_class_slot ctx)
    (ctx_conflict_slot ctx) (ctx_saturation_slot ctx).
Definition ExecutionContextFrom (ctx : Ctx) : option ExecutionContext := ctx_execution ctx.
Definition RequireExecutionContext (ctx : Ctx) : result error ExecutionContext :=
  match ExecutionContextFrom ctx with
  | None => Err ErrContextAbsent
  | Some execution => Ok execution
  end.
Definition SubjectOf (ctx : Ctx) : string :=
  match ExecutionContextFrom ctx with
  | None => ""
  | Some execution => default "" (Subject execution)
  end.
Definition WithIdempotencyKey (ctx : Ctx) (key : string) : Ctx :=
  mkCtx (ctx_Err ctx) (ctx_Deadline ctx) (ctx_execution ctx) (Some key) (ctx_message ctx)
    (ctx_reach ctx) (ctx_idempotency_slot ctx) (ctx_class_slot ctx)
    (ctx_conflict_slot ctx) (ctx_saturation_slot ctx).
Definition IdempotencyKeyFrom (ctx : Ctx) : option string := ctx_key ctx.
Definition WithMessageContext (ctx : Ctx) (mc : MessageContext) : Ctx :=
  mkCtx (ctx_Err ctx) (ctx_Deadline ctx) (ctx_execution ctx) (ctx_key ctx) (Some mc)
    (ctx_reach ctx) (ctx_idempotency_slot ctx) (ctx_class_slot ctx)
    (ctx_conflict_slot ctx) (ctx_saturation_slot ctx).
Definition MessageContextFrom (ctx : Ctx) : option MessageContext := ctx_message ctx.
Definition WithPlatformReach (ctx : Ctx) (reach : PlatformReach) : Ctx :=
  mkCtx (ctx_Err ctx) (ctx_Deadline ctx) (ctx_execution ctx) (ctx_key ctx) (ctx_message ctx)
    (Some reach) (ctx_idempotency_slot ctx) (ctx_class_slot ctx)
    (ctx_conflict_slot ctx) (ctx_saturation_slot ctx).
Definition PlatformReachFrom (ctx : Ctx) : option PlatformReach := ctx_reach ctx.
(** [context.WithoutCancel]: the values stay, the cancellation and the deadline
    do not. *)
Definition WithoutCancel (ctx : Ctx) : Ctx :=
  mkCtx None None (ctx_execution ctx) (ctx_key ctx) (ctx_message ctx) (ctx_reach ctx)
    (ctx_idempotency_slot ctx) (ctx_class_slot ctx) (ctx_conflict_slot ctx)
    (ctx_saturation_slot ctx).

(** ** Slots *)
Record Slots := mkSlots {
  idempotency_cells : gmap loc IdempotencyOutcome;
  class_cells : gmap loc ExternalClass;
  conflict_cells : gmap loc bool;
  saturation_cells : gmap loc bool;
  next_cell : loc
}.
Definition emptySlots : Slots := mkSlots ∅ ∅ ∅ ∅ 0%nat.

Definition WithIdempotencySlot (ctx : Ctx) (s : Slots) : Ctx * Slots :=
  (mkCtx (ctx_Err ctx) (ctx_Deadline ctx) (ctx_execution ctx) (ctx_key ctx) (ctx_message ctx)
     (ctx_reach ctx) (Some (next_cell s)) (ctx_class_slot ctx)
     (ctx_conflict_slot ctx) (ctx_saturation_slot ctx),
   mkSlots (<[next_cell s := IdempotencyNone]> (idempotency_cells s)) (class_cells s)
     (conflict_cells s) (saturation_cells s) (S (next_cell s))).
Definition MarkIdempotency (ctx : Ctx) (outcome : IdempotencyOutcome) (s : Slots) : Slots :=
  match ctx_idempotency_slot ctx with
  | None => s
  | Some l => mkSlots (<[l := outcome]> (idempotency_cells s)) (class_cells s)
                (conflict_cells s) (saturation_cells s) (next_cell s)
  end.
Definition IdempotencyOutcomeFrom (ctx : Ctx) (s : Slots) : IdempotencyOutcome * bool :=
  match ctx_idempotency_slot ctx with
  | None => (IdempotencyNone, false)
  | Some l =>
      let outcome := default IdempotencyNone (idempotency_cells s !! l) in
      (outcome, bool_decide (outcome <> IdempotencyNone))
  end.

Definition WithExternalClassSlot (ctx : Ctx) (s : Slots) : Ctx * Slots :=
  (mkCtx (ctx_Err ctx) (ctx_Deadline ctx) (ctx_execution ctx) (ctx_key ctx) (ctx_message ctx)
     (ctx_reach ctx) (ctx_idempotency_slot ctx) (Some (next_cell s))
     (ctx_conflict_slot ctx) (ctx_saturation_slot ctx),
   mkSlots (idempotency_cells s) (<[next_cell s := ClassNone]> (class_cells s))
     (conflict_cells s) (saturation_cells s) (S (next_cell s))).
Definition MarkExternalClass (ctx : Ctx) (class : ExternalClass) (s : Slots) : Slots :=
  match ctx_class_slot ctx with
  | None => s
  | Some l => mkSlots (idempotency_cells s) (<[l := class]> (class_cells s))
                (conflict_cells s) (saturation_cells s) (next_cell s)
  end.
Definition ExternalClassFrom (ctx : Ctx) (s : Slots) : ExternalClass * bool :=
  match ctx_class_slot ctx with
  | None => (ClassNone, false)
  | Some l =>
      let class := default ClassNone (class_cells s !! l) in
      (class, bool_decide (class <> ClassNone))
  end.

Definition MarkExternalConflict (ctx : Ctx) (s : Slots) : Slots :=
  match ctx_conflict_slot ctx with
  | None => s
  | Some l => mkSlots (idempotency_cells s) (class_cells s)
                (<[l := true]> (conflict_cells s)) (saturation_cells s) (next_cell s)
  end.
Definition ExternalConflictFrom (ctx : Ctx) (s : Slots) : bool :=
  match ctx_conflict_slot ctx with
  | None => false
  | Some l => default false (conflict_cells s !! l)
  end.
Definition MarkExternalSaturation (ctx : Ctx) (s : Slots) : Slots :=
  match ctx_saturation_slot ctx with
  | None => s
  | Some l => mkSlots (idempotency_cells s) (class_cells s) (conflict_cells s)
                (<[l := true]> (saturation_cells s)) (next_cell s)
  end.
Definition ExternalSaturationFrom (ctx : Ctx) (s : Slots) : bool :=
  match ctx_saturation_slot ctx with
  | None => false
  | Some l => default false (saturation_cells s !! l)
  end.

(** an execution context is well formed by construction. What
    [NewExecutionContext] builds has every mandatory field, a positive deadline,
    no empty optional value, and permissions exactly when it has a subject; and
    it gives back the optional values it was built from. Every specification
    that meets those rules is built. *)
Theorem NewExecutionContext_exactly spec :
  let complete :=
    spec_RequestID spec <> ""%string /\ spec_CorrelationID spec <> ""%string /\
    spec_TraceContext spec <> ""%string /\ 0 < spec_Deadline spec /\
    spec_Locale spec <> ""%string /\ spec_CausationID spec <> Some ""%string /\
    spec_Subject spec <> Some ""%string /\ spec_Tenant spec <> Some ""%string /\
    (is_Some (spec_Subject spec) <-> is_Some (spec_Permissions spec)) in
  match NewExecutionContext spec with
  | Ok ec => complete /\ CausationID ec = spec_CausationID spec /\ Subject ec = spec_Subject spec /\
      Tenant ec = spec_Tenant spec /\ Permissions ec = spec_Permissions spec /\
      deadline ec = spec_Deadline spec /\ requestID ec = spec_RequestID spec
  | Err e => ~ complete
  | Panic _ => False
  end.
Proof.
  destruct spec as [rid cid cau tr sub ten perms dl loc_]. unfold NewExecutionContext. cbn.
  destruct (String.eqb_spec rid ""); [tauto |]. destruct (String.eqb_spec cid ""); [tauto |].
  destruct (String.eqb_spec tr ""); [tauto |]. destruct (Z.leb_spec dl 0); [lia |].
  destruct (String.eqb_spec loc_ ""); [tauto |].
  assert (forall v, present_empty v = true <-> v = Some ""%string) as He.
  { intros [v |]; cbn; [rewrite String.eqb_eq |]; split; congruence. }
  destruct (present_empty cau) eqn:E1; [apply He in E1; tauto |].
  destruct (present_empty sub) eqn:E2; [apply He in E2; tauto |].
  destruct (present_empty ten) eqn:E3; [apply He in E3; tauto |].
  assert (forall v, present_empty v = false -> v <> Some ""%string) as Hn
    by (intros v Hv ->; done).
  destruct sub as [sub |], perms as [perms |]; cbn.
  2: { intros (_ & _ & _ & _ & _ & _ & _ & _ & [H1 H2]). by destruct (H1 ltac:(eauto)). }
  2: { intros (_ & _ & _ & _ & _ & _ & _ & _ & [H1 H2]). by destruct (H2 ltac:(eauto)). }
  all: unfold CausationID, Subject, Tenant, Permissions; cbn; destruct cau, ten; cbn;
    repeat split; eauto; try done.
Qed.
