(* ===== verification/Envelope.v ===== *)
(** The message envelope ([contracts/envelope/envelope.go]): the platform's
    profile of a CloudEvent, its validation, the encoding into the generated
    CloudEvent message and back, and [contracts/payloadhash].

    [proto.Marshal] and [proto.Unmarshal] are the [ProtoCodec] parameter: what
    the code relies on is that a proper message is read back as it was
    written. *)

From S2P Require Import Prelude GoStrings DomainKernel Errors Ports.

(** * Separators *)
Definition dot : ascii := "."%char.
Definition slash_char : ascii := "/"%char.

(** * The generated message ([contracts/gen/go/io/cloudevents/v1]) *)

(** [timestamppb.Timestamp]: [Seconds] and [Nanos]. *)
Record Timestamp := mkTimestamp { Seconds : Z; Nanos : Z }.
#[global] Instance Timestamp_eq_dec : EqDecision Timestamp.
Proof. solve_decision. Defined.

(** The [oneof] of an attribute; a pointer to a message may be nil. *)
Inductive AttributeAttr :=
| CeBoolean (b : bool)
| CeInteger (n : Z)
| CeString (s : string)
| CeBytes (bs : bytes)
| CeUri (s : string)
| CeUriRef (s : string)
| CeTimestamp (t : option Timestamp).

(** [CloudEvent_CloudEventAttributeValue]: [None] is [GetAttr() == nil]. *)
Notation AttributeValue := (option AttributeAttr).

Record AnyMessage := mkAny { TypeUrl : string; Value : bytes }.

Inductive EventData :=
| BinaryData (bs : bytes)
| TextData (s : string)
| ProtoData (a : option AnyMessage).

Record CloudEvent := mkCloudEvent {
  ce_Id : string;
  ce_Source : string;
  ce_SpecVersion : string;
  ce_Type : string;
  ce_Attributes : gmap string AttributeValue;
  ce_Data : option EventData
}.

(** * Envelope *)
Definition SpecVersion : string := "1.0".
Definition ContentType : string := "application/protobuf".
Definition typeURLPrefix : string := "type.googleapis.com/".

Definition attrSubject : string := "subject".
Definition attrTime : string := "time".
Definition attrDataSchema : string := "dataschema".
Definition attrDataContentType : string := "datacontenttype".
Definition attrCorrelationID : string := "correlationid".
Definition attrCausationID : string := "causationid".
Definition attrPartitionKey : string := "partitionkey".
Definition attrAggregateVersion : string := "aggregateversion".
Definition attrTenantID : string := "tenantid".
Definition attrTraceParent : string := "traceparent".
Definition attrTraceState : string := "tracestate".

Record Envelope := mkEnvelope {
  env_ID : string;
  env_Source : string;
  env_SpecVersion : string;
  env_Type : string;
  env_Subject : string;
  env_Time : option Timestamp;
  env_DataSchema : string;
  env_DataContentType : string;
  env_CorrelationID : string;
  env_CausationID : string;
  env_PartitionKey : string;
  env_TraceParent : string;
  env_AggregateVersion : option Z;
  env_TenantID : option string;
  env_TraceState : option string;
  env_Payload : bytes
}.

(** ** Errors ([errors.go]) *)
Definition ErrModality : error := Sentinel "envelope: data must be carried as proto_data".
Definition ErrMissingAttribute : error :=
  Sentinel "envelope: required attribute missing or empty".
Definition ErrEmptyConditional : error :=
  Sentinel "envelope: conditional attribute present but empty".
Definition ErrAttributeType : error :=
  Sentinel "envelope: attribute carried with the wrong value type".
Definition ErrSpecVersion : error := Sentinel "envelope: specversion must be 1.0".
Definition ErrContentType : error :=
  Sentinel "envelope: datacontenttype must be application/protobuf".
Definition ErrSchemaMismatch : error :=
  Sentinel "envelope: Any type URL differs from dataschema".
Definition ErrDataSchemaForm : error :=
  Sentinel "envelope: dataschema must be the Any type URL of the payload message".
Definition ErrMajorMismatch : error :=
  Sentinel "envelope: dataschema and type disagree on the contract major".
Definition ErrMalformed : error :=
  Sentinel "envelope: raw bytes do not decode as a CloudEvent".

(** [*AttributeError]: the sentinel, with the attribute it is about. *)
Definition attributeError (err : error) (attribute : string) : error := Wrap attribute err.

(** ** Validation *)
Fixpoint first_empty (required : list (string * string)) : option string :=
  match required with
  | [] => None
  | (name, value) :: rest => if String.eqb value "" then Some name else first_empty rest
  end.

Definition required_attributes (e : Envelope) : list (string * string) :=
  [("id", env_ID e); ("source", env_Source e); ("specversion", env_SpecVersion e);
   ("type", env_Type e); (attrSubject, env_Subject e); (attrDataSchema, env_DataSchema e);
   (attrDataContentType, env_DataContentType e); (attrCorrelationID, env_CorrelationID e);
   (attrCausationID, env_CausationID e); (attrPartitionKey, env_PartitionKey e);
   (attrTraceParent, env_TraceParent e)]%string.

Definition validatePresence (e : Envelope) : result error unit :=
  match first_empty (required_attributes e) with
  | Some name => Err (attributeError ErrMissingAttribute name)
  | None =>
      if bool_decide (env_Time e = None) then Err (attributeError ErrMissingAttribute attrTime)
      else if present_empty (env_TenantID e)
      then Err (attributeError ErrEmptyConditional attrTenantID)
      else if present_empty (env_TraceState e)
      then Err (attributeError ErrEmptyConditional attrTraceState)
      else Ok ()
  end.

(** The package major of the proto name a schema carries. *)
Definition majorOfSchema (dataSchema : string) : string :=
  let fqn := default dataSchema (after_last slash_char dataSchema) in
  let segments := split_on dot fqn in
  if len segments <? 2 then "" else default ""%string (segments !! (length segments - 2)%nat).

(** The trailing major of an envelope type. *)
Definition majorOfType (eventType : string) : string := default "" (after_last dot eventType).

Definition validateProfile (e : Envelope) : result error unit :=
  if negb (String.eqb (env_SpecVersion e) SpecVersion) then Err ErrSpecVersion
  else if negb (String.eqb (env_DataContentType e) ContentType) then Err ErrContentType
  else if negb (String.prefix typeURLPrefix (env_DataSchema e))
          || Nat.eqb (String.length (env_DataSchema e)) (String.length typeURLPrefix)
  then Err ErrDataSchemaForm
  else if String.eqb (majorOfSchema (env_DataSchema e)) ""
          || negb (String.eqb (majorOfSchema (env_DataSchema e)) (majorOfType (env_Type e)))
  then Err ErrMajorMismatch
  else Ok ().

Definition Validate (e : Envelope) : result error unit :=
  _ ← validatePresence e; validateProfile e.

(** ** Encoding *)
Definition ceString (v : string) : AttributeValue := Some (CeString v).

(** An attribute written only when its pointer is set. *)
Definition set_conditional {A} (name : string) (enc : A -> AttributeValue) (v : option A)
    (attrs : gmap string AttributeValue) : gmap string AttributeValue :=
  match v with None => attrs | Some a => <[name := enc a]> attrs end.

Definition encode_attributes (e : Envelope) : gmap string AttributeValue :=
  set_conditional attrTraceState ceString (env_TraceState e)
  (set_conditional attrTenantID ceString (env_TenantID e)
  (set_conditional attrAggregateVersion (fun n => Some (CeInteger n)) (env_AggregateVersion e)
  (<[attrTraceParent := ceString (env_TraceParent e)]>
  (<[attrPartitionKey := ceString (env_PartitionKey e)]>
  (<[attrCausationID := ceString (env_CausationID e)]>
  (<[attrCorrelationID := ceString (env_CorrelationID e)]>
  (<[attrDataContentType := ceString (env_DataContentType e)]>
  (<[attrDataSchema := Some (CeUri (env_DataSchema e))]>
  (<[attrTime := Some (CeTimestamp (env_Time e))]>
  (<[attrSubject := ceString (env_Subject e)]> ∅)))))))))).

Definition Encode (e : Envelope) : result error CloudEvent :=
  _ ← Validate e;
  Ok (mkCloudEvent (env_ID e) (env_Source e) (env_SpecVersion e) (env_Type e)
        (encode_attributes e)
        (Some (ProtoData (Some (mkAny (env_DataSchema e) (env_Payload e)))))).

(** ** Decoding *)
Definition required {A} (get : AttributeAttr -> option A)
    (attrs : gmap string AttributeValue) (name : string) : result error A :=
  match attrs !! name with
  | None => Err (attributeError ErrMissingAttribute name)
  | Some v =>
      match v ≫= get with
      | Some a => Ok a
      | None => Err (attributeError ErrAttributeType name)
      end
  end.
Definition optional {A} (get : AttributeAttr -> option A)
    (attrs : gmap string AttributeValue) (name : string) : result error (option A) :=
  match attrs !! name with
  | None => Ok None
  | Some v =>
      match v ≫= get with
      | Some a => Ok (Some a)
      | None => Err (attributeError ErrAttributeType name)
      end
  end.

Definition as_string (a : AttributeAttr) : option string :=
  match a with CeString s => Some s | _ => None end.
Definition as_uri (a : AttributeAttr) : option string :=
  match a with CeUri s => Some s | _ => None end.
Definition as_timestamp (a : AttributeAttr) : option (option Timestamp) :=
  match a with CeTimestamp t => Some t | _ => None end.
Definition as_integer (a : AttributeAttr) : option Z :=
  match a with CeInteger n => Some n | _ => None end.

Definition requiredString := required as_string.
Definition requiredURI := required as_uri.
Definition requiredTimestamp := required as_timestamp.
Definition optionalString := optional as_string.
Definition optionalInteger := optional as_integer.

(** [Decode] of a non-nil event.  The half-filled envelope that accompanies an
    error is read by no caller. *)
Definition Decode (ce : CloudEvent) : result error Envelope :=
  match ce_Data ce with
  | Some (ProtoData (Some protoData)) =>
      let attrs := ce_Attributes ce in
      subject ← requiredString attrs attrSubject;
      time ← requiredTimestamp attrs attrTime;
      dataSchema ← requiredURI attrs attrDataSchema;
      dataContentType ← requiredString attrs attrDataContentType;
      correlationID ← requiredString attrs attrCorrelationID;
      causationID ← requiredString attrs attrCausationID;
      partitionKey ← requiredString attrs attrPartitionKey;
      traceParent ← requiredString attrs attrTraceParent;
      aggregateVersion ← optionalInteger attrs attrAggregateVersion;
      tenantID ← optionalString attrs attrTenantID;
      traceState ← optionalString attrs attrTraceState;
      let e := mkEnvelope (ce_Id ce) (ce_Source ce) (ce_SpecVersion ce) (ce_Type ce) subject time
        dataSchema dataContentType correlationID causationID partitionKey traceParent
        aggregateVersion tenantID traceState (Value protoData) in
      _ ← validatePresence e;
      if negb (String.eqb (TypeUrl protoData) (env_DataSchema e)) then Err ErrSchemaMismatch
      else _ ← validateProfile e; Ok e
  | _ => Err ErrModality
  end.

(** * On the wire *)

(** A message with no nil pointer inside: what a decoder can rebuild. *)
Definition proper_value (v : AttributeValue) : Prop :=
  match v with None | Some (CeTimestamp None) => False | _ => True end.
Definition proper (ce : CloudEvent) : Prop :=
  map_Forall (fun _ v => proper_value v) (ce_Attributes ce) /\
  ce_Data ce <> Some (ProtoData None).

(** [proto.Marshal] and [proto.Unmarshal] on CloudEvent messages. *)
Class ProtoCodec := {
  proto_Marshal : CloudEvent -> result error bytes;
  proto_Unmarshal : bytes -> result error CloudEvent
}.
Class ProtoCodecLaws (C : ProtoCodec) : Prop := {
  unmarshal_marshal : forall ce bs,
    proper ce -> proto_Marshal ce = Ok bs -> proto_Unmarshal bs = Ok ce
}.

Section Wire.
Context {C : ProtoCodec}.

Definition Marshal (e : Envelope) : result error bytes := ce ← Encode e; proto_Marshal ce.
Definition Unmarshal (raw : bytes) : result error Envelope :=
  match proto_Unmarshal raw with
  | Err cause => Err (Join "envelope" [ErrMalformed; cause])
  | Panic p => Panic p
  | Ok ce => Decode ce
  end.
End Wire.

(** [Unpack] into a message type of the given name and generated decoder. *)
Definition Unpack {T} (full_name : string) (proto_unmarshal : bytes -> result error T) (e : Envelope)
  : result error T :=
  let want := (typeURLPrefix ++ full_name)%string in
  if negb (String.eqb (env_DataSchema e) want) then Err (Wrap "unpack" ErrSchemaMismatch)
  else match proto_unmarshal (env_Payload e) with
  | Err cause => Err (Join "unpack" [ErrMalformed; cause])
  | r => r
  end.

(** * Payload hash ([payloadhash.go])

    [sha256.Sum256] is the parameter; [hex.EncodeToString] is the standard
    library's. *)
Definition hex_digit (n : Z) : ascii :=
  default "0"%char (list_ascii_of_string "0123456789abcdef" !! Z.to_nat n).
Fixpoint EncodeToString (src : bytes) : string :=
  match src with
  | [] => ""
  | b :: src' => String (hex_digit (b / 16)) (String (hex_digit (b mod 16)) (EncodeToString src'))
  end.
Definition Sum (sha256 : bytes -> bytes) (anyValue : bytes) : string :=
  EncodeToString (sha256 anyValue).

(** * Correctness *)

(** Looking one attribute up in an encoded map. *)
Ltac simpl_attr :=
  repeat (rewrite lookup_insert_eq || rewrite lookup_insert_ne by discriminate);
  rewrite ?lookup_empty; reflexivity.
Ltac solve_attr :=
  unfold encode_attributes, set_conditional;
  repeat case_match; simplify_eq; simpl_attr.

Lemma required_at {A} (get : AttributeAttr -> option A) attrs name a (x : AttributeAttr) :
  attrs !! name = Some (Some x) -> get x = Some a -> required get attrs name = Ok a.
Proof. unfold required. intros -> Hg. cbn. by rewrite Hg. Qed.

Lemma optional_at {A} (get : AttributeAttr -> option A) enc attrs name (v : option A) :
  attrs !! name = enc <$> v -> (forall a, enc a ≫= get = Some a) ->
  optional get attrs name = Ok v.
Proof. unfold optional. intros -> Hg. destruct v as [a |]; cbn; [by rewrite Hg | done]. Qed.

(** Reading back what was found: the attribute has the one right type. *)
Lemma required_inv {A} (get : AttributeAttr -> option A) attrs name a :
  required get attrs name = Ok a -> exists x, attrs !! name = Some (Some x) /\ get x = Some a.
Proof.
  unfold required. destruct (attrs !! name) as [[x |] |]; cbn; [| done ..].
  destruct (get x) eqn:Hx; [intros [= <-]; eauto | done].
Qed.

Lemma optional_inv {A} (get : AttributeAttr -> option A) attrs name (v : option A) :
  optional get attrs name = Ok v ->
  match v with
  | None => attrs !! name = None
  | Some a => exists x, attrs !! name = Some (Some x) /\ get x = Some a
  end.
Proof.
  unfold optional. destruct (attrs !! name) as [[x |] |]; cbn; [| done | by intros [= <-]].
  destruct (get x) eqn:Hx; [intros [= <-]; eauto | done].
Qed.

Lemma validate_split e :
  Validate e = Ok () <-> validatePresence e = Ok () /\ validateProfile e = Ok ().
Proof.
  unfold Validate, mbind, result_bind. destruct (validatePresence e) as [[] | |]; naive_solver.
Qed.

Lemma result_bind_Ok {E A B} (m : result E A) (f : A -> result E B) a :
  m = Ok a -> (m ≫= f) = f a.
Proof. by intros ->. Qed.

Lemma result_bind_inv {E A B} (m : result E A) (f : A -> result E B) b :
  (m ≫= f) = Ok b -> exists a, m = Ok a /\ f a = Ok b.
Proof. unfold mbind, result_bind. destruct m; [eauto | done ..]. Qed.

Lemma Decode_Encode e ce : Encode e = Ok ce -> Decode ce = Ok e.
Proof.
  unfold Encode. intros [[] [HV [= <-]]]%result_bind_inv.
  apply validate_split in HV as [HP HF].
  unfold Decode, requiredString, requiredTimestamp, requiredURI, optionalInteger, optionalString.
  cbn [ce_Data ce_Attributes ce_Id ce_Source ce_SpecVersion ce_Type].
  do 8 (erewrite result_bind_Ok by (eapply required_at; [solve_attr | reflexivity])).
  erewrite result_bind_Ok by
    (apply (optional_at _ (fun n => Some (CeInteger n)) _ _ (env_AggregateVersion e));
     [solve_attr | reflexivity]).
  erewrite result_bind_Ok by
    (apply (optional_at _ ceString _ _ (env_TenantID e)); [solve_attr | reflexivity]).
  erewrite result_bind_Ok by
    (apply (optional_at _ ceString _ _ (env_TraceState e)); [solve_attr | reflexivity]).
  destruct e. cbn [env_Subject env_Time env_DataSchema env_DataContentType env_CorrelationID
    env_CausationID env_PartitionKey env_TraceParent env_AggregateVersion env_TenantID
    env_TraceState env_ID env_Source env_SpecVersion env_Type env_Payload Value TypeUrl] in *.
  rewrite (result_bind_Ok _ _ () HP). rewrite String.eqb_refl. cbn [negb].
  by rewrite (result_bind_Ok _ _ () HF).
Qed.

(** The attributes the profile knows; an event may carry others beside them. *)
Definition profile_attributes : list string :=
  [attrSubject; attrTime; attrDataSchema; attrDataContentType; attrCorrelationID;
   attrCausationID; attrPartitionKey; attrTraceParent; attrAggregateVersion; attrTenantID;
   attrTraceState].

(** Two events that differ at most in attributes outside the profile. *)
Record same_profile (a b : CloudEvent) : Prop := {
  same_Id : ce_Id a = ce_Id b;
  same_Source : ce_Source a = ce_Source b;
  same_SpecVersion : ce_SpecVersion a = ce_SpecVersion b;
  same_Type : ce_Type a = ce_Type b;
  same_Data : ce_Data a = ce_Data b;
  same_attributes : Forall (fun n => ce_Attributes a !! n = ce_Attributes b !! n)
                      profile_attributes
}.

Lemma required_ext {A} (get : AttributeAttr -> option A) m1 m2 name :
  m1 !! name = m2 !! name -> required get m1 name = required get m2 name.
Proof. unfold required. by intros ->. Qed.
Lemma optional_ext {A} (get : AttributeAttr -> option A) m1 m2 name :
  m1 !! name = m2 !! name -> optional get m1 name = optional get m2 name.
Proof. unfold optional. by intros ->. Qed.

Lemma Decode_same_profile a b : same_profile a b -> Decode a = Decode b.
Proof.
  intros [Hi Hs Hv Ht Hd Ha]. unfold profile_attributes in Ha. decompose_Forall_hyps.
  unfold Decode. cbv zeta. rewrite Hd, Hi, Hs, Hv, Ht.
  unfold requiredString, requiredTimestamp, requiredURI, optionalInteger, optionalString.
  repeat match goal with
  | H : _ !! _ = _ |- _ =>
      rewrite ?(required_ext _ _ _ _ H), ?(optional_ext _ _ _ _ H); clear H
  end.
  reflexivity.
Qed.

(** The typed reads of an attribute are exact. *)
Lemma as_string_inv x s : as_string x = Some s -> x = CeString s.
Proof. destruct x; naive_solver. Qed.
Lemma as_uri_inv x s : as_uri x = Some s -> x = CeUri s.
Proof. destruct x; naive_solver. Qed.
Lemma as_timestamp_inv x t : as_timestamp x = Some t -> x = CeTimestamp t.
Proof. destruct x; naive_solver. Qed.
Lemma as_integer_inv x n : as_integer x = Some n -> x = CeInteger n.
Proof. destruct x; naive_solver. Qed.

Lemma requiredString_inv attrs name s :
  requiredString attrs name = Ok s -> attrs !! name = Some (ceString s).
Proof. by intros (x & -> & ->%as_string_inv)%required_inv. Qed.
Lemma optionalString_inv attrs name v :
  optionalString attrs name = Ok v -> attrs !! name = ceString <$> v.
Proof. intros Hv%optional_inv. destruct v; [by destruct Hv as (x & -> & ->%as_string_inv) | done]. Qed.

Lemma Decode_inv ce e :
  Decode ce = Ok e ->
  Validate e = Ok () /\
  same_profile
    (mkCloudEvent (env_ID e) (env_Source e) (env_SpecVersion e) (env_Type e)
       (encode_attributes e) (Some (ProtoData (Some (mkAny (env_DataSchema e) (env_Payload e))))))
    ce.
Proof.
  unfold Decode. destruct (ce_Data ce) as [[| | [data |]] |] eqn:Hd; [done | done | | done | done].
  intros (subject & Hsub%requiredString_inv & HD)%result_bind_inv.
  apply result_bind_inv in HD as (t & (x1 & Ht & ->%as_timestamp_inv)%required_inv & HD).
  apply result_bind_inv in HD as (sc & (x2 & Hsc & ->%as_uri_inv)%required_inv & HD).
  apply result_bind_inv in HD as (ct & Hct%requiredString_inv & HD).
  apply result_bind_inv in HD as (cor & Hcor%requiredString_inv & HD).
  apply result_bind_inv in HD as (cau & Hcau%requiredString_inv & HD).
  apply result_bind_inv in HD as (pk & Hpk%requiredString_inv & HD).
  apply result_bind_inv in HD as (tp & Htp%requiredString_inv & HD).
  apply result_bind_inv in HD as (ver & Hver%optional_inv & HD).
  apply result_bind_inv in HD as (ten & Hten%optionalString_inv & HD).
  apply result_bind_inv in HD as (ts & Hts%optionalString_inv & HD).
  apply result_bind_inv in HD as ([] & HP & HD).
  cbn [env_DataSchema] in HD.
  destruct (String.eqb_spec (TypeUrl data) sc) as [Hu | Hu]; cbn [negb] in HD; [| done].
  apply result_bind_inv in HD as ([] & HF & [= <-]).
  assert (ce_Attributes ce !! attrAggregateVersion = (fun n => Some (CeInteger n)) <$> ver) as Hv.
  { destruct ver as [n |]; [by destruct Hver as (x & -> & ->%as_integer_inv) | done]. }
  split; [by apply validate_split |].
  split; cbn [ce_Id ce_Source ce_SpecVersion ce_Type ce_Data ce_Attributes]; try reflexivity.
  - rewrite Hd. cbn. subst sc. by destruct data.
  - clear Hver HP HF. unfold profile_attributes, encode_attributes, set_conditional.
    cbn [env_Subject env_Time env_DataSchema env_DataContentType env_CorrelationID
      env_CausationID env_PartitionKey env_TraceParent env_AggregateVersion env_TenantID
      env_TraceState].
    destruct ver, ten, ts; repeat apply Forall_cons_2; try apply Forall_nil_2;
      rewrite ?Hsub, ?Ht, ?Hsc, ?Hct, ?Hcor, ?Hcau, ?Hpk, ?Htp, ?Hv, ?Hten, ?Hts;
      clear; simpl_attr.
Qed.

Lemma Encode_proper e ce : Encode e = Ok ce -> proper ce.
Proof.
  unfold Encode. intros [[] [HV [= <-]]]%result_bind_inv.
  assert (exists t, env_Time e = Some t) as [t Ht].
  { apply validate_split in HV as [HP _]. unfold validatePresence in HP.
    destruct (first_empty _); [done |]. case_bool_decide; [done |].
    destruct (env_Time e); [eauto | done]. }
  split; [| done]. cbn [ce_Attributes]. unfold encode_attributes, set_conditional. rewrite Ht.
  repeat case_match; repeat (apply map_Forall_insert_2; [exact I |]); apply map_Forall_empty.
Qed.

(** C37: Decoding is exact: an event is taken for the envelope [e] if and only if
    [e] is valid and the event is what [e] encodes to, give or take attributes
    outside the profile.  In particular the payload is handed over as carried. *)
Theorem Decode_exactly ce e :
  Decode ce = Ok e <-> exists ce', Encode e = Ok ce' /\ same_profile ce' ce.
Proof.
  split.
  - intros [HV Hp]%Decode_inv. eexists. split; [| exact Hp].
    unfold Encode. by rewrite HV.
  - intros (ce' & HE & Hp). rewrite <- (Decode_same_profile _ _ Hp). by apply Decode_Encode.
Qed.

(** What a publisher serializes, a consumer reads back as it was: the fifteen
    attributes and the payload bytes. *)
Theorem Unmarshal_Marshal {C : ProtoCodec} `{!ProtoCodecLaws C} e raw :
  Marshal e = Ok raw -> Unmarshal raw = Ok e.
Proof.
  unfold Marshal, Unmarshal. intros (ce & HE & HM)%result_bind_inv.
  rewrite (unmarshal_marshal ce raw (Encode_proper _ _ HE) HM). by apply Decode_Encode.
Qed.

(** * A codec

    A concrete codec that satisfies the law, for the witnesses: the binary
    digits of a number that stands for the message. *)
#[global] Instance Timestamp_countable : Countable Timestamp.
Proof.
  apply (inj_countable' (fun t => (Seconds t, Nanos t)) (fun p => mkTimestamp p.1 p.2)).
  by intros [].
Defined.
#[global] Instance AttributeAttr_eq_dec : EqDecision AttributeAttr.
Proof. solve_decision. Defined.
#[global] Instance AttributeAttr_countable : Countable AttributeAttr.
Proof.
  apply (inj_countable'
    (fun a => match a with
       | CeBoolean b => inl (inl (inl b)) | CeInteger n => inl (inl (inr n))
       | CeString s => inl (inr (inl s)) | CeBytes bs => inl (inr (inr bs))
       | CeUri s => inr (inl (inl s)) | CeUriRef s => inr (inl (inr s))
       | CeTimestamp t => inr (inr t) end)
    (fun a => match a with
       | inl (inl (inl b)) => CeBoolean b | inl (inl (inr n)) => CeInteger n
       | inl (inr (inl s)) => CeString s | inl (inr (inr bs)) => CeBytes bs
       | inr (inl (inl s)) => CeUri s | inr (inl (inr s)) => CeUriRef s
       | inr (inr t) => CeTimestamp t end)).
  by intros [].
Defined.
#[global] Instance AnyMessage_eq_dec : EqDecision AnyMessage.
Proof. solve_decision. Defined.
#[global] Instance AnyMessage_countable : Countable AnyMessage.
Proof.
  apply (inj_countable' (fun a => (TypeUrl a, Value a)) (fun p => mkAny p.1 p.2)). by intros [].
Defined.
#[global] Instance EventData_eq_dec : EqDecision EventData.
Proof. solve_decision. Defined.
#[global] Instance EventData_countable : Countable EventData.
Proof.
  apply (inj_countable'
    (fun d => match d with BinaryData b => inl b | TextData s => inr (inl s)
              | ProtoData a => inr (inr a) end)
    (fun d => match d with inl b => BinaryData b | inr (inl s) => TextData s
              | inr (inr a) => ProtoData a end)).
  by intros [].
Defined.
#[global] Instance CloudEvent_eq_dec : EqDecision CloudEvent.
Proof. solve_decision. Defined.
#[global] Instance CloudEvent_countable : Countable CloudEvent.
Proof.
  apply (inj_countable'
    (fun c => (ce_Id c, ce_Source c, ce_SpecVersion c, ce_Type c, ce_Attributes c, ce_Data c))
    (fun '(i, s, v, t, a, d) => mkCloudEvent i s v t a d)).
  by intros [].
Defined.

Fixpoint digits (p : positive) : bytes :=
  match p with xH => [] | xO p' => 0 :: digits p' | xI p' => 1 :: digits p' end.
Fixpoint of_digits (bs : bytes) : positive :=
  match bs with [] => xH | b :: bs' => if b =? 0 then xO (of_digits bs') else xI (of_digits bs') end.
Lemma of_digits_digits p : of_digits (digits p) = p.
Proof. induction p as [p IH | p IH |]; cbn; by rewrite ?IH. Qed.

Definition reference_codec : ProtoCodec := {|
  proto_Marshal ce := Ok (digits (encode ce));
  proto_Unmarshal raw :=
    match decode (of_digits raw) with Some ce => Ok ce | None => Err (Opaque "proto") end
|}.
#[global] Instance reference_codec_laws : ProtoCodecLaws reference_codec.
Proof.
  split. intros ce raw _ [= <-]. cbn. by rewrite of_digits_digits, decode_encode.
Qed.

Definition sample_envelope : Envelope := {|
  env_ID := "m-1"; env_Source := "/orders"; env_SpecVersion := "1.0";
  env_Type := "com.company.orders.order-placed.v1"; env_Subject := "order-1";
  env_Time := Some (mkTimestamp 1 0);
  env_DataSchema := "type.googleapis.com/company.orders.event.v1.OrderPlaced";
  env_DataContentType := "application/protobuf"; env_CorrelationID := "c-1";
  env_CausationID := "c-0"; env_PartitionKey := "order-1";
  env_TraceParent := "00-0af7651916cd43dd8448eb211c80319c-b7ad6b7169203331-01";
  env_AggregateVersion := Some 3; env_TenantID := Some "acme"; env_TraceState := None;
  env_Payload := [10; 7]
|}%string.

Definition sample_event : CloudEvent :=
  mkCloudEvent "m-1" "/orders" "1.0" "com.company.orders.order-placed.v1"
    (encode_attributes sample_envelope)
    (Some (ProtoData (Some (mkAny "type.googleapis.com/company.orders.event.v1.OrderPlaced"
                              [10; 7])))).

(** An event of another major, or with an attribute of the wrong type, is refused. *)
Example sample_round : Decode sample_event = Ok sample_envelope.
Proof. vm_compute. reflexivity. Qed.
Example sample_extension :
  Decode (mkCloudEvent "m-1" "/orders" "1.0" "com.company.orders.order-placed.v1"
    (<["extra"%string := Some (CeBoolean true)]> (encode_attributes sample_envelope))
    (ce_Data sample_event)) = Ok sample_envelope.
Proof. vm_compute. reflexivity. Qed.
Example sample_untyped :
  Decode (mkCloudEvent "m-1" "/orders" "1.0" "com.company.orders.order-placed.v1"
    (<[attrTenantID := Some (CeUri "acme")]> (encode_attributes sample_envelope))
    (ce_Data sample_event)) = Err (attributeError ErrAttributeType attrTenantID).
Proof. vm_compute. reflexivity. Qed.
Example sample_major :
  Decode (mkCloudEvent "m-1" "/orders" "1.0" "com.company.orders.order-placed.v2"
    (encode_attributes sample_envelope) (ce_Data sample_event)) = Err ErrMajorMismatch.
Proof. vm_compute. reflexivity. Qed.

Lemma Unmarshal_Marshal_witness :
  Unmarshal (C := reference_codec) (digits (encode sample_event)) = Ok sample_envelope.
Proof.
  apply (Unmarshal_Marshal (C := reference_codec) sample_envelope).
  unfold Marshal.
  replace (Encode sample_envelope) with (@Ok error _ sample_event) by (vm_compute; reflexivity).
  reflexivity.
Defined.
