(* ===== verification/Consumer.v ===== *)
(** The consumer adapter ([app/consumer.go], [containment.go], [discard.go],
    [attempt.go], the recovering gestures of [process.go], [sink.go]): one
    delivery is unwrapped, handed to the application's handler under its own
    context, and confirmed, released or quarantined afterwards.

    A collaborator may panic, and the code recovers from it at three places, so
    a call's answer says whether it returned.  Spans, metrics and logs are not
    modelled; the trace context the process span injects is a parameter. *)

From S2P Require Import Prelude DomainKernel Errors Ports Envelope.

(** * Collaborators *)

(** How a call that may panic ends. *)
Inductive call (A : Type) := Returned (a : A) | Raised.
Arguments Returned {A} a.
Arguments Raised {A}.

(** [containment.go] of the ports. *)
Inductive Reason :=
| ReasonInvalidEnvelope | ReasonTerminalFailure | ReasonCollision | ReasonAttemptsExhausted
| ReasonUntrustedBoundary | ReasonUndeclaredType | ReasonOther (text : string).
#[global] Instance Reason_eq_dec : EqDecision Reason.
Proof. solve_decision. Defined.

Record Contained := mkContained {
  con_Consumer : string;
  con_MessageID : MessageID;
  con_Reason : Reason;
  con_Envelope : bytes;
  con_Error : string;
  con_At : Instant
}.

(** [attempt.go]: what the adapter mints for one processing attempt. *)
Record Attempt := mkAttempt { at_RequestID : string; at_Number : Z }.

Section Collaborators.
Context {W : Type}.

(** An operation that returns an error, nil being [None]. *)
Definition gesture := W -> call (option error) * W.

Record Acknowledger := mkAcknowledger { Ack : Ctx -> gesture; Release : Ctx -> gesture }.
Record Containment := mkContainment { Quarantine : Ctx -> Contained -> gesture }.

(** [Handler]; the attempt is the value [WithAttempt] deposits in its context. *)
Definition Handler :=
  Ctx -> Attempt -> Receipt -> Envelope -> W -> call (Disposition * option error) * W.

(** What the adapter takes from the process: the consumer's clock, the wall clock
    of [context.WithTimeout], the random identifiers of [newAttemptID], and the
    trace context of the process span. *)
Record Environment := mkEnvironment {
  ev_Now : W -> Instant * W;
  ev_Wall : W -> Instant * W;
  ev_NewAttemptID : W -> string * W;
  ev_Inject : Ctx -> string * string
}.
End Collaborators.
Arguments Acknowledger : clear implicits.
Arguments Containment : clear implicits.
Arguments Handler : clear implicits.
Arguments Environment : clear implicits.

(** * Consumer *)
Inductive Transport := TransportVerified | TransportDevelopmentOnly | TransportOther (text : string).

Record Boundary := mkBoundary { bo_Transport : Transport; bo_Sources : list string }.

Definition member_of (x : string) (l : list string) : bool := bool_decide (x ∈ l).

Definition declared (b : Boundary) : bool :=
  match bo_Transport b with
  | TransportVerified | TransportDevelopmentOnly => 0 <? len (bo_Sources b)
  | TransportOther _ => false
  end.
Definition admits (b : Boundary) (source : string) : bool := member_of source (bo_Sources b).

Record Channel := mkChannel { ch_Address : string; ch_Group : string; ch_Carries : list string }.

Record Consumer (W : Type) := mkConsumer {
  k_Name : string;
  k_MaxAttempts : Z;
  k_Handle : Handler W;
  k_Accepts : list string;
  k_Containment : Containment W;
  k_Timeout : Z;
  k_Boundary : Boundary;
  k_Locale : string;
  k_Channel : Channel
}.
Arguments mkConsumer {W}.
Arguments k_Name {W}.
Arguments k_MaxAttempts {W}.
Arguments k_Handle {W}.
Arguments k_Accepts {W}.
Arguments k_Containment {W}.
Arguments k_Timeout {W}.
Arguments k_Boundary {W}.
Arguments k_Locale {W}.
Arguments k_Channel {W}.

Record Delivery := mkDelivery { d_Raw : bytes; d_Attempt : Z }.

Record Outcome := mkOutcome {
  oc_Disposition : Disposition;
  oc_Classified : bool;
  oc_Contained : bool;
  oc_Discarded : bool;
  oc_Reason : option Reason                     (* [None]: the empty string *)
}.
Definition zeroOutcome : Outcome := mkOutcome DispositionNone false false false None.

(** ** Errors *)
Definition ErrIncompleteConsumer : error := Sentinel "app.ErrIncompleteConsumer".
Definition ErrSubscriptionOutsideChannel : error := Sentinel "app.ErrSubscriptionOutsideChannel".
Definition ErrUnknownDisposition : error := Sentinel "app.ErrUnknownDisposition".
Definition ErrUnsupportedMechanism : error := Sentinel "app.ErrUnsupportedMechanism".

(** The failure the variable [errPanicked] holds: its identity is the name. *)
Definition errPanicked_id : error := Sentinel "app.errPanicked".
Definition errPanicked : error := NewFailure Unexpected false (Some errPanicked_id).
(** [panicked{error: errPanicked}], and the one the handler's recovery builds. *)
Definition gesture_panicked : error := Wrap "panicked" errPanicked.
Definition handler_panicked : error := Wrap "panicked" (NewFailure Unexpected false None).

(** [errors.Join]. *)
Definition errors_join (errs : list (option error)) : option error :=
  match omap id errs with [] => None | es => Some (Join "" es) end.

Definition is_panicked (err : option error) : bool :=
  match err with Some e => errors_is e errPanicked_id | None => false end.
Definition joinPanicFirst (cause err : option error) : option error :=
  if is_panicked err then errors_join [err; cause] else errors_join [cause; err].

(** ** Validation *)
Definition missing_declaration {W} (c : Consumer W) : string :=
  if String.eqb (k_Name c) "" then "name"
  else if k_Timeout c <=? 0 then "timeout"
  else if negb (declared (k_Boundary c)) then "boundary"
  else if String.eqb (k_Locale c) "" then "locale"
  else if len (k_Accepts c) =? 0 then "accepts"
  else if len (ch_Carries (k_Channel c)) =? 0 then "carries"
  else "".

(** The loop over [Accepts]; [before] is [c.Accepts[:i]]. *)
Fixpoint check_accepts (carries before accepts : list string) : result error unit :=
  match accepts with
  | [] => Ok ()
  | accepted :: rest =>
      if negb (member_of accepted carries) || member_of accepted before
      then Err (Wrap accepted ErrSubscriptionOutsideChannel)
      else check_accepts carries (before ++ [accepted]) rest
  end.

Definition Consumer_Validate {W} (c : Consumer W) : result error unit :=
  let missing := missing_declaration c in
  if negb (String.eqb missing "") then Err (Wrap missing ErrIncompleteConsumer)
  else check_accepts (ch_Carries (k_Channel c)) [] (k_Accepts c).

(** ** Containment *)
Inductive Mechanism := MechanismQuarantine | MechanismDeadLetter.
#[global] Instance Mechanism_eq_dec : EqDecision Mechanism.
Proof. solve_decision. Defined.
Definition MechanismFor (reason : Reason) : option Mechanism :=
  match reason with
  | ReasonInvalidEnvelope | ReasonTerminalFailure | ReasonCollision | ReasonAttemptsExhausted
  | ReasonUntrustedBoundary | ReasonUndeclaredType => Some MechanismQuarantine
  | ReasonOther _ => None
  end.

(** [sanitizedEnvelopeError]: the text of the envelope package's own errors, whose
    sentinels are named by their messages. *)
Definition envelope_text (err : error) : string :=
  match err with
  | Sentinel message => message
  | Wrap attribute (Sentinel message) => message ++ ": " ++ attribute
  | _ => ""
  end.
Definition sanitizedEnvelopeError (err : error) : string :=
  if errors_is err ErrMalformed then envelope_text ErrMalformed else envelope_text err.

Definition Disposition_String (d : Disposition) : string :=
  match d with
  | R1D1 => "R1×D1" | R1D2 => "R1×D2" | R1D3 => "R1×D3" | R1D4 => "R1×D4"
  | R2 => "R2" | R3 => "R3" | R4 => "R4" | DispositionNone => "invalid"
  end.
Definition sanitizedError (disposition : Disposition) (cause : option error) : string :=
  match cause ≫= as_failure with
  | Some (category, _) => category_string category
  | None => Disposition_String disposition
  end.

(** * Consumption *)
Section Consume.
Context {W : Type} `{C : ProtoCodec} (sha256 : bytes -> bytes) (env_ : Environment W).

(** A gesture under [recoverInto]. *)
Definition recovered (g : gesture) (w : W) : option error * W :=
  match g w with
  | (Returned err, w') => (err, w')
  | (Raised, w') => (Some gesture_panicked, w')
  end.

Definition contain (c : Consumer W) (ctx : Ctx) (ack : Acknowledger W) (outcome : Outcome)
    (item : Contained) (cause : option error) (w : W) : (Outcome * option error) * W :=
  match MechanismFor (con_Reason item) with
  | Some MechanismQuarantine =>
      let '(err, w1) := recovered (Quarantine (k_Containment c) ctx item) w in
      match err with
      | Some _ => ((outcome, joinPanicFirst cause err), w1)
      | None =>
          let outcome := mkOutcome (oc_Disposition outcome) (oc_Classified outcome) true
                           (oc_Discarded outcome) (oc_Reason outcome) in
          let '(acked, w2) := recovered (Ack ack ctx) w1 in
          ((outcome, joinPanicFirst cause acked), w2)
      end
  | _ => ((outcome, errors_join [cause; Some ErrUnsupportedMechanism]), w)
  end.

Definition reason_outcome (reason : Reason) : Outcome :=
  mkOutcome DispositionNone false false false (Some reason).
Definition withReason (outcome : Outcome) (reason : Reason) : Outcome :=
  mkOutcome (oc_Disposition outcome) (oc_Classified outcome) (oc_Contained outcome)
    (oc_Discarded outcome) (Some reason).

Definition contained (c : Consumer W) (receipt : Receipt) (raw : bytes) (reason : Reason)
    (disposition : Disposition) (cause : option error) : Contained :=
  mkContained (k_Name c) (rcp_MessageID receipt) reason raw (sanitizedError disposition cause)
    (rcp_ReceivedAt receipt).

Definition refuse (c : Consumer W) (ctx : Ctx) (d : Delivery) (env : Envelope)
    (ack : Acknowledger W) (reason : Reason) (cause : string) (w : W)
  : (Outcome * option error) * W :=
  let '(now, w1) := ev_Now env_ w in
  contain c ctx ack (reason_outcome reason)
    (mkContained (k_Name c) (env_ID env) reason (d_Raw d) cause now) None w1.

Definition discard (ctx : Ctx) (ack : Acknowledger W) (w : W) : (Outcome * option error) * W :=
  match recovered (Ack ack ctx) w with
  | (Some err, w1) => ((zeroOutcome, Some err), w1)
  | (None, w1) => ((mkOutcome DispositionNone false false true None, None), w1)
  end.

(** [handle]: a panic of the handler is a failure of no category but Unexpected. *)
Definition handle (c : Consumer W) (ctx : Ctx) (attempt : Attempt) (receipt : Receipt)
    (env : Envelope) (w : W) : (Disposition * option error) * W :=
  match k_Handle c ctx attempt receipt env w with
  | (Returned answer, w') => (answer, w')
  | (Raised, w') => ((Classify handler_panicked, Some handler_panicked), w')
  end.

(** [context.WithTimeout]: the earlier of the parent's deadline and the wall
    clock's plus the timeout. *)
Definition WithTimeout (ctx : Ctx) (timeout : Z) (w : W) : Ctx * W :=
  let '(now, w') := ev_Wall env_ w in
  let mine := now +! timeout in
  let deadline := match ctx_Deadline ctx with None => mine | Some d => Z.min d mine end in
  (mkCtx (ctx_Err ctx) (Some deadline) (ctx_execution ctx) (ctx_key ctx) (ctx_message ctx)
     (ctx_reach ctx) (ctx_idempotency_slot ctx) (ctx_class_slot ctx) (ctx_conflict_slot ctx)
     (ctx_saturation_slot ctx), w').

Definition executionOf (c : Consumer W) (ctx : Ctx) (env : Envelope) (attempt : Attempt)
  : result error ExecutionContext :=
  NewExecutionContext {|
    spec_RequestID := at_RequestID attempt;
    spec_CorrelationID := env_CorrelationID env;
    spec_CausationID := if String.eqb (env_CausationID env) "" then None
                        else Some (env_CausationID env);
    spec_TraceContext := env_TraceParent env;
    spec_Subject := None;
    spec_Tenant := env_TenantID env;
    spec_Permissions := None;
    spec_Deadline := default 0 (ctx_Deadline ctx);
    spec_Locale := k_Locale c |}.

Definition admitted (c : Consumer W) (ctx : Ctx) (d : Delivery) (env : Envelope)
    (attempt : Attempt) (ack : Acknowledger W) (w : W) : (Outcome * option error) * W :=
  let '(now, w1) := ev_Now env_ w in
  let receipt := mkReceipt (k_Name c) (env_ID env) (env_Type env)
                   (Sum sha256 (env_Payload env)) now 0 0 in
  let '(traceparent, tracestate) := ev_Inject env_ ctx in
  let ctx := WithMessageContext ctx
               (mkMessageContext (env_CorrelationID env) (env_ID env) traceparent tracestate) in
  let '(handleCtx, w2) := WithTimeout ctx (k_Timeout c) w1 in
  match executionOf c handleCtx env attempt with
  | Ok execution =>
      let '((disposition, handleErr), w3) :=
        handle c (WithExecutionContext handleCtx execution) attempt receipt env w2 in
      let outcome := mkOutcome disposition true false false None in
      let quarantine reason :=
        contain c ctx ack (withReason outcome reason)
          (contained c receipt (d_Raw d) reason disposition handleErr) handleErr w3 in
      match disposition with
      | R1D1 | R1D2 | R2 | R3 =>
          let '(err, w4) := recovered (Ack ack ctx) w3 in
          ((outcome, joinPanicFirst handleErr err), w4)
      | R1D3 =>
          if (0 <? k_MaxAttempts c) && (k_MaxAttempts c <=? d_Attempt d)
          then quarantine ReasonAttemptsExhausted
          else
            let '(err, w4) := recovered (Release ack ctx) w3 in
            ((outcome, joinPanicFirst handleErr err), w4)
      | R1D4 => quarantine ReasonTerminalFailure
      | R4 => quarantine ReasonCollision
      | DispositionNone =>
          ((zeroOutcome, errors_join [handleErr; Some ErrUnknownDisposition]), w3)
      end
  | _ =>
      contain c ctx ack (reason_outcome ReasonInvalidEnvelope)
        (mkContained (k_Name c) (rcp_MessageID receipt) ReasonInvalidEnvelope (d_Raw d)
           "app: the envelope produced no execution context" (rcp_ReceivedAt receipt))
        None w2
  end.

(** A panic of the decoder is the one no recovery is there for. *)
Definition returned {A} (r : A * W) : call A * W := (Returned r.1, r.2).
Definition Consume (c : Consumer W) (ctx : Ctx) (d : Delivery) (ack : Acknowledger W) (w : W)
  : call (Outcome * option error) * W :=
  match Consumer_Validate c with
  | Err err => returned ((zeroOutcome, Some err), w)
  | _ =>
      match Unmarshal (d_Raw d) with
      | Ok env =>
          returned
            (if negb (admits (k_Boundary c) (env_Source env))
             then refuse c ctx d env ack ReasonUntrustedBoundary
                    "app: source outside the trusted boundary" w
             else if negb (member_of (env_Type env) (ch_Carries (k_Channel c)))
             then refuse c ctx d env ack ReasonUndeclaredType
                    "app: type outside the channel's declared set" w
             else if negb (member_of (env_Type env) (k_Accepts c))
             then discard ctx ack w
             else
               let '(id, w1) := ev_NewAttemptID env_ w in
               admitted c ctx d env (mkAttempt id (d_Attempt d)) ack w1)
      | Err err =>
          let '(now, w1) := ev_Now env_ w in
          returned
            (contain c ctx ack (reason_outcome ReasonInvalidEnvelope)
               (mkContained (k_Name c) "" ReasonInvalidEnvelope (d_Raw d)
                  (sanitizedEnvelopeError err) now) None w1)
      | Panic _ => (Raised, w)
      end
  end.

(** [Sink.Handle]. *)
Definition Sink_Handle (c : Consumer W) (ctx : Ctx) (raw : bytes) (attempt : Z)
    (ack : Acknowledger W) (w : W) : call (option error) * W :=
  match Consume c ctx (mkDelivery raw attempt) ack w with
  | (Returned (_, err), w') => (Returned err, w')
  | (Raised, w') => (Raised, w')
  end.
End Consume.
