(* ===== verification/Codec.v ===== *)
(** Byte encodings of the application block: the varints of
    [application/varint.go], the canonical command encoding of
    [fingerprint.go] and the stored outcome of [outcome_codec.go]. *)

From S2P Require Import Prelude DomainKernel Errors Ports.

(** * Varints *)
Definition maxVarintLen : Z := 10.

(** The loop of [appendUvarint] divides by 128, so [fuel] of ten rounds is
    enough for 64 bits. *)
Fixpoint appendUvarint_loop (fuel : nat) (buf : bytes) (value : Z) : bytes :=
  match fuel with
  | O => buf
  | S fuel' =>
      if 0x80 <=? value
      then appendUvarint_loop fuel' (buf ++ [Z.lor (value mod 256) 0x80]) (Z.shiftr value 7)
      else buf ++ [value mod 256]
  end.
Definition appendUvarint (buf : bytes) (value : Z) : bytes :=
  appendUvarint_loop 10 buf value.

Arguments appendUvarint : simpl never.

Definition zigzag (value : Z) : Z :=
  let z := wrapu64 (Z.shiftl (wrapu64 value) 1) in
  if value <? 0 then 2 ^ 64 - 1 - z else z.
Definition appendVarint (buf : bytes) (value : Z) : bytes := appendUvarint buf (zigzag value).

Arguments appendVarint : simpl never.

Fixpoint readUvarint_loop (buf : bytes) (i value shift : Z) : Z * Z :=
  match buf with
  | [] => (0, 0)
  | b :: buf' =>
      if (i =? maxVarintLen) || ((i =? maxVarintLen - 1) && (1 <? b)) then (0, - (i + 1))
      else if b <? 0x80 then (Z.lor value (wrapu64 (Z.shiftl b shift)), i + 1)
      else readUvarint_loop buf' (i + 1)
             (Z.lor value (wrapu64 (Z.shiftl (Z.land b 0x7f) shift))) (shift + 7)
  end.
Definition readUvarint (buf : bytes) : Z * Z := readUvarint_loop buf 0 0 0.

Definition readVarint (buf : bytes) : Z * Z :=
  let '(zz, n) := readUvarint buf in
  let value := Z.shiftr zz 1 in
  ((if Z.land zz 1 =? 0 then value else Z.lnot value), n).

(** ** Facts about the encoder *)
Lemma appendUvarint_loop_app fuel buf v :
  appendUvarint_loop fuel buf v = buf ++ appendUvarint_loop fuel [] v.
Proof.
  revert buf v. induction fuel as [| fuel IH]; intros buf v; cbn; [by rewrite app_nil_r |].
  destruct (128 <=? v); [| done]. rewrite IH, (IH [_]). by rewrite app_assoc.
Qed.

Lemma appendUvarint_app buf v : appendUvarint buf v = buf ++ appendUvarint [] v.
Proof. apply appendUvarint_loop_app. Qed.

Lemma appendVarint_app buf v : appendVarint buf v = buf ++ appendVarint [] v.
Proof. apply appendUvarint_app. Qed.

(** A continuation byte carries the low seven bits and the mark. *)
Lemma continuation_byte v :
  0 <= v -> Z.lor (v mod 256) 0x80 = v mod 128 + 128.
Proof.
  intros Hv. apply Z.bits_inj'. intros n Hn.
  assert (v mod 128 + 128 = Z.lor (v mod 128) (Z.shiftl 1 7)) as ->.
  { rewrite lor_disjoint; [done | lia | | lia]. apply Z.mod_pos_bound. lia. }
  rewrite !Z.lor_spec. change 256 with (2 ^ 8). change 128 with (2 ^ 7).
  change (Z.shiftl 1 7) with (2 ^ 7).
  destruct (Z.lt_ge_cases n 7).
  - by rewrite !Z.mod_pow2_bits_low by lia.
  - destruct (decide (n = 7)) as [-> | Hne].
    + rewrite (Z.pow2_bits_true 7) by lia. by rewrite !orb_true_r.
    + by rewrite !Z.mod_pow2_bits_high by lia.
Qed.

Lemma continuation_byte_bits v :
  0 <= v ->
  let b := Z.lor (v mod 256) 0x80 in
  128 <= b < 256 /\ Z.land b 0x7f = v mod 128.
Proof.
  intros Hv b. subst b. rewrite continuation_byte by done.
  pose proof (Z.mod_pos_bound v 128 ltac:(lia)). split; [lia |].
  change 0x7f with (Z.ones 7). rewrite Z.land_ones by lia.
  change (2 ^ 7) with 128. rewrite <- Zplus_mod_idemp_r.
  change (128 mod 128) with 0. rewrite Z.add_0_r. apply Z.mod_small. lia.
Qed.

(** One group of bits lands above the groups already read. *)
Lemma group_shift v0 b i :
  0 <= i -> 0 <= v0 < 2 ^ (7 * i) -> 0 <= b -> b * 2 ^ (7 * i) < 2 ^ 64 ->
  Z.lor v0 (wrapu64 (Z.shiftl b (7 * i))) = v0 + b * 2 ^ (7 * i).
Proof.
  intros Hi Hv Hb Hlt. unfold wrapu64.
  rewrite Z.mod_small; [apply lor_disjoint; lia |].
  rewrite Z.shiftl_mul_pow2 by lia. nia.
Qed.

Lemma pow_group i : 0 <= i -> 2 ^ (7 * (i + 1)) = 2 ^ (7 * i) * 128.
Proof. intros Hi. rewrite Z.mul_add_distr_l, Z.pow_add_r by lia. done. Qed.

(** The last byte that fits holds one bit. *)
Lemma group_room i w v0 :
  0 <= i <= 9 -> 0 <= v0 -> 0 <= w -> v0 + w * 2 ^ (7 * i) < 2 ^ 64 -> i = 9 -> w <= 1.
Proof. intros Hi H0 Hw Hv ->. change (2 ^ (7 * 9)) with (2 ^ 63) in Hv. lia. Qed.

(** The decoder's loop undoes the encoder's from any round on. *)
Lemma readUvarint_loop_append fuel i w v0 rest :
  0 <= i -> (Z.to_nat i + S fuel = 10)%nat ->
  0 <= v0 < 2 ^ (7 * i) -> 0 <= w -> v0 + w * 2 ^ (7 * i) < 2 ^ 64 ->
  readUvarint_loop (appendUvarint_loop (S fuel) [] w ++ rest) i v0 (7 * i) =
    (v0 + w * 2 ^ (7 * i), i + len (appendUvarint_loop (S fuel) [] w)) /\
  1 <= len (appendUvarint_loop (S fuel) [] w) <= 10 - i.
Proof.
  revert i w v0. induction fuel as [| fuel IH]; intros i w v0 Hi Hf Hv0 Hw Hv;
    pose proof (group_room i w v0 ltac:(lia) ltac:(lia) Hw Hv) as Hroom.
  - assert (i = 9) as -> by lia. cbn [appendUvarint_loop].
    destruct (Z.leb_spec 128 w); [lia |]. cbn [app readUvarint_loop].
    rewrite (Z.mod_small w 256) by lia. cbn.
    destruct (Z.ltb_spec 1 w); [lia |]. destruct (Z.ltb_spec w 128); [| lia].
    rewrite (group_shift v0 w 9) by lia. done.
  - cbn [appendUvarint_loop]. destruct (Z.leb_spec 128 w) as [Hge | Hlt].
    + change (if 128 <=? Z.shiftr w 7 then _ else _)
        with (appendUvarint_loop (S fuel) ([] ++ [Z.lor (w mod 256) 128]) (Z.shiftr w 7)).
      rewrite appendUvarint_loop_app. cbn [app].
      destruct (continuation_byte_bits w Hw) as [Hb Hbits].
      set (b := Z.lor (w mod 256) 128) in *.
      assert (Hi9 : i <> 9) by (intros ->; lia).
      assert (Hsr : Z.shiftr w 7 = w / 128) by by rewrite Z.shiftr_div_pow2.
      pose proof (Z.mod_pos_bound w 128 ltac:(lia)).
      pose proof (Z.div_mod w 128 ltac:(lia)).
      assert (0 < 2 ^ (7 * i)) by (apply Z.pow_pos_nonneg; lia).
      destruct (IH (i + 1) (w / 128) (v0 + (w mod 128) * 2 ^ (7 * i))) as [IHr IHl];
        rewrite ?pow_group by lia; try lia; try nia.
      rewrite <- Hsr in IHr, IHl. cbn [readUvarint_loop app].
      unfold maxVarintLen.
      destruct (Z.eqb_spec i 10); [lia |]. destruct (Z.eqb_spec i (10 - 1)); [lia |]. cbn [orb andb].
      destruct (Z.ltb_spec b 128); [lia |].
      rewrite Hbits, group_shift by (lia || nia).
      replace (7 * i + 7) with (7 * (i + 1)) by lia. rewrite IHr.
      unfold len in *. cbn [length]. split; [f_equal; [rewrite pow_group by lia; nia | lia] | lia].
    + cbn [app readUvarint_loop]. rewrite (Z.mod_small w 256) by lia.
      unfold maxVarintLen. destruct (Z.eqb_spec i 10); [lia |].
      assert ((i =? 10 - 1) && (1 <? w) = false) as ->.
      { destruct (Z.eqb_spec i (10 - 1)); [| done]. destruct (Z.ltb_spec 1 w); [lia | done]. }
      cbn [orb]. destruct (Z.ltb_spec w 128); [| lia].
      assert (0 < 2 ^ (7 * i)) by (apply Z.pow_pos_nonneg; lia).
      rewrite group_shift by (lia || nia). split; [done | unfold len; cbn [length]; lia].
Qed.

Lemma readUvarint_append v rest :
  0 <= v < 2 ^ 64 ->
  readUvarint (appendUvarint [] v ++ rest) = (v, len (appendUvarint [] v)) /\
  1 <= len (appendUvarint [] v) <= 10.
Proof.
  intros Hv. destruct (readUvarint_loop_append 9 0 v 0 rest) as [H1 H2];
    rewrite ?Z.mul_0_r, ?Z.pow_0_r in *; try lia.
  split; [| done]. unfold readUvarint, appendUvarint. rewrite H1. f_equal; lia.
Qed.

Lemma zigzag_range v : in_int64 v -> 0 <= zigzag v < 2 ^ 64.
Proof.
  intros Hv. unfold zigzag.
  pose proof (Z.mod_pos_bound (Z.shiftl (wrapu64 v) 1) (2 ^ 64) ltac:(lia)).
  unfold wrapu64 in *. destruct (v <? 0); lia.
Qed.

(** Zigzag interleaves the signs. *)
Lemma zigzag_value v : in_int64 v -> zigzag v = if v <? 0 then - 2 * v - 1 else 2 * v.
Proof.
  intros Hv. unfold zigzag, wrapu64. rewrite Z.shiftl_mul_pow2 by lia.
  change (2 ^ 1) with 2.
  rewrite Zmult_mod_idemp_l. destruct (Z.ltb_spec v 0) as [Hn | Hp].
  - rewrite <- (Z_mod_plus_full _ 1), Z.mod_small by solve_int64. lia.
  - rewrite Z.mod_small by solve_int64. lia.
Qed.

Lemma readVarint_append v rest :
  in_int64 v ->
  readVarint (appendVarint [] v ++ rest) = (v, len (appendVarint [] v)) /\
  1 <= len (appendVarint [] v) <= 10.
Proof.
  intros Hv. unfold readVarint, appendVarint.
  destruct (readUvarint_append (zigzag v) rest (zigzag_range v Hv)) as [-> Hl].
  split; [| done]. f_equal. rewrite zigzag_value by done.
  rewrite (Z.land_ones _ 1) by lia.
  rewrite Z.shiftr_div_pow2 by lia. change (2 ^ 1) with 2.
  destruct (Z.ltb_spec v 0).
  - replace (-2 * v - 1) with (1 + (- v - 1) * 2) by lia.
    rewrite Z_mod_plus_full, Z_div_plus_full by lia.
    change (1 mod 2 =? 0) with false. change (1 / 2) with 0. cbv iota. unfold Z.lnot. lia.
  - replace (2 * v) with (0 + v * 2) by lia.
    rewrite Z_mod_plus_full, Z_div_plus_full by lia.
    change (0 mod 2 =? 0) with true. change (0 / 2) with 0. cbv iota. lia.
Qed.

(** * Fingerprint *)

(** The accumulator is the canonical encoding itself. *)
Definition Fingerprint := bytes.
Definition fieldString : Z := 115.   (* 's' *)
Definition fieldInt : Z := 105.      (* 'i' *)

Definition fingerprint_append (f : Fingerprint) (kind : Z) (data : bytes) : Fingerprint :=
  appendUvarint (f ++ [kind]) (len data) ++ data.
Definition fingerprint_String (f : Fingerprint) (value : string) : Fingerprint :=
  fingerprint_append f fieldString (bytes_of value).
Definition fingerprint_Int (f : Fingerprint) (value : Z) : Fingerprint :=
  fingerprint_append f fieldInt (appendVarint [] value).
Definition NewFingerprint (operation : string) : Fingerprint := fingerprint_String [] operation.
Definition Canonical (f : Fingerprint) : bytes := f.
(** [under]: the operation the inbox registers leads the digest. *)
Definition under (f : Fingerprint) (operation : string) : bytes := NewFingerprint operation ++ f.

(** ** The encoding read back

    A fingerprint is built field by field; [build] replays a list of them. *)
Inductive field := FString (s : string) | FInt (v : Z).

Definition add_field (f : Fingerprint) (x : field) : Fingerprint :=
  match x with FString s => fingerprint_String f s | FInt v => fingerprint_Int f v end.
Definition build (f : Fingerprint) (fs : list field) : Fingerprint := foldl add_field f fs.

(** What a Go value can be: a string no longer than [int] counts, an [int64]. *)
Definition field_ok (x : field) : Prop :=
  match x with FString s => len (bytes_of s) <= max_int64 | FInt v => in_int64 v end.

Definition field_kind (x : field) : Z :=
  match x with FString _ => fieldString | FInt _ => fieldInt end.
Definition field_data (x : field) : bytes :=
  match x with FString s => bytes_of s | FInt v => appendVarint [] v end.
Definition encode_field (x : field) : bytes :=
  field_kind x :: appendUvarint [] (len (field_data x)) ++ field_data x.

Lemma add_field_encode f x : add_field f x = f ++ encode_field x.
Proof.
  destruct x; unfold add_field, fingerprint_String, fingerprint_Int, fingerprint_append, encode_field;
    cbn [field_kind field_data]; rewrite appendUvarint_app; by rewrite <- !app_assoc.
Qed.

Lemma build_encode f fs : build f fs = f ++ concat (map encode_field fs).
Proof.
  revert f. induction fs as [| x fs IH]; intros f; unfold build in *; cbn [foldl concat map];
    [by rewrite app_nil_r |]. by rewrite IH, add_field_encode, <- app_assoc.
Qed.

Lemma field_data_len x : field_ok x -> 0 <= len (field_data x) < 2 ^ 64.
Proof.
  destruct x as [s | v]; cbn; intros H.
  - pose proof (len_nonneg (bytes_of s)). unfold max_int64 in H. lia.
  - destruct (readVarint_append v [] H) as [_ Hl]. lia.
Qed.

(** A counted run determines its length, its content and what follows. *)
Lemma counted_inj d1 d2 r1 r2 :
  0 <= len d1 < 2 ^ 64 -> 0 <= len d2 < 2 ^ 64 ->
  (appendUvarint [] (len d1) ++ d1) ++ r1 = (appendUvarint [] (len d2) ++ d2) ++ r2 ->
  d1 = d2 /\ r1 = r2.
Proof.
  intros H1 H2 Heq. rewrite <- !app_assoc in Heq.
  destruct (readUvarint_append (len d1) (d1 ++ r1) H1) as [R1 _].
  destruct (readUvarint_append (len d2) (d2 ++ r2) H2) as [R2 _].
  rewrite Heq, R2 in R1. injection R1 as Hl Hn.
  rewrite Hl in Heq. apply app_inv_head in Heq.
  apply app_inj_1 in Heq; [done |]. unfold len in Hl. lia.
Qed.

Lemma field_data_inj x y :
  field_ok x -> field_ok y -> field_kind x = field_kind y -> field_data x = field_data y -> x = y.
Proof.
  intros Hx Hy Hk Hd. destruct x as [s | v], y as [t | w]; try done; cbn in Hd.
  - by rewrite (bytes_of_inj _ _ Hd).
  - destruct (readVarint_append v [] Hx) as [Rv _]. destruct (readVarint_append w [] Hy) as [Rw _].
    rewrite Hd, Rw in Rv. congruence.
Qed.

Lemma encode_fields_inj fs gs :
  Forall field_ok fs -> Forall field_ok gs ->
  concat (map encode_field fs) = concat (map encode_field gs) -> fs = gs.
Proof.
  revert gs. induction fs as [| x fs IH]; intros [| y gs] Hf Hg Heq; try done.
  cbn in Heq. injection Heq as Hk Heq.
  apply Forall_cons in Hf as [Hx Hf]. apply Forall_cons in Hg as [Hy Hg].
  apply counted_inj in Heq as [Hd Heq]; [| by apply field_data_len ..].
  f_equal; [by apply field_data_inj | by apply IH].
Qed.

(** * Stored outcomes *)

(** [Outcome] of [outcome.go]: the response or the refusal. *)
Inductive Outcome (R : Type) :=
| OutAccepted (response : R)
| OutRejected (rejection : Rejection).
Arguments OutAccepted {R} response.
Arguments OutRejected {R} rejection.

Definition outcome_rejected {R} (o : Outcome R) : bool :=
  match o with OutRejected _ => true | OutAccepted _ => false end.
Definition outcome_Category {R} (o : Outcome R) : OutcomeCategory :=
  match o with OutRejected _ => OutcomeRejected | OutAccepted _ => OutcomeAccepted end.

Definition outcomeVersion : Z := 1.
Definition branchAccepted : Z := 97.    (* 'a' *)
Definition branchRejected : Z := 114.   (* 'r' *)
Definition maxDetailsCount : Z := Z.shiftl 1 10.
Definition ErrOutcomeUnreadable : error := Sentinel "application.ErrOutcomeUnreadable".

(** An [Encoder] is its buffer. *)
Definition Encoder := bytes.
Definition enc_uint (e : Encoder) (value : Z) : Encoder := appendUvarint e value.
Definition enc_String (e : Encoder) (value : string) : Encoder :=
  appendUvarint e (len (bytes_of value)) ++ bytes_of value.
Definition enc_Int (e : Encoder) (value : Z) : Encoder := appendVarint e value.

Record Decoder := mkDecoder { dec_buf : bytes; dec_err : option error }.

Definition dec_uint (d : Decoder) : Z * Decoder :=
  match dec_err d with
  | Some _ => (0, d)
  | None =>
      let '(value, n) := readUvarint (dec_buf d) in
      if n <=? 0 then (0, mkDecoder (dec_buf d) (Some (Opaque "malformed length")))
      else (value, mkDecoder (drop (Z.to_nat n) (dec_buf d)) None)
  end.
Definition dec_Int (d : Decoder) : Z * Decoder :=
  match dec_err d with
  | Some _ => (0, d)
  | None =>
      let '(value, n) := readVarint (dec_buf d) in
      if n <=? 0 then (0, mkDecoder (dec_buf d) (Some (Opaque "malformed integer")))
      else (value, mkDecoder (drop (Z.to_nat n) (dec_buf d)) None)
  end.
Definition dec_String (d : Decoder) : string * Decoder :=
  let '(n, d1) := dec_uint d in
  match dec_err d1 with
  | Some _ => (""%string, d1)
  | None =>
      if len (dec_buf d1) <? n
      then (""%string, mkDecoder (dec_buf d1) (Some (Opaque "string longer than the remaining bytes")))
      else (string_of (take (Z.to_nat n) (dec_buf d1)),
            mkDecoder (drop (Z.to_nat n) (dec_buf d1)) None)
  end.

Record OutcomeCodec (R : Type) := mkOutcomeCodec {
  codec_Encode : Encoder -> R -> Encoder;
  codec_Decode : Decoder -> R * Decoder
}.
Arguments mkOutcomeCodec {R}.
Arguments codec_Encode {R}.
Arguments codec_Decode {R}.

Fixpoint enc_details (e : Encoder) (details : list Detail) : Encoder :=
  match details with
  | [] => e
  | d :: ds => enc_details (enc_String (enc_String e (Key d)) (Value d)) ds
  end.

Definition EncodeOutcome {R} (codec : OutcomeCodec R) (outcome : Outcome R) : bytes :=
  let e := [outcomeVersion] in
  match outcome with
  | OutRejected rejection =>
      let e := e ++ [branchRejected] in
      let e := enc_String e (rej_code rejection) in
      let e := enc_String e (rej_message rejection) in
      let details := rej_details rejection in
      let e := enc_uint e (len details) in
      enc_details e details
  | OutAccepted response => codec_Encode codec (e ++ [branchAccepted]) response
  end.

Fixpoint dec_details (count : nat) (d : Decoder) : list Detail * Decoder :=
  match count with
  | O => ([], d)
  | S count' =>
      let '(k, d) := dec_String d in
      let '(v, d) := dec_String d in
      let '(ds, d) := dec_details count' d in
      (mkDetail k v :: ds, d)
  end.

(** The checks that close [DecodeOutcome] on either branch. *)
Definition decode_close {R} (outcome : Outcome R) (d : Decoder) : result error (Outcome R) :=
  match dec_err d with
  | Some e => Err (Join "outcome" [ErrOutcomeUnreadable; e])
  | None =>
      match dec_buf d with
      | [] => Ok outcome
      | _ => Err (Wrap "trailing bytes" ErrOutcomeUnreadable)
      end
  end.

Definition DecodeOutcome {R} (codec : OutcomeCodec R) (stored : bytes)
    : result error (Outcome R) :=
  match stored with
  | version :: branch :: rest =>
      if negb (version =? outcomeVersion) then Err (Wrap "unknown version" ErrOutcomeUnreadable)
      else
        let d := mkDecoder rest None in
        if branch =? branchAccepted then
          let '(r, d) := codec_Decode codec d in decode_close (OutAccepted r) d
        else if branch =? branchRejected then
          let '(code, d) := dec_String d in
          let '(message, d) := dec_String d in
          let '(count, d) := dec_uint d in
          if maxDetailsCount <? count then Err (Wrap "details" ErrOutcomeUnreadable)
          else
            let '(details, d) := dec_details (Z.to_nat count) d in
            decode_close (OutRejected (Reject code message details)) d
        else Err (Wrap "unknown branch" ErrOutcomeUnreadable)
  | _ => Err (Wrap "unknown version" ErrOutcomeUnreadable)
  end.

(** ** What a codec promises

    Encoding appends, and decoding takes exactly that off. *)
Class CodecLaws {R} (codec : OutcomeCodec R) (ok : R -> Prop) := {
  codec_append : forall e r, codec_Encode codec e r = e ++ codec_Encode codec [] r;
  codec_decode : forall r rest, ok r ->
    codec_Decode codec (mkDecoder (codec_Encode codec [] r ++ rest) None) = (r, mkDecoder rest None)
}.

(** A string a Go program can hold. *)
Definition string_fits (s : string) : Prop := len (bytes_of s) <= max_int64.

Lemma enc_String_app e s : enc_String e s = e ++ enc_String [] s.
Proof. unfold enc_String. rewrite appendUvarint_app. by rewrite app_assoc. Qed.

Lemma enc_Int_app e v : enc_Int e v = e ++ enc_Int [] v.
Proof. apply appendVarint_app. Qed.

Lemma dec_uint_enc v rest :
  0 <= v < 2 ^ 64 -> dec_uint (mkDecoder (enc_uint [] v ++ rest) None) = (v, mkDecoder rest None).
Proof.
  intros Hv. unfold dec_uint, enc_uint. cbn [dec_err dec_buf].
  destruct (readUvarint_append v rest Hv) as [-> Hl].
  destruct (Z.leb_spec (len (appendUvarint [] v)) 0); [lia |]. by rewrite drop_len_app.
Qed.

Lemma dec_Int_enc v rest :
  in_int64 v -> dec_Int (mkDecoder (enc_Int [] v ++ rest) None) = (v, mkDecoder rest None).
Proof.
  intros Hv. unfold dec_Int, enc_Int. cbn [dec_err dec_buf].
  destruct (readVarint_append v rest Hv) as [-> Hl].
  destruct (Z.leb_spec (len (appendVarint [] v)) 0); [lia |]. by rewrite drop_len_app.
Qed.

Lemma dec_String_enc s rest :
  string_fits s ->
  dec_String (mkDecoder (enc_String [] s ++ rest) None) = (s, mkDecoder rest None).
Proof.
  intros Hs. unfold dec_String, enc_String. rewrite <- app_assoc.
  pose proof (len_nonneg (bytes_of s)) as H0. unfold string_fits, max_int64 in Hs.
  change (appendUvarint [] (len (bytes_of s))) with (enc_uint [] (len (bytes_of s))).
  rewrite dec_uint_enc by lia. cbn [dec_err dec_buf].
  rewrite len_app. destruct (Z.ltb_spec (len (bytes_of s) + len rest) (len (bytes_of s))) as [H | _].
  { pose proof (len_nonneg rest). lia. }
  by rewrite take_len_app, drop_len_app, string_of_bytes_of.
Qed.

Definition detail_fits (d : Detail) : Prop := string_fits (Key d) /\ string_fits (Value d).

Lemma enc_details_app e ds : enc_details e ds = e ++ enc_details [] ds.
Proof.
  revert e. induction ds as [| d ds IH]; intros e; cbn; [by rewrite app_nil_r |].
  rewrite IH, (IH (enc_String (enc_String [] _) _)).
  rewrite (enc_String_app (enc_String e _)), (enc_String_app (enc_String [] _)), (enc_String_app e).
  by rewrite !app_assoc.
Qed.

Lemma dec_details_enc ds rest :
  Forall detail_fits ds ->
  dec_details (length ds) (mkDecoder (enc_details [] ds ++ rest) None) = (ds, mkDecoder rest None).
Proof.
  induction 1 as [| d ds [Hk Hv] _ IH]; [done |]. cbn [length enc_details dec_details].
  rewrite enc_details_app, (enc_String_app (enc_String [] _)), <- !app_assoc.
  rewrite dec_String_enc by done. rewrite dec_String_enc by done. rewrite IH. by destruct d.
Qed.

Definition rejection_fits (r : Rejection) : Prop :=
  string_fits (rej_code r) /\ string_fits (rej_message r) /\ Forall detail_fits (rej_details r).

(** How a rejection is laid out. *)
Lemma EncodeOutcome_rejected {R} (codec : OutcomeCodec R) r :
  EncodeOutcome codec (OutRejected r) =
  outcomeVersion :: branchRejected :: enc_String [] (rej_code r) ++ enc_String [] (rej_message r)
    ++ enc_uint [] (len (rej_details r)) ++ enc_details [] (rej_details r).
Proof.
  unfold EncodeOutcome. rewrite enc_details_app. unfold enc_uint.
  rewrite appendUvarint_app, (enc_String_app (enc_String _ _)), (enc_String_app (_ ++ _)).
  by rewrite <- !app_assoc.
Qed.

(** The decoder reaches the count of details of a stored rejection. *)
Lemma DecodeOutcome_rejected {R} (codec : OutcomeCodec R) r :
  rejection_fits r -> len (rej_details r) < 2 ^ 64 ->
  DecodeOutcome codec (EncodeOutcome codec (OutRejected r)) =
  if maxDetailsCount <? len (rej_details r) then Err (Wrap "details" ErrOutcomeUnreadable)
  else Ok (OutRejected r).
Proof.
  intros (Hc & Hm & Hd) Hl. rewrite EncodeOutcome_rejected. cbn [DecodeOutcome].
  change (negb (outcomeVersion =? outcomeVersion)) with false.
  change (branchRejected =? branchAccepted) with false.
  change (branchRejected =? branchRejected) with true. cbv iota.
  rewrite dec_String_enc by done. rewrite dec_String_enc by done.
  rewrite dec_uint_enc by (pose proof (len_nonneg (rej_details r)); lia).
  case_match; [done |]. unfold len. rewrite Nat2Z.id.
  rewrite <- (app_nil_r (enc_details [] (rej_details r))), dec_details_enc by done.
  cbn. by destruct r.
Qed.

(** An outcome the codec can read back: its response is one the codec accepts,
    its rejection fits and has no more details than the decoder takes. *)
Definition storable {R} (ok : R -> Prop) (o : Outcome R) : Prop :=
  match o with
  | OutAccepted r => ok r
  | OutRejected rej => rejection_fits rej /\ len (rej_details rej) <= maxDetailsCount
  end.

Lemma DecodeOutcome_EncodeOutcome {R} (codec : OutcomeCodec R) ok `{!CodecLaws codec ok} o :
  storable ok o -> DecodeOutcome codec (EncodeOutcome codec o) = Ok o.
Proof.
  destruct o as [r | rej]; cbn [storable].
  - intros Hr. unfold EncodeOutcome. rewrite codec_append. cbn [app DecodeOutcome].
    change (negb (outcomeVersion =? outcomeVersion)) with false.
    change (branchAccepted =? branchAccepted) with true. cbv iota.
    rewrite <- (app_nil_r (codec_Encode codec [] r)), codec_decode by done. done.
  - intros [Hf Hl]. change maxDetailsCount with 1024 in Hl.
    rewrite DecodeOutcome_rejected by (done || lia). change maxDetailsCount with 1024.
    destruct (Z.ltb_spec 1024 (len (rej_details rej))); [lia | done].
Qed.

(** * The encodings are lossless *)

(** A signed varint written in front of any bytes is read back as the same
    [int64], and the reader consumes exactly the bytes the writer produced, of
    which there are between one and [maxVarintLen]. *)
Theorem readVarint_appendVarint (buf : bytes) v rest (H : in_int64 v) :
  exists written, appendVarint buf v = buf ++ written /\ 1 <= len written <= maxVarintLen /\
    readVarint (written ++ rest) = (v, len written).
Proof.
  exists (appendVarint [] v). destruct (readVarint_append v rest H) as [Hr Hl].
  by rewrite appendVarint_app, Hr.
Qed.

Lemma readVarint_appendVarint_witness :
  in_int64 min_int64 /\ exists written, appendVarint [7] min_int64 = [7] ++ written /\
    1 <= len written <= maxVarintLen /\ readVarint (written ++ [1; 2]) = (min_int64, len written).
Proof.
  assert (in_int64 min_int64) as H by (unfold in_int64, min_int64, max_int64; lia).
  split; [exact H | exact (readVarint_appendVarint [7] min_int64 [1; 2] H)].
Defined.

(** A reader of an unterminated or overlong varint refuses: whatever the
    bytes, it either consumes a positive number of bytes that the buffer holds
    and never more than [maxVarintLen], or reports a non-positive count. *)
Theorem readUvarint_bounded (buf : bytes) :
  let '(value, n) := readUvarint buf in
  n <= len buf /\ n <= maxVarintLen /\ (n <= 0 \/ 0 <= value).
Proof.
  unfold readUvarint, maxVarintLen.
  assert (forall i value shift, 0 <= i <= 10 -> 0 <= value ->
    let '(v, n) := readUvarint_loop buf i value shift in
    n <= i + len buf /\ n <= 10 /\ (n <= 0 \/ 0 <= v)) as H.
  2: { specialize (H 0 0 0 ltac:(lia) ltac:(lia)). destruct (readUvarint_loop _ _ _ _). lia. }
  induction buf as [| b buf IH]; intros i value shift Hi Hv; cbn [readUvarint_loop].
  { unfold len; cbn; lia. }
  assert (len (b :: buf) = 1 + len buf) as -> by (unfold len; cbn [length]; lia).
  pose proof (len_nonneg buf).
  assert (forall z, 0 <= Z.lor value (wrapu64 z)) as Hor.
  { intros z. apply Z.lor_nonneg. split; [done |].
    unfold wrapu64. apply Z.mod_pos_bound. lia. }
  unfold maxVarintLen. destruct (Z.eqb_spec i 10); cbn [orb]; [lia |].
  destruct ((i =? 10 - 1) && (1 <? b)); [lia |]. destruct (b <? 0x80).
  - split; [lia |]. split; [lia | right; apply Hor].
  - specialize (IH (i + 1) (Z.lor value (wrapu64 (Z.shiftl (Z.land b 127) shift))) (shift + 7)
      ltac:(lia) (Hor _)).
    destruct (readUvarint_loop _ _ _ _). lia.
Qed.

(** Fingerprints do not collide: two commands with the same canonical
    encoding under an operation have the same operation and the same fields,
    in order, whatever the strings hold. *)
Theorem fingerprint_injective op1 op2 fs1 fs2
    (H1 : Forall field_ok (FString op1 :: fs1)) (H2 : Forall field_ok (FString op2 :: fs2)) :
  under (build [] fs1) op1 = under (build [] fs2) op2 -> op1 = op2 /\ fs1 = fs2.
Proof.
  unfold under, NewFingerprint. rewrite !build_encode.
  change (fingerprint_String [] op1) with (add_field [] (FString op1)).
  change (fingerprint_String [] op2) with (add_field [] (FString op2)).
  rewrite !add_field_encode. cbn [app]. intros Heq.
  apply (encode_fields_inj (FString op1 :: fs1) (FString op2 :: fs2)) in Heq; [| done ..].
  injection Heq. auto.
Qed.

Lemma fingerprint_injective_witness :
  under (build [] [FString "a"; FInt 1]) "orders/place" =
    under (build [] [FString "a"; FInt 1]) "orders/place" /\
  "orders/place" = "orders/place" /\ [FString "a"; FInt 1] = [FString "a"; FInt 1].
Proof.
  split; [reflexivity|].
  refine (fingerprint_injective _ _ _ _ _ _ eq_refl); repeat constructor; vm_compute; discriminate.
Defined.

(** The codec of a response that is one string, as the contexts declare theirs. *)
Definition string_codec : OutcomeCodec string := mkOutcomeCodec enc_String dec_String.
#[export] Instance string_codec_laws : CodecLaws string_codec string_fits.
Proof. split; [exact enc_String_app | exact (fun r rest => dec_String_enc r rest)]. Qed.

(** A stored outcome is read back as it was stored: the response when the
    command was accepted, the rejection with its code, message and details when
    it was refused. *)
Theorem outcome_round_trip {R} (codec : OutcomeCodec R) ok `{!CodecLaws codec ok} o
    (H : storable ok o) :
  DecodeOutcome codec (EncodeOutcome codec o) = Ok o.
Proof. by apply (DecodeOutcome_EncodeOutcome codec ok). Qed.

Lemma outcome_round_trip_witness :
  DecodeOutcome string_codec
    (EncodeOutcome string_codec (OutRejected (Reject "orders/place" "no" [mkDetail "k" "v"]))) =
  Ok (OutRejected (Reject "orders/place" "no" [mkDetail "k" "v"])).
Proof.
  apply (outcome_round_trip string_codec string_fits). cbn.
  repeat split; repeat constructor; vm_compute; discriminate.
Defined.

(** Bytes that cannot be read are reported as [ErrOutcomeUnreadable], never
    as an outcome and never as a panic. *)
Theorem DecodeOutcome_unreadable {R} (codec : OutcomeCodec R) stored :
  match DecodeOutcome codec stored with
  | Ok _ => True
  | Err e => errors_is e ErrOutcomeUnreadable = true
  | Panic _ => False
  end.
Proof.
  assert (forall (o : Outcome R) d, match decode_close o d with
    | Ok _ => True | Err e => errors_is e ErrOutcomeUnreadable = true | Panic _ => False end) as Hc
    by (intros o d; unfold decode_close; repeat case_match; simplify_eq; done).
  destruct stored as [| version [| branch rest]]; [done | done |]. cbn [DecodeOutcome].
  destruct (negb _); [done |]. cbv zeta. destruct (branch =? branchAccepted).
  { destruct (codec_Decode codec _). apply Hc. }
  destruct (branch =? branchRejected); [| done].
  destruct (dec_String _) as [code d]. destruct (dec_String d) as [message d'].
  destruct (dec_uint d') as [count d'']. destruct (maxDetailsCount <? count); [done |].
  destruct (dec_details _ d''). apply Hc.
Qed.

(** A rejection with more details than the decoder takes is written by
    [EncodeOutcome] and refused by [DecodeOutcome]: the record of such a command
    can never be replayed. *)
Theorem many_details_unreadable {R} (codec : OutcomeCodec R) r
    (Hf : rejection_fits r) (Hl : maxDetailsCount < len (rej_details r) < 2 ^ 64) :
  DecodeOutcome codec (EncodeOutcome codec (OutRejected r)) =
    Err (Wrap "details" ErrOutcomeUnreadable).
Proof.
  rewrite DecodeOutcome_rejected by (done || lia). by rewrite (proj2 (Z.ltb_lt _ _) (proj1 Hl)).
Qed.

Lemma many_details_unreadable_witness :
  DecodeOutcome string_codec (EncodeOutcome string_codec
    (OutRejected (Reject "a/b" "" (replicate 1025 (mkDetail "" ""))))) =
  Err (Wrap "details" ErrOutcomeUnreadable).
Proof.
  apply many_details_unreadable.
  - split; [vm_compute; discriminate |]. split; [vm_compute; discriminate |].
    apply Forall_replicate. split; vm_compute; discriminate.
  - vm_compute. split; reflexivity.
Defined.
