(* ===== verification/OutboundKey.v ===== *)
(** The partner's profile and the key derived for it
    ([application/external_profile.go], [application/outbound_key.go]), and the
    next step of the external command cycle ([application/next_step.go]). *)

From S2P Require Import Prelude DomainKernel Errors Ports Codec.

(** * Profile *)
Definition minKeyBits : Z := 128.
Definition firstKeySymbol : Z := 0x21.
Definition lastKeySymbol : Z := 0x7E.
Definition ErrInvalidExternalProfile : error :=
  Sentinel "application.ErrInvalidExternalProfile".
Definition invalid_profile (note : string) : error := Wrap note ErrInvalidExternalProfile.

(** The loop of [symbolBits] halves an [int], so 63 rounds are enough. *)
Fixpoint symbolBits_loop (fuel : nat) (n bits : Z) : Z :=
  match fuel with
  | O => bits
  | S fuel' => if 1 <? n then symbolBits_loop fuel' (Z.shiftr n 1) (bits + 1) else bits
  end.
Definition symbolBits (alphabet : string) : Z := symbolBits_loop 63 (len (bytes_of alphabet)) 0.

Fixpoint alphabet_scan (seen : list Z) (bs : bytes) : result error unit :=
  match bs with
  | [] => Ok ()
  | b :: bs' =>
      if (b <? firstKeySymbol) || (lastKeySymbol <? b)
      then Err (invalid_profile "alphabet byte is not visible ASCII")
      else if bool_decide (b ∈ seen) then Err (invalid_profile "alphabet repeats")
      else alphabet_scan (b :: seen) bs'
  end.
Definition validateKeyAlphabet (alphabet : string) : result error unit :=
  _ ← alphabet_scan [] (bytes_of alphabet);
  if symbolBits alphabet =? 0
  then Err (invalid_profile "alphabet carries no bit") else Ok ().

Definition declaredSemantics (k : KeySemantics) : bool :=
  match k with KeyNative | KeyHeader | KeyNone => true | _ => false end.
Definition declaredEfficacy (e : Efficacy) : bool :=
  match e with EfficacyOnSubmit | EfficacyByObservation => true | _ => false end.

Definition ValidateExternalProfile (p : ExternalProfile) : result error unit :=
  if negb (declaredSemantics (pr_KeySemantics p))
  then Err (invalid_profile "key semantics undeclared")
  else if negb (declaredEfficacy (pr_Efficacy p)) then Err (invalid_profile "efficacy undeclared")
  else if pr_Quiescence p <? 0 then Err (invalid_profile "negative quiescence")
  else if pr_MaxQueries p <=? 0 then Err (invalid_profile "query ceiling not positive")
  else
    _ ← validateKeyAlphabet (pr_KeyAlphabet p);
    let bits := symbolBits (pr_KeyAlphabet p) in
    let minLength := Z.quot (minKeyBits + bits - 1) bits in
    if pr_KeyMaxLength p <? minLength then Err (invalid_profile "key is below 128 bits") else Ok ().

(** * Derivation *)
Definition outboundKeyDomain : string := "dmpf.outbound-key".
Definition digestBits : Z := 256.
Definition ErrIncompleteOutboundPolicy : error :=
  Sentinel "application.ErrIncompleteOutboundPolicy".
Definition ErrIncompleteOutboundIntent : error :=
  Sentinel "application.ErrIncompleteOutboundIntent".

(** [ports.Fingerprint], the [32]byte of a digest. *)
Notation Digest := (list Z).
Record OutboundKeyPolicy := mkOutboundKeyPolicy { pol_Digest : option (bytes -> Digest) }.

Record OutboundIntent := mkOutboundIntent {
  int_Tenant : string;
  int_Destination : string;
  int_Operation : string;
  int_IntentID : string;
  int_Generation : Z
}.

Definition validateOutboundIntent (intent : OutboundIntent) : result error unit :=
  if String.eqb (int_IntentID intent) "" then Err (Wrap "empty intent id" ErrIncompleteOutboundIntent)
  else if String.eqb (int_Destination intent) ""
  then Err (Wrap "empty destination" ErrIncompleteOutboundIntent)
  else if String.eqb (int_Operation intent) ""
  then Err (Wrap "empty operation" ErrIncompleteOutboundIntent)
  else if int_Generation intent <? 0
  then Err (Wrap "negative generation" ErrIncompleteOutboundIntent)
  else Ok ().

(** Bit [bit] of a digest, most significant first; out of range panics. *)
Definition digest_bit (digest : Digest) (bit : Z) : result error Z :=
  match digest !! Z.to_nat (Z.quot bit 8) with
  | Some b => Ok (Z.land (Z.shiftr b (7 - Z.rem bit 8)) 1)
  | None => Panic "index out of range"
  end.

Fixpoint readBits_loop (digest : Digest) (bit : Z) (width : nat) (value : Z) : result error Z :=
  match width with
  | O => Ok value
  | S width' =>
      b ← digest_bit digest bit;
      readBits_loop digest (bit + 1) width' (Z.lor (Z.shiftl value 1) b)
  end.
Definition readBits (digest : Digest) (offset width : Z) : result error Z :=
  readBits_loop digest offset (Z.to_nat width) 0.

(** One symbol of the key, and the loop over the key's positions. *)
Definition key_symbol (alphabet : bytes) (digest : Digest) (bits i : Z) : result error Z :=
  v ← readBits digest (i * bits) bits;
  match alphabet !! Z.to_nat v with
  | Some b => Ok b
  | None => Panic "index out of range"
  end.
Fixpoint key_symbols (alphabet : bytes) (digest : Digest) (bits i : Z) (n : nat)
    : result error bytes :=
  match n with
  | O => Ok []
  | S n' =>
      b ← key_symbol alphabet digest bits i;
      bs ← key_symbols alphabet digest bits (i + 1) n';
      Ok (b :: bs)
  end.

Definition intent_canonical (intent : OutboundIntent) : bytes :=
  Canonical
    (fingerprint_Int
      (fingerprint_String
        (fingerprint_String
          (fingerprint_String
            (fingerprint_String (NewFingerprint outboundKeyDomain) (int_Tenant intent))
            (int_Destination intent))
          (int_Operation intent))
        (int_IntentID intent))
      (int_Generation intent)).

Definition DeriveOutboundKey (policy : OutboundKeyPolicy) (profile : ExternalProfile)
    (intent : OutboundIntent) : result error OutboundKey :=
  _ ← validateOutboundIntent intent;
  match pol_Digest policy with
  | None => Err ErrIncompleteOutboundPolicy
  | Some digest_of =>
      _ ← ValidateExternalProfile profile;
      let digest := digest_of (intent_canonical intent) in
      let bits := symbolBits (pr_KeyAlphabet profile) in
      let n := Z.min (pr_KeyMaxLength profile) (Z.quot digestBits bits) in
      key ← key_symbols (bytes_of (pr_KeyAlphabet profile)) digest bits 0 (Z.to_nat n);
      Ok (string_of key)
  end.

(** * Next step *)
Inductive Step :=
| StepNone | StepConfirm | StepAwait | StepRetry | StepFail | StepQuery | StepReconcile
| StepSuspend.
#[global] Instance Step_eq_dec : EqDecision Step.
Proof. solve_decision. Defined.

Record StepInput := mkStepInput {
  si_Class : ExternalClass;
  si_Finding : Finding;
  si_Profile : ExternalProfile;
  si_QueryAvailable : bool;
  si_QueriesDone : Z
}.

Definition awaitOrReconcile (i : StepInput) : Step :=
  if si_QueriesDone i <? pr_MaxQueries (si_Profile i) then StepAwait else StepReconcile.
Definition queryOrReconcile (i : StepInput) : Step :=
  if si_QueryAvailable i && (si_QueriesDone i <? pr_MaxQueries (si_Profile i))
  then StepQuery else StepReconcile.

Definition stepForFinding (i : StepInput) : Step :=
  match si_Finding i with
  | FindingApplied => StepConfirm
  | FindingRejected => StepFail
  | FindingAbsent =>
      if bool_decide (pr_KeySemantics (si_Profile i) = KeyNative)
         || bool_decide (pr_KeySemantics (si_Profile i) = KeyHeader)
         || pr_AuthoritativeAbsence (si_Profile i)
      then StepRetry else StepReconcile
  | FindingPending => awaitOrReconcile i
  | _ => queryOrReconcile i
  end.

Definition NextStep (i : StepInput) : Step :=
  if negb (bool_decide (si_Finding i = FindingNone)) then stepForFinding i
  else match si_Class i with
  | ClassAccepted =>
      if bool_decide (pr_Efficacy (si_Profile i) = EfficacyOnSubmit) then StepConfirm
      else awaitOrReconcile i
  | ClassRetryableTransport | ClassRetryableUpstream => StepRetry
  | ClassFinalValidation | ClassFinalBusiness | ClassFinalAuthorization => StepFail
  | ClassSchemaMismatch => StepSuspend
  | _ => queryOrReconcile i
  end.

(** * Symbol bits *)
Lemma symbolBits_loop_log2 fuel n bits :
  0 < n -> n < 2 ^ Z.of_nat fuel -> symbolBits_loop fuel n bits = bits + Z.log2 n.
Proof.
  revert n bits. induction fuel as [| fuel IH]; intros n bits Hn Hlt; [cbn in Hlt; lia |].
  cbn. destruct (Z.ltb_spec 1 n) as [H1 | H1].
  - assert (Z.shiftr n 1 = n / 2) as Hs by by rewrite Z.shiftr_div_pow2.
    pose proof (Z.div_mod n 2 ltac:(lia)). pose proof (Z.mod_pos_bound n 2 ltac:(lia)).
    rewrite Nat2Z.inj_succ, Z.pow_succ_r in Hlt by lia.
    rewrite IH by lia. rewrite Z.log2_shiftr by lia.
    pose proof (Z.log2_le_mono 2 n ltac:(lia)) as Hl. change (Z.log2 2) with 1 in Hl. lia.
  - assert (n = 1) as -> by lia. cbn. lia.
Qed.

Lemma symbolBits_log2 alphabet :
  0 < len (bytes_of alphabet) <= max_int64 ->
  symbolBits alphabet = Z.log2 (len (bytes_of alphabet)).
Proof.
  intros [H0 H1]. unfold symbolBits. rewrite symbolBits_loop_log2; [lia | done |].
  unfold max_int64 in H1. change (Z.of_nat 63) with 63. lia.
Qed.

Lemma symbolBits_nil alphabet : len (bytes_of alphabet) = 0 -> symbolBits alphabet = 0.
Proof. unfold symbolBits. by intros ->. Qed.

(** * What the checks establish *)
Lemma alphabet_scan_ok seen bs :
  alphabet_scan seen bs = Ok () <->
  NoDup bs /\ (forall b, b ∈ bs -> b ∉ seen /\ firstKeySymbol <= b <= lastKeySymbol).
Proof.
  revert seen. induction bs as [| b bs IH]; intros seen; cbn.
  - split; [intros _; split; [constructor | set_solver] | done].
  - rewrite NoDup_cons. split.
    + destruct (Z.ltb_spec b firstKeySymbol), (Z.ltb_spec lastKeySymbol b); cbn; try done.
      case_bool_decide; [done |]. intros [Hnd Hall]%IH.
      split; [split; [| done] |].
      * intros Hb. destruct (Hall b Hb) as [Hs _]. set_solver.
      * intros b' [-> | Hb']%elem_of_cons; [split; [done | lia] |].
        destruct (Hall b' Hb') as [Hs Hr]. split; [set_solver | done].
    + intros [[Hb Hnd] Hall]. destruct (Hall b ltac:(set_solver)) as [Hs Hr].
      destruct (Z.ltb_spec b firstKeySymbol); [lia |].
      destruct (Z.ltb_spec lastKeySymbol b); [lia |]. cbn.
      rewrite bool_decide_false by done. apply IH. split; [done |]. set_solver.
Qed.

Lemma ValidateExternalProfile_ok p :
  ValidateExternalProfile p = Ok () ->
  NoDup (bytes_of (pr_KeyAlphabet p)) /\ 0 < symbolBits (pr_KeyAlphabet p) /\
  minKeyBits <= pr_KeyMaxLength p * symbolBits (pr_KeyAlphabet p) /\ 0 < pr_MaxQueries p.
Proof.
  unfold ValidateExternalProfile. repeat (case_match; [done |]).
  unfold validateKeyAlphabet.
  destruct (alphabet_scan _ _) as [[] | |] eqn:Hscan; [| done | done].
  apply alphabet_scan_ok in Hscan as [Hnd _]. cbn [mbind result_bind].
  destruct (Z.eqb_spec (symbolBits (pr_KeyAlphabet p)) 0) as [| Hne]; [done |]. cbn [mbind result_bind].
  assert (0 <= symbolBits (pr_KeyAlphabet p)) as Hge.
  { unfold symbolBits. generalize (len (bytes_of (pr_KeyAlphabet p))). intros n.
    assert (forall fuel m b, 0 <= b -> 0 <= symbolBits_loop fuel m b) as H'.
    { induction fuel as [| fuel IH]; intros m b Hb; cbn; [done |]. case_match; [apply IH; lia | done]. }
    by apply H'. }
  set (bits := symbolBits _) in *.
  destruct (Z.ltb_spec (pr_KeyMaxLength p) (Z.quot (minKeyBits + bits - 1) bits)) as [| Hk]; [done |].
  intros _. rewrite Z.quot_div_nonneg in Hk by (unfold minKeyBits; lia).
  pose proof (Z.div_mod (minKeyBits + bits - 1) bits ltac:(lia)).
  pose proof (Z.mod_pos_bound (minKeyBits + bits - 1) bits ltac:(lia)).
  assert (0 < pr_MaxQueries p) by (apply Z.leb_gt; done).
  repeat split; [done | lia | nia | done].
Qed.

(** The alphabet of a valid profile has a symbol for every group of bits. *)
Lemma symbolBits_room alphabet :
  NoDup (bytes_of alphabet) -> 0 < symbolBits alphabet -> len (bytes_of alphabet) <= max_int64 ->
  2 ^ symbolBits alphabet <= len (bytes_of alphabet).
Proof.
  intros _ Hb Hm. pose proof (len_nonneg (bytes_of alphabet)).
  destruct (decide (len (bytes_of alphabet) = 0)) as [H0 | Hne].
  { rewrite (symbolBits_nil _ H0) in Hb. lia. }
  rewrite symbolBits_log2 by lia. apply Z.log2_spec. lia.
Qed.

(** Visible, distinct symbols are at most 94, so the length always fits. *)
Lemma alphabet_small alphabet :
  validateKeyAlphabet alphabet = Ok () -> len (bytes_of alphabet) <= 94.
Proof.
  unfold validateKeyAlphabet.
  destruct (alphabet_scan _ _) as [[] | |] eqn:Hscan; [| done | done].
  apply alphabet_scan_ok in Hscan as [Hnd Hall]. intros _.
  assert (bytes_of alphabet ⊆ seqZ 0x21 94) as Hsub.
  { intros b Hb. apply elem_of_seqZ. destruct (Hall b Hb) as [_ Hr].
    unfold firstKeySymbol, lastKeySymbol in Hr. lia. }
  pose proof (submseteq_length _ _ (NoDup_submseteq _ _ Hnd Hsub)) as Hl.
  rewrite length_seqZ in Hl. unfold len. lia.
Qed.

Lemma valid_alphabet p :
  ValidateExternalProfile p = Ok () -> validateKeyAlphabet (pr_KeyAlphabet p) = Ok ().
Proof.
  unfold ValidateExternalProfile. repeat (case_match; [done |]).
  by destruct (validateKeyAlphabet _) as [[] | |].
Qed.

(** * Reading bits *)
Definition digest_ok (d : Digest) : Prop := length d = 32%nat.

Lemma digest_bit_ok d j :
  digest_ok d -> 0 <= j < digestBits -> exists b, digest_bit d j = Ok b /\ 0 <= b <= 1.
Proof.
  unfold digest_ok, digestBits, digest_bit. intros Hd Hj.
  rewrite Z.quot_div_nonneg by lia.
  assert (0 <= j / 8 < 32) by (split; [apply Z.div_pos; lia | apply Z.div_lt_upper_bound; lia]).
  destruct (lookup_lt_is_Some_2 d (Z.to_nat (j / 8))) as [x ->]; [lia |].
  eexists. split; [done |]. rewrite (Z.land_ones _ 1) by lia.
  pose proof (Z.mod_pos_bound (Z.shiftr x (7 - Z.rem j 8)) (2 ^ 1) ltac:(lia)). lia.
Qed.

Lemma shift_in v b : 0 <= v -> 0 <= b <= 1 -> Z.lor (Z.shiftl v 1) b = 2 * v + b.
Proof.
  intros Hv Hb. rewrite Z.lor_comm, lor_disjoint; lia.
Qed.

Lemma readBits_loop_ok d off w v :
  digest_ok d -> 0 <= off -> off + Z.of_nat w <= digestBits -> 0 <= v ->
  exists x, readBits_loop d off w v = Ok x /\
    v * 2 ^ Z.of_nat w <= x < (v + 1) * 2 ^ Z.of_nat w.
Proof.
  intros Hd. revert off v. induction w as [| w IH]; intros off v Hoff Hmax Hv.
  { exists v. split; [done |]. change (2 ^ Z.of_nat 0) with 1. lia. }
  destruct (digest_bit_ok d off Hd ltac:(lia)) as (b & Hb & Hr).
  cbn [readBits_loop mbind result_bind]. rewrite Hb. cbn [mbind result_bind].
  rewrite shift_in by lia.
  destruct (IH (off + 1) (2 * v + b) ltac:(lia) ltac:(lia) ltac:(lia)) as (x & Hx & Hx').
  exists x. split; [done |]. rewrite Nat2Z.inj_succ, Z.pow_succ_r by lia. nia.
Qed.

(** The number read determines the bits it was read from. *)
Lemma readBits_loop_inj d1 d2 off w v1 v2 x :
  digest_ok d1 -> digest_ok d2 -> 0 <= off -> off + Z.of_nat w <= digestBits -> 0 <= v1 -> 0 <= v2 ->
  readBits_loop d1 off w v1 = Ok x -> readBits_loop d2 off w v2 = Ok x ->
  v1 = v2 /\ forall j, off <= j < off + Z.of_nat w -> digest_bit d1 j = digest_bit d2 j.
Proof.
  intros H1 H2. revert off v1 v2.
  induction w as [| w IH]; intros off v1 v2 Hoff Hmax Hv1 Hv2 Hx1 Hx2.
  { cbn in *. simplify_eq. split; [done | lia]. }
  destruct (digest_bit_ok d1 off H1 ltac:(lia)) as (b1 & Hb1 & Hr1).
  destruct (digest_bit_ok d2 off H2 ltac:(lia)) as (b2 & Hb2 & Hr2).
  cbn [readBits_loop] in Hx1, Hx2. rewrite Hb1 in Hx1. rewrite Hb2 in Hx2.
  cbn [mbind result_bind] in Hx1, Hx2. rewrite shift_in in Hx1, Hx2 by lia.
  destruct (IH (off + 1) (2 * v1 + b1) (2 * v2 + b2)) as [He Hj]; try lia; try done.
  assert (v1 = v2) by lia. assert (b1 = b2) by lia. split; [done |].
  intros j Hjr. destruct (decide (j = off)) as [-> |]; [congruence | apply Hj; lia].
Qed.

(** * Symbols of the key *)
Section Symbols.
Context (alphabet : bytes) (bits : Z).
Context (Hnd : NoDup alphabet) (Hbits : 0 < bits) (Hroom : 2 ^ bits <= len alphabet).

Lemma key_symbol_ok d i :
  digest_ok d -> 0 <= i -> (i + 1) * bits <= digestBits ->
  exists b, key_symbol alphabet d bits i = Ok b /\ b ∈ take (Z.to_nat (2 ^ bits)) alphabet.
Proof.
  intros Hd Hi Hmax. unfold key_symbol, readBits.
  destruct (readBits_loop_ok d (i * bits) (Z.to_nat bits) 0) as (x & -> & Hx); try done; try nia.
  rewrite Z2Nat.id in Hx by lia. cbn [mbind result_bind].
  destruct (lookup_lt_is_Some_2 alphabet (Z.to_nat x)) as [b Hb]; [unfold len in Hroom; lia |].
  rewrite Hb. exists b. split; [done |].
  apply list_elem_of_lookup. exists (Z.to_nat x). rewrite lookup_take, decide_True by lia. done.
Qed.

Lemma key_symbol_inj d1 d2 i b :
  digest_ok d1 -> digest_ok d2 -> 0 <= i -> (i + 1) * bits <= digestBits ->
  key_symbol alphabet d1 bits i = Ok b -> key_symbol alphabet d2 bits i = Ok b ->
  forall j, i * bits <= j < (i + 1) * bits -> digest_bit d1 j = digest_bit d2 j.
Proof.
  intros H1 H2 Hi Hmax. unfold key_symbol, readBits.
  destruct (readBits_loop_ok d1 (i * bits) (Z.to_nat bits) 0) as (x1 & Hx1 & Hr1); try done; try nia.
  destruct (readBits_loop_ok d2 (i * bits) (Z.to_nat bits) 0) as (x2 & Hx2 & Hr2); try done; try nia.
  rewrite Hx1, Hx2. cbn [mbind result_bind].
  destruct (alphabet !! Z.to_nat x1) as [a1 |] eqn:Ha1; [| done].
  destruct (alphabet !! Z.to_nat x2) as [a2 |] eqn:Ha2; [| done].
  intros [= ->] [= ->].
  assert (Z.to_nat x1 = Z.to_nat x2) by (eapply NoDup_lookup; eauto).
  assert (x1 = x2) as -> by lia. intros j Hj.
  destruct (readBits_loop_inj d1 d2 (i * bits) (Z.to_nat bits) 0 0 x2) as [_ Hbit];
    try done; rewrite ?Z2Nat.id in * by lia; try nia. apply Hbit. nia.
Qed.

Lemma key_symbols_ok d i n :
  digest_ok d -> 0 <= i -> (i + Z.of_nat n) * bits <= digestBits ->
  exists key, key_symbols alphabet d bits i n = Ok key /\ length key = n /\
    Forall (fun b => b ∈ take (Z.to_nat (2 ^ bits)) alphabet) key.
Proof.
  intros Hd. revert i. induction n as [| n IH]; intros i Hi Hmax; [exists []; by repeat split |].
  destruct (key_symbol_ok d i Hd Hi ltac:(nia)) as (b & Hb & Hin).
  destruct (IH (i + 1) ltac:(lia) ltac:(nia)) as (key & Hk & Hl & Hall).
  exists (b :: key). cbn [key_symbols]. rewrite Hb. cbn [mbind result_bind]. rewrite Hk.
  cbn. repeat split; [congruence | by constructor].
Qed.

Lemma key_symbols_inj d1 d2 i n key :
  digest_ok d1 -> digest_ok d2 -> 0 <= i -> (i + Z.of_nat n) * bits <= digestBits ->
  key_symbols alphabet d1 bits i n = Ok key -> key_symbols alphabet d2 bits i n = Ok key ->
  forall j, i * bits <= j < (i + Z.of_nat n) * bits -> digest_bit d1 j = digest_bit d2 j.
Proof.
  intros H1 H2. revert i key. induction n as [| n IH]; intros i key Hi Hmax Hk1 Hk2 j Hj; [nia |].
  destruct (key_symbol_ok d1 i H1 Hi ltac:(nia)) as (b1 & Hb1 & _).
  destruct (key_symbol_ok d2 i H2 Hi ltac:(nia)) as (b2 & Hb2 & _).
  destruct (key_symbols_ok d1 (i + 1) n H1 ltac:(lia) ltac:(nia)) as (k1 & Hs1 & _).
  destruct (key_symbols_ok d2 (i + 1) n H2 ltac:(lia) ltac:(nia)) as (k2 & Hs2 & _).
  cbn [key_symbols] in Hk1, Hk2. rewrite Hb1 in Hk1. rewrite Hb2 in Hk2.
  cbn [mbind result_bind] in Hk1, Hk2. rewrite Hs1 in Hk1. rewrite Hs2 in Hk2. cbn in Hk1, Hk2.
  assert (b1 = b2 /\ k1 = k2) as [-> ->] by (split; congruence).
  destruct (Z.lt_ge_cases j ((i + 1) * bits)).
  - eapply (key_symbol_inj d1 d2 i); eauto; nia.
  - eapply (IH (i + 1) k2); eauto; nia.
Qed.
End Symbols.

(** * The derived key *)
Lemma key_length_bits p :
  ValidateExternalProfile p = Ok () ->
  let bits := symbolBits (pr_KeyAlphabet p) in
  let n := Z.min (pr_KeyMaxLength p) (Z.quot digestBits bits) in
  0 < bits /\ minKeyBits <= n * bits <= digestBits /\ 0 <= n <= pr_KeyMaxLength p /\
  2 ^ bits <= len (bytes_of (pr_KeyAlphabet p)).
Proof.
  intros Hp bits n. destruct (ValidateExternalProfile_ok p Hp) as (Hnd & Hb & Hmin & _).
  pose proof (alphabet_small _ (valid_alphabet p Hp)) as H94.
  assert (Hroom : 2 ^ bits <= len (bytes_of (pr_KeyAlphabet p))).
  { apply symbolBits_room; [done | done |]. unfold max_int64. lia. }
  assert (bits <= 6) as H6.
  { assert (~ 7 <= bits); [| lia]. intros H7.
    pose proof (Z.pow_le_mono_r 2 7 bits ltac:(lia) H7) as Hp7. change (2 ^ 7) with 128 in Hp7. lia. }
  subst n. fold bits in Hb, Hmin. rewrite Z.quot_div_nonneg by (unfold digestBits; lia).
  pose proof (Z.div_mod digestBits bits ltac:(lia)).
  pose proof (Z.mod_pos_bound digestBits bits ltac:(lia)).
  unfold minKeyBits, digestBits in *.
  assert (0 < pr_KeyMaxLength p) by nia.
  destruct (Z.min_spec (pr_KeyMaxLength p) (256 / bits)) as [[? ->] | [? ->]];
    repeat split; try done; nia.
Qed.

Lemma visible_bytes alphabet bs n :
  validateKeyAlphabet alphabet = Ok () ->
  Forall (fun b => b ∈ take n (bytes_of alphabet)) bs -> Forall byte_ok bs.
Proof.
  intros _ H. eapply Forall_impl; [done |]. cbn. intros b Hb.
  apply (Forall_forall byte_ok (bytes_of alphabet)); [apply bytes_of_ok |].
  by eapply elem_of_take in Hb as (i & Hi & _); apply list_elem_of_lookup; eauto.
Qed.

(** [DeriveOutboundKey] on valid arguments is the symbol loop. *)
Lemma DeriveOutboundKey_unfold digest_of p intent :
  validateOutboundIntent intent = Ok () -> ValidateExternalProfile p = Ok () ->
  (forall c, digest_ok (digest_of c)) ->
  exists key,
    let bits := symbolBits (pr_KeyAlphabet p) in
    let n := Z.min (pr_KeyMaxLength p) (Z.quot digestBits bits) in
    key_symbols (bytes_of (pr_KeyAlphabet p)) (digest_of (intent_canonical intent)) bits 0
      (Z.to_nat n) = Ok key /\
    DeriveOutboundKey (mkOutboundKeyPolicy (Some digest_of)) p intent = Ok (string_of key) /\
    len key = n /\ bytes_of (string_of key) = key /\
    Forall (fun b => b ∈ take (Z.to_nat (2 ^ bits)) (bytes_of (pr_KeyAlphabet p))) key.
Proof.
  intros Hi Hp Hd. destruct (key_length_bits p Hp) as (Hb & Hn & Hmax & Hroom).
  set (bits := symbolBits _) in *. set (n := Z.min _ _) in *.
  destruct (key_symbols_ok (bytes_of (pr_KeyAlphabet p)) bits) with
    (d := digest_of (intent_canonical intent)) (i := 0) (n := Z.to_nat n)
    as (key & Hk & Hl & Hall); try done; try lia.
  exists key. split; [done |]. split.
  { unfold DeriveOutboundKey. rewrite Hi. cbn [mbind result_bind pol_Digest]. rewrite Hp.
    cbn [mbind result_bind]. fold bits. fold n. by rewrite Hk. }
  split; [unfold len; lia |]. split; [| done].
  apply bytes_of_string_of, (visible_bytes (pr_KeyAlphabet p) key _ (valid_alphabet p Hp) Hall).
Qed.

Definition intent_fits (i : OutboundIntent) : Prop :=
  string_fits (int_Tenant i) /\ string_fits (int_Destination i) /\
  string_fits (int_Operation i) /\ string_fits (int_IntentID i) /\ in_int64 (int_Generation i).

Definition intent_fields (i : OutboundIntent) : list field :=
  [FString outboundKeyDomain; FString (int_Tenant i); FString (int_Destination i);
   FString (int_Operation i); FString (int_IntentID i); FInt (int_Generation i)].

Lemma intent_canonical_fields i :
  intent_canonical i = concat (map encode_field (intent_fields i)).
Proof.
  transitivity (build [] (intent_fields i)); [| by rewrite build_encode].
  unfold intent_canonical, Canonical, NewFingerprint, build, intent_fields.
  cbn [foldl add_field]. reflexivity.
Qed.

Lemma intent_canonical_inj i1 i2 :
  intent_fits i1 -> intent_fits i2 -> intent_canonical i1 = intent_canonical i2 -> i1 = i2.
Proof.
  rewrite !intent_canonical_fields. intros (? & ? & ? & ? & ?) (? & ? & ? & ? & ?) Heq.
  assert (field_ok (FString outboundKeyDomain)) by by vm_compute.
  apply encode_fields_inj in Heq;
    [| unfold intent_fields; repeat (apply Forall_cons; split; [assumption |]);
       apply Forall_nil; exact I ..].
  destruct i1, i2. unfold intent_fields in Heq. cbn in *. congruence.
Qed.

(** on a valid intent and profile, and a digest of 32 bytes, deriving never
    fails nor panics; the key carries at least 128 bits, respects the partner's
    maximum length, and is written with the first [2^bits] symbols only. *)
Theorem DeriveOutboundKey_valid digest_of p intent :
  validateOutboundIntent intent = Ok () -> ValidateExternalProfile p = Ok () ->
  (forall c, digest_ok (digest_of c)) ->
  exists key,
    DeriveOutboundKey (mkOutboundKeyPolicy (Some digest_of)) p intent = Ok key /\
    minKeyBits <= len (bytes_of key) * symbolBits (pr_KeyAlphabet p) /\
    len (bytes_of key) <= pr_KeyMaxLength p /\
    Forall (fun b => b ∈ take (Z.to_nat (2 ^ symbolBits (pr_KeyAlphabet p)))
                           (bytes_of (pr_KeyAlphabet p))) (bytes_of key).
Proof.
  intros Hi Hp Hd. destruct (DeriveOutboundKey_unfold digest_of p intent Hi Hp Hd)
    as (key & _ & Hk & Hl & Hr & Hall).
  destruct (key_length_bits p Hp) as (_ & Hn & Hmax & _).
  exists (string_of key). rewrite Hr, Hl. repeat split; [done | lia | lia | done].
Qed.

(** distinct intents never share a key unless the digest itself gives
    distinct inputs the same first 128 bits. *)
Theorem DeriveOutboundKey_separates digest_of p i1 i2 key :
  (forall c, digest_ok (digest_of c)) -> intent_fits i1 -> intent_fits i2 -> i1 <> i2 ->
  DeriveOutboundKey (mkOutboundKeyPolicy (Some digest_of)) p i1 = Ok key ->
  DeriveOutboundKey (mkOutboundKeyPolicy (Some digest_of)) p i2 = Ok key ->
  exists c1 c2, c1 <> c2 /\ c1 = intent_canonical i1 /\ c2 = intent_canonical i2 /\
    forall j, 0 <= j < minKeyBits -> digest_bit (digest_of c1) j = digest_bit (digest_of c2) j.
Proof.
  intros Hd Hf1 Hf2 Hne Hk1 Hk2.
  assert (forall i, DeriveOutboundKey (mkOutboundKeyPolicy (Some digest_of)) p i = Ok key ->
    validateOutboundIntent i = Ok () /\ ValidateExternalProfile p = Ok ()) as Hvalid.
  { intros i. unfold DeriveOutboundKey. destruct (validateOutboundIntent i) as [[] | |]; try done.
    cbn [mbind result_bind pol_Digest]. by destruct (ValidateExternalProfile p) as [[] | |]. }
  destruct (Hvalid i1 Hk1) as [Hi1 Hp]. destruct (Hvalid i2 Hk2) as [Hi2 _].
  destruct (DeriveOutboundKey_unfold digest_of p i1 Hi1 Hp Hd) as (k1 & Hs1 & He1 & _ & Hb1 & _).
  destruct (DeriveOutboundKey_unfold digest_of p i2 Hi2 Hp Hd) as (k2 & Hs2 & He2 & _ & Hb2 & _).
  assert (k1 = k2) as -> by (rewrite <- Hb1, <- Hb2; congruence).
  destruct (key_length_bits p Hp) as (Hb & Hn & Hmax & Hroom).
  destruct (ValidateExternalProfile_ok p Hp) as (Hnd & _).
  exists (intent_canonical i1), (intent_canonical i2).
  split; [intros H; by apply Hne, intent_canonical_inj |]. repeat split. intros j Hj.
  eapply (key_symbols_inj _ _ Hnd Hb Hroom); [apply Hd | apply Hd | | | exact Hs1 | exact Hs2 |];
    rewrite ?Z2Nat.id by lia; lia.
Qed.

(** A concrete partner and digest, to apply the theorems to. *)
Module Partner.
Definition constant_digest (_ : bytes) : Digest := replicate 32 0xA5.
Definition profile : ExternalProfile :=
  mkExternalProfile KeyHeader EfficacyByObservation 0 false 3 "0123456789abcdef" 36.
Definition intent (id : string) : OutboundIntent := mkOutboundIntent "t1" "pay" "charge" id 0.

Lemma constant_digest_ok c : digest_ok (constant_digest c).
Proof. reflexivity. Qed.
Lemma intent_a_fits : intent_fits (intent "a").
Proof. repeat split; vm_compute; discriminate. Qed.
Lemma intent_b_fits : intent_fits (intent "b").
Proof. repeat split; vm_compute; discriminate. Qed.
End Partner.

Lemma DeriveOutboundKey_valid_witness :
  exists key,
    DeriveOutboundKey (mkOutboundKeyPolicy (Some Partner.constant_digest)) Partner.profile
      (Partner.intent "a") = Ok key /\
    minKeyBits <= len (bytes_of key) * symbolBits (pr_KeyAlphabet Partner.profile) /\
    len (bytes_of key) <= pr_KeyMaxLength Partner.profile /\
    Forall (fun b => b ∈ take (Z.to_nat (2 ^ symbolBits (pr_KeyAlphabet Partner.profile)))
                           (bytes_of (pr_KeyAlphabet Partner.profile))) (bytes_of key).
Proof.
  apply (DeriveOutboundKey_valid Partner.constant_digest Partner.profile (Partner.intent "a"));
    [vm_compute; reflexivity | vm_compute; reflexivity | exact Partner.constant_digest_ok].
Defined.

Lemma DeriveOutboundKey_separates_witness :
  exists c1 c2, c1 <> c2 /\ c1 = intent_canonical (Partner.intent "a") /\
    c2 = intent_canonical (Partner.intent "b") /\
    forall j, 0 <= j < minKeyBits ->
      digest_bit (Partner.constant_digest c1) j = digest_bit (Partner.constant_digest c2) j.
Proof.
  apply (DeriveOutboundKey_separates Partner.constant_digest Partner.profile (Partner.intent "a")
    (Partner.intent "b") "a5a5a5a5a5a5a5a5a5a5a5a5a5a5a5a5a5a5");
    [exact Partner.constant_digest_ok | exact Partner.intent_a_fits | exact Partner.intent_b_fits
    | discriminate | vm_compute; reflexivity | vm_compute; reflexivity].
Defined.

(** * What a step may do *)

(** The partner answers twice to one key as to one request, or its absence is
    final. *)
Definition absence_is_safe (p : ExternalProfile) : Prop :=
  pr_KeySemantics p = KeyNative \/ pr_KeySemantics p = KeyHeader \/
  pr_AuthoritativeAbsence p = true.

Lemma awaitOrReconcile_two i : awaitOrReconcile i = StepAwait \/ awaitOrReconcile i = StepReconcile.
Proof. unfold awaitOrReconcile. case_match; auto. Qed.
Lemma queryOrReconcile_two i : queryOrReconcile i = StepQuery \/ queryOrReconcile i = StepReconcile.
Proof. unfold queryOrReconcile. case_match; auto. Qed.

(** [steps i] leaves one goal per branch of [NextStep i]. *)
Ltac steps i :=
  unfold NextStep, stepForFinding; destruct (si_Finding i);
  [rewrite (bool_decide_true (FindingNone = FindingNone)) by done; destruct (si_Class i)
  | rewrite bool_decide_false by done ..]; cbn;
  try destruct (awaitOrReconcile_two i) as [-> | ->];
  try destruct (queryOrReconcile_two i) as [-> | ->];
  try case_bool_decide.

(** the effect is submitted again in exactly two situations: the attempt
    failed in a class that left no effect and nothing was observed since, or an
    observation says the effect is absent from a partner whose absence can be
    trusted. An uncertain attempt is never resent. *)
Theorem NextStep_retry i :
  NextStep i = StepRetry <->
  (si_Finding i = FindingNone /\ Retryable (si_Class i) = true) \/
  (si_Finding i = FindingAbsent /\ absence_is_safe (si_Profile i)).
Proof.
  unfold absence_is_safe. steps i; try (split; [discriminate | intros [[? ?] | [? ?]]; discriminate]);
    try (split; intros _; [left; split; reflexivity | reflexivity]);
    destruct (pr_KeySemantics (si_Profile i)), (pr_AuthoritativeAbsence (si_Profile i));
    cbn; (split; [try discriminate; intros _; right; auto 6 | intuition discriminate]).
Qed.

(** confirming needs proof of the effect: an observation that it was
    applied, or an acceptance by a partner whose acceptance is the effect;
    and giving up needs a refusal. *)
Theorem NextStep_conclusive i :
  (NextStep i = StepConfirm <->
     si_Finding i = FindingApplied \/
     (si_Finding i = FindingNone /\ si_Class i = ClassAccepted /\
      pr_Efficacy (si_Profile i) = EfficacyOnSubmit)) /\
  (NextStep i = StepFail <->
     si_Finding i = FindingRejected \/
     (si_Finding i = FindingNone /\
      si_Class i ∈ [ClassFinalValidation; ClassFinalBusiness; ClassFinalAuthorization])).
Proof.
  rewrite !elem_of_cons, elem_of_nil.
  steps i; repeat case_match; try case_bool_decide; intuition discriminate.
Qed.

(** querying and waiting are bounded: once the ceiling of queries of the
    profile is reached, no further query or wait is chosen, and a query is
    chosen only where one can be made. *)
Theorem NextStep_bounded i :
  (NextStep i = StepQuery -> si_QueryAvailable i = true) /\
  (pr_MaxQueries (si_Profile i) <= si_QueriesDone i ->
   NextStep i <> StepQuery /\ NextStep i <> StepAwait).
Proof.
  unfold NextStep, stepForFinding, awaitOrReconcile, queryOrReconcile.
  destruct (Z.ltb_spec (si_QueriesDone i) (pr_MaxQueries (si_Profile i)));
    destruct (si_QueryAvailable i); cbn; split; intros; repeat case_match;
    naive_solver lia.
Qed.
