(* ===== verification/Interfaces.v ===== *)
(** The ports as interfaces over a world of type [W]: each Go interface is a
    record of operations in the state-and-error monad, and what a component
    promises to its clients is a class over that record.  [Reception.Match] of
    [ports/inbox.go] is here because its first branch runs a [Pending]. *)

From S2P Require Import Prelude DomainKernel Errors Ports.

(** The cells of the carrier's slots, inside the world. *)
Class HasSlots (W : Type) := {
  get_slots : W -> Slots;
  set_slots : Slots -> W -> W;
  get_set_slots : forall s w, get_slots (set_slots s w) = s
}.

Section Interfaces.
Context {W : Type}.

(** An operation that cannot fail. *)
Definition run {A} (f : W -> A * W) : M W error A := fun w => let '(a, w') := f w in (Ok a, w').

(** [clock.go] *)
Record Clock := mkClock { Now : W -> Instant * W }.
Record IDGenerator := mkIDGenerator { NewMessageID : W -> MessageID * W }.

(** [inbox.go] *)
Record Pending := mkPending {
  Complete : Ctx -> Completion -> M W error unit;
  Completed : W -> bool
}.

Inductive Reception :=
| ReceptionZero
| FirstReception (p : Pending)
| ProcessedReception (stored : bytes)
| RejectedReception (stored : bytes)
| CollisionReception.

Definition Stored (r : Reception) : bytes :=
  match r with ProcessedReception b | RejectedReception b => b | _ => [] end.

Definition Reception_Match {A} (r : Reception) (first : Pending -> M W error A)
    (processed rejected collision : M W error A) : M W error A :=
  match r with
  | FirstReception p =>
      a ← first p;
      completed ← gets (Completed p);
      if completed : bool then mret a else throw ErrPendingNotCompleted
  | ProcessedReception _ => processed
  | RejectedReception _ => rejected
  | CollisionReception => collision
  | ReceptionZero => panic "ports: Reception zero value has no classification"
  end.

Record Inbox := mkInbox { inbox_Register : Ctx -> Receipt -> M W error Reception }.

(** [outbox.go] *)
Record Outbox (Event : Type) := mkOutbox {
  outbox_Enqueue : Ctx -> OutboxEntry Event -> M W error unit
}.

(** [repository.go]: every identifier of the contexts is a string type. *)
Record Reader (S : Type) := mkReader {
  reader_Load : Ctx -> string -> M W error (S * Version)
}.
Record Repository (S : Type) := mkRepository {
  repo_Reader : Reader S;
  repo_Save : Ctx -> string -> S -> Version -> M W error unit
}.

(** [uow.go]: the callback's captured results are its value. *)
Record UnitOfWork (R : Type) := mkUnitOfWork {
  Within : forall A, Ctx -> (Ctx -> R -> M W error A) -> M W error A
}.

(** [attempt_ledger.go] *)
Record AttemptLedger := mkAttemptLedger {
  ledger_Begin : Ctx -> OutboundKey -> MessageID -> Instant -> M W error AttemptStart;
  ledger_Finish : Ctx -> AttemptOutcome -> M W error Finished;
  ledger_Observe : Ctx -> Observation -> Instant -> M W error Observed;
  ledger_Stale : Ctx -> Instant -> AttemptCursor -> Z -> M W error (list Attempt)
}.

(** [external.go]: the class is always set, the error only carries the cause. *)
Record ExternalCommand := mkExternalCommand {
  Submit : Ctx -> OutboundKey -> bytes -> W -> (ExternalClass * Observation * option error) * W
}.

(** [instrumentation.go]: its operations answer no error, and may panic. *)
Record Instrumentation := mkInstrumentation {
  BeginOperation : Ctx -> string -> M W Empty_set (Ctx * (Result -> M W Empty_set unit));
  Audit : Ctx -> AuditEvent -> M W Empty_set unit
}.
Definition NoInstrumentation : Instrumentation :=
  mkInstrumentation (fun ctx _ => mret (ctx, fun _ => mret ())) (fun _ _ => mret ()).

(** A call that answers no error, inside a body that may: its panic goes on. *)
Definition unfailing {A} (m : M W Empty_set A) : M W error A := fun w =>
  let '(r, w') := m w in
  (match r with Ok a => Ok a | Panic p => Panic p | Err e => match e with end end, w').

(** The carrier's marks, as effects on the world. *)
Definition mark `{HasSlots W} (f : Slots -> Slots) : M W error unit :=
  modify (fun w => set_slots (f (get_slots w)) w).

(** * Promises *)

(** [view] is the part of the world a promise is about; a computation confined
    to the rest leaves it as it found it, however it ends. *)
Section Confined.
Context {C : Type} (view : W -> C).

Definition Confined {A} (m : M W error A) : Prop :=
  forall w r w', m w = (r, w') -> view w' = view w.

Lemma Confined_ret {A} (a : A) : Confined (mret a).
Proof. intros w r w' [= <- <-]. done. Qed.
Lemma Confined_throw {A} e : Confined (throw (A := A) e).
Proof. intros w r w' [= <- <-]. done. Qed.
Lemma Confined_panic {A} s : Confined (panic (A := A) s).
Proof. intros w r w' [= <- <-]. done. Qed.
Lemma Confined_gets {A} (f : W -> A) : Confined (gets f).
Proof. intros w r w' [= <- <-]. done. Qed.
Lemma Confined_lift {A} (r : result error A) : Confined (lift r).
Proof. intros w r' w' [= <- <-]. done. Qed.
Lemma Confined_bind {A B} (m : M W error A) (f : A -> M W error B) :
  Confined m -> (forall a, Confined (f a)) -> Confined (m ≫= f).
Proof.
  intros Hm Hf w r w'. unfold mbind, M_bind.
  destruct (m w) as [[a | e | p] w1] eqn:E'; intros Hr.
  - rewrite (Hf a _ _ _ Hr). by eapply Hm.
  - simplify_eq. by eapply Hm.
  - simplify_eq. by eapply Hm.
Qed.
Lemma Confined_run {A} (f : W -> A * W) :
  (forall w, view (f w).2 = view w) -> Confined (run f).
Proof. intros Hf w r w'. unfold run. specialize (Hf w). destruct (f w). naive_solver. Qed.
(** A call made before an error is handed on. *)
Lemma Confined_failing {A B} (m : M W error A) e : Confined m -> Confined (_ ← m; throw (A := B) e).
Proof. intros Hm. apply Confined_bind; [done | intros _; apply Confined_throw]. Qed.
Lemma Confined_unfailing {A} (m : M W Empty_set A) :
  (forall w, view (m w).2 = view w) -> Confined (unfailing m).
Proof. intros Hm w r w'. unfold unfailing. specialize (Hm w). destruct (m w). naive_solver. Qed.
Lemma Confined_modify (f : W -> W) : (forall w, view (f w) = view w) -> Confined (modify f).
Proof. intros Hf w r w' [= <- <-]. apply Hf. Qed.
Lemma Confined_map_err {A} g (m : M W error A) : Confined m -> Confined (map_err g m).
Proof.
  intros Hm w r w'. unfold map_err. destruct (m w) as [[a | e | p] w1] eqn:E';
    intros [= <- <-]; by eapply Hm.
Qed.
Lemma Confined_attempt {A} (m : M W error A) : Confined m -> Confined (attempt m).
Proof.
  intros Hm w r w'. unfold attempt. destruct (m w) as [[a | e | p] w1] eqn:E';
    intros [= <- <-]; by eapply Hm.
Qed.
Lemma Confined_Match {A} r (first : Pending -> M W error A) processed rejected collision :
  (forall p, Confined (first p)) -> Confined processed -> Confined rejected ->
  Confined collision -> Confined (Reception_Match r first processed rejected collision).
Proof.
  intros Hf Hp Hr Hc. destruct r; cbn; auto using Confined_panic.
  apply Confined_bind; [auto | intros a]. apply Confined_bind; [apply Confined_gets |].
  intros []; auto using Confined_ret, Confined_throw.
Qed.
End Confined.

Lemma Confined_bind_at {C A B} (view : W -> C) (m : M W error A) (f : A -> M W error B) :
  Confined view m -> (forall a w w', m w = (Ok a, w') -> Confined view (f a)) ->
  Confined view (m ≫= f).
Proof.
  intros Hm Hf w r w'. unfold mbind, M_bind.
  destruct (m w) as [[a | e | p] w1] eqn:E'; intros Hr.
  - rewrite (Hf a _ _ E' _ _ _ Hr). by eapply Hm.
  - simplify_eq. by eapply Hm.
  - simplify_eq. by eapply Hm.
Qed.

(** An inbox whose receptions, completed or not, leave [view] alone. *)
Class ConfinedInbox {C} (view : W -> C) (inbox : Inbox) := {
  register_confined : forall ctx r, Confined view (inbox_Register inbox ctx r);
  complete_confined : forall ctx r w p w', inbox_Register inbox ctx r w = (Ok (FirstReception p), w') ->
    forall ctx' c, Confined view (Complete p ctx' c)
}.

(** An instrumentation that leaves [view] alone, the panicking calls included. *)
Class ConfinedInstrumentation {C} (view : W -> C) (inst : Instrumentation) := {
  begin_confined : forall ctx op, Confined view (unfailing (BeginOperation inst ctx op));
  end_confined : forall ctx op w ctx' end_ w', BeginOperation inst ctx op w = (Ok (ctx', end_), w') ->
    forall res, Confined view (unfailing (end_ res));
  audit_confined : forall ctx event, Confined view (unfailing (Audit inst ctx event))
}.
#[export] Instance NoInstrumentation_confined {C} (view : W -> C) :
  ConfinedInstrumentation view NoInstrumentation.
Proof.
  split; [by intros ctx op w r w' [= _ <-] | | by intros ctx event w r w' [= _ <-]].
  by intros ctx op w ctx' end_ w' [= <- <- <-] res w0 r w1 [= _ <-].
Qed.

(** What a unit of work promises about the durable part of the world: a
    callback that never touches it directly reaches it only through a commit,
    and everything else leaves it untouched. *)
Class AtomicUnit {C R} (view : W -> C) (uow : UnitOfWork R) := {
  unit_atomic : forall A ctx (fn : Ctx -> R -> M W error A) w r w',
    (forall ctx res, Confined view (fn ctx res)) ->
    Within R uow A ctx fn w = (r, w') -> is_Ok r = false -> view w' = view w;
  unit_cancelled : forall A ctx (fn : Ctx -> R -> M W error A) w e,
    ctx_Err ctx = Some e -> Within R uow A ctx fn w = (Err e, w)
}.

(** A call that answers no error ends in a value or in a panic. *)
Lemma unfailing_bind {A B} (m : M W Empty_set A) (f : A -> M W error B) w :
  (unfailing m ≫= f) w =
  match m w with
  | (Ok a, w1) => f a w1
  | (Panic p, w1) => (Panic p, w1)
  | (Err e, _) => match e with end
  end.
Proof. unfold mbind, M_bind, unfailing. by destruct (m w) as [[a | [] | p] w1]. Qed.
(** The calls that follow an answer move nothing of their own accord, and hand
    the answer on or panic. *)
Lemma Confined_told {C A} (view : W -> C) (m1 m2 : M W Empty_set unit) (b : bool) (a : A) :
  Confined view (unfailing m1) -> Confined view (unfailing m2) ->
  Confined view (_ ← unfailing m1; _ ← (if b then unfailing m2 else mret ()); mret a).
Proof.
  intros H1 H2. apply Confined_bind; [done | intros _].
  apply Confined_bind; [destruct b; [done | apply Confined_ret] | intros _; apply Confined_ret].
Qed.
Lemma told_ends {A} (m1 m2 : M W Empty_set unit) (b : bool) (a : A) w r w' :
  (_ ← unfailing m1; _ ← (if b then unfailing m2 else mret ()); mret a) w = (r, w') ->
  r = Ok a \/ exists p, r = Panic p.
Proof.
  rewrite unfailing_bind. destruct (m1 w) as [[[] | [] | p] w1]; [| intros [= <- _]; eauto].
  destruct b; [| intros [= <- _]; eauto].
  rewrite unfailing_bind. destruct (m2 w1) as [[[] | [] | p] w2]; intros [= <- _]; eauto.
Qed.

(** A body under an instrumentation is confined when what it calls is. *)
Lemma Confined_opened {C A} (view : W -> C) inst ctx op
    (body : Ctx -> (Result -> M W Empty_set unit) -> M W error A) :
  ConfinedInstrumentation view inst ->
  (forall ctx' end_, (forall res, Confined view (unfailing (end_ res))) ->
     Confined view (body ctx' end_)) ->
  Confined view (opened ← unfailing (BeginOperation inst ctx op);
                 let '(ctx', end_) := opened in body ctx' end_).
Proof.
  intros Hi Hb. apply Confined_bind_at; [apply begin_confined |].
  intros [ctx' end_] w w' Ho. apply Hb. unfold unfailing in Ho.
  destruct (BeginOperation inst ctx op w) as [[[c1 e1] | [] | p] w1] eqn:E; [| done].
  injection Ho as -> -> _. by eapply end_confined.
Qed.
End Interfaces.
Arguments Clock : clear implicits.
Arguments IDGenerator : clear implicits.
Arguments Pending : clear implicits.
Arguments Reception : clear implicits.
Arguments Inbox : clear implicits.
Arguments Outbox : clear implicits.
Arguments mkOutbox {W Event}.
Arguments outbox_Enqueue {W Event}.
Arguments Reader : clear implicits.
Arguments mkReader {W S}.
Arguments reader_Load {W S}.
Arguments Repository : clear implicits.
Arguments mkRepository {W S}.
Arguments repo_Reader {W S}.
Arguments repo_Save {W S}.
Arguments UnitOfWork : clear implicits.
Arguments mkUnitOfWork {W R}.
Arguments Within {W R} _ {A}.
Arguments AttemptLedger : clear implicits.
Arguments ExternalCommand : clear implicits.
Arguments Instrumentation : clear implicits.

Create HintDb confined.
#[export] Hint Resolve Confined_ret Confined_throw Confined_panic Confined_gets Confined_lift
  Confined_map_err Confined_attempt Confined_Match : confined.
#[export] Hint Extern 2 (Confined _ (_ ≫= _)) => apply Confined_bind; [| intros] : confined.
#[export] Hint Extern 3 (Confined _ (match ?x with _ => _ end)) => destruct x : confined.
