(* ===== verification/Memory.v ===== *)
(** The in-memory realization of the ports ([src/libs/backend/go/memory]):
    the store, its transactions, the tables with their unique constraints, the
    inbox and the outbox.  The attempt ledger is in [Ledger].

    Only one transaction is open at a time (the store's [txMu]), so executions
    are sequences of operations; a working copy is a heap cell of the world, and
    a port that escapes its callback still points at it. *)

From S2P Require Import Prelude Regex DomainKernel Errors Ports Interfaces.

Definition ErrTenantUnresolved : error := Sentinel "memory.ErrTenantUnresolved".
Definition ErrInboxConsumerRequired : error := Sentinel "memory.ErrInboxConsumerRequired".
Definition ErrInboxConsumerMismatch : error := Sentinel "memory.ErrInboxConsumerMismatch".
Definition ErrAlreadyCompleted : error := Sentinel "memory.ErrAlreadyCompleted".
Definition ErrInvalidCompletion : error := Sentinel "memory.ErrInvalidCompletion".
Definition ErrIncompleteAttemptStore : error := Sentinel "memory.ErrIncompleteAttemptStore".
Definition ErrCommandExpiryRequired : error := Sentinel "memory.ErrCommandExpiryRequired".

(** * Rows *)

(** [rowKey]: the tenant and the identifier. *)
Definition rowKey : Type := TenantID * string.
Definition inboxKey : Type := string * MessageID.
Definition attemptKey : Type := TenantID * OutboundKey.

Record inboxRow := mkInboxRow {
  ir_hash : string;
  ir_status : Status;
  ir_lastError : string;
  ir_outcome : bytes;
  ir_expiresAt : Instant
}.

Record attemptConflict := mkAttemptConflict {
  ac_class : ExternalClass;
  ac_finding : Finding;
  ac_at : Instant
}.
Record attemptRow := mkAttemptRow {
  ar_messageID : MessageID;
  ar_startedAt : Instant;
  ar_finished : bool;
  ar_finishedAt : Instant;
  ar_class : ExternalClass;
  ar_observation : Observation;
  ar_finding : Finding;
  ar_observedAt : Instant;
  ar_seen : list string;
  ar_queries : Z;
  ar_conflicts : list attemptConflict
}.

Definition scopedKey (ctx : Ctx) (id : string) : result error rowKey :=
  execution ← RequireExecutionContext ctx;
  match Tenant execution with
  | None => Err ErrTenantUnresolved
  | Some t => Ok (t, id)
  end.

Definition expired (row : inboxRow) (at_ : Instant) : bool :=
  negb (ir_expiresAt row =? 0) && (ir_expiresAt row <=? at_).

Section Memory.
(** [Any] is Go's [any] for snapshots, [Event] the domain events, [X] the part
    of the world other components own. *)
Context {Any Event X : Type}.

Record row := mkRow { row_snapshot : Any; row_version : Version }.
Record table := mkTable { tbl_rows : gmap rowKey row; tbl_clone : option (Any -> Any) }.

Record Store := mkStore {
  st_tables : gmap string table;
  st_inbox : gmap inboxKey inboxRow;
  st_outbox : list (OutboxEntry Event);
  st_attempts : gmap attemptKey (list attemptRow);
  st_withinCalls : Z;
  st_commits : Z;
  st_failNextCommit : option error
}.
Definition New : Store := mkStore ∅ ∅ [] ∅ 0 0 None.

Record Tx := mkTx {
  tx_tables : gmap string table;
  tx_inbox : gmap inboxKey inboxRow;
  tx_outbox : list (OutboxEntry Event);
  tx_attempts : gmap attemptKey (list attemptRow);
  tx_writes : Z
}.

(** The world: the store, the working copies, the pending receptions, the
    carrier's slots and the rest. *)
Record World := mkWorld {
  w_store : Store;
  w_txs : gmap loc Tx;
  w_next_tx : loc;
  w_locked : bool;                    (* [txMu] *)
  w_pendings : gmap loc bool;         (* [memoryPending.completed] *)
  w_next_pending : loc;
  w_slots : Slots;
  w_rest : X
}.

#[export] Instance World_slots : HasSlots World := {
  get_slots := w_slots;
  set_slots s w := mkWorld (w_store w) (w_txs w) (w_next_tx w) (w_locked w) (w_pendings w)
    (w_next_pending w) s (w_rest w);
  get_set_slots _ _ := eq_refl
}.

Definition set_store (s : Store) (w : World) : World :=
  mkWorld s (w_txs w) (w_next_tx w) (w_locked w) (w_pendings w) (w_next_pending w)
    (w_slots w) (w_rest w).
Definition set_locked (b : bool) (w : World) : World :=
  mkWorld (w_store w) (w_txs w) (w_next_tx w) b (w_pendings w) (w_next_pending w)
    (w_slots w) (w_rest w).
Definition set_tx (id : loc) (tx : Tx) (w : World) : World :=
  mkWorld (w_store w) (<[id := tx]> (w_txs w)) (w_next_tx w) (w_locked w) (w_pendings w)
    (w_next_pending w) (w_slots w) (w_rest w).
Definition set_pending (id : loc) (b : bool) (w : World) : World :=
  mkWorld (w_store w) (w_txs w) (w_next_tx w) (w_locked w) (<[id := b]> (w_pendings w))
    (w_next_pending w) (w_slots w) (w_rest w).

(** Following the pointer to a working copy. *)
Definition get_tx (id : loc) : M World error Tx := fun w =>
  match w_txs w !! id with
  | Some tx => (Ok tx, w)
  | None => (Panic "nil pointer dereference", w)
  end.
Definition put_tx (id : loc) (tx : Tx) : M World error unit := modify (set_tx id tx).

(** ** Copies *)
Definition cloneRows (t : table) : table :=
  mkTable
    match tbl_clone t with
    | None => tbl_rows t
    | Some clone => (fun rec => mkRow (clone (row_snapshot rec)) (row_version rec)) <$> tbl_rows t
    end (tbl_clone t).
Definition cloneTables (src : gmap string table) : gmap string table := cloneRows <$> src.

(** * Inspection ([store.go]) *)
Definition InboxRows (s : Store) : Z := Z.of_nat (size (st_inbox s)).
Definition InboxStatus (s : Store) (consumer : string) (id : MessageID) : option Status :=
  ir_status <$> st_inbox s !! (consumer, id).
Definition InboxLastError (s : Store) (consumer : string) (id : MessageID) : option string :=
  ir_lastError <$> st_inbox s !! (consumer, id).
Definition AttemptConflicts (s : Store) (t : TenantID) (key : OutboundKey) : Z :=
  foldl (fun n row => n + len (ar_conflicts row)) 0 (default [] (st_attempts s !! (t, key))).
Definition AttemptObservationIDs (s : Store) (t : TenantID) (key : OutboundKey) : Z :=
  foldl (fun n row => n + len (ar_seen row)) 0 (default [] (st_attempts s !! (t, key))).
Definition FailNextCommit (s : Store) (e : error) : Store :=
  mkStore (st_tables s) (st_inbox s) (st_outbox s) (st_attempts s) (st_withinCalls s)
    (st_commits s) (Some e).

(** * Tables *)
Record Unique (S : Type) := mkUnique {
  u_Name : string;
  u_Key : option (S -> option (list string));   (* [None] is a nil function *)
  u_Rejection : option Rejection
}.
Arguments mkUnique {S}.
Arguments u_Name {S}.
Arguments u_Key {S}.
Arguments u_Rejection {S}.

(** [box] and [unbox] are the conversion to [any] and the type assertion. *)
Record Table (S : Type) := mkTableDecl {
  t_Name : string;
  t_Clone : option (S -> S);
  t_Unique : list (Unique S);
  t_box : S -> Any;
  t_unbox : Any -> option S
}.
Arguments mkTableDecl {S}.
Arguments t_Name {S}.
Arguments t_Clone {S}.
Arguments t_Unique {S}.
Arguments t_box {S}.
Arguments t_unbox {S}.

Section Tables.
Context {S : Type} (t : Table S).

Fixpoint validate_uniques (names : list string) (us : list (Unique S)) : result error unit :=
  match us with
  | [] => Ok ()
  | u :: us' =>
      if String.eqb (u_Name u) "" then Panic "unique constraint without a name"
      else match u_Key u, u_Rejection u with
      | None, _ => Panic "unique constraint declared without a key"
      | _, None => Panic "unique constraint declared without a rejection"
      | Some _, Some r =>
          if negb (Valid (rej_code r)) then Panic "unique constraint has an invalid rejection code"
          else if bool_decide (u_Name u ∈ names) then Panic "unique constraint declared twice"
          else validate_uniques (u_Name u :: names) us'
      end
  end.
Definition validate : result error unit := validate_uniques [] (t_Unique t).

Definition table_copy (s : S) : S :=
  match t_Clone t with None => s | Some clone => clone s end.
Definition erasedClone : option (Any -> Any) :=
  match t_Clone t with
  | None => None
  | Some clone => Some (fun v =>
      match t_unbox t v with Some s => t_box t (clone s) | None => v end)
  end.

(** The inner loop of [violation]: does another row of the same tenant hold
    the key wanted.  The map's iteration order is not specified; the answer
    does not depend on it.  A nil key is refused by [validate] before a
    repository exists, and every row of a table holds a snapshot of its
    type, so neither case below arises. *)
Definition row_collides (key : rowKey) (keyOf : S -> option (list string))
    (want : list string) (kr : rowKey * row) : bool :=
  let '((tenant_, id), rec) := kr in
  if negb (String.eqb tenant_ key.1) || String.eqb id key.2 then false
  else match t_unbox t (row_snapshot rec) with
  | Some s => bool_decide (keyOf s = Some want)
  | None => false
  end.
Fixpoint violation_loop (us : list (Unique S)) (rows : gmap rowKey row) (key : rowKey)
    (state : S) (priorWrites : Z) : option error :=
  match us with
  | [] => None
  | u :: us' =>
      match u_Key u with
      | None => violation_loop us' rows key state priorWrites
      | Some keyOf =>
          match keyOf state with
          | None => violation_loop us' rows key state priorWrites
          | Some want =>
              if existsb (row_collides key keyOf want) (map_to_list rows)
              then Some (UniqueViolation (t_Name t) (u_Name u)
                           (if priorWrites =? 0 then u_Rejection u else None))
              else violation_loop us' rows key state priorWrites
          end
      end
  end.
Definition violation (rows : table) (key : rowKey) (state : S) (priorWrites : Z)
  : option error := violation_loop (t_Unique t) (tbl_rows rows) key state priorWrites.

(** [miss]: the lowest other tenant that holds the identifier. *)
Definition miss_owner (rows : gmap rowKey row) (key : rowKey) : TenantID :=
  foldl (fun owner kr =>
    let '((tenant_, id), _) := kr : rowKey * row in
    if String.eqb id key.2 && negb (String.eqb tenant_ key.1)
       && (String.eqb owner "" || String.ltb tenant_ owner)
    then tenant_ else owner) ""%string (map_to_list rows).
Definition miss (rows : gmap rowKey row) (name : string) (key : rowKey) : error :=
  let owner := miss_owner rows key in
  if String.eqb owner "" then ErrNotFound
  else CrossTenantAccess (name ++ "/" ++ key.2)%string key.1 owner.

Definition table_load (ctx : Ctx) (from : gmap string table) (id : string)
    : result error (S * Version) :=
  key ← scopedKey ctx id;
  match from !! t_Name t with
  | None => Err ErrNotFound
  | Some rows =>
      match tbl_rows rows !! key with
      | None => Err (miss (tbl_rows rows) (t_Name t) key)
      | Some rec =>
          match t_unbox t (row_snapshot rec) with
          | Some s => Ok (table_copy s, row_version rec)
          | None => Panic "interface conversion"
          end
      end
  end.

(** [Tx.table] followed by the body of [saveAs]: the working copy it leaves
    and its error. *)
Definition saveAs (tx : Tx) (key : rowKey) (state : S) (expected : Version)
    : option error * Tx :=
  let rows := default (mkTable ∅ erasedClone) (tx_tables tx !! t_Name t) in
  let opened := mkTx (<[t_Name t := rows]> (tx_tables tx)) (tx_inbox tx) (tx_outbox tx)
                  (tx_attempts tx) (tx_writes tx) in
  let current := match tbl_rows rows !! key with Some rec => row_version rec | None => 0 end in
  if negb (current =? expected) then (Some ErrVersionConflict, opened)
  else match violation rows key state (tx_writes tx) with
  | Some e => (Some e, opened)
  | None =>
      let rec := mkRow (t_box t (table_copy state)) (wrapu64 (expected + 1)) in
      let rows' := mkTable (<[key := rec]> (tbl_rows rows)) (tbl_clone rows) in
      (None, mkTx (<[t_Name t := rows']> (tx_tables opened)) (tx_inbox tx) (tx_outbox tx)
               (tx_attempts tx) (tx_writes tx + 1))
  end.

(** The read-only view of the committed state, and the transactional one. *)
Definition storeReader : Reader World S :=
  mkReader (fun ctx id => fun w => (table_load ctx (st_tables (w_store w)) id, w)).
Definition txReader (id : loc) : Reader World S :=
  mkReader (fun ctx key => tx ← get_tx id; lift (table_load ctx (tx_tables tx) key)).
Definition tx_Save (id : loc) (ctx : Ctx) (key : string) (state : S) (expected : Version)
    : M World error unit :=
  scoped ← lift (scopedKey ctx key);
  tx ← get_tx id;
  let '(err, tx') := saveAs tx scoped state expected in
  _ ← put_tx id tx';
  match err with Some e => throw e | None => mret () end.
Definition table_Repository (id : loc) : result error (Repository World S) :=
  _ ← validate; Ok (mkRepository (txReader id) (tx_Save id)).
End Tables.

(** * Outbox *)
Definition tx_Outbox (id : loc) : Outbox World Event :=
  mkOutbox (fun _ entry =>
    tx ← get_tx id;
    put_tx id (mkTx (tx_tables tx) (tx_inbox tx) (tx_outbox tx ++ [entry]) (tx_attempts tx)
                 (tx_writes tx + 1))).

(** * Inbox ([inbox.go]) *)
Definition set_inbox_row (tx : Tx) (key : inboxKey) (r : inboxRow) : Tx :=
  mkTx (tx_tables tx) (<[key := r]> (tx_inbox tx)) (tx_outbox tx) (tx_attempts tx) (tx_writes tx).

Definition pending_Complete (id p : loc) (key : inboxKey) (hash : string) (expiresAt : Instant)
    (c : Completion) : M World error unit :=
  completed ← gets (fun w => default false (w_pendings w !! p));
  if completed : bool then throw ErrAlreadyCompleted
  else if negb (bool_decide (cmp_Status c = StatusProcessed))
          && negb (bool_decide (cmp_Status c = StatusRejected))
  then throw ErrInvalidCompletion
  else
    tx ← get_tx id;
    _ ← put_tx id (set_inbox_row tx key
                     (mkInboxRow hash (cmp_Status c) (cmp_LastError c) (cmp_Outcome c) expiresAt));
    modify (set_pending p true).

Definition memoryPending (id p : loc) (key : inboxKey) (hash : string) (expiresAt : Instant)
    : Pending World :=
  mkPending (fun _ c => pending_Complete id p key hash expiresAt c)
    (fun w => default false (w_pendings w !! p)).

(** [&memoryPending{…}]: a fresh cell. *)
Definition new_pending : M World error loc := fun w =>
  (Ok (w_next_pending w),
   mkWorld (w_store w) (w_txs w) (w_next_tx w) (w_locked w)
     (<[w_next_pending w := false]> (w_pendings w)) (S (w_next_pending w)) (w_slots w) (w_rest w)).

Definition command_id (tenant_ : TenantID) (id : MessageID) : MessageID :=
  (tenant_ ++ "/" ++ id)%string.

Definition tx_Register (id : loc) (consumer : string) (commands : bool) (ctx : Ctx) (r : Receipt)
    : M World error (Reception World) :=
  if String.eqb consumer "" || String.eqb (rcp_Consumer r) "" then throw ErrInboxConsumerRequired
  else if negb (String.eqb (rcp_Consumer r) consumer) then throw ErrInboxConsumerMismatch
  else
    mid ← (if commands then
             if rcp_ExpiresAt r <=? rcp_ReceivedAt r then throw ErrCommandExpiryRequired
             else
               scoped ← lift (scopedKey ctx (rcp_MessageID r));
               mret (command_id scoped.1 (rcp_MessageID r))
           else mret (rcp_MessageID r));
    let key := (consumer, mid) in
    tx ← get_tx id;
    let first :=
      p ← new_pending;
      mret (FirstReception (memoryPending id p key (rcp_PayloadHash r) (rcp_ExpiresAt r))) in
    match tx_inbox tx !! key with
    | Some existing =>
        if expired existing (rcp_ReceivedAt r) then first
        else if negb (String.eqb (ir_hash existing) (rcp_PayloadHash r))
        then mret CollisionReception
        else if bool_decide (ir_status existing = StatusProcessed)
        then mret (ProcessedReception (ir_outcome existing))
        else mret (RejectedReception (ir_outcome existing))
    | None => first
    end.
Definition txInbox (id : loc) (consumer : string) : Inbox World :=
  mkInbox (tx_Register id consumer false).
Definition CommandInbox (id : loc) (consumer : string) : Inbox World :=
  mkInbox (tx_Register id consumer true).

(** * Transactions ([tx.go]) *)
Definition tx_open (w : World) : loc * World :=
  let s := w_store w in
  let tx := mkTx (cloneTables (st_tables s)) (st_inbox s) [] (st_attempts s) 0 in
  let s' := mkStore (st_tables s) (st_inbox s) (st_outbox s) (st_attempts s)
              (st_withinCalls s + 1) (st_commits s) (st_failNextCommit s) in
  (w_next_tx w,
   mkWorld s' (<[w_next_tx w := tx]> (w_txs w)) (S (w_next_tx w)) true (w_pendings w)
     (w_next_pending w) (w_slots w) (w_rest w)).

Definition tx_commit (id : loc) (w : World) : option error * World :=
  let s := w_store w in
  match st_failNextCommit s with
  | Some e =>
      (Some e, set_store (mkStore (st_tables s) (st_inbox s) (st_outbox s) (st_attempts s)
                 (st_withinCalls s) (st_commits s) None) w)
  | None =>
      match w_txs w !! id with
      | None => (None, w)   (* the transaction was opened by this very call *)
      | Some tx =>
          (None, set_store (mkStore (cloneTables (tx_tables tx)) (tx_inbox tx)
                   (st_outbox s ++ tx_outbox tx) (tx_attempts tx) (st_withinCalls s)
                   (st_commits s + 1) None) w)
      end
  end.

(** A nested call would wait for [txMu] forever; it shows as a panic here. *)
Definition memory_Within {R A} (bind : loc -> R) (ctx : Ctx)
    (fn : Ctx -> R -> M World error A) : M World error A := fun w =>
  match ctx_Err ctx with
  | Some e => (Err e, w)
  | None =>
      if w_locked w then (Panic "txMu is held", w)
      else
        let '(id, w1) := tx_open w in
        match fn ctx (bind id) w1 with
        | (Err e, w2) => (Err e, set_locked false w2)
        | (Panic p, w2) => (Panic p, set_locked false w2)
        | (Ok a, w2) =>
            match tx_commit id w2 with
            | (Some e, w3) => (Err e, set_locked false w3)
            | (None, w3) => (Ok a, set_locked false w3)
            end
        end
  end.
Definition NewUnitOfWork {R} (bind : loc -> R) : UnitOfWork World R :=
  mkUnitOfWork (fun A => memory_Within (A := A) bind).
End Memory.
Arguments row : clear implicits.
Arguments table : clear implicits.
Arguments Store : clear implicits.
Arguments Tx : clear implicits.
Arguments World : clear implicits.
Arguments Table : clear implicits.
Arguments Unique : clear implicits.
Arguments mkTableDecl {Any S}.
Arguments mkUnique {S}.
Arguments t_Name {Any S}.
Arguments t_Clone {Any S}.
Arguments t_Unique {Any S}.
Arguments t_box {Any S}.
Arguments t_unbox {Any S}.
Arguments u_Name {S}.
Arguments u_Key {S}.
Arguments u_Rejection {S}.

(** * The durable state is reached through commits only *)
Section Atomicity.
Context {Any Event X : Type}.
Notation W := (World Any Event X).

(** What a failed transaction must leave alone. *)
Definition committed (w : W) :=
  (st_tables (w_store w), st_inbox (w_store w), st_outbox (w_store w), st_attempts (w_store w)).

Lemma Confined_get_tx id : Confined committed (get_tx (X := X) (Any := Any) (Event := Event) id).
Proof. intros w r w'. unfold get_tx. case_match; naive_solver. Qed.
Lemma Confined_put_tx id tx : Confined committed (put_tx (X := X) (Any := Any) (Event := Event) id tx).
Proof. by apply Confined_modify. Qed.
Lemma Confined_set_pending p b : Confined committed (modify (E := error) (set_pending (Any := Any) (Event := Event) (X := X) p b)).
Proof. by apply Confined_modify. Qed.
Lemma Confined_new_pending : Confined committed (new_pending (Any := Any) (Event := Event) (X := X)).
Proof. intros w r w' [= <- <-]. done. Qed.
#[local] Hint Resolve Confined_get_tx Confined_put_tx Confined_set_pending Confined_new_pending
  : confined.

Lemma Confined_Load {S} (t : Table Any S) id ctx key :
  Confined committed (reader_Load (txReader t id) ctx key).
Proof. cbn. auto with confined. Qed.
Lemma Confined_Save {S} (t : Table Any S) id ctx key s v :
  Confined committed (tx_Save t id ctx key s v).
Proof.
  unfold tx_Save. apply Confined_bind; [auto with confined | intros scoped].
  apply Confined_bind; [auto with confined | intros tx].
  destruct (saveAs t tx scoped s v) as [err tx']. auto with confined.
Qed.
Lemma Confined_Enqueue id ctx entry : Confined committed (outbox_Enqueue (tx_Outbox id) ctx entry).
Proof. cbn. auto with confined. Qed.
Lemma Confined_Complete id p key hash e c :
  Confined committed (pending_Complete (Any := Any) (Event := Event) (X := X) id p key hash e c).
Proof. unfold pending_Complete. auto 8 with confined. Qed.
Lemma Confined_Register id consumer commands ctx r :
  Confined committed (tx_Register (Any := Any) (Event := Event) (X := X) id consumer commands ctx r).
Proof.
  unfold tx_Register. do 2 (case_match; [auto with confined |]).
  apply Confined_bind; [auto 8 with confined | intros mid].
  apply Confined_bind; [auto with confined | intros tx]. cbv zeta.
  auto 10 with confined.
Qed.

#[export] Instance memory_atomic {R} (bind : loc -> R) :
  AtomicUnit committed (NewUnitOfWork (Any := Any) (Event := Event) (X := X) bind).
Proof.
  split.
  - intros A ctx fn w r w' Hfn. cbn. unfold memory_Within.
    destruct (ctx_Err ctx); [naive_solver |]. destruct (w_locked w); [naive_solver |].
    destruct (tx_open w) as [id w1] eqn:Eo.
    assert (committed w1 = committed w) as H1 by (unfold tx_open in Eo; naive_solver).
    destruct (fn ctx (bind id) w1) as [[a | e | p] w2] eqn:Ef;
      pose proof (Hfn ctx (bind id) _ _ _ Ef) as H2.
    + unfold tx_commit. destruct (st_failNextCommit (w_store w2)).
      * intros [= <- <-] _. by rewrite <- H1, <- H2.
      * destruct (w_txs w2 !! id); intros [= <- <-]; done.
    + intros [= <- <-] _. by rewrite <- H1, <- H2.
    + intros [= <- <-] _. by rewrite <- H1, <- H2.
  - intros A ctx fn w e He. cbn. unfold memory_Within. by rewrite He.
Qed.

(** A successful call installs the working copy its callback left. *)
Lemma memory_Within_Ok {R A} (bind : loc -> R) ctx (fn : Ctx -> R -> M W error A) w a w' :
  memory_Within bind ctx fn w = (Ok a, w') ->
  exists id w1 w2, tx_open w = (id, w1) /\ fn ctx (bind id) w1 = (Ok a, w2) /\
    ctx_Err ctx = None /\ w_locked w = false /\ st_failNextCommit (w_store w2) = None /\
    w' = set_locked false (tx_commit id w2).2.
Proof.
  unfold memory_Within. destruct (ctx_Err ctx); [done |]. destruct (w_locked w); [done |].
  destruct (tx_open w) as [id w1] eqn:Eo.
  destruct (fn ctx (bind id) w1) as [[x | e | p] w2] eqn:Ef; [| done | done].
  destruct (tx_commit id w2) as [[e |] w3] eqn:Ec; [done |]. intros [= -> <-].
  exists id, w1, w2. rewrite Ec.
  unfold tx_commit in Ec. by destruct (st_failNextCommit (w_store w2)).
Qed.
End Atomicity.
#[export] Hint Resolve Confined_get_tx Confined_put_tx Confined_set_pending Confined_new_pending
  Confined_Load Confined_Save Confined_Enqueue Confined_Complete Confined_Register : confined.

(** * Tables: optimistic locking, uniqueness, isolation *)
Section TableLaws.
Context {Any Event X S : Type} (t : Table Any S).

(** What a table declaration promises: the snapshot crosses the boundary
    without loss, and its clone reads the same. *)
Class TableLaws := {
  unbox_box : forall s, t_unbox t (t_box t s) = Some s;
  box_unbox : forall v s, t_unbox t v = Some s -> t_box t s = v;
  copy_id : forall s, table_copy t s = s
}.
Context `{TableLaws}.

(** The rows a working copy holds for the table. *)
Definition rows_of (tables : gmap string (table Any)) : gmap rowKey (row Any) :=
  match tables !! t_Name t with Some rows => tbl_rows rows | None => ∅ end.
Definition version_at (rows : gmap rowKey (row Any)) (key : rowKey) : Version :=
  match rows !! key with Some rec => row_version rec | None => 0 end.

Lemma saveAs_rows (tx : Tx Any Event) key s v :
  let rows := rows_of (tx_tables tx) in
  let '(err, tx') := saveAs t tx key s v in
  (forall name, name <> t_Name t -> tx_tables tx' !! name = tx_tables tx !! name) /\
  tx_inbox tx' = tx_inbox tx /\ tx_outbox tx' = tx_outbox tx /\ tx_attempts tx' = tx_attempts tx /\
  match err with
  | None =>
      version_at rows key = v /\
      rows_of (tx_tables tx') = <[key := mkRow (t_box t s) (wrapu64 (v + 1))]> rows /\
      tx_writes tx' = tx_writes tx + 1
  | Some e =>
      rows_of (tx_tables tx') = rows /\ tx_writes tx' = tx_writes tx /\
      (e = ErrVersionConflict /\ version_at rows key <> v \/
       version_at rows key = v /\ exists c rej, e = UniqueViolation (t_Name t) c rej)
  end.
Proof.
  unfold saveAs, rows_of, version_at, violation. cbv zeta.
  destruct (tx_tables tx !! t_Name t) as [rows |] eqn:Et; cbn [default tbl_rows];
    match goal with |- context [negb (?c =? v)] => destruct (Z.eqb_spec c v) as [Hv | Hv] end;
    cbn [negb]; try (destruct (violation_loop t (t_Unique t) _ key s (tx_writes tx)) as [e |] eqn:Ev);
    cbn [tx_tables tx_inbox tx_outbox tx_attempts tx_writes];
    (split; [intros name Hne; by rewrite ?lookup_insert_ne by done |]);
    repeat (split; [done |]); rewrite ?lookup_insert; cbn [tbl_rows];
    rewrite ?decide_True by done; cbn [tbl_rows];
    try (rewrite copy_id; by auto); repeat (split; [done |]); auto.
  all: right; split; [done |]; clear -Ev; revert Ev; induction (t_Unique t) as [| u us IH];
    [done |]; cbn; repeat case_match; eauto; intros [= <-]; eauto.
Qed.

(** ** Uniqueness *)
Definition unique_key (rows : gmap rowKey (row Any)) (keyOf : S -> option (list string))
    (k : rowKey) (want : list string) : Prop :=
  exists rec s, rows !! k = Some rec /\ t_unbox t (row_snapshot rec) = Some s /\
    keyOf s = Some want.
(** No two rows of one tenant hold the same key of a declared constraint. *)
Definition unique_rows (rows : gmap rowKey (row Any)) : Prop :=
  forall u keyOf tenant_ id1 id2 want, u ∈ t_Unique t -> u_Key u = Some keyOf ->
    unique_key rows keyOf (tenant_, id1) want -> unique_key rows keyOf (tenant_, id2) want ->
    id1 = id2.

Lemma violation_loop_none us rows key state n u keyOf want :
  violation_loop t us rows key state n = None -> u ∈ us -> u_Key u = Some keyOf ->
  keyOf state = Some want ->
  forall id, id <> key.2 -> ~ unique_key rows keyOf (key.1, id) want.
Proof.
  induction us as [| u' us IH]; [intros _ Hin; by inversion Hin |].
  cbn. intros Hv Hin Hk Hw id Hid (rec & s & Hrec & Hs & Hks).
  apply elem_of_cons in Hin as [-> | Hin].
  - rewrite Hk, Hw in Hv. destruct (existsb _ _) eqn:He; [done |].
    apply not_true_iff_false in He. apply He, existsb_exists.
    exists ((key.1, id), rec). split.
    + apply list_elem_of_In, elem_of_map_to_list. done.
    + cbn. rewrite String.eqb_refl. cbn.
      destruct (String.eqb_spec id key.2); [done |]. rewrite Hs. by apply bool_decide_eq_true.
  - assert (violation_loop t us rows key state n = None) as Hv'.
    { destruct (u_Key u'); [| done]. destruct (o state); [| done]. by case_match. }
    eapply IH; eauto. by exists rec, s.
Qed.

Lemma violation_loop_some us rows key state n e :
  violation_loop t us rows key state n = Some e ->
  exists u, u ∈ us /\
    e = UniqueViolation (t_Name t) (u_Name u) (if n =? 0 then u_Rejection u else None).
Proof.
  induction us as [| u us IH]; cbn; [done |]. intros Hv.
  destruct (u_Key u) as [keyOf |]; [destruct (keyOf state); [destruct (existsb _ _) |] |].
  1: injection Hv as <-; exists u; split; [set_solver | done].
  all: destruct (IH Hv) as (u' & Hu & ->); exists u'; split; [set_solver | done].
Qed.

(** The constraint a refused save names, and the refusal it declares: only the
    first write of a transaction carries it. *)
Lemma saveAs_violation (tx tx' : Tx Any Event) key s v table_ c rej :
  saveAs t tx key s v = (Some (UniqueViolation table_ c rej), tx') ->
  exists u, u ∈ t_Unique t /\ table_ = t_Name t /\ c = u_Name u /\
    rej = (if tx_writes tx =? 0 then u_Rejection u else None).
Proof.
  unfold saveAs, violation. cbv zeta. case_match; [done |].
  destruct (violation_loop _ _ _ _ _ _) as [e |] eqn:E'; [| done].
  intros [= -> _]. apply violation_loop_some in E' as (u & Hu & [= -> -> ->]). eauto.
Qed.

Lemma saveAs_unique (tx : Tx Any Event) key s v err tx' :
  unique_rows (rows_of (tx_tables tx)) -> saveAs t tx key s v = (err, tx') ->
  unique_rows (rows_of (tx_tables tx')).
Proof.
  intros Hu Hs. pose proof (saveAs_rows tx key s v) as Hr. rewrite Hs in Hr. cbv zeta in Hr.
  destruct Hr as (_ & _ & _ & _ & Hr). destruct err as [e |]; [by destruct Hr as [-> _] |].
  destruct Hr as (Hv & Hr & _). rewrite Hr.
  assert (forall u keyOf want, u ∈ t_Unique t -> u_Key u = Some keyOf -> keyOf s = Some want ->
    forall id, id <> key.2 -> ~ unique_key (rows_of (tx_tables tx)) keyOf (key.1, id) want) as Hfree.
  { intros u keyOf want Hin Hk Hw. apply (violation_loop_none (t_Unique t) _ _ s (tx_writes tx) u);
      try done.
    revert Hs. unfold saveAs, violation, rows_of. cbv zeta. case_match; [done |].
    destruct (tx_tables tx !! t_Name t); cbn [default tbl_rows];
      (destruct (violation_loop _ _ _ _ _ _) eqn:E'; [done | by rewrite E']) || idtac;
      destruct (violation_loop _ _ _ _ _ _) eqn:E'; done. }
  intros u keyOf tenant_ id1 id2 want Hin Hk (r1 & s1 & Hr1 & Hs1 & Hk1) (r2 & s2 & Hr2 & Hs2 & Hk2).
  destruct (decide (id1 = id2)) as [| Hne]; [done | exfalso].
  rewrite lookup_insert in Hr1, Hr2.
  repeat case_decide; subst; simplify_eq/=; rewrite ?unbox_box in *; simplify_eq.
  - eapply (Hfree u keyOf want Hin Hk Hk2 id1); [done |]. by exists r1, s1.
  - eapply (Hfree u keyOf want Hin Hk Hk1 id2); [done |]. by exists r2, s2.
  - apply Hne. eapply (Hu u keyOf tenant_ id1 id2 want); eauto; [by exists r1, s1 | by exists r2, s2].
Qed.
End TableLaws.

(** * Isolation of tenants *)
Section Isolation.
Context {Any S : Type} (t : Table Any S).

(** Two answers a caller cannot tell apart: the same value, the same error,
    or two reports of absence. *)
Definition same_answer {A} (r1 r2 : result error A) : Prop :=
  match r1, r2 with
  | Ok a, Ok b => a = b
  | Err e1, Err e2 =>
      e1 = e2 \/ (errors_is e1 ErrNotFound = true /\ errors_is e2 ErrNotFound = true /\
                  CategoryOf e1 = CategoryOf e2 /\ Classify e1 = Classify e2)
  | Panic p1, Panic p2 => p1 = p2
  | _, _ => False
  end.

Lemma miss_NotFound rows name key :
  miss (Any := Any) rows name key = ErrNotFound \/
  exists o d, miss rows name key = CrossTenantAccess o key.1 d.
Proof. unfold miss. cbv zeta. case_match; eauto. Qed.

Lemma NotFound_alike rows1 rows2 name key e1 e2 :
  (e1 = ErrNotFound \/ e1 = miss (Any := Any) rows1 name key) ->
  (e2 = ErrNotFound \/ e2 = miss (Any := Any) rows2 name key) ->
  errors_is e1 ErrNotFound = true /\ errors_is e2 ErrNotFound = true /\
  CategoryOf e1 = CategoryOf e2 /\ Classify e1 = Classify e2.
Proof.
  intros H1 H2.
  assert (forall e rows, (e = ErrNotFound \/ e = miss (Any := Any) rows name key) ->
    errors_is e ErrNotFound = true /\ CategoryOf e = "NotFound"%string /\ Classify e = R1D4) as H.
  { intros e rows [-> | ->]; [by vm_compute |].
    destruct (miss_NotFound rows name key) as [-> | (o & d & ->)]; [by vm_compute |].
    repeat split; reflexivity. }
  destruct (H e1 rows1 H1) as (-> & -> & ->), (H e2 rows2 H2) as (-> & -> & ->). done.
Qed.

Lemma table_load_alike ctx from1 from2 id :
  (forall k, scopedKey ctx id = Ok k -> rows_of t from1 !! k = rows_of t from2 !! k) ->
  same_answer (table_load t ctx from1 id) (table_load t ctx from2 id).
Proof.
  intros Hk. unfold table_load. destruct (scopedKey ctx id) as [k | e | p]; cbn; [| by left | done].
  specialize (Hk k eq_refl). unfold rows_of in Hk.
  assert (forall rows1 rows2 e1 e2,
    (e1 = ErrNotFound \/ e1 = miss (Any := Any) rows1 (t_Name t) k) ->
    (e2 = ErrNotFound \/ e2 = miss (Any := Any) rows2 (t_Name t) k) ->
    same_answer (A := S * Version) (Err e1) (Err e2)) as Habs.
  { intros rows1 rows2 e1 e2 H1 H2. right. by apply (NotFound_alike rows1 rows2 (t_Name t) k). }
  destruct (from1 !! t_Name t) as [rows1 |] eqn:E1, (from2 !! t_Name t) as [rows2 |] eqn:E2;
    rewrite ?lookup_empty in Hk.
  - rewrite Hk. destruct (tbl_rows rows2 !! k) as [rec |].
    + destruct (t_unbox t (row_snapshot rec)); done.
    + apply (Habs (tbl_rows rows1) (tbl_rows rows2)); auto.
  - rewrite Hk. apply (Habs (tbl_rows rows1) (tbl_rows rows1)); auto.
  - rewrite <- Hk. apply (Habs (tbl_rows rows2) (tbl_rows rows2)); auto.
  - by left.
Qed.
End Isolation.

(** * Receptions *)
Section Receptions.
Context {Any Event X : Type}.
Notation W := (World Any Event X).

(** The inbox key of a receipt, or the refusal of the receipt. *)
Definition register_key (consumer : string) (commands : bool) (ctx : Ctx) (r : Receipt)
    : result error inboxKey :=
  if String.eqb consumer "" || String.eqb (rcp_Consumer r) "" then Err ErrInboxConsumerRequired
  else if negb (String.eqb (rcp_Consumer r) consumer) then Err ErrInboxConsumerMismatch
  else if commands then
    if rcp_ExpiresAt r <=? rcp_ReceivedAt r then Err ErrCommandExpiryRequired
    else match scopedKey ctx (rcp_MessageID r) with
    | Ok scoped => Ok (consumer, command_id scoped.1 (rcp_MessageID r))
    | Err e => Err e
    | Panic p => Panic p
    end
  else Ok (consumer, rcp_MessageID r).

(** What the inbox answers for a key it may hold. *)
Definition reception_of (id : loc) (key : inboxKey) (r : Receipt) (held : option inboxRow) (w : W)
    : result error (Reception W) * W :=
  let first :=
    (p ← new_pending;
     mret (FirstReception (memoryPending id p key (rcp_PayloadHash r) (rcp_ExpiresAt r)))) in
  match held with
  | Some row =>
      if expired row (rcp_ReceivedAt r) then first w
      else if negb (String.eqb (ir_hash row) (rcp_PayloadHash r)) then (Ok CollisionReception, w)
      else if bool_decide (ir_status row = StatusProcessed)
      then (Ok (ProcessedReception (ir_outcome row)), w)
      else (Ok (RejectedReception (ir_outcome row)), w)
  | None => first w
  end.

Lemma tx_Register_spec id consumer commands ctx r (w : W) tx :
  w_txs w !! id = Some tx ->
  tx_Register id consumer commands ctx r w =
  match register_key consumer commands ctx r with
  | Err e => (Err e, w)
  | Panic p => (Panic p, w)
  | Ok key => reception_of id key r (tx_inbox tx !! key) w
  end.
Proof.
  intros Hw. unfold tx_Register, register_key, reception_of.
  destruct (_ || _); [done |]. destruct (negb _); [done |].
  assert (get_tx id w = (Ok tx, w)) as Hg by by unfold get_tx; rewrite Hw.
  destruct commands.
  - destruct (_ <=? _); [done |].
    unfold mbind, M_bind, lift, mret, M_ret.
    destruct (scopedKey ctx (rcp_MessageID r)) as [sk | e | p]; [| done | done].
    rewrite Hg. destruct (tx_inbox tx !! _) as [row |]; [| done].
    destruct (expired row _); [done |]. destruct (negb _); [done |].
    destruct (bool_decide _); done.
  - unfold mbind, M_bind, mret, M_ret. rewrite Hg.
    destruct (tx_inbox tx !! _) as [row |]; [| done].
    destruct (expired row _); [done |]. destruct (negb _); [done |].
    destruct (bool_decide _); done.
Qed.

(** The state after a first reception was completed. *)
Lemma register_complete id consumer commands ctx r c (w w1 w2 : W) p tx key :
  w_txs w !! id = Some tx -> register_key consumer commands ctx r = Ok key ->
  tx_Register id consumer commands ctx r w = (Ok (FirstReception p), w1) ->
  Complete p ctx c w1 = (Ok (), w2) ->
  (cmp_Status c = StatusProcessed \/ cmp_Status c = StatusRejected) /\ Completed p w2 = true /\
  w_txs w2 !! id = Some (set_inbox_row tx key
    (mkInboxRow (rcp_PayloadHash r) (cmp_Status c) (cmp_LastError c) (cmp_Outcome c)
       (rcp_ExpiresAt r))).
Proof.
  intros Hw Hkey Hr Hc. rewrite (tx_Register_spec _ _ _ _ _ _ _ Hw), Hkey in Hr.
  assert (w_txs w1 = w_txs w /\ exists q, p = memoryPending id q key (rcp_PayloadHash r)
      (rcp_ExpiresAt r)) as [Hw1 [q ->]].
  { unfold reception_of, mbind, M_bind, mret, M_ret, new_pending in Hr.
    repeat case_match; simplify_eq; eauto. }
  cbn in Hc. unfold pending_Complete, mbind, M_bind, gets in Hc.
  destruct (default false (w_pendings w1 !! q)); [done |].
  case_match eqn:Hst; [done |].
  unfold get_tx in Hc. rewrite Hw1, Hw in Hc. cbn in Hc. injection Hc as <-.
  repeat split.
  - destruct (cmp_Status c); cbn in Hst; auto; done.
  - cbn. by rewrite lookup_insert_eq.
  - cbn. by rewrite lookup_insert_eq.
Qed.
End Receptions.
