(* ===== verification/Ledger.v ===== *)
(** The attempt ledger of the in-memory realization
    ([memory/attempt_ledger.go]): what one key's attempts are, how [Begin],
    [Finish] and [Observe] move them, and the ordered pages of [Stale]. *)

From Stdlib Require Import OrdersEx.
From stdpp Require Import sorting.
From S2P Require Import Prelude GoSlices DomainKernel Errors Ports Interfaces Memory.

(** * Cursor order *)

Definition cursor_tuple (c : AttemptCursor) : Z * (string * (string * Z)) :=
  (cur_StartedAt c, (cur_Tenant c, (cur_Key c, cur_N c))).
Definition compareCursor (a b : AttemptCursor) : comparison :=
  pair_compare Z.compare
    (pair_compare String_as_OT.compare (pair_compare String_as_OT.compare Z.compare))
    (cursor_tuple a) (cursor_tuple b).

Definition attempt_le (a b : Attempt) : Prop := compareCursor (Cursor a) (Cursor b) <> Gt.
Definition attempt_lt (a b : Attempt) : Prop := compareCursor (Cursor a) (Cursor b) = Lt.
#[export] Instance attempt_le_dec : RelDecision attempt_le.
Proof. intros a b. unfold attempt_le. apply _. Defined.

(** * Rows of one key *)
Definition saturated (r : attemptRow) : bool :=
  (MaxAttemptEntries <=? len (ar_seen r)) || (MaxAttemptEntries <=? len (ar_conflicts r)).

Definition attemptOf (scope : attemptKey) (n : Z) (r : attemptRow) : Attempt :=
  mkAttempt scope.1 scope.2 n (ar_messageID r) (ar_startedAt r).

Definition terminal (f : Finding) : bool :=
  match f with FindingApplied | FindingRejected => true | _ => false end.
Definition validClass (c : ExternalClass) : bool :=
  match c with ClassNone | ClassOther _ => false | _ => true end.
Definition validFinding (f : Finding) : bool :=
  match f with FindingNone | FindingOther _ => false | _ => true end.

Definition invalid_attempt (note : string) : error := Wrap note ErrInvalidAttempt.

Definition validOutcome (o : AttemptOutcome) : result error unit :=
  if String.eqb (out_Key o) "" then Err (invalid_attempt "empty key")
  else if out_N o <? 1 then Err (invalid_attempt "attempt")
  else if negb (validClass (out_Class o)) then Err (invalid_attempt "class")
  else if negb (String.eqb (obs_Key (out_Observation o)) "")
          && negb (String.eqb (obs_Key (out_Observation o)) (out_Key o))
  then Err (invalid_attempt "observation of another key")
  else if negb (bool_decide (obs_Finding (out_Observation o) = FindingNone))
          && negb (validFinding (obs_Finding (out_Observation o)))
  then Err (invalid_attempt "finding")
  else Ok ().

Definition validObservation (o : Observation) : result error unit :=
  if String.eqb (obs_Key o) "" then Err (invalid_attempt "empty key")
  else if String.eqb (obs_ID o) "" then Err (invalid_attempt "empty observation ID")
  else if negb (validFinding (obs_Finding o)) then Err (invalid_attempt "finding")
  else Ok ().

(** ** Begin

    The loop runs from the last row down; [find_done] takes the rows newest
    first, with the number of the first. *)
Fixpoint find_done (scope : attemptKey) (message : MessageID) (newest_first : list attemptRow)
    (n : Z) : option AttemptStart :=
  match newest_first with
  | [] => None
  | r :: rs =>
      if ar_finished r && String.eqb (ar_messageID r) message && negb (Retryable (ar_class r))
      then Some (DoneAttempt (attemptOf scope n r) (ar_class r))
      else find_done scope message rs (n - 1)
  end.

Definition fresh_row (message : MessageID) (now : Instant) : attemptRow :=
  mkAttemptRow message now false 0 ClassNone zeroObservation FindingNone 0 [] 0 [].

Definition begin_rows (scope : attemptKey) (rows : list attemptRow) (message : MessageID)
    (now : Instant) : AttemptStart * list attemptRow :=
  match find_done scope message (reverse rows) (len rows) with
  | Some done_ => (done_, rows)
  | None =>
      let row := fresh_row message now in
      match last rows with
      | Some r =>
          if negb (ar_finished r) then (PendingAttempt (attemptOf scope (len rows) r), rows)
          else (StartedAttempt (attemptOf scope (len rows + 1) row), rows ++ [row])
      | None => (StartedAttempt (attemptOf scope (len rows + 1) row), rows ++ [row])
      end
  end.

(** ** Finish *)
Definition finish_row (r : attemptRow) (o : AttemptOutcome) : Finished * attemptRow :=
  let ob := out_Observation o in
  if negb (ar_finished r) then
    let noted := negb (String.eqb (obs_ID ob) "") || negb (bool_decide (obs_Finding ob = FindingNone)) in
    (mkFinished FinishRecorded (out_Class o),
     mkAttemptRow (ar_messageID r) (ar_startedAt r) true (out_FinishedAt o) (out_Class o)
       (if noted then ob else ar_observation r)
       (if noted then obs_Finding ob else ar_finding r)
       (if noted then out_FinishedAt o else ar_observedAt r)
       (if negb (String.eqb (obs_ID ob) "") then ar_seen r ++ [obs_ID ob] else ar_seen r)
       (ar_queries r) (ar_conflicts r))
  else if bool_decide (ar_class r = out_Class o) || out_Presumed o
  then (mkFinished FinishUnchanged (ar_class r), r)
  else if saturated r then (mkFinished FinishSaturated (ar_class r), r)
  else
    (mkFinished FinishConflict (ar_class r),
     mkAttemptRow (ar_messageID r) (ar_startedAt r) (ar_finished r) (ar_finishedAt r) (ar_class r)
       (ar_observation r) (ar_finding r) (ar_observedAt r) (ar_seen r) (ar_queries r)
       (ar_conflicts r ++ [mkAttemptConflict (out_Class o) FindingNone (out_FinishedAt o)])).

(** ** Observe *)
Definition see_id (r : attemptRow) (id : string) : attemptRow :=
  mkAttemptRow (ar_messageID r) (ar_startedAt r) (ar_finished r) (ar_finishedAt r) (ar_class r)
    (ar_observation r) (ar_finding r) (ar_observedAt r) (ar_seen r ++ [id]) (ar_queries r)
    (ar_conflicts r).
Definition note_conflict (r : attemptRow) (f : Finding) (now : Instant) : attemptRow :=
  mkAttemptRow (ar_messageID r) (ar_startedAt r) (ar_finished r) (ar_finishedAt r) (ar_class r)
    (ar_observation r) (ar_finding r) (ar_observedAt r) (ar_seen r) (ar_queries r)
    (ar_conflicts r ++ [mkAttemptConflict ClassNone f now]).
Definition note_observation (r : attemptRow) (o : Observation) (now : Instant) : attemptRow :=
  mkAttemptRow (ar_messageID r) (ar_startedAt r) (ar_finished r) (ar_finishedAt r) (ar_class r)
    o (obs_Finding o) now (ar_seen r) (ar_queries r + 1) (ar_conflicts r).

(** The body of [Observe] on the key's last row, number [n], already finished. *)
Definition observe_row (r : attemptRow) (n : Z) (o : Observation) (now : Instant)
    : Observed * attemptRow :=
  let answer result queries := mkObserved result n (ar_class r) queries in
  if bool_decide (obs_ID o ∈ ar_seen r) then (answer ObserveDuplicate (ar_queries r), r)
  else
    let full := saturated r in
    if full && terminal (ar_finding r) && bool_decide (obs_Finding o = ar_finding r)
    then (answer ObserveDuplicate (ar_queries r), r)
    else if full && (terminal (ar_finding r) || negb (terminal (obs_Finding o)))
    then (answer ObserveSaturated (ar_queries r), r)
    else
      let r1 := if negb full then see_id r (obs_ID o) else r in
      if terminal (ar_finding r1) then
        if negb (terminal (obs_Finding o)) || bool_decide (obs_Finding o = ar_finding r1)
        then (answer ObserveDuplicate (ar_queries r), r1)
        else (answer ObserveConflict (ar_queries r), note_conflict r1 (obs_Finding o) now)
      else
        let r2 := note_observation r1 o now in
        (answer ObserveRecorded (ar_queries r2), r2).

(** * The operations on a transaction *)
Section Ledger.
Context {Any Event X : Type}.
Notation W := (World Any Event X).

Definition ledger_scope (ctx : Ctx) (key : OutboundKey) : result error attemptKey :=
  scoped ← scopedKey ctx key; Ok (scoped.1, key).

Definition set_attempts (tx : Tx Any Event) (scope : attemptKey) (rows : list attemptRow)
  : Tx Any Event :=
  mkTx (tx_tables tx) (tx_inbox tx) (tx_outbox tx) (<[scope := rows]> (tx_attempts tx))
    (tx_writes tx).
Definition rows_at (tx : Tx Any Event) (scope : attemptKey) : list attemptRow :=
  default [] (tx_attempts tx !! scope).

Definition tx_Begin (id : loc) (ctx : Ctx) (key : OutboundKey) (message : MessageID)
    (now : Instant) : M W error AttemptStart :=
  if String.eqb key "" then throw (invalid_attempt "empty key")
  else if String.eqb message "" then throw (invalid_attempt "empty message ID")
  else
    scope ← lift (ledger_scope ctx key);
    tx ← get_tx id;
    let '(start, rows) := begin_rows scope (rows_at tx scope) message now in
    match start with
    | StartedAttempt _ => _ ← put_tx id (set_attempts tx scope rows); mret start
    | _ => mret start
    end.

Definition tx_Finish (id : loc) (ctx : Ctx) (o : AttemptOutcome) : M W error Finished :=
  _ ← lift (validOutcome o);
  scope ← lift (ledger_scope ctx (out_Key o));
  tx ← get_tx id;
  let rows := rows_at tx scope in
  if len rows <? out_N o then throw (Wrap "finish attempt" ErrAttemptUnknown)
  else
    let i := Z.to_nat (out_N o - 1) in
    match rows !! i with
    | None => panic "index out of range"
    | Some r =>
        let '(finished, r') := finish_row r o in
        _ ← put_tx id (set_attempts tx scope (<[i := r']> rows));
        mret finished
    end.

Definition tx_Observe (id : loc) (ctx : Ctx) (o : Observation) (now : Instant)
    : M W error Observed :=
  _ ← lift (validObservation o);
  scope ← lift (ledger_scope ctx (obs_Key o));
  tx ← get_tx id;
  let rows := rows_at tx scope in
  match last rows with
  | None => throw (Wrap "observe" ErrAttemptUnknown)
  | Some r =>
      if negb (ar_finished r) then throw (Wrap "observe attempt" ErrAttemptInFlight)
      else
        let '(observed, r') := observe_row r (len rows) o now in
        _ ← put_tx id (set_attempts tx scope (<[Nat.pred (length rows) := r']> rows));
        mret observed
  end.

(** The begun attempts of one key that a page may list. *)
Definition stale_row (scope : attemptKey) (cutoff : Instant) (after : AttemptCursor)
    (ir : nat * attemptRow) : list Attempt :=
  let '(i, r) := ir in
  let attempt := attemptOf scope (Z.of_nat i + 1) r in
  if negb (ar_finished r) && (ar_startedAt r <=? cutoff)
     && (bool_decide (after = zeroCursor)
         || bool_decide (compareCursor (Cursor attempt) after = Gt))
  then [attempt] else [].
Definition stale_of (cutoff : Instant) (after : AttemptCursor)
    (kr : attemptKey * list attemptRow) : list Attempt :=
  imap pair kr.2 ≫= stale_row kr.1 cutoff after.
Definition stale_attempts (attempts : gmap attemptKey (list attemptRow)) (cutoff : Instant)
    (after : AttemptCursor) : list Attempt :=
  merge_sort attempt_le (map_to_list attempts ≫= stale_of cutoff after).

Definition tx_Stale (id : loc) (_ : Ctx) (cutoff : Instant) (after : AttemptCursor) (limit : Z)
    : M W error (list Attempt) :=
  if limit <? 1 then throw (Wrap "stale limit" ErrInvalidAttempt)
  else
    tx ← get_tx id;
    let stale := stale_attempts (tx_attempts tx) cutoff after in
    mret (take (Z.to_nat (Z.min limit (len stale))) stale).

Definition txAttemptLedger (id : loc) : AttemptLedger W :=
  mkAttemptLedger (tx_Begin id) (tx_Finish id) (tx_Observe id) (tx_Stale id).

(** [AttemptStore]: each call in a transaction of its own. *)
Definition AttemptStore_within {A} (ctx : Ctx) (fn : Ctx -> AttemptLedger W -> M W error A)
  : M W error A := Within (NewUnitOfWork txAttemptLedger) ctx fn.
Definition NewAttemptStore : AttemptLedger W :=
  mkAttemptLedger
    (fun ctx key message now => AttemptStore_within ctx (fun ctx l => ledger_Begin l ctx key message now))
    (fun ctx o => AttemptStore_within ctx (fun ctx l => ledger_Finish l ctx o))
    (fun ctx o now => AttemptStore_within ctx (fun ctx l => ledger_Observe l ctx o now))
    (fun ctx cutoff after limit =>
       AttemptStore_within ctx (fun ctx l => ledger_Stale l ctx cutoff after limit)).
End Ledger.

(** * What the rows of a key keep *)
Record row_ok (r : attemptRow) : Prop := {
  ok_seen : len (ar_seen r) <= MaxAttemptEntries;
  ok_conflicts : len (ar_conflicts r) <= MaxAttemptEntries;
  ok_class : if ar_finished r then validClass (ar_class r) = true
             else ar_class r = ClassNone /\ ar_seen r = [] /\ ar_conflicts r = []
}.
(** At most the last attempt of a key is unfinished. *)
Definition rows_ok (rows : list attemptRow) : Prop :=
  Forall row_ok rows /\
  forall i r, rows !! i = Some r -> (S i < length rows)%nat -> ar_finished r = true.

(** What a later state of a row may not take back. *)
Record evolves (r r' : attemptRow) : Prop := {
  ev_message : ar_messageID r' = ar_messageID r;
  ev_started : ar_startedAt r' = ar_startedAt r;
  ev_finished : ar_finished r = true ->
    ar_finished r' = true /\ ar_class r' = ar_class r /\ ar_finishedAt r' = ar_finishedAt r;
  ev_finding : terminal (ar_finding r) = true -> ar_finished r = true ->
    ar_finding r' = ar_finding r;
  ev_seen : ar_seen r `prefix_of` ar_seen r';
  ev_conflicts : ar_conflicts r `prefix_of` ar_conflicts r'
}.
Definition rows_evolve (rows rows' : list attemptRow) : Prop :=
  forall i r, rows !! i = Some r -> exists r', rows' !! i = Some r' /\ evolves r r'.

#[export] Instance evolves_preorder : PreOrder evolves.
Proof.
  split.
  - intros r. split; auto.
  - intros r1 r2 r3 [A1 A2 A3 A4 A5 A6] [B1 B2 B3 B4 B5 B6].
    split; [congruence | congruence | | | by etransitivity | by etransitivity].
    + intros H. destruct (A3 H) as (H2 & ? & ?). destruct (B3 H2) as (? & ? & ?).
      repeat split; congruence.
    + intros Ht H. destruct (A3 H) as (H2 & _). rewrite <- (A4 Ht H). apply B4; [| done].
      by rewrite (A4 Ht H).
Qed.
#[export] Instance rows_evolve_preorder : PreOrder rows_evolve.
Proof.
  split.
  - intros rows i r Hr. by exists r.
  - intros a b c Hab Hbc i r Hr. destruct (Hab i r Hr) as (r1 & Hr1 & E1).
    destruct (Hbc i r1 Hr1) as (r2 & Hr2 & E2). exists r2. split; [done | by transitivity r1].
Qed.

(** Replacing one row by what it evolves to. *)
Lemma rows_ok_insert rows i r r' :
  rows_ok rows -> rows !! i = Some r -> row_ok r' -> evolves r r' -> rows_ok (<[i := r']> rows).
Proof.
  intros [Hall Hlast] Hi Hr' Hev. split; [by apply Forall_insert |].
  intros j s Hj. rewrite length_insert. intros Hlt.
  destruct (decide (i = j)) as [<- | Hne].
  - rewrite list_lookup_insert_eq in Hj by by eapply lookup_lt_Some. simplify_eq.
    by apply (ev_finished _ _ Hev), (Hlast i).
  - rewrite list_lookup_insert_ne in Hj by done. eauto.
Qed.

Lemma rows_evolve_insert rows i r r' :
  rows !! i = Some r -> evolves r r' -> rows_evolve rows (<[i := r']> rows).
Proof.
  intros Hi Hev j s Hj. destruct (decide (i = j)) as [<- | Hne].
  - simplify_eq. exists r'. split; [| done].
    by rewrite list_lookup_insert_eq by by eapply lookup_lt_Some.
  - exists s. by rewrite list_lookup_insert_ne by done.
Qed.

Lemma last_lookup_pred {A} (l : list A) x : last l = Some x -> l !! Nat.pred (length l) = Some x.
Proof. by rewrite last_lookup. Qed.

(** ** Begin *)
Lemma find_done_spec scope message rs n start :
  find_done scope message rs n = Some start ->
  exists i r, rs !! i = Some r /\ ar_finished r = true /\ ar_messageID r = message /\
    Retryable (ar_class r) = false /\
    start = DoneAttempt (attemptOf scope (n - Z.of_nat i) r) (ar_class r).
Proof.
  revert n. induction rs as [| r rs IH]; intros n; cbn; [done |].
  destruct (ar_finished r && _ && _) eqn:E'.
  - intros [= <-]. apply andb_true_iff in E' as [[Hf Hm%String.eqb_eq]%andb_true_iff Hc%negb_true_iff].
    exists 0%nat, r. rewrite Z.sub_0_r. done.
  - intros (i & r' & Hr' & H1 & H2 & H3 & ->)%IH. exists (S i), r'.
    repeat split; [done .. |]. f_equal. f_equal. lia.
Qed.

Lemma find_done_none scope message rs n :
  find_done scope message rs n = None ->
  forall r, r ∈ rs -> ar_finished r = true -> ar_messageID r = message -> Retryable (ar_class r) = true.
Proof.
  revert n. induction rs as [| r rs IH]; intros n; cbn; [intros _ r Hr; by inversion Hr |].
  destruct (ar_finished r && _ && _) eqn:E'; [done |].
  intros Hn r' [-> | Hr']%elem_of_cons Hf Hm; [| by eapply IH].
  subst message. rewrite Hf, String.eqb_refl in E'. by apply negb_false_iff in E'.
Qed.

Lemma row_ok_fresh message now : row_ok (fresh_row message now).
Proof. by split. Qed.

Lemma begin_rows_ok scope rows message now start rows' :
  rows_ok rows -> begin_rows scope rows message now = (start, rows') ->
  rows_ok rows' /\ rows_evolve rows rows'.
Proof.
  intros Hok. unfold begin_rows.
  destruct (find_done _ _ _ _); [by intros [= <- <-] |].
  assert (forall r, last rows = Some r \/ rows = [] -> (last rows = Some r -> ar_finished r = true) ->
    rows_ok (rows ++ [fresh_row message now]) /\ rows_evolve rows (rows ++ [fresh_row message now])) as H.
  { intros r Hr Hfin. destruct Hok as [Hall Hlast]. split.
    - split; [apply Forall_app; repeat constructor; done |].
      intros i s Hi. rewrite length_app. cbn. intros Hlt.
      rewrite lookup_app_l in Hi by lia.
      destruct (decide (S i = length rows)) as [He |]; [| apply (Hlast i); [done | lia]].
      destruct Hr as [Hr | ->]; [| done]. apply Hfin in Hr as Hf.
      apply last_lookup_pred in Hr. rewrite <- He in Hr. cbn in Hr. congruence.
    - intros i s Hi. exists s. split; [by apply lookup_app_l_Some | done]. }
  destruct (last rows) as [r |] eqn:El.
  - destruct (ar_finished r) eqn:Ef; cbn; intros [= <- <-]; [| done].
    apply (H r); [by left | done].
  - intros [= <- <-]. apply last_None in El. apply (H (fresh_row message now)); [by right | done].
Qed.

(** ** Finish and Observe *)
Lemma saturated_false r :
  saturated r = false ->
  len (ar_seen r) < MaxAttemptEntries /\ len (ar_conflicts r) < MaxAttemptEntries.
Proof. unfold saturated. intros [H1%Z.leb_gt H2%Z.leb_gt]%orb_false_iff. done. Qed.

Lemma finish_row_ok r o f r' :
  row_ok r -> validClass (out_Class o) = true -> finish_row r o = (f, r') ->
  row_ok r' /\ evolves r r'.
Proof.
  intros [Hs Hc Hcl] Hv. unfold finish_row. destruct (ar_finished r) eqn:Ef; cbn [negb].
  - destruct (_ || _); [intros [= <- <-]; split; [by split; rewrite ?Ef | done] |].
    destruct (saturated r) eqn:Es; [intros [= <- <-]; split; [by split; rewrite ?Ef | done] |].
    apply saturated_false in Es as [Hs1 Hc1]. intros [= <- <-].
    split; split; cbn; rewrite ?Ef; try done.
    + rewrite len_app. unfold len in *. cbn. lia.
    + by apply prefix_app_r.
  - destruct Hcl as (Hcl & Hsn & Hcn). rewrite Hsn, Hcn in *. intros [= <- <-].
    split; split; cbn; rewrite ?Ef, ?Hsn, ?Hcn; try done.
    + case_match; done.
    + apply prefix_nil.
Qed.

Lemma observe_row_ok r n o now ob r' :
  row_ok r -> ar_finished r = true -> observe_row r n o now = (ob, r') ->
  row_ok r' /\ evolves r r'.
Proof.
  intros [Hs Hc Hcl] Ef. rewrite Ef in Hcl. unfold observe_row. cbv zeta.
  assert (row_ok r) as Hr by (split; [done | done | by rewrite Ef]).
  case_bool_decide; [by intros [= <- <-] |].
  destruct (saturated r) eqn:Es; cbn [negb andb].
  - destruct (terminal (ar_finding r)) eqn:Et; cbn [negb andb orb].
    + case_bool_decide; by intros [= <- <-].
    + destruct (terminal (obs_Finding o)); cbn [negb]; [| by intros [= <- <-]].
      intros [= <- <-]. split; split; cbn; rewrite ?Ef; try done. by rewrite Et.
  - apply saturated_false in Es as [Hs1 Hc1]. cbn [ar_finding see_id].
    destruct (terminal (ar_finding r)) eqn:Et; [case_match |]; intros [= <- <-];
      split; split; cbn; rewrite ?Ef; try done;
      rewrite ?len_app; try (unfold len in *; cbn; lia); try (by apply prefix_app_r).
    by rewrite Et.
Qed.

Lemma begin_rows_spec scope rows message now start rows' :
  rows_ok rows -> begin_rows scope rows message now = (start, rows') ->
  match start with
  | StartedAttempt a =>
      a = attemptOf scope (len rows + 1) (fresh_row message now) /\
      rows' = rows ++ [fresh_row message now] /\
      Forall (fun r => ar_finished r = true) rows /\
      Forall (fun r => ar_messageID r = message -> Retryable (ar_class r) = true) rows
  | PendingAttempt a =>
      rows' = rows /\ exists r, last rows = Some r /\ ar_finished r = false /\
        a = attemptOf scope (len rows) r
  | DoneAttempt a class =>
      rows' = rows /\ Retryable class = false /\ validClass class = true /\
      exists i r, rows !! i = Some r /\ ar_finished r = true /\ ar_messageID r = message /\
        class = ar_class r /\ a = attemptOf scope (Z.of_nat i + 1) r
  | AttemptStartZero => False
  end.
Proof.
  intros [Hall Hlast]. unfold begin_rows.
  destruct (find_done _ _ _ _) as [st |] eqn:Ed.
  - intros [= <- <-]. apply find_done_spec in Ed as (i & r & Hr & Hf & Hm & Hc & ->).
    assert (i < length rows)%nat as Hi.
    { apply lookup_lt_Some in Hr. by rewrite length_reverse in Hr. }
    rewrite reverse_lookup in Hr by done.
    repeat split; [done | |].
    + apply (Forall_lookup_1 _ _ _ _ Hall) in Hr as [_ _ Hk]. by rewrite Hf in Hk.
    + exists (length rows - S i)%nat, r. repeat split; try done. f_equal. unfold len. lia.
  - assert (Forall (fun r => ar_messageID r = message -> ar_finished r = true ->
      Retryable (ar_class r) = true) rows) as Hno.
    { apply Forall_forall. intros r Hr Hm Hf.
      eapply find_done_none; [done | | done | done]. by rewrite elem_of_reverse. }
    assert (forall r, (last rows = Some r \/ rows = []) -> (last rows = Some r -> ar_finished r = true) ->
      Forall (fun r => ar_finished r = true) rows) as Hfin.
    { intros r Hr Hf. apply Forall_lookup. intros i s Hi.
      destruct (decide (S i < length rows)%nat) as [| Hge]; [by eapply Hlast |].
      destruct Hr as [Hr | ->]; [| done]. apply Hf in Hr as Hrf.
      apply last_lookup_pred in Hr. pose proof (lookup_lt_Some _ _ _ Hi).
      replace (Nat.pred (length rows)) with i in Hr by lia. congruence. }
    assert (Forall (fun r => ar_finished r = true) rows ->
      Forall (fun r => ar_messageID r = message -> Retryable (ar_class r) = true) rows) as Hre.
    { intros Hf. rewrite Forall_forall in *. eauto. }
    destruct (last rows) as [r |] eqn:El.
    + destruct (ar_finished r) eqn:Ef; cbn; intros [= <- <-]; [| by eauto].
      pose proof (Hfin r ltac:(by left) ltac:(done)). auto.
    + intros [= <- <-]. pose proof El as El'. apply last_None in El' as ->. auto.
Qed.

Section LedgerInvariant.
Context {Any Event X : Type}.
Notation W := (World Any Event X).

(** The calls of the port, as data, so that a run is a list of them. *)
Inductive ledger_op :=
| OpBegin (ctx : Ctx) (key : OutboundKey) (message : MessageID) (now : Instant)
| OpFinish (ctx : Ctx) (o : AttemptOutcome)
| OpObserve (ctx : Ctx) (o : Observation) (now : Instant)
| OpStale (ctx : Ctx) (cutoff : Instant) (after : AttemptCursor) (limit : Z).

(** Run one call on the open transaction [id], keeping the state it leaves. *)
Definition ledger_exec (id : loc) (op : ledger_op) (w : W) : W :=
  match op with
  | OpBegin ctx key message now => (ledger_Begin (txAttemptLedger id) ctx key message now w).2
  | OpFinish ctx o => (ledger_Finish (txAttemptLedger id) ctx o w).2
  | OpObserve ctx o now => (ledger_Observe (txAttemptLedger id) ctx o now w).2
  | OpStale ctx cutoff after limit => (ledger_Stale (txAttemptLedger id) ctx cutoff after limit w).2
  end.

Definition ledger_ok (attempts : gmap attemptKey (list attemptRow)) : Prop :=
  forall scope rows, attempts !! scope = Some rows -> rows_ok rows.
Definition attempts_evolve (a b : gmap attemptKey (list attemptRow)) : Prop :=
  forall scope, rows_evolve (default [] (a !! scope)) (default [] (b !! scope)).

#[export] Instance attempts_evolve_preorder : PreOrder attempts_evolve.
Proof.
  split; [intros a scope; reflexivity | intros a b c Hab Hbc scope].
  etransitivity; [apply Hab | apply Hbc].
Qed.

Lemma rows_ok_nil : rows_ok [].
Proof. split; [constructor | done]. Qed.

Lemma ledger_ok_at (tx : Tx Any Event) scope : ledger_ok (tx_attempts tx) -> rows_ok (rows_at tx scope).
Proof. intros H. unfold rows_at. destruct (_ !! _) eqn:E'; [by eapply H | apply rows_ok_nil]. Qed.

(** A working copy whose rows of one key moved. *)
Lemma set_attempts_ok (tx : Tx Any Event) scope rows :
  ledger_ok (tx_attempts tx) -> rows_ok rows -> rows_evolve (rows_at tx scope) rows ->
  ledger_ok (tx_attempts (set_attempts tx scope rows)) /\
  attempts_evolve (tx_attempts tx) (tx_attempts (set_attempts tx scope rows)).
Proof.
  intros Hok Hr He. split.
  - intros s rs. cbn. rewrite lookup_insert. case_decide; [by intros [= <-] | apply Hok].
  - intros s. cbn. rewrite lookup_insert. case_decide; [by subst | done].
Qed.

Lemma ledger_exec_ok id op (w : W) tx :
  w_txs w !! id = Some tx -> ledger_ok (tx_attempts tx) ->
  exists tx', w_txs (ledger_exec id op w) !! id = Some tx' /\ ledger_ok (tx_attempts tx') /\
    attempts_evolve (tx_attempts tx) (tx_attempts tx') /\
    tx_tables tx' = tx_tables tx /\ tx_inbox tx' = tx_inbox tx /\ tx_outbox tx' = tx_outbox tx.
Proof.
  intros Hw Hok.
  assert (get_tx id w = (Ok tx, w)) as Hg by by unfold get_tx; rewrite Hw.
  assert (exists tx', w_txs w !! id = Some tx' /\ ledger_ok (tx_attempts tx') /\
    attempts_evolve (tx_attempts tx) (tx_attempts tx') /\ tx_tables tx' = tx_tables tx /\
    tx_inbox tx' = tx_inbox tx /\ tx_outbox tx' = tx_outbox tx) as Hsame by by exists tx.
  assert (forall scope rows, rows_ok rows -> rows_evolve (rows_at tx scope) rows ->
    exists tx', w_txs (set_tx id (set_attempts tx scope rows) w) !! id = Some tx' /\
      ledger_ok (tx_attempts tx') /\ attempts_evolve (tx_attempts tx) (tx_attempts tx') /\
      tx_tables tx' = tx_tables tx /\ tx_inbox tx' = tx_inbox tx /\ tx_outbox tx' = tx_outbox tx) as Hset.
  { intros scope rows Hr He. destruct (set_attempts_ok tx scope rows Hok Hr He) as [H1 H2].
    exists (set_attempts tx scope rows). cbn. by rewrite lookup_insert_eq. }
  destruct op as [ctx key message now | ctx o | ctx o now | ctx cutoff after limit]; cbn.
  - unfold tx_Begin, mbind, M_bind, lift. do 2 (case_match; [done |]).
    destruct (ledger_scope ctx key) as [scope | |]; [| done | done]. rewrite Hg.
    destruct (begin_rows _ _ _ _) as [start rows] eqn:Eb.
    destruct (begin_rows_ok _ _ _ _ _ _ (ledger_ok_at tx scope Hok) Eb) as [H1 H2].
    destruct start; try done. cbn. by apply Hset.
  - unfold tx_Finish, mbind, M_bind, lift. unfold validOutcome.
    destruct (String.eqb _ _); [done |]. destruct (out_N o <? 1); [done |].
    destruct (validClass (out_Class o)) eqn:Ev; cbn [negb]; [| done].
    destruct (_ && _); [done |]. destruct (_ && _); [done |].
    destruct (ledger_scope ctx (out_Key o)) as [scope | |]; [| done | done]. rewrite Hg.
    destruct (_ <? _); [done |]. destruct (rows_at tx scope !! _) as [r |] eqn:Er; [| done].
    destruct (finish_row r o) as [f r'] eqn:Ef. cbn.
    pose proof (ledger_ok_at tx scope Hok) as Hrows.
    destruct (finish_row_ok r o f r') as [H1 H2]; try done.
    { destruct Hrows as [Hall _]. by eapply Forall_lookup_1. }
    apply Hset; [by eapply rows_ok_insert | by eapply rows_evolve_insert].
  - unfold tx_Observe, mbind, M_bind, lift.
    destruct (validObservation o) as [[] | |]; [| done | done].
    destruct (ledger_scope ctx (obs_Key o)) as [scope | |]; [| done | done]. rewrite Hg.
    destruct (last (rows_at tx scope)) as [r |] eqn:El; [| done].
    destruct (ar_finished r) eqn:Ef; cbn [negb]; [| done].
    destruct (observe_row _ _ _ _) as [ob r'] eqn:Eo. cbn.
    pose proof (ledger_ok_at tx scope Hok) as Hrows. apply last_lookup_pred in El.
    destruct (observe_row_ok r (len (rows_at tx scope)) o now ob r') as [H1 H2]; try done.
    { destruct Hrows as [Hall _]. by eapply Forall_lookup_1. }
    apply Hset; [by eapply rows_ok_insert | by eapply rows_evolve_insert].
  - unfold tx_Stale. destruct (limit <? 1); [done |]. unfold mbind, M_bind. by rewrite Hg.
Qed.

Lemma Confined_ledger id op (w : W) : committed (ledger_exec id op w) = committed w.
Proof.
  assert (forall A (m : M W error A), Confined committed m -> committed (m w).2 = committed w) as Hc.
  { intros A m Hm. destruct (m w) as [r w'] eqn:E'. by eapply Hm. }
  destruct op; cbn; apply Hc; clear Hc.
  - unfold tx_Begin. do 2 (case_match; [auto with confined |]).
    apply Confined_bind; [auto with confined | intros sc].
    apply Confined_bind; [auto with confined | intros tx].
    destruct (begin_rows _ _ _ _) as [start rows]. auto with confined.
  - unfold tx_Finish. apply Confined_bind; [auto with confined | intros _].
    apply Confined_bind; [auto with confined | intros sc].
    apply Confined_bind; [auto with confined | intros tx]. cbv zeta.
    case_match; [auto with confined |]. case_match; [| auto with confined].
    destruct (finish_row _ _). auto with confined.
  - unfold tx_Observe. apply Confined_bind; [auto with confined | intros _].
    apply Confined_bind; [auto with confined | intros sc].
    apply Confined_bind; [auto with confined | intros tx]. cbv zeta.
    case_match; [| auto with confined]. case_match; [auto with confined |].
    destruct (observe_row _ _ _ _). auto with confined.
  - unfold tx_Stale. auto 8 with confined.
Qed.
End LedgerInvariant.

(** * Pages of stale attempts *)
Lemma compareCursor_eq a b : compareCursor a b = Eq <-> a = b.
Proof.
  unfold compareCursor. rewrite (cmp_eq (cmp := pair_compare _ _)). unfold cursor_tuple.
  destruct a, b; cbn. split; [intros [= -> -> -> ->]; done | intros [= -> -> -> ->]; done].
Qed.
Lemma compareCursor_opp a b : compareCursor b a = CompOpp (compareCursor a b).
Proof. unfold compareCursor. apply (cmp_opp (cmp := pair_compare _ _)). Qed.
Lemma compareCursor_trans a b c :
  compareCursor a b = Lt -> compareCursor b c = Lt -> compareCursor a c = Lt.
Proof. unfold compareCursor. apply (cmp_trans (cmp := pair_compare _ _)). Qed.

#[export] Instance attempt_le_total : Total attempt_le.
Proof.
  intros a b. unfold attempt_le. rewrite (compareCursor_opp (Cursor a)).
  destruct (compareCursor (Cursor a) (Cursor b)); cbn; auto.
Qed.
#[export] Instance attempt_le_trans : Transitive attempt_le.
Proof.
  intros a b c. unfold attempt_le.
  destruct (compareCursor (Cursor a) (Cursor b)) eqn:E1; [| | done].
  - apply compareCursor_eq in E1 as ->. done.
  - intros _. destruct (compareCursor (Cursor b) (Cursor c)) eqn:E2; [| | done].
    + apply compareCursor_eq in E2 as <-. by rewrite E1.
    + intros _. by rewrite (compareCursor_trans _ _ _ E1 E2).
Qed.

(** The begun attempts a page may list, independently of the pages. *)
Definition is_stale (attempts : gmap attemptKey (list attemptRow)) (cutoff : Instant)
    (after : AttemptCursor) (a : Attempt) : Prop :=
  exists scope rows i r, attempts !! scope = Some rows /\ rows !! i = Some r /\
    ar_finished r = false /\ ar_startedAt r <= cutoff /\
    a = attemptOf scope (Z.of_nat i + 1) r /\
    (after = zeroCursor \/ compareCursor (Cursor a) after = Gt).

Lemma elem_of_imap_pair {A} (l : list A) n i x :
  (i, x) ∈ imap (fun j y => ((n + j)%nat, y)) l <-> exists j, i = (n + j)%nat /\ l !! j = Some x.
Proof.
  rewrite list_elem_of_lookup. split.
  - intros [j Hj]. rewrite list_lookup_imap in Hj. destruct (l !! j) eqn:E'; naive_solver.
  - intros (j & -> & Hj). exists j. by rewrite list_lookup_imap, Hj.
Qed.

Lemma stale_row_elem scope cutoff after i r a :
  a ∈ stale_row scope cutoff after (i, r) <->
  ar_finished r = false /\ ar_startedAt r <= cutoff /\ a = attemptOf scope (Z.of_nat i + 1) r /\
  (after = zeroCursor \/ compareCursor (Cursor a) after = Gt).
Proof.
  unfold stale_row. case_match eqn:Hc.
  - apply andb_true_iff in Hc as [[Hf%negb_true_iff Hs%Z.leb_le]%andb_true_iff Ha].
    rewrite orb_true_iff, !bool_decide_eq_true in Ha. rewrite list_elem_of_singleton.
    split; [intros ->; auto | by intros (_ & _ & -> & _)].
  - split; [intros H; by inversion H |]. intros (Hf & Hs & -> & Ha).
    rewrite Hf in Hc. cbn in Hc. apply Z.leb_le in Hs. rewrite Hs in Hc. cbn in Hc.
    apply orb_false_iff in Hc as [H1%bool_decide_eq_false H2%bool_decide_eq_false].
    destruct Ha; done.
Qed.

Lemma imap_pair_elem {A} (l : list A) i x : (i, x) ∈ imap pair l <-> l !! i = Some x.
Proof.
  rewrite (elem_of_imap_pair l 0). cbn. split; [by intros (j & -> & ?) | eauto].
Qed.

Lemma stale_of_elem cutoff after kr a :
  a ∈ stale_of cutoff after kr <->
  exists i r, kr.2 !! i = Some r /\ ar_finished r = false /\ ar_startedAt r <= cutoff /\
    a = attemptOf kr.1 (Z.of_nat i + 1) r /\
    (after = zeroCursor \/ compareCursor (Cursor a) after = Gt).
Proof.
  unfold stale_of. rewrite list_elem_of_bind. split.
  - intros ([i r] & Ha & Hi). apply imap_pair_elem in Hi. apply stale_row_elem in Ha. eauto.
  - intros (i & r & Hi & Ha). exists (i, r). by rewrite stale_row_elem, imap_pair_elem.
Qed.

Lemma stale_attempts_elem attempts cutoff after a :
  a ∈ stale_attempts attempts cutoff after <-> is_stale attempts cutoff after a.
Proof.
  unfold stale_attempts, is_stale. rewrite merge_sort_Permutation, list_elem_of_bind. split.
  - intros ([scope rows] & (i & r & H)%stale_of_elem & Hin%elem_of_map_to_list).
    exists scope, rows, i, r. naive_solver.
  - intros (scope & rows & i & r & Hs & H). exists (scope, rows).
    rewrite stale_of_elem, elem_of_map_to_list. naive_solver.
Qed.

Lemma attemptOf_inj s1 n1 r1 s2 n2 r2 :
  attemptOf s1 n1 r1 = attemptOf s2 n2 r2 -> s1 = s2 /\ n1 = n2.
Proof. destruct s1, s2. unfold attemptOf. cbn. naive_solver. Qed.

Lemma stale_attempts_NoDup attempts cutoff after : NoDup (stale_attempts attempts cutoff after).
Proof.
  unfold stale_attempts. rewrite merge_sort_Permutation. apply NoDup_bind.
  - intros [s1 rows1] [s2 rows2] a H1%elem_of_map_to_list H2%elem_of_map_to_list
      (i1 & r1 & _ & _ & _ & -> & _)%stale_of_elem (i2 & r2 & _ & _ & _ & He & _)%stale_of_elem.
    apply attemptOf_inj in He as [He _]. cbn in He. subst. congruence.
  - intros [s rows] _. unfold stale_of. apply NoDup_bind.
    + intros [i1 r1] [i2 r2] a H1%imap_pair_elem H2%imap_pair_elem
        (_ & _ & -> & _)%stale_row_elem (_ & _ & He & _)%stale_row_elem.
      apply attemptOf_inj in He as [_ He]. assert (i1 = i2) as -> by lia. cbn in *. congruence.
    + intros [i r] _. unfold stale_row. case_match; repeat constructor; set_solver.
    + cbn. apply NoDup_alt. intros i j x Hi Hj. rewrite list_lookup_imap in Hi, Hj.
      destruct (rows !! i), (rows !! j); naive_solver.
  - apply NoDup_map_to_list.
Qed.

(** The same cursor is the same begun attempt. *)
Lemma is_stale_cursor attempts cutoff after a b :
  is_stale attempts cutoff after a -> is_stale attempts cutoff after b -> Cursor a = Cursor b -> a = b.
Proof.
  intros (s1 & rows1 & i1 & r1 & H1 & R1 & _ & _ & -> & _) (s2 & rows2 & i2 & r2 & H2 & R2 & _ & _ & -> & _).
  unfold Cursor, attemptOf. cbn. intros [= _ Ht Hk Hn]. destruct s1, s2. cbn in *. subst.
  assert (i1 = i2) as -> by lia. congruence.
Qed.

Lemma stale_attempts_sorted attempts cutoff after :
  StronglySorted attempt_lt (stale_attempts attempts cutoff after).
Proof.
  pose proof (stale_attempts_NoDup attempts cutoff after) as Hnd.
  assert (StronglySorted attempt_le (stale_attempts attempts cutoff after)) as Hs.
  { unfold stale_attempts. apply Sorted_StronglySorted; [apply _ | apply Sorted_merge_sort, _]. }
  assert (Forall (is_stale attempts cutoff after) (stale_attempts attempts cutoff after)) as Hall.
  { apply Forall_forall. intros a Ha. by apply stale_attempts_elem. }
  revert Hnd Hs Hall. generalize (stale_attempts attempts cutoff after).
  induction l as [| a l IH]; [constructor |].
  intros [Ha Hnd]%NoDup_cons [Hle Hs]%StronglySorted_cons [Hsa Hall]%Forall_cons.
  constructor; [by apply IH |].
  apply Forall_forall. intros b Hb. unfold attempt_lt.
  rewrite Forall_forall in Hle, Hall. specialize (Hle b Hb). unfold attempt_le in Hle.
  destruct (compareCursor (Cursor a) (Cursor b)) eqn:Ec; [| done | done].
  apply compareCursor_eq in Ec. pose proof (is_stale_cursor _ _ _ a b Hsa (Hall b Hb) Ec). by subst.
Qed.
