(* ===== verification/Application.v ===== *)
(** The application block's use-case skeletons
    ([src/libs/backend/go/application]): authorization, identity, [Enqueue],
    [Decide], the idempotent run of a command, [Execute] and [Query].  They are
    written against the interfaces of the ports, over any world. *)

From S2P Require Import Prelude Regex DomainKernel Errors Ports Interfaces Codec OutboundKey.

(** * Authorization ([authorize.go]) *)
Definition denied (note : string) : error := Wrap note ErrDenied.

Definition holds_permission (execution : ExecutionContext) (p : Permission) : result error unit :=
  match Subject execution with
  | None => Ok ()
  | Some _ =>
      if bool_decide (p ∈ default [] (Permissions execution)) then Ok ()
      else Err (denied "the subject does not hold")
  end.

Definition AllowAll {C} (_ : Ctx) (_ : C) : result error unit := Ok ().

Definition Permitted {C} (required : C -> Permission) (ctx : Ctx) (cmd : C) : result error unit :=
  execution ← RequireExecutionContext ctx;
  match Tenant execution with
  | None => Err (denied "the operation reaches tenant data and no tenant was resolved")
  | Some _ =>
      let permission := required cmd in
      if String.eqb permission "" then Err (denied "the operation declares no permission")
      else holds_permission execution permission
  end.

Definition PlatformPermitted {C} (required : C -> Permission) (ctx : Ctx) (cmd : C)
    : result error unit :=
  match PlatformReachFrom ctx with
  | Some ReachAllTenants =>
      execution ← RequireExecutionContext ctx;
      let permission := required cmd in
      if String.eqb permission "" then Err (denied "the operation declares no permission")
      else holds_permission execution permission
  | _ => Err (Join "platform" [ErrDenied; ErrPlatformReachUndeclared])
  end.

(** * Message context ([message_context.go]) *)
Definition MessageContextFor (ctx : Ctx) (id : MessageID) : MessageContext :=
  let mc := default zeroMessageContext (MessageContextFrom ctx) in
  if String.eqb (mc_CausationID mc) ""
  then mkMessageContext (mc_CorrelationID mc) id (mc_Traceparent mc) (mc_Tracestate mc)
  else mc.

(** * Identity ([identity.go]) *)
Record Identity := mkIdentity { OccurredAt : Instant; MessageIDs : list MessageID }.

(** * Enqueue ([enqueue.go]) *)
Record Origin := mkOrigin { Destination : string; AggregateType : string; AggregateID : string }.

(** * Idempotency ([idempotent.go]) *)
Definition deadlineMargin : Instant := 100000000.
Definition ErrIncompleteCommand : error := Sentinel "application.ErrIncompleteCommand".

Record IdempotencyPolicy := mkIdempotencyPolicy {
  pol_Wait : Z;
  pol_Retention : Z;
  pol_Hash : option (bytes -> Digest)
}.

Definition waitUntil (now : Instant) (wait : Z) (deadline_ : Instant) : Instant :=
  Z.max (Z.min (now +! wait) (deadline_ -! deadlineMargin)) now.

(** [fmt.Sprintf("%x", digest)]: two lower-case digits per byte. *)
Definition hex_digit (n : Z) : ascii :=
  ascii_of_N (Z.to_N (if n <? 10 then 48 + n else 87 + n)).
Definition hex (bs : bytes) : string :=
  string_of_list_ascii (concat (map (fun b => [hex_digit (b / 16); hex_digit (b mod 16)]) bs)).

Section Application.
Context {W : Type} {Slots_W : HasSlots W} {Event : Type}.

(** [ResolveIdentity]: the loop takes one identifier per event. *)
Fixpoint take_ids (ids : IDGenerator W) (n : nat) (taken : list MessageID)
    : M W error (list MessageID) :=
  match n with
  | O => mret taken
  | S n' =>
      next ← run (NewMessageID ids);
      if String.eqb next "" then panic "application: IDGenerator produced an empty MessageID"
      else if bool_decide (next ∈ taken)
      then panic "application: IDGenerator repeated a MessageID within one resolution"
      else take_ids ids n' (taken ++ [next])
  end.
Definition ResolveIdentity (clock : Clock W) (ids : IDGenerator W) (events : Z)
    : M W error Identity :=
  if events <? 0 then panic "application: ResolveIdentity requires a non-negative event count"
  else
    at_ ← run (Now clock);
    taken ← take_ids ids (Z.to_nat events) [];
    mret (mkIdentity at_ taken).

(** [Enqueue]: the entry of event [i], and the loop. *)
Definition entry_for (ctx : Ctx) (identity : Identity) (origin : Origin) (written : Version)
    (id : MessageID) (event : Event) : OutboxEntry Event :=
  mkOutboxEntry id (OccurredAt identity) (Destination origin) (AggregateID origin)
    (AggregateType origin) (AggregateID origin) written event (MessageContextFor ctx id).
Fixpoint enqueue_loop (ctx : Ctx) (outbox : Outbox W Event) (identity : Identity)
    (origin : Origin) (written : Version) (ids : list MessageID) (events : list Event)
    : M W error unit :=
  match events, ids with
  | [], _ => mret ()
  | _ :: _, [] => panic "index out of range"
  | event :: events', id :: ids' =>
      _ ← outbox_Enqueue outbox ctx (entry_for ctx identity origin written id event);
      enqueue_loop ctx outbox identity origin written ids' events'
  end.
Definition Enqueue (ctx : Ctx) (outbox : Outbox W Event) (identity : Identity)
    (origin : Origin) (written : Version) (events : list Event) : M W error unit :=
  if len (MessageIDs identity) <? len events
  then panic "application: the decision produced more events than identifiers"
  else enqueue_loop ctx outbox identity origin written (MessageIDs identity) events.

(** * Decide ([decide.go]) *)
Definition Loader (S A : Type) : Type := Ctx -> Reader W S -> string -> M W error (A * Version).

Definition OrNew {S A} (fresh : string -> A) (from : S -> A) : Loader S A :=
  fun ctx reader id =>
    loaded ← attempt (reader_Load reader ctx id);
    match loaded with
    | Err e => if errors_is e ErrNotFound then mret (fresh id, 0) else throw e
    | Ok (snapshot, stored) => mret (from snapshot, stored)
    | Panic p => panic p
    end.
Definition Existing {S A} (from : S -> A) : Loader S A :=
  fun ctx reader id =>
    loaded ← reader_Load reader ctx id;
    mret (from loaded.1, loaded.2).
Definition Absent {S A} (fresh : string -> A) : Loader S A :=
  fun ctx reader id =>
    loaded ← attempt (reader_Load reader ctx id);
    match loaded with
    | Ok _ => throw ErrAlreadyExists
    | Err e => if negb (errors_is e ErrNotFound) then throw e else mret (fresh id, 0)
    | Panic p => panic p
    end.

Definition Decide {S A R} (snapshot : A -> S) (ctx : Ctx) (repo : Repository W S)
    (outbox : Outbox W Event) (origin : Origin) (id : string) (identity : Identity)
    (load : Loader S A) (decide_ : A -> A * Decision_of Event R) : M W error (Outcome R) :=
  loaded ← load ctx (repo_Reader repo) id;
  let '(aggregate, stored) := loaded : A * Version in
  let '(aggregate, decision) := decide_ aggregate in
  match decision with
  | inr rejection => mret (OutRejected rejection)
  | inl accepted =>
      saved ← attempt (repo_Save repo ctx id (snapshot aggregate) stored);
      match saved with
      | Err e =>
          match DeclaredRejection e with
          | Some rejection => mret (OutRejected rejection)
          | None => throw e
          end
      | Panic p => panic p
      | Ok _ =>
          _ ← map_err (Wrap "enqueue")
                (Enqueue ctx outbox identity origin (wrapu64 (stored + 1)) (events accepted));
          mret (OutAccepted (response accepted))
      end
  end.

(** * The idempotent run *)
Record IdempotentCommand (R : Type) := mkIdempotentCommand {
  ic_Inbox : Inbox W;
  ic_Consumer : string;
  ic_Operation : string;
  ic_Fingerprint : option Fingerprint;
  ic_Now : Instant;
  ic_Policy : IdempotencyPolicy;
  ic_Codec : OutcomeCodec R;
  ic_Run : M W error (Outcome R)
}.
Arguments mkIdempotentCommand {R}.
Arguments ic_Inbox {R}.
Arguments ic_Consumer {R}.
Arguments ic_Operation {R}.
Arguments ic_Fingerprint {R}.
Arguments ic_Now {R}.
Arguments ic_Policy {R}.
Arguments ic_Codec {R}.
Arguments ic_Run {R}.

Definition status_of {R} (o : Outcome R) : Status :=
  if outcome_rejected o then StatusRejected else StatusProcessed.

(** The receipt a command registers. *)
Definition command_receipt {R} (cmd : IdempotentCommand R) (key : string)
    (execution : ExecutionContext) (fp : Fingerprint) (digest : bytes -> Digest) : Receipt :=
  mkReceipt (ic_Consumer cmd) key (ic_Operation cmd)
    (hex (digest (under fp (ic_Operation cmd)))) (ic_Now cmd)
    (waitUntil (ic_Now cmd) (pol_Wait (ic_Policy cmd)) (deadline execution))
    (ic_Now cmd +! pol_Retention (ic_Policy cmd)).

Definition command_first {R} (ctx : Ctx) (cmd : IdempotentCommand R) (pending : Pending W)
    : M W error (Outcome R * bool) :=
  ran ← ic_Run cmd;
  _ ← Complete pending ctx (mkCompletion (status_of ran) (ic_Now cmd) ""
                              (EncodeOutcome (ic_Codec cmd) ran));
  mret (ran, false).

Definition command_replay {R} (cmd : IdempotentCommand R) (reception : Reception W)
    : M W error (Outcome R * bool) :=
  outcome ← lift (DecodeOutcome (ic_Codec cmd) (Stored reception));
  mret (outcome, true).

(** What follows a registration: the match and the mark it leaves. *)
Definition command_match {R} (ctx : Ctx) (cmd : IdempotentCommand R) (reception : Reception W)
    : M W error (Outcome R * bool) :=
  matched ← attempt (Reception_Match reception (command_first ctx cmd)
                       (command_replay cmd reception) (command_replay cmd reception)
                       (throw ErrIdempotencyMismatch));
  match matched with
  | Err e =>
      if errors_is e ErrIdempotencyMismatch
      then _ ← mark (MarkIdempotency ctx IdempotencyMismatch); throw e
      else throw e
  | Panic p => panic p
  | Ok (outcome, replayed) =>
      _ ← mark (MarkIdempotency ctx (if replayed : bool then IdempotencyReplayed else IdempotencyNew));
      mret (outcome, replayed)
  end.

Definition RunIdempotent {R} (ctx : Ctx) (cmd : IdempotentCommand R)
    : M W error (Outcome R * bool) :=
  let key := default "" (IdempotencyKeyFrom ctx) in
  if String.eqb key "" then throw ErrIdempotencyKeyAbsent
  else if negb (ValidIdempotencyKey key) then throw ErrIdempotencyKeyInvalid
  else
    execution ← lift (RequireExecutionContext ctx);
    match ic_Fingerprint cmd, pol_Hash (ic_Policy cmd) with
    | Some fp, Some digest =>
        registered ← attempt (inbox_Register (ic_Inbox cmd) ctx
                                (command_receipt cmd key execution fp digest));
        match registered with
        | Err e =>
            if errors_is e ErrRegisterTimeout
            then _ ← mark (MarkIdempotency ctx IdempotencyInFlight);
                 throw (Join "in flight" [ErrIdempotencyInFlight; e])
            else throw e
        | Panic p => panic p
        | Ok reception => command_match ctx cmd reception
        end
    | _, _ => throw (Wrap "lacks a fingerprint or a digest" ErrIncompleteCommand)
    end.

(** * Execute ([execute.go]) *)
Record Executor (Res Op : Type) := mkExecutor {
  x_UoW : UnitOfWork W Res;
  x_Inbox : Res -> Inbox W;
  x_Consumer : string;
  x_Clock : Clock W;
  x_IDs : IDGenerator W;
  x_MaxEvents : Z;
  x_Policy : IdempotencyPolicy;
  x_Authorize : Ctx -> Op -> M W error unit;
  x_Instrumentation : option (Instrumentation W)
}.
Arguments x_UoW {Res Op}.
Arguments x_Inbox {Res Op}.
Arguments x_Consumer {Res Op}.
Arguments x_Clock {Res Op}.
Arguments x_IDs {Res Op}.
Arguments x_MaxEvents {Res Op}.
Arguments x_Policy {Res Op}.
Arguments x_Authorize {Res Op}.
Arguments x_Instrumentation {Res Op}.

Record Command (Res Op R : Type) := mkCommand {
  c_Operation : string;
  c_Object : string;
  c_Input : Op;
  c_Fingerprint : option Fingerprint;
  c_Codec : OutcomeCodec R;
  c_Run : Ctx -> Res -> Identity -> M W error (Outcome R)
}.
Arguments c_Operation {Res Op R}.
Arguments c_Object {Res Op R}.
Arguments c_Input {Res Op R}.
Arguments c_Fingerprint {Res Op R}.
Arguments c_Codec {Res Op R}.
Arguments c_Run {Res Op R}.

(** The callback [Execute] hands to [Within]. *)
Definition execute_run {Res Op R} (x : Executor Res Op) (c : Command Res Op R)
    (identity : Identity) (ctx : Ctx) (res : Res) : M W error (Outcome R * bool) :=
  RunIdempotent ctx (mkIdempotentCommand (x_Inbox x res) (x_Consumer x) (c_Operation c)
    (c_Fingerprint c) (OccurredAt identity) (x_Policy x) (c_Codec c) (c_Run c ctx res identity)).

Definition Execute {Res Op R} (ctx : Ctx) (x : Executor Res Op) (c : Command Res Op R)
    : M W error (Outcome R) :=
  let inst := default NoInstrumentation (x_Instrumentation x) in
  opened ← unfailing (BeginOperation inst ctx (c_Operation c));
  let '(ctx, end_) := opened : Ctx * (Result -> M W Empty_set unit) in
  authorized ← attempt (x_Authorize x ctx (c_Input c));
  match authorized with
  | Err e => _ ← unfailing (end_ (AuthorizationResult e)); throw e
  | Panic p => panic p
  | Ok _ =>
      identity ← ResolveIdentity (x_Clock x) (x_IDs x) (x_MaxEvents x);
      ran ← attempt (Within (x_UoW x) ctx (execute_run x c identity));
      match ran with
      | Err e => _ ← unfailing (end_ (mkResult OutcomeFailed (Some e))); throw e
      | Panic p => panic p
      | Ok (outcome, replayed) =>
          let category := outcome_Category outcome in
          _ ← unfailing (end_ (mkResult category None));
          _ ← (if negb replayed
               then unfailing (Audit inst ctx
                      (mkAuditEvent (c_Object c) (c_Operation c) category (OccurredAt identity)))
               else mret ());
          mret outcome
      end
  end.

(** * Query ([query.go]) *)
Definition Query {Op S} (ctx : Ctx) (instrumentation : option (Instrumentation W))
    (authz : Ctx -> Op -> M W error unit) (operation : string) (input : Op)
    (load : Ctx -> M W error S) : M W error S :=
  let inst := default NoInstrumentation instrumentation in
  opened ← unfailing (BeginOperation inst ctx operation);
  let '(ctx, end_) := opened : Ctx * (Result -> M W Empty_set unit) in
  authorized ← attempt (authz ctx input);
  match authorized with
  | Err e => _ ← unfailing (end_ (AuthorizationResult e)); throw e
  | Panic p => panic p
  | Ok _ =>
      loaded ← attempt (load ctx);
      match loaded with
      | Err e => _ ← unfailing (end_ (mkResult OutcomeFailed (Some e))); throw e
      | Panic p => panic p
      | Ok snapshot => _ ← unfailing (end_ (mkResult OutcomeAccepted None)); mret snapshot
      end
  end.
End Application.

(** * What the skeletons promise *)

(** ** Authorization *)
Lemma Permitted_ok {C} (required : C -> Permission) ctx cmd :
  Permitted required ctx cmd = Ok () <->
  exists execution t, ExecutionContextFrom ctx = Some execution /\ Tenant execution = Some t /\
    required cmd <> ""%string /\
    (forall s, Subject execution = Some s -> required cmd ∈ permissions execution).
Proof.
  unfold Permitted, RequireExecutionContext, holds_permission, Permissions, Subject.
  destruct (ExecutionContextFrom ctx) as [ec |]; cbn; [| split; [done | naive_solver]].
  destruct (Tenant ec) as [t |] eqn:Et; [| split; [done | naive_solver]].
  destruct (String.eqb_spec (required cmd) "") as [He | Hne]; [split; [done | naive_solver] |].
  destruct (hasSubject ec) eqn:Es; cbn.
  - case_bool_decide as Hp; split; try done.
    + intros _. exists ec, t. naive_solver.
    + intros (ec' & t' & [= <-] & _ & _ & H). rewrite Es in H. by specialize (H _ eq_refl).
  - split; [| done]. intros _. exists ec, t. rewrite Es. naive_solver.
Qed.

Lemma Permitted_denied {C} (required : C -> Permission) ctx cmd e :
  Permitted required ctx cmd = Err e -> e = ErrContextAbsent \/ errors_is e ErrDenied = true.
Proof.
  unfold Permitted, RequireExecutionContext, holds_permission.
  destruct (ExecutionContextFrom ctx); cbn; [| naive_solver].
  repeat case_match; intros; simplify_eq; auto.
Qed.

Section Laws.
Context {W : Type} {Slots_W : HasSlots W} {Event : Type}.

(** ** Identity *)
Lemma take_ids_distinct ids n taken (w : W) l w' :
  take_ids ids n taken w = (Ok l, w') -> NoDup taken -> ""%string ∉ taken ->
  NoDup l /\ ""%string ∉ l /\ length l = (length taken + n)%nat /\ taken `prefix_of` l.
Proof.
  revert taken w. induction n as [| n IH]; intros taken w; cbn.
  - intros [= <- <-]. repeat split; [done | done | lia | done].
  - unfold mbind, M_bind, run. destruct (NewMessageID ids w) as [next w1].
    destruct (String.eqb_spec next ""); [done |]. case_bool_decide; [done |].
    intros Hrec Hnd He. apply IH in Hrec as (H1 & H2 & H3 & H4).
    + repeat split; try done; [rewrite H3, length_app; cbn; lia |].
      etransitivity; [by apply prefix_app_r | done].
    + apply NoDup_app. repeat split; [done | set_solver | apply NoDup_singleton].
    + set_solver.
Qed.

(** ** A refused or failed command changes nothing durable *)
Section Atomic.
Context {C Res Op R : Type} (view : W -> C).
Context (x : Executor (W := W) Res Op) (c : Command (W := W) Res Op R).

(** What the parts of an executor may touch: only the callback's resources
    reach the durable state, and only through the unit of work. *)
Record ExecutorConfined : Prop := {
  xc_unit : AtomicUnit view (x_UoW _ _ x);
  xc_inbox : forall res, ConfinedInbox view (x_Inbox _ _ x res);
  xc_run : forall ctx res identity, Confined view (c_Run _ _ _ c ctx res identity);
  xc_authorize : forall ctx op, Confined view (x_Authorize _ _ x ctx op);
  xc_clock : forall w, view (Now (x_Clock _ _ x) w).2 = view w;
  xc_ids : forall w, view (NewMessageID (x_IDs _ _ x) w).2 = view w;
  xc_slots : forall s (w : W), view (set_slots s w) = view w;
  xc_instrumentation :
    ConfinedInstrumentation view (default NoInstrumentation (x_Instrumentation _ _ x))
}.
Context (Hx : ExecutorConfined).

Lemma Confined_mark f : Confined view (mark (W := W) f).
Proof. apply Confined_modify. intros w. apply (xc_slots Hx). Qed.

Lemma Confined_take_ids n taken : Confined view (take_ids (x_IDs _ _ x) n taken).
Proof.
  revert taken. induction n as [| n IH]; intros taken; cbn; [auto with confined |].
  apply Confined_bind; [apply Confined_run, (xc_ids Hx) | intros next].
  repeat case_match; auto with confined.
Qed.

Lemma Confined_ResolveIdentity n :
  Confined view (ResolveIdentity (x_Clock _ _ x) (x_IDs _ _ x) n).
Proof.
  unfold ResolveIdentity. case_match; [auto with confined |].
  apply Confined_bind; [apply Confined_run, (xc_clock Hx) | intros at_].
  apply Confined_bind; [apply Confined_take_ids | auto with confined].
Qed.

Lemma Confined_RunIdempotent identity ctx res : Confined view (execute_run x c identity ctx res).
Proof.
  pose proof (xc_inbox Hx res) as Hi.
  unfold execute_run, RunIdempotent. cbv zeta. do 2 (case_match; [auto with confined |]).
  apply Confined_bind; [auto with confined | intros execution].
  case_match; [| auto with confined]. case_match; [| auto with confined].
  apply Confined_bind_at; [apply Confined_attempt, (register_confined (view := view)) |].
  intros a w w' Ha. destruct a as [reception | e | p]; [| | auto with confined].
  - unfold command_match. apply Confined_bind.
    + apply Confined_attempt.
      destruct reception; cbn; unfold command_replay; auto 8 with confined.
      apply Confined_bind; [| auto with confined].
      unfold command_first. apply Confined_bind; [apply (xc_run Hx) | intros ran].
      apply Confined_bind; [| auto with confined].
      unfold attempt in Ha. cbn in Ha. destruct (inbox_Register _ _ _ _) as [[r | |] w1] eqn:Er;
        [| done | done]. injection Ha as -> ->.
      refine (complete_confined _ _ _ _ _ Er _ _).
    + intros [[o rp] | e | p]; [| case_match |]; auto with confined.
      * apply Confined_bind; [apply Confined_mark | auto with confined].
      * apply Confined_bind; [apply Confined_mark | auto with confined].
  - case_match; [| auto with confined].
    apply Confined_bind; [apply Confined_mark | auto with confined].
Qed.

(** The unit of work answered the command: what it committed is [w'], from a
    world whose durable part is still the caller's. *)
Definition unit_answered (ctx : Ctx) (w : W) (ctx1 : Ctx) (end_ : Result -> M W Empty_set unit)
    (identity : Identity) (outcome : Outcome R) (replayed : bool) (w' : W) : Prop :=
  exists w1 w2,
    BeginOperation (default NoInstrumentation (x_Instrumentation _ _ x)) ctx (c_Operation _ _ _ c) w =
      (Ok (ctx1, end_), w1) /\
    view w2 = view w /\
    Within (x_UoW _ _ x) ctx1 (execute_run x c identity) w2 = (Ok (outcome, replayed), w').

(** The two calls [Execute] makes once the unit answered, as they panic: the
    end of the operation, and the audit of a command that was not replayed. *)
Definition telling_panicked (ctx1 : Ctx) (end_ : Result -> M W Empty_set unit)
    (identity : Identity) (outcome : Outcome R) (replayed : bool) (w : W) (p : string) (w' : W) : Prop :=
  let category := outcome_Category outcome in
  end_ (mkResult category None) w = (Panic p, w') \/
  replayed = false /\ exists w1, end_ (mkResult category None) w = (Ok (), w1) /\
    Audit (default NoInstrumentation (x_Instrumentation _ _ x)) ctx1
      (mkAuditEvent (c_Object _ _ _ c) (c_Operation _ _ _ c) category (OccurredAt identity)) w1 =
      (Panic p, w').

(** How an execution may end. *)
Definition executed (ctx : Ctx) (w : W) (r : result error (Outcome R)) (w' : W) : Prop :=
  let after ctx1 end_ identity outcome replayed w2 :=
    unit_answered ctx w ctx1 end_ identity outcome replayed w2 /\ view w' = view w2 in
  match r with
  | Err _ => view w' = view w
  | Panic p =>
      view w' = view w \/
      exists ctx1 end_ identity outcome replayed w2,
        after ctx1 end_ identity outcome replayed w2 /\
        telling_panicked ctx1 end_ identity outcome replayed w2 p w'
  | Ok outcome =>
      exists ctx1 end_ identity replayed w2, after ctx1 end_ identity outcome replayed w2
  end.

(** Before the unit answers, only what is confined has run. *)
Lemma executed_failing {A} ctx (w w2 : W) (m : M W Empty_set A) e r w' :
  view w2 = view w -> Confined view (unfailing m) ->
  (_ ← unfailing m; throw e) w2 = (r, w') -> executed ctx w r w'.
Proof.
  intros Hv Hm. rewrite unfailing_bind.
  destruct (m w2) as [[a | [] | p] w3] eqn:Em; intros [= <- <-]; cbn.
  - rewrite <- Hv. apply (Hm w2 (Ok a)). unfold unfailing. by rewrite Em.
  - left. rewrite <- Hv. apply (Hm w2 (Panic p)). unfold unfailing. by rewrite Em.
Qed.

Lemma unfailing_view {A} (m : M W Empty_set A) w r w' :
  Confined view (unfailing m) -> m w = (r, w') -> view w' = view w.
Proof. intros Hm E. eapply Hm. unfold unfailing. by rewrite E. Qed.

(** From the unit's answer on, what it committed stays. *)
Lemma executed_telling ctx (w w2 : W) ctx1 end_ identity outcome (replayed : bool) r w' :
  unit_answered ctx w ctx1 end_ identity outcome replayed w2 ->
  (_ ← unfailing (end_ (mkResult (outcome_Category outcome) None));
   _ ← (if negb replayed
        then unfailing (Audit (default NoInstrumentation (x_Instrumentation _ _ x)) ctx1
               (mkAuditEvent (c_Object _ _ _ c) (c_Operation _ _ _ c) (outcome_Category outcome)
                  (OccurredAt identity)))
        else mret ());
   mret outcome) w2 = (r, w') ->
  executed ctx w r w'.
Proof.
  intros Hu. pose proof Hu as (w0 & ? & Hb & _).
  pose proof (end_confined (ConfinedInstrumentation := xc_instrumentation Hx) _ _ _ _ _ _ Hb) as He.
  pose proof (audit_confined (ConfinedInstrumentation := xc_instrumentation Hx)) as Ha.
  rewrite unfailing_bind.
  destruct (end_ _ w2) as [[[] | [] | p] w3] eqn:E1; pose proof (unfailing_view _ _ _ _ (He _) E1) as H3.
  2: { intros [= <- <-]. right. exists ctx1, end_, identity, outcome, replayed, w2.
       split; [done |]. by left. }
  destruct replayed; cbn [negb].
  { intros [= <- <-]. by exists ctx1, end_, identity, true, w2. }
  rewrite unfailing_bind.
  destruct (Audit _ _ _ w3) as [[[] | [] | p] w4] eqn:E2; pose proof (unfailing_view _ _ _ _ (Ha _ _) E2) as H4;
    intros [= <- <-].
  - exists ctx1, end_, identity, false, w2. split; [done | congruence].
  - right. exists ctx1, end_, identity, outcome, false, w2. split; [split; [done | congruence] |].
    right. split; [done |]. by exists w3.
Qed.

Lemma Execute_executed ctx w r w' : Execute ctx x c w = (r, w') -> executed ctx w r w'.
Proof.
  unfold Execute. cbv zeta. rewrite unfailing_bind.
  destruct (BeginOperation _ ctx _ w) as [[[ctx1 end_] | [] | p] w1] eqn:Hb;
    pose proof (unfailing_view _ _ _ _ (begin_confined (ConfinedInstrumentation := xc_instrumentation Hx) _ _) Hb) as H1.
  2: { intros [= <- <-]. by left. }
  pose proof (end_confined (ConfinedInstrumentation := xc_instrumentation Hx) _ _ _ _ _ _ Hb) as He.
  unfold mbind at 1, M_bind at 1.
  destruct (attempt _ w1) as [[[[] | e | p] | e | p] w2] eqn:E1;
    apply (Confined_attempt view _ (xc_authorize Hx ctx1 (c_Input _ _ _ c))) in E1; rewrite H1 in E1.
  2: by apply executed_failing.
  2, 3, 4: intros [= <- <-]; cbn; auto.
  unfold mbind at 1, M_bind at 1.
  destruct (ResolveIdentity _ _ _ w2) as [[identity | e | p] w3] eqn:E2;
    apply Confined_ResolveIdentity in E2; rewrite E1 in E2.
  2, 3: intros [= <- <-]; cbn; auto.
  unfold mbind at 1, M_bind at 1. unfold attempt at 1.
  destruct (Within (x_UoW _ _ x) ctx1 (execute_run x c identity) w3) as [[[o rp] | e | p] w4] eqn:E3.
  - apply executed_telling. by exists w1, w3.
  - apply (unit_atomic (AtomicUnit := xc_unit Hx)) in E3; [| apply Confined_RunIdempotent | done].
    apply executed_failing; [congruence | done].
  - apply (unit_atomic (AtomicUnit := xc_unit Hx)) in E3; [| apply Confined_RunIdempotent | done].
    intros [= <- <-]. left. congruence.
Qed.
End Atomic.
End Laws.
