(* ===== verification/AppMemory.v ===== *)
(** The application skeletons over the in-memory realization: a repeated
    command replays the stored outcome, and a decision saves and enqueues as one
    change of the working copy. *)

From S2P Require Import Prelude GoStrings Regex DomainKernel Errors Ports Codec OutboundKey Interfaces Memory Application.

Section AppMemory.
Context {Any Event X : Type}.
Notation W := (World Any Event X).

(** * The memory inbox keeps to its working copy *)
Lemma tx_Register_First id consumer commands ctx r (w w' : W) p :
  tx_Register id consumer commands ctx r w = (Ok (FirstReception p), w') ->
  exists q key, p = memoryPending id q key (rcp_PayloadHash r) (rcp_ExpiresAt r).
Proof.
  destruct (w_txs w !! id) as [tx |] eqn:Hw.
  - rewrite (tx_Register_spec _ _ _ _ _ _ _ Hw). unfold reception_of, mbind, M_bind, mret, M_ret,
      new_pending. repeat case_match; intros; simplify_eq; eauto.
  - unfold tx_Register, mbind, M_bind, mret, M_ret, lift, throw, get_tx.
    repeat (case_match; try done); intros; simplify_eq.
Qed.

#[export] Instance CommandInbox_confined id consumer :
  ConfinedInbox committed (CommandInbox (Any := Any) (Event := Event) (X := X) id consumer).
Proof.
  split; cbn.
  - intros ctx r. apply Confined_Register.
  - intros ctx r w p w' (q & key & ->)%tx_Register_First ctx' c.
    cbn [Complete memoryPending]. apply Confined_Complete.
Qed.
#[export] Instance txInbox_confined id consumer :
  ConfinedInbox committed (txInbox (Any := Any) (Event := Event) (X := X) id consumer).
Proof.
  split; cbn.
  - intros ctx r. apply Confined_Register.
  - intros ctx r w p w' (q & key & ->)%tx_Register_First ctx' c.
    cbn [Complete memoryPending]. apply Confined_Complete.
Qed.

(** * Idempotency *)
Section Idempotency.
Context {R : Type} (codec : OutcomeCodec R) (ok : R -> Prop) {laws : CodecLaws codec ok}.
Context (id : loc) (consumer : string).

(** A command of the inbox [consumer], open in transaction [id]: [fp] and
    [digest] fix what identifies it, [run] is its effect. *)
Definition command_at (operation : string) (fp : Fingerprint) (policy : IdempotencyPolicy)
    (now : Instant) (run : M W error (Outcome R)) : IdempotentCommand (W := W) R :=
  mkIdempotentCommand R (CommandInbox id consumer) consumer operation (Some fp) now policy codec run.

Context (operation : string) (fp : Fingerprint) (policy : IdempotencyPolicy).
Context (digest : bytes -> Digest) (Hdigest : pol_Hash policy = Some digest).
Context (ctx : Ctx).

Definition receipt_at (now : Instant) (execution : ExecutionContext) (run : M W error (Outcome R))
  : Receipt :=
  command_receipt (command_at operation fp policy now run)
    (default "" (IdempotencyKeyFrom ctx)) execution fp digest.

(** The row a first run leaves. *)
Definition recorded_row (now : Instant) (o : Outcome R) : inboxRow :=
  mkInboxRow (hex (digest (under fp operation))) (status_of o) "" (EncodeOutcome codec o)
    (now +! pol_Retention policy).

(** The key of the command in the inbox. *)
Definition command_key : option inboxKey :=
  match ExecutionContextFrom ctx with
  | Some execution =>
      match Tenant execution with
      | Some t => Some (consumer, command_id t (default "" (IdempotencyKeyFrom ctx)))
      | None => None
      end
  | None => None
  end.

(** A command the skeleton lets reach the inbox at [now]. *)
Definition admissible (now : Instant) : Prop :=
  ValidIdempotencyKey (default "" (IdempotencyKeyFrom ctx)) = true /\
  consumer <> ""%string /\ now < now +! pol_Retention policy.

Lemma valid_key_nonempty key : ValidIdempotencyKey key = true -> String.eqb key "" = false.
Proof. intros H. by destruct key. Qed.

Lemma register_key_command now execution run :
  ExecutionContextFrom ctx = Some execution -> admissible now ->
  register_key consumer true ctx (receipt_at now execution run) =
  match command_key with Some k => Ok k | None => Err ErrTenantUnresolved end.
Proof.
  intros He (Hv & Hc & Hexp). unfold register_key, receipt_at, command_receipt, command_key.
  cbn [rcp_Consumer rcp_ExpiresAt rcp_ReceivedAt rcp_MessageID ic_Consumer command_at ic_Now
    ic_Policy].
  rewrite String.eqb_refl. destruct (String.eqb_spec consumer "") as [| _]; [done |]. cbn [orb negb].
  destruct (Z.leb_spec (now +! pol_Retention policy) now); [lia |].
  unfold scopedKey, RequireExecutionContext. rewrite He. cbn. by destruct (Tenant execution).
Qed.

(** Past the guards, the skeleton registers and matches. *)
Lemma RunIdempotent_unfold now run execution k (w : W) tx :
  ExecutionContextFrom ctx = Some execution -> admissible now -> command_key = Some k ->
  w_txs w !! id = Some tx ->
  RunIdempotent ctx (command_at operation fp policy now run) w =
  match reception_of id k (receipt_at now execution run) (tx_inbox tx !! k) w with
  | (Ok reception, w') => command_match ctx (command_at operation fp policy now run) reception w'
  | (Err e, w') => (Err e, w')
  | (Panic p, w') => (Panic p, w')
  end.
Proof.
  intros He Ha Hk Hw. pose proof Ha as (Hv & _). unfold RunIdempotent. cbv zeta.
  rewrite (valid_key_nonempty _ Hv), Hv. cbn [negb].
  unfold RequireExecutionContext. rewrite He. unfold mbind at 1, M_bind at 1, lift.
  cbn [ic_Fingerprint ic_Policy command_at ic_Inbox]. rewrite Hdigest.
  unfold mbind at 1, M_bind at 1, attempt.
  change (command_receipt _ _ execution fp digest) with (receipt_at now execution run).
  cbn [inbox_Register CommandInbox].
  rewrite (tx_Register_spec _ _ _ _ _ _ _ Hw), (register_key_command now execution run He Ha), Hk.
  unfold reception_of. destruct (tx_inbox tx !! k) as [row |]; [| done].
  destruct (expired row _); [done |]. destruct (negb _); [done |]. by destruct (bool_decide _).
Qed.

Lemma Complete_row p (w w' : W) q k hash expires ctx' c :
  p = memoryPending id q k hash expires -> Complete p ctx' c w = (Ok (), w') ->
  exists tx, w_txs w' !! id = Some tx /\
    tx_inbox tx !! k = Some (mkInboxRow hash (cmp_Status c) (cmp_LastError c) (cmp_Outcome c) expires).
Proof.
  intros -> H. cbn in H. unfold pending_Complete, mbind, M_bind, gets in H.
  destruct (default false _); [done |]. destruct (_ && _); [done |].
  unfold get_tx in H. destruct (w_txs w !! id) as [tx |] eqn:Hw; [| done].
  cbn in H. injection H as <-. eexists. cbn. rewrite lookup_insert_eq. split; [done |].
  cbn. by rewrite lookup_insert_eq.
Qed.

(** A run that was not a replay recorded its outcome. *)
Lemma RunIdempotent_records now run execution k (w w' : W) tx o :
  ExecutionContextFrom ctx = Some execution -> admissible now -> command_key = Some k ->
  w_txs w !! id = Some tx ->
  RunIdempotent ctx (command_at operation fp policy now run) w = (Ok (o, false), w') ->
  exists tx', w_txs w' !! id = Some tx' /\ tx_inbox tx' !! k = Some (recorded_row now o).
Proof.
  intros He Ha Hk Hw. rewrite (RunIdempotent_unfold now run execution k w tx) by done.
  destruct (reception_of _ _ _ _ _) as [[reception | |] w1] eqn:Er; [| done | done].
  unfold command_match, mbind at 1, M_bind at 1, attempt.
  destruct reception as [| p | st | st |]; cbn [Reception_Match].
  - done.
  - assert (exists q, p = memoryPending id q k (rcp_PayloadHash (receipt_at now execution run))
        (rcp_ExpiresAt (receipt_at now execution run))) as [q Hp].
    { unfold reception_of, mbind, M_bind, mret, M_ret, new_pending in Er.
      repeat case_match; simplify_eq; eauto. }
    unfold command_first, mbind, M_bind. destruct (ic_Run _ _ w1) as [[ran | e | m] w2]; [| | done].
    2: { cbn. destruct (errors_is e _); done. }
    destruct (Complete p ctx _ w2) as [[[] | e | m] w3] eqn:Ec; [| | done].
    2: { cbn. destruct (errors_is e _); done. }
    destruct (Complete_row p w2 w3 q k _ _ ctx _ Hp Ec) as (tx3 & Hw3 & Hrow).
    unfold gets, mret, M_ret. destruct (Completed p w3); [| cbn; done].
    cbn. intros [= <- <-]. cbn. by exists tx3.
  - unfold command_replay, mbind, M_bind, lift. destruct (DecodeOutcome _ _); cbn; try done.
    destruct (errors_is _ _); done.
  - unfold command_replay, mbind, M_bind, lift. destruct (DecodeOutcome _ _); cbn; try done.
    destruct (errors_is _ _); done.
  - done.
Qed.

(** A held row answers for the command, whatever the command would do. *)
Lemma RunIdempotent_replays now run k (w : W) tx row o :
  admissible now -> command_key = Some k ->
  w_txs w !! id = Some tx -> tx_inbox tx !! k = Some row ->
  ir_hash row = hex (digest (under fp operation)) -> expired row now = false ->
  DecodeOutcome codec (ir_outcome row) = Ok o ->
  RunIdempotent ctx (command_at operation fp policy now run) w =
  (Ok (o, true), set_slots (MarkIdempotency ctx IdempotencyReplayed (get_slots w)) w).
Proof.
  intros Ha Hk Hw Hrow Hhash Hexp Hdec.
  destruct (ExecutionContextFrom ctx) as [execution |] eqn:He;
    [| unfold command_key in Hk; by rewrite He in Hk].
  rewrite (RunIdempotent_unfold now run execution k w tx), Hrow by done.
  unfold reception_of. cbn [rcp_ReceivedAt rcp_PayloadHash receipt_at command_receipt command_at
    ic_Now ic_Operation]. rewrite Hexp, Hhash, String.eqb_refl. cbn [negb].
  destruct (bool_decide _); unfold command_match, mbind, M_bind, attempt; cbn [Reception_Match];
    unfold command_replay, mbind, M_bind, lift; cbn [Stored ic_Codec command_at]; rewrite Hdec; done.
Qed.

Lemma RunIdempotent_mismatch now run k (w : W) tx row :
  admissible now -> command_key = Some k ->
  w_txs w !! id = Some tx -> tx_inbox tx !! k = Some row ->
  ir_hash row <> hex (digest (under fp operation)) -> expired row now = false ->
  RunIdempotent ctx (command_at operation fp policy now run) w =
  (Err ErrIdempotencyMismatch,
   set_slots (MarkIdempotency ctx IdempotencyMismatch (get_slots w)) w).
Proof.
  intros Ha Hk Hw Hrow Hhash Hexp.
  destruct (ExecutionContextFrom ctx) as [execution |] eqn:He;
    [| unfold command_key in Hk; by rewrite He in Hk].
  rewrite (RunIdempotent_unfold now run execution k w tx), Hrow by done.
  unfold reception_of. cbn [rcp_ReceivedAt rcp_PayloadHash receipt_at command_receipt command_at
    ic_Now ic_Operation]. rewrite Hexp.
  destruct (String.eqb_spec (ir_hash row) (hex (digest (under fp operation)))); [done |].
  done.
Qed.
End Idempotency.

(** * A decision over a working copy *)
Lemma set_tx_set_tx id tx1 tx2 (w : W) : set_tx id tx2 (set_tx id tx1 w) = set_tx id tx2 w.
Proof. unfold set_tx. cbn. by rewrite insert_insert_eq. Qed.

Lemma set_tx_same id tx (w : W) : w_txs w !! id = Some tx -> set_tx id tx w = w.
Proof. intros Hw. unfold set_tx. rewrite insert_id by done. by destruct w. Qed.

(** The entries a decision authors, in order. *)
Definition entries_for (ctx : Ctx) (identity : Identity) (origin : Origin) (written : Version)
    (ids : list MessageID) (evs : list Event) : list (OutboxEntry Event) :=
  zip_with (entry_for ctx identity origin written) ids evs.

Definition add_entries (tx : Tx Any Event) (es : list (OutboxEntry Event)) : Tx Any Event :=
  mkTx (tx_tables tx) (tx_inbox tx) (tx_outbox tx ++ es) (tx_attempts tx) (tx_writes tx + len es).

Lemma add_entries_nil tx : add_entries tx [] = tx.
Proof. unfold add_entries. rewrite app_nil_r, Z.add_0_r. by destruct tx. Qed.

Lemma enqueue_loop_memory id ctx identity origin written ids evs (w : W) tx :
  w_txs w !! id = Some tx -> (length evs <= length ids)%nat ->
  enqueue_loop ctx (tx_Outbox id) identity origin written ids evs w =
  (Ok (), set_tx id (add_entries tx (entries_for ctx identity origin written ids evs)) w).
Proof.
  revert ids w tx. induction evs as [| ev evs IH]; intros [| i ids] w tx Hw Hl; cbn in Hl; try lia.
  - cbn. by rewrite add_entries_nil, set_tx_same.
  - unfold entries_for. cbn. by rewrite add_entries_nil, set_tx_same.
  - cbn [enqueue_loop tx_Outbox outbox_Enqueue]. unfold mbind, M_bind, get_tx. rewrite Hw.
    cbn [put_tx modify]. unfold put_tx, modify.
    rewrite (IH ids _ (add_entries tx [entry_for ctx identity origin written i ev])).
    + f_equal. rewrite set_tx_set_tx. f_equal. unfold add_entries, entries_for. cbn.
      rewrite <- app_assoc. f_equal. unfold len. cbn. lia.
    + cbn. by rewrite lookup_insert_eq.
    + lia.
Qed.

Lemma Enqueue_memory id ctx identity origin written evs (w : W) tx :
  w_txs w !! id = Some tx -> len evs <= len (MessageIDs identity) ->
  Enqueue ctx (tx_Outbox id) identity origin written evs w =
  (Ok (), set_tx id (add_entries tx
             (entries_for ctx identity origin written (MessageIDs identity) evs)) w).
Proof.
  intros Hw Hl. unfold Enqueue.
  destruct (Z.ltb_spec (len (MessageIDs identity)) (len evs)); [lia |].
  apply enqueue_loop_memory; [done | unfold len in Hl; lia].
Qed.

Section Decision.
Context {S A R : Type} (t : Table Any S) {laws : TableLaws t}.
Context (id : loc) (ctx : Ctx) (key : rowKey) (aid : string).
Context (Hkey : scopedKey ctx aid = Ok key).
Context (snapshot : A -> S) (origin : Origin) (identity : Identity).
Context (load : Loader (W := W) S A) (decide_ : A -> A * Decision_of Event R).

Definition repo_at : Repository W S := mkRepository (txReader t id) (tx_Save t id).
Lemma Save_memory s v (w : W) tx :
  w_txs w !! id = Some tx ->
  repo_Save repo_at ctx aid s v w =
  let '(err, tx') := saveAs t tx key s v in
  (match err with Some e => Err e | None => Ok () end, set_tx id tx' w).
Proof.
  intros Hw. cbn [repo_Save repo_at]. unfold tx_Save, mbind, M_bind, lift, get_tx, put_tx, modify.
  rewrite Hkey, Hw. by destruct (saveAs t tx key s v) as [[e |] tx'].
Qed.
Definition decide_at : M W error (Outcome R) :=
  Decide snapshot ctx repo_at (tx_Outbox id) origin aid identity load decide_.

(** What the decision leaves, case by case. *)
Lemma Decide_memory agg stored (w : W) tx :
  w_txs w !! id = Some tx -> load ctx (txReader t id) aid w = (Ok (agg, stored), w) ->
  decide_at w =
  let '(agg', d) := decide_ agg in
  match d with
  | inr rejection => (Ok (OutRejected rejection), w)
  | inl accepted =>
      let '(err, tx') := saveAs t tx key (snapshot agg') stored in
      match err with
      | Some e =>
          (match DeclaredRejection e with
           | Some rejection => Ok (OutRejected rejection)
           | None => Err e
           end, set_tx id tx' w)
      | None =>
          if len (MessageIDs identity) <? len (events accepted)
          then (Panic "application: the decision produced more events than identifiers",
                set_tx id tx' w)
          else (Ok (OutAccepted (response accepted)),
                set_tx id (add_entries tx' (entries_for ctx identity origin
                  (wrapu64 (stored + 1)) (MessageIDs identity) (events accepted))) w)
      end
  end.
Proof.
  intros Hw Hload. unfold decide_at, Decide. unfold mbind at 1, M_bind at 1.
  cbn [repo_Reader repo_at]. rewrite Hload.
  destruct (decide_ agg) as [agg' [accepted | rejection]]; [| done].
  unfold mbind at 1, M_bind at 1, attempt. rewrite (Save_memory _ _ _ tx Hw).
  destruct (saveAs t tx key (snapshot agg') stored) as [[e |] tx'].
  - unfold throw, mret, M_ret. destruct (DeclaredRejection e); done.
  - cbv beta iota.
    unfold mbind, M_bind, map_err.
    destruct (Z.ltb_spec (len (MessageIDs identity)) (len (events accepted))) as [Hlt | Hge].
    + unfold Enqueue. apply Z.ltb_lt in Hlt. by rewrite Hlt.
    + rewrite (Enqueue_memory _ _ _ _ _ _ _ tx') by (done || (cbn; by rewrite lookup_insert_eq)).
      by rewrite set_tx_set_tx.
Qed.
End Decision.
End AppMemory.

(** A decision reaches the durable state through its working copy only. *)
Lemma Confined_Enqueue_all {Any Event X} id ctx identity origin written evs :
  Confined committed (Enqueue (W := World Any Event X) ctx (tx_Outbox id) identity origin written evs).
Proof.
  unfold Enqueue. destruct (_ <? _); [auto with confined |]. generalize (MessageIDs identity).
  induction evs as [| ev evs IH]; intros [| i ids]; cbn [enqueue_loop]; auto with confined.
Qed.

Lemma Confined_Decide {Any Event X S A R} (t : Table Any S) id ctx aid (snapshot : A -> S) origin
    identity load (decide_ : A -> A * Decision_of Event R) :
  Confined (committed (Any := Any) (Event := Event) (X := X)) (load ctx (txReader t id) aid) ->
  Confined committed (decide_at t id ctx aid snapshot origin identity load decide_).
Proof.
  intros Hload. unfold decide_at, Decide. apply Confined_bind; [done | intros [agg stored]].
  destruct (decide_ agg) as [agg' [accepted |]]; [| auto with confined].
  apply Confined_bind; [apply Confined_attempt, Confined_Save | intros [u | e | p]].
  - apply Confined_bind; [apply Confined_map_err, Confined_Enqueue_all | auto with confined].
  - case_match; auto with confined.
  - auto with confined.
Qed.

(** The clock and the identifier sequence of the in-memory realization
    ([src/libs/backend/go/memory/clock.go]). *)

(** * Identifiers *)

(** [%06d]. *)
Definition padded (n : Z) : list Z :=
  replicate (6 - length (digits n)) 0 ++ digits n.
Definition format_06d (n : Z) : string := string_of (map digit_char (padded n)).

Section MemoryClock.
(** The world, seen through the counter of one generator. *)
Context {W : Type} (get_issued : W -> Z) (set_issued : Z -> W -> W).

Definition FixedClock (at_ : Instant) : Clock W := mkClock (fun w => (at_, w)).

Definition SequenceIDs (prefix : string) : IDGenerator W :=
  mkIDGenerator (fun w =>
    let issued := get_issued w +! 1 in
    ((prefix ++ format_06d issued)%string, set_issued issued w)).
End MemoryClock.

(** * What the formatted number determines *)
Lemma value_of_zeros n k : value_of (replicate n 0 ++ k) = value_of k.
Proof.
  rewrite value_of_app. replace (value_of (replicate n 0)) with 0; [lia |].
  induction n as [| n IH]; [done |]. unfold value_of in *. cbn. done.
Qed.

Lemma padded_range n : 0 <= n -> Forall (fun d => 0 <= d < 10) (padded n).
Proof.
  intros Hn. unfold padded. apply Forall_app. split; [| by apply digits_range].
  apply Forall_replicate. lia.
Qed.

Lemma padded_value n : 0 <= n <= max_int64 -> value_of (padded n) = n.
Proof.
  intros Hn. unfold padded. rewrite value_of_zeros. apply digits_loop_value.
  change (10 ^ Z.of_nat 19) with 10000000000000000000. unfold max_int64 in Hn. lia.
Qed.

Lemma format_06d_inj n m :
  0 <= n <= max_int64 -> 0 <= m <= max_int64 -> format_06d n = format_06d m -> n = m.
Proof.
  intros Hn Hm H. unfold format_06d in H.
  assert (forall x, 0 <= x <= max_int64 -> bytes_of (string_of (map digit_char (padded x))) =
    map digit_char (padded x)) as Hb.
  { intros x Hx. apply bytes_of_string_of, Forall_map.
    eapply Forall_impl; [apply padded_range; lia |]. cbv beta. unfold digit_char, byte_ok.
    intros d [Hd1 Hd2]. split; lia. }
  apply (f_equal bytes_of) in H. rewrite !Hb in H by done.
  apply (f_equal (map (fun c => c - 48))) in H. rewrite !map_map in H.
  assert (forall l, map (fun d => digit_char d - 48) l = l) as Hid.
  { induction l as [| d l IH]; cbn; [done |]. rewrite IH. f_equal. unfold digit_char. lia. }
  rewrite !Hid in H. apply (f_equal value_of) in H. by rewrite !padded_value in H.
Qed.

Lemma append_inj_l (p a b : string) : (p ++ a)%string = (p ++ b)%string -> a = b.
Proof. induction p as [| c p IH]; cbn; [done |]. intros [= H]. auto. Qed.

Lemma format_06d_nonempty n : format_06d n <> ""%string.
Proof.
  unfold format_06d, padded. destruct (decide (6 - length (digits n) = 0)%nat) as [H | H].
  - rewrite H. destruct (digits n) as [| d ds]; [cbn in H; lia |]. unfold string_of. cbn. discriminate.
  - destruct (6 - length (digits n))%nat as [| k]; [lia |]. unfold string_of. cbn. discriminate.
Qed.

(** * The sequence serves every resolution *)
Section Sequence.
Context {W : Type} (get_issued : W -> Z) (set_issued : Z -> W -> W) (prefix : string).
Context (get_set : forall n w, get_issued (set_issued n w) = n).

Definition issue (n : Z) : MessageID := (prefix ++ format_06d n)%string.

Lemma issue_nonempty n : issue n <> ""%string.
Proof. unfold issue. destruct prefix; [apply format_06d_nonempty | done]. Qed.
Lemma issue_inj n m : 0 <= n <= max_int64 -> 0 <= m <= max_int64 -> issue n = issue m -> n = m.
Proof. intros Hn Hm H%append_inj_l. by apply format_06d_inj. Qed.

Lemma take_ids_sequence n taken (w : W) :
  0 <= get_issued w -> get_issued w + Z.of_nat n <= max_int64 ->
  (forall i, i ∈ taken -> exists k, 0 <= k <= get_issued w /\ i = issue k) ->
  exists w', get_issued w' = get_issued w + Z.of_nat n /\
    take_ids (SequenceIDs get_issued set_issued prefix) n taken w =
    (Ok (taken ++ map (fun k => issue (get_issued w + Z.of_nat k)) (List.seq 1 n)), w').
Proof.
  revert taken w. induction n as [| n IH]; intros taken w Hw Hn Ht.
  - exists w. cbn. rewrite app_nil_r. split; [lia | done].
  - cbn [take_ids]. unfold mbind, M_bind, run. cbn [NewMessageID SequenceIDs].
    rewrite wrap64_id by solve_int64. fold (issue (get_issued w + 1)).
    destruct (String.eqb_spec (issue (get_issued w + 1)) ""); [by destruct (issue_nonempty (get_issued w + 1)) |].
    case_bool_decide as Hin.
    { destruct (Ht _ Hin) as (k & Hk & He). apply issue_inj in He; lia. }
    set (w1 := set_issued (get_issued w + 1) w).
    assert (get_issued w1 = get_issued w + 1) as H1 by apply get_set.
    destruct (IH (taken ++ [issue (get_issued w + 1)]) w1) as (w' & Hw' & Hr); [lia | lia | |].
    { intros i [Hi | ->%list_elem_of_singleton]%elem_of_app.
      - destruct (Ht i Hi) as (k & Hk & ->). exists k. split; [lia | done].
      - exists (get_issued w + 1). split; [lia | done]. }
    exists w'. split; [lia |]. etransitivity; [exact Hr |]. rewrite <- app_assoc, H1.
    f_equal. f_equal. f_equal. cbn [List.seq map app]. f_equal.
    rewrite <- (seq_shift n 1), map_map. apply map_ext. intros k. f_equal. lia.
Qed.

(** with the sequence generator, resolving the identity of a command
    never panics: while the counter fits an [int] the resolution issues as
    many identifiers as events asked for, all distinct and none empty, and
    moves the counter by that number. *)
Theorem ResolveIdentity_sequence clock at_ n (w w1 : W)
    (Hc : Now clock w = (at_, w1)) (Hw : 0 <= get_issued w1) (H0 : 0 <= n)
    (Hn : get_issued w1 + n <= max_int64) :
  exists ids w', ResolveIdentity clock (SequenceIDs get_issued set_issued prefix) n w =
      (Ok (mkIdentity at_ ids), w') /\
    len ids = n /\ NoDup ids /\ ""%string ∉ ids /\ get_issued w' = get_issued w1 + n.
Proof.
  unfold ResolveIdentity. destruct (Z.ltb_spec n 0); [lia |].
  destruct (take_ids_sequence (Z.to_nat n) [] w1) as (w' & Hw' & Hr); [done | lia | set_solver |].
  destruct (take_ids_distinct _ _ _ _ _ _ Hr) as (Hd & He & Hl & _); [constructor | set_solver |].
  eexists _, w'. unfold mbind, M_bind, run. rewrite Hc. unfold mbind, M_bind in Hr. rewrite Hr.
  split; [done |]. unfold len. rewrite Hl. cbn [length]. repeat split; [lia | done | done | lia].
Qed.
End Sequence.

Lemma ResolveIdentity_sequence_witness :
  exists ids w', ResolveIdentity (FixedClock 5) (SequenceIDs (W := Z) id (fun n _ => n) "m-") 3 41 =
      (Ok (mkIdentity 5 ids), w') /\
    len ids = 3 /\ NoDup ids /\ ""%string ∉ ids /\ id w' = id 41 + 3.
Proof.
  apply (ResolveIdentity_sequence (W := Z) id (fun n _ => n) "m-" (fun n w => eq_refl)
    (FixedClock 5) 5 3 41 41); [reflexivity | cbn; lia | lia | vm_compute; discriminate].
Defined.

Example sequence_issues :
  issue "m-" 1 = "m-000001" /\ issue "m-" 1234567 = "m-1234567".
Proof. split; reflexivity. Qed.
