(* ===== verification/ServiceRuns.v ===== *)
(** Use cases over the in-memory realization, seen from outside: whatever
    happens inside [Execute], a command over one table either leaves rows and
    outbox alone or stores one decided aggregate together with its events.  The
    contexts of the services use these laws to follow a row through any
    sequence of commands. *)

From S2P Require Import Prelude Regex DomainKernel Errors Ports Interfaces Codec OutboundKey Memory Application AppMemory.

(** * The idempotent run, around the command it runs *)
Section Around.
Context {W : Type} {Slots_W : HasSlots W} {C R : Type} (view : W -> C).
Context (Hslots : forall s (w : W), view (set_slots s w) = view w).

Lemma mark_view f w r w' : mark (W := W) f w = (r, w') -> view w' = view w /\ r = Ok ().
Proof. intros [= <- <-]. by rewrite Hslots. Qed.

(** Either the command did not run, or everything around it left [view] alone;
    an answer that is not a replay is the command's. *)
Definition around (cmd : IdempotentCommand (W := W) R) (w : W)
    (r : result error (Outcome R * bool)) (w' : W) : Prop :=
  (view w' = view w /\ forall o, r <> Ok (o, false)) \/
  exists w1 w2 ran, view w1 = view w /\ ic_Run R cmd w1 = (ran, w2) /\ view w' = view w2 /\
    forall o b, r = Ok (o, b) -> ran = Ok o /\ b = false.

Lemma command_match_around ctx (cmd : IdempotentCommand (W := W) R) reception w r w' :
  (forall p, reception = FirstReception p -> forall ctx c, Confined view (Complete p ctx c)) ->
  command_match ctx cmd reception w = (r, w') -> around cmd w r w'.
Proof.
  intros Hc. unfold command_match, mbind at 1, M_bind at 1, attempt.
  destruct reception as [| p | st | st |]; cbn [Reception_Match].
  - intros [= <- <-]. left. by split.
  - unfold command_first, mbind at 1, M_bind at 1, mbind at 1, M_bind at 1.
    destruct (ic_Run R cmd w) as [[ran | e | m] w2] eqn:Er.
    + unfold mbind at 1, M_bind at 1.
      destruct (Complete p ctx _ w2) as [[[] | e | m] w3] eqn:Ec; apply (Hc p eq_refl) in Ec.
      * unfold mret at 1, M_ret at 1, mbind at 1, M_bind at 1, gets.
        destruct (Completed p w3); cbn.
        -- intros [= <- <-]. right. exists w, w2, (Ok ran). rewrite Hslots. naive_solver.
        -- intros [= <- <-]. right. exists w, w2, (Ok ran). naive_solver.
      * unfold mbind, M_bind, throw. destruct (errors_is _ _); intros [= <- <-];
          right; exists w, w2, (Ok ran); rewrite ?Hslots; naive_solver.
      * intros [= <- <-]. right. exists w, w2, (Ok ran). naive_solver.
    + unfold mbind, M_bind, throw. destruct (errors_is _ _); intros [= <- <-];
        right; exists w, w2, (Err e); rewrite ?Hslots; naive_solver.
    + intros [= <- <-]. right. exists w, w2, (Panic m). naive_solver.
  - unfold command_replay, mbind, M_bind, lift, mret, M_ret, throw.
    destruct (DecodeOutcome _ _); try (destruct (errors_is _ _)); intros [= <- <-];
      left; cbn; rewrite ?Hslots; done.
  - unfold command_replay, mbind, M_bind, lift, mret, M_ret, throw.
    destruct (DecodeOutcome _ _); try (destruct (errors_is _ _)); intros [= <- <-];
      left; cbn; rewrite ?Hslots; done.
  - unfold throw, mbind, M_bind. destruct (errors_is _ _); intros [= <- <-];
      left; cbn; rewrite ?Hslots; done.
Qed.

Lemma RunIdempotent_around ctx (cmd : IdempotentCommand (W := W) R) w r w' :
  ConfinedInbox view (ic_Inbox R cmd) ->
  RunIdempotent ctx cmd w = (r, w') -> around cmd w r w'.
Proof.
  intros Hi. unfold RunIdempotent. cbv zeta.
  destruct (String.eqb _ _); [intros [= <- <-]; by left |].
  destruct (negb _); [intros [= <- <-]; by left |].
  unfold mbind at 1, M_bind at 1, lift.
  destruct (RequireExecutionContext ctx) as [execution | e | m];
    [| intros [= <- <-]; by left | intros [= <- <-]; by left].
  destruct (ic_Fingerprint R cmd) as [fp |]; [| intros [= <- <-]; by left].
  destruct (pol_Hash (ic_Policy R cmd)) as [digest |]; [| intros [= <- <-]; by left].
  unfold mbind at 1, M_bind at 1, attempt.
  destruct (inbox_Register (ic_Inbox R cmd) ctx _ w) as [[reception | e | m] w1] eqn:Er;
    pose proof (register_confined (view := view) _ _ _ _ _ Er) as Hv.
  - intros Hm. apply command_match_around in Hm.
    + unfold around in *. rewrite Hv in Hm. exact Hm.
    + intros p -> ctx' c. exact (complete_confined (view := view) _ _ _ _ _ Er ctx' c).
  - unfold mbind, M_bind, throw. destruct (errors_is _ _); intros [= <- <-];
      left; cbn; rewrite ?Hslots; done.
  - intros [= <- <-]. by left.
Qed.
End Around.

Section Runs.
Context {Any Event X : Type}.
Notation W := (World Any Event X).

(** * Views of a working copy and of the store *)
Definition tx_data (id : loc) (w : W) : option (gmap string (table Any) * list (OutboxEntry Event)) :=
  (fun tx => (tx_tables tx, tx_outbox tx)) <$> w_txs w !! id.
Definition inside (id : loc) (w : W) := (committed w, tx_data id w).

Lemma Confined_inside_Register id consumer commands ctx r :
  Confined (inside id) (tx_Register (Any := Any) (Event := Event) (X := X) id consumer commands ctx r).
Proof.
  assert (Confined (inside id) (get_tx (X := X) (Any := Any) (Event := Event) id)) as Hg.
  { intros w r' w'. unfold get_tx. case_match; naive_solver. }
  assert (Confined (inside id) (new_pending (Any := Any) (Event := Event) (X := X))) as Hn.
  { by intros w r' w' [= <- <-]. }
  unfold tx_Register. do 2 (case_match; [auto with confined |]).
  apply Confined_bind; [auto 8 with confined | intros mid].
  apply Confined_bind; [done | intros tx]. cbv zeta. auto 10 with confined.
Qed.

Lemma Confined_inside_Complete id p key hash e c :
  Confined (inside id) (pending_Complete (Any := Any) (Event := Event) (X := X) id p key hash e c).
Proof.
  intros w r w'. unfold pending_Complete, mbind, M_bind, gets, throw, get_tx, put_tx, modify.
  destruct (default false _); [naive_solver |]. destruct (_ && _); [naive_solver |].
  destruct (w_txs w !! id) as [tx |] eqn:Hw; [| naive_solver].
  intros [= <- <-]. unfold inside, tx_data. cbn. by rewrite lookup_insert_eq, Hw.
Qed.

#[export] Instance CommandInbox_inside id consumer :
  ConfinedInbox (inside id) (CommandInbox (Any := Any) (Event := Event) (X := X) id consumer).
Proof.
  split; cbn.
  - intros ctx r. apply Confined_inside_Register.
  - intros ctx r w p w' (q & key & ->)%tx_Register_First ctx' c.
    cbn [Complete memoryPending]. apply Confined_inside_Complete.
Qed.
#[export] Instance txInbox_inside id consumer :
  ConfinedInbox (inside id) (txInbox (Any := Any) (Event := Event) (X := X) id consumer).
Proof.
  split; cbn.
  - intros ctx r. apply Confined_inside_Register.
  - intros ctx r w p w' (q & key & ->)%tx_Register_First ctx' c.
    cbn [Complete memoryPending]. apply Confined_inside_Complete.
Qed.

(** * One table, between transactions *)
Section OneTable.
Context {S : Type} (t : Table Any S).

Definition store_rows (w : W) : gmap rowKey (row Any) := rows_of t (st_tables (w_store w)).
(** A row as the port shows it: its snapshot and its version. *)
Definition row_state (rec : row Any) : option (S * Version) :=
  (fun s => (s, row_version rec)) <$> t_unbox t (row_snapshot rec).
Definition stored (w : W) (key : rowKey) : option (S * Version) :=
  store_rows w !! key ≫= row_state.

(** The clone a table was created with is the one its declaration erases. *)
Definition clean (tables : gmap string (table Any)) : Prop :=
  match tables !! t_Name t with Some rows => tbl_clone rows = erasedClone t | None => True end.

Context {laws : TableLaws t}.

Lemma erasedClone_id clone v : erasedClone t = Some clone -> clone v = v.
Proof.
  unfold erasedClone. destruct (t_Clone t) as [f |] eqn:Hf; [| done]. intros [= <-].
  destruct (t_unbox t v) as [s |] eqn:Hv; [| done].
  pose proof (copy_id t s) as Hs. unfold table_copy in Hs. rewrite Hf in Hs. rewrite Hs.
  by apply box_unbox.
Qed.

Lemma cloneTables_clean tables :
  clean tables -> clean (cloneTables tables) /\ rows_of t (cloneTables tables) = rows_of t tables.
Proof.
  unfold clean, rows_of, cloneTables. rewrite lookup_fmap.
  destruct (tables !! t_Name t) as [rows |]; [| done]. cbn. intros Hc. split; [done |].
  rewrite Hc. destruct (erasedClone t) as [clone |] eqn:He; [| done].
  apply map_eq. intros k. rewrite lookup_fmap. destruct (tbl_rows rows !! k) as [[v n] |]; [| done].
  cbn. by rewrite (erasedClone_id clone v He).
Qed.

Lemma saveAs_clean (tx : Tx Any Event) key s v :
  clean (tx_tables tx) -> clean (tx_tables (saveAs t tx key s v).2).
Proof.
  unfold clean, saveAs. cbv zeta. intros Hc.
  destruct (negb _); [| destruct (violation _ _ _ _ _)]; cbn; rewrite lookup_insert_eq; cbn;
    by destruct (tx_tables tx !! t_Name t).
Qed.
End OneTable.

(** A table of another name is out of a save's reach. *)
Lemma clean_other {S1 S2} (t1 : Table Any S1) (t2 : Table Any S2) (tx : Tx Any Event) key s v
    {laws : TableLaws t1} :
  t_Name t1 <> t_Name t2 -> clean t2 (tx_tables tx) ->
  clean t2 (tx_tables (saveAs t1 tx key s v).2) /\
  rows_of t2 (tx_tables (saveAs t1 tx key s v).2) = rows_of t2 (tx_tables tx).
Proof.
  intros Hn Hc. pose proof (saveAs_rows t1 tx key s v) as Hs. cbv zeta in Hs.
  destruct (saveAs t1 tx key s v) as [err tx']. destruct Hs as [Hs _].
  unfold clean, rows_of. cbn. by rewrite (Hs (t_Name t2)).
Qed.

(** * [Execute] over the store *)

(** What surrounds the store keeps to itself: the clock, the identifiers, the
    authorization and the instrumentation, which may panic, neither touch the
    store nor take its lock, and the instrumentation passes the execution
    context on. *)
Definition frame (w : W) := (w_store w, w_locked w).
Class Surroundings {Res Op} (x : Executor (W := W) Res Op) : Prop := {
  su_clock : forall w, frame (Now (x_Clock _ _ x) w).2 = frame w;
  su_ids : forall w, frame (NewMessageID (x_IDs _ _ x) w).2 = frame w;
  su_authorize : forall ctx op, Confined frame (x_Authorize _ _ x ctx op);
  su_instrumentation ::
    ConfinedInstrumentation frame (default NoInstrumentation (x_Instrumentation _ _ x));
  su_context : forall ctx op w ctx1 end_ w1,
    BeginOperation (default NoInstrumentation (x_Instrumentation _ _ x)) ctx op w = (Ok (ctx1, end_), w1) ->
    ctx_execution ctx1 = ctx_execution ctx
}.

(** A service nothing observes. *)
Lemma unobserved {Res Op} (x : Executor (W := W) Res Op) :
  x_Instrumentation _ _ x = None ->
  (forall w, frame (Now (x_Clock _ _ x) w).2 = frame w) ->
  (forall w, frame (NewMessageID (x_IDs _ _ x) w).2 = frame w) ->
  (forall ctx op, Confined frame (x_Authorize _ _ x ctx op)) -> Surroundings x.
Proof.
  intros Hn ? ? ?. split; [done.. | |]; rewrite Hn; [apply _ |].
  by intros ctx op w ctx1 end_ w1 [= <- _ _].
Qed.

Lemma take_ids_frame ids n taken (w : W) r w' :
  (forall w, frame (NewMessageID ids w).2 = frame w) ->
  take_ids ids n taken w = (r, w') ->
  frame w' = frame w /\ forall l, r = Ok l -> length l = (length taken + n)%nat.
Proof.
  intros Hf. revert taken w. induction n as [| n IH]; intros taken w; cbn.
  - intros [= <- <-]. split; [done |]. intros l [= <-]. lia.
  - unfold mbind, M_bind, run. specialize (Hf w). destruct (NewMessageID ids w) as [next w1].
    cbn in Hf. destruct (String.eqb next ""); [by intros [= <- <-] |].
    case_bool_decide; [by intros [= <- <-] |]. intros [Hw Hl]%IH. split; [congruence |].
    intros l ->%Hl. rewrite length_app. cbn. lia.
Qed.

Lemma ResolveIdentity_frame {Res Op} (x : Executor (W := W) Res Op) `{!Surroundings x} n (w : W) r w' :
  ResolveIdentity (x_Clock _ _ x) (x_IDs _ _ x) n w = (r, w') ->
  frame w' = frame w /\ forall identity, r = Ok identity ->
    len (MessageIDs identity) = n /\ OccurredAt identity = (Now (x_Clock _ _ x) w).1.
Proof.
  unfold ResolveIdentity. destruct (Z.ltb_spec n 0); [by intros [= <- <-] |].
  unfold mbind, M_bind, run. pose proof (su_clock w) as Hc.
  destruct (Now (x_Clock _ _ x) w) as [at_ w1]. cbn in Hc.
  destruct (take_ids _ _ [] w1) as [[l | e | p] w2] eqn:Ht;
    apply (take_ids_frame _ _ _ _ _ _ su_ids) in Ht as [Hf Hl]; intros [= <- <-];
    (split; [congruence |]); [| done | done].
  intros identity [= <-]. cbn. split; [| done]. unfold len. rewrite (Hl l eq_refl). cbn. lia.
Qed.

(** A transaction installs what its callback left in the working copy, or
    changes nothing: [P] is what is known of that copy. *)
Lemma Within_data {A Res} (bind : loc -> Res) ctx (fn : Ctx -> Res -> M W error A) (w : W) r w'
    (P : A -> Tx Any Event -> Prop) :
  w_locked w = false ->
  (forall id wo r4 w4, w_txs wo !! id = Some (mkTx (cloneTables (st_tables (w_store w)))
       (st_inbox (w_store w)) [] (st_attempts (w_store w)) 0) ->
     fn ctx (bind id) wo = (r4, w4) ->
     committed w4 = committed wo /\
     forall a tx', r4 = Ok a -> w_txs w4 !! id = Some tx' -> P a tx') ->
  memory_Within bind ctx fn w = (r, w') ->
  w_locked w' = false /\
  (committed w' = committed w \/
   exists a tx, r = Ok a /\ P a tx /\ st_tables (w_store w') = cloneTables (tx_tables tx) /\
     st_inbox (w_store w') = tx_inbox tx /\
     st_outbox (w_store w') = st_outbox (w_store w) ++ tx_outbox tx).
Proof.
  intros Hl HP. unfold memory_Within. rewrite Hl.
  destruct (ctx_Err ctx); [intros [= <- <-]; split; [done |]; by left |].
  destruct (tx_open w) as [id wo] eqn:Ho.
  assert (w_txs wo !! id = Some (mkTx (cloneTables (st_tables (w_store w)))
       (st_inbox (w_store w)) [] (st_attempts (w_store w)) 0) /\ committed wo = committed w)
    as [Hx Hcom].
  { unfold tx_open in Ho. injection Ho as <- <-. split; [| done]. cbn. by rewrite lookup_insert_eq. }
  destruct (fn ctx (bind id) wo) as [r4 w4] eqn:Hr.
  destruct (HP _ _ _ _ Hx Hr) as [Hc4 Hd4]. clear Hr.
  assert (committed w4 = committed w) as Hc by congruence.
  assert (st_outbox (w_store w4) = st_outbox (w_store w)) as Ho4
    by (unfold committed in Hc; congruence).
  destruct r4 as [a | e | p]; [| intros [= <- <-]; split; [done | by left] ..].
  unfold tx_commit. destruct (st_failNextCommit (w_store w4)) as [fe |];
    [intros [= <- <-]; split; [done | by left] |].
  destruct (w_txs w4 !! id) as [tx |] eqn:Hx4; intros [= <- <-]; (split; [done |]); [right | by left].
  exists a, tx. split; [done |]. split; [by apply Hd4 |]. cbn. by rewrite Ho4.
Qed.

(** The same for a callback that never loses its working copy: an answer is
    installed. *)
Lemma Within_installs {A Res} (bind : loc -> Res) ctx (fn : Ctx -> Res -> M W error A) (w : W) r w'
    (P : A -> Tx Any Event -> Prop) :
  w_locked w = false ->
  (forall id wo r4 w4, w_txs wo !! id = Some (mkTx (cloneTables (st_tables (w_store w)))
       (st_inbox (w_store w)) [] (st_attempts (w_store w)) 0) ->
     fn ctx (bind id) wo = (r4, w4) ->
     committed w4 = committed wo /\
     forall a, r4 = Ok a -> exists tx', w_txs w4 !! id = Some tx' /\ P a tx') ->
  memory_Within bind ctx fn w = (r, w') ->
  w_locked w' = false /\
  (committed w' = committed w /\ is_Ok r = false \/
   exists a tx, r = Ok a /\ P a tx /\ st_tables (w_store w') = cloneTables (tx_tables tx) /\
     st_inbox (w_store w') = tx_inbox tx /\
     st_outbox (w_store w') = st_outbox (w_store w) ++ tx_outbox tx).
Proof.
  intros Hl HP Hw.
  pose proof Hw as Hd. apply (Within_data bind ctx fn w r w' P Hl) in Hd as [Hl' Hd].
  2: { intros id wo r4 w4 Hx Hr. destruct (HP _ _ _ _ Hx Hr) as [Hc Ha]. split; [done |].
       intros a tx' -> Hx'. destruct (Ha a eq_refl) as (tx2 & Hx2 & Hp). congruence. }
  split; [done |]. destruct r as [a | e | p].
  2, 3: destruct Hd as [Hd | (? & ? & ? & _)]; [by left | done].
  right. apply memory_Within_Ok in Hw as (id & wo & w4 & Ho & Hr & _ & _ & Hf & ->).
  assert (w_txs wo !! id = Some (mkTx (cloneTables (st_tables (w_store w)))
       (st_inbox (w_store w)) [] (st_attempts (w_store w)) 0) /\ committed wo = committed w)
    as [Hx Hcom].
  { unfold tx_open in Ho. injection Ho as <- <-. split; [| done]. cbn. by rewrite lookup_insert_eq. }
  destruct (HP _ _ _ _ Hx Hr) as [Hc Ha]. destruct (Ha a eq_refl) as (tx' & Hx' & Hp).
  exists a, tx'. split; [done |]. split; [done |]. unfold tx_commit. rewrite Hf, Hx'. cbn.
  unfold committed in *. repeat split; congruence.
Qed.

Section Execute.
Context {Res Op R : Type} (bind : loc -> Res) (consumer : string).
Context (x : Executor (W := W) Res Op) {env : Surroundings x}.
Context (Huow : x_UoW _ _ x = NewUnitOfWork bind).
Context (Hinbox : forall id, x_Inbox _ _ x (bind id) = CommandInbox id consumer).
Context (c : Command (W := W) Res Op R).

(** Rows and outbox as they were, up to the copies a commit makes. *)
Definition kept (w w' : W) : Prop :=
  (st_tables (w_store w') = st_tables (w_store w) \/
   st_tables (w_store w') = cloneTables (cloneTables (st_tables (w_store w)))) /\
  st_outbox (w_store w') = st_outbox (w_store w).

(** One run of the command in a transaction of its own, and the commit that
    installed what it left. *)
Definition committed_run (ctx : Ctx) (identity : Identity) (w : W) (answer : Outcome R) (w' : W)
  : Prop :=
  exists id w1 w2 tx2,
    tx_data id w1 = Some (cloneTables (st_tables (w_store w)), []) /\
    c_Run _ _ _ c ctx (bind id) identity w1 = (Ok answer, w2) /\
    w_txs w2 !! id = Some tx2 /\
    st_tables (w_store w') = cloneTables (tx_tables tx2) /\
    st_outbox (w_store w') = st_outbox (w_store w) ++ tx_outbox tx2.

Context (Hrun : forall ctx id identity, Confined committed (c_Run _ _ _ c ctx (bind id) identity)).

Lemma execute_run_inside ctx identity id (w : W) r w' :
  execute_run x c identity ctx (bind id) w = (r, w') ->
  around (inside id) (mkIdempotentCommand R (CommandInbox id consumer) (x_Consumer _ _ x)
    (c_Operation _ _ _ c) (c_Fingerprint _ _ _ c) (OccurredAt identity) (x_Policy _ _ x)
    (c_Codec _ _ _ c) (c_Run _ _ _ c ctx (bind id) identity)) w r w'.
Proof.
  unfold execute_run. rewrite Hinbox. apply RunIdempotent_around; [done | apply _].
Qed.

(** What a callback leaves in its working copy, seen from the copy's opening. *)
Lemma execute_run_data ctx identity id (w : W) r w' tables :
  tx_data id w = Some (tables, []) -> execute_run x c identity ctx (bind id) w = (r, w') ->
  committed w' = committed w /\
  forall o b tx', r = Ok (o, b) -> w_txs w' !! id = Some tx' ->
    tx_tables tx' = tables /\ tx_outbox tx' = [] \/
    exists w1 w2 tx2, tx_data id w1 = Some (tables, []) /\
      c_Run _ _ _ c ctx (bind id) identity w1 = (Ok o, w2) /\ w_txs w2 !! id = Some tx2 /\
      tx_tables tx' = tx_tables tx2 /\ tx_outbox tx' = tx_outbox tx2.
Proof.
  intros Hd Hr%execute_run_inside.
  destruct Hr as [[[Hc He]%pair_eq _] | (w1 & w2 & ran & [Hc1 He1]%pair_eq & Hran & [Hc2 He2]%pair_eq & Hok)].
  - split; [done |]. intros o b tx' _ Hx. left. rewrite Hd in He. unfold tx_data in He.
    rewrite Hx in He. by injection He as -> ->.
  - pose proof (Hrun _ _ _ w1 _ _ Hran) as Hc. split; [congruence |].
    intros o b tx' -> Hx. destruct (Hok o b eq_refl) as [-> _]. right.
    unfold tx_data in He2. rewrite Hx in He2. cbn in He2.
    destruct (w_txs w2 !! id) as [tx2 |] eqn:Hx2; [| done]. cbn in He2.
    injection He2 as H1 H2. exists w1, w2, tx2. by rewrite He1.
Qed.

Lemma Within_memory ctx identity (w : W) r w' :
  w_locked w = false -> memory_Within bind ctx (execute_run x c identity) w = (r, w') ->
  w_locked w' = false /\
  (kept w w' \/ exists o b, r = Ok (o, b) /\ committed_run ctx identity w o w').
Proof.
  intros Hl Hw. apply (Within_data bind ctx _ w r w' (fun ob tx' =>
    tx_tables tx' = cloneTables (st_tables (w_store w)) /\ tx_outbox tx' = [] \/
    exists id w1 w2 tx2, tx_data id w1 = Some (cloneTables (st_tables (w_store w)), []) /\
      c_Run _ _ _ c ctx (bind id) identity w1 = (Ok ob.1, w2) /\ w_txs w2 !! id = Some tx2 /\
      tx_tables tx' = tx_tables tx2 /\ tx_outbox tx' = tx_outbox tx2)) in Hw; [| done |].
  - destruct Hw as [Hl' [Hc | ([o b] & tx & -> & HP & Ht & _ & Ho)]]; split; try done.
    + left. unfold committed in Hc. split; [left |]; congruence.
    + destruct HP as [[Htx Hox] | (id & w1 & w2 & tx2 & Hd & Hr & Hx & Htx & Hox)].
      * left. split; [right; by rewrite Ht, Htx | by rewrite Ho, Hox, app_nil_r].
      * right. exists o, b. split; [done |]. exists id, w1, w2, tx2. by rewrite Ht, Ho, Htx, Hox.
  - intros id wo r4 w4 Hx Hr.
    destruct (execute_run_data ctx identity id wo r4 w4 (cloneTables (st_tables (w_store w))))
      as [Hc Hd]; [unfold tx_data; by rewrite Hx | done |].
    split; [done |]. intros [o b] tx' -> Hx'. destruct (Hd o b tx' eq_refl Hx') as [? | ?]; [by left |].
    right. by exists id.
Qed.

Lemma kept_trans (w w1 w2 w3 : W) :
  w_store w1 = w_store w -> w_store w3 = w_store w2 -> kept w1 w2 -> kept w w3.
Proof. unfold kept. by intros -> ->. Qed.

(** [Execute] changes rows and outbox by one committed run of the command, under
    a context of the same execution and an identity of its own, or not at all.
    What ran is what it answers, unless the instrumentation panics over it. *)
Lemma Execute_memory ctx (w : W) r w' :
  w_locked w = false -> Execute ctx x c w = (r, w') ->
  w_locked w' = false /\
  (kept w w' \/ exists answer ctx' at_ identity, (r = Ok answer \/ exists p, r = Panic p) /\
     ctx_execution ctx' = ctx_execution ctx /\
     len (MessageIDs identity) = x_MaxEvents _ _ x /\
     OccurredAt identity = (Now (x_Clock _ _ x) at_).1 /\
     committed_run ctx' identity w answer w').
Proof.
  intros Hl. unfold Execute. cbv zeta. rewrite unfailing_bind.
  assert (forall w2, frame w2 = frame w -> w_locked w2 = false /\ kept w w2) as Hquiet.
  { intros w2 [H1 H2]%pair_eq. rewrite H2. split; [done |]. split; [left |]; by rewrite H1. }
  assert (forall w2, frame w2 = frame w -> w_locked w2 = false /\
    (kept w w2 \/ exists answer ctx' at_ identity, (r = Ok answer \/ exists p, r = Panic p) /\
     ctx_execution ctx' = ctx_execution ctx /\ len (MessageIDs identity) = x_MaxEvents _ _ x /\
     OccurredAt identity = (Now (x_Clock _ _ x) at_).1 /\ committed_run ctx' identity w answer w2))
    as Hleft by (intros w2 [? ?]%Hquiet; auto).
  destruct (BeginOperation _ ctx _ w) as [[[ctx1 end_] | [] | p] w1] eqn:Hb;
    pose proof (unfailing_view frame _ _ _ _ (begin_confined _ _) Hb) as Hw1.
  2: intros [= <- <-]; auto.
  pose proof (end_confined _ _ _ _ _ _ Hb) as Hend. pose proof (su_context _ _ _ _ _ _ Hb) as Hctx.
  unfold mbind at 1, M_bind at 1, attempt at 1.
  destruct (x_Authorize _ _ x ctx1 (c_Input _ _ _ c) w1) as [[[] | e | p] w2] eqn:Hau;
    apply (su_authorize ctx1 (c_Input _ _ _ c) w1) in Hau; rewrite Hw1 in Hau.
  2, 3: intros Hx; apply Hleft; rewrite <- Hau.
  2: by eapply (Confined_failing frame _ e (Hend (AuthorizationResult e))).
  2: by injection Hx as <- <-.
  unfold mbind at 1, M_bind at 1.
  destruct (ResolveIdentity _ _ _ w2) as [[identity | e | p] w3] eqn:Hid;
    apply (ResolveIdentity_frame x) in Hid as [Hw3 Hident]; rewrite Hau in Hw3.
  2, 3: intros [= <- <-]; auto.
  destruct (Hident identity eq_refl) as [Hlen Hat]. clear Hident Hquiet Hleft.
  apply pair_eq in Hw3 as [Hs3 Hl3]. rewrite Hl in Hl3.
  unfold mbind at 1, M_bind at 1, attempt at 1. rewrite Huow. cbn [Within NewUnitOfWork].
  destruct (memory_Within bind ctx1 (execute_run x c identity) w3) as [r4 w4] eqn:Hw.
  apply Within_memory in Hw as [Hl4 Hw]; [| done].
  assert (forall w5, frame w5 = frame w4 ->
    (forall o b, r4 = Ok (o, b) -> r = Ok o \/ exists p, r = Panic p) ->
    w_locked w5 = false /\
    (kept w w5 \/ exists answer ctx' at_ identity, (r = Ok answer \/ exists p, r = Panic p) /\
       ctx_execution ctx' = ctx_execution ctx /\
       len (MessageIDs identity) = x_MaxEvents _ _ x /\
       OccurredAt identity = (Now (x_Clock _ _ x) at_).1 /\
       committed_run ctx' identity w answer w5)) as Hclose.
  { intros w5 [H5 H6]%pair_eq Hr5. split; [congruence |].
    destruct Hw as [Hk | (o & b & -> & Hrun')]; [left; by apply (kept_trans w w3 w4 w5) |].
    right. exists o, ctx1, w2, identity. unfold committed_run in *. rewrite <- Hs3, H5.
    split; [by apply (Hr5 o b) | done]. }
  destruct r4 as [[o b] | e | p]; intros Hx; apply Hclose; try done.
  - exact (Confined_told frame _ _ _ _ (Hend _) (audit_confined _ _) _ _ _ Hx).
  - intros ? ? [= <- _]. exact (told_ends _ _ _ _ _ _ _ Hx).
  - by eapply (Confined_failing frame _ e (Hend _)).
  - by injection Hx as <- <-.
Qed.
End Execute.

(** A query moves nothing of the store. *)
Lemma Query_frame {Res Op S} (x : Executor (W := W) Res Op) {env : Surroundings x} ctx operation
    (input : Op) (load : Ctx -> M W error S) :
  (forall ctx, Confined frame (load ctx)) ->
  Confined frame (Query ctx (x_Instrumentation _ _ x) (x_Authorize _ _ x) operation input load).
Proof.
  intros Hload. unfold Query. cbv zeta.
  apply Confined_opened; [apply _ |]. intros ctx1 end_ Hend.
  apply Confined_bind; [apply Confined_attempt, su_authorize | intros [[] | e | p]]; auto with confined.
Qed.

(** * A decision, committed *)

(** A loader is a function of what the reader answers, and passes on every error
    but an absence. *)
Class LoaderLaw {S A} (t : Table Any S) (load : Loader (W := W) S A)
    (f : string -> result error (S * Version) -> result error (A * Version)) : Prop := {
  loader_reads : forall id ctx aid w tx, w_txs w !! id = Some tx ->
    load ctx (txReader t id) aid w = (f aid (table_load t ctx (tx_tables tx) aid), w);
  loader_strict : forall aid e, errors_is e ErrNotFound = false -> f aid (Err e) = Err e;
  loader_confined : forall id ctx aid, Confined committed (load ctx (txReader t id) aid)
}.

Definition or_new {S A} (fresh : string -> A) (from : S -> A) (aid : string)
    (loaded : result error (S * Version)) : result error (A * Version) :=
  match loaded with
  | Ok (s, v) => Ok (from s, v)
  | Err e => if errors_is e ErrNotFound then Ok (fresh aid, 0) else Err e
  | Panic p => Panic p
  end.
Definition existing {S A} (from : S -> A) (_ : string) (loaded : result error (S * Version))
  : result error (A * Version) :=
  match loaded with Ok (s, v) => Ok (from s, v) | Err e => Err e | Panic p => Panic p end.
Definition absent {S A} (fresh : string -> A) (aid : string) (loaded : result error (S * Version))
  : result error (A * Version) :=
  match loaded with
  | Ok _ => Err ErrAlreadyExists
  | Err e => if errors_is e ErrNotFound then Ok (fresh aid, 0) else Err e
  | Panic p => Panic p
  end.

Lemma Confined_OrNew {S A} (t : Table Any S) fresh (from : S -> A) id ctx aid :
  Confined committed (OrNew fresh from ctx (txReader (X := X) (Event := Event) t id) aid).
Proof.
  apply Confined_bind; [apply Confined_attempt, Confined_Load |].
  intros [[s v] | e | p]; [| case_match |]; auto with confined.
Qed.
Lemma Confined_Existing {S A} (t : Table Any S) (from : S -> A) id ctx aid :
  Confined committed (Existing from ctx (txReader (X := X) (Event := Event) t id) aid).
Proof. apply Confined_bind; [apply Confined_Load | auto with confined]. Qed.
Lemma Confined_Absent {S A} (t : Table Any S) (fresh : string -> A) id ctx aid :
  Confined committed (Absent fresh ctx (txReader (X := X) (Event := Event) t id) aid).
Proof.
  apply Confined_bind; [apply Confined_attempt, Confined_Load |].
  intros [[s v] | e | p]; [| case_match |]; auto with confined.
Qed.

#[export] Instance OrNew_law {S A} (t : Table Any S) fresh (from : S -> A) :
  LoaderLaw t (OrNew fresh from) (or_new fresh from).
Proof.
  split; [| intros aid e He; cbn; by rewrite He | intros; apply Confined_OrNew].
  intros id ctx aid w tx Hw. unfold OrNew, attempt, mbind, M_bind. cbn [reader_Load txReader].
  unfold get_tx, mbind, M_bind, lift. rewrite Hw.
  destruct (table_load _ _ _ _) as [[s v] | e | p]; cbn; try done. by destruct (errors_is _ _).
Qed.
#[export] Instance Existing_law {S A} (t : Table Any S) (from : S -> A) :
  LoaderLaw t (Existing from) (existing from).
Proof.
  split; [| done | intros; apply Confined_Existing].
  intros id ctx aid w tx Hw. unfold Existing, mbind, M_bind. cbn [reader_Load txReader].
  unfold get_tx, mbind, M_bind, lift. rewrite Hw.
  by destruct (table_load _ _ _ _) as [[s v] | e | p].
Qed.
#[export] Instance Absent_law {S A} (t : Table Any S) (fresh : string -> A) :
  LoaderLaw t (Absent fresh) (absent fresh).
Proof.
  split; [| intros aid e He; cbn; by rewrite He | intros; apply Confined_Absent].
  intros id ctx aid w tx Hw. unfold Absent, attempt, mbind, M_bind. cbn [reader_Load txReader].
  unfold get_tx, mbind, M_bind, lift. rewrite Hw.
  destruct (table_load _ _ _ _) as [[s v] | e | p]; cbn; try done. by destruct (errors_is _ _).
Qed.

Lemma scopedKey_execution ctx ctx' aid :
  ctx_execution ctx' = ctx_execution ctx -> scopedKey ctx' aid = scopedKey ctx aid.
Proof. intros He. unfold scopedKey, RequireExecutionContext, ExecutionContextFrom. by rewrite He. Qed.

Lemma scopedKey_cases ctx aid :
  (exists key, scopedKey ctx aid = Ok key /\ key.2 = aid) \/
  exists e, scopedKey ctx aid = Err e /\ errors_is e ErrNotFound = false.
Proof.
  unfold scopedKey, RequireExecutionContext.
  destruct (ExecutionContextFrom ctx) as [ec |]; cbn; [| right; by eexists].
  destruct (Tenant ec) as [tn |]; [left; by exists (tn, aid) | right; by eexists].
Qed.

Section Decision.
Context {S A Ans : Type} (t : Table Any S) {laws : TableLaws t}.

(** A load is a lookup of the rows. *)
Lemma table_load_rows ctx tables aid key :
  scopedKey ctx aid = Ok key ->
  table_load t ctx tables aid =
  match rows_of t tables !! key with
  | None => Err (miss (rows_of t tables) (t_Name t) key)
  | Some rec =>
      match t_unbox t (row_snapshot rec) with
      | Some s => Ok (s, row_version rec)
      | None => Panic "interface conversion"
      end
  end.
Proof.
  intros Hk. unfold table_load, rows_of. rewrite Hk. cbn.
  destruct (tables !! t_Name t) as [rows |]; [| done].
  destruct (tbl_rows rows !! key) as [rec |]; [| done].
  destruct (t_unbox t (row_snapshot rec)); [| done]. by rewrite copy_id.
Qed.

Lemma table_load_key ctx tables aid e :
  scopedKey ctx aid = Err e -> table_load t ctx tables aid = Err e.
Proof. intros Hk. unfold table_load. by rewrite Hk. Qed.

Context (f : string -> result error (S * Version) -> result error (A * Version)).
Context (snapshot : A -> S) (origin : Origin) (aid : string).
Context (decide_ : Identity -> A -> A * Decision_of Event Ans).

(** What an accepted command leaves: the decided aggregate at the next version,
    and one entry per event behind what the outbox held. *)
Definition took_effect (ctx : Ctx) (at_ : Instant) (w : W) (answer : Ans) (w' : W) : Prop :=
  exists ctx' identity key agg v agg' evs,
    ctx_execution ctx' = ctx_execution ctx /\ OccurredAt identity = at_ /\
    scopedKey ctx aid = Ok key /\
    f aid (table_load t ctx (st_tables (w_store w)) aid) = Ok (agg, v) /\
    decide_ identity agg = (agg', inl (Accept answer evs)) /\
    version_at (store_rows t w) key = v /\
    store_rows t w' = <[key := mkRow (t_box t (snapshot agg')) (wrapu64 (v + 1))]> (store_rows t w) /\
    st_outbox (w_store w') =
      st_outbox (w_store w) ++
      entries_for ctx' identity origin (wrapu64 (v + 1)) (MessageIDs identity) evs /\
    len evs <= len (MessageIDs identity) /\
    (unique_rows t (store_rows t w) -> unique_rows t (store_rows t w')).

(** Nothing of another table moves. *)
Definition others_kept (w w' : W) : Prop :=
  forall S2 (t2 : Table Any S2), TableLaws t2 -> t_Name t <> t_Name t2 ->
    clean t2 (st_tables (w_store w)) ->
    clean t2 (st_tables (w_store w')) /\ store_rows t2 w' = store_rows t2 w.

Lemma kept_table {S2} (t2 : Table Any S2) `{!TableLaws t2} (w w' : W) :
  kept w w' -> clean t2 (st_tables (w_store w)) ->
  clean t2 (st_tables (w_store w')) /\ store_rows t2 w' = store_rows t2 w.
Proof.
  intros [[Ht | Ht] _] Hc; unfold store_rows; rewrite Ht; [done |].
  apply cloneTables_clean in Hc as [Hc Hr]; [| done].
  apply (cloneTables_clean t2) in Hc as [Hc' Hr']. by rewrite Hr', Hr.
Qed.

Lemma installed_same (w w' : W) (tx : Tx Any Event) :
  tx_tables tx = cloneTables (st_tables (w_store w)) ->
  st_tables (w_store w') = cloneTables (tx_tables tx) ->
  others_kept w w' /\
  (clean t (st_tables (w_store w)) ->
   clean t (st_tables (w_store w')) /\ store_rows t w' = store_rows t w).
Proof.
  intros H1 H2. unfold others_kept, store_rows. rewrite H2, H1.
  split; [intros S2 t2 ? _ Hc | intros Hc];
    (destruct (cloneTables_clean _ _ Hc) as [Hc' Hr'];
     destruct (cloneTables_clean _ _ Hc') as [Hc'' Hr'']; by rewrite Hr'').
Qed.

Lemma installed_save (w w' : W) (tx : Tx Any Event) key s v :
  tx_tables tx = cloneTables (st_tables (w_store w)) ->
  st_tables (w_store w') = cloneTables (tx_tables (saveAs t tx key s v).2) -> others_kept w w'.
Proof.
  intros H1 H2 S2 t2 ? Hn Hc. unfold store_rows. rewrite H2.
  destruct (cloneTables_clean t2 _ Hc) as [Hc' Hr']. rewrite <- H1 in Hc', Hr'.
  destruct (clean_other t t2 tx key s v Hn Hc') as [Hc2 Hr2].
  destruct (cloneTables_clean t2 _ Hc2) as [Hc3 Hr3]. by rewrite Hr3, Hr2.
Qed.

Context (load : Loader (W := W) S A) {law : LoaderLaw t load f}.

Lemma decision_run ctx id identity g (w w1 w2 w' : W) answer tx2 :
  clean t (st_tables (w_store w)) ->
  tx_data id w1 = Some (cloneTables (st_tables (w_store w)), []) ->
  map_err g (decide_at t id ctx aid snapshot origin identity load (decide_ identity)) w1
    = (Ok answer, w2) ->
  w_txs w2 !! id = Some tx2 -> st_tables (w_store w') = cloneTables (tx_tables tx2) ->
  st_outbox (w_store w') = st_outbox (w_store w) ++ tx_outbox tx2 ->
  clean t (st_tables (w_store w')) /\ others_kept w w' /\
  (store_rows t w' = store_rows t w /\ st_outbox (w_store w') = st_outbox (w_store w) \/
   exists a, answer = OutAccepted a /\ took_effect ctx (OccurredAt identity) w a w').
Proof.
  intros Hc Hd Hrun Hx2 Ht' Ho'. unfold tx_data in Hd.
  destruct (w_txs w1 !! id) as [tx1 |] eqn:Hx1; [| done]. cbn in Hd. injection Hd as Ht1 Ho1.
  destruct (cloneTables_clean t _ Hc) as [Hc1 Hr1]. rewrite <- Ht1 in Hc1, Hr1.
  destruct (scopedKey_cases ctx aid) as [(key & Hk & _) | (e & Hk & He)].
  2: { exfalso. revert Hrun. unfold decide_at, Decide, map_err. unfold mbind at 1, M_bind at 1.
       cbn [repo_Reader repo_at]. rewrite (loader_reads _ _ _ _ _ Hx1), (table_load_key _ _ _ e Hk).
       by rewrite loader_strict. }
  assert (f aid (table_load t ctx (tx_tables tx1) aid) =
          f aid (table_load t ctx (st_tables (w_store w)) aid)) as Hload.
  { by rewrite !(table_load_rows _ _ _ key Hk), Hr1. }
  revert Hrun. unfold map_err.
  destruct (f aid (table_load t ctx (st_tables (w_store w)) aid)) as [[agg v] | e | p] eqn:Hf.
  2, 3: unfold decide_at, Decide; unfold mbind at 1, M_bind at 1; cbn [repo_Reader repo_at];
    by rewrite (loader_reads _ _ _ _ _ Hx1), Hload.
  assert (load ctx (txReader t id) aid w1 = (Ok (agg, v), w1)) as Hl1
    by (by rewrite (loader_reads _ _ _ _ _ Hx1), Hload).
  rewrite (Decide_memory t id ctx key aid Hk snapshot origin identity load (decide_ identity)
             agg v w1 tx1 Hx1 Hl1).
  destruct (decide_ identity agg) as [agg' [accepted | rejection]] eqn:Hdec; cbv beta iota.
  2: { intros [= <- <-]. rewrite Hx1 in Hx2. injection Hx2 as <-.
       destruct (installed_same w w' tx1 Ht1 Ht') as [Ho Hs].
       destruct (Hs Hc) as [Hcw Hrw]. split; [done |]. split; [done |]. left.
       by rewrite Ho', Ho1, app_nil_r. }
  pose proof (saveAs_clean t tx1 key (snapshot agg') v Hc1) as Hcs.
  destruct (cloneTables_clean t _ Hcs) as [Hcw' Hrw'].
  pose proof (installed_save w w' tx1 key (snapshot agg') v Ht1) as Hothers.
  pose proof (saveAs_rows t tx1 key (snapshot agg') v) as Hs. cbv zeta in Hs.
  pose proof (saveAs_unique t tx1 key (snapshot agg') v) as Hu.
  destruct (saveAs t tx1 key (snapshot agg') v) as [[e |] tx'] eqn:Hsave;
    destruct Hs as (_ & _ & Hout & _ & Hs); cbn [snd] in *.
  - destruct Hs as (Hr & _ & _). destruct (DeclaredRejection e); [| done]. intros [= <- <-].
    cbn in Hx2. rewrite lookup_insert_eq in Hx2. injection Hx2 as <-.
    split; [by rewrite Ht' |]. split; [by apply Hothers |]. left.
    unfold store_rows. rewrite Ht', Hrw', Hr, Hr1, Ho', Hout, Ho1, app_nil_r. done.
  - destruct Hs as (Hv & Hr & _).
    destruct (Z.ltb_spec (len (MessageIDs identity)) (len (events accepted))) as [|Hlen]; [done |].
    intros [= <- <-]. cbn in Hx2. rewrite lookup_insert_eq in Hx2. injection Hx2 as <-.
    cbn [tx_tables tx_outbox add_entries] in *.
    split; [by rewrite Ht' |]. split; [by apply Hothers |]. right. eexists. split; [done |].
    exists ctx, identity, key, agg, v, agg', (events accepted). unfold store_rows.
    rewrite Ht', Hrw', Hr, Hr1, Ho', Hout, Ho1. cbn [app]. rewrite Hr1 in Hv.
    repeat (split; [done || (by destruct accepted) |]). intros Hun. rewrite <- Hr1, <- Hr.
    apply (Hu None); [by rewrite Hr1 | done].
Qed.

(** * A service's call *)

(** A command that decides one aggregate of a table either leaves every row and
    the outbox alone or takes effect, at an instant its clock showed; then it
    answers what it accepted, unless the instrumentation panics over the answer. *)
Lemma service_call {Res Op} (bind : loc -> Res) consumer (x : Executor (W := W) Res Op)
    {env : Surroundings x} (c : Command (W := W) Res Op Ans) g ctx (w w' : W) r :
  x_UoW _ _ x = NewUnitOfWork bind ->
  (forall id, x_Inbox _ _ x (bind id) = CommandInbox id consumer) ->
  (forall ctx id identity, c_Run _ _ _ c ctx (bind id) identity =
     map_err g (decide_at t id ctx aid snapshot origin identity load (decide_ identity))) ->
  w_locked w = false -> clean t (st_tables (w_store w)) -> Execute ctx x c w = (r, w') ->
  w_locked w' = false /\ clean t (st_tables (w_store w')) /\ others_kept w w' /\
  (store_rows t w' = store_rows t w /\ st_outbox (w_store w') = st_outbox (w_store w) \/
   exists a seen, (r = Ok (OutAccepted a) \/ exists p, r = Panic p) /\
     took_effect ctx (Now (x_Clock _ _ x) seen).1 w a w').
Proof.
  intros Hu Hi Hrun Hl Hc He.
  destruct (Execute_memory bind consumer x Hu Hi c) with (ctx := ctx) (w := w) (r := r) (w' := w')
    as [Hl' Heff]; [| done | done |].
  { intros ctx0 id identity. rewrite Hrun. apply Confined_map_err, Confined_Decide, loader_confined. }
  split; [done |].
  destruct Heff as [Hk | (answer & ctx' & seen & identity & Hans & Hctx & _ & Hat &
                          id & w1 & w2 & tx2 & Hd & Hr & Hx & Ht & Ho)].
  - destruct (kept_table t w w' Hk Hc) as [Hc' Hr']. split; [done |].
    split; [intros S2 t2 ? _; by apply kept_table |]. left. split; [done | apply Hk].
  - rewrite Hrun in Hr.
    destruct (decision_run ctx' id identity g w w1 w2 w' answer tx2 Hc Hd Hr Hx Ht Ho)
      as (Hc' & Ho' & [Hs | (a & -> & Heff)]); repeat (split; [done |]); [by left |].
    right. exists a, seen. split; [done |]. rewrite <- Hat.
    destruct Heff as (ctx2 & i2 & key & agg & v & agg' & evs & H1 & H2 & H3 & H4 & H5).
    exists ctx2, i2, key, agg, v, agg', evs.
    rewrite (scopedKey_execution ctx ctx') in H3 by done.
    rewrite (table_load_rows ctx' _ _ key) in H4 by (by rewrite (scopedKey_execution ctx ctx')).
    rewrite <- (table_load_rows ctx _ _ key) in H4 by done.
    repeat (split; [congruence || done |]). done.
Qed.
End Decision.

(** * Following one aggregate *)

Section Following.
Context {S : Type} (t : Table Any S) {laws : TableLaws t}.

Lemma table_load_stored ctx (w : W) aid key s v :
  scopedKey ctx aid = Ok key ->
  table_load t ctx (st_tables (w_store w)) aid = Ok (s, v) <-> stored t w key = Some (s, v).
Proof.
  intros Hk. rewrite (table_load_rows t ctx _ aid key Hk). unfold stored, row_state, store_rows.
  destruct (rows_of t _ !! key) as [rec |]; cbn; [| done].
  destruct (t_unbox t (row_snapshot rec)); cbn; naive_solver.
Qed.

Lemma table_load_absent ctx (w : W) aid key e :
  scopedKey ctx aid = Ok key ->
  table_load t ctx (st_tables (w_store w)) aid = Err e -> stored t w key = None.
Proof.
  intros Hk. rewrite (table_load_rows t ctx _ aid key Hk). unfold stored, store_rows.
  destruct (rows_of t _ !! key) as [rec |]; cbn; [| done]. by destruct (t_unbox t _).
Qed.

Lemma or_new_stored {A} ctx (w : W) aid key (fresh : string -> A) from agg v :
  scopedKey ctx aid = Ok key ->
  or_new fresh from aid (table_load t ctx (st_tables (w_store w)) aid) = Ok (agg, v) ->
  (exists s, stored t w key = Some (s, v) /\ agg = from s) \/
  (stored t w key = None /\ agg = fresh aid /\ v = 0).
Proof.
  intros Hk. destruct (table_load _ _ _ _) as [[s n] | e | p] eqn:Hl; cbn; [| | done].
  - intros [= <- <-]. left. exists s. split; [| done]. by apply (table_load_stored ctx _ aid).
  - apply (table_load_absent _ _ _ key) in Hl; [| done].
    destruct (errors_is e ErrNotFound); [| done]. intros [= <- <-]. by right.
Qed.
Lemma existing_stored {A} ctx (w : W) aid key (from : S -> A) agg v :
  scopedKey ctx aid = Ok key ->
  existing from aid (table_load t ctx (st_tables (w_store w)) aid) = Ok (agg, v) ->
  exists s, stored t w key = Some (s, v) /\ agg = from s.
Proof.
  intros Hk. destruct (table_load _ _ _ _) as [[s n] | e | p] eqn:Hl; cbn; [| done | done].
  intros [= <- <-]. exists s. split; [| done]. by apply (table_load_stored ctx _ aid).
Qed.
Lemma absent_stored {A} ctx (w : W) aid key (fresh : string -> A) agg v :
  scopedKey ctx aid = Ok key ->
  absent fresh aid (table_load t ctx (st_tables (w_store w)) aid) = Ok (agg, v) ->
  stored t w key = None /\ agg = fresh aid /\ v = 0.
Proof.
  intros Hk. destruct (table_load _ _ _ _) as [[s n] | e | p] eqn:Hl; cbn; [done | | done].
  apply (table_load_absent _ _ _ key) in Hl; [| done].
  destruct (errors_is e ErrNotFound); [| done]. by intros [= <- <-].
Qed.

Lemma stored_rows (w w' : W) key : store_rows t w' = store_rows t w -> stored t w' key = stored t w key.
Proof. unfold stored. by intros ->. Qed.

Lemma stored_saved (w w' : W) key s v key' :
  store_rows t w' = <[key := mkRow (t_box t s) v]> (store_rows t w) ->
  stored t w' key' = if decide (key' = key) then Some (s, v) else stored t w key'.
Proof.
  intros Hr. unfold stored. rewrite Hr. destruct (decide (key' = key)) as [-> | Hne].
  - rewrite lookup_insert_eq. unfold row_state. cbn. by rewrite unbox_box.
  - by rewrite lookup_insert_ne.
Qed.
Lemma stored_unique_key (w : W) key s v keyOf want :
  stored t w key = Some (s, v) -> keyOf s = Some want -> unique_key t (store_rows t w) keyOf key want.
Proof.
  unfold stored, row_state, unique_key. destruct (store_rows t w !! key) as [rec |] eqn:Hr; [| done].
  cbn. destruct (t_unbox t (row_snapshot rec)) as [s' |] eqn:Hs; [| done].
  intros [= -> _] Hk. by exists rec, s.
Qed.
End Following.

(** The entries of one aggregate, in the order they were authored. *)
Definition about (ty aid : string) (es : list (OutboxEntry Event)) : list (OutboxEntry Event) :=
  filter (fun e => ent_AggregateType e = ty /\ ent_AggregateID e = aid) es.

Lemma about_app ty aid es1 es2 : about ty aid (es1 ++ es2) = about ty aid es1 ++ about ty aid es2.
Proof. apply filter_app. Qed.

Lemma about_entries ty aid ctx identity origin v ids evs :
  about ty aid (entries_for ctx identity origin v ids evs) =
  if decide (AggregateType origin = ty /\ AggregateID origin = aid)
  then entries_for ctx identity origin v ids evs else [].
Proof.
  unfold entries_for. revert evs. induction ids as [| i ids IH]; intros [| ev evs]; cbn [zip_with];
    try (by destruct (decide _)).
  unfold about in *. rewrite filter_cons. cbn. rewrite IH. by destruct (decide _).
Qed.

(** A decision of one event authors one entry. *)
Lemma entries_one ctx identity origin v ids (ev : Event) :
  1 <= len ids ->
  exists i, entries_for ctx identity origin v ids [ev] = [entry_for ctx identity origin v i ev].
Proof. destruct ids as [| i ids]; [done |]. intros _. exists i. by destruct ids. Qed.

(** ** Histories: an invariant per kind of aggregate *)

(** What can happen to the store apart from calls of a service: nothing that
    shows in rows, outbox and lock. *)
Definition world_data (w : W) := (st_tables (w_store w), st_outbox (w_store w), w_locked w).
Record fresh_store (w : W) : Prop := {
  fresh_unlocked : w_locked w = false;
  fresh_tables : st_tables (w_store w) = ∅;
  fresh_outbox : st_outbox (w_store w) = []
}.

Section Histories.
Context {S : Type} (t : Table Any S) {laws : TableLaws t} (ty : string).
(** Each aggregate belongs to one tenant: the outbox does not tell tenants
    apart.  [history] relates the entries of an aggregate to its row. *)
Context (owner : string -> TenantID).
Context (history : string -> list (OutboxEntry Event) -> option (S * Version) -> Prop).

Definition belongs (ctx : Ctx) (aid : string) : Prop :=
  forall key, scopedKey ctx aid = Ok key -> key = (owner aid, aid).

Record histories (w : W) : Prop := {
  his_unlocked : w_locked w = false;
  his_clean : clean t (st_tables (w_store w));
  his_history : forall aid,
    history aid (about ty aid (st_outbox (w_store w))) (stored t w (owner aid, aid))
}.

Lemma histories_fresh (w : W) : (forall aid, history aid [] None) -> fresh_store w -> histories w.
Proof.
  intros He [Hl Ht Ho]. split; [done | unfold clean; by rewrite Ht |]. intros aid.
  unfold stored, store_rows, rows_of. rewrite Ht, Ho. apply He.
Qed.

Lemma histories_same (w w' : W) :
  histories w -> w_locked w' = false -> clean t (st_tables (w_store w')) ->
  store_rows t w' = store_rows t w -> st_outbox (w_store w') = st_outbox (w_store w) ->
  histories w'.
Proof.
  intros [_ _ Hh] Hl Hc Hr Ho. split; [done | done |]. intros aid. rewrite Ho.
  by rewrite (stored_rows t w w').
Qed.

Lemma histories_quiet (w w' : W) : histories w -> world_data w' = world_data w -> histories w'.
Proof.
  intros Hh [[Ht Ho]%pair_eq Hl]%pair_eq. pose proof Hh as [Hl0 Hc _].
  apply (histories_same w); unfold store_rows; by rewrite ?Ht, ?Hl.
Qed.

(** A decision that extends the history of its aggregate extends everyone's. *)
Lemma histories_decided {A Ans} f (snapshot : A -> S) origin
    (decide_ : Identity -> A -> A * Decision_of Event Ans) ctx aid (w w' : W) a at_ :
  histories w -> took_effect t f snapshot origin aid decide_ ctx at_ w a w' ->
  w_locked w' = false -> clean t (st_tables (w_store w')) -> belongs ctx aid ->
  AggregateType origin = ty -> AggregateID origin = aid ->
  (forall key identity agg v agg' evs es ctx' ids, scopedKey ctx aid = Ok key ->
     OccurredAt identity = at_ ->
     f aid (table_load t ctx (st_tables (w_store w)) aid) = Ok (agg, v) ->
     decide_ identity agg = (agg', inl (Accept a evs)) -> len evs <= len ids ->
     history aid es (stored t w key) ->
     history aid (es ++ entries_for ctx' identity origin (wrapu64 (v + 1)) ids evs)
       (Some (snapshot agg', wrapu64 (v + 1)))) ->
  histories w'.
Proof.
  intros [Hl Hc Hh] Heff Hl' Hc' Hb Hty Haid Hext.
  destruct Heff as (ctx' & identity & key & agg & v & agg' & evs & _ & Hat & Hk & Hf & Hd & _ & Hr &
                    Ho & Hlen & _).
  pose proof (Hb key Hk) as ->. split; [done | done |]. intros aid'.
  rewrite Ho, about_app, about_entries, (stored_saved t w w' _ _ _ _ Hr), Hty, Haid.
  destruct (decide (aid' = aid)) as [-> | Hne].
  - rewrite !decide_True by done. by eapply Hext.
  - rewrite !decide_False by naive_solver. rewrite app_nil_r. apply Hh.
Qed.

(** A decision about an aggregate of another table and kind. *)
Lemma histories_other {S2 A Ans} (t2 : Table Any S2) f (snapshot : A -> S2) origin
    (decide_ : Identity -> A -> A * Decision_of Event Ans) ctx aid (w w' : W) a at_ :
  histories w -> took_effect t2 f snapshot origin aid decide_ ctx at_ w a w' ->
  w_locked w' = false -> others_kept t2 w w' -> t_Name t2 <> t_Name t ->
  AggregateType origin <> ty -> histories w'.
Proof.
  intros [Hl Hc Hh] Heff Hl' Hok Hn Hty. destruct (Hok S t laws Hn Hc) as [Hc' Hr'].
  destruct Heff as (ctx' & identity & key & agg & v & agg' & evs & _ & _ & _ & _ & _ & _ & _ & Ho & _).
  split; [done | done |]. intros aid'. rewrite Ho, about_app, about_entries.
  rewrite decide_False by naive_solver. rewrite app_nil_r, (stored_rows t w w') by done. apply Hh.
Qed.
End Histories.
End Runs.

(** Entry [n] of an aggregate whose every accepted command authors one event is
    authored at version [n]. *)
Definition versions (n : nat) : list Version :=
  map (fun i => wrapu64 (Z.of_nat i)) (List.seq 1%nat n).

Lemma wrapu64_succ n : wrapu64 (wrapu64 n + 1) = wrapu64 (n + 1).
Proof. unfold wrapu64. by rewrite Zplus_mod_idemp_l. Qed.

Lemma versions_snoc n : versions (n + 1) = versions n ++ [wrapu64 (Z.of_nat n + 1)].
Proof. unfold versions. rewrite seq_app, map_app. cbn. repeat f_equal. lia. Qed.

(** Name the entry a decision of one event authors, [H] bounding the events. *)
Ltac one_entry H :=
  let i := fresh "i" in
  match goal with |- context [entries_for ?ctx ?identity ?origin ?v ?ids [?ev]] =>
    destruct (entries_one ctx identity origin v ids ev H) as [i ->] end.
