(* ===== verification/Dispatch.v ===== *)
(** The external command cycle of the application block: [Dispatch]
    ([application/dispatch.go]), [Resolve], [Abandon] and [SweepStale], over the
    interfaces of the ports. *)

From S2P Require Import Prelude Regex DomainKernel Errors Ports Codec OutboundKey Interfaces Memory Ledger.

Definition operationDispatch : string := "external.dispatch".
Definition operationResolve : string := "external.resolve".
Definition operationAbandon : string := "external.abandon".
Definition ErrIncompleteDispatch : error := Sentinel "application.ErrIncompleteDispatch".
Definition ErrIncompleteResolution : error := Sentinel "application.ErrIncompleteResolution".
Definition ErrIncompleteAbandon : error := Sentinel "application.ErrIncompleteAbandon".
Definition ErrAbandonOutsideTenant : error := Sentinel "application.ErrAbandonOutsideTenant".

Record ExternalStep := mkExternalStep {
  es_Step : Step;
  es_Attempt : Attempt;
  es_Class : ExternalClass;
  es_Observation : Observation
}.

Record settlement := mkSettlement {
  se_attempt : Attempt;
  se_class : ExternalClass;
  se_observation : Observation;
  se_owned : bool;
  se_presumed : bool
}.
Definition settlement_outcome (s : settlement) (key : OutboundKey) (at_ : Instant) : AttemptOutcome :=
  mkAttemptOutcome key (att_N (se_attempt s)) (se_class s) (se_observation s) at_ (se_presumed s).

Definition operationResult (err : option error) : Result :=
  match err with
  | Some e => mkResult OutcomeFailed (Some e)
  | None => mkResult OutcomeAccepted None
  end.

(** A Go call that returns a value beside its error: here an error is one of the
    values, so that only a panic unwinds. *)
Definition failing {W} (e : error) : M W error (Disposition * option error) :=
  mret (Classify e, Some e).

Section Dispatch.
Context {W : Type} {Slots_W : HasSlots W} {R : Type}.

(** [ExternalDispatch], its interface fields present; [validate] refuses a nil
    one, see [DispatchFields]. *)
Record ExternalDispatch := mkExternalDispatch {
  d_UoW : UnitOfWork W R;
  d_Store : AttemptLedger W;
  d_Ledger : R -> AttemptLedger W;
  d_Inbox : R -> Inbox W;
  d_Receipt : Receipt;
  d_Command : ExternalCommand W;
  d_Key : OutboundKey;
  d_Payload : bytes;
  d_Profile : ExternalProfile;
  d_QueryAvailable : bool;
  d_StaleAfter : Z;
  d_Clock : Clock W;
  d_SettleContext : Ctx -> Ctx;
  d_Instrumentation : Instrumentation W;
  d_Apply : Ctx -> R -> ExternalStep -> M W error unit
}.

Definition settleContext (d : ExternalDispatch) (ctx : Ctx) : Ctx :=
  d_SettleContext d (WithoutCancel ctx).

(** The rest of [validate], once no field is nil. *)
Definition dispatch_validate (d : ExternalDispatch) : result error unit :=
  if String.eqb (d_Key d) "" then Err (Wrap "no outbound key" ErrIncompleteDispatch)
  else if d_StaleAfter d <=? 0 then Err (Wrap "stale cutoff" ErrIncompleteDispatch)
  else ValidateExternalProfile (d_Profile d).

Definition dispatch_resume (d : ExternalDispatch) (a : Attempt)
    : M W error settlement :=
  now ← run (Now (d_Clock d));
  if (now -! att_StartedAt a) <? d_StaleAfter d
  then throw (NewFailure TransientDependency true (Some (Wrap "dispatch attempt" ErrAttemptInFlight)))
  else mret (mkSettlement a ClassUnknownSent zeroObservation true true).

Definition mark_result (ctx : Ctx) (r : FinishResult) : M W error unit :=
  match r with
  | FinishConflict => mark (MarkExternalConflict ctx)
  | FinishSaturated => mark (MarkExternalSaturation ctx)
  | _ => mret ()
  end.

(** A class the same message submits again after: it is recorded at once, in
    the store's own transaction. *)
Definition dispatch_retryable (d : ExternalDispatch) (ctx : Ctx) (s : settlement)
    (cause : option error) : M W error settlement :=
  _ ← mark (MarkExternalClass ctx (se_class s));
  now ← run (Now (d_Clock d));
  finished ← map_err (Wrap "dispatch finish")
               (ledger_Finish (d_Store d) (settleContext d ctx) (settlement_outcome s (d_Key d) now));
  _ ← mark_result ctx (fin_Result finished);
  if negb (bool_decide (fin_Result finished = FinishRecorded))
     && negb (Retryable (fin_Recorded finished))
  then mret (mkSettlement (se_attempt s) (fin_Recorded finished) (se_observation s)
               (se_owned s) (se_presumed s))
  else throw (NewFailure TransientDependency true cause).

Definition dispatch_submit (d : ExternalDispatch) (ctx : Ctx) (a : Attempt)
    : M W error settlement :=
  answer ← run (Submit (d_Command d) ctx (d_Key d) (d_Payload d));
  let '((class, observation), cause) := answer : (ExternalClass * Observation) * option error in
  let class := if bool_decide (class = ClassNone) then ClassUnknownAmbiguous else class in
  let s := mkSettlement a class observation true false in
  if negb (Retryable class) then mret s else dispatch_retryable d ctx s cause.

Definition markFinished (ctx : Ctx) (f : Finished) : M W error unit :=
  _ ← (if negb (bool_decide (fin_Recorded f = ClassNone))
       then mark (MarkExternalClass ctx (fin_Recorded f)) else mret ());
  mark_result ctx (fin_Result f).

Definition dispatch_close (d : ExternalDispatch) (ctx : Ctx) (res : R) (s : settlement)
    : M W error Finished :=
  if negb (se_owned s) then mret zeroFinished
  else
    now ← run (Now (d_Clock d));
    ledger_Finish (d_Ledger d res) ctx (settlement_outcome s (d_Key d) now).

Definition dispatch_finish (d : ExternalDispatch) (ctx : Ctx) (res : R) (s : settlement)
    (pending : Pending W) : M W error Finished :=
  now ← run (Now (d_Clock d));
  finished ← ledger_Finish (d_Ledger d res) ctx (settlement_outcome s (d_Key d) now);
  _ ← (if bool_decide (fin_Result finished = FinishRecorded) then
         let step := NextStep (mkStepInput (se_class s) (obs_Finding (se_observation s))
                                 (d_Profile d) (d_QueryAvailable d) 0) in
         d_Apply d ctx res (mkExternalStep step (se_attempt s) (se_class s) (se_observation s))
       else mret ());
  _ ← Complete pending ctx (mkCompletion StatusProcessed now "" []);
  mret finished.

(** The callback of the settling transaction. *)
Definition settle_callback (d : ExternalDispatch) (s : settlement) (ctx : Ctx) (res : R)
    : M W error (Disposition * Finished) :=
  reception ← inbox_Register (d_Inbox d res) ctx (d_Receipt d);
  let closing (as_ : Disposition) : M W error (Disposition * Finished) :=
    finished ← dispatch_close d ctx res s; mret (as_, finished) in
  Reception_Match reception
    (fun pending => finished ← dispatch_finish d ctx res s pending; mret (R1D1, finished))
    (closing R2) (closing R3) (closing R4).

Definition dispatch_settle (d : ExternalDispatch) (ctx : Ctx) (s : settlement)
    : M W error (Disposition * option error) :=
  let ctx := settleContext d ctx in
  settled ← attempt (Within (d_UoW d) ctx (settle_callback d s));
  match settled with
  | Err e => failing (Wrap "application: dispatch" e)
  | Panic p => panic p
  | Ok (disposition, finished) => _ ← markFinished ctx finished; mret (disposition, None)
  end.

Definition dispatch_start (d : ExternalDispatch) (ctx : Ctx) (start : AttemptStart)
    : M W error settlement :=
  AttemptStart_Match start (dispatch_submit d ctx) (dispatch_resume d)
    (fun a class => mret (mkSettlement a class zeroObservation false false)).

Definition dispatch_run (d : ExternalDispatch) (ctx : Ctx)
    : M W error (Disposition * option error) :=
  now ← run (Now (d_Clock d));
  begun ← attempt (ledger_Begin (d_Store d) ctx (d_Key d) (rcp_MessageID (d_Receipt d)) now);
  match begun with
  | Err e => failing (Wrap "application: dispatch: begin" e)
  | Panic p => panic p
  | Ok start =>
      started ← attempt (dispatch_start d ctx start);
      match started with
      | Err e => failing e
      | Panic p => panic p
      | Ok s => _ ← mark (MarkExternalClass ctx (se_class s)); dispatch_settle d ctx s
      end
  end.

Definition Dispatch (ctx : Ctx) (d : ExternalDispatch) : M W error (Disposition * option error) :=
  match dispatch_validate d with
  | Err e => failing e
  | Panic p => panic p
  | Ok _ =>
      opened ← unfailing (BeginOperation (d_Instrumentation d) ctx operationDispatch);
      let '(ctx, end_) := opened : Ctx * (Result -> M W Empty_set unit) in
      answer ← dispatch_run d ctx;
      _ ← unfailing (end_ (operationResult answer.2));
      mret answer
  end.

(** [validate]'s nil checks, over the fields as Go declares them. *)
Record DispatchFields := mkDispatchFields {
  df_UoW : option (UnitOfWork W R);
  df_Store : option (AttemptLedger W);
  df_Ledger : option (R -> AttemptLedger W);
  df_Inbox : option (R -> Inbox W);
  df_Command : option (ExternalCommand W);
  df_Clock : option (Clock W);
  df_SettleContext : option (Ctx -> Ctx);
  df_Instrumentation : option (Instrumentation W);
  df_Apply : option (Ctx -> R -> ExternalStep -> M W error unit)
}.
Definition bind_dispatch (f : DispatchFields) (receipt : Receipt) (key : OutboundKey)
    (payload : bytes) (profile : ExternalProfile) (query : bool) (staleAfter : Z)
    : result error ExternalDispatch :=
  match df_UoW f, df_Store f, df_Ledger f, df_Inbox f with
  | Some uow, Some store, Some ledger, Some inbox =>
      match df_Command f, df_Clock f, df_Apply f with
      | Some command, Some clock, Some apply_ =>
          match df_SettleContext f, df_Instrumentation f with
          | Some settle, Some inst =>
              Ok (mkExternalDispatch uow store ledger inbox receipt command key payload profile
                    query staleAfter clock settle inst apply_)
          | _, _ => Err (Wrap "a settle context and an instrumentation are required" ErrIncompleteDispatch)
          end
      | _, _, _ => Err (Wrap "a command, a clock and an apply are required" ErrIncompleteDispatch)
      end
  | _, _, _, _ =>
      Err (Wrap "a transaction, a store and both accessors are required" ErrIncompleteDispatch)
  end.

(** * Resolve ([resolve.go]) *)
Record ExternalResolution := mkExternalResolution {
  r_UoW : UnitOfWork W R;
  r_Ledger : R -> AttemptLedger W;
  r_Observation : Observation;
  r_Profile : ExternalProfile;
  r_QueryAvailable : bool;
  r_Clock : Clock W;
  r_Instrumentation : Instrumentation W;
  r_Apply : Ctx -> R -> ExternalStep -> M W error unit
}.

Definition resolve_callback (r : ExternalResolution) (ctx : Ctx) (res : R) : M W error Observed :=
  now ← run (Now (r_Clock r));
  observed ← ledger_Observe (r_Ledger r res) ctx (r_Observation r) now;
  if negb (bool_decide (obd_Result observed = ObserveRecorded)) then mret observed
  else
    let step := NextStep (mkStepInput (obd_Class observed) (obs_Finding (r_Observation r))
                            (r_Profile r) (r_QueryAvailable r) (obd_QueriesDone observed)) in
    _ ← r_Apply r ctx res
          (mkExternalStep step
             (mkAttempt "" (obs_Key (r_Observation r)) (obd_N observed) "" 0)
             (obd_Class observed) (r_Observation r));
    mret observed.

Definition resolve_run (r : ExternalResolution) (ctx : Ctx) : M W error Observed :=
  observed ← map_err (Wrap "application: resolve") (Within (r_UoW r) ctx (resolve_callback r));
  _ ← (if negb (bool_decide (obd_Class observed = ClassNone))
       then mark (MarkExternalClass ctx (obd_Class observed)) else mret ());
  _ ← match obd_Result observed with
      | ObserveConflict => mark (MarkExternalConflict ctx)
      | ObserveSaturated => mark (MarkExternalSaturation ctx)
      | _ => mret ()
      end;
  mret observed.

(** A body that runs under an instrumentation and hands its error on. *)
Definition instrumented {A} (inst : Instrumentation W) (ctx : Ctx) (operation : string)
    (body : Ctx -> M W error A) : M W error A :=
  opened ← unfailing (BeginOperation inst ctx operation);
  let '(ctx, end_) := opened : Ctx * (Result -> M W Empty_set unit) in
  answer ← attempt (body ctx);
  match answer with
  | Ok a => _ ← unfailing (end_ (operationResult None)); mret a
  | Err e => _ ← unfailing (end_ (operationResult (Some e))); throw e
  | Panic p => panic p
  end.

Definition Resolve (ctx : Ctx) (r : ExternalResolution) : M W error Observed :=
  _ ← lift (ValidateExternalProfile (r_Profile r));
  instrumented (r_Instrumentation r) ctx operationResolve (resolve_run r).

(** * Abandon ([abandon.go]) *)
Record ExternalAbandon := mkExternalAbandon {
  a_UoW : UnitOfWork W R;
  a_Ledger : R -> AttemptLedger W;
  a_Attempt : Attempt;
  a_Profile : ExternalProfile;
  a_QueryAvailable : bool;
  a_Clock : Clock W;
  a_Instrumentation : Instrumentation W;
  a_Apply : Ctx -> R -> ExternalStep -> M W error unit
}.

Definition abandon_validate (a : ExternalAbandon) (ctx : Ctx) : result error unit :=
  if String.eqb (att_Key (a_Attempt a)) "" || (att_N (a_Attempt a) <? 1)
  then Err (Wrap "attempt of no key" ErrIncompleteAbandon)
  else
    _ ← ValidateExternalProfile (a_Profile a);
    execution ← RequireExecutionContext ctx;
    match Tenant execution with
    | Some t => if String.eqb t (att_Tenant (a_Attempt a)) then Ok ()
                else Err (Wrap "attempt" ErrAbandonOutsideTenant)
    | None => Err (Wrap "attempt" ErrAbandonOutsideTenant)
    end.

Definition abandon_callback (a : ExternalAbandon) (ctx : Ctx) (res : R) : M W error Finished :=
  now ← run (Now (a_Clock a));
  finished ← ledger_Finish (a_Ledger a res) ctx
               (mkAttemptOutcome (att_Key (a_Attempt a)) (att_N (a_Attempt a)) ClassUnknownSent
                  zeroObservation now true);
  if negb (bool_decide (fin_Result finished = FinishRecorded)) then mret finished
  else
    let step := NextStep (mkStepInput ClassUnknownSent FindingNone (a_Profile a)
                            (a_QueryAvailable a) 0) in
    _ ← a_Apply a ctx res (mkExternalStep step (a_Attempt a) ClassUnknownSent zeroObservation);
    mret finished.

Definition abandon_run (a : ExternalAbandon) (ctx : Ctx) : M W error Finished :=
  finished ← map_err (Wrap "application: abandon attempt") (Within (a_UoW a) ctx (abandon_callback a));
  _ ← (if negb (bool_decide (fin_Recorded finished = ClassNone))
       then mark (MarkExternalClass ctx (fin_Recorded finished)) else mret ());
  _ ← (if bool_decide (fin_Result finished = FinishConflict)
       then mark (MarkExternalConflict ctx) else mret ());
  mret finished.

Definition Abandon (ctx : Ctx) (a : ExternalAbandon) : M W error Finished :=
  _ ← lift (abandon_validate a ctx);
  instrumented (a_Instrumentation a) ctx operationAbandon (abandon_run a).

(** * SweepStale ([sweep.go]) *)
Record SweepPage := mkSweepPage {
  pg_Seen : Z;
  pg_Swept : Z;
  pg_Next : AttemptCursor
}.

(** The loop over one page: [cancelled] is [ctx.Err()] as the loop reads it
    before each attempt, and the errors are joined at the end. *)
Fixpoint sweep_loop (cancelled : W -> option error) (closeAttempt : Attempt -> M W error unit)
    (attempts : list Attempt) (page : SweepPage) (failures : list error)
    : M W error (SweepPage * list error) :=
  match attempts with
  | [] => mret (page, failures)
  | attempt_ :: rest =>
      stop ← gets cancelled;
      match stop with
      | Some e => mret (page, failures ++ [e])
      | None =>
          let next := Cursor attempt_ in
          closed ← attempt (closeAttempt attempt_);
          match closed with
          | Ok _ =>
              sweep_loop cancelled closeAttempt rest
                (mkSweepPage (pg_Seen page + 1) (pg_Swept page + 1) next) failures
          | Err e =>
              sweep_loop cancelled closeAttempt rest
                (mkSweepPage (pg_Seen page + 1) (pg_Swept page) next) (failures ++ [e])
          | Panic p => panic p
          end
      end
  end.

Definition SweepStale (ctx : Ctx) (cancelled : W -> option error) (store : AttemptLedger W)
    (cutoff : Instant) (after : AttemptCursor) (batch : Z)
    (closeAttempt : Attempt -> M W error unit) : M W error (SweepPage * option error) :=
  listed ← attempt (ledger_Stale store ctx cutoff after batch);
  match listed with
  | Err e => mret (mkSweepPage 0 0 zeroCursor, Some (Wrap "application: list stale attempts" e))
  | Panic p => panic p
  | Ok attempts =>
      swept ← sweep_loop cancelled closeAttempt attempts (mkSweepPage 0 0 after) [];
      mret (swept.1, match swept.2 with [] => None | failures => Some (Join "" failures) end)
  end.
End Dispatch.
Arguments ExternalDispatch : clear implicits.
Arguments ExternalResolution : clear implicits.
Arguments ExternalAbandon : clear implicits.

(** * What the cycle promises *)
Section DispatchLaws.
Context {W : Type} {Slots_W : HasSlots W} {R : Type}.

(** The disposition of an answer follows its error. *)
Definition answer_ok (a : Disposition * option error) : Prop :=
  match a.2 with
  | Some e => a.1 = Classify e
  | None => a.1 = R1D1 \/ a.1 = R2 \/ a.1 = R3 \/ a.1 = R4
  end.

Lemma bind_Ok_inv {A B} (m : M W error A) (f : A -> M W error B) w b w' :
  (m ≫= f) w = (Ok b, w') -> exists a w1, m w = (Ok a, w1) /\ f a w1 = (Ok b, w').
Proof. apply bind_inv. Qed.

(** A unit of work answers with what its callback answered, or not at all. *)
Class FaithfulUnit (uow : UnitOfWork W R) := {
  unit_value : forall A ctx (fn : Ctx -> R -> M W error A) w a w',
    Within uow ctx fn w = (Ok a, w') -> exists ctx1 res w1 w2, fn ctx1 res w1 = (Ok a, w2)
}.

Lemma settle_callback_disposition d s ctx res (w w' : W) disposition f :
  settle_callback (R := R) d s ctx res w = (Ok (disposition, f), w') ->
  disposition = R1D1 \/ disposition = R2 \/ disposition = R3 \/ disposition = R4.
Proof.
  unfold settle_callback. intros (reception & w1 & _ & H)%bind_inv. cbv zeta in H.
  destruct reception; cbn in H; [done | | | |];
    repeat (apply bind_inv in H as (? & ? & ? & H));
    repeat match goal with H : (_ ≫= _) _ = (Ok _, _) |- _ => apply bind_inv in H as (? & ? & ? & H) end;
    unfold mret, M_ret, throw in *; repeat case_match; simplify_eq; auto.
Qed.

Lemma dispatch_run_answer d `{FaithfulUnit (d_UoW d)} ctx (w w' : W) a :
  dispatch_run (R := R) d ctx w = (Ok a, w') -> answer_ok a.
Proof.
  unfold dispatch_run. intros (now & w1 & _ & Hb)%bind_inv.
  apply bind_inv in Hb as (begun & w2 & _ & Hb).
  destruct begun as [start | e | p]; [| by injection Hb as <- <- | done].
  apply bind_inv in Hb as (started & w3 & _ & Hb).
  destruct started as [s | e | p]; [| by injection Hb as <- <- | done].
  apply bind_inv in Hb as ([] & w4 & _ & Hb).
  unfold dispatch_settle in Hb. apply bind_inv in Hb as (settled & w5 & Hs & Hb).
  destruct settled as [[disposition f] | e | p]; [| by injection Hb as <- <- | done].
  apply bind_inv in Hb as ([] & w6 & _ & Hb). injection Hb as <- <-. cbn.
  unfold attempt in Hs. destruct (Within _ _ _ w4) as [[x | |] w7] eqn:Ew; [| done | done].
  injection Hs as -> ->. apply unit_value in Ew as (ctx1 & res & w8 & w9 & Hcb).
  by eapply settle_callback_disposition.
Qed.

(** ** SweepStale *)
Lemma sweep_loop_page cancelled close attempts page failures (w w' : W) page' failures' :
  sweep_loop cancelled close attempts page failures w = (Ok (page', failures'), w') ->
  exists seen, seen `prefix_of` attempts /\ pg_Seen page' = pg_Seen page + len seen /\
    pg_Next page' = default (pg_Next page) (Cursor <$> last seen) /\
    pg_Swept page <= pg_Swept page' <= pg_Swept page + len seen /\
    ((forall w, cancelled w = None) -> seen = attempts /\
      len failures' = len failures + (pg_Seen page' - pg_Seen page) - (pg_Swept page' - pg_Swept page)).
Proof.
  revert page failures w. induction attempts as [| a rest IH]; intros page failures w; cbn.
  - intros [= <- <- <-]. exists []. change (len (@nil Attempt)) with 0. split; [done |]. split; [lia |]. split; [done |].
    split; [lia |]. intros _. split; [done | lia].
  - intros (stop & w1 & Hst & Hb)%bind_inv. injection Hst as <- <-.
    destruct (cancelled w) as [e |] eqn:Ec.
    { injection Hb as <- <- <-. exists []. change (len (@nil Attempt)) with 0. split; [apply prefix_nil |]. split; [lia |].
      split; [done |]. split; [lia |]. intros Hn. by rewrite Hn in Ec. }
    apply bind_inv in Hb as (closed & w2 & _ & Hb).
    destruct closed as [[] | e | p]; [| | done];
      apply IH in Hb as (seen & Hpre & Hseen & Hnext & Hswept & Hall); exists (a :: seen);
      cbn [pg_Seen pg_Swept pg_Next] in *; unfold len in *; cbn [length] in *;
      (split; [exact (prefix_cons a _ _ Hpre) |]); (split; [lia |]);
      (split; [rewrite Hnext, last_cons; by destruct (last seen) |]); (split; [lia |]);
      intros Hn; destruct (Hall Hn) as [-> Hf]; (split; [done |]);
      rewrite ?length_app in Hf; cbn in Hf; lia.
Qed.
End DispatchLaws.

(** The external command cycle over the in-memory ledger: what [Begin] decides
    is committed before the partner is called, and a message whose attempt
    already ended never reaches the partner again. *)

Section DispatchMemory.
Context {Any Event X : Type}.
Notation W := (World Any Event X).

#[export] Instance memory_faithful {R} (bind : loc -> R) :
  FaithfulUnit (NewUnitOfWork (Any := Any) (Event := Event) (X := X) bind).
Proof.
  split. intros A ctx fn w a w' H. cbn in H.
  apply memory_Within_Ok in H as (id & w1 & w2 & _ & Hf & _). eauto.
Qed.

(** The world [AttemptStore]'s [Begin] leaves when its commit stands. *)
Lemma AttemptStore_Begin ctx key message now scope (w : W) :
  ctx_Err ctx = None -> w_locked w = false -> st_failNextCommit (w_store w) = None ->
  key <> ""%string -> message <> ""%string -> ledger_scope ctx key = Ok scope ->
  let rows := default [] (st_attempts (w_store w) !! scope) in
  exists w', ledger_Begin NewAttemptStore ctx key message now w =
    (Ok (begin_rows scope rows message now).1, w') /\
    w_locked w' = false /\ st_failNextCommit (w_store w') = None /\
    default [] (st_attempts (w_store w') !! scope) = (begin_rows scope rows message now).2.
Proof.
  intros Hctx Hl Hfail Hk Hm Hs rows. cbn. unfold memory_Within. rewrite Hctx, Hl.
  unfold tx_open at 1. cbn [ledger_Begin txAttemptLedger]. unfold tx_Begin.
  destruct (String.eqb_spec key ""); [done |]. destruct (String.eqb_spec message ""); [done |].
  unfold mbind at 1, M_bind at 1, lift. rewrite Hs.
  unfold mbind at 1, M_bind at 1, get_tx. cbn [w_txs]. rewrite lookup_insert_eq.
  unfold rows_at. cbn [tx_attempts]. fold rows.
  destruct (begin_rows scope rows message now) as [start rows'] eqn:Eb.
  assert (match start with StartedAttempt _ => True | _ => rows' = rows end) as Hsame.
  { unfold begin_rows in Eb. destruct (find_done _ _ _ _) as [st |] eqn:Ed.
    - apply find_done_spec in Ed as (? & ? & _ & _ & _ & _ & ->). by simplify_eq.
    - destruct (last rows) as [r |]; [destruct (negb _) |]; by simplify_eq. }
  destruct start as [| a | a | a c].
  all: try (unfold mret, M_ret, tx_commit; cbn [w_store set_store]; cbn; rewrite Hfail, lookup_insert_eq;
    eexists; split; [done |]; cbn; subst; done).
  unfold mbind, M_bind, put_tx, modify, mret, M_ret, tx_commit. cbn.
  rewrite Hfail, lookup_insert_eq. eexists. split; [done |]. cbn. by rewrite lookup_insert_eq.
Qed.

Context {R : Type}.

Definition with_command (d : ExternalDispatch W R) (command : ExternalCommand W)
  : ExternalDispatch W R :=
  mkExternalDispatch (d_UoW d) (d_Store d) (d_Ledger d) (d_Inbox d) (d_Receipt d) command
    (d_Key d) (d_Payload d) (d_Profile d) (d_QueryAvailable d) (d_StaleAfter d) (d_Clock d)
    (d_SettleContext d) (d_Instrumentation d) (d_Apply d).

(** Only a started attempt calls the partner. *)
Lemma dispatch_start_silent d command ctx start (w : W) :
  (forall a, start <> StartedAttempt a) ->
  dispatch_start (with_command d command) ctx start w = dispatch_start d ctx start w.
Proof. destruct start; cbn; [done | naive_solver | done | done]. Qed.

Lemma dispatch_run_silent d command ctx (w w1 w2 : W) now start :
  Now (d_Clock d) w = (now, w1) ->
  ledger_Begin (d_Store d) ctx (d_Key d) (rcp_MessageID (d_Receipt d)) now w1 = (Ok start, w2) ->
  (forall a, start <> StartedAttempt a) ->
  dispatch_run (with_command d command) ctx w = dispatch_run d ctx w.
Proof.
  intros Hn Hb Hs. unfold dispatch_run. unfold mbind at 1, M_bind at 1, run.
  unfold mbind at 1, M_bind at 1, run. symmetry. unfold mbind at 1, M_bind at 1, run.
  symmetry. cbn [d_Clock d_Store d_Key d_Receipt with_command]. rewrite Hn.
  unfold mbind, M_bind, attempt. rewrite Hb.
  rewrite (dispatch_start_silent d command ctx start w2 Hs). reflexivity.
Qed.

(** The last attempt of the key is still begun, or the message already ended
    an attempt of it with a class no resend follows. *)
Definition no_new_attempt (rows : list attemptRow) (message : MessageID) : Prop :=
  (exists r, last rows = Some r /\ ar_finished r = false) \/
  (exists i r, rows !! i = Some r /\ ar_finished r = true /\ ar_messageID r = message /\
     Retryable (ar_class r) = false).

Lemma no_new_attempt_start scope rows message now :
  rows_ok rows -> no_new_attempt rows message ->
  forall a, (begin_rows scope rows message now).1 <> StartedAttempt a.
Proof.
  intros Hok Hno a. destruct (begin_rows scope rows message now) as [start rows'] eqn:Eb.
  pose proof (begin_rows_spec _ _ _ _ _ _ Hok Eb) as Hsp. cbn. intros ->.
  destruct Hsp as (_ & _ & Hf & Hr).
  destruct Hno as [(r & Hl & Hnf) | (i & r & Hi & Hfin & Hm & Hc)].
  - apply last_lookup_pred in Hl. rewrite (Forall_lookup_1 _ _ _ _ Hf Hl) in Hnf. done.
  - apply (Forall_lookup_1 _ _ _ _ Hr Hi) in Hm. congruence.
Qed.
End DispatchMemory.
