(* ===== verification/PgLedger.v ===== *)
(** The attempt ledger over Postgres ([postgres/attempt_ledger.go],
    [external_attempt.sql]): the table, its SQL statements as functions on it,
    and the operations as the sequences of statements they run.

    A transaction is READ COMMITTED, so every statement sees what is committed
    when it runs: an operation takes the table each of its statements sees. *)

From Stdlib Require Import OrdersEx.
From stdpp Require Import sorting.
From S2P Require Import Prelude GoSlices DomainKernel Errors Ports Interfaces Memory Ledger.

(** * The table ([external_attempt.sql]) *)
Record pgConflict := mkPgConflict {
  pc_class : option ExternalClass; pc_finding : option Finding; pc_at : Instant
}.
(** What the last recorded observation left: id, provider, reference, source. *)
Record pgObservation := mkPgObservation {
  po_id : string; po_provider : string; po_ref : string; po_source_at : Instant
}.
Inductive pgState := begun | finished.
#[global] Instance pgState_eq_dec : EqDecision pgState.
Proof. solve_decision. Defined.
(** The [smallint] columns hold the enumerations' codes. *)
Record pgRow := mkPgRow {
  pg_message_id : MessageID; pg_state : pgState; pg_started_at : Instant;
  pg_finished_at : option Instant; pg_class : option ExternalClass; pg_finding : option Finding;
  pg_observation : option pgObservation; pg_terminal_finding : option Finding;
  pg_observation_ids : list string; pg_queries : Z; pg_conflicts : list pgConflict
}.
(** The primary key: tenant and outbound key, attempt. *)
Notation pgKey := (attemptKey * Z)%type.
Notation pgTable := (gmap (attemptKey * Z) pgRow).

(** [external_attempt_entries_check]: a row that breaks it fails the statement. *)
Definition entries_check (r : pgRow) : bool :=
  (len (pg_observation_ids r) <=? 64) && (len (pg_conflicts r) <=? 64).
Definition check_violation : error := DriverError (Some "23514") None None None.
Definition store_row (tbl : pgTable) (k : pgKey) (r : pgRow) : result error pgTable :=
  if entries_check r then Ok (<[k := r]> tbl) else Err check_violation.

(** * Codes and columns *)
Definition stateBegun : pgState := begun.
Definition retryableClasses : list ExternalClass :=
  filter (fun c => Retryable c = true)
    [ClassAccepted; ClassRetryableTransport; ClassRetryableUpstream; ClassFinalValidation;
     ClassFinalBusiness; ClassFinalAuthorization; ClassUnknownSent; ClassUnknownAmbiguous;
     ClassSchemaMismatch].
Definition classOf (stored : option ExternalClass) : ExternalClass := default ClassNone stored.
Definition nullableClass (c : ExternalClass) : option ExternalClass :=
  if decide (c = ClassNone) then None else Some c.
Definition nullableFinding (f : Finding) : option Finding :=
  if decide (f = FindingNone) then None else Some f.
Definition terminalOf (f : Finding) : option Finding :=
  match f with FindingApplied | FindingRejected => nullableFinding f | _ => None end.
Definition observationColumns (o : Observation) : option pgObservation :=
  if String.eqb (obs_ID o) "" && bool_decide (obs_Finding o = FindingNone) then None
  else Some (mkPgObservation (obs_ID o) (obs_Provider o) (obs_ExternalRef o) (obs_SourceAt o)).
Definition saturated (seen conflicts : Z) : bool :=
  (MaxAttemptEntries <=? seen) || (MaxAttemptEntries <=? conflicts).

(** * Reading one key's attempts: [ORDER BY attempt DESC LIMIT 1] *)
Definition newer (best : option (Z * pgRow)) (n : Z) (r : pgRow) : option (Z * pgRow) :=
  match best with
  | Some (m, _) => if n <? m then best else Some (n, r)
  | None => Some (n, r)
  end.
Definition newest (p : pgRow -> bool) (tbl : pgTable) (scope : attemptKey) : option (Z * pgRow) :=
  map_fold (fun k r best => if decide (k.1 = scope) then if p r then newer best k.2 r else best else best)
    None tbl.

(** [class <> ALL (retryable)] is not true of a class that is NULL. *)
Definition done_row (message : MessageID) (r : pgRow) : bool :=
  String.eqb (pg_message_id r) message && bool_decide (pg_state r = finished) &&
  match pg_class r with Some c => negb (bool_decide (c ∈ retryableClasses)) | None => false end.
Definition selectDoneAttempt (tbl : pgTable) (scope : attemptKey) (message : MessageID) : option (Z * pgRow) :=
  newest (done_row message) tbl scope.
Definition selectLastAttempt (tbl : pgTable) (scope : attemptKey) : option (Z * pgRow) :=
  newest (fun _ => true) tbl scope.

Definition pgAttempt (scope : attemptKey) (n : Z) (r : pgRow) : Attempt :=
  mkAttempt scope.1 scope.2 n (pg_message_id r) (pg_started_at r).

(** * Begin *)
Definition begun_row (message : MessageID) (now : Instant) : pgRow :=
  mkPgRow message begun now None None None None None [] 0 [].
(** The insert that does nothing on a conflict: what it leaves, and whether it
    wrote. *)
Definition insertAttempt (tbl : pgTable) (scope : attemptKey) (n : Z) (message : MessageID) (now : Instant)
    : pgTable * bool :=
  match tbl !! (scope, n) with
  | Some _ => (tbl, false)
  | None => (<[(scope, n) := begun_row message now]> tbl, true)
  end.

Definition doneAttempt (tbl : pgTable) (scope : attemptKey) (message : MessageID) : option AttemptStart :=
  (fun nr => DoneAttempt (pgAttempt scope nr.1 nr.2) (classOf (pg_class nr.2))) <$>
    selectDoneAttempt tbl scope message.

(** The tables the three statements of a round see. *)
Record views := mkViews { v_done : pgTable; v_last : pgTable; v_insert : pgTable }.
(** A round: its answer, unless the insert lost, and the table it leaves. *)
Definition beginRound (v : views) (scope : attemptKey) (message : MessageID) (now : Instant)
    : option AttemptStart * pgTable :=
  match doneAttempt (v_done v) scope message with
  | Some start => (Some start, v_insert v)
  | None =>
      let last := selectLastAttempt (v_last v) scope in
      let insert (n : Z) :=
        let '(tbl, wrote) := insertAttempt (v_insert v) scope n message now in
        (if wrote then Some (StartedAttempt (mkAttempt scope.1 scope.2 n message now)) else None, tbl) in
      match last with
      | Some (n, r) =>
          if decide (pg_state r = stateBegun) then (Some (PendingAttempt (pgAttempt scope n r)), v_insert v)
          else insert (n + 1)
      | None => insert 1
      end
  end.
Definition beginRounds : nat := 8.
Definition lost_races : error := Opaque "postgres: begin: lost insert races in a row".
(** The rounds over the views they see; no more than [beginRounds] of them. *)
Fixpoint begin_loop (vs : list views) (scope : attemptKey) (message : MessageID) (now : Instant)
    (left_ : pgTable) : result error AttemptStart * pgTable :=
  match vs with
  | [] => (Err lost_races, left_)
  | v :: vs' =>
      match beginRound v scope message now with
      | (Some start, tbl) => (Ok start, tbl)
      | (None, tbl) => begin_loop vs' scope message now tbl
      end
  end.

Definition tenantOf (ctx : Ctx) : result error TenantID :=
  execution ← RequireExecutionContext ctx;
  match Tenant execution with
  | None => Err (Sentinel "postgres.ErrTenantUnresolved")
  | Some t => Ok t
  end.
(** [Begin] over the views of its rounds, at most the first eight of which are
    seen; [left_] is the table when it begins. *)
Definition Begin (vs : list views) (left_ : pgTable) (ctx : Ctx) (key : OutboundKey) (message : MessageID)
    (now : Instant) : result error AttemptStart * pgTable :=
  if String.eqb key "" then (Err (invalid_attempt "empty key"), left_)
  else if String.eqb message "" then (Err (invalid_attempt "empty message ID"), left_)
  else
    match tenantOf ctx with
    | Ok tenant => begin_loop (take beginRounds vs) (tenant, key) message now left_
    | Err e => (Err e, left_)
    | Panic w => (Panic w, left_)
    end.

(** * Finish *)
Definition finishBegunAttempt (tbl : pgTable) (k : pgKey) (o : AttemptOutcome) : result error (option pgTable) :=
  match tbl !! k with
  | Some r =>
      if decide (pg_state r = begun) then
        let ob := out_Observation o in
        tbl' ← store_row tbl k
          (mkPgRow (pg_message_id r) finished (pg_started_at r) (Some (out_FinishedAt o)) (Some (out_Class o))
             (nullableFinding (obs_Finding ob)) (observationColumns ob) (terminalOf (obs_Finding ob))
             (if String.eqb (obs_ID ob) "" then pg_observation_ids r else pg_observation_ids r ++ [obs_ID ob])
             (pg_queries r) (pg_conflicts r));
        Ok (Some tbl')
      else Ok None
  | None => Ok None
  end.
Definition appendAttemptConflict (tbl : pgTable) (k : pgKey) (c : pgConflict) : result error pgTable :=
  match tbl !! k with
  | Some r =>
      store_row tbl k
        (mkPgRow (pg_message_id r) (pg_state r) (pg_started_at r) (pg_finished_at r) (pg_class r) (pg_finding r)
           (pg_observation r) (pg_terminal_finding r) (pg_observation_ids r) (pg_queries r)
           (pg_conflicts r ++ [c]))
  | None => Ok tbl
  end.
Section OnTable.
Context (tbl : pgTable).

(** The statements after the one that locks the row see it unchanged, and the
    update locks the row it finds begun. *)
Definition finish_at (k : pgKey) (o : AttemptOutcome) : result error (Finished * pgTable) :=
  recorded ← finishBegunAttempt tbl k o;
  match recorded with
  | Some tbl' => Ok (mkFinished FinishRecorded (out_Class o), tbl')
  | None =>
      match tbl !! k with
      | None => Err (Wrap "finish attempt" ErrAttemptUnknown)
      | Some r =>
          let recorded := classOf (pg_class r) in
          if decide (recorded = out_Class o) then Ok (mkFinished FinishUnchanged recorded, tbl)
          else if out_Presumed o then Ok (mkFinished FinishUnchanged recorded, tbl)
          else if saturated (len (pg_observation_ids r)) (len (pg_conflicts r))
          then Ok (mkFinished FinishSaturated recorded, tbl)
          else
            tbl' ← appendAttemptConflict tbl k (mkPgConflict (Some (out_Class o)) None (out_FinishedAt o));
            Ok (mkFinished FinishConflict recorded, tbl')
      end
  end.
Definition Finish (ctx : Ctx) (o : AttemptOutcome) : result error (Finished * pgTable) :=
  _ ← validOutcome o;
  tenant ← tenantOf ctx;
  finish_at ((tenant, out_Key o), out_N o) o.

(** * Observe *)
Definition recordObservationID (k : pgKey) (id : string) : result error pgTable :=
  match tbl !! k with
  | Some r =>
      store_row tbl k
        (mkPgRow (pg_message_id r) (pg_state r) (pg_started_at r) (pg_finished_at r) (pg_class r) (pg_finding r)
           (pg_observation r) (pg_terminal_finding r) (pg_observation_ids r ++ [id]) (pg_queries r)
           (pg_conflicts r))
  | None => Ok tbl
  end.
Definition recordObservation (k : pgKey) (r : pgRow) (o : Observation) (full : bool) : result error pgTable :=
  store_row tbl k
    (mkPgRow (pg_message_id r) (pg_state r) (pg_started_at r) (pg_finished_at r) (pg_class r)
       (Some (obs_Finding o))
       (Some (mkPgObservation (obs_ID o) (obs_Provider o) (obs_ExternalRef o) (obs_SourceAt o)))
       (terminalOf (obs_Finding o))
       (if full then pg_observation_ids r else pg_observation_ids r ++ [obs_ID o])
       (pg_queries r + 1) (pg_conflicts r)).

Definition observeAfterTerminal (k : pgKey) (terminal : Finding) (o : Observation) (now : Instant)
    : result error (ObserveResult * pgTable) :=
  tbl' ← recordObservationID k (obs_ID o);
  if bool_decide (terminalOf (obs_Finding o) = None) || bool_decide (terminal = obs_Finding o)
  then Ok (ObserveDuplicate, tbl')
  else
    tbl'' ← appendAttemptConflict tbl' k (mkPgConflict None (Some (obs_Finding o)) now);
    Ok (ObserveConflict, tbl'').

Definition observe_at (scope : attemptKey) (o : Observation) (now : Instant)
    : result error (Observed * pgTable) :=
  match selectLastAttempt tbl scope with
  | None => Err (Wrap "observe" ErrAttemptUnknown)
  | Some (n, r) =>
      if decide (pg_state r = stateBegun) then Err (Wrap "observe attempt" ErrAttemptInFlight)
      else
        let observed result queries := mkObserved result n (classOf (pg_class r)) queries in
        if decide (obs_ID o ∈ pg_observation_ids r) then Ok (observed ObserveDuplicate (pg_queries r), tbl)
        else
          let full := saturated (len (pg_observation_ids r)) (len (pg_conflicts r)) in
          let record :=
            tbl' ← recordObservation (scope, n) r o full;
            Ok (observed ObserveRecorded (pg_queries r + 1), tbl') in
          match pg_terminal_finding r with
          | Some t =>
              if full then
                Ok (observed (if decide (t = obs_Finding o) then ObserveDuplicate else ObserveSaturated)
                      (pg_queries r), tbl)
              else
                '(result, tbl') ← observeAfterTerminal (scope, n) t o now;
                Ok (observed result (pg_queries r), tbl')
          | None =>
              if full && bool_decide (terminalOf (obs_Finding o) = None)
              then Ok (observed ObserveSaturated (pg_queries r), tbl)
              else record
          end
  end.
Definition Observe (ctx : Ctx) (o : Observation) (now : Instant) : result error (Observed * pgTable) :=
  _ ← validObservation o;
  tenant ← tenantOf ctx;
  observe_at (tenant, obs_Key o) o now.

(** * Stale: [COLLATE "C"] compares bytes *)
Definition stale_entry (cutoff : Instant) (after : AttemptCursor) (kr : pgKey * pgRow) : option Attempt :=
  let attempt := pgAttempt kr.1.1 kr.1.2 kr.2 in
  if bool_decide (pg_state kr.2 = begun) && (pg_started_at kr.2 <=? cutoff) &&
     (bool_decide (after = zeroCursor) || bool_decide (compareCursor (Cursor attempt) after = Gt))
  then Some attempt else None.
Definition selectStaleAttempts (cutoff : Instant) (after : AttemptCursor) (limit : Z) : list Attempt :=
  take (Z.to_nat limit) (merge_sort attempt_le (omap (stale_entry cutoff after) (map_to_list tbl))).
Definition Stale (cutoff : Instant) (after : AttemptCursor) (limit : Z) : result error (list Attempt) :=
  if limit <? 1 then Err (Wrap "stale limit" ErrInvalidAttempt)
  else Ok (selectStaleAttempts cutoff after limit).
End OnTable.

(** * Purge ([purge.go]) *)

(** [deleteFinishedAttempts], given the rows its subquery picks: some finished
    before the cutoff, at most a batch, none another transaction holds. *)
Definition purgeable (before : Instant) (r : pgRow) : bool :=
  bool_decide (pg_state r = finished) && match pg_finished_at r with Some t => t <? before | None => false end.
Definition deleteFinishedAttempts (tbl : pgTable) (before : Instant) (picked : list pgKey) : pgTable :=
  filter (fun kr => ~ (kr.1 ∈ picked /\ purgeable before kr.2 = true)) tbl.
Record AttemptPurge := mkAttemptPurge { pur_Count : Z; pur_Before : Instant }.
Definition PurgeAttempts (tbl : pgTable) (before : Instant) (batch : Z) (picked : list pgKey)
    : result error AttemptPurge * pgTable :=
  if batch <=? 0 then (Err (Sentinel "postgres.ErrPurgeBatchRequired"), tbl)
  else
    let tbl' := deleteFinishedAttempts tbl before (take (Z.to_nat batch) picked) in
    (Ok (mkAttemptPurge (Z.of_nat (size tbl) - Z.of_nat (size tbl')) before), tbl').

(** * AttemptStore: each call in a transaction of its own

    [lost]: the driver's error to the commit, and whether it arrived. *)
Definition ErrIncompleteAttemptStore : error := Sentinel "postgres.ErrIncompleteAttemptStore".
Definition AttemptStore_within {A : Type} (pool : bool) (lost : option (error * bool)) (tbl : pgTable)
    (call : result error A * pgTable) : result error A * pgTable :=
  if negb pool then (Err ErrIncompleteAttemptStore, tbl)
  else match call, lost with
       | (Ok a, tbl'), None => (Ok a, tbl')
       | (Ok _, tbl'), Some (e, arrived) => (Err e, if arrived : bool then tbl' else tbl)
       | (Err e, _), None => (Err e, tbl)
       | (Err e, _), Some (e', _) => (Err (Join "" [e; e']), tbl)
       | (Panic w, _), _ => (Panic w, tbl)
       end.
