(* ===== verification/PgServer.v ===== *)
(** Postgres as [src/libs/backend/go/postgres] uses it: sessions under READ
    COMMITTED over the aggregate tables and the inbox, row locks, unique
    constraints, savepoints and transaction-scoped advisory locks, as functions
    on a server; and the Go code as trees of statements.

    A row a session wrote stays locked until it ends. A statement that would
    wait has no answer ([None]); it runs when what it waits for is gone, or
    fails. *)

From S2P Require Import Prelude GoStrings DomainKernel Errors Ports.

(** * Rows *)
Inductive value := Null | Text (s : string) | Int (z : Z) | Blob (b : bytes).
#[global] Instance value_eq_dec : EqDecision value.
Proof. solve_decision. Defined.
Record trow := mkTrow { tr_version : Z; tr_columns : gmap string value }.
#[global] Instance trow_eq_dec : EqDecision trow.
Proof. solve_decision. Defined.
(** Table, tenant and identifier; unquoted names are folded to lower case. *)
Notation tkey := (string * (string * string))%type.

Record irow := mkIrow {
  ib_type : string; ib_hash : string; ib_received_at : Instant; ib_processed_at : Instant;
  ib_status : Status; ib_last_error : option string; ib_outcome : option bytes; ib_expires_at : option Instant
}.
(** Consumer and message. *)
Notation ikey := (string * string)%type.

(** A [UNIQUE] constraint, its columns after [tenant_id]. *)
Record constraint := mkConstraint { c_table : string; c_name : string; c_columns : list string }.

(** * Sessions *)
Record snapshot := mkSnap {
  sn_rows : gmap tkey trow; sn_inbox : gmap ikey irow; sn_shared : gset Z; sn_exclusive : gset Z
}.
Record session := mkSession { se_now : snapshot; se_saves : list snapshot; se_aborted : bool }.
Record server := mkServer {
  sv_rows : gmap tkey trow; sv_inbox : gmap ikey irow; sv_sessions : gmap nat session
}.
Definition empty_snapshot : snapshot := mkSnap ∅ ∅ ∅ ∅.
Definition new_session : session := mkSession empty_snapshot [] false.
(** What a session holds: its state and those its savepoints may restore. *)
Definition held (x : session) : list snapshot := se_now x :: se_saves x.
Definition set_session (t : nat) (x : session) (s : server) : server :=
  mkServer (sv_rows s) (sv_inbox s) (<[t := x]> (sv_sessions s)).
Definition set_now (x : session) (n : snapshot) : session := mkSession n (se_saves x) (se_aborted x).
Definition aborted (x : session) : session := mkSession (se_now x) (se_saves x) true.

Definition others (s : server) (t : nat) : list snapshot :=
  map_to_list (delete t (sv_sessions s)) ≫= (fun tx => held tx.2).
Definition row_locked (s : server) (t : nat) (k : tkey) : bool :=
  existsb (fun n => bool_decide (is_Some (sn_rows n !! k))) (others s t).
Definition inbox_locked (s : server) (t : nat) (k : ikey) : bool :=
  existsb (fun n => bool_decide (is_Some (sn_inbox n !! k))) (others s t).
Definition view (s : server) (n : snapshot) : gmap tkey trow := sn_rows n ∪ sv_rows s.
Definition inbox_view (s : server) (n : snapshot) : gmap ikey irow := sn_inbox n ∪ sv_inbox s.

(** * Unique constraints *)
Definition indexed (v : option value) : option value :=
  match v with Some Null | None => None | Some v => Some v end.
Definition unique_key (c : constraint) (k : tkey) (r : trow) : option (string * list value) :=
  if String.eqb k.1 (c_table c) then pair k.2.1 <$> mapM (fun col => indexed (tr_columns r !! col)) (c_columns c)
  else None.
Definition same_key (c : constraint) (w : string * list value) (kr : tkey * trow) : bool :=
  bool_decide (unique_key c kr.1 kr.2 = Some w).

Inductive verdict := Pass | Wait | Violates (c : constraint).
(** Another row under the key: one another session has in progress is waited
    for, one in sight breaks the constraint. [self] counts the row itself. *)
Definition other_row (self : bool) (k : tkey) (kr : tkey * trow) : bool := self || negb (bool_decide (kr.1 = k)).
Definition in_progress (s : server) (t : nat) (c : constraint) (k : tkey) (w : string * list value) : bool :=
  existsb (fun n => existsb (fun kr => other_row false k kr && same_key c w kr) (map_to_list (sn_rows n))) (others s t) ||
  existsb (fun kr => other_row false k kr && row_locked s t kr.1 && same_key c w kr) (map_to_list (sv_rows s)).
Definition taken (s : server) (n : snapshot) (self : bool) (c : constraint) (k : tkey) (w : string * list value) : bool :=
  existsb (fun kr => other_row self k kr && same_key c w kr) (map_to_list (view s n)).
Fixpoint unique_check (s : server) (t : nat) (n : snapshot) (self : bool) (k : tkey) (r : trow)
    (cs : list constraint) : verdict :=
  match cs with
  | [] => Pass
  | c :: cs' =>
      match unique_key c k r with
      | None => unique_check s t n self k r cs'
      | Some w =>
          if in_progress s t c k w then Wait
          else if taken s n self c k w then Violates c
          else unique_check s t n self k r cs'
      end
  end.

(** * Statements *)
Inductive failure :=
| PgError (code table constraint_ : string)
| Preprocessing (sql : string) (e : error)   (* [pgx.ErrPreprocessingBatch] *)
| Foreign (e : error).
Definition uniqueViolation : string := "23505".
Definition lockNotAvailable : string := "55P03".
Definition deadlockDetected : string := "40P01".
Definition in_failed_transaction : failure := PgError "25P02" "" "".
(** The driver's error, as the Go code sees it. *)
Definition driver_error (f : failure) : error :=
  match f with PgError code _ _ => DriverError (Some code) None None None | Preprocessing _ e | Foreign e => e end.
Definition state_of (f : failure) : option string :=
  match f with PgError code _ _ => Some code | Preprocessing _ e | Foreign e => as_sql_state e end.

Inductive stmt : Type -> Type :=
| LockShared (h : Z) : stmt unit
| LockExclusive (h : Z) : stmt unit
| SetLockTimeout (milliseconds : Z) : stmt unit
| ResetLockTimeout : stmt unit
| Savepoint : stmt unit
| Release : stmt unit
| RollbackTo : stmt unit
| Prepare (sql : string) : stmt unit
| InsertRow (k : tkey) (columns : gmap string value) : stmt Z
| UpdateRow (k : tkey) (expected : Z) (guard : option string) (columns : gmap string value) : stmt Z
| SelectRow (k : tkey) : stmt (option trow)
| ExistsRow (k : tkey) : stmt bool
| OwnerOf (k : tkey) : stmt (option string)
| SelectWhere (table tenant_ column : string) (v : value) : stmt (list (string * trow))
| OwnerWhere (table column : string) (v : value) (tenant_ : string) : stmt (option string)
| InsertInbox (k : ikey) (r : irow) : stmt Z
| InsertCommand (k : ikey) (r : irow) : stmt Z
| SelectInbox (k : ikey) : stmt (option irow)
| UpdateInbox (k : ikey) (status : Status) (at_ : Instant) (last_error : option string) (outcome : option bytes) : stmt Z.

Section Statements.
(** The schema's constraints, in the order of their indexes, and the server's
    collation, which orders tenants for [ORDER BY tenant_id LIMIT 1]. *)
Context (schema : list constraint) (least : list string -> option string).

Definition matching (s : server) (n : snapshot) (table column : string) (v : value) : list (tkey * trow) :=
  filter (fun kr => kr.1.1 = table /\ indexed (tr_columns kr.2 !! column) = indexed (Some v) /\ v <> Null)
    (map_to_list (view s n)).

(** What a row write leaves, when its constraints allow it. *)
Definition put_row (s : server) (t : nat) (x : session) (self : bool) (k : tkey) (r : trow)
    : option ((failure + Z) * server) :=
  let n := se_now x in
  match unique_check s t n self k r schema with
  | Wait => None
  | Violates c => Some (inl (PgError uniqueViolation (c_table c) (c_name c)), set_session t (aborted x) s)
  | Pass =>
      Some (inr 1, set_session t (set_now x
        (mkSnap (<[k := r]> (sn_rows n)) (sn_inbox n) (sn_shared n) (sn_exclusive n))) s)
  end.
Definition put_inbox (s : server) (t : nat) (x : session) (k : ikey) (r : irow) : (failure + Z) * server :=
  let n := se_now x in
  (inr 1, set_session t (set_now x
    (mkSnap (sn_rows n) (<[k := r]> (sn_inbox n)) (sn_shared n) (sn_exclusive n))) s).

(** [race]: the server looks at the declared constraints before the primary
    key, so a row of the same identity may be reported on one of them. *)
Definition exec_insert (race : bool) (s : server) (t : nat) (x : session) (k : tkey) (columns : gmap string value)
    : option ((failure + Z) * server) :=
  if row_locked s t k then None
  else match view s (se_now x) !! k with
  | Some _ =>
      if race then
        match unique_check s t (se_now x) true k (mkTrow 1 columns) schema with
        | Violates c => Some (inl (PgError uniqueViolation (c_table c) (c_name c)), set_session t (aborted x) s)
        | Wait => None
        | Pass => Some (inr 0, s)
        end
      else Some (inr 0, s)
  | None => put_row s t x false k (mkTrow 1 columns)
  end.
Definition guard_matches (guard : option string) (r : trow) (columns : gmap string value) : bool :=
  match guard with
  | None => true
  | Some g => match indexed (tr_columns r !! g) with
              | Some v => bool_decide (columns !! g = Some v)
              | None => false
              end
  end.
Definition exec_update (s : server) (t : nat) (x : session) (k : tkey) (expected : Z) (guard : option string)
    (columns : gmap string value) : option ((failure + Z) * server) :=
  match view s (se_now x) !! k with
  | Some r =>
      if (tr_version r =? expected) && guard_matches guard r columns then
        if row_locked s t k then None
        else if 2 ^ 63 - 1 <=? expected then Some (inl (PgError "22003" "" ""), set_session t (aborted x) s)
        else put_row s t x false k (mkTrow (expected + 1) (columns ∪ tr_columns r))
      else Some (inr 0, s)
  | None => Some (inr 0, s)
  end.

Definition lock_held (h : Z) (n : snapshot) : bool := bool_decide (h ∈ sn_shared n) || bool_decide (h ∈ sn_exclusive n).
Definition lock (s : server) (t : nat) (x : session) (h : Z) (exclusive : bool) : option ((failure + unit) * server) :=
  let n := se_now x in
  if existsb (fun m => if exclusive then lock_held h m else bool_decide (h ∈ sn_exclusive m)) (others s t) then None
  else Some (inr (), set_session t (set_now x
    (if exclusive then mkSnap (sn_rows n) (sn_inbox n) (sn_shared n) ({[h]} ∪ sn_exclusive n)
     else mkSnap (sn_rows n) (sn_inbox n) ({[h]} ∪ sn_shared n) (sn_exclusive n))) s).

(** One statement of an open session that is not aborted. *)
Definition exec_open {R} (race : bool) (st : stmt R) (s : server) (t : nat) (x : session)
    : option ((failure + R) * server) :=
  let n := se_now x in
  match st in stmt R return option ((failure + R) * server) with
  | LockShared h => lock s t x h false
  | LockExclusive h => lock s t x h true
  | SetLockTimeout _ | ResetLockTimeout | Prepare _ => Some (inr (), s)
  | Savepoint => Some (inr (), set_session t (mkSession n (n :: se_saves x) false) s)
  | Release =>
      match se_saves x with
      | [] => Some (inl (PgError "3B001" "" ""), set_session t (aborted x) s)
      | _ :: saves => Some (inr (), set_session t (mkSession n saves false) s)
      end
  | RollbackTo =>
      match se_saves x with
      | [] => Some (inl (PgError "3B001" "" ""), set_session t (aborted x) s)
      | saved :: _ => Some (inr (), set_session t (mkSession saved (se_saves x) false) s)
      end
  | InsertRow k columns => exec_insert race s t x k columns
  | UpdateRow k expected guard columns => exec_update s t x k expected guard columns
  | SelectRow k => Some (inr (view s n !! k), s)
  | ExistsRow k => Some (inr (bool_decide (is_Some (view s n !! k))), s)
  | OwnerOf k =>
      Some (inr (least ((fun kr => kr.1.2.1) <$>
        filter (fun kr => kr.1.1 = k.1 /\ kr.1.2.2 = k.2.2 /\ kr.1.2.1 <> k.2.1) (map_to_list (view s n)))), s)
  | SelectWhere table tenant_ column v =>
      Some (inr ((fun kr => (kr.1.2.2, kr.2)) <$>
        filter (fun kr => kr.1.2.1 = tenant_) (matching s n table column v)), s)
  | OwnerWhere table column v tenant_ =>
      Some (inr (least ((fun kr => kr.1.2.1) <$>
        filter (fun kr => kr.1.2.1 <> tenant_) (matching s n table column v))), s)
  | InsertInbox k r =>
      if inbox_locked s t k then None
      else match inbox_view s n !! k with
           | Some _ => Some (inr 0, s)
           | None => Some (put_inbox s t x k r)
           end
  | InsertCommand k r =>
      if inbox_locked s t k then None
      else match inbox_view s n !! k with
           | Some old =>
               if match ib_expires_at old with Some e => e <=? ib_received_at r | None => false end
               then Some (put_inbox s t x k r) else Some (inr 0, s)
           | None => Some (put_inbox s t x k r)
           end
  | SelectInbox k => Some (inr (inbox_view s n !! k), s)
  | UpdateInbox k status at_ last_error outcome =>
      match inbox_view s n !! k with
      | Some r =>
          if inbox_locked s t k then None
          else Some (put_inbox s t x k (mkIrow (ib_type r) (ib_hash r) (ib_received_at r) at_ status last_error outcome (ib_expires_at r)))
      | None => Some (inr 0, s)
      end
  end.
(** An aborted transaction accepts a rollback to a savepoint and nothing else. *)
Definition exec {R} (race : bool) (st : stmt R) (s : server) (t : nat) : option ((failure + R) * server) :=
  match sv_sessions s !! t with
  | None => None
  | Some x =>
      if se_aborted x then
        match st in stmt R return option ((failure + R) * server) with
        | RollbackTo => exec_open race RollbackTo s t x
        | _ => Some (inl in_failed_transaction, s)
        end
      else exec_open race st s t x
  end.

(** * The end of a session *)
Definition close (t : nat) (s : server) : server :=
  mkServer (sv_rows s) (sv_inbox s) (delete t (sv_sessions s)).
Definition commit (t : nat) (s : server) : server :=
  match sv_sessions s !! t with
  | None => s
  | Some x =>
      if se_aborted x then close t s
      else mkServer (sn_rows (se_now x) ∪ sv_rows s) (sn_inbox (se_now x) ∪ sv_inbox s) (delete t (sv_sessions s))
  end.

(** * Runs

    A statement may also fail without the server's having refused it: a
    connection that breaks, a lock timeout, a deadlock. *)
Definition fail_session (t : nat) (s : server) : server :=
  match sv_sessions s !! t with Some x => set_session t (aborted x) s | None => s end.

Inductive step (t : nat) (s : server) : server -> Prop :=
| step_begin : sv_sessions s !! t = None -> step t s (set_session t new_session s)
| step_stmt {R} race (st : stmt R) answer s' : exec race st s t = Some (answer, s') -> step t s s'
| step_fail : step t s (fail_session t s)
| step_commit : step t s (commit t s)
| step_rollback : step t s (close t s)
| step_purge k : inbox_locked s t k = false -> sv_sessions s !! t = None ->
    step t s (mkServer (sv_rows s) (delete k (sv_inbox s)) (sv_sessions s)).
Definition elsewhere (t : nat) (s s' : server) : Prop := exists t', t' <> t /\ step t' s s'.
Definition anywhere (s s' : server) : Prop := exists t, step t s s'.

End Statements.

(** ** Programs of one session *)
Inductive prog (A : Type) : Type :=
| Ret (a : A)
| Do {R : Type} (st : stmt R) (k : failure + R -> prog A).
Arguments Ret {A} a.
Arguments Do {A R} st k.

Fixpoint prog_bind {A B} (p : prog A) (f : A -> prog B) : prog B :=
  match p with Ret a => f a | Do st k => Do st (fun r => prog_bind (k r) f) end.
#[global] Instance prog_ret : MRet prog := fun A a => Ret a.
#[global] Instance prog_mbind : MBind prog := fun A B f p => prog_bind p f.
(** One statement, its failure as a value. *)
Definition stmt_ {R} (st : stmt R) : prog (failure + R) := Do st Ret.

Section Runs.
Context (schema : list constraint) (least : list string -> option string).
(** What the other sessions may do between two statements. *)
Context (env : server -> server -> Prop).

(** The program of session [t], the others running between its statements. *)
Fixpoint runs_in {A} (t : nat) (p : prog A) (s : server) (a : A) (s' : server) : Prop :=
  match p with
  | Ret x => x = a /\ s' = s
  | Do st k =>
      exists s1, rtc env s s1 /\
        ((exists race answer s2, exec schema least race st s1 t = Some (answer, s2) /\ runs_in t (k answer) s2 a s') \/
         (exists f, state_of f <> Some uniqueViolation /\ runs_in t (k (inl f)) (fail_session t s1) a s'))
  end.
End Runs.
Notation runs schema least t := (runs_in schema least (elsewhere schema least t) t).
