(* ===== verification/PgTable.v ===== *)
(** The aggregate tables over Postgres ([postgres/table.go], [guard.go],
    [unique.go], [snapshot_table.go], [uow.go]): the statements a [Table]
    compiles and the operations as programs of one session; then the inbox.

    A value of Go's [any] is a [value]; [Encode] and [Decode] are the context's. *)

From S2P Require Import Prelude GoTime GoStrings DomainKernel Errors Ports Interfaces PgServer.

Definition ErrTenantUnresolved : error := Sentinel "postgres.ErrTenantUnresolved".
Definition ErrGuardValue : error := Sentinel "postgres.ErrGuardValue".

(** * Declarations *)
Record Unique := mkUnique { u_Name : string; u_Columns : list string; u_Rejection : option Rejection }.
Record Table (S : Type) := mkTable {
  t_Name : string; t_IDColumn : string; t_Columns : list string;
  t_Encode : option (S -> result error (list value));
  t_Decode : option (list value -> result error S);
  t_WithID : option (S -> string -> S);
  t_Unique : list Unique; t_Guard : string
}.
Arguments mkTable {S}.
Arguments t_Name {S}.
Arguments t_IDColumn {S}.
Arguments t_Columns {S}.
Arguments t_Encode {S}.
Arguments t_Decode {S}.
Arguments t_WithID {S}.
Arguments t_Unique {S}.
Arguments t_Guard {S}.

(** ** Identifiers *)
Definition alpha (b : Z) : bool := (b =? 95) || in_range 97 122 b || in_range 65 90 b.
(** A rune outside ASCII is none of these, and so is each of its bytes. *)
Definition isIdentifier (s : string) : bool :=
  match bytes_of s with
  | [] => false
  | b :: bs => alpha b && forallb (fun b => alpha b || in_range 48 57 b) bs
  end.
Definition isLowerIdentifier (s : string) : bool := isIdentifier s && String.eqb s (ToLower s).

(** ** Unique constraints *)
Definition maxIdentifier : Z := 63.
Definition unique_error (note : string) : error := Opaque note.
Definition unique_name (table : string) (columns : list string) : string :=
  (ToLower table ++ "_" ++ Join_strings "_" columns ++ "_key")%string.
Definition checkUnique (table : string) (u : Unique) : option error :=
  if negb (forallb isLowerIdentifier (u_Columns u)) then Some (unique_error "column is not a lower-case SQL identifier")
  else if negb (isLowerIdentifier (u_Name u)) then Some (unique_error "unique is not a lower-case SQL identifier")
  else if (len (u_Columns u) <? 2) || negb (bool_decide (head (u_Columns u) = Some "tenant_id"%string))
  then Some (unique_error "unique has to lead with tenant_id and one more column")
  else if negb (String.eqb (u_Name u) (unique_name table (u_Columns u))) then Some (unique_error "unique has to be named")
  else if maxIdentifier <? len (bytes_of (u_Name u)) then Some (unique_error "unique exceeds 63 bytes")
  else match u_Rejection u with
       | None => Some (unique_error "unique declares no rejection")
       | Some r => if Valid (rej_code r) then None else Some (unique_error "rejection code is not a domain code")
       end.
Fixpoint checkUniques_from (seen : list string) (table : string) (us : list Unique) : option error :=
  match us with
  | [] => None
  | u :: us' =>
      match checkUnique table u with
      | Some e => Some e
      | None =>
          if bool_decide (u_Name u ∈ seen) then Some (unique_error "declares unique twice")
          else checkUniques_from (u_Name u :: seen) table us'
      end
  end.
Definition checkUniques (table : string) (us : list Unique) : option error := checkUniques_from [] table us.

Section Tables.
(** [hashtextextended(_, 0)] of the server. *)
Context (hashtextextended : string -> Z).

(** ** Statements *)
Record statements := mkStatements {
  st_selectOne : string; st_owner : string; st_insert : string; st_update : string; st_exists : string
}.
Definition placeholder (i : nat) : string := ("$" ++ Itoa (Z.of_nat i + 4))%string.

Section OfTable.
Context {S : Type} (t : Table S).
Local Open Scope string_scope.

Fixpoint index_of (column : string) (columns : list string) : option nat :=
  match columns with
  | [] => None
  | c :: cs => if String.eqb c column then Some 0%nat else Datatypes.S <$> index_of column cs
  end.
Definition guardIndex : option nat := index_of (t_Guard t) (t_Columns t).

Definition validate : result error unit :=
  if negb (isIdentifier (t_Name t)) then Panic "Table.Name is not a SQL identifier"
  else if negb (isIdentifier (t_IDColumn t)) then Panic "Table.IDColumn is not a SQL identifier"
  else match t_Columns t, t_Encode t, t_Decode t with
  | [], _, _ => Panic "Table declares no state column"
  | _, None, _ | _, _, None => Panic "Table declares no Encode/Decode pair"
  | columns, Some _, Some _ =>
      match find (fun c => negb (isIdentifier c) || String.eqb c "tenant_id" || String.eqb c "version"
                          || String.eqb c (t_IDColumn t)) columns with
      | Some _ => Panic "Table column is not its own"
      | None =>
          match checkUniques (t_Name t) (t_Unique t) with
          | Some _ => Panic "Table unique"
          | None =>
              if negb (String.eqb (t_Guard t) "") && negb (bool_decide (is_Some guardIndex))
              then Panic "Table Guard is not one of its state columns" else Ok ()
          end
      end
  end.

Definition compile : result error statements :=
  _ ← validate;
  let columns := Join_strings ", " (t_Columns t) in
  let placeholders := imap (fun i _ => placeholder i) (t_Columns t) in
  let assignments := imap (fun i c => c ++ " = " ++ placeholder i) (t_Columns t) in
  let guarded :=
    if String.eqb (t_Guard t) "" then ""
    else match guardIndex with Some i => " AND " ++ t_Guard t ++ " = " ++ placeholder i | None => "" end in
  Ok (mkStatements
    ("SELECT version, " ++ columns ++ " FROM " ++ t_Name t ++ " WHERE tenant_id = $1 AND " ++ t_IDColumn t ++ " = $2")
    ("SELECT tenant_id FROM " ++ t_Name t ++ " WHERE " ++ t_IDColumn t
       ++ " = $1 AND tenant_id <> $2 ORDER BY tenant_id LIMIT 1")
    ("INSERT INTO " ++ t_Name t ++ " (tenant_id, " ++ t_IDColumn t ++ ", version, " ++ columns
       ++ ") VALUES ($1, $2, $3, " ++ Join_strings ", " placeholders ++ ") ON CONFLICT (tenant_id, " ++ t_IDColumn t
       ++ ") DO NOTHING")
    ("UPDATE " ++ t_Name t ++ " SET version = $3 + 1, " ++ Join_strings ", " assignments
       ++ " WHERE tenant_id = $1 AND " ++ t_IDColumn t ++ " = $2 AND version = $3" ++ guarded)
    ("SELECT 1 FROM " ++ t_Name t ++ " WHERE tenant_id = $1 AND " ++ t_IDColumn t ++ " = $2")).

(** The row a statement addresses, and its state columns. *)
Definition row_key (tenant_ : TenantID) (id : string) : tkey := (ToLower (t_Name t), (tenant_, id)).
Definition state_columns (values : list value) : gmap string value :=
  list_to_map (zip (ToLower <$> t_Columns t) values).
Definition scanned (r : trow) : list value := (fun c => default Null (tr_columns r !! ToLower c)) <$> t_Columns t.
Definition guard_column : option string :=
  if String.eqb (t_Guard t) "" then None else Some (ToLower (t_Guard t)).

(** ** The guard's advisory lock *)
Definition unit_separator : string := String (ascii_of_nat 31) "".
(** [length] of a text: the bytes that start a character. *)
Definition text_length (s : string) : Z :=
  len (filter (fun b => ~ (128 <= b < 192)) (bytes_of s)).
Definition guard_key_text (column : string) (tenant_ text : string) : string :=
  Join_strings unit_separator [t_Name t; column; Itoa (text_length tenant_); tenant_; text].
Definition guard_lock (column : string) (tenant_ text : string) : Z :=
  hashtextextended (guard_key_text column tenant_ text).
Definition lock_statement (function : string) : string :=
  "SELECT " ++ function ++ "(hashtextextended(concat_ws(chr(31), '" ++ t_Name t ++ "', '" ++ t_Guard t
    ++ "', length($1::text), $1::text, $2::text), 0))".
Definition shared_statement : string := lock_statement "pg_advisory_xact_lock_shared".
Definition exclusive_statement : string := lock_statement "pg_advisory_xact_lock".
End OfTable.

Definition guardText (v : value) : result error string :=
  match v with Text s => Ok s | _ => Err (Wrap "guard" ErrGuardValue) end.

(** ** What a transaction carries *)
Record savepointPlan := mkPlan { plan_unprepared : bool; plan_pins : bool; plan_pinned : list string }.
Record Tx := mkTx { tx_writes : Z; tx_guarded : bool; tx_plan : savepointPlan }.
Definition inline (p : savepointPlan) (statement : string) : bool :=
  plan_unprepared p || bool_decide (statement ∈ plan_pinned p).
Definition with_guarded (tx : Tx) : Tx := mkTx (tx_writes tx) true (tx_plan tx).
Definition with_plan (tx : Tx) (p : savepointPlan) : Tx := mkTx (tx_writes tx) (tx_guarded tx) p.
Definition one_more_write (tx : Tx) : Tx := mkTx (tx_writes tx + 1) (tx_guarded tx) (tx_plan tx).

Definition lockFailed (f : failure) (lock : string) : bool :=
  match f with Preprocessing sql _ => String.eqb sql lock | _ => true end.
(** The driver's error of a batch, unwrapped. *)
Definition unbatched (f : failure) : error := driver_error f.
Definition conflictOnDeadlock {A} (tx : Tx) (r : result error A) : result error A :=
  match r with
  | Err e =>
      if tx_guarded tx && bool_decide (as_sql_state e = Some deadlockDetected)
      then Err (Join "" [ErrVersionConflict; e]) else r
  | _ => r
  end.

Definition tenantOf (ctx : Ctx) : result error TenantID :=
  execution ← RequireExecutionContext ctx;
  match Tenant execution with
  | None => Err ErrTenantUnresolved
  | Some tenant_ => Ok tenant_
  end.

(** * Reading *)
Section Reading.
Context {S : Type} (t : Table S).

Definition identify (state : S) (id : string) : S :=
  match t_WithID t with None => state | Some with_id => with_id state id end.
Definition decode_row (r : trow) : result error S :=
  match t_Decode t with
  | Some decode => decode (scanned t r)
  | None => Panic "nil function"
  end.
Definition loadAs (tenant_ : TenantID) (id : string) : prog (result error (option (S * Version))) :=
  answer ← stmt_ (SelectRow (row_key t tenant_ id));
  mret match answer with
  | inr None => Ok None
  | inl f => Err (Wrap "load" (driver_error f))
  | inr (Some r) =>
      match decode_row r with
      | Ok state => Ok (Some (identify state id, wrapu64 (tr_version r)))
      | Err e => Err (Wrap "load" e)
      | Panic w => Panic w
      end
  end.
Definition miss (tenant_ : TenantID) (id : string) : prog error :=
  answer ← stmt_ (OwnerOf (row_key t tenant_ id));
  mret match answer with
  | inr None => ErrNotFound
  | inl f => Wrap "probe owner" (driver_error f)
  | inr (Some owner) => CrossTenantAccess (t_Name t ++ "/" ++ id)%string tenant_ owner
  end.
Definition load (ctx : Ctx) (id : string) : prog (result error (S * Version)) :=
  match tenantOf ctx with
  | Err e => mret (Err e)
  | Panic w => mret (Panic w)
  | Ok tenant_ =>
      answer ← loadAs tenant_ id;
      match answer with
      | Ok None => e ← miss tenant_ id; mret (Err e)
      | Ok (Some sv) => mret (Ok sv)
      | Err e => mret (Err e)
      | Panic w => mret (Panic w)
      end
  end.

(** [tableReader] and [tableRepository]. *)
Definition Reader_Load (ctx : Ctx) (id : string) : prog (result error (S * Version)) := load ctx id.
Definition Repository_Load (tx : Tx) (ctx : Ctx) (id : string) : prog (result error (S * Version)) :=
  answer ← load ctx id; mret (conflictOnDeadlock tx answer).

(** ** Relations *)
(** [%v] of a value; bytes print as the list of their numbers. *)
Definition value_text (v : value) : string :=
  match v with
  | Null => "<nil>"
  | Text s => s
  | Int z => Itoa z
  | Blob b => "[" ++ Join_strings " " (Itoa <$> b) ++ "]"
  end.
Record Relation := mkRelation { rel_filter : string; rel_lock : option string }.
Definition relation (filterColumn : string) : result error Relation :=
  if negb (isIdentifier filterColumn) then Panic "relation column is not a SQL identifier"
  else
    _ ← validate t;
    Ok (mkRelation filterColumn
      (if negb (String.eqb (t_Guard t) "") && String.eqb filterColumn (t_Guard t)
       then Some (shared_statement t) else None)).

Fixpoint decode_rows (rows : list (string * trow)) : result error (list S) :=
  match rows with
  | [] => Ok []
  | (id, r) :: rows' =>
      match decode_row r with
      | Ok state => rest ← decode_rows rows'; Ok (identify state id :: rest)
      | Err e => Err (Wrap "scan" e)
      | Panic w => Panic w
      end
  end.
Definition relation_miss (r : Relation) (tenant_ : TenantID) (v : value) : prog (result error (list S)) :=
  answer ← stmt_ (OwnerWhere (ToLower (t_Name t)) (ToLower (rel_filter r)) v tenant_);
  mret match answer with
  | inr None => Ok []
  | inl f => Err (Wrap "probe owner" (driver_error f))
  | inr (Some owner) => Err (CrossTenantAccess (t_Name t ++ "?" ++ rel_filter r ++ "=" ++ value_text v)%string tenant_ owner)
  end.
Definition collected (r : Relation) (tenant_ : TenantID) (v : value) (note : string)
    (answer : failure + list (string * trow)) : prog (result error (list S)) :=
  match answer with
  | inl f => mret (Err (Wrap note (driver_error f)))
  | inr rows =>
      match decode_rows rows with
      | Ok [] => relation_miss r tenant_ v
      | other => mret other
      end
  end.
Definition Query (r : Relation) (ctx : Ctx) (v : value) : prog (result error (list S)) :=
  match tenantOf ctx with
  | Err e => mret (Err e)
  | Panic w => mret (Panic w)
  | Ok tenant_ =>
      answer ← stmt_ (SelectWhere (ToLower (t_Name t)) tenant_ (ToLower (rel_filter r)) v);
      collected r tenant_ v "query" answer
  end.
Definition guardedRead (r : Relation) (lock : string) (tenant_ : TenantID) (text : string)
    : prog (result error (list S)) :=
  locked ← stmt_ (LockShared (guard_lock t (rel_filter r) tenant_ text));
  match locked with
  | inl f => mret (Err (Wrap (if lockFailed f lock then "guard" else "query") (unbatched f)))
  | inr _ =>
      answer ← stmt_ (SelectWhere (ToLower (t_Name t)) tenant_ (ToLower (rel_filter r)) (Text text));
      collected r tenant_ (Text text) "query" answer
  end.
Definition QueryWithin (r : Relation) (tx : Tx) (ctx : Ctx) (v : value) : prog (result error (list S) * Tx) :=
  match rel_lock r with
  | None => mret (Panic "relation column is not its Guard", tx)
  | Some lock =>
      match (tenant_ ← tenantOf ctx; text ← guardText v; Ok (tenant_, text)) with
      | Err e => mret (Err e, tx)
      | Panic w => mret (Panic w, tx)
      | Ok (tenant_, text) =>
          let tx' := with_guarded tx in
          answer ← guardedRead r lock tenant_ text;
          mret (conflictOnDeadlock tx' answer, tx')
      end
  end.
End Reading.

(** * Writing *)
Section Writing.
Context {S : Type} (t : Table S).

Definition declared (name : string) : option Unique := find (fun u => String.eqb (u_Name u) name) (t_Unique t).

Definition settle (tx : Tx) (affected : Z) : result error unit * Tx :=
  if affected =? 0 then (Err ErrVersionConflict, tx) else (Ok (), one_more_write tx).

(** The write of a [Save]: its statement and what it takes. *)
Record write := mkWrite { wr_key : tkey; wr_expected : Version; wr_columns : gmap string value }.
Definition write_stmt (w : write) : stmt Z :=
  if wr_expected w =? 0 then InsertRow (wr_key w) (wr_columns w)
  else UpdateRow (wr_key w) (wrap64 (wr_expected w)) (guard_column t) (wr_columns w).
Definition write_text (stmts : statements) (w : write) : string :=
  if wr_expected w =? 0 then st_insert stmts else st_update stmts.

Definition identityTaken (k : tkey) : prog (result error bool) :=
  answer ← stmt_ (ExistsRow k);
  mret match answer with inl f => Err (Wrap "probe identity" (driver_error f)) | inr b => Ok b end.

Definition translate (tx : Tx) (w : write) (cause : failure) (failed : error) : prog error :=
  match cause with
  | PgError code table constraint_ =>
      if String.eqb code uniqueViolation && String.eqb table (ToLower (t_Name t)) then
        let violation r := Join "save" [UniqueViolation (t_Name t) constraint_ r; driver_error cause] in
        match declared constraint_ with
        | None => mret (violation None)
        | Some u =>
            taken ← (if wr_expected w =? 0 then identityTaken (wr_key w) else mret (Ok false));
            mret match taken with
            | Err e => Join "" [failed; e]
            | Ok true => ErrVersionConflict
            | _ => violation (if tx_writes tx =? 0 then u_Rejection u else None)
            end
        end
      else mret failed
  | _ => mret failed
  end.
Definition undo (tx : Tx) (w : write) (cause : failure) : prog error :=
  let failed := Wrap "save" (unbatched cause) in
  answer ← stmt_ RollbackTo;
  match answer with
  | inl f => mret (Join "" [failed; Wrap "rollback to savepoint" (driver_error f)])
  | inr _ => translate tx w cause failed
  end.
Definition unopened (f : failure) : error := Wrap "save: savepoint" (unbatched f).

(** The statements prepared by name, the first failure stopping them. *)
Fixpoint prepare_all (sqls : list string) : prog (option failure) :=
  match sqls with
  | [] => mret None
  | sql :: sqls' =>
      answer ← stmt_ (Prepare sql);
      match answer with inl f => mret (Some f) | inr _ => prepare_all sqls' end
  end.
Definition openSavepoint : string := "SAVEPOINT dmpf_unique".
Definition releaseSavepoint : string := "RELEASE SAVEPOINT dmpf_unique".
Definition pin (p : savepointPlan) (statement : string) (guard : option string) : prog (option failure * savepointPlan) :=
  if negb (plan_pins p) then mret (None, p)
  else
    failed ← prepare_all ([statement; openSavepoint; releaseSavepoint] ++ option_list guard);
    mret (failed, match failed with
                  | Some _ => p
                  | None => mkPlan (plan_unprepared p) (plan_pins p) (statement :: plan_pinned p)
                  end).

(** The guard of a write, taken before it: its statement's failure. *)
Definition take_guard (guard : option Z) : prog (option failure) :=
  match guard with
  | None => mret None
  | Some h => answer ← stmt_ (LockExclusive h); mret match answer with inl f => Some f | inr _ => None end
  end.
(** The write and the release that follows it in the batch. *)
Definition write_and_release (tx : Tx) (w : write) : prog (result error unit * Tx) :=
  answer ← stmt_ (write_stmt w);
  match answer with
  | inl f => e ← undo tx w f; mret (Err e, tx)
  | inr affected =>
      released ← stmt_ Release;
      mret match released with
      | inl f => (Err (Wrap "release savepoint" (driver_error f)), tx)
      | inr _ => settle tx affected
      end
  end.
Definition saveUnderSavepoint (stmts : statements) (tx : Tx) (w : write) (guard : option Z)
    : prog (result error unit * Tx) :=
  let statement := write_text stmts w in
  let lock_text := exclusive_statement t in
  let guard_text := (fun _ => lock_text) <$> guard in
  locked ← take_guard guard;
  match locked with
  | Some f =>
      if inline (tx_plan tx) statement && negb (lockFailed f lock_text)
      then mret (Err (unopened f), tx)
      else mret (Err (Wrap "guard" (unbatched f)), tx)
  | None =>
      opened ← stmt_ Savepoint;
      match opened with
      | inl f => mret (Err (unopened f), tx)
      | inr _ =>
          if inline (tx_plan tx) statement then write_and_release tx w
          else
            '(pinning, plan) ← pin (tx_plan tx) statement guard_text;
            match pinning with
            | Some f => e ← undo tx w f; mret (Err e, tx)
            | None => write_and_release (with_plan tx plan) w
            end
      end
  end.
Definition saveGuarded (tx : Tx) (w : write) (h : Z) : prog (result error unit * Tx) :=
  locked ← stmt_ (LockExclusive h);
  match locked with
  | inl f => mret (Err (Wrap (if lockFailed f (exclusive_statement t) then "guard" else "save") (unbatched f)), tx)
  | inr _ =>
      answer ← stmt_ (write_stmt w);
      mret match answer with
      | inl f => (Err (Wrap "save" (unbatched f)), tx)
      | inr affected => settle tx affected
      end
  end.

(** The guard's lock over the values of a write. *)
Definition guard_of (tenant_ : TenantID) (values : list value) : result error (option Z) :=
  if String.eqb (t_Guard t) "" then Ok None
  else match guardIndex t with
       | None => Panic "index out of range"
       | Some i =>
           match values !! i with
           | None => Panic "index out of range"
           | Some v => text ← guardText v; Ok (Some (guard_lock t (t_Guard t) tenant_ text))
           end
       end.
Definition written (tx : Tx) (answer : failure + Z) : result error unit * Tx :=
  match answer with
  | inl f => (Err (Wrap "save" (driver_error f)), tx)
  | inr affected => settle tx affected
  end.
Definition saveAs (stmts : statements) (tx : Tx) (tenant_ : TenantID) (id : string) (state : S) (expected : Version)
    : prog (result error unit * Tx) :=
  match t_Encode t with
  | None => mret (Panic "nil function", tx)
  | Some encode =>
      match encode state with
      | Panic w => mret (Panic w, tx)
      | Err e => mret (Err (Wrap "encode" e), tx)
      | Ok values =>
          if negb (len values =? len (t_Columns t)) then mret (Err (Opaque "encode: values for columns"), tx)
          else
            let w := mkWrite (row_key t tenant_ id) expected (state_columns t values) in
            match guard_of tenant_ values with
            | Panic p => mret (Panic p, tx)
            | Err e => mret (Err (Wrap "save" e), tx)
            | Ok guard =>
                let tx := if guard then with_guarded tx else tx in
                '(answer, tx') ←
                  match t_Unique t, guard with
                  | _ :: _, _ => saveUnderSavepoint stmts tx w guard
                  | [], Some h => saveGuarded tx w h
                  | [], None => answer ← stmt_ (write_stmt w); mret (written tx answer)
                  end;
                mret (conflictOnDeadlock tx' answer, tx')
            end
      end
  end.
Definition Save (stmts : statements) (tx : Tx) (ctx : Ctx) (id : string) (state : S) (expected : Version)
    : prog (result error unit * Tx) :=
  match tenantOf ctx with
  | Err e => mret (Err e, tx)
  | Panic w => mret (Panic w, tx)
  | Ok tenant_ => saveAs stmts tx tenant_ id state expected
  end.
End Writing.
End Tables.

(** * The unit of work

    What ends the transaction after its callback: an answer other than nil rolls
    it back, nil commits it. [lost] is the error the driver answers to that, if
    any, and whether a commit reached the server nonetheless. *)
Definition ErrTxCommitRollback : error := Sentinel "pgx.ErrTxCommitRollback".
Definition commit_tx (t : nat) (s : server) : result error unit * server :=
  match sv_sessions s !! t with
  | Some x => if se_aborted x then (Err ErrTxCommitRollback, close t s) else (Ok (), commit t s)
  | None => (Err (Sentinel "pgx.ErrTxClosed"), s)
  end.
Definition Within_end (t : nat) (answer : result error unit) (lost : option (error * bool)) (s : server)
    : result error unit * server :=
  match answer, lost with
  | Ok _, None => commit_tx t s
  | Ok _, Some (e, arrived) => (Err e, if arrived : bool then (commit_tx t s).2 else close t s)
  | Err e, None => (Err e, close t s)
  | Err e, Some (e', _) => (Err (Join "" [e; e']), close t s)
  | Panic w, _ => (Panic w, close t s)
  end.

(** The inbox over Postgres ([postgres/inbox.go], the inbox statements of
    [purge.go]): a reception is the insert that takes the row, a repetition the
    row another transaction committed. *)

Definition ErrInboxConsumerRequired : error := Sentinel "postgres.ErrInboxConsumerRequired".
Definition ErrInboxConsumerMismatch : error := Sentinel "postgres.ErrInboxConsumerMismatch".
Definition ErrAlreadyCompleted : error := Sentinel "postgres.ErrAlreadyCompleted".
Definition ErrInvalidCompletion : error := Sentinel "postgres.ErrInvalidCompletion".
Definition ErrCommandExpiryRequired : error := Sentinel "postgres.ErrCommandExpiryRequired".
Definition ErrPurgeBatchRequired : error := Sentinel "postgres.ErrPurgeBatchRequired".

(** * The wait of a registration *)
Definition commandDeadlineMargin : Z := 100000000.
Definition tighter (wait ceiling : Z) : Z := if (wait <=? 0) || (ceiling <? wait) then ceiling else wait.
(** [now] is what [time.Until] reads. *)
Definition commandWait (ctx : Ctx) (now : Instant) (bound : Z) (r : Receipt) : Z :=
  let wait := if 0 <? rcp_WaitUntil r then tighter bound (rcp_WaitUntil r -! rcp_ReceivedAt r) else bound in
  let wait :=
    match ctx_Deadline ctx with
    | Some deadline => tighter wait (time_sub deadline now -! commandDeadlineMargin)
    | None => wait
    end in
  Z.max wait Millisecond.

(** * Register *)
Record inbox := mkInbox { in_consumer : string; in_wait : Z; in_commands : bool }.
Record pending := mkPending { pe_key : ikey; pe_completed : bool }.
Inductive reception := First (p : pending) | Processed (stored : bytes) | Rejected (stored : bytes) | Collision.

Definition isLockTimeout (f : failure) : bool := bool_decide (state_of f = Some lockNotAvailable).
Definition command_id (tenant_ : TenantID) (id : MessageID) : string := (tenant_ ++ "/" ++ id)%string.

(** The row an insert writes: provisionally processed. *)
Definition provisional (r : Receipt) (expires : option Instant) : irow :=
  mkIrow (rcp_MessageType r) (rcp_PayloadHash r) (rcp_ReceivedAt r) (rcp_ReceivedAt r) StatusProcessed None None expires.

(** The key of a receipt, its insert and how long it may wait. *)
Record registration := mkRegistration { rg_key : ikey; rg_insert : stmt Z; rg_wait : Z }.
Definition registration_of (i : inbox) (ctx : Ctx) (now : Instant) (r : Receipt) : result error registration :=
  if String.eqb (in_consumer i) "" then Err ErrInboxConsumerRequired
  else if negb (String.eqb (rcp_Consumer r) (in_consumer i)) then Err ErrInboxConsumerMismatch
  else if in_commands i then
    if rcp_ExpiresAt r <=? rcp_ReceivedAt r then Err ErrCommandExpiryRequired
    else
      tenant_ ← tenantOf ctx;
      let k := (in_consumer i, command_id tenant_ (rcp_MessageID r)) in
      Ok (mkRegistration k (InsertCommand k (provisional r (Some (rcp_ExpiresAt r)))) (commandWait ctx now (in_wait i) r))
  else
    let k := (in_consumer i, rcp_MessageID r) in
    Ok (mkRegistration k (InsertInbox k (provisional r None)) (in_wait i)).

Definition repeated (hash : string) (row : option irow) : result error reception :=
  match row with
  | None => Err (Opaque "postgres: inbox row absent after conflict")
  | Some row =>
      if negb (String.eqb (ib_hash row) hash) then Ok Collision
      else if bool_decide (ib_status row = StatusProcessed) then Ok (Processed (default [] (ib_outcome row)))
      else Ok (Rejected (default [] (ib_outcome row)))
  end.
(** A statement the registration needs, unless it is not to wait. *)
Definition when_waiting (wait : Z) (st : stmt unit) : prog (option failure) :=
  if 0 <? wait then answer ← stmt_ st; mret match answer with inl f => Some f | inr _ => None end
  else mret None.
Definition Register (i : inbox) (ctx : Ctx) (now : Instant) (r : Receipt) : prog (result error reception) :=
  match registration_of i ctx now r with
  | Err e => mret (Err e)
  | Panic w => mret (Panic w)
  | Ok g =>
      set ← when_waiting (rg_wait g) (SetLockTimeout (Z.quot (rg_wait g) Millisecond));
      match set with
      | Some f => mret (Err (driver_error f))
      | None =>
          inserted ← stmt_ (rg_insert g);
          match inserted with
          | inl f =>
              mret (Err (if isLockTimeout f then Join "" [ErrRegisterTimeout; driver_error f] else driver_error f))
          | inr affected =>
              reset ← when_waiting (rg_wait g) ResetLockTimeout;
              match reset with
              | Some f => mret (Err (driver_error f))
              | None =>
                  if affected =? 1 then mret (Ok (First (mkPending (rg_key g) false)))
                  else
                    stored ← stmt_ (SelectInbox (rg_key g));
                    mret match stored with
                    | inl f => Err (driver_error f)
                    | inr row => repeated (rcp_PayloadHash r) row
                    end
              end
          end
      end
  end.

(** * Complete *)
Definition Complete (p : pending) (c : Completion) : prog (result error unit * pending) :=
  if pe_completed p then mret (Err ErrAlreadyCompleted, p)
  else if negb (bool_decide (cmp_Status c = StatusProcessed)) && negb (bool_decide (cmp_Status c = StatusRejected))
  then mret (Err ErrInvalidCompletion, p)
  else
    let last_error := if String.eqb (cmp_LastError c) "" then None else Some (cmp_LastError c) in
    answer ← stmt_ (UpdateInbox (pe_key p) (cmp_Status c) (cmp_At c) last_error (Some (cmp_Outcome c)));
    mret match answer with
    | inl f => (Err (driver_error f), p)
    | inr affected =>
        if affected =? 1 then (Ok (), mkPending (pe_key p) true)
        else (Err (Opaque "postgres: inbox update affected other than 1 row"), p)
    end.

(** * Purge *)
Record InboxPurge := mkInboxPurge { ip_Consumer : string; ip_Removed : Z; ip_Before : Instant }.
(** The rows a batch may take: of the consumer, old enough, held by no session;
    the server picks among them. *)
Definition purgeable_inbox (old : irow -> bool) (consumer : string) (s : server) (k : ikey) : bool :=
  String.eqb k.1 consumer &&
  match sv_inbox s !! k with Some r => old r | None => false end &&
  negb (existsb (fun n => bool_decide (is_Some (sn_inbox n !! k)))
          (map_to_list (sv_sessions s) ≫= (fun tx => held tx.2))).
Definition delete_inbox (old : irow -> bool) (consumer : string) (batch : Z) (picked : list ikey) (s : server)
    : Z * server :=
  let gone := take (Z.to_nat batch) (filter (fun k => purgeable_inbox old consumer s k = true) (remove_dups picked)) in
  (len gone, mkServer (sv_rows s) (foldr delete (sv_inbox s) gone) (sv_sessions s)).
Definition purge_inbox (old : irow -> bool) (consumer : string) (before : Instant) (batch : Z)
    (answer : option error) (picked : list ikey) (s : server) : result error InboxPurge * server :=
  if String.eqb consumer "" then (Err ErrInboxConsumerRequired, s)
  else if batch <=? 0 then (Err ErrPurgeBatchRequired, s)
  else match answer with
  | Some e => (Err e, s)
  | None => let '(removed, s') := delete_inbox old consumer batch picked s in
            (Ok (mkInboxPurge consumer removed before), s')
  end.
Definition PurgeInbox (consumer : string) (before : Instant) := purge_inbox (fun r => ib_processed_at r <? before) consumer before.
Definition PurgeExpiredInbox (consumer : string) (now : Instant) :=
  purge_inbox (fun r => match ib_expires_at r with Some e => e <=? now | None => false end) consumer now.
