(* ===== verification/ObjectStore.v ===== *)
(** Objects under retention: the port ([ports/objectstore.go]), the rules of
    [s3/internal/worm/rules.go] and the in-memory bucket of
    [memory/objectstore.go].

    The bucket's mutex makes what a call does under it one step. A call reads the
    clock before it takes the lock, so an operation takes the instant it read and
    the bucket it finds; [dead] is what [ctx.Err] answers under the lock. *)

From S2P Require Import Prelude GoStrings GoSlices DomainKernel Errors Ports.

(** * The port *)
Notation Scope := string (only parsing).
Definition ScopeTenant : Scope := "tenant".
Definition ScopePlatform : Scope := "platform".

Definition ErrObjectKeyInvalid : error := Sentinel "ports.ErrObjectKeyInvalid".
Definition ErrVersionRequired : error := Sentinel "ports.ErrVersionRequired".
Definition ErrIntegrity : error := Sentinel "ports.ErrIntegrity".
Definition ErrRetentionUnbounded : error := Sentinel "ports.ErrRetentionUnbounded".
Definition ErrRetentionAboveCeiling : error := Sentinel "ports.ErrRetentionAboveCeiling".
Definition ErrRetentionNotExtended : error := Sentinel "ports.ErrRetentionNotExtended".
Definition ErrRetentionModeChange : error := Sentinel "ports.ErrRetentionModeChange".
Definition ErrRetentionModeUnknown : error := Sentinel "ports.ErrRetentionModeUnknown".
Definition ErrObjectLocked : error := Sentinel "ports.ErrObjectLocked".
Definition ErrScopeMismatch : error := Sentinel "ports.ErrScopeMismatch".
Definition ErrScopeUndeclared : error := Sentinel "ports.ErrScopeUndeclared".
Definition ErrEncryptionUndeclared : error := Sentinel "ports.ErrEncryptionUndeclared".
Definition ErrRetentionCeilingUndeclared : error := Sentinel "ports.ErrRetentionCeilingUndeclared".
Definition ErrLegalHoldReasonRequired : error := Sentinel "ports.ErrLegalHoldReasonRequired".
(** [objectNotFound] unwraps to [ErrNotFound]. *)
Definition ErrObjectNotFound : error := Wrap "ports: object version not found" ErrNotFound.

Notation ObjectKey := string (only parsing).
Notation VersionID := string (only parsing).
Definition dot_segment (segment : string) : bool := String.eqb segment "." || String.eqb segment "..".
Definition ObjectKey_Validate (k : ObjectKey) : result error unit :=
  if String.eqb k "" then Err (Wrap "empty" ErrObjectKeyInvalid)
  else if HasPrefix k "/" then Err (Wrap "leading slash" ErrObjectKeyInvalid)
  else if existsb dot_segment (split_on "/" k) then Err (Wrap "dot segment" ErrObjectKeyInvalid)
  else Ok ().

Record ObjectRef := mkRef { ref_Key : ObjectKey; ref_Version : VersionID }.
Notation RetentionMode := string (only parsing).
Definition RetentionCompliance : RetentionMode := "COMPLIANCE".
Definition RetentionGovernance : RetentionMode := "GOVERNANCE".
Definition Known (m : RetentionMode) : bool := String.eqb m RetentionCompliance || String.eqb m RetentionGovernance.
Record Retention := mkRetention { rt_Mode : RetentionMode; rt_Until : Instant }.
#[global] Instance Retention_eq_dec : EqDecision Retention.
Proof. solve_decision. Defined.

(** [RetentionSpan.Add]: the sum, unless it leaves the range. *)
Definition span_Add (s : Z) (at_ : Instant) : option Instant :=
  let sum := at_ +! s in
  if ((0 <? s) && (sum <? at_)) || ((s <? 0) && (at_ <? sum)) then None else Some sum.
Record RetentionCeiling := mkCeiling { ce_Span : Z; ce_Origin : string }.
Record Encryption := mkEncryption { en_Algorithm : string; en_KeyRef : string }.
Record ObjectStoreDeclaration := mkDeclaration {
  de_Scope : Scope; de_Encryption : Encryption; de_Ceiling : option RetentionCeiling
}.
Definition Declaration_Validate (d : ObjectStoreDeclaration) : result error unit :=
  if negb (String.eqb (de_Scope d) ScopeTenant) && negb (String.eqb (de_Scope d) ScopePlatform) then
    Err (if String.eqb (de_Scope d) "" then ErrScopeUndeclared else Wrap "unknown scope" ErrScopeUndeclared)
  else if String.eqb (en_Algorithm (de_Encryption d)) "" then Err ErrEncryptionUndeclared
  else match de_Ceiling d with
       | None => Ok ()
       | Some c =>
           if ce_Span c <=? 0 then Err (Wrap "ceiling span must be positive" ErrRetentionCeilingUndeclared)
           else if String.eqb (ce_Origin c) "" then Err (Wrap "ceiling origin is required" ErrRetentionCeilingUndeclared)
           else Ok ()
       end.

Record PutRequest := mkPutRequest {
  put_Key : ObjectKey; put_Body : bytes; put_ContentSHA256 : string; put_ContentType : string;
  put_Retention : option Retention
}.
Record ObjectVersion := mkVersion {
  ov_Key : ObjectKey; ov_Version : VersionID; ov_ContentSHA256 : string; ov_Size : Z; ov_StoredAt : Instant
}.
Definition Ref (v : ObjectVersion) : ObjectRef := mkRef (ov_Key v) (ov_Version v).
Record ObjectInfo := mkInfo {
  oi_Version : ObjectVersion; oi_ContentType : string; oi_Retention : option Retention; oi_LegalHold : bool;
  oi_Encryption : Encryption
}.
Record Object_ := mkObject { ob_Info : ObjectInfo; ob_Body : bytes }.
Record LegalHold := mkHold { lh_On : bool; lh_Reason : string }.
Record HoldReceipt := mkHoldReceipt { hr_Ref : ObjectRef; hr_On : bool; hr_Reason : string; hr_At : Instant }.
Record PurgeReceipt := mkPurgeReceipt { pr_Ref : ObjectRef; pr_PurgedAt : Instant; pr_RetainedUntil : Instant }.
Definition with_retention (i : ObjectInfo) (r : option Retention) : ObjectInfo :=
  mkInfo (oi_Version i) (oi_ContentType i) r (oi_LegalHold i) (oi_Encryption i).
Definition with_hold (i : ObjectInfo) (on : bool) : ObjectInfo :=
  mkInfo (oi_Version i) (oi_ContentType i) (oi_Retention i) on (oi_Encryption i).

(** * The rules the S3 store and its administration share *)
Definition retentionResolution : Z := 1000000000.
Definition WholeSeconds (r : Retention) : Retention :=
  mkRetention (rt_Mode r) (rt_Until r - Z.rem (rt_Until r) retentionResolution).
Definition promotes (current to_ : Retention) : bool :=
  String.eqb (rt_Mode current) RetentionGovernance && String.eqb (rt_Mode to_) RetentionCompliance.

Module Worm.
Definition ErrCarrierTenantUnresolved : error := Sentinel "s3.ErrCarrierTenantUnresolved".
Definition Physical (ctx : Ctx) (scope : Scope) (key : ObjectKey) : result error string :=
  match ctx_Err ctx with
  | Some e => Err e
  | None =>
      execution ← RequireExecutionContext ctx;
      if String.eqb scope ScopePlatform then
        match Tenant execution with
        | Some _ => Err ErrScopeMismatch
        | None => Ok ("platform/" ++ key)%string
        end
      else match Tenant execution with
           | None => Err ErrCarrierTenantUnresolved
           | Some tenant_ =>
               if contains "/" tenant_ || dot_segment tenant_ then Err ErrCarrierTenantUnresolved
               else Ok ("tenant/" ++ tenant_ ++ "/" ++ key)%string
           end
  end.
Definition Locate (ctx : Ctx) (scope : Scope) (ref : ObjectRef) : result error string :=
  if String.eqb (ref_Version ref) "" then Err ErrVersionRequired
  else
    _ ← ObjectKey_Validate (ref_Key ref);
    Physical ctx scope (ref_Key ref).
Definition CheckRetention (now : Instant) (ceiling : option RetentionCeiling) (r : Retention) : result error unit :=
  match ceiling with
  | None => Err ErrRetentionCeilingUndeclared
  | Some c =>
      if negb (Known (rt_Mode r)) then Err (Wrap "mode" ErrRetentionModeUnknown)
      else if rt_Until r <=? now then Err ErrRetentionUnbounded
      else match span_Add (ce_Span c) now with
           | Some limit => if limit <? rt_Until r then Err ErrRetentionAboveCeiling else Ok ()
           | None => Ok ()
           end
  end.
Definition CheckChange (now : Instant) (current : option Retention) (to_ : Retention) : result error unit :=
  match current with
  | None => Ok ()
  | Some c =>
      if rt_Until c <=? now then Ok ()
      else if String.eqb (rt_Mode c) RetentionCompliance && String.eqb (rt_Mode to_) RetentionGovernance
      then Err ErrRetentionModeChange
      else if (rt_Until to_ <? rt_Until c) || ((rt_Until to_ =? rt_Until c) && negb (promotes c to_))
      then Err ErrRetentionNotExtended
      else Ok ()
  end.
Definition Purgeable (now : Instant) (current : option Retention) (hold : bool) : result error Instant :=
  if hold then Err ErrObjectLocked
  else match current with
       | None => Ok 0
       | Some r => if now <? rt_Until r then Err ErrObjectLocked else Ok (rt_Until r)
       end.
End Worm.

(** * The bucket in memory *)
Definition ErrIncompleteObjectStore : error := Sentinel "memory.ErrIncompleteObjectStore".
Definition ErrTenantUnresolved : error := Sentinel "memory.ErrTenantUnresolved".
(** Physical key and version. *)
Notation objectAddress := (string * string)%type (only parsing).
Record storedVersion := mkStored { so_info : ObjectInfo; so_body : bytes }.
Record ObjectBucket := mkBucket { bk_versions : gmap objectAddress storedVersion; bk_issued : Z }.
Definition NewObjectBucket : ObjectBucket := mkBucket ∅ 0.

Fixpoint compact (l : list string) : list string :=
  match l with
  | a :: ((b :: _) as l') => if String.eqb a b then compact l' else a :: compact l'
  | _ => l
  end.
Definition PhysicalKeys (b : ObjectBucket) : list string :=
  compact (sort_Strings ((map_to_list (bk_versions b)).*1.*1)).

(** [fmt.Sprintf("v-%06d", n)] *)
Definition padded (n : Z) : list Z := replicate (6 - length (digits n)) 0 ++ digits n.
Definition version_id (n : Z) : VersionID := ("v-" ++ string_of (digit_char <$> padded n))%string.

Definition acquire (dead : option error) : result error unit :=
  match dead with Some e => Err e | None => Ok () end.

Section Store.
(** [sha256.Sum256] in hexadecimal. *)
Context (sha256_hex : bytes -> string).
Context (decl : ObjectStoreDeclaration).

Definition NewObjectStore (clock : bool) : result error ObjectStoreDeclaration :=
  if negb clock then Err ErrIncompleteObjectStore else _ ← Declaration_Validate decl; Ok decl.

Definition physical (ctx : Ctx) (key : ObjectKey) : result error string :=
  match ctx_Err ctx with
  | Some e => Err e
  | None =>
      execution ← RequireExecutionContext ctx;
      if String.eqb (de_Scope decl) ScopePlatform then
        match Tenant execution with
        | Some _ => Err ErrScopeMismatch
        | None => Ok ("platform/" ++ key)%string
        end
      else match Tenant execution with
           | None => Err ErrTenantUnresolved
           | Some tenant_ =>
               if contains "/" tenant_ then Err ErrTenantUnresolved
               else Ok ("tenant/" ++ tenant_ ++ "/" ++ key)%string
           end
  end.
Definition locate (ctx : Ctx) (ref : ObjectRef) : result error objectAddress :=
  if String.eqb (ref_Version ref) "" then Err ErrVersionRequired
  else
    _ ← ObjectKey_Validate (ref_Key ref);
    key ← physical ctx (ref_Key ref);
    Ok (key, ref_Version ref).
Definition checkRetention (now : Instant) (r : Retention) : result error unit :=
  match de_Ceiling decl with
  | None => Err ErrRetentionCeilingUndeclared
  | Some c =>
      if negb (Known (rt_Mode r)) then Err (Wrap "mode" ErrRetentionModeUnknown)
      else if rt_Until r <=? now then Err ErrRetentionUnbounded
      else match span_Add (ce_Span c) now with
           | Some ceiling => if ceiling <? rt_Until r then Err ErrRetentionAboveCeiling else Ok ()
           | None => Ok ()
           end
  end.
Definition datedRetention (now : Instant) (r : option Retention) : result error (option Retention) :=
  match r with
  | None => Ok None
  | Some r => let dated := WholeSeconds r in _ ← checkRetention now dated; Ok (Some dated)
  end.

Section Call.
Context (ctx : Ctx) (now : Instant) (dead : option error) (b : ObjectBucket).
Definition answers {A} (r : result error (A * ObjectBucket)) : result error A * ObjectBucket :=
  match r with
  | Ok (a, b') => (Ok a, b')
  | Err e => (Err e, b)
  | Panic w => (Panic w, b)
  end.
Definition put_version (address : objectAddress) (v : storedVersion) (issued : Z) : ObjectBucket :=
  mkBucket (<[address := v]> (bk_versions b)) issued.
(** The version a call is about, under the lock. *)
Definition stored_at (address : objectAddress) : result error storedVersion :=
  _ ← acquire dead;
  match bk_versions b !! address with Some v => Ok v | None => Err ErrObjectNotFound end.

Definition Put (req : PutRequest) : result error ObjectVersion * ObjectBucket :=
  answers (
    _ ← ObjectKey_Validate (put_Key req);
    key ← physical ctx (put_Key req);
    let digest := sha256_hex (put_Body req) in
    if negb (String.eqb (put_ContentSHA256 req) digest) then Err ErrIntegrity
    else
      retention ← datedRetention now (put_Retention req);
      _ ← acquire dead;
      let issued := bk_issued b +! 1 in
      let version := mkVersion (put_Key req) (version_id issued) digest (len (put_Body req)) now in
      Ok (version, put_version (key, ov_Version version)
        (mkStored (mkInfo version (put_ContentType req) retention false (de_Encryption decl)) (put_Body req)) issued)).
Definition Get (ref : ObjectRef) : result error Object_ * ObjectBucket :=
  answers (
    address ← locate ctx ref;
    stored ← stored_at address;
    Ok (mkObject (so_info stored) (so_body stored), b)).
Definition Head (ref : ObjectRef) : result error ObjectInfo * ObjectBucket :=
  answers (
    address ← locate ctx ref;
    stored ← stored_at address;
    Ok (so_info stored, b)).
Definition retained (stored : storedVersion) (to_ : Retention) : result error ObjectInfo :=
  let info := with_retention (so_info stored) (Some to_) in
  match oi_Retention (so_info stored) with
  | Some current =>
      if now <? rt_Until current then
        if String.eqb (rt_Mode current) RetentionCompliance && String.eqb (rt_Mode to_) RetentionGovernance
        then Err ErrRetentionModeChange
        else if (rt_Until to_ <? rt_Until current) || ((rt_Until to_ =? rt_Until current) && negb (promotes current to_))
        then Err ErrRetentionNotExtended
        else Ok info
      else Ok info
  | None => Ok info
  end.
Definition Retain (ref : ObjectRef) (to_ : Retention) : result error ObjectInfo * ObjectBucket :=
  answers (
    address ← locate ctx ref;
    let to_ := WholeSeconds to_ in
    _ ← checkRetention now to_;
    stored ← stored_at address;
    info ← retained stored to_;
    Ok (info, put_version address (mkStored info (so_body stored)) (bk_issued b))).
Definition SetLegalHold (ref : ObjectRef) (hold : LegalHold) : result error HoldReceipt * ObjectBucket :=
  answers (
    address ← locate ctx ref;
    if lh_On hold && String.eqb (lh_Reason hold) "" then Err ErrLegalHoldReasonRequired
    else
      stored ← stored_at address;
      Ok (mkHoldReceipt ref (lh_On hold) (lh_Reason hold) now,
          put_version address (mkStored (with_hold (so_info stored) (lh_On hold)) (so_body stored)) (bk_issued b))).
Definition Purge (ref : ObjectRef) : result error PurgeReceipt * ObjectBucket :=
  answers (
    address ← locate ctx ref;
    stored ← stored_at address;
    if oi_LegalHold (so_info stored) then Err ErrObjectLocked
    else
      let purged until := Ok (mkPurgeReceipt ref now until,
                              mkBucket (delete address (bk_versions b)) (bk_issued b)) in
      match oi_Retention (so_info stored) with
      | Some r => if now <? rt_Until r then Err ErrObjectLocked else purged (rt_Until r)
      | None => purged 0
      end).
End Call.
End Store.
