(* ===== verification/S3Store.v ===== *)
(** The object store over S3 ([s3/store.go], [s3/internal/worm/wire.go], the
    failures of [s3/internal/sdk/sdk.go]).

    S3 is a parameter: the operations of its client ([s3api]) over any world,
    and the resilience composition as a call that runs an operation some number
    of times. A time of the SDK is the instant [UnixNano] gives. *)

From S2P Require Import Prelude GoStrings GoSlices DomainKernel Errors Ports ObjectStore.

(** * Base64 ([encoding/base64], [StdEncoding]) and lower-case hexadecimal *)
Definition b64_char (v : Z) : Z :=
  if v <? 26 then 65 + v else if v <? 52 then 97 + (v - 26) else if v <? 62 then 48 + (v - 52)
  else if v =? 62 then 43 else 47.
Definition b64_value (c : Z) : option Z :=
  if in_range 65 90 c then Some (c - 65) else if in_range 97 122 c then Some (c - 97 + 26)
  else if in_range 48 57 c then Some (c - 48 + 52) else if c =? 43 then Some 62 else if c =? 47 then Some 63 else None.
Definition pad : Z := 61.
Fixpoint b64_encode (bs : bytes) : bytes :=
  match bs with
  | [] => []
  | [a] => [b64_char (Z.shiftr a 2); b64_char (Z.shiftl (Z.land a 3) 4); pad; pad]
  | [a; b] => [b64_char (Z.shiftr a 2); b64_char (Z.lor (Z.shiftl (Z.land a 3) 4) (Z.shiftr b 4));
               b64_char (Z.shiftl (Z.land b 15) 2); pad]
  | a :: b :: c :: rest =>
      [b64_char (Z.shiftr a 2); b64_char (Z.lor (Z.shiftl (Z.land a 3) 4) (Z.shiftr b 4));
       b64_char (Z.lor (Z.shiftl (Z.land b 15) 2) (Z.shiftr c 6)); b64_char (Z.land c 63)] ++ b64_encode rest
  end.
Definition byte_of (v : Z) : Z := Z.land v 255.
(** Carriage returns and line feeds are skipped; the bits a padded group leaves
    over are not looked at. *)
Fixpoint b64_groups (cs : bytes) : option bytes :=
  match cs with
  | [] => Some []
  | w :: x :: y :: z :: rest =>
      match b64_value w, b64_value x with
      | Some w, Some x =>
          let b0 := byte_of (Z.lor (Z.shiftl w 2) (Z.shiftr x 4)) in
          if y =? pad then if (z =? pad) && bool_decide (rest = []) then Some [b0] else None
          else
            match b64_value y with
            | None => None
            | Some y =>
                let b1 := byte_of (Z.lor (Z.shiftl x 4) (Z.shiftr y 2)) in
                if z =? pad then if bool_decide (rest = []) then Some [b0; b1] else None
                else
                  z ← b64_value z;
                  decoded ← b64_groups rest;
                  Some (b0 :: b1 :: byte_of (Z.lor (Z.shiftl y 6) z) :: decoded)
            end
      | _, _ => None
      end
  | _ => None
  end.
Definition EncodeToString (bs : bytes) : string := string_of (b64_encode bs).
Definition DecodeString (s : string) : option bytes :=
  b64_groups (filter (fun c => c <> 10 /\ c <> 13) (bytes_of s)).
Definition hex_string (bs : bytes) : string :=
  string_of (bs ≫= (fun b => [hex_digit (Z.shiftr b 4); hex_digit (Z.land b 15)])).

(** * Failures *)
Inductive fault := FaultUnknown | FaultClient | FaultServer.
#[global] Instance fault_eq_dec : EqDecision fault.
Proof. solve_decision. Defined.
(** What the code asks of an error of a call: the code and the fault of an API
    error, the status of a response, a dial or a name that failed, a refusal of
    the breaker or the bulkhead, a response that lacks what the port promises. *)
Record sdk_error := mkSdkError {
  se_api : option (string * fault); se_status : Z; se_unreached : bool; se_refused : bool; se_unexpected : bool
}.
Definition unexpected : sdk_error := mkSdkError None 0 false false true.
Definition Code (e : sdk_error) : string := match se_api e with Some (code, _) => code | None => "" end.
Definition Status (e : sdk_error) : Z := se_status e.

(** What the port answers: one of its sentinels, an unknown outcome of a write,
    a response without what the port promises, or an opaque failure. *)
Inductive store_error :=
| Port (e : error)
| OutcomeUnknown (cause : option sdk_error)
| UnexpectedResponse
| Failed (operation : string) (cause : sdk_error).
Definition ErrNotReady : error := Wrap "Ready has not confirmed the bucket" (Sentinel "s3.ErrBucketNotImmutable").
Definition ErrBucketNotImmutable : error := Sentinel "s3.ErrBucketNotImmutable".
Definition ported {A} (r : result error A) : result store_error A :=
  match r with Ok a => Ok a | Err e => Err (Port e) | Panic w => Panic w end.

Definition effectAbsent (e : sdk_error) : bool := se_unreached e.
Definition answered (e : sdk_error) : bool :=
  if negb (Status e =? 0) then Status e <? 500
  else match se_api e with Some (_, f) => bool_decide (f = FaultClient) | None => false end.
Definition translate (operation : string) (e : sdk_error) : store_error :=
  if bool_decide (Code e ∈ ["NoSuchKey"; "NoSuchVersion"; "NotFound"]%string) then Port ErrObjectNotFound
  else if String.eqb (Code e) "BadDigest" then Port ErrIntegrity
  else if se_unexpected e then UnexpectedResponse
  else Failed operation e.
Definition putOutcome (e : sdk_error) : store_error :=
  if effectAbsent e || se_refused e then Failed "PutObject" e
  else if answered e then translate "PutObject" e
  else OutcomeUnknown (Some e).

(** * Headers ([wire.go]) *)
Record Headers := mkHeaders {
  hd_VersionID : option string; hd_ChecksumSHA256 : option string; hd_ContentLength : option Z;
  hd_ContentType : option string; hd_Metadata : gmap string string; hd_LockMode : string;
  hd_RetainUntil : option Instant; hd_LegalHold : string; hd_SSE : string; hd_KMSKeyID : option string
}.
Definition StoredAtKey : string := "dmpf-stored-at".
Section Wire.
Context `{MapOrder}.
Definition storedAt (metadata : gmap string string) : result sdk_error Instant :=
  match find (fun nv => EqualFold nv.1 StoredAtKey) (ranged metadata) with
  | Some (_, value) => match Atoi value with Some at_ => Ok at_ | None => Err unexpected end
  | None => Err unexpected
  end.
Definition StoredAt (at_ : Instant) : gmap string string := {[ StoredAtKey := Itoa at_ ]}.
Definition HexChecksum (b64 : string) : result sdk_error string :=
  match DecodeString b64 with
  | Some raw => if len raw =? 32 then Ok (hex_string raw) else Err unexpected
  | None => Err unexpected
  end.
Definition headers_retention (h : Headers) : result sdk_error (option Retention) :=
  if String.eqb (hd_LockMode h) "" then Ok None
  else match hd_RetainUntil h with
       | None => Err unexpected
       | Some until => if Known (hd_LockMode h) then Ok (Some (WholeSeconds (mkRetention (hd_LockMode h) until)))
                       else Err unexpected
       end.
Definition Info (h : Headers) (key : ObjectKey) : result sdk_error ObjectInfo :=
  match hd_VersionID h with
  | None | Some ""%string => Err unexpected
  | Some version =>
      match hd_ChecksumSHA256 h with
      | None => Err unexpected
      | Some checksum =>
          digest ← HexChecksum checksum;
          match hd_ContentLength h with
          | None => Err unexpected
          | Some size =>
              stored_at ← storedAt (hd_Metadata h);
              retention ← headers_retention h;
              Ok (mkInfo (mkVersion key version digest size stored_at) (default ""%string (hd_ContentType h)) retention
                    (String.eqb (hd_LegalHold h) "ON")
                    (mkEncryption (hd_SSE h) (default ""%string (hd_KMSKeyID h))))
          end
      end
  end.
Definition ServerSideEncryption (e : Encryption) : string * option string :=
  if String.eqb (en_KeyRef e) "" || String.eqb (en_Algorithm e) "AES256" then (en_Algorithm e, None)
  else (en_Algorithm e, Some (en_KeyRef e)).

(** * The client *)
Record put_input := mkPutInput {
  pi_Key : string; pi_Body : bytes; pi_Checksum : string; pi_SSE : string; pi_KMSKeyID : option string;
  pi_Metadata : gmap string string; pi_ContentType : option string; pi_Lock : option Retention
}.
Record put_output := mkPutOutput { po_VersionId : option string; po_ChecksumSHA256 : option string }.
Record s3api (W : Type) := mkApi {
  PutObject : put_input -> W -> result sdk_error (option put_output) * W;
  GetObject : objectAddress -> W -> result sdk_error (Headers * bytes) * W;
  HeadObject : objectAddress -> W -> result sdk_error Headers * W;
  PutObjectRetention : objectAddress -> Retention -> W -> result sdk_error unit * W;
  PutObjectLegalHold : objectAddress -> bool -> W -> result sdk_error unit * W;
  DeleteObject : objectAddress -> W -> result sdk_error unit * W;
  (** Versioning enabled; the lock: none configured, or whether it is enabled
      and has a default retention. *)
  GetBucketVersioning : W -> result sdk_error bool * W;
  GetObjectLockConfiguration : W -> result sdk_error (bool * bool) * W
}.
Arguments PutObject {W}.
Arguments GetObject {W}.
Arguments HeadObject {W}.
Arguments PutObjectRetention {W}.
Arguments PutObjectLegalHold {W}.
Arguments DeleteObject {W}.
Arguments GetBucketVersioning {W}.
Arguments GetObjectLockConfiguration {W}.

Section Store.
Context {W : Type} (api : s3api W).
Notation act A := (W -> result sdk_error A * W).
(** The resilience composition: whether the operation is idempotent, and the
    act it runs. *)
Context (call_of : forall A, bool -> act A -> act A).
Notation call := (call_of _).
Context (sha256 : bytes -> bytes) (decl : ObjectStoreDeclaration).
(** The store's clock and whether [Ready] has confirmed the bucket. *)
Context (now : Instant) (ready : bool).

Definition act_bind {A B} (m : act A) (f : A -> result sdk_error B) : act B :=
  fun w => let '(r, w') := m w in (r ≫= f, w').
Definition confirmed : result store_error unit := if ready then Ok () else Err (Port ErrNotReady).

Definition Ready (w : W) : result store_error unit * W :=
  match call true (GetBucketVersioning api) w with
  | (Err e, w') => (Err (Failed "GetBucketVersioning" e), w')
  | (Panic p, w') => (Panic p, w')
  | (Ok false, w') => (Err (Port (Wrap "versioning is not enabled" ErrBucketNotImmutable)), w')
  | (Ok true, w') =>
      match call true (GetObjectLockConfiguration api) w' with
      | (Err e, w2) =>
          (Err (if String.eqb (Code e) "ObjectLockConfigurationNotFoundError"
                then Port (Wrap "object lock is not configured" ErrBucketNotImmutable)
                else Failed "GetObjectLockConfiguration" e), w2)
      | (Panic p, w2) => (Panic p, w2)
      | (Ok (false, _), w2) => (Err (Port (Wrap "object lock is not enabled" ErrBucketNotImmutable)), w2)
      | (Ok (true, true), w2) => (Err (Port (Wrap "a default retention" ErrBucketNotImmutable)), w2)
      | (Ok (true, false), w2) => (Ok (), w2)
      end
  end.

(** What a write is checked for before anything is sent, and its request. *)
Definition put_request (ctx : Ctx) (req : PutRequest) : result error put_input :=
  _ ← ObjectKey_Validate (put_Key req);
  key ← Worm.Physical ctx (de_Scope decl) (put_Key req);
  let sum := sha256 (put_Body req) in
  if negb (String.eqb (put_ContentSHA256 req) (hex_string sum)) then Err ErrIntegrity
  else
    retention ← match put_Retention req with
                | None => Ok None
                | Some r =>
                    let dated := WholeSeconds r in
                    _ ← Worm.CheckRetention now (de_Ceiling decl) dated; Ok (Some dated)
                end;
    let '(sse, key_id) := ServerSideEncryption (de_Encryption decl) in
    Ok (mkPutInput key (put_Body req) (EncodeToString sum) sse key_id (StoredAt now)
          (if String.eqb (put_ContentType req) "" then None else Some (put_ContentType req)) retention).
Definition put_answer (req : PutRequest) (checksum : string) (out : option put_output)
    : result store_error ObjectVersion :=
  match out with
  | None => Err (OutcomeUnknown None)
  | Some out =>
      match po_VersionId out with
      | None | Some ""%string => Err (OutcomeUnknown None)
      | Some version =>
          if negb (String.eqb (default ""%string (po_ChecksumSHA256 out)) checksum) then Err (OutcomeUnknown None)
          else Ok (mkVersion (put_Key req) version (hex_string (sha256 (put_Body req))) (len (put_Body req)) now)
      end
  end.
Definition Put (ctx : Ctx) (req : PutRequest) (w : W) : result store_error ObjectVersion * W :=
  match put_request ctx req with
  | Err e => (Err (Port e), w)
  | Panic p => (Panic p, w)
  | Ok in_ =>
      match confirmed with
      | Ok _ =>
          match call false (PutObject api in_) w with
          | (Err e, w') => (Err (putOutcome e), w')
          | (Panic p, w') => (Panic p, w')
          | (Ok out, w') => (put_answer req (pi_Checksum in_) out, w')
          end
      | Err e => (Err e, w)
      | Panic p => (Panic p, w)
      end
  end.

Definition locate (ctx : Ctx) (ref : ObjectRef) : result store_error objectAddress :=
  key ← ported (Worm.Locate ctx (de_Scope decl) ref);
  _ ← confirmed;
  Ok (key, ref_Version ref).
Definition translated {A} (operation : string) (r : result sdk_error A) : result store_error A :=
  match r with Ok a => Ok a | Err e => Err (translate operation e) | Panic p => Panic p end.
Definition head (address : objectAddress) (ref : ObjectRef) (w : W) : result store_error ObjectInfo * W :=
  let '(r, w') := call true (act_bind (HeadObject api address) (fun h => Info h (ref_Key ref))) w in
  (translated "HeadObject" r, w').
(** An operation on a located version. *)
Definition at_version {A} (ctx : Ctx) (ref : ObjectRef) (f : objectAddress -> W -> result store_error A * W) (w : W)
    : result store_error A * W :=
  match locate ctx ref with
  | Ok address => f address w
  | Err e => (Err e, w)
  | Panic p => (Panic p, w)
  end.
Definition Get (ctx : Ctx) (ref : ObjectRef) : W -> result store_error Object_ * W :=
  at_version ctx ref (fun address w =>
    let read := act_bind (GetObject api address) (fun hb =>
      info ← Info hb.1 (ref_Key ref); Ok (mkObject info hb.2)) in
    match call true read w with
    | (Ok object, w') =>
        (if String.eqb (hex_string (sha256 (ob_Body object))) (ov_ContentSHA256 (oi_Version (ob_Info object)))
         then Ok object else Err (Port (Wrap "the body does not hash to the stored checksum" ErrIntegrity)), w')
    | (r, w') => (translated "GetObject" r, w')
    end).
Definition Head (ctx : Ctx) (ref : ObjectRef) : W -> result store_error ObjectInfo * W :=
  at_version ctx ref (fun address => head address ref).
Definition Retain (ctx : Ctx) (ref : ObjectRef) (to_ : Retention) : W -> result store_error ObjectInfo * W :=
  at_version ctx ref (fun address w =>
    let to_ := WholeSeconds to_ in
    match Worm.CheckRetention now (de_Ceiling decl) to_ with
    | Err e => (Err (Port e), w)
    | Panic p => (Panic p, w)
    | Ok _ =>
        match head address ref w with
        | (Ok info, w') =>
            match Worm.CheckChange now (oi_Retention info) to_ with
            | Err e => (Err (Port e), w')
            | Panic p => (Panic p, w')
            | Ok _ =>
                let '(r, w2) := call true (PutObjectRetention api address to_) w' in
                (_ ← translated "PutObjectRetention" r; Ok (with_retention info (Some to_)), w2)
            end
        | (r, w') => (r, w')
        end
    end).
Definition SetLegalHold (ctx : Ctx) (ref : ObjectRef) (hold : LegalHold) : W -> result store_error HoldReceipt * W :=
  at_version ctx ref (fun address w =>
    if lh_On hold && String.eqb (lh_Reason hold) "" then (Err (Port ErrLegalHoldReasonRequired), w)
    else
      let '(r, w') := call true (PutObjectLegalHold api address (lh_On hold)) w in
      (_ ← translated "PutObjectLegalHold" r; Ok (mkHoldReceipt ref (lh_On hold) (lh_Reason hold) now), w')).
Definition Purge (ctx : Ctx) (ref : ObjectRef) : W -> result store_error PurgeReceipt * W :=
  at_version ctx ref (fun address w =>
    match head address ref w with
    | (Ok info, w') =>
        match Worm.Purgeable now (oi_Retention info) (oi_LegalHold info) with
        | Err e => (Err (Port e), w')
        | Panic p => (Panic p, w')
        | Ok until =>
            let '(r, w2) := call true (DeleteObject api address) w' in
            (_ ← translated "DeleteObject" r; Ok (mkPurgeReceipt ref now until), w2)
        end
    | (Err e, w') => (Err e, w')
    | (Panic p, w') => (Panic p, w')
    end).
End Store.
End Wire.
Arguments PutObject {W}.
Arguments GetObject {W}.
Arguments HeadObject {W}.
Arguments PutObjectRetention {W}.
Arguments PutObjectLegalHold {W}.
Arguments DeleteObject {W}.
Arguments GetBucketVersioning {W}.
Arguments GetObjectLockConfiguration {W}.

(** * The administrative path of GOVERNANCE ([s3/admin/admin.go]) *)
Module Admin.
Definition ErrComplianceImmutable : error := Sentinel "admin.ErrComplianceImmutable".
Definition ErrWithinCeiling : error := Sentinel "admin.ErrWithinCeiling".
Definition ErrOutlivedCeiling : error := Sentinel "admin.ErrOutlivedCeiling".

Record RetentionReceipt := mkRetentionReceipt {
  rr_Ref : ObjectRef; rr_From : Retention; rr_To : Retention; rr_Reason : string; rr_At : Instant
}.
Record AdminPurgeReceipt := mkAdminPurgeReceipt { ap_Purge : PurgeReceipt; ap_Reason : string }.
(** The calls of its principal: the headers with [LastModified], a retention set
    with the bypass, and a deletion with the bypass or without it. *)
Record admin_api (W : Type) := mkAdminApi {
  ad_HeadObject : objectAddress -> W -> result sdk_error (Headers * option Instant) * W;
  ad_PutObjectRetention : objectAddress -> Retention -> W -> result sdk_error unit * W;
  ad_DeleteObject : objectAddress -> bool -> W -> result sdk_error unit * W
}.
Arguments ad_HeadObject {W}.
Arguments ad_PutObjectRetention {W}.
Arguments ad_DeleteObject {W}.
Definition admin_translate (operation : string) (e : sdk_error) : store_error :=
  if bool_decide (Code e ∈ ["NoSuchKey"; "NoSuchVersion"; "NotFound"]%string) then Port ErrObjectNotFound
  else if se_unexpected e then UnexpectedResponse
  else Failed operation e.
Definition admin_translated {A} (operation : string) (r : result sdk_error A) : result store_error A :=
  match r with Ok a => Ok a | Err e => Err (admin_translate operation e) | Panic p => Panic p end.

Section Admin.
Context `{MapOrder} {W : Type} (api : admin_api W).
Context (call_of : forall A, bool -> (W -> result sdk_error A * W) -> W -> result sdk_error A * W).
Context (scope : Scope) (now : Instant).

Record version := mkVersionAt { ve_address : objectAddress; ve_info : ObjectInfo; ve_written : Instant }.
Definition in_force (r : option Retention) : bool :=
  match r with Some r => now <? rt_Until r | None => false end.
(** The headers, and when the version was written: the later of what its
    metadata and the server say. *)
Definition read_version (address : objectAddress) (key : ObjectKey) (h : Headers * option Instant)
    : result sdk_error version :=
  info ← Info h.1 key;
  let stored_at := ov_StoredAt (oi_Version info) in
  Ok (mkVersionAt address info (match h.2 with Some t => Z.max stored_at t | None => stored_at end)).
Definition governed (ctx : Ctx) (ref : ObjectRef) (ceiling : RetentionCeiling) (w : W) : result store_error version * W :=
  match Worm.Locate ctx scope ref with
  | Err e => (Err (Port e), w)
  | Panic p => (Panic p, w)
  | Ok key =>
      if (ce_Span ceiling <=? 0) || String.eqb (ce_Origin ceiling) "" then (Err (Port ErrRetentionCeilingUndeclared), w)
      else
        let address := (key, ref_Version ref) in
        let '(r, w') := call_of _ true (act_bind (ad_HeadObject api address) (read_version address (ref_Key ref))) w in
        (v ← admin_translated "HeadObject" r;
         match oi_Retention (ve_info v) with
         | Some current =>
             if (now <? rt_Until current) && String.eqb (rt_Mode current) RetentionCompliance
             then Err (Port ErrComplianceImmutable) else Ok v
         | None => Ok v
         end, w')
  end.
(** What a shortening sets, over the retention it replaces. *)
Definition shortened (ceiling : RetentionCeiling) (v : version) : result error (Retention * Retention) :=
  match oi_Retention (ve_info v) with
  | None => Err ErrWithinCeiling
  | Some current =>
      if rt_Until current <=? now then Err ErrWithinCeiling
      else match span_Add (ce_Span ceiling) (ve_written v) with
           | None => Err ErrWithinCeiling
           | Some limit =>
               let to_ := WholeSeconds (mkRetention RetentionGovernance limit) in
               if rt_Until current <=? rt_Until to_ then Err ErrWithinCeiling
               else if rt_Until to_ <=? now then Err ErrOutlivedCeiling
               else Ok (current, to_)
           end
  end.
Definition Shorten (ctx : Ctx) (ref : ObjectRef) (ceiling : RetentionCeiling) (w : W)
    : result store_error RetentionReceipt * W :=
  match governed ctx ref ceiling w with
  | (Ok v, w') =>
      match shortened ceiling v with
      | Err e => (Err (Port e), w')
      | Panic p => (Panic p, w')
      | Ok (current, to_) =>
          let '(r, w2) := call_of _ true (ad_PutObjectRetention api (ve_address v) to_) w' in
          (_ ← admin_translated "PutObjectRetention" r;
           Ok (mkRetentionReceipt ref current to_ (ce_Origin ceiling) now), w2)
      end
  | (Err e, w') => (Err e, w')
  | (Panic p, w') => (Panic p, w')
  end.
Definition past_ceiling (ceiling : RetentionCeiling) (v : version) : bool :=
  match span_Add (ce_Span ceiling) (ve_written v) with Some limit => limit <=? now | None => false end.
Definition AdminPurge (ctx : Ctx) (ref : ObjectRef) (ceiling : RetentionCeiling) (w : W)
    : result store_error AdminPurgeReceipt * W :=
  match governed ctx ref ceiling w with
  | (Ok v, w') =>
      if oi_LegalHold (ve_info v) then (Err (Port ErrObjectLocked), w')
      else if negb (past_ceiling ceiling v) then (Err (Port ErrWithinCeiling), w')
      else
        let current := oi_Retention (ve_info v) in
        let '(r, w2) := call_of _ true (ad_DeleteObject api (ve_address v) (in_force current)) w' in
        (_ ← admin_translated "DeleteObject" r;
         Ok (mkAdminPurgeReceipt
               (mkPurgeReceipt ref now (match current with Some c => rt_Until c | None => 0 end)) (ce_Origin ceiling)), w2)
  | (Err e, w') => (Err e, w')
  | (Panic p, w') => (Panic p, w')
  end.
End Admin.
End Admin.
