(* ===== verification/Retry.v ===== *)
(** Retries ([src/libs/backend/go/observability/retry] and
    [resilience/retry_decorator.go]): the backoff, the shared budget, the
    conjunction that allows one more attempt and the decorator that loops. *)

From S2P Require Import Prelude DomainKernel Errors GoTime.

(** * Backoff ([backoff.go]) *)
Definition DefaultBase : Z := 100 * Millisecond.
Definition DefaultFactor : Z := 2.
Definition DefaultCap : Z := 5 * Second.

Record Backoff := mkBackoff { bo_Base : Z; bo_Factor : Z; bo_Cap : Z }.
Definition DefaultBackoff : Backoff := mkBackoff DefaultBase DefaultFactor DefaultCap.

Definition cap_above (b : Backoff) (iv : Z) : Z :=
  if (0 <? bo_Cap b) && (bo_Cap b <? iv) then bo_Cap b else iv.
Fixpoint interval_loop (b : Backoff) (n : nat) (iv : Z) : Z :=
  match n with
  | O => cap_above b iv
  | S n' =>
      if bo_Factor b <=? 1 then cap_above b iv
      else
        let iv := iv *! bo_Factor b in
        if (0 <? bo_Cap b) && (bo_Cap b <=? iv) then bo_Cap b else interval_loop b n' iv
  end.
Definition interval (b : Backoff) (attempt_ : Z) : Z :=
  if (bo_Base b <=? 0) || (attempt_ <? 0) then 0
  else interval_loop b (Z.to_nat attempt_) (bo_Base b).

(** [Next]: [rand] is the draw, absent for a nil function. *)
Definition Next (b : Backoff) (attempt_ : Z) (rand : option float64) : Z :=
  let iv := interval b attempt_ in
  if iv <=? 0 then 0
  else match rand with
  | None => iv
  | Some draw =>
      if float_leb draw (float_of_Z 0) then 0
      else if float_leb (float_of_Z 1) draw then iv
      else float_trunc (float_mul (float_of_Z iv) draw)
  end.

(** * Budget ([budget.go])

    Each method is one atomic step: a compare-and-swap loop ends on the value
    it read last, so an interleaving is a sequence of these steps. *)
Record Budget := mkBudget { bg_remaining : Z; bg_armed : bool; bg_reported : bool }.
Definition newBudget : Budget := mkBudget 0 false false.

Definition WithTotal (total : Z) (b : Budget) : Budget :=
  if 0 <? total then mkBudget total true (bg_reported b) else b.
Definition Arm (remaining : Z) (b : Budget) : Budget :=
  if remaining <=? 0 then b
  else if bg_armed b then b
  else mkBudget (Z.quot remaining 2) true (bg_reported b).
Definition Debit (spent : Z) (b : Budget) : Budget :=
  if spent <=? 0 then b
  else
    let next := bg_remaining b -! spent in
    mkBudget (if next <? 0 then 0 else next) (bg_armed b) (bg_reported b).
Definition Reserve (need : Z) (b : Budget) : bool * Budget :=
  if (need <=? 0) || negb (bg_armed b) then (false, b)
  else if bg_remaining b <? need then (false, b)
  else (true, mkBudget (bg_remaining b -! need) (bg_armed b) (bg_reported b)).
Definition refund (unspent : Z) (b : Budget) : Budget :=
  mkBudget (bg_remaining b +! unspent) (bg_armed b) (bg_reported b).
Definition Settle (reserved actual : Z) (b : Budget) : Budget :=
  if reserved <? actual then Debit (actual -! reserved) b
  else if actual <? reserved then refund (reserved -! actual) b
  else b.
Definition Remaining (b : Budget) : Z := if negb (bg_armed b) then 0 else bg_remaining b.
Definition latch (b : Budget) : bool * Budget :=
  (negb (bg_reported b), mkBudget (bg_remaining b) (bg_armed b) true).
Definition Exhausted (b : Budget) : bool * Budget :=
  if negb (bg_armed b) || (0 <? bg_remaining b) then (false, b) else latch b.
Definition ReportExhaustion (b : Budget) : bool * Budget :=
  if negb (bg_armed b) then (false, b) else latch b.

(** * Evaluate ([evaluate.go], [classifier.go]) *)
Inductive Retryability := UnknownError | RetryableError | NotRetryable.
#[export] Instance Retryability_eq_dec : EqDecision Retryability.
Proof. solve_decision. Defined.
Definition Classifier := error -> Retryability.

Record Operation := mkOperation {
  op_Dependency : string;
  op_Method : string;
  op_Idempotent : bool;
  op_EffectAbsent : option (error -> bool);
  op_EstimatedDuration : Z
}.

Inductive Factor :=
| FactorNone | FactorAttempts | FactorRetryable | FactorIdempotent | FactorBudget
| FactorDeadline.
#[export] Instance Factor_eq_dec : EqDecision Factor.
Proof. solve_decision. Defined.

Record Input := mkInput {
  in_Err : error;
  in_Classifier : option Classifier;
  in_Operation : Operation;
  in_Attempt : Z;
  in_MaxAttempts : Z;
  in_Budget : option Budget;
  in_Remaining : Z;
  in_Backoff : Backoff;
  in_Rand : option float64
}.
Record Verdict := mkVerdict { v_Allowed : bool; v_Denied : Factor; v_Wait : Z; v_Need : Z }.
Definition denied_by (f : Factor) : Verdict := mkVerdict false f 0 0.

Definition repeatable (operation : Operation) (err : error) : bool :=
  op_Idempotent operation ||
  match op_EffectAbsent operation with Some f => f err | None => false end.

Definition Evaluate (i : Input) : Verdict :=
  if in_MaxAttempts i <=? in_Attempt i + 1 then denied_by FactorAttempts
  else
    let wait := Next (in_Backoff i) (in_Attempt i) (in_Rand i) in
    let need := op_EstimatedDuration (in_Operation i) +! wait in
    match in_Classifier i with
    | None => denied_by FactorRetryable
    | Some classify =>
        if negb (bool_decide (classify (in_Err i) = RetryableError)) then denied_by FactorRetryable
        else if negb (repeatable (in_Operation i) (in_Err i)) then denied_by FactorIdempotent
        else match in_Budget i with
        | None => denied_by FactorBudget
        | Some b =>
            if Remaining b <? need then denied_by FactorBudget
            else if in_Remaining i <? need then denied_by FactorDeadline
            else mkVerdict true FactorNone wait need
        end
    end.

(** * The decorator ([resilience/retry_decorator.go]) *)
Definition ErrBlankField : error := Sentinel "resilience.ErrBlankField".
Definition ErrWrapsUnitOfWork : error := Sentinel "resilience.ErrWrapsUnitOfWork".

Section Decorator.
(** The world holds the clock, the budget of the execution and whatever the
    decorated call touches; other dependencies of the same execution may move
    the budget while a call or a sleep runs. *)
Context {W : Type}.
Context (now : W -> Z).
Context (get_budget : W -> option Budget).          (* [retry.BudgetFrom(ctx)] *)
Context (set_budget : Budget -> W -> W).
Context (ctx_deadline : option Z).
Context (call : W -> option error * W).             (* [next(ctx, op, do)] *)
Context (sleeper : Z -> W -> option error * W).
Context (draw : W -> option float64).               (* [config.Rand] *)
Context (count_retry count_exhaustion : W -> W).    (* instruments and span *)

Record RetryConfig := mkRetryConfig {
  rc_Classifier : option Classifier;
  rc_MaxAttempts : Z;
  rc_Backoff : Backoff
}.

Definition on_budget (f : Budget -> Budget) (w : W) : W :=
  match get_budget w with Some b => set_budget (f b) w | None => w end.
Definition ask_budget (f : Budget -> bool * Budget) (w : W) : bool * W :=
  match get_budget w with
  | Some b => let '(answer, b') := f b in (answer, set_budget b' w)
  | None => (false, w)
  end.

Definition armBudget (w : W) : W :=
  match ctx_deadline with
  | Some deadline => on_budget (Arm (time_sub deadline (now w))) w
  | None => w
  end.
Definition remainingOf (w : W) : Z :=
  match ctx_deadline with
  | None => max_int64
  | Some deadline => time_sub deadline (now w)
  end.
Definition report_exhaustion (w : W) : W :=
  let '(first, w) := ask_budget ReportExhaustion w in
  if first : bool then count_exhaustion w else w.

(** What one round decides: to answer, or to go round again with the claim
    and the wait of the next attempt. *)
Inductive Round := Answer (err : option error) | Again (claimed waited : Z).

Definition retry_round (config : RetryConfig) (op : Operation) (attempt_ : Z) (claimed waited : Z)
    (w : W) : Round * W :=
  let startedAt := now w in
  let '(err, w) := call w in
  let w := if 0 <? attempt_
           then on_budget (Settle claimed (waited +! time_sub (now w) startedAt)) w else w in
  match err with
  | None => (Answer None, w)
  | Some e =>
      let w := armBudget w in
      let verdict := Evaluate (mkInput e (rc_Classifier config) op attempt_
        (rc_MaxAttempts config) (get_budget w) (remainingOf w) (rc_Backoff config) (draw w)) in
      if negb (v_Allowed verdict) then
        (Answer (Some e),
         if bool_decide (v_Denied verdict = FactorBudget) then report_exhaustion w else w)
      else
        let '(reserved, w) := ask_budget (Reserve (v_Need verdict)) w in
        if negb reserved then (Answer (Some e), report_exhaustion w)
        else
          let w := count_retry w in
          match sleeper (v_Wait verdict) w with
          | (Some slept, w) => (Answer (Some (Join "" [e; slept])), w)
          | (None, w) => (Again (v_Need verdict) (v_Wait verdict), w)
          end
  end.

(** [for attempt := 0; ; attempt++]: [None] only when the fuel runs out. *)
Fixpoint retry_loop (fuel : nat) (config : RetryConfig) (op : Operation) (attempt_ : Z)
    (claimed waited : Z) (w : W) : option (option error) * W :=
  match fuel with
  | O => (None, w)
  | S fuel' =>
      match retry_round config op attempt_ claimed waited w with
      | (Answer err, w) => (Some err, w)
      | (Again claimed waited, w) =>
          retry_loop fuel' config op (attempt_ + 1) claimed waited w
      end
  end.

(** What [NewRetry] refuses to build. *)
Definition retry_config_ok (config : RetryConfig) : result error unit :=
  if rc_MaxAttempts config <=? 0
  then Err (Wrap "declares no attempt ceiling" ErrBlankField) else Ok ().

(** The call it builds: [guardUnitOfWork], then the loop, whose rounds the
    ceiling bounds. *)
Definition NewRetry (config : RetryConfig) (unit_of_work : bool) (op : Operation) (w : W)
    : option (option error) * W :=
  if unit_of_work then (Some (Some (Wrap "is a unit of work" ErrWrapsUnitOfWork)), w)
  else retry_loop (Z.to_nat (rc_MaxAttempts config)) config op 0 0 0 w.
End Decorator.

(** * Backoff: the intervals *)
Lemma interval_loop_min b n iv :
  1 < bo_Factor b -> 0 < bo_Cap b -> bo_Cap b * bo_Factor b <= max_int64 ->
  0 < iv -> iv * bo_Factor b <= max_int64 ->
  interval_loop b n iv = Z.min (iv * bo_Factor b ^ Z.of_nat n) (bo_Cap b).
Proof.
  intros Hf Hc Hcf. revert iv. induction n as [| n IH]; intros iv Hiv Hm.
  - cbn [interval_loop]. unfold cap_above. change (Z.of_nat 0) with 0. rewrite Z.pow_0_r.
    destruct (Z.ltb_spec 0 (bo_Cap b)), (Z.ltb_spec (bo_Cap b) iv); cbn; lia.
  - cbn [interval_loop]. destruct (Z.leb_spec (bo_Factor b) 1); [lia |]. cbv zeta.
    rewrite wrap64_id by (unfold in_int64, min_int64; nia).
    rewrite Nat2Z.inj_succ, Z.pow_succ_r by lia.
    assert (0 < bo_Factor b ^ Z.of_nat n) by (apply Z.pow_pos_nonneg; lia).
    destruct (Z.ltb_spec 0 (bo_Cap b)); [| lia].
    destruct (Z.leb_spec (bo_Cap b) (iv * bo_Factor b)); cbn [andb].
    + rewrite Z.min_r; [done |]. nia.
    + rewrite IH by nia. f_equal. ring.
Qed.

(** * Budget: what an interleaving keeps *)

(** A budget with the reservations not yet settled. *)
Record Spending := mkSpending { sp_budget : Budget; sp_claims : list Z }.

(** One step of a dependency of the execution: it may debit, claim the funds of
    an attempt, or settle one of its claims against a duration. *)
Inductive spend_step : Spending -> Spending -> Prop :=
| spend_arm b cs r : in_int64 r -> spend_step (mkSpending b cs) (mkSpending (Arm r b) cs)
| spend_debit b cs s : in_int64 s -> spend_step (mkSpending b cs) (mkSpending (Debit s b) cs)
| spend_reserve b cs need b' :
    Reserve need b = (true, b') -> spend_step (mkSpending b cs) (mkSpending b' (need :: cs))
| spend_refused b cs need b' :
    Reserve need b = (false, b') -> spend_step (mkSpending b cs) (mkSpending b' cs)
| spend_settle b cs1 c cs2 actual :
    0 <= actual <= max_int64 ->
    spend_step (mkSpending b (cs1 ++ c :: cs2)) (mkSpending (Settle c actual b) (cs1 ++ cs2))
| spend_report b cs : spend_step (mkSpending b cs) (mkSpending (ReportExhaustion b).2 cs).

(** Balance and claims never exceed what the budget was sized with. *)
Definition spending_ok (total : Z) (s : Spending) : Prop :=
  bg_armed (sp_budget s) = true /\ 0 <= bg_remaining (sp_budget s) /\
  Forall (fun c => 0 < c) (sp_claims s) /\
  bg_remaining (sp_budget s) + foldr Z.add 0 (sp_claims s) <= total.

Lemma foldr_add_app (l1 l2 : list Z) :
  foldr Z.add 0 (l1 ++ l2) = foldr Z.add 0 l1 + foldr Z.add 0 l2.
Proof. induction l1 as [| x l IH]; cbn; lia. Qed.

Lemma foldr_add_nonneg (l : list Z) : Forall (fun c => 0 < c) l -> 0 <= foldr Z.add 0 l.
Proof. induction 1; cbn; lia. Qed.

Lemma Debit_ok total s b :
  in_int64 s -> 0 <= bg_remaining b <= total -> total <= max_int64 ->
  bg_armed (Debit s b) = bg_armed b /\ 0 <= bg_remaining (Debit s b) <= bg_remaining b.
Proof.
  intros Hs Hb Ht. unfold Debit. destruct (Z.leb_spec s 0); [split; [done | lia] |]. cbn. split; [done |].
  rewrite wrap64_id by solve_int64. case_match eqn:E'; [lia |]. apply Z.ltb_ge in E'. lia.
Qed.

Lemma Settle_ok total c actual b :
  0 < c -> 0 <= actual <= max_int64 -> 0 <= bg_remaining b -> bg_remaining b + c <= total ->
  total <= max_int64 ->
  bg_armed (Settle c actual b) = bg_armed b /\
  0 <= bg_remaining (Settle c actual b) <= bg_remaining b + c.
Proof.
  intros Hc Ha Hb Ht Hm. unfold Settle.
  destruct (Z.ltb_spec c actual).
  - rewrite wrap64_id by solve_int64.
    destruct (Debit_ok total (actual - c) b) as [H1 H2]; [solve_int64 | lia | done |]. split; [done | lia].
  - destruct (Z.ltb_spec actual c); [| split; [done | lia]].
    cbn. split; [done |]. rewrite (wrap64_id (c - actual)) by solve_int64.
    rewrite wrap64_id by solve_int64. lia.
Qed.

Lemma spend_step_ok total s s' :
  total <= max_int64 -> spending_ok total s -> spend_step s s' -> spending_ok total s'.
Proof.
  intros Ht (Ha & Hr & Hc & Hs) Hstep. unfold spending_ok.
  destruct Hstep as [b cs r Hin | b cs sp Hin | b cs need b' Hres | b cs need b' Hres
    | b cs1 c cs2 actual Hact | b cs]; cbn in *; pose proof (foldr_add_nonneg cs) as Hn || idtac.
  - unfold Arm. rewrite Ha. case_match; auto.
  - specialize (Hn Hc). destruct (Debit_ok total sp b Hin ltac:(lia) Ht) as [H1 H2].
    rewrite H1. repeat split; try done; lia.
  - unfold Reserve in Hres. rewrite Ha in Hres. specialize (Hn Hc). cbn [negb orb] in Hres.
    rewrite orb_false_r in Hres.
    destruct (Z.leb_spec need 0); [done |]. destruct (Z.ltb_spec (bg_remaining b) need); [done |].
    injection Hres as <-. cbn. rewrite wrap64_id by solve_int64.
    repeat split; try done; [lia | by constructor | lia].
  - unfold Reserve in Hres. repeat case_match; simplify_eq; auto.
  - apply Forall_app in Hc as [Hc1 Hc2]. apply Forall_cons in Hc2 as [Hcp Hc2].
    rewrite foldr_add_app in *. cbn in Hs.
    pose proof (foldr_add_nonneg cs1 Hc1). pose proof (foldr_add_nonneg cs2 Hc2).
    destruct (Settle_ok total c actual b Hcp Hact Hr ltac:(lia) Ht) as [H1 H2].
    rewrite H1. repeat split; try done; [lia | by apply Forall_app | lia].
  - unfold ReportExhaustion. rewrite Ha. cbn. auto.
Qed.

(** * The decorator's loop *)
Section DecoratorLaws.
Context {W : Type} (now : W -> Z) (get_budget : W -> option Budget) (set_budget : Budget -> W -> W)
  (ctx_deadline : option Z) (call : W -> option error * W) (sleeper : Z -> W -> option error * W)
  (draw : W -> option float64) (count_retry count_exhaustion : W -> W).
Notation round := (retry_round now get_budget set_budget ctx_deadline call sleeper draw
  count_retry count_exhaustion).
Notation loop := (retry_loop now get_budget set_budget ctx_deadline call sleeper draw
  count_retry count_exhaustion).

(** Only an allowed verdict goes round again, and the ceiling allows none at
    the last attempt. *)
Lemma retry_round_again config op a claimed waited w c x w' :
  round config op a claimed waited w = (Again c x, w') -> a + 1 < rc_MaxAttempts config.
Proof.
  unfold retry_round. destruct (call w) as [[e |] w1]; [| done].
  match goal with |- context [Evaluate ?i] => destruct (v_Allowed (Evaluate i)) eqn:Ev end;
    cbn [negb]; [| done].
  intros _. unfold Evaluate in Ev. cbn [in_MaxAttempts in_Attempt] in Ev.
  destruct (Z.leb_spec (rc_MaxAttempts config) (a + 1)); [done | lia].
Qed.

Lemma retry_loop_total fuel config op a claimed waited w :
  0 <= a -> rc_MaxAttempts config <= a + Z.of_nat fuel -> (0 < fuel)%nat ->
  exists err w', loop fuel config op a claimed waited w = (Some err, w').
Proof.
  revert a claimed waited w. induction fuel as [| fuel IH]; intros a claimed waited w Ha Hf H0; [lia |].
  cbn [retry_loop]. destruct (round config op a claimed waited w) as [[err | c x] w1] eqn:Er; [eauto |].
  apply retry_round_again in Er. apply IH; lia.
Qed.

(** The loop counts its calls, whatever else the world does. *)
Context (calls : W -> Z).
Context (calls_call : forall w, calls (call w).2 = calls w + 1).
Context (calls_sleep : forall d w, calls (sleeper d w).2 = calls w).
Context (calls_budget : forall b w, calls (set_budget b w) = calls w).
Context (calls_retry : forall w, calls (count_retry w) = calls w).
Context (calls_exhaustion : forall w, calls (count_exhaustion w) = calls w).

Lemma calls_on_budget f w : calls (on_budget get_budget set_budget f w) = calls w.
Proof. unfold on_budget. destruct (get_budget w); [apply calls_budget | done]. Qed.
Lemma calls_ask_budget f w : calls (ask_budget get_budget set_budget f w).2 = calls w.
Proof.
  unfold ask_budget. destruct (get_budget w) as [b |]; [| done].
  destruct (f b). apply calls_budget.
Qed.
Lemma calls_report w : calls (report_exhaustion get_budget set_budget count_exhaustion w) = calls w.
Proof.
  unfold report_exhaustion. pose proof (calls_ask_budget ReportExhaustion w) as H.
  destruct (ask_budget _ _ _ w) as [[] w1]; cbn in H; [| done]. by rewrite calls_exhaustion.
Qed.
Lemma calls_arm w : calls (armBudget now get_budget set_budget ctx_deadline w) = calls w.
Proof. unfold armBudget. destruct ctx_deadline; [apply calls_on_budget | done]. Qed.

Lemma retry_round_calls config op a claimed waited w :
  calls (round config op a claimed waited w).2 = calls w + 1.
Proof.
  unfold retry_round. pose proof (calls_call w) as Hc. destruct (call w) as [[e |] w1]; cbn in Hc;
    cbv zeta; [| case_match; cbn; rewrite ?calls_on_budget; done].
  set (w2 := if 0 <? a then _ else w1).
  assert (calls w2 = calls w + 1) as H2 by (subst w2; case_match; rewrite ?calls_on_budget; done).
  clearbody w2. destruct (negb (v_Allowed _)).
  - cbn. case_match; rewrite ?calls_report, calls_arm; done.
  - match goal with |- context [ask_budget _ _ ?f ?x] =>
      pose proof (calls_ask_budget f x) as H3; destruct (ask_budget get_budget set_budget f x) as [[] w3] end;
      cbn in H3; cbn [negb].
    + match goal with |- context [sleeper ?d ?x] =>
        pose proof (calls_sleep d x) as H4; destruct (sleeper d x) as [[sl |] w4] end;
        cbn in *; rewrite H4, calls_retry, H3, calls_arm; done.
    + cbn. rewrite calls_report, H3, calls_arm. done.
Qed.

Lemma retry_loop_calls fuel config op a claimed waited w :
  calls w <= calls (loop fuel config op a claimed waited w).2 <= calls w + Z.of_nat fuel.
Proof.
  revert a claimed waited w. induction fuel as [| fuel IH]; intros a claimed waited w; [cbn; lia |].
  cbn [retry_loop]. pose proof (retry_round_calls config op a claimed waited w) as Hr.
  destruct (round config op a claimed waited w) as [[err | c x] w1]; cbn in Hr |- *; [lia |].
  specialize (IH (a + 1) c x w1). lia.
Qed.
End DecoratorLaws.
