(* ===== verification/Breaker.v ===== *)
(** The circuit breaker ([src/libs/backend/go/observability/resilience/breaker.go]):
    its state machine as the methods [admit] and [record], and an interleaving
    of calls as a step relation over the breaker and the calls in flight. *)

From S2P Require Import Prelude DomainKernel Errors GoTime.

(** [BreakerState]. *)
Inductive BreakerState := BreakerClosed | BreakerHalfOpen | BreakerOpen.
#[export] Instance BreakerState_eq_dec : EqDecision BreakerState.
Proof. solve_decision. Defined.

Record BreakerPolicy := mkBreakerPolicy {
  bp_Window : Z;
  bp_Threshold : float64;
  bp_MinSamples : Z;
  bp_Cooldown : Z;
  bp_Probes : Z
}.

Record observation := mkObservation { ob_at : Z; ob_failed : bool }.

(** The ticket a call carries from [admit] to [record]. *)
Record admission := mkAdmission { ad_probe : bool; ad_generation : Z }.
#[export] Instance admission_eq_dec : EqDecision admission.
Proof. solve_decision. Defined.

(** The fields the mutex guards; the generation counts transitions, and 2^64 of
    them are out of reach. *)
Record Breaker := mkBreaker {
  br_window : list observation;
  br_state : BreakerState;
  br_openedAt : Z;
  br_probing : Z;
  br_generation : Z
}.
Definition NewBreaker : Breaker := mkBreaker [] BreakerClosed 0 0 0.

Definition ErrBreakerOpen : error := Sentinel "resilience.ErrBreakerOpen".
Definition ErrCancelled : error := Sentinel "resilience.ErrCancelled".

Section Breaker.
(** [failure] is what [CountsAsFailure] installed, if anything. *)
Context (policy : BreakerPolicy) (failure : option (error -> bool)).

Definition probes : Z := if bp_Probes policy <=? 0 then 1 else bp_Probes policy.

Definition transition (to : BreakerState) (now : Z) (b : Breaker) : Breaker :=
  mkBreaker (br_window b) to
    (if bool_decide (to = BreakerOpen) then now else br_openedAt b)
    (if bool_decide (to = BreakerHalfOpen) then br_probing b else 0)
    (br_generation b + 1).

Definition set_probing (p : Z) (b : Breaker) : Breaker :=
  mkBreaker (br_window b) (br_state b) (br_openedAt b) p (br_generation b).
Definition set_window (ws : list observation) (b : Breaker) : Breaker :=
  mkBreaker ws (br_state b) (br_openedAt b) (br_probing b) (br_generation b).

(** The half-open part of [admit]: a probe slot, or a refusal. *)
Definition admit_probe (b : Breaker) : result error admission * Breaker :=
  if bool_decide (br_state b = BreakerHalfOpen) then
    if probes <=? br_probing b
    then (Err (Wrap "is half-open and its probes are in flight" ErrBreakerOpen), b)
    else (Ok (mkAdmission true (br_generation b)), set_probing (br_probing b + 1) b)
  else (Ok (mkAdmission false (br_generation b)), b).

Definition admit_call (now : Z) (b : Breaker) : result error admission * Breaker :=
  if bool_decide (br_state b = BreakerOpen) then
    if time_sub now (br_openedAt b) <? bp_Cooldown policy
    then (Err (Wrap "is open" ErrBreakerOpen), b)
    else admit_probe (transition BreakerHalfOpen now b)
  else admit_probe b.

Definition releaseProbe (granted : admission) (b : Breaker) : Breaker :=
  if ad_probe granted && (ad_generation granted =? br_generation b)
     && bool_decide (br_state b = BreakerHalfOpen) && (0 <? br_probing b)
  then set_probing (br_probing b - 1) b else b.

Definition prune (now : Z) (ws : list observation) : list observation :=
  if bp_Window policy <=? 0 then ws
  else filter (fun o => now - bp_Window policy < ob_at o) ws.

Definition failures (ws : list observation) : Z := len (filter (fun o => ob_failed o = true) ws).
Definition shouldOpen (ws : list observation) : bool :=
  if len ws <? bp_MinSamples policy then false
  else float_leb (bp_Threshold policy) (float_div (float_of_Z (failures ws)) (float_of_Z (len ws))).

Definition counts (err : option error) : bool :=
  match err with
  | None => false
  | Some e => match failure with None => true | Some f => f e end
  end.

Definition cancelled (err : option error) : bool :=
  match err with Some e => errors_is e ErrCancelled | None => false end.

Definition record (now : Z) (granted : admission) (err : option error) (b : Breaker) : Breaker :=
  if cancelled err then releaseProbe granted b
  else
    let failed := counts err in
    if ad_probe granted then
      if negb (ad_generation granted =? br_generation b)
         || negb (bool_decide (br_state b = BreakerHalfOpen)) then b
      else
        let b := set_window [] (set_probing (br_probing b - 1) b) in
        if failed then transition BreakerOpen now b else transition BreakerClosed now b
    else if bool_decide (br_state b = BreakerHalfOpen) then b
    else
      let b := set_window (prune now (br_window b) ++ [mkObservation now failed]) b in
      if shouldOpen (br_window b) then transition BreakerOpen now b else b.

(** * Calls in flight *)
Record System := mkSystem { sy_breaker : Breaker; sy_flying : list admission }.

Inductive breaker_step : System -> System -> Prop :=
| step_admit now b b' t fl :
    admit_call now b = (Ok t, b') -> breaker_step (mkSystem b fl) (mkSystem b' (t :: fl))
| step_refuse now b b' e fl :
    admit_call now b = (Err e, b') -> breaker_step (mkSystem b fl) (mkSystem b' fl)
| step_record now b t err fl1 fl2 :
    breaker_step (mkSystem b (fl1 ++ t :: fl2)) (mkSystem (record now t err b) (fl1 ++ fl2)).

Definition start : System := mkSystem NewBreaker [].
Definition reachable (s : System) : Prop := rtc breaker_step start s.

(** Probes of the current cycle still in flight. *)
Definition current_probe (b : Breaker) (t : admission) : Prop :=
  ad_probe t = true /\ ad_generation t = br_generation b.
#[local] Instance current_probe_dec b t : Decision (current_probe b t).
Proof. unfold current_probe. apply _. Defined.
Definition current_probes (b : Breaker) (fl : list admission) : Z :=
  len (filter (current_probe b) fl).

Record system_ok (s : System) : Prop := {
  so_probing : br_probing (sy_breaker s) = current_probes (sy_breaker s) (sy_flying s);
  so_halfopen : br_state (sy_breaker s) <> BreakerHalfOpen -> br_probing (sy_breaker s) = 0;
  so_bound : br_probing (sy_breaker s) <= probes;
  so_past : Forall (fun t => ad_generation t <= br_generation (sy_breaker s)) (sy_flying s)
}.

Lemma probes_pos : 1 <= probes.
Proof. unfold probes. destruct (Z.leb_spec (bp_Probes policy) 0); lia. Qed.

Lemma current_probes_nonneg b fl : 0 <= current_probes b fl.
Proof. apply len_nonneg. Qed.

(** A new cycle leaves every ticket behind. *)
Lemma current_probes_new b b' fl :
  Forall (fun t => ad_generation t <= br_generation b) fl -> br_generation b < br_generation b' ->
  current_probes b' fl = 0.
Proof.
  intros Hp Hg. unfold current_probes. induction Hp as [| t fl Ht _ IH]; [done |].
  rewrite filter_cons. case_decide as Hd; [| done]. destruct Hd as [_ Hd]. lia.
Qed.

Lemma past_later g g' fl :
  Forall (fun t => ad_generation t <= g) fl -> g <= g' ->
  Forall (fun t => ad_generation t <= g') fl.
Proof. intros H Hg. eapply Forall_impl; [done |]. cbn. lia. Qed.

Lemma current_probes_same b b' fl :
  br_generation b' = br_generation b -> current_probes b' fl = current_probes b fl.
Proof.
  intros Hg. unfold current_probes. f_equal. apply list_filter_iff. intros t.
  unfold current_probe. by rewrite Hg.
Qed.

Lemma current_probes_cons b t fl :
  current_probes b (t :: fl) =
  (if bool_decide (current_probe b t) then 1 else 0) + current_probes b fl.
Proof.
  unfold current_probes. rewrite filter_cons. case_decide as Hd.
  - rewrite bool_decide_true by done. unfold len. cbn [length]. lia.
  - rewrite bool_decide_false by done. lia.
Qed.

Lemma current_probes_middle b fl1 t fl2 :
  current_probes b (fl1 ++ t :: fl2) =
  (if bool_decide (current_probe b t) then 1 else 0) + current_probes b (fl1 ++ fl2).
Proof.
  unfold current_probes. rewrite !filter_app, filter_cons, !len_app. case_decide as Hd.
  - rewrite bool_decide_true by done. unfold len. cbn [length]. lia.
  - rewrite bool_decide_false by done. lia.
Qed.

(** Changing cycle resets the count, whatever was in flight. *)
Lemma transition_ok to now b fl :
  Forall (fun t => ad_generation t <= br_generation b) fl ->
  (to = BreakerHalfOpen -> br_probing b = 0) ->
  system_ok (mkSystem (transition to now b) fl).
Proof.
  intros Hp Hh. pose proof probes_pos.
  assert (br_probing (transition to now b) = 0) as H0 by (cbn; case_bool_decide; auto).
  split; cbn [sy_breaker sy_flying]; rewrite ?H0; [| done | lia |].
  - symmetry. apply (current_probes_new b); [done | cbn; lia].
  - eapply past_later; [done | cbn; lia].
Qed.

Lemma admit_probe_ok b fl r b' :
  system_ok (mkSystem b fl) -> admit_probe b = (r, b') ->
  match r with
  | Ok t => system_ok (mkSystem b' (t :: fl))
  | _ => system_ok (mkSystem b' fl)
  end.
Proof.
  intros Hok. destruct (Hok) as [Hpr Hh Hb Hp]. cbn in *. unfold admit_probe.
  case_bool_decide as Hs.
  - destruct (Z.leb_spec probes (br_probing b)) as [| Hlt]; intros [= <- <-]; [done |].
    split; cbn; [| done | lia | by constructor].
    rewrite current_probes_cons, bool_decide_true by done.
    rewrite (current_probes_same b) by done. lia.
  - intros [= <- <-]. split; cbn; [| done | done | by constructor].
    rewrite current_probes_cons, bool_decide_false; [lia |]. intros [? _]. done.
Qed.

Lemma admit_ok now b fl r b' :
  system_ok (mkSystem b fl) -> admit_call now b = (r, b') ->
  match r with
  | Ok t => system_ok (mkSystem b' (t :: fl))
  | _ => system_ok (mkSystem b' fl)
  end.
Proof.
  intros Hok. destruct (Hok) as [Hpr Hh Hb Hp]. cbn in *. unfold admit_call.
  case_bool_decide as Hs.
  - case_match; [by intros [= <- <-] |]. apply admit_probe_ok, transition_ok; [done |].
    intros _. apply Hh. by rewrite Hs.
  - by apply admit_probe_ok.
Qed.

(** Dropping a ticket that is no current probe. *)
Lemma drop_stale b fl1 t fl2 :
  system_ok (mkSystem b (fl1 ++ t :: fl2)) -> ~ current_probe b t ->
  system_ok (mkSystem b (fl1 ++ fl2)).
Proof.
  intros [Hpr Hh Hb Hp] Hn. cbn in *. rewrite current_probes_middle, bool_decide_false in Hpr by done.
  split; cbn; [lia | done | done |].
  rewrite Forall_app in *. by destruct Hp as [? [_ ?]%Forall_cons].
Qed.

(** A current probe in flight means the breaker is half-open. *)
Lemma current_probe_halfopen b fl1 t fl2 :
  system_ok (mkSystem b (fl1 ++ t :: fl2)) -> current_probe b t ->
  br_state b = BreakerHalfOpen /\ 1 <= br_probing b.
Proof.
  intros [Hpr Hh Hb Hp] Ht. cbn in *. rewrite current_probes_middle, bool_decide_true in Hpr by done.
  pose proof (current_probes_nonneg b (fl1 ++ fl2)).
  split; [| lia]. destruct (decide (br_state b = BreakerHalfOpen)) as [| Hn]; [done |].
  specialize (Hh Hn). lia.
Qed.

Lemma record_ok now b t err fl1 fl2 :
  system_ok (mkSystem b (fl1 ++ t :: fl2)) ->
  system_ok (mkSystem (record now t err b) (fl1 ++ fl2)).
Proof.
  intros Hok. pose proof (so_past _ Hok) as Hp. cbn in Hp.
  assert (Forall (fun t => ad_generation t <= br_generation b) (fl1 ++ fl2)) as Hp'.
  { rewrite Forall_app in *. by destruct Hp as [? [_ ?]%Forall_cons]. }
  assert (~ current_probe b t -> system_ok (mkSystem b (fl1 ++ fl2))) as Hdrop
    by (intros Hn; by apply (drop_stale b fl1 t fl2)).
  assert (current_probe b t -> br_state b = BreakerHalfOpen /\ 1 <= br_probing b) as Hcur
    by (intros Hc; by apply (current_probe_halfopen b fl1 t fl2)).
  unfold record, releaseProbe, current_probe in *.
  destruct (ad_probe t) eqn:Et; cbn [andb negb].
  2: { assert (system_ok (mkSystem b (fl1 ++ fl2))) as Hb by (apply Hdrop; by intros [? _]).
    destruct (cancelled err); [done |]. case_bool_decide as Hs; [done |]. cbv zeta.
    assert (system_ok (mkSystem (set_window (prune now (br_window b) ++
      [mkObservation now (counts err)]) b) (fl1 ++ fl2))) as Hw by by destruct Hb.
    case_match; [| done]. apply transition_ok; [done |]. done. }
  destruct (Z.eqb_spec (ad_generation t) (br_generation b)) as [Hg | Hg]; cbn [andb negb orb].
  2: { assert (system_ok (mkSystem b (fl1 ++ fl2))) as Hb by (apply Hdrop; by intros [_ ?]).
    by destruct (cancelled err). }
  destruct (Hcur ltac:(done)) as [Hs H1]. rewrite (bool_decide_true _ Hs). cbn [andb negb].
  destruct (cancelled err).
  - destruct (Z.ltb_spec 0 (br_probing b)); [| lia].
    destruct Hok as [Hpr Hh Hb _]. cbn in *.
    rewrite current_probes_middle, bool_decide_true in Hpr by done.
    split; cbn; [| by rewrite Hs | lia | done].
    rewrite (current_probes_same b) by done. lia.
  - case_match; apply transition_ok; cbn; done.
Qed.

Lemma breaker_step_ok s s' : system_ok s -> breaker_step s s' -> system_ok s'.
Proof.
  intros Hok Hst. destruct Hst as [now b b' t fl Ha | now b b' e fl Ha | now b t err fl1 fl2].
  - by apply (admit_ok now b fl (Ok t) b').
  - by apply (admit_ok now b fl (Err e) b').
  - by apply record_ok.
Qed.

Lemma start_ok : system_ok start.
Proof. pose proof probes_pos. split; cbn; [done | done | lia | constructor]. Qed.
End Breaker.
