(* ===== verification/Resilience.v ===== *)
(** The resilience sheet and its decorators
    ([src/libs/backend/go/observability/resilience]): the sheet of a dependency,
    the composition order, deadlines and routes, degradation and the bulkhead. *)

From S2P Require Import Prelude DomainKernel Errors GoTime Retry Breaker.

Definition ErrBulkheadSaturated : error := Sentinel "resilience.ErrBulkheadSaturated".
Definition ErrDeferIsOutbox : error := Sentinel "resilience.ErrDeferIsOutbox".
Definition ErrOrderReasonRequired : error := Sentinel "resilience.ErrOrderReasonRequired".
Definition ErrDeadlineExceeded : error := Sentinel "resilience.ErrDeadlineExceeded".
Definition ErrDeadlineComposition : error := Sentinel "resilience.ErrDeadlineComposition".

(** * Operations ([operation.go]) *)
Inductive Kind := KindBlank | Remote | UnitOfWorkKind | KindOther (name : string).

Record Operation := mkResOperation {
  ro_Dependency : string;
  ro_Method : string;
  ro_Kind : Kind;
  ro_Idempotent : bool;
  ro_EffectAbsent : option (error -> bool);
  ro_Deadline : Z;
  ro_EstimatedDuration : Z
}.
Definition ForRetry (o : Operation) : Retry.Operation :=
  mkOperation (ro_Dependency o) (ro_Method o) (ro_Idempotent o) (ro_EffectAbsent o)
    (ro_EstimatedDuration o).

Definition operation_Validate (o : Operation) : result error unit :=
  if String.eqb (ro_Dependency o) "" then Err (Opaque "operation declares no dependency")
  else if String.eqb (ro_Method o) "" then Err (Opaque "operation declares no method")
  else match ro_Kind o with
  | KindBlank => Err (Opaque "operation declares no kind")
  | _ =>
      if ro_Deadline o <=? 0 then Err (Opaque "operation declares no deadline")
      else if ro_EstimatedDuration o <=? 0 then Err (Opaque "operation declares no estimated duration")
      else Ok ()
  end.

(** * The sheet ([sheet.go]) *)
Record Field (T : Type) := mkField {
  fld_value : option T;           (* the value, when one is set *)
  fld_skipped : option string     (* the reason of a declared absence *)
}.
Arguments mkField {T}.
Arguments fld_value {T}.
Arguments fld_skipped {T}.
Definition Declare_ {T} (v : T) : Field T := mkField (Some v) None.
Definition Skip {T} (reason : string) : Field T := mkField None (Some reason).
Definition Declared {T} (f : Field T) : bool :=
  bool_decide (is_Some (fld_value f)) || bool_decide (is_Some (fld_skipped f)).
Definition isSkipped {T} (f : Field T) : bool := bool_decide (is_Some (fld_skipped f)).

Record BulkheadPolicy := mkBulkheadPolicy { bk_Pool : Z; bk_Queue : Z; bk_Acquisition : Z }.
Record BackoffPolicy := mkBackoffPolicy { bo_Base_ : Z; bo_Factor_ : Z; bo_Cap_ : Z }.
Definition BackoffPolicy_ForRetry (b : BackoffPolicy) : Backoff :=
  mkBackoff (bo_Base_ b) (bo_Factor_ b) (bo_Cap_ b).
Record RateLimitPolicy := mkRateLimitPolicy { rl_PerSecond : Z; rl_Burst : Z }.
Record CachePolicy := mkCachePolicy { ca_TTL : Z }.

Inductive Degradation := DegradationBlank | Fail_ | Degrade | Ignore | Defer | DegradationOther (m : string).

Record Override := mkOverride {
  ov_Field : string; ov_Value : string; ov_Reason : string; ov_Since : Z
}.

Record Sheet := mkSheet {
  sh_Dependency : string;
  sh_Deadline : Field Z;
  sh_Retry : Field bool;
  sh_Budget : Field Z;
  sh_Backoff : Field BackoffPolicy;
  sh_MaxAttempts : Field Z;
  sh_Breaker : Field BreakerPolicy;
  sh_Bulkhead : Field BulkheadPolicy;
  sh_RateLimit : Field RateLimitPolicy;
  sh_Cache : Field CachePolicy;
  sh_Degradation : Field Degradation;
  sh_Overrides : list Override
}.

Definition DefaultDeadline : Z := 2 * Second.
Definition DefaultBudgetShare : Z := 2.
Definition DefaultMaxAttempts : Z := 3.
Definition DefaultBreakerWindow : Z := 30 * Second.
Definition DefaultBreakerMinSamples : Z := 20.
Definition DefaultBreakerCooldown : Z := 30 * Second.
Definition DefaultBreakerProbes : Z := 1.
Definition DefaultBulkheadPool : Z := 16.
Definition DefaultBulkheadAcquire : Z := 100 * Millisecond.
Definition DefaultHopSlack : Z := 50 * Millisecond.

Definition Defaults (dependency : string) : Sheet :=
  mkSheet dependency (Declare_ DefaultDeadline) (Declare_ true)
    (Declare_ (Z.quot DefaultDeadline DefaultBudgetShare))
    (Declare_ (mkBackoffPolicy DefaultBase DefaultFactor DefaultCap))
    (Declare_ DefaultMaxAttempts)
    (Declare_ (mkBreakerPolicy DefaultBreakerWindow float_half DefaultBreakerMinSamples
                 DefaultBreakerCooldown DefaultBreakerProbes))
    (Declare_ (mkBulkheadPolicy DefaultBulkheadPool DefaultBulkheadPool DefaultBulkheadAcquire))
    (Skip "admissão por rota e tenant é de outra história (KRN-10)")
    (Skip "modelagem de cache encaminhada em FND-08 §1.4")
    (Declare_ Fail_) [].

Definition declarations (s : Sheet) : list bool :=
  [Declared (sh_Deadline s); Declared (sh_Retry s); Declared (sh_Budget s); Declared (sh_Backoff s);
   Declared (sh_MaxAttempts s); Declared (sh_Breaker s); Declared (sh_Bulkhead s);
   Declared (sh_RateLimit s); Declared (sh_Cache s); Declared (sh_Degradation s)].

Definition Sheet_Validate (s : Sheet) : result error unit :=
  if String.eqb (sh_Dependency s) "" then Err (Wrap "sheet declares no dependency" ErrBlankField)
  else if negb (forallb id (declarations s))
  then Err (Wrap "declare neither a value nor a reason" ErrBlankField)
  else if match fld_value (sh_Deadline s) with Some d => d <=? 0 | None => false end
  then Err (Wrap "the deadline is not positive" ErrBlankField)
  else match fld_value (sh_Degradation s) with
  | Some Defer => Err ErrDeferIsOutbox
  | Some DegradationBlank | Some (DegradationOther _) =>
      Err (Wrap "declares the unknown degradation mode" ErrBlankField)
  | _ => Ok ()
  end.

(** * Composition ([compose.go]) *)
Definition SlotTracing : string := "tracing".
Definition SlotMetrics : string := "metrics".
Definition SlotLogging : string := "logging".
Definition SlotBulkhead : string := "bulkhead".
Definition SlotBreaker : string := "breaker".
Definition SlotRateLimit : string := "rate_limit".
Definition SlotRetry : string := "retry".
Definition SlotTimeout : string := "timeout".
Definition CanonicalOrder : list string :=
  [SlotTracing; SlotMetrics; SlotLogging; SlotBulkhead; SlotBreaker; SlotRateLimit; SlotRetry;
   SlotTimeout].

Section Compose.
Context {Call : Type} (Direct : Call).
Definition Decorator : Type := Call -> Call.

Record DecoratorSlots := mkDecoratorSlots {
  ds_Tracing : option Decorator;
  ds_Metrics : option Decorator;
  ds_Logging : option Decorator;
  ds_Bulkhead : option Decorator;
  ds_Breaker : option Decorator;
  ds_RateLimit : option Decorator;
  ds_Retry : option Decorator;
  ds_Timeout : option Decorator
}.

Definition slot_at (s : DecoratorSlots) (position : string) : option Decorator :=
  if String.eqb position SlotTracing then ds_Tracing s
  else if String.eqb position SlotMetrics then ds_Metrics s
  else if String.eqb position SlotLogging then ds_Logging s
  else if String.eqb position SlotBulkhead then ds_Bulkhead s
  else if String.eqb position SlotBreaker then ds_Breaker s
  else if String.eqb position SlotRateLimit then ds_RateLimit s
  else if String.eqb position SlotRetry then ds_Retry s
  else if String.eqb position SlotTimeout then ds_Timeout s
  else None.

(** Whether the sheet declares the position not applicable. *)
Definition declared_absent (sheet : Sheet) (position : string) : bool :=
  if String.eqb position SlotBulkhead then isSkipped (sh_Bulkhead sheet)
  else if String.eqb position SlotBreaker then isSkipped (sh_Breaker sheet)
  else if String.eqb position SlotRateLimit then isSkipped (sh_RateLimit sheet)
  else if String.eqb position SlotRetry then isSkipped (sh_Retry sheet)
  else if String.eqb position SlotTimeout then isSkipped (sh_Deadline sheet)
  else false.
Definition requireDeclaredAbsences (sheet : Sheet) (slots : DecoratorSlots) : result error unit :=
  if forallb (fun position =>
       bool_decide (is_Some (slot_at slots position)) || declared_absent sheet position)
       CanonicalOrder
  then Ok ()
  else Err (Wrap "are empty and the sheet does not declare them not applicable" ErrBlankField).

Fixpoint validate_positions (order seen : list string) : result error unit :=
  match order with
  | [] => Ok ()
  | position :: rest =>
      if negb (bool_decide (position ∈ CanonicalOrder))
      then Err (Wrap "is not a position" ErrBlankField)
      else if bool_decide (position ∈ seen) then Err (Wrap "appears twice" ErrBlankField)
      else validate_positions rest (position :: seen)
  end.
Definition validateOrder (order : list string) : result error unit :=
  if negb (len order =? len CanonicalOrder)
  then Err (Wrap "the order has another number of positions" ErrBlankField)
  else validate_positions order [].

(** [build] wraps from the inside out: the first position ends outermost. *)
Definition build (sheet : Sheet) (slots : DecoratorSlots) (order : list string)
    : result error Call :=
  _ ← Sheet_Validate sheet;
  _ ← requireDeclaredAbsences sheet slots;
  Ok (foldr (fun position call =>
        match slot_at slots position with Some decorator => decorator call | None => call end)
        Direct order).
Definition Compose (sheet : Sheet) (slots : DecoratorSlots) : result error Call :=
  build sheet slots CanonicalOrder.
Definition ComposeWithOrder (sheet : Sheet) (slots : DecoratorSlots) (order : list string)
    (reason : string) : result error Call :=
  if String.eqb reason "" then Err (Wrap "" ErrOrderReasonRequired)
  else _ ← validateOrder order; build sheet slots order.
End Compose.
Arguments DecoratorSlots : clear implicits.

(** * Deadlines ([timeout.go], [route.go]) *)

(** [EffectiveDeadline]: [deadline] and [budget] are what the context carries. *)
Definition EffectiveDeadline (deadline : option Z) (budget : option Budget) (now : Z)
    (op_deadline reserve : Z) : Z :=
  let effective := op_deadline in
  let effective :=
    match deadline with
    | Some d => if time_sub d now <? effective then time_sub d now else effective
    | None => effective
    end in
  match budget with
  | Some b =>
      let balance := Remaining b in
      if 0 <? balance then
        let available := balance -! reserve in
        if available <? effective then available else effective
      else effective
  | None => effective
  end.

(** [classify]: the errors of the two contexts and of the call. *)
Definition timeout_classify (ctx_err bounded_err err : option error) : option error :=
  match err with
  | None => None
  | Some e =>
      let is_opt o target := match o with Some x => errors_is x target | None => false end in
      if is_opt ctx_err ContextCanceled then Some (Join "cancelled" [ErrCancelled; e])
      else if errors_is e ContextDeadlineExceeded || is_opt bounded_err ContextDeadlineExceeded
      then Some (Join "deadline" [ErrDeadlineExceeded; e])
      else if errors_is e ContextCanceled then Some (Join "cancelled" [ErrCancelled; e])
      else Some e
  end.

(** [Timeout]: [next] runs under the bounded context, whose state and the
    caller's are read after it returned. *)
Definition Timeout (deadline : option Z) (budget : option Budget) (now reserve : Z) (op : Operation)
    (next : Z -> option error) (ctx_err bounded_err : option error) : option error :=
  let effective := EffectiveDeadline deadline budget now (ro_Deadline op) reserve in
  if effective <=? 0 then Some (Wrap "has no time left" ErrDeadlineExceeded)
  else timeout_classify ctx_err bounded_err (next effective).

Fixpoint route_needed (needed : Z) (hops : list Operation) : result error Z :=
  match hops with
  | [] => Ok needed
  | hop :: rest =>
      _ ← operation_Validate hop;
      route_needed (needed +! (ro_Deadline hop +! DefaultHopSlack)) rest
  end.
Definition ValidateRoute (remaining : Z) (hops : list Operation) : result error unit :=
  match hops with
  | [] => Ok ()
  | _ =>
      needed ← route_needed 0 hops;
      if remaining <? needed then Err (Wrap "hops need" ErrDeadlineComposition) else Ok ()
  end.

(** * Degradation ([degrade.go]) *)
Definition givenUp (ctx_err : option error) (err : error) : bool :=
  errors_is err ErrCancelled || errors_is err ContextCanceled ||
  match ctx_err with Some e => errors_is e ContextCanceled | None => false end.

(** The decorator of a mode, as a function on what the call answered. *)
Definition NewDegradation (mode : Degradation)
    : result error (option error -> option error -> option error) :=
  match mode with
  | Fail_ | DegradationBlank => Ok (fun _ err => err)
  | Degrade => Ok (fun ctx_err err =>
      match err with
      | Some e => if givenUp ctx_err e then err else Some (Wrap "answered in degraded mode" e)
      | None => None
      end)
  | Ignore => Ok (fun ctx_err err =>
      match err with Some e => if givenUp ctx_err e then err else None | None => None end)
  | Defer => Err (Wrap "declares defer" ErrDeferIsOutbox)
  | DegradationOther _ => Err (Wrap "declares the unknown degradation mode" ErrBlankField)
  end.

(** * Bulkhead ([bulkhead.go]) *)

(** The two channels by the number of elements they hold; a call is where its
    goroutine is: admitted and after a slot, running, or with the slot returned
    and the admission still held. *)
Inductive Phase := Admitted_ | Running | SlotReturned.
#[export] Instance Phase_eq_dec : EqDecision Phase.
Proof. solve_decision. Defined.

Record Bulkhead := mkBulkhead { bh_pool : Z; bh_queue : Z; bh_admissions : Z; bh_slots : Z }.

Definition NewBulkhead (policy : BulkheadPolicy) : Bulkhead :=
  let pool := if bk_Pool policy <=? 0 then DefaultBulkheadPool else bk_Pool policy in
  let queue := if bk_Queue policy <=? 0 then pool else bk_Queue policy in
  mkBulkhead pool queue 0 0.

(** A non-blocking send on each channel. *)
Definition try_admission (b : Bulkhead) : option Bulkhead :=
  if bh_admissions b <? bh_pool b + bh_queue b
  then Some (mkBulkhead (bh_pool b) (bh_queue b) (bh_admissions b + 1) (bh_slots b)) else None.
Definition try_slot (b : Bulkhead) : option Bulkhead :=
  if bh_slots b <? bh_pool b
  then Some (mkBulkhead (bh_pool b) (bh_queue b) (bh_admissions b) (bh_slots b + 1)) else None.
Definition return_slot (b : Bulkhead) : Bulkhead :=
  mkBulkhead (bh_pool b) (bh_queue b) (bh_admissions b) (bh_slots b - 1).
Definition return_admission (b : Bulkhead) : Bulkhead :=
  mkBulkhead (bh_pool b) (bh_queue b) (bh_admissions b - 1) (bh_slots b).

Record Pool := mkPool { po_bulkhead : Bulkhead; po_calls : list Phase }.

(** One step of one goroutine of [acquire] and its release. *)
Inductive pool_step : Pool -> Pool -> Prop :=
| pool_admit b b' cs :
    try_admission b = Some b' -> pool_step (mkPool b cs) (mkPool b' (Admitted_ :: cs))
| pool_slot b b' cs1 cs2 :
    try_slot b = Some b' ->
    pool_step (mkPool b (cs1 ++ Admitted_ :: cs2)) (mkPool b' (cs1 ++ Running :: cs2))
| pool_give_up b cs1 cs2 :
    pool_step (mkPool b (cs1 ++ Admitted_ :: cs2)) (mkPool (return_admission b) (cs1 ++ cs2))
| pool_return_slot b cs1 cs2 :
    pool_step (mkPool b (cs1 ++ Running :: cs2)) (mkPool (return_slot b) (cs1 ++ SlotReturned :: cs2))
| pool_return_admission b cs1 cs2 :
    pool_step (mkPool b (cs1 ++ SlotReturned :: cs2)) (mkPool (return_admission b) (cs1 ++ cs2)).

Definition running (cs : list Phase) : Z := len (filter (fun c => c = Running) cs).

Record pool_ok (p : Pool) : Prop := {
  pk_admissions : bh_admissions (po_bulkhead p) = len (po_calls p);
  pk_slots : bh_slots (po_bulkhead p) = running (po_calls p);
  pk_pool : bh_slots (po_bulkhead p) <= bh_pool (po_bulkhead p);
  pk_system : bh_admissions (po_bulkhead p) <= bh_pool (po_bulkhead p) + bh_queue (po_bulkhead p)
}.

Lemma running_middle cs1 c cs2 :
  running (cs1 ++ c :: cs2) = (if bool_decide (c = Running) then 1 else 0) + running (cs1 ++ cs2).
Proof.
  unfold running. rewrite !filter_app, filter_cons, !len_app. case_decide as Hd.
  - rewrite bool_decide_true by done. unfold len. cbn [length]. lia.
  - rewrite bool_decide_false by done. lia.
Qed.

Lemma len_middle {A} (l1 : list A) x l2 : len (l1 ++ x :: l2) = 1 + len (l1 ++ l2).
Proof. rewrite !len_app. unfold len. cbn [length]. lia. Qed.

Lemma running_in cs1 cs2 : running (cs1 ++ Running :: cs2) = 1 + running (cs1 ++ cs2).
Proof. by rewrite running_middle. Qed.
Lemma running_out c cs1 cs2 : c <> Running -> running (cs1 ++ c :: cs2) = running (cs1 ++ cs2).
Proof. intros Hc. by rewrite running_middle, bool_decide_false. Qed.

Lemma pool_step_ok p p' : pool_ok p -> pool_step p p' -> pool_ok p'.
Proof.
  intros [Ha Hs Hp Hq] Hst. destruct Hst as [b b' cs Ht | b b' cs1 cs2 Ht | b cs1 cs2 | b cs1 cs2 | b cs1 cs2];
    cbn [po_bulkhead po_calls] in *; rewrite ?running_in, ?running_out, ?len_middle in * by done;
    unfold try_admission, try_slot in *; try case_match eqn:E'; simplify_eq; try apply Z.ltb_lt in E';
    split; cbn [po_bulkhead po_calls return_slot return_admission bh_admissions bh_slots bh_pool bh_queue];
    rewrite ?running_in, ?running_out, ?len_middle in * by done; try lia.
  - unfold len in *. cbn [length]. lia.
  - rewrite <- (app_nil_l (_ :: _)), running_out by done. done.
Qed.

Lemma NewBulkhead_ok policy : pool_ok (mkPool (NewBulkhead policy) []).
Proof.
  unfold NewBulkhead, DefaultBulkheadPool. split; cbn; [done | done | |];
    destruct (Z.leb_spec (bk_Pool policy) 0), (Z.leb_spec (bk_Queue policy) 0); lia.
Qed.

(** * Order *)
Lemma validate_positions_ok order seen :
  validate_positions order seen = Ok () <->
  NoDup order /\ (forall p, p ∈ order -> p ∈ CanonicalOrder /\ p ∉ seen).
Proof.
  revert seen. induction order as [| p rest IH]; intros seen; cbn [validate_positions].
  - split; [intros _; split; [constructor | set_solver] | done].
  - rewrite NoDup_cons. case_bool_decide as Hc; cbn [negb]; [| split; [done | set_solver]].
    case_bool_decide as Hs; [split; [done | set_solver] |]. rewrite IH.
    split.
    + intros [Hnd Hall]. split; [split; [| done] |].
      * intros Hp. destruct (Hall p Hp). set_solver.
      * intros q [-> | Hq]%elem_of_cons; [done |]. destruct (Hall q Hq). set_solver.
    + intros [[Hp Hnd] Hall]. split; [done |]. intros q Hq.
      destruct (Hall q ltac:(set_solver)) as [Hqc Hqs]. split; [done |].
      intros [-> | Hq']%elem_of_cons; done.
Qed.

Lemma validateOrder_Permutation order :
  validateOrder order = Ok () -> order ≡ₚ CanonicalOrder.
Proof.
  unfold validateOrder. destruct (Z.eqb_spec (len order) (len CanonicalOrder)) as [Hl | _]; [| done].
  cbn [negb]. intros [Hnd Hall]%validate_positions_ok.
  apply submseteq_length_Permutation; [| unfold len in Hl; lia].
  apply NoDup_submseteq; [done |]. intros p Hp. by apply Hall.
Qed.
