(* ===== verification/Deadline.v ===== *)
(** The deadline of an outgoing hop ([transport/deadline]): the caller's deadline,
    the method's limit and the operation's budget of retries combined by
    [EffectiveDeadline], minus the slack the hop keeps. *)

From S2P Require Import Prelude DomainKernel Errors GoTime Retry Breaker Resilience.

Definition DefaultSlack : Z := DefaultHopSlack.
Definition ErrNoDeadline : error := Sentinel "deadline.ErrNoDeadline".
Definition ErrDeadlineExhausted : error := Sentinel "deadline.ErrDeadlineExhausted".

Record Budget := mkHopBudget {
  hb_Dependency : string;
  hb_Method : string;
  hb_Limit : Z;
  hb_Slack : Z;
  hb_EstimatedDuration : Z
}.
Definition Budget_Operation (b : Budget) : Resilience.Operation :=
  mkResOperation (hb_Dependency b) (hb_Method b) Remote false None (hb_Limit b) (hb_EstimatedDuration b).
Definition Budget_Validate (b : Budget) : result error unit :=
  match operation_Validate (Budget_Operation b) with
  | Ok _ => if hb_Slack b <=? 0 then Err (Opaque "budget declares no slack") else Ok ()
  | r => r
  end.

Definition Require (deadline : option Z) : result error Z :=
  match deadline with None => Err ErrNoDeadline | Some d => Ok d end.

(** The clock is read twice: [now] for the answer, [later] inside
    [EffectiveDeadline]. *)
Definition Outgoing (deadline : option Z) (retries : option Retry.Budget) (now later : Z) (b : Budget)
    : result error Z :=
  match Budget_Validate b with
  | Ok _ =>
      match Require deadline with
      | Ok _ =>
          let remaining := EffectiveDeadline deadline retries later (hb_Limit b) 0 -! hb_Slack b in
          if remaining <=? 0 then Err (Wrap "left after a slack" ErrDeadlineExhausted)
          else Ok (now + remaining)
      | Err e => Err e
      | Panic p => Panic p
      end
  | Err e => Err e
  | Panic p => Panic p
  end.

(** What [EffectiveDeadline] answers is below each of its terms. *)
Lemma EffectiveDeadline_below deadline retries now limit :
  EffectiveDeadline deadline retries now limit 0 <= limit /\
  (forall d, deadline = Some d -> EffectiveDeadline deadline retries now limit 0 <= time_sub d now) /\
  (forall b, retries = Some b -> 0 < Remaining b -> in_int64 (Remaining b) ->
     EffectiveDeadline deadline retries now limit 0 <= Remaining b).
Proof.
  unfold EffectiveDeadline.
  split_and!; [| intros d -> | intros b -> Hb Hin]; repeat case_match; simplify_eq; try lia;
    rewrite ?Z.sub_0_r, ?wrap64_id in * by done; lia.
Qed.
Lemma EffectiveDeadline_in deadline retries now limit :
  in_int64 limit -> in_int64 (EffectiveDeadline deadline retries now limit 0).
Proof.
  intros Hl. unfold EffectiveDeadline. pose proof (fun d => time_sub_in d now).
  repeat case_match; auto using wrap64_in.
Qed.

(** The next hop gets an instant only when a deadline was declared and time is left
    beyond the slack; the instant lies ahead, and by at least the slack before the
    caller's deadline, before the end of the method's limit and before the end of
    what the retry budget still holds. *)
Theorem Outgoing_within deadline retries now later b t :
  in_int64 (hb_Limit b) -> in_int64 (hb_Slack b) -> now <= later ->
  (forall d, deadline = Some d -> min_int64 + hb_Slack b <= d - later <= max_int64) ->
  (forall r, retries = Some r -> in_int64 (Remaining r)) ->
  Outgoing deadline retries now later b = Ok t ->
  now < t /\ 0 < hb_Slack b /\ (exists d, deadline = Some d /\ t + hb_Slack b <= d) /\
  t + hb_Slack b <= now + hb_Limit b /\
  (forall r, retries = Some r -> 0 < Remaining r -> t + hb_Slack b <= now + Remaining r).
Proof.
  intros Hlim Hsl Hnow Hd Hr. unfold Outgoing, Budget_Validate.
  destruct (operation_Validate (Budget_Operation b)) as [[] | |] eqn:Hop; try done.
  destruct (hb_Slack b <=? 0) eqn:Hs; [done |]. destruct deadline as [d |]; cbn; [| done].
  pose proof (EffectiveDeadline_below (Some d) retries later (hb_Limit b)) as (E1 & E2 & E3).
  specialize (E2 d eq_refl). pose proof (Hd d eq_refl) as Hdd. rewrite time_sub_id in E2 by solve_int64.
  assert (Hlow : min_int64 + hb_Slack b <= EffectiveDeadline (Some d) retries later (hb_Limit b) 0).
  { assert (0 < hb_Limit b).
    { unfold operation_Validate in Hop. repeat case_match; simplify_eq; cbn in *; lia. }
    unfold EffectiveDeadline. rewrite time_sub_id by solve_int64.
    repeat case_match; rewrite ?Z.sub_0_r, ?wrap64_id in * by auto; solve_int64. }
  set (e := EffectiveDeadline (Some d) retries later (hb_Limit b) 0) in *.
  rewrite wrap64_id by solve_int64. destruct (e - hb_Slack b <=? 0) eqn:He; [done |]. intros [= <-].
  split_and!; try lia.
  - exists d. split; [done | lia].
  - intros r Hr' Hpos. specialize (E3 r Hr' Hpos (Hr r Hr')). lia.
Qed.
Lemma Outgoing_within_witness :
  let b := mkHopBudget "partner" "Submit" (2 * Second) DefaultSlack Second in
  0 < 950000000 /\ 0 < hb_Slack b /\ (exists d, Some 1000000000 = Some d /\ 950000000 + hb_Slack b <= d) /\
  950000000 + hb_Slack b <= 0 + hb_Limit b /\
  (forall r, None = Some r -> 0 < Remaining r -> 950000000 + hb_Slack b <= 0 + Remaining r).
Proof.
  apply (Outgoing_within (Some 1000000000) None 0 0 (mkHopBudget "partner" "Submit" (2 * Second) DefaultSlack Second)
           950000000).
  - by vm_compute.
  - by vm_compute.
  - lia.
  - intros d [= <-]. by vm_compute.
  - done.
  - vm_compute. reflexivity.
Defined.
