(* ===== verification/Outbox.v ===== *)
(** The transactional outbox in Postgres ([postgres/outbox.go], [mapper.go],
    [destination.go], [claim.go], [signals.go], [purge.go] and the schema of
    [outbox.sql]) and the envelope the relay assembles from a record
    ([app/relay/record.go]).

    The SQL statements are modelled on the table they name.  What the server
    and the network add is an argument: an [Answer] says whether a statement
    was applied and whether its caller heard of it, and a claim is told which
    rows other transactions hold ([FOR UPDATE SKIP LOCKED]).  The metadata
    column is [jsonb]: a document with unique keys, of which the code reads
    strings only. *)

From stdpp Require Import sorting.
From S2P Require Import Prelude GoStrings Regex DomainKernel Errors Ports Envelope.
#[local] Open Scope Z_scope.

(** * Metadata *)

(** Strings as [encoding/json] transports them: an invalid byte of UTF-8 becomes
    U+FFFD. *)
Definition json_string (s : string) : string := string_of (coerce_from 0 (bytes_of s)).

(** A value of a JSON object, and a document of the column. *)
Inductive json := JNull | JString (s : string) | JOther (text : string).
Inductive document :=
| DocEmpty                           (* no bytes at all *)
| DocNull
| DocObject (m : gmap string json)
| DocOther (text : string).          (* an array, a number, a string, or no JSON *)

(** [metadata -> key]. *)
Definition member (d : document) (key : string) : option json :=
  match d with DocObject m => m !! key | _ => None end.

Definition metaCorrelationID : string := "correlationid".
Definition metaCausationID : string := "causationid".
Definition metaTraceParent : string := "traceparent".
Definition metaTraceState : string := "tracestate".
Definition metaTenantID : string := "tenantid".

(** [omitempty]. *)
Definition put_member (key value : string) (m : gmap string json) : gmap string json :=
  if String.eqb value "" then m else <[key := JString (json_string value)]> m.

Definition encodeMetadata (mc : MessageContext) (tenant : TenantID) : document :=
  DocObject
    (put_member metaTenantID tenant
    (put_member metaTraceState (mc_Tracestate mc)
    (put_member metaTraceParent (mc_Traceparent mc)
    (put_member metaCausationID (mc_CausationID mc)
    (put_member metaCorrelationID (mc_CorrelationID mc) ∅))))).

Definition enqueueTenant (ctx : Ctx) : TenantID :=
  match ExecutionContextFrom ctx with
  | None => ""
  | Some execution => default "" (Tenant execution)
  end.

(** * The table ([outbox.sql]) *)
Inductive RowStatus := Pending | Publishing | Published | Failed.
#[global] Instance RowStatus_eq_dec : EqDecision RowStatus.
Proof. solve_decision. Defined.

Record OutboxRow := mkOutboxRow {
  o_message_id : string;
  o_message_type : string;
  o_schema_version : string;
  o_aggregate_type : string;
  o_aggregate_id : string;
  o_aggregate_version : Z;
  o_partition_key : string;
  o_destination : string;
  o_payload : bytes;
  o_payload_hash : string;
  o_metadata : document;
  o_occurred_at : Instant;
  o_available_at : Instant;
  o_attempt_count : Z;
  o_status : RowStatus;
  o_locked_by : option string;
  o_locked_until : option Instant;
  o_published_at : option Instant;
  o_last_error : option string
}.

(** Rows by their identity column; [t_next] is the next value it generates. *)
Record OutboxTable := mkOutboxTable { t_rows : gmap Z OutboxRow; t_next : Z }.

(** The answer the client of a statement gets: the statement was applied; it was
    not, for a reason of the server's or the network's; or it was, and the answer
    was lost. *)
Inductive Answer := Applied | Refused (e : error) | Lost (e : error).
Definition exec {T A} (answer : Answer) (statement : T -> A * T) (t : T) : result error A * T :=
  match answer with
  | Applied => let '(a, t') := statement t in (Ok a, t')
  | Refused e => (Err e, t)
  | Lost e => (Err e, (statement t).2)
  end.

(** ** Errors ([postgres/errors.go]) *)
Definition ErrEmptyMessageID : error := Sentinel "postgres.ErrEmptyMessageID".
Definition ErrInvalidDestination : error := Sentinel "postgres.ErrInvalidDestination".
Definition ErrEmptyMapping : error := Sentinel "postgres.ErrEmptyMapping".
Definition ErrDuplicateMessage : error := Sentinel "postgres.ErrDuplicateMessage".
Definition ErrClaimIdentityRequired : error := Sentinel "postgres.ErrClaimIdentityRequired".
Definition ErrInvalidBatchSize : error := Sentinel "postgres.ErrInvalidBatchSize".
Definition ErrInvalidLease : error := Sentinel "postgres.ErrInvalidLease".
Definition ErrPurgeBatchRequired : error := Sentinel "postgres.ErrPurgeBatchRequired".

(** * Writing ([outbox.go], [mapper.go], [destination.go]) *)

(** Lowercase dot-separated segments. *)
Definition destination_segment : re :=
  RSeq (RChar lower) (RStar (RChar (either lower digit))).
Definition destinationForm : re :=
  RSeq destination_segment (RStar (RSeq (RChar (is_char "."%char)) destination_segment)).
Definition checkDestination (destination : string) : result error unit :=
  require (re_match destinationForm destination) (Wrap destination ErrInvalidDestination).

(** What the code reads of a [proto.Message]: the package of its file, its full
    name, and its deterministic serialization. *)
Record ProtoMessage := mkProtoMessage {
  pm_Package : string;
  pm_FullName : string;
  pm_Marshal : result error bytes
}.
Record Mapped := mkMapped { map_Message : option ProtoMessage; map_Type : string }.

Definition majorOfDotted (dotted : string) : string := default "" (after_last dot dotted).

Definition checkMajor (mapped : Mapped) : result error ProtoMessage :=
  match map_Message mapped with
  | None => Err ErrEmptyMapping
  | Some message =>
      let contract := majorOfDotted (pm_Package message) in
      let declared := majorOfDotted (map_Type mapped) in
      if String.eqb contract "" || negb (String.eqb contract declared)
      then Err (Wrap "contract and type" ErrMajorMismatch)
      else Ok message
  end.

(** [envelope.Pack]. *)
Definition Pack (msg : ProtoMessage) : result error (bytes * string) :=
  payload ← pm_Marshal msg; Ok (payload, typeURLPrefix ++ pm_FullName msg)%string.

(** The INSERT and the constraints of the schema it can meet; the identity value
    is drawn before they are checked. *)
Definition unique_message (t : OutboxTable) (r : OutboxRow) : bool :=
  bool_decide (map_Forall (fun _ r' => o_message_id r' <> o_message_id r) (t_rows t)).
Definition insertOutbox (r : OutboxRow) (t : OutboxTable) : result error unit * OutboxTable :=
  let drawn := mkOutboxTable (t_rows t) (t_next t + 1) in
  if (o_available_at r <? o_occurred_at r) || (len (o_payload r) =? 0)
  then (Err (DriverError (Some "23514") None None None), drawn)
  else if negb (unique_message t r)
  then (Err (DriverError (Some "23505") None None None), drawn)
  else (Ok (), mkOutboxTable (<[t_next t := r]> (t_rows t)) (t_next t + 1)).

Definition isUniqueViolation (err : error) : bool :=
  match as_sql_state err with Some code => String.eqb code "23505" | None => false end.

(** [int64] of a [uint64]. *)
Definition int64_of (z : Z) : Z := wrap64 z.

(** The columns the INSERT authors; the others take the schema's defaults. *)
Definition entry_row {Event} (sha256 : bytes -> bytes) (ctx : Ctx) (entry : OutboxEntry Event)
    (mapped : Mapped) (payload : bytes) (typeURL : string) : OutboxRow := {|
  o_message_id := ent_MessageID entry; o_message_type := map_Type mapped;
  o_schema_version := typeURL; o_aggregate_type := ent_AggregateType entry;
  o_aggregate_id := ent_AggregateID entry;
  o_aggregate_version := int64_of (ent_AggregateVersion entry);
  o_partition_key := ent_PartitionKey entry; o_destination := ent_Destination entry;
  o_payload := payload; o_payload_hash := Sum sha256 payload;
  o_metadata := encodeMetadata (ent_Context entry) (enqueueTenant ctx);
  o_occurred_at := ent_OccurredAt entry; o_available_at := ent_OccurredAt entry;
  o_attempt_count := 0; o_status := Pending; o_locked_by := None; o_locked_until := None;
  o_published_at := None; o_last_error := None |}.

Definition Enqueue {Event} (mapper : Event -> result error Mapped) (sha256 : bytes -> bytes)
    (answer : Answer) (ctx : Ctx) (entry : OutboxEntry Event) : M OutboxTable error unit :=
  if String.eqb (ent_MessageID entry) "" then throw ErrEmptyMessageID else
  _ ← lift (checkDestination (ent_Destination entry));
  mapped ← lift (mapper (ent_Event entry));
  message ← lift (checkMajor mapped);
  packed ← lift (Pack message);
  inserted ← exec answer (insertOutbox (entry_row sha256 ctx entry mapped packed.1 packed.2));
  match inserted with
  | Ok () => mret ()
  | Panic p => panic p
  | Err err =>
      if isUniqueViolation err then throw (Join "enqueue" [ErrDuplicateMessage; err])
      else throw err
  end.

(** * Draining ([claim.go]) *)
Record Claimed := mkClaimed {
  c_ID : Z;
  c_MessageID : string;
  c_MessageType : string;
  c_SchemaVersion : string;
  c_AggregateType : string;
  c_AggregateID : string;
  c_AggregateVersion : Z;
  c_PartitionKey : string;
  c_Destination : string;
  c_Payload : bytes;
  c_PayloadHash : string;
  c_Metadata : document;
  c_OccurredAt : Instant;
  c_AttemptCount : Z;
  c_LockedBy : string
}.

(** [jsonb_typeof(metadata -> key) = 'string' AND metadata ->> key <> '']. *)
Definition string_member (d : document) (key : string) : bool :=
  match member d key with Some (JString s) => negb (String.eqb s "") | _ => false end.
Definition context_members (d : document) : bool :=
  string_member d metaCorrelationID && string_member d metaCausationID
  && string_member d metaTraceParent.

Definition lease_over (now : Instant) (r : OutboxRow) : bool :=
  match o_locked_until r with None => true | Some until => until <=? now end.
Definition eligible (now : Instant) (r : OutboxRow) : bool :=
  (o_available_at r <=? now)
  && match o_status r with
     | Pending => true
     | Publishing => lease_over now r
     | Published | Failed => false
     end
  && context_members (o_metadata r).

(** [ORDER BY available_at, id]. *)
Definition drain_order (a b : Z * OutboxRow) : Prop :=
  o_available_at a.2 < o_available_at b.2 \/
  (o_available_at a.2 = o_available_at b.2 /\ a.1 <= b.1).
#[global] Instance drain_order_dec : RelDecision drain_order.
Proof. intros a b. unfold drain_order. apply _. Defined.

Definition chosen (skip : Z -> bool) (now : Instant) (limit : Z) (t : OutboxTable)
  : list (Z * OutboxRow) :=
  take (Z.to_nat limit)
    (merge_sort drain_order
       (filter (fun ir => eligible now ir.2 = true /\ skip ir.1 = false)
          (map_to_list (t_rows t)))).

Definition lease_row (claimID : string) (until : Instant) (r : OutboxRow) : OutboxRow :=
  mkOutboxRow (o_message_id r) (o_message_type r) (o_schema_version r) (o_aggregate_type r)
    (o_aggregate_id r) (o_aggregate_version r) (o_partition_key r) (o_destination r)
    (o_payload r) (o_payload_hash r) (o_metadata r) (o_occurred_at r) (o_available_at r)
    (o_attempt_count r + 1) Publishing (Some claimID) (Some until) (o_published_at r)
    (o_last_error r).

Definition claimed_of (claimID : string) (ir : Z * OutboxRow) : Claimed :=
  let '(id, r) := ir in
  mkClaimed id (o_message_id r) (o_message_type r) (o_schema_version r) (o_aggregate_type r)
    (o_aggregate_id r) (o_aggregate_version r) (o_partition_key r) (o_destination r)
    (o_payload r) (o_payload_hash r) (o_metadata r) (o_occurred_at r) (o_attempt_count r + 1)
    claimID.

Definition claimStatement (skip : Z -> bool) (now : Instant) (limit : Z) (claimID : string)
    (until : Instant) (t : OutboxTable) : list Claimed * OutboxTable :=
  let rows := chosen skip now limit t in
  (map (claimed_of claimID) rows,
   mkOutboxTable
     (foldr (fun ir m => <[ir.1 := lease_row claimID until ir.2]> m) (t_rows t) rows)
     (t_next t)).

Definition Claim (answer : Answer) (skip : Z -> bool) (now : Instant)
    (claimID : string) (limit lease : Z) : M OutboxTable error (list Claimed) :=
  if String.eqb claimID "" then throw ErrClaimIdentityRequired
  else if limit <=? 0 then throw ErrInvalidBatchSize
  else if lease <=? 0 then throw ErrInvalidLease
  else exec answer (claimStatement skip now limit claimID (now +! lease)).

(** ** Transitions, each conditioned on the claim *)
Definition published_row (now : Instant) (r : OutboxRow) : OutboxRow :=
  mkOutboxRow (o_message_id r) (o_message_type r) (o_schema_version r) (o_aggregate_type r)
    (o_aggregate_id r) (o_aggregate_version r) (o_partition_key r) (o_destination r)
    (o_payload r) (o_payload_hash r) (o_metadata r) (o_occurred_at r) (o_available_at r)
    (o_attempt_count r) Published (o_locked_by r) None (Some now) None.
Definition rescheduled_row (availableAt : Instant) (lastError : string) (r : OutboxRow)
  : OutboxRow :=
  mkOutboxRow (o_message_id r) (o_message_type r) (o_schema_version r) (o_aggregate_type r)
    (o_aggregate_id r) (o_aggregate_version r) (o_partition_key r) (o_destination r)
    (o_payload r) (o_payload_hash r) (o_metadata r) (o_occurred_at r)
    (Z.max availableAt (o_occurred_at r))
    (o_attempt_count r) (o_status r) (o_locked_by r) None (o_published_at r)
    (if String.eqb lastError "" then o_last_error r else Some lastError).
Definition failed_row (lastError : string) (r : OutboxRow) : OutboxRow :=
  mkOutboxRow (o_message_id r) (o_message_type r) (o_schema_version r) (o_aggregate_type r)
    (o_aggregate_id r) (o_aggregate_version r) (o_partition_key r) (o_destination r)
    (o_payload r) (o_payload_hash r) (o_metadata r) (o_occurred_at r) (o_available_at r)
    (o_attempt_count r) Failed (o_locked_by r) None (o_published_at r) (Some lastError).

(** [UPDATE outbox SET … WHERE id = $1 AND locked_by = $2]: the rows affected. *)
Definition update_claimed (f : OutboxRow -> OutboxRow) (id : Z) (claimID : string)
    (t : OutboxTable) : Z * OutboxTable :=
  match t_rows t !! id with
  | Some r =>
      if bool_decide (o_locked_by r = Some claimID)
      then (1, mkOutboxTable (<[id := f r]> (t_rows t)) (t_next t))
      else (0, t)
  | None => (0, t)
  end.

Definition transition (answer : Answer) (f : OutboxRow -> OutboxRow) (id : Z) (claimID : string)
  : M OutboxTable error Z :=
  if String.eqb claimID "" then throw ErrClaimIdentityRequired
  else exec answer (update_claimed f id claimID).
Definition MarkPublished (answer : Answer) (now : Instant) (id : Z) (claimID : string) :=
  transition answer (published_row now) id claimID.
Definition Reschedule (answer : Answer) (id : Z) (claimID : string) (availableAt : Instant)
    (lastError : string) :=
  transition answer (rescheduled_row availableAt lastError) id claimID.
Definition Fail (answer : Answer) (id : Z) (claimID : string) (lastError : string) :=
  transition answer (failed_row lastError) id claimID.

(** * Signals and retention ([signals.go], [purge.go]) *)
Record OutboxHealth := mkOutboxHealth {
  h_Pending : Z; h_Lag : Z; h_Attempts : Z; h_Failures : Z
}.
Definition owed (r : OutboxRow) : bool :=
  match o_status r with Pending | Publishing => true | _ => false end.
Definition OutboxSignals (answer : Answer) (now : Instant) : M OutboxTable error OutboxHealth :=
  exec answer (fun t =>
    let rows := (map_to_list (t_rows t)).*2 in
    let pending := filter (fun r => owed r = true) rows in
    let oldest := match pending with
                  | [] => 0
                  | r :: rs => foldr (fun r' m => Z.min (o_occurred_at r') m) (o_occurred_at r) rs
                  end in
    (mkOutboxHealth (len pending)
       (if (0 <? len pending) && (oldest <? now) then now -! oldest else 0)
       (foldr (fun r n => o_attempt_count r + n) 0 pending)
       (len (filter (fun r => o_status r = Failed) rows)), t)).

(** The DELETE takes any [batch] rows the predicate selects; the argument says
    which the server picks. *)
Definition purgeable (before : Instant) (r : OutboxRow) : bool :=
  bool_decide (o_status r = Published) &&
  match o_published_at r with Some at_ => at_ <? before | None => false end.
Definition PurgePublished (answer : Answer) (pick : list Z -> list Z) (before : Instant)
    (batch : Z) : M OutboxTable error Z :=
  if batch <=? 0 then throw ErrPurgeBatchRequired
  else exec answer (fun t =>
    let ids := take (Z.to_nat batch)
                 (pick (filter (fun ir => purgeable before ir.2 = true)
                          (map_to_list (t_rows t))).*1) in
    (len ids, mkOutboxTable (foldr delete (t_rows t) ids) (t_next t))).

(** * Assembling the envelope ([app/relay/record.go]) *)
Definition ErrSourceRequired : error := Sentinel "relay.ErrSourceRequired".
Definition ErrPayloadHashMismatch : error := Sentinel "relay.ErrPayloadHashMismatch".
Definition ErrMissingContextAttributes : error := Sentinel "relay.ErrMissingContextAttributes".
Definition ErrAggregateVersionOutOfRange : error :=
  Sentinel "relay.ErrAggregateVersionOutOfRange".

(** The map [contextAttributes] builds, by its five keys; an absent key reads as
    the empty string. *)
Record ContextAttributes := mkContextAttributes {
  at_CorrelationID : string;
  at_CausationID : string;
  at_TraceParent : string;
  at_TenantID : string;
  at_TraceState : string
}.

(** [json.Unmarshal] of a document into a map, and of a value into a string. *)
Definition unmarshal_object (metadata : document) : option (gmap string json) :=
  match metadata with
  | DocEmpty | DocNull => Some ∅
  | DocObject m => Some m
  | DocOther _ => None
  end.
Definition unmarshal_string (value : json) : option string :=
  match value with JString s => Some s | JNull => Some "" | JOther _ => None end.

Definition not_a_string (key : string) : error := Wrap key ErrMissingContextAttributes.
Definition nonempty_text (key : string) (value : json) : result error string :=
  match unmarshal_string value with
  | Some text => if String.eqb text "" then Err (not_a_string key) else Ok text
  | None => Err (not_a_string key)
  end.
Definition required_member (raw : gmap string json) (key : string) : result error string :=
  match raw !! key with
  | None => Err (Wrap key ErrMissingContextAttributes)
  | Some value => nonempty_text key value
  end.

Definition contextAttributes (metadata : document) : result error ContextAttributes :=
  match unmarshal_object metadata with
  | None => Err (Wrap "metadata is not a JSON object" ErrMissingContextAttributes)
  | Some raw =>
      correlation ← required_member raw metaCorrelationID;
      causation ← required_member raw metaCausationID;
      traceparent ← required_member raw metaTraceParent;
      tenant ← match raw !! metaTenantID with
               | None => Ok ""%string
               | Some value => nonempty_text metaTenantID value
               end;
      Ok (mkContextAttributes correlation causation traceparent tenant
            match raw !! metaTraceState with
            | None => ""
            | Some value => default "" (unmarshal_string value)
            end)
  end.

(** [timestamppb.New(time.Unix(0, n).UTC())]. *)
Definition timestamp_of (n : Instant) : Timestamp :=
  mkTimestamp (n / 1000000000) (n mod 1000000000).

Definition nonempty (s : string) : option string := if String.eqb s "" then None else Some s.

Definition Assemble (sha256 : bytes -> bytes) (record : Claimed) (source : string)
  : result error Envelope :=
  if String.eqb source "" then Err ErrSourceRequired
  else if negb (String.eqb (Sum sha256 (c_Payload record)) (c_PayloadHash record))
  then Err (Wrap "stored and computed" ErrPayloadHashMismatch)
  else if (c_AggregateVersion record <? 0) || (2 ^ 31 - 1 <? c_AggregateVersion record)
  then Err (Wrap "aggregate version" ErrAggregateVersionOutOfRange)
  else
    attributes ← contextAttributes (c_Metadata record);
    Ok {| env_ID := c_MessageID record; env_Source := source; env_SpecVersion := SpecVersion;
          env_Type := c_MessageType record; env_Subject := c_AggregateID record;
          env_Time := Some (timestamp_of (c_OccurredAt record));
          env_DataSchema := c_SchemaVersion record; env_DataContentType := ContentType;
          env_CorrelationID := at_CorrelationID attributes;
          env_CausationID := at_CausationID attributes;
          env_PartitionKey := c_PartitionKey record;
          env_TraceParent := at_TraceParent attributes;
          env_AggregateVersion := Some (c_AggregateVersion record);
          env_TenantID := nonempty (at_TenantID attributes);
          env_TraceState := nonempty (at_TraceState attributes);
          env_Payload := c_Payload record |}.

(** * Lemmas *)

Lemma json_string_valid s : valid_utf8 s = true -> json_string s = s.
Proof.
  unfold valid_utf8, json_string. intros Hv. rewrite coerce_valid by done.
  apply string_of_bytes_of.
Qed.

(** ** Metadata *)
Lemma put_member_ne key key' value m :
  key <> key' -> put_member key value m !! key' = m !! key'.
Proof. unfold put_member. intros. case_match; [done | by rewrite lookup_insert_ne]. Qed.
Lemma put_member_eq key value m :
  m !! key = None ->
  put_member key value m !! key =
    if String.eqb value "" then None else Some (JString (json_string value)).
Proof. unfold put_member. intros. case_match; [done | by rewrite lookup_insert_eq]. Qed.

Ltac simpl_member :=
  repeat first
    [ rewrite put_member_ne by discriminate
    | rewrite put_member_eq by
        (repeat rewrite put_member_ne by discriminate; apply lookup_empty) ].

Record full_context (mc : MessageContext) (tenant : TenantID) : Prop := {
  full_correlation : mc_CorrelationID mc <> ""%string /\ valid_utf8 (mc_CorrelationID mc) = true;
  full_causation : mc_CausationID mc <> ""%string /\ valid_utf8 (mc_CausationID mc) = true;
  full_traceparent : mc_Traceparent mc <> ""%string /\ valid_utf8 (mc_Traceparent mc) = true;
  full_tracestate : valid_utf8 (mc_Tracestate mc) = true;
  full_tenant : valid_utf8 tenant = true
}.

Lemma eqb_neq_false (s : string) : s <> ""%string -> String.eqb s "" = false.
Proof. by apply String.eqb_neq. Qed.

Lemma encodeMetadata_members mc tenant :
  full_context mc tenant -> context_members (encodeMetadata mc tenant) = true.
Proof.
  intros [[Hc1 Hc2] [Ha1 Ha2] [Ht1 Ht2] _ _].
  unfold context_members, string_member, encodeMetadata, member. simpl_member.
  rewrite (eqb_neq_false _ Hc1), (eqb_neq_false _ Ha1), (eqb_neq_false _ Ht1).
  rewrite !json_string_valid by done.
  by rewrite (eqb_neq_false _ Hc1), (eqb_neq_false _ Ha1), (eqb_neq_false _ Ht1).
Qed.

Lemma contextAttributes_encodeMetadata mc tenant :
  full_context mc tenant ->
  contextAttributes (encodeMetadata mc tenant) =
    Ok (mkContextAttributes (mc_CorrelationID mc) (mc_CausationID mc) (mc_Traceparent mc)
          tenant (mc_Tracestate mc)).
Proof.
  intros [[Hc1 Hc2] [Ha1 Ha2] [Ht1 Ht2] Hs Hn].
  unfold contextAttributes, encodeMetadata, required_member. cbn [unmarshal_object].
  simpl_member. rewrite (eqb_neq_false _ Hc1), (eqb_neq_false _ Ha1), (eqb_neq_false _ Ht1).
  unfold nonempty_text. cbn [unmarshal_string]. rewrite !json_string_valid by done.
  rewrite (eqb_neq_false _ Hc1), (eqb_neq_false _ Ha1), (eqb_neq_false _ Ht1). cbn.
  destruct (String.eqb_spec tenant ""), (String.eqb_spec (mc_Tracestate mc) "");
    cbn; subst; rewrite ?json_string_valid, ?eqb_neq_false by done; cbn;
    rewrite ?json_string_valid by done; congruence.
Qed.

(** ** Inserting *)
Lemma Enqueue_inv {Event} (mapper : Event -> result error Mapped) sha256 answer ctx entry t t' :
  Enqueue mapper sha256 answer ctx entry t = (Ok (), t') ->
  exists mapped message payload,
    mapper (ent_Event entry) = Ok mapped /\ checkMajor mapped = Ok message /\
    pm_Marshal message = Ok payload /\
    insertOutbox (entry_row sha256 ctx entry mapped payload (typeURLPrefix ++ pm_FullName message)) t
      = (Ok (), t').
Proof.
  unfold Enqueue. case_match; [done |].
  intros ([] & t1 & Hd & HE)%bind_inv. injection Hd as _ <-.
  apply bind_inv in HE as (mapped & t2 & Hm & HE). injection Hm as Hm <-.
  apply bind_inv in HE as (message & t3 & Hc & HE). injection Hc as Hc <-.
  apply bind_inv in HE as ([payload url] & t4 & Hp & HE). injection Hp as Hp <-.
  unfold Pack in Hp. apply result_bind_inv in Hp as (payload' & Hp & [= <- <-]).
  apply bind_inv in HE as (inserted & t5 & Hx & HE).
  exists mapped, message, payload'. repeat split; [done .. |].
  unfold exec in Hx. cbn [fst snd] in Hx.
  destruct answer; [| done ..].
  destruct (insertOutbox _ t) as [r t6]. injection Hx as <- <-.
  destruct r as [[] | e | p]; [by injection HE as <- | by case_match | done].
Qed.

Lemma insertOutbox_inv r t t' :
  insertOutbox r t = (Ok (), t') ->
  o_occurred_at r <= o_available_at r /\ o_payload r <> [] /\ unique_message t r = true /\
  t' = mkOutboxTable (<[t_next t := r]> (t_rows t)) (t_next t + 1).
Proof.
  unfold insertOutbox.
  destruct (Z.ltb_spec (o_available_at r) (o_occurred_at r)); [done |].
  destruct (Z.eqb_spec (len (o_payload r)) 0); [done |]. cbn [orb].
  destruct (unique_message t r); [| done]. intros [= <-].
  split; [done |]. split; [| done]. intros Hp. by rewrite Hp in *.
Qed.

(** ** The schema's constraints as an invariant *)
Record table_ok (t : OutboxTable) : Prop := {
  ok_fresh : map_Forall (fun id _ => id < t_next t) (t_rows t);
  ok_unique : forall i j r r', t_rows t !! i = Some r -> t_rows t !! j = Some r' ->
                o_message_id r = o_message_id r' -> i = j;
  ok_available : map_Forall (fun _ r => o_occurred_at r <= o_available_at r) (t_rows t)
}.

Lemma table_ok_fresh t : table_ok t -> t_rows t !! t_next t = None.
Proof.
  intros [Hf _ _]. destruct (t_rows t !! t_next t) eqn:Hl; [| done].
  apply Hf in Hl. lia.
Qed.

Lemma insert_table_ok r t t' : table_ok t -> insertOutbox r t = (Ok (), t') -> table_ok t'.
Proof.
  intros Hok (Ha & _ & Hu & ->)%insertOutbox_inv.
  pose proof (table_ok_fresh t Hok) as Hn. destruct Hok as [Hf HU HA].
  unfold unique_message in Hu. apply bool_decide_eq_true in Hu.
  split; cbn [t_rows t_next].
  - apply map_Forall_insert_2; [lia |]. intros i r' Hl. apply Hf in Hl. lia.
  - intros i j r1 r2 H1 H2 Hm.
    apply lookup_insert_Some in H1 as [[<- <-] | [Hi H1]];
      apply lookup_insert_Some in H2 as [[<- <-] | [Hj H2]]; [done | | | by eapply HU].
    + apply Hu in H2. congruence.
    + apply Hu in H1. congruence.
  - by apply map_Forall_insert_2.
Qed.

(** An update that keeps identifiers and the order of its instants. *)
Lemma update_table_ok id r r' t :
  table_ok t -> t_rows t !! id = Some r -> o_message_id r' = o_message_id r ->
  o_occurred_at r' <= o_available_at r' ->
  table_ok (mkOutboxTable (<[id := r']> (t_rows t)) (t_next t)).
Proof.
  intros [Hf HU HA] Hl Hm Ha. split; cbn [t_rows t_next].
  - apply map_Forall_insert_2; [by apply (Hf id r) | done].
  - intros i j r1 r2 H1 H2 He.
    apply lookup_insert_Some in H1 as [[<- <-] | [Hi H1]];
      apply lookup_insert_Some in H2 as [[<- <-] | [Hj H2]].
    + done.
    + by apply (HU _ _ r r2); [| | congruence].
    + by apply (HU _ _ r1 r); [| | congruence].
    + by eapply HU.
  - by apply map_Forall_insert_2.
Qed.

(** ** Claiming *)
#[global] Instance drain_order_trans : Transitive drain_order.
Proof. intros a b c. unfold drain_order. lia. Qed.
#[global] Instance drain_order_total : Total drain_order.
Proof. intros a b. unfold drain_order. lia. Qed.

Definition candidates (skip : Z -> bool) (now : Instant) (t : OutboxTable)
  : list (Z * OutboxRow) :=
  filter (fun ir => eligible now ir.2 = true /\ skip ir.1 = false) (map_to_list (t_rows t)).

Lemma candidates_spec skip now t id r :
  (id, r) ∈ candidates skip now t <->
  t_rows t !! id = Some r /\ eligible now r = true /\ skip id = false.
Proof.
  unfold candidates. rewrite list_elem_of_filter, elem_of_map_to_list. naive_solver.
Qed.

Lemma NoDup_fst_filter {A B} (P : A * B -> Prop) `{!forall x, Decision (P x)} (l : list (A * B)) :
  NoDup l.*1 -> NoDup (filter P l).*1.
Proof.
  induction l as [| ab l IH]; [done |]. rewrite fmap_cons, NoDup_cons. intros [Hn Hl].
  rewrite filter_cons. case_decide; [| by apply IH].
  rewrite fmap_cons, NoDup_cons. split; [| by apply IH].
  intros (ab' & He & Hin)%list_elem_of_fmap. apply Hn. rewrite He.
  apply list_elem_of_filter in Hin as [_ Hin]. by apply list_elem_of_fmap_2.
Qed.

Lemma candidates_NoDup skip now t : NoDup (candidates skip now t).*1.
Proof. apply NoDup_fst_filter, NoDup_fst_map_to_list. Qed.

Lemma chosen_split skip now limit t :
  exists rest,
    chosen skip now limit t ++ rest = merge_sort drain_order (candidates skip now t) /\
    (rest <> [] -> len (chosen skip now limit t) = Z.max 0 limit).
Proof.
  exists (drop (Z.to_nat limit) (merge_sort drain_order (candidates skip now t))).
  unfold chosen, candidates. split; [apply take_drop |].
  intros Hr. unfold len. rewrite length_take.
  destruct (decide (Z.to_nat limit <= length (merge_sort drain_order (candidates skip now t)))%nat).
  - unfold candidates in *. lia.
  - destruct Hr. apply drop_ge. unfold candidates in *. lia.
Qed.

Lemma chosen_spec skip now limit t id r :
  (id, r) ∈ chosen skip now limit t ->
  t_rows t !! id = Some r /\ eligible now r = true /\ skip id = false.
Proof.
  destruct (chosen_split skip now limit t) as (rest & Hc & _). intros Hin.
  apply candidates_spec. rewrite <- (merge_sort_Permutation drain_order), <- Hc.
  apply elem_of_app. by left.
Qed.

Lemma chosen_NoDup skip now limit t : NoDup (chosen skip now limit t).*1.
Proof.
  destruct (chosen_split skip now limit t) as (rest & Hc & _).
  pose proof (candidates_NoDup skip now t) as Hn.
  rewrite <- (merge_sort_Permutation drain_order), <- Hc, fmap_app in Hn.
  by apply NoDup_app in Hn as [Hn _].
Qed.

(** What a claim leaves out is left out by the limit, and comes later. *)
Lemma chosen_first skip now limit t id r :
  t_rows t !! id = Some r -> eligible now r = true -> skip id = false ->
  (id, r) ∉ chosen skip now limit t ->
  len (chosen skip now limit t) = Z.max 0 limit /\
  Forall (fun ir => drain_order ir (id, r)) (chosen skip now limit t).
Proof.
  intros Hl He Hs Hn. destruct (chosen_split skip now limit t) as (rest & Hc & Hr).
  assert ((id, r) ∈ rest) as Hin.
  { assert ((id, r) ∈ chosen skip now limit t ++ rest) as Hi.
    { rewrite Hc, (merge_sort_Permutation drain_order). by apply candidates_spec. }
    apply elem_of_app in Hi as [? | ?]; done. }
  split; [apply Hr; intros ->; by apply elem_of_nil in Hin |].
  apply Forall_forall. intros ir Hir.
  apply (StronglySorted_app_1_elem_of drain_order (chosen skip now limit t) rest); [| done ..].
  rewrite Hc. apply Sorted_StronglySorted; [apply _ | apply Sorted_merge_sort, _].
Qed.

Definition lease_rows (claimID : string) (until : Instant) (rows : list (Z * OutboxRow))
    (m : gmap Z OutboxRow) : gmap Z OutboxRow :=
  foldr (fun ir m => <[ir.1 := lease_row claimID until ir.2]> m) m rows.

Lemma lease_rows_out claimID until rows m id :
  id ∉ rows.*1 -> lease_rows claimID until rows m !! id = m !! id.
Proof.
  induction rows as [| [i r] rows IH]; [done |]. cbn.
  intros [Hi Hn]%not_elem_of_cons. rewrite lookup_insert_ne by done. by apply IH.
Qed.

Lemma lease_rows_in claimID until rows m id r :
  NoDup rows.*1 -> (id, r) ∈ rows ->
  lease_rows claimID until rows m !! id = Some (lease_row claimID until r).
Proof.
  induction rows as [| [i r'] rows IH]; [by intros _ ?%elem_of_nil |]. cbn.
  intros [Hi Hn]%NoDup_cons [[= -> ->] | Hin]%elem_of_cons; [by rewrite lookup_insert_eq |].
  rewrite lookup_insert_ne; [by apply IH |].
  intros ->. apply Hi. by apply (list_elem_of_fmap_2 fst rows (id, r)).
Qed.

(** A row a claim takes, or leaves as it was. *)
Lemma claimStatement_rows skip now limit claimID until t id r' :
  t_rows (claimStatement skip now limit claimID until t).2 !! id = Some r' ->
  exists r, t_rows t !! id = Some r /\
    (r' = r \/
     (r' = lease_row claimID until r /\ (id, r) ∈ chosen skip now limit t)).
Proof.
  cbn. fold (lease_rows claimID until (chosen skip now limit t) (t_rows t)).
  destruct (decide (id ∈ (chosen skip now limit t).*1)) as [Hin | Hn].
  - apply list_elem_of_fmap in Hin as ([i r] & Hi & Hin). cbn in Hi. subst i.
    rewrite (lease_rows_in _ _ _ _ id r) by (apply chosen_NoDup || done). intros [= <-].
    exists r. split; [by destruct (chosen_spec _ _ _ _ _ _ Hin) | auto].
  - rewrite lease_rows_out by done. eauto.
Qed.

Lemma claim_table_ok skip now limit claimID until t :
  table_ok t -> table_ok (claimStatement skip now limit claimID until t).2.
Proof.
  intros [Hf HU HA].
  assert (forall id r', t_rows (claimStatement skip now limit claimID until t).2 !! id = Some r' ->
    exists r, t_rows t !! id = Some r /\ o_message_id r' = o_message_id r /\
      o_occurred_at r' <= o_available_at r') as Hr.
  { intros id r' (r & Hl & Hc)%claimStatement_rows. exists r. specialize (HA _ _ Hl).
    destruct Hc as [-> | [-> _]]; done. }
  split.
  - intros id r' (r & Hl & _)%Hr. by apply (Hf id r).
  - intros i j r1 r2 (r1' & H1 & Hm1 & _)%Hr (r2' & H2 & Hm2 & _)%Hr Hm.
    apply (HU i j r1' r2'); congruence.
  - by intros id r' (r & _ & _ & Ha)%Hr.
Qed.

(** ** Transitions *)
Lemma update_claimed_inv f id claimID t n t' :
  update_claimed f id claimID t = (n, t') ->
  (n = 0 /\ t' = t /\
   forall r, t_rows t !! id = Some r -> o_locked_by r <> Some claimID) \/
  (exists r, n = 1 /\ t_rows t !! id = Some r /\ o_locked_by r = Some claimID /\
     t' = mkOutboxTable (<[id := f r]> (t_rows t)) (t_next t)).
Proof.
  unfold update_claimed. destruct (t_rows t !! id) as [r |] eqn:Hl;
    [case_bool_decide |]; intros [= <- <-].
  - right. eauto.
  - left. naive_solver.
  - left. naive_solver.
Qed.

Lemma update_claimed_ok f id claimID t :
  (forall r, o_message_id (f r) = o_message_id r) ->
  (forall r, o_occurred_at r <= o_available_at r ->
     o_occurred_at (f r) <= o_available_at (f r)) ->
  table_ok t -> table_ok (update_claimed f id claimID t).2.
Proof.
  intros Hm Ha Hok. destruct (update_claimed f id claimID t) as [n t'] eqn:Hu.
  apply update_claimed_inv in Hu as [(_ & -> & _) | (r & _ & Hl & _ & ->)]; [done |].
  apply (update_table_ok id r); [done | done | apply Hm |].
  by apply Ha, (ok_available _ Hok id).
Qed.
