(* ===== verification/Relay.v ===== *)
(** The relay that drains the outbox ([app/relay]): its configuration and
    backoff, the delivery of one claimed record, and the whole system of relays
    over one table as a step relation.

    A goroutine's delivery is a program: a tree of the calls it makes, each
    followed by what it does with the answer.  [sy_step] interleaves the calls of
    every goroutine of every relay with the scans of [Run], the writes of the
    application, retention, cancellation and crashes, so a theorem about
    reachable systems holds for every schedule. *)

From stdpp Require Import sorting.
From S2P Require Import Prelude Regex DomainKernel Errors Ports Envelope Outbox GoTime.
#[local] Open Scope Z_scope.

(** * Configuration ([config.go], [relay.go]) *)
Definition ErrInvalidConfig : error := Sentinel "relay.ErrInvalidConfig".
Definition ErrIncompleteRelay : error := Sentinel "relay.ErrIncompleteRelay".
Definition ErrPanicked : error := Sentinel "relay.ErrPanicked".

Record Config := mkConfig {
  cfg_Source : string;
  cfg_Interval : Z;
  cfg_BatchSize : Z;
  cfg_Lease : Z;
  cfg_Concurrency : Z;
  cfg_MaxAttempts : Z;
  cfg_BackoffBase : Z;
  cfg_BackoffCeiling : Z;
  cfg_ShutdownGrace : Z
}.

Fixpoint first_bad (checks : list (string * bool)) : result error unit :=
  match checks with
  | [] => Ok ()
  | (field, bad) :: rest => if bad : bool then Err (Wrap field ErrInvalidConfig) else first_bad rest
  end.

Definition Config_Validate (c : Config) : result error unit :=
  first_bad
    [("source"%string, String.eqb (cfg_Source c) ""); ("interval"%string, cfg_Interval c <=? 0);
     ("batch size"%string, cfg_BatchSize c <=? 0); ("lease"%string, cfg_Lease c <=? 0);
     ("concurrency"%string, cfg_Concurrency c <=? 0); ("backoff base"%string, cfg_BackoffBase c <? 0);
     ("backoff ceiling"%string, cfg_BackoffCeiling c <? cfg_BackoffBase c);
     ("shutdown grace"%string, cfg_ShutdownGrace c <? 0)].

(** [windowFor]: [ceiling >> shift] is arithmetic, [base << shift] wraps. *)
Definition windowFor (base ceiling attempt : Z) : Z :=
  if base <=? 0 then 0
  else
    let attempt := if attempt <? 1 then 1 else attempt in
    let shift := attempt -! 1 in
    if (64 <=? shift) || (Z.shiftr ceiling shift <? base) then ceiling
    else wrap64 (Z.shiftl base shift).

(** [ExponentialBackoff]; [jitter] is the fraction drawn, [None] without a source. *)
Definition ExponentialBackoff (base ceiling : Z) (jitter : option float64) (attempt : Z) : Z :=
  let window := windowFor base ceiling attempt in
  let half := Z.quot window 2 in
  match jitter with
  | None => half
  | Some j => half +! float_trunc (float_mul j (float_of_Z (window -! half)))
  end.

(** The collaborators of a [Relay] are the system's; this is what it is told.  A
    nil [Backoff] is [None]. *)
Record Relay := mkRelay {
  r_Source : string;
  r_Interval : Z;
  r_BatchSize : Z;
  r_Lease : Z;
  r_Concurrency : Z;
  r_MaxAttempts : Z;
  r_ShutdownGrace : Z;
  r_Backoff : option (float64 -> Z -> Z)
}.

Definition New (config : Config) : result error Relay :=
  _ ← Config_Validate config;
  Ok (mkRelay (cfg_Source config) (cfg_Interval config) (cfg_BatchSize config)
        (cfg_Lease config) (cfg_Concurrency config) (cfg_MaxAttempts config)
        (cfg_ShutdownGrace config)
        (Some (fun jitter => ExponentialBackoff (cfg_BackoffBase config)
                               (cfg_BackoffCeiling config) (Some jitter)))).

(** [validate], with every collaborator present. *)
Definition validate (r : Relay) : result error unit :=
  if String.eqb (r_Source r) "" then Err ErrIncompleteRelay
  else if (r_Interval r <=? 0) || (r_BatchSize r <=? 0) || (r_Lease r <=? 0)
          || (r_Concurrency r <=? 0)
  then Err ErrIncompleteRelay
  else Ok ().

Definition defaultShutdownGrace : Z := 5 * Second.
Definition shutdownGrace (r : Relay) : Z :=
  if r_ShutdownGrace r <=? 0 then defaultShutdownGrace else r_ShutdownGrace r.

(** * Delivering one record ([publish.go], [send.go]) *)
Inductive disposition :=
| dispositionPublished | dispositionRescheduled | dispositionFailed | dispositionClaimLost
| dispositionAbandoned.
#[global] Instance disposition_eq_dec : EqDecision disposition.
Proof. solve_decision. Defined.

(** How a delivery ends: [deliver]'s two results, or a panic. *)
Inductive delivery := Delivered (d : disposition) (err : option error) | DeliveryPanicked.

(** The calls a delivery makes; a call may panic, as its answer says. *)
Inductive prog :=
| Ret (d : delivery)
| OpNow (k : Instant -> prog)                                   (* [r.Clock.Now()] *)
| OpJitter (k : float64 -> prog)                                (* [rand.Float64()] *)
| OpCtxErr (k : option error -> prog)                           (* [ctx.Err()] *)
| OpPublish (destination : string) (message : bytes) (k : result error unit -> prog)
| OpMarkPublished (id : Z) (claimID : string) (k : result error Z -> prog)
| OpReschedule (id : Z) (claimID : string) (availableAt : Instant) (reason : string)
    (k : result error Z -> prog)
| OpFail (id : Z) (claimID : string) (reason : string) (k : result error Z -> prog).

Definition settle (intended : disposition) (answer : result error Z) : prog :=
  match answer with
  | Err e => Ret (Delivered intended (Some e))
  | Ok affected =>
      if affected =? 0 then Ret (Delivered dispositionClaimLost None)
      else Ret (Delivered intended None)
  | Panic _ => Ret DeliveryPanicked
  end.

Section Deliver.
Context `{C : ProtoCodec} (sha256 : bytes -> bytes).
(** [err.Error()] and [%T] of an error. *)
Context (error_text error_type : error -> string).

Definition assembled (record : Claimed) (source : string) : result error bytes :=
  env ← Assemble sha256 record source; Marshal env.

Definition ownError (err : error) : string := error_text err.
Definition transportError (err : error) : string :=
  "relay: delivery failed (" ++ error_type err ++ ")".

Definition terminal (record : Claimed) (reason : string) : prog :=
  OpFail (c_ID record) (c_LockedBy record) reason (settle dispositionFailed).

(** [r.Clock.Now() + backoffFor(attempt)], evaluated left to right. *)
Definition reschedule (r : Relay) (record : Claimed) (reason : string) : prog :=
  OpNow (fun now =>
    let write backoff :=
      OpReschedule (c_ID record) (c_LockedBy record) (now +! backoff) reason
        (settle dispositionRescheduled) in
    match r_Backoff r with
    | None => write 0
    | Some backoff => OpJitter (fun jitter => write (backoff jitter (c_AttemptCount record)))
    end).

Definition deliver (r : Relay) (record : Claimed) : prog :=
  match assembled record (r_Source r) with
  | Panic _ => Ret DeliveryPanicked
  | Err own => terminal record (ownError own)
  | Ok message =>
      OpPublish (c_Destination record) message (fun published =>
        match published with
        | Panic _ => Ret DeliveryPanicked
        | Err publishErr =>
            OpCtxErr (fun done_ =>
              match done_ with
              | Some _ => Ret (Delivered dispositionAbandoned (Some publishErr))
              | None =>
                  if (0 <? r_MaxAttempts r) && (r_MaxAttempts r <=? c_AttemptCount record)
                  then terminal record (transportError publishErr)
                  else reschedule r record (transportError publishErr)
              end)
        | Ok () =>
            OpMarkPublished (c_ID record) (c_LockedBy record) (settle dispositionPublished)
        end)
  end.
End Deliver.

(** * The system *)

(** [held]: the claims one scan still owns, by record. *)
Definition held := gmap Z Claimed.
Definition take_held (h : held) (record : Claimed) : held := <[c_ID record := record]> h.
Definition settled (h : held) (id : Z) : held := delete id h.
Definition new_held (claimed : list Claimed) : held := foldl take_held ∅ claimed.

(** Where [Run] is.  [Scanning]: the records not started yet, the goroutines
    started, what the scan still holds, and whether a goroutine panicked.
    [Releasing]: the claims still to hand back, at one instant. *)
Inductive phase :=
| Idle
| Waiting
| Scanning (waiting : list Claimed) (running : list (Claimed * prog)) (holding : held)
    (fault : bool)
| Releasing (holding : held) (now : Instant) (fault : bool)
| Stopped (err : option error).

Record process := mkProcess { p_relay : Relay; p_cancelled : bool; p_phase : phase }.

(** The broker's log, the claim identities minted so far, and the rows as they
    were written, are kept for the theorems; no step reads the first and the
    last. *)
Record system := mkSystem {
  sy_table : OutboxTable;
  sy_accepted : list (string * bytes);
  sy_claims : gset string;
  sy_enqueued : gmap Z OutboxRow;
  sy_relays : gmap nat process
}.

Definition with_table (s : system) (t : OutboxTable) : system :=
  mkSystem t (sy_accepted s) (sy_claims s) (sy_enqueued s) (sy_relays s).
Definition with_phase (s : system) (i : nat) (p : process) (ph : phase) : system :=
  mkSystem (sy_table s) (sy_accepted s) (sy_claims s) (sy_enqueued s)
    (<[i := mkProcess (p_relay p) (p_cancelled p) ph]> (sy_relays s)).

(** [ctx.Err()] of a relay's context. *)
Definition ctx_err (p : process) : option error :=
  if p_cancelled p then Some ContextCanceled else None.

(** One call of a goroutine against the table and the broker. *)
Inductive prog_step (p : process) : OutboxTable * list (string * bytes) -> prog ->
    OutboxTable * list (string * bytes) -> prog -> Prop :=
| step_now t l k now : prog_step p (t, l) (OpNow k) (t, l) (k now)
| step_jitter t l k j : prog_step p (t, l) (OpJitter k) (t, l) (k j)
| step_ctx t l k : prog_step p (t, l) (OpCtxErr k) (t, l) (k (ctx_err p))
| step_publish_ok t l dest msg k :
    prog_step p (t, l) (OpPublish dest msg k) (t, (dest, msg) :: l) (k (Ok ()))
| step_publish_bad t l l' dest msg k answer :
    answer <> Ok () -> l' = l \/ l' = (dest, msg) :: l ->
    prog_step p (t, l) (OpPublish dest msg k) (t, l') (k answer)
| step_mark t l t' id claimID k answer now r :
    MarkPublished answer now id claimID t = (r, t') ->
    prog_step p (t, l) (OpMarkPublished id claimID k) (t', l) (k r)
| step_reschedule t l t' id claimID at_ reason k answer r :
    Reschedule answer id claimID at_ reason t = (r, t') ->
    prog_step p (t, l) (OpReschedule id claimID at_ reason k) (t', l) (k r)
| step_fail t l t' id claimID reason k answer r :
    Fail answer id claimID reason t = (r, t') ->
    prog_step p (t, l) (OpFail id claimID reason k) (t', l) (k r).

Section System.
Context `{C : ProtoCodec} (sha256 : bytes -> bytes).
Context (error_text error_type : error -> string).

Inductive sy_step : system -> system -> Prop :=
(** The application commits a record. *)
| sy_enqueue s row t' :
    o_status row = Pending -> o_locked_by row = None ->
    insertOutbox row (sy_table s) = (Ok (), t') ->
    sy_step s (mkSystem t' (sy_accepted s) (sy_claims s)
                 (<[t_next (sy_table s) := row]> (sy_enqueued s)) (sy_relays s))
(** Retention. *)
| sy_purge s answer pick before batch r t' :
    (forall ids, pick ids ⊆ ids) ->
    PurgePublished answer pick before batch (sy_table s) = (r, t') ->
    sy_step s (with_table s t')
(** A relay starts, is cancelled, or dies. *)
| sy_start s i r :
    sy_relays s !! i = None -> validate r = Ok () ->
    sy_step s (mkSystem (sy_table s) (sy_accepted s) (sy_claims s) (sy_enqueued s)
                 (<[i := mkProcess r false Idle]> (sy_relays s)))
| sy_cancel s i p :
    sy_relays s !! i = Some p ->
    sy_step s (mkSystem (sy_table s) (sy_accepted s) (sy_claims s) (sy_enqueued s)
                 (<[i := mkProcess (p_relay p) true (p_phase p)]> (sy_relays s)))
| sy_crash s i :
    sy_step s (mkSystem (sy_table s) (sy_accepted s) (sy_claims s) (sy_enqueued s)
                 (delete i (sy_relays s)))
(** [Run], at the top of its loop; [late] says whether the context was cancelled
    while the claim ran. *)
| sy_stop s i p :
    sy_relays s !! i = Some p -> p_phase p = Idle \/ p_phase p = Waiting ->
    p_cancelled p = true ->
    sy_step s (with_phase s i p (Stopped None))
| sy_claim s i p claimID answer skip now r t' late :
    sy_relays s !! i = Some p -> p_phase p = Idle -> p_cancelled p = false ->
    claimID ∉ sy_claims s ->
    Claim answer skip now claimID (r_BatchSize (p_relay p)) (r_Lease (p_relay p)) (sy_table s)
      = (r, t') ->
    sy_step s
      (mkSystem t' (sy_accepted s) ({[claimID]} ∪ sy_claims s) (sy_enqueued s)
         (<[i := mkProcess (p_relay p) late
                   match r with
                   | Ok [] => Waiting
                   | Ok claimed => Scanning claimed [] (new_held claimed) false
                   | Err e => Stopped (if late : bool then None else Some e)
                   | Panic _ => Stopped (Some ErrPanicked)
                   end]> (sy_relays s)))
| sy_timer s i p :
    sy_relays s !! i = Some p -> p_phase p = Waiting ->
    sy_step s (with_phase s i p Idle)
(** [scan]: a slot is free, and the next goroutine starts. *)
| sy_spawn s i p c waiting running holding fault :
    sy_relays s !! i = Some p -> p_phase p = Scanning (c :: waiting) running holding fault ->
    len running < r_Concurrency (p_relay p) ->
    sy_step s (with_phase s i p
      (Scanning waiting
         (running ++ [(c, deliver sha256 error_text error_type (p_relay p) c)])
         holding fault))
(** A goroutine makes one call. *)
| sy_call s i p c q q' before after waiting holding fault t' l' :
    sy_relays s !! i = Some p ->
    p_phase p = Scanning waiting (before ++ (c, q) :: after) holding fault ->
    prog_step p (sy_table s, sy_accepted s) q (t', l') q' ->
    sy_step s
      (mkSystem t' l' (sy_claims s) (sy_enqueued s)
         (<[i := mkProcess (p_relay p) (p_cancelled p)
                   (Scanning waiting (before ++ (c, q') :: after) holding fault)]> (sy_relays s)))
(** A goroutine ends: settled, left for the release, or caught. *)
| sy_finish s i p c d before after waiting holding fault :
    sy_relays s !! i = Some p ->
    p_phase p = Scanning waiting (before ++ (c, Ret d) :: after) holding fault ->
    sy_step s (with_phase s i p
      (Scanning waiting (before ++ after)
         match d with Delivered _ None => settled holding (c_ID c) | _ => holding end
         match d with DeliveryPanicked => true | _ => fault end))
(** [group.Wait] returns; the deferred release hands back what is left. *)
| sy_joined s i p holding fault now :
    sy_relays s !! i = Some p -> p_phase p = Scanning [] [] holding fault ->
    sy_step s (with_phase s i p (Releasing holding now fault))
| sy_release s i p holding now fault c answer r t' :
    sy_relays s !! i = Some p -> p_phase p = Releasing holding now fault ->
    holding !! c_ID c = Some c ->
    Reschedule answer (c_ID c) (c_LockedBy c) now "" (sy_table s) = (r, t') ->
    sy_step s (with_phase (with_table s t') i p (Releasing (delete (c_ID c) holding) now fault))
| sy_released s i p now fault :
    sy_relays s !! i = Some p -> p_phase p = Releasing ∅ now fault ->
    sy_step s (with_phase s i p (if fault : bool then Stopped (Some ErrPanicked) else Idle)).

Definition sy_init (s : system) : Prop :=
  s = mkSystem (mkOutboxTable ∅ 1) [] ∅ ∅ ∅.

Inductive reachable : system -> Prop :=
| reachable_init s : sy_init s -> reachable s
| reachable_step s s' : reachable s -> sy_step s s' -> reachable s'.
End System.
