(* ===== verification/RelayInvariant.v ===== *)
(** The invariant of a system of relays: what every schedule of [Relay.sy_step]
    keeps true of the table, of the broker's log and of the deliveries in
    flight. *)

From stdpp Require Import sorting.
From S2P Require Import Prelude DomainKernel Errors Ports Envelope Outbox GoTime Relay.
#[local] Open Scope Z_scope.

Section Invariant.
Context `{C : ProtoCodec} (sha256 : bytes -> bytes).
Context (error_text error_type : error -> string).
Local Notation deliver := (deliver sha256 error_text error_type).
Local Notation assembled := (assembled sha256).
Local Notation sy_step := (sy_step sha256 error_text error_type).
Local Notation reachable := (reachable sha256 error_text error_type).

(** * What a record carries, whoever claims it *)
Definition core (c : Claimed) : Claimed :=
  mkClaimed 0 (c_MessageID c) (c_MessageType c) (c_SchemaVersion c) (c_AggregateType c)
    (c_AggregateID c) (c_AggregateVersion c) (c_PartitionKey c) (c_Destination c) (c_Payload c)
    (c_PayloadHash c) (c_Metadata c) (c_OccurredAt c) 0 "".
Definition content (r : OutboxRow) : Claimed := core (claimed_of "" (0, r)).

Lemma core_claimed_of claimID id r : core (claimed_of claimID (id, r)) = content r.
Proof. done. Qed.
Lemma content_lease claimID until r : content (lease_row claimID until r) = content r.
Proof. done. Qed.
Lemma assembled_core c source : assembled (core c) source = assembled c source.
Proof. done. Qed.

(** The broker accepted what the record assembles to. *)
Definition accepted_msg (log : list (string * bytes)) (c : Claimed) : Prop :=
  exists source msg, assembled c source = Ok msg /\ (c_Destination c, msg) ∈ log.

Lemma accepted_mono log log' c : log ⊆ log' -> accepted_msg log c -> accepted_msg log' c.
Proof. intros Hl (source & msg & Ha & Hin). exists source, msg. auto. Qed.

(** * Deliveries that keep the discipline

    A delivery publishes its own record's message, writes a transition of its
    own claim once and last, and marks it published only after the broker took
    the message. *)
Definition is_ret (q : prog) : Prop := match q with Ret _ => True | _ => False end.
#[local] Instance is_ret_dec q : Decision (is_ret q).
Proof. destruct q; cbn; apply _. Defined.

Inductive safe (c : Claimed) (source : string) : bool -> prog -> Prop :=
| safe_ret b d : safe c source b (Ret d)
| safe_now b k : (forall n, safe c source b (k n)) -> safe c source b (OpNow k)
| safe_jitter b k : (forall j, safe c source b (k j)) -> safe c source b (OpJitter k)
| safe_ctx b k : (forall e, safe c source b (k e)) -> safe c source b (OpCtxErr k)
| safe_publish b msg k :
    assembled c source = Ok msg ->
    safe c source true (k (Ok ())) ->
    (forall a, a <> Ok () -> safe c source b (k a)) ->
    safe c source b (OpPublish (c_Destination c) msg k)
| safe_mark k :
    (forall a, is_ret (k a)) ->
    safe c source true (OpMarkPublished (c_ID c) (c_LockedBy c) k)
| safe_reschedule b at_ reason k :
    (forall a, is_ret (k a)) ->
    safe c source b (OpReschedule (c_ID c) (c_LockedBy c) at_ reason k)
| safe_fail b reason k :
    (forall a, is_ret (k a)) ->
    safe c source b (OpFail (c_ID c) (c_LockedBy c) reason k).

Lemma safe_of_ret c source b q : is_ret q -> safe c source b q.
Proof. destruct q; [constructor | done ..]. Qed.

Lemma settle_ret d a : is_ret (settle d a).
Proof. destruct a as [n | |]; cbn; [case_match |..]; done. Qed.

Lemma deliver_safe r c : safe c (r_Source r) false (deliver r c).
Proof.
  unfold Relay.deliver, terminal. destruct (assembled c (r_Source r)) as [msg | e | p] eqn:Ha;
    [| constructor; apply settle_ret | constructor].
  constructor; [done | constructor; apply settle_ret |].
  intros [[] | e | p] Hn; [done | | constructor].
  constructor. intros [? |]; [constructor |].
  destruct (_ && _); [constructor; apply settle_ret |].
  unfold reschedule. constructor. intros now.
  destruct (r_Backoff r); repeat (constructor; intros); apply settle_ret.
Qed.

(** * The invariant *)

(** The deliveries of a process, those not started yet included. *)
Definition tasks (p : process) : list (Claimed * prog) :=
  match p_phase p with
  | Scanning waiting running _ _ =>
      running ++ map (fun c => (c, deliver (p_relay p) c)) waiting
  | _ => []
  end.
Definition key (c : Claimed) : string * Z := (c_LockedBy c, c_ID c).
Definition keys (p : process) : list (string * Z) := (fun cq => key cq.1) <$> tasks p.

Record task_ok (t : OutboxTable) (log : list (string * bytes)) (claims : gset string)
    (source : string) (c : Claimed) (q : prog) : Prop := {
  task_claim : c_LockedBy c ∈ claims;
  task_id : c_ID c < t_next t;
  task_safe : exists b, safe c source b q /\
                (b = true -> exists msg, assembled c source = Ok msg /\
                               (c_Destination c, msg) ∈ log);
  task_row : forall r, t_rows t !! c_ID c = Some r ->
               content r = core c /\
               (o_locked_by r = Some (c_LockedBy c) -> ~ is_ret q -> o_status r = Publishing)
}.

Definition slots_ok (p : process) : Prop :=
  match p_phase p with
  | Scanning _ running _ _ => len running <= r_Concurrency (p_relay p)
  | _ => True
  end.

Record process_ok (t : OutboxTable) (log : list (string * bytes)) (claims : gset string)
    (p : process) : Prop := {
  process_slots : slots_ok p;
  process_nodup : NoDup (keys p);
  process_tasks : Forall (fun cq => task_ok t log claims (r_Source (p_relay p)) cq.1 cq.2) (tasks p)
}.

Definition published_ok (t : OutboxTable) (log : list (string * bytes)) : Prop :=
  forall id r, t_rows t !! id = Some r -> o_status r = Published -> accepted_msg log (content r).

Record inv (s : system) : Prop := {
  inv_table : table_ok (sy_table s);
  inv_published : published_ok (sy_table s) (sy_accepted s);
  inv_locked : forall id r c, t_rows (sy_table s) !! id = Some r -> o_locked_by r = Some c ->
                 c ∈ sy_claims s;
  inv_enqueued : forall id r0, sy_enqueued s !! id = Some r0 ->
                   (exists r, t_rows (sy_table s) !! id = Some r /\ content r = content r0) \/
                   accepted_msg (sy_accepted s) (content r0);
  inv_processes : forall i p, sy_relays s !! i = Some p ->
                    process_ok (sy_table s) (sy_accepted s) (sy_claims s) p;
  inv_disjoint : forall i j p p' k, sy_relays s !! i = Some p -> sy_relays s !! j = Some p' ->
                   i <> j -> k ∈ keys p -> k ∈ keys p' -> False
}.

(** * How a table may change

    [acting] are the claims whose own transition is being written, [fresh] the
    identity a claim brings. *)
Record evolve (acting : string -> Z -> Prop) (fresh : string -> Prop) (t t' : OutboxTable)
  : Prop := {
  evolve_next : t_next t <= t_next t';
  evolve_rows : forall id r', t_rows t' !! id = Some r' ->
    (exists r, t_rows t !! id = Some r /\ content r' = content r /\
       ((o_locked_by r' = o_locked_by r /\
         (o_status r' = o_status r \/ exists c, o_locked_by r = Some c /\ acting c id)) \/
        (exists c, o_locked_by r' = Some c /\ fresh c /\ owed r = true /\
           o_status r' = Publishing))) \/
    (t_next t <= id /\ o_locked_by r' = None /\ o_status r' = Pending);
  evolve_keeps : forall id r, t_rows t !! id = Some r ->
    (exists r', t_rows t' !! id = Some r' /\ content r' = content r) \/ o_status r = Published
}.

Definition nobody (c : string) (id : Z) : Prop := False.
Definition no_claim (c : string) : Prop := False.

Lemma evolve_refl t : evolve nobody no_claim t t.
Proof. split; [lia | |]; eauto 10. Qed.

Lemma task_ok_evolve acting fresh t t' log log' claims claims' source c q :
  evolve acting fresh t t' -> log ⊆ log' -> claims ⊆ claims' ->
  (acting (c_LockedBy c) (c_ID c) -> is_ret q) -> ~ fresh (c_LockedBy c) ->
  task_ok t log claims source c q -> task_ok t' log' claims' source c q.
Proof.
  intros [Hn Hr _] Hl Hc Ha Hf [Hcl Hid (b & Hs & Hb) Hrow]. split; [set_solver | lia | |].
  - exists b. split; [done |]. intros (msg & ? & ?)%Hb. eauto.
  - intros r' [(r & Ht & Hct & Hch) | (Hnew & _)]%Hr; [| lia].
    destruct (Hrow _ Ht) as [Hcore Hst]. split; [congruence |]. intros Hlock Hq.
    destruct Hch as [[Hsame [-> | (c' & Hl' & Hact)]] | (c' & Hl' & Hfr & _)].
    + apply Hst; [congruence | done].
    + destruct Hq. apply Ha. congruence.
    + destruct Hf. congruence.
Qed.

(** ** Transitions of a claim *)
Lemma transition_cases answer f id claimID t r t' :
  transition answer f id claimID t = (r, t') ->
  t' = t \/
  exists row, t_rows t !! id = Some row /\ o_locked_by row = Some claimID /\
    t' = mkOutboxTable (<[id := f row]> (t_rows t)) (t_next t).
Proof.
  unfold transition. case_match; [intros [= <- <-]; auto |].
  assert (forall n t1, update_claimed f id claimID t = (n, t1) -> t1 = t \/
    exists row, t_rows t !! id = Some row /\ o_locked_by row = Some claimID /\
      t1 = mkOutboxTable (<[id := f row]> (t_rows t)) (t_next t)) as Hu.
  { intros n t1 [(_ & -> & _) | (row & _ & ? & ? & ->)]%update_claimed_inv; eauto. }
  unfold exec. destruct answer.
  - destruct (update_claimed f id claimID t) as [n t1] eqn:Hx. intros [= _ <-]. eauto.
  - intros [= _ <-]. auto.
  - destruct (update_claimed f id claimID t) as [n t1] eqn:Hx. intros [= _ <-]. eauto.
Qed.

(** A transition keeps the record and the lock. *)
Record keeps_record (f : OutboxRow -> OutboxRow) : Prop := {
  keeps_content : forall r, content (f r) = content r;
  keeps_lock : forall r, o_locked_by (f r) = o_locked_by r;
  keeps_message : forall r, o_message_id (f r) = o_message_id r;
  keeps_available : forall r, o_occurred_at r <= o_available_at r ->
                      o_occurred_at (f r) <= o_available_at (f r)
}.
Lemma published_keeps now : keeps_record (published_row now).
Proof. by split. Qed.
Lemma rescheduled_keeps at_ reason : keeps_record (rescheduled_row at_ reason).
Proof. split; try done. intros r _. cbn. lia. Qed.
Lemma failed_keeps reason : keeps_record (failed_row reason).
Proof. by split. Qed.

Lemma transition_evolve answer f id claimID t r t' :
  keeps_record f -> transition answer f id claimID t = (r, t') ->
  evolve (fun c i => c = claimID /\ i = id) no_claim t t'.
Proof.
  intros [Hc Hl _ _] [-> | (row & Hrow & Hlock & ->)]%transition_cases.
  { split; [lia | |]; eauto 10. }
  split; cbn [t_rows t_next]; [lia | |].
  - intros i r' [[<- <-] | [Hi Ht]]%lookup_insert_Some; left; [| eauto 10].
    exists row. split; [done |]. split; [done |]. left. split; [done |]. right. eauto.
  - intros i r0 Hi. left. destruct (decide (i = id)) as [-> | Hne].
    + rewrite lookup_insert_eq. simplify_eq. eauto.
    + rewrite lookup_insert_ne by done. eauto.
Qed.

Lemma transition_table_ok answer f id claimID t r t' :
  keeps_record f -> table_ok t -> transition answer f id claimID t = (r, t') -> table_ok t'.
Proof.
  intros [_ _ Hm Ha] Hok [-> | (row & Hrow & _ & ->)]%transition_cases; [done |].
  apply (update_table_ok id row); [done | done | apply Hm |].
  by apply Ha, (ok_available _ Hok id).
Qed.

Lemma evolve_status_kept answer f id claimID t r t' :
  keeps_record f -> (forall row, o_status (f row) = o_status row) ->
  transition answer f id claimID t = (r, t') -> evolve nobody no_claim t t'.
Proof.
  intros Hk Hs Ht. destruct (transition_evolve _ _ _ _ _ _ _ Hk Ht) as [Hn _ Hkeep].
  destruct Hk as [Hc Hl _ _].
  apply transition_cases in Ht as [-> | (row & Hrow & Hlock & ->)]; [apply evolve_refl |].
  split; cbn [t_rows t_next] in *; [lia | | done].
  intros i r' [[<- <-] | [Hi Ht]]%lookup_insert_Some; left; eauto 10.
Qed.

(** ** Other writers *)
Lemma insert_evolve row t t' :
  o_status row = Pending -> o_locked_by row = None -> table_ok t ->
  insertOutbox row t = (Ok (), t') -> evolve nobody no_claim t t'.
Proof.
  intros Hs Hl Hok (_ & _ & _ & ->)%insertOutbox_inv. split; cbn [t_rows t_next]; [lia | |].
  - intros i r' [[<- <-] | [Hi Ht]]%lookup_insert_Some; [right; split; [lia | done] | left].
    eauto 10.
  - intros i r Hi. left. exists r. split; [| done]. rewrite lookup_insert_ne; [done |].
    intros <-. by rewrite table_ok_fresh in Hi.
Qed.

Lemma claim_evolve answer skip now claimID limit lease t r t' :
  Claim answer skip now claimID limit lease t = (r, t') ->
  evolve nobody (eq claimID) t t'.
Proof.
  assert (evolve nobody (eq claimID) t t) as Hrefl by (split; [lia | |]; eauto 10).
  assert (forall until,
    evolve nobody (eq claimID) t (claimStatement skip now limit claimID until t).2) as Hclaim.
  { intros u. split; [cbn; lia | |].
    - intros id r' (r0 & Hl & [-> | [-> Hin]])%claimStatement_rows; left; exists r0; [eauto 10 |].
      split; [done |]. split; [done |]. right. exists claimID.
      apply chosen_spec in Hin as (_ & He & _). repeat split.
      unfold eligible in He. unfold owed. destruct (o_status r0); [done | done | |];
        by rewrite andb_false_r in He.
    - intros id r0 Hl. left. cbn.
      fold (lease_rows claimID u (chosen skip now limit t) (t_rows t)).
      destruct (decide (id ∈ (chosen skip now limit t).*1)) as [Hin | Hn].
      + apply list_elem_of_fmap in Hin as ([i r1] & Hi & Hin). cbn in Hi. subst i.
        exists (lease_row claimID u r1).
        rewrite (lease_rows_in _ _ _ _ id r1) by (apply chosen_NoDup || done).
        apply chosen_spec in Hin as (Hl' & _). by simplify_eq.
      + rewrite lease_rows_out by done. eauto. }
  unfold Claim. repeat (case_match; [intros [= <- <-]; exact Hrefl |]).
  unfold exec. destruct answer.
  - destruct (claimStatement _ _ _ _ _ t) as [cs t1] eqn:Hx. intros [= _ <-].
    specialize (Hclaim (now +! lease)). by rewrite Hx in Hclaim.
  - by intros [= _ <-].
  - intros [= _ <-]. apply Hclaim.
Qed.

Lemma claim_table_ok' answer skip now claimID limit lease t r t' :
  table_ok t -> Claim answer skip now claimID limit lease t = (r, t') -> table_ok t'.
Proof.
  intros Hok. unfold Claim. repeat (case_match; [by intros [= <- <-] |]).
  pose proof (claim_table_ok skip now limit claimID (now +! lease) t Hok) as Hc.
  unfold exec. destruct answer; [| by intros [= _ <-] | by intros [= _ <-]].
  destruct (claimStatement _ _ _ _ _ t) as [cs t1]. by intros [= _ <-].
Qed.

Lemma delete_all_lookup ids (m : gmap Z OutboxRow) id r :
  foldr delete m ids !! id = Some r <-> id ∉ ids /\ m !! id = Some r.
Proof.
  induction ids as [| i ids IH]; cbn; [set_solver |].
  rewrite lookup_delete_Some, IH, not_elem_of_cons. naive_solver.
Qed.

Lemma purge_cases answer pick before batch t r t' :
  (forall ids, pick ids ⊆ ids) -> PurgePublished answer pick before batch t = (r, t') ->
  t' = t \/
  exists ids, t' = mkOutboxTable (foldr delete (t_rows t) ids) (t_next t) /\
    forall id r0, id ∈ ids -> t_rows t !! id = Some r0 -> o_status r0 = Published.
Proof.
  intros Hpick. unfold PurgePublished. case_match; [intros [= _ <-]; auto |].
  assert (forall n id r0,
    id ∈ take n (pick (filter (fun ir : Z * OutboxRow => purgeable before ir.2 = true)
                         (map_to_list (t_rows t))).*1) ->
    t_rows t !! id = Some r0 -> o_status r0 = Published) as Hc.
  { intros n id r0 Hin Hl.
    apply elem_of_take in Hin as (k & Hin & _). apply list_elem_of_lookup_2 in Hin.
    apply Hpick, list_elem_of_fmap in Hin as ([i r1] & Hi & Hin). cbn in Hi. subst i.
    apply list_elem_of_filter in Hin as [Hp Hin%elem_of_map_to_list]. simplify_eq.
    unfold purgeable in Hp. by apply andb_prop in Hp as [Hp%bool_decide_eq_true _]. }
  unfold exec. destruct answer; intros [= _ <-]; eauto.
Qed.

Lemma purge_evolve answer pick before batch t r t' :
  (forall ids, pick ids ⊆ ids) -> PurgePublished answer pick before batch t = (r, t') ->
  evolve nobody no_claim t t'.
Proof.
  intros Hp [-> | (ids & -> & Hids)]%purge_cases; [apply evolve_refl | | done].
  split; cbn [t_rows t_next]; [lia | |].
  - intros id r' [_ Hl]%delete_all_lookup. left. eauto 10.
  - intros id r0 Hl. destruct (decide (id ∈ ids)) as [Hin | Hn]; [eauto |].
    left. exists r0. split; [| done]. by apply delete_all_lookup.
Qed.

Lemma purge_table_ok answer pick before batch t r t' :
  (forall ids, pick ids ⊆ ids) -> table_ok t ->
  PurgePublished answer pick before batch t = (r, t') -> table_ok t'.
Proof.
  intros Hp [Hf HU HA] [-> | (ids & -> & Hids)]%purge_cases; [done | | done].
  split; cbn [t_rows t_next].
  - intros id r' [_ Hl]%delete_all_lookup. by apply (Hf id r').
  - intros i j r1 r2 [_ H1]%delete_all_lookup [_ H2]%delete_all_lookup. by apply HU.
  - intros id r' [_ Hl]%delete_all_lookup. by apply (HA id r').
Qed.

(** * Preservation *)

Lemma published_evolve fresh t t' log log' :
  evolve nobody fresh t t' -> log ⊆ log' -> published_ok t log -> published_ok t' log'.
Proof.
  intros [_ Hr _] Hl Hp id r' Hl' Hs.
  apply Hr in Hl' as [(r & Ht & Hc & Hch) | (_ & _ & Hpend)]; [| congruence].
  rewrite Hc. apply (accepted_mono log); [done |]. apply (Hp id); [done |].
  destruct Hch as [[_ [<- | (c & _ & [])]] | (c & _ & _ & _ & Hpub)]; [done | congruence].
Qed.

Lemma subseteq_cons {A} (a : A) (l : list A) : l ⊆ a :: l.
Proof. intros x Hx. by constructor. Qed.

Lemma prog_step_log p t log q t' log' q' :
  prog_step p (t, log) q (t', log') q' -> log ⊆ log'.
Proof.
  inversion 1; subst; try reflexivity; [apply subseteq_cons |].
  match goal with Hl : _ \/ _ |- _ => destruct Hl as [-> | ->] end;
    [reflexivity | apply subseteq_cons].
Qed.

(** One call of a delivery: the delivery stays in order, and what it did to the
    table was its own transition. *)
Lemma prog_step_task p t log t' log' claims source c q q' :
  prog_step p (t, log) q (t', log') q' ->
  task_ok t log claims source c q -> task_ok t log' claims source c q' /\ log ⊆ log'.
Proof.
  intros Hstep [Hcl Hid (b & Hs & Hb) Hrow].
  pose proof (prog_step_log _ _ _ _ _ _ _ Hstep) as Hlog.
  split; [| done]. split; [done | done | |].
  - inversion Hstep; subst; inversion Hs; subst.
    1-3: exists b; split; [eauto |]; intros (msg & ? & ?)%Hb; eauto.
    + exists true. split; [done |]. intros _. exists msg. split; [done | constructor].
    + exists b. split; [eauto |]. intros (msg' & ? & ?)%Hb. eauto.
    + exists false. split; [by auto using safe_of_ret | done].
    + exists false. split; [by auto using safe_of_ret | done].
    + exists false. split; [by auto using safe_of_ret | done].
  - intros r Hr. destruct (Hrow r Hr) as [Hc Hst]. split; [done |]. intros Hl _.
    apply Hst; [done |]. inversion Hstep; subst; cbn; tauto.
Qed.

Definition acts (c : Claimed) (k : string) (i : Z) : Prop := k = c_LockedBy c /\ i = c_ID c.

Lemma prog_step_table p t log q t' log' q' c source b :
  prog_step p (t, log) q (t', log') q' -> safe c source b q ->
  t' = t \/
  exists f answer r, keeps_record f /\ is_ret q' /\ ~ is_ret q /\
    transition answer f (c_ID c) (c_LockedBy c) t = (r, t') /\
    (b = true \/ forall row, o_status (f row) = Published -> o_status row = Published).
Proof.
  inversion 1; subst; inversion 1; subst; auto; right; do 3 eexists.
  - split; [apply published_keeps |]. split; [auto |]. split; [intros [] |].
    split; [eassumption | by left].
  - split; [apply rescheduled_keeps |]. split; [auto |]. split; [intros [] |].
    split; [eassumption | by right].
  - split; [apply failed_keeps |]. split; [auto |]. split; [intros [] |].
    split; [eassumption | by right].
Qed.

Lemma evolve_acting acting acting' fresh t t' :
  (forall k i, acting k i -> acting' k i) -> evolve acting fresh t t' -> evolve acting' fresh t t'.
Proof.
  intros Ha [Hn Hr Hk]. split; [done | | done].
  intros id r' [(r0 & ? & ? & [[? [? | (k & ? & ?)]] | ?]) | ?]%Hr; eauto 12.
Qed.

Lemma prog_step_evolve p t log t' log' claims source c q q' :
  prog_step p (t, log) q (t', log') q' -> task_ok t log claims source c q ->
  table_ok t -> published_ok t log ->
  evolve (fun k i => acts c k i /\ is_ret q' /\ ~ is_ret q) no_claim t t' /\
  table_ok t' /\ published_ok t' log'.
Proof.
  intros Hstep [Hcl Hid (b & Hs & Hb) Hrow] Hok Hp.
  pose proof (prog_step_log _ _ _ _ _ _ _ Hstep) as Hlog.
  assert (published_ok t log') as Hp'.
  { intros i r Hi Hst. by apply (accepted_mono log), (Hp i). }
  destruct (prog_step_table _ _ _ _ _ _ _ _ _ _ Hstep Hs)
    as [-> | (f & answer & r & Hk & Hq' & Hq & Ht & Hpub)].
  { split; [| done]. eapply evolve_acting; [| apply evolve_refl]. by intros k i []. }
  split; [| split; [by eapply transition_table_ok |]].
  - eapply evolve_acting; [| by eapply transition_evolve]. by intros k i [-> ->].
  - apply transition_cases in Ht as [-> | (row & Hr & _ & ->)]; [done |].
    intros i r' Hi Hst; cbn in Hi; apply lookup_insert_Some in Hi as [[<- <-] | [_ Hl]]; [| by apply (Hp' i)].
    destruct Hk as [Hc _ _ _]. rewrite Hc.
    destruct Hpub as [-> | Hpub]; [| by apply (Hp' (c_ID c)), Hpub].
    destruct (Hb eq_refl) as (msg & Ha & Hin). exists source, msg.
    destruct (Hrow row Hr) as [-> _]. split; [done |]. by apply Hlog.
Qed.

(** ** Steps, seen from the processes they do not touch *)
Lemma process_ok_evolve acting fresh t t' log log' claims claims' p :
  evolve acting fresh t t' -> log ⊆ log' -> claims ⊆ claims' ->
  (forall k i, acting k i -> (k, i) ∉ keys p) -> (forall k, fresh k -> k ∉ claims) ->
  process_ok t log claims p -> process_ok t' log' claims' p.
Proof.
  intros He Hl Hc Ha Hf [Hs Hn Ht]. split; [done | done |].
  rewrite Forall_forall in Ht |- *. intros [c q] Hin.
  eapply task_ok_evolve; [done .. | | | by apply (Ht (c, q))].
  - intros Hact%Ha. destruct Hact. by apply (list_elem_of_fmap_2 (fun cq => key cq.1) _ (c, q)).
  - intros Hfr%Hf. by destruct Hfr, (Ht _ Hin).
Qed.

Lemma inv_change s t' log' claims' enq' relays' acting fresh :
  inv s -> evolve acting fresh (sy_table s) t' -> table_ok t' -> published_ok t' log' ->
  sy_accepted s ⊆ log' -> sy_claims s ⊆ claims' ->
  (forall k, fresh k -> k ∉ sy_claims s /\ k ∈ claims') ->
  (forall id r0, enq' !! id = Some r0 ->
     sy_enqueued s !! id = Some r0 \/ t_rows t' !! id = Some r0) ->
  (forall j q, relays' !! j = Some q ->
     process_ok t' log' claims' q \/
     (sy_relays s !! j = Some q /\ forall k i, acting k i -> (k, i) ∉ keys q)) ->
  (forall j q k, relays' !! j = Some q -> k ∈ keys q ->
     (exists q0, sy_relays s !! j = Some q0 /\ k ∈ keys q0) \/
     (k.1 ∉ sy_claims s /\ forall j' q', j' <> j -> relays' !! j' = Some q' ->
        sy_relays s !! j' = Some q')) ->
  inv (mkSystem t' log' claims' enq' relays').
Proof.
  intros [Hok Hp Hlo Hen Hpr Hd] He Hok' Hp' Hl Hc Hf Henq Hrel Hkeys.
  split; cbn [sy_table sy_accepted sy_claims sy_enqueued sy_relays]; [done | done | | | |].
  - intros id r c Hr Hlock. apply (evolve_rows _ _ _ _ He) in Hr as [(r0 & Hr & _ & Hch) | (_ & ? & _)];
      [| congruence].
    destruct Hch as [[Hsame _] | (c' & Hl' & Hfr & _)].
    + apply Hc, (Hlo id r0); congruence.
    + apply Hf in Hfr as [_ Hin]. congruence.
  - intros id r0 [Hin | Hin]%Henq; [| eauto].
    destruct (Hen _ _ Hin) as [(r & Hr & Hct) | Hacc]; [| right; by apply (accepted_mono (sy_accepted s))].
    destruct (evolve_keeps _ _ _ _ He _ _ Hr) as [(r' & Hr' & Hct') | Hst].
    + left. exists r'. split; [done | congruence].
    + right. rewrite <- Hct. apply (accepted_mono (sy_accepted s)); [done |]. by apply (Hp id).
  - intros j q Hj. destruct (Hrel _ _ Hj) as [? | [Hold Hact]]; [done |].
    eapply process_ok_evolve; [done .. | | by apply (Hpr j)]. intros k Hk. by apply Hf.
  - intros i j p p' k Hi Hj Hij Hk Hk'.
    destruct (Hkeys _ _ _ Hi Hk) as [(q & Hq & Hkq) | [Hn Hothers]],
      (Hkeys _ _ _ Hj Hk') as [(q' & Hq' & Hkq') | [Hn' Hothers']].
    + by apply (Hd i j q q' k).
    + apply Hn'. apply list_elem_of_fmap in Hkq as ([c x] & -> & Hin).
      destruct (Hpr _ _ Hq) as [_ _ Ht]. rewrite Forall_forall in Ht. by destruct (Ht _ Hin).
    + apply Hn. apply list_elem_of_fmap in Hkq' as ([c x] & -> & Hin).
      destruct (Hpr _ _ Hq') as [_ _ Ht]. rewrite Forall_forall in Ht. by destruct (Ht _ Hin).
    + specialize (Hothers j p' (not_eq_sym Hij) Hj).
      apply Hn. apply list_elem_of_fmap in Hk' as ([c x] & -> & Hin).
      destruct (Hpr _ _ Hothers) as [_ _ Ht]. rewrite Forall_forall in Ht. by destruct (Ht _ Hin).
Qed.

(** ** Claims *)
Lemma Claim_Ok answer skip now claimID limit lease t cs t' :
  Claim answer skip now claimID limit lease t = (Ok cs, t') ->
  cs = map (claimed_of claimID) (chosen skip now limit t) /\
  t' = (claimStatement skip now limit claimID (now +! lease) t).2.
Proof.
  unfold Claim. repeat (case_match; [done |]). unfold exec.
  destruct answer; [| done ..]. by intros [= <- <-].
Qed.

Lemma new_tasks answer skip now claimID limit lease t cs t' log claims r :
  table_ok t -> Claim answer skip now claimID limit lease t = (Ok cs, t') -> claimID ∈ claims ->
  Forall (fun c => task_ok t' log claims (r_Source r) c (deliver r c)) cs /\
  NoDup (map key cs) /\ Forall (fun k => k.1 = claimID) (map key cs).
Proof.
  intros Hok [-> ->]%Claim_Ok Hcl. split; [| split].
  - apply Forall_map, Forall_forall. intros [id row] Hin.
    pose proof (chosen_spec _ _ _ _ _ _ Hin) as (Hl & _ & _).
    split; cbn [compose claimed_of c_LockedBy c_ID c_Destination]; [done | | |].
    + by apply (ok_fresh _ Hok id row).
    + exists false. split; [apply deliver_safe | done].
    + intros row'. cbn. fold (lease_rows claimID (now +! lease) (chosen skip now limit t) (t_rows t)).
      rewrite (lease_rows_in _ _ _ _ id row) by (apply chosen_NoDup || done).
      by intros [= <-].
  - rewrite map_map.
    assert (forall l : list (Z * OutboxRow),
      map (fun x => key (claimed_of claimID x)) l = (fun i => (claimID, i)) <$> l.*1) as ->.
    { induction l as [| [i r0] l IH]; [done |]. cbn. by rewrite <- IH. }
    apply NoDup_fmap_2; [by intros ?? [=] | apply chosen_NoDup].
  - rewrite map_map. apply Forall_map, Forall_forall. by intros [i r0] _.
Qed.

Lemma tasks_scanning p waiting running holding fault :
  p_phase p = Scanning waiting running holding fault ->
  tasks p = running ++ map (fun c => (c, deliver (p_relay p) c)) waiting.
Proof. unfold tasks. by intros ->. Qed.

(** A process in a phase with no delivery. *)
Lemma idle_process_ok t log claims r cancelled ph :
  (forall w g h f, ph <> Scanning w g h f) -> process_ok t log claims (mkProcess r cancelled ph) /\
  keys (mkProcess r cancelled ph) = [].
Proof.
  intros Hph.
  assert (tasks (mkProcess r cancelled ph) = []) as Ht.
  { unfold tasks. cbn. destruct ph; try done. by destruct (Hph waiting running holding fault). }
  split; [split |]; unfold keys; rewrite ?Ht; [| constructor .. | done].
  unfold slots_ok. cbn. destruct ph; try done. by destruct (Hph waiting running holding fault).
Qed.

Lemma inv_init s : sy_init s -> inv s.
Proof.
  intros ->. split; cbn.
  - split; cbn; [apply map_Forall_empty | by intros ? | apply map_Forall_empty].
  - by intros ? r.
  - by intros ? r.
  - by intros ? r.
  - by intros ? r.
  - by intros ? ? r.
Qed.

(** A step of one process that leaves the table, the log and the claims alone. *)
Lemma inv_phase s i p p' :
  inv s -> sy_relays s !! i = Some p ->
  process_ok (sy_table s) (sy_accepted s) (sy_claims s) p' -> keys p' ⊆ keys p ->
  inv (mkSystem (sy_table s) (sy_accepted s) (sy_claims s) (sy_enqueued s)
         (<[i := p']> (sy_relays s))).
Proof.
  intros Hinv Hi Hok Hkeys.
  apply (inv_change s _ _ _ _ _ nobody no_claim Hinv); try done; try apply Hinv;
    [apply evolve_refl | eauto | |].
  - intros j q [[<- <-] | [Hne Hj]]%lookup_insert_Some; [by left | right; auto].
  - intros j q k [[<- <-] | [Hne Hj]]%lookup_insert_Some Hk; left; eauto.
Qed.

(** A step of the table alone. *)
Lemma inv_table_step s t' enq' :
  inv s -> evolve nobody no_claim (sy_table s) t' -> table_ok t' ->
  (forall id r0, enq' !! id = Some r0 ->
     sy_enqueued s !! id = Some r0 \/ t_rows t' !! id = Some r0) ->
  inv (mkSystem t' (sy_accepted s) (sy_claims s) enq' (sy_relays s)).
Proof.
  intros Hinv He Hok Henq.
  apply (inv_change s _ _ _ _ _ nobody no_claim Hinv); try done.
  - eapply published_evolve; [done .. | apply Hinv].
  - intros j q Hj. right. auto.
  - intros j q k Hj Hk. left. eauto.
Qed.

Lemma inv_to_idle s i p ph :
  inv s -> sy_relays s !! i = Some p -> (forall w g h f, ph <> Scanning w g h f) ->
  inv (with_phase s i p ph).
Proof.
  intros Hinv Hi Hph.
  destruct (idle_process_ok (sy_table s) (sy_accepted s) (sy_claims s) (p_relay p)
              (p_cancelled p) ph Hph) as [Hok Hk].
  apply (inv_phase s i p); [done .. | rewrite Hk; apply list_subseteq_nil].
Qed.

(** The claim brings tasks of its own, under an identity nobody has. *)
Lemma inv_claim s i p claimID answer skip now r t' cancelled :
  inv s -> sy_relays s !! i = Some p -> claimID ∉ sy_claims s ->
  0 < r_Concurrency (p_relay p) ->
  Claim answer skip now claimID (r_BatchSize (p_relay p)) (r_Lease (p_relay p)) (sy_table s)
    = (r, t') ->
  inv (mkSystem t' (sy_accepted s) ({[claimID]} ∪ sy_claims s) (sy_enqueued s)
         (<[i := mkProcess (p_relay p) cancelled
                   match r with
                   | Ok [] => Waiting
                   | Ok claimed => Scanning claimed [] (new_held claimed) false
                   | Err e => Stopped (if cancelled : bool then None else Some e)
                   | Panic _ => Stopped (Some ErrPanicked)
                   end]> (sy_relays s))).
Proof.
  intros Hinv Hi Hfresh Hconc Hclaim. set (ph := match r with Ok _ => _ | _ => _ end).
  pose proof (inv_table s Hinv) as Hok.
  pose proof (claim_evolve _ _ _ _ _ _ _ _ _ Hclaim) as He.
  assert (process_ok t' (sy_accepted s) ({[claimID]} ∪ sy_claims s)
            (mkProcess (p_relay p) cancelled ph) /\
          Forall (fun k => k.1 = claimID) (keys (mkProcess (p_relay p) cancelled ph)))
    as [Hp' Hk'].
  { assert (forall ph', (forall w g h f, ph' <> Scanning w g h f) ->
      process_ok t' (sy_accepted s) ({[claimID]} ∪ sy_claims s)
        (mkProcess (p_relay p) cancelled ph') /\
      Forall (fun k => k.1 = claimID) (keys (mkProcess (p_relay p) cancelled ph'))) as Hidle.
    { intros ph' Hph. destruct (idle_process_ok t' (sy_accepted s) ({[claimID]} ∪ sy_claims s)
        (p_relay p) cancelled ph' Hph) as [? ->]. auto. }
    subst ph. destruct r as [[| c cs] | e | w]; [by apply Hidle | | by apply Hidle ..].
    destruct (new_tasks _ _ _ _ _ _ _ _ _ (sy_accepted s) ({[claimID]} ∪ sy_claims s)
      (p_relay p) Hok Hclaim ltac:(set_solver)) as (Ht & Hn & Hk).
    assert (keys (mkProcess (p_relay p) cancelled
      (Scanning (c :: cs) [] (new_held (c :: cs)) false)) = map key (c :: cs)) as Hkeys.
    { unfold keys, tasks. cbn [p_phase p_relay app]. generalize (c :: cs).
      induction l as [| c' l IH]; [done |]. cbn. by rewrite <- IH. }
    split; [split |]; [cbn; unfold len; cbn; lia | by rewrite Hkeys | | by rewrite Hkeys].
    unfold tasks. cbn [p_phase p_relay app]. by apply Forall_map. }
  apply (inv_change s _ _ _ _ _ nobody (eq claimID) Hinv He); try done.
  - by eapply claim_table_ok'.
  - by eapply published_evolve, Hinv.
  - set_solver.
  - intros k <-. set_solver.
  - auto.
  - intros j q [[<- <-] | [Hne Hj]]%lookup_insert_Some; [by left | right; auto].
  - intros j q k [[<- <-] | [Hne Hj]]%lookup_insert_Some Hk; [right | left; eauto].
    rewrite Forall_forall in Hk'. split; [by rewrite (Hk' k Hk) |].
    intros j' q' Hne [[<- _] | [_ Hj']]%lookup_insert_Some; done.
Qed.

Lemma tasks_middle r cancelled waiting before cq after holding fault :
  tasks (mkProcess r cancelled (Scanning waiting (before ++ cq :: after) holding fault)) =
    before ++ cq :: (after ++ map (fun c => (c, deliver r c)) waiting).
Proof. unfold tasks. cbn. by rewrite <- app_assoc. Qed.

(** One goroutine's call. *)
Lemma inv_call s i p c q q' before after waiting holding fault t' l' :
  inv s -> sy_relays s !! i = Some p ->
  p_phase p = Scanning waiting (before ++ (c, q) :: after) holding fault ->
  prog_step p (sy_table s, sy_accepted s) q (t', l') q' ->
  inv (mkSystem t' l' (sy_claims s) (sy_enqueued s)
         (<[i := mkProcess (p_relay p) (p_cancelled p)
                   (Scanning waiting (before ++ (c, q') :: after) holding fault)]> (sy_relays s))).
Proof.
  intros Hinv Hi Hph Hstep. destruct p as [r cancelled ph]. cbn in Hph. subst ph.
  destruct (inv_processes s Hinv _ _ Hi) as [Hslots Hnd Htasks].
  unfold keys in Hnd. rewrite tasks_middle in Hnd, Htasks.
  apply Forall_app in Htasks as [Hb [Hc Ha]%Forall_cons]. cbn [fst snd p_relay] in Hc.
  destruct (prog_step_evolve _ _ _ _ _ _ _ _ _ _ Hstep Hc (inv_table s Hinv)
              (inv_published s Hinv)) as (He & Hok' & Hp').
  destruct (prog_step_task _ _ _ _ _ _ _ _ _ _ Hstep Hc) as [Hc' Hlog].
  rewrite fmap_app, fmap_cons in Hnd.
  apply NoDup_app in Hnd as (Hndb & Hdis & [Hnc Hnda]%NoDup_cons). cbn in Hnc.
  assert (forall k j, acts c k j -> (k, j) = key c) as Hacts by by intros k j [-> ->].
  assert (forall cq, cq ∈ before ++ (after ++ map (fun c => (c, deliver r c)) waiting) ->
    key cq.1 <> key c) as Hother.
  { intros cq [Hin | Hin]%elem_of_app Heq.
    - apply (Hdis (key c)); [| by constructor].
      apply list_elem_of_fmap. exists cq. by rewrite Heq.
    - apply Hnc, list_elem_of_fmap. exists cq. by rewrite Heq. }
  assert (keys (mkProcess r cancelled (Scanning waiting (before ++ (c, q') :: after) holding fault))
    = keys (mkProcess r cancelled (Scanning waiting (before ++ (c, q) :: after) holding fault)))
    as Hkeys.
  { unfold keys. by rewrite !tasks_middle, !fmap_app, !fmap_cons. }
  cbn [p_relay p_cancelled].
  apply (inv_change s _ _ _ _ _ _ no_claim Hinv He); [done | done | done | done | done | auto | |].
  - intros j p' [[<- <-] | [Hne Hj]]%lookup_insert_Some; [left | right].
    + split; [| rewrite Hkeys; by apply (inv_processes s Hinv _ _ Hi) |].
      * unfold slots_ok in *. cbn in *. unfold len in *. rewrite length_app in *. cbn in *. done.
      * rewrite tasks_middle.
        assert (forall cq, cq ∈ before ++ (after ++ map (fun c => (c, deliver r c)) waiting) ->
          task_ok (sy_table s) (sy_accepted s) (sy_claims s) (r_Source r) cq.1 cq.2 ->
          task_ok t' l' (sy_claims s) (r_Source r) cq.1 cq.2) as Hev.
        { intros cq Hin. apply (task_ok_evolve _ _ _ _ _ _ _ _ _ _ _ He Hlog); [done | | tauto].
          intros [Hact%Hacts _]. by destruct (Hother cq Hin). }
        rewrite Forall_forall in Hb, Ha.
        apply Forall_app. split; [| constructor].
        -- apply Forall_forall. intros cq Hin. apply Hev; [apply elem_of_app; by left | by apply Hb].
        -- cbn. eapply task_ok_evolve; [exact He | reflexivity | reflexivity | | tauto | exact Hc'].
           by intros (_ & ? & _).
        -- apply Forall_forall. intros cq Hin. apply Hev; [apply elem_of_app; by right | by apply Ha].
    + split; [done |]. intros k x [Hact%Hacts _] Hin.
      apply (inv_disjoint s Hinv i j _ _ (k, x) Hi Hj); [done | | done].
      unfold keys. rewrite tasks_middle, fmap_app, fmap_cons, Hact.
      apply elem_of_app. right. by constructor.
  - intros j p' k [[<- <-] | [Hne Hj]]%lookup_insert_Some Hk; left; [| eauto].
    eexists. split; [exact Hi |]. by rewrite Hkeys in Hk.
Qed.

Lemma inv_finish s i p c d before after waiting holding holding' fault fault' :
  inv s -> sy_relays s !! i = Some p ->
  p_phase p = Scanning waiting (before ++ (c, Ret d) :: after) holding fault ->
  inv (with_phase s i p (Scanning waiting (before ++ after) holding' fault')).
Proof.
  intros Hinv Hi Hph. destruct p as [r cancelled ph]. cbn in Hph. subst ph.
  destruct (inv_processes s Hinv _ _ Hi) as [Hslots Hnd Htasks].
  assert (tasks (mkProcess r cancelled (Scanning waiting (before ++ after) holding' fault')) =
    before ++ (after ++ map (fun c => (c, deliver r c)) waiting)) as Ht.
  { unfold tasks. cbn. by rewrite <- app_assoc. }
  unfold keys in Hnd. rewrite tasks_middle in Hnd, Htasks.
  apply Forall_app in Htasks as [Hb [Hc Ha]%Forall_cons].
  rewrite fmap_app, fmap_cons in Hnd.
  apply NoDup_app in Hnd as (Hndb & Hdis & [Hnc Hnda]%NoDup_cons).
  apply (inv_phase s i (mkProcess r cancelled
    (Scanning waiting (before ++ (c, Ret d) :: after) holding fault)));
    [done | done | |]; cbn [p_relay p_cancelled].
  - split.
    + unfold slots_ok in *. cbn in *. unfold len in *. rewrite length_app in *. cbn in *. lia.
    + unfold keys. rewrite Ht, fmap_app. apply NoDup_app. split; [done |]. split; [| done].
      intros k Hk Hk'. apply (Hdis k Hk). by constructor.
    + rewrite Ht. by apply Forall_app.
  - unfold keys. rewrite Ht, tasks_middle, !fmap_app, fmap_cons, !fmap_app. intros k.
    rewrite !elem_of_app, elem_of_cons, ?elem_of_app. tauto.
Qed.

Lemma inv_spawn s i p c waiting running holding fault :
  inv s -> sy_relays s !! i = Some p ->
  p_phase p = Scanning (c :: waiting) running holding fault ->
  len running < r_Concurrency (p_relay p) ->
  inv (with_phase s i p
    (Scanning waiting (running ++ [(c, deliver (p_relay p) c)]) holding fault)).
Proof.
  intros Hinv Hi Hph Hlen. destruct p as [r cancelled ph]. cbn in Hph, Hlen. subst ph.
  destruct (inv_processes s Hinv _ _ Hi) as [Hslots Hnd Htasks].
  assert (tasks (mkProcess r cancelled
      (Scanning waiting (running ++ [(c, deliver r c)]) holding fault)) =
    tasks (mkProcess r cancelled (Scanning (c :: waiting) running holding fault))) as Ht.
  { unfold tasks. cbn. by rewrite <- app_assoc. }
  assert (keys (mkProcess r cancelled
      (Scanning waiting (running ++ [(c, deliver r c)]) holding fault)) =
    keys (mkProcess r cancelled (Scanning (c :: waiting) running holding fault))) as Hk.
  { unfold keys. by rewrite Ht. }
  apply (inv_phase s i _ _ Hinv Hi); [| by cbn [p_relay p_cancelled]; rewrite Hk].
  cbn [p_relay p_cancelled]. split.
  - unfold slots_ok. cbn. unfold len in *. rewrite length_app. cbn. lia.
  - by rewrite Hk.
  - by rewrite Ht.
Qed.

Lemma inv_release s i p holding now fault c answer r t' :
  inv s -> sy_relays s !! i = Some p -> p_phase p = Releasing holding now fault ->
  Reschedule answer (c_ID c) (c_LockedBy c) now "" (sy_table s) = (r, t') ->
  inv (with_phase (with_table s t') i p (Releasing (delete (c_ID c) holding) now fault)).
Proof.
  intros Hinv Hi Hph Hr. unfold Reschedule in Hr.
  assert (evolve nobody no_claim (sy_table s) t') as He.
  { eapply evolve_status_kept; [apply rescheduled_keeps | done | exact Hr]. }
  apply inv_to_idle; [| done | done].
  apply (inv_table_step s t' (sy_enqueued s)); [done | done | | auto].
  eapply transition_table_ok; [apply (rescheduled_keeps now "") | apply Hinv | exact Hr].
Qed.

Lemma reachable_valid s i p :
  reachable s -> sy_relays s !! i = Some p -> 0 < r_Concurrency (p_relay p).
Proof.
  intros Hr. revert i p. induction Hr as [s -> | s s' Hr IH Hstep]; [by intros i p |].
  assert (forall r, validate r = Ok () -> 0 < r_Concurrency r) as Hv.
  { intros r. unfold validate. case_match; [done |]. case_match eqn:Hb; [done |]. intros _.
    repeat apply orb_false_elim in Hb as [Hb ?]. lia. }
  intros j q Hj. destruct Hstep; cbn [sy_relays with_table with_phase] in Hj;
    try (apply lookup_insert_Some in Hj as [[<- <-] | [_ Hj]]; cbn [p_relay]); eauto.
  by apply lookup_delete_Some in Hj as [_ Hj]; eauto.
Qed.

Lemma reachable_inv s : reachable s -> inv s.
Proof.
  induction 1 as [s Hs | s s' Hr IH Hstep]; [by apply inv_init |].
  destruct Hstep.
  - apply (inv_table_step s t'); [done | by eapply insert_evolve, H1; [.. | apply IH] | |].
    + eapply insert_table_ok; [apply IH | done].
    + intros id r0 [[<- <-] | [_ Hl]]%lookup_insert_Some; [right | by left].
      apply insertOutbox_inv in H1 as (_ & _ & _ & ->). cbn. by rewrite lookup_insert_eq.
  - apply (inv_table_step s t' (sy_enqueued s)); [done | by eapply purge_evolve | | auto].
    eapply purge_table_ok; [done | apply IH | done].
  - destruct (idle_process_ok (sy_table s) (sy_accepted s) (sy_claims s) r false Idle
      ltac:(done)) as [Hok Hk].
    apply (inv_change s _ _ _ _ _ nobody no_claim IH); try done; try apply IH;
      [apply evolve_refl | eauto | |].
    + intros j q [[<- <-] | [Hne Hj]]%lookup_insert_Some; [by left | right; auto].
    + intros j q k [[<- <-] | [Hne Hj]]%lookup_insert_Some Hin; [| left; eauto].
      rewrite Hk in Hin. by apply elem_of_nil in Hin.
  - apply (inv_phase s i p); [done | done | | done].
    destruct (inv_processes s IH _ _ H) as [? ? ?]. by split.
  - apply (inv_change s _ _ _ _ _ nobody no_claim IH); try done; try apply IH;
      [apply evolve_refl | eauto | |].
    + intros j q [Hne Hj]%lookup_delete_Some. right. auto.
    + intros j q k [Hne Hj]%lookup_delete_Some Hin. left. eauto.
  - by apply inv_to_idle.
  - eapply inv_claim; try done. by eapply reachable_valid.
  - by apply inv_to_idle.
  - by apply inv_spawn.
  - by eapply inv_call.
  - by eapply inv_finish.
  - by apply inv_to_idle.
  - by eapply inv_release.
  - apply inv_to_idle; [done | done |]. by destruct fault.
Qed.
End Invariant.
