(* ===== verification/Orders.v ===== *)
(** The orders context ([apps/backend/orders]): the [Order] aggregate and its two
    decisions, the application service over the interfaces, its codecs, its
    authorization, and the mapping of its events to their contracts.

    A Go enum is an [int]: a [Status] is a [Z], so a snapshot may hold any. *)

From S2P Require Import Prelude Regex DomainKernel Errors Ports Interfaces Codec OutboundKey Application Envelope Outbox.

(** * Domain ([domain/messages.go], [rejections.go]) *)
Definition OrderID := string.
Definition SKU := string.
Record Item := mkItem { item_SKU : SKU; item_Quantity : Z }.

Definition Status := Z.
Definition Open : Status := 0.
Definition Placed : Status := 1.

Record AddItem := mkAddItem { ai_SKU : SKU; ai_Quantity : Z; ai_At : Instant }.
Record PlaceOrder := mkPlaceOrder { po_At : Instant }.

Record ItemAdded := mkItemAdded {
  ia_Order : OrderID; ia_SKU : SKU; ia_Quantity : Z; ia_At : Instant
}.
Record OrderPlaced := mkOrderPlaced { op_Order : OrderID; op_Items : Z; op_At : Instant }.
(** The events of the context, as [kernel.DomainEvent]. *)
Inductive Event := EvItemAdded (e : ItemAdded) | EvOrderPlaced (e : OrderPlaced).
Definition EventName (e : Event) : string :=
  match e with
  | EvItemAdded _ => "orders.item-added"
  | EvOrderPlaced _ => "orders.order-placed"
  end.

Record ItemAccepted := mkItemAccepted { acc_Order : OrderID; acc_Items : Z }.
Record PlacedResponse := mkPlacedResponse { placed_Order : OrderID }.

Definition CodeOrderItemLimitExceeded : Code := "orders/item-limit-exceeded".
Definition CodeOrderEmpty : Code := "orders/empty-order".
Definition CodeOrderNotOpen : Code := "orders/order-not-open".

#[global] Instance Item_eq_dec : EqDecision Item.
Proof. solve_decision. Defined.

(** ** The aggregate ([domain/order.go]) *)
Record Order := mkOrder { o_id : OrderID; o_status : Status; o_items : list Item; o_itemLimit : Z }.

Definition NewOrder (id : OrderID) (itemLimit : Z) : Order := mkOrder id Open [] itemLimit.

Record Snapshot := mkSnapshot {
  s_ID : OrderID; s_Status : Status; s_ItemLimit : Z; s_Items : list Item
}.
Definition FromSnapshot (s : Snapshot) : Order :=
  mkOrder (s_ID s) (s_Status s) (s_Items s) (s_ItemLimit s).
Definition Order_Snapshot (o : Order) : Snapshot :=
  mkSnapshot (o_id o) (o_status o) (o_itemLimit o) (o_items o).
Definition Snapshot_Equal (s other : Snapshot) : bool :=
  String.eqb (s_ID s) (s_ID other) && (s_Status s =? s_Status other)
  && (s_ItemLimit s =? s_ItemLimit other) && bool_decide (s_Items s = s_Items other).
Definition clone (o : Order) : Order :=
  mkOrder (o_id o) (o_status o) (o_items o) (o_itemLimit o).

(** ** The decisions ([domain/add_item.go], [place.go]) *)
Definition Order_AddItem (cmd : AddItem) (o : Order) : Order * Decision_of Event ItemAccepted :=
  DecideOver o clone (fun next =>
    if negb (o_status next =? Open)
    then (next, Refuse CodeOrderNotOpen "order is not open" [])
    else
      let attempted := len (o_items next) + 1 in
      if o_itemLimit next <? attempted
      then (next, Refuse CodeOrderItemLimitExceeded "item limit exceeded"
                    [mkDetail "limit" (Itoa (o_itemLimit next)); mkDetail "attempted" (Itoa attempted)])
      else
        let items := o_items next ++ [mkItem (ai_SKU cmd) (ai_Quantity cmd)] in
        (mkOrder (o_id next) (o_status next) items (o_itemLimit next),
         inl (Accept (mkItemAccepted (o_id next) (len items))
                [EvItemAdded (mkItemAdded (o_id next) (ai_SKU cmd) (ai_Quantity cmd) (ai_At cmd))]))).

Definition Order_Place (cmd : PlaceOrder) (o : Order) : Order * Decision_of Event PlacedResponse :=
  DecideOver o clone (fun next =>
    if negb (o_status next =? Open)
    then (next, Refuse CodeOrderNotOpen "order is not open" [])
    else if len (o_items next) =? 0
    then (next, Refuse CodeOrderEmpty "order has no items" [])
    else
      (mkOrder (o_id next) Placed (o_items next) (o_itemLimit next),
       inl (Accept (mkPlacedResponse (o_id next))
              [EvOrderPlaced (mkOrderPlaced (o_id next) (len (o_items next)) (po_At cmd))]))).

(** * Application ([application/service.go], [codecs.go]) *)
Definition AggregateType : string := "orders.Order".
Definition Destination : string := "orders.events".
Definition CommandConsumer : string := "orders.commands".
Definition OperationAddItem : string := "orders.AddItem".
Definition OperationPlaceOrder : string := "orders.PlaceOrder".
Definition OperationFindOrder : string := "orders.FindOrder".
Definition maxEventsPerCommand : Z := 1.

Record AddItemInput := mkAddItemInput { in_Order : OrderID; in_SKU : SKU; in_Quantity : Z }.
Record PlaceOrderInput := mkPlaceOrderInput { in_PlacedOrder : OrderID }.
Record FindOrderInput := mkFindOrderInput { in_FoundOrder : OrderID }.
Inductive Operation :=
| OpAddItem (cmd : AddItemInput) | OpPlaceOrder (cmd : PlaceOrderInput)
| OpFindOrder (cmd : FindOrderInput).

Definition itemAcceptedCodec : OutcomeCodec ItemAccepted :=
  mkOutcomeCodec
    (fun e r => enc_Int (enc_String e (acc_Order r)) (acc_Items r))
    (fun d =>
       let '(order, d) := dec_String d in
       let '(items, d) := dec_Int d in
       (mkItemAccepted order items, d)).
Definition placedCodec : OutcomeCodec PlacedResponse :=
  mkOutcomeCodec
    (fun e r => enc_String e (placed_Order r))
    (fun d => let '(order, d) := dec_String d in (mkPlacedResponse order, d)).

(** [app/authorization.go] *)
Definition permissionOf (op : Operation) : Permission :=
  match op with
  | OpAddItem _ => "orders:write"
  | OpPlaceOrder _ => "orders:write"
  | OpFindOrder _ => "orders:read"
  end.
Definition Authorization {W} (ctx : Ctx) (op : Operation) : M W error unit :=
  lift (Permitted permissionOf ctx op).

Definition origin (order : OrderID) : Origin := mkOrigin Destination AggregateType order.

(** [NewFingerprint(op).String(...).Int(...)]. *)
Definition add_item_fingerprint (cmd : AddItemInput) : Fingerprint :=
  fingerprint_Int
    (fingerprint_String (fingerprint_String (NewFingerprint OperationAddItem) (in_Order cmd))
       (in_SKU cmd)) (in_Quantity cmd).
Definition place_order_fingerprint (cmd : PlaceOrderInput) : Fingerprint :=
  fingerprint_String (NewFingerprint OperationPlaceOrder) (in_PlacedOrder cmd).

Section Application.
Context {W : Type} {Slots_W : HasSlots W}.

Record Resources := mkResources {
  res_Orders : Repository W Snapshot;
  res_Outbox : Interfaces.Outbox W Event;
  res_Commands : Inbox W
}.

Record Service := mkService {
  sv_UoW : UnitOfWork W Resources;
  sv_Reader : Reader W Snapshot;
  sv_Clock : Clock W;
  sv_IDs : IDGenerator W;
  sv_Authorize : Ctx -> Operation -> M W error unit;
  sv_ItemLimit : Z;
  sv_Idempotency : IdempotencyPolicy;
  sv_Instrumentation : option (Instrumentation W)
}.

Definition executor (s : Service) : Executor (W := W) Resources Operation :=
  mkExecutor Resources Operation (sv_UoW s) res_Commands CommandConsumer (sv_Clock s) (sv_IDs s)
    maxEventsPerCommand (sv_Idempotency s) (sv_Authorize s) (sv_Instrumentation s).

Definition add_item_command (s : Service) (cmd : AddItemInput)
  : Command (W := W) Resources Operation ItemAccepted :=
  mkCommand Resources Operation ItemAccepted OperationAddItem (in_Order cmd) (OpAddItem cmd)
    (Some (add_item_fingerprint cmd)) itemAcceptedCodec
    (fun ctx res identity =>
       map_err (Wrap "application: add item")
         (Decide Order_Snapshot ctx (res_Orders res) (res_Outbox res) (origin (in_Order cmd))
            (in_Order cmd) identity
            (OrNew (fun id => NewOrder id (sv_ItemLimit s)) FromSnapshot)
            (Order_AddItem (mkAddItem (in_SKU cmd) (in_Quantity cmd) (OccurredAt identity))))).
Definition Service_AddItem (s : Service) (ctx : Ctx) (cmd : AddItemInput)
  : M W error (Outcome ItemAccepted) := Execute ctx (executor s) (add_item_command s cmd).

Definition place_order_command (cmd : PlaceOrderInput)
  : Command (W := W) Resources Operation PlacedResponse :=
  mkCommand Resources Operation PlacedResponse OperationPlaceOrder (in_PlacedOrder cmd)
    (OpPlaceOrder cmd) (Some (place_order_fingerprint cmd)) placedCodec
    (fun ctx res identity =>
       map_err (Wrap "application: place order")
         (Decide Order_Snapshot ctx (res_Orders res) (res_Outbox res) (origin (in_PlacedOrder cmd))
            (in_PlacedOrder cmd) identity (Existing FromSnapshot)
            (Order_Place (mkPlaceOrder (OccurredAt identity))))).
Definition Service_PlaceOrder (s : Service) (ctx : Ctx) (cmd : PlaceOrderInput)
  : M W error (Outcome PlacedResponse) := Execute ctx (executor s) (place_order_command cmd).

Definition Service_FindOrder (s : Service) (ctx : Ctx) (id : OrderID) : M W error Snapshot :=
  Query ctx (sv_Instrumentation s) (sv_Authorize s) OperationFindOrder
    (OpFindOrder (mkFindOrderInput id))
    (fun ctx =>
       loaded ← map_err (Wrap "application: find order") (reader_Load (sv_Reader s) ctx id);
       mret loaded.1).
End Application.
Arguments Resources : clear implicits.
Arguments Service : clear implicits.

(** * Contracts ([provider/mapper.go]) *)
Definition orderPlacedType : string := "com.company.orders.order-placed.v1".
Definition itemAddedType : string := "com.company.orders.item-added.v1".

(** The generated messages, as the data they carry. *)
Inductive Message :=
| MsgOrderPlaced (order_id : string) (item_count : Z)
| MsgItemAdded (order_id sku : string) (quantity : Z).

(** [Mapper.Map]; how a message is packed belongs to the generated code. *)
Definition Mapper_Map (proto : Message -> ProtoMessage) (event : Event) : result error Mapped :=
  match event with
  | EvOrderPlaced e =>
      Ok (mkMapped (Some (proto (MsgOrderPlaced (op_Order e) (int32_of (op_Items e))))) orderPlacedType)
  | EvItemAdded e =>
      Ok (mkMapped (Some (proto (MsgItemAdded (ia_Order e) (ia_SKU e) (int32_of (ia_Quantity e)))))
            itemAddedType)
  end.
