(* ===== verification/Bookings.v ===== *)
(** The bookings context ([apps/backend/bookings]): the [Booking] and [Resource]
    aggregates and their decisions, the application service over the interfaces
    with its three commands and two queries, its codecs, its authorization, and
    the mapping of its events to their contracts. *)

From S2P Require Import Prelude Regex DomainKernel Errors Ports Interfaces Codec OutboundKey Application Envelope Outbox GoTime.

(** * Domain ([domain/messages.go], [rejections.go]) *)
Definition BookingID := string.
Definition ResourceID := string.
Definition ResourceCode := string.
Definition ResourceName := string.

Definition BookingStatus := Z.
Definition New : BookingStatus := 0.
Definition Reserved : BookingStatus := 1.
Definition Cancelled : BookingStatus := 2.

Record ReserveBooking := mkReserveBooking {
  rb_ResourceID : ResourceID; rb_Quantity : Z; rb_At : Instant
}.
Record CancelBooking := mkCancelBooking { cb_At : Instant }.
Record RegisterResource := mkRegisterResource {
  rr_Code : ResourceCode; rr_Name : ResourceName; rr_At : Instant
}.

Record ReservedResponse := mkReservedResponse { resp_Reserved : BookingID }.
Record CancelledResponse := mkCancelledResponse { resp_Cancelled : BookingID }.
Record RegisteredResponse := mkRegisteredResponse { resp_Registered : ResourceCode }.

Record BookingReserved := mkBookingReserved {
  br_BookingID : BookingID; br_ResourceID : ResourceID; br_Quantity : Z; br_At : Instant
}.
Record BookingCancelled := mkBookingCancelled { bc_BookingID : BookingID; bc_At : Instant }.
Record ResourceRegistered := mkResourceRegistered {
  rd_Code : ResourceCode; rd_Name : ResourceName; rd_At : Instant
}.
Inductive Event :=
| EvBookingReserved (e : BookingReserved) | EvBookingCancelled (e : BookingCancelled)
| EvResourceRegistered (e : ResourceRegistered).
Definition EventName (e : Event) : string :=
  match e with
  | EvBookingReserved _ => "bookings.booking-reserved"
  | EvBookingCancelled _ => "bookings.booking-cancelled"
  | EvResourceRegistered _ => "bookings.resource-registered"
  end.

Definition CodeBookingQuantityOutOfRange : Code :=
  "resource-scheduling/booking/quantity-out-of-range".
Definition CodeBookingNotReserved : Code := "resource-scheduling/booking/not-reserved".
Definition CodeResourceCodeEmpty : Code := "resource-scheduling/resource/code-empty".
Definition CodeResourceNameEmpty : Code := "resource-scheduling/resource/name-empty".
Definition CodeResourceDuplicateName : Code := "resource-scheduling/resource/duplicate-name".
Definition RejectResourceDuplicateName : Rejection :=
  Reject CodeResourceDuplicateName "a resource with this name already exists in the tenant" [].

(** ** Booking ([domain/booking.go], [reserve.go], [cancel.go]) *)
Record Booking := mkBooking {
  b_id : BookingID; b_resourceID : ResourceID; b_quantity : Z; b_status : BookingStatus;
  b_reservedAt : Instant
}.
Definition NewBooking (id : BookingID) : Booking := mkBooking id "" 0 New 0.
Record BookingSnapshot := mkBookingSnapshot {
  bs_ID : BookingID; bs_ResourceID : ResourceID; bs_Quantity : Z; bs_Status : BookingStatus;
  bs_ReservedAt : Instant
}.
Definition FromBookingSnapshot (s : BookingSnapshot) : Booking :=
  mkBooking (bs_ID s) (bs_ResourceID s) (bs_Quantity s) (bs_Status s) (bs_ReservedAt s).
Definition Booking_Snapshot (b : Booking) : BookingSnapshot :=
  mkBookingSnapshot (b_id b) (b_resourceID b) (b_quantity b) (b_status b) (b_reservedAt b).
Definition BookingSnapshot_Equal (s other : BookingSnapshot) : bool :=
  String.eqb (bs_ID s) (bs_ID other) && String.eqb (bs_ResourceID s) (bs_ResourceID other)
  && (bs_Quantity s =? bs_Quantity other) && (bs_Status s =? bs_Status other)
  && (bs_ReservedAt s =? bs_ReservedAt other).
Definition Booking_clone (b : Booking) : Booking :=
  mkBooking (b_id b) (b_resourceID b) (b_quantity b) (b_status b) (b_reservedAt b).

Definition Booking_Reserve (cmd : ReserveBooking) (b : Booking)
  : Booking * Decision_of Event ReservedResponse :=
  DecideOver b Booking_clone (fun next =>
    if (rb_Quantity cmd <? 1) || (100 <? rb_Quantity cmd)
    then (next, Refuse CodeBookingQuantityOutOfRange "quantity must be between 1 and 100"
                  [mkDetail "quantity" (Itoa (rb_Quantity cmd))])
    else
      (mkBooking (b_id next) (rb_ResourceID cmd) (rb_Quantity cmd) Reserved (rb_At cmd),
       inl (Accept (mkReservedResponse (b_id next))
              [EvBookingReserved (mkBookingReserved (b_id next) (rb_ResourceID cmd) (rb_Quantity cmd)
                                    (rb_At cmd))]))).

Definition Booking_Cancel (cmd : CancelBooking) (b : Booking)
  : Booking * Decision_of Event CancelledResponse :=
  DecideOver b Booking_clone (fun next =>
    if negb (b_status next =? Reserved)
    then (next, Refuse CodeBookingNotReserved "booking is not reserved" [])
    else
      (mkBooking (b_id next) (b_resourceID next) (b_quantity next) Cancelled (b_reservedAt next),
       inl (Accept (mkCancelledResponse (b_id next))
              [EvBookingCancelled (mkBookingCancelled (b_id next) (cb_At cmd))]))).

(** ** Resource ([domain/resource.go]) *)
Record Resource := mkResource {
  r_code : ResourceCode; r_name : ResourceName; r_registeredAt : Instant
}.
Definition NewResource (code : ResourceCode) : Resource := mkResource code "" 0.
Record ResourceSnapshot := mkResourceSnapshot {
  rs_Code : ResourceCode; rs_Name : ResourceName; rs_RegisteredAt : Instant
}.
Definition FromResourceSnapshot (s : ResourceSnapshot) : Resource :=
  mkResource (rs_Code s) (rs_Name s) (rs_RegisteredAt s).
Definition Resource_Snapshot (r : Resource) : ResourceSnapshot :=
  mkResourceSnapshot (r_code r) (r_name r) (r_registeredAt r).
Definition ResourceSnapshot_Equal (s other : ResourceSnapshot) : bool :=
  String.eqb (rs_Code s) (rs_Code other) && String.eqb (rs_Name s) (rs_Name other)
  && (rs_RegisteredAt s =? rs_RegisteredAt other).
Definition Resource_clone (r : Resource) : Resource :=
  mkResource (r_code r) (r_name r) (r_registeredAt r).

Definition Resource_Register (cmd : RegisterResource) (r : Resource)
  : Resource * Decision_of Event RegisteredResponse :=
  DecideOver r Resource_clone (fun next =>
    if String.eqb (rr_Code cmd) ""
    then (next, Refuse CodeResourceCodeEmpty "code must not be empty" [])
    else if String.eqb (rr_Name cmd) ""
    then (next, Refuse CodeResourceNameEmpty "name must not be empty" [])
    else if negb (r_registeredAt next =? 0)
    then (next, inl (Accept (mkRegisteredResponse (r_code next)) []))
    else
      (mkResource (r_code next) (rr_Name cmd) (rr_At cmd),
       inl (Accept (mkRegisteredResponse (r_code next))
              [EvResourceRegistered (mkResourceRegistered (r_code next) (rr_Name cmd) (rr_At cmd))]))).

(** * Application ([application/service.go], [codecs.go]) *)
Definition AggregateTypeBooking : string := "bookings.Booking".
Definition AggregateTypeResource : string := "bookings.Resource".
Definition Destination : string := "bookings.events".
Definition CommandConsumer : string := "bookings.commands".
Definition OperationReserveBooking : string := "bookings.ReserveBooking".
Definition OperationCancelBooking : string := "bookings.CancelBooking".
Definition OperationRegisterResource : string := "bookings.RegisterResource".
Definition OperationFindBooking : string := "bookings.FindBooking".
Definition OperationFindBookingByResource : string := "bookings.FindBookingByResource".
Definition maxEventsPerCommand : Z := 1.

Record ReserveInput := mkReserveInput {
  in_BookingID : BookingID; in_ResourceID : ResourceID; in_Quantity : Z
}.
Record CancelInput := mkCancelInput { in_Cancelled : BookingID }.
Record RegisterInput := mkRegisterInput { in_Code : ResourceCode; in_Name : ResourceName }.
Inductive Operation :=
| OpReserveBooking (cmd : ReserveInput) | OpCancelBooking (cmd : CancelInput)
| OpRegisterResource (cmd : RegisterInput) | OpFindBooking (booking : BookingID)
| OpFindBookingByResource (resource : ResourceID).

Definition id_codec {R} (wrap : string -> R) (unwrap : R -> string) : OutcomeCodec R :=
  mkOutcomeCodec (fun e r => enc_String e (unwrap r))
    (fun d => let '(id, d) := dec_String d in (wrap id, d)).
Definition reservedCodec : OutcomeCodec ReservedResponse :=
  id_codec mkReservedResponse resp_Reserved.
Definition cancelledCodec : OutcomeCodec CancelledResponse :=
  id_codec mkCancelledResponse resp_Cancelled.
Definition registeredCodec : OutcomeCodec RegisteredResponse :=
  id_codec mkRegisteredResponse resp_Registered.

(** [app/authorization.go] *)
Definition permissionOf (op : Operation) : Permission :=
  match op with
  | OpReserveBooking _ => "bookings:write"
  | OpCancelBooking _ => "bookings:write"
  | OpRegisterResource _ => "bookings:write"
  | OpFindBooking _ => "bookings:read"
  | OpFindBookingByResource _ => "bookings:read"
  end.
Definition Authorization {W} (ctx : Ctx) (op : Operation) : M W error unit :=
  lift (Permitted permissionOf ctx op).

Definition origin (aggregateType aggregateID : string) : Origin :=
  mkOrigin Destination aggregateType aggregateID.

Definition reserve_fingerprint (cmd : ReserveInput) : Fingerprint :=
  fingerprint_Int
    (fingerprint_String
       (fingerprint_String (NewFingerprint OperationReserveBooking) (in_BookingID cmd))
       (in_ResourceID cmd)) (in_Quantity cmd).
Definition cancel_fingerprint (cmd : CancelInput) : Fingerprint :=
  fingerprint_String (NewFingerprint OperationCancelBooking) (in_Cancelled cmd).
Definition register_fingerprint (cmd : RegisterInput) : Fingerprint :=
  fingerprint_String
    (fingerprint_String (NewFingerprint OperationRegisterResource) (in_Code cmd)) (in_Name cmd).

Section Application.
Context {W : Type} {Slots_W : HasSlots W}.

Record Resources := mkResources {
  res_Bookings : Repository W BookingSnapshot;
  res_Resources : Repository W ResourceSnapshot;
  res_Outbox : Interfaces.Outbox W Event;
  res_Commands : Inbox W
}.

(** [ports/reader.go] *)
Record BookingsByResourceReader := mkBookingsByResourceReader {
  LoadByResource : Ctx -> ResourceID -> M W error (list BookingSnapshot)
}.

Record Service := mkService {
  sv_UoW : UnitOfWork W Resources;
  sv_Reader : Reader W BookingSnapshot;
  sv_ResourceReader : BookingsByResourceReader;
  sv_Clock : Clock W;
  sv_IDs : IDGenerator W;
  sv_Authorize : Ctx -> Operation -> M W error unit;
  sv_Idempotency : IdempotencyPolicy;
  sv_Instrumentation : option (Instrumentation W)
}.

Definition executor (s : Service) : Executor (W := W) Resources Operation :=
  mkExecutor Resources Operation (sv_UoW s) res_Commands CommandConsumer (sv_Clock s) (sv_IDs s)
    maxEventsPerCommand (sv_Idempotency s) (sv_Authorize s) (sv_Instrumentation s).

Definition loadExistingBooking : Loader (W := W) BookingSnapshot Booking :=
  Existing FromBookingSnapshot.
Definition loadAbsentBooking : Loader (W := W) BookingSnapshot Booking := Absent NewBooking.
Definition loadResource : Loader (W := W) ResourceSnapshot Resource :=
  OrNew NewResource FromResourceSnapshot.

Definition reserve_command (cmd : ReserveInput)
  : Command (W := W) Resources Operation ReservedResponse :=
  mkCommand Resources Operation ReservedResponse OperationReserveBooking (in_BookingID cmd)
    (OpReserveBooking cmd) (Some (reserve_fingerprint cmd)) reservedCodec
    (fun ctx res identity =>
       map_err (Wrap "application: reserve")
         (Decide Booking_Snapshot ctx (res_Bookings res) (res_Outbox res)
            (origin AggregateTypeBooking (in_BookingID cmd)) (in_BookingID cmd) identity
            loadAbsentBooking
            (Booking_Reserve
               (mkReserveBooking (in_ResourceID cmd) (in_Quantity cmd) (OccurredAt identity))))).
Definition Service_ReserveBooking (s : Service) (ctx : Ctx) (cmd : ReserveInput)
  : M W error (Outcome ReservedResponse) := Execute ctx (executor s) (reserve_command cmd).

Definition cancel_command (cmd : CancelInput)
  : Command (W := W) Resources Operation CancelledResponse :=
  mkCommand Resources Operation CancelledResponse OperationCancelBooking (in_Cancelled cmd)
    (OpCancelBooking cmd) (Some (cancel_fingerprint cmd)) cancelledCodec
    (fun ctx res identity =>
       map_err (Wrap "application: cancel")
         (Decide Booking_Snapshot ctx (res_Bookings res) (res_Outbox res)
            (origin AggregateTypeBooking (in_Cancelled cmd)) (in_Cancelled cmd) identity
            loadExistingBooking (Booking_Cancel (mkCancelBooking (OccurredAt identity))))).
Definition Service_CancelBooking (s : Service) (ctx : Ctx) (cmd : CancelInput)
  : M W error (Outcome CancelledResponse) := Execute ctx (executor s) (cancel_command cmd).

Definition register_command (cmd : RegisterInput)
  : Command (W := W) Resources Operation RegisteredResponse :=
  mkCommand Resources Operation RegisteredResponse OperationRegisterResource (in_Code cmd)
    (OpRegisterResource cmd) (Some (register_fingerprint cmd)) registeredCodec
    (fun ctx res identity =>
       map_err (Wrap "application: register")
         (Decide Resource_Snapshot ctx (res_Resources res) (res_Outbox res)
            (origin AggregateTypeResource (in_Code cmd)) (in_Code cmd) identity loadResource
            (Resource_Register
               (mkRegisterResource (in_Code cmd) (in_Name cmd) (OccurredAt identity))))).
Definition Service_RegisterResource (s : Service) (ctx : Ctx) (cmd : RegisterInput)
  : M W error (Outcome RegisteredResponse) := Execute ctx (executor s) (register_command cmd).

Definition Service_FindBooking (s : Service) (ctx : Ctx) (id : BookingID)
  : M W error BookingSnapshot :=
  Query ctx (sv_Instrumentation s) (sv_Authorize s) OperationFindBooking (OpFindBooking id)
    (fun ctx =>
       loaded ← map_err (Wrap "application: find booking") (reader_Load (sv_Reader s) ctx id);
       mret loaded.1).

(** [find_booking_by_resource.go]: another tenant's resource answers like one
    nobody holds. *)
Definition Service_FindBookingByResource (s : Service) (ctx : Ctx) (resourceID : ResourceID)
  : M W error (list BookingSnapshot) :=
  let inst := default NoInstrumentation (sv_Instrumentation s) in
  opened ← unfailing (BeginOperation inst ctx OperationFindBookingByResource);
  let '(ctx, end_) := opened : Ctx * (Result -> M W Empty_set unit) in
  authorized ← attempt (sv_Authorize s ctx (OpFindBookingByResource resourceID));
  match authorized with
  | Err e => _ ← unfailing (end_ (AuthorizationResult e)); throw e
  | Panic p => panic p
  | Ok _ =>
      loaded ← attempt (LoadByResource (sv_ResourceReader s) ctx resourceID);
      match loaded with
      | Err e =>
          match as_cross_tenant e with
          | Some access => _ ← unfailing (end_ (mkResult OutcomeFailed (Some access))); mret []
          | None =>
              let failed := Wrap "application: find by resource" e in
              _ ← unfailing (end_ (mkResult OutcomeFailed (Some failed))); throw failed
          end
      | Panic p => panic p
      | Ok snapshots => _ ← unfailing (end_ (mkResult OutcomeAccepted None)); mret snapshots
      end
  end.
End Application.
Arguments Resources : clear implicits.
Arguments Service : clear implicits.
Arguments BookingsByResourceReader : clear implicits.

(** * Contracts ([provider/mapper.go]) *)
Definition bookingReservedType : string := "com.company.bookings.booking-reserved.v1".
Definition bookingCancelledType : string := "com.company.bookings.booking-cancelled.v1".
Definition resourceRegisteredType : string := "com.company.bookings.resource-registered.v1".

(** [timestamppb.New(time.Unix(0, at))]: seconds, rounded down, and nanoseconds. *)
Record Timestamp := mkTimestamp { ts_Seconds : Z; ts_Nanos : Z }.
Definition timestamp_of (at_ : Instant) : Timestamp := mkTimestamp (at_ / Second) (at_ mod Second).

(** The generated messages, as the data they carry. *)
Inductive Message :=
| MsgBookingReserved (booking_id resource_id : string) (quantity : Z) (reserved_at : Timestamp)
| MsgBookingCancelled (booking_id : string) (cancelled_at : Timestamp)
| MsgResourceRegistered (resource_id name : string) (registered_at : Timestamp).

Definition Mapper_Map (proto : Message -> ProtoMessage) (event : Event) : result error Mapped :=
  match event with
  | EvBookingReserved e =>
      Ok (mkMapped (Some (proto (MsgBookingReserved (br_BookingID e) (br_ResourceID e)
                                   (int32_of (br_Quantity e)) (timestamp_of (br_At e)))))
            bookingReservedType)
  | EvBookingCancelled e =>
      Ok (mkMapped (Some (proto (MsgBookingCancelled (bc_BookingID e) (timestamp_of (bc_At e)))))
            bookingCancelledType)
  | EvResourceRegistered e =>
      Ok (mkMapped (Some (proto (MsgResourceRegistered (rd_Code e) (rd_Name e)
                                   (timestamp_of (rd_At e))))) resourceRegisteredType)
  end.
