(* ===== verification/Reservations.v ===== *)
(** The reservations context ([apps/backend/reservations]): the [Reservation]
    aggregate, its synchronous commands, the consumption of [OrderPlaced] through
    the inbox, the handler the consumer adapter calls, and the consumer the
    composition root declares. *)

From S2P Require Import Prelude Regex DomainKernel Errors Ports Interfaces Envelope Consumer Outbox Codec OutboundKey Application.

(** * Domain ([domain/messages.go], [rejections.go], [reservation.go]) *)
Definition OrderID := string.
Definition Status := Z.
Definition Pending : Status := 0.
Definition Confirmed : Status := 1.
Definition Cancelled : Status := 2.

Record Reserve := mkReserve { rv_Items : Z; rv_At : Instant }.
Record Cancel := mkCancel { cn_At : Instant }.
Record ReservationConfirmed := mkReservationConfirmed {
  rc_Order : OrderID; rc_Items : Z; rc_At : Instant
}.
Record ReservationCancelled := mkReservationCancelled { rx_Order : OrderID; rx_At : Instant }.
Inductive Event :=
| EvReservationConfirmed (e : ReservationConfirmed)
| EvReservationCancelled (e : ReservationCancelled).
Definition EventName (e : Event) : string :=
  match e with
  | EvReservationConfirmed _ => "reservations.reservation-confirmed"
  | EvReservationCancelled _ => "reservations.reservation-cancelled"
  end.
Record ReservedResponse := mkReservedResponse { resp_Order : OrderID; resp_Items : Z }.
Record CancelledResponse := mkCancelledResponse { resp_Cancelled : OrderID }.

Definition CodeReservationNothingToReserve : Code := "reservations/nothing-to-reserve".
Definition CodeReservationAlreadyReserved : Code := "reservations/already-reserved".
Definition CodeReservationAlreadyCancelled : Code := "reservations/already-canceled".
Definition CodeReservationCancelled : Code := "reservations/reservation-canceled".

Record Reservation := mkReservation { v_order : OrderID; v_items : Z; v_status : Status }.
Definition NewReservation (order : OrderID) : Reservation := mkReservation order 0 Pending.
Record Snapshot := mkSnapshot { s_Order : OrderID; s_Items : Z; s_Status : Status }.
Definition FromSnapshot (s : Snapshot) : Reservation :=
  mkReservation (s_Order s) (s_Items s) (s_Status s).
Definition Reservation_Snapshot (r : Reservation) : Snapshot :=
  mkSnapshot (v_order r) (v_items r) (v_status r).
Definition Snapshot_Equal (s other : Snapshot) : bool :=
  String.eqb (s_Order s) (s_Order other) && (s_Items s =? s_Items other)
  && (s_Status s =? s_Status other).
Definition clone (r : Reservation) : Reservation := mkReservation (v_order r) (v_items r) (v_status r).

(** ** Decisions ([domain/reserve.go], [cancel.go]): the switch falls through on
    any other status. *)
Definition Reservation_Reserve (cmd : Reserve) (r : Reservation)
  : Reservation * Decision_of Event ReservedResponse :=
  DecideOver r clone (fun next =>
    if rv_Items cmd <=? 0
    then (next, Refuse CodeReservationNothingToReserve "nothing to reserve" [])
    else if v_status next =? Confirmed
    then (next, Refuse CodeReservationAlreadyReserved "reservation is already confirmed" [])
    else if v_status next =? Cancelled
    then (next, Refuse CodeReservationCancelled "reservation is canceled" [])
    else
      (mkReservation (v_order next) (rv_Items cmd) Confirmed,
       inl (Accept (mkReservedResponse (v_order next) (rv_Items cmd))
              [EvReservationConfirmed
                 (mkReservationConfirmed (v_order next) (rv_Items cmd) (rv_At cmd))]))).

Definition Reservation_Cancel (cmd : Cancel) (r : Reservation)
  : Reservation * Decision_of Event CancelledResponse :=
  DecideOver r clone (fun next =>
    if v_status next =? Confirmed
    then (next, Refuse CodeReservationAlreadyReserved "reservation is already confirmed" [])
    else if v_status next =? Cancelled
    then (next, Refuse CodeReservationAlreadyCancelled "reservation is already canceled" [])
    else
      (mkReservation (v_order next) (v_items next) Cancelled,
       inl (Accept (mkCancelledResponse (v_order next))
              [EvReservationCancelled (mkReservationCancelled (v_order next) (cn_At cmd))]))).

(** * Application ([application/service.go], [codecs.go]) *)
Definition AggregateType : string := "reservations.Reservation".
Definition Destination : string := "reservations.events".
Definition CommandConsumer : string := "reservations.commands".
Definition OperationReserve : string := "reservations.Reserve".
Definition OperationCancel : string := "reservations.Cancel".
Definition OperationFindReservation : string := "reservations.FindReservation".
Definition maxEventsPerCommand : Z := 1.

Record ConsumeOrderPlaced := mkConsumeOrderPlaced {
  cop_MessageID : MessageID; cop_MessageType : string; cop_PayloadHash : string;
  cop_ReceivedAt : Instant; cop_Order : OrderID; cop_Items : Z
}.
Record ReserveInput := mkReserveInput { in_Order : OrderID; in_Items : Z }.
Record CancelInput := mkCancelInput { in_Cancelled : OrderID }.
Inductive Operation :=
| OpConsumeOrderPlaced (cmd : ConsumeOrderPlaced) | OpReserve (cmd : ReserveInput)
| OpCancel (cmd : CancelInput) | OpFindReservation (order : OrderID).

Definition reservedCodec : OutcomeCodec ReservedResponse :=
  mkOutcomeCodec
    (fun e r => enc_Int (enc_String e (resp_Order r)) (resp_Items r))
    (fun d =>
       let '(order, d) := dec_String d in
       let '(items, d) := dec_Int d in
       (mkReservedResponse order items, d)).
Definition cancelledCodec : OutcomeCodec CancelledResponse :=
  mkOutcomeCodec (fun e r => enc_String e (resp_Cancelled r))
    (fun d => let '(order, d) := dec_String d in (mkCancelledResponse order, d)).

(** [app/authorization.go] *)
Definition permissionOf (op : Operation) : Permission :=
  match op with
  | OpConsumeOrderPlaced _ => "reservations:consume"
  | OpReserve _ => "reservations:write"
  | OpCancel _ => "reservations:write"
  | OpFindReservation _ => "reservations:read"
  end.
Definition Authorization {W} (ctx : Ctx) (op : Operation) : M W error unit :=
  lift (Permitted permissionOf ctx op).

Definition origin (order : OrderID) : Origin := mkOrigin Destination AggregateType order.
Definition reserve_fingerprint (cmd : ReserveInput) : Fingerprint :=
  fingerprint_Int (fingerprint_String (NewFingerprint OperationReserve) (in_Order cmd)) (in_Items cmd).
Definition cancel_fingerprint (cmd : CancelInput) : Fingerprint :=
  fingerprint_String (NewFingerprint OperationCancel) (in_Cancelled cmd).

Section Application.
Context {W : Type} {Slots_W : HasSlots W}.

Record Resources := mkResources {
  res_Inbox : Inbox W;
  res_Reservations : Repository W Snapshot;
  res_Outbox : Interfaces.Outbox W Event;
  res_Commands : Inbox W
}.
Record Service := mkService {
  sv_UoW : UnitOfWork W Resources;
  sv_Reader : Reader W Snapshot;
  sv_Clock : Clock W;
  sv_IDs : IDGenerator W;
  sv_Authorize : Ctx -> Operation -> M W error unit;
  sv_Consumer : string;
  sv_Idempotency : IdempotencyPolicy;
  sv_Instrumentation : option (Instrumentation W)
}.
Definition executor (s : Service) : Executor (W := W) Resources Operation :=
  mkExecutor Resources Operation (sv_UoW s) res_Commands CommandConsumer (sv_Clock s) (sv_IDs s)
    maxEventsPerCommand (sv_Idempotency s) (sv_Authorize s) (sv_Instrumentation s).

Definition loadReservation : Loader (W := W) Snapshot Reservation := OrNew NewReservation FromSnapshot.

Definition reserve_command (cmd : ReserveInput)
  : Command (W := W) Resources Operation ReservedResponse :=
  mkCommand Resources Operation ReservedResponse OperationReserve (in_Order cmd) (OpReserve cmd)
    (Some (reserve_fingerprint cmd)) reservedCodec
    (fun ctx res identity =>
       map_err (Wrap "application: reserve")
         (Decide Reservation_Snapshot ctx (res_Reservations res) (res_Outbox res)
            (origin (in_Order cmd)) (in_Order cmd) identity loadReservation
            (Reservation_Reserve (mkReserve (in_Items cmd) (OccurredAt identity))))).
Definition Service_Reserve (s : Service) (ctx : Ctx) (cmd : ReserveInput)
  : M W error (Outcome ReservedResponse) := Execute ctx (executor s) (reserve_command cmd).

Definition cancel_command (cmd : CancelInput)
  : Command (W := W) Resources Operation CancelledResponse :=
  mkCommand Resources Operation CancelledResponse OperationCancel (in_Cancelled cmd) (OpCancel cmd)
    (Some (cancel_fingerprint cmd)) cancelledCodec
    (fun ctx res identity =>
       map_err (Wrap "application: cancel")
         (Decide Reservation_Snapshot ctx (res_Reservations res) (res_Outbox res)
            (origin (in_Cancelled cmd)) (in_Cancelled cmd) identity loadReservation
            (Reservation_Cancel (mkCancel (OccurredAt identity))))).
Definition Service_Cancel (s : Service) (ctx : Ctx) (cmd : CancelInput)
  : M W error (Outcome CancelledResponse) := Execute ctx (executor s) (cancel_command cmd).

Definition Service_FindReservation (s : Service) (ctx : Ctx) (id : OrderID) : M W error Snapshot :=
  Query ctx (sv_Instrumentation s) (sv_Authorize s) OperationFindReservation (OpFindReservation id)
    (fun ctx =>
       loaded ← map_err (Wrap "application: find reservation") (reader_Load (sv_Reader s) ctx id);
       mret loaded.1).

(** ** Consumption ([application/consume.go])

    The callback's disposition, captured by the closure, is its value. *)
Definition save_error (e : error) : error :=
  Wrap "application: consume"
    (if errors_is e ErrVersionConflict then NewFailure Conflict true (Some e) else e).

Definition consumeFirst (ctx : Ctx) (res : Resources) (cmd : ConsumeOrderPlaced)
    (identity : Identity) (pending : Interfaces.Pending W) : M W error Disposition :=
  loaded ← map_err (Wrap "application: consume")
             (loadReservation ctx (repo_Reader (res_Reservations res)) (cop_Order cmd));
  let '(reservation, stored) := loaded : Reservation * Version in
  let '(reservation, decision) :=
    Reservation_Reserve (mkReserve (cop_Items cmd) (OccurredAt identity)) reservation in
  match decision with
  | inr rejection =>
      _ ← Complete pending ctx
            (mkCompletion StatusRejected (OccurredAt identity) (rej_code rejection) []);
      mret R1D2
  | inl accepted =>
      _ ← map_err save_error
            (repo_Save (res_Reservations res) ctx (cop_Order cmd)
               (Reservation_Snapshot reservation) stored);
      _ ← map_err (Wrap "application: consume: enqueue")
            (Enqueue ctx (res_Outbox res) identity (origin (cop_Order cmd))
               (wrapu64 (stored + 1)) (events accepted));
      _ ← Complete pending ctx (mkCompletion StatusProcessed (OccurredAt identity) "" []);
      mret R1D1
  end.

Definition consume_receipt (s : Service) (cmd : ConsumeOrderPlaced) : Receipt :=
  mkReceipt (sv_Consumer s) (cop_MessageID cmd) (cop_MessageType cmd) (cop_PayloadHash cmd)
    (cop_ReceivedAt cmd) 0 0.

Definition consume_run (s : Service) (cmd : ConsumeOrderPlaced) (identity : Identity) (ctx : Ctx)
    (res : Resources) : M W error Disposition :=
  reception ← inbox_Register (res_Inbox res) ctx (consume_receipt s cmd);
  Reception_Match reception (consumeFirst ctx res cmd identity) (mret R2) (mret R3) (mret R4).

(** The disposition and the error go back together; only a panic unwinds. *)
Definition Service_ConsumeOrderPlaced (s : Service) (ctx : Ctx) (cmd : ConsumeOrderPlaced)
  : M W error (Disposition * option error) :=
  authorized ← attempt (sv_Authorize s ctx (OpConsumeOrderPlaced cmd));
  match authorized with
  | Err e => mret (Classify e, Some e)
  | Panic p => panic p
  | Ok _ =>
      identity ← ResolveIdentity (sv_Clock s) (sv_IDs s) maxEventsPerCommand;
      ran ← attempt (Within (sv_UoW s) ctx (consume_run s cmd identity));
      match ran with
      | Err e => mret (Classify e, Some e)
      | Panic p => panic p
      | Ok disposition => mret (disposition, None)
      end
  end.

(** * The consumer's handler ([app/consumer.go]) *)

(** [eventv1.OrderPlaced], as the data the handler reads of it. *)
Record OrderPlacedMessage := mkOrderPlacedMessage { opm_OrderId : string; opm_ItemCount : Z }.
Definition order_placed_name : string := "company.orders.event.v1.OrderPlaced".

Definition ConsumerName : string := "reservations".
Definition consumerLocale : string := "en".

Definition consume_command (receipt : Receipt) (placed : OrderPlacedMessage) : ConsumeOrderPlaced :=
  mkConsumeOrderPlaced (rcp_MessageID receipt) (rcp_MessageType receipt) (rcp_PayloadHash receipt)
    (rcp_ReceivedAt receipt) (opm_OrderId placed) (opm_ItemCount placed).

(** [Handler]; [unmarshal] is the generated decoder of [OrderPlaced]. *)
Definition Service_Handler (unmarshal : bytes -> result error OrderPlacedMessage) (s : Service)
  : Consumer.Handler W :=
  fun ctx _ receipt env w =>
    match Unpack order_placed_name unmarshal env with
    | Err e => (Returned (R1D4, Some (NewFailure Validation false (Some e))), w)
    | Panic _ => (Raised, w)
    | Ok placed =>
        match Service_ConsumeOrderPlaced s ctx (consume_command receipt placed) w with
        | (Ok answer, w') => (Returned answer, w')
        | (Err e, w') => (Returned (DispositionNone, Some e), w')
        | (Panic _, w') => (Raised, w')
        end
    end.

(** [OrdersBoundary]. *)
Definition OrdersBoundary (orders_source : string) (authenticated : bool) : Boundary :=
  mkBoundary (if authenticated then TransportVerified else TransportDevelopmentOnly) [orders_source].

(** [NewConsumer]: [carries] is [telemetry.Channel.Carries], [wire_types] the
    channel's own. *)
Definition NewConsumer (unmarshal : bytes -> result error OrderPlacedMessage) (s : Service)
    (containment : Containment W) (timeout maxAttempts : Z) (boundary : Boundary)
    (address group : string) (carries wire_types accepts : list string) : Consumer W :=
  mkConsumer ConsumerName maxAttempts (Service_Handler unmarshal s) accepts containment timeout
    boundary consumerLocale
    (mkChannel address group (if len carries =? 0 then wire_types else carries)).
End Application.
Arguments Resources : clear implicits.
Arguments Service : clear implicits.

(** * Contracts ([provider/mapper.go]) *)
Definition reservationConfirmedType : string := "com.company.reservations.reservation-confirmed.v1".
Definition reservationCancelledType : string := "com.company.reservations.reservation-cancelled.v1".
Inductive Message :=
| MsgReservationConfirmed (order_id : string) (item_count : Z)
| MsgReservationCancelled (order_id : string).
Definition Mapper_Map (proto : Message -> ProtoMessage) (event : Event) : result error Mapped :=
  match event with
  | EvReservationConfirmed e =>
      Ok (mkMapped (Some (proto (MsgReservationConfirmed (rc_Order e) (int32_of (rc_Items e)))))
            reservationConfirmedType)
  | EvReservationCancelled e =>
      Ok (mkMapped (Some (proto (MsgReservationCancelled (rx_Order e)))) reservationCancelledType)
  end.
