(* ===== verification/Fixture.v ===== *)
(** A concrete world for the witnesses: one context whose table keeps strings,
    with a unique constraint, an executor bound to the in-memory realization,
    and an execution context of tenant [t1]. *)

From S2P Require Import Prelude Regex DomainKernel Errors Ports Interfaces Codec OutboundKey Memory Ledger Application AppMemory.

Module Fixture.
Notation FW := (World string string Z).

Definition start : FW := mkWorld New ∅ 0%nat false ∅ 0%nat emptySlots 0.

Definition execution (t : TenantID) : ExecutionContext :=
  mkExecutionContext "r" "c" "" "00-t" "alice" t ["orders.place"] 10000000000 "en"
    false true true.
Definition ctx (t : TenantID) (key : string) : Ctx :=
  WithIdempotencyKey (WithExecutionContext Background (execution t)) key.

(** The snapshot of a row is a string; rows of one tenant do not share it. *)
Definition orders : Table string string :=
  mkTableDecl "orders" None
    [mkUnique "by_name" (Some (fun s => Some [s])) (Some (Reject "orders/name-taken" "" []))]
    id Some.
#[global] Instance orders_laws : TableLaws orders.
Proof. split; [done | by intros v s [= ->] | done]. Qed.

(** An open transaction over an empty store. *)
Definition opened : FW := (tx_open start).2.
Definition empty_tx : Tx string string := mkTx ∅ ∅ [] ∅ 0.

Definition clock : Clock FW := FixedClock 1000.
Definition ids : IDGenerator FW :=
  SequenceIDs w_rest
    (fun n w => mkWorld (w_store w) (w_txs w) (w_next_tx w) (w_locked w) (w_pendings w)
                  (w_next_pending w) (w_slots w) n) "m-".
Definition digest (canonical : bytes) : Digest := take 32 (canonical ++ replicate 32 0).
Definition policy : IdempotencyPolicy := mkIdempotencyPolicy 100 1000 (Some digest).

Definition executor : Executor (W := FW) loc string :=
  mkExecutor loc string (NewUnitOfWork id) (fun res => CommandInbox res "orders") "orders"
    clock ids 2 policy (fun ctx op => lift (Permitted (fun _ => "orders.place") ctx op)) None.

(** A command that saves a row, announces it, and answers with its name. *)
Definition fingerprint : Fingerprint := build [] [FString "book"].
Definition place (name : string) : Command (W := FW) loc string string :=
  mkCommand loc string string "orders.place" "order" name (Some fingerprint) string_codec
    (fun ctx res identity =>
       Decide id ctx (mkRepository (txReader orders res) (tx_Save orders res)) (tx_Outbox res)
         (mkOrigin "orders" "order" name) name identity
         (OrNew (fun fresh => fresh) (fun s => s))
         (fun agg => (agg, inl (Accept name ["placed"])))).
End Fixture.

(** The same for the services of the contexts: an empty store, a clock that
    stands still, a sequence of identifiers, and a caller of tenant [t1] that
    holds the given permissions. *)
Module ServiceFixture.
Section ServiceFixture.
Context {Any Event : Type}.
Definition start : World Any Event Z := mkWorld New ∅ 0%nat false ∅ 0%nat emptySlots 0.
Definition clock : Clock (World Any Event Z) := FixedClock 1000.
Definition ids : IDGenerator (World Any Event Z) :=
  SequenceIDs w_rest
    (fun n w => mkWorld (w_store w) (w_txs w) (w_next_tx w) (w_locked w) (w_pendings w)
                  (w_next_pending w) (w_slots w) n) "m-".
End ServiceFixture.
Definition ctx (permissions : list Permission) (key : string) : Ctx :=
  WithIdempotencyKey
    (WithExecutionContext Background
       (mkExecutionContext "r" "c" "" "00-t" "alice" "t1" permissions 10000000000 "en"
          false true true)) key.
End ServiceFixture.
