(* ===== verification/StoreTheorems.v ===== *)
(** What the in-memory store promises: transactions are all or nothing, rows are
    saved under optimistic locking and unique constraints, tenants are isolated,
    and the inbox tells a repetition from a collision. *)

From S2P Require Import Prelude Regex DomainKernel Errors Ports Interfaces Codec Memory Ledger Fixture.

(** * Transactions *)
Section Transactions.
Context {Any Event X : Type}.
Notation W := (World Any Event X).

(** The durable state a commit of [tx] leaves. *)
Definition after_commit (w : W) (tx : Tx Any Event) :=
  (cloneTables (tx_tables tx), tx_inbox tx, st_outbox (w_store w) ++ tx_outbox tx, tx_attempts tx).

(** a transaction is all or nothing. When the callback fails or panics,
    the caller is already cancelled, or the commit itself fails, rows, inbox,
    outbox and attempts are what they were; when the call succeeds they are
    the callback's working copy, its entries behind the ones already in the
    outbox. The store is unlocked again on every path. *)
Theorem Within_all_or_nothing {R A} (bind : loc -> R) ctx (fn : Ctx -> R -> M W error A)
    (w w' : W) r (Hfn : forall ctx res, Confined committed (fn ctx res))
    (Hl : w_locked w = false) (Hr : Within (NewUnitOfWork bind) ctx fn w = (r, w')) :
  w_locked w' = false /\
  match r with
  | Ok a => exists id w1 w2, tx_open w = (id, w1) /\ fn ctx (bind id) w1 = (Ok a, w2) /\
      forall tx, w_txs w2 !! id = Some tx -> committed w' = after_commit w tx
  | _ => committed w' = committed w
  end.
Proof.
  split.
  - revert Hr. cbn. unfold memory_Within. destruct (ctx_Err ctx); [by intros [= _ <-] |].
    rewrite Hl. destruct (tx_open w) as [id w1]. destruct (fn ctx (bind id) w1) as [[a | e | p] w2];
      [destruct (tx_commit id w2) as [[e |] w3] | |]; by intros [= _ <-].
  - destruct r as [a | e | p].
    + apply memory_Within_Ok in Hr as (id & w1 & w2 & Ho & Hf & _ & _ & Hfail & ->).
      exists id, w1, w2. repeat split; [done | done |]. intros tx Htx.
      unfold tx_commit. rewrite Hfail, Htx. unfold after_commit, committed. cbn.
      assert (st_outbox (w_store w2) = st_outbox (w_store w)) as ->; [| done].
      pose proof (Hfn _ _ _ _ _ Hf) as Hc. unfold tx_open in Ho. injection Ho as <- <-.
      unfold committed in Hc. cbn in Hc. congruence.
    + by eapply (unit_atomic (AtomicUnit := memory_atomic bind)).
    + by eapply (unit_atomic (AtomicUnit := memory_atomic bind)).
Qed.
End Transactions.

Lemma Within_all_or_nothing_witness :
  let fn : Ctx -> loc -> M Fixture.FW error unit :=
    fun ctx res => tx_Save Fixture.orders res ctx "o1" "book" 0 in
  let ran := Within (NewUnitOfWork id) (Fixture.ctx "t1" "k") fn Fixture.start in
  w_locked ran.2 = false /\
  match ran.1 with
  | Ok a => exists id0 w1 w2, tx_open Fixture.start = (id0, w1) /\
      fn (Fixture.ctx "t1" "k") (id id0) w1 = (Ok a, w2) /\
      forall tx, w_txs w2 !! id0 = Some tx -> committed ran.2 = after_commit Fixture.start tx
  | _ => committed ran.2 = committed Fixture.start
  end.
Proof.
  intros fn ran.
  refine (Within_all_or_nothing id (Fixture.ctx "t1" "k") fn Fixture.start ran.2 ran.1 _ eq_refl _);
    [intros ctx res; apply Confined_Save | apply surjective_pairing].
Defined.

(** * Rows *)
Section Rows.
Context {Any Event X S : Type} (t : Table Any S) `{!TableLaws t}.
Notation W := (World Any Event X).

(** saving is optimistic and exact. A save goes through only at the
    version it expected, and then loading the row gives the snapshot saved at
    the next version while every other row stays; otherwise the rows of the
    working copy stay as they were and the error says which of the two
    happened: the version moved, or a unique constraint is violated. *)
Theorem Save_Load id ctx key k s v (w : W) tx
    (Hk : scopedKey ctx key = Ok k) (Hw : w_txs w !! id = Some tx) :
  match tx_Save t id ctx key s v w with
  | (Ok _, w') =>
      version_at (rows_of t (tx_tables tx)) k = v /\
      reader_Load (txReader t id) ctx key w' = (Ok (s, wrapu64 (v + 1)), w') /\
      exists tx', w_txs w' !! id = Some tx' /\
        forall k', k' <> k ->
          rows_of t (tx_tables tx') !! k' = rows_of t (tx_tables tx) !! k'
  | (Err e, w') =>
      (e = ErrVersionConflict /\ version_at (rows_of t (tx_tables tx)) k <> v \/
       version_at (rows_of t (tx_tables tx)) k = v /\
         exists c rej, e = UniqueViolation (t_Name t) c rej) /\
      exists tx', w_txs w' !! id = Some tx' /\
        rows_of t (tx_tables tx') = rows_of t (tx_tables tx)
  | (Panic _, _) => False
  end.
Proof.
  unfold tx_Save, mbind, M_bind, lift. rewrite Hk. unfold get_tx. rewrite Hw.
  pose proof (saveAs_rows t tx k s v) as Hs. cbv zeta in Hs.
  destruct (saveAs t tx k s v) as [[e |] tx'] eqn:Es; destruct Hs as (_ & _ & _ & _ & Hs); cbn.
  - destruct Hs as (Hr & _ & He). split; [done |]. exists tx'. by rewrite lookup_insert_eq.
  - destruct Hs as (Hv & Hr & _). split; [done |]. split.
    + unfold mbind, M_bind, lift, get_tx. cbn. rewrite lookup_insert_eq.
      unfold table_load. rewrite Hk. cbn. unfold rows_of in Hr.
      destruct (tx_tables tx' !! t_Name t) as [rows |].
      * rewrite Hr, lookup_insert_eq. cbn. by rewrite unbox_box, copy_id.
      * exfalso. by apply (insert_non_empty (rows_of t (tx_tables tx)) k (mkRow (t_box t s) (wrapu64 (v + 1)))).
    + exists tx'. rewrite lookup_insert_eq. split; [done |]. intros k' Hne.
      by rewrite Hr, lookup_insert_ne.
Qed.

(** A run of saves on one working copy, whatever each answers. *)
Definition run_saves (tx : Tx Any Event) (saves : list (rowKey * S * Version)) : Tx Any Event :=
  foldl (fun tx '((k, s), v) => (saveAs t tx k s v).2) tx saves.

(** unique constraints are an invariant: no sequence of saves, whatever
    their rows, versions and outcomes, makes two rows of one tenant hold the
    same key of a declared constraint. *)
Theorem saves_keep_unique tx saves (H : unique_rows t (rows_of t (tx_tables tx))) :
  unique_rows t (rows_of t (tx_tables (run_saves tx saves))).
Proof.
  revert tx H. induction saves as [| [[k s] v] saves IH]; intros tx H; [done |]. cbn.
  apply IH. destruct (saveAs t tx k s v) as [err tx'] eqn:Es.
  exact (saveAs_unique t tx k s v err tx' H Es).
Qed.
End Rows.

Lemma Save_Load_witness :
  match tx_Save Fixture.orders 0%nat (Fixture.ctx "t1" "k") "o1" "book" 0 Fixture.opened with
  | (Ok _, w') =>
      version_at (rows_of Fixture.orders (tx_tables Fixture.empty_tx)) ("t1", "o1") = 0 /\
      reader_Load (txReader Fixture.orders 0%nat) (Fixture.ctx "t1" "k") "o1" w' =
        (Ok ("book", wrapu64 (0 + 1)), w') /\
      exists tx', w_txs w' !! 0%nat = Some tx' /\
        forall k', k' <> ("t1", "o1") ->
          rows_of Fixture.orders (tx_tables tx') !! k' =
          rows_of Fixture.orders (tx_tables Fixture.empty_tx) !! k'
  | (Err e, w') =>
      (e = ErrVersionConflict /\
         version_at (rows_of Fixture.orders (tx_tables Fixture.empty_tx)) ("t1", "o1") <> 0 \/
       version_at (rows_of Fixture.orders (tx_tables Fixture.empty_tx)) ("t1", "o1") = 0 /\
         exists c rej, e = UniqueViolation "orders" c rej) /\
      exists tx', w_txs w' !! 0%nat = Some tx' /\
        rows_of Fixture.orders (tx_tables tx') =
        rows_of Fixture.orders (tx_tables Fixture.empty_tx)
  | (Panic _, _) => False
  end.
Proof.
  exact (Save_Load Fixture.orders 0%nat (Fixture.ctx "t1" "k") "o1" ("t1", "o1") "book" 0
    Fixture.opened Fixture.empty_tx eq_refl eq_refl).
Defined.

Lemma saves_keep_unique_witness :
  unique_rows Fixture.orders (rows_of Fixture.orders (tx_tables
    (run_saves Fixture.orders Fixture.empty_tx
      [("t1", "o1", "book", 0); ("t1", "o2", "book", 0); ("t1", "o1", "pen", 1)]))).
Proof.
  apply (saves_keep_unique Fixture.orders). intros u keyOf tn id1 id2 want _ _ (rec & s & Hr & _) _.
  change (rows_of Fixture.orders (tx_tables Fixture.empty_tx) !! (tn, id1)) with (@None (row string)) in Hr.
  discriminate.
Defined.

(** The second save of the run above is refused, the third goes through. *)
Example saves_run :
  version_at (rows_of Fixture.orders (tx_tables
    (run_saves Fixture.orders Fixture.empty_tx
      [("t1", "o1", "book", 0); ("t1", "o2", "book", 0); ("t1", "o1", "pen", 1)]))) ("t1", "o2") = 0.
Proof. vm_compute. reflexivity. Qed.

(** * Isolation of tenants *)

(** loading never shows another tenant's rows. Two stores that hold the same
    row at the key of the caller's own tenant answer a load alike, whatever else
    they hold: the same snapshot, the same error, or two reports of absence that
    nothing the platform classifies errors by tells apart. *)
Theorem Load_isolated {Any Event X S} (t : Table Any S) ctx key (w1 w2 : World Any Event X)
    (H : forall k, scopedKey ctx key = Ok k ->
      rows_of t (st_tables (w_store w1)) !! k = rows_of t (st_tables (w_store w2)) !! k) :
  same_answer (reader_Load (storeReader t) ctx key w1).1 (reader_Load (storeReader t) ctx key w2).1.
Proof. cbn. by apply table_load_alike. Qed.

(** A store where only another tenant holds the order. *)
Definition foreign_order : Fixture.FW :=
  (Within (NewUnitOfWork id) (Fixture.ctx "t2" "k")
     (fun ctx res => tx_Save Fixture.orders res ctx "o1" "book" 0) Fixture.start).2.

Lemma Load_isolated_witness :
  same_answer (reader_Load (storeReader Fixture.orders) (Fixture.ctx "t1" "k") "o1" foreign_order).1
    (reader_Load (storeReader Fixture.orders) (Fixture.ctx "t1" "k") "o1" Fixture.start).1.
Proof.
  apply (Load_isolated Fixture.orders). intros k Hk. injection Hk as <-. vm_compute. reflexivity.
Defined.

(** The error does name the other tenant, for the audit, and is no different. *)
Example foreign_order_refused :
  (reader_Load (storeReader Fixture.orders) (Fixture.ctx "t1" "k") "o1" foreign_order).1 =
  Err (CrossTenantAccess "orders/o1" "t1" "t2").
Proof. vm_compute. reflexivity. Qed.

(** * The inbox *)
Section Inbox.
Context {Any Event X : Type}.
Notation W := (World Any Event X).

(** The reception a completed row answers a receipt with. *)
Definition repeated (first : Receipt) (c : Completion) (again : Receipt) : Reception W :=
  if negb (String.eqb (rcp_PayloadHash first) (rcp_PayloadHash again)) then CollisionReception
  else if bool_decide (cmp_Status c = StatusProcessed) then ProcessedReception (cmp_Outcome c)
  else RejectedReception (cmp_Outcome c).

(** a message is received once. After its first reception was completed,
    and until the row expires, registering the same message again is never a
    first reception: the same payload answers with the stored outcome, as
    processed or as rejected, and another payload is a collision. *)
Theorem Register_after_Complete id consumer commands ctx r again c key p (w w1 w2 w3 : W) tx
    (Hw : w_txs w !! id = Some tx) (Hkey : register_key consumer commands ctx r = Ok key)
    (Hr : tx_Register id consumer commands ctx r w = (Ok (FirstReception p), w1))
    (Hc : Complete p ctx c w1 = (Ok (), w2)) (Hw3 : w_txs w3 !! id = w_txs w2 !! id)
    (Hagain : register_key consumer commands ctx again = Ok key)
    (Hlive : rcp_ExpiresAt r = 0 \/ rcp_ReceivedAt again < rcp_ExpiresAt r) :
  tx_Register id consumer commands ctx again w3 = (Ok (repeated r c again), w3).
Proof.
  destruct (register_complete id consumer commands ctx r c w w1 w2 p tx key Hw Hkey Hr Hc)
    as (Hst & _ & Htx).
  rewrite (tx_Register_spec _ _ _ _ _ _ _ (eq_trans Hw3 Htx)), Hagain.
  unfold reception_of. cbn [tx_inbox set_inbox_row]. rewrite lookup_insert_eq.
  assert (expired (mkInboxRow (rcp_PayloadHash r) (cmp_Status c) (cmp_LastError c) (cmp_Outcome c)
    (rcp_ExpiresAt r)) (rcp_ReceivedAt again) = false) as ->.
  { unfold expired. cbn. destruct (Z.eqb_spec (rcp_ExpiresAt r) 0); [done |]. cbn.
    apply Z.leb_gt. lia. }
  cbn [ir_hash ir_status ir_outcome]. unfold repeated.
  destruct (negb _); [done |]. by destruct Hst as [-> | ->].
Qed.
End Inbox.

(** A receipt of the fixture, and the world after its completion. *)
Definition fixture_receipt (hash : string) : Receipt := mkReceipt "orders" "k1" "place" hash 10 10 20.
Definition fixture_first : result error (Reception Fixture.FW) * Fixture.FW :=
  tx_Register 0%nat "orders" true (Fixture.ctx "t1" "k1") (fixture_receipt "h") Fixture.opened.
Definition fixture_pending : Pending Fixture.FW :=
  memoryPending 0%nat 0%nat ("orders", "t1/k1") "h" 20.
Definition fixture_completion : Completion := mkCompletion StatusRejected 10 "" [1; 2].
Definition fixture_completed : result error unit * Fixture.FW :=
  Complete fixture_pending (Fixture.ctx "t1" "k1") fixture_completion fixture_first.2.

Lemma Register_after_Complete_witness :
  tx_Register 0%nat "orders" true (Fixture.ctx "t1" "k1") (fixture_receipt "h") fixture_completed.2 =
  (Ok (repeated (fixture_receipt "h") fixture_completion (fixture_receipt "h")), fixture_completed.2).
Proof.
  apply (Register_after_Complete 0%nat "orders" true (Fixture.ctx "t1" "k1") (fixture_receipt "h")
    (fixture_receipt "h") fixture_completion ("orders", "t1/k1") fixture_pending Fixture.opened
    fixture_first.2 fixture_completed.2 fixture_completed.2 Fixture.empty_tx);
    try reflexivity. right. reflexivity.
Defined.

(** A separator that the right sides do not hold splits a string one way. *)
Lemma split_last_slash (a1 a2 b1 b2 : list ascii) :
  slash ∉ b1 -> slash ∉ b2 -> a1 ++ slash :: b1 = a2 ++ slash :: b2 -> a1 = a2 /\ b1 = b2.
Proof.
  revert a2. induction a1 as [| x a1 IH]; intros [| y a2] H1 H2; cbn.
  - intros [= ->]. done.
  - intros [= <- ->]. set_solver.
  - intros [= -> <-]. set_solver.
  - intros [= -> H]. destruct (IH a2 H1 H2 H) as [-> ->]. done.
Qed.

Lemma valid_key_no_slash key :
  ValidIdempotencyKey key = true -> slash ∉ String.list_ascii_of_string key.
Proof.
  intros [_ H]%ValidIdempotencyKey_spec Hin. rewrite Forall_forall in H.
  by apply (key_char_slash slash (H slash Hin)).
Qed.

(** idempotency keys of two tenants never meet. The identifier under which
    the command inbox files a key determines both the tenant and the key,
    whatever characters the tenant's name has, because a valid key holds no
    separator. *)
Theorem command_id_injective t1 t2 k1 k2
    (H1 : ValidIdempotencyKey k1 = true) (H2 : ValidIdempotencyKey k2 = true)
    (H : command_id t1 k1 = command_id t2 k2) :
  t1 = t2 /\ k1 = k2.
Proof.
  apply (f_equal String.list_ascii_of_string) in H. unfold command_id in H.
  assert (forall a b, String.list_ascii_of_string (a ++ "/" ++ b) =
    String.list_ascii_of_string a ++ slash :: String.list_ascii_of_string b) as Happ.
  { intros a b. induction a as [| c a IH]; [done |].
    transitivity (c :: String.list_ascii_of_string (a ++ "/" ++ b)); [done | by rewrite IH]. }
  rewrite !Happ in H. apply split_last_slash in H as [Ht Hk]; [| by apply valid_key_no_slash ..].
  apply (f_equal String.string_of_list_ascii) in Ht, Hk.
  by rewrite !String.string_of_list_ascii_of_string in Ht, Hk.
Qed.

Lemma command_id_injective_witness : "a/b" = "a/b" /\ "k-1" = "k-1".
Proof. exact (command_id_injective "a/b" "a/b" "k-1" "k-1" eq_refl eq_refl eq_refl). Defined.
