(* ===== verification/LedgerTheorems.v ===== *)
(** What the attempt ledger promises over any run of its calls: bounded rows
    whose verdicts are never taken back, one attempt in flight per key, no new
    attempt of a message that ended, and complete pages of stale attempts. *)

From stdpp Require Import sorting.
From S2P Require Import Prelude DomainKernel Errors Ports Interfaces Memory Ledger Fixture.

Section Runs.
Context {Any Event X : Type}.
Notation W := (World Any Event X).

Definition ledger_run (id : loc) (ops : list ledger_op) (w : W) : W :=
  foldl (fun w op => ledger_exec id op w) w ops.

Lemma ledger_run_ok id ops (w : W) tx :
  w_txs w !! id = Some tx -> ledger_ok (tx_attempts tx) ->
  exists tx', w_txs (ledger_run id ops w) !! id = Some tx' /\ ledger_ok (tx_attempts tx') /\
    attempts_evolve (tx_attempts tx) (tx_attempts tx') /\
    tx_tables tx' = tx_tables tx /\ tx_inbox tx' = tx_inbox tx /\ tx_outbox tx' = tx_outbox tx.
Proof.
  revert w tx. induction ops as [| op ops IH]; intros w tx Hw Hok; [by exists tx |].
  destruct (ledger_exec_ok id op w tx Hw Hok) as (tx1 & Hw1 & Hok1 & He1 & ? & ? & ?).
  destruct (IH _ tx1 Hw1 Hok1) as (tx2 & Hw2 & Hok2 & He2 & ? & ? & ?).
  exists tx2. split; [exact Hw2 |]. split; [exact Hok2 |].
  split; [by transitivity (tx_attempts tx1) | repeat split; congruence].
Qed.

Lemma ledger_run_committed id ops (w : W) : committed (ledger_run id ops w) = committed w.
Proof.
  revert w. induction ops as [| op ops IH]; intros w; [done |]. cbn.
  unfold ledger_run in IH. by rewrite IH, Confined_ledger.
Qed.

(** C17: whatever calls reach the ledger of an open transaction, in whatever
    order and with whatever arguments, refused ones included, every key keeps
    at most one unfinished attempt, its last; every finished attempt has a
    class the code names; identifiers and conflicts stay within
    [MaxAttemptEntries]; no recorded class, instant, conclusive finding,
    identifier or conflict is ever taken back; and the run touches neither the
    other parts of the working copy nor anything committed. *)
Theorem ledger_invariant id ops (w : W) tx
    (Hw : w_txs w !! id = Some tx) (Hok : ledger_ok (tx_attempts tx)) :
  committed (ledger_run id ops w) = committed w /\
  exists tx', w_txs (ledger_run id ops w) !! id = Some tx' /\ ledger_ok (tx_attempts tx') /\
    attempts_evolve (tx_attempts tx) (tx_attempts tx') /\
    tx_tables tx' = tx_tables tx /\ tx_inbox tx' = tx_inbox tx /\ tx_outbox tx' = tx_outbox tx.
Proof. split; [apply ledger_run_committed | by apply ledger_run_ok]. Qed.

(** What [Begin] answers on an open transaction. *)
Lemma tx_Begin_rows id ctx key message now scope (w : W) tx :
  w_txs w !! id = Some tx -> ledger_scope ctx key = Ok scope ->
  key <> ""%string -> message <> ""%string ->
  (ledger_Begin (txAttemptLedger id) ctx key message now w).1 =
  Ok (begin_rows scope (rows_at tx scope) message now).1.
Proof.
  intros Hw Hs Hk Hm. cbn. unfold tx_Begin.
  destruct (String.eqb_spec key ""); [done |]. destruct (String.eqb_spec message ""); [done |].
  unfold mbind, M_bind, lift, get_tx. rewrite Hs, Hw.
  destruct (begin_rows _ _ _ _) as [[] rows]; done.
Qed.

(** at most one attempt of a key is in flight. [Begin] starts an attempt
    only when every attempt of the key is finished and those of this message
    ended in a class a resend follows; while one is unfinished it answers with
    that one. *)
Theorem Begin_single_flight id ctx key message now scope (w : W) tx
    (Hw : w_txs w !! id = Some tx) (Hok : ledger_ok (tx_attempts tx))
    (Hs : ledger_scope ctx key = Ok scope)
    (Hk : key <> ""%string) (Hm : message <> ""%string) :
  exists start, (ledger_Begin (txAttemptLedger id) ctx key message now w).1 = Ok start /\
  match start with
  | StartedAttempt a =>
      att_N a = len (rows_at tx scope) + 1 /\
      Forall (fun r => ar_finished r = true) (rows_at tx scope) /\
      Forall (fun r => ar_messageID r = message -> Retryable (ar_class r) = true)
        (rows_at tx scope)
  | PendingAttempt a =>
      exists r, last (rows_at tx scope) = Some r /\ ar_finished r = false /\
        a = attemptOf scope (len (rows_at tx scope)) r
  | DoneAttempt a class =>
      Retryable class = false /\ att_MessageID a = message /\
      exists r, rows_at tx scope !! Z.to_nat (att_N a - 1) = Some r /\
        ar_finished r = true /\ ar_messageID r = message /\ class = ar_class r
  | AttemptStartZero => False
  end.
Proof.
  rewrite (tx_Begin_rows id ctx key message now scope w tx) by done.
  destruct (begin_rows scope (rows_at tx scope) message now) as [start rows] eqn:Eb. cbn.
  exists start. split; [done |].
  pose proof (begin_rows_spec _ _ _ _ _ _ (ledger_ok_at tx scope Hok) Eb) as H.
  destruct start as [| a | a | a class]; [done | | |].
  - destruct H as (-> & _ & Hf & Hr). done.
  - by destruct H as [_ H].
  - destruct H as (_ & Hc & _ & i & r & Hi & Hf & Hmm & -> & ->).
    repeat split; [done | done |]. exists r. cbn.
    by replace (Z.to_nat (Z.of_nat i + 1 - 1)) with i by lia.
Qed.

(** a message that ended is never attempted again. Once an attempt of a
    message finished in a class no resend follows, [Begin] for that message
    answers that it is done, with such a class, after every run of calls. *)
Theorem ended_message_stays_ended id ops ctx key message now scope i r (w : W) tx
    (Hw : w_txs w !! id = Some tx) (Hok : ledger_ok (tx_attempts tx))
    (Hs : ledger_scope ctx key = Ok scope)
    (Hk : key <> ""%string) (Hm : message <> ""%string)
    (Hi : rows_at tx scope !! i = Some r) (Hf : ar_finished r = true)
    (Hr : ar_messageID r = message) (Hc : Retryable (ar_class r) = false) :
  exists a class,
    (ledger_Begin (txAttemptLedger id) ctx key message now (ledger_run id ops w)).1 =
      Ok (DoneAttempt a class) /\ Retryable class = false.
Proof.
  destruct (ledger_run_ok id ops w tx Hw Hok) as (tx' & Hw' & Hok' & He & _).
  destruct (He scope i r Hi) as (r' & Hi' & [Hmsg _ Hfin _ _ _]).
  destruct (Hfin Hf) as (Hf' & Hc' & _).
  rewrite (tx_Begin_rows id ctx key message now scope _ tx') by done.
  unfold begin_rows. change (default [] (tx_attempts tx' !! scope)) with (rows_at tx' scope) in Hi'.
  destruct (find_done scope message (reverse (rows_at tx' scope)) (len (rows_at tx' scope)))
    as [start |] eqn:Ed.
  - apply find_done_spec in Ed as (j & r2 & _ & _ & _ & Hr2 & ->). cbn. eauto.
  - exfalso. assert (Retryable (ar_class r') = true) as Ht; [| congruence].
    eapply find_done_none; [done | | done | congruence].
    apply elem_of_reverse, list_elem_of_lookup. eauto.
Qed.
End Runs.

(** A ledger with one attempt of [m1], refused by the partner. *)
Definition fixture_ops : list ledger_op :=
  [OpBegin (Fixture.ctx "t1" "k") "key" "m1" 5;
   OpFinish (Fixture.ctx "t1" "k")
     (mkAttemptOutcome "key" 1 ClassFinalBusiness zeroObservation 6 false)].
Definition fixture_ledger : Fixture.FW := ledger_run 0%nat fixture_ops Fixture.opened.
Definition fixture_row : attemptRow :=
  mkAttemptRow "m1" 5 true 6 ClassFinalBusiness zeroObservation FindingNone 0 [] 0 [].
Definition fixture_tx : Tx string string :=
  mkTx ∅ ∅ [] (<[("t1", "key") := [fixture_row]]> ∅) 0.

Lemma fixture_tx_ok : ledger_ok (tx_attempts fixture_tx).
Proof.
  intros scope rows. cbn. rewrite lookup_insert. case_decide; [| by rewrite lookup_empty].
  intros [= <-]. split.
  - repeat constructor; vm_compute; try discriminate; reflexivity.
  - intros [| i] r; cbn; [intros _; lia | done].
Qed.

Lemma ledger_invariant_witness :
  committed (ledger_run 0%nat fixture_ops Fixture.opened) = committed Fixture.opened /\
  exists tx', w_txs (ledger_run 0%nat fixture_ops Fixture.opened) !! 0%nat = Some tx' /\
    ledger_ok (tx_attempts tx') /\
    attempts_evolve (tx_attempts Fixture.empty_tx) (tx_attempts tx') /\
    tx_tables tx' = tx_tables Fixture.empty_tx /\ tx_inbox tx' = tx_inbox Fixture.empty_tx /\
    tx_outbox tx' = tx_outbox Fixture.empty_tx.
Proof.
  apply (ledger_invariant 0%nat fixture_ops Fixture.opened Fixture.empty_tx); [reflexivity |].
  intros scope rows Hr. change (@None (list attemptRow) = Some rows) in Hr. discriminate.
Defined.

Lemma Begin_single_flight_witness :
  exists start, (ledger_Begin (txAttemptLedger 0%nat) (Fixture.ctx "t1" "k") "key" "m2" 9
                   fixture_ledger).1 = Ok start /\
  match start with
  | StartedAttempt a =>
      att_N a = len (rows_at fixture_tx ("t1", "key")) + 1 /\
      Forall (fun r => ar_finished r = true) (rows_at fixture_tx ("t1", "key")) /\
      Forall (fun r => ar_messageID r = "m2" -> Retryable (ar_class r) = true)
        (rows_at fixture_tx ("t1", "key"))
  | PendingAttempt a =>
      exists r, last (rows_at fixture_tx ("t1", "key")) = Some r /\ ar_finished r = false /\
        a = attemptOf ("t1", "key") (len (rows_at fixture_tx ("t1", "key"))) r
  | DoneAttempt a class =>
      Retryable class = false /\ att_MessageID a = "m2" /\
      exists r, rows_at fixture_tx ("t1", "key") !! Z.to_nat (att_N a - 1) = Some r /\
        ar_finished r = true /\ ar_messageID r = "m2" /\ class = ar_class r
  | AttemptStartZero => False
  end.
Proof.
  apply (Begin_single_flight 0%nat (Fixture.ctx "t1" "k") "key" "m2" 9 ("t1", "key") fixture_ledger
    fixture_tx); [reflexivity | exact fixture_tx_ok | reflexivity | discriminate | discriminate].
Defined.

Lemma ended_message_stays_ended_witness :
  exists a class,
    (ledger_Begin (txAttemptLedger 0%nat) (Fixture.ctx "t1" "k") "key" "m1" 9
       (ledger_run 0%nat fixture_ops fixture_ledger)).1 = Ok (DoneAttempt a class) /\
    Retryable class = false.
Proof.
  apply (ended_message_stays_ended 0%nat fixture_ops (Fixture.ctx "t1" "k") "key" "m1" 9
    ("t1", "key") 0%nat fixture_row fixture_ledger fixture_tx);
    [reflexivity | exact fixture_tx_ok | reflexivity | discriminate | discriminate
    | reflexivity | reflexivity | reflexivity | reflexivity].
Defined.

(** * Pages *)
Lemma is_stale_nonzero attempts cutoff after a : is_stale attempts cutoff after a -> Cursor a <> zeroCursor.
Proof.
  intros (scope & rows & i & r & _ & _ & _ & _ & -> & _). unfold Cursor, zeroCursor, attemptOf. cbn.
  intros [= _ _ _ H]. lia.
Qed.

Lemma compareCursor_gt_trans a b c :
  compareCursor a b = Gt -> compareCursor b c = Gt -> compareCursor a c = Gt.
Proof.
  rewrite (compareCursor_opp b a), (compareCursor_opp c b), (compareCursor_opp c a).
  intros H1 H2. destruct (compareCursor b a) eqn:E1; try done. destruct (compareCursor c b) eqn:E2; try done.
  by rewrite (compareCursor_trans _ _ _ E2 E1).
Qed.

(** Behind the cursor of a listed attempt are the listed attempts after it. *)
Lemma stale_after attempts cutoff after a b :
  is_stale attempts cutoff after a ->
  is_stale attempts cutoff (Cursor a) b <-> is_stale attempts cutoff after b /\ attempt_lt a b.
Proof.
  intros Ha. pose proof (is_stale_nonzero _ _ _ _ Ha) as Hnz.
  destruct Ha as (_ & _ & _ & _ & _ & _ & _ & _ & _ & Ha). unfold attempt_lt.
  assert (compareCursor (Cursor b) (Cursor a) = Gt <-> compareCursor (Cursor a) (Cursor b) = Lt) as Hflip.
  { rewrite (compareCursor_opp (Cursor b) (Cursor a)). by destruct (compareCursor (Cursor b) (Cursor a)). }
  split.
  - intros (scope & rows & i & r & H1 & H2 & H3 & H4 & H5 & [? | Hb]); [done |].
    split; [| by apply Hflip]. exists scope, rows, i, r. repeat split; try done.
    destruct Ha as [-> | Ha]; [by left | right]. by apply (compareCursor_gt_trans _ (Cursor a)).
  - intros [(scope & rows & i & r & H1 & H2 & H3 & H4 & H5 & _) Hb].
    exists scope, rows, i, r. repeat split; try done. right. by apply Hflip.
Qed.

Lemma attempt_lt_irrefl a b : attempt_lt a b -> attempt_lt b a -> False.
Proof. unfold attempt_lt. rewrite (compareCursor_opp (Cursor a) (Cursor b)). by intros ->. Qed.

Lemma StronglySorted_app_lt (l k : list Attempt) a b :
  StronglySorted attempt_lt (l ++ k) -> a ∈ l -> b ∈ k -> attempt_lt a b.
Proof.
  induction l as [| x l IH]; [by intros _ ?%not_elem_of_nil |].
  cbn. intros [Hx Hs]%StronglySorted_cons [-> | Ha]%elem_of_cons Hb; [| by apply IH].
  rewrite Forall_forall in Hx. apply Hx. set_solver.
Qed.

Lemma StronglySorted_split (l k : list Attempt) :
  StronglySorted attempt_lt (l ++ k) -> StronglySorted attempt_lt l /\ StronglySorted attempt_lt k.
Proof.
  induction l as [| x l IH]; cbn; [intros H; split; [constructor | done] |].
  intros [Hx Hs]%StronglySorted_cons. destruct (IH Hs) as [H1 H2]. split; [| done].
  constructor; [done |]. by apply Forall_app in Hx as [? _].
Qed.

(** The next page starts where the last one ended. *)
Lemma stale_attempts_next attempts cutoff after n a :
  last (take n (stale_attempts attempts cutoff after)) = Some a ->
  stale_attempts attempts cutoff (Cursor a) = drop n (stale_attempts attempts cutoff after).
Proof.
  set (all := stale_attempts attempts cutoff after). intros Ha.
  pose proof (stale_attempts_sorted attempts cutoff after) as Hs. fold all in Hs.
  pose proof Hs as Hsplit. rewrite <- (take_drop n all) in Hsplit.
  pose proof (StronglySorted_split _ _ Hsplit) as [Hs1 Hs2].
  apply last_Some in Ha as [l Hl].
  assert (a ∈ take n all) as Hin by (rewrite Hl; set_solver).
  assert (is_stale attempts cutoff after a) as Hst.
  { apply stale_attempts_elem. fold all. rewrite <- (take_drop n all). set_solver. }
  apply (StronglySorted_unique_strong attempt_lt).
  - intros x y _ _ H1 H2. by destruct (attempt_lt_irrefl x y).
  - apply stale_attempts_sorted.
  - done.
  - apply NoDup_Permutation; [apply stale_attempts_NoDup | |].
    { pose proof (stale_attempts_NoDup attempts cutoff after) as Hnd. fold all in Hnd.
      rewrite <- (take_drop n all) in Hnd. by apply NoDup_app in Hnd as (_ & _ & ?). }
    intros b. rewrite stale_attempts_elem, (stale_after _ _ _ a b Hst), <- stale_attempts_elem. fold all.
    split.
    + intros [Hb Hlt]. rewrite <- (take_drop n all), elem_of_app in Hb. destruct Hb as [Hb |]; [| done].
      exfalso. rewrite Hl in Hb, Hs1. apply elem_of_app in Hb as [Hb | ->%list_elem_of_singleton].
      * apply (attempt_lt_irrefl a b); [done |]. eapply StronglySorted_app_lt; [done | done | set_solver].
      * by apply (attempt_lt_irrefl a a).
    + intros Hb. split; [| by eapply StronglySorted_app_lt].
      rewrite <- (take_drop n all). set_solver.
Qed.

Section Pages.
Context {Any Event X : Type}.
Notation W := (World Any Event X).

Lemma tx_Stale_page id ctx cutoff after limit (w : W) tx :
  w_txs w !! id = Some tx -> 1 <= limit ->
  ledger_Stale (txAttemptLedger id) ctx cutoff after limit w =
  (Ok (take (Z.to_nat limit) (stale_attempts (tx_attempts tx) cutoff after)), w).
Proof.
  intros Hw Hl. cbn. unfold tx_Stale. destruct (Z.ltb_spec limit 1); [lia |].
  unfold mbind, M_bind, get_tx. rewrite Hw. unfold mret, M_ret. f_equal. f_equal.
  set (all := stale_attempts _ _ _). destruct (Z.le_ge_cases limit (len all)).
  - by rewrite Z.min_l.
  - rewrite Z.min_r by done. unfold len in *. rewrite !take_ge by lia. done.
Qed.

(** the pages of stale attempts list every one of them once. A page holds
    begun attempts no newer than the cutoff, in strict order and within the
    limit; a page short of its limit is the last; and asking again from the
    cursor of the page's last attempt continues exactly where it ended. *)
Theorem Stale_pages id ctx cutoff after n m (w : W) tx
    (Hw : w_txs w !! id = Some tx) (Hn : 1 <= n) (Hm : 1 <= m) :
  exists page, ledger_Stale (txAttemptLedger id) ctx cutoff after n w = (Ok page, w) /\
    len page <= n /\ StronglySorted attempt_lt page /\
    (forall a, a ∈ page -> is_stale (tx_attempts tx) cutoff after a) /\
    (len page < n -> forall a, is_stale (tx_attempts tx) cutoff after a -> a ∈ page) /\
    (forall a, last page = Some a ->
      exists next, ledger_Stale (txAttemptLedger id) ctx cutoff (Cursor a) m w = (Ok next, w) /\
        ledger_Stale (txAttemptLedger id) ctx cutoff after (n + m) w = (Ok (page ++ next), w)).
Proof.
  rewrite (tx_Stale_page id ctx cutoff after n w tx Hw Hn).
  eexists. split; [done |]. set (all := stale_attempts (tx_attempts tx) cutoff after).
  pose proof (stale_attempts_sorted (tx_attempts tx) cutoff after) as Hs. fold all in Hs.
  rewrite <- (take_drop (Z.to_nat n) all) in Hs. apply StronglySorted_split in Hs as [Hs _].
  repeat split; [| done | | |].
  - unfold len. rewrite length_take. lia.
  - intros a Ha. apply stale_attempts_elem. fold all.
    rewrite <- (take_drop (Z.to_nat n) all). set_solver.
  - intros Hlt a Ha%stale_attempts_elem. fold all in Ha.
    unfold len in Hlt. rewrite length_take in Hlt. by rewrite take_ge by lia.
  - intros a Ha. exists (take (Z.to_nat m) (drop (Z.to_nat n) all)).
    rewrite (tx_Stale_page id ctx cutoff (Cursor a) m w tx Hw Hm).
    rewrite (stale_attempts_next _ _ _ _ _ Ha). fold all. split; [done |].
    rewrite (tx_Stale_page id ctx cutoff after (n + m) w tx Hw) by lia. fold all.
    rewrite Z2Nat.inj_add by lia. by rewrite take_take_drop.
Qed.
End Pages.

Lemma Stale_pages_witness :
  let w := ledger_run 0%nat
    [OpBegin (Fixture.ctx "t1" "k") "key" "m1" 5; OpBegin (Fixture.ctx "t1" "k") "other" "m2" 4]
    Fixture.opened in
  let attempts := <[("t1", "other") := [fresh_row "m2" 4]]> (<[("t1", "key") := [fresh_row "m1" 5]]> ∅) in
  exists page, ledger_Stale (txAttemptLedger 0%nat) Background 10 zeroCursor 1 w = (Ok page, w) /\
    len page <= 1 /\ StronglySorted attempt_lt page /\
    (forall a, a ∈ page -> is_stale attempts 10 zeroCursor a) /\
    (len page < 1 -> forall a, is_stale attempts 10 zeroCursor a -> a ∈ page) /\
    (forall a, last page = Some a ->
      exists next, ledger_Stale (txAttemptLedger 0%nat) Background 10 (Cursor a) 1 w = (Ok next, w) /\
        ledger_Stale (txAttemptLedger 0%nat) Background 10 zeroCursor (1 + 1) w = (Ok (page ++ next), w)).
Proof.
  intros w attempts.
  apply (Stale_pages 0%nat Background 10 zeroCursor 1 1 w (mkTx ∅ ∅ [] attempts 0));
    [reflexivity | lia | lia].
Defined.
