(* ===== verification/UseCaseTheorems.v ===== *)
(** What the application skeletons promise: authorization, commands that run
    once and replay afterwards, decisions whose events travel with the row they
    changed, and what an execution leaves behind however it ends. *)

From S2P Require Import Prelude Regex DomainKernel Errors Ports Interfaces Codec OutboundKey Memory Application AppMemory Fixture.

(** * Authorization *)

(** [Permitted] grants exactly the calls it should. It needs an execution
    context, a resolved tenant and a declared permission, which an authenticated
    subject must hold; every refusal is a denial or the absence of a context. *)
Theorem Permitted_exactly {C} (required : C -> Permission) ctx cmd :
  (Permitted required ctx cmd = Ok () <->
    exists execution t, ExecutionContextFrom ctx = Some execution /\ Tenant execution = Some t /\
      required cmd <> ""%string /\
      (forall s, Subject execution = Some s -> required cmd ∈ permissions execution)) /\
  (forall e, Permitted required ctx cmd = Err e -> e = ErrContextAbsent \/ errors_is e ErrDenied = true).
Proof. split; [apply Permitted_ok | intros e; apply Permitted_denied]. Qed.

(** what reaches every tenant is never granted by a tenant's permission
    alone: without the reach declared in the carrier [PlatformPermitted] refuses
    with a denial, whatever the subject holds. *)
Theorem PlatformPermitted_needs_reach {C} (required : C -> Permission) ctx cmd :
  PlatformReachFrom ctx <> Some ReachAllTenants ->
  exists e, PlatformPermitted required ctx cmd = Err e /\
    errors_is e ErrDenied = true /\ errors_is e ErrPlatformReachUndeclared = true /\
    CategoryOf e = category_string Forbidden.
Proof.
  intros H. unfold PlatformPermitted.
  destruct (PlatformReachFrom ctx) as [[] |]; try done;
    (eexists; split; [reflexivity | vm_compute; done]).
Qed.

Lemma PlatformPermitted_needs_reach_witness :
  exists e, PlatformPermitted (fun _ : unit => "orders.place"%string) (Fixture.ctx "t1" "k") () = Err e /\
    errors_is e ErrDenied = true /\ errors_is e ErrPlatformReachUndeclared = true /\
    CategoryOf e = category_string Forbidden.
Proof. apply (PlatformPermitted_needs_reach (fun _ : unit => "orders.place"%string)). discriminate. Defined.

(** * Idempotent commands *)
Section Idempotent.
Context {Any Event X R : Type} (codec : OutcomeCodec R) (ok : R -> Prop) {laws : CodecLaws codec ok}.
Notation W := (World Any Event X).

(** C4: a command runs once. After a first run answered, repeating it under
    the same key before the retention ends answers with the same outcome as a
    replay, without running anything: whatever the repeated command would
    have done, and whatever happened to the world meanwhile, the only trace
    left is the mark in the carrier. *)
Theorem command_runs_once id consumer operation fp policy digest ctx execution k now later
    (first again : M W error (Outcome R)) (w w1 w2 : W) tx tx2 o
    (Hd : pol_Hash policy = Some digest) (He : ExecutionContextFrom ctx = Some execution)
    (Ha : admissible consumer policy ctx now) (Ha2 : admissible consumer policy ctx later)
    (Hk : command_key consumer ctx = Some k) (Hw : w_txs w !! id = Some tx)
    (Hr : RunIdempotent ctx (command_at codec id consumer operation fp policy now first) w =
            (Ok (o, false), w1))
    (Ho : storable ok o) (Hw2 : w_txs w2 !! id = Some tx2)
    (Hkept : forall tx1, w_txs w1 !! id = Some tx1 -> tx_inbox tx2 !! k = tx_inbox tx1 !! k)
    (Hlive : later < now +! pol_Retention policy) :
  RunIdempotent ctx (command_at codec id consumer operation fp policy later again) w2 =
    (Ok (o, true), set_slots (MarkIdempotency ctx IdempotencyReplayed (get_slots w2)) w2).
Proof.
  destruct (RunIdempotent_records codec id consumer operation fp policy digest Hd ctx now first
    execution k w w1 tx o He Ha Hk Hw Hr) as (tx1 & Hw1 & Hrow).
  apply (RunIdempotent_replays codec id consumer operation fp policy digest Hd ctx later
    again k w2 tx2 (recorded_row codec operation fp policy digest now o) o); try done.
  - by rewrite (Hkept tx1 Hw1).
  - unfold expired, recorded_row. cbn [ir_expiresAt].
    destruct (Z.leb_spec (now +! pol_Retention policy) later); [lia | by rewrite andb_false_r].
  - exact (DecodeOutcome_EncodeOutcome codec ok o Ho).
Qed.

(** a key cannot be reused for another command. While the row of a key is
    kept, a command of another fingerprint under that key is refused as a
    mismatch, which classifies as a validation failure, and nothing runs. *)
Theorem reused_key_refused id consumer operation fp policy digest ctx k now
    (run : M W error (Outcome R)) (w : W) tx row
    (Hd : pol_Hash policy = Some digest) (Ha : admissible consumer policy ctx now)
    (Hk : command_key consumer ctx = Some k) (Hw : w_txs w !! id = Some tx)
    (Hrow : tx_inbox tx !! k = Some row)
    (Hh : ir_hash row <> hex (digest (under fp operation)))
    (Hlive : expired row now = false) :
  RunIdempotent ctx (command_at codec id consumer operation fp policy now run) w =
    (Err ErrIdempotencyMismatch,
     set_slots (MarkIdempotency ctx IdempotencyMismatch (get_slots w)) w) /\
  CategoryOf ErrIdempotencyMismatch = category_string Validation.
Proof.
  split; [| reflexivity].
  by apply (RunIdempotent_mismatch codec id consumer operation fp policy digest Hd ctx now run k w tx row).
Qed.
End Idempotent.

(** The fixture's command on an open transaction, and the world it leaves. *)
Definition fixture_ctx : Ctx := Fixture.ctx "t1" "k1".
Definition fixture_command (now : Instant) (run : M Fixture.FW error (Outcome string)) :=
  command_at string_codec 0%nat "orders" "orders.place" Fixture.fingerprint Fixture.policy now run.
Definition fixture_ran : result error (Outcome string * bool) * Fixture.FW :=
  RunIdempotent fixture_ctx (fixture_command 1000 (mret (OutAccepted "done"))) Fixture.opened.
Definition fixture_row : inboxRow :=
  mkInboxRow "730c6f72646572732e706c6163657304626f6f6b000000000000000000000000" StatusProcessed ""
    [1; 97; 4; 100; 111; 110; 101] 2000.
Definition fixture_tx : Tx string string :=
  mkTx ∅ (<[("orders", "t1/k1") := fixture_row]> ∅) [] ∅ 0.

Lemma fixture_admissible now : 0 <= now <= 100000 -> admissible "orders" Fixture.policy fixture_ctx now.
Proof.
  intros H. split; [reflexivity |]. split; [discriminate |].
  cbn [pol_Retention Fixture.policy]. rewrite wrap64_id by solve_int64. lia.
Qed.

Lemma command_runs_once_witness :
  RunIdempotent fixture_ctx (fixture_command 1500 (panic "must not run")) fixture_ran.2 =
  (Ok (OutAccepted "done", true),
   set_slots (MarkIdempotency fixture_ctx IdempotencyReplayed (get_slots fixture_ran.2)) fixture_ran.2).
Proof.
  apply (command_runs_once string_codec string_fits 0%nat "orders" "orders.place" Fixture.fingerprint
    Fixture.policy Fixture.digest fixture_ctx (Fixture.execution "t1") ("orders", "t1/k1") 1000 1500
    (mret (OutAccepted "done")) (panic "must not run") Fixture.opened fixture_ran.2 fixture_ran.2
    Fixture.empty_tx fixture_tx (OutAccepted "done")).
  - reflexivity.
  - reflexivity.
  - apply fixture_admissible. lia.
  - apply fixture_admissible. lia.
  - reflexivity.
  - reflexivity.
  - vm_compute. reflexivity.
  - vm_compute. discriminate.
  - vm_compute. reflexivity.
  - intros tx1 H. assert (Some fixture_tx = Some tx1) as [= <-]; [| reflexivity].
    rewrite <- H. vm_compute. reflexivity.
  - vm_compute. reflexivity.
Defined.

Lemma reused_key_refused_witness :
  RunIdempotent fixture_ctx
    (command_at string_codec 0%nat "orders" "orders.cancel" Fixture.fingerprint Fixture.policy 1500
       (panic "must not run")) fixture_ran.2 =
  (Err ErrIdempotencyMismatch,
   set_slots (MarkIdempotency fixture_ctx IdempotencyMismatch (get_slots fixture_ran.2)) fixture_ran.2) /\
  CategoryOf ErrIdempotencyMismatch = category_string Validation.
Proof.
  apply (reused_key_refused string_codec 0%nat "orders" "orders.cancel" Fixture.fingerprint
    Fixture.policy Fixture.digest fixture_ctx ("orders", "t1/k1") 1500 (panic "must not run")
    fixture_ran.2 fixture_tx fixture_row).
  - reflexivity.
  - apply fixture_admissible. lia.
  - reflexivity.
  - vm_compute. reflexivity.
  - vm_compute. reflexivity.
  - vm_compute. discriminate.
  - reflexivity.
Defined.

(** * Decisions *)
Section Decisions.
Context {Any Event X S A R : Type} (t : Table Any S) {laws : TableLaws t}.
Notation W := (World Any Event X).

(** The rows and the outbox of a working copy did not move. *)
Definition untouched (tx : Tx Any Event) (id : loc) (w' : W) : Prop :=
  exists tx', w_txs w' !! id = Some tx' /\
    rows_of t (tx_tables tx') = rows_of t (tx_tables tx) /\ tx_outbox tx' = tx_outbox tx.

(** C9: the row and its events travel together. An accepted decision saves the
    snapshot at the version after the one it was loaded at and enqueues one
    entry per event, in order, under the resolved identifiers and with that
    version; a refusal, by the domain or by a declared constraint, and a
    failure to save leave both rows and outbox as they were. The only panic is
    a decision with more events than identifiers. *)
Theorem Decide_row_and_events id ctx key aid (snapshot : A -> S) origin identity
    (load : Loader (W := W) S A) (decide_ : A -> A * Decision_of Event R) agg stored (w : W) tx
    (Hkey : scopedKey ctx aid = Ok key) (Hw : w_txs w !! id = Some tx)
    (Hload : load ctx (txReader t id) aid w = (Ok (agg, stored), w)) :
  match decide_at t id ctx aid snapshot origin identity load decide_ w with
  | (Ok (OutAccepted answer), w') =>
      exists agg' evs, decide_ agg = (agg', inl (Accept answer evs)) /\
        version_at (rows_of t (tx_tables tx)) key = stored /\
        exists tx', w_txs w' !! id = Some tx' /\
          rows_of t (tx_tables tx') =
            <[key := mkRow (t_box t (snapshot agg')) (wrapu64 (stored + 1))]>
              (rows_of t (tx_tables tx)) /\
          exists es, tx_outbox tx' = tx_outbox tx ++ es /\
            map ent_Event es = evs /\
            map ent_MessageID es = take (length evs) (MessageIDs identity) /\
            Forall (fun e => ent_AggregateVersion e = wrapu64 (stored + 1) /\
                             ent_PartitionKey e = AggregateID origin) es
  | (Ok (OutRejected rejection), w') =>
      untouched tx id w' /\
      ((decide_ agg).2 = inr rejection \/
       tx_writes tx = 0 /\ exists u, u ∈ t_Unique t /\ u_Rejection u = Some rejection)
  | (Err e, w') =>
      untouched tx id w' /\
      (e = ErrVersionConflict \/ exists c rej, e = UniqueViolation (t_Name t) c rej)
  | (Panic _, _) =>
      exists accepted, (decide_ agg).2 = inl accepted /\
        len (MessageIDs identity) < len (events accepted)
  end.
Proof.
  rewrite (Decide_memory t id ctx key aid Hkey snapshot origin identity load decide_ agg stored w tx)
    by done.
  destruct (decide_ agg) as [agg' [accepted | rejection]]; cbv beta iota.
  2: { split; [by exists tx | by left]. }
  pose proof (saveAs_rows t tx key (snapshot agg') stored) as Hs. cbv zeta in Hs.
  destruct (saveAs t tx key (snapshot agg') stored) as [[e |] tx'] eqn:Es;
    destruct Hs as (_ & _ & Hout & _ & Hs).
  - destruct Hs as (Hr & _ & He).
    assert (untouched tx id (set_tx id tx' w)) as Hun.
    { exists tx'. cbn. by rewrite lookup_insert_eq. }
    destruct He as [[-> _] | (_ & c & rej & ->)].
    + vm_compute (DeclaredRejection ErrVersionConflict). cbv iota. auto.
    + destruct rej as [rejection |].
      * change (DeclaredRejection (UniqueViolation (t_Name t) c (Some rejection))) with (Some rejection).
        split; [done |]. right. destruct (saveAs_violation t _ _ _ _ _ _ _ _ Es) as (u & Hu & _ & _ & Hrej).
        destruct (Z.eqb_spec (tx_writes tx) 0); [| done]. eauto.
      * change (DeclaredRejection (UniqueViolation (t_Name t) c None)) with (@None Rejection).
        split; [done |]. eauto.
  - destruct Hs as (Hv & Hr & _).
    destruct (Z.ltb_spec (len (MessageIDs identity)) (len (events accepted))) as [Hlt | Hge]; [eauto |].
    exists agg', (events accepted). split; [by destruct accepted |]. split; [done |].
    eexists. cbn. rewrite lookup_insert_eq. split; [done |]. cbn. split; [done |].
    eexists. rewrite Hout. split; [done |].
    assert (length (events accepted) <= length (MessageIDs identity))%nat as Hlen
      by (unfold len in Hge; lia).
    clear -Hlen. unfold entries_for. revert Hlen. generalize (MessageIDs identity).
    induction (events accepted) as [| ev evs IH]; intros [| i ids] Hlen; cbn in *; try (by repeat constructor); [lia |].
    destruct (IH ids ltac:(lia)) as (H1 & H2 & H3). rewrite H1, H2. repeat split; by constructor.
Qed.
End Decisions.

Lemma Decide_row_and_events_witness :
  let identity := mkIdentity 1000 ["m-1"; "m-2"] in
  let origin := mkOrigin "orders" "order" "o1" in
  let decide_ : string -> string * Decision_of string string :=
    fun agg => (agg, inl (Accept "ok" ["placed"])) in
  match decide_at Fixture.orders 0%nat fixture_ctx "o1" id origin identity
          (OrNew (fun _ => "book") id) decide_ Fixture.opened with
  | (Ok (OutAccepted answer), w') =>
      exists agg' evs, decide_ "book" = (agg', inl (Accept answer evs)) /\
        version_at (rows_of Fixture.orders (tx_tables Fixture.empty_tx)) ("t1", "o1") = 0 /\
        exists tx', w_txs w' !! 0%nat = Some tx' /\
          rows_of Fixture.orders (tx_tables tx') =
            <[("t1", "o1") := mkRow (t_box Fixture.orders (id agg')) (wrapu64 (0 + 1))]>
              (rows_of Fixture.orders (tx_tables Fixture.empty_tx)) /\
          exists es, tx_outbox tx' = tx_outbox Fixture.empty_tx ++ es /\
            map ent_Event es = evs /\
            map ent_MessageID es = take (length evs) (MessageIDs identity) /\
            Forall (fun e => ent_AggregateVersion e = wrapu64 (0 + 1) /\
                             ent_PartitionKey e = AggregateID origin) es
  | (Ok (OutRejected rejection), w') =>
      untouched Fixture.orders Fixture.empty_tx 0%nat w' /\
      ((decide_ "book").2 = inr rejection \/
       tx_writes Fixture.empty_tx = 0 /\
       exists u, u ∈ t_Unique Fixture.orders /\ u_Rejection u = Some rejection)
  | (Err e, w') =>
      untouched Fixture.orders Fixture.empty_tx 0%nat w' /\
      (e = ErrVersionConflict \/ exists c rej, e = UniqueViolation "orders" c rej)
  | (Panic _, _) =>
      exists accepted, (decide_ "book").2 = inl accepted /\
        len (MessageIDs identity) < len (events accepted)
  end.
Proof.
  intros identity origin decide_.
  exact (Decide_row_and_events Fixture.orders 0%nat fixture_ctx ("t1", "o1") "o1" id origin identity
    (OrNew (fun _ => "book") id) decide_ "book" 0 Fixture.opened Fixture.empty_tx
    eq_refl eq_refl eq_refl).
Defined.

(** * Commands from end to end *)

(** C1: a command leaves nothing behind unless its unit of work committed it,
    and then it leaves exactly what the unit committed.  Given that the unit of
    work is atomic, as the in-memory one is proved to be, and that the inbox, the
    authorization, the business code, the clock, the identifiers and the
    instrumentation reach the durable state (rows, outbox, idempotency records)
    only through that unit, [Execute] ends in one of three ways.  An error is
    answered over the durable state the caller had, so never after a commit.  A
    panic, wherever it happened up to the commit, leaves that state too; the only
    panics that follow a commit are those of the two calls made after it, the
    instrumentation's end of the operation and, for a command that was not
    replayed, its audit, and they leave what the unit committed.  An answer is the
    one the unit gave, over what it committed and nothing more. *)
Theorem Execute_atomic {W C Res Op R} `{HasSlots W} (view : W -> C)
    (x : Executor (W := W) Res Op) (c : Command (W := W) Res Op R) ctx w r w'
    (Hx : ExecutorConfined view x c) (Hrun : Execute ctx x c w = (r, w')) :
  match r with
  | Err _ => view w' = view w
  | Panic p =>
      view w' = view w \/
      exists ctx1 end_ identity outcome replayed w2,
        (unit_answered view x c ctx w ctx1 end_ identity outcome replayed w2 /\ view w' = view w2) /\
        telling_panicked x c ctx1 end_ identity outcome replayed w2 p w'
  | Ok outcome =>
      exists ctx1 end_ identity replayed w2,
        unit_answered view x c ctx w ctx1 end_ identity outcome replayed w2 /\ view w' = view w2
  end.
Proof. exact (Execute_executed view x c Hx ctx w r w' Hrun). Qed.

(** The fixture's executor under an instrumentation of one's choice. *)
Definition observed_by (inst : Instrumentation Fixture.FW) : Executor (W := Fixture.FW) loc string :=
  let x := Fixture.executor in
  mkExecutor loc string (x_UoW _ _ x) (x_Inbox _ _ x) (x_Consumer _ _ x) (x_Clock _ _ x) (x_IDs _ _ x)
    (x_MaxEvents _ _ x) (x_Policy _ _ x) (x_Authorize _ _ x) (Some inst).

Lemma fixture_confined inst name (Hi : ConfinedInstrumentation committed inst) :
  ExecutorConfined committed (observed_by inst) (Fixture.place name).
Proof.
  split; cbn; try done; try apply _.
  - intros ctx res identity. apply Confined_Decide.
    apply Confined_bind; [apply Confined_attempt, Confined_Load |].
    intros [[s v] | e | p]; [| case_match |]; auto with confined.
  - intros ctx op. auto with confined.
Qed.

(** An instrumentation whose audit trail is down. *)
Definition failing_audit : Instrumentation Fixture.FW :=
  mkInstrumentation (BeginOperation NoInstrumentation) (fun _ _ => panic "audit trail down").
#[global] Instance failing_audit_confined : ConfinedInstrumentation committed failing_audit.
Proof.
  destruct (NoInstrumentation_confined (W := Fixture.FW) committed).
  split; [done | done | by intros ctx event w r w' [= _ <-]].
Qed.

(** A late failure of the commit under that instrumentation: an error, over the
    state as it was. *)
Lemma Execute_atomic_witness :
  let failing := set_store (FailNextCommit (w_store Fixture.start) (Opaque "disk")) Fixture.start in
  let ended := Execute fixture_ctx (observed_by failing_audit) (Fixture.place "o1") failing in
  ended.1 = Err (Opaque "disk") /\ committed ended.2 = committed failing.
Proof.
  cbv zeta. split; [vm_compute; reflexivity |].
  refine (Execute_atomic committed (observed_by failing_audit) (Fixture.place "o1") fixture_ctx _
    (Err (Opaque "disk")) _ (fixture_confined failing_audit "o1" _) _).
  vm_compute. reflexivity.
Defined.

(** The panic after the commit is real: the audit's leaves the entry announced. *)
Example Execute_audit_panics :
  let ended := Execute fixture_ctx (observed_by failing_audit) (Fixture.place "o1") Fixture.start in
  let again := Execute fixture_ctx (observed_by failing_audit) (Fixture.place "o1") ended.2 in
  ended.1 = Panic "audit trail down" /\ len (st_outbox (w_store ended.2)) = 1 /\
  again.1 = Ok (OutAccepted "o1") /\ len (st_outbox (w_store again.2)) = 1.
Proof. vm_compute. repeat split; reflexivity. Qed.

(** A commit that fails late leaves nothing either, and the command runs again. *)
Example Execute_retried :
  let failing := set_store (FailNextCommit (w_store Fixture.start) (Opaque "disk")) Fixture.start in
  let first := Execute fixture_ctx Fixture.executor (Fixture.place "o1") failing in
  let second := Execute fixture_ctx Fixture.executor (Fixture.place "o1") first.2 in
  let third := Execute fixture_ctx Fixture.executor (Fixture.place "o1") second.2 in
  first.1 = Err (Opaque "disk") /\ second.1 = Ok (OutAccepted "o1") /\
  third.1 = Ok (OutAccepted "o1") /\ len (st_outbox (w_store third.2)) = 1.
Proof. vm_compute. repeat split; reflexivity. Qed.
