(* ===== verification/CycleTheorems.v ===== *)
(** What the external command cycle promises: its answers, that a partner is
    never called again for a message that ended or is in flight, and what a
    sweep page accounts for. *)

From S2P Require Import Prelude Regex DomainKernel Errors Ports Interfaces Codec OutboundKey Memory Ledger Application AppMemory Dispatch Fixture.

Section Answers.
Context {W : Type} {Slots_W : HasSlots W} {R : Type}.

(** a dispatch answers with a disposition and an error that agree. With no
    error it is one of the four receptions, R1-D1, R2, R3 or R4; with an error
    it is that error's classification, which is a retry or containment. *)
Theorem Dispatch_answers (d : ExternalDispatch W R) ctx (w w' : W) answer
    (Hu : FaithfulUnit (d_UoW d)) (H : Dispatch ctx d w = (Ok answer, w')) :
  match answer.2 with
  | Some e => answer.1 = Classify e /\ (answer.1 = R1D3 \/ answer.1 = R1D4)
  | None => answer.1 = R1D1 \/ answer.1 = R2 \/ answer.1 = R3 \/ answer.1 = R4
  end.
Proof.
  assert (answer_ok answer) as Ha.
  { revert H. unfold Dispatch. destruct (dispatch_validate d) as [u | e | p]; [| by intros [= <- _] | done].
    intros (opened & w1 & _ & Hb)%bind_inv. destruct opened as [ctx1 end_].
    apply bind_inv in Hb as (a & w2 & Hrun & Hb). apply bind_inv in Hb as ([] & w3 & _ & Hb).
    injection Hb as <- _. by eapply dispatch_run_answer. }
  unfold answer_ok in Ha. destruct answer.2; [| done]. split; [done |].
  rewrite Ha. apply Classify_two.
Qed.

(** a sweep page accounts for the attempts it handled. They are a prefix of
    the page listed, the cursor it hands on is the last one's, no more are
    swept than seen, and when nothing cancels the sweep every attempt listed
    was handled and each one not swept left its error. *)
Theorem SweepStale_page ctx cancelled (store : AttemptLedger W) cutoff after batch close
    (w w1 w' : W) listed page err
    (Hl : ledger_Stale store ctx cutoff after batch w = (Ok listed, w1))
    (H : SweepStale ctx cancelled store cutoff after batch close w = (Ok (page, err), w')) :
  exists seen, seen `prefix_of` listed /\ pg_Seen page = len seen /\
    pg_Next page = default after (Cursor <$> last seen) /\
    0 <= pg_Swept page <= pg_Seen page /\
    ((forall w, cancelled w = None) ->
      seen = listed /\ (err = None <-> pg_Swept page = pg_Seen page)).
Proof.
  revert H. unfold SweepStale. unfold mbind at 1, M_bind at 1, attempt. rewrite Hl.
  intros ([pg failures] & w2 & Hs & Hb)%bind_inv. cbn in Hb. injection Hb as <- <- _.
  apply sweep_loop_page in Hs as (seen & Hp & Hseen & Hnext & Hswept & Hall). cbn in *.
  exists seen. split; [done |]. split; [lia |]. split; [done |]. split; [lia |].
  intros Hn. destruct (Hall Hn) as [-> Hf]. split; [done |].
  destruct failures; unfold len in Hf; cbn [length] in Hf; split; intros; done || lia.
Qed.
End Answers.

Section Memory.
Context {Any Event X R : Type}.
Notation W := (World Any Event X).

(** C11: the partner is never called twice for one effect. Over the in-memory
    ledger, a dispatch of a message whose key has an attempt in flight, or
    whose message already ended in a class no resend follows, does exactly the
    same whatever the partner would do: the command is not called. *)
Theorem Dispatch_never_resubmits (d : ExternalDispatch W R) command ctx ctx1 end_ now scope
    (w w1 w2 : W)
    (Hb : BeginOperation (d_Instrumentation d) ctx operationDispatch w = (Ok (ctx1, end_), w1))
    (Hn : Now (d_Clock d) w1 = (now, w2)) (Hst : d_Store d = NewAttemptStore)
    (Hctx : ctx_Err ctx1 = None) (Hl : w_locked w2 = false)
    (Hf : st_failNextCommit (w_store w2) = None)
    (Hk : d_Key d <> ""%string) (Hm : rcp_MessageID (d_Receipt d) <> ""%string)
    (Hs : ledger_scope ctx1 (d_Key d) = Ok scope)
    (Hok : rows_ok (default [] (st_attempts (w_store w2) !! scope)))
    (Hno : no_new_attempt (default [] (st_attempts (w_store w2) !! scope))
             (rcp_MessageID (d_Receipt d))) :
  Dispatch ctx (with_command d command) w = Dispatch ctx d w.
Proof.
  unfold Dispatch. change (dispatch_validate (with_command d command)) with (dispatch_validate d).
  destruct (dispatch_validate d); [| done | done].
  rewrite !unfailing_bind. cbn [d_Instrumentation with_command]. rewrite Hb. unfold mbind, M_bind.
  destruct (AttemptStore_Begin ctx1 (d_Key d) (rcp_MessageID (d_Receipt d)) now scope w2
    Hctx Hl Hf Hk Hm Hs) as (w3 & Hbegin & _).
  rewrite <- Hst in Hbegin.
  by rewrite (dispatch_run_silent d command ctx1 w1 w2 w3 now _ Hn Hbegin
    (no_new_attempt_start scope _ _ now Hok Hno)).
Qed.
End Memory.

(** * A dispatch of the fixture's world *)
Definition fixture_partner (class : ExternalClass) : ExternalCommand Fixture.FW :=
  mkExternalCommand (fun _ _ _ w => ((class, zeroObservation, None), w)).
Definition fixture_dispatch (message : MessageID) (command : ExternalCommand Fixture.FW)
  : ExternalDispatch Fixture.FW loc :=
  mkExternalDispatch (NewUnitOfWork id) NewAttemptStore txAttemptLedger
    (fun res => txInbox res "orders") (mkReceipt "orders" message "pay" "h" 0 0 0) command
    "key" [] Partner.profile false 100 Fixture.clock (fun ctx => ctx) NoInstrumentation
    (fun _ _ _ => mret ()).
Definition fixture_dispatch_ctx : Ctx := Fixture.ctx "t1" "k".

(** The world after the partner refused the message once. *)
Definition fixture_refused : Fixture.FW :=
  (Dispatch fixture_dispatch_ctx (fixture_dispatch "m1" (fixture_partner ClassFinalBusiness))
     Fixture.start).2.

Lemma Dispatch_answers_witness :
  let answer := (R1D1, @None error) in
  match answer.2 with
  | Some e => answer.1 = Classify e /\ (answer.1 = R1D3 \/ answer.1 = R1D4)
  | None => answer.1 = R1D1 \/ answer.1 = R2 \/ answer.1 = R3 \/ answer.1 = R4
  end.
Proof.
  intros answer.
  refine (Dispatch_answers (fixture_dispatch "m1" (fixture_partner ClassFinalBusiness))
    fixture_dispatch_ctx Fixture.start fixture_refused answer (memory_faithful id) _).
  vm_compute. reflexivity.
Defined.

Lemma Dispatch_never_resubmits_witness :
  Dispatch fixture_dispatch_ctx
    (with_command (fixture_dispatch "m1" (fixture_partner ClassFinalBusiness))
       (fixture_partner ClassAccepted)) fixture_refused =
  Dispatch fixture_dispatch_ctx (fixture_dispatch "m1" (fixture_partner ClassFinalBusiness))
    fixture_refused.
Proof.
  refine (Dispatch_never_resubmits (fixture_dispatch "m1" (fixture_partner ClassFinalBusiness))
    (fixture_partner ClassAccepted) fixture_dispatch_ctx fixture_dispatch_ctx (fun _ => mret ()) 1000
    ("t1", "key") fixture_refused fixture_refused fixture_refused eq_refl eq_refl eq_refl eq_refl
    _ _ _ _ eq_refl _ _); try (vm_compute; discriminate); try (vm_compute; reflexivity).
  - vm_compute. split; [repeat constructor; vm_compute; try discriminate; reflexivity |].
    intros [| i] r; cbn; [lia | done].
  - right. exists 0%nat. eexists. split; [vm_compute; reflexivity |]. repeat split.
Defined.

(** The same message in flight instead: a process that died before settling. *)
Example Dispatch_in_flight :
  let begun := (ledger_Begin NewAttemptStore fixture_dispatch_ctx "key" "m1" 990 Fixture.start).2 in
  (Dispatch fixture_dispatch_ctx (fixture_dispatch "m1" (fixture_partner ClassAccepted)) begun).1 =
  Ok (R1D3, Some (NewFailure TransientDependency true
        (Some (Wrap "dispatch attempt" ErrAttemptInFlight)))).
Proof. vm_compute. reflexivity. Qed.

Lemma SweepStale_page_witness :
  let begun := (ledger_Begin NewAttemptStore fixture_dispatch_ctx "key" "m1" 5 Fixture.start).2 in
  let store := NewAttemptStore (Any := string) (Event := string) (X := Z) in
  let close : Attempt -> M Fixture.FW error unit := fun _ => throw ErrAttemptUnknown in
  let listed := [mkAttempt "t1" "key" 1 "m1" 5] in
  exists page err,
    (SweepStale Background (fun _ => None) store 10 zeroCursor 8 close begun).1 = Ok (page, err) /\
    exists seen, seen `prefix_of` listed /\ pg_Seen page = len seen /\
      pg_Next page = default zeroCursor (Cursor <$> last seen) /\
      0 <= pg_Swept page <= pg_Seen page /\
      ((forall w : Fixture.FW, (fun _ => @None error) w = None) ->
        seen = listed /\ (err = None <-> pg_Swept page = pg_Seen page)).
Proof.
  intros begun store close listed.
  exists (mkSweepPage 1 0 (mkAttemptCursor 5 "t1" "key" 1)), (Some (Join "" [ErrAttemptUnknown])).
  split; [vm_compute; reflexivity |].
  apply (SweepStale_page Background (fun _ => None) store 10 zeroCursor 8 close begun
    (ledger_Stale store Background 10 zeroCursor 8 begun).2
    (SweepStale Background (fun _ => None) store 10 zeroCursor 8 close begun).2 listed);
    vm_compute; reflexivity.
Defined.
