(* ===== verification/ResilienceTheorems.v ===== *)
(** What the resilience packages promise: bounded retries out of a budget no
    interleaving overspends, a breaker only a current probe closes, a pool that
    never overflows, and sheets, orders, deadlines and routes that fit. *)

From S2P Require Import Prelude DomainKernel Errors GoTime Retry Breaker Resilience.

(** * Retry *)

(** one more attempt is allowed exactly when every factor holds: the attempt
    ceiling is not reached, the taxonomy calls the error transient, repeating is
    safe for this error, and both the budget and the remaining deadline cover
    what the attempt needs. The first factor that fails is the one named. *)
Theorem Evaluate_conjunction i :
  let wait := Next (in_Backoff i) (in_Attempt i) (in_Rand i) in
  let need := op_EstimatedDuration (in_Operation i) +! wait in
  (v_Allowed (Evaluate i) = true <->
    in_Attempt i + 1 < in_MaxAttempts i /\
    (exists classify, in_Classifier i = Some classify /\ classify (in_Err i) = RetryableError) /\
    repeatable (in_Operation i) (in_Err i) = true /\
    (exists b, in_Budget i = Some b /\ need <= Remaining b) /\
    need <= in_Remaining i) /\
  (v_Allowed (Evaluate i) = true <-> v_Denied (Evaluate i) = FactorNone) /\
  (v_Allowed (Evaluate i) = true -> v_Wait (Evaluate i) = wait /\ v_Need (Evaluate i) = need).
Proof.
  intros wait need. unfold Evaluate. fold wait need.
  destruct (Z.leb_spec (in_MaxAttempts i) (in_Attempt i + 1)); [cbn; naive_solver lia |].
  destruct (in_Classifier i) as [classify |]; [| cbn; naive_solver].
  case_bool_decide as Hc; cbn [negb]; [| cbn; naive_solver].
  destruct (repeatable _ _); cbn [negb]; [| cbn; naive_solver].
  destruct (in_Budget i) as [b |]; [| cbn; naive_solver].
  destruct (Z.ltb_spec (Remaining b) need); [cbn; naive_solver lia |].
  destruct (Z.ltb_spec (in_Remaining i) need); cbn; naive_solver lia.
Qed.

(** C38: the retry decorator always answers. A unit of work is refused without
    being called; any other call is made at least once and at most
    [MaxAttempts] times, whatever it answers, however the budget moves and
    whether the sleeper is interrupted. *)
Theorem NewRetry_bounded {W} (now : W -> Z) get_budget set_budget ctx_deadline
    (call : W -> option error * W) sleeper draw count_retry count_exhaustion
    (calls : W -> Z) config unit_of_work op w
    (calls_call : forall w, calls (call w).2 = calls w + 1)
    (calls_sleep : forall d w, calls (sleeper d w).2 = calls w)
    (calls_budget : forall b w, calls (set_budget b w) = calls w)
    (calls_retry : forall w, calls (count_retry w) = calls w)
    (calls_exhaustion : forall w, calls (count_exhaustion w) = calls w)
    (Hok : retry_config_ok config = Ok ()) :
  exists err w', NewRetry now get_budget set_budget ctx_deadline call sleeper draw count_retry
      count_exhaustion config unit_of_work op w = (Some err, w') /\
    if unit_of_work : bool
    then w' = w /\ exists e, err = Some e /\ errors_is e ErrWrapsUnitOfWork = true
    else calls w < calls w' <= calls w + rc_MaxAttempts config.
Proof.
  unfold retry_config_ok in Hok. destruct (Z.leb_spec (rc_MaxAttempts config) 0); [done |].
  unfold NewRetry. destruct unit_of_work.
  { eexists _, w. split; [done |]. split; [done |]. eexists. split; reflexivity. }
  destruct (Z.to_nat (rc_MaxAttempts config)) as [| fuel] eqn:Ef; [lia |].
  edestruct (retry_loop_total now get_budget set_budget ctx_deadline call sleeper draw count_retry
    count_exhaustion (S fuel) config op 0 0 0 w) as (err & w' & Hr); [lia | lia | lia |].
  exists err, w'. split; [done |].
  pose proof (retry_loop_calls now get_budget set_budget ctx_deadline call sleeper draw count_retry
    count_exhaustion calls calls_call calls_sleep calls_budget calls_retry calls_exhaustion
    (S fuel) config op 0 0 0 w) as Hc. rewrite Hr in Hc. cbn [snd] in Hc. split; [| lia].
  cbn [retry_loop] in Hr.
  pose proof (retry_round_calls now get_budget set_budget ctx_deadline call sleeper draw count_retry
    count_exhaustion calls calls_call calls_sleep calls_budget calls_retry calls_exhaustion
    config op 0 0 0 w) as Hround.
  destruct (retry_round _ _ _ _ _ _ _ _ _ config op 0 0 0 w) as [[e | c x] w1]; cbn in Hround.
  - injection Hr as <- <-. lia.
  - pose proof (retry_loop_calls now get_budget set_budget ctx_deadline call sleeper draw count_retry
      count_exhaustion calls calls_call calls_sleep calls_budget calls_retry calls_exhaustion
      fuel config op (0 + 1) c x w1) as Hc2. rewrite Hr in Hc2. cbn [snd] in Hc2. lia.
Qed.

(** A dependency that always fails, under a budget of one second. *)
Lemma NewRetry_bounded_witness :
  let call : Z * Budget -> option error * (Z * Budget) :=
    fun w => (Some (Opaque "unavailable"), (w.1 + 1, w.2)) in
  let config := mkRetryConfig (Some (fun _ => RetryableError)) 3 DefaultBackoff in
  let op := mkOperation "d" "m" true None Millisecond in
  let w := (0, WithTotal Second newBudget) in
  exists err w', NewRetry (fun _ => 0) (fun w => Some w.2) (fun b w => (w.1, b)) None call
      (fun _ w => (None, w)) (fun _ => None) (fun w => w) (fun w => w) config false op w =
      (Some err, w') /\
    w.1 < w'.1 <= w.1 + rc_MaxAttempts config.
Proof.
  intros call config op w.
  apply (NewRetry_bounded (fun _ => 0) (fun w => Some w.2) (fun b w => (w.1, b)) None call
    (fun _ w => (None, w)) (fun _ => None) (fun w => w) (fun w => w) fst config false op w);
    reflexivity.
Defined.

(** no interleaving overspends a budget. Whatever dependencies of one
    execution arm, debit, claim, settle and report concurrently, the balance of
    an armed budget never goes below zero, and balance plus outstanding claims
    never exceed what the budget was sized with. *)
Theorem budget_never_overspent total s s'
    (Ht : 0 <= total <= max_int64)
    (H : s = mkSpending (mkBudget total true false) []) (Hr : rtc spend_step s s') :
  0 <= bg_remaining (sp_budget s') /\
  bg_remaining (sp_budget s') + foldr Z.add 0 (sp_claims s') <= total.
Proof.
  assert (spending_ok total s) as Hok by (subst; repeat split; cbn; [lia | constructor | lia]).
  clear H. induction Hr as [s | s s1 s2 Hstep Hr IH]; [by destruct Hok as (_ & ? & _ & ?) |].
  apply IH. by apply (spend_step_ok total s); [lia | ..].
Qed.

Lemma budget_never_overspent_witness :
  let s := mkSpending (mkBudget 10 true false) [] in
  let s' := mkSpending (mkBudget 3 true false) [3; 4] in
  rtc spend_step s s' /\
  0 <= bg_remaining (sp_budget s') /\
  bg_remaining (sp_budget s') + foldr Z.add 0 (sp_claims s') <= 10.
Proof.
  intros s s'.
  assert (rtc spend_step s s') as Hr.
  { apply (rtc_l _ _ (mkSpending (mkBudget 6 true false) [4])); [apply spend_reserve; vm_compute; reflexivity |].
    apply (rtc_l _ _ s'); [apply spend_reserve; vm_compute; reflexivity | apply rtc_refl]. }
  split; [exact Hr |].
  apply (budget_never_overspent 10 s s'); [unfold max_int64; lia | reflexivity | exact Hr].
Defined.

(** ** Backoff *)

(** the interval before attempt [n] grows geometrically up to the ceiling:
    with a positive base no larger than the cap, and a cap whose next step fits
    an [int64], it is [min (Base * Factor^n) Cap], and a nil source of
    randomness waits all of it. *)
Theorem backoff_interval b n
    (Hb : 0 < bo_Base b <= bo_Cap b) (Hf : 1 < bo_Factor b)
    (Hc : bo_Cap b * bo_Factor b <= max_int64) (Hn : 0 <= n) :
  interval b n = Z.min (bo_Base b * bo_Factor b ^ n) (bo_Cap b) /\
  Next b n None = interval b n.
Proof.
  assert (interval b n = Z.min (bo_Base b * bo_Factor b ^ n) (bo_Cap b)) as He.
  { unfold interval. destruct (Z.leb_spec (bo_Base b) 0), (Z.ltb_spec n 0); try lia. cbn [orb].
    rewrite interval_loop_min by nia. by rewrite Z2Nat.id. }
  split; [done |]. unfold Next. cbv zeta. destruct (Z.leb_spec (interval b n) 0) as [E0 |]; [| done].
  assert (0 < bo_Factor b ^ n) by (apply Z.pow_pos_nonneg; lia). nia.
Qed.

Lemma backoff_interval_witness :
  interval DefaultBackoff 4 = Z.min (bo_Base DefaultBackoff * bo_Factor DefaultBackoff ^ 4) (bo_Cap DefaultBackoff) /\
  Next DefaultBackoff 4 None = interval DefaultBackoff 4.
Proof.
  apply (backoff_interval DefaultBackoff 4); vm_compute; try discriminate; try reflexivity.
  split; [reflexivity | discriminate].
Defined.

(** * Circuit breaker *)
Section Breaker.
Context (policy : BreakerPolicy) (failure : option (error -> bool)).

(** half-openness belongs to a bounded number of probes. In every state an
    interleaving of admissions, refusals and outcomes can reach, the probes
    counted are those of the current cycle still in flight, they are at most
    the probes of the policy, none outlives the half-open state, and no call
    carries a ticket from a cycle to come. *)
Theorem breaker_probes_bounded s (H : reachable policy failure s) : system_ok policy s.
Proof.
  unfold reachable in H. remember (start) as s0 eqn:E0.
  assert (system_ok policy s0) as Hok by (subst; apply start_ok). clear E0.
  induction H as [s | s s1 s2 Hst H IH]; [done |].
  apply IH. by apply (breaker_step_ok policy failure s).
Qed.

(** only a probe of the current cycle closes a breaker. An outcome that
    leaves a breaker closed which was not closed is the success, as the
    classifier sees it, of a probe admitted in the cycle it closes; and while
    the cooldown runs an open breaker refuses every call and does not move. *)
Theorem breaker_closes_by_probe now t err b :
  (br_state (Breaker.record policy failure now t err b) = BreakerClosed ->
   br_state b <> BreakerClosed ->
   br_state b = BreakerHalfOpen /\ current_probe b t /\ counts failure err = false /\
   cancelled err = false) /\
  (br_state b = BreakerOpen -> time_sub now (br_openedAt b) < bp_Cooldown policy ->
   exists e, admit_call policy now b = (Err e, b) /\ errors_is e ErrBreakerOpen = true).
Proof.
  split.
  - unfold Breaker.record, releaseProbe, current_probe. intros Hcl Hne.
    destruct (cancelled err).
    { exfalso. apply Hne. destruct (_ && _) in Hcl; exact Hcl. }
    destruct (ad_probe t).
    + destruct (Z.eqb_spec (ad_generation t) (br_generation b)); cbn [negb orb] in Hcl; [| done].
      case_bool_decide; cbn [negb] in Hcl; [| done]. cbv zeta in Hcl.
      destruct (counts failure err); [done |]. auto.
    + case_bool_decide; [done |]. cbv zeta in Hcl.
      destruct (shouldOpen _ _); [done |]. cbn in Hcl. done.
  - intros Ho Hc. unfold admit_call. rewrite bool_decide_true by done.
    destruct (Z.ltb_spec (time_sub now (br_openedAt b)) (bp_Cooldown policy)); [| lia].
    eexists. split; [reflexivity | vm_compute; done].
Qed.

(** an outcome from before the breaker opened still moves it. While it is
    open, a late call that was no probe is added to the window, and when the
    window still crosses the threshold the breaker opens anew: its cooldown
    starts over and its cycle advances, even though that call succeeded. *)
Theorem late_outcome_restarts_cooldown now t b
    (Ho : br_state b = BreakerOpen) (Ht : ad_probe t = false)
    (Hs : shouldOpen policy (prune policy now (br_window b) ++ [mkObservation now false]) = true) :
  let b' := Breaker.record policy failure now t None b in
  br_state b' = BreakerOpen /\ br_openedAt b' = now /\ br_generation b' = br_generation b + 1.
Proof.
  unfold Breaker.record. cbn [cancelled counts]. rewrite Ht, Ho. cbn [br_window set_window].
  rewrite Hs. cbn. done.
Qed.
End Breaker.

(** Half of two samples open this breaker for ten nanoseconds. *)
Definition small_policy : BreakerPolicy := mkBreakerPolicy 0 float_half 2 10 1.
Definition two_failures : Breaker :=
  let t := mkAdmission false 0 in
  let fail := Some (Opaque "unavailable") in
  Breaker.record small_policy None 1 t fail (Breaker.record small_policy None 0 t fail NewBreaker).

Lemma breaker_probes_bounded_witness :
  reachable small_policy None (mkSystem NewBreaker [mkAdmission false 0]) /\
  system_ok small_policy (mkSystem NewBreaker [mkAdmission false 0]).
Proof.
  assert (reachable small_policy None (mkSystem NewBreaker [mkAdmission false 0])) as Hr.
  { apply rtc_once. apply (step_admit _ _ 0). vm_compute. reflexivity. }
  split; [exact Hr | exact (breaker_probes_bounded small_policy None _ Hr)].
Defined.

(** Opened at instant 1, the breaker is opened again at instant 9 by a success:
    a call at instant 11, when the cooldown of the opening would be over, is
    still refused. *)
Lemma late_outcome_restarts_cooldown_witness :
  let b' := Breaker.record small_policy None 9 (mkAdmission false 0) None two_failures in
  (br_state b' = BreakerOpen /\ br_openedAt b' = 9 /\ br_generation b' = br_generation two_failures + 1) /\
  is_Ok (admit_call small_policy 11 two_failures).1 = true /\
  is_Ok (admit_call small_policy 11 b').1 = false.
Proof.
  intros b'. split; [| vm_compute; auto].
  apply (late_outcome_restarts_cooldown small_policy None 9 (mkAdmission false 0) two_failures);
    vm_compute; reflexivity.
Defined.

(** * Bulkhead *)

(** the pool and its queue hold. Under every interleaving of calls that take
    an admission, wait for a slot, give up or release, the calls running never
    exceed the pool and the calls in the bulkhead never exceed pool and queue;
    and a policy of any numbers makes a pool of at least one. *)
Theorem bulkhead_bounded policy p (H : rtc pool_step (mkPool (NewBulkhead policy) []) p) :
  running (po_calls p) <= bh_pool (po_bulkhead p) /\
  len (po_calls p) <= bh_pool (po_bulkhead p) + bh_queue (po_bulkhead p) /\
  bh_pool (po_bulkhead p) = bh_pool (NewBulkhead policy) /\
  bh_queue (po_bulkhead p) = bh_queue (NewBulkhead policy) /\
  1 <= bh_pool (NewBulkhead policy).
Proof.
  assert (pool_ok (mkPool (NewBulkhead policy) [])) as Hok by apply NewBulkhead_ok.
  assert (1 <= bh_pool (NewBulkhead policy)) as H1.
  { unfold NewBulkhead, DefaultBulkheadPool. cbn. destruct (Z.leb_spec (bk_Pool policy) 0); lia. }
  remember (mkPool (NewBulkhead policy) []) as p0 eqn:E0.
  assert (bh_pool (po_bulkhead p0) = bh_pool (NewBulkhead policy) /\
    bh_queue (po_bulkhead p0) = bh_queue (NewBulkhead policy)) as Hsame by by subst. clear E0.
  induction H as [p | p p1 p2 Hst H IH].
  - destruct Hok as [Ha Hs Hp Hq], Hsame. repeat split; [lia .. | done].
  - apply IH; [by apply (pool_step_ok p) |].
    destruct Hst as [b b' cs Ht | b b' cs1 cs2 Ht | b cs1 cs2 | b cs1 cs2 | b cs1 cs2]; cbn in *; try exact Hsame;
      unfold try_admission, try_slot in Ht; (destruct (_ <? _) in Ht; [injection Ht as <-; exact Hsame | discriminate]).
Qed.

Lemma bulkhead_bounded_witness :
  let policy := mkBulkheadPolicy 1 0 0 in
  let p := mkPool (mkBulkhead 1 1 2 1) [Admitted_; Running] in
  running (po_calls p) <= bh_pool (po_bulkhead p) /\
  len (po_calls p) <= bh_pool (po_bulkhead p) + bh_queue (po_bulkhead p) /\
  bh_pool (po_bulkhead p) = bh_pool (NewBulkhead policy) /\
  bh_queue (po_bulkhead p) = bh_queue (NewBulkhead policy) /\
  1 <= bh_pool (NewBulkhead policy).
Proof.
  intros policy p. apply (bulkhead_bounded policy p).
  apply (rtc_l _ _ (mkPool (mkBulkhead 1 1 1 0) [Admitted_])); [apply pool_admit; vm_compute; reflexivity |].
  apply (rtc_l _ _ (mkPool (mkBulkhead 1 1 1 1) [Running])); [apply (pool_slot _ _ [] []); vm_compute; reflexivity |].
  apply rtc_once. apply pool_admit. vm_compute. reflexivity.
Defined.

(** * Sheet, order, route *)

(** an order is accepted exactly when it is a permutation of the canonical
    one, so a composition never drops a decorator nor applies one twice. *)
Theorem validateOrder_exactly order :
  validateOrder order = Ok () <-> order ≡ₚ CanonicalOrder.
Proof.
  split; [apply validateOrder_Permutation |]. intros Hp. unfold validateOrder.
  assert (len order = len CanonicalOrder) as -> by (unfold len; by rewrite Hp).
  rewrite Z.eqb_refl. cbn [negb]. apply validate_positions_ok. split.
  - rewrite Hp. apply (bool_decide_unpack _). vm_compute. exact I.
  - intros p Hin. rewrite Hp in Hin. split; [done | apply not_elem_of_nil].
Qed.

Lemma route_needed_ok needed hops total :
  Forall (fun h => operation_Validate h = Ok ()) hops -> 0 <= needed ->
  total = needed + foldr (fun h n => ro_Deadline h + DefaultHopSlack + n) 0 hops ->
  total <= max_int64 -> route_needed needed hops = Ok total.
Proof.
  intros Hv. revert needed. induction Hv as [| h hops Hh Hv IH]; intros needed H0 Ht Hm; cbn in *.
  - f_equal. lia.
  - assert (0 < ro_Deadline h) as Hd.
    { unfold operation_Validate in Hh. destruct (String.eqb _ _); [done |]. destruct (String.eqb _ _); [done |].
      destruct (ro_Kind h); try done; destruct (Z.leb_spec (ro_Deadline h) 0); done || lia. }
    assert (forall l, Forall (fun h => operation_Validate h = Ok ()) l ->
      0 <= foldr (fun h n => ro_Deadline h + DefaultHopSlack + n) 0 l) as Hpos.
    { clear. induction 1 as [| h l Hh _ IH]; cbn; [lia |].
      unfold operation_Validate in Hh. destruct (String.eqb _ _); [done |]. destruct (String.eqb _ _); [done |].
      unfold DefaultHopSlack, Millisecond in *.
      destruct (ro_Kind h); try done; destruct (Z.leb_spec (ro_Deadline h) 0); done || lia. }
    specialize (Hpos hops Hv). rewrite Hh. cbn.
    assert (0 < DefaultHopSlack) by (vm_compute; reflexivity).
    rewrite (wrap64_id (ro_Deadline h + DefaultHopSlack)) by solve_int64.
    rewrite wrap64_id by solve_int64. apply IH; lia.
Qed.

(** A route fits exactly when it should: for hops that validate and whose
    deadlines and slacks sum to an [int64], it is accepted when that sum is no
    more than what remains, and refused otherwise as a composition of deadlines
    that do not fit. *)
Theorem ValidateRoute_exactly remaining hops
    (Hv : Forall (fun h => operation_Validate h = Ok ()) hops) (Hne : hops <> [])
    (Hm : foldr (fun h n => ro_Deadline h + DefaultHopSlack + n) 0 hops <= max_int64) :
  let needed := foldr (fun h n => ro_Deadline h + DefaultHopSlack + n) 0 hops in
  (needed <= remaining -> ValidateRoute remaining hops = Ok ()) /\
  (remaining < needed -> exists e, ValidateRoute remaining hops = Err e /\
     errors_is e ErrDeadlineComposition = true).
Proof.
  intros needed. unfold ValidateRoute. destruct hops as [| h hops]; [done |].
  rewrite (route_needed_ok 0 (h :: hops) needed) by (done || lia). cbn [mbind result_bind].
  destruct (Z.ltb_spec remaining needed); split; intros; try lia; [| done].
  eexists. split; [reflexivity | vm_compute; done].
Qed.

Lemma ValidateRoute_exactly_witness :
  let hops := [mkResOperation "db" "get" Remote true None Second 1;
               mkResOperation "bus" "put" Remote true None Second 1] in
  let needed := foldr (fun h n => ro_Deadline h + DefaultHopSlack + n) 0 hops in
  (needed <= 2 * Second -> ValidateRoute (2 * Second) hops = Ok ()) /\
  (2 * Second < needed -> exists e, ValidateRoute (2 * Second) hops = Err e /\
     errors_is e ErrDeadlineComposition = true).
Proof.
  intros hops. apply (ValidateRoute_exactly (2 * Second) hops);
    [repeat constructor | discriminate | vm_compute; discriminate].
Defined.

(** The platform sheet of a named dependency is complete, and a sheet that
    validates has said something about every field, a positive deadline where it
    declares one, and a degradation mode that this delivery carries out. *)
Theorem Sheet_Validate_complete s dependency :
  (dependency <> ""%string -> Sheet_Validate (Defaults dependency) = Ok ()) /\
  (Sheet_Validate s = Ok () ->
    Forall (fun declared => declared = true) (declarations s) /\
    (forall d, fld_value (sh_Deadline s) = Some d -> 0 < d) /\
    (forall m, fld_value (sh_Degradation s) = Some m -> is_Ok (NewDegradation m) = true)).
Proof.
  split.
  - intros Hd. unfold Sheet_Validate. cbn [sh_Dependency Defaults].
    destruct (String.eqb_spec dependency ""); [done | reflexivity].
  - unfold Sheet_Validate. destruct (String.eqb _ _); [done |].
    destruct (forallb id (declarations s)) eqn:Ef; cbn [negb]; [| done].
    destruct (fld_value (sh_Deadline s)) as [d |]; [destruct (Z.leb_spec d 0); [done |] |];
      intros Hmd; (split; [apply Forall_forall; intros x Hx%list_elem_of_In;
        by apply (proj1 (forallb_forall id _) Ef) |]); (split; [naive_solver |]);
      intros m Hmode; rewrite Hmode in Hmd; by destruct m.
Qed.
