(* ===== verification/OutboxTheorems.v ===== *)
(** What the outbox promises: what a claim takes, what a record assembles to,
    and what a release leaves claimable. *)

From stdpp Require Import sorting.
From S2P Require Import Prelude Regex DomainKernel Errors Ports Envelope Outbox GoTime Relay.
#[local] Open Scope Z_scope.

(** A claim takes at most its limit of eligible records that no other
    transaction holds, each once, under its own identity and lease, the oldest
    first: a record it could have taken and did not comes after all it took.
    Every other record is left as it was. *)
Theorem Claim_exactly skip now claimID limit lease t cs t'
    (HC : Claim Applied skip now claimID limit lease t = (Ok cs, t')) :
  len cs <= limit /\ NoDup (map c_ID cs) /\
  (forall c, c ∈ cs -> exists r, t_rows t !! c_ID c = Some r /\ eligible now r = true /\
     skip (c_ID c) = false /\ c = claimed_of claimID (c_ID c, r) /\
     t_rows t' !! c_ID c = Some (lease_row claimID (now +! lease) r)) /\
  (forall id, id ∉ map c_ID cs -> t_rows t' !! id = t_rows t !! id) /\
  (forall id r, t_rows t !! id = Some r -> eligible now r = true -> skip id = false ->
     id ∉ map c_ID cs ->
     len cs = limit /\
     forall c r', c ∈ cs -> t_rows t !! c_ID c = Some r' -> drain_order (c_ID c, r') (id, r)).
Proof.
  unfold Claim in HC. case_match; [done |]. destruct (Z.leb_spec limit 0); [done |].
  case_match; [done |]. injection HC as <- <-. cbn [exec].
  fold (lease_rows claimID (now +! lease) (chosen skip now limit t) (t_rows t)).
  assert (map c_ID (map (claimed_of claimID) (chosen skip now limit t))
    = (chosen skip now limit t).*1) as ->.
  { rewrite map_map. by apply map_ext; intros []. }
  assert (forall c, c ∈ map (claimed_of claimID) (chosen skip now limit t) ->
    exists r, c = claimed_of claimID (c_ID c, r) /\ (c_ID c, r) ∈ chosen skip now limit t) as Hin.
  { intros c ([i r] & -> & Hc)%list_elem_of_fmap. by exists r. }
  split; [| split; [apply chosen_NoDup |]].
  { unfold len. rewrite length_map. unfold chosen. rewrite length_take. lia. }
  split; [| split].
  - intros c (r & Hc & Hi)%Hin. exists r.
    destruct (chosen_spec _ _ _ _ _ _ Hi) as (Hl & He & Hs). repeat split; [done .. |].
    cbn. by apply lease_rows_in; [apply chosen_NoDup |].
  - intros id Hn. by apply lease_rows_out.
  - intros id r Hl He Hs Hn.
    assert ((id, r) ∉ chosen skip now limit t) as Hni.
    { intros Hc. by apply Hn, (list_elem_of_fmap_2 fst _ (id, r)). }
    destruct (chosen_first _ _ _ _ _ _ Hl He Hs Hni) as [Hlen Hf]. split.
    + unfold len in *. rewrite length_map. lia.
    + intros c r' (r0 & Hc & Hi)%Hin Hr'. rewrite Forall_forall in Hf.
      destruct (chosen_spec _ _ _ _ _ _ Hi) as (Hl' & _).
      assert (r' = r0) as -> by congruence. by apply (Hf (c_ID c, r0)).
Qed.

(** ** A record and its envelope *)
Definition tenant_readable (d : document) : bool :=
  match member d metaTenantID with
  | None => true
  | Some v => match unmarshal_string v with Some s => negb (String.eqb s "") | None => false end
  end.

Lemma string_member_required raw key :
  string_member (DocObject raw) key = true <-> exists s, required_member raw key = Ok s.
Proof.
  unfold string_member, required_member, nonempty_text. cbn [member].
  destruct (raw !! key) as [[| s | x] |]; cbn; try (by split; [| intros [? ?]]).
  destruct (String.eqb_spec s ""); cbn; split; naive_solver.
Qed.

Lemma contextAttributes_readable d :
  context_members d = true ->
  (exists a, contextAttributes d = Ok a) <-> tenant_readable d = true.
Proof.
  unfold context_members, tenant_readable, contextAttributes.
  destruct d as [| | raw | x]; try done. cbn [unmarshal_object member].
  intros [[(s1 & H1)%string_member_required (s2 & H2)%string_member_required]%andb_prop
    (s3 & H3)%string_member_required]%andb_prop.
  rewrite (result_bind_Ok _ _ s1 H1), (result_bind_Ok _ _ s2 H2), (result_bind_Ok _ _ s3 H3).
  unfold nonempty_text.
  destruct (raw !! metaTenantID) as [[| s | x] |]; cbn; try (by split; [intros [? ?] |]).
  - destruct (String.eqb_spec s ""); cbn; split; naive_solver.
  - split; eauto.
Qed.

(** The claim's filter and the relay's assembly agree: a claimed record
    assembles if and only if its payload still matches its digest, its version
    fits the attribute, and its tenant, if any, is readable.  A record without
    context attributes is never claimed. *)
Theorem claimed_assembles sha256 now claimID id r source
    (He : eligible now r = true) (Hs : source <> ""%string) :
  (exists e, Assemble sha256 (claimed_of claimID (id, r)) source = Ok e) <->
  Sum sha256 (o_payload r) = o_payload_hash r /\ 0 <= o_aggregate_version r < 2 ^ 31 /\
  tenant_readable (o_metadata r) = true.
Proof.
  assert (context_members (o_metadata r) = true) as Hc.
  { unfold eligible in He. by apply andb_prop in He as [_ He]. }
  rewrite <- (contextAttributes_readable _ Hc). unfold Assemble.
  cbn [claimed_of c_Payload c_PayloadHash c_AggregateVersion c_Metadata].
  rewrite (eqb_neq_false _ Hs).
  destruct (String.eqb_spec (Sum sha256 (o_payload r)) (o_payload_hash r)) as [Hh | Hh]; cbn [negb];
    [| by split; [intros [? ?] | intros (? & _)]].
  destruct (Z.ltb_spec (o_aggregate_version r) 0), (Z.ltb_spec (2 ^ 31 - 1) (o_aggregate_version r));
    cbn [orb]; try (split; [by intros [? ?] | intros (_ & ? & _); lia]).
  split.
  - intros [e (a & Ha & _)%result_bind_inv]. split; [done |]. split; [lia | eauto].
  - intros (_ & _ & a & Ha). rewrite (result_bind_Ok _ _ a Ha). eauto.
Qed.

(** The envelope the application authored, by writing the entry. *)
Definition authored {Event} (entry : OutboxEntry Event) (tenant : TenantID) (mapped : Mapped)
    (message : ProtoMessage) (payload : bytes) (source : string) : Envelope := {|
  env_ID := ent_MessageID entry; env_Source := source; env_SpecVersion := SpecVersion;
  env_Type := map_Type mapped; env_Subject := ent_AggregateID entry;
  env_Time := Some (timestamp_of (ent_OccurredAt entry));
  env_DataSchema := typeURLPrefix ++ pm_FullName message; env_DataContentType := ContentType;
  env_CorrelationID := mc_CorrelationID (ent_Context entry);
  env_CausationID := mc_CausationID (ent_Context entry);
  env_PartitionKey := ent_PartitionKey entry;
  env_TraceParent := mc_Traceparent (ent_Context entry);
  env_AggregateVersion := Some (ent_AggregateVersion entry);
  env_TenantID := nonempty tenant; env_TraceState := nonempty (mc_Tracestate (ent_Context entry));
  env_Payload := payload |}.

(** What the application enqueues is what the relay assembles: with a full
    message context, the committed record is claimable from the instant of its
    fact on, and any claim of it assembles to the envelope authored, the tenant
    of the caller and the frozen payload bytes included. *)
Theorem Enqueue_assembles {Event} (mapper : Event -> result error Mapped) sha256 answer ctx
    (entry : OutboxEntry Event) t t' source
    (Hok : table_ok t) (HE : Enqueue mapper sha256 answer ctx entry t = (Ok (), t'))
    (Hfull : full_context (ent_Context entry) (enqueueTenant ctx))
    (Hv : 0 <= ent_AggregateVersion entry < 2 ^ 31) (Hs : source <> ""%string) :
  exists mapped message payload row,
    mapper (ent_Event entry) = Ok mapped /\ checkMajor mapped = Ok message /\
    pm_Marshal message = Ok payload /\
    t_rows t !! t_next t = None /\ t_rows t' = <[t_next t := row]> (t_rows t) /\
    (forall now, eligible now row = (ent_OccurredAt entry <=? now)) /\
    forall claimID, Assemble sha256 (claimed_of claimID (t_next t, row)) source =
      Ok (authored entry (enqueueTenant ctx) mapped message payload source).
Proof.
  apply Enqueue_inv in HE as (mapped & message & payload & Hm & Hc & Hp & HI).
  apply insertOutbox_inv in HI as (_ & _ & _ & ->).
  exists mapped, message, payload, (entry_row sha256 ctx entry mapped payload
    (typeURLPrefix ++ pm_FullName message)).
  do 3 (split; [done |]). split; [by apply table_ok_fresh |]. split; [done |]. split.
  - intros now. unfold eligible. cbn. by rewrite encodeMetadata_members, !andb_true_r.
  - intros claimID. unfold Assemble.
    cbn [claimed_of entry_row c_Payload c_PayloadHash c_AggregateVersion c_Metadata o_payload
      o_payload_hash o_aggregate_version o_metadata].
    rewrite (eqb_neq_false _ Hs), String.eqb_refl. cbn [negb].
    assert (int64_of (ent_AggregateVersion entry) = ent_AggregateVersion entry) as Hi.
    { apply wrap64_id. solve_int64. }
    rewrite Hi. destruct (Z.ltb_spec (ent_AggregateVersion entry) 0); [lia |].
    destruct (Z.ltb_spec (2 ^ 31 - 1) (ent_AggregateVersion entry)); [lia |]. cbn [orb].
    rewrite (result_bind_Ok _ _ _ (contextAttributes_encodeMetadata _ _ Hfull)).
    unfold authored. reflexivity.
Qed.

Lemma first_empty_in l name : (name, ""%string) ∈ l -> exists n, first_empty l = Some n.
Proof.
  induction l as [| [n v] l IH]; [by intros ?%elem_of_nil |]. cbn.
  intros [[= <- <-] | Hin]%elem_of_cons; [by exists name |].
  destruct (String.eqb v ""); eauto.
Qed.

Lemma contextAttributes_no_panic d p : contextAttributes d <> Panic p.
Proof.
  assert (forall raw k q, required_member raw k <> Panic q) as Hr.
  { intros raw k q. unfold required_member, nonempty_text. repeat case_match; done. }
  unfold contextAttributes. destruct (unmarshal_object d) as [raw |]; [| done].
  unfold mbind, result_bind, nonempty_text.
  repeat (case_match; try done); exfalso; by eapply Hr.
Qed.

(** An entry without a partition key is accepted by the outbox, and no relay
    can publish it: every delivery of it fails the record for good. *)
Theorem unordered_entry_fails `{C : ProtoCodec} {Event} (mapper : Event -> result error Mapped)
    sha256 error_text error_type answer ctx (entry : OutboxEntry Event) t t' r
    (HE : Enqueue mapper sha256 answer ctx entry t = (Ok (), t'))
    (Hk : ent_PartitionKey entry = ""%string) :
  exists row, t_rows t' !! t_next t = Some row /\
    forall claimID, exists e,
      deliver sha256 error_text error_type r (claimed_of claimID (t_next t, row)) =
        terminal (claimed_of claimID (t_next t, row)) (ownError error_text e).
Proof.
  apply Enqueue_inv in HE as (mapped & message & payload & Hm & Hc & Hp & HI).
  apply insertOutbox_inv in HI as (_ & _ & _ & ->).
  eexists. split; [apply lookup_insert_eq |]. intros claimID. set (c := claimed_of _ _).
  assert (exists e, assembled sha256 c (r_Source r) = Err e) as [e He].
  { unfold assembled. destruct (Assemble sha256 c (r_Source r)) as [env | e | p] eqn:HA; [| eauto |].
    - assert (env_PartitionKey env = ""%string) as Hpk.
      { unfold Assemble in HA. repeat (case_match; [done |]).
        by apply result_bind_inv in HA as (a & _ & [= <-]). }
      unfold mbind at 1, result_bind at 1. unfold Marshal, Encode, Validate, validatePresence.
      destruct (first_empty_in (required_attributes env) attrPartitionKey) as [n ->]; [| eauto].
      unfold required_attributes. rewrite Hpk. set_solver.
    - unfold Assemble in HA. repeat (case_match; [done |]).
      unfold mbind, result_bind in HA. case_match; try done. simplify_eq.
      by eapply contextAttributes_no_panic in H2. }
  exists e. unfold deliver. by rewrite He.
Qed.

(** Handing a claim back at an instant makes the record claimable at that
    instant, except when the clock reads earlier than the fact itself: the
    record then waits for the instant of its fact. *)
Theorem released_is_eligible answer id claimID now t t' n
    (HR : Reschedule answer id claimID now "" t = (Ok n, t')) (Hn : n <> 0) :
  exists r r', t_rows t !! id = Some r /\ t_rows t' !! id = Some r' /\
    o_locked_by r = Some claimID /\ o_last_error r' = o_last_error r /\
    (o_status r = Publishing -> context_members (o_metadata r) = true ->
     forall later, eligible later r' = (Z.max now (o_occurred_at r) <=? later)).
Proof.
  unfold Reschedule, transition in HR. case_match; [done |]. unfold exec in HR.
  destruct answer; [| done ..].
  destruct (update_claimed _ _ _ t) as [m t1] eqn:Hu. injection HR as -> ->.
  apply update_claimed_inv in Hu as [(? & _) | (r & _ & Hl & Hlock & ->)]; [done |].
  exists r. eexists. split; [done |]. split; [apply lookup_insert_eq |].
  split; [done |]. split; [done |]. intros Hst Hc later. unfold eligible. cbn.
  by rewrite Hst, Hc, !andb_true_r.
Qed.

(** * Witnesses *)
Module Sample.
Definition message : ProtoMessage :=
  mkProtoMessage "company.orders.event.v1" "company.orders.event.v1.OrderPlaced" (Ok [10; 7]).
Definition mapper (_ : unit) : result error Mapped :=
  Ok (mkMapped (Some message) "com.company.orders.order-placed.v1").
Definition context : MessageContext :=
  mkMessageContext "c-1" "c-0" "00-0af7651916cd43dd8448eb211c80319c-b7ad6b7169203331-01" "".
Definition entry (id partition : string) (at_ : Instant) : OutboxEntry unit :=
  mkOutboxEntry id at_ "orders.events" partition "order" "order-1" 3 tt context.
Definition digest (bs : bytes) : bytes := bs.
Definition enqueue (e : OutboxEntry unit) (t : OutboxTable) : OutboxTable :=
  (Enqueue mapper digest Applied Background e t).2.
Definition empty : OutboxTable := mkOutboxTable ∅ 1.
Definition one : OutboxTable := enqueue (entry "m-1" "order-1" 100) empty.
(** The second fact is the older one. *)
Definition two : OutboxTable := enqueue (entry "m-2" "order-1" 50) one.
Definition claimed : list Claimed :=
  match (Claim Applied (fun _ => false) 200 "claim-1" 1 30 two).1 with Ok cs => cs | _ => [] end.
Definition leased : OutboxTable := (Claim Applied (fun _ => false) 200 "claim-1" 1 30 two).2.
Definition relay : Relay := mkRelay "/orders" 1 10 30 2 5 0 None.

Lemma empty_ok : table_ok empty.
Proof. split; cbn; [apply map_Forall_empty | by intros ? | apply map_Forall_empty]. Qed.
Lemma full : full_context context (enqueueTenant Background).
Proof. split; repeat split; try discriminate; reflexivity. Qed.
Example oldest_first : map c_MessageID claimed = ["m-2"%string].
Proof. vm_compute. reflexivity. Qed.
End Sample.

Lemma Claim_exactly_witness :
  len Sample.claimed <= 1 /\ NoDup (map c_ID Sample.claimed).
Proof.
  destruct (Claim_exactly (fun _ => false) 200 "claim-1" 1 30 Sample.two Sample.claimed
    Sample.leased) as (H1 & H2 & _); [vm_compute; reflexivity |].
  split; [exact H1 | exact H2].
Defined.

Lemma claimed_assembles_witness :
  exists r, t_rows Sample.one !! 1 = Some r /\
  ((exists e, Assemble Sample.digest (claimed_of "claim-1" (1, r)) "/orders" = Ok e) <->
   Sum Sample.digest (o_payload r) = o_payload_hash r /\ 0 <= o_aggregate_version r < 2 ^ 31 /\
   tenant_readable (o_metadata r) = true).
Proof.
  eexists. split; [vm_compute; reflexivity |].
  apply (claimed_assembles Sample.digest 100 "claim-1" 1 _ "/orders");
    [vm_compute; reflexivity | discriminate].
Defined.

Lemma Enqueue_assembles_witness :
  exists mapped message payload row,
    Sample.mapper tt = Ok mapped /\ checkMajor mapped = Ok message /\
    pm_Marshal message = Ok payload /\
    t_rows Sample.empty !! 1 = None /\ t_rows Sample.one = <[1 := row]> (t_rows Sample.empty) /\
    (forall now, eligible now row = (100 <=? now)) /\
    forall claimID, Assemble Sample.digest (claimed_of claimID (1, row)) "/orders" =
      Ok (authored (Sample.entry "m-1" "order-1" 100) "" mapped message payload "/orders").
Proof.
  apply (Enqueue_assembles Sample.mapper Sample.digest Applied Background
    (Sample.entry "m-1" "order-1" 100) Sample.empty Sample.one "/orders").
  - apply Sample.empty_ok.
  - vm_compute. reflexivity.
  - apply Sample.full.
  - cbn. lia.
  - discriminate.
Defined.

Lemma unordered_entry_fails_witness :
  exists row, t_rows (Sample.enqueue (Sample.entry "m-3" "" 100) Sample.empty) !! 1 = Some row /\
    forall claimID, exists e,
      deliver (C := reference_codec) Sample.digest (fun _ => "own"%string) (fun _ => "error"%string)
        Sample.relay (claimed_of claimID (1, row)) =
        terminal (claimed_of claimID (1, row)) (ownError (fun _ => "own"%string) e).
Proof.
  apply (unordered_entry_fails (C := reference_codec) Sample.mapper Sample.digest _ _ Applied
    Background (Sample.entry "m-3" "" 100) Sample.empty _ Sample.relay).
  - vm_compute. reflexivity.
  - reflexivity.
Defined.

Lemma released_is_eligible_witness :
  exists r r', t_rows Sample.leased !! 2 = Some r /\
    t_rows (Reschedule Applied 2 "claim-1" 210 "" Sample.leased).2 !! 2 = Some r' /\
    o_locked_by r = Some "claim-1"%string /\ o_last_error r' = o_last_error r /\
    (o_status r = Publishing -> context_members (o_metadata r) = true ->
     forall later, eligible later r' = (Z.max 210 (o_occurred_at r) <=? later)).
Proof.
  apply (released_is_eligible Applied 2 "claim-1" 210 Sample.leased _ 1).
  - vm_compute. reflexivity.
  - lia.
Defined.
