(* ===== verification/RelayTheorems.v ===== *)
(** What a system of relays promises, under every interleaving of its deliveries
    with the application, retention, cancellation and crashes, and whatever the
    database and the broker answer. *)

From stdpp Require Import sorting relations.
From S2P Require Import Prelude DomainKernel Errors Ports Envelope Outbox GoTime Relay RelayInvariant.
#[local] Open Scope Z_scope.

Section Theorems.
Context `{C : ProtoCodec} (sha256 : bytes -> bytes).
Context (error_text error_type : error -> string).

(** C29: No record is marked published unless the broker accepted the very message
    it assembles to, at its destination. *)
Theorem published_was_accepted s id r
    (HR : reachable sha256 error_text error_type s)
    (Hr : t_rows (sy_table s) !! id = Some r) (Hst : o_status r = Published) :
  exists source msg, assembled sha256 (claimed_of "" (0, r)) source = Ok msg /\
    (o_destination r, msg) ∈ sy_accepted s.
Proof.
  apply reachable_inv in HR.
  destruct (inv_published _ _ _ _ HR id r Hr Hst) as (source & msg & Ha & Hin). eauto.
Qed.

(** C32: No message is lost: a committed record is still in the table with what was
    written, or the broker accepted its message. *)
Theorem no_message_lost s id r0
    (HR : reachable sha256 error_text error_type s) (Hr : sy_enqueued s !! id = Some r0) :
  (exists r, t_rows (sy_table s) !! id = Some r /\ content r = content r0) \/
  (exists source msg, assembled sha256 (claimed_of "" (0, r0)) source = Ok msg /\
     (o_destination r0, msg) ∈ sy_accepted s).
Proof.
  apply reachable_inv in HR.
  destruct (inv_enqueued _ _ _ _ HR id r0 Hr) as [? | (source & msg & Ha & Hin)];
    [by left | right; eauto].
Qed.

(** ** Ended records *)
Lemma transition_ended answer f id claimID t r t' i row :
  transition answer f id claimID t = (r, t') -> keeps_record f ->
  t_rows t !! i = Some row ->
  (i = id -> o_locked_by row = Some claimID -> o_status (f row) = o_status row) ->
  exists row', t_rows t' !! i = Some row' /\ o_status row' = o_status row /\
    content row' = content row.
Proof.
  intros [-> | (row0 & Hl & Hlock & ->)]%transition_cases Hk Hi Hst; [eauto |].
  cbn. destruct (decide (i = id)) as [-> | Hne].
  - rewrite lookup_insert_eq. simplify_eq. eexists. split; [done |].
    split; [by apply Hst | by apply keeps_content].
  - rewrite lookup_insert_ne by done. eauto.
Qed.

Lemma claim_ended answer skip now claimID limit lease t r t' i row :
  Claim answer skip now claimID limit lease t = (r, t') -> owed row = false ->
  t_rows t !! i = Some row -> t_rows t' !! i = Some row.
Proof.
  intros HC Ho Hi.
  assert (forall u, t_rows (claimStatement skip now limit claimID u t).2 !! i = Some row) as Hc.
  { intros u. cbn. fold (lease_rows claimID u (chosen skip now limit t) (t_rows t)).
    rewrite lease_rows_out; [done |]. intros ([j row'] & Hj & Hin)%list_elem_of_fmap.
    cbn in Hj. subst j. destruct (chosen_spec _ _ _ _ _ _ Hin) as (Hl & He & _).
    assert (row' = row) as -> by congruence. unfold eligible, owed in *. by destruct (o_status row); rewrite ?andb_false_r in *. }
  revert HC. unfold Claim. repeat (case_match; [by intros [= _ <-] |]). unfold exec.
  specialize (Hc (now +! lease)). destruct answer; [| by intros [= _ <-] | by intros [= _ <-]].
  destruct (claimStatement _ _ _ _ _ t) as [cs t1]. by intros [= _ <-].
Qed.

(** What a step keeps of an ended record. *)
Definition stays (t t' : OutboxTable) (id : Z) (r : OutboxRow) : Prop :=
  (exists r', t_rows t' !! id = Some r' /\ o_status r' = o_status r /\ content r' = content r) \/
  (t_rows t' !! id = None /\ o_status r = Published).

Lemma step_ended s s' id r :
  reachable sha256 error_text error_type s -> sy_step sha256 error_text error_type s s' ->
  t_rows (sy_table s) !! id = Some r -> owed r = false ->
  stays (sy_table s) (sy_table s') id r.
Proof.
  intros HR Hstep Hr Ho. pose proof (reachable_inv _ _ _ _ HR) as Hinv.
  assert (stays (sy_table s) (sy_table s) id r) as Hsame by (left; eauto).
  destruct Hstep; cbn [sy_table with_table with_phase]; try exact Hsame.
  - apply insertOutbox_inv in H1 as (_ & _ & _ & ->). left. exists r. cbn.
    rewrite lookup_insert_ne; [done |]. intros <-.
    by rewrite (table_ok_fresh _ (inv_table _ _ _ _ Hinv)) in Hr.
  - apply purge_cases in H0 as [-> | (ids & -> & Hids)]; [exact Hsame | | done].
    destruct (decide (id ∈ ids)) as [Hin | Hn].
    + right. split; [| by apply (Hids id)]. cbn.
      destruct (foldr delete _ ids !! id) eqn:Hl; [| done]. by apply delete_all_lookup in Hl as [].
    + left. exists r. split; [| done]. by apply delete_all_lookup.
  - left. exists r. split; [by eapply claim_ended | done].
  - destruct (inv_processes _ _ _ _ Hinv _ _ H) as [_ _ Ht].
    erewrite tasks_scanning, <- app_assoc in Ht by exact H0.
    apply Forall_app in Ht as [_ [[_ _ (b & Hs & _) Hrow] _]%Forall_cons]. cbn in *.
    destruct (prog_step_table _ _ _ _ _ _ _ _ _ _ _ H1 Hs)
      as [-> | (f & answer & r' & Hk & _ & Hq & Ht & _)]; [exact Hsame |]. left.
    eapply transition_ended; [exact Ht | exact Hk | exact Hr |]. intros -> Hlock.
    destruct (Hrow r Hr) as [_ Hpub]. specialize (Hpub Hlock Hq). unfold owed in Ho.
    by rewrite Hpub in Ho.
  - left. eapply transition_ended; [exact H2 | apply rescheduled_keeps | exact Hr | done].
Qed.

(** A record that was published or failed has ended: however the system goes
    on, it keeps its status and its content, and only a published one is ever
    purged. *)
Theorem ended_record_stays s s' id r
    (HR : reachable sha256 error_text error_type s)
    (Hsteps : rtc (sy_step sha256 error_text error_type) s s')
    (Hr : t_rows (sy_table s) !! id = Some r) (Hst : o_status r = Published \/ o_status r = Failed) :
  (exists r', t_rows (sy_table s') !! id = Some r' /\ o_status r' = o_status r /\
     content r' = content r) \/
  o_status r = Published.
Proof.
  assert (owed r = false) as Ho by (unfold owed; by destruct Hst as [-> | ->]).
  clear Hst. revert r HR Hr Ho. induction Hsteps as [s | s s1 s' Hstep _ IH]; intros r HR Hr Ho.
  - left. eauto.
  - destruct (step_ended _ _ _ _ HR Hstep Hr Ho) as [(r1 & Hr1 & Hs1 & Hc1) | [_ ?]];
      [| by right].
    destruct (IH r1) as [(r' & Hr' & Hs' & Hc') | Hp].
    + by eapply reachable_step.
    + done.
    + unfold owed in *. by rewrite Hs1.
    + left. exists r'. split; [done |]. split; congruence.
    + right. congruence.
Qed.

(** A relay never runs more deliveries than its limit, and no two deliveries
    anywhere work on one record under one claim. *)
Theorem deliveries_bounded_and_distinct s i j p p' n m cq cq'
    (HR : reachable sha256 error_text error_type s)
    (Hi : sy_relays s !! i = Some p) (Hj : sy_relays s !! j = Some p')
    (Hn : tasks sha256 error_text error_type p !! n = Some cq)
    (Hm : tasks sha256 error_text error_type p' !! m = Some cq')
    (Hk : key cq.1 = key cq'.1) :
  slots_ok p /\ i = j /\ n = m.
Proof.
  apply reachable_inv in HR.
  destruct (inv_processes _ _ _ _ HR _ _ Hi) as [Hs Hnd _]. split; [done |].
  assert (forall q x c, tasks sha256 error_text error_type q !! x = Some c ->
    keys sha256 error_text error_type q !! x = Some (key c.1)) as Hkeys.
  { intros q x c Hx. unfold keys. by rewrite list_lookup_fmap, Hx. }
  destruct (decide (i = j)) as [-> | Hne].
  - split; [done |]. assert (p = p') as -> by congruence. eapply NoDup_lookup; [exact Hnd | by apply Hkeys |].
    rewrite Hk. by apply Hkeys.
  - exfalso. apply (inv_disjoint _ _ _ _ HR i j p p' (key cq.1) Hi Hj Hne).
    + by eapply list_elem_of_lookup_2, Hkeys.
    + apply (list_elem_of_lookup_2 _ m). rewrite (Hkeys _ _ _ Hm). f_equal. by symmetry.
Qed.
End Theorems.

(** * Backoff *)

(** The retry window doubles with every attempt up to its ceiling, for every
    attempt count: the shift never overflows into a negative window. *)
Theorem windowFor_exact base ceiling n
    (Hb : 0 < base <= ceiling) (Hc : in_int64 ceiling) (Hn : in_int64 n) :
  windowFor base ceiling n = Z.min ceiling (base * 2 ^ (Z.max 1 n - 1)).
Proof.
  unfold windowFor. destruct (Z.leb_spec base 0); [lia |].
  set (m := if n <? 1 then 1 else n).
  assert (m = Z.max 1 n) as -> by (unfold m; destruct (Z.ltb_spec n 1); lia).
  rewrite (wrap64_id (Z.max 1 n - 1)) by (unfold in_int64, min_int64, max_int64 in *; lia).
  set (k := Z.max 1 n - 1). assert (0 <= k) as Hk by lia. clearbody k.
  destruct (Z.leb_spec 64 k) as [Hge | Hlt]; cbn [orb].
  - assert (2 ^ 64 <= 2 ^ k) by (apply Z.pow_le_mono_r; lia).
    unfold in_int64, max_int64 in Hc. nia.
  - rewrite Z.shiftr_div_pow2, Z.shiftl_mul_pow2 by done.
    assert (0 < 2 ^ k) as Hp by lia.
    pose proof (Z.div_mod ceiling (2 ^ k) ltac:(lia)).
    pose proof (Z.mod_pos_bound ceiling (2 ^ k) Hp).
    destruct (Z.ltb_spec (ceiling / 2 ^ k) base).
    + nia.
    + rewrite wrap64_id; [nia |]. unfold in_int64, min_int64, max_int64 in *. nia.
Qed.

Lemma windowFor_exact_witness :
  windowFor 100 1000000 70 = 1000000 /\ windowFor 100 1000000 4 = 800.
Proof.
  split.
  - rewrite (windowFor_exact 100 1000000 70); [reflexivity | lia | |];
      unfold in_int64, min_int64, max_int64; lia.
  - rewrite (windowFor_exact 100 1000000 4); [reflexivity | lia | |];
      unfold in_int64, min_int64, max_int64; lia.
Defined.

(** * A run *)
Module Run.
#[local] Instance codec : ProtoCodec := {|
  proto_Marshal _ := Ok [1; 2]; proto_Unmarshal _ := Err (Opaque "proto")
|}.
Definition digest (bs : bytes) : bytes := bs.
Definition own (_ : error) : string := "own".
Definition type (_ : error) : string := "*errors.errorString".
Notation step := (sy_step digest own type).
Definition context : MessageContext :=
  mkMessageContext "c-1" "c-0" "00-0af7651916cd43dd8448eb211c80319c-b7ad6b7169203331-01" "".
Definition row : OutboxRow := {|
  o_message_id := "m-1"; o_message_type := "com.company.orders.order-placed.v1";
  o_schema_version := "type.googleapis.com/company.orders.event.v1.OrderPlaced";
  o_aggregate_type := "order"; o_aggregate_id := "order-1"; o_aggregate_version := 3;
  o_partition_key := "order-1"; o_destination := "orders.events"; o_payload := [10; 7];
  o_payload_hash := Sum digest [10; 7]; o_metadata := encodeMetadata context "";
  o_occurred_at := 100; o_available_at := 100; o_attempt_count := 0; o_status := Pending;
  o_locked_by := None; o_locked_until := None; o_published_at := None; o_last_error := None
|}%string.
Definition relay : Relay := mkRelay "/orders" 1 10 30 2 5 0 None.

Definition s0 : system := mkSystem (mkOutboxTable ∅ 1) [] ∅ ∅ ∅.
Definition t1 : OutboxTable := mkOutboxTable {[1 := row]} 2.
Definition s1 : system := mkSystem t1 [] ∅ (<[1 := row]> ∅) ∅.
Definition s2 : system :=
  mkSystem t1 [] ∅ (<[1 := row]> ∅) (<[0%nat := mkProcess relay false Idle]> ∅).
Definition c : Claimed := claimed_of "claim-1" (1, row).
Definition t3 : OutboxTable := mkOutboxTable {[1 := lease_row "claim-1" 230 row]} 2.
Definition claims : gset string := {["claim-1"%string]} ∪ ∅.
Definition p3 : phase := Scanning [c] [] (new_held [c]) false.
Definition at_phase (ph : phase) : process := mkProcess relay false ph.
Definition s3 : system :=
  mkSystem t3 [] claims (<[1 := row]> ∅) (<[0%nat := at_phase p3]> (sy_relays s2)).
Definition p4 : phase :=
  Scanning [] ([] ++ [(c, deliver digest own type relay c)]) (new_held [c]) false.
Definition s4 : system := with_phase s3 0%nat (at_phase p3) p4.
Definition marking : prog := OpMarkPublished 1 "claim-1" (settle dispositionPublished).
Definition p5 : phase := Scanning [] ([] ++ [(c, marking)]) (new_held [c]) false.
Definition log : list (string * bytes) := [("orders.events"%string, [1; 2])].
Definition s5 : system :=
  mkSystem t3 log claims (<[1 := row]> ∅) (<[0%nat := at_phase p5]> (sy_relays s4)).
Definition t6 : OutboxTable :=
  mkOutboxTable (<[1 := published_row 210 (lease_row "claim-1" 230 row)]> (t_rows t3)) 2.
Definition p6 : phase :=
  Scanning [] ([] ++ [(c, Ret (Delivered dispositionPublished None))]) (new_held [c]) false.
Definition s6 : system :=
  mkSystem t6 log claims (<[1 := row]> ∅) (<[0%nat := at_phase p6]> (sy_relays s5)).

Lemma step1 : step s0 s1.
Proof. apply (sy_enqueue digest own type s0 row t1); vm_compute; reflexivity. Qed.
Lemma step2 : step s1 s2.
Proof. apply (sy_start digest own type s1 0%nat relay); vm_compute; reflexivity. Qed.
Lemma step3 : step s2 s3.
Proof.
  apply (sy_claim digest own type s2 0%nat (mkProcess relay false Idle) "claim-1" Applied
    (fun _ => false) 200 (Ok [c]) t3 false);
    [reflexivity | reflexivity | reflexivity | set_solver | vm_compute; reflexivity].
Qed.
Lemma s3_phase : sy_relays s3 !! 0%nat = Some (at_phase p3).
Proof. unfold s3. cbn [sy_relays]. by rewrite lookup_insert_eq. Qed.
Lemma step4 : step s3 s4.
Proof.
  exact (sy_spawn digest own type s3 0%nat (at_phase p3) c [] [] (new_held [c]) false
    s3_phase eq_refl eq_refl).
Qed.

Lemma publishing : exists k,
  deliver digest own type relay c = OpPublish "orders.events" [1; 2] k /\ k (Ok ()) = marking.
Proof.
  unfold deliver.
  assert (assembled digest c (r_Source relay) = Ok [1; 2]) as -> by (vm_compute; reflexivity).
  eexists. split; reflexivity.
Qed.
Lemma s4_phase : sy_relays s4 !! 0%nat = Some (at_phase p4).
Proof. unfold s4, with_phase. cbn [sy_relays]. by rewrite lookup_insert_eq. Qed.
Lemma step5 : step s4 s5.
Proof.
  apply (sy_call digest own type s4 0%nat (at_phase p4) c (deliver digest own type relay c)
    marking [] [] [] (new_held [c]) false t3 log s4_phase eq_refl).
  destruct publishing as (k & -> & <-). exact (step_publish_ok _ _ _ _ _ k).
Qed.
Lemma s5_phase : sy_relays s5 !! 0%nat = Some (at_phase p5).
Proof. unfold s5. cbn [sy_relays]. by rewrite lookup_insert_eq. Qed.
Lemma step6 : step s5 s6.
Proof.
  apply (sy_call digest own type s5 0%nat (at_phase p5) c marking
    (Ret (Delivered dispositionPublished None)) [] [] [] (new_held [c]) false t6 log
    s5_phase eq_refl).
  apply (step_mark _ _ _ _ _ _ (settle dispositionPublished) Applied 210 (Ok 1)).
  vm_compute. reflexivity.
Qed.

Lemma reachable4 : reachable digest own type s4.
Proof.
  eapply reachable_step; [| exact step4]. eapply reachable_step; [| exact step3].
  eapply reachable_step; [| exact step2]. eapply reachable_step; [| exact step1].
  by constructor.
Qed.
Lemma reachable6 : reachable digest own type s6.
Proof.
  eapply reachable_step; [| exact step6]. eapply reachable_step; [exact reachable4 | exact step5].
Qed.
End Run.

Definition run_published : OutboxRow := published_row 210 (lease_row "claim-1" 230 Run.row).

Lemma published_was_accepted_witness :
  exists source msg,
    assembled (C := Run.codec) Run.digest (claimed_of "" (0, run_published)) source = Ok msg /\
    (o_destination run_published, msg) ∈ sy_accepted Run.s6.
Proof.
  apply (published_was_accepted (C := Run.codec) Run.digest Run.own Run.type Run.s6 1
    run_published); [exact Run.reachable6 | vm_compute; reflexivity | reflexivity].
Defined.

Lemma no_message_lost_witness :
  (exists r, t_rows (sy_table Run.s6) !! 1 = Some r /\ content r = content Run.row) \/
  (exists source msg,
     assembled (C := Run.codec) Run.digest (claimed_of "" (0, Run.row)) source = Ok msg /\
     (o_destination Run.row, msg) ∈ sy_accepted Run.s6).
Proof.
  apply (no_message_lost (C := Run.codec) Run.digest Run.own Run.type Run.s6 1 Run.row);
    [exact Run.reachable6 | vm_compute; reflexivity].
Defined.

Lemma ended_record_stays_witness :
  (exists r', t_rows (sy_table Run.s6) !! 1 = Some r' /\
     o_status r' = o_status run_published /\ content r' = content run_published) \/
  o_status run_published = Published.
Proof.
  apply (ended_record_stays (C := Run.codec) Run.digest Run.own Run.type Run.s6 Run.s6 1
    run_published);
    [exact Run.reachable6 | reflexivity | vm_compute; reflexivity | left; reflexivity].
Defined.

Lemma deliveries_bounded_and_distinct_witness :
  slots_ok (Run.at_phase Run.p4) /\ 0%nat = 0%nat /\ 0%nat = 0%nat.
Proof.
  apply (deliveries_bounded_and_distinct (C := Run.codec) Run.digest Run.own Run.type Run.s4
    0%nat 0%nat (Run.at_phase Run.p4) (Run.at_phase Run.p4) 0%nat 0%nat
    (Run.c, deliver (C := Run.codec) Run.digest Run.own Run.type Run.relay Run.c)
    (Run.c, deliver (C := Run.codec) Run.digest Run.own Run.type Run.relay Run.c));
    [exact Run.reachable4 | exact Run.s4_phase | exact Run.s4_phase | reflexivity | reflexivity
    | reflexivity].
Defined.
