(* ===== verification/ConsumerTheorems.v ===== *)
(** What the consumer adapter promises: which gestures a delivery meets, in which
    order, and the context its handler runs in. *)

From S2P Require Import Prelude DomainKernel Errors Ports Envelope Consumer.

(** * Watching the collaborators

    A collaborator is watched by writing down each call with its answer; the
    collaborators themselves are arbitrary. *)
Inductive event :=
| Handled (answer : call (Disposition * option error))
| Quarantined (item : Contained) (answer : call (option error))
| Acked (answer : call (option error))
| Released (answer : call (option error)).

Section Watched.
Context {W : Type}.
Definition watched := (W * list event)%type.

Definition watch {A} (note : A -> event) (f : W -> A * W) : watched -> A * watched :=
  fun wl => let '(a, w') := f wl.1 in (a, (w', wl.2 ++ [note a])).
Definition unwatched {A} (f : W -> A * W) : watched -> A * watched :=
  fun wl => let '(a, w') := f wl.1 in (a, (w', wl.2)).

Definition watch_ack (ack : Acknowledger W) : Acknowledger watched :=
  mkAcknowledger (fun ctx => watch Acked (Ack ack ctx))
    (fun ctx => watch Released (Release ack ctx)).
Definition watch_containment (q : Containment W) : Containment watched :=
  mkContainment (fun ctx item => watch (Quarantined item) (Quarantine q ctx item)).
Definition watch_consumer (c : Consumer W) : Consumer watched :=
  mkConsumer (k_Name c) (k_MaxAttempts c)
    (fun ctx attempt receipt env => watch Handled (k_Handle c ctx attempt receipt env))
    (k_Accepts c) (watch_containment (k_Containment c)) (k_Timeout c) (k_Boundary c)
    (k_Locale c) (k_Channel c).
Definition watch_environment (e : Environment W) : Environment watched :=
  mkEnvironment (unwatched (ev_Now e)) (unwatched (ev_Wall e)) (unwatched (ev_NewAttemptID e))
    (ev_Inject e).

(** ** The gestures of a delivery *)

(** Quarantined as transported, and acknowledged only if that succeeded. *)
Definition quarantine_trace (c : Consumer W) (d : Delivery) (es : list event) : Prop :=
  exists item, con_Envelope item = d_Raw d /\ con_Consumer item = k_Name c /\
    ((exists answer, answer <> Returned None /\ es = [Quarantined item answer]) \/
     (exists answer, es = [Quarantined item (Returned None); Acked answer])).

(** The disposition a handler's answer amounts to: a panic is a terminal failure. *)
Definition disposition_of (answer : call (Disposition * option error)) : Disposition :=
  match answer with Returned (d, _) => d | Raised => R1D4 end.
Definition exhausted (c : Consumer W) (d : Delivery) : bool :=
  (0 <? k_MaxAttempts c) && (k_MaxAttempts c <=? d_Attempt d).

Definition handled_trace (c : Consumer W) (d : Delivery) (answer : call (Disposition * option error))
    (es : list event) : Prop :=
  match disposition_of answer with
  | R1D1 | R1D2 | R2 | R3 => exists acked, es = [Acked acked]
  | R1D3 => if exhausted c d then quarantine_trace c d es
            else exists released, es = [Released released]
  | R1D4 | R4 => quarantine_trace c d es
  | DispositionNone => es = []
  end.

(** What the delivery is, before any handler. *)
Inductive admission := AdmissionInvalid | AdmissionPanicked | AdmissionRefused
  | AdmissionDiscarded | AdmissionTaken (env : Envelope).
Definition admission_of `{C : ProtoCodec} (c : Consumer W) (d : Delivery) : admission :=
  match Consumer_Validate c with
  | Err _ => AdmissionInvalid
  | _ =>
      match Unmarshal (d_Raw d) with
      | Ok env =>
          if negb (admits (k_Boundary c) (env_Source env)) then AdmissionRefused
          else if negb (member_of (env_Type env) (ch_Carries (k_Channel c)))
          then AdmissionRefused
          else if negb (member_of (env_Type env) (k_Accepts c)) then AdmissionDiscarded
          else AdmissionTaken env
      | Err _ => AdmissionRefused
      | Panic _ => AdmissionPanicked
      end
  end.

Definition delivery_trace `{C : ProtoCodec} (c : Consumer W) (d : Delivery) (es : list event)
  : Prop :=
  match admission_of c d with
  | AdmissionInvalid | AdmissionPanicked => es = []
  | AdmissionRefused => quarantine_trace c d es
  | AdmissionDiscarded => exists acked, es = [Acked acked]
  | AdmissionTaken _ =>
      quarantine_trace c d es \/
      exists answer es', es = Handled answer :: es' /\ handled_trace c d answer es'
  end.

Lemma recovered_watch note (g : gesture) (w : W) l :
  exists answer w' err,
    recovered (watch note g) (w, l) = (err, (w', l ++ [note answer])) /\
    (err = None <-> answer = Returned None).
Proof.
  unfold recovered, watch. cbn. destruct (g w) as [[err |] w'] eqn:Hg; cbn.
  - exists (Returned err), w', err. split; [done |]. split; [by intros -> | by intros [= ->]].
  - exists Raised, w', (Some gesture_panicked). done.
Qed.

Lemma contain_watch c d ctx ack outcome item cause (w : W) l r w' l' :
  contain (watch_consumer c) ctx (watch_ack ack) outcome item cause (w, l) = (r, (w', l')) ->
  MechanismFor (con_Reason item) = Some MechanismQuarantine ->
  con_Envelope item = d_Raw d -> con_Consumer item = k_Name c ->
  exists es, l' = l ++ es /\ quarantine_trace c d es.
Proof.
  unfold contain. intros Hc HM He Hn. rewrite HM in Hc. cbn [k_Containment watch_consumer
    watch_containment Quarantine Ack watch_ack] in Hc.
  destruct (recovered_watch (Quarantined item) (Quarantine (k_Containment c) ctx item) w l)
    as (answer & w1 & err & Hq & Ha). rewrite Hq in Hc.
  destruct err as [e |].
  - injection Hc as _ _ <-. eexists. split; [done |]. exists item. split; [done |].
    split; [done |]. left. exists answer. split; [| done]. intros ->.
    destruct Ha as [_ Ha]. discriminate (Ha eq_refl).
  - destruct Ha as [Ha _]. rewrite (Ha eq_refl) in *.
    destruct (recovered_watch Acked (Ack ack ctx) w1 (l ++ [Quarantined item (Returned None)]))
      as (acked & w2 & err & Hk & _). rewrite Hk in Hc. injection Hc as _ _ <-.
    exists [Quarantined item (Returned None); Acked acked]. split; [by rewrite <- app_assoc |].
    exists item. split; [done |]. split; [done |]. right. by exists acked.
Qed.

Lemma gesture_watch note (g : gesture) (w : W) l err w' l' :
  recovered (watch note g) (w, l) = (err, (w', l')) -> exists a, l' = l ++ [note a].
Proof.
  destruct (recovered_watch note g w l) as (a & w1 & e & -> & _). intros [= _ _ <-]. eauto.
Qed.

Section Watching.
Context `{C : ProtoCodec} (sha256 : bytes -> bytes) (e : Environment W).

Lemma admitted_watch c ctx d env attempt ack (w : W) l r w' l' :
  admitted sha256 (watch_environment e) (watch_consumer c) ctx d env attempt (watch_ack ack) (w, l)
    = (r, (w', l')) ->
  exists es, l' = l ++ es /\
    (quarantine_trace c d es \/
     exists answer es', es = Handled answer :: es' /\ handled_trace c d answer es').
Proof.
  unfold admitted, WithTimeout, watch_environment, unwatched. cbn [ev_Now ev_Wall ev_Inject fst snd].
  destruct (ev_Now e w) as [now w1], (ev_Inject e ctx) as [tp ts]. cbn [fst snd].
  destruct (ev_Wall e w1) as [wall w2]. cbn [fst snd].
  match goal with |- context [executionOf ?k ?x ?y ?z] =>
    destruct (executionOf k x y z) as [execution | err | p]
  end.
  - unfold handle. cbn [k_Handle watch_consumer]. unfold watch at 1. cbn [fst snd].
    destruct (k_Handle c _ _ _ _ w2) as [answer w3].
    assert (forall reason disposition handleErr outcome,
      contain (watch_consumer c) (WithMessageContext ctx (mkMessageContext (env_CorrelationID env)
        (env_ID env) tp ts)) (watch_ack ack) (withReason outcome reason)
        (contained (watch_consumer c) (mkReceipt (k_Name c) (env_ID env) (env_Type env)
           (Sum sha256 (env_Payload env)) now 0 0) (d_Raw d) reason disposition handleErr)
        handleErr (w3, l ++ [Handled answer]) = (r, (w', l')) ->
      MechanismFor reason = Some MechanismQuarantine ->
      exists es', l' = l ++ Handled answer :: es' /\ quarantine_trace c d es') as Hq.
    { intros reason disposition handleErr outcome Hc HM.
      apply (contain_watch c d) in Hc as (es & -> & Ht); [| done ..].
      exists es. by rewrite <- app_assoc. }
    cbn [k_MaxAttempts k_Name watch_consumer] in *.
    destruct answer as [[disposition handleErr] |].
    + destruct disposition; cbn [fst snd];
        try (destruct (recovered _ _) as [err' [w4 l4]] eqn:Hg;
             apply gesture_watch in Hg as [a ->]; intros [= _ _ <-];
             eexists; rewrite <- app_assoc; split; [done |]; right;
             do 2 eexists; split; [done | by exists a]).
      * intros [= _ _ <-]. eexists. split; [done |]. right. by do 2 eexists.
      * destruct (_ && _) eqn:Hx.
        -- intros Hc. apply Hq in Hc as (es & -> & Ht); [| done].
           eexists. split; [done |]. right. do 2 eexists. split; [done |]. unfold handled_trace.
           cbn. by unfold exhausted; rewrite Hx.
        -- destruct (recovered _ _) as [err' [w4 l4]] eqn:Hg.
           apply gesture_watch in Hg as [a ->]. intros [= _ _ <-]. rewrite <- app_assoc.
           eexists. split; [done |]. right. do 2 eexists. split; [done |]. unfold handled_trace.
           cbn. unfold exhausted. rewrite Hx. by exists a.
      * intros Hc. apply Hq in Hc as (es & -> & Ht); [| done].
        eexists. split; [done |]. right. by do 2 eexists.
      * intros Hc. apply Hq in Hc as (es & -> & Ht); [| done].
        eexists. split; [done |]. right. by do 2 eexists.
    + intros Hc. change (Classify handler_panicked) with R1D4 in Hc. cbn [fst snd] in Hc.
      apply Hq in Hc as (es & -> & Ht); [| done].
      eexists. split; [done |]. right. by do 2 eexists.
  - intros Hc. apply (contain_watch c d) in Hc as (es & -> & Ht); [| done ..]. eauto.
  - intros Hc. apply (contain_watch c d) in Hc as (es & -> & Ht); [| done ..]. eauto.
Qed.
End Watching.
End Watched.
Arguments watched : clear implicits.

Lemma contain_gestures {W} c d ctx ack outcome item cause (w : W) w' es :
  (contain (watch_consumer c) ctx (watch_ack ack) outcome item cause (w, [])).2 = (w', es) ->
  MechanismFor (con_Reason item) = Some MechanismQuarantine ->
  con_Envelope item = d_Raw d -> con_Consumer item = k_Name c -> quarantine_trace c d es.
Proof.
  destruct (contain _ _ _ _ _ _ _) as [r [w1 l1]] eqn:Hc. cbn. intros [= -> ->] HM He Hn.
  by apply (contain_watch c d) in Hc as (es' & -> & Ht).
Qed.

(** C36: The broker hears of a delivery only after everything else, and hears one
    thing: an acknowledgment after a handler that settled the message or after a
    quarantine that kept it as transported, a release only for a retryable
    failure with attempts left.  A quarantine that fails, a defective handler
    and a consumer that is not configured leave the message unconfirmed; a
    refused message never reaches the handler. *)
Theorem Consume_gestures {W} `{C : ProtoCodec} sha256 (e : Environment W) c ctx d ack (w : W) r w' es
    (HC : Consume sha256 (watch_environment e) (watch_consumer c) ctx d (watch_ack ack) (w, [])
            = (r, (w', es))) :
  delivery_trace c d es.
Proof.
  unfold Consume, returned in HC. unfold delivery_trace, admission_of.
  change (Consumer_Validate (watch_consumer c)) with (Consumer_Validate c) in HC.
  destruct (Consumer_Validate c); [| by injection HC as _ _ <- |];
    (destruct (Unmarshal (d_Raw d)) as [env | err | p]; [| | by injection HC as _ _ <-]).
  all: unfold refuse, discard, watch_environment, unwatched in HC;
    cbn [k_Boundary k_Channel k_Accepts watch_consumer ev_Now ev_NewAttemptID fst snd] in HC.
  2, 4: destruct (ev_Now e w) as [now w1]; injection HC as _ HC;
    by apply (contain_gestures c d) in HC.
  all: destruct (admits _ _); cbn [negb] in HC |- *;
    [| destruct (ev_Now e w) as [now w1]; injection HC as _ HC;
       by apply (contain_gestures c d) in HC].
  all: destruct (member_of (env_Type env) (ch_Carries _)); cbn [negb] in HC |- *;
    [| destruct (ev_Now e w) as [now w1]; injection HC as _ HC;
       by apply (contain_gestures c d) in HC].
  all: destruct (member_of (env_Type env) (k_Accepts c)); cbn [negb] in HC |- *.
  2, 4: destruct (recovered _ _) as [err [w1 l1]] eqn:Hg; apply gesture_watch in Hg as [acked ->];
    destruct err; injection HC as _ _ <-; by exists acked.
  all: destruct (ev_NewAttemptID e w) as [id w1]; cbn [fst snd] in HC;
    destruct (admitted _ _ _ _ _ _ _ _ _) as [o [w2 l2]] eqn:Ha; injection HC as _ _ <-;
    by apply admitted_watch in Ha as (es' & -> & Ht).
Qed.

(** * The handler's context *)
Lemma first_empty_none l : first_empty l = None -> Forall (fun nv => nv.2 <> ""%string) l.
Proof.
  induction l as [| [n v] l IH]; [constructor |]. cbn.
  destruct (String.eqb_spec v ""); [done |]. intros Hl. constructor; [done | by apply IH].
Qed.

Lemma decoded_present `{C : ProtoCodec} raw env :
  Unmarshal raw = Ok env ->
  env_CorrelationID env <> ""%string /\ env_CausationID env <> ""%string /\
  env_TraceParent env <> ""%string /\ present_empty (env_TenantID env) = false.
Proof.
  unfold Unmarshal. destruct (proto_Unmarshal raw) as [ce | |]; [| done ..].
  intros [[HP _]%validate_split _]%Decode_inv. unfold validatePresence in HP.
  destruct (first_empty _) eqn:Hf; [done |]. case_bool_decide; [done |].
  destruct (present_empty (env_TenantID env)) eqn:Ht; [done |].
  apply first_empty_none in Hf. unfold required_attributes in Hf. decompose_Forall_hyps.
  done.
Qed.

(** A consumption always has a context of its own: whatever was decoded, the
    handler runs with the chain and the tenant of the envelope, the consumer's
    locale and deadline, and no subject, since where a message comes from is not
    who is asking. *)
Theorem consumption_context {W} `{C : ProtoCodec} (c : Consumer W) ctx raw env attempt limit
    (HU : Unmarshal raw = Ok env) (HV : Consumer_Validate c = Ok ())
    (Hid : at_RequestID attempt <> ""%string) (Hl : ctx_Deadline ctx = Some limit)
    (Hp : 0 < limit) :
  exists ec, executionOf c ctx env attempt = Ok ec /\
    Subject ec = None /\ Permissions ec = None /\ Tenant ec = env_TenantID env /\
    CausationID ec = Some (env_CausationID env) /\ correlationID ec = env_CorrelationID env /\
    requestID ec = at_RequestID attempt /\ deadline ec = limit /\ locale ec = k_Locale c.
Proof.
  apply decoded_present in HU as (Hco & Hca & Htp & Hte).
  assert (k_Locale c <> ""%string) as Hlo.
  { unfold Consumer_Validate, missing_declaration in HV. intros Hx. rewrite Hx in HV.
    by destruct (String.eqb (k_Name c) ""), (k_Timeout c <=? 0), (declared (k_Boundary c)). }
  unfold executionOf, NewExecutionContext. cbn [spec_RequestID spec_CorrelationID
    spec_CausationID spec_TraceContext spec_Subject spec_Tenant spec_Permissions spec_Deadline
    spec_Locale]. rewrite Hl. cbn [default].
  apply String.eqb_neq in Hid, Hco, Hca, Htp, Hlo.
  rewrite Hid, Hco, Hca, Htp, Hlo, Hte. cbn [present_empty]. rewrite Hca.
  change (id limit) with limit.
  destruct (Z.leb_spec limit 0); [lia |]. eexists. split; [reflexivity |].
  unfold Subject, Permissions, Tenant, CausationID. cbn.
  destruct (env_TenantID env); cbn; repeat split.
Qed.

(** * Witnesses *)
Module Watch.
#[local] Instance codec : ProtoCodec := {|
  proto_Marshal _ := Ok [1]; proto_Unmarshal _ := Ok sample_event
|}.
Definition ack : Acknowledger unit :=
  mkAcknowledger (fun _ w => (Returned None, w)) (fun _ w => (Returned None, w)).
Definition containment : Containment unit := mkContainment (fun _ _ w => (Returned None, w)).
Definition environment : Environment unit :=
  mkEnvironment (fun w => (100, w)) (fun w => (100, w)) (fun w => ("r-1"%string, w))
    (fun _ => (""%string, ""%string)).
Definition handler (answer : call (Disposition * option error)) : Handler unit :=
  fun _ _ _ _ w => (answer, w).
Definition consumer (answer : call (Disposition * option error)) : Consumer unit :=
  mkConsumer "reservations" 3 (handler answer) ["com.company.orders.order-placed.v1"%string]
    containment 30 (mkBoundary TransportVerified ["/orders"%string]) "pt-BR"
    (mkChannel "orders" "reservations" ["com.company.orders.order-placed.v1"%string]).
Definition delivery (n : Z) : Delivery := mkDelivery [1; 2; 3] n.
Definition events (answer : call (Disposition * option error)) (n : Z) : list event :=
  (Consume (fun bs => bs) (watch_environment environment) (watch_consumer (consumer answer))
     Background (delivery n) (watch_ack ack) (tt, [])).2.2.
Definition late : error := NewFailure TransientDependency true None.
Example retried : events (Returned (R1D3, Some late)) 2 =
  [Handled (Returned (R1D3, Some late)); Released (Returned None)].
Proof. vm_compute. reflexivity. Qed.
Example panicking : events Raised 1 =
  [Handled Raised;
   Quarantined (mkContained "reservations" "m-1" ReasonTerminalFailure [1; 2; 3] "Unexpected" 100)
     (Returned None);
   Acked (Returned None)].
Proof. vm_compute. reflexivity. Qed.
End Watch.

Lemma Consume_gestures_witness :
  delivery_trace (C := Watch.codec) (Watch.consumer (Returned (R1D3, Some Watch.late)))
    (Watch.delivery 3) (Watch.events (Returned (R1D3, Some Watch.late)) 3).
Proof.
  apply (Consume_gestures (C := Watch.codec) (fun bs => bs) Watch.environment
    (Watch.consumer (Returned (R1D3, Some Watch.late))) Background (Watch.delivery 3) Watch.ack tt
    (Consume (C := Watch.codec) (fun bs => bs) (watch_environment Watch.environment)
       (watch_consumer (Watch.consumer (Returned (R1D3, Some Watch.late)))) Background
       (Watch.delivery 3) (watch_ack Watch.ack) (tt, [])).1 tt).
  vm_compute. reflexivity.
Defined.

Lemma consumption_context_witness :
  exists ec, executionOf (Watch.consumer Raised)
      (mkCtx None (Some 130) None None None None None None None None) sample_envelope
      (mkAttempt "r-1" 1) = Ok ec /\
    Subject ec = None /\ Permissions ec = None /\ Tenant ec = Some "acme"%string /\
    CausationID ec = Some "c-0"%string /\ correlationID ec = "c-1"%string /\
    requestID ec = "r-1"%string /\ deadline ec = 130 /\ locale ec = "pt-BR"%string.
Proof.
  apply (consumption_context (C := Watch.codec) (Watch.consumer Raised)
    (mkCtx None (Some 130) None None None None None None None None) [1; 2; 3] sample_envelope
    (mkAttempt "r-1" 1) 130);
    [vm_compute; reflexivity | vm_compute; reflexivity | discriminate | reflexivity | lia].
Defined.
