(* ===== verification/OrdersTheorems.v ===== *)
(** What the orders context promises: its decisions, its encodings, and the
    history of an order through any sequence of commands. *)

From S2P Require Import Prelude Regex DomainKernel Errors Ports Interfaces Codec OutboundKey Memory Application AppMemory ServiceRuns Fixture Envelope Outbox Orders.

(** * Decisions *)
Lemma Order_AddItem_accepted cmd o o' a evs :
  Order_AddItem cmd o = (o', inl (Accept a evs)) ->
  o_status o = Open /\ len (o_items o) < o_itemLimit o /\
  o' = mkOrder (o_id o) (o_status o) (o_items o ++ [mkItem (ai_SKU cmd) (ai_Quantity cmd)])
         (o_itemLimit o) /\
  evs = [EvItemAdded (mkItemAdded (o_id o) (ai_SKU cmd) (ai_Quantity cmd) (ai_At cmd))] /\
  a = mkItemAccepted (o_id o) (len (o_items o) + 1).
Proof.
  unfold Order_AddItem, DecideOver, clone. cbn.
  destruct (Z.eqb_spec (o_status o) Open) as [Ho | _]; cbn; [| done].
  destruct (Z.ltb_spec (o_itemLimit o) (len (o_items o) + 1)); cbn; [done |].
  unfold Accept. intros [= <- <- <-]. rewrite len_app. repeat split; [done | lia].
Qed.

Lemma Order_Place_accepted cmd o o' a evs :
  Order_Place cmd o = (o', inl (Accept a evs)) ->
  o_status o = Open /\ o_items o <> [] /\
  o' = mkOrder (o_id o) Placed (o_items o) (o_itemLimit o) /\
  evs = [EvOrderPlaced (mkOrderPlaced (o_id o) (len (o_items o)) (po_At cmd))].
Proof.
  unfold Order_Place, DecideOver, clone. cbn.
  destruct (Z.eqb_spec (o_status o) Open) as [Ho | _]; cbn; [| done].
  destruct (o_items o); cbn; [done |]. unfold Accept. intros [= <- _ <-]. done.
Qed.

(** A rejection of either decision, with its code, exactly when it happens. *)
Lemma Order_rejected o :
  (forall cmd o' r, Order_AddItem cmd o = (o', inr r) ->
     o' = o /\ (rej_code r = CodeOrderNotOpen /\ o_status o <> Open \/
                rej_code r = CodeOrderItemLimitExceeded /\ o_status o = Open /\
                o_itemLimit o <= len (o_items o))) /\
  (forall cmd o' r, Order_Place cmd o = (o', inr r) ->
     o' = o /\ (rej_code r = CodeOrderNotOpen /\ o_status o <> Open \/
                rej_code r = CodeOrderEmpty /\ o_status o = Open /\ o_items o = [])).
Proof.
  split; intros cmd o' r; unfold Order_AddItem, Order_Place, DecideOver, clone, Refuse; cbn.
  - destruct (Z.eqb_spec (o_status o) Open); cbn; [| intros [= <- <-]; auto].
    destruct (Z.ltb_spec (o_itemLimit o) (len (o_items o) + 1)); cbn; [| done].
    intros [= <- <-]. split; [done |]. right. repeat split; [done | lia].
  - destruct (Z.eqb_spec (o_status o) Open); cbn; [| intros [= <- <-]; auto].
    destruct (o_items o) as [| i items] eqn:Hi; cbn; [intros [= <- <-]; auto | done].
Qed.

(** * Codecs *)
#[export] Instance itemAcceptedCodec_laws :
  CodecLaws itemAcceptedCodec (fun r => string_fits (acc_Order r) /\ in_int64 (acc_Items r)).
Proof.
  split.
  - intros e [o n]. cbn [codec_Encode itemAcceptedCodec acc_Order acc_Items].
    by rewrite enc_Int_app, (enc_Int_app (enc_String [] o)), enc_String_app, app_assoc.
  - intros [o n] rest [Ho Hn]. cbn [codec_Encode codec_Decode itemAcceptedCodec acc_Order acc_Items] in *.
    by rewrite enc_Int_app, <- app_assoc, dec_String_enc, dec_Int_enc.
Qed.
#[export] Instance placedCodec_laws :
  CodecLaws placedCodec (fun r => string_fits (placed_Order r)).
Proof.
  split.
  - intros e [o]. apply enc_String_app.
  - intros [o] rest Ho. cbn in *. by rewrite dec_String_enc.
Qed.

(** * The service over the in-memory realization *)
Section Orders.
Context {Any X : Type} (t : Table Any Snapshot) {laws : TableLaws t}.
Notation W := (World Any Event X).

(** The resources the composition root binds to a transaction. *)
Definition bind_orders (id : loc) : Resources W :=
  mkResources (repo_at t id) (tx_Outbox id) (CommandInbox id CommandConsumer).

(** The reader of a query answers without moving the store. *)
Class OrdersService (s : Service W) : Prop := {
  os_uow : sv_UoW s = NewUnitOfWork bind_orders;
  os_surroundings : Surroundings (executor s);
  os_reader : forall ctx id, Confined frame (reader_Load (sv_Reader s) ctx id)
}.
Context (s : Service W) {Hs : OrdersService s}.
#[local] Existing Instance os_surroundings.

Context (owner : OrderID -> TenantID).

(** What can happen between two looks at the store: a call of the service under
    any carrier, however it ends, or anything that is not this table's. *)
Inductive orders_step : W -> W -> Prop :=
| step_AddItem ctx cmd w r w' :
    belongs owner ctx (in_Order cmd) -> Service_AddItem s ctx cmd w = (r, w') -> orders_step w w'
| step_PlaceOrder ctx cmd w r w' :
    belongs owner ctx (in_PlacedOrder cmd) -> Service_PlaceOrder s ctx cmd w = (r, w') -> orders_step w w'
| step_FindOrder ctx id w r w' : Service_FindOrder s ctx id w = (r, w') -> orders_step w w'
| step_else w w' : world_data w' = world_data w -> orders_step w w'.

(** ** The history of an order *)
Definition item_event (o : OrderID) (line : Item * Instant) : Event :=
  EvItemAdded (mkItemAdded o (item_SKU line.1) (item_Quantity line.1) line.2).
Definition placed_events (o : OrderID) (items : Z) (placed : option Instant) : list Event :=
  match placed with None => [] | Some at_ => [EvOrderPlaced (mkOrderPlaced o items at_)] end.
Definition event_at (e : Event) : Instant :=
  match e with EvItemAdded e => ia_At e | EvOrderPlaced e => op_At e end.


(** The lines an order took and the instant it was placed at account for both
    its entries and its row. *)
Definition order_history (limit : Z) (o : OrderID) (es : list (OutboxEntry Event))
    (row : option (Snapshot * Version)) : Prop :=
  exists lines placed,
    map ent_Event es = map (item_event o) lines ++ placed_events o (len lines) placed /\
    map ent_AggregateVersion es = versions (length es) /\
    map ent_OccurredAt es = map (fun e => event_at (ent_Event e)) es /\
    (lines = [] -> placed = None) /\ (lines <> [] -> len lines <= limit) /\
    row = match lines with
          | [] => None
          | _ => Some (mkSnapshot o (if placed then Placed else Open) limit lines.*1,
                       wrapu64 (len es))
          end.

Lemma history_empty limit o : order_history limit o [] None.
Proof. by exists [], None. Qed.

Lemma history_item limit o es row agg v agg' a evs sku quantity ctx identity ids :
  order_history limit o es row ->
  (exists sn, row = Some (sn, v) /\ agg = FromSnapshot sn) \/
    (row = None /\ agg = NewOrder o limit /\ v = 0) ->
  Order_AddItem (mkAddItem sku quantity (OccurredAt identity)) agg = (agg', inl (Accept a evs)) ->
  1 <= len ids ->
  order_history limit o (es ++ entries_for ctx identity (origin o) (wrapu64 (v + 1)) ids evs)
    (Some (Order_Snapshot agg', wrapu64 (v + 1))).
Proof.
  intros (lines & placed & He & Hv & Ha & Hp & Hl & Hr) Hload Hadd Hids.
  apply Order_AddItem_accepted in Hadd as (Ho & Hlim & -> & -> & _).
  assert (agg = mkOrder o Open lines.*1 limit /\ placed = None /\ v = wrapu64 (len es))
    as (-> & -> & ->).
  { destruct Hload as [(sn & Hrow & ->) | (Hrow & -> & ->)]; rewrite Hrow in Hr.
    - destruct lines as [| l lines]; [done |]. injection Hr as -> ->. destruct placed; [done |]. done.
    - destruct lines; [| done]. rewrite (Hp eq_refl) in *. destruct es; done. }
  clear Hload Ho.
  cbn [o_id o_items o_itemLimit ai_SKU ai_Quantity ai_At] in *. one_entry Hids.
  exists (lines ++ [(mkItem sku quantity, OccurredAt identity)]), None.
  rewrite !map_app, He, Hv, Ha, length_app, versions_snoc. cbn. rewrite !app_nil_r.
  repeat split.
  - by rewrite wrapu64_succ.
  - intros _. rewrite len_app. unfold len in *. rewrite length_fmap in Hlim. cbn in *. lia.
  - destruct lines; cbn; rewrite ?fmap_app, wrapu64_succ, len_app; done.
Qed.

Lemma history_place limit o es row sn v agg' a evs ctx identity ids :
  order_history limit o es row -> row = Some (sn, v) ->
  Order_Place (mkPlaceOrder (OccurredAt identity)) (FromSnapshot sn) = (agg', inl (Accept a evs)) ->
  1 <= len ids ->
  order_history limit o (es ++ entries_for ctx identity (origin o) (wrapu64 (v + 1)) ids evs)
    (Some (Order_Snapshot agg', wrapu64 (v + 1))).
Proof.
  intros (lines & placed & He & Hv & Ha & Hp & Hl & Hr) -> Hplace Hids.
  apply Order_Place_accepted in Hplace as (Ho & _ & -> & ->).
  destruct lines as [| l lines]; [done |]. injection Hr as -> ->. destruct placed; [done |].
  cbn [FromSnapshot o_id o_items o_itemLimit s_ID s_Items s_ItemLimit s_Status] in *.
  assert (len (l.1 :: list_fmap _ _ fst lines) = len (l :: lines)) as ->
    by (unfold len; cbn; do 2 f_equal; apply length_fmap).
  one_entry Hids. exists (l :: lines), (Some (OccurredAt identity)).
  rewrite !map_app, He, Hv, Ha, length_app, versions_snoc. cbn [placed_events]. rewrite app_nil_r.
  repeat split; try done.
  - cbn. by rewrite wrapu64_succ.
  - cbn. by rewrite wrapu64_succ, len_app.
Qed.

(** ** The invariant of a run *)
Notation orders_inv :=
  (histories t AggregateType owner (order_history (sv_ItemLimit s))).

Lemma orders_step_inv (w w' : W) : orders_inv w -> orders_step w w' -> orders_inv w'.
Proof.
  intros Hi Hstep. pose proof Hi as [Hl Hc Hh]. inversion Hstep as
    [ctx cmd ? r ? Hb Hcall | ctx cmd ? r ? Hb Hcall | ctx id ? r ? Hcall | ? ? Hd]; subst.
  - destruct (service_call t (or_new (fun id => NewOrder id (sv_ItemLimit s)) FromSnapshot)
      Order_Snapshot (origin (in_Order cmd)) (in_Order cmd)
      (fun identity => Order_AddItem (mkAddItem (in_SKU cmd) (in_Quantity cmd) (OccurredAt identity)))
      (OrNew (fun id => NewOrder id (sv_ItemLimit s)) FromSnapshot) bind_orders CommandConsumer
      (executor s) (add_item_command s cmd) (Wrap "application: add item") ctx w w' r)
      as (Hl' & Hc' & _ & [[Hr Ho] | (a & seen & _ & Heff)]); try done; [apply os_uow | |].
    + by apply (histories_same t _ _ _ w).
    + refine (histories_decided t _ _ _ _ _ _ _ _ _ w w' _ _ Hi Heff Hl' Hc' Hb eq_refl eq_refl _).
      intros key identity agg v agg' evs es ctx' ids Hk _ Hf Hadd Hlen Hes.
      pose proof (Order_AddItem_accepted _ _ _ _ _ Hadd) as (_ & _ & _ & -> & _).
      eapply history_item; [exact Hes | | exact Hadd | done].
      by apply (or_new_stored t ctx w (in_Order cmd) key) in Hf.
  - destruct (service_call t (existing FromSnapshot)
      Order_Snapshot (origin (in_PlacedOrder cmd)) (in_PlacedOrder cmd)
      (fun identity => Order_Place (mkPlaceOrder (OccurredAt identity)))
      (Existing FromSnapshot) bind_orders CommandConsumer
      (executor s) (place_order_command cmd) (Wrap "application: place order") ctx w w' r)
      as (Hl' & Hc' & _ & [[Hr Ho] | (a & seen & _ & Heff)]); try done; [apply os_uow | |].
    + by apply (histories_same t _ _ _ w).
    + refine (histories_decided t _ _ _ _ _ _ _ _ _ w w' _ _ Hi Heff Hl' Hc' Hb eq_refl eq_refl _).
      intros key identity agg v agg' evs es ctx' ids Hk _ Hf Hadd Hlen Hes.
      apply (existing_stored t ctx w (in_PlacedOrder cmd) key) in Hf as (sn & Hsn & ->); [| done].
      pose proof (Order_Place_accepted _ _ _ _ _ Hadd) as (_ & _ & _ & ->).
      by eapply history_place.
  - apply (histories_quiet t _ _ _ w); [done |].
    assert (frame w' = frame w) as [Hst Hlk]%pair_eq.
    { refine (Query_frame (executor s) ctx OperationFindOrder (OpFindOrder (mkFindOrderInput id)) _ _ w r w' Hcall).
      intros ctx0. apply Confined_bind; [apply Confined_map_err, os_reader | auto with confined]. }
    unfold world_data. by rewrite Hst, Hlk.
  - by apply (histories_quiet t _ _ _ w).
Qed.

Lemma orders_run_inv (w w' : W) : orders_inv w -> rtc orders_step w w' -> orders_inv w'.
Proof. intros Hi. induction 1; [done |]. eauto using orders_step_inv. Qed.

(** C18: An order is its history.  After any sequence of commands and queries, under
    any carriers, with any failures of commits, clocks and instrumentation
    between them, the entries of an order in the outbox are the items it took,
    in order, then at most one placement that counts them, authored at versions
    [1], [2], [3]… at the instants of their facts; and its row is exactly what
    those events say, at the version that counts them: it never holds more lines
    than the limit, and an order without lines is never placed. *)
Theorem order_is_its_history w0 w o
    (H0 : fresh_store w0) (Hrun : rtc orders_step w0 w) :
  order_history (sv_ItemLimit s) o (about AggregateType o (st_outbox (w_store w)))
    (stored t w (owner o, o)).
Proof.
  apply (his_history t _ owner _ w). eapply orders_run_inv; [| exact Hrun].
  apply histories_fresh; [apply history_empty | done].
Qed.
End Orders.

(** * A run of the service *)
Module OrdersRun.
Notation W := (World Snapshot Event Z).
Definition table : Table Snapshot Snapshot := mkTableDecl "orders" None [] id Some.
#[global] Instance table_laws : TableLaws table.
Proof. split; [done | by intros v s [= ->] | done]. Qed.

Definition service : Service W :=
  mkService (NewUnitOfWork (bind_orders table)) (storeReader table) ServiceFixture.clock
    ServiceFixture.ids Authorization 2 Fixture.policy None.
#[global] Instance service_laws : OrdersService table service.
Proof.
  split; [done | apply unobserved | by intros ctx id w r w' [= _ <-]]; try done.
  intros ctx op. apply Confined_lift.
Qed.

Definition ctx (key : string) : Ctx := ServiceFixture.ctx ["orders:write"] key.
Definition start : W := ServiceFixture.start.
Definition first : W := (Service_AddItem service (ctx "k1") (mkAddItemInput "P-1" "A" 2) start).2.
Definition second : W := (Service_AddItem service (ctx "k2") (mkAddItemInput "P-1" "B" 1) first).2.
Definition third : W := (Service_PlaceOrder service (ctx "k3") (mkPlaceOrderInput "P-1") second).2.
Definition fourth : result error (Outcome ItemAccepted) * W :=
  Service_AddItem service (ctx "k4") (mkAddItemInput "P-1" "C" 1) third.

Example orders_run_answers :
  fourth.1 = Ok (OutRejected (Reject CodeOrderNotOpen "order is not open" [])) /\
  map ent_Event (st_outbox (w_store fourth.2)) =
    [EvItemAdded (mkItemAdded "P-1" "A" 2 1000); EvItemAdded (mkItemAdded "P-1" "B" 1 1000);
     EvOrderPlaced (mkOrderPlaced "P-1" 2 1000)] /\
  stored table fourth.2 ("t1", "P-1") =
    Some (mkSnapshot "P-1" Placed 2 [mkItem "A" 2; mkItem "B" 1], 3).
Proof. vm_compute. repeat split. Qed.

Lemma orders_run_belongs key o : belongs (fun _ => "t1"%string) (ctx key) o.
Proof. by intros k [= <-]. Qed.
Lemma orders_run_steps : rtc (orders_step service (fun _ => "t1"%string)) start third.
Proof.
  apply (rtc_l _ start first).
  { exact (step_AddItem service _ (ctx "k1") (mkAddItemInput "P-1" "A" 2) start _ first
             (orders_run_belongs _ _) (surjective_pairing _)). }
  apply (rtc_l _ first second).
  { exact (step_AddItem service _ (ctx "k2") (mkAddItemInput "P-1" "B" 1) first _ second
             (orders_run_belongs _ _) (surjective_pairing _)). }
  apply rtc_once.
  exact (step_PlaceOrder service _ (ctx "k3") (mkPlaceOrderInput "P-1") second _ third
           (orders_run_belongs _ _) (surjective_pairing _)).
Qed.
End OrdersRun.

Lemma order_is_its_history_witness :
  order_history 2 "P-1" (about AggregateType "P-1" (st_outbox (w_store OrdersRun.third)))
    (stored OrdersRun.table OrdersRun.third ("t1", "P-1")).
Proof.
  apply (order_is_its_history OrdersRun.table OrdersRun.service (fun _ => "t1"%string)
    OrdersRun.start OrdersRun.third "P-1"); [by split | exact OrdersRun.orders_run_steps].
Defined.
