(* ===== verification/BookingsTheorems.v ===== *)
(** What the bookings context promises: its decisions, its encodings, the life of
    a booking and of a resource through any sequence of commands, and the names
    of resources. *)

From S2P Require Import Prelude Regex DomainKernel Errors Ports Interfaces Codec OutboundKey Memory Application AppMemory ServiceRuns Fixture Envelope Outbox GoTime Bookings.

(** * Decisions *)
Lemma Booking_Reserve_accepted cmd b b' a evs :
  Booking_Reserve cmd b = (b', inl (Accept a evs)) ->
  1 <= rb_Quantity cmd <= 100 /\
  b' = mkBooking (b_id b) (rb_ResourceID cmd) (rb_Quantity cmd) Reserved (rb_At cmd) /\
  evs = [EvBookingReserved (mkBookingReserved (b_id b) (rb_ResourceID cmd) (rb_Quantity cmd) (rb_At cmd))].
Proof.
  unfold Booking_Reserve, DecideOver, Booking_clone. cbn.
  destruct (Z.ltb_spec (rb_Quantity cmd) 1); cbn; [done |].
  destruct (Z.ltb_spec 100 (rb_Quantity cmd)); cbn; [done |]. unfold Accept. by intros [= <- _ <-].
Qed.

Lemma Booking_Cancel_accepted cmd b b' a evs :
  Booking_Cancel cmd b = (b', inl (Accept a evs)) ->
  b_status b = Reserved /\
  b' = mkBooking (b_id b) (b_resourceID b) (b_quantity b) Cancelled (b_reservedAt b) /\
  evs = [EvBookingCancelled (mkBookingCancelled (b_id b) (cb_At cmd))].
Proof.
  unfold Booking_Cancel, DecideOver, Booking_clone. cbn.
  destruct (Z.eqb_spec (b_status b) Reserved); cbn; [| done]. unfold Accept. by intros [= <- _ <-].
Qed.

Lemma Resource_Register_accepted cmd r r' a evs :
  Resource_Register cmd r = (r', inl (Accept a evs)) ->
  rr_Code cmd <> ""%string /\ rr_Name cmd <> ""%string /\
  (r_registeredAt r <> 0 /\ r' = r /\ evs = [] \/
   r_registeredAt r = 0 /\ r' = mkResource (r_code r) (rr_Name cmd) (rr_At cmd) /\
   evs = [EvResourceRegistered (mkResourceRegistered (r_code r) (rr_Name cmd) (rr_At cmd))]).
Proof.
  unfold Resource_Register, DecideOver, Resource_clone. cbn.
  destruct (String.eqb_spec (rr_Code cmd) ""); cbn; [done |].
  destruct (String.eqb_spec (rr_Name cmd) ""); cbn; [done |].
  destruct (Z.eqb_spec (r_registeredAt r) 0); cbn; unfold Accept; intros [= <- _ <-];
    repeat split; try done; [by right |]. left. by destruct r.
Qed.

(** * Codecs *)
#[export] Instance id_codec_laws {R} (wrap : string -> R) unwrap :
  (forall r, wrap (unwrap r) = r) -> CodecLaws (id_codec wrap unwrap) (fun r => string_fits (unwrap r)).
Proof.
  intros Hw. split.
  - intros e r. apply enc_String_app.
  - intros r rest Hr. cbn. rewrite dec_String_enc by done. by rewrite Hw.
Qed.

(** * The service over the in-memory realization *)
Section Bookings.
Context {Any X : Type} (tb : Table Any BookingSnapshot) (tr : Table Any ResourceSnapshot).
Context {laws_b : TableLaws tb} {laws_r : TableLaws tr} (Hnames : t_Name tb <> t_Name tr).
Notation W := (World Any Event X).

Definition bind_bookings (id : loc) : Resources W :=
  mkResources (repo_at tb id) (repo_at tr id) (tx_Outbox id) (CommandInbox id CommandConsumer).

Class BookingsService (s : Service W) : Prop := {
  bk_uow : sv_UoW s = NewUnitOfWork bind_bookings;
  bk_surroundings : Surroundings (executor s);
  bk_reader : forall ctx id, Confined frame (reader_Load (sv_Reader s) ctx id);
  bk_by_resource : forall ctx id, Confined frame (LoadByResource (sv_ResourceReader s) ctx id);
  (** The clock never shows the instant that stands for no registration. *)
  bk_clock : forall w, (Now (sv_Clock s) w).1 <> 0
}.
Context (s : Service W) {Hs : BookingsService s}.
#[local] Existing Instance bk_surroundings.

(** Bookings and resources belong to one tenant each. *)
Context (owner_b : BookingID -> TenantID) (owner_r : ResourceCode -> TenantID).

Inductive bookings_step : W -> W -> Prop :=
| step_Reserve ctx cmd w r w' :
    belongs owner_b ctx (in_BookingID cmd) -> Service_ReserveBooking s ctx cmd w = (r, w') ->
    bookings_step w w'
| step_Cancel ctx cmd w r w' :
    belongs owner_b ctx (in_Cancelled cmd) -> Service_CancelBooking s ctx cmd w = (r, w') ->
    bookings_step w w'
| step_Register ctx cmd w r w' :
    belongs owner_r ctx (in_Code cmd) -> Service_RegisterResource s ctx cmd w = (r, w') ->
    bookings_step w w'
| step_Find ctx id w r w' : Service_FindBooking s ctx id w = (r, w') -> bookings_step w w'
| step_FindByResource ctx id w r w' :
    Service_FindBookingByResource s ctx id w = (r, w') -> bookings_step w w'
| step_else w w' : world_data w' = world_data w -> bookings_step w w'.

(** ** The life of a booking *)
Inductive booking_life :=
| NeverReserved
| Held (resource : ResourceID) (quantity : Z) (at_ : Instant)
| Released (resource : ResourceID) (quantity : Z) (at_ cancelled : Instant).

Definition life_events (b : BookingID) (l : booking_life) : list (Event * Instant) :=
  match l with
  | NeverReserved => []
  | Held r q a => [(EvBookingReserved (mkBookingReserved b r q a), a)]
  | Released r q a c =>
      [(EvBookingReserved (mkBookingReserved b r q a), a);
       (EvBookingCancelled (mkBookingCancelled b c), c)]
  end.
Definition life_row (b : BookingID) (l : booking_life) : option (BookingSnapshot * Version) :=
  match l with
  | NeverReserved => None
  | Held r q a => Some (mkBookingSnapshot b r q Reserved a, 1)
  | Released r q a _ => Some (mkBookingSnapshot b r q Cancelled a, 2)
  end.
Definition life_ok (l : booking_life) : Prop :=
  match l with
  | NeverReserved => True
  | Held _ q _ | Released _ q _ _ => 1 <= q <= 100
  end.

Definition told (es : list (OutboxEntry Event)) : list (Event * Instant) :=
  map (fun e => (ent_Event e, ent_OccurredAt e)) es.

Definition booking_history (b : BookingID) (es : list (OutboxEntry Event))
    (row : option (BookingSnapshot * Version)) : Prop :=
  exists l, life_ok l /\ told es = life_events b l /\ row = life_row b l /\
    map ent_AggregateVersion es = versions (length es).

(** ** The life of a resource: registered once, its repetitions only counted *)
Definition resource_history (c : ResourceCode) (es : list (OutboxEntry Event))
    (row : option (ResourceSnapshot * Version)) : Prop :=
  es = [] /\ row = None \/
  exists name at_ n, c <> ""%string /\ name <> ""%string /\ at_ <> 0 /\
    told es = [(EvResourceRegistered (mkResourceRegistered c name at_), at_)] /\
    map ent_AggregateVersion es = [1] /\
    row = Some (mkResourceSnapshot c name at_, wrapu64 n).

Notation bookings_inv := (histories tb AggregateTypeBooking owner_b booking_history).
Notation resources_inv := (histories tr AggregateTypeResource owner_r resource_history).

Lemma told_app es1 es2 : told (es1 ++ es2) = told es1 ++ told es2.
Proof. apply map_app. Qed.

Lemma reserved_history ctx b es agg' a evs cmd identity ids :
  booking_history b es None ->
  Booking_Reserve (mkReserveBooking (in_ResourceID cmd) (in_Quantity cmd) (OccurredAt identity))
    (NewBooking b) = (agg', inl (Accept a evs)) ->
  len evs <= len ids ->
  booking_history b
    (es ++ entries_for ctx identity (origin AggregateTypeBooking b) (wrapu64 (0 + 1)) ids evs)
    (Some (Booking_Snapshot agg', wrapu64 (0 + 1))).
Proof.
  intros (l & _ & He & Hr & Hv) (Hq & -> & ->)%Booking_Reserve_accepted Hids.
  destruct l; [| done ..]. destruct es; [| done].
  one_entry Hids.
  by exists (Held (in_ResourceID cmd) (in_Quantity cmd) (OccurredAt identity)).
Qed.

Lemma cancelled_history ctx b es sn v agg' a evs identity ids :
  booking_history b es (Some (sn, v)) ->
  Booking_Cancel (mkCancelBooking (OccurredAt identity)) (FromBookingSnapshot sn)
    = (agg', inl (Accept a evs)) ->
  len evs <= len ids ->
  booking_history b
    (es ++ entries_for ctx identity (origin AggregateTypeBooking b) (wrapu64 (v + 1)) ids evs)
    (Some (Booking_Snapshot agg', wrapu64 (v + 1))).
Proof.
  intros (l & Hl & He & Hr & Hv) (Hst & -> & ->)%Booking_Cancel_accepted Hids.
  destruct l as [| r q a0 | r q a0 c]; cbn in Hr; [done | | by injection Hr as -> ->].
  injection Hr as -> ->.
  one_entry Hids.
  exists (Released r q a0 (OccurredAt identity)). split; [done |].
  rewrite told_app, He. split; [done |]. split; [done |].
  rewrite map_app, Hv, length_app. destruct es as [| e [| e2 es]]; try done.
Qed.

Lemma registered_history ctx c es row agg v agg' a evs cmd identity ids :
  resource_history c es row -> in_Code cmd = c -> OccurredAt identity <> 0 ->
  (exists sn, row = Some (sn, v) /\ agg = FromResourceSnapshot sn) \/
    (row = None /\ agg = NewResource c /\ v = 0) ->
  Resource_Register (mkRegisterResource (in_Code cmd) (in_Name cmd) (OccurredAt identity)) agg
    = (agg', inl (Accept a evs)) ->
  len evs <= len ids ->
  resource_history c
    (es ++ entries_for ctx identity (origin AggregateTypeResource c) (wrapu64 (v + 1)) ids evs)
    (Some (Resource_Snapshot agg', wrapu64 (v + 1))).
Proof.
  intros Hh Hc Hat Hload (Hne & Hnn & Hcase)%Resource_Register_accepted Hids.
  cbn [rr_Code rr_Name rr_At] in *. right.
  destruct Hh as [[-> ->] | (name & at_ & n & Hc0 & Hn0 & Ha0 & He & Hv & ->)];
    destruct Hload as [(sn & [= <- <-] & ->) | (Hrow & -> & ->)]; try done.
  - destruct Hcase as [(Hx & _) | (_ & -> & ->)]; [done |].
    one_entry Hids. exists (in_Name cmd), (OccurredAt identity), 1.
    subst c. done.
  - destruct Hcase as [(_ & -> & ->) | (Hx & _)]; [| done].
    assert (entries_for ctx identity (origin AggregateTypeResource c) (wrapu64 (wrapu64 n + 1)) ids []
            = []) as -> by (by destruct ids).
    rewrite app_nil_r. exists name, at_, (n + 1). by rewrite wrapu64_succ.
Qed.

(** A query by resource moves nothing either. *)
Lemma FindBookingByResource_frame ctx resource :
  Confined frame (Service_FindBookingByResource s ctx resource).
Proof.
  unfold Service_FindBookingByResource. cbv zeta.
  apply Confined_opened; [apply (su_instrumentation (x := executor s)) |]. intros ctx1 end_ Hend.
  apply Confined_bind; [apply Confined_attempt, (su_authorize (x := executor s)) |].
  intros [[] | e | p]; auto with confined.
  apply Confined_bind; [apply Confined_attempt, bk_by_resource |].
  intros [v | e | p]; auto 6 with confined.
Qed.

(** ** The invariant of a run *)
Record context_inv (w : W) : Prop := {
  ci_bookings : bookings_inv w;
  ci_resources : resources_inv w;
  ci_unique : unique_rows tr (store_rows tr w)
}.

Lemma fresh_context (w : W) : fresh_store w -> context_inv w.
Proof.
  intros Hf. pose proof Hf as [_ Ht _]. split.
  - apply histories_fresh; [| done]. intros b. by exists NeverReserved.
  - apply histories_fresh; [| done]. by left.
  - intros u keyOf tn i1 i2 want _ _ (rec & s1 & Hr & _). unfold store_rows, rows_of in Hr.
    by rewrite Ht in Hr.
Qed.

Lemma quiet_context (w w' : W) : context_inv w -> world_data w' = world_data w -> context_inv w'.
Proof.
  intros [Hb Hr Hu] Hd. split; [by apply (histories_quiet tb _ _ _ w) |
    by apply (histories_quiet tr _ _ _ w) |].
  apply pair_eq in Hd as [[Ht _]%pair_eq _]. unfold store_rows. by rewrite Ht.
Qed.

(** Nothing moved in one table, and nothing ever moves in the other. *)
Lemma same_context (w w' : W) :
  context_inv w -> w_locked w' = false -> st_outbox (w_store w') = st_outbox (w_store w) ->
  clean tb (st_tables (w_store w')) -> clean tr (st_tables (w_store w')) ->
  store_rows tb w' = store_rows tb w -> store_rows tr w' = store_rows tr w -> context_inv w'.
Proof.
  intros [Hb Hr Hu] Hl Ho Hcb Hcr Hrb Hrr. split; [by apply (histories_same tb _ _ _ w) |
    by apply (histories_same tr _ _ _ w) |]. by rewrite Hrr.
Qed.

(** A command on a booking, with its history extended, keeps the context. *)
Lemma booking_call {A Ans} f (snapshot : A -> BookingSnapshot) decide_ load
    (c : Command (W := W) (Resources W) Operation Ans) g ctx b (w w' : W) r :
  LoaderLaw (Event := Event) (X := X) tb load f -> belongs owner_b ctx b ->
  (forall ctx id identity, c_Run _ _ _ c ctx (bind_bookings id) identity =
     map_err g (decide_at tb id ctx b snapshot (origin AggregateTypeBooking b) identity load
                  (decide_ identity))) ->
  (forall key identity agg v agg' a evs es ctx' ids, scopedKey ctx b = Ok key ->
     f b (table_load tb ctx (st_tables (w_store w)) b) = Ok (agg, v) ->
     decide_ identity agg = (agg', inl (Accept a evs)) -> len evs <= len ids ->
     booking_history b es (stored tb w key) ->
     booking_history b
       (es ++ entries_for ctx' identity (origin AggregateTypeBooking b) (wrapu64 (v + 1)) ids evs)
       (Some (snapshot agg', wrapu64 (v + 1)))) ->
  context_inv w -> Execute ctx (executor s) c w = (r, w') -> context_inv w'.
Proof.
  intros Hload Hb Hrun Hext Hi Hcall. pose proof Hi as [Hib Hir Hu]. pose proof Hib as [Hl Hcb _].
  pose proof Hir as [_ Hcr _].
  destruct (service_call tb f snapshot (origin AggregateTypeBooking b) b decide_ load bind_bookings
    CommandConsumer (executor s) c g ctx w w' r)
    as (Hl' & Hc' & Hok & [[Hr Ho] | (a & seen & _ & Heff)]); try done; [apply bk_uow | |];
    destruct (Hok _ tr _ Hnames Hcr) as [Hcr' Hrr].
  - by apply (same_context w).
  - split.
    + refine (histories_decided tb _ _ _ _ _ _ _ _ _ w w' _ _ Hib Heff Hl' Hc' Hb eq_refl eq_refl _).
      intros key identity agg v agg' evs es ctx' ids Hk _. by apply Hext.
    + refine (histories_other tr _ _ _ tb _ _ _ _ _ _ w w' _ _ Hir Heff Hl' Hok Hnames _). done.
    + by rewrite Hrr.
Qed.

Lemma bookings_step_inv (w w' : W) : context_inv w -> bookings_step w w' -> context_inv w'.
Proof.
  intros Hi Hstep. inversion Hstep as
    [ctx cmd ? r ? Hb Hcall | ctx cmd ? r ? Hb Hcall | ctx cmd ? r ? Hb Hcall | ctx id ? r ? Hcall
    | ctx id ? r ? Hcall | ? ? Hd]; subst.
  - refine (booking_call (absent NewBooking) Booking_Snapshot (fun identity => Booking_Reserve
      (mkReserveBooking (in_ResourceID cmd) (in_Quantity cmd) (OccurredAt identity))) loadAbsentBooking
      (reserve_command cmd) (Wrap "application: reserve") ctx (in_BookingID cmd) w w' r
      (Absent_law tb _) Hb (fun _ _ _ => eq_refl) _ Hi Hcall).
    intros key identity agg v agg' a evs es ctx' ids Hk Hf Hdec Hlen Hes.
    apply (absent_stored tb ctx w _ key) in Hf as (Hn & -> & ->); [| done]. rewrite Hn in Hes.
    by eapply reserved_history.
  - refine (booking_call (existing FromBookingSnapshot) Booking_Snapshot (fun identity =>
      Booking_Cancel (mkCancelBooking (OccurredAt identity))) loadExistingBooking
      (cancel_command cmd) (Wrap "application: cancel") ctx (in_Cancelled cmd) w w' r
      (Existing_law tb _) Hb (fun _ _ _ => eq_refl) _ Hi Hcall).
    intros key identity agg v agg' a evs es ctx' ids Hk Hf Hdec Hlen Hes.
    apply (existing_stored tb ctx w _ key) in Hf as (sn & Hn & ->); [| done]. rewrite Hn in Hes.
    by eapply cancelled_history.
  - pose proof Hi as [Hib Hir Hu]. pose proof Hib as [Hl Hcb _]. pose proof Hir as [_ Hcr _].
    destruct (service_call tr (or_new NewResource FromResourceSnapshot) Resource_Snapshot
      (origin AggregateTypeResource (in_Code cmd)) (in_Code cmd) (fun identity => Resource_Register
        (mkRegisterResource (in_Code cmd) (in_Name cmd) (OccurredAt identity))) loadResource
      bind_bookings CommandConsumer (executor s) (register_command cmd) (Wrap "application: register")
      ctx w w' r)
      as (Hl' & Hc' & Hok & [[Hr Ho] | (a & seen & _ & Heff)]); try done; [apply bk_uow | |];
      destruct (Hok _ tb _ (not_eq_sym Hnames) Hcb) as [Hcb' Hrb].
    + by apply (same_context w).
    + split.
      * refine (histories_other tb _ _ _ tr _ _ _ _ _ _ w w' _ _ Hib Heff Hl' Hok (not_eq_sym Hnames) _).
        done.
      * refine (histories_decided tr _ _ _ _ _ _ _ _ _ w w' _ _ Hir Heff Hl' Hc' Hb eq_refl eq_refl _).
        intros key identity agg v agg' evs es ctx' ids Hk Hat Hf Hdec Hlen Hes.
        eapply registered_history; [exact Hes | done | | | exact Hdec | done].
        -- rewrite Hat. apply bk_clock.
        -- by apply (or_new_stored tr ctx w _ key) in Hf.
      * by destruct Heff as (? & ? & ? & ? & ? & ? & ? & _ & _ & _ & _ & _ & _ & _ & _ & _ & Hx); apply Hx.
  - apply (quiet_context w); [done |].
    assert (frame w' = frame w) as [Hst Hlk]%pair_eq.
    { refine (Query_frame (executor s) ctx OperationFindBooking (OpFindBooking id) _ _ w r w' Hcall).
      intros ctx0. apply Confined_bind; [apply Confined_map_err, bk_reader | auto with confined]. }
    unfold world_data. by rewrite Hst, Hlk.
  - apply (quiet_context w); [done |].
    assert (frame w' = frame w) as [Hst Hlk]%pair_eq by (by eapply FindBookingByResource_frame).
    unfold world_data. by rewrite Hst, Hlk.
  - by apply (quiet_context w).
Qed.

Lemma bookings_run_inv (w w' : W) : context_inv w -> rtc bookings_step w w' -> context_inv w'.
Proof. intros Hi. induction 1; [done |]. eauto using bookings_step_inv. Qed.

(** A booking is reserved at most once and cancelled at most once.  After any
    sequence of calls, what the outbox tells of a booking, with its instants and
    its versions [1] and [2], is a reservation of one to a hundred and then maybe
    its cancellation, and the row says the same: a cancelled booking is never
    reserved again, and no booking is reserved twice. *)
Theorem booking_lives_once w0 w b (H0 : fresh_store w0) (Hrun : rtc bookings_step w0 w) :
  booking_history b (about AggregateTypeBooking b (st_outbox (w_store w)))
    (stored tb w (owner_b b, b)).
Proof.
  apply (his_history tb _ owner_b _ w), ci_bookings.
  eapply bookings_run_inv; [by apply fresh_context | done].
Qed.

(** A resource is registered once under a name no other resource of its tenant
    holds.  Repeating the registration, under any name, tells nothing more and
    keeps the name it was first given; where the table declares the name unique,
    two resources of one tenant never share one. *)
Theorem resource_registered_once w0 w c (H0 : fresh_store w0) (Hrun : rtc bookings_step w0 w) :
  resource_history c (about AggregateTypeResource c (st_outbox (w_store w)))
    (stored tr w (owner_r c, c)) /\
  forall u, u ∈ t_Unique tr -> u_Key u = Some (fun sn => Some [rs_Name sn]) ->
    forall tn c1 c2 s1 s2 v1 v2,
      stored tr w (tn, c1) = Some (s1, v1) -> stored tr w (tn, c2) = Some (s2, v2) ->
      rs_Name s1 = rs_Name s2 -> c1 = c2.
Proof.
  assert (context_inv w) as [_ Hr Hu]
    by (eapply bookings_run_inv; [by apply fresh_context | done]).
  split; [by apply (his_history tr _ owner_r _ w) |].
  intros u Hin Hk tn c1 c2 s1 s2 v1 v2 H1 H2 Hname.
  apply (Hu u _ tn c1 c2 [rs_Name s1] Hin Hk).
  - by apply (stored_unique_key tr w _ s1 v1).
  - rewrite Hname. by apply (stored_unique_key tr w _ s2 v2).
Qed.
End Bookings.

(** * A run of the service *)
Module BookingsRun.
Inductive Any := ABooking (s : BookingSnapshot) | AResource (s : ResourceSnapshot).
Notation W := (World Any Event Z).
Definition bookings : Table Any BookingSnapshot :=
  mkTableDecl "bookings" None [] ABooking
    (fun v => match v with ABooking s => Some s | AResource _ => None end).
Definition resources : Table Any ResourceSnapshot :=
  mkTableDecl "resources" None
    [mkUnique "resources_tenant_id_name_key" (Some (fun s => Some [rs_Name s]))
       (Some RejectResourceDuplicateName)] AResource
    (fun v => match v with AResource s => Some s | ABooking _ => None end).
#[global] Instance bookings_laws : TableLaws bookings.
Proof. split; [done | by intros [] ? [= ->] | done]. Qed.
#[global] Instance resources_laws : TableLaws resources.
Proof. split; [done | by intros [] ? [= ->] | done]. Qed.

Definition service : Service W :=
  mkService (NewUnitOfWork (bind_bookings bookings resources)) (storeReader bookings)
    (mkBookingsByResourceReader (fun _ _ => mret [])) ServiceFixture.clock
    ServiceFixture.ids Authorization Fixture.policy None.
#[global] Instance service_laws : BookingsService bookings resources service.
Proof.
  split; [done | apply unobserved | by intros ctx id w r w' [= _ <-] | by intros ctx id w r w' [= _ <-] | done];
    try done.
  intros ctx op. apply Confined_lift.
Qed.

Definition ctx (key : string) : Ctx := ServiceFixture.ctx ["bookings:write"] key.
Definition start : W := ServiceFixture.start.
Definition w1 : W := (Service_ReserveBooking service (ctx "k1") (mkReserveInput "b-1" "room" 3) start).2.
Definition w2 : W := (Service_CancelBooking service (ctx "k2") (mkCancelInput "b-1") w1).2.
Definition again : result error (Outcome ReservedResponse) * W :=
  Service_ReserveBooking service (ctx "k3") (mkReserveInput "b-1" "room" 3) w2.
Definition w4 : W := (Service_RegisterResource service (ctx "k4") (mkRegisterInput "room" "Room") again.2).2.
Definition w5 : W := (Service_RegisterResource service (ctx "k5") (mkRegisterInput "room" "Hall") w4).2.
Definition taken : result error (Outcome RegisteredResponse) * W :=
  Service_RegisterResource service (ctx "k6") (mkRegisterInput "hall" "Room") w5.

Example bookings_run_answers :
  again.1 = Err (Wrap "application: reserve" ErrAlreadyExists) /\
  taken.1 = Ok (OutRejected RejectResourceDuplicateName) /\
  stored bookings taken.2 ("t1", "b-1") = Some (mkBookingSnapshot "b-1" "room" 3 Cancelled 1000, 2) /\
  stored resources taken.2 ("t1", "room") = Some (mkResourceSnapshot "room" "Room" 1000, 2) /\
  map ent_AggregateVersion (st_outbox (w_store taken.2)) = [1; 2; 1].
Proof. vm_compute. repeat split. Qed.

Definition owner : string -> TenantID := fun _ => "t1"%string.
Lemma bookings_run_belongs key id : belongs owner (ctx key) id.
Proof. by intros k [= <-]. Qed.
Lemma bookings_run_steps : rtc (bookings_step service owner owner) start taken.2.
Proof.
  apply (rtc_l _ start w1); [exact (step_Reserve service _ _ (ctx "k1") (mkReserveInput "b-1" "room" 3)
    start _ w1 (bookings_run_belongs _ _) (surjective_pairing _)) |].
  apply (rtc_l _ w1 w2); [exact (step_Cancel service _ _ (ctx "k2") (mkCancelInput "b-1")
    w1 _ w2 (bookings_run_belongs _ _) (surjective_pairing _)) |].
  apply (rtc_l _ w2 again.2); [exact (step_Reserve service _ _ (ctx "k3") (mkReserveInput "b-1" "room" 3)
    w2 _ again.2 (bookings_run_belongs _ _) (surjective_pairing _)) |].
  apply (rtc_l _ again.2 w4); [exact (step_Register service _ _ (ctx "k4") (mkRegisterInput "room" "Room")
    again.2 _ w4 (bookings_run_belongs _ _) (surjective_pairing _)) |].
  apply (rtc_l _ w4 w5); [exact (step_Register service _ _ (ctx "k5") (mkRegisterInput "room" "Hall")
    w4 _ w5 (bookings_run_belongs _ _) (surjective_pairing _)) |].
  apply rtc_once. exact (step_Register service _ _ (ctx "k6") (mkRegisterInput "hall" "Room")
    w5 _ taken.2 (bookings_run_belongs _ _) (surjective_pairing _)).
Qed.
End BookingsRun.

Lemma booking_lives_once_witness :
  booking_history "b-1" (about AggregateTypeBooking "b-1" (st_outbox (w_store BookingsRun.taken.2)))
    (stored BookingsRun.bookings BookingsRun.taken.2 ("t1", "b-1")).
Proof.
  apply (booking_lives_once BookingsRun.bookings BookingsRun.resources ltac:(discriminate)
    BookingsRun.service BookingsRun.owner BookingsRun.owner BookingsRun.start BookingsRun.taken.2 "b-1");
    [by split | exact BookingsRun.bookings_run_steps].
Defined.

Lemma resource_registered_once_witness :
  resource_history "room" (about AggregateTypeResource "room" (st_outbox (w_store BookingsRun.taken.2)))
    (stored BookingsRun.resources BookingsRun.taken.2 ("t1", "room")) /\
  forall u, u ∈ t_Unique BookingsRun.resources -> u_Key u = Some (fun sn => Some [rs_Name sn]) ->
    forall tn c1 c2 s1 s2 v1 v2,
      stored BookingsRun.resources BookingsRun.taken.2 (tn, c1) = Some (s1, v1) ->
      stored BookingsRun.resources BookingsRun.taken.2 (tn, c2) = Some (s2, v2) ->
      rs_Name s1 = rs_Name s2 -> c1 = c2.
Proof.
  apply (resource_registered_once BookingsRun.bookings BookingsRun.resources ltac:(discriminate)
    BookingsRun.service BookingsRun.owner BookingsRun.owner BookingsRun.start BookingsRun.taken.2 "room");
    [by split | exact BookingsRun.bookings_run_steps].
Defined.
