(* ===== verification/ReservationsTheorems.v ===== *)
(** What the reservations context promises: its decisions, its encodings, that the
    first decision on an order stands through any sequence of commands and
    deliveries, and that a delivery already answered decides nothing again. *)

From S2P Require Import Prelude Regex DomainKernel Errors Ports Interfaces Envelope Consumer Outbox Codec OutboundKey Memory Application AppMemory ServiceRuns Fixture GoTime Reservations.

(** * Decisions *)
Lemma Reservation_Reserve_accepted cmd v v' a evs :
  Reservation_Reserve cmd v = (v', inl (Accept a evs)) ->
  1 <= rv_Items cmd /\ v_status v <> Confirmed /\ v_status v <> Cancelled /\
  v' = mkReservation (v_order v) (rv_Items cmd) Confirmed /\
  evs = [EvReservationConfirmed (mkReservationConfirmed (v_order v) (rv_Items cmd) (rv_At cmd))].
Proof.
  unfold Reservation_Reserve, DecideOver, clone. cbn.
  destruct (Z.leb_spec (rv_Items cmd) 0); cbn; [done |].
  destruct (Z.eqb_spec (v_status v) Confirmed); cbn; [done |].
  destruct (Z.eqb_spec (v_status v) Cancelled); cbn; [done |].
  unfold Accept. intros [= <- _ <-]. repeat split; (done || lia).
Qed.

Lemma Reservation_Cancel_accepted cmd v v' a evs :
  Reservation_Cancel cmd v = (v', inl (Accept a evs)) ->
  v_status v <> Confirmed /\ v_status v <> Cancelled /\
  v' = mkReservation (v_order v) (v_items v) Cancelled /\
  evs = [EvReservationCancelled (mkReservationCancelled (v_order v) (cn_At cmd))].
Proof.
  unfold Reservation_Cancel, DecideOver, clone. cbn.
  destruct (Z.eqb_spec (v_status v) Confirmed); cbn; [done |].
  destruct (Z.eqb_spec (v_status v) Cancelled); cbn; [done |].
  unfold Accept. by intros [= <- _ <-].
Qed.

(** * Codecs *)
#[export] Instance reservedCodec_laws :
  CodecLaws reservedCodec (fun r => string_fits (resp_Order r) /\ in_int64 (resp_Items r)).
Proof.
  split.
  - intros e [o n]. cbn. rewrite (enc_Int_app (enc_String e o)), (enc_Int_app (enc_String [] o)).
    by rewrite (enc_String_app e), app_assoc.
  - intros [o n] rest [Ho Hn]. cbn in *.
    by rewrite (enc_Int_app (enc_String [] o)), <- app_assoc, dec_String_enc, dec_Int_enc.
Qed.
#[export] Instance cancelledCodec_laws :
  CodecLaws cancelledCodec (fun r => string_fits (resp_Cancelled r)).
Proof.
  split.
  - intros e [o]. apply enc_String_app.
  - intros [o] rest Ho. cbn in *. by rewrite dec_String_enc.
Qed.

(** * The service over the in-memory realization *)
Section Reservations.
Context {Any X : Type} (t : Table Any Snapshot) {laws : TableLaws t}.
Notation W := (World Any Event X).

Definition bind_reservations (consumer : string) (id : loc) : Resources W :=
  mkResources (txInbox id consumer) (repo_at t id) (tx_Outbox id) (CommandInbox id CommandConsumer).

Class ReservationsService (s : Service W) : Prop := {
  rs_uow : sv_UoW s = NewUnitOfWork (bind_reservations (sv_Consumer s));
  rs_surroundings : Surroundings (executor s);
  rs_reader : forall ctx id, Confined frame (reader_Load (sv_Reader s) ctx id)
}.
Context (s : Service W) {Hs : ReservationsService s}.
#[local] Existing Instance rs_surroundings.

(** ** Consumption, from the working copy out *)
Notation loaded ctx cmd tables :=
  (or_new NewReservation FromSnapshot (cop_Order cmd) (table_load t ctx tables (cop_Order cmd))).
Notation decided cmd identity agg :=
  (Reservation_Reserve (mkReserve (cop_Items cmd) (OccurredAt identity)) agg).

(** The row a completed reception leaves. *)
Definition answered (cmd : ConsumeOrderPlaced) (status : Ports.Status) (code : string) : inboxRow :=
  mkInboxRow (cop_PayloadHash cmd) status code [] 0.
Definition inbox_key (cmd : ConsumeOrderPlaced) : inboxKey := (sv_Consumer s, cop_MessageID cmd).

(** A first reception decides: the order was not free, or it is now confirmed. *)
Definition first_consumed (ctx : Ctx) (cmd : ConsumeOrderPlaced) (identity : Identity)
    (tx : Tx Any Event) (d : Disposition) (tx' : Tx Any Event) : Prop :=
  exists key agg v, scopedKey ctx (cop_Order cmd) = Ok key /\
    loaded ctx cmd (tx_tables tx) = Ok (agg, v) /\
    ((exists agg' rejection, d = R1D2 /\ decided cmd identity agg = (agg', inr rejection) /\
        tx' = set_inbox_row tx (inbox_key cmd) (answered cmd StatusRejected (rej_code rejection))) \/
     exists agg' a evs tx1, d = R1D1 /\ decided cmd identity agg = (agg', inl (Accept a evs)) /\
       saveAs t tx key (Reservation_Snapshot agg') v = (None, tx1) /\
       len evs <= len (MessageIDs identity) /\
       tx' = set_inbox_row (add_entries tx1 (entries_for ctx identity (origin (cop_Order cmd))
               (wrapu64 (v + 1)) (MessageIDs identity) evs)) (inbox_key cmd)
               (answered cmd StatusProcessed "")).

Lemma Complete_memory id q key hash expires c (w : W) r w' :
  pending_Complete id q key hash expires c w = (r, w') ->
  committed w' = committed w /\
  (r = Ok () -> exists tx, w_txs w !! id = Some tx /\
     w_txs w' !! id = Some (set_inbox_row tx key
       (mkInboxRow hash (cmp_Status c) (cmp_LastError c) (cmp_Outcome c) expires))).
Proof.
  intros Hc. split; [by eapply Confined_Complete |]. intros ->. revert Hc.
  unfold pending_Complete, mbind, M_bind, gets. destruct (default false _); [done |].
  destruct (_ && _); [done |]. unfold get_tx. destruct (w_txs w !! id) as [tx |]; [| done].
  cbn. intros [= <-]. exists tx. cbn. by rewrite lookup_insert_eq.
Qed.

Lemma consumeFirst_data ctx cmd identity consumer id q (w : W) tx r w' :
  w_txs w !! id = Some tx ->
  consumeFirst ctx (bind_reservations consumer id) cmd identity
    (memoryPending id q (inbox_key cmd) (cop_PayloadHash cmd) 0) w = (r, w') ->
  committed w' = committed w /\
  forall d, r = Ok d -> exists tx', w_txs w' !! id = Some tx' /\ first_consumed ctx cmd identity tx d tx'.
Proof.
  intros Hx. unfold consumeFirst. unfold mbind at 1, M_bind at 1, map_err at 1.
  unfold loadReservation. cbn [repo_Reader repo_at res_Reservations bind_reservations].
  rewrite (loader_reads _ _ _ _ _ Hx).
  destruct (scopedKey_cases ctx (cop_Order cmd)) as [(key & Hk & _) | (e & Hk & He)].
  2: { rewrite (table_load_key t ctx _ _ e Hk). cbn. rewrite He. by intros [= <- <-]. }
  destruct (or_new _ _ _ _) as [[agg v] | e | p] eqn:Hl; [| by intros [= <- <-] ..].
  destruct (decided cmd identity agg) as [agg' [accepted | rejection]] eqn:Hd; cbn [memoryPending Complete].
  2: { unfold mbind, M_bind.
       destruct (pending_Complete _ _ _ _ _ _ w) as [[[] | e | p] w1] eqn:Hc;
         apply Complete_memory in Hc as [Hcom Hc]; intros [= <- <-]; (split; [done |]); [| done ..].
       intros d [= <-]. destruct (Hc eq_refl) as (tx0 & Hx0 & Hx'). rewrite Hx in Hx0.
       injection Hx0 as <-. eexists. split; [exact Hx' |]. exists key, agg, v. repeat split; [done.. |].
       left. by exists agg', rejection. }
  unfold mbind at 1, M_bind at 1, map_err at 1.
  rewrite (Save_memory t id ctx key _ Hk _ _ _ _ Hx).
  destruct (saveAs t tx key _ v) as [[e |] tx1] eqn:Hsave; [by intros [= <- <-] |].
  unfold mbind at 1, M_bind at 1, map_err at 1.
  cbn [res_Outbox bind_reservations].
  destruct (Z.ltb_spec (len (MessageIDs identity)) (len (events accepted))) as [Hlt | Hge].
  { unfold Enqueue. apply Z.ltb_lt in Hlt. rewrite Hlt. by intros [= <- <-]. }
  rewrite (Enqueue_memory _ _ _ _ _ _ _ tx1) by (done || (cbn; by rewrite lookup_insert_eq)).
  unfold mbind, M_bind.
  destruct (pending_Complete _ _ _ _ _ _ _) as [[[] | e | p] w1] eqn:Hc;
    apply Complete_memory in Hc as [Hcom Hc]; intros [= <- <-]; (split; [done |]); [| done ..].
  intros d [= <-]. destruct (Hc eq_refl) as (tx0 & Hx0 & Hx'). cbn in Hx0.
  rewrite lookup_insert_eq in Hx0. injection Hx0 as <-.
  eexists. split; [exact Hx' |]. exists key, agg, v. repeat split; [done.. |]. right.
  destruct accepted as [a evs]. by exists agg', a, evs, tx1.
Qed.

(** What the inbox holds decides what a delivery does: an answered message is
    answered again, and anything else is a first reception. *)
Definition redelivered (cmd : ConsumeOrderPlaced) (row : inboxRow) : Disposition :=
  if String.eqb (ir_hash row) (cop_PayloadHash cmd)
  then if bool_decide (ir_status row = StatusProcessed) then R2 else R3 else R4.
Definition consumed (ctx : Ctx) (cmd : ConsumeOrderPlaced) (identity : Identity)
    (tx : Tx Any Event) (d : Disposition) (tx' : Tx Any Event) : Prop :=
  (exists row, tx_inbox tx !! inbox_key cmd = Some row /\ expired row (cop_ReceivedAt cmd) = false /\
     d = redelivered cmd row /\ tx' = tx) \/
  ((forall row, tx_inbox tx !! inbox_key cmd = Some row -> expired row (cop_ReceivedAt cmd) = true) /\
   first_consumed ctx cmd identity tx d tx').

Lemma Match_first_data ctx cmd identity consumer id q (w : W) tx r w' :
  w_txs w !! id = Some tx ->
  Reception_Match (FirstReception (memoryPending id q (inbox_key cmd) (cop_PayloadHash cmd) 0))
    (consumeFirst ctx (bind_reservations consumer id) cmd identity) (mret R2) (mret R3) (mret R4) w
    = (r, w') ->
  committed w' = committed w /\
  forall d, r = Ok d -> exists tx', w_txs w' !! id = Some tx' /\ first_consumed ctx cmd identity tx d tx'.
Proof.
  intros Hx. cbn [Reception_Match]. unfold mbind at 1, M_bind at 1.
  destruct (consumeFirst _ _ _ _ _ w) as [[d | e | p] w1] eqn:Hc;
    apply (consumeFirst_data _ _ _ _ _ _ _ tx) in Hc as [Hcom Hc]; try done; [| by intros [= <- <-] ..].
  unfold mbind, M_bind, gets, mret, M_ret, throw. destruct (Completed _ w1); intros [= <- <-];
    (split; [done |]); [| done]. intros d' [= <-]. by apply Hc.
Qed.

Lemma consume_run_data ctx cmd identity id (w : W) tx r w' :
  w_txs w !! id = Some tx ->
  consume_run s cmd identity ctx (bind_reservations (sv_Consumer s) id) w = (r, w') ->
  committed w' = committed w /\
  forall d, r = Ok d -> exists tx', w_txs w' !! id = Some tx' /\ consumed ctx cmd identity tx d tx'.
Proof.
  intros Hx. unfold consume_run. unfold mbind at 1, M_bind at 1.
  cbn [res_Inbox bind_reservations txInbox inbox_Register].
  rewrite (tx_Register_spec _ _ _ _ _ _ _ Hx). unfold register_key. cbn [rcp_Consumer consume_receipt].
  destruct (_ || _); [by intros [= <- <-] |]. destruct (negb _); [by intros [= <- <-] |].
  cbn [rcp_MessageID consume_receipt]. fold (inbox_key cmd).
  unfold reception_of, consumed, redelivered. cbn [rcp_ReceivedAt rcp_PayloadHash rcp_ExpiresAt consume_receipt].
  assert (forall res, (p ← new_pending; mret (FirstReception (memoryPending id p (inbox_key cmd)
      (cop_PayloadHash cmd) 0)) : M W error (Reception W)) w = res -> exists q w1, res = (Ok (FirstReception (memoryPending id q
      (inbox_key cmd) (cop_PayloadHash cmd) 0)), w1) /\ committed w1 = committed w /\ w_txs w1 = w_txs w)
    as Hnew by (intros ? <-; by eexists _, _).
  destruct (tx_inbox tx !! inbox_key cmd) as [row |] eqn:Hrow.
  1: destruct (expired row _) eqn:Hexp.
  1, 3: destruct (Hnew _ eq_refl) as (q & w1 & -> & Hc1 & Hx1); intros Hm;
    apply (Match_first_data _ _ _ _ _ _ _ tx) in Hm as [Hcom Hm]; [| congruence];
    (split; [congruence |]); intros d Hd; destruct (Hm d Hd) as (tx' & Hx' & Hf);
    exists tx'; (split; [done |]); right; (split; [naive_solver | done]).
  destruct (String.eqb _ _) eqn:Hh; [destruct (bool_decide _) eqn:Hst |]; cbn; intros [= <- <-];
    (split; [done |]); intros d [= <-]; exists tx; (split; [done |]); left; exists row;
    rewrite Hh, ?Hst; done.
Qed.

(** ** Consumption, over the store *)
Definition opened_tx (w : W) : Tx Any Event :=
  mkTx (cloneTables (st_tables (w_store w))) (st_inbox (w_store w)) [] (st_attempts (w_store w)) 0.

(** A delivery that answers without an error was consumed in one transaction;
    any other leaves rows, inbox and outbox alone. *)
Lemma consume_world ctx cmd (w : W) r w' :
  w_locked w = false -> Service_ConsumeOrderPlaced s ctx cmd w = (r, w') ->
  w_locked w' = false /\
  (committed w' = committed w /\ (forall d, r <> Ok (d, None)) \/
   exists d identity tx', r = Ok (d, None) /\ consumed ctx cmd identity (opened_tx w) d tx' /\
     st_tables (w_store w') = cloneTables (tx_tables tx') /\
     st_inbox (w_store w') = tx_inbox tx' /\
     st_outbox (w_store w') = st_outbox (w_store w) ++ tx_outbox tx').
Proof.
  intros Hl. unfold Service_ConsumeOrderPlaced. unfold mbind at 1, M_bind at 1, attempt at 1.
  assert (forall w2 : W, frame w2 = frame w -> w_locked w2 = false /\ committed w2 = committed w) as Hquiet.
  { intros w2 [H1 H2]%pair_eq. rewrite H2. split; [done |]. unfold committed. by rewrite H1. }
  destruct (sv_Authorize s ctx _ w) as [[[] | e | p] w1] eqn:Hau;
    apply (su_authorize (x := executor s) ctx _ w) in Hau.
  2, 3: intros [= <- <-]; destruct (Hquiet w1 Hau); split; [done |]; left; by split.
  unfold mbind at 1, M_bind at 1.
  destruct (ResolveIdentity _ _ _ w1) as [[identity | e | p] w2] eqn:Hid;
    apply (ResolveIdentity_frame (executor s)) in Hid as [Hw2 _]; rewrite Hau in Hw2;
    destruct (Hquiet w2 Hw2) as [Hl2 Hc2].
  2, 3: intros [= <- <-]; split; [done |]; left; by split.
  unfold mbind at 1, M_bind at 1, attempt at 1. rewrite rs_uow. cbn [Within NewUnitOfWork].
  apply pair_eq in Hw2 as [Hs2 _]. clear Hquiet Hau.
  destruct (memory_Within _ ctx _ w2) as [r3 w3] eqn:Hw.
  apply (Within_installs _ _ _ _ _ _ (fun d tx' => consumed ctx cmd identity (opened_tx w2) d tx'))
    in Hw as [Hl3 Hw]; [| done |].
  2: { intros id wo r4 w4 Hx Hr. by eapply consume_run_data. }
  intros Hout. destruct Hw as [[Hc3 Hno] | (d & tx' & -> & Hcons & Ht & Hi & Ho)].
  - destruct r3 as [? | e | p]; [done | |]; injection Hout as <- <-; (split; [done |]); left;
      (split; [congruence | done]).
  - injection Hout as <- <-. split; [done |]. right. exists d, identity, tx'. unfold opened_tx in Hcons.
    rewrite Hs2 in Hcons, Ho. done.
Qed.

(** In terms of rows and entries: nothing of them moves, or an order was
    confirmed as the command would confirm it. *)
Lemma consumed_world ctx cmd identity d tx' (w w' : W) :
  clean t (st_tables (w_store w)) -> consumed ctx cmd identity (opened_tx w) d tx' ->
  st_tables (w_store w') = cloneTables (tx_tables tx') ->
  st_outbox (w_store w') = st_outbox (w_store w) ++ tx_outbox tx' ->
  clean t (st_tables (w_store w')) /\
  (store_rows t w' = store_rows t w /\ st_outbox (w_store w') = st_outbox (w_store w) \/
   exists a, took_effect t (or_new NewReservation FromSnapshot) Reservation_Snapshot
     (origin (cop_Order cmd)) (cop_Order cmd) (fun identity => Reservation_Reserve (mkReserve (cop_Items cmd) (OccurredAt identity)))
     ctx (OccurredAt identity) w a w').
Proof.
  intros Hc Hcons Ht Ho.
  assert (tx_tables tx' = cloneTables (st_tables (w_store w)) -> tx_outbox tx' = [] ->
    clean t (st_tables (w_store w')) /\ store_rows t w' = store_rows t w /\
    st_outbox (w_store w') = st_outbox (w_store w)) as Hsame.
  { intros Ht1 Ho1. destruct (installed_same t w w' tx' Ht1 Ht) as [_ Hs']. destruct (Hs' Hc) as [? ?].
    by rewrite Ho, Ho1, app_nil_r. }
  destruct Hcons as [(row & _ & _ & _ & ->) | (_ & key & agg & v & Hk & Hf & Hcases)].
  { destruct Hsame as (? & ? & ?); [done.. |]. split; [done |]. by left. }
  destruct Hcases as [(agg' & rejection & _ & _ & ->) | (agg' & a & evs & tx1 & _ & Hd & Hsave & Hlen & ->)].
  { destruct Hsame as (? & ? & ?); [done.. |]. split; [done |]. by left. }
  clear Hsame. cbn [tx_tables tx_outbox set_inbox_row add_entries] in *.
  destruct (cloneTables_clean t _ Hc) as [Hc1 Hr1].
  pose proof (saveAs_clean t (opened_tx w) key (Reservation_Snapshot agg') v Hc1) as Hcs.
  pose proof (saveAs_rows t (opened_tx w) key (Reservation_Snapshot agg') v) as Hrows. cbv zeta in Hrows.
  pose proof (saveAs_unique t (opened_tx w) key (Reservation_Snapshot agg') v) as Hu.
  rewrite Hsave in Hcs, Hrows, Hu. cbn [snd] in Hcs. destruct Hrows as (_ & _ & Hout & _ & Hv & Hr & _).
  destruct (cloneTables_clean t _ Hcs) as [Hcw' Hrw']. unfold store_rows. rewrite Ht.
  split; [done |]. right. exists a, ctx, identity, key, agg, v, agg', evs. unfold store_rows.
  rewrite Ht, Hrw', Hr, Ho, Hout. cbn [opened_tx tx_tables tx_outbox app] in *.
  rewrite Hr1 in Hv |- *.
  repeat (split; [done |]).
  split; [by rewrite <- Hf, !(table_load_rows t ctx _ _ key Hk), Hr1 |].
  repeat (split; [done |]). intros Hun. rewrite <- Hr1, <- Hr.
  apply (Hu None); [by rewrite Hr1 | done].
Qed.

(** ** The life of a reservation: one decision *)
Context (owner : OrderID -> TenantID).

Inductive reservations_step : W -> W -> Prop :=
| step_Reserve ctx cmd w r w' :
    belongs owner ctx (in_Order cmd) -> Service_Reserve s ctx cmd w = (r, w') ->
    reservations_step w w'
| step_Cancel ctx cmd w r w' :
    belongs owner ctx (in_Cancelled cmd) -> Service_Cancel s ctx cmd w = (r, w') ->
    reservations_step w w'
| step_Consume ctx cmd w r w' :
    belongs owner ctx (cop_Order cmd) -> Service_ConsumeOrderPlaced s ctx cmd w = (r, w') ->
    reservations_step w w'
| step_Find ctx id w r w' : Service_FindReservation s ctx id w = (r, w') -> reservations_step w w'
| step_else w w' : world_data w' = world_data w -> reservations_step w w'.

Inductive reservation_life :=
| Undecided
| ConfirmedWith (items : Z) (at_ : Instant)
| CancelledAt (at_ : Instant).

Definition life_events (o : OrderID) (l : reservation_life) : list (Event * Instant) :=
  match l with
  | Undecided => []
  | ConfirmedWith n a => [(EvReservationConfirmed (mkReservationConfirmed o n a), a)]
  | CancelledAt a => [(EvReservationCancelled (mkReservationCancelled o a), a)]
  end.
Definition life_row (o : OrderID) (l : reservation_life) : option (Snapshot * Version) :=
  match l with
  | Undecided => None
  | ConfirmedWith n _ => Some (mkSnapshot o n Confirmed, 1)
  | CancelledAt _ => Some (mkSnapshot o 0 Cancelled, 1)
  end.
Definition life_ok (l : reservation_life) : Prop :=
  match l with ConfirmedWith n _ => 1 <= n | _ => True end.

Definition told (es : list (OutboxEntry Event)) : list (Event * Instant) :=
  map (fun e => (ent_Event e, ent_OccurredAt e)) es.

Definition reservation_history (o : OrderID) (es : list (OutboxEntry Event))
    (row : option (Snapshot * Version)) : Prop :=
  exists l, life_ok l /\ told es = life_events o l /\ row = life_row o l /\
    map ent_AggregateVersion es = versions (length es).

(** A decision is only taken on an order that has none. *)
Lemma decided_history o es row agg v agg' ev ctx identity ids l :
  reservation_history o es row ->
  (exists sn, row = Some (sn, v) /\ agg = FromSnapshot sn) \/
    (row = None /\ agg = NewReservation o /\ v = 0) ->
  v_status agg <> Confirmed -> v_status agg <> Cancelled -> 1 <= len ids ->
  life_ok l ->
  (agg = NewReservation o -> [(ev, OccurredAt identity)] = life_events o l /\
     Some (Reservation_Snapshot agg', 1) = life_row o l) ->
  reservation_history o (es ++ entries_for ctx identity (origin o) (wrapu64 (v + 1)) ids [ev])
    (Some (Reservation_Snapshot agg', wrapu64 (v + 1))).
Proof.
  intros (l0 & _ & He & Hr & _) Hload Hs1 Hs2 Hids Hl Hnext.
  destruct l0 as [| n a | a]; cbn in Hr; subst row;
    destruct Hload as [(sn & Hrow & ->) | (Hnone & -> & ->)]; try done;
    try (injection Hrow as <- <-; by first [destruct Hs1 | destruct Hs2]).
  destruct es; [| done]. one_entry Hids. destruct (Hnext eq_refl) as [Hev Hlr]. by exists l.
Qed.

Notation reservations_inv := (histories t AggregateType owner reservation_history).

Lemma reserve_history_effect ctx order items at_ (w w' : W) a :
  reservations_inv w -> w_locked w' = false -> clean t (st_tables (w_store w')) ->
  belongs owner ctx order ->
  took_effect t (or_new NewReservation FromSnapshot) Reservation_Snapshot (origin order) order
    (fun identity => Reservation_Reserve (mkReserve items (OccurredAt identity))) ctx at_ w a w' ->
  reservations_inv w'.
Proof.
  intros Hi Hl' Hc' Hb Heff.
  refine (histories_decided t _ _ _ _ _ _ _ _ _ w w' _ _ Hi Heff Hl' Hc' Hb eq_refl eq_refl _).
  intros key identity agg v agg' evs es ctx' ids Hk _ Hf Hd Hlen Hes.
  apply (or_new_stored t ctx w order key) in Hf; [| done].
  apply Reservation_Reserve_accepted in Hd as (Hn & Hs1 & Hs2 & -> & ->).
  eapply (decided_history _ _ _ _ _ _ _ _ _ _ (ConfirmedWith items (OccurredAt identity))); try done.
  by intros ->.
Qed.

Lemma cancel_history_effect ctx order at_ (w w' : W) a :
  reservations_inv w -> w_locked w' = false -> clean t (st_tables (w_store w')) ->
  belongs owner ctx order ->
  took_effect t (or_new NewReservation FromSnapshot) Reservation_Snapshot (origin order) order
    (fun identity => Reservation_Cancel (mkCancel (OccurredAt identity))) ctx at_ w a w' ->
  reservations_inv w'.
Proof.
  intros Hi Hl' Hc' Hb Heff.
  refine (histories_decided t _ _ _ _ _ _ _ _ _ w w' _ _ Hi Heff Hl' Hc' Hb eq_refl eq_refl _).
  intros key identity agg v agg' evs es ctx' ids Hk _ Hf Hd Hlen Hes.
  apply (or_new_stored t ctx w order key) in Hf; [| done].
  apply Reservation_Cancel_accepted in Hd as (Hs1 & Hs2 & -> & ->).
  eapply (decided_history _ _ _ _ _ _ _ _ _ _ (CancelledAt (OccurredAt identity))); try done.
  by intros ->.
Qed.

(** Entries are only appended. *)
Definition extends (w w' : W) : Prop :=
  exists es, st_outbox (w_store w') = st_outbox (w_store w) ++ es.
Lemma extends_same (w w' : W) : st_outbox (w_store w') = st_outbox (w_store w) -> extends w w'.
Proof. exists []. by rewrite app_nil_r. Qed.
Lemma extends_effect {A Ans} f (snapshot : A -> Snapshot) org aid decide_ ctx at_ (w w' : W) (a : Ans) :
  took_effect t f snapshot org aid decide_ ctx at_ w a w' -> extends w w'.
Proof. intros (? & ? & ? & ? & ? & ? & ? & _ & _ & _ & _ & _ & _ & _ & Ho & _). by eexists. Qed.

Lemma reservations_step_inv (w w' : W) :
  reservations_inv w -> reservations_step w w' -> reservations_inv w' /\ extends w w'.
Proof.
  intros Hi Hstep. pose proof Hi as [Hl Hc Hh]. inversion Hstep as
    [ctx cmd ? r ? Hb Hcall | ctx cmd ? r ? Hb Hcall | ctx cmd ? r ? Hb Hcall | ctx id ? r ? Hcall
    | ? ? Hd]; subst.
  - destruct (service_call t (or_new NewReservation FromSnapshot) Reservation_Snapshot
      (origin (in_Order cmd)) (in_Order cmd)
      (fun identity => Reservation_Reserve (mkReserve (in_Items cmd) (OccurredAt identity)))
      (OrNew NewReservation FromSnapshot) (bind_reservations (sv_Consumer s)) CommandConsumer
      (executor s) (reserve_command cmd) (Wrap "application: reserve") ctx w w' r)
      as (Hl' & Hc' & _ & [[Hr Ho] | (a & seen & _ & Heff)]); try done; [apply rs_uow | |].
    + split; [by apply (histories_same t _ _ _ w) | by apply extends_same].
    + split; [by eapply reserve_history_effect | by eapply extends_effect].
  - destruct (service_call t (or_new NewReservation FromSnapshot) Reservation_Snapshot
      (origin (in_Cancelled cmd)) (in_Cancelled cmd)
      (fun identity => Reservation_Cancel (mkCancel (OccurredAt identity)))
      (OrNew NewReservation FromSnapshot) (bind_reservations (sv_Consumer s)) CommandConsumer
      (executor s) (cancel_command cmd) (Wrap "application: cancel") ctx w w' r)
      as (Hl' & Hc' & _ & [[Hr Ho] | (a & seen & _ & Heff)]); try done; [apply rs_uow | |].
    + split; [by apply (histories_same t _ _ _ w) | by apply extends_same].
    + split; [by eapply cancel_history_effect | by eapply extends_effect].
  - apply consume_world in Hcall as [Hl' [[Hcom _] | (d & identity & tx' & _ & Hcons & Ht & _ & Ho)]];
      [| | done].
    + unfold committed in Hcom. assert (st_tables (w_store w') = st_tables (w_store w)) as Ht by congruence.
      assert (st_outbox (w_store w') = st_outbox (w_store w)) as Ho by congruence.
      split; [| by apply extends_same]. apply (histories_same t _ _ _ w); unfold store_rows; by rewrite ?Ht.
    + destruct (consumed_world ctx cmd identity d tx' w w' Hc Hcons Ht Ho) as [Hc' [[Hr Ho'] | [a Heff]]].
      * split; [by apply (histories_same t _ _ _ w) | by apply extends_same].
      * split; [by eapply reserve_history_effect | by eapply extends_effect].
  - assert (frame w' = frame w) as [Hst Hlk]%pair_eq.
    { refine (Query_frame (executor s) ctx OperationFindReservation (OpFindReservation id) _ _ w r w' Hcall).
      intros ctx0. apply Confined_bind; [apply Confined_map_err, rs_reader | auto with confined]. }
    split; [| apply extends_same; by rewrite Hst].
    apply (histories_quiet t _ _ _ w); [done |]. unfold world_data. by rewrite Hst, Hlk.
  - split; [by apply (histories_quiet t _ _ _ w) |].
    apply pair_eq in Hd as [[_ Ho]%pair_eq _]. by apply extends_same.
Qed.

Lemma reservations_run_inv (w w' : W) :
  reservations_inv w -> rtc reservations_step w w' -> reservations_inv w' /\ extends w w'.
Proof.
  intros Hi Hrun. induction Hrun as [w | w w1 w' Hstep _ IH]; [split; [done | by apply extends_same] |].
  destruct (reservations_step_inv w w1 Hi Hstep) as [Hi1 [es1 He1]].
  destruct (IH Hi1) as [Hi' [es2 He2]]. split; [done |]. exists (es1 ++ es2).
  by rewrite He2, He1, app_assoc.
Qed.

(** The first decision on an order stands.  After any sequence of commands,
    queries and deliveries, the outbox tells of an order nothing, one confirmation
    of at least one item, or one cancellation, authored at version [1], and the row
    says the same; once it tells something, no later call, command or delivery,
    changes the row or adds to what it told. *)
Theorem reservation_decided_once w0 w w' (o : string)
    (H0 : fresh_store w0) (Hrun : rtc reservations_step w0 w) (Hlater : rtc reservations_step w w') :
  let key := (owner o, o) in
  let entries w := about AggregateType o (st_outbox (w_store w)) in
  reservation_history o (entries w') (stored t w' key) /\
  (is_Some (stored t w key) -> stored t w' key = stored t w key /\ entries w' = entries w).
Proof.
  cbv zeta.
  assert (reservations_inv w) as Hi.
  { eapply reservations_run_inv; [| exact Hrun]. apply histories_fresh; [by exists Undecided | done]. }
  destruct (reservations_run_inv w w' Hi Hlater) as [Hi' [es He]].
  pose proof (his_history t _ owner _ w Hi o) as (l & _ & Ht & Hr & _).
  pose proof (his_history t _ owner _ w' Hi' o) as Hh'. split; [exact Hh' |].
  destruct Hh' as (l' & _ & Ht' & Hr' & _). rewrite He, about_app in *.
  unfold told in *. rewrite map_app, Ht in Ht'. rewrite Hr, Hr'. intros [r Hsome].
  assert (about AggregateType o es = [] /\ l' = l) as [-> ->]; [| by rewrite app_nil_r].
  destruct l as [| n a | a]; [done | |]; destruct l'; cbn in Ht'; simplify_eq;
    (split; [by eapply map_eq_nil | done]).
Qed.

(** ** Once per message *)

(** A first answer leaves the row that will answer for the message. *)
Lemma first_row ctx cmd identity tx d tx' :
  first_consumed ctx cmd identity tx d tx' ->
  exists row, tx_inbox tx' !! inbox_key cmd = Some row /\ ir_hash row = cop_PayloadHash cmd /\
    ir_expiresAt row = 0 /\
    (d = R1D1 /\ ir_status row = StatusProcessed \/ d = R1D2 /\ ir_status row = StatusRejected).
Proof.
  intros (key & agg & v & _ & _ & [(agg' & rejection & -> & _ & ->) | (agg' & a & evs & tx1 & -> & _ & _ & _ & ->)]);
    cbn; rewrite lookup_insert_eq; eexists; repeat (split; [done |]); first [by left | by right].
Qed.

(** A row without an expiry answers for every later delivery of its message. *)
Lemma redelivery_world ctx cmd (w w' : W) r row :
  w_locked w = false -> clean t (st_tables (w_store w)) ->
  st_inbox (w_store w) !! inbox_key cmd = Some row -> ir_expiresAt row = 0 ->
  Service_ConsumeOrderPlaced s ctx cmd w = (r, w') ->
  store_rows t w' = store_rows t w /\ st_outbox (w_store w') = st_outbox (w_store w) /\
  st_inbox (w_store w') = st_inbox (w_store w) /\
  forall d, r = Ok (d, None) -> d = redelivered cmd row.
Proof.
  intros Hl Hc Hrow Hexp Hcall.
  apply consume_world in Hcall as [_ [[Hcom Hno] | (d & identity & tx' & -> & Hcons & Ht & Hi & Ho)]];
    [| | done].
  - unfold committed in Hcom. unfold store_rows.
    assert (st_tables (w_store w') = st_tables (w_store w)) as -> by congruence.
    repeat split; try congruence.
  - destruct Hcons as [(row' & Hrow' & _ & -> & ->) | [Hexpired _]].
    + cbn in Hrow', Ho, Hi, Ht. rewrite Hrow in Hrow'. injection Hrow' as <-.
      destruct (installed_same t w w' (opened_tx w) eq_refl Ht) as [_ Hs'].
      destruct (Hs' Hc) as [_ ->]. rewrite Ho, app_nil_r, Hi. repeat split. by intros d [= <-].
    + specialize (Hexpired row Hrow). unfold expired in Hexpired. by rewrite Hexp in Hexpired.
Qed.

(** C28: A message decides once.  Once a delivery was answered as processed or
    rejected, and as long as the inbox keeps its row, a later delivery of the same
    message, with whatever content, carrier, clock or failure, changes no row, no
    entry and no inbox row; when it answers, it answers as a replay of the first
    decision, or as a collision if the content is another. *)
Theorem consumed_once ctx1 cmd1 ctx2 cmd2 w1 w1' w2 r2 w2' d
    (Hl1 : w_locked w1 = false) (Hl2 : w_locked w2 = false) (Hc2 : clean t (st_tables (w_store w2)))
    (H1 : Service_ConsumeOrderPlaced s ctx1 cmd1 w1 = (Ok (d, None), w1'))
    (Hd : d = R1D1 \/ d = R1D2)
    (Hsame : cop_MessageID cmd2 = cop_MessageID cmd1)
    (Hkept : st_inbox (w_store w2) !! inbox_key cmd1 = st_inbox (w_store w1') !! inbox_key cmd1)
    (H2 : Service_ConsumeOrderPlaced s ctx2 cmd2 w2 = (r2, w2')) :
  store_rows t w2' = store_rows t w2 /\ st_outbox (w_store w2') = st_outbox (w_store w2) /\
  st_inbox (w_store w2') = st_inbox (w_store w2) /\
  forall d2, r2 = Ok (d2, None) ->
    d2 = if String.eqb (cop_PayloadHash cmd1) (cop_PayloadHash cmd2)
         then if decide (d = R1D1) then R2 else R3 else R4.
Proof.
  apply consume_world in H1 as [_ [[_ Hno] | (d' & identity & tx' & [= <-] & Hcons & _ & Hi & _)]];
    [by destruct (Hno d) | | done].
  destruct Hcons as [(row & _ & _ & Hrd & _) | [_ Hfirst%first_row]].
  { unfold redelivered in Hrd. repeat case_match; destruct Hd; congruence. }
  destruct Hfirst as (row & Hrow & Hhash & Hexp & Hst).
  assert (inbox_key cmd2 = inbox_key cmd1) as Hkey by (unfold inbox_key; congruence).
  rewrite <- Hi, <- Hkept, <- Hkey in Hrow.
  destruct (redelivery_world ctx2 cmd2 w2 w2' r2 row Hl2 Hc2 Hrow Hexp H2) as (Hr & Ho & Hi2 & Hans).
  repeat (split; [done |]). intros d2 ->%Hans. unfold redelivered. rewrite Hhash.
  destruct (String.eqb _ _); [| done]. by destruct Hst as [[-> ->] | [-> ->]].
Qed.
End Reservations.

(** A lost race for the row is to be read again, not refused. *)
Lemma save_conflict_retried : Classify (save_error ErrVersionConflict) = R1D3.
Proof. reflexivity. Qed.

(** * A run of the service *)
Module ReservationsRun.
Notation W := (World Snapshot Event Z).
Definition table : Table Snapshot Snapshot := mkTableDecl "reservations" None [] id Some.
#[global] Instance table_laws : TableLaws table.
Proof. split; [done | by intros v s [= ->] | done]. Qed.

Definition service : Service W :=
  mkService (NewUnitOfWork (bind_reservations table "reservations")) (storeReader table)
    ServiceFixture.clock ServiceFixture.ids Authorization "reservations" Fixture.policy None.
#[global] Instance service_laws : ReservationsService table service.
Proof.
  split; [done | apply unobserved | by intros ctx id w r w' [= _ <-]]; try done.
  intros ctx op. apply Confined_lift.
Qed.

Definition ctx (key : string) : Ctx :=
  ServiceFixture.ctx ["reservations:write"; "reservations:consume"] key.
Definition placed (m hash o : string) (n : Z) : ConsumeOrderPlaced :=
  mkConsumeOrderPlaced m "orders.order-placed" hash 900 o n.
Definition start : W := ServiceFixture.start.
Definition first : result error (Disposition * option error) * W :=
  Service_ConsumeOrderPlaced service (ctx "") (placed "m-1" "h1" "P-1" 2) start.
Definition again : result error (Disposition * option error) * W :=
  Service_ConsumeOrderPlaced service (ctx "") (placed "m-1" "h1" "P-1" 2) first.2.
Definition other : result error (Disposition * option error) * W :=
  Service_ConsumeOrderPlaced service (ctx "") (placed "m-2" "h1" "P-1" 5) again.2.
Definition cancelled : result error (Outcome CancelledResponse) * W :=
  Service_Cancel service (ctx "k1") (mkCancelInput "P-1") other.2.
Definition collided : result error (Disposition * option error) * W :=
  Service_ConsumeOrderPlaced service (ctx "") (placed "m-1" "h2" "P-1" 9) cancelled.2.

Example reservations_run_answers :
  first.1 = Ok (R1D1, None) /\ again.1 = Ok (R2, None) /\ other.1 = Ok (R1D2, None) /\
  cancelled.1 = Ok (OutRejected (Reject CodeReservationAlreadyReserved
                                   "reservation is already confirmed" [])) /\
  collided.1 = Ok (R4, None) /\
  stored table collided.2 ("t1", "P-1") = Some (mkSnapshot "P-1" 2 Confirmed, 1) /\
  map ent_Event (st_outbox (w_store collided.2)) =
    [EvReservationConfirmed (mkReservationConfirmed "P-1" 2 1000)].
Proof. vm_compute. repeat split. Qed.

Definition owner : string -> TenantID := fun _ => "t1"%string.
Lemma reservations_run_belongs key id : belongs owner (ctx key) id.
Proof. by intros k [= <-]. Qed.
Lemma reservations_run_first : rtc (reservations_step service owner) start first.2.
Proof.
  apply rtc_once. exact (step_Consume service _ (ctx "") (placed "m-1" "h1" "P-1" 2) start _ first.2
    (reservations_run_belongs _ _) (surjective_pairing _)).
Qed.
Lemma reservations_run_later : rtc (reservations_step service owner) first.2 cancelled.2.
Proof.
  apply (rtc_l _ first.2 again.2); [exact (step_Consume service _ (ctx "") (placed "m-1" "h1" "P-1" 2)
    first.2 _ again.2 (reservations_run_belongs _ _) (surjective_pairing _)) |].
  apply (rtc_l _ again.2 other.2); [exact (step_Consume service _ (ctx "") (placed "m-2" "h1" "P-1" 5)
    again.2 _ other.2 (reservations_run_belongs _ _) (surjective_pairing _)) |].
  apply rtc_once. exact (step_Cancel service _ (ctx "k1") (mkCancelInput "P-1") other.2 _ cancelled.2
    (reservations_run_belongs _ _) (surjective_pairing _)).
Qed.
End ReservationsRun.

Lemma reservation_decided_once_witness :
  reservation_history "P-1" (about AggregateType "P-1" (st_outbox (w_store ReservationsRun.cancelled.2)))
    (stored ReservationsRun.table ReservationsRun.cancelled.2 ("t1", "P-1")) /\
  (is_Some (stored ReservationsRun.table ReservationsRun.first.2 ("t1", "P-1")) ->
   stored ReservationsRun.table ReservationsRun.cancelled.2 ("t1", "P-1") =
     stored ReservationsRun.table ReservationsRun.first.2 ("t1", "P-1") /\
   about AggregateType "P-1" (st_outbox (w_store ReservationsRun.cancelled.2)) =
     about AggregateType "P-1" (st_outbox (w_store ReservationsRun.first.2))).
Proof.
  apply (reservation_decided_once ReservationsRun.table ReservationsRun.service ReservationsRun.owner
    ReservationsRun.start ReservationsRun.first.2 ReservationsRun.cancelled.2 "P-1");
    [by split | exact ReservationsRun.reservations_run_first | exact ReservationsRun.reservations_run_later].
Defined.

Lemma consumed_once_witness :
  ReservationsRun.collided.1 = Ok (R4, None) /\
  store_rows ReservationsRun.table ReservationsRun.collided.2 =
    store_rows ReservationsRun.table ReservationsRun.cancelled.2.
Proof.
  split; [by vm_compute |].
  apply (consumed_once ReservationsRun.table ReservationsRun.service (ReservationsRun.ctx "")
    (ReservationsRun.placed "m-1" "h1" "P-1" 2) (ReservationsRun.ctx "")
    (ReservationsRun.placed "m-1" "h2" "P-1" 9) ReservationsRun.start ReservationsRun.first.2
    ReservationsRun.cancelled.2 ReservationsRun.collided.1 ReservationsRun.collided.2 R1D1);
    [done | by vm_compute | by vm_compute | by vm_compute | by left | done | by vm_compute
    | exact (surjective_pairing _)].
Defined.
