(* ===== verification/ChannelTheorems.v ===== *)
(** What the channel catalogue promises: the channels it admits, the addresses
    that share a catalogue, the bounds of the redelivery windows, and the attempt
    count read back. *)

From S2P Require Import Prelude GoTime GoStrings Regex DomainKernel Errors Channel.

(** * Guards, read as conjunctions *)
Lemma guard_Ok {A} (b : bool) (e : error) (r : result error A) a :
  (if b then Err e else r) = Ok a <-> b = false /\ r = Ok a.
Proof. destruct b; naive_solver. Qed.
Lemma guarded_Ok {A} (b : bool) (e : error) (r : result error A) a :
  (if b then r else Err e) = Ok a <-> b = true /\ r = Ok a.
Proof. destruct b; naive_solver. Qed.
Lemma then_Ok (r : result error unit) {A} (k : result error A) a :
  (_ ← r; k) = Ok a <-> r = Ok () /\ k = Ok a.
Proof. destruct r as [[] | |]; cbn; naive_solver. Qed.
Lemma under_name_Ok r : under_name r = Ok () <-> r = Ok ().
Proof. destruct r; naive_solver. Qed.
Lemma eqb_false s t : String.eqb s t = false <-> s <> t.
Proof. apply String.eqb_neq. Qed.
Lemma leb_0_false z : (z <=? 0) = false <-> 0 < z.
Proof. apply Z.leb_gt. Qed.
Lemma existsb_none {A} (f : A -> bool) l : existsb f l = false <-> Forall (fun x => f x = false) l.
Proof.
  induction l as [| x l IH]; cbn; [done |].
  rewrite orb_false_iff, IH, Forall_cons. done.
Qed.
#[local] Hint Rewrite @guard_Ok @guarded_Ok @then_Ok under_name_Ok eqb_false leb_0_false
  orb_true_iff orb_false_iff andb_true_iff andb_false_iff negb_true_iff negb_false_iff
  String.eqb_eq : guards.

(** * What is admitted *)
Definition address_ok (address prefix : string) : Prop :=
  1 <= Z.of_nat (String.length address) <= MaxAddressLength /\
  Forall (fun c => address_char c = true) (String.list_ascii_of_string address) /\
  (prefix = ""%string -> forall segment, segment ∈ split_on "." address ->
     segment ∉ environmentSegments) /\
  (prefix <> ""%string ->
     Forall (fun c => address_char c = true) (String.list_ascii_of_string prefix) /\
     String.prefix (prefix ++ ".") address = true).

Definition ordering_ok (o : Ordering) : Prop :=
  or_Unit o = None_ /\ or_Key o = ""%string \/
  (or_Unit o = Partition \/ or_Unit o = Group) /\ or_Key o <> ""%string.
Definition retry_ok (o : Ordering) (r : Retry) : Prop :=
  (rt_Strategy r = InlineWithLimit \/ rt_Strategy r = SeparateChannel) /\ 0 < rt_MaxAttempts r /\
  (or_Unit o <> None_ -> rt_Strategy r <> SeparateChannel).
Definition events_ok (events : list Event) : Prop :=
  events <> [] /\ Forall (fun e => ev_Type e <> ""%string /\ ev_ContractRef e <> ""%string) events /\
  NoDup (map ev_Type events).
(** A window with a closed, positive bound and every parameter of its formula. *)
Definition window_ok (transport : Transport) (w : RedeliveryWindow) : Prop :=
  formulaTransport (rw_Formula w) = transport /\ 0 < rw_UpperBound w /\
  exists required, requiredParams (rw_Formula w) = Some required /\
    Forall (fun name => blank (param (rw_Params w) name) = false) required.
(** What each transport adds. *)
Definition placed_ok (c : Channel) : Prop :=
  ch_Transport c = Kafka /\ or_Unit (ch_Ordering c) <> Group /\
    address_ok (ch_Address c) (ch_EnvironmentPrefix c) /\ ch_Group c <> ""%string /\
    0 < ch_Partitions c /\ ch_Partitioner c <> ""%string /\ ch_KeyEncoding c <> ""%string \/
  (ch_Transport c = SQS \/ ch_Transport c = SNSSQS) /\ or_Unit (ch_Ordering c) <> Partition.

Record operable (c : Channel) : Prop := {
  op_items : ch_Name c <> ""%string /\ ch_Address c <> ""%string /\ 0 < ch_ContractMajor c /\
    ch_Containment c <> ""%string;
  op_events : events_ok (ch_Events c);
  op_ordering : ordering_ok (ch_Ordering c);
  op_retry : retry_ok (ch_Ordering c) (ch_Retry c);
  op_window : window_ok (ch_Transport c) (ch_Redelivery c);
  op_placed : placed_ok c
}.

Lemma ValidateAddress_iff address prefix :
  ValidateAddress address prefix = Ok () <-> address_ok address prefix.
Proof.
  unfold ValidateAddress, address_ok.
  assert (forall s, re_match addressAlphabet s = true <->
    s <> ""%string /\ Forall (fun c => address_char c = true) (String.list_ascii_of_string s)) as Hre.
  { intros s. unfold addressAlphabet. rewrite re_match_lang, lang_plus_char. destruct s; split; intros [??]; by split. }
  assert (address <> ""%string <-> 1 <= Z.of_nat (String.length address)) as Hlen
    by (destruct address; cbn [String.length]; split; try done; intros; lia).
  rewrite !guard_Ok, eqb_false, Z.ltb_ge, negb_false_iff, Hre, !Hlen.
  destruct (String.eqb_spec prefix "") as [-> | Hp]; cbn [negb].
  - rewrite guard_Ok, existsb_none.
    assert (Forall (fun x => bool_decide (x ∈ environmentSegments) = false) (split_on "." address) <->
      (forall x, x ∈ split_on "." address -> x ∉ environmentSegments)) as ->.
    { rewrite Forall_forall. split; intros H x Hx; specialize (H x Hx); by apply bool_decide_eq_false in H
        || by apply bool_decide_eq_false. }
    split; [intros (? & ? & [? ?] & ? & _) | intros ([? ?] & ? & Hs & _)]; repeat split; intros; auto; (lia || congruence).
  - rewrite !guard_Ok, !negb_false_iff, Hre.
    split; [intros (? & ? & [? ?] & [? ?] & ? & _) | intros ([? ?] & ? & _ & Hpre)].
    + repeat split; intros; auto; (lia || congruence).
    + destruct (Hpre Hp). repeat split; auto; lia.
Qed.

Lemma validate_events_iff earlier events :
  validate_events earlier events = Ok () <->
  Forall (fun e => ev_Type e <> ""%string /\ ev_ContractRef e <> ""%string) events /\
  Forall (fun e => ev_Type e ∉ map ev_Type earlier) events /\ NoDup (map ev_Type events).
Proof.
  revert earlier. induction events as [| e events IH]; intros earlier; cbn [validate_events map].
  { split; [| done]. intros _. repeat split; constructor. }
  rewrite !guard_Ok, !eqb_false, existsb_none, IH, !Forall_cons, NoDup_cons.
  assert (Forall (fun x => String.eqb (ev_Type x) (ev_Type e) = false) earlier <->
          ev_Type e ∉ map ev_Type earlier) as ->.
  { rewrite Forall_forall. setoid_rewrite eqb_false. change (map ev_Type) with (fmap (M := list) ev_Type).
    rewrite list_elem_of_fmap. naive_solver. }
  assert (Forall (fun x => ev_Type x ∉ map ev_Type (earlier ++ [e])) events <->
          Forall (fun x => ev_Type x ∉ map ev_Type earlier) events /\ ev_Type e ∉ map ev_Type events) as ->.
  { rewrite map_app. change (map ev_Type) with (fmap (M := list) ev_Type).
    rewrite !Forall_forall, list_elem_of_fmap. setoid_rewrite elem_of_app. cbn. setoid_rewrite list_elem_of_singleton.
    naive_solver. }
  tauto.
Qed.

Lemma Channel_validateEvents_iff c : Channel_validateEvents c = Ok () <-> events_ok (ch_Events c).
Proof.
  unfold Channel_validateEvents, events_ok. rewrite guard_Ok, validate_events_iff, Z.eqb_neq.
  assert (len (ch_Events c) <> 0 <-> ch_Events c <> []) as ->
    by (unfold len; destruct (ch_Events c); cbn; split; (done || lia)).
  assert (Forall (fun e : Event => ev_Type e ∉ map ev_Type []) (ch_Events c)) as Hnil
    by (apply Forall_forall; intros e _; apply not_elem_of_nil).
  tauto.
Qed.

Lemma Ordering_Validate_iff o : Ordering_Validate o = Ok () <-> ordering_ok o.
Proof.
  unfold Ordering_Validate, ordering_ok.
  destruct (String.eqb_spec (or_Unit o) None_) as [Hn | Hn].
  - rewrite guard_Ok, negb_false_iff, String.eqb_eq.
    assert (or_Unit o <> Partition /\ or_Unit o <> Group) by (rewrite Hn; by split). tauto.
  - rewrite guarded_Ok, guard_Ok, orb_true_iff, !String.eqb_eq, eqb_false. tauto.
Qed.

Lemma RedeliveryWindow_Validate_iff w transport :
  RedeliveryWindow_Validate w = Ok () /\ RedeliveryWindow_Transport w = transport <->
  window_ok transport w.
Proof.
  unfold RedeliveryWindow_Validate, RedeliveryWindow_Transport, window_ok.
  destruct (requiredParams (rw_Formula w)) as [required |].
  - rewrite !guard_Ok, existsb_none, leb_0_false. naive_solver.
  - naive_solver.
Qed.

Lemma Channel_validateTransport_iff c :
  (ch_Transport c = Kafka \/ ch_Transport c = SQS) \/ ch_Transport c = SNSSQS ->
  Channel_validateTransport c = Ok () <-> placed_ok c.
Proof.
  unfold Channel_validateTransport, placed_ok. intros Ht.
  destruct (String.eqb_spec (ch_Transport c) Kafka) as [Hk | Hk].
  - assert (ch_Transport c <> SQS /\ ch_Transport c <> SNSSQS) by (rewrite Hk; by split).
    rewrite guard_Ok, eqb_false, <- ValidateAddress_iff.
    destruct (ValidateAddress _ _) as [[] | |]; [| naive_solver ..].
    rewrite !guard_Ok, !eqb_false, leb_0_false. tauto.
  - destruct (String.eqb_spec (ch_Transport c) SQS); destruct (String.eqb_spec (ch_Transport c) SNSSQS);
      cbn [orb]; rewrite ?guard_Ok, ?eqb_false; tauto.
Qed.

Lemma window_declared w transport : window_ok transport w -> RedeliveryWindow_IsZero w = false.
Proof.
  intros (_ & Hb & _). unfold RedeliveryWindow_IsZero.
  destruct (Z.eqb_spec (rw_UpperBound w) 0); [lia |]. by rewrite andb_false_r.
Qed.

(** C33: The validation admits exactly the operable channels: every catalogue item,
    events of distinct types, an order its transport can keep, an ordered channel
    never retried elsewhere, a closed redelivery window of its own transport with
    every parameter of the formula, and on Kafka a legal address. *)
Theorem Channel_Validate_exactly c : Channel_Validate c = Ok () <-> operable c.
Proof.
  unfold Channel_Validate.
  rewrite !guard_Ok, !eqb_false, leb_0_false, !then_Ok, !under_name_Ok, Channel_validateEvents_iff,
    Ordering_Validate_iff, !guard_Ok, then_Ok, under_name_Ok, guard_Ok, negb_false_iff, String.eqb_eq.
  assert (forall r, (if String.eqb (ch_Transport c) Kafka || String.eqb (ch_Transport c) SQS
      || String.eqb (ch_Transport c) SNSSQS then Ok () else r) = Ok () <->
    ((ch_Transport c = Kafka \/ ch_Transport c = SQS) \/ ch_Transport c = SNSSQS) \/
    String.eqb (ch_Transport c) Kafka || String.eqb (ch_Transport c) SQS
      || String.eqb (ch_Transport c) SNSSQS = false /\ r = Ok ()) as ->.
  { intros r. destruct (_ || _) eqn:Hb.
    - rewrite !orb_true_iff, !String.eqb_eq in Hb. naive_solver.
    - rewrite !orb_false_iff, !eqb_false in Hb. naive_solver. }
  assert (Retry_Validate (ch_Retry c) = Ok () /\
    Ordering_Ordered (ch_Ordering c) && String.eqb (rt_Strategy (ch_Retry c)) SeparateChannel = false <->
    retry_ok (ch_Ordering c) (ch_Retry c)) as Hretry.
  { unfold Retry_Validate, retry_ok, Ordering_Ordered.
    rewrite !guard_Ok, negb_false_iff, orb_true_iff, !String.eqb_eq, leb_0_false, andb_false_iff,
      negb_false_iff, String.eqb_eq, eqb_false.
    destruct (decide (or_Unit (ch_Ordering c) = None_)); tauto. }
  pose proof (RedeliveryWindow_Validate_iff (ch_Redelivery c) (ch_Transport c)) as Hw.
  pose proof (window_declared (ch_Redelivery c) (ch_Transport c)) as Hz.
  pose proof (Channel_validateTransport_iff c) as Ht.
  split.
  - intros (? & ? & ? & ? & ? & Htr & ? & ? & ? & ? & ? & ? & ?).
    assert ((ch_Transport c = Kafka \/ ch_Transport c = SQS) \/ ch_Transport c = SNSSQS) as Htr'.
    { destruct Htr as [Htr | [_ Htr]]; [done |]. by destruct (String.eqb _ ""). }
    split; tauto.
  - intros [(? & ? & ? & ?) ? ? ? ? Hp].
    assert ((ch_Transport c = Kafka \/ ch_Transport c = SQS) \/ ch_Transport c = SNSSQS) as Htr
      by (unfold placed_ok in Hp; tauto).
    tauto.
Qed.

(** * Catalogues *)

(** What a catalogue of this content is, in whatever order it is read. *)
Definition entry_ok (entry : string * Channel) : Prop :=
  entry.1 = ch_Name entry.2 /\ operable entry.2.
Definition kafka_addresses (entries : list (string * Channel)) : list string :=
  map (fun entry => collisionKey (ch_Address entry.2))
    (filter (fun entry => ch_Transport entry.2 = Kafka) entries).

Lemma catalog_loop_iff seen entries :
  catalog_loop seen entries = Ok () <->
  Forall entry_ok entries /\ NoDup (kafka_addresses entries) /\
  Forall (fun k => seen !! k = None) (kafka_addresses entries).
Proof.
  revert seen. induction entries as [| [key ch] entries IH]; intros seen; cbn [catalog_loop].
  { split; [| done]. intros _. repeat split; constructor. }
  rewrite guard_Ok, negb_false_iff, String.eqb_eq, then_Ok, Channel_Validate_exactly, Forall_cons.
  unfold entry_ok at 1, kafka_addresses. cbn [fst snd]. rewrite filter_cons. cbn [snd].
  destruct (String.eqb_spec (ch_Transport ch) Kafka) as [Hk | Hk]; cbn [negb].
  - rewrite decide_True by done. cbn [map snd]. rewrite NoDup_cons, Forall_cons.
    fold (kafka_addresses entries).
    destruct (seen !! collisionKey (ch_Address ch)) eqn:Hs; [naive_solver |]. rewrite IH.
    assert (Forall (fun k => <[collisionKey (ch_Address ch) := ch_Address ch]> seen !! k = None)
              (kafka_addresses entries) <->
            Forall (fun k => seen !! k = None) (kafka_addresses entries) /\
            collisionKey (ch_Address ch) ∉ kafka_addresses entries) as ->; [| tauto].
    rewrite !Forall_forall. setoid_rewrite lookup_insert_None. naive_solver.
  - rewrite decide_False by done. fold (kafka_addresses entries). rewrite IH. tauto.
Qed.

Lemma kafka_addresses_perm e1 e2 : e1 ≡ₚ e2 -> kafka_addresses e1 ≡ₚ kafka_addresses e2.
Proof. intros H. unfold kafka_addresses. by rewrite H. Qed.

(** A valid catalogue holds operable channels under their own names, and no two
    Kafka addresses of it read alike where a dot and an underscore do; whether a
    catalogue is valid does not depend on the order Go ranges over it. *)
Theorem Catalog_Validate_exactly order c (Horder : order c ≡ₚ map_to_list c) :
  Catalog_Validate order c = Ok () <->
  (forall key ch, c !! key = Some ch -> key = ch_Name ch /\ operable ch) /\
  (forall k1 k2 ch1 ch2, c !! k1 = Some ch1 -> c !! k2 = Some ch2 ->
     ch_Transport ch1 = Kafka -> ch_Transport ch2 = Kafka ->
     collisionKey (ch_Address ch1) = collisionKey (ch_Address ch2) -> k1 = k2).
Proof.
  unfold Catalog_Validate. rewrite catalog_loop_iff, (kafka_addresses_perm _ _ Horder).
  rewrite Horder, Forall_forall.
  assert ((forall x, x ∈ map_to_list c -> entry_ok x) <->
    forall key ch, c !! key = Some ch -> key = ch_Name ch /\ operable ch) as ->.
  { unfold entry_ok. split.
    - intros H key ch Hc. by apply (H (key, ch)), elem_of_map_to_list.
    - intros H [key ch] Hc%elem_of_map_to_list. by apply H. }
  assert (Forall (fun k => (∅ : gmap string string) !! k = None) (kafka_addresses (map_to_list c)))
    as Hnil by (apply Forall_forall; intros; apply lookup_empty).
  assert (NoDup (kafka_addresses (map_to_list c)) <->
    forall k1 k2 ch1 ch2, c !! k1 = Some ch1 -> c !! k2 = Some ch2 ->
      ch_Transport ch1 = Kafka -> ch_Transport ch2 = Kafka ->
      collisionKey (ch_Address ch1) = collisionKey (ch_Address ch2) -> k1 = k2) as ->; [| tauto].
  unfold kafka_addresses. split.
  - intros Hnd k1 k2 ch1 ch2 H1 H2 T1 T2 Hc.
    assert (forall k ch, c !! k = Some ch -> ch_Transport ch = Kafka ->
      (k, ch) ∈ filter (fun entry => ch_Transport entry.2 = Kafka) (map_to_list c)) as Hin.
    { intros k ch Hk Ht. apply list_elem_of_filter. split; [done |]. by apply elem_of_map_to_list. }
    pose proof (Hin _ _ H1 T1) as I1. pose proof (Hin _ _ H2 T2) as I2.
    apply list_elem_of_lookup in I1 as [i1 I1], I2 as [i2 I2].
    assert (i1 = i2) as ->; [| congruence].
    apply (NoDup_lookup _ i1 i2 (collisionKey (ch_Address ch1)) Hnd);
      change (map ?f ?l) with (fmap (M := list) f l); rewrite list_lookup_fmap.
    + by rewrite I1.
    + rewrite I2. cbn. by rewrite Hc.
  - intros Hinj. apply NoDup_alt. intros i j k Hi Hj.
    change (map ?f ?l) with (fmap (M := list) f l) in Hi, Hj. rewrite list_lookup_fmap in Hi, Hj.
    destruct (filter _ _ !! i) as [[k1 c1] |] eqn:Ei; [| done].
    destruct (filter _ _ !! j) as [[k2 c2] |] eqn:Ej; [| done]. cbn in Hi, Hj.
    pose proof (list_elem_of_lookup_2 _ _ _ Ei) as [T1 M1%elem_of_map_to_list]%list_elem_of_filter.
    pose proof (list_elem_of_lookup_2 _ _ _ Ej) as [T2 M2%elem_of_map_to_list]%list_elem_of_filter.
    cbn in T1, T2. assert (k1 = k2) as <- by (apply (Hinj k1 k2 c1 c2 M1 M2 T1 T2); congruence).
    assert (Some c1 = Some c2) as [= <-] by (etransitivity; [symmetry; exact M1 | exact M2]).
    eapply NoDup_lookup; [| exact Ei | exact Ej]. apply NoDup_filter, NoDup_map_to_list.
Qed.

(** Two catalogued channels whose addresses read alike. *)
Definition collidingCatalog : Catalog :=
  <["orders"%string := NewKafka "orders" "orders.events" "orders.dlq" "orders" [mkEvent "order.placed" "a"]]>
  (<["other"%string := NewKafka "other" "orders_events" "other.dlq" "other" [mkEvent "order.placed" "a"]]> ∅).
Lemma Catalog_Validate_exactly_witness :
  Catalog_Validate map_to_list collidingCatalog <> Ok ().
Proof.
  intros Hok.
  destruct (proj1 (Catalog_Validate_exactly map_to_list collidingCatalog (reflexivity _)) Hok) as [_ Hinj].
  assert ("orders" = "other")%string; [| discriminate].
  eapply Hinj; [vm_compute; reflexivity | vm_compute; reflexivity | reflexivity | reflexivity | vm_compute; reflexivity].
Defined.

(** * Windows *)

(** As long as the product fits, the horizon of a queue is its receipts times
    the visibility of each, twelve hours at most, within the retention; the window
    then validates.  The product wraps beyond that: see [SQSWindow_wraps]. *)
Theorem SQSWindow_exact n visibility retention
    (Hn : 0 < n) (Hv : 0 < visibility) (Hr : 0 < retention)
    (Hfits : n * Z.min visibility MaxVisibility <= max_int64) :
  rw_UpperBound (SQSWindow n visibility retention) =
    Z.min (n * Z.min visibility MaxVisibility) retention /\
  window_ok SQS (SQSWindow n visibility retention).
Proof.
  assert (rw_UpperBound (SQSWindow n visibility retention) =
    Z.min (n * Z.min visibility MaxVisibility) retention) as Hb.
  { unfold SQSWindow. cbn [rw_UpperBound].
    destruct (Z.leb_spec n 0); [lia |]. destruct (Z.leb_spec visibility 0); [lia |].
    destruct (Z.leb_spec retention 0); [lia |]. cbn [orb]. rewrite wrap64_id; [done |].
    unfold in_int64, min_int64, max_int64, MaxVisibility, Hour, Second, Millisecond in *. lia. }
  split; [done |]. split; [done |]. split.
  { rewrite Hb. unfold MaxVisibility, Hour, Second, Millisecond. lia. }
  exists ["maxReceiveCount"; "visibilityBase"; "retention"]%string. split; [done |].
  unfold SQSWindow, set_param. cbn [rw_Params].
  rewrite !(proj2 (Z.ltb_lt 0 _)) by done.
  repeat constructor; cbv beta; unfold param; rewrite ?lookup_insert_eq, ?lookup_insert_ne by done;
    cbn [default id]; by first [apply blank_Itoa; lia | apply blank_Duration_String].
Qed.

Lemma SQSWindow_exact_witness :
  rw_UpperBound (SQSWindow 5 (30 * Second) (24 * Hour)) = 150 * Second /\
  window_ok SQS (SQSWindow 5 (30 * Second) (24 * Hour)).
Proof.
  apply (SQSWindow_exact 5 (30 * Second) (24 * Hour)); by vm_compute.
Defined.

(** A limit large enough to wrap the product shows a window of about a day where
    the retention alone allows fourteen, and it still validates. *)
Lemma SQSWindow_wraps :
  let w := SQSWindow 427010 (12 * Hour) (14 * 24 * Hour) in
  is_Ok (RedeliveryWindow_Validate w) = true /\ rw_UpperBound w < 14 * 24 * Hour.
Proof. by vm_compute. Qed.

(** * The channels of the workspace *)

(** A channel declared the shared way is operable as soon as its names are. *)
Theorem NewKafka_operable name address dlq group events
    (Hnames : name <> ""%string /\ dlq <> ""%string /\ group <> ""%string)
    (Haddress : address_ok address "") (Hevents : events_ok events) :
  operable (NewKafka name address dlq group events) /\
  rw_UpperBound (ch_Redelivery (NewKafka name address dlq group events)) = 7 * 24 * Hour.
Proof.
  destruct Hnames as (? & ? & ?). split; [| done]. split; cbn.
  - repeat split; try done; try lia. destruct Haddress as ([Hl _] & _). by destruct address.
  - done.
  - right. split; [by left | done].
  - split; [by left |]. by split.
  - split; [done |]. split; [done |]. eexists. split; [done |].
    repeat constructor; by vm_compute.
  - left. by do 6 (split; [done |]).
Qed.

Lemma NewKafka_operable_witness :
  operable (NewKafka "orders.events" "orders.events" "orders.dlq" "reservations"
    [mkEvent "com.company.orders.order-placed" "orders/v1"]) /\
  WireTypes (NewKafka "orders.events" "orders.events" "orders.dlq" "reservations"
    [mkEvent "com.company.orders.order-placed" "orders/v1"]) =
    ["com.company.orders.order-placed.v1"]%string.
Proof.
  split; [| by vm_compute].
  apply (NewKafka_operable "orders.events" "orders.events" "orders.dlq" "reservations"
    [mkEvent "com.company.orders.order-placed" "orders/v1"]).
  - done.
  - by apply ValidateAddress_iff.
  - split; [done |]. split; [by repeat constructor |]. apply NoDup_singleton.
Defined.

(** * The attempt count *)

(** The count beside a message is read back as it was written; no text stands for
    a count that is not positive. *)
Theorem attempt_header_round_trip n (Hn : 1 <= n <= max_int64) :
  Decode (Encode n) = Ok n /\ forall value m, Decode value = Ok m -> 1 <= m <= max_int64.
Proof.
  split.
  - unfold Decode, Encode. rewrite Atoi_Itoa by (unfold in_int64, min_int64; lia).
    destruct (Z.leb_spec n 0); [lia | done].
  - intros value m. unfold Decode. destruct (Atoi value) as [k |] eqn:Hk; [| done].
    destruct (Z.leb_spec k 0); [done |]. intros [= <-]. apply Atoi_in in Hk as [_ Hk]. lia.
Qed.

Lemma attempt_header_round_trip_witness : Decode (Encode 3) = Ok 3.
Proof. apply (attempt_header_round_trip 3). by vm_compute. Defined.
