(* ===== verification/KafkaInvariant.v ===== *)
(** The inductive invariants of the Kafka consumer: how any step changes one
    worker and its history ([effect]), what holds of them ([worker_ok]), and who
    holds a partition ([placed]).  [KafkaTheorems] reads the results off them. *)

From S2P Require Import Prelude Regex DomainKernel Errors Channel KafkaWorker.

Section Invariants.
Context (l : limits).

(** * One worker and its history *)
Definition view (id : loc) (s : system) : option (worker * history) :=
  (fun w => (w, history_of id s)) <$> sy_workers s !! id.

Definition receive (r : record) (h : history) : history :=
  mkHistory (h_received h ++ [r]) (h_handled h) (h_commits h).
Definition answer (e : record * Z * gesture) (h : history) : history :=
  mkHistory (h_received h) (h_handled h ++ [e]) (h_commits h).
Definition commit (r : record) (h : history) : history :=
  mkHistory (h_received h) (h_handled h) (h_commits h ++ [r]).

Definition observed (ch : choice) (w : worker) (h : history) : history :=
  match w_pc w, ch with
  | Handling r n, SinkReturns gs => answer (r, n, decision gs) h
  | _, _ => h
  end.
Definition called (c : call) (h : history) : history :=
  match c with CommitRecords r => commit r h | _ => h end.

Inductive effect : worker * history -> worker * history -> Prop :=
| by_step ch w h w' c :
    worker_step l ch w = Some (w', c) -> effect (w, h) (w', called c (observed ch w h))
| by_panic w h : effect (w, h) (set_pc Exited w, h)
| by_cancel w h : effect (w, h) (cancel w, h)
| by_revocation w h : effect (w, h) (markRevoked w, h)
| by_signal w h : effect (w, h) (set_signal true w, h)
| by_enqueue r w h : effect (w, h) ((enqueue l r w).1, receive r h)
| by_resume w h : effect (w, h) ((resumeFetch w).1, h)
| by_final_commit w h : effect (w, h) ((commitContiguous true w).2, h).

(** The final commit a settling has under way. *)
Definition committing (x : settling) (id : loc) (r : record) : Prop :=
  match x with FinalCommitCall id' r' _ _ => id' = id /\ r' = r | _ => False end.

Inductive change (s s' : system) (id : loc) : Prop :=
| unchanged : view id s' = view id s -> change s s' id
| created k :
    id = sy_next s -> sy_next s' = S id -> view id s = None -> view id s' = Some (newPartitionWorker k, no_history) ->
    change s s' id
| affected v v' :
    view id s = Some v -> view id s' = Some v' -> effect v v' ->
    h_received v'.2 = h_received v.2 \/ (exists rs rest, sy_poller s = Enqueueing id rs rest) ->
    change s s' id
| final_committed shutdown x r w h :
    get_settling shutdown s = Some x -> committing x id r ->
    view id s = Some (w, h) -> view id s' = Some (w, commit r h) -> change s s' id.

(** ** How the setters change a view *)
Lemma view_set_worker id w s : view id (set_worker id w s) = Some (w, history_of id s).
Proof. unfold view; cbn. by rewrite lookup_insert_eq. Qed.
Lemma view_set_worker_ne id id' w s : id <> id' -> view id (set_worker id' w s) = view id s.
Proof. intros Hne. unfold view; cbn. by rewrite lookup_insert_ne. Qed.
Lemma history_set_history id h s : history_of id (set_history id h s) = h.
Proof. unfold history_of; cbn. by rewrite lookup_insert_eq. Qed.
Lemma history_set_history_ne id id' h s : id <> id' -> history_of id (set_history id' h s) = history_of id s.
Proof. intros Hne. unfold history_of; cbn. by rewrite lookup_insert_ne. Qed.
Lemma view_set_history id h s :
  view id (set_history id h s) = (fun w => (w, h)) <$> sy_workers s !! id.
Proof. unfold view. by rewrite history_set_history. Qed.
Lemma view_set_history_ne id id' h s : id <> id' -> view id (set_history id' h s) = view id s.
Proof. intros Hne. unfold view. by rewrite history_set_history_ne. Qed.

(** The ids not handed out yet have no worker. *)
Definition fresh_ids (s : system) : Prop :=
  forall id, (sy_next s <= id)%nat -> sy_workers s !! id = None.

Lemma view_Some id s w : sy_workers s !! id = Some w -> view id s = Some (w, history_of id s).
Proof. intros Hw. unfold view. by rewrite Hw. Qed.
Lemma view_same id s s' :
  sy_workers s' = sy_workers s -> sy_history s' = sy_history s -> view id s' = view id s.
Proof. unfold view, history_of. by intros -> ->. Qed.

(** A step that rewrites one worker, and perhaps its history. *)
Lemma change_one id id0 s s' w w' h' :
  sy_workers s !! id0 = Some w -> sy_workers s' = <[id0 := w']> (sy_workers s) ->
  (sy_history s' = sy_history s /\ h' = history_of id0 s \/
   sy_history s' = <[id0 := h']> (sy_history s)) ->
  effect (w, history_of id0 s) (w', h') ->
  h_received h' = h_received (history_of id0 s) \/ (exists rs rest, sy_poller s = Enqueueing id0 rs rest) ->
  change s s' id.
Proof.
  intros Hw Hws Hh He Hrec. destruct (decide (id = id0)) as [-> | Hne].
  - eapply affected; [by apply view_Some | | exact He | exact Hrec].
    unfold view. rewrite Hws, lookup_insert_eq. cbn. do 2 f_equal.
    unfold history_of in *. destruct Hh as [[-> ->] | ->]; [done | by rewrite lookup_insert_eq].
  - apply unchanged. unfold view, history_of. rewrite Hws, lookup_insert_ne by done.
    destruct Hh as [[-> _] | ->]; [done |]. by rewrite lookup_insert_ne.
Qed.

Lemma change_views id s s1 s2 :
  change s s1 id -> sy_next s2 = sy_next s1 -> sy_workers s2 = sy_workers s1 -> sy_history s2 = sy_history s1 ->
  change s s2 id.
Proof.
  intros Hc Hn2 Hw Hh. pose proof (view_same id s1 s2 Hw Hh) as Hv.
  destruct Hc as [Hs | k Hn Hn' H1 H2 | v v' H1 H2 He Hrec | sh x r w h Hx Hcm H1 H2].
  - apply unchanged. congruence.
  - eapply (created _ _ _ k); [exact Hn | congruence | exact H1 | congruence].
  - eapply affected; [exact H1 | rewrite Hv; exact H2 | exact He | exact Hrec].
  - eapply final_committed; [exact Hx | exact Hcm | exact H1 | rewrite Hv; exact H2].
Qed.

Lemma run_worker_change id id0 ch s s' : run_worker l id0 ch s = Some s' -> change s s' id.
Proof.
  unfold run_worker. destruct (sy_workers s !! id0) as [w |] eqn:Hw; [| done].
  destruct (worker_step l ch w) as [[w' c] |] eqn:Hst; [| done]. intros [= <-].
  eapply change_one; [exact Hw | | | by eapply by_step |].
  - unfold observe. destruct c, ch; cbn; try done; by destruct (w_pc w).
  - unfold observe, observed, handled, committed, history_of, answer, commit.
    destruct c, ch; cbn; try (by left); try (by right); destruct (w_pc w); cbn;
      try (by left); try (by right); right; unfold history_of; cbn; by rewrite ?lookup_insert_eq, ?insert_insert_eq.
  - left. unfold observed. destruct c; cbn; by destruct (w_pc w), ch.
Qed.

Lemma worker_of_change id k s : fresh_ids s -> change s (worker_of k s).2 id.
Proof.
  intros Hf. unfold worker_of. destruct (sy_stuck s !! k); [by apply unchanged |].
  destruct (sy_registry s !! k); [by apply unchanged |]; cbn.
  destruct (decide (id = sy_next s)) as [-> | Hne].
  - eapply (created _ _ _ k); [done | done | unfold view; by rewrite Hf |].
    unfold view, history_of; cbn. by rewrite !lookup_insert_eq.
  - apply unchanged. unfold view, history_of; cbn. by rewrite !lookup_insert_ne.
Qed.

Lemma run_poller_change id s s' : fresh_ids s -> run_poller l s = Some s' -> change s s' id.
Proof.
  intros Hf. unfold run_poller.
  destruct (sy_poller s) as [| [| [k [| r rs]] rest] | w0 [| r rs] rest | w0 rs rest | w0 rs rest |] eqn:Hp;
    try done; try (intros [= <-]; by apply unchanged).
  - intros Hr. pose proof (worker_of_change id k s Hf) as Hc.
    destruct (worker_of k s) as [[i |] s1]; cbn in Hc; injection Hr as <-;
      by eapply change_views.
  - destruct (sy_workers s !! w0) as [w |] eqn:Hw; [| done].
    destruct (enqueue l r w) as [w' pause] eqn:He. intros [= <-].
    eapply change_one; [exact Hw | reflexivity | by right | | right; by eauto].
    unfold history_of; cbn. change w' with (w', pause).1. rewrite <- He. apply by_enqueue.
  - destruct (sy_workers s !! w0) as [w |] eqn:Hw; [| done]. intros [= <-]. by apply unchanged.
  - destruct (sy_workers s !! w0) as [w |] eqn:Hw; [| done]. intros [= <-].
    eapply change_one; [exact Hw | reflexivity | by left | apply by_signal | by left].
Qed.

Lemma run_settling_change id shutdown x x' ch s s' :
  get_settling shutdown s = Some x -> run_settling x ch s = Some (x', s') -> change s s' id.
Proof.
  intros Hx. unfold run_settling. repeat case_match; intros; simplify_eq;
    try (by apply unchanged);
    try (eapply change_one; [eassumption | reflexivity | by left | by constructor | by left]).
  - eapply change_one; [eassumption | reflexivity | by left | | by left].
    match goal with H : resumeFetch ?w = (?w', _) |- _ => change w' with (w', true).1; rewrite <- H end.
    apply by_resume.
  - eapply change_one; [eassumption | reflexivity | by left | | by left].
    match goal with H : resumeFetch ?w = (?w', _) |- _ => change w' with (w', false).1; rewrite <- H end.
    apply by_resume.
  - eapply change_one; [eassumption | reflexivity | by left | | by left].
    match goal with H : commitContiguous true ?w = (_, ?w') |- _ => change w' with (Some r, w').2; rewrite <- H end.
    apply by_final_commit.
  - eapply change_one; [eassumption | reflexivity | by left | | by left].
    match goal with H : commitContiguous true ?w = (_, ?w') |- _ => change w' with (@None record, w').2; rewrite <- H end.
    apply by_final_commit.
  - destruct (decide (id = w)) as [-> | Hne].
    + destruct (sy_workers s !! w) as [wk |] eqn:Hw.
      * eapply final_committed; [exact Hx | done | by apply view_Some |].
        unfold view, committed. rewrite history_set_history. cbn. by rewrite Hw.
      * apply unchanged. unfold view, committed; cbn. by rewrite Hw.
    + apply unchanged. by apply view_set_history_ne.
Qed.

Lemma run_label_change id x s s' : fresh_ids s -> run_label l x s = Some s' -> change s s' id.
Proof.
  intros Hf. destruct x; cbn.
  - apply run_worker_change.
  - destruct (sy_workers s !! id0) as [w |] eqn:Hw; [| done]. destruct (w_done w); [done |].
    intros [= <-]. eapply change_one; [exact Hw | reflexivity | by left | apply by_panic | by left].
  - destruct (sy_workers s !! id0) as [w |] eqn:Hw; [| done].
    intros [= <-]. eapply change_one; [exact Hw | reflexivity | by left | apply by_cancel | by left].
  - repeat case_match; intros; simplify_eq; by apply unchanged.
  - by apply run_poller_change.
  - repeat case_match; intros; simplify_eq; by apply unchanged.
  - repeat case_match; intros; simplify_eq; by apply unchanged.
  - case_match; [| done]. intros [= <-]. by apply worker_of_change.
  - case_match; [| done]. destruct (take_gone _ _). intros [= <-]. by apply unchanged.
  - repeat case_match; intros; simplify_eq; by apply unchanged.
  - destruct (get_settling shutdown s) as [y |] eqn:Hy; [| done].
    destruct (run_settling y ch s) as [[y' s1] |] eqn:Hr; [| done]. intros [= <-].
    eapply change_views; [by eapply run_settling_change | | |]; by destruct shutdown.
Qed.

Lemma run_label_next x s s' : run_label l x s = Some s' -> (sy_next s <= sy_next s')%nat.
Proof.
  destruct x; cbn; unfold run_worker, run_poller, worker_of, run_settling;
    repeat case_match; intros; simplify_eq; cbn; try lia;
    try (match goal with c : call |- _ => destruct c end); unfold observe, handled, received; cbn;
    repeat case_match; simplify_eq; cbn; try lia; try (destruct shutdown; cbn; lia).
Qed.

Lemma fresh_ids_step x s s' : fresh_ids s -> run_label l x s = Some s' -> fresh_ids s'.
Proof.
  intros Hf Hx id Hid. pose proof (run_label_next _ _ _ Hx).
  assert (Hv : view id s' = None).
  { destruct (run_label_change id _ _ _ Hf Hx) as [Hs | k Hn Hn' _ _ | v v' H1 _ _ _ | sh y r w h _ _ H1 _].
    - rewrite Hs. unfold view. rewrite Hf; [done | lia].
    - lia.
    - unfold view in H1. rewrite Hf in H1 by lia. discriminate H1.
    - unfold view in H1. rewrite Hf in H1 by lia. discriminate H1. }
  by apply fmap_None in Hv.
Qed.

(** * What a worker serves, seen from outside

    The contract of a partition: the records in the order received, each tried
    with the attempts numbered from 1 up to the channel's limit, the next one
    only once the current one was acknowledged, none after an answer without a
    gesture.  [None] is a stop. *)
Definition serving : Type := list record * option Z.
Definition accept (st : serving) (e : record * Z * gesture) : option serving :=
  match st with
  | (r :: rs, Some n) =>
      let '(r', m, g) := e in
      if bool_decide (r' = r) && (m =? n) && (n <=? MaxAttempts l) then
        match g with
        | Acked => Some (rs, Some 1)
        | Released => Some (r :: rs, Some (n + 1))
        | Undecided => Some (r :: rs, None)
        end
      else None
  | _ => None
  end.
Fixpoint accepts (st : serving) (log : list (record * Z * gesture)) : option serving :=
  match log with
  | [] => Some st
  | e :: log => match accept st e with Some st => accepts st log | None => None end
  end.
Definition acks (h : history) : list record :=
  (fun e => e.1.1) <$> filter (fun e => e.2 = Acked) (h_handled h).

Lemma accepts_snoc log e st :
  accepts st (log ++ [e]) = match accepts st log with Some st => accept st e | None => None end.
Proof.
  revert st. induction log as [| e' log IH]; intros st; cbn; [by destruct (accept st e) |].
  by destruct (accept st e').
Qed.
Lemma accepts_more log r rs a rs' a' :
  accepts (rs, a) log = Some (rs', a') -> accepts (rs ++ [r], a) log = Some (rs' ++ [r], a').
Proof.
  revert rs a. induction log as [| [[r0 m] g] log IH]; intros rs a; cbn; [by intros [= -> ->] |].
  destruct rs as [| r1 rs]; [done |]. destruct a as [n |]; [| done]; cbn.
  destruct (bool_decide (r0 = r1) && (m =? n) && (n <=? MaxAttempts l)); [| done].
  destruct g; apply IH.
Qed.
Lemma accepts_acks log rs a rs' a' :
  accepts (rs, a) log = Some (rs', a') ->
  rs = ((fun e => e.1.1) <$> filter (fun e => e.2 = Acked) log) ++ rs'.
Proof.
  revert rs a. induction log as [| [[r0 m] g] log IH]; intros rs a; cbn; [by intros [= -> ->] |].
  destruct rs as [| r1 rs]; [done |]. destruct a as [n |]; [| done]; cbn.
  destruct (bool_decide (r0 = r1) && (m =? n) && (n <=? MaxAttempts l)) eqn:Hc; [| done].
  apply andb_prop in Hc as [[Hr _]%andb_prop _]. apply bool_decide_eq_true in Hr as ->.
  destruct g; intros Ha; cbn.
  - by apply IH in Ha.
  - apply IH in Ha. by rewrite Ha.
  - by apply IH in Ha.
Qed.
Lemma acks_answer e h :
  acks (answer e h) = acks h ++ (if decide (e.2 = Acked) then [e.1.1] else []).
Proof.
  unfold acks; cbn. rewrite filter_app, fmap_app, filter_cons, filter_nil. by repeat case_decide.
Qed.

(** * What holds of a worker and its history *)

(** The record a goroutine carries: not yet in the cursor, in it and not yet
    acknowledged, acknowledged and not yet marked. *)
Inductive hand := Fetched (r : record) | Tried (r : record) | Cleared (r : record) | Free.
Definition hand_of (p : pc) : hand :=
  match p with
  | Resuming r | Tracking r => Fetched r
  | Handled r _ Acked | Marking r => Cleared r
  | Attempting r _ | Handling r _ | Handled r _ _ | Stalling r | BackingOff r _ | BackoffPauseCall r _
  | Sleeping r _ | Waking r _ _ | BackoffResumeCall r _ _ => Tried r
  | _ => Free
  end.
(** A worker that will take no further record. *)
Definition halted (w : worker) : bool := w_stalled w || w_cancelled w || w_done w.

Definition rest_ok (p : hand) (h : bool) (rest : list record) : Prop :=
  match p with
  | Fetched r | Tried r => rest = [r]
  | Cleared _ => rest = []
  | Free => rest = [] \/ h = true /\ exists r, rest = [r]
  end.
Definition tail_ok (p : hand) (h : bool) (tail : cursor) : Prop :=
  match p with
  | Tried r => tail = [mkTracked r false]
  | Fetched _ | Cleared _ => tail = []
  | Free => tail = [] \/ h = true /\ exists r, tail = [mkTracked r false]
  end.
Definition attempt_ok (p : pc) (h : bool) (a : option Z) : Prop :=
  match p with
  | Resuming _ | Tracking _ | Handled _ _ Acked | Marking _ => a = Some 1
  | Attempting _ n | Handling _ n => a = Some n /\ n <= MaxAttempts l
  | Handled _ n Released => a = Some (n + 1)
  | Handled _ _ Undecided | Stalling _ => True
  | BackingOff _ n | BackoffPauseCall _ n | Sleeping _ n =>
      a = Some (n + 1) /\ n + 1 <= MaxAttempts l
  | Waking _ n slept | BackoffResumeCall _ n slept =>
      a = Some (n + 1) /\ n + 1 <= MaxAttempts l /\ (slept = false -> h = true)
  | _ => h = false -> a = Some 1
  end.
Definition acked_ok (p : hand) (h : bool) (c : cursor) : Prop :=
  match p with
  | Cleared r => exists c1, c = c1 ++ [mkTracked r false] /\ Forall (fun t => t_acked t = true) c1
  | Free => h = false -> Forall (fun t => t_acked t = true) c
  | _ => Forall (fun t => t_acked t = true) c
  end.

Inductive worker_ok (w : worker) (h : history) : Prop :=
  mk_worker_ok rest a popped c tail
    (ok_serves : accepts (h_received h, Some 1) (h_handled h) = Some (rest ++ w_queue w, a))
    (ok_attempt : attempt_ok (w_pc w) (halted w) a)
    (ok_rest : rest_ok (hand_of (w_pc w)) (halted w) rest)
    (ok_cursor : w_cursor w = c ++ tail)
    (ok_acks : acks h = popped ++ (t_record <$> c))
    (ok_tail : tail_ok (hand_of (w_pc w)) (halted w) tail)
    (ok_acked : NoDup (r_Offset <$> h_received h) -> acked_ok (hand_of (w_pc w)) (halted w) c)
    (ok_commits : forall r, r ∈ h_commits h -> r ∈ acks h)
    (ok_call : forall r, w_pc w = CommitCall r -> r ∈ acks h).

Lemma worker_ok_new k : worker_ok (newPartitionWorker k) no_history.
Proof.
  by eapply (mk_worker_ok _ _ [] (Some 1) [] [] []); cbn; try done; try set_solver; auto.
Qed.

(** A worker that only halts keeps what it had. *)
Lemma attempt_ok_mono p (b b' : bool) a : (b = true -> b' = true) -> attempt_ok p b a -> attempt_ok p b' a.
Proof.
  intros Hb. destruct p as [| | | | | |? ? [] | | | | | | | | | | |]; cbn; auto;
    try (intros Ha ->; apply Ha; by destruct b; [specialize (Hb eq_refl) |]); intros (? & ? & ?); auto.
Qed.
Lemma hand_mono p (b b' : bool) x y c :
  (b = true -> b' = true) -> rest_ok p b x -> tail_ok p b y -> 
  rest_ok p b' x /\ tail_ok p b' y /\ (acked_ok p b c -> acked_ok p b' c).
Proof.
  intros Hb Hx Hy. repeat split; destruct p; cbn in *; auto.
  - destruct Hx as [-> | [? ?]]; auto.
  - destruct Hy as [-> | [? ?]]; auto.
  - intros Hc ->. apply Hc. by destruct b; [specialize (Hb eq_refl) |].
Qed.

Lemma worker_ok_flags w w' h :
  w_pc w' = w_pc w -> w_queue w' = w_queue w -> w_cursor w' = w_cursor w ->
  (halted w = true -> halted w' = true) -> worker_ok w h -> worker_ok w' h.
Proof.
  intros Hp Hq Hc Hb [rest a popped c tail H1 H2 H3 H4 H5 H6 H7 H8 H9].
  destruct (hand_mono (hand_of (w_pc w)) _ _ rest tail c Hb H3 H6) as (H3' & H6' & H7').
  eapply (mk_worker_ok _ _ rest a popped c tail); rewrite ?Hp, ?Hq, ?Hc; eauto using attempt_ok_mono.
Qed.

Lemma worker_ok_enqueue r w h : worker_ok w h -> worker_ok (enqueue l r w).1 (receive r h).
Proof.
  intros [rest a popped c tail H1 H2 H3 H4 H5 H6 H7 H8 H9].
  eapply (mk_worker_ok _ _ rest a popped c tail); cbn; eauto.
  - rewrite app_assoc. by apply accepts_more.
  - intros Hn. apply H7. rewrite fmap_app in Hn. by apply NoDup_app in Hn as [Hn _].
Qed.

Lemma worker_ok_panic w h : worker_ok w h -> worker_ok (set_pc Exited w) h.
Proof.
  intros [rest a popped c tail H1 H2 H3 H4 H5 H6 H7 H8 H9].
  assert (Hh : halted (set_pc Exited w) = true) by (unfold halted; cbn; by rewrite orb_true_r).
  eapply (mk_worker_ok _ _ rest a popped c tail); rewrite ?Hh; cbn; eauto; try done.
  - destruct (hand_of (w_pc w)); cbn in *; subst; eauto. destruct H3 as [-> | [_ ?]]; eauto.
  - destruct (hand_of (w_pc w)); cbn in *; subst; eauto. destruct H6 as [-> | [_ ?]]; eauto.
Qed.

(** ** The cursor *)
Lemma Mark_records o c : t_record <$> Mark o c = t_record <$> c.
Proof. induction c as [| t c IH]; cbn; [done |]. case_match; cbn; by f_equal. Qed.
Lemma Mark_last r c :
  r_Offset r ∉ ((fun t => r_Offset (t_record t)) <$> c) ->
  Mark (r_Offset r) (c ++ [mkTracked r false]) = c ++ [mkTracked r true].
Proof.
  induction c as [| t c IH]; cbn; intros Hn.
  - by rewrite Z.eqb_refl.
  - apply not_elem_of_cons in Hn as [Hne Hn].
    destruct (Z.eqb_spec (r_Offset (t_record t)) (r_Offset r)) as [He | _]; [by rewrite He in Hne |].
    by rewrite IH.
Qed.
(** What [NextContiguous] pops is acknowledged, and never what comes after an
    unacknowledged record. *)
Lemma pop_acked_app o c tail o' c' :
  (tail = [] \/ exists r, tail = [mkTracked r false]) ->
  pop_acked o (c ++ tail) = (o', c') ->
  exists p q, c = p ++ q /\ c' = q ++ tail /\ Forall (fun t => t_acked t = true) p /\
    (forall r, o' = Some r -> o = Some r \/ r ∈ t_record <$> p).
Proof.
  intros Ht. revert o. induction c as [| t c IH]; cbn; intros o Hp.
  - exists [], []. destruct Ht as [-> | [r ->]]; cbn in Hp; simplify_eq; repeat split; auto.
  - destruct (t_acked t) eqn:Ha.
    + destruct (IH _ Hp) as (p & q & -> & -> & Hall & Hr). exists (t :: p), q.
      repeat split; [by constructor |]. intros r Ho. right. destruct (Hr r Ho) as [[= <-] | Hin]; cbn; rewrite elem_of_cons; auto.
    + simplify_eq. exists [], (t :: c). repeat split; auto.
Qed.

Lemma tail_shape p b tail : tail_ok p b tail -> tail = [] \/ exists r, tail = [mkTracked r false].
Proof. destruct p; cbn; eauto. intros [-> | [_ ?]]; eauto. Qed.

(** A step that moves the program counter and leaves the lists alone. *)
Ltac goto rest a popped c tail :=
  eapply (mk_worker_ok _ _ rest a popped c tail); unfold halted; cbn in *;
  rewrite ?orb_true_r, ?orb_false_r; subst; intros; destruct_and?; try discriminate;
  first [eassumption | by eauto | by repeat split; auto; lia].

Section Step.
Context (Hmax : 1 <= MaxAttempts l).

Lemma ok_drain w h o w' :
  w_pc w = Draining -> w_cancelled w = false -> next l w = (o, w') -> worker_ok w h ->
  worker_ok (set_pc (match o with
                     | None => Selecting
                     | Some (r, true) => Resuming r
                     | Some (r, false) => Tracking r
                     end) w') h.
Proof.
  intros Hp Hc Hn [rest a popped cur tail H1 H2 H3 H4 H5 H6 H7 H8 H9].
  destruct w as [k can sig q pau sta rev cu p]; cbn in *; subst; unfold halted, next in *; cbn in *.
  destruct sta; [injection Hn as <- <-; by goto rest a popped cur tail |].
  destruct q as [| r q]; [injection Hn as <- <-; by goto rest a popped cur tail |].
  injection Hn as <- <-. destruct H3 as [-> | [? _]], H6 as [-> | [? _]]; try discriminate.
  destruct (pau && _); by goto [r] a popped cur (@nil tracked).
Qed.

Lemma ok_track w h r :
  w_pc w = Tracking r -> worker_ok w h ->
  worker_ok (set_pc (Attempting r 1) (set_cursor (Track r (w_cursor w)) w)) h.
Proof.
  intros Hp [rest a popped cur tail H1 H2 H3 H4 H5 H6 H7 H8 H9].
  destruct w as [k can sig q pau sta rev cu p]; cbn in *; subst; unfold halted in *; cbn in *; subst.
  eapply (mk_worker_ok _ _ [r] (Some 1) popped cur [mkTracked r false]); cbn; auto; try done.
  by rewrite app_nil_r.
Qed.

Lemma ok_handle w h r n gs :
  w_pc w = Handling r n -> worker_ok w h ->
  worker_ok (set_pc (Handled r n (decision gs)) w) (answer (r, n, decision gs) h).
Proof.
  intros Hp [rest a popped cur tail H1 H2 H3 H4 H5 H6 H7 H8 H9].
  destruct w as [k can sig q pau sta rev cu p]; cbn in *; subst p cu; unfold halted in *; cbn in *; subst.
  destruct H2 as [-> Hn]. set (g := decision gs). clearbody g.
  assert (Ha : accepts (h_received h, Some 1) (h_handled h ++ [(r, n, g)]) = accept (r :: q, Some n) (r, n, g)).
  { rewrite accepts_snoc. by rewrite H1. }
  cbn in Ha. rewrite bool_decide_true in Ha by done. rewrite Z.eqb_refl in Ha.
  replace (n <=? MaxAttempts l) with true in Ha by lia. cbn in Ha.
  destruct g.
  - eapply (mk_worker_ok _ _ [r] None popped cur [mkTracked r false]); rewrite ?acks_answer; cbn; auto;
      try done; [by rewrite app_nil_r | set_solver].
  - eapply (mk_worker_ok _ _ [] (Some 1) popped (cur ++ [mkTracked r false]) []); rewrite ?acks_answer; cbn;
      eauto; try done.
    + by rewrite app_nil_r.
    + by rewrite H5, fmap_app, app_assoc.
    + set_solver.
  - eapply (mk_worker_ok _ _ [r] (Some (n + 1)) popped cur [mkTracked r false]); rewrite ?acks_answer; cbn; auto;
      try done; [by rewrite app_nil_r | set_solver].
Qed.

(** The offsets of what is in the cursor are among those received. *)
Lemma received_split h rest a popped cur :
  accepts (h_received h, Some 1) (h_handled h) = Some (rest, a) ->
  acks h = popped ++ (t_record <$> cur) ->
  h_received h = popped ++ (t_record <$> cur) ++ rest.
Proof. intros Ha Hk. apply accepts_acks in Ha. fold (acks h) in Ha. by rewrite Ha, Hk, app_assoc. Qed.

Lemma ok_mark w h r :
  w_pc w = Marking r -> worker_ok w h ->
  worker_ok (set_pc Committing (set_cursor (Mark (r_Offset r) (w_cursor w)) w)) h.
Proof.
  intros Hp [rest a popped cur tail H1 H2 H3 H4 H5 H6 H7 H8 H9].
  pose proof (received_split _ _ _ _ _ H1 H5) as Hrec.
  destruct w as [k can sig q pau sta rev cu p]; cbn in *; subst; unfold halted in *; cbn in *; subst.
  rewrite app_nil_r.
  eapply (mk_worker_ok _ _ [] (Some 1) popped (Mark (r_Offset r) cur) []); unfold halted; cbn; auto; try done.
  - by rewrite app_nil_r.
  - by rewrite Mark_records.
  - intros Hn _. destruct (H7 Hn) as (c1 & -> & Hall). rewrite Mark_last.
    + apply Forall_app; split; [done | by repeat constructor].
    + rewrite Hrec, !fmap_app in Hn. apply NoDup_app in Hn as (_ & _ & Hn).
      apply NoDup_app in Hn as (Hn & _ & _). apply NoDup_app in Hn as (_ & Hn & _).
      rewrite <- list_fmap_compose in Hn. intros Hin. apply (Hn _ Hin). cbn. by left.
Qed.

(** A commit pops records that were acknowledged. *)
Lemma acked_ok_suffix p b x y :
  Forall (fun t => t_acked t = true) x -> acked_ok p b (x ++ y) -> acked_ok p b y.
Proof.
  intros Hx. destruct p as [r | r | r |]; cbn; try (by intros [_ Hy]%Forall_app).
  - intros (c1 & Heq & Hall). destruct (decide (y = [])) as [-> | Hy].
    + rewrite app_nil_r in Heq. subst x. apply Forall_app in Hx as [_ Hx]. apply Forall_inv in Hx. done.
    + destruct (exists_last Hy) as (y1 & t & ->). rewrite app_assoc in Heq.
      apply app_inj_tail in Heq as [<- ->]. exists y1. split; [done |]. by apply Forall_app in Hall as [_ ?].
  - intros Hall Hb. specialize (Hall Hb). by apply Forall_app in Hall as [_ ?].
Qed.

Lemma ok_pop final w h o w' :
  commitContiguous final w = (o, w') -> worker_ok w h ->
  worker_ok w' h /\ w_pc w' = w_pc w /\ (forall r, o = Some r -> r ∈ acks h).
Proof.
  unfold commitContiguous. intros Hc Hok. destruct (w_revoked w && negb final); [by injection Hc as <- <- |].
  destruct (NextContiguous (w_cursor w)) as [o1 c1] eqn:Hpop. injection Hc as <- <-.
  destruct Hok as [rest a popped cur tail H1 H2 H3 H4 H5 H6 H7 H8 H9].
  unfold NextContiguous in Hpop. rewrite H4 in Hpop.
  apply pop_acked_app in Hpop as (x & y & -> & -> & Hall & Hr); [| by eapply tail_shape].
  rewrite fmap_app, app_assoc in H5. split; [| split; [done |]].
  - eapply (mk_worker_ok _ _ rest a (popped ++ (t_record <$> x)) y tail); cbn; eauto using acked_ok_suffix.
  - intros r Ho. destruct (Hr r Ho) as [[=] | Hin]. rewrite H5. set_solver.
Qed.

(** Between two records the program counter moves freely. *)
Lemma ok_free p w h :
  hand_of (w_pc w) = Free -> w_done w = false -> hand_of p = Free ->
  (forall r, p = CommitCall r -> r ∈ acks h) -> worker_ok w h -> worker_ok (set_pc p w) h.
Proof.
  intros Hw Hd Hp Hr [rest a popped cur tail H1 H2 H3 H4 H5 H6 H7 H8 H9].
  assert (Hb : halted w = true -> halted (set_pc p w) = true).
  { unfold halted. rewrite Hd, orb_false_r. cbn. by intros ->. }
  destruct (hand_mono Free _ _ rest tail cur Hb) as (H3' & H6' & H7'); [by rewrite <- Hw | by rewrite <- Hw |].
  eapply (mk_worker_ok _ _ rest a popped cur tail); cbn [set_pc w_pc w_queue w_cursor]; rewrite ?Hp; auto.
  - assert (Ha : halted w = false -> a = Some 1) by (destruct (w_pc w) as [| | | | | |? ? [] | | | | | | | | | | |]; done).
    destruct (halted w), (halted (set_pc p w));
      destruct p as [| | | | | |? ? [] | | | | | | | | | | |]; try done; by specialize (Hb eq_refl).
  - intros Hn. apply H7'. rewrite <- Hw. by apply H7.
Qed.

Lemma ok_committed w h r : r ∈ acks h -> worker_ok w h -> worker_ok w (commit r h).
Proof.
  intros Hr [rest a popped cur tail H1 H2 H3 H4 H5 H6 H7 H8 H9].
  eapply (mk_worker_ok _ _ rest a popped cur tail); cbn; eauto.
  intros r'. rewrite elem_of_app, list_elem_of_singleton. intros [Hin | ->]; [by apply H8 | done].
Qed.

Lemma worker_ok_step ch w h w' c :
  worker_step l ch w = Some (w', c) -> worker_ok w h -> worker_ok w' (called c (observed ch w h)).
Proof.
  intros Hst Hok. unfold worker_step, observed in *.
  assert (Hd : w_pc w <> Exited -> w_done w = false) by (unfold w_done; by destruct (w_pc w)).
  destruct (w_pc w) as [] eqn:Hp; destruct ch; try discriminate.
  3: { destruct (w_cancelled w) eqn:Hc; [injection Hst as <- <-; apply ok_free; rewrite ?Hp; auto; done |].
       destruct (next l w) as [[[r' []] |] w1] eqn:Hn; injection Hst as <- <-;
         exact (ok_drain _ _ _ _ Hp Hc Hn Hok). }
  4: { injection Hst as <- <-. by apply ok_track. }
  5: { injection Hst as <- <-. by apply ok_handle. }
  6: { injection Hst as <- <-. by apply ok_mark. }
  6: { destruct (commitContiguous false w) as [[r |] w1] eqn:Hcm; injection Hst as <- <-;
         destruct (ok_pop _ _ _ _ _ Hcm Hok) as (Hok1 & Hp1 & Hr); cbn;
         (apply ok_free; rewrite ?Hp1, ?Hp; auto; [| naive_solver]);
         unfold w_done; by rewrite Hp1, Hp. }
  6: { injection Hst as <- <-. cbn. apply ok_committed; [by destruct Hok; eauto |].
       apply ok_free; rewrite ?Hp; auto; done. }
  all: destruct Hok as [rest a popped cur tail H1 H2 H3 H4 H5 H6 H7 H8 H9];
    destruct w as [k can sig q pau sta rev cu p]; cbn in *; subst p cu;
    unfold stall, pauseForBackoff, resumeAfterBackoff, halted in *; cbn in *;
    destruct can, sta; try destruct slept; cbn in *; repeat case_match; try discriminate;
    injection Hst as <- <-; by goto rest a popped cur tail.
Qed.

Lemma worker_ok_effect v v' : effect v v' -> worker_ok v.1 v.2 -> worker_ok v'.1 v'.2.
Proof.
  intros [] Hok; cbn in *.
  - by eapply worker_ok_step.
  - by apply worker_ok_panic.
  - eapply worker_ok_flags; [..| exact Hok]; try done. unfold halted; cbn. by rewrite !orb_true_r.
  - by eapply worker_ok_flags; [..| exact Hok].
  - by eapply worker_ok_flags; [..| exact Hok].
  - by apply worker_ok_enqueue.
  - by eapply worker_ok_flags; [..| exact Hok].
  - destruct (commitContiguous true w) as [o w'] eqn:Hc. by eapply ok_pop.
Qed.

(** * The whole consumer *)
Lemma effect_acks v v' r : effect v v' -> r ∈ acks v.2 -> r ∈ acks v'.2.
Proof.
  intros []; cbn; auto.
  unfold observed. destruct c; cbn; destruct (w_pc w), ch; cbn; auto; unfold commit, acks; cbn;
    rewrite ?filter_app, ?fmap_app; set_solver.
Qed.
Lemma change_acks s s' id w h r :
  change s s' id -> view id s = Some (w, h) -> r ∈ acks h ->
  exists w' h', view id s' = Some (w', h') /\ r ∈ acks h'.
Proof.
  intros [Hs | k _ _ Hn _ | v [w' h'] Hv Hv' He _ | sh x r' w' h' _ _ Hv Hv'] Hw Hr.
  - rewrite Hs. eauto.
  - congruence.
  - rewrite Hw in Hv. injection Hv as <-. exists w', h'. split; [done |]. by apply (effect_acks _ _ _ He).
  - rewrite Hw in Hv. injection Hv as <- <-. eauto.
Qed.

Lemma run_worker_settling id ch s s' sh :
  run_worker l id ch s = Some s' -> get_settling sh s' = get_settling sh s.
Proof.
  unfold run_worker. intros Hx. repeat case_match; simplify_eq. unfold observe.
  destruct sh; repeat case_match; by destruct c.
Qed.

(** A final commit under way was popped by the step that began it. *)
Lemma run_label_committing sh x s s' y id r :
  run_label l x s = Some s' -> get_settling sh s' = Some y -> committing y id r ->
  get_settling sh s = Some y \/
  exists w w', sy_workers s !! id = Some w /\ commitContiguous true w = (Some r, w').
Proof.
  intros Hx Hy Hc. destruct x; cbn in Hx.
  - left. by rewrite <- (run_worker_settling _ _ _ _ sh Hx).
  - left. repeat case_match; simplify_eq. by destruct sh.
  - left. repeat case_match; simplify_eq. by destruct sh.
  - left. repeat case_match; simplify_eq. by destruct sh.
  - left. unfold run_poller, worker_of in Hx. repeat case_match; simplify_eq; by destruct sh.
  - left. repeat case_match; simplify_eq. by destruct sh.
  - left. repeat case_match; simplify_eq; by destruct sh.
  - left. unfold worker_of in Hx. repeat case_match; simplify_eq; by destruct sh.
  - repeat case_match; simplify_eq. destruct sh; [by left |]. cbn in Hy. injection Hy as <-.
    unfold begin_settling in Hc. by destruct l0.
  - repeat case_match; simplify_eq. destruct sh; [| by left]. cbn in Hy. injection Hy as <-.
    unfold begin_settling in Hc. by destruct (order.*2).
  - destruct (get_settling shutdown s) as [x |] eqn:Hx0; [| done].
    destruct (run_settling x ch s) as [[x' s1] |] eqn:Hr; [| done]. injection Hx as <-.
    destruct (decide (sh = shutdown)) as [-> | Hne].
    + assert (x' = y) as -> by (destruct shutdown; cbn in Hy; congruence).
      right. destruct y; try done. destruct Hc as [-> ->].
      unfold run_settling in Hr. repeat case_match; simplify_eq; eauto.
    + left. rewrite <- Hy. unfold run_settling in Hr.
      repeat case_match; simplify_eq; by destruct sh, shutdown.
Qed.

Record safe (s : system) : Prop := {
  safe_fresh : fresh_ids s;
  safe_workers id w h : view id s = Some (w, h) -> worker_ok w h;
  safe_commits sh x id r :
    get_settling sh s = Some x -> committing x id r ->
    exists w h, view id s = Some (w, h) /\ r ∈ acks h
}.

Lemma safe_initial : safe initial.
Proof. split; [done | done |]. intros [] x id r; cbn; naive_solver. Qed.

Lemma safe_step s s' : safe s -> system_step l s s' -> safe s'.
Proof.
  intros [Hf Hw Hc] [x Hx]. pose proof (fun id => run_label_change id _ _ _ Hf Hx) as Hch.
  split; [by eapply fresh_ids_step | |].
  - intros id w h Hv. destruct (Hch id) as [Hs | k _ _ _ Hn | v v' H1 H2 He _ | sh y r w0 h0 Hy Hcm H1 H2].
    + apply (Hw id). by rewrite <- Hs.
    + rewrite Hn in Hv. injection Hv as <- <-. apply worker_ok_new.
    + rewrite H2 in Hv. injection Hv as ->. destruct v as [w0 h0].
      exact (worker_ok_effect _ _ He (Hw _ _ _ H1)).
    + rewrite H2 in Hv. injection Hv as <- <-.
      destruct (Hc _ _ _ _ Hy Hcm) as (w1 & h1 & Hv1 & Hr). rewrite H1 in Hv1. injection Hv1 as <- <-.
      apply ok_committed; [done | by eapply Hw].
  - intros sh y id r Hy Hcm.
    assert (Hold : exists w0 h0, view id s = Some (w0, h0) /\ r ∈ acks h0).
    { destruct (run_label_committing _ _ _ _ _ _ _ Hx Hy Hcm) as [Hy0 | (w0 & w1 & Hw0 & Hpop)]; [by eauto |].
      exists w0, (history_of id s). split; [by apply view_Some |].
      eapply ok_pop; [exact Hpop | | done]. apply (Hw id). by apply view_Some. }
    destruct Hold as (w0 & h0 & Hv0 & Hr). exact (change_acks _ _ _ _ _ _ (Hch id) Hv0 Hr).
Qed.

Lemma safe_reachable s : rtc (system_step l) initial s -> safe s.
Proof.
  revert s. apply rtc_ind_r; [apply safe_initial |]. intros s1 s2 _ Hst Hs. by eapply safe_step.
Qed.
End Step.

End Invariants.

(** Who holds a partition, in the Kafka consumer: a worker that has not left is
    in the registry, among the stuck ones, or in the hands of the rebalance
    under way ([homes]), so no partition is ever handed to a second worker
    while the first still runs. *)

(** The workers a settling has not disposed of. *)
Definition pending (x : settling) : list loc :=
  match x with
  | Revoking todo waiting => todo ++ waiting
  | Cancelling id todo waiting => id :: todo ++ waiting
  | Awaiting todo _ stuck _ => todo ++ stuck
  | ResumingFetch _ stuck | ResumeCall _ _ stuck | FinalCommit _ _ stuck | FinalCommitCall _ _ _ stuck
  | Registering stuck => stuck
  | Idle | PausingStuck _ _ | Tripping _ => []
  end.

(** * Homes *)
Section Homes.
Implicit Types (ws : gmap loc worker) (registry stuck : gmap pkey loc) (pend : list loc).

Definition wkey ws (id : loc) : option pkey := w_key <$> ws !! id.
Definition alive ws (id : loc) : Prop := exists w, ws !! id = Some w /\ w_done w = false.

Record homes ws registry stuck pend : Prop := {
  homes_registry k id : registry !! k = Some id -> wkey ws id = Some k /\ stuck !! k = None;
  homes_pending id :
    id ∈ pend -> exists k, wkey ws id = Some k /\ registry !! k = None /\ stuck !! k = None /\
      forall id', id' ∈ pend -> wkey ws id' = Some k -> id' = id;
  homes_alive id k :
    wkey ws id = Some k -> alive ws id -> registry !! k = Some id \/ stuck !! k = Some id \/ id ∈ pend
}.

Lemma homes_similar ws ws' registry stuck pend :
  (forall id, wkey ws' id = wkey ws id) -> (forall id, alive ws' id -> alive ws id) ->
  homes ws registry stuck pend -> homes ws' registry stuck pend.
Proof.
  intros Hk Ha [H1 H2 H3]. split.
  - intros k id. rewrite Hk. apply H1.
  - intros id Hin. destruct (H2 id Hin) as (k & Hw & Hr & Hs & Hu). exists k. rewrite Hk.
    repeat split; auto. intros id'. rewrite Hk. apply Hu.
  - intros id k. rewrite Hk. auto.
Qed.
(** Only workers that left are let go. *)
Lemma homes_shrink ws registry stuck pend pend' :
  (forall id, id ∈ pend' -> id ∈ pend) ->
  (forall id, id ∈ pend -> alive ws id -> id ∈ pend') ->
  homes ws registry stuck pend -> homes ws registry stuck pend'.
Proof.
  intros Hsub Hkeep [H1 H2 H3]. split; [done | |].
  - intros id Hin. destruct (H2 id (Hsub _ Hin)) as (k & Hw & Hr & Hs & Hu). exists k. repeat split; auto.
  - intros id k Hk Ha. destruct (H3 id k Hk Ha) as [? | [? | ?]]; auto.
Qed.
Lemma homes_create ws registry stuck id k :
  ws !! id = None -> registry !! k = None -> stuck !! k = None ->
  homes ws registry stuck [] ->
  homes (<[id := newPartitionWorker k]> ws) (<[k := id]> registry) stuck [].
Proof.
  intros Hid Hr Hs [H1 H2 H3].
  assert (Hkey : forall i, i <> id -> wkey (<[id := newPartitionWorker k]> ws) i = wkey ws i).
  { intros i Hne. unfold wkey. by rewrite lookup_insert_ne. }
  split.
  - intros k' i Hk. destruct (decide (k' = k)) as [-> | Hne].
    + rewrite lookup_insert_eq in Hk. injection Hk as <-. unfold wkey. by rewrite lookup_insert_eq.
    + rewrite lookup_insert_ne in Hk by done. rewrite Hkey; [by apply H1 |].
      intros ->. destruct (H1 _ _ Hk) as [Hw _]. unfold wkey in Hw. by rewrite Hid in Hw.
  - set_solver.
  - intros i k' Hk Ha. destruct (decide (i = id)) as [-> | Hne].
    + unfold wkey in Hk. rewrite lookup_insert_eq in Hk. injection Hk as <-. left. by rewrite lookup_insert_eq.
    + rewrite Hkey in Hk by done. destruct Ha as (w & Hw & Hd). rewrite lookup_insert_ne in Hw by done.
      destruct (H3 i k' Hk) as [Hi | [Hi | Hi]]; [by exists w | | by auto | by auto].
      left. rewrite lookup_insert_ne; [done | congruence].
Qed.

(** ** Taking the revoked partitions out of the registry *)
Lemma take_gone_spec gone registry ids m :
  take_gone gone registry = (ids, m) ->
  (forall k id, m !! k = Some id -> registry !! k = Some id) /\
  (forall id, id ∈ ids -> exists k, registry !! k = Some id /\ m !! k = None) /\
  (forall k id, registry !! k = Some id -> m !! k = Some id \/ id ∈ ids).
Proof.
  revert registry ids m. induction gone as [| k0 gone IH]; intros registry ids m; cbn.
  - intros [= <- <-]. repeat split; auto. set_solver.
  - destruct (registry !! k0) as [id0 |] eqn:H0; [| apply IH].
    destruct (take_gone gone (delete k0 registry)) as [ids' m'] eqn:Ht. intros [= <- <-].
    destruct (IH _ _ _ Ht) as (I1 & I2 & I3). repeat split.
    + intros k id Hk. apply I1, lookup_delete_Some in Hk. tauto.
    + intros id. rewrite elem_of_cons. intros [-> | Hin].
      * exists k0. split; [done |]. destruct (m' !! k0) eqn:Hm; [| done].
        apply I1, lookup_delete_Some in Hm. tauto.
      * destruct (I2 id Hin) as (k & Hk & Hm). apply lookup_delete_Some in Hk as [_ Hk]. eauto.
    + intros k id Hk. destruct (decide (k = k0)) as [-> | Hne].
      * right. rewrite H0 in Hk. injection Hk as <-. by left.
      * destruct (I3 k id) as [? | ?]; [by rewrite lookup_delete_ne | by left | right; by right].
Qed.
Lemma homes_take ws registry stuck gone ids m :
  take_gone gone registry = (ids, m) -> homes ws registry stuck [] -> homes ws m stuck ids.
Proof.
  intros Ht [H1 H2 H3]. destruct (take_gone_spec _ _ _ _ Ht) as (T1 & T2 & T3). split.
  - intros k id Hk. by apply H1, T1.
  - intros id Hin. destruct (T2 id Hin) as (k & Hk & Hm). destruct (H1 _ _ Hk) as [Hw Hs].
    exists k. repeat split; auto. intros id' Hin' Hw'.
    destruct (T2 id' Hin') as (k' & Hk' & _). destruct (H1 _ _ Hk') as [Hw2 _]. congruence.
  - intros id k Hk Ha. destruct (H3 id k Hk Ha) as [Hr | [Hs | Hp]]; [| by auto | set_solver].
    destruct (T3 _ _ Hr); auto.
Qed.

(** ** Registering the stuck ones *)
Definition registering ws (ids : list loc) stuck : gmap pkey loc :=
  foldl (fun m id => match ws !! id with Some w => <[w_key w := id]> m | None => m end) stuck ids.
Lemma registering_other ws ids stuck k :
  (forall id, id ∈ ids -> wkey ws id <> Some k) -> registering ws ids stuck !! k = stuck !! k.
Proof.
  revert stuck. induction ids as [| id ids IH]; intros stuck Hk; cbn; [done |].
  unfold registering in IH. rewrite IH by set_solver.
  pose proof (Hk id ltac:(set_solver)) as Hid. unfold wkey in Hid.
  destruct (ws !! id) as [w |]; [| done]. rewrite lookup_insert_ne; [done |]. intros Heq. apply Hid. cbn. by rewrite Heq.
Qed.
Lemma registering_mine ws ids stuck k id :
  id ∈ ids -> wkey ws id = Some k -> (forall id', id' ∈ ids -> wkey ws id' = Some k -> id' = id) ->
  registering ws ids stuck !! k = Some id.
Proof.
  revert stuck. induction ids as [| i ids IH]; intros stuck Hin Hk Hu; [set_solver |]; cbn.
  destruct (decide (id ∈ ids)) as [Hin' | Hnot].
  - apply IH; [done | done |]. intros id' Hid'. apply Hu. by right.
  - apply elem_of_cons in Hin as [-> | ?]; [| done].
    pose proof Hk as Hk'. unfold wkey in Hk'. destruct (ws !! i) as [w |] eqn:Hw; [| done]. injection Hk' as <-.
    change (registering ws ids (<[w_key w := i]> stuck) !! w_key w = Some i).
    rewrite registering_other; [by rewrite lookup_insert_eq |].
    intros id' Hid' Hkid. assert (id' = i) as -> by (apply Hu; [by right | done]). done.
Qed.
Lemma homes_register ws registry stuck pend :
  homes ws registry stuck pend -> homes ws registry (registering ws pend stuck) [].
Proof.
  intros [H1 H2 H3].
  assert (Hother : forall k, registry !! k <> None \/ stuck !! k <> None ->
            registering ws pend stuck !! k = stuck !! k).
  { intros k Hk. apply registering_other. intros id Hin Hkid.
    destruct (H2 id Hin) as (k' & Hk' & ? & ? & _). assert (k' = k) as -> by congruence. tauto. }
  split.
  - intros k id Hk. destruct (H1 _ _ Hk) as [? ?]. rewrite Hother; [done |]. left. by rewrite Hk.
  - set_solver.
  - intros id k Hk Ha. destruct (H3 id k Hk Ha) as [Hr | [Hs | Hp]]; [by left | |]; right; left.
    + rewrite Hother; [done |]. right. by rewrite Hs.
    + destruct (H2 id Hp) as (k' & Hk' & _ & _ & Hu). assert (k' = k) as -> by congruence.
      by apply registering_mine.
Qed.
End Homes.

(** * The invariant *)
Section Placement.
Context (l : limits).

Lemma effect_key v v' : effect l v v' -> w_key v'.1 = w_key v.1.
Proof.
  intros []; cbn; try done.
  - match goal with H : worker_step _ _ _ = _ |- _ => unfold worker_step, next, commitContiguous, stall, pauseForBackoff, resumeAfterBackoff in H end.
    repeat case_match; simplify_eq; done.
  - unfold commitContiguous. repeat case_match; done.
Qed.
Lemma effect_done v v' : effect l v v' -> w_done v.1 = true -> w_done v'.1 = true.
Proof.
  intros [] Hd; cbn in *; try done.
  - unfold worker_step, w_done in *. by destruct (w_pc w).
  - unfold commitContiguous. repeat case_match; done.
Qed.

Lemma view_inv id s w h : view id s = Some (w, h) -> sy_workers s !! id = Some w /\ h = history_of id s.
Proof. unfold view. destruct (sy_workers s !! id); naive_solver. Qed.

(** A worker seen after a step that created none was there before, with its key. *)
Lemma change_back s s' id w' h' :
  change l s s' id -> view id s' = Some (w', h') -> h_received h' <> [] \/ sy_next s' = sy_next s ->
  exists w h, view id s = Some (w, h) /\ w_key w' = w_key w /\ (w_done w = true -> w_done w' = true) /\
    (h_received h' = h_received h \/ exists rs rest, sy_poller s = Enqueueing id rs rest).
Proof.
  intros [Hs | k Hn Hn' _ Hv | [w h] v' Hv Hv' He Hrec | sh x r w h _ _ Hv Hv'] Hw Hor.
  - rewrite Hs in Hw. exists w', h'. auto.
  - rewrite Hv in Hw. injection Hw as <- <-. destruct Hor; [done | lia].
  - rewrite Hv' in Hw. injection Hw as ->. exists w, h. split_and!; [done | | | done].
    + exact (effect_key _ _ He).
    + exact (effect_done _ _ He).
  - rewrite Hv' in Hw. injection Hw as <- <-. exists w, h. auto.
Qed.
Lemma change_forth s s' id w h :
  change l s s' id -> view id s = Some (w, h) ->
  exists w' h', view id s' = Some (w', h') /\ w_key w' = w_key w.
Proof.
  intros [Hs | k _ _ Hn _ | [w0 h0] [w' h'] Hv Hv' He _ | sh x r w0 h0 _ _ Hv Hv'] Hw.
  - rewrite Hs. eauto.
  - congruence.
  - rewrite Hw in Hv. injection Hv as <- <-. exists w', h'. split; [done |]. exact (effect_key _ _ He).
  - rewrite Hw in Hv. injection Hv as <- <-. eauto.
Qed.

Lemma change_similar s s' :
  (forall id, change l s s' id) -> sy_next s' = sy_next s ->
  (forall id, wkey (sy_workers s') id = wkey (sy_workers s) id) /\
  (forall id, alive (sy_workers s') id -> alive (sy_workers s) id).
Proof.
  intros Hch Hn. split.
  - intros id. unfold wkey. destruct (sy_workers s !! id) as [w |] eqn:Hw.
    + destruct (change_forth _ _ _ _ _ (Hch id) (view_Some _ _ _ Hw)) as (w' & h' & Hv & Hk).
      apply view_inv in Hv as [-> _]. cbn. by rewrite Hk.
    + destruct (sy_workers s' !! id) as [w' |] eqn:Hw'; [| done].
      destruct (change_back _ _ _ _ _ (Hch id) (view_Some _ _ _ Hw') (or_intror Hn)) as (w & h & Hv & _).
      apply view_inv in Hv as [Hv _]. congruence.
  - intros id (w' & Hw' & Hd).
    destruct (change_back _ _ _ _ _ (Hch id) (view_Some _ _ _ Hw') (or_intror Hn)) as (w & h & Hv & _ & Hdd & _).
    apply view_inv in Hv as [Hv _]. exists w. split; [done |]. destruct (w_done w); [| done].
    by rewrite Hdd in Hd.
Qed.

(** The worker a dispatch is feeding. *)
Definition feeding (p : poller) : option loc :=
  match p with Enqueueing id _ _ | PauseCall id _ _ | Signalling id _ _ => Some id | _ => None end.
Definition dispatching (p : poller) : bool := match p with Polling | Stopped => false | _ => true end.

Record placed (s : system) : Prop := {
  pl_running : sy_poller s <> Stopped -> sy_shutdown s = None;
  pl_blocked : dispatching (sy_poller s) = true -> sy_rebalance s = Idle;
  pl_feeding id : feeding (sy_poller s) = Some id ->
    exists k, wkey (sy_workers s) id = Some k /\ sy_registry s !! k = Some id;
  pl_homes : sy_shutdown s = None ->
    homes (sy_workers s) (sy_registry s) (sy_stuck s) (pending (sy_rebalance s));
  pl_alone id1 id2 w1 w2 h1 h2 :
    view id1 s = Some (w1, h1) -> view id2 s = Some (w2, h2) -> w_done w1 = false -> w_done w2 = false ->
    w_key w1 = w_key w2 -> h_received h1 <> [] -> h_received h2 <> [] -> id1 = id2
}.

Lemma placed_initial : placed initial.
Proof.
  split; [done | done | done | |].
  - intros _. split; [done | |]; cbn; set_solver.
  - intros id1 id2 w1 w2 h1 h2 Hv. done.
Qed.

(** The worker being fed is the only one alive of its partition. *)
Lemma fed_alone s id id' w w' :
  placed s -> feeding (sy_poller s) = Some id -> sy_workers s !! id = Some w -> sy_workers s !! id' = Some w' ->
  w_key w' = w_key w -> w_done w' = false -> id' = id.
Proof.
  intros [Hr Hb Hf Hh _] Hid Hw Hw' Hk Hd.
  destruct (Hf _ Hid) as (k & Hkw & Hreg). unfold wkey in Hkw. rewrite Hw in Hkw. injection Hkw as <-.
  assert (sy_poller s <> Stopped /\ dispatching (sy_poller s) = true) as [Hns Hdi]
    by (clear -Hid; by destruct (sy_poller s)).
  destruct (Hh (Hr Hns)) as [H1 _ H3]. rewrite (Hb Hdi) in H3.
  destruct (H1 _ _ Hreg) as [_ Hst].
  destruct (H3 id' (w_key w)) as [? | [? | ?]]; [| by exists w' | congruence | congruence | set_solver].
  unfold wkey. rewrite Hw'. cbn. by rewrite Hk.
Qed.

Lemma alone_step s s' :
  placed s -> (forall id, change l s s' id) ->
  forall id1 id2 w1 w2 h1 h2,
    view id1 s' = Some (w1, h1) -> view id2 s' = Some (w2, h2) -> w_done w1 = false -> w_done w2 = false ->
    w_key w1 = w_key w2 -> h_received h1 <> [] -> h_received h2 <> [] -> id1 = id2.
Proof.
  intros Hp Hch id1 id2 w1 w2 h1 h2 V1 V2 D1 D2 Hk R1 R2.
  destruct (change_back _ _ _ _ _ (Hch id1) V1 (or_introl R1)) as (u1 & g1 & U1 & K1 & E1 & F1).
  destruct (change_back _ _ _ _ _ (Hch id2) V2 (or_introl R2)) as (u2 & g2 & U2 & K2 & E2 & F2).
  assert (w_done u1 = false) as D1' by (destruct (w_done u1); [by rewrite E1 in D1 | done]).
  assert (w_done u2 = false) as D2' by (destruct (w_done u2); [by rewrite E2 in D2 | done]).
  destruct (view_inv _ _ _ _ U1) as [L1 _], (view_inv _ _ _ _ U2) as [L2 _].
  destruct F1 as [F1 | (rs & rest & F1)].
  - destruct F2 as [F2 | (rs & rest & F2)].
    + eapply (pl_alone _ Hp); [exact U1 | exact U2 | ..]; congruence.
    + eapply fed_alone; [exact Hp | by rewrite F2 | exact L2 | exact L1 | congruence | done].
  - symmetry. eapply fed_alone; [exact Hp | by rewrite F1 | exact L1 | exact L2 | congruence | done].
Qed.

Lemma run_settling_homes x x' ch s s' :
  run_settling x ch s = Some (x', s') ->
  homes (sy_workers s) (sy_registry s) (sy_stuck s) (pending x) ->
  homes (sy_workers s) (sy_registry s') (sy_stuck s') (pending x') /\ sy_next s' = sy_next s.
Proof.
  intros Hr Hh. unfold run_settling in Hr. repeat case_match; simplify_eq; cbn in *;
    try (split; [| done]; assumption); split; try done; try (by apply homes_register);
    try (eapply homes_shrink; [| | exact Hh]; set_solver).
  all: refine (homes_shrink _ _ _ _ _ _ _ Hh); [set_solver |];
    intros id Hin (w' & Hw' & Hd); apply elem_of_cons in Hin as [-> | Hin]; [congruence | done].
Qed.

Lemma run_worker_frame id ch s s' :
  run_worker l id ch s = Some s' ->
  sy_registry s' = sy_registry s /\ sy_stuck s' = sy_stuck s /\ sy_poller s' = sy_poller s /\
  sy_rebalance s' = sy_rebalance s /\ sy_shutdown s' = sy_shutdown s /\ sy_next s' = sy_next s.
Proof.
  unfold run_worker. intros Hr. repeat case_match; simplify_eq. unfold observe.
  repeat case_match; by destruct c.
Qed.

(** A step that creates no worker and leaves poller and settlings where they are. *)
Lemma placed_same s s' :
  placed s -> (forall id, change l s s' id) -> sy_next s' = sy_next s ->
  sy_registry s' = sy_registry s -> sy_stuck s' = sy_stuck s ->
  sy_shutdown s' = sy_shutdown s -> sy_rebalance s' = sy_rebalance s ->
  (sy_poller s' = Stopped \/ (sy_poller s <> Stopped) /\
     (dispatching (sy_poller s') = true -> sy_rebalance s = Idle) /\
     (feeding (sy_poller s') = None \/ feeding (sy_poller s') = feeding (sy_poller s)) \/
   sy_poller s' = sy_poller s) ->
  placed s'.
Proof.
  intros Hp Hch Hn Hreg Hst Hsh Hrb Hpo. destruct (change_similar _ _ Hch Hn) as [Hk Ha].
  pose proof Hp as [P1 P2 P3 P4 P5]. split; rewrite ?Hreg, ?Hst, ?Hsh, ?Hrb.
  - destruct Hpo as [-> | [(? & _) | ->]]; by auto.
  - destruct Hpo as [-> | [(_ & ? & _) | ->]]; by auto.
  - intros id Hid. rewrite Hk. apply P3.
    destruct Hpo as [Hs | [(_ & _ & [Hs | Hs]) | Hs]]; rewrite Hs in Hid; done.
  - intros Hs. eapply homes_similar; [exact Hk | exact Ha | by apply P4].
  - by apply alone_step with s.
Qed.

Lemma worker_of_placed k s :
  placed s -> fresh_ids s -> sy_rebalance s = Idle ->
  let r := worker_of k s in
  sy_poller r.2 = sy_poller s /\ sy_rebalance r.2 = Idle /\ sy_shutdown r.2 = sy_shutdown s /\
  (sy_shutdown s = None -> homes (sy_workers r.2) (sy_registry r.2) (sy_stuck r.2) []) /\
  (sy_shutdown s = None -> forall id, r.1 = Some id -> exists k, wkey (sy_workers r.2) id = Some k /\ sy_registry r.2 !! k = Some id) /\
  (forall id, feeding (sy_poller s) = Some id -> exists k, wkey (sy_workers r.2) id = Some k /\ sy_registry r.2 !! k = Some id).
Proof.
  intros Hp Hf Hrb. pose proof (pl_homes _ Hp) as Hh. rewrite Hrb in Hh. pose proof (pl_feeding _ Hp) as Hfd.
  cbn. unfold worker_of.
  destruct (sy_stuck s !! k) eqn:Hst; [by split_and! |].
  destruct (sy_registry s !! k) as [id |] eqn:Hreg.
  { split_and!; try done. intros Hsh id' [= <-]. exists k. split; [| done]. by apply (Hh Hsh). }
  cbn. split_and!; try done.
  - intros Hsh. apply homes_create; auto.
  - intros Hsh id [= <-]. exists k. unfold wkey. by rewrite !lookup_insert_eq.
  - intros id Hid. destruct (Hfd id Hid) as (k' & Hk' & Hr').
    assert (id <> sy_next s) by (intros ->; unfold wkey in Hk'; by rewrite Hf in Hk').
    assert (k' <> k) by congruence. exists k'. unfold wkey. rewrite !lookup_insert_ne by done. done.
Qed.


(** Handing out a partition, or assigning it. *)
Lemma placed_worker_of k s p :
  placed s -> fresh_ids s -> sy_rebalance s = Idle ->
  (sy_poller s <> Stopped \/ p = sy_poller s) ->
  (forall id, feeding p = Some id -> (worker_of k s).1 = Some id \/ p = sy_poller s) ->
  let s' := set_poller p (worker_of k s).2 in
  (forall id, change l s s' id) -> placed s'.
Proof.
  intros Hp Hf Hrb Hpo Hfeed s' Hch. pose proof (alone_step _ _ Hp Hch) as Halone.
  destruct (worker_of_placed k s Hp Hf Hrb) as (W1 & W2 & W3 & W4 & W5 & W6).
  subst s'. split; cbn [set_poller sy_poller sy_rebalance sy_shutdown sy_workers sy_registry sy_stuck].
  - rewrite W3. destruct Hpo as [Hs | ->]; [intros _ | intros Hs]; by apply Hp.
  - by rewrite W2.
  - intros id Hid. destruct (Hfeed id Hid) as [Hw | ->]; [| by apply W6].
    destruct Hpo as [Hs | ->]; [| by apply W6]. apply W5; [by apply Hp | done].
  - rewrite W3, W2. exact W4.
  - exact Halone.
Qed.

Lemma placed_poller s s' :
  fresh_ids s -> placed s -> (forall id, change l s s' id) -> run_poller l s = Some s' -> placed s'.
Proof.
  intros Hf Hp Hch Hx. pose proof (pl_blocked _ Hp) as Hb. unfold run_poller in Hx.
  destruct (sy_poller s) as [| [| [k [| r rs]] rest] | id [| r rs] rest | id rs rest | id rs rest |] eqn:Hpo;
    try discriminate; cbn in Hb.
  - injection Hx as <-. eapply placed_same; eauto. rewrite Hpo. right. left. auto.
  - injection Hx as <-. eapply placed_same; eauto. rewrite Hpo. right. left. auto.
  - assert (s' = set_poller (match (worker_of k s).1 with
                             | None => Dispatching rest
                             | Some id => Enqueueing id (r :: rs) rest
                             end) (worker_of k s).2) as ->.
    { destruct (worker_of k s) as [[id |] s1]; by injection Hx as <-. }
    apply placed_worker_of; auto; [left; by rewrite Hpo |].
    intros id Hid. left. destruct (worker_of k s).1; cbn in Hid; congruence.
  - injection Hx as <-. eapply placed_same; eauto. rewrite Hpo. right. left. auto.
  - destruct (sy_workers s !! id) as [w |] eqn:Hw; [| done]. destruct (enqueue l r w) as [w' pause].
    injection Hx as <-. eapply placed_same; eauto. rewrite Hpo. right. left. split; [done |]. by destruct pause; auto.
  - destruct (sy_workers s !! id) as [w |] eqn:Hw; [| done].
    injection Hx as <-. eapply placed_same; eauto. rewrite Hpo. right. left. auto.
  - destruct (sy_workers s !! id) as [w |] eqn:Hw; [| done].
    injection Hx as <-. eapply placed_same; eauto. rewrite Hpo. right. left. auto.
Qed.

Lemma between_polls_inv s :
  between_polls s = true -> sy_rebalance s = Idle /\ dispatching (sy_poller s) = false.
Proof. unfold between_polls. by destruct (sy_poller s), (sy_rebalance s). Qed.

Lemma placed_release gone ids m s :
  take_gone gone (sy_registry s) = (ids, m) -> between_polls s = true -> placed s ->
  let s' := set_settling false (begin_settling ids) (set_registry m s) in
  (forall id, change l s s' id) -> placed s'.
Proof.
  intros Ht Hb Hp s' Hch. pose proof (alone_step _ _ Hp Hch) as Halone.
  apply between_polls_inv in Hb as [Hrb Hd]. pose proof (pl_homes _ Hp) as Hh. rewrite Hrb in Hh.
  subst s'. split; cbn.
  - apply Hp.
  - by rewrite Hd.
  - intros id. by destruct (sy_poller s).
  - intros Hs. replace (pending (begin_settling ids)) with ids by (destruct ids; cbn; by rewrite ?app_nil_r).
    eapply homes_take; [exact Ht | by apply Hh].
  - exact Halone.
Qed.

Lemma run_settling_frame x ch s x' s' :
  run_settling x ch s = Some (x', s') ->
  sy_poller s' = sy_poller s /\ sy_shutdown s' = sy_shutdown s /\ sy_registry s' = sy_registry s /\
  sy_rebalance s' = sy_rebalance s /\ sy_next s' = sy_next s.
Proof. intros Hr. unfold run_settling in Hr. repeat case_match; simplify_eq; done. Qed.

Lemma placed_settle sh x x' ch s s1 :
  placed s -> get_settling sh s = Some x -> run_settling x ch s = Some (x', s1) ->
  (forall id, change l s (set_settling sh x' s1) id) -> placed (set_settling sh x' s1).
Proof.
  intros Hp Hx Hr Hch. pose proof (alone_step _ _ Hp Hch) as Halone.
  destruct (run_settling_frame _ _ _ _ _ Hr) as (F1 & F2 & F3 & F4 & F5).
  destruct (change_similar _ _ Hch) as [Hk Ha]; [by destruct sh |].
  pose proof Hp as [P1 P2 P3 P4 P5]. destruct sh; cbn in Hx.
  - assert (sy_poller s = Stopped) as Hst.
    { destruct (sy_poller s) eqn:E; try done; rewrite P1 in Hx by done; done. }
    split; cbn; rewrite ?F1, ?F3, ?F4, ?Hst; try done.
  - injection Hx as <-. split; cbn; rewrite ?F1, ?F2; auto.
    + intros Hd. rewrite P2 in Hr by done. done.
    + intros id Hid. rewrite F3. cbn in Hk. rewrite Hk. by apply P3.
    + intros Hs. destruct (run_settling_homes _ _ _ _ _ Hr (P4 Hs)) as [Hh _].
      eapply homes_similar; [exact Hk | exact Ha | exact Hh].
Qed.

Lemma placed_step x s s' : fresh_ids s -> placed s -> run_label l x s = Some s' -> placed s'.
Proof.
  intros Hf Hp Hx. pose proof (fun id => run_label_change l id _ _ _ Hf Hx) as Hch.
  destruct x; cbn in Hx.
  - destruct (run_worker_frame _ _ _ _ Hx) as (? & ? & ? & ? & ? & ?). eapply placed_same; eauto.
  - repeat case_match; simplify_eq. eapply placed_same; eauto.
  - repeat case_match; simplify_eq. eapply placed_same; eauto.
  - repeat case_match; simplify_eq. eapply placed_same; eauto. cbn. right. left.
    match goal with H : sy_poller s = _ |- _ => rewrite H end. auto.
  - by apply (placed_poller s).
  - repeat case_match; simplify_eq. eapply placed_same; eauto.
  - repeat case_match; simplify_eq; eapply placed_same; eauto.
  - destruct (between_polls s) eqn:Hb; [| done]. injection Hx as <-.
    apply between_polls_inv in Hb as [Hrb Hd].
    replace (worker_of k s).2 with (set_poller (sy_poller s) (worker_of k s).2) in * by
      (destruct (worker_of_placed k s Hp Hf Hrb) as (<- & _); by destruct (worker_of k s).2).
    apply placed_worker_of; auto.
  - destruct (between_polls s) eqn:Hb; [| done]. destruct (take_gone gone (sy_registry s)) as [ids m] eqn:Ht.
    injection Hx as <-. by eapply placed_release.
  - destruct (sy_poller s) eqn:Hpo; try done. destruct (sy_shutdown s) eqn:Hsh; [done |].
    case_match; [| done]. injection Hx as <-. pose proof (alone_step _ _ Hp Hch) as Halone.
    split; cbn; rewrite ?Hpo; try done.
  - destruct (get_settling shutdown s) as [y |] eqn:Hy; [| done].
    destruct (run_settling y ch s) as [[y' s1] |] eqn:Hr; [| done]. injection Hx as <-.
    by eapply placed_settle.
Qed.

Lemma placed_reachable s : rtc (system_step l) initial s -> fresh_ids s /\ placed s.
Proof.
  revert s. apply rtc_ind_r; [split; [done | apply placed_initial] |].
  intros s1 s2 _ [x Hx] [Hf Hp]. split; [by eapply fresh_ids_step | by eapply placed_step].
Qed.

(** * No wake-up is lost *)

(** A worker waiting in its select, free to work, with records queued and no
    signal. *)
Definition parked (w : worker) : Prop :=
  w_pc w = Selecting /\ w_queue w <> [] /\ w_stalled w = false /\ w_cancelled w = false /\ w_signal w = false.
(** The poll loop is about to signal it, or a fault is bringing the consumer
    down. *)
Definition pledged (s : system) (id : loc) : Prop :=
  sy_fault s <> None \/
  match sy_poller s with PauseCall id' _ _ | Signalling id' _ _ => id' = id | _ => False end.
Definition no_lost_wakeup (s : system) : Prop :=
  forall id w, sy_workers s !! id = Some w -> parked w -> pledged s id.

Lemma effect_parked v v' :
  effect l v v' -> h_received v'.2 = h_received v.2 -> parked v'.1 -> parked v.1.
Proof.
  intros He Hrec (Hp & Hq & Hs & Hc & Hg). destruct He; cbn in *; try done.
  - match goal with H : worker_step _ _ _ = _ |- _ =>
      unfold worker_step, next, commitContiguous, stall, pauseForBackoff, resumeAfterBackoff in H end.
    repeat case_match; simplify_eq; cbn in *; simplify_eq; congruence.
  - apply (f_equal length) in Hrec. rewrite length_app in Hrec. cbn in Hrec. lia.
  - unfold commitContiguous in *. destruct (NextContiguous (w_cursor w)).
    destruct (w_revoked w && negb true); done.
Qed.
Lemma change_parked s s' id w' :
  change l s s' id -> sy_workers s' !! id = Some w' -> parked w' ->
  (exists w, sy_workers s !! id = Some w /\ parked w) \/
  (exists rs rest, sy_poller s = Enqueueing id rs rest) /\
    h_received (history_of id s') <> h_received (history_of id s).
Proof.
  intros Hch Hw' Hp. pose proof (view_Some _ _ _ Hw') as Hv'.
  destruct Hch as [Hs | k _ _ _ Hv | [w h] v' Hv Hv2 He Hrec | sh x r w h _ _ Hv Hv2].
  - rewrite Hs in Hv'. apply view_inv in Hv' as [Hw _]. eauto.
  - rewrite Hv in Hv'. injection Hv' as <- _. by destruct Hp as (_ & [] & _).
  - rewrite Hv' in Hv2. injection Hv2 as <-. apply view_inv in Hv as [Hv ->]. cbn in Hrec.
    destruct (decide (h_received (history_of id s') = h_received (history_of id s))) as [Heq | Hne].
    + left. exists w. split; [done |]. exact (effect_parked _ _ He Heq Hp).
    + right. split; [by destruct Hrec | done].
  - rewrite Hv' in Hv2. injection Hv2 as <- _. apply view_inv in Hv as [Hv _]. eauto.
Qed.

Lemma wakeup_keep s s' :
  no_lost_wakeup s -> (forall id, change l s s' id) ->
  (forall id, pledged s id -> pledged s' id) ->
  (forall id rs rest, sy_poller s = Enqueueing id rs rest ->
     h_received (history_of id s') <> h_received (history_of id s) -> pledged s' id) ->
  no_lost_wakeup s'.
Proof.
  intros Hn Hch Hkeep Henq id w' Hw' Hp.
  destruct (change_parked _ _ _ _ (Hch id) Hw' Hp) as [(w & Hw & Hpw) | [(rs & rest & He) Hne]]; [| by eauto].
  by eapply Hkeep, Hn.
Qed.

Lemma run_worker_received id id' ch s s' :
  run_worker l id ch s = Some s' -> h_received (history_of id' s') = h_received (history_of id' s).
Proof.
  unfold run_worker. intros Hr. destruct (sy_workers s !! id) as [w |]; [| done].
  destruct (worker_step l ch w) as [[w' c] |]; [| done]. injection Hr as <-.
  assert (Hobs : forall s0, h_received (history_of id' (observe id ch w s0)) = h_received (history_of id' s0)).
  { intros s0. unfold observe. destruct (w_pc w), ch; try done. unfold handled.
    destruct (decide (id' = id)) as [-> | Hne]; by rewrite ?history_set_history, ?history_set_history_ne. }
  destruct c; cbn [call_client]; try apply Hobs. unfold committed.
  destruct (decide (id' = id)) as [-> | Hne]; rewrite ?history_set_history, ?history_set_history_ne by done;
    apply Hobs.
Qed.

Lemma wakeup_poller s s' :
  fresh_ids s -> no_lost_wakeup s -> run_poller l s = Some s' -> no_lost_wakeup s'.
Proof.
  intros Hf Hn Hx. pose proof (fun id => run_poller_change l id _ _ Hf Hx) as Hch. unfold run_poller in Hx.
  destruct (sy_poller s) as [| [| [k [| r rs]] rest] | id [| r rs] rest | id rs rest | id rs rest |] eqn:Hpo;
    try discriminate.
  - injection Hx as <-. eapply wakeup_keep; eauto; unfold pledged; rewrite Hpo; cbn; naive_solver.
  - injection Hx as <-. eapply wakeup_keep; eauto; unfold pledged; rewrite Hpo; cbn; naive_solver.
  - eapply wakeup_keep; eauto; unfold pledged; rewrite Hpo; [| done].
    intros id [Hft | []]. left. unfold worker_of in Hx. repeat case_match; simplify_eq; done.
  - injection Hx as <-. eapply wakeup_keep; eauto; unfold pledged; rewrite Hpo; cbn; naive_solver.
  - destruct (sy_workers s !! id) as [w |] eqn:Hw; [| done]. destruct (enqueue l r w) as [w' pause].
    injection Hx as <-. eapply wakeup_keep; eauto; unfold pledged; rewrite Hpo; cbn; [naive_solver |].
    intros id' rs' rest' [= -> _ _] _. right. by destruct pause.
  - destruct (sy_workers s !! id) as [w |] eqn:Hw; [| done].
    injection Hx as <-. eapply wakeup_keep; eauto; unfold pledged; rewrite Hpo; cbn; naive_solver.
  - destruct (sy_workers s !! id) as [w |] eqn:Hw; [| done]. injection Hx as <-.
    intros id' w' Hw' Hp. cbn in Hw'. destruct (decide (id' = id)) as [-> | Hne].
    + rewrite lookup_insert_eq in Hw'. injection Hw' as <-. by destruct Hp as (_ & _ & _ & _ & Hsig).
    + rewrite lookup_insert_ne in Hw' by done. destruct (Hn _ _ Hw' Hp) as [Hft | Hpl]; [by left |].
      rewrite Hpo in Hpl. congruence.
Qed.

Lemma pledged_frame s s' id :
  (sy_fault s <> None -> sy_fault s' <> None) -> (sy_poller s' = sy_poller s \/ sy_fault s' <> None) ->
  pledged s id -> pledged s' id.
Proof. intros Hft [Hp | Hf] [H | H]; unfold pledged; rewrite ?Hp; auto. Qed.

Lemma pledged_between s id : between_polls s = true -> pledged s id -> sy_fault s <> None.
Proof. unfold between_polls, pledged. by destruct (sy_poller s); intros ? [? | ?]. Qed.
Lemma between_polls_feeding s id rs rest : between_polls s = true -> sy_poller s <> Enqueueing id rs rest.
Proof. unfold between_polls. by destruct (sy_poller s). Qed.

Lemma wakeup_step x s s' : fresh_ids s -> no_lost_wakeup s -> run_label l x s = Some s' -> no_lost_wakeup s'.
Proof.
  intros Hf Hn Hx. pose proof (fun id => run_label_change l id _ _ _ Hf Hx) as Hch.
  destruct x; cbn in Hx.
  - eapply wakeup_keep; eauto.
    + intros id'. apply pledged_frame; [| left; by eapply run_worker_frame].
      unfold run_worker in Hx. repeat case_match; simplify_eq. unfold observe.
      repeat case_match; by destruct c.
    + intros id' rs rest _ []. by eapply run_worker_received.
  - repeat case_match; simplify_eq. eapply wakeup_keep; eauto; [| done].
    intros id'. apply pledged_frame; [| by left]. cbn. by destruct (sy_fault s).
  - repeat case_match; simplify_eq. eapply wakeup_keep; eauto; done.
  - repeat case_match; simplify_eq. eapply wakeup_keep; eauto; [| congruence].
    intros id' [Hft | Hpl]; [by left |]. exfalso. revert Hpl. case_match; congruence.
  - by eapply wakeup_poller.
  - repeat case_match; simplify_eq. eapply wakeup_keep; eauto; [| congruence].
    intros id' [Hft | Hpl]; [by left |]. exfalso. revert Hpl. case_match; congruence.
  - eapply wakeup_keep; eauto; intros; left; repeat case_match; simplify_eq; cbn; by case_match.
  - destruct (between_polls s) eqn:Hb; [| done]. injection Hx as <-.
    eapply wakeup_keep; eauto; [| intros ? ? ? Hpo; by destruct (between_polls_feeding _ _ _ _ Hb Hpo)].
    intros id' Hpl. left. pose proof (pledged_between _ _ Hb Hpl). unfold worker_of. by repeat case_match.
  - destruct (between_polls s) eqn:Hb; [| done]. destruct (take_gone gone (sy_registry s)). injection Hx as <-.
    eapply wakeup_keep; eauto. intros ? ? ? Hpo; by destruct (between_polls_feeding _ _ _ _ Hb Hpo).
  - repeat case_match; simplify_eq. eapply wakeup_keep; eauto; congruence.
  - destruct (get_settling shutdown s) as [y |] eqn:Hy; [| done].
    destruct (run_settling y ch s) as [[y' s1] |] eqn:Hr; [| done]. injection Hx as <-.
    eapply wakeup_keep; eauto.
    + intros id'. destruct (run_settling_frame _ _ _ _ _ Hr) as (Hpo & _). apply pledged_frame; [| left; exact Hpo].
      unfold run_settling in Hr. repeat case_match; simplify_eq; cbn; try done; by case_match.
    + intros id' rs rest _ []. unfold run_settling, committed in Hr. repeat case_match; simplify_eq; try done.
      destruct shutdown; cbn; (destruct (decide (id' = w)) as [-> | Hne]);
        unfold history_of; cbn; by rewrite ?lookup_insert_eq, ?lookup_insert_ne.
Qed.

Lemma wakeup_reachable s : rtc (system_step l) initial s -> no_lost_wakeup s.
Proof.
  intros Hr. assert (Hi : fresh_ids s /\ no_lost_wakeup s); [| by destruct Hi].
  revert s Hr. apply rtc_ind_r; [done |].
  intros s1 s2 _ [x Hx] [Hf Hp]. split; [by eapply fresh_ids_step | by eapply wakeup_step].
Qed.
End Placement.
