(* ===== verification/KafkaTheorems.v ===== *)
(** What the Kafka consumer guarantees: a record is committed only after it and
    every record received before it was acknowledged, a partition is served in
    order with numbered attempts, by one worker at a time, no wake-up is lost and
    what is queued can always be served to its commit; and two runs that leave a
    partition paused for good. *)

From S2P Require Import Prelude Regex DomainKernel Errors Channel KafkaWorker KafkaInvariant.

(** ** Serving a queue *)
Section Serving.
Context (l : limits) (id : loc).

(** A step of the goroutine of worker [id]. *)
Definition moves (s s' : system) : Prop := exists ch, run_label l (LWorker id ch) s = Some s'.

Lemma moves_steps s s' : rtc moves s s' -> rtc (system_step l) s s'.
Proof. apply rtc_subrel. intros s1 s2 [ch Hch]. by exists (LWorker id ch). Qed.

Lemma move ch s w w' c :
  sy_workers s !! id = Some w -> worker_step l ch w = Some (w', c) ->
  exists s', moves s s' /\ sy_workers s' !! id = Some w' /\
    history_of id s' = called c (observed ch w (history_of id s)).
Proof.
  intros Hw Hst. exists (call_client id (w_key w) c (set_worker id w' (observe id ch w s))).
  assert (Hr : run_worker l id ch s = Some (call_client id (w_key w) c (set_worker id w' (observe id ch w s)))).
  { unfold run_worker. by rewrite Hw, Hst. }
  split; [by exists ch |]. split.
  - unfold observe. destruct c; cbn; destruct (w_pc w), ch; cbn; by rewrite ?lookup_insert_eq.
  - unfold history_of, observe, observed. destruct c; cbn; destruct (w_pc w), ch; cbn;
      unfold history_of; cbn; by rewrite ?lookup_insert_eq.
Qed.

(** At the head of its inner loop, free to work, all it tracked acknowledged. *)
Record ready (w : worker) (queue : list record) : Prop := {
  rd_pc : w_pc w = Draining;
  rd_free : w_cancelled w = false /\ w_stalled w = false /\ w_revoked w = false;
  rd_queue : w_queue w = queue;
  rd_cursor : Forall (fun t => t_acked t = true) (w_cursor w)
}.

Lemma pop_all o c r :
  Forall (fun t => t_acked t = true) c -> pop_acked o (c ++ [mkTracked r true]) = (Some r, []).
Proof. intros Hc. revert o. induction Hc as [| t c Ht Hc IH]; intros o; cbn; [done |]. by rewrite Ht. Qed.

Lemma serve_head s w r q :
  sy_workers s !! id = Some w -> ready w (r :: q) ->
  r_Offset r ∉ ((fun t => r_Offset (t_record t)) <$> w_cursor w) ->
  exists s' w', rtc moves s s' /\ sy_workers s' !! id = Some w' /\ ready w' q /\ w_cursor w' = [] /\
    h_commits (history_of id s') = h_commits (history_of id s) ++ [r].
Proof.
  intros Hw [Hp (Hc & Hs & Hv) Hq Hall] Hr.
  destruct w as [k can sig qu pau sta rev cu p]; cbn in *; subst.
  set (resume := pau && (len q <? QueuePerPartition l / 2)).
  set (at_ p c := mkWorker k false sig q (pau && negb resume) false false c p).
  assert (H1 : exists s1, rtc moves s s1 /\ sy_workers s1 !! id = Some (at_ (Tracking r) cu) /\
                 h_commits (history_of id s1) = h_commits (history_of id s)).
  { destruct resume eqn:Hres.
    - destruct (move Go s _ (at_ (Resuming r) cu) NoCall Hw) as (s1 & M1 & W1 & E1).
      { cbn. unfold next; cbn. fold resume. by rewrite Hres. }
      destruct (move Go s1 _ (at_ (Tracking r) cu) ResumeFetch W1 eq_refl) as (s2 & M2 & W2 & E2).
      exists s2. split; [by eapply rtc_l, rtc_once |]. split; [done |]. by rewrite E2, E1.
    - destruct (move Go s _ (at_ (Tracking r) cu) NoCall Hw) as (s1 & M1 & W1 & E1).
      { cbn. unfold next; cbn. fold resume. by rewrite Hres. }
      exists s1. split; [by apply rtc_once |]. split; [done |]. by rewrite E1. }
  destruct H1 as (s1 & M1 & W1 & E1).
  destruct (move Go s1 _ _ _ W1 eq_refl) as (s2 & M2 & W2 & E2).
  destruct (move Go s2 _ _ _ W2 eq_refl) as (s3 & M3 & W3 & E3).
  destruct (move (SinkReturns [Acked]) s3 _ _ _ W3 eq_refl) as (s4 & M4 & W4 & E4).
  destruct (move Go s4 _ _ _ W4 eq_refl) as (s5 & M5 & W5 & E5).
  destruct (move Go s5 _ (at_ Committing (cu ++ [mkTracked r true])) NoCall W5) as (s6 & M6 & W6 & E6).
  { cbn. unfold Track. by rewrite Mark_last. }
  destruct (move Go s6 _ (at_ (CommitCall r) []) NoCall W6) as (s7 & M7 & W7 & E7).
  { cbn. unfold commitContiguous, NextContiguous; cbn. by rewrite pop_all. }
  destruct (move Go s7 _ (at_ Draining []) (CommitRecords r) W7 eq_refl) as (s8 & M8 & W8 & E8).
  exists s8, (at_ Draining []). split; [| split; [exact W8 | split; [by split | split; [done |]]]].
  - etrans; [exact M1 |].
    by do 6 (eapply rtc_l; [eassumption |]); eapply rtc_once.
  - by rewrite E8, E7, E6, E5, E4, E3, E2; cbn; rewrite E1.
Qed.

Lemma serve_queue q1 r q2 s w :
  sy_workers s !! id = Some w -> ready w (q1 ++ r :: q2) ->
  (forall r0, r0 ∈ q1 ++ [r] -> r_Offset r0 ∉ ((fun t => r_Offset (t_record t)) <$> w_cursor w)) ->
  exists s', rtc moves s s' /\ r ∈ h_commits (history_of id s').
Proof.
  revert s w. induction q1 as [| r1 q1 IH]; intros s w Hw Hrd Hoff.
  - destruct (serve_head s w r q2 Hw Hrd) as (s' & w' & Hm & _ & _ & _ & Hc); [apply Hoff; set_solver |].
    exists s'. split; [done |]. rewrite Hc. set_solver.
  - destruct (serve_head s w r1 _ Hw Hrd) as (s1 & w1 & Hm & Hw1 & Hrd1 & Hcu & _); [apply Hoff; set_solver |].
    destruct (IH s1 w1 Hw1 Hrd1) as (s' & Hm' & Hin).
    { intros r0 _. rewrite Hcu. set_solver. }
    exists s'. split; [by etrans | done].
Qed.
End Serving.

(** * Runs used as witnesses *)
Definition aPartition : pkey := ("orders.events", 0).
Definition rec0 : record := mkRecord 41 [1].
Definition rec1 : record := mkRecord 42 [2].
Definition sampleLimits : limits := mkLimits 4 3.
(** One partition is assigned and a poll fetches two records for it. *)
Definition fetched_two : list label :=
  [LAssign aPartition; LPoll [(aPartition, [rec0; rec1])]; LPoller;
   LPoller; LPoller; LPoller; LPoller; LPoller; LPoller].
(** The worker is signalled and serves the first: released once, acknowledged on
    its second attempt, committed. *)
Definition one_served : list label :=
  fetched_two ++ map (LWorker 0%nat)
    [TakeSignal; Go; Go; Go; SinkReturns [Released]; Go; Go; Go; SleepEnds true; Go; Go;
     Go; SinkReturns [Acked; Released]; Go; Go; Go; Go].
Definition served : system := default initial (run_labels sampleLimits one_served initial).
Example served_run :
  run_labels sampleLimits one_served initial = Some served /\
  h_commits (history_of 0%nat served) = [rec0] /\ 
  h_handled (history_of 0%nat served) = [(rec0, 1, Released); (rec0, 2, Acked)] /\
  sy_poller served = Polling /\ sy_fault served = None.
Proof. vm_compute. repeat split. Qed.
Definition server : worker := default (newPartitionWorker aPartition) (sy_workers served !! 0%nat).
Lemma served_worker : sy_workers served !! 0%nat = Some server.
Proof. vm_compute. reflexivity. Qed.
Lemma served_reachable : rtc (system_step sampleLimits) initial served.
Proof. by apply (run_labels_rtc _ one_served), served_run. Qed.

(** C2: Committing one past [r] tells the broker that everything up to [r] was dealt
    with: whatever the interleaving of polls, rebalances, panics and shutdown,
    [r] ends a prefix of what the worker received all of which the sink
    acknowledged. *)
Theorem commit_after_ack l s id w r :
  1 <= MaxAttempts l -> rtc (system_step l) initial s -> sy_workers s !! id = Some w ->
  r ∈ h_commits (history_of id s) ->
  exists p, p ++ [r] `prefix_of` h_received (history_of id s) /\ p ++ [r] `prefix_of` acks (history_of id s).
Proof.
  intros Hmax Hr Hw Hin. destruct (safe_reachable l Hmax s Hr) as [_ Hok _].
  destruct (Hok id _ _ (view_Some _ _ _ Hw)) as [rest a popped c tail H1 _ _ _ _ _ _ H8 _].
  apply accepts_acks in H1. fold (acks (history_of id s)) in H1.
  destruct (list_elem_of_split _ _ (H8 r Hin)) as (p & q & Heq). exists p.
  rewrite H1, Heq. split; [exists (q ++ rest ++ w_queue w) | exists q]; by rewrite <- ?app_assoc.
Qed.
Lemma commit_after_ack_witness :
  exists p, p ++ [rec0] `prefix_of` h_received (history_of 0%nat served) /\
    p ++ [rec0] `prefix_of` acks (history_of 0%nat served).
Proof.
  apply (commit_after_ack sampleLimits served 0%nat server rec0);
    [by vm_compute | apply served_reachable | apply served_worker |].
  rewrite (proj1 (proj2 served_run)). by left.
Defined.

(** C10: A worker realizes the contract of its partition: the sink is handed the
    records in the order received, each with its attempts numbered from 1 and
    never above the channel's limit, the next one only after the current one was
    acknowledged, and nothing after an answer without a gesture. *)
Theorem partition_served_in_order l s id w :
  1 <= MaxAttempts l -> rtc (system_step l) initial s -> sy_workers s !! id = Some w ->
  exists st, accepts l (h_received (history_of id s), Some 1) (h_handled (history_of id s)) = Some st.
Proof.
  intros Hmax Hr Hw. destruct (safe_reachable l Hmax s Hr) as [_ Hok _].
  destruct (Hok id _ _ (view_Some _ _ _ Hw)) as [rest a popped c tail H1 _ _ _ _ _ _ _ _]. by eexists.
Qed.
Lemma partition_served_in_order_witness :
  exists st, accepts sampleLimits (h_received (history_of 0%nat served), Some 1)
               (h_handled (history_of 0%nat served)) = Some st.
Proof.
  apply (partition_served_in_order sampleLimits served 0%nat server);
    [by vm_compute | apply served_reachable | apply served_worker].
Defined.

(** C5: Two workers of the same partition that were both given records are never both
    running: a rebalance or a shutdown that starts while a handler runs does not
    let a second one start beside it. *)
Theorem one_handler_per_partition l s id1 id2 w1 w2 :
  rtc (system_step l) initial s -> sy_workers s !! id1 = Some w1 -> sy_workers s !! id2 = Some w2 ->
  w_done w1 = false -> w_done w2 = false -> w_key w1 = w_key w2 ->
  h_received (history_of id1 s) <> [] -> h_received (history_of id2 s) <> [] -> id1 = id2.
Proof.
  intros Hr H1 H2. destruct (placed_reachable l s Hr) as [_ Hp].
  exact (pl_alone _ Hp _ _ _ _ _ _ (view_Some _ _ _ H1) (view_Some _ _ _ H2)).
Qed.

(** A worker that waits in its select, free to work and with records queued, is
    signalled, or the poll loop is about to signal it, or a fault is ending the
    consumer. *)
Theorem no_wakeup_lost l s id w :
  rtc (system_step l) initial s -> sy_workers s !! id = Some w -> parked w -> pledged s id.
Proof. intros Hr. exact (wakeup_reachable l s Hr id w). Qed.

(** Whatever is queued for a worker that is neither stalled, cancelled nor revoked
    can be driven to its commit by steps of that worker alone, when the sink
    acknowledges and the broker numbers the records of a partition apart. *)
Theorem queued_record_is_committed l s id w r :
  1 <= MaxAttempts l -> rtc (system_step l) initial s -> sy_workers s !! id = Some w ->
  w_pc w = Selecting \/ w_pc w = Draining ->
  w_cancelled w = false -> w_stalled w = false -> w_revoked w = false ->
  NoDup (r_Offset <$> h_received (history_of id s)) -> sy_poller s = Polling -> sy_fault s = None ->
  r ∈ w_queue w -> exists s', rtc (moves l id) s s' /\ r ∈ h_commits (history_of id s').
Proof.
  intros Hmax Hr Hw Hpc Hc Hs Hv Hnd Hpo Hft Hin.
  destruct (safe_reachable l Hmax s Hr) as [_ Hok _].
  destruct (Hok id _ _ (view_Some _ _ _ Hw)) as [rest a popped c tail H1 _ H3 H4 H5 H6 H7 _ _].
  pose proof (received_split l _ _ _ _ _ H1 H5) as Hrec.
  assert (Hh : halted w = false) by (unfold halted, w_done; rewrite Hc, Hs; by destruct Hpc as [-> | ->]).
  assert (Hf : hand_of (w_pc w) = Free) by (by destruct Hpc as [-> | ->]).
  rewrite Hf, Hh in *. destruct H6 as [-> | [? _]]; [| done]. rewrite app_nil_r in H4.
  specialize (H7 Hnd eq_refl). destruct (list_elem_of_split _ _ Hin) as (q1 & q2 & Hq).
  assert (Hoff : forall r0, r0 ∈ q1 ++ [r] -> r_Offset r0 ∉ ((fun t => r_Offset (t_record t)) <$> c)).
  { intros r0 Hr0 Hbad. rewrite Hrec, !fmap_app in Hnd.
    apply NoDup_app in Hnd as (_ & _ & Hnd). apply NoDup_app in Hnd as (_ & Hnd & _).
    rewrite <- list_fmap_compose in Hnd. apply (Hnd _ Hbad).
    rewrite Hq, elem_of_app. right. apply list_elem_of_fmap. exists r0. set_solver. }
  destruct Hpc as [Hp | Hp].
  - assert (Hsig : w_signal w = true).
    { destruct (w_signal w) eqn:Hsig; [done |]. exfalso.
      assert (Hpk : parked w) by (split_and!; auto; intros Hq0; rewrite Hq0 in Hin; set_solver).
      destruct (wakeup_reachable l s Hr id w Hw Hpk) as [? | Hpl]; [done | by rewrite Hpo in Hpl]. }
    destruct (move l id TakeSignal s w (set_pc Draining (set_signal false w)) NoCall Hw) as (s1 & M1 & W1 & _).
    { unfold worker_step. by rewrite Hp, Hsig. }
    destruct (serve_queue l id q1 r q2 s1 _ W1) as (s' & M & Hcm); [| by cbn; rewrite H4 |].
    { split; cbn; [done | done | done | by rewrite H4]. }
    exists s'. split; [by eapply rtc_l | done].
  - destruct (serve_queue l id q1 r q2 s w Hw) as (s' & M & Hcm); [| by rewrite H4 | by exists s'].
    split; [done | done | done | by rewrite H4].
Qed.
Lemma queued_record_is_committed_witness :
  exists s', rtc (moves sampleLimits 0%nat) served s' /\ rec1 ∈ h_commits (history_of 0%nat s').
Proof.
  apply (queued_record_is_committed sampleLimits served 0%nat server rec1);
    [by vm_compute | apply served_reachable | apply served_worker | right; reflexivity | reflexivity
    | reflexivity | reflexivity | | apply served_run | apply served_run | ].
  - vm_compute. repeat constructor; set_solver.
  - vm_compute. left.
Defined.
Lemma one_handler_per_partition_witness : (0 = 0)%nat.
Proof.
  apply (one_handler_per_partition sampleLimits served 0%nat 0%nat server server);
    [apply served_reachable | apply served_worker | apply served_worker | reflexivity | reflexivity
    | reflexivity | by vm_compute | by vm_compute].
Defined.

(** The first record is in the queue and the poll loop has not signalled yet. *)
Definition unsignalled : system :=
  default initial (run_labels sampleLimits (firstn 4 fetched_two) initial).
Lemma no_wakeup_lost_witness : pledged unsignalled 0%nat.
Proof.
  apply (no_wakeup_lost sampleLimits unsignalled 0%nat
           (default (newPartitionWorker aPartition) (sy_workers unsignalled !! 0%nat))).
  - apply (run_labels_rtc _ (firstn 4 fetched_two)). vm_compute. reflexivity.
  - vm_compute. reflexivity.
  - vm_compute. by split_and!.
Defined.

(** * Two ways a partition stays paused for good *)

(** A worker with nothing to do and nothing to wake it. *)
Definition idle (l : limits) (s : system) (id : loc) : Prop :=
  (exists w, sy_workers s !! id = Some w /\ w_pc w = Selecting /\ w_queue w = [] /\ w_stalled w = false /\
     w_cancelled w = false) /\
  forall ch, run_label l (LWorker id ch) s = None.

(** From the signal to the commit, for a record acknowledged at once. *)
Definition served_at_once : list choice := [Go; Go; Go; SinkReturns [Acked]; Go; Go; Go; Go].

(** [Validate] accepts a queue of one record per partition.  Its first record
    pauses the fetch, and the half of one rounds down to zero: [next] never
    resumes, though the queue drained and the record was committed. *)
Theorem capacity_one_starves :
  exists s, rtc (system_step (mkLimits 1 3)) initial s /\ idle (mkLimits 1 3) s 0%nat /\
    h_received (history_of 0%nat s) = [rec0] /\ h_commits (history_of 0%nat s) = [rec0] /\
    sy_poller s = Polling /\ sy_fault s = None /\ aPartition ∈ sy_paused s.
Proof.
  set (xs := [LAssign aPartition; LPoll [(aPartition, [rec0])]; LPoller; LPoller; LPoller; LPoller; LPoller;
              LPoller] ++ map (LWorker 0%nat) (TakeSignal :: served_at_once ++ [Go])).
  exists (default initial (run_labels (mkLimits 1 3) xs initial)). split_and!.
  - apply (run_labels_rtc _ xs). vm_compute. reflexivity.
  - split; [eexists; vm_compute; by split_and! | intros []; vm_compute; reflexivity].
  - vm_compute. reflexivity.
  - vm_compute. reflexivity.
  - vm_compute. reflexivity.
  - vm_compute. reflexivity.
  - vm_compute. reflexivity.
Qed.

(** [enqueue] decides the pause under the lock and calls the client outside it.
    When the worker drains the queue in between, its resume reaches the client
    before the poll loop's pause: the fetch is paused while the worker believes it
    is not, so neither the worker nor the revocation of the partition lifts it. *)
Theorem late_pause_starves :
  let l := mkLimits 2 3 in
  exists s s', rtc (system_step l) initial s /\ idle l s 0%nat /\
    h_commits (history_of 0%nat s) = [rec0; rec1] /\ sy_poller s = Polling /\ sy_fault s = None /\
    aPartition ∈ sy_paused s /\
    rtc (system_step l) s s' /\ sy_registry s' = ∅ /\ sy_stuck s' = ∅ /\ sy_rebalance s' = Idle /\
    aPartition ∈ sy_paused s'.
Proof.
  set (l := mkLimits 2 3).
  set (xs := [LAssign aPartition; LPoll [(aPartition, [rec0; rec1])]; LPoller; LPoller; LPoller; LPoller] ++
             map (LWorker 0%nat) (TakeSignal :: served_at_once ++ Go :: served_at_once ++ [Go]) ++
             [LPoller; LPoller; LPoller; LPoller; LWorker 0%nat TakeSignal; LWorker 0%nat Go]).
  set (ys := [LRelease [aPartition]; LSettle false SGo; LSettle false SGo; LSettle false SGo;
              LWorker 0%nat TakeDone; LSettle false SLeft; LSettle false SGo; LSettle false SGo;
              LSettle false SGo; LSettle false SGo]).
  set (s := default initial (run_labels l xs initial)).
  exists s, (default initial (run_labels l ys s)). split_and!.
  - apply (run_labels_rtc _ xs). vm_compute. reflexivity.
  - split; [eexists; vm_compute; by split_and! | intros []; vm_compute; reflexivity].
  - vm_compute. reflexivity.
  - vm_compute. reflexivity.
  - vm_compute. reflexivity.
  - vm_compute. reflexivity.
  - apply (run_labels_rtc _ ys). vm_compute. reflexivity.
  - vm_compute. reflexivity.
  - vm_compute. reflexivity.
  - vm_compute. reflexivity.
  - vm_compute. reflexivity.
Qed.
