(* ===== verification/ManifestTheorems.v ===== *)
(** Theorems on the dependency rule, the admission of exceptions and the
    manifest: the matrix is closed under indirection, diagnostics print on one
    line, every authorisation is nominal, and none opens a pure block. *)

From Stdlib Require Import OrdersEx.
From S2P Require Import Prelude GoTime GoStrings GoSlices Rules Exceptions Baseline.

(** * The order of diagnostics *)
#[export] Instance diagnostics_total : TotalCompare compareDiagnostics.
Proof.
  unfold compareDiagnostics. cbv zeta. refine (total_compare_on diagnostic_tuple _ _).
  intros [] []. by intros [= -> -> -> -> ->].
Qed.

Lemma SortDiagnostics_unique l1 l2 : l1 ≡ₚ l2 -> SortDiagnostics l1 = SortDiagnostics l2.
Proof. apply SortStableFunc_unique, _. Qed.
Lemma SortDiagnostics_nil l : SortDiagnostics l = [] <-> l = [].
Proof. apply SortStableFunc_nil. Qed.
Lemma elem_of_SortDiagnostics d l : d ∈ SortDiagnostics l <-> d ∈ l.
Proof. apply elem_of_SortStableFunc. Qed.

Lemma when_nil b d : when b d = [] <-> b = false.
Proof. by destruct b. Qed.
Lemma concat_nil {A} (ls : list (list A)) : concat ls = [] <-> Forall (fun l => l = []) ls.
Proof.
  induction ls as [| l ls IH]; cbn; [by split |]. rewrite Forall_cons, <- IH. split.
  - intros H. apply app_eq_nil in H. done.
  - by intros [-> ->].
Qed.
Lemma map_nil {A B} (f : A -> B) l : map f l = [] <-> l = [].
Proof. by destruct l. Qed.
Lemma app_nil_iff {A} (l k : list A) : l ++ k = [] <-> l = [] /\ k = [].
Proof. split; [apply app_eq_nil | by intros [-> ->]]. Qed.

(** * The matrix *)
Definition allowed (a b : Block) : Prop := AllowedByMatrix a b = true.

Lemma Contains_elem x l : Contains x l = true <-> x ∈ l.
Proof.
  unfold Contains. rewrite existsb_exists. setoid_rewrite String.eqb_eq.
  setoid_rewrite <- list_elem_of_In. naive_solver.
Qed.
Lemma literal_elem {V} k (m : list (string * V)) v : literal k m = Some v -> (k, v) ∈ m.
Proof.
  induction m as [| [k' v'] m IH]; cbn; [done |]. destruct (String.eqb_spec k k') as [-> |].
  - intros [= ->]. set_solver.
  - intros H. apply IH in H. set_solver.
Qed.
Lemma index_of_elem x l i : index_of x l = Some i -> x ∈ l.
Proof.
  revert i. induction l as [| y l IH]; intros i; cbn; [done |]. destruct (String.eqb_spec x y) as [-> |]; [set_solver |].
  destruct (index_of x l); [| done]. intros _. apply elem_of_cons. right. by eapply IH.
Qed.
Lemma allowed_blocks a b : allowed a b -> a ∈ blocks /\ b ∈ blocks.
Proof.
  unfold allowed, AllowedByMatrix. destruct (literal a matrix) as [row |] eqn:Hl; [| done].
  destruct (blockIndex b) as [j |] eqn:Hj; [| done]. intros _. split; [| by eapply index_of_elem].
  apply literal_elem, (list_elem_of_fmap_2 fst) in Hl. exact Hl.
Qed.

Lemma matrix_checked :
  forallb (fun a => AllowedByMatrix a a &&
    forallb (fun b => (negb (AllowedByMatrix a b && AllowedByMatrix b a) || String.eqb a b) &&
      forallb (fun c => negb (AllowedByMatrix a b && AllowedByMatrix b c) || AllowedByMatrix a c) blocks)
      blocks) blocks = true.
Proof. vm_compute. reflexivity. Qed.
Lemma forallb_elem {A} (f : A -> bool) l x : forallb f l = true -> x ∈ l -> f x = true.
Proof. rewrite forallb_forall. intros H Hx. by apply H, list_elem_of_In. Qed.
Lemma allowed_refl a : a ∈ blocks -> allowed a a.
Proof. intros Ha. pose proof (forallb_elem _ _ _ matrix_checked Ha) as H. by apply andb_true_iff in H as [? _]. Qed.
Lemma allowed_antisym a b : allowed a b -> allowed b a -> a = b.
Proof.
  unfold allowed. intros Hab Hba. destruct (allowed_blocks a b Hab) as [Ha Hb].
  pose proof (forallb_elem _ _ _ matrix_checked Ha) as H. apply andb_true_iff in H as [_ H].
  pose proof (forallb_elem _ _ _ H Hb) as H'. apply andb_true_iff in H' as [H' _].
  rewrite Hab, Hba in H'. by apply String.eqb_eq.
Qed.
Lemma allowed_trans a b c : allowed a b -> allowed b c -> allowed a c.
Proof.
  unfold allowed. intros Hab Hbc. destruct (allowed_blocks a b Hab) as [Ha Hb].
  destruct (allowed_blocks b c Hbc) as [_ Hc].
  pose proof (forallb_elem _ _ _ matrix_checked Ha) as H. apply andb_true_iff in H as [_ H].
  pose proof (forallb_elem _ _ _ H Hb) as H'. apply andb_true_iff in H' as [_ H'].
  pose proof (forallb_elem _ _ _ H' Hc) as H''. cbv beta in H''. by rewrite Hab, Hbc in H''.
Qed.

(** The matrix of blocks is a partial order of the six, so a rule checked edge
    by edge holds of every path: what a block reaches through others, it may
    depend on itself; two blocks never depend on each other; and the domain
    reaches the domain alone. *)
Theorem matrix_closed_under_paths a b :
  (tc allowed a b <-> allowed a b) /\
  (tc allowed a b -> tc allowed b a -> a = b) /\
  (tc allowed BlockDomain b -> b = BlockDomain).
Proof.
  assert (forall a b, tc allowed a b <-> allowed a b) as Htc.
  { intros x y. split; [| by apply tc_once]. induction 1; [done | by eapply allowed_trans]. }
  split; [apply Htc |]. rewrite !Htc. split; [apply allowed_antisym |].
  intros Hb. destruct (allowed_blocks _ _ Hb) as [_ Hin]. revert Hb.
  unfold blocks in Hin. rewrite !elem_of_cons in Hin.
  destruct Hin as [-> | [-> | [-> | [-> | [-> | [-> | Hin]]]]]]; try done. by apply elem_of_nil in Hin.
Qed.

(** * Diagnostics print on one line *)
Definition no_control (b : Z) : Prop := 32 <= b < 256 /\ b <> 127.
Definition one_line (s : string) : Prop := Forall no_control (bytes_of s).

Lemma rune_width_tail b bs w :
  rune_width (b :: bs) = Some w ->
  w = 1%nat /\ b < 128 \/ 128 <= b /\ Forall (Z.le 128) (take (w - 1) bs).
Proof.
  cbn [rune_width]. unfold in_range. destruct (Z.ltb_spec b 128); [intros [= <-]; by left |].
  intros Hw. right. split; [done |]. revert Hw.
  assert (forall c, (128 <=? c) && (c <=? 191) = true -> 128 <= c) as Hc by lia.
  repeat case_match; intros; simplify_eq; cbn [take Nat.sub]; rewrite ?Forall_cons; repeat split; try done;
    repeat match goal with H : _ && _ = true |- _ => apply andb_true_iff in H as [? ?] end; try lia.
Qed.

Lemma replacement_clean : Forall no_control replacement.
Proof. unfold replacement, no_control. repeat constructor; lia. Qed.

Lemma uma_linha_clean skip bs :
  Forall byte_ok bs -> Forall (Z.le 128) (take skip bs) -> Forall no_control (uma_linha skip bs).
Proof.
  revert skip. induction bs as [| b bs IH]; intros skip Hok Hskip; cbn [uma_linha]; [constructor |].
  apply Forall_cons in Hok as [Hb Hok]. unfold byte_ok in Hb.
  destruct skip as [| k]; cycle 1.
  { cbn in Hskip. apply Forall_cons in Hskip as [Hb' Hk]. constructor; [split; lia | by apply IH]. }
  destruct (rune_width (b :: bs)) as [w |] eqn:Hw; cycle 1.
  { apply Forall_app. split; [apply replacement_clean | apply IH; [done | constructor]]. }
  cbv zeta. apply rune_width_tail in Hw as [[-> Hb'] | [Hb' Ht]].
  - cbn [rune_value Nat.sub]. destruct (Z.ltb_spec b 32); cbn [orb].
    { apply Forall_app. split; [apply replacement_clean | apply IH; [done | constructor]]. }
    destruct (Z.eqb_spec b 127).
    { apply Forall_app. split; [apply replacement_clean | apply IH; [done | constructor]]. }
    constructor; [split; lia |]. apply IH; [done | constructor].
  - destruct (_ || _); [apply Forall_app; split; [apply replacement_clean | by apply IH] |].
    constructor; [split; lia | by apply IH].
Qed.

Lemma no_control_byte bs : Forall no_control bs -> Forall byte_ok bs.
Proof. intros H. eapply Forall_impl; [exact H |]. unfold no_control, byte_ok. intros b Hb. lia. Qed.
Lemma umaLinha_one_line v : one_line (umaLinha v).
Proof.
  unfold one_line, umaLinha. assert (Forall no_control (uma_linha 0 (bytes_of v))) as H.
  { apply uma_linha_clean; [apply bytes_of_ok | constructor]. }
  rewrite bytes_of_string_of by by apply no_control_byte. done.
Qed.
Lemma one_line_app s t : one_line s -> one_line t -> one_line (s ++ t).
Proof. unfold one_line. intros Hs Ht. rewrite bytes_of_append. by apply Forall_app. Qed.
Definition one_lineb (s : string) : bool :=
  forallb (fun b => (32 <=? b) && (b <? 256) && negb (b =? 127)) (bytes_of s).
Lemma one_lineb_spec s : one_lineb s = true -> one_line s.
Proof.
  unfold one_lineb, one_line. rewrite forallb_forall. intros H. apply Forall_forall. intros b Hb.
  apply list_elem_of_In, H in Hb. unfold no_control. lia.
Qed.
Lemma registry_one_line :
  forallb (fun s => one_lineb (cs_Code s) && one_lineb (cs_Section s)) (codeSpecs ++ governanceSpecs) = true.
Proof. vm_compute. reflexivity. Qed.

Lemma lookup_one_line c s : LookupCode c = Some s -> one_line c /\ one_line (cs_Section s).
Proof.
  unfold LookupCode. intros Hf. apply List.find_some in Hf as [Hin Hc]. apply String.eqb_eq in Hc as <-.
  apply list_elem_of_In in Hin. pose proof (forallb_elem _ _ _ registry_one_line Hin) as H.
  cbv beta in H. apply andb_true_iff in H as [H1 H2]. split; by apply one_lineb_spec.
Qed.

(** A diagnostic of the registry is printed on one line: whatever its texts
    hold, no byte of the line is a control, so none splits the report or forges
    another line of it. *)
Theorem diagnostic_prints_one_line d :
  is_Some (LookupCode (dg_Code d)) -> one_line (Diagnostic_String d).
Proof.
  intros [s Hs]. destruct (lookup_one_line _ _ Hs) as [Hc Hsec].
  unfold Diagnostic_String, Section_. rewrite Hs.
  repeat first [apply one_line_app | case_match]; try done; try apply umaLinha_one_line;
    by apply one_lineb_spec.
Qed.
Example diagnostic_prints_one_line_witness :
  one_line (Diagnostic_String
    (mkDiagnostic CodeD001 ("a" ++ string_of [10; 27]) "b" "f.go" (string_of [13; 255]))).
Proof. apply diagnostic_prints_one_line. by eexists. Defined.

(** * What an admitted exception satisfies *)
Section Accepted.
Context `{Printable}.

Lemma AdmitIn_nil x reg s now_ :
  AdmitIn x reg s now_ = [] <->
  requiredDiagnostics x = [] /\ kindDiagnostics x = [] /\ deniedBy (x_Object x) = [] /\
  blockPolicyDiagnostics x s = [] /\ lifecycleDiagnostics x = [] /\ expiryDiagnostics x now_ = [] /\
  registryDiagnostics x reg = [].
Proof. unfold AdmitIn. by rewrite SortDiagnostics_nil, map_nil, !app_nil_iff. Qed.

Lemma admitted_from doc policy std now_ a :
  a ∈ (Admitidas doc policy std now_).1 ->
  exists x subj found, x ∈ do_Exceptions doc /\ resolveSubject x doc policy std = (subj, found) /\
    a = mkAdmitted (ToException x) subj x /\ Closed (ToException x) = false /\
    manifestDiagnostics x (ToException x) found (count_ids (do_Exceptions doc)) = [] /\
    AdmitIn (ToException x) RegistryManifest subj now_ = [].
Proof.
  unfold Admitidas. cbn [fst]. rewrite map_map. intros Ha.
  apply list_elem_of_In, in_concat in Ha as (l & Hl & Ha).
  apply in_map_iff in Hl as (x & <- & Hx). apply list_elem_of_In in Hx, Ha. revert Ha. unfold admit_one.
  destruct (resolveSubject x doc policy std) as [subj found] eqn:Hs. cbv zeta.
  destruct (conflictDiagnostics x ++ _) eqn:Hd; [| cbn; set_solver].
  apply app_nil_iff in Hd as [_ Hd]. apply app_nil_iff in Hd as [Hm Ha'].
  destruct (Closed (ToException x)) eqn:Hc; cbn; [set_solver |]. intros Ha. apply list_elem_of_singleton in Ha.
  by exists x, subj, found.
Qed.

Lemma policy_exception `{MapOrder} doc a e :
  e ∈ po_Exceptions (va_Policy (Validate doc a)) ->
  exists ad, ad ∈ (Admitidas doc (allowlistOf doc) (am_IsStandard a) (am_Now a)).1 /\ e = entry ad.
Proof.
  unfold Validate. destruct (Admitidas _ _ _ _) as [ads rs]. cbn. intros He.
  apply list_elem_of_fmap in He as (ad & -> & Had). by exists ad.
Qed.

Lemma blank_string s : blank s = false -> s <> ""%string.
Proof. by intros Hb ->. Qed.

(** A nominal authorisation: what the exception must name, its term, and
    nothing of the closed catalogue. *)
Record nominal (doc : Exceptions.Document) (now_ : Instant) (x : MException) (e : ExceptionEntry) : Prop := {
  nominal_pair : xe_Unit e = ob_Unit (me_Object x) /\ xe_Dependency e = ob_Identity (me_Object x) /\
                 ob_Unit (me_Object x) <> ""%string /\ ob_Identity (me_Object x) <> ""%string;
  nominal_unit : exists u, u ∈ do_Units doc /\ mu_ID u = xe_Unit e;
  nominal_id : isNominalID (me_ID x) = true /\ filter (fun y => me_ID y = me_ID x) (do_Exceptions doc) = [x];
  nominal_adr : isADRRef (me_ADR x) = true;
  nominal_owner : HasPrefix (me_Owner x) "team:" = true;
  nominal_term : me_ValidUntil x <> 0 /\ now_ <= me_ValidUntil x;
  nominal_object : ob_Kind (me_Object x) = KindExternalDependency;
  nominal_open : Forall (fun r => dr_match r (me_Object x) = false) deniedCatalog
}.

Lemma denied_nil o : deniedBy o = [] -> Forall (fun r => dr_match r o = false) deniedCatalog.
Proof.
  unfold deniedBy. rewrite concat_nil, Forall_map. intros Hd. eapply Forall_impl; [exact Hd |].
  intros r Hr. by apply when_nil in Hr.
Qed.
Lemma lifecycle_dates x : lifecycleDiagnostics x = [] -> x_InvalidDates x = [].
Proof. unfold lifecycleDiagnostics. intros Hl. apply app_nil_iff in Hl as [Hl _]. by apply map_nil in Hl. Qed.
Lemma expiry_nil x now_ :
  Closed x = false -> x_ValidUntil x <> 0 -> expiryDiagnostics x now_ = [] -> now_ <= x_ValidUntil x.
Proof. unfold expiryDiagnostics, Expired. intros -> Hu. cbn [orb]. destruct (negb _) eqn:E; [lia | done]. Qed.
Lemma kind_nil x : kindDiagnostics x = [] -> ob_Kind (x_Object x) = KindExternalDependency.
Proof.
  unfold kindDiagnostics, IsKind. rewrite when_nil, negb_false_iff, Contains_elem. intros Hk.
  by apply list_elem_of_singleton in Hk.
Qed.
Lemma required_nil x :
  requiredDiagnostics x = [] -> x_InvalidDates x = [] ->
  isNominalID (x_ID x) = true /\ isADRRef (x_ADR x) = true /\ HasPrefix (x_Owner x) "team:" = true /\
  ob_Unit (x_Object x) <> ""%string /\ ob_Identity (x_Object x) <> ""%string /\ x_ValidUntil x <> 0.
Proof.
  unfold requiredDiagnostics. rewrite !app_nil_iff, !when_nil. intros (H1 & H2 & H3 & _ & H5 & H6 & _) Hi.
  rewrite Hi in H6. cbn in H6. apply negb_false_iff in H1, H2. apply orb_false_iff in H3 as [H3 _].
  apply negb_false_iff in H3. apply orb_false_iff in H5 as [H5 H5'].
  repeat split; try done; try by apply blank_string. by rewrite andb_true_r, Z.eqb_neq in H6.
Qed.
Lemma single_filter {A} (P : A -> Prop) `{!forall x, Decision (P x)} (l : list A) x :
  x ∈ l -> P x -> len (filter P l) <= 1 -> filter P l = [x].
Proof.
  intros Hx HP Hlen. assert (x ∈ filter P l) as Hin by by apply list_elem_of_filter.
  destruct (filter P l) as [| y [| z k]]; [set_solver | |].
  - by apply list_elem_of_singleton in Hin as ->.
  - unfold len in Hlen. cbn in Hlen. lia.
Qed.
Lemma resolved_unit x doc policy std subj :
  resolveSubject x doc policy std = (subj, true) ->
  exists u, u ∈ do_Units doc /\ mu_ID u = ob_Unit (me_Object x) /\ su_Block subj = mu_Block u.
Proof.
  unfold resolveSubject. destruct (List.find _ (do_Units doc)) as [u |] eqn:Hf; intros [= <-]; cbn.
  - apply List.find_some in Hf as [Hin Heq]. apply String.eqb_eq in Heq. apply list_elem_of_In in Hin. by exists u.
Qed.

Lemma manifest_nil x exc found xs :
  x ∈ xs -> me_ID x <> ""%string -> ob_Kind (x_Object exc) = KindExternalDependency ->
  ob_Unit (me_Object x) <> ""%string ->
  manifestDiagnostics x exc found (count_ids xs) = [] ->
  found = true /\ filter (fun y => me_ID y = me_ID x) xs = [x].
Proof.
  intros Hx Hid Hk Hu. unfold manifestDiagnostics. cbv zeta. rewrite app_nil_iff, !when_nil, Hk.
  rewrite (proj2 (String.eqb_neq _ _) Hid), (proj2 (String.eqb_neq _ _) Hu), String.eqb_refl.
  unfold count_ids. rewrite count_by_lookup. cbn [negb andb]. intros [H1 H2].
  split; [by apply negb_false_iff in H2 |]. apply single_filter; [done | done |].
  rewrite (filter_agree _ (fun y => Some (me_ID y) = Some (me_ID x))) by (intros y _; split; congruence).
  apply Z.ltb_ge, H1.
Qed.

(** Every authorisation in force names its pair: it comes from one exception of
    this manifest, the only one under its nominal identity, with an ADR and a
    team to answer for it, in term at the time of the check, of the one
    admissible kind, for a unit this manifest declares, and for nothing of the
    closed catalogue (P0 constraints, edges, cells, anchors, triggers,
    classifications, the Buf rite, evidence). *)
Theorem authorisation_is_nominal `{MapOrder} doc a e :
  e ∈ po_Exceptions (va_Policy (Validate doc a)) ->
  exists x, x ∈ do_Exceptions doc /\ nominal doc (am_Now a) x e.
Proof.
  intros He. apply policy_exception in He as (ad & Had & ->).
  apply admitted_from in Had as (x & subj & found & Hx & Hs & -> & Hc & Hm & Had).
  exists x. split; [done |]. apply AdmitIn_nil in Had as (Hr & Hk & Hd & _ & Hl & He & _).
  pose proof (lifecycle_dates _ Hl) as Hi.
  destruct (required_nil _ Hr Hi) as (Hid & Hadr & Hown & Hu & Hident & Huntil).
  pose proof (kind_nil _ Hk) as Hkind.
  destruct (manifest_nil x (ToException x) found (do_Exceptions doc)) as [-> Huniq]; try done.
  { intros Hid'. cbn in Hid. by rewrite Hid' in Hid. }
  destruct (resolved_unit _ _ _ _ _ Hs) as (u & Hin & Heq & _).
  split; try done.
  - by exists u.
  - split; [done |]. by apply (expiry_nil (ToException x)).
  - by apply denied_nil.
Qed.
End Accepted.

(** * Pure blocks *)
Section Pure.
Context `{Printable} `{MapOrder}.

Lemma imap_nil {A} (f : nat -> A -> list Diagnostic) l :
  concat (imap f l) = [] -> forall i x, l !! i = Some x -> f i x = [].
Proof.
  rewrite concat_nil, Forall_lookup. intros Hf i x Hx. apply (Hf i). by rewrite list_lookup_imap, Hx.
Qed.
Lemma valid_schema doc a : va_Manifest (Validate doc a) = [] -> validateSchema doc = [].
Proof.
  unfold Validate. destruct (Admitidas _ _ _ _) as [ads rs]. cbn. rewrite SortDiagnostics_nil, app_nil_iff.
  by intros [-> _].
Qed.
Lemma valid_unit doc u :
  validateSchema doc = [] -> u ∈ do_Units doc -> exists i, validateUnit (do_Path doc) (do_Module doc) i u = [].
Proof.
  unfold validateSchema. cbv zeta. rewrite SortDiagnostics_nil, !app_nil_iff. intros (_ & Hu & _) Hin.
  apply list_elem_of_lookup in Hin as [i Hi]. exists i. by apply (imap_nil _ _ Hu).
Qed.
Lemma valid_named doc u : validateSchema doc = [] -> u ∈ do_Units doc -> named u = Some (mu_ID u).
Proof.
  intros Hv Hin. destruct (valid_unit doc u Hv Hin) as [i Hi]. unfold validateUnit in Hi. cbv zeta in Hi.
  apply app_nil_iff in Hi as [Hi _]. apply when_nil, orb_false_iff in Hi as [Hp He].
  unfold named. apply negb_false_iff in Hp. by rewrite Hp, He.
Qed.
Lemma valid_unique doc u :
  validateSchema doc = [] -> u ∈ do_Units doc -> filter (fun v => mu_ID v = mu_ID u) (do_Units doc) = [u].
Proof.
  intros Hv Hin. pose proof (fun v Hin' => valid_named doc v Hv Hin') as Hnamed.
  apply single_filter; [done | done |].
  rewrite (filter_agree _ (fun v => named v = Some (mu_ID u)));
    [| intros v Hv'; rewrite (Hnamed v Hv'); split; congruence].
  apply Z.le_ngt. intros Hlt. pose proof (count_by_many _ _ _ Hlt) as Hmany. apply elem_of_ranged in Hmany.
  unfold validateSchema in Hv. cbv zeta in Hv. rewrite SortDiagnostics_nil, !app_nil_iff in Hv.
  destruct Hv as (_ & _ & Hv). rewrite concat_nil, Forall_map, Forall_forall in Hv.
  specialize (Hv _ Hmany). unfold repeated_unit in Hv. apply when_nil, Z.ltb_ge in Hv. cbn [snd] in Hv. lia.
Qed.

Lemma find_unique u (us : list MUnit) :
  filter (fun v => mu_ID v = mu_ID u) us = [u] -> List.find (fun v => String.eqb (mu_ID v) (mu_ID u)) us = Some u.
Proof.
  induction us as [| v us IH]; [done |]. rewrite filter_cons. cbn [List.find].
  destruct (String.eqb_spec (mu_ID v) (mu_ID u)) as [Heq | Hne]; [rewrite decide_True by done; congruence |].
  rewrite decide_False by done. exact IH.
Qed.

(** The capability of a dependency is the allowlist's or the library's, whatever
    the exceptions are. *)
Lemma capability_of_allowlist target p q std :
  po_Allowlist p = po_Allowlist q -> ResolveCapability target p std = ResolveCapability target q std.
Proof. unfold ResolveCapability, policy_lookup. by intros ->. Qed.
Lemma Validate_allowlist doc a : po_Allowlist (va_Policy (Validate doc a)) = po_Allowlist (allowlistOf doc).
Proof. unfold Validate. by destruct (Admitidas _ _ _ _). Qed.

Definition pure_block (b : Block) : Prop := b = BlockDomain \/ b = BlockPort.
Lemma pure_block_capability b cap : pure_block b -> CapabilityAllowed b cap = true -> cap = CapPure.
Proof.
  intros [-> | ->]; unfold CapabilityAllowed; destruct (IsCapability cap); try done;
    (change (Contains cap [CapPure] = true -> cap = CapPure)); rewrite Contains_elem;
    by intros Hc%list_elem_of_singleton.
Qed.
Lemma block_policy_pure x b cap :
  pure_block b -> ob_Kind (x_Object x) = KindExternalDependency ->
  blockPolicyDiagnostics x (mkSubject b cap) = [] -> cap = CapPure.
Proof.
  intros Hb Hk. unfold blockPolicyDiagnostics. cbn [su_Block su_Capability]. rewrite Hk.
  destruct (String.eqb_spec cap CapPure) as [-> |]; [done |]. by destruct Hb as [-> | ->].
Qed.

(** An exception admitted for a unit of a pure block names a dependency that
    was pure already. *)
Lemma admitted_pure doc a u e :
  va_Manifest (Validate doc a) = [] -> u ∈ do_Units doc -> pure_block (mu_Block u) ->
  e ∈ po_Exceptions (va_Policy (Validate doc a)) -> xe_Unit e = mu_ID u ->
  ResolveCapability (xe_Dependency e) (va_Policy (Validate doc a)) (am_IsStandard a) = Some CapPure.
Proof.
  intros Hv Hu Hb He Heu. apply policy_exception in He as (ad & Had & ->).
  apply admitted_from in Had as (x & subj & found & Hx & Hs & -> & Hc & Hm & Had).
  apply AdmitIn_nil in Had as (Hr & Hk & _ & Hp & Hl & _ & _).
  destruct (required_nil _ Hr (lifecycle_dates _ Hl)) as (_ & _ & _ & _ & Hident & _).
  cbn [entry ad_Exc x_Object xe_Unit xe_Dependency ToException] in *.
  rewrite (capability_of_allowlist _ _ _ _ (Validate_allowlist doc a)).
  pose proof (find_unique u _ (valid_unique doc u (valid_schema doc a Hv) Hu)) as Hf.
  unfold resolveSubject in Hs. rewrite Heu, Hf, (proj2 (String.eqb_neq _ _) Hident) in Hs.
  injection Hs as <- <-. apply (block_policy_pure _ _ _ Hb (kind_nil _ Hk)) in Hp.
  destruct (ResolveCapability _ _ _); cbn in Hp; [by f_equal | done].
Qed.

(** C26: No exception opens a pure block: when the manifest is valid, a direct import
    by a domain or port unit of a dependency that is not known to be pure is
    refused as E001, whatever exceptions the manifest declares for it. *)
Theorem no_exception_opens_a_pure_block doc a u source target file closure :
  va_Manifest (Validate doc a) = [] -> u ∈ do_Units doc -> pure_block (mu_Block u) ->
  ep_Block source = mu_Block u ->
  ResolveCapability target (va_Policy (Validate doc a)) (am_IsStandard a) <> Some CapPure ->
  exists d, d ∈ EvaluateExternal source (mu_ID u) target file (va_Policy (Validate doc a)) closure (am_IsStandard a) /\
    dg_Code d = CodeE001 /\ dg_CanonicalKey d = ep_CanonicalKey source /\ dg_Target d = target.
Proof.
  intros Hv Hu Hb Hblock Hcap. unfold EvaluateExternal.
  destruct (ResolveCapability target _ _) as [cap |] eqn:Hres.
  - assert (CapabilityAllowed (ep_Block source) cap = false) as Hna.
    { apply not_true_is_false. rewrite Hblock. intros Hal. apply Hcap. f_equal.
      exact (pure_block_capability _ _ Hb Hal). }
    assert (exceptionFor (va_Policy (Validate doc a)) (mu_ID u) target = false) as Hne.
    { apply not_true_is_false. unfold exceptionFor. rewrite existsb_exists.
      intros (e & He & Hmatch). apply list_elem_of_In in He. apply andb_true_iff in Hmatch as [Hmatch _].
      apply andb_true_iff in Hmatch as [Heu Hed]. apply String.eqb_eq in Heu, Hed.
      pose proof (admitted_pure doc a u e Hv Hu Hb He Heu) as Hpure. rewrite Hed, Hres in Hpure. by apply Hcap. }
    rewrite Hna, Hne. cbn [negb andb app]. eexists. split; [apply elem_of_cons; by left | done].
  - assert (isPermissiveBlock (ep_Block source) = false) as ->
      by (rewrite Hblock; by destruct Hb as [-> | ->]).
    eexists. split; [apply elem_of_cons; by left | done].
Qed.
End Pure.

(** * A manifest: an application unit with an exception, and a domain unit *)
Module Sample.
#[export] Instance every_rune : Printable := {| IsPrint := fun _ => true |}.
#[export] Instance key_order : MapOrder := by_key.

Definition exception_ : MException :=
  mkMException "" "" "" "team:core" "2026-12-01" "X-driver" (mkObject "external-dependency" "app" "lib" true true true)
    "ADR-001" "migration" (mkConvergence "plan" 900 "replace the driver" 0 "" true) 10 1000
    [mkHistoryEntry "granted" 10 "ana" ""] 900 [] true true true true true true true true.
Definition unit_ (id block include : string) : MUnit :=
  mkMUnit id block "orders" [include] false true true true true false.
Definition manifest : Exceptions.Document :=
  Exceptions.mkDocument "m/dmpf-units.json" "m" Exceptions.SchemaID [unit_ "core" "domain" "m/core"; unit_ "app" "application" "m/app"]
    [mkExternal "lib" ["."] "io.storage" "v1"] [exception_].
Definition admission_ : Admission := mkAdmission None 500.
End Sample.
Import Sample.

Example authorisation_is_nominal_witness :
  exists e x, e ∈ po_Exceptions (va_Policy (Validate Sample.manifest Sample.admission_)) /\
    x ∈ do_Exceptions Sample.manifest /\ nominal Sample.manifest 500 x e.
Proof.
  assert (mkExceptionEntry "app" "lib" "migration" "team:core" "2026-12-01" ∈
          po_Exceptions (va_Policy (Validate Sample.manifest Sample.admission_))) as He.
  { vm_compute. apply list_elem_of_singleton. reflexivity. }
  destruct (authorisation_is_nominal Sample.manifest Sample.admission_ _ He) as (x & Hx & Hn).
  by exists (mkExceptionEntry "app" "lib" "migration" "team:core" "2026-12-01"), x.
Defined.

Example no_exception_opens_a_pure_block_witness :
  exists d, d ∈ EvaluateExternal (mkEndpoint "m/core" "domain" "orders" false false) "core" "lib" "f.go"
                  (va_Policy (Validate Sample.manifest Sample.admission_)) None None /\
    dg_Code d = CodeE001 /\ dg_CanonicalKey d = "m/core"%string /\ dg_Target d = "lib"%string.
Proof.
  apply (no_exception_opens_a_pure_block Sample.manifest Sample.admission_
           (Sample.unit_ "core" "domain" "m/core")).
  - vm_compute. reflexivity.
  - apply elem_of_cons. by left.
  - by left.
  - reflexivity.
  - vm_compute. discriminate.
Defined.

(** Theorems on the baseline of the classification: the digest tells documents
    apart, the comparison is exact, a rewritten baseline conforms, and the
    shared kernel is what was designated. *)

(** * Encodings no two values of which share a prefix *)
Class PrefixFree {A} (ok : A -> Prop) (encode : A -> list Z) := {
  prefix_free : forall x y r s, ok x -> ok y -> encode x ++ r = encode y ++ s -> x = y /\ r = s
}.

Definition ok_uint (n : Z) : Prop := 0 <= n < 2 ^ 64.
Definition ok_texto (s : string) : Prop := Z.of_nat (String.length s) < 2 ^ 64.
Definition ok_lista {A} (ok : A -> Prop) (l : list A) : Prop := len l < 2 ^ 64 /\ Forall ok l.
Definition ok_entry (e : Entry) : Prop :=
  ok_texto (en_Module e) /\ ok_texto (en_Unit e) /\ ok_texto (en_Block e) /\ ok_texto (en_BoundedContext e) /\
  ok_lista ok_texto (en_Membership e).

Definition octet (n k : Z) : Z := Z.land (Z.shiftr (wrapu64 n) (8 * k)) 255.
Lemma octet_bits n j :
  ok_uint n -> 0 <= j < 64 -> Z.testbit n j = Z.testbit (octet n (j / 8)) (j mod 8).
Proof.
  intros Hn Hj. pose proof (Z.div_mod j 8 ltac:(lia)). pose proof (Z.mod_pos_bound j 8 ltac:(lia)).
  unfold octet, wrapu64, ok_uint in *. change 255 with (Z.ones 8).
  rewrite Z.land_spec, Z.testbit_ones_nonneg, Z.shiftr_spec, Z.mod_small by lia.
  replace (j mod 8 + 8 * (j / 8)) with j by lia.
  destruct (Z.ltb_spec (j mod 8) 8); [by rewrite andb_true_r | lia].
Qed.
Lemma map_eq_elem {A B} (f g : A -> B) l x : map f l = map g l -> x ∈ l -> f x = g x.
Proof.
  induction l as [| y l IH]; intros Hm Hx; [by apply elem_of_nil in Hx |]. injection Hm as Hy Hl.
  apply elem_of_cons in Hx as [-> | Hx]; [done | by apply IH].
Qed.
Lemma octet_index j : 0 <= j < 64 -> j / 8 ∈ [7; 6; 5; 4; 3; 2; 1; 0].
Proof.
  intros Hj. rewrite !elem_of_cons, elem_of_nil.
  pose proof (Z.div_mod j 8 ltac:(lia)). pose proof (Z.mod_pos_bound j 8 ltac:(lia)). lia.
Qed.
Lemma escreverUint_inj n m : ok_uint n -> ok_uint m -> escreverUint n = escreverUint m -> n = m.
Proof.
  intros Hn Hm Heq. apply Z.bits_inj'. intros j Hj.
  destruct (Z.lt_ge_cases j 64) as [Hlt | Hge].
  - rewrite (octet_bits n), (octet_bits m) by (done || lia).
    by rewrite (map_eq_elem (octet n) (octet m) _ (j / 8) Heq (octet_index j ltac:(lia))).
  - unfold ok_uint in *. rewrite <- (Z.mod_small n (2 ^ 64)), <- (Z.mod_small m (2 ^ 64)) by done.
    by rewrite !Z.mod_pow2_bits_high by lia.
Qed.

#[export] Instance uint_prefix_free : PrefixFree ok_uint escreverUint.
Proof.
  split. intros n m r s Hn Hm Heq. apply app_inj_1 in Heq as [Heq ->]; [| done].
  by apply escreverUint_inj in Heq.
Qed.
Lemma length_bytes_of s : length (bytes_of s) = String.length s.
Proof. unfold bytes_of. rewrite length_map. induction s as [| c s IH]; cbn; [done | by rewrite IH]. Qed.
#[export] Instance campo_prefix_free : PrefixFree ok_texto escreverCampo.
Proof.
  split. intros x y r s Hx Hy Heq. unfold escreverCampo in Heq. rewrite <- !app_assoc in Heq.
  apply (prefix_free (ok := ok_uint)) in Heq as [Hlen Heq]; try (unfold ok_uint, ok_texto in *; lia).
  apply app_inj_1 in Heq as [Heq ->]; [by apply bytes_of_inj in Heq |].
  rewrite !length_bytes_of. lia.
Qed.
Lemma concat_prefix_free {A} (ok : A -> Prop) encode `{!PrefixFree ok encode} (l k : list A) r s :
  length l = length k -> Forall ok l -> Forall ok k ->
  concat (map encode l) ++ r = concat (map encode k) ++ s -> l = k /\ r = s.
Proof.
  revert k. induction l as [| x l IH]; intros [| y k] Hlen Hl Hk Heq; try done.
  apply Forall_cons in Hl as [Hx Hl], Hk as [Hy Hk]. cbn in Heq. rewrite <- !app_assoc in Heq.
  apply (prefix_free (ok := ok)) in Heq as [-> Heq]; [| done | done].
  apply IH in Heq as [-> ->]; try done. by injection Hlen.
Qed.
#[export] Instance lista_prefix_free {A} (ok : A -> Prop) encode `{!PrefixFree ok encode} :
  PrefixFree (ok_lista ok) (escreverLista encode).
Proof.
  split. intros l k r s [Hl Hls] [Hk Hks] Heq. unfold escreverLista in Heq. rewrite <- !app_assoc in Heq.
  pose proof (len_nonneg l). pose proof (len_nonneg k).
  apply (prefix_free (ok := ok_uint)) in Heq as [Hlen Heq]; try (unfold ok_uint; lia).
  apply (concat_prefix_free ok) in Heq; try done. unfold len in Hlen. lia.
Qed.
#[export] Instance entry_prefix_free : PrefixFree ok_entry escreverEntry.
Proof.
  split. intros [] [] r s (H1 & H2 & H3 & H4 & H5) (K1 & K2 & K3 & K4 & K5) Heq. unfold escreverEntry in Heq.
  rewrite <- !app_assoc in Heq.
  do 4 (apply (prefix_free (ok := ok_texto)) in Heq as [Hf Heq]; [cbn in Hf; subst | done | done]).
  apply (prefix_free (ok := ok_lista ok_texto)) in Heq as [Hf Heq]; [cbn in Hf; by subst | done | done].
Qed.

Definition ok_document (d : Baseline.Document) : Prop :=
  ok_lista ok_entry (bd_Entries d) /\ ok_lista ok_texto (bd_SharedKernelUnits d).
Definition conteudo (d : Baseline.Document) : list Entry * option (list string) :=
  (bd_Entries d, if bd_HasSharedKernelUnits d then Some (bd_SharedKernelUnits d) else None).
Definition bytes_digeridos (d : Baseline.Document) : list Z :=
  digerido (bd_Entries d) (bd_SharedKernelUnits d) (bd_HasSharedKernelUnits d).

(** What the digest hashes tells two baselines apart in every entry and in the
    shared kernel, an empty list from an absent one included: a length before
    each field leaves no text that can stand for another. *)
Theorem digest_input_injective d1 d2 :
  ok_document d1 -> ok_document d2 -> bytes_digeridos d1 = bytes_digeridos d2 -> conteudo d1 = conteudo d2.
Proof.
  intros [H1 K1] [H2 K2] Heq. unfold bytes_digeridos, digerido in Heq.
  apply (prefix_free (ok := ok_lista ok_entry)) in Heq as [He Heq]; [| done | done].
  unfold conteudo. f_equal; [done |].
  destruct (bd_HasSharedKernelUnits d1), (bd_HasSharedKernelUnits d2); try done.
  rewrite <- (app_nil_r (escreverLista _ _)), <- (app_nil_r (escreverLista _ (bd_SharedKernelUnits d2))) in Heq.
  apply (prefix_free (ok := ok_lista ok_texto)) in Heq as [-> _]; done.
Qed.
Definition sample_baseline (schema : string) : Baseline.Document :=
  Baseline.mkDocument schema "" [mkEntry "core" "m" "domain" "orders" ["m/core"]] [] true.
Example digest_input_injective_witness :
  conteudo (sample_baseline "") = conteudo (sample_baseline Baseline.SchemaID).
Proof.
  assert (forall s, ok_document (sample_baseline s)) as Hok.
  { intros s. repeat split; repeat constructor. }
  apply digest_input_injective; [apply Hok | apply Hok | vm_compute; reflexivity].
Defined.

(** * The comparison of two baselines *)
Section Compare.
Context (sha256 : list Z -> list Z) `{MapOrder}.

Lemma indexar_from (m : gmap UnitKey Entry) es k e :
  (forall k e, m !! k = Some e -> Entry_Key e = k) ->
  foldl (fun m e => <[Entry_Key e := e]> m) m es !! k = Some e -> Entry_Key e = k.
Proof.
  revert m. induction es as [| e' es IH]; intros m Hm; cbn; [apply Hm |]. apply IH.
  intros k' e'' Hl. apply lookup_insert_Some in Hl as [[<- <-] | [_ Hl]]; [done | by apply Hm].
Qed.
Lemma indexar_key es k e : indexar es !! k = Some e -> Entry_Key e = k.
Proof. apply indexar_from. intros k' e'. by rewrite lookup_empty. Qed.

Lemma cond_nil (b : bool) (d : Diagnostic) : (if b then [d] else []) = [] <-> b = false.
Proof. by destruct b. Qed.
Lemma divergencias_nil k v d :
  divergencias k v d = [] <->
  en_Block v = en_Block d /\ en_BoundedContext v = en_BoundedContext d /\ en_Membership v = en_Membership d.
Proof.
  unfold divergencias. rewrite !app_nil_iff, !cond_nil, !negb_false_iff, !String.eqb_eq, bool_decide_eq_true. done.
Qed.
Lemma same_entry k v d :
  Entry_Key v = k -> Entry_Key d = k -> divergencias k v d = [] -> v = d.
Proof.
  rewrite divergencias_nil. destruct v, d. cbn. unfold Entry_Key. cbn. intros <- [= <- <-] (<- & <- & <-). done.
Qed.

Lemma declared_nil (nb nm : gmap UnitKey Entry) :
  concat (map (declared nb) (ranged nm)) = [] <->
  forall k d, nm !! k = Some d -> exists v, nb !! k = Some v /\ divergencias k v d = [].
Proof.
  rewrite concat_nil, Forall_map, Forall_forall. split.
  - intros Hd k d Hk. apply elem_of_ranged, Hd in Hk. unfold declared in Hk. cbn in Hk.
    destruct (nb !! k) as [v |]; [| done]. by exists v.
  - intros Hd [k d] Hk. apply elem_of_ranged, Hd in Hk as (v & Hv & Hn). unfold declared. cbn [fst snd].
    by rewrite Hv.
Qed.
Lemma registered_nil (nb nm : gmap UnitKey Entry) :
  concat (map (registered nm) (ranged nb)) = [] <-> forall k v, nb !! k = Some v -> is_Some (nm !! k).
Proof.
  rewrite concat_nil, Forall_map, Forall_forall. split.
  - intros Hd k d Hk. apply elem_of_ranged, Hd in Hk. unfold registered in Hk. cbn in Hk.
    by destruct (nm !! k) as [v |].
  - intros Hd [k d] Hk. apply elem_of_ranged, Hd in Hk as [v Hv]. unfold registered. cbn [fst].
    by rewrite Hv.
Qed.

(** The comparison reports nothing exactly when the versioned baseline has the
    schema, closes its own digest, and classifies what the manifests do: the same
    units of the same modules, each with its block, bounded context and
    packages. *)
Theorem compare_conforms_iff versionado derivado :
  Compare sha256 versionado derivado = [] <->
  bd_Schema versionado = Baseline.SchemaID /\ bd_Digest versionado = DigestOf sha256 versionado /\
  indexar (bd_Entries versionado) = indexar (bd_Entries derivado).
Proof.
  unfold Compare. cbv zeta. rewrite SortDiagnostics_nil, !app_nil_iff, !cond_nil, !negb_false_iff, !String.eqb_eq.
  rewrite declared_nil, registered_nil. split.
  - intros (-> & <- & Hd & Hr). repeat split; try done. apply map_eq. intros k.
    destruct (indexar (bd_Entries derivado) !! k) as [d |] eqn:Hk.
    + destruct (Hd k d Hk) as (v & Hv & Hn). rewrite Hv. f_equal.
      apply (same_entry k); [by apply indexar_key in Hv | by apply indexar_key in Hk | done].
    + destruct (indexar (bd_Entries versionado) !! k) as [v |] eqn:Hv; [| done].
      destruct (Hr k v Hv) as [d Hd']. congruence.
  - intros (-> & <- & Heq). repeat split; try done; rewrite Heq; [| by intros].
    intros k d Hk. exists d. split; [done |]. by apply divergencias_nil.
Qed.

(** A rewritten baseline conforms to the universe it was written from, and keeps
    the designation of the shared kernel it replaces. *)
Theorem regravar_conforms atual units membership :
  Compare sha256 (Regravar sha256 atual units membership) (FromUniverse sha256 units membership) = [] /\
  bd_HasSharedKernelUnits (Regravar sha256 atual units membership) = true /\
  bd_SharedKernelUnits (Regravar sha256 atual units membership) =
    match atual with
    | Some d => if bd_HasSharedKernelUnits d then bd_SharedKernelUnits d else []
    | None => []
    end /\
  Permutation (bd_Entries (Regravar sha256 atual units membership)) (map (entry_of membership) units).
Proof.
  split; [| split; [done | split; [done |]]].
  - unfold Compare. cbv zeta. rewrite SortDiagnostics_nil, !app_nil_iff, !cond_nil, !negb_false_iff, !String.eqb_eq.
    rewrite declared_nil, registered_nil. split; [done |]. split; [done |]. cbn [bd_Entries Regravar FromUniverse].
    split; [| by intros]. intros k d Hk. exists d. split; [done |]. by apply divergencias_nil.
  - apply SortStableFunc_perm.
Qed.
End Compare.

(** * The designation of the shared kernel *)
Definition resolve (entries : list Entry) (positions : gmap UnitKey nat) (chave : string) : option nat :=
  match filter (fun e => en_Unit e = chave) entries with
  | [e] => positions !! Entry_Key e
  | _ => None
  end.
Lemma designar_um_spec entries positions us ds chave :
  match resolve entries positions chave with
  | Some i => designar_um entries positions (us, ds) chave = (alter designated i us, ds)
  | None => exists d, designar_um entries positions (us, ds) chave = (us, ds ++ [d]) /\
      dg_Code d = CodeM004 /\ dg_CanonicalKey d = chave
  end.
Proof.
  unfold resolve, designar_um. destruct (filter _ entries) as [| e [| e' es]]; [by eexists | | by eexists].
  destruct (positions !! Entry_Key e); [done | by eexists].
Qed.
Lemma designated_again u : designated (designated u) = designated u.
Proof. done. Qed.
Lemma alter_designated (us : list Unit) i j :
  alter designated i us !! j = (if decide (i = j) then designated <$> us !! j else us !! j).
Proof. destruct (decide (i = j)) as [-> |]; [apply list_lookup_alter_eq | by apply list_lookup_alter_ne]. Qed.

Lemma designar_loop entries positions l us ds out :
  foldl (designar_um entries positions) (us, ds) l = (out, []) ->
  ds = [] /\ Forall (fun c => is_Some (resolve entries positions c)) l /\
  forall j, out !! j =
    (fun u => if decide (j ∈ omap (resolve entries positions) l) then designated u else u) <$> us !! j.
Proof.
  revert us ds. induction l as [| c l IH]; intros us ds; cbn [foldl].
  { intros [= -> ->]. split; [done |]. split; [constructor |]. intros j. cbn. by destruct (out !! j). }
  pose proof (designar_um_spec entries positions us ds c) as Hone.
  destruct (resolve entries positions c) as [i |] eqn:Hr.
  - rewrite Hone. intros Hl. apply IH in Hl as (-> & Hall & Hout). split; [done |].
    split; [constructor; [by rewrite Hr | done] |]. intros j. rewrite Hout, alter_designated.
    cbn [omap list_omap]. rewrite Hr. destruct (us !! j) as [u |]; cbn; [| by destruct (decide (i = j))].
    destruct (decide (i = j)) as [-> | Hne]; cbn; f_equal.
    + rewrite (decide_True (P := j ∈ j :: _)) by (apply elem_of_cons; by left). by case_decide.
    + apply decide_ext. rewrite elem_of_cons. split; [by right | intros [-> |]; done].
  - destruct Hone as (d & -> & _). intros Hl. apply IH in Hl as [Hd _]. by destruct ds.
Qed.

(** When nothing is reported, the designation marks as shared kernel exactly the
    units its keys name: each key is the name of one entry of the baseline,
    whose unit is in the universe, and every other unit is left as it was. *)
Theorem designar_exact doc units out :
  Designar doc units = (out, []) ->
  let to := resolve (bd_Entries doc) (porUnitKey units) in
  Forall (fun c => is_Some (to c)) (bd_SharedKernelUnits doc) /\
  forall j, out !! j =
    (fun u => if decide (j ∈ omap to (bd_SharedKernelUnits doc)) then designated u else u) <$> units !! j.
Proof.
  unfold Designar. destruct (foldl _ _ _) as [us ds] eqn:Hf. intros [= -> Hs]. cbv zeta.
  apply SortDiagnostics_nil in Hs as ->. apply designar_loop in Hf as (_ & Hall & Hout).
  pose proof (SortStableFunc_perm String_as_OT.compare (bd_SharedKernelUnits doc)) as Hp.
  change (SortStableFunc String_as_OT.compare (bd_SharedKernelUnits doc))
    with (sort_Strings (bd_SharedKernelUnits doc)) in Hp.
  split; [by rewrite <- Hp |]. intros j. rewrite Hout. destruct (units !! j) as [u |]; [| done]. cbn. f_equal.
  apply decide_ext. by rewrite Hp.
Qed.
Definition two_units : list Unit :=
  [mkUnit "a" "domain" "x" false false [] "m" "" false; mkUnit "b" "domain" "x" false false [] "m" "" false].
Definition names_b : Baseline.Document :=
  Baseline.mkDocument "" "" [mkEntry "b" "m" "" "" []] ["b"] true.
Example designar_exact_witness :
  Forall (fun c => is_Some (resolve (bd_Entries names_b) (porUnitKey two_units) c)) ["b"%string].
Proof. eapply (designar_exact names_b two_units). vm_compute. reflexivity. Defined.
