(* ===== verification/ConformanceTheorems.v ===== *)
(** Theorems on the check of a workspace: the report is the same on every run,
    the universe classifies by the one owner, and a clean report means every
    edge is allowed. *)

From Stdlib Require Import OrdersEx.
From S2P Require Import Prelude GoTime GoStrings GoSlices Rules Exceptions Baseline Conformance ManifestTheorems.

(** * The order of the maps does not show in the report *)
Section SameReport.
Context (sha256 : list Z -> list Z) `{Printable} (o1 o2 : MapOrder).

Lemma ranged_orders {K V} `{Countable K} (m : gmap K V) : @ranged o1 K _ _ V m ≡ₚ @ranged o2 K _ _ V m.
Proof. by rewrite !ranged_perm. Qed.
Lemma concat_map_perm {A B} (f : A -> list B) l k : l ≡ₚ k -> concat (map f l) ≡ₚ concat (map f k).
Proof.
  induction 1 as [| x l k _ IH | x y l | l1 l2 l3 _ IH1 _ IH2]; cbn; [done | by rewrite IH | | by rewrite IH1].
  by rewrite !app_assoc, (Permutation_app_comm (f y)).
Qed.
Lemma sort_Strings_unique l k : l ≡ₚ k -> sort_Strings l = sort_Strings k.
Proof. apply SortStableFunc_unique, _. Qed.

Lemma Validate_order doc a : @Validate _ o1 doc a = @Validate _ o2 doc a.
Proof.
  unfold Validate. destruct (Admitidas _ _ _ _) as [ads rs]. do 2 f_equal. f_equal.
  unfold validateSchema. cbv zeta. apply SortDiagnostics_unique.
  by rewrite (concat_map_perm _ _ _ (ranged_orders _)).
Qed.
Lemma impureza_order entrypoint policy closure std :
  @impurezaNoFechamento o1 entrypoint policy closure std = @impurezaNoFechamento o2 entrypoint policy closure std.
Proof.
  unfold impurezaNoFechamento. destruct closure as [close |]; [| done]. destruct (close entrypoint) as [deps |]; [| done].
  cbv zeta. rewrite (sort_Strings_unique _ _ (fmap_Permutation fst _ _ (ranged_orders _))). done.
Qed.
Lemma EvaluateExternal_order source id target file policy closure std :
  @EvaluateExternal o1 source id target file policy closure std =
  @EvaluateExternal o2 source id target file policy closure std.
Proof. unfold EvaluateExternal. by rewrite impureza_order. Qed.
Lemma BuildUniverse_order units packages modules :
  @BuildUniverse o1 units packages modules = @BuildUniverse o2 units packages modules.
Proof.
  unfold BuildUniverse. destruct (classify_packages _ _) as [u coverage]. f_equal.
  apply SortDiagnostics_unique. by rewrite (concat_map_perm _ _ _ (ranged_orders _)).
Qed.

(** The packages of a unit, in the order they are ranged over. *)
Definition member (u : Universe) (k : UnitKey) (e : string * nat) : option string :=
  match un_units u !! e.2 with
  | Some unit => if decide (Unit_Key unit = k) then Some e.1 else None
  | None => None
  end.
Definition members (u : Universe) (k : UnitKey) (l : list (string * nat)) : list string := omap (member u k) l.
Definition member_step (u : Universe) (out : gmap UnitKey (list string)) (e : string * nat)
    : gmap UnitKey (list string) :=
  match un_units u !! e.2 with
  | Some unit => <[Unit_Key unit := default [] (out !! Unit_Key unit) ++ [e.1]]> out
  | None => out
  end.
Lemma members_from u l m k :
  foldl (member_step u) m l !! k =
  match members u k l with [] => m !! k | ms => Some (default [] (m !! k) ++ ms) end.
Proof.
  revert m. induction l as [| e l IH]; intros m; cbn [foldl]; [done |].
  rewrite IH. change (members u k (e :: l)) with
    (match member u k e with Some y => y :: members u k l | None => members u k l end).
  unfold member_step, member. destruct (un_units u !! e.2) as [unit |]; [| done].
  destruct (decide (Unit_Key unit = k)) as [-> | Hne].
  - rewrite lookup_insert_eq. cbn [default]. destruct (members u k l) as [| x ms]; [done |].
    unfold default, id. by rewrite <- app_assoc.
  - by rewrite lookup_insert_ne.
Qed.
Lemma Membership_order u : @Membership o1 u = @Membership o2 u.
Proof.
  unfold Membership. apply map_eq. intros k. rewrite !lookup_fmap.
  change (fun (out : gmap UnitKey (list string)) (entry : string * nat) => _) with (member_step u).
  rewrite !members_from.
  assert (members u k (@ranged o1 _ _ _ _ (un_byKey u)) ≡ₚ members u k (@ranged o2 _ _ _ _ (un_byKey u))) as Hp.
  { unfold members. by rewrite (ranged_orders (un_byKey u)). }
  destruct (members u k (@ranged o1 _ _ _ _ _)) as [| x xs], (members u k (@ranged o2 _ _ _ _ _)) as [| y ys]; try done.
  - by apply Permutation_nil_l in Hp.
  - by apply Permutation_nil_r in Hp.
  - rewrite !lookup_empty. change (Some (sort_Strings (x :: xs)) = Some (sort_Strings (y :: ys))).
    f_equal. by apply sort_Strings_unique.
Qed.
Lemma Compare_order v d : @Compare sha256 o1 v d = @Compare sha256 o2 v d.
Proof.
  unfold Compare. cbv zeta. apply SortDiagnostics_unique.
  by rewrite !(concat_map_perm _ _ _ (ranged_orders _)).
Qed.
Lemma kernel_units_order i docs : @kernel_units _ o1 i docs = @kernel_units _ o2 i docs.
Proof. induction docs as [| doc docs IH]; cbn [kernel_units]; [done |]. by rewrite Validate_order, IH. Qed.
Lemma diagnose_edge_order i u k p e : @diagnose_edge o1 i u k p e = @diagnose_edge o2 i u k p e.
Proof. unfold diagnose_edge. cbv zeta. repeat (case_match; [done |] || case_match); try done; apply EvaluateExternal_order. Qed.
Lemma check_edges_order i p n diags units b ex :
  @check_edges sha256 _ o1 i p n diags units b ex = @check_edges sha256 _ o2 i p n diags units b ex.
Proof.
  unfold check_edges, lerKernel. destruct (in_Kernel i) as [[err | k] |]; [done | |]; cbv zeta.
  - rewrite kernel_units_order. destruct (kernel_units i _); [done |]. destruct (in_Packages i); [done |].
    rewrite BuildUniverse_order. destruct (BuildUniverse _ _ _) as [u cob]. case_match; [done |].
    destruct (in_Edges i); [done |]. unfold conferirBaseline. rewrite Membership_order.
    rewrite (map_ext _ _ (diagnose_edge_order i u _ p)). by rewrite Compare_order.
  - destruct (in_Packages i); [done |].
    rewrite BuildUniverse_order. destruct (BuildUniverse _ _ _) as [u cob]. case_match; [done |].
    destruct (in_Edges i); [done |]. unfold conferirBaseline. rewrite Membership_order.
    rewrite (map_ext _ _ (diagnose_edge_order i u _ p)). by rewrite Compare_order.
Qed.

Lemma check_units_order i docs vs b ex :
  @check_units sha256 _ o1 i docs vs b ex = @check_units sha256 _ o2 i docs vs b ex.
Proof.
  unfold check_units. cbv zeta. destruct (Designar _ _) as [us [| d ds]]; [apply check_edges_order | done].
Qed.

(** The report is a function of the workspace: whatever order Go ranges over its
    maps in, two runs give the same diagnostics in the same order, the same
    conditions not verified, and halt in the same phase. *)
Theorem check_is_deterministic i : @Check sha256 _ o1 i = @Check sha256 _ o2 i.
Proof.
  unfold Check. destruct (in_Manifests i) as [err | docs]; [done |]. cbv zeta.
  rewrite (map_ext _ _ (fun doc => Validate_order doc (admission i))).
  destruct (concat (map va_Manifest _)) as [| d ds]; [| reflexivity].
  destruct (in_Baseline i) as [[err | [b ex]] |]; [reflexivity | apply check_units_order | apply check_units_order].
Qed.
End SameReport.

(** * The universe classifies by the one owner *)
Definition uncovered (k : string) (d : Diagnostic) : Prop :=
  dg_CanonicalKey d = k /\ (dg_Code d = CodeU001 \/ dg_Code d = CodeU002).
Record classified (units : list Unit) (seen : list Package) (u : Universe) (diags : list Diagnostic) : Prop := {
  cl_units : un_units u = units;
  cl_found : forall k, k ∈ un_descobertos u <-> exists pkg, pkg ∈ seen /\ pk_CanonicalKey pkg = k;
  cl_owner : forall k i, un_byKey u !! k = Some i ->
    exists pkg unit, pkg ∈ seen /\ pk_CanonicalKey pkg = k /\ owners_of units pkg = [(i, unit)];
  cl_covered : forall k, k ∈ un_descobertos u -> is_Some (un_byKey u !! k) \/ exists d, d ∈ diags /\ uncovered k d
}.

Lemma owners_of_lookup units pkg i unit :
  (i, unit) ∈ owners_of units pkg -> units !! i = Some unit.
Proof.
  unfold owners_of. rewrite list_elem_of_filter. intros [_ Hin].
  apply list_elem_of_lookup in Hin as [j Hj]. rewrite list_lookup_imap in Hj.
  destruct (units !! j) as [v |] eqn:Hv; [| done]. by injection Hj as <- <-.
Qed.

(** A key seen again changes nothing. *)
Lemma classified_again units seen u diags pkg :
  classified units seen u diags -> pk_CanonicalKey pkg ∈ un_descobertos u ->
  classified units (seen ++ [pkg]) u (diags ++ []).
Proof.
  intros [H1 H2 H3 H4] Hin. rewrite app_nil_r. split; try done.
  - intros k. rewrite H2. setoid_rewrite elem_of_app. setoid_rewrite list_elem_of_singleton. split; [naive_solver |].
    intros (p & [Hp | ->] & <-); [by exists p | by apply H2].
  - intros k i Hk. destruct (H3 k i Hk) as (p & unit & Hp & ?). exists p, unit. rewrite elem_of_app. naive_solver.
Qed.
(** A new key, classified or reported. *)
Lemma classified_new units seen u diags pkg byKey new :
  classified units seen u diags -> pk_CanonicalKey pkg ∉ un_descobertos u ->
  (forall k i, byKey !! k = Some i -> un_byKey u !! k = Some i \/
     k = pk_CanonicalKey pkg /\ exists unit, owners_of units pkg = [(i, unit)]) ->
  (forall k, is_Some (un_byKey u !! k) -> is_Some (byKey !! k)) ->
  is_Some (byKey !! pk_CanonicalKey pkg) \/ (exists d, d ∈ new /\ uncovered (pk_CanonicalKey pkg) d) ->
  classified units (seen ++ [pkg])
    (mkUniverse units byKey ({[pk_CanonicalKey pkg]} ∪ un_descobertos u)) (diags ++ new).
Proof.
  intros [H1 H2 H3 H4] Hnew Hown Hkeep Hhere. split; cbn [un_units un_byKey un_descobertos].
  - done.
  - intros k. rewrite elem_of_union, elem_of_singleton, H2. setoid_rewrite elem_of_app.
    setoid_rewrite list_elem_of_singleton. naive_solver.
  - intros k i Hk. setoid_rewrite elem_of_app. setoid_rewrite list_elem_of_singleton.
    destruct (Hown k i Hk) as [Hk' | [-> [unit Hu]]]; [| by exists pkg, unit; auto].
    destruct (H3 k i Hk') as (p & unit & Hp & ?). exists p, unit. naive_solver.
  - intros k. rewrite elem_of_union, elem_of_singleton. setoid_rewrite elem_of_app.
    intros [-> | Hk]; [destruct Hhere as [? | (d & ? & ?)]; [by left | right; exists d; auto] |].
    destruct (H4 k Hk) as [Hs | (d & Hd & Hu)]; [left; by apply Hkeep | right; exists d; auto].
Qed.

Lemma classify_package_classified units seen u diags pkg u' new :
  classified units seen u diags -> classify_package pkg u = (u', new) ->
  classified units (seen ++ [pkg]) u' (diags ++ new).
Proof.
  intros Hc. unfold classify_package. case_bool_decide as Hin.
  { intros [= <- <-]. by apply classified_again. }
  rewrite (cl_units _ _ _ _ Hc).
  destruct (owners_of units pkg) as [| [i unit] [| o os]] eqn:Ho; intros [= <- <-].
  - apply (classified_new units seen u diags pkg); try done; [auto |]. right.
    eexists. split; [by apply list_elem_of_singleton |]. split; [done | by left].
  - apply (classified_new units seen u diags pkg); try done; rewrite ?lookup_insert_eq; [| | by left].
    + intros k j Hj. apply lookup_insert_Some in Hj as [[<- <-] | [_ Hj]]; [right | by left].
      split; [done |]. by exists unit.
    + intros k Hk. destruct (decide (pk_CanonicalKey pkg = k)) as [-> | Hne];
        [by rewrite lookup_insert_eq | by rewrite lookup_insert_ne].
  - apply (classified_new units seen u diags pkg); try done; [auto |]. right.
    eexists. split; [by apply list_elem_of_singleton |]. split; [done | by right].
Qed.
Lemma classify_packages_classified units packages seen u diags u' new :
  classified units seen u diags -> classify_packages packages u = (u', new) ->
  classified units (seen ++ packages) u' (diags ++ new).
Proof.
  revert seen u diags u' new. induction packages as [| pkg packages IH]; intros seen u diags u' new Hc; cbn [classify_packages].
  { intros [= <- <-]. by rewrite !app_nil_r. }
  destruct (classify_package pkg u) as [u1 new1] eqn:H1. destruct (classify_packages packages u1) as [u2 new2] eqn:H2.
  intros [= <- <-]. replace (seen ++ pkg :: packages) with ((seen ++ [pkg]) ++ packages) by by rewrite <- app_assoc.
  rewrite app_assoc. eapply IH; [| exact H2]. by eapply classify_package_classified.
Qed.
Lemma BuildUniverse_classified `{MapOrder} units packages modules u diags :
  BuildUniverse units packages modules = (u, diags) -> classified units packages u diags.
Proof.
  unfold BuildUniverse. cbv zeta. destruct (classify_packages packages _) as [u1 cov] eqn:Hc. intros [= <- <-].
  assert (classified units [] (mkUniverse units ∅ ∅) []) as H0.
  { split; cbn; try done.
    intros k. split; [set_solver |]. intros (p & Hp & _). set_solver. }
  pose proof (classify_packages_classified _ _ _ _ _ _ _ H0 Hc) as [H1 H2 H3 H4]. split; try done.
  intros k Hk. destruct (H4 k Hk) as [Hs | (d & Hd & Hu)]; [by left | right]. exists d. split; [| done].
  apply elem_of_SortDiagnostics. rewrite !elem_of_app. by right; right.
Qed.
Lemma classified_lookup units seen u diags k :
  classified units seen u diags -> is_Some (un_byKey u !! k) -> is_Some (Universe_Lookup u k).
Proof.
  intros Hc [i Hi]. unfold Universe_Lookup. rewrite Hi. cbn. rewrite (cl_units _ _ _ _ Hc).
  destruct (cl_owner _ _ _ _ Hc k i Hi) as (p & unit & _ & _ & Ho).
  exists unit. apply (owners_of_lookup _ p). rewrite Ho. by apply list_elem_of_singleton.
Qed.

(** The universe classifies a package by the one unit that owns it: a unit of
    its own module whose list names its path, and no other; a production
    package that gets no unit is reported, as uncovered or as covered twice. *)
Theorem universe_classifies_by_one_owner `{MapOrder} units packages modules :
  let '(u, diags) := BuildUniverse units packages modules in
  (forall k unit, Universe_Lookup u k = Some unit ->
     exists pkg i, pkg ∈ packages /\ pk_CanonicalKey pkg = k /\ owners_of units pkg = [(i, unit)]) /\
  (forall pkg, pkg ∈ packages -> Universe_Lookup u (pk_CanonicalKey pkg) = None ->
     exists d, d ∈ diags /\ uncovered (pk_CanonicalKey pkg) d).
Proof.
  destruct (BuildUniverse units packages modules) as [u diags] eqn:Hb.
  pose proof (BuildUniverse_classified _ _ _ _ _ Hb) as Hc. split.
  - intros k unit. unfold Universe_Lookup. destruct (un_byKey u !! k) as [i |] eqn:Hi; [| done]. cbn. intros Hl.
    destruct (cl_owner _ _ _ _ Hc k i Hi) as (p & unit' & Hp & Hk & Ho). exists p, i.
    rewrite (cl_units _ _ _ _ Hc) in Hl. assert (units !! i = Some unit') as Hl'.
    { apply (owners_of_lookup _ p). rewrite Ho. by apply list_elem_of_singleton. }
    rewrite Hl in Hl'. by injection Hl' as ->.
  - intros pkg Hp Hn.
    destruct (cl_covered _ _ _ _ Hc (pk_CanonicalKey pkg)) as [Hs | Hd]; [by apply (cl_found _ _ _ _ Hc); exists pkg | | done].
    apply (classified_lookup _ _ _ _ _ Hc) in Hs as [x Hx]. congruence.
Qed.

(** * A clean report *)
Section Clean.
Context (sha256 : list Z -> list Z) `{Printable} `{MapOrder}.

Definition external_allowed (i : Input) (origem : Endpoint) (dono : Unit) (target : string)
    (policy : ExternalPolicy) : Prop :=
  match ResolveCapability target policy (in_Standard i) with
  | None => isPermissiveBlock (ep_Block origem) = true
  | Some cap =>
      (CapabilityAllowed (ep_Block origem) cap = true \/ exceptionFor policy (u_ID dono) target = true) /\
      (cap = CapPure -> is_Some (policy_lookup policy target) ->
       impurezaNoFechamento target policy (in_Closure i) (in_Standard i) = None)
  end.
Definition edge_allowed (i : Input) (universo : Universe) (politicas : gmap string ExternalPolicy) (e : Edge)
    : Prop :=
  exists origem dono,
    Universe_Endpoint universo (ed_From e) = Some origem /\ Universe_Lookup universo (ed_From e) = Some dono /\
    match Universe_Endpoint universo (ed_To e) with
    | Some destino =>
        AllowedByMatrix (ep_Block origem) (ep_Block destino) = true /\
        (ep_BoundedContext origem = ep_BoundedContext destino \/ ep_Block destino = BlockContract \/
         ep_PublicIntegrationSurface destino = true \/ ep_SharedKernel destino = true)
    | None =>
        Discovered universo (ed_To e) = false /\
        external_allowed i origem dono (ed_To e) (default (mkExternalPolicy [] []) (politicas !! u_Module dono))
    end.

Lemma clean_nil r : Reprovado r = false <-> re_Diagnostics r = [] /\ re_NaoVerificado r = [].
Proof.
  unfold Reprovado. rewrite orb_false_iff, !Z.ltb_ge.
  destruct (re_Diagnostics r), (re_NaoVerificado r); unfold len; cbn; split; intros; try done; try lia; naive_solver lia.
Qed.
Lemma EvaluateExternal_nil i origem dono target file policy :
  EvaluateExternal origem (u_ID dono) target file policy (in_Closure i) (in_Standard i) = [] <->
  external_allowed i origem dono target policy.
Proof.
  unfold EvaluateExternal, external_allowed. destruct (ResolveCapability _ _ _) as [cap |].
  - rewrite app_nil_iff, cond_nil, andb_false_iff, !negb_false_iff. apply and_iff_compat_l.
    destruct (String.eqb_spec cap CapPure) as [-> | Hne]; cbn [andb]; [| naive_solver].
    case_bool_decide as Hs; [| naive_solver]. destruct (impurezaNoFechamento _ _ _ _); naive_solver.
  - by destruct (isPermissiveBlock _).
Qed.
Lemma DiagnoseEdge_nil origem destino file :
  DiagnoseEdge origem destino file = [] <->
  AllowedByMatrix (ep_Block origem) (ep_Block destino) = true /\
  (ep_BoundedContext origem = ep_BoundedContext destino \/ ep_Block destino = BlockContract \/
   ep_PublicIntegrationSurface destino = true \/ ep_SharedKernel destino = true).
Proof.
  unfold DiagnoseEdge. cbv zeta. rewrite app_nil_iff, !cond_nil, !negb_false_iff. cbn [C1 C2 Decide].
  unfold SameBoundedContext, PublicIntegrationSurface. rewrite !orb_true_iff, !String.eqb_eq. tauto.
Qed.

(** An edge with no diagnostic is allowed, in a universe where only packages
    received from the kernel may lack a unit. *)
Lemma diagnose_edge_nil i universo kernel politicas e :
  (forall k, Discovered universo k = true -> contem kernel k = false -> is_Some (Universe_Lookup universo k)) ->
  diagnose_edge i universo kernel politicas e = [] ->
  ed_Unresolved e = false /\
  (is_Some (Universe_Lookup universo (ed_From e)) -> edge_allowed i universo politicas e).
Proof.
  intros Hcov. unfold diagnose_edge. destruct (ed_Unresolved e); [done |]. intros Hd. split; [done |].
  intros [dono Hl]. assert (exists origem, Universe_Endpoint universo (ed_From e) = Some origem) as [origem Ho].
  { unfold Universe_Endpoint. rewrite Hl. by eexists. }
  exists origem, dono. split; [done |]. split; [done |]. rewrite Ho in Hd. rewrite Hl in Hd. cbn [default] in Hd.
  destruct (Universe_Endpoint universo (ed_To e)) as [destino |] eqn:Hto; [by apply DiagnoseEdge_nil in Hd |].
  destruct (Discovered universo (ed_To e)) eqn:Hdis.
  - apply when_nil in Hd. destruct (Hcov _ Hdis Hd) as [u Hu]. unfold Universe_Endpoint in Hto. by rewrite Hu in Hto.
  - split; [done |]. by apply EvaluateExternal_nil in Hd.
Qed.

(** What a clean report of the last phase rests on. *)
Lemma check_edges_clean i politicas n diags units b ex r :
  check_edges sha256 i politicas n diags units b ex = inr r -> Reprovado r = false ->
  exists kernel pkgs edges, lerKernel i = inr kernel /\ in_Packages i = inr pkgs /\ in_Edges i = inr edges /\
    diags = [] /\
    let '(universo, cobertura) :=
      BuildUniverse (units ++ kl_unidades kernel) (pkgs ++ kl_pacotes kernel) (in_Modules i) in
    filter (fun d => contem kernel (dg_CanonicalKey d) = false) cobertura = [] /\
    conferirBaseline sha256 i units universo b ex = ([], []) /\
    (0 < n -> in_Now i <> 0) /\
    Forall (fun e => diagnose_edge i universo kernel politicas e = []) edges.
Proof.
  unfold check_edges. rewrite clean_nil. destruct (lerKernel i) as [falha | kernel].
  { intros [= <-] [_ Hn]. done. }
  destruct (in_Packages i) as [err | pkgs]; [done |].
  destruct (BuildUniverse _ _ _) as [universo cobertura] eqn:Hb. cbv zeta.
  destruct (existsb _ _) eqn:Hex.
  { intros [= <-] [Hd _]. cbn in Hd. rewrite SortDiagnostics_nil, app_nil_iff in Hd. destruct Hd as [_ Hd].
    by rewrite Hd in Hex. }
  destruct (in_Edges i) as [err | edges]; [done |].
  destruct (conferirBaseline _ _ _ _ _ _) as [t001s pendente] eqn:Hcb. intros [= <-] [Hd Hn]. cbn in Hd, Hn.
  rewrite SortDiagnostics_nil, !app_nil_iff, concat_nil, Forall_map in Hd. destruct Hd as (-> & Hcob & Har & ->).
  apply app_nil_iff in Hn as [Hv ->]. exists kernel, pkgs, edges. rewrite Hb.
  repeat split; try done. intros Hpos Hzero. rewrite Hzero in Hv. cbn in Hv.
  destruct (Z.ltb_spec 0 n); [done | lia].
Qed.

(** What it rests on in the phase of the baseline. *)
Lemma check_units_clean i docs vs versionado existe r :
  check_units sha256 i docs vs versionado existe = inr r -> Reprovado r = false ->
  exists units, Designar versionado (concat (map UnidadesDoDocumento docs)) = (units, []) /\
    check_edges sha256 i (politicaPorModulo docs vs) (len (concat (map va_Admitted vs)))
      (concat (map va_Exceptions vs)) units versionado existe = inr r /\
    is_Some (in_Baseline i) /\ existe = true.
Proof.
  unfold check_units. cbv zeta. intros Hu Hclean. destruct (Designar _ _) as [units [| d ds]].
  - exists units. split; [done |]. split; [done |].
    destruct (check_edges_clean _ _ _ _ _ _ _ _ Hu Hclean) as (k & p & e & _ & _ & _ & _ & He).
    destruct (BuildUniverse _ _ _) as [u cob]. destruct He as (_ & Hcb & _). unfold conferirBaseline in Hcb.
    by destruct (in_Baseline i), existe.
  - injection Hu as <-. apply clean_nil in Hclean as [Hd _]. cbn [re_Diagnostics] in Hd.
    rewrite SortDiagnostics_nil, app_nil_iff in Hd. by destruct Hd.
Qed.

(** The manifests of a check past its first phases. *)
Lemma Check_clean i r :
  Check sha256 i = inr r -> Reprovado r = false ->
  exists docs versionado, let vs := map (fun doc => Validate doc (admission i)) docs in
    in_Manifests i = inr docs /\ in_Baseline i = Some (inr (versionado, true)) /\
    concat (map va_Manifest vs) = [] /\ check_units sha256 i docs vs versionado true = inr r.
Proof.
  unfold Check. intros Hcheck Hclean. destruct (in_Manifests i) as [err | docs]; [done |]. cbv zeta in Hcheck.
  destruct (concat (map va_Manifest _)) as [| d ds] eqn:Hinv.
  2: { injection Hcheck as <-. apply clean_nil in Hclean as [Hd _]. cbn [re_Diagnostics] in Hd.
       rewrite SortDiagnostics_nil in Hd. discriminate. }
  destruct (in_Baseline i) as [[err | [versionado existe]] |] eqn:Hb.
  - injection Hcheck as <-. apply clean_nil in Hclean as [_ Hn]. discriminate.
  - destruct (check_units_clean _ _ _ _ _ _ Hcheck Hclean) as (_ & _ & _ & _ & ->). by exists docs, versionado.
  - destruct (check_units_clean _ _ _ _ _ _ Hcheck Hclean) as (_ & _ & _ & Hs & _). rewrite Hb in Hs. by destruct Hs.
Qed.

Lemma filter_nil_elem {A} (P : A -> Prop) `{!forall x, Decision (P x)} l x : filter P l = [] -> x ∈ l -> ~ P x.
Proof.
  intros Hf Hx HP. assert (x ∈ filter P l) as Hin by by apply list_elem_of_filter.
  rewrite Hf in Hin. by apply elem_of_nil in Hin.
Qed.
Lemma concat_map_nil {A B} (f : A -> list B) l x : concat (map f l) = [] -> x ∈ l -> f x = [].
Proof. rewrite concat_nil, Forall_map, Forall_forall. auto. Qed.

(** Where no package outside the kernel was reported, each has a unit. *)
Lemma covered_lookup units packages u cob kernel :
  classified units packages u cob ->
  filter (fun d => contem kernel (dg_CanonicalKey d) = false) cob = [] ->
  forall k, Discovered u k = true -> contem kernel k = false -> is_Some (Universe_Lookup u k).
Proof.
  intros Hc Hf k Hk Hout. unfold Discovered in Hk. apply bool_decide_eq_true in Hk.
  destruct (cl_covered _ _ _ _ Hc k Hk) as [Hs | (d & Hd & [Hkey _])].
  - by apply (classified_lookup _ _ _ _ _ Hc).
  - exfalso. apply (filter_nil_elem _ _ _ Hf Hd). by rewrite Hkey.
Qed.

(** C25: A workspace that passes is one the rules allow: its manifests are valid and
    their exceptions all admitted; the baseline is the one versioned, closes its
    digest and classifies what the manifests do; every package of the workspace
    has its one unit; every import is resolved, and one by a package with a unit
    is of a unit its block and bounded context may depend on, or of an external
    dependency whose capability the block allows, or an exception in force
    authorises, and which is pure in its whole closure where declared pure. *)
Theorem clean_report_means_allowed i r :
  Check sha256 i = inr r -> Reprovado r = false ->
  exists docs versionado units kernel pkgs edges,
    let vs := map (fun doc => Validate doc (admission i)) docs in
    in_Manifests i = inr docs /\ in_Baseline i = Some (inr (versionado, true)) /\
    Designar versionado (concat (map UnidadesDoDocumento docs)) = (units, []) /\
    lerKernel i = inr kernel /\ in_Packages i = inr pkgs /\ in_Edges i = inr edges /\
    (forall doc, doc ∈ docs ->
       va_Manifest (Validate doc (admission i)) = [] /\ va_Exceptions (Validate doc (admission i)) = []) /\
    let universo := (BuildUniverse (units ++ kl_unidades kernel) (pkgs ++ kl_pacotes kernel) (in_Modules i)).1 in
    Compare sha256 versionado (FromUniverse sha256 units (Membership universo)) = [] /\
    (forall pkg, pkg ∈ pkgs -> contem kernel (pk_CanonicalKey pkg) = false ->
       is_Some (Universe_Lookup universo (pk_CanonicalKey pkg))) /\
    (forall e, e ∈ edges -> ed_Unresolved e = false /\
       (is_Some (Universe_Lookup universo (ed_From e)) -> edge_allowed i universo (politicaPorModulo docs vs) e)).
Proof.
  intros Hcheck Hclean. destruct (Check_clean i r Hcheck Hclean) as (docs & versionado & Hdocs & Hb & Hinv & Hu).
  destruct (check_units_clean _ _ _ _ _ _ Hu Hclean) as (units & Hdes & Hce & _).
  destruct (check_edges_clean _ _ _ _ _ _ _ _ Hce Hclean) as (kernel & pkgs & edges & Hk & Hp & He & Hrec & Huni).
  exists docs, versionado, units, kernel, pkgs, edges. do 6 (split; [done |]).
  rewrite map_map in Hinv, Hrec. split.
  { intros doc Hdoc. split; [exact (concat_map_nil _ _ doc Hinv Hdoc) | exact (concat_map_nil _ _ doc Hrec Hdoc)]. }
  destruct (BuildUniverse _ _ _) as [universo cob] eqn:Hbu. cbn [fst].
  pose proof (BuildUniverse_classified _ _ _ _ _ Hbu) as Hc. destruct Huni as (Hf & Hcb & _ & Hedges).
  pose proof (covered_lookup _ _ _ _ _ Hc Hf) as Hcov.
  unfold conferirBaseline in Hcb. rewrite Hb in Hcb. injection Hcb as Hcb. split; [done |]. split.
  - intros pkg Hpkg Hout. apply Hcov; [| done]. apply bool_decide_eq_true, (cl_found _ _ _ _ Hc).
    exists pkg. split; [| done]. apply elem_of_app. by left.
  - intros e Hin. rewrite Forall_forall in Hedges. apply (diagnose_edge_nil _ _ kernel); [done | by apply Hedges].
Qed.
End Clean.

(** * A workspace of two units that passes *)
Import ManifestTheorems.Sample.
Module SampleWorkspace.
Definition sha (bs : list Z) : list Z := take 2 (reverse bs).
Definition units : list Unit := UnidadesDoDocumento Sample.manifest.
Definition packages : list Package := [mkPackage "m/core" "m"; mkPackage "m/app" "m"].
Definition baseline : Baseline.Document :=
  Regravar sha None units (Membership (BuildUniverse units packages []).1).
Definition edges : list Edge := [mkEdge "m/app" "m/core" "a.go" false ""; mkEdge "m/app" "lib" "a.go" false ""].
Definition workspace (edges : list Edge) : Input :=
  mkInput [mkModule "m" "." true true true] (inr [Sample.manifest]) (inr packages) (inr edges) None None
    (Some (inr (baseline, true))) [] None 500.
End SampleWorkspace.

Example clean_report_witness :
  exists docs versionado,
    in_Manifests (SampleWorkspace.workspace SampleWorkspace.edges) = inr docs /\
    in_Baseline (SampleWorkspace.workspace SampleWorkspace.edges) = Some (inr (versionado, true)) /\
    forall doc, doc ∈ docs ->
      va_Manifest (Validate doc (admission (SampleWorkspace.workspace SampleWorkspace.edges))) = [].
Proof.
  destruct (clean_report_means_allowed SampleWorkspace.sha (SampleWorkspace.workspace SampleWorkspace.edges)
              (mkReport [] "" [] false)) as (docs & v & units & k & p & e & H1 & H2 & _ & _ & _ & _ & H3 & _).
  - vm_compute. reflexivity.
  - reflexivity.
  - exists docs, v. split; [exact H1 |]. split; [exact H2 |]. intros doc Hdoc. by apply H3.
Defined.

(** Reversing an edge brings the refusal of the matrix. *)
Example forbidden_edge_reported :
  match Check SampleWorkspace.sha
          (SampleWorkspace.workspace [mkEdge "m/core" "m/app" "c.go" false ""; mkEdge "m/core" "lib" "c.go" false ""]) with
  | inr r => map dg_Code (re_Diagnostics r) = [CodeD001; CodeE001]
  | inl _ => False
  end.
Proof. vm_compute. reflexivity. Qed.
