(* ===== verification/PgLedgerTheorems.v ===== *)
(** The Postgres attempt ledger against the in-memory one: the table represents
    the rows of every key, each operation gives the same answer and keeps the
    representation, and what interference between the statements of a [Begin]
    does and does not break. *)

From Stdlib Require Import OrdersEx.
From stdpp Require Import sorting.
From S2P Require Import Prelude GoSlices DomainKernel Errors Ports Interfaces Memory Ledger PgLedger Fixture.

(** * What a table row holds of a ledger row *)
Definition conflict_of (c : attemptConflict) : pgConflict :=
  mkPgConflict (nullableClass (ac_class c)) (nullableFinding (ac_finding c)) (ac_at c).
Definition row_of (r : attemptRow) : pgRow :=
  mkPgRow (ar_messageID r) (if ar_finished r then finished else begun) (ar_startedAt r)
    (if ar_finished r then Some (ar_finishedAt r) else None) (nullableClass (ar_class r))
    (nullableFinding (ar_finding r)) (observationColumns (ar_observation r)) (terminalOf (ar_finding r))
    (ar_seen r) (ar_queries r) (conflict_of <$> ar_conflicts r).

(** A row of the ledger whose unfinished attempt has observed nothing. *)
Record begun_blank (r : attemptRow) : Prop := {
  bb_finding : ar_finished r = false -> ar_finding r = FindingNone;
  bb_observation : ar_finished r = false -> observationColumns (ar_observation r) = None
}.
Definition row_good (r : attemptRow) : Prop := row_ok r /\ begun_blank r.

Definition row_at (rows : list attemptRow) (n : Z) : option attemptRow :=
  if 1 <=? n then rows !! Z.to_nat (n - 1) else None.
Definition represents (tbl : pgTable) (attempts : gmap attemptKey (list attemptRow)) : Prop :=
  forall scope n, tbl !! (scope, n) = row_of <$> row_at (default [] (attempts !! scope)) n.

(** ** Reading rows by number *)
Lemma row_at_last rows r : last rows = Some r -> row_at rows (len rows) = Some r.
Proof.
  intros Hl. pose proof Hl as Hne. apply last_lookup_pred in Hl. unfold row_at, len.
  destruct rows as [| x rows]; [done |]. rewrite (proj2 (Z.leb_le 1 _)) by (cbn; lia).
  rewrite <- Hl. f_equal. cbn [length Nat.pred]. lia.
Qed.
Lemma row_at_nil n : row_at [] n = None.
Proof. unfold row_at. by case_match. Qed.
Lemma row_at_beyond rows n : len rows < n -> row_at rows n = None.
Proof.
  intros Hn. unfold row_at, len in *. case_match; [| done]. apply lookup_ge_None. lia.
Qed.
Lemma row_at_Some rows n r :
  row_at rows n = Some r <-> 1 <= n /\ rows !! Z.to_nat (n - 1) = Some r.
Proof. unfold row_at. case_match eqn:Hn; rewrite ?Z.leb_le, ?Z.leb_gt in Hn; split; naive_solver lia. Qed.
Lemma row_at_bound rows n r : row_at rows n = Some r -> 1 <= n <= len rows.
Proof. intros [Hn Hl%lookup_lt_Some]%row_at_Some. unfold len. lia. Qed.

Lemma row_at_app_old rows r n : n <> len rows + 1 -> row_at (rows ++ [r]) n = row_at rows n.
Proof.
  intros Hn. unfold row_at, len in *. destruct (Z.leb_spec 1 n); [| done].
  destruct (decide (n <= Z.of_nat (length rows))); [by rewrite lookup_app_l by lia |].
  rewrite !lookup_ge_None_2; [done | lia | rewrite length_app; cbn; lia].
Qed.
Lemma row_at_app_new rows r : row_at (rows ++ [r]) (len rows + 1) = Some r.
Proof.
  apply row_at_Some. unfold len. split; [lia |].
  rewrite lookup_app_r by lia. by replace (_ - _)%nat with 0%nat by lia.
Qed.
(** Both sides changed at one number of one key. *)
Lemma represents_update (tbl : pgTable) attempts scope n row rows' :
  represents tbl attempts ->
  row_at rows' n = Some row ->
  (forall m, m <> n -> row_at rows' m = row_at (default [] (attempts !! scope)) m) ->
  represents (<[(scope, n) := row_of row]> tbl) (<[scope := rows']> attempts).
Proof.
  intros Hrep Hn Hm s m. destruct (decide ((scope, n) = (s, m))) as [[= <- <-] | Hne].
  - rewrite !lookup_insert_eq. cbn. by rewrite Hn.
  - rewrite lookup_insert_ne by done. rewrite Hrep.
    destruct (decide (scope = s)) as [<- | Hs]; [| by rewrite lookup_insert_ne by done].
    rewrite lookup_insert_eq. cbn. rewrite Hm; [done | congruence].
Qed.
Lemma represents_snoc tbl attempts scope r :
  represents tbl attempts ->
  represents (<[(scope, len (default [] (attempts !! scope)) + 1) := row_of r]> tbl)
    (<[scope := default [] (attempts !! scope) ++ [r]]> attempts).
Proof.
  intros Hrep. apply represents_update; [done | apply row_at_app_new |].
  intros m Hm. by apply row_at_app_old.
Qed.
Lemma represents_set tbl attempts scope n r r' :
  represents tbl attempts -> row_at (default [] (attempts !! scope)) n = Some r ->
  represents (<[(scope, n) := row_of r']> tbl)
    (<[scope := <[Z.to_nat (n - 1) := r']> (default [] (attempts !! scope))]> attempts).
Proof.
  intros Hrep [Hn Hr]%row_at_Some. apply represents_update; [done | |].
  - apply row_at_Some. by rewrite list_lookup_insert_eq by by eapply lookup_lt_Some.
  - intros m Hm. unfold row_at. destruct (Z.leb_spec 1 m); [| done].
    rewrite list_lookup_insert_ne; [done | lia].
Qed.

(** * The newest row of a key *)
Definition is_newest (p : pgRow -> bool) (tbl : pgTable) (scope : attemptKey) (best : option (Z * pgRow)) : Prop :=
  match best with
  | None => forall n r, tbl !! (scope, n) = Some r -> p r = false
  | Some (n, r) => tbl !! (scope, n) = Some r /\ p r = true /\
      forall m s, tbl !! (scope, m) = Some s -> p s = true -> m <= n
  end.
Lemma is_newest_skip (p : pgRow -> bool) (tbl : pgTable) scope k r best :
  tbl !! k = None -> (k.1 = scope -> p r = false) ->
  is_newest p tbl scope best -> is_newest p (<[k := r]> tbl) scope best.
Proof.
  intros Hk Hr. destruct best as [[n s] |]; cbn.
  - intros (Hn & Hs & Hmax). rewrite lookup_insert_ne by congruence. split_and!; [done | done |].
    intros m u [[-> <-] | [_ Hm]]%lookup_insert_Some Hu; [| by eapply Hmax].
    rewrite Hr in Hu by done. congruence.
  - intros H n s [[-> <-] | [_ Hm]]%lookup_insert_Some; [by apply Hr | by eapply H].
Qed.
Lemma is_newest_add (p : pgRow -> bool) (tbl : pgTable) scope n r best :
  tbl !! (scope, n) = None -> p r = true ->
  is_newest p tbl scope best -> is_newest p (<[(scope, n) := r]> tbl) scope (newer best n r).
Proof.
  intros Hn Hr H. assert (forall b, b = Some (n, r) ->
    (forall m s, tbl !! (scope, m) = Some s -> p s = true -> m <= n) ->
    is_newest p (<[(scope, n) := r]> tbl) scope b) as Hnew.
  { intros b -> Hmax. cbn. rewrite lookup_insert_eq. split_and!; [done | done |].
    intros m u [[[= ->] <-] | [_ Hm]]%lookup_insert_Some Hu; [lia | by eapply Hmax]. }
  destruct best as [[m s] |]; cbn in *.
  - destruct H as (Hm & Hs & Hmax). destruct (Z.ltb_spec n m).
    + cbn. rewrite lookup_insert_ne by congruence. split_and!; [done | done |].
      intros q u [[[= ->] <-] | [_ Hq]]%lookup_insert_Some Hu; [lia | by eapply Hmax].
    + apply (Hnew (Some (n, r))); [done |]. intros q u Hq Hu. specialize (Hmax q u Hq Hu). lia.
  - apply (Hnew (Some (n, r))); [done |]. intros q u Hq Hu. specialize (H q u Hq). congruence.
Qed.
Lemma newest_spec (p : pgRow -> bool) (tbl : pgTable) scope : is_newest p tbl scope (newest p tbl scope).
Proof.
  unfold newest. apply (map_fold_weak_ind (fun best (t : pgTable) => is_newest p t scope best)).
  - intros n r. by rewrite lookup_empty.
  - intros [k n] r t best Hk IH. cbn [fst snd].
    case_decide as Hs; [subst k; destruct (p r) eqn:Hp |].
    + by apply is_newest_add.
    + by apply is_newest_skip.
    + by apply is_newest_skip.
Qed.
Lemma is_newest_unique (p : pgRow -> bool) (tbl : pgTable) scope a b : is_newest p tbl scope a -> is_newest p tbl scope b -> a = b.
Proof.
  destruct a as [[n r] |], b as [[m s] |]; cbn; [| | | done].
  - intros (Hn & Hp & Hmax) (Hm & Hq & Hmax'). assert (n = m) as ->; [| congruence].
    pose proof (Hmax m s Hm Hq). pose proof (Hmax' n r Hn Hp). lia.
  - intros (Hn & Hp & _) H. specialize (H n r Hn). congruence.
  - intros H (Hn & Hp & _). specialize (H m s Hn). congruence.
Qed.
Lemma newest_is (p : pgRow -> bool) (tbl : pgTable) scope best : is_newest p tbl scope best -> newest p tbl scope = best.
Proof. intros H. eapply is_newest_unique; [apply newest_spec | done]. Qed.

(** ** The newest rows of a represented key *)
Section Represented.
Context (tbl : pgTable) (attempts : gmap attemptKey (list attemptRow)).
Context (Hrep : represents tbl attempts).
Context (scope : attemptKey).
Notation rows := (default [] (attempts !! scope)).

Lemma represented_at n s :
  tbl !! (scope, n) = Some s <-> exists r, row_at rows n = Some r /\ s = row_of r.
Proof. rewrite Hrep. rewrite fmap_Some. naive_solver. Qed.

Lemma selectLastAttempt_rows :
  selectLastAttempt tbl scope = (fun r => (len rows, row_of r)) <$> last rows.
Proof.
  apply newest_is. destruct (last rows) as [r |] eqn:El; cbn.
  - split_and!; [| done |].
    + apply represented_at. exists r. split; [by apply row_at_last | done].
    + intros m s (u & Hu & _)%represented_at _. apply row_at_bound in Hu. lia.
  - intros n s (r & Hr & _)%represented_at. apply last_None in El. rewrite El in Hr.
    by rewrite row_at_nil in Hr.
Qed.
End Represented.

(** ** A message already done *)
Lemma retryable_codes c :
  validClass c = true -> bool_decide (c ∈ retryableClasses) = Retryable c.
Proof. by destruct c. Qed.
Definition row_done (message : MessageID) (r : attemptRow) : bool :=
  ar_finished r && String.eqb (ar_messageID r) message && negb (Retryable (ar_class r)).
Lemma done_row_of message r : row_ok r -> done_row message (row_of r) = row_done message r.
Proof.
  intros [_ _ Hc]. unfold done_row, row_done. cbn.
  destruct (ar_finished r); cbn; [| by rewrite andb_false_r].
  rewrite andb_true_r. rewrite <- (retryable_codes _ Hc). unfold nullableClass.
  by rewrite decide_False by (by intros He; rewrite He in Hc).
Qed.

(** The newest of some rows that is done for a message. *)
Definition newest_done (message : MessageID) (rows : list attemptRow) (best : option (Z * attemptRow)) : Prop :=
  match best with
  | None => forall n r, row_at rows n = Some r -> row_done message r = false
  | Some (n, r) => row_at rows n = Some r /\ row_done message r = true /\
      forall m s, row_at rows m = Some s -> row_done message s = true -> m <= n
  end.
Lemma find_done_newest scope message rows :
  exists best, newest_done message rows best /\
    find_done scope message (reverse rows) (len rows) =
      (fun nr => DoneAttempt (attemptOf scope nr.1 nr.2) (ar_class nr.2)) <$> best.
Proof.
  induction rows as [| r rows IH] using rev_ind.
  - exists None. split; [| done]. intros n r Hr. by rewrite row_at_nil in Hr.
  - rewrite reverse_snoc, len_app. cbn [find_done]. fold (row_done message r).
    replace (len rows + len [r]) with (len rows + 1) by done.
    destruct (row_done message r) eqn:Hd.
    + exists (Some (len rows + 1, r)). split; [| done]. split_and!; [apply row_at_app_new | done |].
      intros m s Hm _. apply row_at_bound in Hm. rewrite len_app in Hm. unfold len in *. cbn in *. lia.
    + destruct IH as (best & Hb & Hf). exists best. replace (len rows + 1 - 1) with (len rows) by lia.
      split; [| done]. destruct best as [[n s] |]; cbn in *.
      * destruct Hb as (Hn & Hs & Hmax). pose proof (row_at_bound _ _ _ Hn).
        rewrite row_at_app_old by lia. split_and!; [done | done |].
        intros m u Hm Hu. destruct (decide (m = len rows + 1)) as [-> | Hne].
        { rewrite row_at_app_new in Hm. congruence. }
        rewrite row_at_app_old in Hm by done. by eapply Hmax.
      * intros n s Hn. destruct (decide (n = len rows + 1)) as [-> | Hne].
        { rewrite row_at_app_new in Hn. congruence. }
        rewrite row_at_app_old in Hn by done. by eapply Hb.
Qed.

(** * Each statement sequence against the ledger's row functions *)
Lemma begun_blank_fresh message now : begun_blank (fresh_row message now).
Proof. by split. Qed.
Lemma row_of_fresh message now : row_of (fresh_row message now) = begun_row message now.
Proof. done. Qed.
Lemma state_row_of r : pg_state (row_of r) = if ar_finished r then finished else begun.
Proof. done. Qed.
Lemma entries_row_of r : row_ok r -> entries_check (row_of r) = true.
Proof.
  intros [Hs Hc _]. unfold entries_check. cbn. apply andb_true_iff. rewrite !Z.leb_le.
  unfold len in *. rewrite length_fmap. done.
Qed.
Lemma store_row_of tbl k s r : s = row_of r -> row_ok r -> store_row tbl k s = Ok (<[k := row_of r]> tbl).
Proof. intros -> Hr. unfold store_row. by rewrite entries_row_of. Qed.
Lemma saturated_row_of r :
  saturated (len (ar_seen r)) (len (conflict_of <$> ar_conflicts r)) = Ledger.saturated r.
Proof. unfold saturated, Ledger.saturated, len. by rewrite length_fmap. Qed.

Lemma finish_row_blank r o : begun_blank r -> begun_blank (finish_row r o).2.
Proof.
  intros Hb. unfold finish_row. destruct (ar_finished r) eqn:Ef; cbn [negb]; [| by split].
  destruct (_ || _); [done |]. destruct (Ledger.saturated r); [done |].
  by split.
Qed.
Lemma observe_row_blank r n o now : ar_finished r = true -> begun_blank (observe_row r n o now).2.
Proof.
  intros Ef. assert (ar_finished (observe_row r n o now).2 = true) as H; [| split; by rewrite H].
  unfold observe_row. cbv zeta. repeat (case_match; cbn [snd]; try done).
Qed.

(** [Finish] on the row of a key, begun or finished. *)
Lemma finish_begun_row r o :
  row_good r -> validOutcome o = Ok () -> ar_finished r = false ->
  row_of (finish_row r o).2 =
    mkPgRow (ar_messageID r) finished (ar_startedAt r) (Some (out_FinishedAt o)) (Some (out_Class o))
      (nullableFinding (obs_Finding (out_Observation o))) (observationColumns (out_Observation o))
      (terminalOf (obs_Finding (out_Observation o)))
      (if String.eqb (obs_ID (out_Observation o)) "" then ar_seen r
       else ar_seen r ++ [obs_ID (out_Observation o)])
      (ar_queries r) (conflict_of <$> ar_conflicts r).
Proof.
  intros [Hok [Hbf Hbo]] Hv Ef. specialize (Hbf Ef). specialize (Hbo Ef).
  assert (nullableClass (out_Class o) = Some (out_Class o)) as Hc.
  { unfold validOutcome in Hv. unfold nullableClass. destruct (out_Class o); repeat case_match; done. }
  unfold finish_row. rewrite Ef. cbn [negb snd].
  set (ob := out_Observation o). unfold row_of. cbn. rewrite Hc.
  destruct (String.eqb (obs_ID ob) "") eqn:Ei; cbn [negb orb].
  - case_bool_decide as Ho; cbn [negb]; [| done].
    rewrite Hbf, Hbo, Ho. unfold observationColumns. rewrite Ei, bool_decide_true by done. done.
  - done.
Qed.
Lemma validOutcome_class o : validOutcome o = Ok () -> validClass (out_Class o) = true /\ 1 <= out_N o.
Proof.
  unfold validOutcome. destruct (String.eqb _ _); [done |].
  destruct (Z.ltb_spec (out_N o) 1); [done |]. destruct (validClass _); cbn; [done |]. done.
Qed.
Lemma validObservation_finding o :
  validObservation o = Ok () -> validFinding (obs_Finding o) = true /\ obs_ID o <> "".
Proof.
  unfold validObservation. destruct (String.eqb (obs_Key o) _); [done |].
  destruct (String.eqb_spec (obs_ID o) ""); [done |]. by destruct (validFinding _).
Qed.

Section Operations.
Context (tbl : pgTable) (attempts : gmap attemptKey (list attemptRow)).
Context (Hrep : represents tbl attempts).
Context (scope : attemptKey).
Notation rows := (default [] (attempts !! scope)).
Context (Hgood : Forall row_good rows).

Lemma represents_keep n r : row_at rows n = Some r ->
  represents tbl (<[scope := <[Z.to_nat (n - 1) := r]> rows]> attempts).
Proof.
  intros [Hn Hr]%row_at_Some s m. rewrite list_insert_id by done. rewrite Hrep.
  destruct (decide (scope = s)) as [<- |]; [by rewrite lookup_insert_eq | by rewrite lookup_insert_ne].
Qed.
Lemma row_good_at n r : row_at rows n = Some r -> row_good r.
Proof. intros [_ H]%row_at_Some. by eapply Forall_lookup_1. Qed.

Lemma doneAttempt_rows message :
  doneAttempt tbl scope message = find_done scope message (reverse rows) (len rows).
Proof.
  destruct (find_done_newest scope message rows) as (best & Hb & ->). unfold doneAttempt, selectDoneAttempt.
  assert (forall n r, row_at rows n = Some r -> done_row message (row_of r) = row_done message r) as Hd.
  { intros n r Hr. apply done_row_of. by apply row_good_at in Hr as [? _]. }
  rewrite (newest_is _ _ _ ((fun nr => (nr.1, row_of nr.2)) <$> best)).
  - destruct best as [[n r] |]; cbn; [| done]. do 2 f_equal.
    destruct Hb as (Hr & Hdn & _). apply row_good_at in Hr as [[_ _ Hc] _].
    unfold row_done in Hdn. apply andb_true_iff in Hdn as [[Hf _]%andb_true_iff _]. rewrite Hf in Hc.
    unfold nullableClass. by rewrite decide_False by (by intros He; rewrite He in Hc).
  - destruct best as [[n r] |]; cbn in *.
    + destruct Hb as (Hr & Hdn & Hmax). split_and!.
      * apply (represented_at tbl attempts Hrep). eauto.
      * by erewrite Hd.
      * intros m s (u & Hu & ->)%(represented_at tbl attempts Hrep) Hs. erewrite Hd in Hs by done. eauto.
    + intros n s (r & Hr & ->)%(represented_at tbl attempts Hrep). erewrite Hd by done. eauto.
Qed.

Lemma insert_next message now :
  insertAttempt tbl scope (len rows + 1) message now =
    (<[(scope, len rows + 1) := begun_row message now]> tbl, true).
Proof.
  unfold insertAttempt. rewrite Hrep, row_at_beyond by lia. done.
Qed.

(** A round whose statements all see the table. *)
Lemma beginRound_rows message now :
  let '(start, rows') := begin_rows scope rows message now in
  exists tbl', beginRound (mkViews tbl tbl tbl) scope message now = (Some start, tbl') /\
    match start with
    | StartedAttempt _ => represents tbl' (<[scope := rows']> attempts)
    | _ => tbl' = tbl
    end.
Proof.
  unfold begin_rows, beginRound. cbn [v_done v_last v_insert]. rewrite doneAttempt_rows.
  destruct (find_done _ _ _ _) as [start |] eqn:Ed.
  { exists tbl. split; [done |]. apply find_done_spec in Ed as (i & r & _ & _ & _ & _ & ->). done. }
  cbv zeta. rewrite (selectLastAttempt_rows tbl attempts Hrep).
  assert (represents (<[(scope, len rows + 1) := begun_row message now]> tbl)
    (<[scope := rows ++ [fresh_row message now]]> attempts)) as Hs
    by exact (represents_snoc _ _ _ (fresh_row message now) Hrep).
  destruct (last rows) as [r |] eqn:El; cbn.
  - destruct (ar_finished r) eqn:Ef; cbn.
    + rewrite insert_next. eauto.
    + eauto.
  - apply last_None in El as El'. pose proof (insert_next message now) as Hi. rewrite El' in *.
    replace (len [] + 1) with 1 in * by done. rewrite Hi. eauto.
Qed.

Lemma finish_rows n r o :
  row_at rows n = Some r -> validOutcome o = Ok () ->
  exists tbl', finish_at tbl (scope, n) o = Ok ((finish_row r o).1, tbl') /\
    represents tbl' (<[scope := <[Z.to_nat (n - 1) := (finish_row r o).2]> rows]> attempts).
Proof.
  intros Hr Hv. pose proof (row_good_at _ _ Hr) as Hg. pose proof Hg as [Hok Hb].
  destruct (validOutcome_class o Hv) as [Hc _].
  assert (tbl !! (scope, n) = Some (row_of r)) as Ht by by rewrite Hrep, Hr.
  destruct (finish_row_ok r o _ _ Hok Hc (surjective_pairing _)) as [Hok' _].
  unfold finish_at, finishBegunAttempt. rewrite Ht. cbv zeta.
  destruct (ar_finished r) eqn:Ef.
  - rewrite state_row_of, Ef. destruct (decide (finished = begun)) as [He | _]; [done |]. cbn [mbind result_bind].
    assert (classOf (pg_class (row_of r)) = ar_class r) as Hcl.
    { cbn. unfold nullableClass. by case_decide. }
    rewrite Hcl. unfold finish_row. rewrite Ef. cbn [negb].
    case_decide as He; [rewrite bool_decide_true by done; cbn; eauto using represents_keep |].
    rewrite bool_decide_false by done. cbn [orb].
    destruct (out_Presumed o) eqn:Ep; cbn; [eauto using represents_keep |].
    rewrite saturated_row_of. destruct (Ledger.saturated r) eqn:Es; cbn; [eauto using represents_keep |].
    set (r' := (finish_row r o).2) in *.
    assert (r' = (finish_row r o).2) as Hr' by done. unfold finish_row in Hr'.
    rewrite Ef in Hr'. cbn [negb] in Hr'. rewrite bool_decide_false, Ep, Es in Hr' by done. cbn in Hr'. rewrite <- Hr'.
    unfold appendAttemptConflict. rewrite Ht. erewrite (store_row_of _ _ _ r'); [| | done].
    + cbn. eexists. split; [done |]. by eapply represents_set.
    + rewrite Hr'. unfold row_of. cbn. rewrite Ef, fmap_app. cbn. unfold conflict_of at 3. cbn.
      unfold nullableClass at 3. rewrite decide_False; [done | by destruct (out_Class o)].
  - rewrite state_row_of, Ef. destruct (decide (begun = begun)) as [_ | He]; [| done].
    erewrite store_row_of; [| by rewrite (finish_begun_row r o Hg Hv Ef) | done].
    cbn. eexists. split; [| by eapply represents_set].
    unfold finish_row. by rewrite Ef.
Qed.
Lemma finish_missing n o :
  row_at rows n = None -> finish_at tbl (scope, n) o = Err (Wrap "finish attempt" ErrAttemptUnknown).
Proof.
  intros Hr. assert (tbl !! (scope, n) = None) as Ht by by rewrite Hrep, Hr.
  unfold finish_at, finishBegunAttempt. by rewrite Ht.
Qed.

Lemma terminalOf_terminal f : terminalOf f = if terminal f then Some f else None.
Proof. unfold terminalOf, nullableFinding. by destruct f. Qed.
Lemma recorded_row r o now (full : bool) :
  ar_finished r = true -> validFinding (obs_Finding o) = true -> obs_ID o <> "" ->
  row_of (note_observation (if negb full then see_id r (obs_ID o) else r) o now) =
    mkPgRow (ar_messageID r) finished (ar_startedAt r) (Some (ar_finishedAt r)) (nullableClass (ar_class r))
      (Some (obs_Finding o))
      (Some (mkPgObservation (obs_ID o) (obs_Provider o) (obs_ExternalRef o) (obs_SourceAt o)))
      (terminalOf (obs_Finding o)) (if full then ar_seen r else ar_seen r ++ [obs_ID o])
      (ar_queries r + 1) (conflict_of <$> ar_conflicts r).
Proof.
  intros Hf Hv Hid. unfold row_of, observationColumns, nullableFinding. destruct full; cbn;
    (rewrite Hf; destruct (String.eqb_spec (obs_ID o) ""); [done |];
     rewrite decide_False by (by intros He; rewrite He in Hv); done).
Qed.

(** What the statements after a terminal finding leave. *)
Lemma observeAfterTerminal_row n r o now :
  row_at rows n = Some r -> ar_finished r = true -> Ledger.saturated r = false ->
  validFinding (obs_Finding o) = true ->
  let r1 := see_id r (obs_ID o) in
  observeAfterTerminal tbl (scope, n) (ar_finding r) o now =
    Ok (if negb (terminal (obs_Finding o)) || bool_decide (obs_Finding o = ar_finding r)
        then (ObserveDuplicate, <[(scope, n) := row_of r1]> tbl)
        else (ObserveConflict, <[(scope, n) := row_of (note_conflict r1 (obs_Finding o) now)]> tbl)).
Proof.
  intros Hr Hf [Hs Hc]%saturated_false Hv r1. pose proof (row_good_at _ _ Hr) as [[Hrs Hrc Hcl] _].
  assert (tbl !! (scope, n) = Some (row_of r)) as Ht by by rewrite Hrep, Hr.
  assert (row_ok r1) as Hok1.
  { split; cbn; rewrite ?Hf in *; [rewrite len_app; unfold len in *; cbn; lia | done | done]. }
  assert (row_ok (note_conflict r1 (obs_Finding o) now)) as Hok2.
  { destruct Hok1 as [H1 _ _]. rewrite Hf in Hcl. split; [done | | by cbn; rewrite Hf].
    cbn. rewrite len_app. unfold len in *. cbn. lia. }
  unfold observeAfterTerminal, recordObservationID. rewrite Ht.
  rewrite (store_row_of _ _ _ r1) by done. cbn [mbind result_bind].
  rewrite terminalOf_terminal. unfold appendAttemptConflict. rewrite lookup_insert_eq.
  destruct (terminal (obs_Finding o)) eqn:Et; cbn [negb orb]; [| done].
  rewrite (bool_decide_false (Some _ = None)) by done. cbn [orb].
  destruct (decide (obs_Finding o = ar_finding r)) as [He | He].
  - by rewrite !bool_decide_true by done.
  - rewrite !bool_decide_false by congruence.
    rewrite (store_row_of _ _ _ (note_conflict r1 (obs_Finding o) now)); [by rewrite insert_insert_eq | | done].
    unfold row_of. cbn. rewrite fmap_app. cbn. unfold conflict_of at 3. cbn.
    unfold nullableFinding at 3. by rewrite decide_False by (by intros Hn; rewrite Hn in Hv).
Qed.

Lemma observe_rows r o now ob r' :
  last rows = Some r -> ar_finished r = true -> validObservation o = Ok () ->
  observe_row r (len rows) o now = (ob, r') ->
  exists tbl', observe_at tbl scope o now = Ok (ob, tbl') /\
    represents tbl' (<[scope := <[Nat.pred (length rows) := r']> rows]> attempts).
Proof.
  intros Hl Hf Hv He. destruct (validObservation_finding o Hv) as [Hvf Hid].
  pose proof (row_at_last _ _ Hl) as Hr. pose proof (row_good_at _ _ Hr) as [Hok _].
  pose proof (observe_row_ok r (len rows) o now _ _ Hok Hf He) as [Hok' _].
  replace (Nat.pred (length rows)) with (Z.to_nat (len rows - 1)) by (unfold len; lia).
  pose proof (represents_keep _ _ Hr) as Hkeep.
  pose proof (represents_set tbl attempts scope _ r r' Hrep Hr) as Hset.
  assert (nullableClass (ar_class r) = Some (ar_class r)) as Hcl.
  { destruct Hok as [_ _ Hc]. rewrite Hf in Hc. unfold nullableClass.
    by rewrite decide_False by (by intros Hn; rewrite Hn in Hc). }
  assert (forall full, r' = note_observation (if negb full then see_id r (obs_ID o) else r) o now ->
    recordObservation tbl (scope, len rows) (row_of r) o full = Ok (<[(scope, len rows) := row_of r']> tbl)) as Hrec.
  { intros full ->. unfold recordObservation. apply store_row_of; [| done]. rewrite recorded_row by done.
    cbn. rewrite Hf. by destruct full. }
  unfold observe_at. rewrite (selectLastAttempt_rows tbl attempts Hrep), Hl. cbn [fmap option_fmap option_map].
  rewrite state_row_of, Hf. destruct (decide (finished = stateBegun)) as [Hx | _]; [done |].
  cbn [pg_observation_ids pg_conflicts pg_queries pg_class pg_terminal_finding row_of].
  rewrite Hcl, saturated_row_of, !terminalOf_terminal. cbn [classOf default].
  unfold observe_row in He. cbv zeta in He.
  destruct (decide (obs_ID o ∈ ar_seen r)) as [Hin | Hin];
    [rewrite bool_decide_true in He by done; injection He as <- <-; eauto |].
  rewrite bool_decide_false in He by done.
  destruct (terminal (ar_finding r)) eqn:Et.
  - destruct (Ledger.saturated r) eqn:Es; cbn [negb andb orb] in *.
    + destruct (decide (ar_finding r = obs_Finding o)) as [Heq | Hneq].
      * rewrite bool_decide_true in He by done. injection He as <- <-. eauto.
      * rewrite bool_decide_false in He by congruence. injection He as <- <-. eauto.
    + rewrite (observeAfterTerminal_row _ r) by done. cbn [see_id ar_finding] in He.
      rewrite Et in He. destruct (_ || _); injection He as <- <-; cbn; eauto.
  - assert (terminal (ar_finding (if negb (Ledger.saturated r) then see_id r (obs_ID o) else r)) = false) as Et1
      by by destruct (Ledger.saturated r).
    rewrite Et1 in He. rewrite andb_false_r in He. cbn [andb orb] in He.
    destruct (terminal (obs_Finding o)) eqn:Eo; cbn [negb] in He;
      rewrite ?andb_false_r, ?andb_true_r in *.
    + injection He as <- He. rewrite Hrec by done. subst r'. cbn. destruct (Ledger.saturated r); eauto.
    + destruct (Ledger.saturated r) eqn:Es.
      * injection He as <- <-. eauto.
      * injection He as <- He. rewrite Hrec by done. subst r'. cbn. eauto.
Qed.
End Operations.

(** ** Stale *)
Definition attempts_good (attempts : gmap attemptKey (list attemptRow)) : Prop :=
  ledger_ok attempts /\
  forall scope rows, attempts !! scope = Some rows -> Forall begun_blank rows.
Lemma attempts_good_at attempts scope :
  attempts_good attempts -> Forall row_good (default [] (attempts !! scope)).
Proof.
  intros [Hok Hb]. destruct (attempts !! scope) as [rows |] eqn:E; [| constructor].
  destruct (Hok _ _ E) as [H _]. apply Forall_and. eauto.
Qed.

Lemma Forall_good_blank rows : Forall row_good rows -> Forall begun_blank rows.
Proof. intros H. eapply Forall_impl; [exact H |]. by intros r []. Qed.

Lemma stale_entry_Some cutoff after k r a :
  stale_entry cutoff after (k, r) = Some a <->
  pg_state r = begun /\ pg_started_at r <= cutoff /\ a = pgAttempt k.1 k.2 r /\
  (after = zeroCursor \/ compareCursor (Cursor a) after = Gt).
Proof.
  unfold stale_entry. cbn [fst snd]. case_match eqn:Hc.
  - apply andb_true_iff in Hc as [[Hs%bool_decide_eq_true Ht%Z.leb_le]%andb_true_iff Ha].
    rewrite orb_true_iff, !bool_decide_eq_true in Ha. split; [intros [= <-]; auto | by intros (_ & _ & -> & _)].
  - split; [done |]. intros (Hs & Ht & -> & Ha). exfalso. rewrite bool_decide_true in Hc by done.
    apply Z.leb_le in Ht. rewrite Ht in Hc. cbn in Hc.
    apply orb_false_iff in Hc as [H1%bool_decide_eq_false H2%bool_decide_eq_false]. destruct Ha; done.
Qed.
Lemma NoDup_omap_inj {A B} (f : A -> option B) (l : list A) :
  (forall x y b, x ∈ l -> y ∈ l -> f x = Some b -> f y = Some b -> x = y) -> NoDup l -> NoDup (omap f l).
Proof.
  intros Hinj Hnd. induction Hnd as [| x l Hx Hl IH]; cbn; [constructor |].
  assert (NoDup (omap f l)) as Hn by (apply IH; intros y z b Hy Hz; apply Hinj; set_solver).
  destruct (f x) as [b |] eqn:E; [| done]. constructor; [| done].
  intros (y & Hy & Hfy)%list_elem_of_omap. rewrite (Hinj x y b) in Hx; [done | set_solver .. | done | done].
Qed.

Lemma selectStale_rows tbl attempts cutoff after limit :
  represents tbl attempts ->
  selectStaleAttempts tbl cutoff after limit = take (Z.to_nat limit) (stale_attempts attempts cutoff after).
Proof.
  intros Hrep. unfold selectStaleAttempts. f_equal.
  set (l := omap (stale_entry cutoff after) (map_to_list tbl)).
  assert (forall a, a ∈ l <-> is_stale attempts cutoff after a) as Hl.
  { intros a. unfold l. rewrite list_elem_of_omap. split.
    - intros ([[sc n] s] & Hin%elem_of_map_to_list & (Hs & Ht & -> & Ha)%stale_entry_Some).
      rewrite Hrep in Hin. apply fmap_Some in Hin as (r & Hr & ->).
      rewrite state_row_of in Hs. destruct (ar_finished r) eqn:Ef; [done |].
      apply row_at_Some in Hr as [Hn Hr]. destruct (attempts !! sc) as [rows |] eqn:Er; [| done].
      exists sc, rows, (Z.to_nat (n - 1)), r. replace (Z.of_nat (Z.to_nat (n - 1)) + 1) with n by lia.
      done.
    - intros (sc & rows & i & r & Hsc & Hi & Hf & Ht & -> & Ha).
      exists ((sc, Z.of_nat i + 1), row_of r). split.
      + apply elem_of_map_to_list. rewrite Hrep, Hsc. cbn. unfold row_at.
        rewrite (proj2 (Z.leb_le 1 _)) by lia. replace (Z.to_nat _) with i by lia. by rewrite Hi.
      + apply stale_entry_Some. rewrite state_row_of, Hf. done. }
  assert (Transitive attempt_le) by apply _.
  apply (StronglySorted_unique_strong attempt_le).
  - intros a b Ha Hb Hab Hba. rewrite merge_sort_Permutation in Ha. apply Hl in Ha.
    apply stale_attempts_elem in Hb. apply (is_stale_cursor _ _ _ _ _ Ha Hb).
    unfold attempt_le in *. rewrite (compareCursor_opp (Cursor a)) in Hba.
    destruct (compareCursor (Cursor a) (Cursor b)) eqn:E; [| done | done].
    by apply compareCursor_eq.
  - apply Sorted_StronglySorted; [done | apply Sorted_merge_sort, _].
  - unfold stale_attempts. apply Sorted_StronglySorted; [done | apply Sorted_merge_sort, _].
  - rewrite merge_sort_Permutation. apply NoDup_Permutation.
    + apply NoDup_omap_inj; [| apply NoDup_map_to_list].
      intros [[[t1 k1] n1] r1] [[[t2 k2] n2] r2] a H1%elem_of_map_to_list H2%elem_of_map_to_list
        (_ & _ & -> & _)%stale_entry_Some (_ & _ & He & _)%stale_entry_Some.
      unfold pgAttempt in He. cbn in He. injection He as -> -> -> _ _. congruence.
    + apply (stale_attempts_NoDup attempts cutoff after).
    + intros a. by rewrite Hl, stale_attempts_elem.
Qed.

(** * The two ledgers *)
Inductive ledger_answer :=
| AnsStart (start : AttemptStart)
| AnsFinished (f : Finished)
| AnsObserved (o : Observed)
| AnsStale (page : list Attempt).

(** One call over a table every one of its statements sees; an error leaves the
    table as it was. *)
Definition pg_step (tbl : pgTable) (op : ledger_op) : result error ledger_answer * pgTable :=
  let of_step {A} (f : A -> ledger_answer) (r : result error (A * pgTable)) :=
    match r with
    | Ok (a, tbl') => (Ok (f a), tbl')
    | Err e => (Err e, tbl)
    | Panic w => (Panic w, tbl)
    end in
  match op with
  | OpBegin ctx key message now =>
      let '(r, tbl') := Begin (replicate beginRounds (mkViews tbl tbl tbl)) tbl ctx key message now in
      (start ← r; Ok (AnsStart start), tbl')
  | OpFinish ctx o => of_step AnsFinished (Finish tbl ctx o)
  | OpObserve ctx o now => of_step AnsObserved (Observe tbl ctx o now)
  | OpStale ctx cutoff after limit => (page ← Stale tbl cutoff after limit; Ok (AnsStale page), tbl)
  end.

Section Stores.
Context {Any Event X : Type}.
Notation W := (World Any Event X).
Definition mem_step (id : loc) (op : ledger_op) (w : W) : result error ledger_answer * W :=
  match op with
  | OpBegin ctx key message now =>
      let '(r, w') := ledger_Begin (txAttemptLedger id) ctx key message now w in
      (start ← r; Ok (AnsStart start), w')
  | OpFinish ctx o =>
      let '(r, w') := ledger_Finish (txAttemptLedger id) ctx o w in (f ← r; Ok (AnsFinished f), w')
  | OpObserve ctx o now =>
      let '(r, w') := ledger_Observe (txAttemptLedger id) ctx o now w in (ob ← r; Ok (AnsObserved ob), w')
  | OpStale ctx cutoff after limit =>
      let '(r, w') := ledger_Stale (txAttemptLedger id) ctx cutoff after limit w in
      (page ← r; Ok (AnsStale page), w')
  end.

(** Each package has its own sentinel for a context without a tenant. *)
Inductive same_error : error -> error -> Prop :=
| same_refl e : same_error e e
| same_tenant : same_error ErrTenantUnresolved (Sentinel "postgres.ErrTenantUnresolved").
Inductive agree {A} : result error A -> result error A -> Prop :=
| agree_Ok a : agree (Ok a) (Ok a)
| agree_Err e e' : same_error e e' -> agree (Err e) (Err e')
| agree_Panic w : agree (Panic w) (Panic w).
Hint Constructors same_error agree : core.

Lemma scope_cases ctx key :
  (exists t, ledger_scope ctx key = Ok (t, key) /\ tenantOf ctx = Ok t) \/
  (exists e e', ledger_scope ctx key = Err e /\ tenantOf ctx = Err e' /\ same_error e e') \/
  (exists w, ledger_scope ctx key = Panic w /\ tenantOf ctx = Panic w).
Proof.
  unfold ledger_scope, scopedKey, tenantOf. destruct (RequireExecutionContext ctx) as [ec | e | p]; cbn; eauto 8.
  destruct (Tenant ec); cbn; eauto 8.
Qed.

(** The rows of one key moved on both sides. *)
Definition related (tbl : pgTable) (w : W) (id : loc) : Prop :=
  exists tx, w_txs w !! id = Some tx /\ attempts_good (tx_attempts tx) /\ represents tbl (tx_attempts tx).
Lemma related_set (tbl' : pgTable) id (w : W) tx scope rows' :
  w_txs w !! id = Some tx -> attempts_good (tx_attempts tx) ->
  rows_ok rows' -> Forall begun_blank rows' ->
  represents tbl' (<[scope := rows']> (tx_attempts tx)) ->
  related tbl' (set_tx id (set_attempts tx scope rows') w) id.
Proof.
  intros Hw [Hok Hb] Hr Hbl Hrep. exists (set_attempts tx scope rows'). cbn.
  split; [by rewrite lookup_insert_eq | split; [| done]].
  split; intros s rows; rewrite lookup_insert; case_decide; [by intros [= <-] | apply Hok | by intros [= <-] | apply Hb].
Qed.


Lemma begin_step id ctx key message now (w : W) tbl :
  related tbl w id ->
  agree (mem_step id (OpBegin ctx key message now) w).1 (pg_step tbl (OpBegin ctx key message now)).1 /\
  related (pg_step tbl (OpBegin ctx key message now)).2 (mem_step id (OpBegin ctx key message now) w).2 id.
Proof.
  intros Hrel. pose proof Hrel as (tx & Hw & Hgood & Hrep). cbn [mem_step pg_step txAttemptLedger ledger_Begin].
  unfold tx_Begin, Begin, mbind, M_bind, lift.
  destruct (String.eqb key ""); [cbn; auto |]. destruct (String.eqb message ""); [cbn; auto |].
  destruct (scope_cases ctx key) as [(t & -> & ->) | [(e & e' & -> & -> & He) | (p & -> & ->)]];
    [| cbn; auto | cbn; auto].
  assert (get_tx id w = (Ok tx, w)) as -> by by unfold get_tx; rewrite Hw.
  cbn [replicate take beginRounds begin_loop].
  pose proof (beginRound_rows tbl _ Hrep (t, key) (attempts_good_at _ (t, key) Hgood) message now) as Hround.
  unfold rows_at. destruct (begin_rows _ _ _ _) as [start rows'] eqn:Eb.
  destruct Hround as (tbl' & -> & Hrep').
  pose proof Hgood as [Hok Hb].
  destruct (begin_rows_ok _ _ _ _ _ _ (ledger_ok_at tx (t, key) Hok) Eb) as [Hok' _].
  pose proof (begin_rows_spec _ _ _ _ _ _ (ledger_ok_at tx (t, key) Hok) Eb) as Hspec.
  destruct start; cbn; [done | | subst; auto | subst; auto].
  split; [auto |]. apply related_set; [done | done | done | | done].
  destruct Hspec as (_ & -> & _). unfold rows_at. apply Forall_app. split.
  - by apply Forall_good_blank, (attempts_good_at _ (t, key)).
  - by repeat constructor.
Qed.

Lemma finish_step id ctx o (w : W) tbl :
  related tbl w id ->
  agree (mem_step id (OpFinish ctx o) w).1 (pg_step tbl (OpFinish ctx o)).1 /\
  related (pg_step tbl (OpFinish ctx o)).2 (mem_step id (OpFinish ctx o) w).2 id.
Proof.
  intros Hrel. pose proof Hrel as (tx & Hw & Hgood & Hrep). cbn [mem_step pg_step txAttemptLedger ledger_Finish].
  unfold tx_Finish, Finish, mbind, M_bind, result_bind, lift. destruct (validOutcome o) as [[] | e | p] eqn:Ev; [| cbn; auto | cbn; auto].
  destruct (validOutcome_class o Ev) as [Hc Hn].
  destruct (scope_cases ctx (out_Key o)) as [(t & -> & ->) | [(e & e' & -> & -> & He) | (p & -> & ->)]];
    [| cbn; auto | cbn; auto].
  set (sc := ((t, out_Key o) : attemptKey)) in *. change (finish_at tbl _ o) with (finish_at tbl (sc, out_N o) o).
  assert (get_tx id w = (Ok tx, w)) as -> by by unfold get_tx; rewrite Hw.
  pose proof (attempts_good_at _ sc Hgood) as Hrows. unfold rows_at. cbv zeta.
  set (rows := default [] (tx_attempts tx !! sc)) in *.
  destruct (Z.ltb_spec (len rows) (out_N o)) as [Hlt | Hge].
  { rewrite (finish_missing tbl _ Hrep sc) by by apply row_at_beyond. cbn. auto. }
  destruct (rows !! Z.to_nat (out_N o - 1)) as [r |] eqn:Er.
  2: { apply lookup_ge_None in Er. unfold len in *. lia. }
  assert (row_at rows (out_N o) = Some r) as Hr by by apply row_at_Some.
  destruct (finish_rows tbl _ Hrep sc Hrows _ r o Hr Ev) as (tbl' & -> & Hrep').
  pose proof (row_good_at _ _ Hrows _ _ Hr) as [Hrok Hrb].
  pose proof (finish_row_blank r o Hrb) as Hb'.
  destruct (finish_row r o) as [f r'] eqn:Ef. cbn in Hrep', Hb' |- *.
  destruct (finish_row_ok r o _ _ Hrok Hc Ef) as [Hrok' Hev].
  pose proof Hgood as [Hok Hb]. split; [auto |]. apply related_set; [done | done | | | done].
  - eapply rows_ok_insert; [apply (ledger_ok_at tx sc Hok) | done | done | done].
  - apply Forall_insert; [by apply Forall_good_blank | done].
Qed.

Lemma observe_step id ctx o now (w : W) tbl :
  related tbl w id ->
  agree (mem_step id (OpObserve ctx o now) w).1 (pg_step tbl (OpObserve ctx o now)).1 /\
  related (pg_step tbl (OpObserve ctx o now)).2 (mem_step id (OpObserve ctx o now) w).2 id.
Proof.
  intros Hrel. pose proof Hrel as (tx & Hw & Hgood & Hrep). cbn [mem_step pg_step txAttemptLedger ledger_Observe].
  unfold tx_Observe, Observe, mbind, M_bind, result_bind, lift. destruct (validObservation o) as [[] | e | p] eqn:Ev; [| cbn; auto | cbn; auto].
  destruct (scope_cases ctx (obs_Key o)) as [(t & -> & ->) | [(e & e' & -> & -> & He) | (p & -> & ->)]];
    [| cbn; auto | cbn; auto].
  set (sc := ((t, obs_Key o) : attemptKey)) in *. change (observe_at tbl _ o now) with (observe_at tbl sc o now).
  assert (get_tx id w = (Ok tx, w)) as -> by by unfold get_tx; rewrite Hw.
  pose proof (attempts_good_at _ sc Hgood) as Hrows. unfold rows_at. cbv zeta.
  set (rows := default [] (tx_attempts tx !! sc)) in *.
  destruct (last rows) as [r |] eqn:El.
  2: { unfold observe_at. rewrite (selectLastAttempt_rows tbl _ Hrep). fold rows. rewrite El. cbn. auto. }
  destruct (ar_finished r) eqn:Ef; cbn [negb].
  2: { unfold observe_at. rewrite (selectLastAttempt_rows tbl _ Hrep). fold rows. rewrite El. cbn.
       rewrite Ef. destruct (decide (begun = stateBegun)); [cbn; auto | done]. }
  destruct (observe_row r (len rows) o now) as [ob r'] eqn:Eo.
  destruct (observe_rows tbl _ Hrep sc Hrows r o now ob r' El Ef Ev Eo) as (tbl' & -> & Hrep').
  pose proof (row_good_at _ _ Hrows _ _ (row_at_last _ _ El)) as [Hrok Hrb].
  destruct (observe_row_ok r _ o now _ _ Hrok Ef Eo) as [Hrok' Hev].
  pose proof (observe_row_blank r (len rows) o now Ef) as Hb'. rewrite Eo in Hb'. cbn in Hb' |- *.
  pose proof Hgood as [Hok Hb]. split; [auto |]. apply related_set; [done | done | | | done].
  - eapply rows_ok_insert; [apply (ledger_ok_at tx sc Hok) | by apply last_lookup_pred | done | done].
  - apply Forall_insert; [by apply Forall_good_blank | done].
Qed.

Lemma stale_step id ctx cutoff after limit (w : W) tbl :
  related tbl w id ->
  agree (mem_step id (OpStale ctx cutoff after limit) w).1 (pg_step tbl (OpStale ctx cutoff after limit)).1 /\
  related (pg_step tbl (OpStale ctx cutoff after limit)).2 (mem_step id (OpStale ctx cutoff after limit) w).2 id.
Proof.
  intros Hrel. pose proof Hrel as (tx & Hw & Hgood & Hrep). cbn [mem_step pg_step txAttemptLedger ledger_Stale].
  unfold tx_Stale, Stale. destruct (limit <? 1) eqn:El; [cbn; auto |].
  assert (get_tx id w = (Ok tx, w)) as Hg by by unfold get_tx; rewrite Hw.
  unfold mbind, M_bind, result_bind. rewrite Hg. cbn. split; [| done].
  rewrite (selectStale_rows tbl (tx_attempts tx)) by done.
  set (stale := stale_attempts (tx_attempts tx) cutoff after).
  destruct (Z.min_spec limit (len stale)) as [[_ ->] | [Hle ->]]; [constructor |].
  rewrite !take_ge by (unfold len in *; lia). constructor.
Qed.

Lemma ledger_step id op (w : W) tbl :
  related tbl w id ->
  agree (mem_step id op w).1 (pg_step tbl op).1 /\
  related (pg_step tbl op).2 (mem_step id op w).2 id.
Proof. destruct op; [apply begin_step | apply finish_step | apply observe_step | apply stale_step]. Qed.

(** A sequence of calls: their answers, and what they leave. *)
Fixpoint mem_calls (id : loc) (ops : list ledger_op) (w : W) : list (result error ledger_answer) * W :=
  match ops with
  | [] => ([], w)
  | op :: ops' => let '(a, w1) := mem_step id op w in let '(l, w2) := mem_calls id ops' w1 in (a :: l, w2)
  end.
Fixpoint pg_calls (ops : list ledger_op) (tbl : pgTable) : list (result error ledger_answer) * pgTable :=
  match ops with
  | [] => ([], tbl)
  | op :: ops' => let '(a, t1) := pg_step tbl op in let '(l, t2) := pg_calls ops' t1 in (a :: l, t2)
  end.

(** C13: The Postgres ledger refines the in-memory one: from a table that represents
    the rows of a transaction, any sequence of Begin, Finish, Observe and Stale
    calls, of any tenants and keys, gets the same answers call by call (the same
    attempts, classes, conflicts, saturation, pages and refusals, the sentinel of
    a context without a tenant apart), no update violates the table's check, and
    the table it leaves represents the rows the other leaves. *)
Theorem pg_ledger_refines_memory id ops (w : W) tbl :
  related tbl w id ->
  Forall2 agree (mem_calls id ops w).1 (pg_calls ops tbl).1 /\
  related (pg_calls ops tbl).2 (mem_calls id ops w).2 id.
Proof.
  revert w tbl. induction ops as [| op ops IH]; intros w tbl Hrel; cbn; [by split |].
  destruct (ledger_step id op w tbl Hrel) as [Ha Hrel'].
  destruct (mem_step id op w) as [a w1], (pg_step tbl op) as [a' t1]. cbn in Ha, Hrel'.
  destruct (IH w1 t1 Hrel') as [Hl Hrel''].
  destruct (mem_calls id ops w1), (pg_calls ops t1). cbn in *. auto.
Qed.
End Stores.

(** A run that meets every kind of answer: a begun attempt found pending, then
    finished, observed twice, contradicted, and a page of what is begun. *)
Definition pg_fixture_ops : list ledger_op :=
  [OpBegin (Fixture.ctx "t1" "k") "key" "m1" 5;
   OpBegin (Fixture.ctx "t1" "k") "key" "m1" 6;
   OpFinish (Fixture.ctx "t1" "k") (mkAttemptOutcome "key" 1 ClassRetryableTransport zeroObservation 7 false);
   OpBegin (Fixture.ctx "t1" "k") "key" "m1" 8;
   OpStale (Fixture.ctx "t1" "k") 9 zeroCursor 10;
   OpFinish (Fixture.ctx "t1" "k") (mkAttemptOutcome "key" 2 ClassAccepted zeroObservation 9 false);
   OpObserve (Fixture.ctx "t1" "k") (mkObservation "key" FindingApplied 9 "p" "r" "o1") 10;
   OpObserve (Fixture.ctx "t1" "k") (mkObservation "key" FindingRejected 9 "p" "r" "o2") 11;
   OpBegin (Fixture.ctx "t1" "k") "key" "m1" 12].
Lemma empty_related : related ∅ Fixture.opened 0%nat.
Proof.
  exists Fixture.empty_tx. split; [done | split].
  - split; intros scope rows; cbn; by rewrite lookup_empty.
  - intros scope n. cbn. rewrite !lookup_empty. cbn. by rewrite row_at_nil.
Qed.
Lemma pg_ledger_refines_memory_witness :
  Forall2 agree (mem_calls 0%nat pg_fixture_ops Fixture.opened).1 (pg_calls pg_fixture_ops ∅).1 /\
  related (pg_calls pg_fixture_ops ∅).2 (mem_calls 0%nat pg_fixture_ops Fixture.opened).2 0%nat.
Proof. apply (pg_ledger_refines_memory 0%nat pg_fixture_ops Fixture.opened ∅). apply empty_related. Defined.
