(* ===== verification/PgLedgerRaces.v ===== *)
(** Calls of the Postgres attempt ledger that interleave: what the statements of
    a [Begin] may see of other transactions, that a key still has at most one
    attempt in flight, and the interleaving that starts a second attempt of a
    message already done. *)

From stdpp Require Import relations.
From S2P Require Import Prelude DomainKernel Errors Ports Interfaces Memory Ledger PgLedger PgLedgerTheorems Fixture.

(** * Committed states

    The table after each committed call; a statement of a [Begin] sees any table
    committed so far, and its insert the last one. *)
Record db := mkDb { db_past : list pgTable; db_now : pgTable }.
Definition committed_tables (s : db) : list pgTable := db_now s :: db_past s.
Definition commit (s : db) (tbl : pgTable) : db := mkDb (committed_tables s) tbl.

Inductive db_step : db -> db -> Prop :=
| step_begin s seen_done seen_last scope message now answer tbl' :
    seen_last ∈ committed_tables s ->
    beginRound (mkViews seen_done seen_last (db_now s)) scope message now = (answer, tbl') ->
    db_step s (commit s tbl')
| step_finish s k o f tbl' :
    finish_at (db_now s) k o = Ok (f, tbl') -> db_step s (commit s tbl')
| step_observe s scope o now ob tbl' :
    observe_at (db_now s) scope o now = Ok (ob, tbl') -> db_step s (commit s tbl').
Definition empty_db : db := mkDb [] ∅.

(** The attempts of every key are numbered from one without a gap, and only the
    newest may be begun. *)
Record one_in_flight (tbl : pgTable) : Prop := {
  of_positive : forall scope n r, tbl !! (scope, n) = Some r -> 1 <= n;
  of_contiguous : forall scope n r, tbl !! (scope, n) = Some r -> 1 < n -> is_Some (tbl !! (scope, n - 1));
  of_newest : forall scope n r, tbl !! (scope, n) = Some r -> is_Some (tbl !! (scope, n + 1)) -> pg_state r = finished
}.
(** What a later table keeps of an earlier one. *)
Definition advances (tbl tbl' : pgTable) : Prop :=
  forall k r, tbl !! k = Some r -> exists r', tbl' !! k = Some r' /\ (pg_state r = finished -> pg_state r' = finished).
#[export] Instance advances_preorder : PreOrder advances.
Proof.
  split; [by intros t k r; eauto |]. intros a b c Hab Hbc k r Hr.
  destruct (Hab k r Hr) as (r1 & Hr1 & H1). destruct (Hbc k r1 Hr1) as (r2 & Hr2 & H2). eauto.
Qed.

(** Rows replaced by rows that are no less finished. *)
Lemma update_keeps (tbl : pgTable) k r r' :
  tbl !! k = Some r -> (pg_state r = finished -> pg_state r' = finished) ->
  one_in_flight tbl -> one_in_flight (<[k := r']> tbl) /\ advances tbl (<[k := r']> tbl).
Proof.
  intros Hk Hst [Hpos Hcon Hnew].
  assert (forall k', is_Some (<[k := r']> tbl !! k') <-> is_Some (tbl !! k')) as Hdom.
  { intros k'. rewrite lookup_insert_is_Some. destruct (decide (k = k')) as [<- | Hne]; naive_solver. }
  split; [split |].
  - intros scope n s [[-> <-] | [_ Hs]]%lookup_insert_Some; eauto.
  - intros scope n s [[-> <-] | [_ Hs]]%lookup_insert_Some Hn; apply Hdom; eauto.
  - intros scope n s [[-> <-] | [_ Hs]]%lookup_insert_Some Hn%Hdom; eauto.
  - intros k' s Hs. destruct (decide (k = k')) as [<- | Hne].
    + rewrite lookup_insert_eq. rewrite Hk in Hs. injection Hs as <-. eauto.
    + rewrite lookup_insert_ne by done. eauto.
Qed.
Lemma same_keeps tbl : one_in_flight tbl -> one_in_flight tbl /\ advances tbl tbl.
Proof. done. Qed.
Lemma store_keeps (tbl tbl' : pgTable) k r r' :
  store_row tbl k r' = Ok tbl' -> tbl !! k = Some r -> (pg_state r = finished -> pg_state r' = finished) ->
  one_in_flight tbl -> one_in_flight tbl' /\ advances tbl tbl'.
Proof. unfold store_row. case_match; [intros [= <-]; apply update_keeps | done]. Qed.

Lemma conflict_keeps (tbl tbl' : pgTable) k c :
  appendAttemptConflict tbl k c = Ok tbl' -> one_in_flight tbl -> one_in_flight tbl' /\ advances tbl tbl'.
Proof.
  unfold appendAttemptConflict. destruct (tbl !! k) eqn:E; [| by intros [= <-]].
  intros Hs. by eapply store_keeps.
Qed.
Lemma observation_id_keeps (tbl tbl' : pgTable) k i :
  recordObservationID tbl k i = Ok tbl' -> one_in_flight tbl -> one_in_flight tbl' /\ advances tbl tbl'.
Proof.
  unfold recordObservationID. destruct (tbl !! k) eqn:E; [| by intros [= <-]].
  intros Hs. by eapply store_keeps.
Qed.
Lemma finish_keeps (tbl tbl' : pgTable) k o f :
  finish_at tbl k o = Ok (f, tbl') -> one_in_flight tbl -> one_in_flight tbl' /\ advances tbl tbl'.
Proof.
  unfold finish_at, finishBegunAttempt. destruct (tbl !! k) as [r |] eqn:E; [| done].
  destruct (decide (pg_state r = begun)) as [Hb | Hb]; cbn.
  - destruct (store_row _ _ _) as [t | |] eqn:Es; cbn; [| done | done]. intros [= _ <-].
    eapply store_keeps; [exact Es | done | done].
  - repeat (case_match; [by intros [= _ <-] |]).
    destruct (appendAttemptConflict _ _ _) as [t | |] eqn:Ea; cbn; [| done | done]. intros [= _ <-].
    by eapply conflict_keeps.
Qed.
Lemma observe_keeps (tbl tbl' : pgTable) scope o now ob :
  observe_at tbl scope o now = Ok (ob, tbl') -> one_in_flight tbl -> one_in_flight tbl' /\ advances tbl tbl'.
Proof.
  unfold observe_at. destruct (selectLastAttempt tbl scope) as [[n r] |] eqn:El; [| done].
  pose proof (newest_spec (fun _ => true) tbl scope) as Hn. unfold selectLastAttempt in El. rewrite El in Hn.
  destruct Hn as (Hr & _ & _).
  case_decide; [done |]. cbv zeta. case_decide; [by intros [= _ <-] |].
  assert (forall full t, recordObservation tbl (scope, n) r o full = Ok t -> one_in_flight tbl ->
    one_in_flight t /\ advances tbl t) as Hrec.
  { intros full t Hs. eapply store_keeps; [exact Hs | done | done]. }
  destruct (pg_terminal_finding r) as [tf |].
  - case_match; [by intros [= _ <-] |]. unfold observeAfterTerminal.
    destruct (recordObservationID _ _ _) as [t1 | |] eqn:E1; cbn; [| done | done].
    case_match; cbn; [intros [= _ <-]; by eapply observation_id_keeps |].
    destruct (appendAttemptConflict _ _ _) as [t2 | |] eqn:E2; cbn; [| done | done]. intros [= _ <-] Hi.
    destruct (observation_id_keeps _ _ _ _ E1 Hi) as [Hi1 Ha1].
    destruct (conflict_keeps _ _ _ _ E2 Hi1) as [Hi2 Ha2]. split; [done | by transitivity t1].
  - case_match; [by intros [= _ <-] |].
    destruct (recordObservation _ _ _ _ _) as [t1 | |] eqn:E1; cbn; [| done | done]. intros [= _ <-].
    by eapply Hrec.
Qed.

(** A row inserted after the newest one, which is finished. *)
Lemma insert_keeps (tbl : pgTable) scope m message now :
  1 <= m -> (m = 1 \/ exists r, tbl !! (scope, m - 1) = Some r /\ pg_state r = finished) ->
  one_in_flight tbl ->
  let tbl' := (insertAttempt tbl scope m message now).1 in one_in_flight tbl' /\ advances tbl tbl'.
Proof.
  intros Hm Hprev Hi tbl'. subst tbl'. unfold insertAttempt.
  destruct (tbl !! (scope, m)) as [r |] eqn:E; [done |]. cbn [fst]. destruct Hi as [Hpos Hcon Hnew].
  split; [split |].
  - intros sc n s [[[= <- <-] <-] | [_ Hs]]%lookup_insert_Some; [done | eauto].
  - intros sc n s [[[= <- <-] <-] | [_ Hs]]%lookup_insert_Some Hn; apply lookup_insert_is_Some'; right.
    + destruct Hprev as [-> | (r & Hr & _)]; [lia | eauto].
    + eauto.
  - intros sc n s [[[= <- <-] <-] | [Hne Hs]]%lookup_insert_Some [[= He] | Hn]%lookup_insert_is_Some'.
    + lia.
    + destruct Hn as [s Hs]. destruct (Hcon _ _ _ Hs) as [s' Hs']; [lia |].
      replace (m + 1 - 1) with m in Hs' by lia. congruence.
    + subst. destruct Hprev as [Hp | (r & Hr & Hf)].
      * assert (n = 0) as -> by lia. apply Hpos in Hs. lia.
      * replace (n + 1 - 1) with n in Hr by lia. congruence.
    + eauto.
  - intros k s Hs. exists s. rewrite lookup_insert_ne by congruence. done.
Qed.

Lemma begin_keeps (seen_done seen_last tbl tbl' : pgTable) scope message now answer :
  one_in_flight seen_last -> advances seen_last tbl -> one_in_flight tbl ->
  beginRound (mkViews seen_done seen_last tbl) scope message now = (answer, tbl') ->
  one_in_flight tbl' /\ advances tbl tbl'.
Proof.
  intros Hl Ha Hi. unfold beginRound. cbn [v_done v_last v_insert].
  destruct (doneAttempt _ _ _); [by intros [= _ <-] |]. cbv zeta.
  assert (forall m, 1 <= m -> (m = 1 \/ exists r, tbl !! (scope, m - 1) = Some r /\ pg_state r = finished) ->
    forall a t, (let '(t', wrote) := insertAttempt tbl scope m message now in
      (if wrote then Some (StartedAttempt (mkAttempt scope.1 scope.2 m message now)) else None, t')) = (a, t) ->
    one_in_flight t /\ advances tbl t) as Hins.
  { intros m Hm Hp a t. pose proof (insert_keeps tbl scope m message now Hm Hp Hi) as H.
    destruct (insertAttempt _ _ _ _ _) as [t' wrote]. by intros [= _ <-]. }
  pose proof (newest_spec (fun _ => true) seen_last scope) as Hn. fold (selectLastAttempt seen_last scope) in Hn.
  destruct (selectLastAttempt seen_last scope) as [[n r] |]; [| by apply Hins; [lia | left]].
  destruct Hn as (Hr & _ & _). case_decide as Hs; [by intros [= _ <-] |].
  destruct (Ha _ _ Hr) as (r' & Hr' & Hf). pose proof (of_positive _ Hl _ _ _ Hr).
  apply Hins; [lia | right]. exists r'. replace (n + 1 - 1) with n by lia. split; [done |].
  apply Hf. by destruct (pg_state r).
Qed.

Definition db_ok (s : db) : Prop :=
  forall tbl, tbl ∈ committed_tables s -> one_in_flight tbl /\ advances tbl (db_now s).
Lemma db_ok_commit s tbl' :
  db_ok s -> one_in_flight tbl' /\ advances (db_now s) tbl' -> db_ok (commit s tbl').
Proof.
  intros Hok [Hi Ha] tbl [-> | Ht]%elem_of_cons; [done |]. cbn.
  destruct (Hok _ Ht) as [Hit Hat]. split; [done | by etransitivity].
Qed.
Lemma db_step_ok s s' : db_step s s' -> db_ok s -> db_ok s'.
Proof.
  intros Hstep Hok. destruct (Hok (db_now s)) as [Hi _]; [by left |].
  destruct Hstep as [s sd sl scope message now answer tbl' Hsl Hb | s k o f tbl' Hf | s scope o now ob tbl' Ho];
    apply db_ok_commit; try done.
  - destruct (Hok _ Hsl) as [Hl Ha]. by eapply begin_keeps.
  - by eapply finish_keeps.
  - by eapply observe_keeps.
Qed.

Lemma contiguous_below (tbl : pgTable) scope n m r :
  one_in_flight tbl -> tbl !! (scope, m) = Some r -> 1 <= n <= m -> is_Some (tbl !! (scope, n)).
Proof.
  intros Hi Hm Hle. remember (Z.to_nat (m - n)) as d eqn:Hd. revert m r Hm Hle Hd.
  induction d as [| d IH]; intros m r Hm Hle Hd.
  - replace n with m by lia. eauto.
  - destruct (of_contiguous _ Hi _ _ _ Hm) as [s Hs]; [lia |]. apply (IH (m - 1) s Hs); lia.
Qed.

(** C27: However the ledger's calls interleave, every statement of a Begin seeing any
    table committed before it, the attempts of a key stay numbered from one
    without a gap, only the newest can be begun, and so no key ever has two
    attempts in flight: the primary key is enough to serialize the inserts. *)
Theorem at_most_one_in_flight s scope n m r r'
  (Hrun : rtc db_step empty_db s)
  (Hn : db_now s !! (scope, n) = Some r) (Hrn : pg_state r = begun)
  (Hm : db_now s !! (scope, m) = Some r') (Hrm : pg_state r' = begun) :
  one_in_flight (db_now s) /\ n = m.
Proof.
  assert (db_ok s) as Hok.
  { clear -Hrun. revert s Hrun. apply rtc_ind_r; [| intros s s' _ Hs; by apply db_step_ok].
    intros tbl [-> | Ht]%elem_of_cons; [| by inversion Ht].
    split; [split; intros sc k x; cbn; by rewrite lookup_empty | done]. }
  destruct (Hok (db_now s)) as [Hi _]; [by left |]. split; [done |].
  assert (forall a b x y, db_now s !! (scope, a) = Some x -> pg_state x = begun ->
    db_now s !! (scope, b) = Some y -> ~ a < b) as Hlt.
  { intros a b x y Ha Hx Hb Hab. pose proof (of_positive _ Hi _ _ _ Ha).
    assert (is_Some (db_now s !! (scope, a + 1))) as Hs by (eapply contiguous_below; [done | done | lia]).
    pose proof (of_newest _ Hi _ _ _ Ha Hs). congruence. }
  pose proof (Hlt n m r r' Hn Hrn Hm). pose proof (Hlt m n r' r Hm Hrm Hn). lia.
Qed.

(** * The lost update of [Begin] *)

(** The table a Finish leaves. *)
Definition after_finish (tbl : pgTable) (k : pgKey) (o : AttemptOutcome) : pgTable :=
  match finish_at tbl k o with Ok (_, tbl') => tbl' | _ => tbl end.

(** C35: A Begin for the message of the attempt in flight, against the Finish of that
    attempt with a class that ends it: before the Finish it finds the attempt
    pending and after it the attempt done, but when the Finish commits between
    its two reads it starts another attempt of a message already done. *)
Theorem begin_between_reads tbl attempts scope r message now o
  (Hrep : represents tbl attempts)
  (Hgood : Forall row_good (default [] (attempts !! scope)))
  (Hlast : last (default [] (attempts !! scope)) = Some r)
  (Hbegun : ar_finished r = false) (Hmsg : ar_messageID r = message)
  (Hnone : find_done scope message (reverse (default [] (attempts !! scope))) (len (default [] (attempts !! scope))) = None)
  (Hvalid : validOutcome o = Ok ()) (Hfinal : Retryable (out_Class o) = false) :
  let n := len (default [] (attempts !! scope)) in
  let tbl' := after_finish tbl (scope, n) o in
  let done_ := attemptOf scope n r in
  (beginRound (mkViews tbl tbl tbl) scope message now).1 = Some (PendingAttempt done_) /\
  (beginRound (mkViews tbl' tbl' tbl') scope message now).1 = Some (DoneAttempt done_ (out_Class o)) /\
  (beginRound (mkViews tbl tbl' tbl') scope message now).1 =
    Some (StartedAttempt (mkAttempt scope.1 scope.2 (n + 1) message now)).
Proof.
  cbv zeta. set (rows := default [] (attempts !! scope)) in *. pose proof (row_at_last _ _ Hlast) as Hr.
  assert (finish_row r o = (mkFinished FinishRecorded (out_Class o), (finish_row r o).2)) as Hfr.
  { unfold finish_row. by rewrite Hbegun. }
  set (r' := (finish_row r o).2) in *.
  assert (ar_finished r' = true /\ ar_class r' = out_Class o /\ ar_messageID r' = message /\
    ar_startedAt r' = ar_startedAt r) as (Hf' & Hc' & Hm' & Hs').
  { subst r'. unfold finish_row. by rewrite Hbegun. }
  destruct (finish_rows tbl attempts Hrep scope Hgood _ r o Hr Hvalid) as (tbl' & Ht & Hrep').
  assert (after_finish tbl (scope, len rows) o = tbl') as -> by by unfold after_finish; rewrite Ht.
  fold rows r' in Hrep'.
  set (rows' := <[Z.to_nat (len rows - 1) := r']> rows) in *.
  assert (last rows' = Some r') as Hlast'.
  { apply last_lookup_pred in Hlast as Hl. pose proof (lookup_lt_Some _ _ _ Hl).
    rewrite last_lookup. subst rows'. rewrite length_insert.
    replace (Z.to_nat (len rows - 1)) with (Nat.pred (length rows)) by (unfold len; lia).
    by apply list_lookup_insert_eq. }
  assert (len rows' = len rows) as Hlen by by unfold len, rows'; rewrite length_insert.
  assert (Forall row_good rows') as Hgood'.
  { apply Forall_insert; [done |]. destruct (row_good_at _ _ Hgood _ _ Hr) as [Hok Hb]. split.
    - by eapply (finish_row_ok r o); [| apply validOutcome_class |].
    - by apply finish_row_blank. }
  assert (default [] (<[scope := rows']> attempts !! scope) = rows') as Hat by by rewrite lookup_insert_eq.
  pose proof (doneAttempt_rows tbl attempts Hrep scope Hgood message) as Hd. fold rows in Hd.
  pose proof (doneAttempt_rows tbl' _ Hrep' scope ltac:(by rewrite Hat) message) as Hd'. rewrite Hat in Hd'.
  pose proof (selectLastAttempt_rows tbl attempts Hrep scope) as Hl. fold rows in Hl.
  pose proof (selectLastAttempt_rows tbl' _ Hrep' scope) as Hl'. rewrite Hat in Hl'.
  rewrite Hnone in Hd. rewrite Hlast in Hl. rewrite Hlast' in Hl'.
  assert (find_done scope message (reverse rows') (len rows') =
    Some (DoneAttempt (attemptOf scope (len rows) r') (out_Class o))) as Hfd.
  { destruct (last_Some rows' r') as [[init Hi] _]; [done |]. rewrite <- Hlen, Hi, reverse_snoc. cbn [find_done].
    by rewrite Hf', Hm', String.eqb_refl, Hc', Hfinal. }
  rewrite Hfd in Hd'. unfold beginRound. cbn [v_done v_last v_insert].
  rewrite Hd, Hd', Hl, Hl'. cbn [fmap option_fmap option_map]. rewrite !state_row_of, Hbegun, Hf'.
  destruct (decide (begun = stateBegun)) as [_ | Hx]; [| done].
  destruct (decide (finished = stateBegun)) as [Hx | _]; [done |].
  split_and!; [done | |].
  - cbn. unfold attemptOf. by rewrite Hs', Hm', Hmsg.
  - rewrite Hlen. pose proof (insert_next tbl' _ Hrep' scope message now) as Hi. rewrite Hat, Hlen in Hi.
    by rewrite Hi.
Qed.

(** * Concrete interleavings *)
Definition race_scope : attemptKey := ("t1", "key").
Definition race_tbl : pgTable := {[ (race_scope, 1) := begun_row "m1" 5 ]}.
Definition race_attempts : gmap attemptKey (list attemptRow) := {[ race_scope := [fresh_row "m1" 5] ]}.
Definition race_outcome : AttemptOutcome := mkAttemptOutcome "key" 1 ClassAccepted zeroObservation 7 false.
Definition race_finished : pgTable := after_finish race_tbl (race_scope, 1) race_outcome.
Lemma race_represents : represents race_tbl race_attempts.
Proof.
  intros scope n. unfold race_tbl, race_attempts. destruct (decide (scope = race_scope)) as [-> | Hne].
  - rewrite (lookup_singleton_eq race_scope). cbn. unfold row_at.
    destruct (decide (n = 1)) as [-> | Hn]; [by rewrite lookup_singleton_eq |].
    rewrite lookup_singleton_ne by congruence. destruct (Z.leb_spec 1 n); [| done].
    by rewrite lookup_ge_None_2 by (cbn; lia).
  - rewrite !lookup_singleton_ne by congruence. cbn. by rewrite row_at_nil.
Qed.

Lemma begin_between_reads_witness :
  (beginRound (mkViews race_tbl race_tbl race_tbl) race_scope "m1" 8).1 =
    Some (PendingAttempt (attemptOf race_scope 1 (fresh_row "m1" 5))) /\
  (beginRound (mkViews race_finished race_finished race_finished) race_scope "m1" 8).1 =
    Some (DoneAttempt (attemptOf race_scope 1 (fresh_row "m1" 5)) ClassAccepted) /\
  (beginRound (mkViews race_tbl race_finished race_finished) race_scope "m1" 8).1 =
    Some (StartedAttempt (mkAttempt "t1" "key" 2 "m1" 8)).
Proof.
  apply (begin_between_reads race_tbl race_attempts race_scope (fresh_row "m1" 5) "m1" 8 race_outcome).
  - exact race_represents.
  - repeat constructor; vm_compute; discriminate.
  - vm_compute. reflexivity.
  - vm_compute. reflexivity.
  - vm_compute. reflexivity.
  - vm_compute. reflexivity.
  - vm_compute. reflexivity.
  - vm_compute. reflexivity.
Defined.

Definition race_begin : option AttemptStart * pgTable :=
  beginRound (mkViews ∅ ∅ ∅) race_scope "m1" 5.
Definition race_db : db := commit empty_db race_begin.2.
Lemma race_db_reached : rtc db_step empty_db race_db.
Proof.
  apply rtc_once. apply (step_begin empty_db ∅ ∅ race_scope "m1" 5 race_begin.1); [by left |].
  apply surjective_pairing.
Qed.
Lemma at_most_one_in_flight_witness : one_in_flight race_begin.2 /\ 1 = 1.
Proof.
  apply (at_most_one_in_flight race_db race_scope 1 1 (begun_row "m1" 5) (begun_row "m1" 5) race_db_reached);
    vm_compute; reflexivity.
Defined.
