(* ===== verification/PgServerTheorems.v ===== *)
(** What the server keeps while sessions interleave: the rows and locks of two
    open sessions are apart, no two rows of any state a session may commit break
    a unique constraint, and what a session holds stays as it was. *)

From stdpp Require Import relations.
From S2P Require Import Prelude GoStrings DomainKernel Errors Ports PgServer.

(** * What a statement may do *)
Definition holds (s : server) (t : nat) (n : snapshot) : Prop :=
  exists x, sv_sessions s !! t = Some x /\ n ∈ held x.

Lemma others_spec s t n : n ∈ others s t <-> exists t', t' <> t /\ holds s t' n.
Proof.
  unfold others, holds. rewrite list_elem_of_bind. split.
  - intros ([t' x] & Hn & Hx%elem_of_map_to_list). apply lookup_delete_Some in Hx as [Hne Hx]. eauto 6.
  - intros (t' & Hne & x & Hx & Hn). exists (t', x). rewrite elem_of_map_to_list, lookup_delete_Some. auto.
Qed.
Lemma row_locked_spec s t k :
  row_locked s t k = true <-> exists t' n, t' <> t /\ holds s t' n /\ is_Some (sn_rows n !! k).
Proof.
  unfold row_locked. rewrite existsb_exists. split.
  - intros (n & Hn%list_elem_of_In & Hk%bool_decide_eq_true). apply others_spec in Hn as (t' & ? & ?). eauto 6.
  - intros (t' & n & Hne & Hn & Hk). exists n. split; [| by apply bool_decide_eq_true].
    apply list_elem_of_In, others_spec. eauto.
Qed.
Lemma inbox_locked_spec s t k :
  inbox_locked s t k = true <-> exists t' n, t' <> t /\ holds s t' n /\ is_Some (sn_inbox n !! k).
Proof.
  unfold inbox_locked. rewrite existsb_exists. split.
  - intros (n & Hn%list_elem_of_In & Hk%bool_decide_eq_true). apply others_spec in Hn as (t' & ? & ?). eauto 6.
  - intros (t' & n & Hne & Hn & Hk). exists n. split; [| by apply bool_decide_eq_true].
    apply list_elem_of_In, others_spec. eauto.
Qed.

Section Server.
Context (schema : list constraint) (least : list string -> option string).
Notation exec := (exec schema least).
Notation step := (step schema least).

(** A row written over what the session sees. *)
Definition row_written (s : server) (t : nat) (n : snapshot) (k : tkey) (r : trow) : Prop :=
  row_locked s t k = false /\ unique_check s t n false k r schema = Pass /\
  match view s n !! k with
  | None => tr_version r = 1
  | Some old => tr_version r = tr_version old + 1
  end.
Definition inbox_written (s : server) (t : nat) (n : snapshot) (k : ikey) (r : irow) : Prop :=
  inbox_locked s t k = false /\
  (inbox_view s n !! k = None \/
   exists old, inbox_view s n !! k = Some old /\
     ((exists e, ib_expires_at old = Some e /\ e <= ib_received_at r) \/
      (ib_hash r = ib_hash old /\ ib_expires_at r = ib_expires_at old))).

(** The states a session holds after a statement, against those it held. *)
Inductive next_state (s : server) (t : nat) (n : snapshot) : snapshot -> Prop :=
| next_row k r : row_written s t n k r ->
    next_state s t n (mkSnap (<[k := r]> (sn_rows n)) (sn_inbox n) (sn_shared n) (sn_exclusive n))
| next_inbox k r : inbox_written s t n k r ->
    next_state s t n (mkSnap (sn_rows n) (<[k := r]> (sn_inbox n)) (sn_shared n) (sn_exclusive n))
| next_shared h : (forall m, m ∈ others s t -> h ∉ sn_exclusive m) ->
    next_state s t n (mkSnap (sn_rows n) (sn_inbox n) ({[h]} ∪ sn_shared n) (sn_exclusive n))
| next_exclusive h : (forall m, m ∈ others s t -> h ∉ sn_shared m /\ h ∉ sn_exclusive m) ->
    next_state s t n (mkSnap (sn_rows n) (sn_inbox n) (sn_shared n) ({[h]} ∪ sn_exclusive n)).
Definition session_next (s : server) (t : nat) (x x' : session) : Prop :=
  (se_saves x' = se_saves x /\ next_state s t (se_now x) (se_now x')) \/
  (forall m, m ∈ held x' -> m ∈ held x).

Lemma put_row_effect s t x self k r a s' :
  put_row schema s t x self k r = Some (a, s') -> self = false ->
  row_locked s t k = false ->
  match view s (se_now x) !! k with None => tr_version r = 1 | Some old => tr_version r = tr_version old + 1 end ->
  exists x', s' = set_session t x' s /\ session_next s t x x'.
Proof.
  intros Hp -> Hl Hv. unfold put_row in Hp. destruct (unique_check _ _ _ _ _ _ _) eqn:Hu; [| done |].
  - injection Hp as <- <-. eexists. split; [done |]. left. split; [done |]. by apply next_row.
  - injection Hp as <- <-. eexists. split; [done |]. right. auto.
Qed.
Lemma lock_effect s t x h b a s' :
  lock s t x h b = Some (a, s') -> exists x', s' = set_session t x' s /\ session_next s t x x'.
Proof.
  unfold lock. destruct (existsb _ _) eqn:He; [done |]. intros [= <- <-].
  eexists. split; [done |]. left. split; [done |].
  assert (forall m, m ∈ others s t ->
    (if b then lock_held h m else bool_decide (h ∈ sn_exclusive m)) = false) as Hm.
  { intros m Hm%list_elem_of_In. rewrite <- not_true_iff_false in He |- *. intros Ht. apply He, existsb_exists. eauto. }
  destruct b; cbn.
  - apply next_exclusive. intros m Hin. specialize (Hm m Hin). unfold lock_held in Hm.
    apply orb_false_iff in Hm as [H1%bool_decide_eq_false H2%bool_decide_eq_false]. done.
  - apply next_shared. intros m Hin. specialize (Hm m Hin). by apply bool_decide_eq_false in Hm.
Qed.

Definition changes_own (s : server) (t : nat) (x : session) (s' : server) : Prop :=
  s' = s \/ exists x', s' = set_session t x' s /\ session_next s t x x'.
Lemma changes_none s t x : changes_own s t x s.
Proof. by left. Qed.
Lemma changes_aborted s t x : changes_own s t x (set_session t (aborted x) s).
Proof. right. eexists. split; [done |]. right. auto. Qed.
Lemma changes_inbox s t x k r : inbox_written s t (se_now x) k r ->
  changes_own s t x (put_inbox s t x k r).2.
Proof. intros Hw. right. eexists. split; [done |]. left. split; [done |]. by apply next_inbox. Qed.
Hint Resolve changes_none changes_aborted : core.

Lemma insert_effect race s t x k cols a s' :
  exec_insert schema race s t x k cols = Some (a, s') -> changes_own s t x s'.
Proof.
  unfold exec_insert. destruct (row_locked s t k) eqn:Hl; [done |].
  destruct (view s (se_now x) !! k) eqn:Hv.
  - destruct race; [| by intros [= <- <-]]. destruct (unique_check _ _ _ _ _ _ _); by intros [= <- <-].
  - intros H. right. eapply put_row_effect; [exact H | done | done |]. by rewrite Hv.
Qed.
Lemma update_effect s t x k expected guard cols a s' :
  exec_update schema s t x k expected guard cols = Some (a, s') -> changes_own s t x s'.
Proof.
  unfold exec_update. destruct (view s (se_now x) !! k) as [old |] eqn:Hv; [| by intros [= <- <-]].
  destruct ((tr_version old =? expected) && _) eqn:Hg; [| by intros [= <- <-]].
  destruct (row_locked s t k) eqn:Hl; [done |]. case_match; [by intros [= <- <-] |].
  intros Hp. right. eapply put_row_effect; [exact Hp | done | done |]. rewrite Hv. cbn.
  by apply andb_true_iff in Hg as [->%Z.eqb_eq _].
Qed.

(** A statement of an open session changes that session alone. *)
Lemma exec_open_effect {R} race (st : stmt R) s t x a s' :
  exec_open schema least race st s t x = Some (a, s') -> changes_own s t x s'.
Proof.
  destruct st; cbn;
    try (by intros [= <- <-]); try (apply insert_effect); try (apply update_effect).
  - intros H%lock_effect. by right.
  - intros H%lock_effect. by right.
  - intros [= <- <-]. right. eexists. split; [done |]. right. cbn.
    intros m [-> | Hm]%elem_of_cons; [by left | done].
  - destruct (se_saves x) as [| n saves] eqn:Es; intros [= <- <-]; [done |].
    right. eexists. split; [done |]. right. unfold held. rewrite Es. cbn. set_solver.
  - destruct (se_saves x) as [| n saves] eqn:Es; intros [= <- <-]; [done |].
    right. eexists. split; [done |]. right. unfold held. rewrite Es. cbn. set_solver.
  - destruct (inbox_locked s t k) eqn:Hl; [done |].
    destruct (inbox_view s (se_now x) !! k) eqn:Hv; intros [= <- <-]; [done |].
    apply changes_inbox. split; [done | auto].
  - destruct (inbox_locked s t k) eqn:Hl; [done |].
    destruct (inbox_view s (se_now x) !! k) as [old |] eqn:Hv.
    + destruct (ib_expires_at old) as [e |] eqn:Ee; [| by intros [= <- <-]].
      destruct (Z.leb_spec e (ib_received_at r)); intros [= <- <-]; [| done].
      apply changes_inbox. split; [done |]. right. eauto 8.
    + intros [= <- <-]. apply changes_inbox. split; [done | auto].
  - destruct (inbox_view s (se_now x) !! k) as [old |] eqn:Hv; [| by intros [= <- <-]].
    destruct (inbox_locked s t k) eqn:Hl; intros [= <- <-].
    apply changes_inbox. split; [done |]. right. exists old. split; [done |]. right. auto.
Qed.
Lemma exec_effect {R} race (st : stmt R) s t a s' :
  exec race st s t = Some (a, s') ->
  exists x, sv_sessions s !! t = Some x /\ changes_own s t x s'.
Proof.
  unfold PgServer.exec. destruct (sv_sessions s !! t) as [x |] eqn:Hx; [| done]. intros H. exists x. split; [done |].
  destruct (se_aborted x) eqn:Ea; [| by eapply exec_open_effect].
  destruct st; try (by injection H as <- <-). by eapply exec_open_effect.
Qed.

(** * Sessions apart

    [P] relates the states of two sessions. *)
Definition pairwise (P : snapshot -> snapshot -> Prop) (s : server) : Prop :=
  forall t t' n n', t <> t' -> holds s t n -> holds s t' n' -> P n n'.

Lemma holds_set t x s t' n :
  holds (set_session t x s) t' n <-> (t' = t /\ n ∈ held x) \/ (t' <> t /\ holds s t' n).
Proof.
  unfold holds, set_session. cbn. destruct (decide (t' = t)) as [-> | Hne].
  - rewrite lookup_insert_eq. naive_solver.
  - rewrite lookup_insert_ne by done. naive_solver.
Qed.
Lemma holds_close t s t' n : holds (close t s) t' n -> t' <> t /\ holds s t' n.
Proof.
  intros (x & Hx & Hn). cbn in Hx. apply lookup_delete_Some in Hx as [Hne Hx].
  split; [congruence | by exists x].
Qed.

(** A change of one session keeps what relates it to the others. *)
Lemma pairwise_next P s t x x' :
  (forall n n', P n n' -> P n' n) ->
  sv_sessions s !! t = Some x -> session_next s t x x' ->
  (forall n', next_state s t (se_now x) n' -> (forall m, m ∈ others s t -> P (se_now x) m) ->
     forall m, m ∈ others s t -> P n' m) ->
  pairwise P s -> pairwise P (set_session t x' s).
Proof.
  intros Hsym Hx Hnext Hkeep HP.
  assert (forall m, m ∈ held x -> forall m', m' ∈ others s t -> P m m') as Hold.
  { intros m Hm m' (t' & Hne & Hm')%others_spec. eapply (HP t t'); [done | by exists x | done]. }
  assert (forall m, m ∈ held x' -> forall m', m' ∈ others s t -> P m m') as Hnew.
  { destruct Hnext as [[Hs Hn] | Hsub]; [| eauto].
    intros m [-> | Hm]%elem_of_cons m' Hm'.
    - eapply Hkeep; [done | | done]. intros m0 Hm0. apply Hold; [by left | done].
    - rewrite Hs in Hm. apply Hold; [by right | done]. }
  intros t1 t2 n n' Hne [[-> Hn] | [Hn1 Hn]]%holds_set [[-> Hn'] | [Hn2 Hn']]%holds_set; [done | | |].
  - apply Hnew; [done |]. apply others_spec. eauto.
  - apply Hsym, Hnew; [done |]. apply others_spec. eauto.
  - by eapply (HP t1 t2).
Qed.
Lemma pairwise_new P s t :
  (forall n, P empty_snapshot n /\ P n empty_snapshot) -> pairwise P s -> pairwise P (set_session t new_session s).
Proof.
  intros He HP t1 t2 n n' Hne [[-> Hn] | [Hn1 Hn]]%holds_set [[-> Hn'] | [Hn2 Hn']]%holds_set; [done | | |].
  - apply list_elem_of_singleton in Hn as ->. apply He.
  - apply list_elem_of_singleton in Hn' as ->. apply He.
  - by eapply (HP t1 t2).
Qed.
Lemma pairwise_close P s t : pairwise P s -> pairwise P (close t s).
Proof. intros HP t1 t2 n n' Hne [_ H1]%holds_close [_ H2]%holds_close. by eapply (HP t1 t2). Qed.
Lemma pairwise_holds P s s' : (forall t n, holds s' t n -> holds s t n) -> pairwise P s -> pairwise P s'.
Proof. intros Hh HP t1 t2 n n' Hne H1 H2. eapply (HP t1 t2); auto. Qed.

(** * The invariant *)
(** Two rows of different identities under one key of one constraint. *)
Definition clash (m m' : gmap tkey trow) : Prop :=
  exists c k k' r r' w, c ∈ schema /\ k <> k' /\ m !! k = Some r /\ m' !! k' = Some r' /\
    unique_key c k r = Some w /\ unique_key c k' r' = Some w.
Record apart (n n' : snapshot) : Prop := {
  ap_rows : forall k, is_Some (sn_rows n !! k) -> sn_rows n' !! k = None;
  ap_inbox : forall k, is_Some (sn_inbox n !! k) -> sn_inbox n' !! k = None;
  ap_exclusive : forall h, h ∈ sn_exclusive n -> h ∉ sn_shared n' /\ h ∉ sn_exclusive n';
  ap_shared : forall h, h ∈ sn_shared n -> h ∉ sn_exclusive n';
  ap_keys : ~ clash (sn_rows n) (sn_rows n')
}.
Record server_ok (s : server) : Prop := {
  ok_apart : pairwise apart s;
  ok_committed : ~ clash (sv_rows s) (sv_rows s);
  ok_views : forall t n, holds s t n -> ~ clash (view s n) (view s n)
}.

Lemma clash_sym m m' : clash m m' -> clash m' m.
Proof. intros (c & k & k' & r & r' & w & Hc & Hne & H). exists c, k', k, r', r, w. naive_solver. Qed.
Lemma apart_sym n n' : apart n n' -> apart n' n.
Proof.
  intros [Hr Hi He Hs Hk]. split.
  - intros k [r Hk']. destruct (sn_rows n !! k) eqn:E; [| done]. rewrite (Hr k) in Hk'; [done | eauto].
  - intros k [r Hk']. destruct (sn_inbox n !! k) eqn:E; [| done]. rewrite (Hi k) in Hk'; [done | eauto].
  - intros h Hh. split; intros Hh'; [by apply (Hs h) | by destruct (He h Hh')].
  - intros h Hh Hh'. by destruct (He h Hh').
  - intros Hc%clash_sym. done.
Qed.

(** What a row's check of the constraints rules out. *)
Lemma unique_check_pass s t n self k r cs c w :
  unique_check s t n self k r cs = Pass -> c ∈ cs -> unique_key c k r = Some w ->
  in_progress s t c k w = false /\ taken s n self c k w = false.
Proof.
  induction cs as [| c' cs IH]; cbn; intros Hp Hc Hw; [by apply not_elem_of_nil in Hc |].
  apply elem_of_cons in Hc as [-> | Hc].
  - rewrite Hw in Hp. destruct (in_progress s t c' k w) eqn:Ei; [done |].
    by destruct (taken s n self c' k w) eqn:Et.
  - destruct (unique_key c' k r) as [w' |]; [| by apply IH].
    destruct (in_progress s t c' k w') eqn:Ei; [done |].
    destruct (taken s n self c' k w') eqn:Et; [done | by apply IH].
Qed.
Lemma existsb_false_elem {A} (f : A -> bool) l x : existsb f l = false -> x ∈ l -> f x = false.
Proof.
  intros He Hx%list_elem_of_In. rewrite <- not_true_iff_false in He |- *. intros Ht. apply He, existsb_exists. eauto.
Qed.
Lemma same_key_true c w k r : unique_key c k r = Some w -> same_key c w (k, r) = true.
Proof. intros H. by apply bool_decide_eq_true. Qed.
Lemma other_row_ne k k' r : k <> k' -> other_row false k (k', r) = true.
Proof. intros H. unfold other_row. cbn. by rewrite bool_decide_false by done. Qed.

Section Written.
Context (s : server) (t : nat) (n : snapshot) (k : tkey) (r : trow).
Context (Hw : row_written s t n k r).

Lemma written_not_held m : m ∈ others s t -> sn_rows m !! k = None.
Proof.
  intros (t' & Hne & Hm)%others_spec. destruct Hw as [Hl _]. rewrite <- not_true_iff_false, row_locked_spec in Hl.
  destruct (sn_rows m !! k) eqn:E; [| done]. exfalso. apply Hl. eauto 6.
Qed.
Lemma written_keys_apart m : m ∈ others s t -> ~ clash (sn_rows n) (sn_rows m) ->
  ~ clash (<[k := r]> (sn_rows n)) (sn_rows m).
Proof.
  intros Hm Hold (c & k1 & k2 & r1 & r2 & w & Hc & Hne & H1 & H2 & W1 & W2).
  apply lookup_insert_Some in H1 as [[<- <-] | [_ H1]]; [| apply Hold; by exists c, k1, k2, r1, r2, w].
  destruct Hw as (_ & Hu & _). destruct (unique_check_pass _ _ _ _ _ _ _ _ _ Hu Hc W1) as [Hp _].
  apply orb_false_iff in Hp as [Hp _]. pose proof (existsb_false_elem _ _ _ Hp Hm) as Hf. cbn beta in Hf.
  assert ((k2, r2) ∈ map_to_list (sn_rows m)) as H2' by by apply elem_of_map_to_list.
  pose proof (existsb_false_elem _ _ _ Hf H2') as Hg. cbn beta in Hg.
  by rewrite (other_row_ne _ _ r2 Hne), (same_key_true _ _ _ _ W2) in Hg.
Qed.
Lemma written_view_unique : ~ clash (view s n) (view s n) ->
  ~ clash (<[k := r]> (sn_rows n) ∪ sv_rows s) (<[k := r]> (sn_rows n) ∪ sv_rows s).
Proof.
  rewrite <- insert_union_l. fold (view s n).
  assert (forall c k2 r2 w, c ∈ schema -> k <> k2 -> view s n !! k2 = Some r2 ->
    unique_key c k r = Some w -> unique_key c k2 r2 = Some w -> False) as Hno.
  { intros c k2 r2 w Hc Hne H2 W1 W2. destruct Hw as (_ & Hu & _).
    destruct (unique_check_pass _ _ _ _ _ _ _ _ _ Hu Hc W1) as [_ Ht].
    assert ((k2, r2) ∈ map_to_list (view s n)) as H2' by by apply elem_of_map_to_list.
    pose proof (existsb_false_elem _ _ _ Ht H2') as Hg. cbn beta in Hg.
    by rewrite (other_row_ne _ _ r2 Hne), (same_key_true _ _ _ _ W2) in Hg. }
  intros Hold (c & k1 & k2 & r1 & r2 & w & Hc & Hne & H1 & H2 & W1 & W2).
  apply lookup_insert_Some in H1 as [[<- <-] | [N1 H1]], H2 as [[<- <-] | [N2 H2]]; [done | | |].
  - by eapply (Hno c k2 r2 w).
  - by eapply (Hno c k1 r1 w).
  - apply Hold. by exists c, k1, k2, r1, r2, w.
Qed.
End Written.

(** A statement's change keeps the states of sessions apart. *)
Lemma apart_next s t n n' : next_state s t n n' ->
  (forall m, m ∈ others s t -> apart n m) -> forall m, m ∈ others s t -> apart n' m.
Proof.
  intros Hnext Hold m Hm. destruct (Hold m Hm) as [Hr Hi He Hs Hk].
  destruct Hnext as [k r Hw | k r [Hl _] | h Hh | h Hh]; split; cbn; try done.
  - intros k' [<- | H]%lookup_insert_is_Some'; [by eapply written_not_held | by apply Hr].
  - by eapply written_keys_apart.
  - intros k' [<- | H]%lookup_insert_is_Some'; [| by apply Hi].
    destruct (sn_inbox m !! k) eqn:E; [| done]. exfalso.
    rewrite <- not_true_iff_false, inbox_locked_spec in Hl. apply Hl.
    apply others_spec in Hm as (t' & Hne & Hm). eauto 6.
  - intros h' [->%elem_of_singleton | H]%elem_of_union; [by apply Hh | by apply Hs].
  - intros h' [->%elem_of_singleton | H]%elem_of_union; [by apply Hh | by apply He].
Qed.

Lemma view_close t s n : view (close t s) n = view s n.
Proof. done. Qed.
Lemma holds_nobody s t n : sv_sessions s !! t = None -> holds s t n -> False.
Proof. intros Hn (x & Hx & _). congruence. Qed.

(** Committing: the rows of one session become everyone's. *)
Lemma commit_unique t s x : sv_sessions s !! t = Some x -> server_ok s ->
  let rows := sn_rows (se_now x) ∪ sv_rows s in
  ~ clash rows rows /\
  forall t' n, t' <> t -> holds s t' n -> ~ clash (sn_rows n ∪ rows) (sn_rows n ∪ rows).
Proof.
  intros Hx [Hap _ Hv] rows. assert (holds s t (se_now x)) as Hh by (exists x; split; [done | by left]).
  pose proof (Hv t _ Hh) as Hown. split; [exact Hown |].
  intros t' n Hne Hn. pose proof (Hv t' n Hn) as Hview. pose proof (Hap _ _ _ _ Hne Hn Hh) as Hapart.
  assert (forall k r, (sn_rows n ∪ rows) !! k = Some r ->
    sn_rows n !! k = Some r \/ (sn_rows n !! k = None /\ rows !! k = Some r)) as Hcase.
  { intros k r. rewrite lookup_union_Some_raw. naive_solver. }
  assert (forall c k k' r r' w, c ∈ schema -> k <> k' -> sn_rows n !! k = Some r -> sn_rows n !! k' = None ->
    rows !! k' = Some r' -> unique_key c k r = Some w -> unique_key c k' r' = Some w -> False) as Hmixed.
  { intros c k k' r r' w Hc Hk H1 H0 H2 W1 W2.
    apply lookup_union_Some_raw in H2 as [H2 | [_ H2]].
    - apply (ap_keys _ _ Hapart). by exists c, k, k', r, r', w.
    - apply Hview. exists c, k, k', r, r', w. unfold view. rewrite !lookup_union_Some_raw. auto 10. }
  intros (c & k & k' & r & r' & w & Hc & Hk & [H1 | [N1 H1]]%Hcase & [H2 | [N2 H2]]%Hcase & W1 & W2).
  - apply Hview. exists c, k, k', r, r', w. unfold view. rewrite !lookup_union_Some_raw. auto 10.
  - by eapply (Hmixed c k k').
  - by eapply (Hmixed c k' k).
  - apply Hown. by exists c, k, k', r, r', w.
Qed.

Lemma step_ok t s s' : step t s s' -> server_ok s -> server_ok s'.
Proof.
  intros Hstep Hok. pose proof Hok as [Hap Hcm Hv]. destruct Hstep as [Hno | R race st a s' He | | | | k Hk Hno].
  - split; [| done |].
    + apply pairwise_new; [| done]. intros n. split; split; cbn;
        try (intros k [? H]; by rewrite lookup_empty in H); try set_solver;
        try (intros; by rewrite lookup_empty);
        by intros (c & k & k' & r & r' & w & _ & _ & H1 & H2 & _); rewrite lookup_empty in H1 || rewrite lookup_empty in H2.
    + intros t' n [[-> Hn] | [Hne Hn]]%holds_set; [| by eapply Hv].
      apply list_elem_of_singleton in Hn as ->. unfold view. cbn. by rewrite (left_id_L ∅ _).
  - apply exec_effect in He as (x & Hx & [-> | (x' & -> & Hnext)]); [done |]. split; [| done |].
    + eapply pairwise_next; [apply apart_sym | done | done | | done]. intros n'. apply apart_next.
    + assert (forall m, m ∈ held x -> holds s t m) as Hheld by (intros m Hm; by exists x).
      intros t' n [[-> Hn] | [Hne Hn]]%holds_set; [| by eapply Hv].
      destruct Hnext as [[Hs Hnx] | Hsub]; [| by eapply Hv, Hheld, Hsub].
      apply elem_of_cons in Hn as [-> | Hn]; [| eapply Hv, Hheld; right; by rewrite <- Hs].
      assert (~ clash (view s (se_now x)) (view s (se_now x))) as Hu by (eapply Hv, Hheld; by left).
      generalize dependent (se_now x'). intros n' Hnx.
      destruct Hnx as [k r Hw | | |]; [exact (written_view_unique _ _ _ _ _ Hw Hu) | exact Hu ..].
  - unfold fail_session. destruct (sv_sessions s !! t) as [x |] eqn:Hx; [| done].
    assert (forall t' n, holds (set_session t (aborted x) s) t' n -> holds s t' n) as Hh.
    { intros t' n [[-> Hn] | [_ Hn]]%holds_set; [by exists x | done]. }
    split; [by eapply pairwise_holds | done |]. intros t' n Hn. eapply Hv. by apply Hh.
  - unfold commit. destruct (sv_sessions s !! t) as [x |] eqn:Hx; [| done].
    destruct (se_aborted x).
    + split; [by apply pairwise_close | done |]. intros t' n [_ Hn]%holds_close. by eapply Hv.
    + destruct (commit_unique t s x Hx Hok) as [Hu Hus]. split; [| exact Hu |].
      * intros t1 t2 n n' Hne [_ H1]%(holds_close t s) [_ H2]%(holds_close t s). by eapply (Hap t1 t2).
      * intros t' n [Hne Hn]%(holds_close t s). by eapply Hus.
  - split; [by apply pairwise_close | done |]. intros t' n [_ Hn]%holds_close. by eapply Hv.
  - done.
Qed.

(** * What the others leave alone *)
Record undisturbed (t : nat) (s s' : server) : Prop := {
  un_session : sv_sessions s' !! t = sv_sessions s !! t;
  un_rows : forall n k, holds s t n -> is_Some (sn_rows n !! k) -> sv_rows s' !! k = sv_rows s !! k;
  un_inbox : forall n k, holds s t n -> is_Some (sn_inbox n !! k) -> sv_inbox s' !! k = sv_inbox s !! k
}.
#[export] Instance undisturbed_preorder t : PreOrder (undisturbed t).
Proof.
  split; [by split |]. intros a b c [A1 A2 A3] [B1 B2 B3].
  assert (forall n, holds a t n -> holds b t n) as Hh.
  { intros n (x & Hx & Hn). exists x. by rewrite A1. }
  split.
  - by rewrite B1.
  - intros n k Hn Hk. rewrite (B2 n k) by auto. by eapply A2.
  - intros n k Hn Hk. rewrite (B3 n k) by auto. by eapply A3.
Qed.
Lemma undisturbed_own t t' s x : t' <> t -> undisturbed t s (set_session t' x s).
Proof. intros Hne. split; [cbn; by rewrite lookup_insert_ne | done | done]. Qed.

Lemma elsewhere_undisturbed t s s' :
  elsewhere schema least t s s' -> server_ok s -> undisturbed t s s' /\ server_ok s'.
Proof.
  intros (t' & Hne & Hstep) Hok. split; [| by eapply step_ok]. pose proof (ok_apart _ Hok) as Hap.
  destruct Hstep as [Hno | R race st a s' He | | | | k Hk Hno].
  - by apply undisturbed_own.
  - apply exec_effect in He as (x & Hx & [-> | (x' & -> & Hnext)]); [done | by apply undisturbed_own].
  - unfold fail_session. destruct (sv_sessions s !! t'); [by apply undisturbed_own | done].
  - unfold commit. destruct (sv_sessions s !! t') as [x |] eqn:Hx; [| done].
    assert (holds s t' (se_now x)) as Hh by (exists x; split; [done | by left]).
    destruct (se_aborted x); (split; [cbn; by rewrite lookup_delete_ne | |]); cbn; try done;
      intros n k Hn Hk; rewrite lookup_union_r; try done.
    + apply (ap_rows n); [| done]. eapply (Hap t t'); [done | done | done].
    + apply (ap_inbox n); [| done]. eapply (Hap t t'); [done | done | done].
  - split; [cbn; by rewrite lookup_delete_ne | done | done].
  - split; [done | done |]. intros n k' Hn Hk'. cbn. rewrite lookup_delete_ne; [done |]. intros ->.
    rewrite <- not_true_iff_false, inbox_locked_spec in Hk. apply Hk. eauto 6.
Qed.
Lemma elsewheres_undisturbed t s s' :
  rtc (elsewhere schema least t) s s' -> server_ok s -> undisturbed t s s' /\ server_ok s'.
Proof.
  induction 1 as [s | s s1 s' H1 _ IH]; intros Hok; [done |].
  destruct (elsewhere_undisturbed _ _ _ H1 Hok) as [Hu Hok1]. destruct (IH Hok1) as [Hu' Hok'].
  split; [by transitivity s1 | done].
Qed.

(** * Runs of a program *)
Lemma runs_ok {A} t (p : prog A) s a s' : runs schema least t p s a s' -> server_ok s -> server_ok s'.
Proof.
  revert s. induction p as [x | R st k IH]; intros s; cbn; [by intros [_ ->] |].
  intros (s1 & Hel & Hrun) Hok. destruct (elsewheres_undisturbed _ _ _ Hel Hok) as [_ Hok1].
  destruct Hrun as [(race & r & s2 & He & Hr) | (f & _ & Hr)].
  - eapply IH; [done |]. eapply step_ok; [by eapply step_stmt | done].
  - eapply IH; [done |]. eapply step_ok; [by apply (step_fail _ _ t) | done].
Qed.
Section AnyEnvironment.
Context (env : server -> server -> Prop).
Lemma runs_bind {A B} t (p : prog A) (f : A -> prog B) s b s' :
  runs_in schema least env t (p ≫= f) s b s' <->
  exists a s1, runs_in schema least env t p s a s1 /\ runs_in schema least env t (f a) s1 b s'.
Proof.
  revert s. induction p as [x | R st k IH]; intros s; cbn.
  - split; [by eauto 6 | by intros (a & s1 & [<- ->] & H)].
  - split.
    + intros (s1 & Hel & [(race & r & s2 & He & Hr) | (g & Hg & Hr)]); apply IH in Hr as (a & s3 & Hp & Hf);
        exists a, s3; (split; [| done]); exists s1; (split; [done |]); [left | right]; eauto 8.
    + intros (a & s3 & (s1 & Hel & [(race & r & s2 & He & Hr) | (g & Hg & Hr)]) & Hf);
        exists s1; (split; [done |]); [left; exists race, r, s2 | right; exists g]; (split; [done |]); apply IH; eauto.
Qed.
Lemma runs_ret {A} t (x : A) s a s' : runs_in schema least env t (mret x) s a s' <-> x = a /\ s' = s.
Proof. done. Qed.
(** One statement: the others run, then it answers or fails. *)
Lemma runs_stmt {R} t (st : stmt R) s r s' :
  runs_in schema least env t (stmt_ st) s r s' <->
  exists s1, rtc env s s1 /\
    ((exists race, exec race st s1 t = Some (r, s')) \/
     (exists f, r = inl f /\ state_of f <> Some uniqueViolation /\ s' = fail_session t s1)).
Proof.
  cbn. split.
  - intros (s1 & Hel & [(race & a & s2 & He & <- & ->) | (f & Hf & <- & ->)]);
      exists s1; (split; [done |]); [left; by exists race | right; by exists f].
  - intros (s1 & Hel & [(race & He) | (f & -> & Hf & ->)]);
      exists s1; (split; [done |]); [left; by exists race, r, s' | right; by exists f].
Qed.
(** A run whose environment does no more than another may. *)
Lemma runs_mono {A} (env' : server -> server -> Prop) t (p : prog A) s a s' :
  (forall x y, env x y -> env' x y) ->
  runs_in schema least env t p s a s' -> runs_in schema least env' t p s a s'.
Proof.
  intros He. revert s. induction p as [x | R st k IH]; intros s; cbn; [done |].
  intros (s1 & Hel & Hrun). exists s1. split; [by eapply rtc_subrel; [| exact Hel] |].
  destruct Hrun as [(race & r & s2 & Hx & Hr) | (g & Hg & Hr)]; [left; eauto 8 | right; eauto].
Qed.
End AnyEnvironment.

(** ** A session alone

    The program run by itself, no statement failing for another reason. *)
Fixpoint alone {A} (t : nat) (p : prog A) (s : server) : option (A * server) :=
  match p with
  | Ret a => Some (a, s)
  | Do st k =>
      match exec false st s t with
      | Some (r, s') => alone t (k r) s'
      | None => None
      end
  end.
Definition alone_answer {A} (t : nat) (p : prog A) (s : server) : option A := fst <$> alone t p s.
Definition alone_server {A} (t : nat) (p : prog A) (s : server) : server :=
  match alone t p s with Some (_, s') => s' | None => s end.
Lemma alone_runs {A} {env} t (p : prog A) s a :
  alone_answer t p s = Some a -> runs_in schema least env t p s a (alone_server t p s).
Proof.
  unfold alone_answer, alone_server. revert s. induction p as [x | R st k IH]; intros s; cbn; [by intros [= <-] |].
  destruct (exec false st s t) as [[r s'] |] eqn:He; [| done]. intros H.
  exists s. split; [done |]. left. exists false, r, s'. split; [done |]. specialize (IH r s').
  by destruct (alone t (k r) s') as [[b s2] |]; [apply IH |].
Qed.
End Server.
