(* ===== verification/PgTableTheorems.v ===== *)
(** What the Postgres tables promise while any number of transactions
    interleave: no update is lost, no committed state breaks a declared
    constraint, a series read under its guard stays as it was read, and the
    lock of a guard is the tenant's own; and what its inbox does. *)

From stdpp Require Import relations.
From S2P Require Import Prelude GoTime GoStrings DomainKernel Errors Ports Interfaces PgServer PgTable Fixture PgServerTheorems.

Section Theorems.
Context (schema : list constraint) (least : list string -> option string) (hashtextextended : string -> Z).
Notation runs t := (runs_in schema least (PgServer.elsewhere schema least t) t).
Notation elsewhere := (elsewhere schema least).
Notation anywhere := (anywhere schema least).
Notation server_ok := (server_ok schema).

Definition empty_server : server := mkServer ∅ ∅ ∅.
Lemma empty_server_ok : server_ok empty_server.
Proof.
  split.
  - intros t t' n n' _ (x & Hx & _). cbn in Hx. by rewrite lookup_empty in Hx.
  - intros (c & k & k' & r & r' & w & _ & _ & H & _). cbn in H. by rewrite lookup_empty in H.
  - intros t n (x & Hx & _). cbn in Hx. by rewrite lookup_empty in Hx.
Qed.
Lemma reachable_ok s : rtc anywhere empty_server s -> server_ok s.
Proof.
  revert s. apply rtc_ind_r; [apply empty_server_ok |]. intros s s' _ [t Hs] Hok. by eapply step_ok.
Qed.

(** Whatever transactions interleave, with savepoints, aborts, retries, deadlocks
    and lost connections, two rows of a committed table never hold the same key
    of a unique constraint of the schema. *)
Theorem committed_rows_unique s c k k' r r' w
  (Hrun : rtc anywhere empty_server s) (Hc : c ∈ schema)
  (Hk : sv_rows s !! k = Some r) (Hk' : sv_rows s !! k' = Some r')
  (Hw : unique_key c k r = Some w) (Hw' : unique_key c k' r' = Some w) :
  k = k'.
Proof.
  destruct (decide (k = k')) as [| Hne]; [done | exfalso].
  apply (ok_committed _ _ (reachable_ok _ Hrun)). by exists c, k, k', r, r', w.
Qed.

(** * The write of a Save *)
Section Save.
Context {S : Type} (tb : Table S) (t : nat) (k : tkey).

Definition committed_version (s : server) : Z :=
  match sv_rows s !! k with Some r => tr_version r | None => 0 end.
(** The transaction has not written the row; it has, over the version [e]. *)
Definition before (s : server) : Prop :=
  exists x, sv_sessions s !! t = Some x /\ sn_rows (se_now x) !! k = None.
Definition after (e : Z) (columns : gmap string value) (s : server) : Prop :=
  exists x r, sv_sessions s !! t = Some x /\ se_aborted x = false /\ sn_rows (se_now x) !! k = Some r /\
    tr_version r = e + 1 /\ columns ⊆ tr_columns r /\ committed_version s = e.

Lemma before_elsewhere s s' : undisturbed t s s' -> before s -> before s'.
Proof. intros [Hs _ _] (x & Hx & Hk). exists x. by rewrite Hs. Qed.
Lemma after_elsewhere e columns s s' : undisturbed t s s' -> after e columns s -> after e columns s'.
Proof.
  intros [Hs Hr _] (x & r & Hx & Ha & Hk & Hv & Hc & He). exists x, r. rewrite Hs.
  split_and!; try done. unfold committed_version in *. rewrite (Hr (se_now x) k); [done | | eauto].
  exists x. split; [done | by left].
Qed.

(** A statement that writes no row of the transaction. *)
Definition keeps_rows {R} (st : stmt R) : bool :=
  match st with
  | InsertRow _ _ | UpdateRow _ _ _ _ | RollbackTo => false
  | _ => true
  end.
Lemma keeps_rows_exec {R} (st : stmt R) race s x a s' :
  keeps_rows st = true -> sv_sessions s !! t = Some x -> exec schema least race st s t = Some (inr a, s') ->
  exists x', sv_sessions s' !! t = Some x' /\ sn_rows (se_now x') = sn_rows (se_now x) /\
    se_aborted x = false /\ se_aborted x' = false /\ sv_rows s' = sv_rows s.
Proof.
  intros Hkeep Hx. unfold exec. rewrite Hx. destruct (se_aborted x) eqn:Ea; [by destruct st |].
  assert (forall x', sn_rows (se_now x') = sn_rows (se_now x) -> se_aborted x' = false ->
    exists x'', sv_sessions (set_session t x' s) !! t = Some x'' /\ sn_rows (se_now x'') = sn_rows (se_now x) /\
      false = false /\ se_aborted x'' = false /\ sv_rows (set_session t x' s) = sv_rows s) as Hset.
  { intros x' Hr Ha'. exists x'. cbn. by rewrite lookup_insert_eq. }
  assert (exists x', sv_sessions s !! t = Some x' /\ sn_rows (se_now x') = sn_rows (se_now x) /\
    false = false /\ se_aborted x' = false /\ sv_rows s = sv_rows s) as Hsame by by exists x.
  destruct st; try done; cbn; unfold lock, put_inbox; intros He; repeat case_match; simplify_eq;
    try exact Hsame; apply Hset; done.
Qed.
Lemma keeps_rows_run {R} (st : stmt R) a s s' :
  keeps_rows st = true -> server_ok s -> runs t (stmt_ st) s (inr a) s' ->
  server_ok s' /\ (before s -> before s') /\ (forall e columns, after e columns s -> after e columns s').
Proof.
  intros Hkeep Hok Hrun. pose proof (runs_ok _ _ _ _ _ _ _ Hrun Hok) as Hok'.
  apply runs_stmt in Hrun as (s1 & Hel & [(race & He) | (f & [=] & _)]).
  destruct (elsewheres_undisturbed _ _ _ _ _ Hel Hok) as [Hu _]. split_and!; [done | |].
  - intros Hb. destruct (before_elsewhere _ _ Hu Hb) as (x & Hx & Hk).
    destruct (keeps_rows_exec _ _ _ _ _ _ Hkeep Hx He) as (x' & Hx' & Hr & _). exists x'. by rewrite Hr.
  - intros e columns Ha. destruct (after_elsewhere _ _ _ _ Hu Ha) as (x & r & Hx & Hab & Hk & Hv & Hc & Hcm).
    destruct (keeps_rows_exec _ _ _ _ _ _ Hkeep Hx He) as (x' & Hx' & Hr & _ & Hab' & Hsv).
    exists x', r. rewrite Hr. unfold committed_version. by rewrite Hsv.
Qed.

(** The write that affects a row finds the version the caller expected. *)
Lemma put_row_applied s x self r a s' :
  put_row schema s t x self k r = Some (inr a, s') ->
  s' = set_session t (set_now x (mkSnap (<[k := r]> (sn_rows (se_now x))) (sn_inbox (se_now x))
                                   (sn_shared (se_now x)) (sn_exclusive (se_now x)))) s.
Proof. unfold put_row. by destruct (unique_check _ _ _ _ _ _ _); intros [=]. Qed.
Lemma put_row_after s x r a s' e columns :
  put_row schema s t x false k r = Some (inr a, s') -> se_aborted x = false ->
  tr_version r = e + 1 -> columns ⊆ tr_columns r -> committed_version s = e -> after e columns s'.
Proof.
  intros ->%put_row_applied Ha Hv Hc He. eexists _, r. split_and!; [apply lookup_insert_eq | done | | done | done | done].
  apply lookup_insert_eq.
Qed.
Lemma write_run (w : write) a s s' :
  wr_key w = k -> 0 <= wr_expected w <= max_int64 -> a <> 0 ->
  server_ok s -> runs t (stmt_ (write_stmt tb w)) s (inr a) s' -> before s ->
  server_ok s' /\ after (wr_expected w) (wr_columns w) s'.
Proof.
  intros Hk He Ha Hok Hrun Hb. split; [by eapply runs_ok |].
  apply runs_stmt in Hrun as (s1 & Hel & [(race & Hex) | (f & [=] & _)]).
  destruct (elsewheres_undisturbed _ _ _ _ _ Hel Hok) as [Hu _].
  destruct (before_elsewhere _ _ Hu Hb) as (x & Hx & Hnone).
  unfold exec in Hex. rewrite Hx in Hex. unfold write_stmt in Hex. rewrite Hk in Hex.
  assert (view s1 (se_now x) !! k = sv_rows s1 !! k) as Hview by by unfold view; rewrite lookup_union_r.
  destruct (Z.eqb_spec (wr_expected w) 0) as [H0 | H0]; destruct (se_aborted x) eqn:Eab; try done; cbn in Hex.
  - unfold exec_insert in Hex. destruct (row_locked s1 t k); [done |]. rewrite Hview in Hex.
    destruct (sv_rows s1 !! k) eqn:Hc.
    + destruct race; [| congruence]. by destruct (unique_check _ _ _ _ _ _ _); simplify_eq.
    + eapply put_row_after; [exact Hex | done | cbn; lia | done |]. unfold committed_version. by rewrite Hc.
  - unfold exec_update in Hex. rewrite Hview in Hex. destruct (sv_rows s1 !! k) as [old |] eqn:Hc; [| congruence].
    destruct ((tr_version old =? _) && _) eqn:Hm; [| congruence].
    destruct (row_locked s1 t k); [done |]. rewrite wrap64_id in * by by unfold in_int64, min_int64 in *; lia.
    case_match; [congruence |]. apply andb_true_iff in Hm as [Hm%Z.eqb_eq _].
    eapply put_row_after; [exact Hex | done | done | apply map_union_subseteq_l |].
    unfold committed_version. by rewrite Hc.
Qed.

(** What leads to the write leaves the row unwritten. *)
Definition leads {A} (p : prog A) (a : A) : Prop :=
  forall s s', server_ok s -> before s -> runs t p s a s' -> server_ok s' /\ before s'.
Lemma stmt_leads {R} (st : stmt R) r : keeps_rows st = true -> leads (stmt_ st) (inr r).
Proof. intros Hk s s' Hok Hb Hrun. destruct (keeps_rows_run _ _ _ _ Hk Hok Hrun) as (Hok' & H & _). auto. Qed.
Lemma prepare_all_leads sqls : leads (prepare_all sqls) None.
Proof.
  induction sqls as [| sql sqls IH]; intros s s' Hok Hb; [by intros [_ ->] |].
  cbn [prepare_all]. rewrite runs_bind. intros ([f | []] & s1 & H1 & H2); [by destruct H2 |].
  destruct (stmt_leads (Prepare sql) _ eq_refl _ _ Hok Hb H1) as [Hok1 Hb1]. by eapply IH.
Qed.
Lemma take_guard_leads g : leads (take_guard g) None.
Proof.
  destruct g as [h |]; intros s s' Hok Hb; [| by intros [_ ->]].
  cbn [take_guard]. rewrite runs_bind. intros ([f | []] & s1 & H1 & H2); [by destruct H2 |].
  destruct H2 as [_ ->]. by eapply (stmt_leads (LockExclusive h)).
Qed.
Lemma pin_leads p sql g plan : leads (pin p sql g) (None, plan).
Proof.
  intros s s' Hok Hb. unfold pin. destruct (negb (plan_pins p)); [by intros [_ ->] |].
  rewrite runs_bind. intros (failed & s1 & H1 & [[= -> _] ->]). by eapply prepare_all_leads.
Qed.

Lemma settle_ok tx affected tx' : settle tx affected = (Ok (), tx') -> affected <> 0.
Proof. unfold settle. by destruct (Z.eqb_spec affected 0). Qed.

Section Outcome.
Context (w : write) (Hwk : wr_key w = k) (Hwe : 0 <= wr_expected w <= max_int64).
(** A run that answers nil has written the row over the version expected. *)
Definition replaces (p : prog (result error unit * Tx)) : Prop :=
  forall s s' tx', server_ok s -> before s -> runs t p s (Ok (), tx') s' ->
    server_ok s' /\ after (wr_expected w) (wr_columns w) s'.

Lemma write_and_release_replaces tx : replaces (write_and_release tb tx w).
Proof.
  intros s s' tx' Hok Hb. unfold write_and_release. rewrite runs_bind.
  intros ([f | affected] & s1 & H1 & H2).
  - apply runs_bind in H2 as (e & s2 & _ & H3). by destruct H3.
  - apply runs_bind in H2 as ([f | []] & s2 & H2 & H3); destruct H3 as [H3 ->]; [done |].
    apply settle_ok in H3. destruct (write_run w _ _ _ Hwk Hwe H3 Hok H1 Hb) as [Hok1 Ha].
    destruct (keeps_rows_run Release _ _ _ eq_refl Hok1 H2) as (Hok2 & _ & Hkeep). auto.
Qed.
Lemma saveUnderSavepoint_replaces stmts tx g : replaces (saveUnderSavepoint tb stmts tx w g).
Proof.
  intros s s' tx' Hok Hb. unfold saveUnderSavepoint. cbv zeta. rewrite runs_bind.
  intros ([f |] & s1 & H1 & H2); [by destruct (_ && _); destruct H2 |].
  destruct (take_guard_leads _ _ _ Hok Hb H1) as [Hok1 Hb1].
  apply runs_bind in H2 as ([f | []] & s2 & H2 & H3); [by destruct H3 |].
  destruct (stmt_leads Savepoint _ eq_refl _ _ Hok1 Hb1 H2) as [Hok2 Hb2].
  destruct (inline _ _); [by eapply write_and_release_replaces |].
  apply runs_bind in H3 as ([[f |] plan] & s3 & H3 & H4).
  - apply runs_bind in H4 as (e & s4 & _ & H5). by destruct H5.
  - destruct (pin_leads _ _ _ _ _ _ Hok2 Hb2 H3) as [Hok3 Hb3]. by eapply write_and_release_replaces.
Qed.
Lemma saveGuarded_replaces tx h : replaces (saveGuarded tb tx w h).
Proof.
  intros s s' tx' Hok Hb. unfold saveGuarded. rewrite runs_bind.
  intros ([f | []] & s1 & H1 & H2); [by destruct H2 |].
  destruct (stmt_leads (LockExclusive h) _ eq_refl _ _ Hok Hb H1) as [Hok1 Hb1].
  apply runs_bind in H2 as ([f | affected] & s2 & H2 & H3); destruct H3 as [H3 ->]; [done |].
  apply settle_ok in H3. by eapply write_run.
Qed.
Lemma plain_replaces tx : replaces (answer ← stmt_ (write_stmt tb w); mret (written tx answer)).
Proof.
  intros s s' tx' Hok Hb. rewrite runs_bind. intros ([f | affected] & s1 & H1 & [H2 ->]); [done |].
  apply settle_ok in H2. by eapply write_run.
Qed.
End Outcome.
End Save.

Lemma conflictOnDeadlock_ok {A} tx (r : result error A) a : conflictOnDeadlock tx r = Ok a -> r = Ok a.
Proof. destruct r; cbn; try done. by destruct (_ && _). Qed.
Lemma commit_row t x (s : server) k r :
  sv_sessions s !! t = Some x -> se_aborted x = false -> sn_rows (se_now x) !! k = Some r ->
  sv_rows (commit t s) !! k = Some r.
Proof.
  intros Hx Ha Hk. unfold commit. rewrite Hx, Ha. cbn. by apply lookup_union_Some_l.
Qed.

(** C7: A Save that answers nil, under any interleaving of other transactions before,
    between and after its statements: when its transaction commits, the row it
    replaces is still the version the caller expected (none, for version 0), and
    the row it leaves is the next version with the columns it encoded. Two
    decisions over one version therefore never both commit. *)
Theorem Save_loses_no_update {S} (tb : Table S) t stmts tx ctx tenant_ id state expected values s tx' s1 s2
  (Hok : rtc anywhere empty_server s)
  (Hbefore : before t (row_key tb tenant_ id) s)
  (Htenant : tenantOf ctx = Ok tenant_) (Hexp : 0 <= expected <= max_int64)
  (Hencode : forall encode, t_Encode tb = Some encode -> encode state = Ok values)
  (Hrun : runs t (Save hashtextextended tb stmts tx ctx id state expected) s (Ok (), tx') s1)
  (Hothers : rtc (elsewhere t) s1 s2) :
  committed_version (row_key tb tenant_ id) s2 = expected /\
  exists r, sv_rows (commit t s2) !! row_key tb tenant_ id = Some r /\
    tr_version r = expected + 1 /\ state_columns tb values ⊆ tr_columns r.
Proof.
  apply reachable_ok in Hok. unfold Save in Hrun. rewrite Htenant in Hrun. unfold saveAs in Hrun.
  destruct (t_Encode tb) as [encode |]; [| by destruct Hrun]. rewrite (Hencode _ eq_refl) in Hrun.
  destruct (negb _); [by destruct Hrun |].
  set (w := mkWrite (row_key tb tenant_ id) expected (state_columns tb values)) in *.
  destruct (guard_of _ _ _ _) as [g | |]; [| by destruct Hrun | by destruct Hrun].
  cbv zeta in Hrun. apply runs_bind in Hrun as ([answer tx1] & s3 & Hrun & [Hans ->]).
  injection Hans as Hans _. apply conflictOnDeadlock_ok in Hans as ->.
  assert (server_ok s3 /\ after t (row_key tb tenant_ id) expected (state_columns tb values) s3) as [Hok3 Ha].
  { destruct (t_Unique tb); [destruct g |].
    - by eapply (saveGuarded_replaces tb t _ w).
    - by eapply (plain_replaces tb t _ w).
    - by eapply (saveUnderSavepoint_replaces tb t _ w). }
  destruct (elsewheres_undisturbed _ _ _ _ _ Hothers Hok3) as [Hu _].
  destruct (after_elsewhere _ _ _ _ _ _ Hu Ha) as (x & r & Hx & Hab & Hk & Hv & Hc & He).
  split; [done |]. exists r. split_and!; [by eapply commit_row | done | done].
Qed.
End Theorems.

(** * A concrete table

    Rooms, one value each, with a unique constraint or a guard; the hash of a
    lock's text is its length. *)
Module PgFixture.
Local Open Scope string_scope.
Definition taken_room : Unique :=
  PgTable.mkUnique "rooms_tenant_id_room_key" ["tenant_id"; "room"] (Some (Reject "rooms/taken" "" [])).
Definition rooms (us : list Unique) (guard : string) : Table string :=
  PgTable.mkTable "rooms" "id" ["room"] (Some (fun s => Ok [Text s]))
    (Some (fun vs => match vs with [Text s] => Ok s | _ => Err (Opaque "scan") end)) None us guard.
Definition schema : list constraint := [mkConstraint "rooms" "rooms_tenant_id_room_key" ["room"]].
Definition least (l : list string) : option string := head l.
Definition hash (s : string) : Z := len (bytes_of s).
Definition no_stmts : statements := mkStatements "" "" "" "" "".
Definition tx : Tx := PgTable.mkTx 0 false (mkPlan true false []).
Definition ctx : Ctx := Fixture.Fixture.ctx "t1" "k".
Definition begun (t : nat) (s : server) : server := set_session t new_session s.
Lemma begun_reachable t s :
  sv_sessions s !! t = None -> rtc (anywhere schema least) empty_server s ->
  rtc (anywhere schema least) empty_server (begun t s).
Proof. intros Hno Hs. eapply rtc_r; [done |]. exists t. by apply step_begin. Qed.
Definition save_room : prog (result error unit * Tx) := Save hash (rooms [taken_room] "") no_stmts tx ctx "r1" "101" 0.
Definition saved_room : server := alone_server schema least 1 save_room (begun 1 empty_server).
End PgFixture.
Import PgFixture.

Lemma Save_loses_no_update_witness :
  alone_answer schema least 1 save_room (begun 1 empty_server) = Some (Ok (), one_more_write tx) /\
  committed_version ("rooms", ("t1", "r1")) saved_room = 0.
Proof.
  split; [vm_compute; reflexivity |].
  refine (proj1 (Save_loses_no_update schema least hash (rooms [taken_room] "") 1 no_stmts tx ctx "t1" "r1" "101" 0
    [Text "101"] (begun 1 empty_server) (one_more_write tx) saved_room saved_room _ _ _ _ _ _ _)).
  - apply begun_reachable; [reflexivity | apply rtc_refl].
  - exists new_session. split; reflexivity.
  - vm_compute. reflexivity.
  - vm_compute. split; discriminate.
  - intros encode [= <-]. reflexivity.
  - apply alone_runs. vm_compute. reflexivity.
  - apply rtc_refl.
Defined.

(** The room committed, in a run of the server. *)
Lemma run_reachable {A} (p : prog A) t s a :
  alone_answer schema least t p s = Some a -> rtc (anywhere schema least) s (alone_server schema least t p s).
Proof.
  unfold alone_answer, alone_server. revert s. induction p as [x | R st k IH]; intros s; cbn; [done |].
  destruct (exec schema least false st s t) as [[r s'] |] eqn:He; [| done]. intros H. specialize (IH r s' H).
  destruct (alone schema least t (k r) s') as [[b s2] |]; [| done].
  eapply rtc_l; [| exact IH]. exists t. by eapply step_stmt.
Qed.
Definition committed_room : server := commit 1 saved_room.
Definition room_row : trow := mkTrow 1 {["room" := Text "101"]}.
Lemma committed_rows_unique_witness :
  unique_key (mkConstraint "rooms" "rooms_tenant_id_room_key" ["room"]) ("rooms", ("t1", "r1")) room_row
    = Some ("t1", [Text "101"]) /\ ("rooms", ("t1", "r1")) = ("rooms", ("t1", "r1")).
Proof.
  assert (sv_rows committed_room !! ("rooms", ("t1", "r1")) = Some room_row) as Hrow.
  { apply (bool_decide_eq_true_1 (sv_rows committed_room !! _ = _)). vm_compute. reflexivity. }
  split; [vm_compute; reflexivity |].
  refine (committed_rows_unique schema least committed_room (mkConstraint "rooms" "rooms_tenant_id_room_key" ["room"])
    ("rooms", ("t1", "r1")) ("rooms", ("t1", "r1")) room_row room_row ("t1", [Text "101"]) _ _ Hrow Hrow _ _).
  - eapply rtc_r; [| exists 1%nat; by apply step_commit].
    etransitivity; [apply (begun_reachable 1 empty_server); [reflexivity | apply rtc_refl] |].
    eapply run_reachable. vm_compute. reflexivity.
  - apply elem_of_cons. left. reflexivity.
  - vm_compute. reflexivity.
  - vm_compute. reflexivity.
Defined.

(** The inbox over Postgres: while any number of transactions interleave, a
    first reception is one transaction's alone until it ends, and what a
    repetition is told was committed by another. *)

Section Inbox.
Context (schema : list constraint) (least : list string -> option string).
Notation runs t := (runs_in schema least (PgServer.elsewhere schema least t) t).
Notation elsewhere := (elsewhere schema least).
Notation server_ok := (server_ok schema).

(** The row is the first reception of its key: what it replaces is expired. *)
Definition replaceable (i : inbox) (r : Receipt) (old : option irow) : Prop :=
  match old with
  | None => True
  | Some row => in_commands i = true /\ exists e, ib_expires_at row = Some e /\ e <= rcp_ReceivedAt r
  end.
Definition row_of_receipt (i : inbox) (r : Receipt) : irow :=
  provisional r (if in_commands i then Some (rcp_ExpiresAt r) else None).

Section Key.
Context (t : nat) (k : ikey).
Definition untaken (s : server) : Prop :=
  exists x, sv_sessions s !! t = Some x /\ sn_inbox (se_now x) !! k = None.
Definition taken_by (i : inbox) (r : Receipt) (s : server) : Prop :=
  exists x, sv_sessions s !! t = Some x /\ se_aborted x = false /\
    sn_inbox (se_now x) !! k = Some (row_of_receipt i r) /\ replaceable i r (sv_inbox s !! k).
Lemma untaken_elsewhere s s' : undisturbed t s s' -> untaken s -> untaken s'.
Proof. intros Hu (x & Hx & Hk). exists x. by rewrite (un_session _ _ _ Hu). Qed.
Lemma taken_elsewhere i r s s' : undisturbed t s s' -> taken_by i r s -> taken_by i r s'.
Proof.
  intros Hu (x & Hx & Ha & Hk & Hr). exists x. rewrite (un_session _ _ _ Hu), (un_inbox _ _ _ Hu (se_now x) k);
    [done | exists x; split; [done | by left] | eauto].
Qed.

(** The statements around the insert leave the server as it is. *)
Definition quiet {R} (st : stmt R) : bool :=
  match st with SetLockTimeout _ | ResetLockTimeout | SelectInbox _ => true | _ => false end.
Lemma quiet_exec {R} (st : stmt R) race s a s' :
  quiet st = true -> exec schema least race st s t = Some (inr a, s') -> s' = s.
Proof.
  unfold exec. destruct (sv_sessions s !! t) as [x |]; [| done].
  destruct (se_aborted x), st; cbn; congruence.
Qed.
Lemma when_waiting_run wait st s s' :
  quiet st = true -> server_ok s -> runs t (when_waiting wait st) s None s' ->
  server_ok s' /\ undisturbed t s s'.
Proof.
  unfold when_waiting. intros Hq Hok. destruct (0 <? wait); [| by intros [_ ->]].
  rewrite runs_bind. intros ([f | []] & s1 & H1 & [Ha ->]); [done |].
  apply runs_stmt in H1 as (s2 & Hel & [(race & He) | (f & [=] & _)]).
  apply quiet_exec in He as ->; [| done]. by destruct (elsewheres_undisturbed _ _ _ _ _ Hel Hok).
Qed.

(** The insert that takes the row. *)
Lemma put_inbox_taken i r s x a s' :
  sv_sessions s !! t = Some x -> se_aborted x = false -> replaceable i r (sv_inbox s !! k) ->
  put_inbox s t x k (row_of_receipt i r) = (a, s') -> taken_by i r s'.
Proof.
  intros Hx Ha Hr [= _ <-]. eexists. cbn. rewrite lookup_insert_eq. split_and!; [done | done | | done].
  cbn. by rewrite lookup_insert_eq.
Qed.
Lemma insert_taken i ctx now r g s a s' :
  registration_of i ctx now r = Ok g -> rg_key g = k -> a <> 0 ->
  server_ok s -> untaken s -> runs t (stmt_ (rg_insert g)) s (inr a) s' -> taken_by i r s' /\ server_ok s'.
Proof.
  intros Hg Hk Ha Hok Hu Hrun. split; [| by eapply runs_ok].
  apply runs_stmt in Hrun as (s1 & Hel & [(race & He) | (f & [=] & _)]).
  destruct (elsewheres_undisturbed _ _ _ _ _ Hel Hok) as [Hd _].
  destruct (untaken_elsewhere _ _ Hd Hu) as (x & Hx & Hn).
  assert (inbox_view s1 (se_now x) !! k = sv_inbox s1 !! k) as Hview by by unfold inbox_view; rewrite lookup_union_r.
  unfold registration_of in Hg. destruct (String.eqb _ _); [done |]. destruct (negb _); [done |].
  unfold exec in He. rewrite Hx in He. destruct (in_commands i) eqn:Ec.
  - destruct (_ <=? _); [done |]. destruct (tenantOf ctx) as [tenant_ | |]; [| done | done]. cbn in Hg. injection Hg as <-.
    cbn in Hk. destruct (se_aborted x) eqn:Eab; [done |]. cbn in He. rewrite Hk, Hview in He.
    destruct (inbox_locked s1 t k); [done |]. assert (row_of_receipt i r = provisional r (Some (rcp_ExpiresAt r))) as Hrow
      by by unfold row_of_receipt; rewrite Ec.
    rewrite <- Hrow in He. destruct (sv_inbox s1 !! k) as [old |] eqn:Eo.
    + destruct (ib_expires_at old) as [e |] eqn:Ee; [| congruence].
      destruct (Z.leb_spec e (rcp_ReceivedAt r)) as [Hle |]; [| congruence]. injection He as <- <-.
      eapply put_inbox_taken; [done | done | | done]. rewrite Eo. split; [done |]. exists e. done.
    + injection He as <- <-. eapply put_inbox_taken; [done | done | by rewrite Eo | done].
  - injection Hg as <-. cbn in Hk. destruct (se_aborted x) eqn:Eab; [done |]. cbn in He. rewrite Hk, Hview in He.
    destruct (inbox_locked s1 t k); [done |]. assert (row_of_receipt i r = provisional r None) as Hrow
      by by unfold row_of_receipt; rewrite Ec.
    rewrite <- Hrow in He. destruct (sv_inbox s1 !! k) as [old |] eqn:Eo; [congruence |].
    injection He as <- <-. eapply put_inbox_taken; [done | done | by rewrite Eo | done].
Qed.

(** An insert that took no row leaves the session as it was. *)
Lemma insert_missed i ctx now r g s s' a :
  registration_of i ctx now r = Ok g -> a <> 1 ->
  server_ok s -> untaken s -> runs t (stmt_ (rg_insert g)) s (inr a) s' -> untaken s' /\ server_ok s'.
Proof.
  intros Hg Ha Hok Hu Hrun. split; [| by eapply runs_ok].
  apply runs_stmt in Hrun as (s1 & Hel & [(race & He) | (f & [=] & _)]).
  destruct (elsewheres_undisturbed _ _ _ _ _ Hel Hok) as [Hd _].
  destruct (untaken_elsewhere _ _ Hd Hu) as (x & Hx & Hn).
  assert (s' = s1) as ->; [| by exists x].
  unfold registration_of in Hg. destruct (String.eqb _ _); [done |]. destruct (negb _); [done |].
  unfold exec in He. rewrite Hx in He. destruct (in_commands i).
  - destruct (_ <=? _); [done |]. destruct (tenantOf ctx) as [tenant_ | |]; [| done | done]. cbn in Hg. injection Hg as <-.
    destruct (se_aborted x); [done |]. cbn in He. unfold put_inbox in He. repeat case_match; congruence.
  - injection Hg as <-. destruct (se_aborted x); [done |]. cbn in He. unfold put_inbox in He. repeat case_match; congruence.
Qed.
Lemma select_run s s' row :
  server_ok s -> untaken s -> runs t (stmt_ (SelectInbox k)) s (inr row) s' -> row = sv_inbox s' !! k.
Proof.
  intros Hok Hu (s1 & Hel & [(race & He) | (f & [=] & _)])%runs_stmt.
  destruct (elsewheres_undisturbed _ _ _ _ _ Hel Hok) as [Hd _].
  destruct (untaken_elsewhere _ _ Hd Hu) as (x & Hx & Hn).
  unfold exec in He. rewrite Hx in He. destruct (se_aborted x); [done |]. cbn in He. injection He as <- <-.
  unfold inbox_view. by rewrite lookup_union_r.
Qed.

Lemma taken_exclusive i r s : server_ok s -> taken_by i r s -> inbox_locked s t k = false.
Proof.
  intros Hok (x & Hx & _ & Hk & _). apply not_true_iff_false. rewrite inbox_locked_spec.
  intros (t' & n & Hne & Hn & Hk'). assert (holds s t (se_now x)) as Hh by (exists x; split; [done | by left]).
  destruct Hk' as [row Hk']. pose proof (ap_inbox _ _ _ (ok_apart _ _ Hok t t' _ _ ltac:(done) Hh Hn) k ltac:(eauto)).
  congruence.
Qed.
Lemma taken_commits i r s : taken_by i r s -> sv_inbox (commit t s) !! k = Some (row_of_receipt i r).
Proof.
  intros (x & Hx & Ha & Hk & _). unfold commit. rewrite Hx, Ha. cbn. by apply lookup_union_Some_l.
Qed.
End Key.

(** C8: A reception that Register answers as the first is its transaction's alone:
    until it ends, through any interleaving, no other session holds the
    message's row and no committed row of it is live (an event's is absent, a
    command's absent or expired at the reception); a commit leaves the row of the
    receipt, which every later delivery finds. Two transactions therefore never
    both treat one message as the first. *)
Theorem first_reception_is_exclusive i ctx now r g t s p s1 s2
  (Hreach : rtc (anywhere schema least) empty_server s)
  (Hg : registration_of i ctx now r = Ok g)
  (Hnew : untaken t (rg_key g) s)
  (Hrun : runs t (Register i ctx now r) s (Ok (First p)) s1)
  (Hothers : rtc (elsewhere t) s1 s2) :
  pe_key p = rg_key g /\ replaceable i r (sv_inbox s2 !! rg_key g) /\ inbox_locked s2 t (rg_key g) = false /\
  sv_inbox (commit t s2) !! rg_key g = Some (row_of_receipt i r).
Proof.
  pose proof (reachable_ok _ _ _ Hreach) as Hok. unfold Register in Hrun. rewrite Hg in Hrun.
  apply runs_bind in Hrun as ([f |] & sa & H1 & Hrun); [by destruct Hrun |].
  destruct (when_waiting_run _ _ (SetLockTimeout _) _ _ eq_refl Hok H1) as [Hoka Hua].
  pose proof (untaken_elsewhere _ _ _ _ Hua Hnew) as Hta.
  apply runs_bind in Hrun as ([f | affected] & sb & H2 & Hrun); [by destruct Hrun |].
  apply runs_bind in Hrun as ([f |] & sc & H3 & Hrun); [by destruct Hrun |].
  destruct (Z.eqb_spec affected 1) as [-> | _].
  - destruct Hrun as [[= <-] ->].
    destruct (insert_taken _ _ _ _ _ _ _ _ 1 _ Hg eq_refl ltac:(done) Hoka Hta H2) as [Htb Hokb].
    destruct (when_waiting_run _ _ ResetLockTimeout _ _ eq_refl Hokb H3) as [Hokc Huc].
    destruct (elsewheres_undisturbed _ _ _ _ _ Hothers Hokc) as [Hu2 Hok2].
    pose proof (taken_elsewhere _ _ _ _ _ _ Huc Htb) as Htc. pose proof (taken_elsewhere _ _ _ _ _ _ Hu2 Htc) as Ht2.
    split_and!; [done | by destruct Ht2 as (x & _ & _ & _ & ?) | by eapply taken_exclusive | by apply taken_commits].
  - apply runs_bind in Hrun as ([f | row] & sd & _ & [Ha _]); [done |].
    unfold repeated in Ha. repeat case_match; congruence.
Qed.

(** Any other reception Register answers, the stored outcome of a processed or
    rejected message, or a collision, is what the row another transaction
    committed says at that moment: the repetition never waits on, nor reads, work
    that may still be rolled back. *)
Theorem repetition_reads_committed i ctx now r g t s answer s'
  (Hreach : rtc (anywhere schema least) empty_server s)
  (Hg : registration_of i ctx now r = Ok g)
  (Hnew : untaken t (rg_key g) s)
  (Hrun : runs t (Register i ctx now r) s (Ok answer) s')
  (Hrepeated : forall p, answer <> First p) :
  repeated (rcp_PayloadHash r) (sv_inbox s' !! rg_key g) = Ok answer.
Proof.
  pose proof (reachable_ok _ _ _ Hreach) as Hok. unfold Register in Hrun. rewrite Hg in Hrun.
  apply runs_bind in Hrun as ([f |] & sa & H1 & Hrun); [by destruct Hrun |].
  destruct (when_waiting_run _ _ (SetLockTimeout _) _ _ eq_refl Hok H1) as [Hoka Hua].
  pose proof (untaken_elsewhere _ _ _ _ Hua Hnew) as Hta.
  apply runs_bind in Hrun as ([f | affected] & sb & H2 & Hrun); [by destruct Hrun |].
  apply runs_bind in Hrun as ([f |] & sc & H3 & Hrun); [by destruct Hrun |].
  destruct (Z.eqb_spec affected 1) as [-> | Ha]; [destruct Hrun as [[= <-] _]; by destruct (Hrepeated _ eq_refl) |].
  destruct (insert_missed _ _ _ _ _ _ _ _ _ _ Hg Ha Hoka Hta H2) as [Htb Hokb].
  destruct (when_waiting_run _ _ ResetLockTimeout _ _ eq_refl Hokb H3) as [Hokc Huc].
  pose proof (untaken_elsewhere _ _ _ _ Huc Htb) as Htc.
  apply runs_bind in Hrun as ([f | row] & sd & H4 & [Hans ->]); [done |].
  by rewrite <- (select_run _ _ _ _ _ Hokc Htc H4).
Qed.
End Inbox.

(** * A consumer's inbox *)
Import PgFixture.
Module InboxFixture.
Local Open Scope string_scope.
Definition orders : inbox := PgTable.mkInbox "orders" 0 false.
Definition receipt : Receipt := mkReceipt "orders" "m1" "orders.placed" "h" 1000 0 0.
Definition key : ikey := ("orders", "m1").
Definition register : prog (result error reception) := Register orders ctx 1000 receipt.
Definition registered : server := alone_server schema least 1 register (begun 1 empty_server).
(** The second delivery, after the first transaction committed. *)
Definition redelivered : server := begun 2 (commit 1 registered).
Lemma begun_first : rtc (anywhere schema least) empty_server (begun 1 empty_server).
Proof. apply begun_reachable; [reflexivity | apply rtc_refl]. Qed.
Lemma redelivered_reachable : rtc (anywhere schema least) empty_server redelivered.
Proof.
  apply begun_reachable; [reflexivity |]. eapply rtc_r; [| exists 1%nat; by apply step_commit].
  etransitivity; [apply begun_first |]. eapply run_reachable. vm_compute. reflexivity.
Qed.
End InboxFixture.
Import InboxFixture.

Lemma first_reception_is_exclusive_witness :
  registration_of orders ctx 1000 receipt = Ok (mkRegistration key (InsertInbox key (provisional receipt None)) 0) /\
  pe_key (mkPending key false) = key.
Proof.
  split; [reflexivity |].
  refine (proj1 (first_reception_is_exclusive schema least orders ctx 1000 receipt
    (mkRegistration key (InsertInbox key (provisional receipt None)) 0) 1 (begun 1 empty_server) (mkPending key false)
    registered registered begun_first _ _ _ _)).
  - reflexivity.
  - exists new_session. split; reflexivity.
  - apply alone_runs. vm_compute. reflexivity.
  - apply rtc_refl.
Defined.

Lemma repetition_reads_committed_witness :
  alone_answer schema least 2 register redelivered = Some (Ok (Processed [])) /\
  repeated "h" (sv_inbox (alone_server schema least 2 register redelivered) !! key) = Ok (Processed []).
Proof.
  split; [vm_compute; reflexivity |].
  refine (repetition_reads_committed schema least orders ctx 1000 receipt
    (mkRegistration key (InsertInbox key (provisional receipt None)) 0) 2 redelivered (Processed []) _
    redelivered_reachable _ _ _ _).
  - reflexivity.
  - exists new_session. split; reflexivity.
  - apply alone_runs. vm_compute. reflexivity.
  - intros p. discriminate.
Defined.
