(* ===== verification/PgGuardTheorems.v ===== *)
(** The guard of a table ([postgres/guard.go]): the text its lock hashes is the
    tenant's and the value's own, and a series read under the shared lock stays,
    in every committed state, as it was read until its reader ends. *)

From stdpp Require Import relations.
From S2P Require Import Prelude GoStrings DomainKernel Errors Ports PgServer PgTable PgServerTheorems PgTableTheorems Fixture.

(** * The text of the lock *)
Definition starts (bs : list Z) : Z := len (filter (fun b => ~ (128 <= b < 192)) bs).
Lemma starts_app a b : starts (a ++ b) = starts a + starts b.
Proof. unfold starts. by rewrite filter_app, len_app. Qed.
Lemma starts_separator a : starts (31 :: a) = 1 + starts a.
Proof. unfold starts. rewrite filter_cons_True by lia. unfold len. cbn [length]. lia. Qed.
Lemma starts_nonneg a : 0 <= starts a.
Proof. apply len_nonneg. Qed.

(** Two texts with as many characters before a separator. *)
Lemma split_at_length (a b x y : list Z) :
  starts a = starts b -> a ++ 31 :: x = b ++ 31 :: y -> a = b /\ x = y.
Proof.
  intros Hs He. destruct (app_eq_inv _ _ _ _ He) as [(k & Ha & Hx) | (k & Hb & Hy)].
  - destruct k as [| z k]; [cbn in Hx; injection Hx as ->; by rewrite app_nil_r in Ha |].
    cbn in Hx. injection Hx as <- _. subst a. rewrite starts_app, starts_separator in Hs.
    pose proof (starts_nonneg k). lia.
  - destruct k as [| z k]; [cbn in Hy; injection Hy as ->; by rewrite app_nil_r in Hb |].
    cbn in Hy. injection Hy as <- _. subst b. rewrite starts_app, starts_separator in Hs.
    pose proof (starts_nonneg k). lia.
Qed.
Lemma split_at_separator (a b x y : list Z) :
  31 ∉ a -> 31 ∉ b -> a ++ 31 :: x = b ++ 31 :: y -> a = b /\ x = y.
Proof.
  intros Ha Hb He. destruct (app_eq_inv _ _ _ _ He) as [(k & Hk & Hx) | (k & Hk & Hy)].
  - destruct k as [| z k]; [cbn in Hx; injection Hx as ->; by rewrite app_nil_r in Hk |].
    cbn in Hx. injection Hx as <- _. subst a. set_solver.
  - destruct k as [| z k]; [cbn in Hy; injection Hy as ->; by rewrite app_nil_r in Hk |].
    cbn in Hy. injection Hy as <- _. subst b. set_solver.
Qed.
Lemma Itoa_no_separator n : 0 <= n <= max_int64 -> 31 ∉ bytes_of (Itoa n).
Proof.
  intros Hn. unfold Itoa. destruct (Z.ltb_spec n 0); [lia |].
  rewrite digit_bytes by (unfold max_int64 in *; lia). intros (d & He & Hd)%list_elem_of_fmap.
  pose proof (digits_range 19 n ltac:(lia)) as Hr. rewrite Forall_forall in Hr. specialize (Hr d Hd).
  unfold digit_char in He. lia.
Qed.
Lemma Itoa_inj n m : 0 <= n <= max_int64 -> 0 <= m <= max_int64 -> Itoa n = Itoa m -> n = m.
Proof.
  intros Hn Hm He. assert (forall z, 0 <= z <= max_int64 -> in_int64 z) as Hin.
  { intros z Hz. unfold in_int64, min_int64 in *. lia. }
  pose proof (Atoi_Itoa n (Hin n Hn)) as H1. rewrite He, (Atoi_Itoa m (Hin m Hm)) in H1. congruence.
Qed.
(** The text a guard's lock hashes tells the tenant and the value apart: no
    tenant, whatever characters it holds, asks for the lock of another's series,
    beyond a collision of the hash itself. *)
Theorem guard_key_text_injective {S} (tb : Table S) column t1 v1 t2 v2
  (H1 : text_length t1 <= max_int64) (H2 : text_length t2 <= max_int64)
  (He : guard_key_text tb column t1 v1 = guard_key_text tb column t2 v2) :
  t1 = t2 /\ v1 = v2.
Proof.
  assert (forall t, 0 <= text_length t) as Hnn by (intros t; apply len_nonneg).
  unfold guard_key_text, Join_strings in He. cbn [String.concat] in He.
  apply (f_equal bytes_of) in He. rewrite !bytes_of_append in He.
  change (bytes_of unit_separator) with [31] in He. cbn [app] in He.
  apply app_inv_head in He. injection He as He. apply app_inv_head in He. injection He as He.
  apply split_at_separator in He as [Hl He]; [| by apply Itoa_no_separator .. ].
  apply bytes_of_inj, Itoa_inj in Hl; [| done ..].
  apply split_at_length in He as [Ht Hv]; [| exact Hl]. split; by apply bytes_of_inj.
Qed.

(** * Series *)
Section Series.
Context (schema : list constraint) (least : list string -> option string).
(** A guarded table: its name and guard column as the server folds them, and
    the lock of a tenant's value. *)
Context (table gcol : string) (lock_of : string -> string -> Z).
Notation server_ok := (server_ok schema).

Definition in_series (tenant_ text : string) (k : tkey) (r : trow) : Prop :=
  k.1 = table /\ k.2.1 = tenant_ /\ tr_columns r !! gcol = Some (Text text).

(** A write of the table under the exclusive lock of the series it writes to,
    an update that cannot move a row to another. *)
Definition locks_series (x : session) (k : tkey) (columns : gmap string value) : Prop :=
  exists text, columns !! gcol = Some (Text text) /\ lock_of k.2.1 text ∈ sn_exclusive (se_now x).
Definition guarded_write {R} (x : session) (st : stmt R) : Prop :=
  match st with
  | InsertRow k columns => k.1 = table -> locks_series x k columns
  | UpdateRow k _ guard columns => k.1 = table -> guard = Some gcol /\ locks_series x k columns
  | _ => True
  end.
(** The steps of a session whose writes of the table are guarded. *)
Inductive gstep (t : nat) (s : server) : server -> Prop :=
| gstep_begin : sv_sessions s !! t = None -> gstep t s (set_session t new_session s)
| gstep_stmt {R} race (st : stmt R) x answer s' :
    sv_sessions s !! t = Some x -> guarded_write x st ->
    exec schema least race st s t = Some (answer, s') -> gstep t s s'
| gstep_fail : gstep t s (fail_session t s)
| gstep_commit : gstep t s (commit t s)
| gstep_rollback : gstep t s (close t s)
| gstep_purge k : inbox_locked s t k = false -> sv_sessions s !! t = None ->
    gstep t s (mkServer (sv_rows s) (delete k (sv_inbox s)) (sv_sessions s)).
Lemma gstep_step t s s' : gstep t s s' -> step schema least t s s'.
Proof.
  destruct 1; [by apply step_begin | by eapply step_stmt | apply step_fail | apply step_commit |
    apply step_rollback | by apply step_purge].
Qed.

(** Every row a session holds is under the lock of its series, which is also
    the series of the row it would replace. *)
Definition guards_row (s : server) (n : snapshot) (k : tkey) (r : trow) : Prop :=
  exists text, tr_columns r !! gcol = Some (Text text) /\ lock_of k.2.1 text ∈ sn_exclusive n /\
    forall old, sv_rows s !! k = Some old -> tr_columns old !! gcol = Some (Text text).
Definition guard_ok (s : server) : Prop :=
  forall t n k r, holds s t n -> sn_rows n !! k = Some r -> k.1 = table -> guards_row s n k r.

(** A snapshot no less locked, its rows guarded or as they were. *)
Definition guarded_next (s : server) (n m : snapshot) : Prop :=
  sn_exclusive n ⊆ sn_exclusive m /\
  forall k r, sn_rows m !! k = Some r -> sn_rows n !! k = Some r \/ (k.1 = table -> guards_row s m k r).
Lemma guarded_next_refl s n : guarded_next s n n.
Proof. split; [done | auto]. Qed.
Lemma guarded_next_ok s t n m : guard_ok s -> holds s t n -> guarded_next s n m ->
  forall k r, sn_rows m !! k = Some r -> k.1 = table -> guards_row s m k r.
Proof.
  intros Hg Hn [Hsub Hm] k r Hk Ht. destruct (Hm k r Hk) as [Hold | Hnew]; [| auto].
  destruct (Hg t n k r Hn Hold Ht) as (text & H1 & H2 & H3). exists text. split_and!; [done | set_solver | done].
Qed.

Lemma put_row_guarded s t x self k r a s' :
  put_row schema s t x self k r = Some (a, s') ->
  (k.1 = table -> guards_row s (se_now x) k r) ->
  exists x', s' = set_session t x' s /\ se_saves x' = se_saves x /\ guarded_next s (se_now x) (se_now x').
Proof.
  intros Hp Hr. unfold put_row in Hp. destruct (unique_check _ _ _ _ _ _ _); [| done |]; injection Hp as _ <-.
  - eexists. split; [done | split; [done |]]. split; [done |]. cbn.
    intros k' r' [[<- <-] | [_ H]]%lookup_insert_Some; auto.
  - eexists. split; [done | split; [done | apply guarded_next_refl]].
Qed.
(** What any statement does to the states its session holds. *)
Definition guarded_effect (s : server) (t : nat) (x : session) (s' : server) : Prop :=
  s' = s \/ exists x', s' = set_session t x' s /\
    forall m, m ∈ held x' -> exists n, n ∈ held x /\ guarded_next s n m.
Lemma guarded_effect_held s t x x' :
  (forall m, m ∈ held x' -> m ∈ held x) -> guarded_effect s t x (set_session t x' s).
Proof. intros H. right. exists x'. split; [done |]. intros m Hm. exists m. split; [auto | apply guarded_next_refl]. Qed.
Lemma guarded_effect_now s t x x' :
  se_saves x' = se_saves x -> guarded_next s (se_now x) (se_now x') -> guarded_effect s t x (set_session t x' s).
Proof.
  intros Hs Hn. right. exists x'. split; [done |]. intros m [-> | Hm]%elem_of_cons.
  - exists (se_now x). split; [by left | done].
  - exists m. split; [right; by rewrite <- Hs | apply guarded_next_refl].
Qed.

Lemma row_write_effect s t x self k r a s' :
  put_row schema s t x self k r = Some (a, s') -> (k.1 = table -> guards_row s (se_now x) k r) ->
  guarded_effect s t x s'.
Proof.
  intros Hp Hr. destruct (put_row_guarded _ _ _ _ _ _ _ _ Hp Hr) as (x' & -> & Hs & Hn).
  by apply guarded_effect_now.
Qed.
Lemma exec_guarded {R} race (st : stmt R) s t x a s' :
  guard_ok s -> sv_sessions s !! t = Some x -> guarded_write x st ->
  exec_open schema least race st s t x = Some (a, s') -> guarded_effect s t x s'.
Proof.
  intros Hg Hx Hgw. assert (holds s t (se_now x)) as Hh by (exists x; split; [done | by left]).
  assert (guarded_effect s t x s) as Hsame by by left.
  assert (guarded_effect s t x (set_session t (aborted x) s)) as Hab by by apply guarded_effect_held.
  destruct st; cbn in *; unfold lock, put_inbox; intros He;
    try (repeat case_match; simplify_eq; try exact Hsame; try exact Hab;
         solve [apply guarded_effect_now; [done | split; cbn; [set_solver | auto]]
               | apply guarded_effect_held; unfold held in *; cbn; set_solver]).
  - destruct (se_saves x) as [| n saves] eqn:Es; simplify_eq; [done |].
    apply guarded_effect_held. unfold held. rewrite Es. cbn. set_solver.
  - destruct (se_saves x) as [| n saves] eqn:Es; simplify_eq; [done |].
    apply guarded_effect_held. unfold held. rewrite Es. cbn. set_solver.
  - unfold exec_insert in He. destruct (row_locked s t k); [done |].
    destruct (view s (se_now x) !! k) eqn:Hv; [repeat case_match; simplify_eq; auto |].
    eapply row_write_effect; [exact He |]. intros Ht. destruct (Hgw Ht) as (text & Hc & Hl).
    exists text. split_and!; [done | done |]. intros old Hold. exfalso.
    apply lookup_union_None in Hv as [_ Hv]. congruence.
  - unfold exec_update in He. destruct (view s (se_now x) !! k) as [old |] eqn:Hv; [| simplify_eq; auto].
    destruct ((tr_version old =? expected) && _) eqn:Hm; [| simplify_eq; auto].
    destruct (row_locked s t k); [done |]. case_match; [simplify_eq; auto |].
    eapply row_write_effect; [exact He |]. intros Ht. destruct (Hgw Ht) as (-> & text & Hc & Hl).
    apply andb_true_iff in Hm as [_ Hm]. cbn in Hm.
    destruct (indexed (tr_columns old !! gcol)) as [v |] eqn:Hi; [| done].
    apply bool_decide_eq_true in Hm. rewrite Hc in Hm. injection Hm as <-.
    assert (tr_columns old !! gcol = Some (Text text)) as Hold.
    { destruct (tr_columns old !! gcol) as [[] |]; cbn in Hi; congruence. }
    exists text. split_and!; [cbn; by apply lookup_union_Some_l | done |].
    intros old' Hold'. unfold view in Hv. apply lookup_union_Some_raw in Hv as [Hown | [_ Hsv]]; [| congruence].
    destruct (Hg t (se_now x) k old Hh Hown Ht) as (text' & H1 & _ & H3). rewrite Hold in H1.
    injection H1 as <-. by apply H3.
Qed.

Lemma gstep_guard_ok t s s' : gstep t s s' -> server_ok s -> guard_ok s -> guard_ok s'.
Proof.
  intros Hstep Hok Hg. destruct Hstep as [Hno | R race st x a s' Hx Hgw He | | | | k Hk Hno].
  - intros t' n k r [[-> Hn] | [Hne Hn]]%holds_set Hr Ht; [| by eapply Hg].
    apply list_elem_of_singleton in Hn as ->. cbn in Hr. by rewrite lookup_empty in Hr.
  - unfold exec in He. rewrite Hx in He. destruct (se_aborted x).
    { assert (guarded_effect s t x s') as Heff.
      { destruct st; try (injection He as _ <-; by left). by eapply (exec_guarded race RollbackTo). }
      destruct Heff as [-> | (x' & -> & Heff)]; [done |].
      intros t' n k r [[-> Hn] | [Hne Hn]]%holds_set Hr Ht; [| by eapply Hg].
      destruct (Heff n Hn) as (m & Hm & Hnext).
      assert (holds s t m) as Hh by by exists x. exact (guarded_next_ok s t m n Hg Hh Hnext k r Hr Ht). }
    destruct (exec_guarded race st s t x a s' Hg Hx Hgw He) as [-> | (x' & -> & Heff)]; [done |].
    intros t' n k r [[-> Hn] | [Hne Hn]]%holds_set Hr Ht; [| by eapply Hg].
    destruct (Heff n Hn) as (m & Hm & Hnext).
      assert (holds s t m) as Hh by by exists x. exact (guarded_next_ok s t m n Hg Hh Hnext k r Hr Ht).
  - unfold fail_session. destruct (sv_sessions s !! t) as [x |] eqn:Hx; [| done].
    intros t' n k r [[-> Hn] | [Hne Hn]]%holds_set Hr Ht; [| by eapply Hg].
    eapply (Hg t n k r); [by exists x | done | done].
  - unfold commit. destruct (sv_sessions s !! t) as [x |] eqn:Hx; [| done]. destruct (se_aborted x).
    + intros t' n k r [_ Hn]%holds_close Hr Ht. by eapply Hg.
    + intros t' n k r [Hne Hn]%(holds_close t s) Hr Ht.
      destruct (Hg t' n k r Hn Hr Ht) as (text & H1 & H2 & H3). exists text. split_and!; [done | done |].
      intros old Hold. cbn in Hold. apply lookup_union_Some_raw in Hold as [Hown | [_ Hold]]; [| by apply H3].
      assert (holds s t (se_now x)) as Hh by (exists x; split; [done | by left]).
      pose proof (ap_rows _ _ _ (ok_apart _ _ Hok t t' _ _ ltac:(done) Hh Hn) k ltac:(eauto)). congruence.
  - intros t' n k r [_ Hn]%holds_close Hr Ht. by eapply Hg.
  - done.
Qed.
Definition ganywhere (s s' : server) : Prop := exists t, gstep t s s'.
Definition gelsewhere (t : nat) (s s' : server) : Prop := exists t', t' <> t /\ gstep t' s s'.
Lemma gelsewhere_elsewhere t s s' : gelsewhere t s s' -> elsewhere schema least t s s'.
Proof. intros (t' & Hne & H%gstep_step). by exists t'. Qed.
Lemma greachable_ok s : rtc ganywhere empty_server s -> server_ok s /\ guard_ok s.
Proof.
  revert s. apply rtc_ind_r.
  - split; [apply empty_server_ok |]. intros t n k r (x & Hx & _). cbn in Hx. by rewrite lookup_empty in Hx.
  - intros s s' _ [t Hs] [Hok Hg]. split; [by eapply step_ok; [apply gstep_step |] | by eapply gstep_guard_ok].
Qed.

(** ** A series under its lock *)
Definition reads_under (t : nat) (h : Z) (s : server) : Prop :=
  exists x, sv_sessions s !! t = Some x /\ (h ∈ sn_shared (se_now x) \/ h ∈ sn_exclusive (se_now x)).
Definition same_series (tenant_ text : string) (s s' : server) : Prop :=
  forall k r, in_series tenant_ text k r -> (sv_rows s' !! k = Some r <-> sv_rows s !! k = Some r).
#[export] Instance same_series_preorder tenant_ text : PreOrder (same_series tenant_ text).
Proof.
  split; [done |]. intros a b c Hab Hbc k r Hk. by rewrite (Hbc k r Hk), (Hab k r Hk).
Qed.

Lemma gstep_same_series t t' s s' tenant_ text :
  gstep t' s s' -> server_ok s -> guard_ok s ->
  reads_under t (lock_of tenant_ text) s -> is_Some (sv_sessions s' !! t) ->
  same_series tenant_ text s s'.
Proof.
  intros Hstep Hok Hg (x & Hx & Hl) Hopen. destruct Hstep as [Hno | R race st y a s' Hy Hgw He | | | | k0 Hk0 Hno];
    try done.
  - apply exec_effect in He as (y' & _ & [-> | (y'' & -> & _)]); done.
  - unfold fail_session. by destruct (sv_sessions s !! t').
  - unfold commit in *. destruct (sv_sessions s !! t') as [y |] eqn:Hy; [| done]. destruct (se_aborted y); [done |].
    assert (t' <> t) as Hne. { intros ->. cbn in Hopen. rewrite lookup_delete_eq in Hopen. by destruct Hopen. }
    assert (holds s t' (se_now y)) as Hh by (exists y; split; [done | by left]).
    assert (holds s t (se_now x)) as Hh' by (exists x; split; [done | by left]).
    pose proof (ok_apart _ _ Hok t' t _ _ Hne Hh Hh') as Hap.
    assert (forall k u, sn_rows (se_now y) !! k = Some u -> k.1 = table -> k.2.1 = tenant_ ->
      exists text', text' <> text /\ tr_columns u !! gcol = Some (Text text') /\
        forall old, sv_rows s !! k = Some old -> tr_columns old !! gcol = Some (Text text')) as Hother.
    { intros k u Hu Ht Htn. destruct (Hg t' _ k u Hh Hu Ht) as (text' & H1 & H2 & H3). exists text'.
      split_and!; [| done | done]. intros ->. rewrite Htn in H2.
      destruct (ap_exclusive _ _ _ Hap _ H2) as [Hs He]. by destruct Hl. }
    intros k r (Ht & Htn & Hc). cbn. rewrite lookup_union_Some_raw. split.
    + intros [Hu | [_ Hu]]; [| done]. destruct (Hother k r Hu Ht Htn) as (text' & Hneq & Hc' & _). congruence.
    + intros Hu. destruct (sn_rows (se_now y) !! k) as [u |] eqn:Eu; [| auto].
      destruct (Hother k u Eu Ht Htn) as (text' & Hneq & _ & Hold). specialize (Hold r Hu). congruence.
Qed.

(** Every committed state, while a transaction stays under the lock. *)
Definition under_lock (t : nat) (h : Z) (s s' : server) : Prop := ganywhere s s' /\ reads_under t h s'.
Lemma under_lock_same_series t tenant_ text s s' :
  rtc (under_lock t (lock_of tenant_ text)) s s' -> server_ok s -> guard_ok s ->
  reads_under t (lock_of tenant_ text) s -> same_series tenant_ text s s'.
Proof.
  induction 1 as [s | s s1 s' [[t' Hs] Hr1] _ IH]; intros Hok Hg Hr; [done |].
  assert (is_Some (sv_sessions s1 !! t)) as Hopen by (destruct Hr1 as (x & Hx & _); by eexists).
  transitivity s1; [by eapply gstep_same_series |]. apply IH; [| | done].
  - eapply step_ok; [by apply gstep_step | done].
  - by eapply gstep_guard_ok.
Qed.
End Series.

(** * The operations of a guarded table *)
Section Guarded.
Context (schema : list constraint) (least : list string -> option string) (hashtextextended : string -> Z).
Context {S : Type} (tb : Table S).
Context (Hguard : String.eqb (t_Guard tb) "" = false).
Notation table := (ToLower (t_Name tb)).
Notation gcol := (ToLower (t_Guard tb)).
Notation lock_of := (guard_lock hashtextextended tb (t_Guard tb)).
Notation gstep := (gstep schema least table gcol lock_of).
Notation ganywhere := (ganywhere schema least table gcol lock_of).
Notation gelsewhere := (gelsewhere schema least table gcol lock_of).
Notation under_lock := (under_lock schema least table gcol lock_of).
Notation server_ok := (server_ok schema).
Notation guard_ok := (guard_ok table gcol lock_of).
Notation same_series := (same_series table gcol).
Notation runs := (runs_in schema least).

Lemma gelsewheres_ok t s s' :
  rtc (gelsewhere t) s s' -> server_ok s -> guard_ok s ->
  server_ok s' /\ guard_ok s' /\ undisturbed t s s' /\
  forall tenant_ text, reads_under t (lock_of tenant_ text) s -> same_series tenant_ text s s'.
Proof.
  induction 1 as [s | s s1 s' (t' & Hne & Hs) _ IH]; intros Hok Hg; [by split_and!; [| | reflexivity |] |].
  assert (elsewhere schema least t s s1) as Hel by (exists t'; split; [done | by eapply gstep_step]).
  destruct (elsewhere_undisturbed _ _ _ _ _ Hel Hok) as [Hu Hok1].
  pose proof (gstep_guard_ok _ _ _ _ _ _ _ _ Hs Hok Hg) as Hg1.
  destruct (IH Hok1 Hg1) as (Hok' & Hg' & Hu' & Hsame). split_and!; [done | done | by transitivity s1 |].
  intros tenant_ text Hr. pose proof Hr as (x & Hx & Hl). transitivity s1.
  - eapply gstep_same_series; [done | done | done | done |]. rewrite (un_session _ _ _ Hu). eauto.
  - apply Hsame. exists x. by rewrite (un_session _ _ _ Hu).
Qed.

Lemma matching_elem (s : server) n tenant_ text id row :
  (id, row) ∈ ((fun kr : tkey * trow => (kr.1.2.2, kr.2)) <$>
     filter (fun kr : tkey * trow => kr.1.2.1 = tenant_) (matching s n table gcol (Text text))) <->
  view s n !! (table, (tenant_, id)) = Some row /\ tr_columns row !! gcol = Some (Text text).
Proof.
  assert (forall v, indexed v = Some (Text text) <-> v = Some (Text text)) as Hi.
  { intros [[] |]; cbn; split; congruence. }
  rewrite list_elem_of_fmap. unfold matching. split.
  - intros ([[tb' [tn i]] r] & [= -> ->] & H). rewrite !list_elem_of_filter, elem_of_map_to_list in H. cbn in H.
    destruct H as (-> & (-> & Hc & _) & Hv). split; [done |]. by apply Hi.
  - intros [Hv Hc]. exists ((table, (tenant_, id)), row). split; [done |].
    rewrite !list_elem_of_filter, elem_of_map_to_list. cbn. split_and!; try done. by apply Hi.
Qed.

(** A statement other than a write, of a transaction whose others are guarded. *)
Lemma plain_stmt {R} (st : stmt R) t s a s' :
  (forall x, guarded_write table gcol lock_of x st) -> server_ok s -> guard_ok s ->
  runs (gelsewhere t) t (stmt_ st) s (inr a) s' ->
  exists s1 race, rtc (gelsewhere t) s s1 /\ exec schema least race st s1 t = Some (inr a, s') /\
    server_ok s1 /\ guard_ok s1 /\ server_ok s' /\ guard_ok s'.
Proof.
  intros Hw Hok Hg (s1 & Hel & [(race & He) | (f & [=] & _)])%runs_stmt.
  destruct (gelsewheres_ok _ _ _ Hel Hok Hg) as (Hok1 & Hg1 & _).
  assert (gstep t s1 s') as Hstep.
  { unfold exec in He. destruct (sv_sessions s1 !! t) as [x |] eqn:Hx; [| done].
    eapply (gstep_stmt _ _ _ _ _ _ _ race st x (inr a)); [done | done |]. unfold exec. by rewrite Hx. }
  exists s1, race. split_and!; try done; [eapply step_ok; [by eapply gstep_step | done] | by eapply gstep_guard_ok].
Qed.
(** The rows of a series a session sees, as the statement lists them. *)
Definition series_rows (s : server) (n : snapshot) (tenant_ text : string) : list (string * trow) :=
  (fun kr : tkey * trow => (kr.1.2.2, kr.2)) <$>
    filter (fun kr : tkey * trow => kr.1.2.1 = tenant_) (matching s n table gcol (Text text)).
Definition reads_series (s : server) (t : nat) (tenant_ text : string) (states : list S) : Prop :=
  exists x rows, sv_sessions s !! t = Some x /\ decode_rows tb rows = Ok states /\
    forall id row, sn_rows (se_now x) !! (table, (tenant_, id)) = None ->
      ((id, row) ∈ rows <->
       sv_rows s !! (table, (tenant_, id)) = Some row /\ tr_columns row !! gcol = Some (Text text)).
Lemma series_rows_read s s' t x tenant_ text states :
  sv_sessions s !! t = Some x -> decode_rows tb (series_rows s (se_now x) tenant_ text) = Ok states ->
  sv_sessions s' !! t = sv_sessions s !! t -> same_series tenant_ text s s' ->
  reads_series s' t tenant_ text states.
Proof.
  intros Hx Hd Hs Hsame. exists x, (series_rows s (se_now x) tenant_ text). rewrite Hs. split_and!; [done | done |].
  intros id row Hnone. unfold series_rows. rewrite matching_elem. unfold view. rewrite lookup_union_r by done.
  split; intros [H Hc]; (split; [| done]); by apply (Hsame (table, (tenant_, id)) row).
Qed.

(** Decoding them, and the probe when there is none. *)
Lemma collected_spec t r tenant_ v note rows states s s' :
  server_ok s -> guard_ok s ->
  runs (gelsewhere t) t (collected tb r tenant_ v note (inr rows)) s (Ok states) s' ->
  decode_rows tb rows = Ok states /\ rtc (gelsewhere t) s s'.
Proof.
  intros Hok Hg. unfold collected. destruct (decode_rows tb rows) as [[| x l] | e | p]; [| by intros [[= <-] ->] | by intros [? _] ..].
  unfold relation_miss. rewrite runs_bind. intros ([f | [owner |]] & s1 & H1 & [H2 ->]); try done.
  injection H2 as <-. split; [done |].
  apply plain_stmt in H1 as (s2 & race & Hel & He & _); [| done ..].
  unfold exec in He. destruct (sv_sessions s2 !! t) as [x |]; [| done]. destruct (se_aborted x); [done |].
  cbn in He. by injection He as _ <-.
Qed.

Lemma guardedRead_spec t r tenant_ text states s s1 :
  rel_filter r = t_Guard tb -> server_ok s -> guard_ok s ->
  runs (gelsewhere t) t (guardedRead hashtextextended tb r (shared_statement tb) tenant_ text) s (Ok states) s1 ->
  server_ok s1 /\ guard_ok s1 /\ reads_under t (lock_of tenant_ text) s1 /\ reads_series s1 t tenant_ text states.
Proof.
  intros Hf Hok Hg. unfold guardedRead. rewrite Hf, runs_bind. intros ([f | []] & s2 & H1 & H2); [by destruct H2 |].
  apply plain_stmt in H1 as (s1' & race & _ & He & _ & _ & Hok2 & Hg2); [| done ..].
  assert (reads_under t (lock_of tenant_ text) s2) as Hr2.
  { unfold exec in He. destruct (sv_sessions s1' !! t) as [x |] eqn:Hx; [| done].
    destruct (se_aborted x); [done |]. cbn in He. unfold lock in He. destruct (existsb _ _); [done |].
    injection He as <-. eexists. cbn. rewrite lookup_insert_eq. split; [done |]. left. cbn. set_solver. }
  apply runs_bind in H2 as ([f | rows] & s3 & H2 & H3); [by destruct H3 |].
  apply plain_stmt in H2 as (s3' & race' & Hel & He3 & Hok3' & Hg3' & _); [| done ..].
  destruct (gelsewheres_ok _ _ _ Hel Hok2 Hg2) as (_ & _ & Hu & _).
  assert (s3 = s3' /\ exists x, sv_sessions s3' !! t = Some x /\ rows = series_rows s3' (se_now x) tenant_ text)
    as (-> & x & Hx & ->).
  { unfold exec in He3. destruct (sv_sessions s3' !! t) as [x |] eqn:Hx; [| done].
    destruct (se_aborted x); [done |]. cbn in He3. injection He3 as <- <-. split; [done |]. by exists x. }
  destruct (collected_spec _ _ _ _ _ _ _ _ _ Hok3' Hg3' H3) as [Hd Hel'].
  destruct (gelsewheres_ok _ _ _ Hel' Hok3' Hg3') as (Hok1 & Hg1 & Hu1 & Hsame).
  assert (reads_under t (lock_of tenant_ text) s3') as Hr3.
  { destruct Hr2 as (y & Hy & Hl). exists y. by rewrite (un_session _ _ _ Hu). }
  split_and!; [done | done | |].
  - destruct Hr3 as (y & Hy & Hl). exists y. by rewrite (un_session _ _ _ Hu1).
  - eapply series_rows_read; [exact Hx | exact Hd | apply (un_session _ _ _ Hu1) | by apply Hsame].
Qed.

(** C23: A transaction that read a series under its guard decides over what it will
    find when it commits: until it ends, through any interleaving of transactions
    whose writes of the table are guarded, the rows it read are exactly the
    series' committed rows, those it wrote itself apart. No row joins the series,
    leaves it or changes in it between the read and the commit. *)
Theorem guarded_series_repeatable r t tx ctx tenant_ text states tx' s s1 s2
  (Hreach : rtc ganywhere empty_server s)
  (Hrel : relation tb (t_Guard tb) = Ok r)
  (Htenant : tenantOf ctx = Ok tenant_)
  (Hrun : runs (gelsewhere t) t (QueryWithin hashtextextended tb r tx ctx (Text text)) s (Ok states, tx') s1)
  (Hpath : rtc (under_lock t (lock_of tenant_ text)) s1 s2) :
  exists x rows, sv_sessions s1 !! t = Some x /\ decode_rows tb rows = Ok states /\
    forall id row, sn_rows (se_now x) !! (table, (tenant_, id)) = None ->
      ((id, row) ∈ rows <->
       sv_rows s2 !! (table, (tenant_, id)) = Some row /\ tr_columns row !! gcol = Some (Text text)).
Proof.
  destruct (greachable_ok _ _ _ _ _ _ Hreach) as [Hok Hg]. clear Hreach.
  assert (r = mkRelation (t_Guard tb) (Some (shared_statement tb))) as ->.
  { unfold relation in Hrel. destruct (negb _); [done |]. destruct (validate tb); cbn in Hrel; [| done | done].
    rewrite Hguard, String.eqb_refl in Hrel. by injection Hrel as <-. }
  unfold QueryWithin in Hrun. cbn [rel_lock rel_filter] in Hrun. rewrite Htenant in Hrun.
  cbn [mbind result_bind guardText] in Hrun. cbv zeta in Hrun.
  apply runs_bind in Hrun as (answer & s3 & Hrun & [Hans ->]). injection Hans as Hans _.
  apply conflictOnDeadlock_ok in Hans as ->.
  destruct (guardedRead_spec t (mkRelation (t_Guard tb) (Some (shared_statement tb))) _ _ _ _ _ eq_refl Hok Hg Hrun) as (Hok3 & Hg3 & Hr3 & x & rows & Hx & Hd & Hrows).
  exists x, rows. split_and!; [done | done |]. intros id row Hnone. rewrite (Hrows id row Hnone).
  pose proof (under_lock_same_series _ _ _ _ _ _ _ _ _ _ Hpath Hok3 Hg3 Hr3) as Hsame.
  split; intros [H Hc]; (split; [| done]); by apply (Hsame (table, (tenant_, id)) row).
Qed.

(** ** A Save of a guarded table keeps the discipline *)

(** A run each of whose writes of the table is guarded. *)
Fixpoint runs_guarded {A} (env : server -> server -> Prop) (t : nat) (p : prog A) (s : server) (a : A) (s' : server) : Prop :=
  match p with
  | Ret x => x = a /\ s' = s
  | Do st k =>
      exists s1, rtc env s s1 /\
        ((exists race answer s2, exec schema least race st s1 t = Some (answer, s2) /\
            (forall x, sv_sessions s1 !! t = Some x -> se_aborted x = false -> guarded_write table gcol lock_of x st) /\
            runs_guarded env t (k answer) s2 a s') \/
         (exists f, state_of f <> Some uniqueViolation /\ runs_guarded env t (k (inl f)) (fail_session t s1) a s'))
  end.
Lemma runs_guarded_bind {A B} env t (p : prog A) (f : A -> prog B) s b s' :
  (exists a s1, runs_guarded env t p s a s1 /\ runs_guarded env t (f a) s1 b s') ->
  runs_guarded env t (p ≫= f) s b s'.
Proof.
  revert s. induction p as [x | R st k IH]; intros s; cbn; [by intros (a & s1 & [<- ->] & H) |].
  intros (a & s3 & (s1 & Hel & [(race & r & s2 & He & Hw & Hr) | (g & Hg & Hr)]) & Hf);
    exists s1; (split; [done |]); [left; exists race, r, s2 | right; exists g]; (split; [done |]);
    [split; [done |] |]; apply IH; eauto.
Qed.

(** A program that writes no aggregate row, whatever it is answered. *)
Fixpoint no_row_writes {A} (p : prog A) : Prop :=
  match p with
  | Ret _ => True
  | Do st k => (forall x, guarded_write table gcol lock_of x st) /\ forall r, no_row_writes (k r)
  end.
Lemma no_row_writes_guarded {A} env t (p : prog A) s a s' :
  no_row_writes p -> runs env t p s a s' -> runs_guarded env t p s a s'.
Proof.
  revert s. induction p as [x | R st k IH]; intros s; cbn; [done |].
  intros [Hw Hk] (s1 & Hel & [(race & r & s2 & He & Hr) | (f & Hf & Hr)]);
    exists s1; (split; [done |]); [left; exists race, r, s2 | right; exists f]; auto 6.
Qed.
Lemma no_row_writes_bind {A B} (p : prog A) (f : A -> prog B) :
  no_row_writes p -> (forall a, no_row_writes (f a)) -> no_row_writes (p ≫= f).
Proof.
  intros Hp Hf. induction p as [x | R st k IH]; cbn in *; [apply Hf |].
  destruct Hp as [Hw Hk]. split; [done |]. intros r. apply IH, Hk.
Qed.
Lemma no_row_writes_undo tx w f : no_row_writes (undo tb tx w f).
Proof.
  unfold undo. apply no_row_writes_bind; [by cbn |]. intros [g | []]; [done |].
  unfold translate. destruct f as [code table_ constraint_ | |]; [| done | done].
  destruct (_ && _); [| done]. destruct (declared tb constraint_) as [u |]; [| done].
  apply no_row_writes_bind; [| done]. by destruct (wr_expected w =? 0).
Qed.

(** Programs that run under the exclusive lock of a series, and keep it. *)
Definition excludes (t : nat) (h : Z) (s : server) : Prop :=
  exists x, sv_sessions s !! t = Some x /\ h ∈ sn_exclusive (se_now x).
Definition under_exclusive {A} (t : nat) (h : Z) (p : prog A) : Prop :=
  forall s a s', server_ok s -> excludes t h s ->
    runs (elsewhere schema least t) t p s a s' -> runs_guarded (elsewhere schema least t) t p s a s'.
Lemma excludes_others t h s s' : undisturbed t s s' -> excludes t h s -> excludes t h s'.
Proof. intros Hu (x & Hx & Hh). exists x. by rewrite (un_session _ _ _ Hu). Qed.

(** Locks, savepoints and preparations keep the lock, whatever they answer. *)
Definition keeps_lock {R} (st : stmt R) : bool :=
  match st with LockExclusive _ | Savepoint | Prepare _ => true | _ => false end.
Lemma keeps_lock_run {R} (st : stmt R) t h s a s' :
  keeps_lock st = true -> server_ok s -> excludes t h s ->
  runs (elsewhere schema least t) t (stmt_ st) s a s' ->
  server_ok s' /\ excludes t h s' /\ runs_guarded (elsewhere schema least t) t (stmt_ st) s a s'.
Proof.
  intros Hk Hok Hx Hrun. pose proof (runs_ok _ _ _ _ _ _ _ Hrun Hok) as Hok'.
  assert (runs_guarded (elsewhere schema least t) t (stmt_ st) s a s') as Hg.
  { apply no_row_writes_guarded; [| done]. cbn. split; [by destruct st | done]. }
  split_and!; [done | | done].
  apply runs_stmt in Hrun as (s1 & Hel & Hrun).
  destruct (elsewheres_undisturbed _ _ _ _ _ Hel Hok) as [Hu _].
  destruct (excludes_others _ _ _ _ Hu Hx) as (x & Hx1 & Hh).
  destruct Hrun as [(race & He) | (f & _ & _ & ->)].
  - unfold exec in He. rewrite Hx1 in He. destruct (se_aborted x); [destruct st; try done; injection He as _ <-; by exists x |].
    destruct st; try done; cbn in He; unfold lock in He; repeat case_match; simplify_eq;
      try (by exists x); (eexists; cbn; rewrite lookup_insert_eq; split; [done | cbn; set_solver]).
  - unfold fail_session. rewrite Hx1. exists (aborted x). cbn. by rewrite lookup_insert_eq.
Qed.
(** Programs that keep the lock for what follows them. *)
Definition keeps {A} (t : nat) (h : Z) (p : prog A) : Prop :=
  forall s a s', server_ok s -> excludes t h s -> runs (elsewhere schema least t) t p s a s' ->
    server_ok s' /\ excludes t h s' /\ runs_guarded (elsewhere schema least t) t p s a s'.
Lemma keeps_ret {A} t h (a : A) : keeps t h (mret a).
Proof. by intros s b s' Hok Hx [<- ->]. Qed.
Lemma keeps_bind {A B} t h (p : prog A) (f : A -> prog B) :
  keeps t h p -> (forall a, keeps t h (f a)) -> keeps t h (p ≫= f).
Proof.
  intros Hp Hf s b s' Hok Hx (a & s1 & H1 & H2)%runs_bind.
  destruct (Hp _ _ _ Hok Hx H1) as (Hok1 & Hx1 & Hg1). destruct (Hf a _ _ _ Hok1 Hx1 H2) as (Hok2 & Hx2 & Hg2).
  split_and!; [done | done |]. apply runs_guarded_bind. eauto.
Qed.
Lemma keeps_stmt {R} t h (st : stmt R) : keeps_lock st = true -> keeps t h (stmt_ st).
Proof. intros Hk s a s' Hok Hx. by apply keeps_lock_run. Qed.
Lemma keeps_prepare_all t h sqls : keeps t h (prepare_all sqls).
Proof.
  induction sqls as [| sql sqls IH]; [apply keeps_ret |]. apply keeps_bind; [by apply keeps_stmt |].
  intros [f | []]; [apply keeps_ret | done].
Qed.
Lemma keeps_pin t h p sql g : keeps t h (pin p sql g).
Proof.
  unfold pin. destruct (negb _); [apply keeps_ret |]. apply keeps_bind; [apply keeps_prepare_all |].
  intros failed. apply keeps_ret.
Qed.

Lemma under_exclusive_bind {A B} t h (p : prog A) (f : A -> prog B) :
  keeps t h p -> (forall a, under_exclusive t h (f a)) -> under_exclusive t h (p ≫= f).
Proof.
  intros Hp Hf s b s' Hok Hx (a & s1 & H1 & H2)%runs_bind.
  destruct (Hp _ _ _ Hok Hx H1) as (Hok1 & Hx1 & Hg). apply runs_guarded_bind. exists a, s1.
  split; [done |]. by eapply Hf.
Qed.
Lemma under_exclusive_none {A} t h (p : prog A) : no_row_writes p -> under_exclusive t h p.
Proof. intros Hp s a s' _ _. by apply no_row_writes_guarded. Qed.

(** Taking the lock, then what runs under it. *)
Lemma locked_guarded {B} t h s b s' (f : failure + unit -> prog B) :
  server_ok s -> (forall g, no_row_writes (f (inl g))) -> under_exclusive t h (f (inr ())) ->
  runs (elsewhere schema least t) t (stmt_ (LockExclusive h) ≫= f) s b s' ->
  runs_guarded (elsewhere schema least t) t (stmt_ (LockExclusive h) ≫= f) s b s'.
Proof.
  intros Hok Hbad Hgood (a & s1 & H1 & H2)%runs_bind. apply runs_guarded_bind. exists a, s1.
  split; [by apply no_row_writes_guarded |]. destruct a as [g | []]; [by apply no_row_writes_guarded |].
  pose proof (runs_ok _ _ _ _ _ _ _ H1 Hok) as Hok1. apply Hgood; [done | | done].
  apply runs_stmt in H1 as (s2 & Hel & [(race & He) | (g & [=] & _)]).
  unfold exec in He. destruct (sv_sessions s2 !! t) as [x |] eqn:Hx; [| done]. destruct (se_aborted x); [done |].
  cbn in He. unfold lock in He. destruct (existsb _ _); [done |]. injection He as <-.
  eexists. cbn. rewrite lookup_insert_eq. split; [done | cbn; set_solver].
Qed.

Lemma take_guard_then {B} h (f : option failure -> prog B) :
  take_guard (Some h) ≫= f = stmt_ (LockExclusive h) ≫= (fun r => f (match r with inl g => Some g | inr _ => None end)).
Proof. done. Qed.

Section Writing.
Context (t : nat) (tenant_ text : string) (w : write).
Notation h := (lock_of tenant_ text).
Context (Htn : (wr_key w).2.1 = tenant_) (Hcol : wr_columns w !! gcol = Some (Text text)).

Lemma write_guarded x : h ∈ sn_exclusive (se_now x) -> guarded_write table gcol lock_of x (write_stmt tb w).
Proof.
  intros Hh. unfold write_stmt, guard_column. rewrite Hguard.
  destruct (wr_expected w =? 0); cbn; intros _; [| split; [done |]]; exists text; by rewrite Htn.
Qed.
Lemma under_exclusive_write {B} (f : failure + Z -> prog B) :
  (forall r, no_row_writes (f r)) -> under_exclusive t h (stmt_ (write_stmt tb w) ≫= f).
Proof.
  intros Hf s b s' Hok Hx (a & s1 & H1 & H2)%runs_bind. apply runs_guarded_bind. exists a, s1.
  split; [| by apply no_row_writes_guarded].
  apply runs_stmt in H1 as (s2 & Hel & H1). destruct (elsewheres_undisturbed _ _ _ _ _ Hel Hok) as [Hu _].
  destruct (excludes_others _ _ _ _ Hu Hx) as (x & Hx2 & Hh).
  exists s2. split; [done |]. destruct H1 as [(race & He) | (g & -> & Hg & ->)].
  - left. exists race, a, s1. split; [done |]. split; [| done]. intros x' Hx' _.
    rewrite Hx2 in Hx'. injection Hx' as <-. by apply write_guarded.
  - right. by exists g.
Qed.
Lemma write_and_release_guarded tx : under_exclusive t h (write_and_release tb tx w).
Proof.
  apply under_exclusive_write. intros [f | n].
  - apply no_row_writes_bind; [apply no_row_writes_undo | done].
  - by apply no_row_writes_bind; [cbn | intros [] ].
Qed.
Lemma savepoint_guarded stmts tx : under_exclusive t h
  (opened ← stmt_ Savepoint;
   match opened with
   | inl f => mret (Err (unopened f), tx)
   | inr _ =>
       if inline (tx_plan tx) (write_text stmts w) then write_and_release tb tx w
       else
         '(pinning, plan) ← pin (tx_plan tx) (write_text stmts w) (Some (exclusive_statement tb));
         match pinning with
         | Some f => e ← undo tb tx w f; mret (Err e, tx)
         | None => write_and_release tb (with_plan tx plan) w
         end
   end).
Proof.
  apply under_exclusive_bind; [by apply keeps_stmt |]. intros [f | []]; [by apply under_exclusive_none |].
  destruct (inline _ _); [apply write_and_release_guarded |].
  apply under_exclusive_bind; [apply keeps_pin |]. intros [[f |] plan]; [| apply write_and_release_guarded].
  apply under_exclusive_none, no_row_writes_bind; [apply no_row_writes_undo | done].
Qed.
End Writing.

Lemma index_of_lookup column columns i : index_of column columns = Some i -> columns !! i = Some column.
Proof.
  revert i. induction columns as [| c cs IH]; intros i; cbn; [done |].
  destruct (String.eqb_spec c column) as [-> | _]; [by intros [= <-] |].
  destruct (index_of column cs) as [j |]; cbn; [intros [= <-] | done]. by apply IH.
Qed.
Lemma lookup_zipped (columns : list string) (values : list value) i c v :
  NoDup columns -> columns !! i = Some c -> values !! i = Some v ->
  (list_to_map (zip columns values) : gmap string value) !! c = Some v.
Proof.
  revert i values. induction columns as [| c' cs IH]; intros i values Hnd Hc Hv; [done |].
  apply NoDup_cons in Hnd as [Hnew Hnd]. destruct values as [| v' vs]; [done |].
  destruct i as [| i]; cbn in *; [by simplify_eq; rewrite lookup_insert_eq |].
  rewrite lookup_insert_ne; [by eapply IH |]. intros ->. apply Hnew. by eapply list_elem_of_lookup_2.
Qed.
Lemma state_columns_lookup values i v :
  NoDup (ToLower <$> t_Columns tb) -> t_Columns tb !! i = Some (t_Guard tb) -> values !! i = Some v ->
  state_columns tb values !! gcol = Some v.
Proof.
  intros Hnd Hc Hv. eapply lookup_zipped; [done | | done]. by rewrite list_lookup_fmap, Hc.
Qed.

(** Every Save of a table with a Guard keeps the discipline the series' readers
    rely on: under any interleaving, each row it inserts or updates is written
    while its transaction holds the exclusive lock of the series the row goes to,
    and an update is conditioned on the row's staying in that series. *)
Theorem Save_writes_under_guard t stmts tx ctx id state expected s a s'
  (Hnd : NoDup (ToLower <$> t_Columns tb))
  (Hreach : rtc (anywhere schema least) empty_server s)
  (Hrun : runs (elsewhere schema least t) t (Save hashtextextended tb stmts tx ctx id state expected) s a s') :
  runs_guarded (elsewhere schema least t) t (Save hashtextextended tb stmts tx ctx id state expected) s a s'.
Proof.
  apply reachable_ok in Hreach as Hok. unfold Save in *.
  destruct (tenantOf ctx) as [tenant_ | |]; [| by apply no_row_writes_guarded ..]. unfold saveAs in *.
  destruct (t_Encode tb) as [encode |]; [| by apply no_row_writes_guarded].
  destruct (encode state) as [values | |]; [| by apply no_row_writes_guarded ..].
  destruct (negb (len values =? _)); [by apply no_row_writes_guarded |].
  destruct (guard_of hashtextextended tb tenant_ values) as [g | |] eqn:Eg; [| by apply no_row_writes_guarded ..].
  unfold guard_of in Eg. rewrite Hguard in Eg.
  destruct (guardIndex tb) as [i |] eqn:Ei; [| done]. destruct (values !! i) as [v |] eqn:Ev; [| done].
  destruct v as [| text | |]; try done. cbn in Eg. injection Eg as <-.
  set (w := mkWrite (row_key tb tenant_ id) expected (state_columns tb values)) in *.
  assert (wr_columns w !! gcol = Some (Text text)) as Hcol.
  { eapply state_columns_lookup; [done | by apply index_of_lookup | done]. }
  cbv zeta in *. apply runs_bind in Hrun as ([answer tx1] & s1 & Hrun & Hret).
  apply runs_guarded_bind. exists (answer, tx1), s1. split; [| by destruct Hret].
  destruct (t_Unique tb).
  - unfold saveGuarded in *. eapply (locked_guarded t); [done | | | exact Hrun]; [by intros f; cbn |].
    by apply under_exclusive_write.
  - unfold saveUnderSavepoint in *. cbv zeta in *. rewrite take_guard_then in *.
    eapply (locked_guarded t); [done | | | exact Hrun].
    + intros f. by destruct (_ && _).
    + by apply savepoint_guarded.
Qed.
End Guarded.

(** * A guarded table *)
Import PgFixture.
Module GuardFixture.
Local Open Scope string_scope.
Definition guarded : Table string := rooms [] "room".
Notation lock_of := (guard_lock hash guarded "room").
Notation gstep := (gstep schema least "rooms" "room" lock_of).
Notation ganywhere := (ganywhere schema least "rooms" "room" lock_of).

(** A statement run alone, and the check that it is guarded. *)
Definition guarded_check {R} (t : nat) (st : stmt R) (s : server) : bool :=
  match sv_sessions s !! t with
  | None => false
  | Some x =>
      match st with
      | InsertRow k columns =>
          match columns !! "room" with
          | Some (Text text) => bool_decide (lock_of k.2.1 text ∈ sn_exclusive (se_now x))
          | _ => false
          end
      | UpdateRow _ _ _ _ => false
      | _ => true
      end && bool_decide (is_Some (alone_answer schema least t (stmt_ st) s))
  end.
Definition ran {R} (t : nat) (st : stmt R) (s : server) : server := alone_server schema least t (stmt_ st) s.
Lemma ran_gstep {R} t (st : stmt R) s : guarded_check t st s = true -> gstep t s (ran t st s).
Proof.
  unfold guarded_check, ran, alone_server, alone_answer. destruct (sv_sessions s !! t) as [x |] eqn:Hx; [| done].
  intros [Hw Ha%bool_decide_eq_true]%andb_true_iff. cbn in *.
  destruct (exec schema least false st s t) as [[r s'] |] eqn:He; [| by destruct Ha].
  eapply gstep_stmt; [done | | done]. destruct st; try done; cbn in *. intros _.
  destruct (columns !! "room") as [[| text | |] |] eqn:Hc; try done.
  exists text. split; [done | by apply bool_decide_eq_true in Hw].
Qed.
Definition key : tkey := ("rooms", ("t1", "r1")).
Definition locked : server := ran 1 (LockExclusive (lock_of "t1" "101")) (begun 1 empty_server).
Definition inserted : server := ran 1 (InsertRow key {["room" := Text "101"]}) locked.
Definition second : server := begun 2 (commit 1 inserted).
Definition by_room : Relation := mkRelation "room" (Some (shared_statement guarded)).
Definition read_room : prog (result error (list string) * Tx) := QueryWithin hash guarded by_room tx ctx (Text "101").
Definition read : server := alone_server schema least 2 read_room second.
Lemma second_reachable : rtc ganywhere empty_server second.
Proof.
  eapply rtc_l; [exists 1%nat; by apply gstep_begin |].
  eapply rtc_l; [exists 1%nat; apply (ran_gstep 1 (LockExclusive (lock_of "t1" "101"))); by vm_compute |].
  eapply rtc_l; [exists 1%nat; apply (ran_gstep 1 (InsertRow key {["room" := Text "101"]})); by vm_compute |].
  eapply rtc_l; [exists 1%nat; by apply gstep_commit |].
  eapply rtc_l; [exists 2%nat; by apply gstep_begin | apply rtc_refl].
Qed.
Definition save_guarded : prog (result error unit * Tx) := Save hash guarded no_stmts tx ctx "r2" "101" 0.
End GuardFixture.
Import GuardFixture.

Lemma guard_key_text_injective_witness :
  text_length "t1" <= max_int64 /\ ("t1" = "t1" /\ "101" = "101")%string.
Proof.
  split; [vm_compute; discriminate |].
  apply (guard_key_text_injective guarded "room"); [vm_compute; discriminate .. | reflexivity].
Defined.

(** The room the first transaction committed is what the second reads. *)
Lemma guarded_series_repeatable_witness :
  alone_answer schema least 2 read_room second = Some (Ok ["101"%string], with_guarded tx) /\
  reads_series guarded read 2 "t1" "101" ["101"%string].
Proof.
  split; [vm_compute; reflexivity |].
  refine (guarded_series_repeatable schema least hash guarded eq_refl by_room 2 tx ctx "t1" "101" ["101"%string]
    (with_guarded tx) second read read second_reachable _ _ _ (rtc_refl _ _)).
  - vm_compute. reflexivity.
  - vm_compute. reflexivity.
  - apply alone_runs. vm_compute. reflexivity.
Defined.

Lemma Save_writes_under_guard_witness :
  alone_answer schema least 1 save_guarded (begun 1 empty_server) = Some (Ok (), one_more_write (with_guarded tx)) /\
  runs_guarded schema least hash guarded (elsewhere schema least 1) 1 save_guarded (begun 1 empty_server)
    (Ok (), one_more_write (with_guarded tx)) (alone_server schema least 1 save_guarded (begun 1 empty_server)).
Proof.
  split; [vm_compute; reflexivity |].
  refine (Save_writes_under_guard schema least hash guarded eq_refl 1 no_stmts tx ctx "r2" "101" 0
    (begun 1 empty_server) _ _ _ _ _).
  - apply (bool_decide_eq_true_1 (NoDup _)). vm_compute. reflexivity.
  - apply begun_reachable; [reflexivity | apply rtc_refl].
  - apply alone_runs. vm_compute. reflexivity.
Defined.
