(* ===== verification/ObjectStoreTheorems.v ===== *)
(** What the object store promises: nothing shortens, weakens or removes what a
    retention or a hold protects, a stored version never changes, and the keys of
    two tenants or scopes never meet. *)

From stdpp Require Import relations.
From S2P Require Import Prelude GoStrings DomainKernel Errors Ports Fixture ObjectStore.

(** * Version identifiers *)
Lemma value_of_zero_digits k : value_of (replicate k 0) = 0.
Proof. unfold value_of. by induction k. Qed.
Lemma version_id_inj n m : 0 <= n <= max_int64 -> 0 <= m <= max_int64 -> version_id n = version_id m -> n = m.
Proof.
  intros Hn Hm He. assert (forall k, 0 <= k <= max_int64 ->
    Forall (fun d => 0 <= d < 10) (padded k) /\ value_of (padded k) = k) as Hp.
  { intros k Hk. unfold padded. split.
    - apply Forall_app. split; [apply Forall_replicate; lia | apply digits_range; lia].
    - rewrite value_of_app, value_of_zero_digits. unfold digits. rewrite digits_loop_value; unfold max_int64 in *; lia. }
  destruct (Hp n Hn) as [Hrn Hvn], (Hp m Hm) as [Hrm Hvm].
  unfold version_id in He. apply (f_equal bytes_of) in He. rewrite !bytes_of_append in He. apply app_inv_head in He.
  assert (forall l, Forall (fun d => 0 <= d < 10) l -> bytes_of (string_of (digit_char <$> l)) = digit_char <$> l) as Hb.
  { intros l Hl. apply bytes_of_string_of, Forall_fmap. eapply Forall_impl; [exact Hl |].
    cbv beta. unfold compose, byte_ok, digit_char. lia. }
  rewrite !Hb in He by done. rewrite <- Hvn, <- Hvm. f_equal.
  eapply list_fmap_eq_inj; [| exact He]. intros x y. unfold digit_char. lia.
Qed.

(** * A bucket shared by any number of stores *)
Section Bucket.
Context (sha256_hex : bytes -> string).

Inductive object_call :=
| CallPut (req : PutRequest) | CallGet (ref : ObjectRef) | CallHead (ref : ObjectRef)
| CallRetain (ref : ObjectRef) (to_ : Retention) | CallHold (ref : ObjectRef) (hold : LegalHold)
| CallPurge (ref : ObjectRef).
(** What a call leaves, whatever it answers. *)
Definition call (decl : ObjectStoreDeclaration) (ctx : Ctx) (now : Instant) (dead : option error) (c : object_call)
    (b : ObjectBucket) : ObjectBucket :=
  match c with
  | CallPut req => (Put sha256_hex decl ctx now dead b req).2
  | CallGet ref => (Get decl ctx dead b ref).2
  | CallHead ref => (Head decl ctx dead b ref).2
  | CallRetain ref to_ => (Retain decl ctx now dead b ref to_).2
  | CallHold ref hold => (SetLegalHold decl ctx now dead b ref hold).2
  | CallPurge ref => (Purge decl ctx now dead b ref).2
  end.

(** The bucket and its clock. A call reads the clock some time before its turn
    under the lock comes; fewer than 2^63 versions are ever written. *)
Record bucket_at := mkAt { at_bucket : ObjectBucket; at_time : Instant }.
Inductive bstep (x : bucket_at) : bucket_at -> Prop :=
| bstep_time t : at_time x <= t -> bstep x (mkAt (at_bucket x) t)
| bstep_call decl ctx now dead c :
    now <= at_time x -> bk_issued (at_bucket x) < max_int64 ->
    bstep x (mkAt (call decl ctx now dead c (at_bucket x)) (at_time x)).

(** Versions are numbered as they are issued. *)
Definition bucket_ok (b : ObjectBucket) : Prop :=
  0 <= bk_issued b <= max_int64 /\
  forall a v, bk_versions b !! a = Some v ->
    ov_Version (oi_Version (so_info v)) = a.2 /\ exists n, 1 <= n <= bk_issued b /\ a.2 = version_id n.

(** What a step may do to a stored version, [None] when it is purged. *)
Definition kept (v v' : storedVersion) : Prop :=
  so_body v' = so_body v /\ oi_Version (so_info v') = oi_Version (so_info v) /\
  oi_ContentType (so_info v') = oi_ContentType (so_info v) /\
  oi_Encryption (so_info v') = oi_Encryption (so_info v).
#[export] Instance kept_preorder : PreOrder kept.
Proof.
  split; [by intros x; repeat split |]. intros x y z (A1 & A2 & A3 & A4) (B1 & B2 & B3 & B4).
  unfold kept. split_and!; congruence.
Qed.
Definition free (now : Instant) (i : ObjectInfo) : Prop :=
  oi_LegalHold i = false /\ match oi_Retention i with Some r => rt_Until r <= now | None => True end.
(** A retention in force goes on: no earlier, and as strict. *)
Definition goes_on (r : Retention) (i : ObjectInfo) : Prop :=
  exists r', oi_Retention i = Some r' /\ rt_Until r <= rt_Until r' /\
    (rt_Mode r = RetentionCompliance -> rt_Mode r' = RetentionCompliance).
Definition version_step (now : Instant) (v : storedVersion) (o : option storedVersion) : Prop :=
  match o with
  | None => free now (so_info v)
  | Some v' =>
      kept v v' /\
      forall r, oi_Retention (so_info v) = Some r -> now < rt_Until r -> goes_on r (so_info v')
  end.

Lemma goes_on_same r i : oi_Retention i = Some r -> goes_on r i.
Proof. intros H. exists r. split_and!; [done | lia | done]. Qed.
Lemma version_step_same now v : version_step now v (Some v).
Proof. split; [done |]. intros r Hr _. by apply goes_on_same. Qed.

Section Calls.
Context (decl : ObjectStoreDeclaration) (ctx : Ctx) (now : Instant) (dead : option error) (b : ObjectBucket).
Hypothesis Hok : bucket_ok b.
Hypothesis Hissued : bk_issued b < max_int64.

(** A bucket where one version was written, changed or purged. *)
Definition call_effect (b' : ObjectBucket) : Prop :=
  bucket_ok b' /\ forall a v, bk_versions b !! a = Some v -> version_step now v (bk_versions b' !! a).
Lemma effect_none : call_effect b.
Proof. split; [done |]. intros a v ->. apply version_step_same. Qed.
Lemma effect_change a v v' :
  bk_versions b !! a = Some v -> version_step now v (Some v') -> call_effect (put_version b a v' (bk_issued b)).
Proof.
  intros Ha Hv. destruct Hok as [Hn Hids]. split.
  - split; [done |]. intros a' w Hw. cbn in Hw. apply lookup_insert_Some in Hw as [[<- <-] | [_ Hw]]; [| by apply Hids].
    destruct Hv as [(_ & Hid & _) _]. rewrite Hid. by apply Hids.
  - intros a' w Hw. cbn. destruct (decide (a = a')) as [<- | Hne].
    + rewrite lookup_insert_eq. by simplify_eq.
    + rewrite lookup_insert_ne, Hw by done. apply version_step_same.
Qed.
Lemma effect_purge a v :
  bk_versions b !! a = Some v -> free now (so_info v) ->
  call_effect (mkBucket (delete a (bk_versions b)) (bk_issued b)).
Proof.
  intros Ha Hv. destruct Hok as [Hn Hids]. split.
  - split; [done |]. intros a' w Hw. cbn in Hw. apply lookup_delete_Some in Hw as [_ Hw]. by apply Hids.
  - intros a' w Hw. cbn. destruct (decide (a = a')) as [<- | Hne].
    + rewrite lookup_delete_eq. by simplify_eq.
    + rewrite lookup_delete_ne, Hw by done. apply version_step_same.
Qed.
Lemma effect_write key v :
  ov_Version (oi_Version (so_info v)) = version_id (bk_issued b + 1) ->
  call_effect (put_version b (key, version_id (bk_issued b + 1)) v (bk_issued b + 1)).
Proof.
  intros Hv. destruct Hok as [Hn Hids]. split.
  - split; [cbn; lia |]. intros a w Hw. cbn in Hw. apply lookup_insert_Some in Hw as [[<- <-] | [_ Hw]]; cbn.
    + split; [done |]. exists (bk_issued b + 1). split; [lia | done].
    + destruct (Hids _ _ Hw) as (H1 & n & H2 & H3). split; [done |]. exists n. split; [lia | done].
  - intros a w Hw. destruct (Hids _ _ Hw) as (_ & n & Hn' & Ha). cbn. rewrite lookup_insert_ne, Hw; [apply version_step_same |].
    intros <-. cbn in Ha. apply version_id_inj in Ha; lia.
Qed.

Lemma answers_effect {A} (r : result error (A * ObjectBucket)) :
  (forall a b', r = Ok (a, b') -> call_effect b') -> call_effect (answers b r).2.
Proof. intros H. destruct r as [[a b'] | |]; [by eapply H | apply effect_none | apply effect_none]. Qed.
Lemma retained_step v to_ info :
  Known (rt_Mode to_) = true -> retained now v to_ = Ok info ->
  version_step now v (Some (mkStored info (so_body v))).
Proof.
  unfold retained. intros Hk He. assert (info = with_retention (so_info v) (Some to_)) as ->
    by (repeat case_match; congruence).
  split; [done |]. intros r Hr Hlive. rewrite Hr in He. rewrite (proj2 (Z.ltb_lt _ _)) in He by done.
  exists to_. split; [done |]. unfold Known in Hk. apply orb_true_iff in Hk.
  destruct (String.eqb_spec (rt_Mode r) RetentionCompliance) as [Hc | Hc]; cbn in He.
  - destruct Hk as [Hk | Hk]; [| by rewrite Hk in He]. apply String.eqb_eq in Hk.
    rewrite Hk in He. cbn in He. destruct (_ || _) eqn:Ho; [done |]. split; [| done].
    apply orb_false_iff in Ho as [Ho _]. by apply Z.ltb_ge in Ho.
  - destruct (_ || _) eqn:Ho; [done |]. split; [| done].
    apply orb_false_iff in Ho as [Ho _]. by apply Z.ltb_ge in Ho.
Qed.
Lemma checkRetention_known r : checkRetention decl now r = Ok () -> Known (rt_Mode r) = true.
Proof. unfold checkRetention. destruct (de_Ceiling decl); [| done]. by destruct (Known (rt_Mode r)). Qed.
Lemma stored_at_lookup a v : stored_at dead b a = Ok v -> bk_versions b !! a = Some v.
Proof. unfold stored_at, acquire. destruct dead; [done |]. cbn. destruct (bk_versions b !! a); congruence. Qed.

Lemma call_has_effect c : call_effect (call decl ctx now dead c b).
Proof.
  destruct c as [req | ref | ref | ref to_ | ref hold | ref]; cbn [call];
    unfold Put, Get, Head, Retain, SetLegalHold, Purge; apply answers_effect; intros a b' He.
  - destruct (ObjectKey_Validate _); [| done | done]. cbn in He. destruct (physical _ _ _) as [key | |]; [| done | done].
    cbn in He. destruct (negb _); [done |]. destruct (datedRetention _ _ _); [| done | done]. cbn in He.
    destruct (acquire dead); [| done | done]. cbn in He. rewrite wrap64_id in He
      by (destruct Hok as [? _]; unfold in_int64, min_int64, max_int64 in *; lia).
    injection He as _ <-. by apply effect_write.
  - destruct (locate _ _ _); [| done | done]. cbn in He. destruct (stored_at _ _ _); [| done | done].
    injection He as _ <-. apply effect_none.
  - destruct (locate _ _ _); [| done | done]. cbn in He. destruct (stored_at _ _ _); [| done | done].
    injection He as _ <-. apply effect_none.
  - destruct (locate _ _ _) as [address | |]; [| done | done]. cbn in He.
    destruct (checkRetention _ _ _) as [[] | |] eqn:Hc; [| done | done]. cbn in He.
    destruct (stored_at _ _ _) as [v | |] eqn:Hv; [| done | done]. cbn in He.
    destruct (retained _ _ _) as [info | |] eqn:Hr; [| done | done]. injection He as _ <-.
    eapply effect_change; [by apply stored_at_lookup |]. eapply retained_step; [| done]. by eapply checkRetention_known.
  - destruct (locate _ _ _) as [address | |]; [| done | done]. cbn in He. destruct (_ && _); [done |].
    destruct (stored_at _ _ _) as [v | |] eqn:Hv; [| done | done]. injection He as _ <-.
    eapply effect_change; [by apply stored_at_lookup |]. split; [done |]. intros r Hr _. by apply goes_on_same.
  - destruct (locate _ _ _) as [address | |]; [| done | done]. cbn in He.
    destruct (stored_at _ _ _) as [v | |] eqn:Hv; [| done | done]. apply stored_at_lookup in Hv. cbn in He.
    destruct (oi_LegalHold (so_info v)) eqn:Hh; [done |].
    destruct (oi_Retention (so_info v)) as [r |] eqn:Hr; [destruct (Z.ltb_spec now (rt_Until r)); [done |] |];
      injection He as _ <-; (eapply effect_purge; [exact Hv |]); split; rewrite ?Hr; done.
Qed.
End Calls.

Lemma bstep_ok x y : bstep x y -> bucket_ok (at_bucket x) -> bucket_ok (at_bucket y).
Proof. destruct 1 as [t Ht | decl ctx now dead c Hnow Hi]; [done |]. intros Hok. by apply call_has_effect. Qed.
Definition start (t : Instant) : bucket_at := mkAt NewObjectBucket t.
Lemma bucket_reachable_ok t x : rtc bstep (start t) x -> bucket_ok (at_bucket x).
Proof.
  revert x. apply rtc_ind_r; [| intros x y _ Hs; by apply bstep_ok].
  split; [cbn; unfold max_int64; lia |]. intros a v H. cbn in H. by rewrite lookup_empty in H.
Qed.
Lemma bstep_time_le x y : rtc bstep x y -> at_time x <= at_time y.
Proof. induction 1 as [| x y z Hxy _ IH]; [lia |]. destruct Hxy; cbn in *; lia. Qed.

(** C14: A version retained until some instant is still there before it, with the
    body, digest, type and encryption it was written with, and a retention no
    earlier and no weaker (one in COMPLIANCE stays in COMPLIANCE): whatever calls
    any number of stores of any tenant or scope make on the bucket, including
    calls that read the clock long before their turn came. *)
Theorem retained_version_stands t0 x y a v r
  (Hreach : rtc bstep (start t0) x) (Hrun : rtc bstep x y)
  (Hv : bk_versions (at_bucket x) !! a = Some v)
  (Hr : oi_Retention (so_info v) = Some r) (Hbefore : at_time y < rt_Until r) :
  exists v', bk_versions (at_bucket y) !! a = Some v' /\ kept v v' /\ goes_on r (so_info v').
Proof.
  apply bucket_reachable_ok in Hreach as Hok. clear Hreach. revert v r Hv Hr Hbefore.
  induction Hrun as [x | x x1 y Hs Hrun IH]; intros v r Hv Hr Hbefore.
  { exists v. split_and!; [done | reflexivity | by apply goes_on_same]. }
  pose proof (bstep_ok _ _ Hs Hok) as Hok1. pose proof (bstep_time_le _ _ Hrun) as Hle.
  destruct Hs as [t Ht | decl ctx now dead c Hnow Hi]; [by eapply IH |]. cbn in *.
  destruct (call_has_effect decl ctx now dead _ Hok Hi c) as [_ Heff]. specialize (Heff a v Hv).
  destruct (bk_versions _ !! a) as [v1 |] eqn:Hv1; cbn in Heff.
  - destruct Heff as [Hk Hg]. destruct (Hg r Hr ltac:(lia)) as (r1 & Hr1 & Hu1 & Hm1).
    destruct (IH Hok1 v1 r1 eq_refl Hr1 ltac:(lia)) as (v' & Hv' & Hk' & r' & Hr' & Hu' & Hm').
    exists v'. split_and!; [done | by transitivity v1 |]. exists r'. split_and!; [done | lia | auto].
  - destruct Heff as [_ Hfree]. rewrite Hr in Hfree. lia.
Qed.

End Bucket.

(** * Keys *)

(** What a layer that resolves dot segments and collapses slashes makes of a
    path: its segments. *)
Definition resolve_segment (stack : list string) (segment : string) : list string :=
  if String.eqb segment "" || String.eqb segment "." then stack
  else if String.eqb segment ".." then tail stack
  else segment :: stack.
Definition normalised (path : string) : list string := reverse (foldl resolve_segment [] (split_on "/" path)).

Definition slash : ascii := "/"%char.
Lemma split_on_cons c s : c <> slash ->
  split_on slash (String c s) = match split_on slash s with seg :: segs => String c seg :: segs | [] => [String c ""] end.
Proof. intros Hc. cbn [split_on]. destruct (Ascii.eqb_spec c slash); [done | done]. Qed.
Lemma split_on_segment t s :
  contains "/" t = false -> split_on slash (t ++ String slash s) = t :: split_on slash s.
Proof.
  induction t as [| c t IH]; intros Hc; [done |]. cbn [contains] in Hc. apply orb_false_iff in Hc as [Hp Hc].
  assert (c <> slash) as Hne.
  { intros ->. cbn in Hp. by destruct t. }
  change (split_on slash (String c (t ++ String slash s)) = String c t :: split_on slash s).
  by rewrite split_on_cons, IH.
Qed.

(** The segments of a valid key go on the stack in order, the empty ones apart. *)
Lemma resolve_plain stack segments :
  existsb dot_segment segments = false ->
  foldl resolve_segment stack segments = reverse (filter (fun x => x <> ""%string) segments) ++ stack.
Proof.
  revert stack. induction segments as [| x l IH]; intros stack Hd; [done |].
  cbn in Hd. apply orb_false_iff in Hd as [Hx Hd]. unfold dot_segment in Hx. apply orb_false_iff in Hx as [H1 H2].
  cbn [foldl]. rewrite IH by done. unfold resolve_segment. rewrite H1, H2, orb_false_r.
  destruct (String.eqb_spec x "") as [-> | Hne].
  - by rewrite filter_cons_False by (by intros H).
  - rewrite filter_cons_True, reverse_cons, <- app_assoc by done. done.
Qed.
Lemma valid_key_segments k : ObjectKey_Validate k = Ok () -> existsb dot_segment (split_on slash k) = false.
Proof.
  unfold ObjectKey_Validate. destruct (String.eqb k ""); [done |]. destruct (HasPrefix k "/"); [done |].
  change "/"%char with slash. by destruct (existsb dot_segment (split_on slash k)).
Qed.

(** Whose prefix a carrier writes under. *)
Definition owner (ctx : Ctx) : option TenantID := execution ← ctx_execution ctx; Tenant execution.
Definition prefix_of (ctx : Ctx) : list string :=
  match owner ctx with Some t => ["tenant"; t] | None => ["platform"] end%string.

Lemma Physical_shape ctx scope key p :
  Worm.Physical ctx scope key = Ok p ->
  match owner ctx with
  | None => p = ("platform/" ++ key)%string
  | Some t => p = ("tenant/" ++ t ++ "/" ++ key)%string /\ contains "/" t = false /\ dot_segment t = false
  end.
Proof.
  unfold Worm.Physical, owner, RequireExecutionContext, ExecutionContextFrom. destruct (ctx_Err ctx); [done |].
  destruct (ctx_execution ctx) as [e |]; [| done]. cbn.
  destruct (String.eqb scope ScopePlatform), (Tenant e) as [t |]; try done; [by intros [= <-] |].
  destruct (contains "/" t); [done |]. destruct (dot_segment t); [done |]. by intros [= <-].
Qed.
Lemma Physical_normalised ctx scope key p :
  ObjectKey_Validate key = Ok () -> Worm.Physical ctx scope key = Ok p -> owner ctx <> Some ""%string ->
  normalised p = prefix_of ctx ++ filter (fun x => x <> ""%string) (split_on slash key).
Proof.
  intros Hk%valid_key_segments Hp%Physical_shape Hn. unfold normalised, prefix_of. change "/"%char with slash.
  destruct (owner ctx) as [t |] eqn:Ho.
  - destruct Hp as (-> & Hs & Hd). change ("tenant/" ++ t ++ "/" ++ key)%string
      with ("tenant" ++ String slash (t ++ String slash key))%string.
    rewrite split_on_segment, split_on_segment by done. cbn [foldl].
    unfold resolve_segment at 3. cbn [String.eqb Ascii.eqb Bool.eqb orb].
    unfold resolve_segment at 2. unfold dot_segment in Hd. apply orb_false_iff in Hd as [Hd1 Hd2].
    destruct (String.eqb_spec t ""); [by subst |]. rewrite Hd1, Hd2. cbn [orb].
    rewrite resolve_plain, reverse_app, reverse_involutive by done. done.
  - subst p. change ("platform/" ++ key)%string with ("platform" ++ String slash key)%string.
    rewrite split_on_segment by done. cbn [foldl]. unfold resolve_segment at 2.
    cbn [String.eqb Ascii.eqb Bool.eqb orb]. rewrite resolve_plain, reverse_app, reverse_involutive by done. done.
Qed.

(** C30: Two references whose physical keys agree, even only after a layer between
    resolved the paths, belong to the same tenant, or both to the platform; and
    the same physical key is the same key of the same owner. No key a caller
    chooses, and no tenant identifier, reaches outside its own prefix. *)
Theorem physical_keys_apart ctx ctx' scope scope' key key' p p'
  (Hk : ObjectKey_Validate key = Ok ()) (Hk' : ObjectKey_Validate key' = Ok ())
  (Hp : Worm.Physical ctx scope key = Ok p) (Hp' : Worm.Physical ctx' scope' key' = Ok p')
  (Hn : owner ctx <> Some ""%string) (Hn' : owner ctx' <> Some ""%string)
  (Hsame : normalised p = normalised p') :
  owner ctx = owner ctx' /\ (p = p' -> key = key').
Proof.
  assert (owner ctx = owner ctx') as Ho.
  { rewrite (Physical_normalised _ _ _ _ Hk Hp Hn), (Physical_normalised _ _ _ _ Hk' Hp' Hn') in Hsame.
    unfold prefix_of in Hsame. by destruct (owner ctx), (owner ctx'); simplify_list_eq. }
  split; [done |]. apply Physical_shape in Hp. apply Physical_shape in Hp'. rewrite <- Ho in Hp'.
  destruct (owner ctx) as [t |].
  - destruct Hp as [-> _], Hp' as [-> _]. intros He. apply (f_equal bytes_of) in He.
    rewrite !bytes_of_append in He. do 3 apply app_inv_head in He. by apply bytes_of_inj.
  - subst. intros He. apply (f_equal bytes_of) in He. rewrite !bytes_of_append in He.
    apply app_inv_head in He. by apply bytes_of_inj.
Qed.

(** * A concrete bucket *)
Module BucketFixture.
Local Open Scope string_scope.
Definition hash (b : bytes) : string := string_of b.
Definition declared : ObjectStoreDeclaration :=
  mkDeclaration ScopeTenant (mkEncryption "AES256" "") (Some (mkCeiling 100000000000 "DAT-15")).
Definition ctx : Ctx := Fixture.Fixture.ctx "t1" "k".
Definition until : Retention := mkRetention RetentionCompliance 50000000000.
Definition request : PutRequest := mkPutRequest "invoices/1" [104; 105] "hi" "text/plain" (Some until).
Definition start_at : bucket_at := start 1000.
Definition put_at : bucket_at := mkAt (call hash declared ctx 1000 None (CallPut request) NewObjectBucket) 1000.
Definition address : objectAddress := ("tenant/t1/invoices/1", "v-000001").
Definition stored : storedVersion :=
  mkStored (mkInfo (mkVersion "invoices/1" "v-000001" "hi" 2 1000) "text/plain" (Some until) false (mkEncryption "AES256" ""))
    [104; 105].
(** A later purge, whose turn comes at 49 s. *)
Definition purged_at : bucket_at :=
  mkAt (call hash declared ctx 2000 None (CallPurge (mkRef "invoices/1" "v-000001")) (at_bucket put_at)) 49000000000.
End BucketFixture.
Import BucketFixture.

Lemma retained_version_stands_witness :
  bk_versions (at_bucket put_at) !! address = Some stored /\
  exists v', bk_versions (at_bucket purged_at) !! address = Some v' /\ kept stored v' /\ goes_on until (so_info v').
Proof.
  assert (bk_versions (at_bucket put_at) !! address = Some stored) as Hv by (vm_compute; reflexivity).
  split; [exact Hv |].
  refine (retained_version_stands hash 1000 put_at purged_at address stored until _ _ Hv _ _).
  - eapply rtc_l; [| apply rtc_refl]. unfold put_at. apply (bstep_call hash (start 1000)); vm_compute; [discriminate | reflexivity].
  - eapply rtc_l; [apply (bstep_time hash put_at 49000000000); vm_compute; discriminate |].
    eapply rtc_l; [| apply rtc_refl]. unfold purged_at.
    apply (bstep_call hash (mkAt (at_bucket put_at) 49000000000)); vm_compute; [discriminate | reflexivity].
  - reflexivity.
  - vm_compute. reflexivity.
Defined.

Lemma physical_keys_apart_witness :
  Worm.Physical ctx ScopeTenant "invoices/1" = Ok "tenant/t1/invoices/1"%string /\
  Worm.Physical ctx ScopeTenant "invoices//1" = Ok "tenant/t1/invoices//1"%string /\
  owner ctx = owner ctx.
Proof.
  split; [vm_compute; reflexivity |]. split; [vm_compute; reflexivity |].
  refine (proj1 (physical_keys_apart ctx ctx ScopeTenant ScopeTenant "invoices/1" "invoices//1"
    "tenant/t1/invoices/1" "tenant/t1/invoices//1" _ _ _ _ _ _ _)); try (vm_compute; reflexivity); vm_compute; discriminate.
Defined.

(** The fake lacks the rule for a tenant that is a dot segment. *)
Lemma fake_accepts_a_dot_tenant :
  physical declared (Fixture.Fixture.ctx ".." "k") "k" = Ok "tenant/../k"%string /\
  normalised "tenant/../k" = ["k"%string] /\
  Worm.Physical (Fixture.Fixture.ctx ".." "k") ScopeTenant "k" = Err Worm.ErrCarrierTenantUnresolved.
Proof. split_and!; vm_compute; reflexivity. Qed.
