(* ===== verification/S3Theorems.v ===== *)
(** What the store over S3 promises: a write whose answer is not that its outcome
    is unknown wrote exactly what it answers, or nothing. *)

From stdpp Require Import relations.
From S2P Require Import Prelude GoStrings GoSlices DomainKernel Errors Ports Fixture ObjectStore S3Store.

(** * Base64 *)
Lemma b64_value_char v : 0 <= v < 64 -> b64_value (b64_char v) = Some v /\ b64_char v <> pad /\
  b64_char v <> 10 /\ b64_char v <> 13 /\ byte_ok (b64_char v).
Proof.
  intros Hv. assert (forallb (fun v => bool_decide (b64_value (b64_char v) = Some v) && negb (b64_char v =? pad) &&
    negb (b64_char v =? 10) && negb (b64_char v =? 13) && (0 <=? b64_char v) && (b64_char v <? 256))
    (Z.of_nat <$> List.seq 0 64) = true) as Hall by (vm_compute; reflexivity).
  rewrite forallb_forall in Hall. specialize (Hall v). cbv beta in Hall.
  rewrite !andb_true_iff, !negb_true_iff, bool_decide_eq_true, !Z.eqb_neq, Z.leb_le, Z.ltb_lt in Hall.
  unfold byte_ok. assert (v ∈ Z.of_nat <$> List.seq 0 64) as Hin%list_elem_of_In; [| apply Hall in Hin; by destruct Hin as [[[[[H1 H2] H3] H4] H5] H6]].
  apply list_elem_of_fmap. exists (Z.to_nat v). split; [lia |]. apply list_elem_of_In, in_seq. lia.
Qed.
Lemma lor_above a b s : 0 <= s -> 0 <= a < 2 ^ s -> 0 <= b -> Z.lor (Z.shiftl b s) a = b * 2 ^ s + a.
Proof. intros. rewrite Z.lor_comm, lor_disjoint by done. lia. Qed.
(** The six-bit pieces of three bytes, and the bytes of four pieces. *)
Lemma b64_pieces a b c : byte_ok a -> byte_ok b -> byte_ok c ->
  Z.shiftr a 2 = a / 4 /\
  Z.lor (Z.shiftl (Z.land a 3) 4) (Z.shiftr b 4) = (a mod 4) * 16 + b / 16 /\
  Z.lor (Z.shiftl (Z.land b 15) 2) (Z.shiftr c 6) = (b mod 16) * 4 + c / 64 /\
  Z.land c 63 = c mod 64 /\ Z.shiftl (Z.land a 3) 4 = (a mod 4) * 16 /\ Z.shiftl (Z.land b 15) 2 = (b mod 16) * 4.
Proof.
  intros Ha Hb Hc. unfold byte_ok in *.
  change 3 with (Z.ones 2). change 15 with (Z.ones 4). change 63 with (Z.ones 6). rewrite !Z.land_ones by lia.
  rewrite !Z.shiftr_div_pow2 by lia.
  rewrite (lor_above (b / 2 ^ 4)), (lor_above (c / 2 ^ 6)), !Z.shiftl_mul_pow2; try lia; try (split; Z.to_euclidean_division_equations; lia);
    try (Z.to_euclidean_division_equations; lia).
Qed.
Lemma b64_bytes w x y z : 0 <= w < 64 -> 0 <= x < 64 -> 0 <= y < 64 -> 0 <= z < 64 ->
  byte_of (Z.lor (Z.shiftl w 2) (Z.shiftr x 4)) = w * 4 + x / 16 /\
  byte_of (Z.lor (Z.shiftl x 4) (Z.shiftr y 2)) = (x mod 16) * 16 + y / 4 /\
  byte_of (Z.lor (Z.shiftl y 6) z) = (y mod 4) * 64 + z.
Proof.
  intros Hw Hx Hy Hz. unfold byte_of. change 255 with (Z.ones 8). rewrite !Z.land_ones, !Z.shiftr_div_pow2 by lia.
  rewrite !lor_above; try lia; try (split; Z.to_euclidean_division_equations; lia).
Qed.

Lemma b64_groups_encode bs : Forall byte_ok bs -> b64_groups (b64_encode bs) = Some bs.
Proof.
  induction bs as [bs IH] using (induction_ltof1 _ (@length Z)); unfold ltof in IH. intros Hbs.
  assert (forall a b c, byte_ok a -> byte_ok b -> byte_ok c -> 0 <= a / 4 < 64 /\ 0 <= (a mod 4) * 16 + b / 16 < 64 /\
    0 <= (b mod 16) * 4 + c / 64 < 64 /\ 0 <= c mod 64 < 64) as Hr.
  { unfold byte_ok. intros a b c Ha Hb Hc. split_and!; Z.to_euclidean_division_equations; lia. }
  assert (byte_ok 0) as H0 by by vm_compute.
  destruct bs as [| a [| b [| c rest]]]; [done | | |]; cbn [b64_encode];
    repeat (apply Forall_cons in Hbs as [? Hbs]).
  - destruct (b64_pieces a 0 0) as (-> & _ & _ & _ & -> & _); [done ..|].
    destruct (Hr a 0 0) as (R1 & R2 & _); [done ..|]. rewrite Z.add_0_r in R2.
    destruct (b64_value_char _ R1) as [V1 _], (b64_value_char _ R2) as [V2 _].
    cbn [b64_groups]. rewrite V1, V2. destruct (b64_bytes _ _ 0 0 R1 R2) as (-> & _); [lia .. |].
    rewrite !Z.eqb_refl, bool_decide_true by done. cbn. do 2 f_equal.
    unfold byte_ok in *. Z.to_euclidean_division_equations. lia.
  - destruct (b64_pieces a b 0) as (-> & -> & _ & _ & _ & ->); [done ..|].
    destruct (Hr a b 0) as (R1 & R2 & R3 & _); [done ..|]. rewrite Z.add_0_r in R3.
    destruct (b64_value_char _ R1) as [V1 _], (b64_value_char _ R2) as [V2 _], (b64_value_char _ R3) as (V3 & N3 & _).
    cbn [b64_groups]. rewrite V1, V2, V3. destruct (b64_bytes _ _ _ 0 R1 R2 R3) as (-> & -> & _); [lia .. |].
    rewrite (proj2 (Z.eqb_neq _ _) N3), Z.eqb_refl, bool_decide_true by done. cbn. unfold byte_ok in *.
    do 2 f_equal; [| f_equal]; Z.to_euclidean_division_equations; lia.
  - destruct (b64_pieces a b c) as (-> & -> & -> & -> & _); [done ..|].
    destruct (Hr a b c) as (R1 & R2 & R3 & R4); [done ..|].
    destruct (b64_value_char _ R1) as [V1 _], (b64_value_char _ R2) as [V2 _], (b64_value_char _ R3) as (V3 & N3 & _),
      (b64_value_char _ R4) as (V4 & N4 & _).
    cbn [app b64_groups]. rewrite V1, V2, V3, V4.
    rewrite (proj2 (Z.eqb_neq _ _) N3), (proj2 (Z.eqb_neq _ _) N4). cbn [mbind option_bind].
    destruct (b64_bytes _ _ _ _ R1 R2 R3 R4) as (-> & -> & ->).
    rewrite IH by (done || (cbn; lia)). cbn. unfold byte_ok in *.
    do 2 f_equal; [| f_equal; [| f_equal]]; Z.to_euclidean_division_equations; lia.
Qed.

Definition plain_char (c : Z) : Prop := byte_ok c /\ c <> 10 /\ c <> 13.
Lemma b64_char_plain v : 0 <= v < 64 -> plain_char (b64_char v).
Proof. intros Hv. destruct (b64_value_char v Hv) as (_ & _ & ? & ? & ?). by split. Qed.
Lemma b64_encode_plain bs : Forall byte_ok bs -> Forall plain_char (b64_encode bs).
Proof.
  induction bs as [bs IH] using (induction_ltof1 _ (@length Z)); unfold ltof in IH. intros Hbs.
  assert (plain_char pad) as Hp by by vm_compute.
  assert (byte_ok 0) as H0 by by vm_compute.
  destruct bs as [| a [| b [| c rest]]]; [constructor | | |]; cbn [b64_encode];
    repeat (apply Forall_cons in Hbs as [? Hbs]).
  - destruct (b64_pieces a 0 0) as (-> & _ & _ & _ & -> & _); [done ..|]. unfold byte_ok in *.
    repeat constructor; try apply Hp; apply b64_char_plain; Z.to_euclidean_division_equations; lia.
  - destruct (b64_pieces a b 0) as (-> & -> & _ & _ & _ & ->); [done ..|]. unfold byte_ok in *.
    repeat constructor; try apply Hp; apply b64_char_plain; Z.to_euclidean_division_equations; lia.
  - destruct (b64_pieces a b c) as (-> & -> & -> & -> & _); [done ..|].
    apply Forall_app. split; [| apply IH; [cbn; lia | done]]. unfold byte_ok in *.
    repeat constructor; try apply b64_char_plain; Z.to_euclidean_division_equations; lia.
Qed.
Lemma DecodeString_EncodeToString bs : Forall byte_ok bs -> DecodeString (EncodeToString bs) = Some bs.
Proof.
  intros Hbs. unfold DecodeString, EncodeToString. pose proof (b64_encode_plain bs Hbs) as Hp.
  rewrite bytes_of_string_of by (eapply Forall_impl; [exact Hp | by intros c (? & _)]).
  replace (filter _ (b64_encode bs)) with (b64_encode bs); [by apply b64_groups_encode |].
  induction Hp as [| c l (_ & ? & ?) _ IH]; [done |]. by rewrite filter_cons_True, <- IH.
Qed.

(** * S3 as it documents itself *)
Record s3object := mkS3Object { xo_headers : Headers; xo_body : bytes }.

Section S3.
Context `{MapOrder} {W : Type} (api : s3api W).
(** The versions the bucket keeps. *)
Context (view : W -> gmap objectAddress s3object).

(** The version a write makes: its headers say what was asked. *)
Definition written (in_ : put_input) (version : string) (o : s3object) : Prop :=
  xo_body o = pi_Body in_ /\
  xo_headers o = mkHeaders (Some version) (Some (pi_Checksum in_)) (Some (len (pi_Body in_))) (pi_ContentType in_)
    (pi_Metadata in_) (match pi_Lock in_ with Some r => rt_Mode r | None => "" end) (rt_Until <$> pi_Lock in_) ""
    (pi_SSE in_) (pi_KMSKeyID in_).
Definition adds (in_ : put_input) (version : string) (o : s3object) (w w' : W) : Prop :=
  version <> ""%string /\ view w !! (pi_Key in_, version) = None /\ written in_ version o /\
  view w' = <[(pi_Key in_, version) := o]> (view w).

(** What S3 documents as a refusal that wrote nothing: a 4xx, or an API error
    laid on the client where no response is at hand. *)
Definition refusal (e : sdk_error) : Prop :=
  400 <= se_status e < 500 \/ (se_status e = 0 /\ exists code, se_api e = Some (code, FaultClient)).
(** After a failure: nothing, or the version, where the failure is none of those
    that exclude it. *)
Definition unclear (in_ : put_input) (e : sdk_error) (w w' : W) : Prop :=
  view w' = view w \/
  (se_unreached e = false /\ se_refused e = false /\ ~ refusal e /\ exists version o, adds in_ version o w w').
(** A response below 400 that came as a failure: the client could not read it. *)
Definition unread (e : sdk_error) : Prop := se_status e <> 0 /\ se_status e < 400.
Lemma answered_refusal e : answered e = true -> refusal e \/ unread e.
Proof.
  unfold answered, refusal, unread, Status. destruct (Z.eqb_spec (se_status e) 0) as [E | E]; cbn.
  - destruct (se_api e) as [[code f] |]; [| done]. intros ->%bool_decide_eq_true. left. right. eauto.
  - intros Hlt%Z.ltb_lt. lia.
Qed.

(** A versioned bucket: a write the server accepts makes one new version; one
    refused with a 4xx, or that never reached it, makes none; after any other
    failure it may have made one. Reading changes nothing. *)
Class VersionedBucket := {
  vb_put in_ w r w' : PutObject api in_ w = (r, w') ->
    match r with
    | Ok out => exists version o, adds in_ version o w w' /\
        forall out' id, out = Some out' -> po_VersionId out' = Some id -> id <> ""%string -> id = version
    | Err e => unclear in_ e w w'
    | Panic _ => False
    end;
  vb_get address w o : view w !! address = Some o -> GetObject api address w = (Ok (xo_headers o, xo_body o), w);
  vb_head address w o : view w !! address = Some o -> HeadObject api address w = (Ok (xo_headers o), w)
}.

(** A call that is not idempotent, under the composition: it may fail before
    anything is sent; it runs the act once, and again only after a failure that
    never reached the server. *)
Inductive sent {A} (act : W -> result sdk_error A * W) (w : W) : result sdk_error A -> W -> Prop :=
| sent_none e : sent act w (Err e) w
| sent_last r w' : act w = (r, w') -> sent act w r w'
| sent_again e w1 r w' : act w = (Err e, w1) -> effectAbsent e = true -> sent act w1 r w' -> sent act w r w'.
Context (call_of : forall A, bool -> (W -> result sdk_error A * W) -> W -> result sdk_error A * W).
Class ComposedCall := {
  cc_effect A (act : W -> result sdk_error A * W) w r w' : call_of A false act w = (r, w') -> sent act w r w';
  (** An idempotent act that succeeds without changing the world is its answer. *)
  cc_read A (act : W -> result sdk_error A * W) w a : act w = (Ok a, w) -> call_of A true act w = (Ok a, w)
}.
Context `{!VersionedBucket, !ComposedCall}.
Context (sha256 : bytes -> bytes) (decl : ObjectStoreDeclaration) (now : Instant) (ready : bool).

Lemma sent_put in_ w r w' : sent (PutObject api in_) w r w' ->
  match r with
  | Ok out => exists version o, adds in_ version o w w' /\
      forall out' id, out = Some out' -> po_VersionId out' = Some id -> id <> ""%string -> id = version
  | Err e => unclear in_ e w w'
  | Panic _ => False
  end.
Proof.
  induction 1 as [w e | w r w' He | w e w1 r w' He Ha _ IH]; [by left | by apply vb_put in He |].
  apply vb_put in He as [Hv | (Hn & _)]; [| unfold effectAbsent in Ha; congruence].
  destruct r as [out | e' |]; [| | done].
  - destruct IH as (version & o & (B1 & B2 & B3 & B4) & B5). exists version, o. unfold adds.
    rewrite Hv in B2, B4. done.
  - destruct IH as [IH | (B1 & B2 & B3 & version & o & B4 & B5 & B6 & B7)]; [left; congruence | right].
    rewrite Hv in B5, B7. split_and!; [done | done | done |]. exists version, o. by split_and!.
Qed.
Lemma put_request_total ctx req p : put_request sha256 decl now ctx req <> Panic p.
Proof.
  unfold put_request. destruct (ObjectKey_Validate _) eqn:Hk; cbn; [| done | by unfold ObjectKey_Validate in Hk; repeat case_match].
  destruct (Worm.Physical _ _ _) eqn:Hp; cbn;
    [| done | unfold Worm.Physical, RequireExecutionContext, ExecutionContextFrom, mbind, result_bind in Hp; repeat case_match; congruence].
  destruct (negb _); [done |]. destruct (ServerSideEncryption _). destruct (put_Retention req); [| done].
  destruct (Worm.CheckRetention _ _ _) eqn:Hc; cbn; [done | done |].
  unfold Worm.CheckRetention in Hc. repeat case_match; congruence.
Qed.

(** C24: A write over S3, whatever fails and however the composition repeats it: an
    answer with a version wrote that one version of the key, new, and nothing
    else, under the checksum, retention and encryption declared; an answer that
    the outcome is unknown wrote that at most; any other failure wrote nothing,
    so it may be repeated, save that the code takes a success the client could
    not read for a refusal. *)
Theorem put_outcome_honest ctx req w r w'
  (Hput : Put api call_of sha256 decl now ready ctx req w = (r, w')) :
  match r with
  | Ok version =>
      exists in_ o, put_request sha256 decl now ctx req = Ok in_ /\ adds in_ (ov_Version version) o w w' /\
        Ref version = mkRef (put_Key req) (ov_Version version)
  | Err (OutcomeUnknown _) =>
      exists in_, put_request sha256 decl now ctx req = Ok in_ /\
        (view w' = view w \/ exists version o, adds in_ version o w w')
  | Err f => view w' = view w \/
      exists e in_ version o, f = translate "PutObject" e /\ unread e /\
        put_request sha256 decl now ctx req = Ok in_ /\ adds in_ version o w w'
  | Panic _ => False
  end.
Proof.
  unfold Put in Hput. destruct (put_request sha256 decl now ctx req) as [in_ | e | p] eqn:Hreq.
  - unfold confirmed in Hput. destruct ready; [| injection Hput as <- <-; by left].
    destruct (call_of _ false (PutObject api in_) w) as [r1 w1] eqn:Hc. apply cc_effect, sent_put in Hc.
    destruct r1 as [out | e | p]; [| | done]; injection Hput as <- <-.
    + destruct Hc as (version & o & Hadds & Hid). unfold put_answer.
      assert (exists in', @Ok error put_input in_ = Ok in' /\ (view w1 = view w \/ exists version o, adds in' version o w w1))
        as Hmay by (exists in_; split; [done |]; right; by exists version, o).
      destruct out as [out |]; [| by eauto 8]. destruct (po_VersionId out) as [id |] eqn:Eid; [| by eauto 8].
      destruct id as [| ch id]; [by eauto 8 |]. destruct (negb _); [by eauto 8 |].
      rewrite (Hid out (String ch id) eq_refl Eid) by done. exists in_, o. by split_and!.
    + unfold putOutcome. destruct (effectAbsent e || se_refused e) eqn:Hr.
      { destruct Hc as [Hc | (B1 & B2 & _)]; [by left |]. unfold effectAbsent in Hr. by rewrite B1, B2 in Hr. }
      destruct (answered e) eqn:Ha.
      { assert (view w1 = view w \/ exists e0 in' version o, translate "PutObject" e = translate "PutObject" e0 /\ unread e0 /\
          @Ok error put_input in_ = Ok in' /\ adds in' version o w w1) as Hgoal.
        { destruct Hc as [Hc | (_ & _ & B3 & version & o & B4)]; [by left | right].
          apply answered_refusal in Ha as [Ha | Ha]; [done |]. by exists e, in_, version, o. }
        unfold translate in Hgoal |- *. by repeat case_match. }
      exists in_. split; [done |]. destruct Hc as [Hc | (_ & _ & _ & Hc)]; auto.
  - injection Hput as <- <-. by left.
  - by destruct (put_request_total _ _ _ Hreq).
Qed.

(** ** What was written is read back *)
Context (Hsha : forall b, Forall byte_ok (sha256 b) /\ length (sha256 b) = 32%nat).
Lemma HexChecksum_sum b : HexChecksum (EncodeToString (sha256 b)) = Ok (hex_string (sha256 b)).
Proof.
  destruct (Hsha b) as [Hb Hl]. unfold HexChecksum. rewrite DecodeString_EncodeToString by done.
  by unfold len; rewrite Hl.
Qed.
Lemma storedAt_StoredAt at_ : in_int64 at_ -> storedAt (StoredAt at_) = Ok at_.
Proof.
  intros Hat. unfold storedAt, StoredAt.
  assert (ranged ({[StoredAtKey := Itoa at_]} : gmap string string) = [(StoredAtKey, Itoa at_)]) as ->.
  { apply Permutation_singleton_r. by rewrite ranged_perm, map_to_list_singleton. }
  cbn [find fst]. replace (EqualFold StoredAtKey StoredAtKey) with true by (by vm_compute).
  by rewrite Atoi_Itoa.
Qed.
Lemma WholeSeconds_twice r : WholeSeconds (WholeSeconds r) = WholeSeconds r.
Proof.
  unfold WholeSeconds. cbn. f_equal. assert (retentionResolution <> 0) as Hne by done.
  assert (rt_Until r - Z.rem (rt_Until r) retentionResolution
    = (rt_Until r ÷ retentionResolution) * retentionResolution) as ->
    by (pose proof (Z.quot_rem' (rt_Until r) retentionResolution); lia).
  rewrite Z.rem_mul by done. lia.
Qed.
Definition stored_encryption : Encryption :=
  let '(sse, key_id) := ServerSideEncryption (de_Encryption decl) in mkEncryption sse (default ""%string key_id).
Definition stored_info (req : PutRequest) (version : ObjectVersion) : ObjectInfo :=
  mkInfo version (put_ContentType req) (WholeSeconds <$> put_Retention req) false stored_encryption.

Definition lock_of (r : option Retention) : option Retention := WholeSeconds <$> r.
Lemma put_request_shape ctx req in_ :
  put_request sha256 decl now ctx req = Ok in_ ->
  exists key, ObjectKey_Validate (put_Key req) = Ok () /\ Worm.Physical ctx (de_Scope decl) (put_Key req) = Ok key /\
    (forall r, put_Retention req = Some r -> Known (rt_Mode r) = true) /\
    in_ = mkPutInput key (put_Body req) (EncodeToString (sha256 (put_Body req)))
      (ServerSideEncryption (de_Encryption decl)).1 (ServerSideEncryption (de_Encryption decl)).2 (StoredAt now)
      (if String.eqb (put_ContentType req) "" then None else Some (put_ContentType req)) (lock_of (put_Retention req)).
Proof.
  unfold put_request. destruct (ObjectKey_Validate _) as [[] | |]; [| done | done]. cbn [mbind result_bind].
  destruct (Worm.Physical _ _ _) as [key | |]; [| done | done]. cbn [mbind result_bind]. cbv zeta.
  destruct (negb _); [done |]. destruct (ServerSideEncryption _) as [sse key_id]. cbn [fst snd].
  destruct (put_Retention req) as [r |].
  - destruct (Worm.CheckRetention _ _ _) eqn:Hc; cbn; [| done | done]. intros [= <-]. exists key. split_and!; try done.
    intros r' [= <-]. unfold Worm.CheckRetention in Hc. destruct (de_Ceiling decl); [| done].
    change (rt_Mode (WholeSeconds r)) with (rt_Mode r) in Hc. by destruct (Known (rt_Mode r)).
  - cbn. intros [= <-]. exists key. by split_and!.
Qed.

Lemma written_info req in_ version o ctx :
  in_int64 now -> version <> ""%string -> put_request sha256 decl now ctx req = Ok in_ -> written in_ version o ->
  Info (xo_headers o) (put_Key req) =
    Ok (stored_info req (mkVersion (put_Key req) version (hex_string (sha256 (put_Body req))) (len (put_Body req)) now)).
Proof.
  intros Hnow Hv (key & _ & _ & Hk & ->)%put_request_shape [Hb Hh]. rewrite Hh. cbn in Hb. clear Hh.
  unfold stored_info, stored_encryption. destruct (ServerSideEncryption (de_Encryption decl)) as [sse key_id].
  unfold Info. cbn [hd_VersionID hd_ChecksumSHA256 hd_ContentLength hd_Metadata hd_ContentType hd_LegalHold
    hd_SSE hd_KMSKeyID pi_Checksum pi_Body pi_Metadata pi_ContentType pi_SSE pi_KMSKeyID pi_Lock fst snd].
  destruct version as [| ch version]; [done |]. rewrite HexChecksum_sum. cbn [mbind result_bind].
  rewrite storedAt_StoredAt by done. cbn [mbind result_bind].
  match goal with |- (headers_retention ?h ≫= _) = _ => assert (headers_retention h = Ok (lock_of (put_Retention req))) as -> end.
  { unfold headers_retention, lock_of. destruct (put_Retention req) as [r |]; [| done]. specialize (Hk r eq_refl).
    cbn [hd_LockMode hd_RetainUntil fmap option_fmap option_map]. change (rt_Mode (WholeSeconds r)) with (rt_Mode r).
    destruct (String.eqb_spec (rt_Mode r) "") as [He | _]; [by rewrite He in Hk |]. rewrite Hk.
    transitivity (@Ok sdk_error _ (Some (WholeSeconds (WholeSeconds r)))); [done | by rewrite WholeSeconds_twice]. }
  cbn [mbind result_bind]. by destruct (String.eqb_spec (put_ContentType req) "") as [-> |].
Qed.

(** C34: A version Put answers is read back by its reference: the same body, digest,
    size and instant, and the retention and encryption declared for it. *)
Theorem put_then_get ctx req w version w'
  (Hnow : in_int64 now)
  (Hput : Put api call_of sha256 decl now ready ctx req w = (Ok version, w')) :
  Get api call_of sha256 decl ready ctx (Ref version) w' =
    (Ok (mkObject (stored_info req version) (put_Body req)), w').
Proof.
  unfold Put in Hput. destruct (put_request sha256 decl now ctx req) as [in_ | e | p] eqn:Hreq; [| done | done].
  unfold confirmed in Hput. destruct ready eqn:Hready; [| done].
  destruct (call_of _ false (PutObject api in_) w) as [r1 w1] eqn:Hc. apply cc_effect, sent_put in Hc.
  destruct r1 as [out | e | p]; [| done | done]. destruct Hc as (v & o & (Hv & _ & Hw & Hview) & Hid).
  injection Hput as Hans ->. unfold put_answer in Hans. destruct out as [out |]; [| done].
  destruct (po_VersionId out) as [id |] eqn:Eid; [| done]. destruct id as [| ch id]; [done |].
  destruct (negb _); [done |]. injection Hans as <-. rewrite (Hid out (String ch id) eq_refl Eid ltac:(done)) in *.
  assert (view w' !! (pi_Key in_, v) = Some o) as Ho by by rewrite Hview, lookup_insert_eq.
  assert (locate decl true ctx (mkRef (put_Key req) v) = Ok (pi_Key in_, v)) as Hloc.
  { unfold locate, Worm.Locate. cbn [ref_Version ref_Key]. destruct (String.eqb_spec v ""); [by subst |].
    destruct (put_request_shape _ _ _ Hreq) as (key & -> & Hp & _ & ->). cbn [mbind result_bind]. by rewrite Hp. }
  unfold Get, at_version, Ref. cbn [ov_Key ov_Version]. rewrite Hloc. cbv zeta.
  erewrite cc_read; cycle 1.
  { unfold act_bind. rewrite (vb_get _ _ _ Ho). cbn [mbind result_bind fst snd ref_Key ov_Key ov_Version].
    by erewrite written_info. }
  cbn [ob_Body ob_Info stored_info oi_Version ov_ContentSHA256]. destruct Hw as [-> _].
  destruct (put_request_shape _ _ _ Hreq) as (key & _ & _ & _ & ->). cbn [pi_Body].
  by rewrite String.eqb_refl.
Qed.
End S3.

(** * The administrative path

    A shortening it answers replaced a GOVERNANCE retention in force by a
    GOVERNANCE one that still lies ahead, ends earlier, and no later than the new
    ceiling allows from when the version was written: COMPLIANCE is never
    touched, and nothing is prolonged. *)
Theorem Shorten_spares_compliance `{MapOrder} {W : Type} (api : Admin.admin_api W) call_of scope now ctx ref ceiling w rc w' :
  Admin.Shorten api call_of scope now ctx ref ceiling w = (Ok rc, w') ->
  rt_Mode (Admin.rr_From rc) <> RetentionCompliance /\ rt_Mode (Admin.rr_To rc) = RetentionGovernance /\
  now < rt_Until (Admin.rr_To rc) < rt_Until (Admin.rr_From rc) /\
  exists v w1, Admin.governed api call_of scope now ctx ref ceiling w = (Ok v, w1) /\
    oi_Retention (Admin.ve_info v) = Some (Admin.rr_From rc) /\
    exists limit, span_Add (ce_Span ceiling) (Admin.ve_written v) = Some limit /\
      Admin.rr_To rc = WholeSeconds (mkRetention RetentionGovernance limit).
Proof.
  unfold Admin.Shorten. destruct (Admin.governed _ _ _ _ _ _ _ _) as [[v | |] w1] eqn:Hg; [| done | done].
  destruct (Admin.shortened now ceiling v) as [[current to_] | |] eqn:Hs; [| done | done].
  destruct (call_of _ true _ w1) as [[[] | |] w2]; [| done | done]. cbn. intros [= <- <-]. cbn.
  unfold Admin.shortened in Hs. destruct (oi_Retention (Admin.ve_info v)) as [c |] eqn:Hr; [| done].
  destruct (Z.leb_spec (rt_Until c) now) as [| Hlive]; [done |].
  destruct (span_Add _ _) as [limit |] eqn:Hspan; [| done]. cbv zeta in Hs.
  destruct (Z.leb_spec (rt_Until c) (rt_Until (WholeSeconds (mkRetention RetentionGovernance limit)))); [done |].
  destruct (Z.leb_spec (rt_Until (WholeSeconds (mkRetention RetentionGovernance limit))) now); [done |].
  injection Hs as <- <-. split; [| split; [done |]; split; [lia |]; exists v, w1; split_and!; [done | done |]; by exists limit].
  unfold Admin.governed in Hg. destruct (Worm.Locate _ _ _); [| done | done]. destruct (_ || _); [done |].
  destruct (call_of _ true _ w) as [[u | |] w3]; [| done | done]. cbn in Hg.
  destruct (oi_Retention (Admin.ve_info u)) as [d |] eqn:Hu; [| injection Hg as -> _; congruence].
  destruct (Z.ltb_spec now (rt_Until d)); cbn in Hg;
    [| injection Hg as -> _; rewrite Hr in Hu; injection Hu as <-; lia].
  destruct (String.eqb_spec (rt_Mode d) RetentionCompliance); [done |]. injection Hg as -> _. congruence.
Qed.

(** * A concrete bucket *)
Module S3Fixture.
Local Open Scope string_scope.
Notation FW := (gmap objectAddress s3object * Z)%type.
Definition unreached : sdk_error := mkSdkError None 0 true false false.
Definition no_version : sdk_error := mkSdkError (Some ("NoSuchVersion", FaultClient)) 404 false false false.
Definition made (in_ : put_input) (version : string) : s3object :=
  mkS3Object (mkHeaders (Some version) (Some (pi_Checksum in_)) (Some (len (pi_Body in_))) (pi_ContentType in_)
    (pi_Metadata in_) (match pi_Lock in_ with Some r => rt_Mode r | None => "" end) (rt_Until <$> pi_Lock in_) ""
    (pi_SSE in_) (pi_KMSKeyID in_)) (pi_Body in_).
Definition put (in_ : put_input) (w : FW) : result sdk_error (option put_output) * FW :=
  let version := version_id (w.2 + 1) in
  match w.1 !! (pi_Key in_, version) with
  | Some _ => (Err unreached, w)
  | None => (Ok (Some (mkPutOutput (Some version) (Some (pi_Checksum in_)))),
             (<[(pi_Key in_, version) := made in_ version]> w.1, w.2 + 1))
  end.
Definition read {A} (f : s3object -> A) (address : objectAddress) (w : FW) : result sdk_error A * FW :=
  (match w.1 !! address with Some o => Ok (f o) | None => Err no_version end, w).
Definition api : s3api FW :=
  mkApi FW put (read (fun o => (xo_headers o, xo_body o))) (read xo_headers)
    (fun _ _ w => (Err no_version, w)) (fun _ _ w => (Err no_version, w)) (fun _ w => (Err no_version, w))
    (fun w => (Ok true, w)) (fun w => (Ok (true, false), w)).
Definition once (A : Type) (idempotent : bool) (act : FW -> result sdk_error A * FW) : FW -> result sdk_error A * FW := act.
#[export] Instance bucket_versioned : VersionedBucket api fst.
Proof.
  split.
  - intros in_ w r w'. cbn [PutObject api]. unfold put. destruct (w.1 !! _) eqn:Hv; intros [= <- <-]; [by left |].
    exists (version_id (w.2 + 1)), (made in_ (version_id (w.2 + 1))). split.
    + split_and!; [done | done | by split | done].
    + by intros out' id [= <-] [= <-].
  - intros address w o Ho. cbn [GetObject api]. unfold read. by rewrite Ho.
  - intros address w o Ho. cbn [HeadObject api]. unfold read. by rewrite Ho.
Qed.
#[export] Instance once_composed : ComposedCall once.
Proof. split; [intros A act w r w' He; by apply sent_last | done]. Qed.
Definition sha (b : bytes) : bytes := replicate 32 (len b mod 256).
Lemma sha_bytes b : Forall byte_ok (sha b) /\ length (sha b) = 32%nat.
Proof.
  split; [| apply length_replicate]. apply Forall_replicate. unfold byte_ok. apply Z.mod_pos_bound. lia.
Qed.
Definition ctx : Ctx := Fixture.Fixture.ctx "t1" "k".
Definition declared : ObjectStoreDeclaration :=
  mkDeclaration ScopeTenant (mkEncryption "aws:kms" "arn:1") (Some (mkCeiling 100000000000 "DAT-15")).
Definition request : PutRequest :=
  mkPutRequest "invoices/1" [104; 105] (hex_string (sha [104; 105])) "text/plain" (Some (mkRetention RetentionCompliance 50000000000)).
Definition version : ObjectVersion := mkVersion "invoices/1" "v-000001" (hex_string (sha [104; 105])) 2 1000.
Definition after : FW := (Put api once sha declared 1000 true ctx request (∅, 0)).2.
End S3Fixture.
Import S3Fixture.

Lemma put_outcome_honest_witness :
  Put api once sha declared 1000 true ctx request (∅, 0) = (Ok version, after) /\
  exists in_ o, put_request sha declared 1000 ctx request = Ok in_ /\ adds fst in_ "v-000001" o (∅, 0) after /\
    Ref version = mkRef "invoices/1" "v-000001".
Proof.
  assert (Put api once sha declared 1000 true ctx request (∅, 0) = (Ok version, after)) as Hput.
  { apply pair_equal_spec. split; [vm_compute; reflexivity | reflexivity]. }
  split; [exact Hput |].
  refine (put_outcome_honest api fst once sha declared 1000 true ctx request (∅, 0) (Ok version) after Hput).
Defined.
Lemma put_then_get_witness :
  in_int64 1000 /\
  Get (H := by_key) api once sha declared true ctx (Ref version) after =
    (Ok (mkObject (mkInfo version "text/plain" (Some (mkRetention RetentionCompliance 50000000000)) false
      (mkEncryption "aws:kms" "arn:1")) [104; 105]), after).
Proof.
  assert (in_int64 1000) as Hnow by (split; vm_compute; discriminate).
  split; [exact Hnow |].
  refine (put_then_get (H := by_key) api fst once sha declared 1000 true sha_bytes ctx request (∅, 0) version after Hnow _).
  apply pair_equal_spec. split; [vm_compute; reflexivity | reflexivity].
Defined.
