(* ===== verification/Sessions.v ===== *)
(** Session revocation of [src/libs/backend/go/authn]: the entries and the port
    ([revocation.go]), the store in memory ([revocation_memory.go]) and the feed that
    applies normalized session events ([revocation_apply.go]).  A call is given what the
    clock it reads answers; the lock of the store in memory makes each call one
    step. *)

From S2P Require Import Prelude GoTime GoStrings DomainKernel Errors Ports.

(** * Time

    An instant is its nanoseconds since 1970; the zero [time.Time] is the first
    of January of year 1. *)
Definition zero_time : Instant := -62135596800 * Second.
Definition IsZero (t : Instant) : bool := t =? zero_time.
Definition UnixMilli (t : Instant) : Z := t / Millisecond.
Definition time_UnixMilli (ms : Z) : Instant := ms * Millisecond.

(** * Entries ([revocation.go]) *)
Notation RevocationKind := string (only parsing).
Definition RevocationSession : RevocationKind := "session".
Definition RevocationSubject : RevocationKind := "subject".

Record SessionRef := mkSessionRef { sr_Subject : SubjectID; sr_ID : string; sr_IssuedAt : Instant }.
Record Revocation := mkRevocation {
  rv_EventID : string; rv_Kind : RevocationKind; rv_Subject : SubjectID; rv_SessionID : string;
  rv_OccurredAt : Instant; rv_ExpiresAt : Instant
}.

(** The interface: each operation under what the store's clock reads. *)
Record RevocationStore (S : Type) := mkRevocationStore {
  store_Revoked : Instant -> SessionRef -> M S error RevocationKind;
  store_Revoke : Instant -> Revocation -> M S error bool
}.
Arguments store_Revoked {S}.
Arguments store_Revoke {S}.

Definition ErrInvalidRevocation : error := Sentinel "auth.ErrInvalidRevocation".
Definition keyed (r : Revocation) : result error unit :=
  if String.eqb (rv_Kind r) RevocationSession && negb (String.eqb (rv_SessionID r) "") then Ok ()
  else if String.eqb (rv_Kind r) RevocationSubject && negb (String.eqb (rv_Subject r) "") then Ok ()
  else Err (Wrap "kind" ErrInvalidRevocation).

(** * In memory ([revocation_memory.go]) *)
Record memoryEntry := mkMemoryEntry { me_revokedAt : Instant; me_expiresAt : Instant }.
Record MemoryStore := mkMemoryStore {
  ms_sessions : gmap string memoryEntry;
  ms_subjects : gmap string memoryEntry
}.
Definition NewMemoryStore : MemoryStore := mkMemoryStore ∅ ∅.

Definition live (e : memoryEntry) (now : Instant) : bool := now <? me_expiresAt e.
Definition later (a b : Instant) : Instant := if b <? a then a else b.

Definition memory_Revoked (now : Instant) (ref : SessionRef) (s : MemoryStore) : RevocationKind :=
  let session :=
    negb (String.eqb (sr_ID ref) "") &&
    match ms_sessions s !! sr_ID ref with Some entry => live entry now | None => false end in
  if session then RevocationSession
  else match ms_subjects s !! sr_Subject ref with
       | Some entry => if live entry now && negb (me_revokedAt entry <? sr_IssuedAt ref) then RevocationSubject else ""
       | None => ""
       end.

Definition forget (now : Instant) (entries : gmap string memoryEntry) : gmap string memoryEntry :=
  filter (fun kv => live kv.2 now = true) entries.
Definition forgetExpired (now : Instant) (s : MemoryStore) : MemoryStore :=
  mkMemoryStore (forget now (ms_sessions s)) (forget now (ms_subjects s)).

Definition zeroEntry : memoryEntry := mkMemoryEntry zero_time zero_time.
Definition keepGreatest (entries : gmap string memoryEntry) (key : string) (r : Revocation)
    : bool * gmap string memoryEntry :=
  let current := default zeroEntry (entries !! key) in
  if bool_decide (is_Some (entries !! key)) && negb (me_revokedAt current <? rv_OccurredAt r) then (false, entries)
  else (true, <[key := mkMemoryEntry (rv_OccurredAt r) (later (me_expiresAt current) (rv_ExpiresAt r))]> entries).

Definition memory_Revoke (now : Instant) (r : Revocation) : M MemoryStore error bool := fun s =>
  match keyed r with
  | Err e => (Err e, s)
  | Panic w => (Panic w, s)
  | Ok _ =>
      let s := forgetExpired now s in
      if negb (now <? rv_ExpiresAt r) then (Ok false, s)
      else if String.eqb (rv_Kind r) RevocationSession
      then let '(changed, m) := keepGreatest (ms_sessions s) (rv_SessionID r) r in
           (Ok changed, mkMemoryStore m (ms_subjects s))
      else let '(changed, m) := keepGreatest (ms_subjects s) (rv_Subject r) r in
           (Ok changed, mkMemoryStore (ms_sessions s) m)
  end.
Definition memory_Len (s : MemoryStore) : Z := Z.of_nat (size (ms_sessions s) + size (ms_subjects s)).
Definition memoryStore : RevocationStore MemoryStore :=
  mkRevocationStore _ (fun now ref s => (Ok (memory_Revoked now ref s), s)) memory_Revoke.

(** * The feed ([revocation_apply.go]) *)
Notation SessionEventKind := string (only parsing).
Definition SessionEnded : SessionEventKind := "session_ended".
Definition SubjectRevoked : SessionEventKind := "subject_revoked".

Record SessionEvent := mkSessionEvent {
  se_EventID : string; se_Kind : SessionEventKind; se_Issuer : string; se_Subject : SubjectID;
  se_SessionID : string; se_OccurredAt : Instant
}.
Definition zeroSessionEvent : SessionEvent := mkSessionEvent "" "" "" "" "" zero_time.
Inductive EventOutcome := EventApplied | EventDuplicate | EventExpired | EventInvalid | EventForeignIssuer.
#[global] Instance EventOutcome_eq_dec : EqDecision EventOutcome.
Proof. solve_decision. Defined.

Definition ErrNoRevocationStore : error := Sentinel "auth.ErrNoRevocationStore".
Definition ErrMissingVariable : error := Sentinel "auth.ErrMissingVariable".
Definition ErrInvalidVariable : error := Sentinel "config.ErrInvalidVariable".

Record FeedConfig := mkFeedConfig { fc_Issuer : string; fc_TTL : Z; fc_Skew : Z }.
Record Feed := mkFeed { fd_issuer : string; fd_keep : Z; fd_skew : Z }.

Definition parseSeconds (variable value : string) (least : Z) : result error Z :=
  match Atoi value with
  | Some seconds =>
      if (seconds <? least) || (max_int64 ÷ Second <? seconds) then Err (Wrap variable ErrInvalidVariable)
      else Ok (seconds * Second)
  | None => Err (Wrap variable ErrInvalidVariable)
  end.
Definition parseMilliseconds (variable value : string) : result error Z :=
  match Atoi value with
  | Some milliseconds =>
      if (milliseconds <? 1) || (max_int64 ÷ Millisecond <? milliseconds) then Err (Wrap variable ErrInvalidVariable)
      else Ok (milliseconds * Millisecond)
  | None => Err (Wrap variable ErrInvalidVariable)
  end.

Definition envIssuer : string := "OIDC_ISSUER".
Definition envRevocationTTL : string := "OIDC_REVOCATION_TTL_SECONDS".
Definition envRevocationSkew : string := "OIDC_REVOCATION_SKEW_SECONDS".
Definition defaultRevocationSkewSeconds : Z := 60.
(** [if declared := lookup(variable); declared != ""]. *)
Definition declared_or {A} (value : string) (parse : string -> result error A) (fallback : A) : result error A :=
  if String.eqb value "" then Ok fallback else parse value.
Definition ReadRevocationFeedEnv (lookup : string -> string) : result error FeedConfig :=
  ttl ← declared_or (lookup envRevocationTTL) (fun v => parseSeconds envRevocationTTL v 1) 0;
  skew ← declared_or (lookup envRevocationSkew) (fun v => parseSeconds envRevocationSkew v 0)
           (defaultRevocationSkewSeconds * Second);
  Ok (mkFeedConfig (lookup envIssuer) ttl skew).

Definition NewFeed (has_store : bool) (cfg : FeedConfig) : result error Feed :=
  if negb has_store then Err ErrNoRevocationStore
  else if String.eqb (fc_Issuer cfg) "" then Err (Wrap envIssuer ErrMissingVariable)
  else if fc_TTL cfg <=? 0 then Err (Wrap envRevocationTTL ErrMissingVariable)
  else if fc_Skew cfg <? 0 then Err (Wrap envRevocationSkew ErrInvalidVariable)
  else if max_int64 - fc_Skew cfg <? fc_TTL cfg then Err (Wrap envRevocationSkew ErrInvalidVariable)
  else Ok (mkFeed (fc_Issuer cfg) (fc_TTL cfg +! fc_Skew cfg) (fc_Skew cfg)).

Definition revocationOf (f : Feed) (e : SessionEvent) : Revocation + EventOutcome :=
  let of_kind kind session :=
    mkRevocation (se_EventID e) kind (se_Subject e) session (se_OccurredAt e) (se_OccurredAt e + fd_keep f) in
  let r :=
    if String.eqb (se_Kind e) SessionEnded then of_kind RevocationSession (se_SessionID e)
    else if String.eqb (se_Kind e) SubjectRevoked then of_kind RevocationSubject ""
    else of_kind "" (se_SessionID e) in
  if String.eqb (se_EventID e) "" || String.eqb (se_Issuer e) "" || IsZero (se_OccurredAt e) || negb (is_Ok (keyed r))
  then inr EventInvalid
  else if negb (String.eqb (se_Issuer e) (fd_issuer f)) then inr EventForeignIssuer
  else inl r.

(** Under what the feed's clock reads and, later, the store's. *)
Definition Apply {S} (store : RevocationStore S) (f : Feed) (now store_now : Instant) (e : SessionEvent)
    : M S error EventOutcome :=
  match revocationOf f e with
  | inr outcome => mret outcome
  | inl r =>
      if negb (now <? rv_ExpiresAt r) then mret EventExpired
      else
        changed ← map_err (Wrap "auth: recording the revocation") (store_Revoke store store_now r);
        mret (if changed : bool then EventApplied else EventDuplicate)
  end.

(** What [Record] leaves in the metrics: the outcome counted and, for one that was
    applied, its delay. *)
Record observed := mkObserved' { ob_outcome : EventOutcome; ob_delay : option Z }.
Definition Record_ (now : Instant) (e : SessionEvent) (outcome : option EventOutcome) : list observed :=
  match outcome with
  | None => []
  | Some EventApplied => [mkObserved' EventApplied (Some (Z.max (time_sub now (se_OccurredAt e)) 0))]
  | Some o => [mkObserved' o None]
  end.

(** What a revocation store promises to the feed and to the verifier, and the
    store in memory as one that keeps it. *)

(** * The contract

    A history is the revocations recorded, latest first.  Times are told apart
    to the millisecond, the finest the store over Redis keeps. *)
Definition denies (r : Revocation) (ref : SessionRef) : Prop :=
  (rv_Kind r = RevocationSession /\ rv_SessionID r = sr_ID ref) \/
  (rv_Kind r = RevocationSubject /\ rv_Subject r = sr_Subject ref /\ sr_IssuedAt ref <= rv_OccurredAt r).
Definition denies_ms (r : Revocation) (ref : SessionRef) : Prop :=
  (rv_Kind r = RevocationSession /\ rv_SessionID r = sr_ID ref) \/
  (rv_Kind r = RevocationSubject /\ rv_Subject r = sr_Subject ref /\
   UnixMilli (sr_IssuedAt ref) <= UnixMilli (rv_OccurredAt r)).

(** An answer is honest: what a revocation in force denies is denied, by session
    first; what is denied, one not yet over denies. *)
Definition honest (now : Instant) (h : list Revocation) (ref : SessionRef) (res : result error RevocationKind) : Prop :=
  match res with
  | Ok kind =>
      (forall r, r ∈ h -> denies r ref -> UnixMilli now < UnixMilli (rv_ExpiresAt r) ->
         kind <> ""%string /\ (rv_Kind r = RevocationSession -> kind = RevocationSession)) /\
      (kind = ""%string \/ exists r, r ∈ h /\ rv_Kind r = kind /\ denies_ms r ref /\
         UnixMilli now <= UnixMilli (rv_ExpiresAt r))
  | Err _ => True
  | Panic _ => False
  end.

Class DenyList {S : Type} (store : RevocationStore S) := {
  dl_admits : Revocation -> Prop;
  dl_asks : SessionRef -> Prop;
  dl_holds : Instant -> list Revocation -> S -> Prop;
  dl_later now now' h s : dl_holds now h s -> now <= now' -> dl_holds now' h s;
  dl_revoke now h r s res s' :
    dl_holds now h s -> dl_admits r -> store_Revoke store now r s = (res, s') ->
    match res with
    | Ok _ => dl_holds now (r :: h) s'
    | Err _ => dl_holds now h s' \/ dl_holds now (r :: h) s'
    | Panic _ => False
    end;
  dl_revoked now h ref s res s' :
    dl_holds now h s -> dl_asks ref -> store_Revoked store now ref s = (res, s') ->
    dl_holds now h s' /\ honest now h ref res
}.

(** * Milliseconds *)
Lemma UnixMilli_mono a b : a <= b -> UnixMilli a <= UnixMilli b.
Proof. intros Hab. apply Z.div_le_mono; [done | lia]. Qed.
Lemma UnixMilli_lt a b : UnixMilli a < UnixMilli b -> a < b.
Proof. intros Hab. destruct (Z.lt_ge_cases a b) as [| Hle]; [done |]. apply UnixMilli_mono in Hle. lia. Qed.
Lemma UnixMilli_shift a k : UnixMilli (a + k * Millisecond) = UnixMilli a + k.
Proof. unfold UnixMilli. by rewrite Z.div_add. Qed.

Lemma keyed_kind r : keyed r = Ok () ->
  (rv_Kind r = RevocationSession /\ rv_SessionID r <> ""%string) \/ (rv_Kind r = RevocationSubject /\ rv_Subject r <> ""%string).
Proof.
  unfold keyed. destruct (String.eqb_spec (rv_Kind r) RevocationSession), (String.eqb_spec (rv_SessionID r) ""),
    (String.eqb_spec (rv_Kind r) RevocationSubject), (String.eqb_spec (rv_Subject r) ""); cbn; auto; done.
Qed.

Lemma keyed_session r : keyed r = Ok () -> rv_Kind r = RevocationSession -> rv_SessionID r <> ""%string.
Proof. intros [[_ ?] | [-> _]]%keyed_kind; done. Qed.
Lemma keyed_subject r : keyed r = Ok () -> rv_Kind r = RevocationSubject -> rv_Subject r <> ""%string.
Proof. intros [[-> _] | [_ ?]]%keyed_kind; done. Qed.

(** * A table of one kind of entries

    [kept] is the greatest instant recorded for a key and when it is over, in the
    store's unit of time. *)
Section Table.
Context (unit : Instant -> Z) (K : Z) (ids : string -> Prop) (kind : string) (key : Revocation -> string).

Definition uniform (r : Revocation) : Prop :=
  unit (rv_ExpiresAt r) = unit (rv_OccurredAt r) + K /\ (rv_Kind r = kind -> ids (key r)).
Record faithful (now : Z) (h : list Revocation) (kept : string -> option (Z * Z)) : Prop := mkFaithful {
  ft_uniform : Forall uniform h;
  ft_entry k o e : ids k -> kept k = Some (o, e) ->
    exists r, r ∈ h /\ rv_Kind r = kind /\ key r = k /\ o = unit (rv_OccurredAt r) /\ e = unit (rv_ExpiresAt r);
  ft_live r : r ∈ h -> rv_Kind r = kind -> now < unit (rv_ExpiresAt r) ->
    exists o e, kept (key r) = Some (o, e) /\ unit (rv_OccurredAt r) <= o
}.

Lemma faithful_span now h kept k o e : faithful now h kept -> ids k -> kept k = Some (o, e) -> e = o + K.
Proof.
  intros [Hu He _] Hk Hkept. destruct (He k o e Hk Hkept) as (r & Hr & _ & _ & -> & ->).
  rewrite Forall_forall in Hu. by destruct (Hu r Hr).
Qed.
Lemma faithful_later now now' h kept : faithful now h kept -> now <= now' -> faithful now' h kept.
Proof. intros [Hu He Hl] Hle. split; [done | done |]. intros r Hr Hk Hlt. apply Hl; [done | done | lia]. Qed.
(** What is over may go. *)
Lemma faithful_forget now h kept kept' : faithful now h kept ->
  (forall k, ids k -> kept' k = kept k \/ (kept' k = None /\ exists o e, kept k = Some (o, e) /\ e <= now)) ->
  faithful now h kept'.
Proof.
  intros Hf Hk. pose proof Hf as [Hu He Hl]. split; [done | |].
  - intros k o e Hid Hs. destruct (Hk k Hid) as [Heq | [Hn _]]; [rewrite Heq in Hs; by apply He | congruence].
  - intros r Hr Hkind Hlt. destruct (Hl r Hr Hkind Hlt) as (o & e & Hs & Hle).
    rewrite Forall_forall in Hu. destruct (Hu r Hr) as [Hexp Hid]. specialize (Hid Hkind).
    destruct (Hk (key r) Hid) as [-> | [_ (o' & e' & Hs' & Hover)]]; [by exists o, e |].
    rewrite Hs in Hs'. injection Hs' as <- <-. pose proof (faithful_span _ _ _ _ _ _ Hf Hid Hs). lia.
Qed.
Lemma faithful_other now h kept r : faithful now h kept -> uniform r -> rv_Kind r <> kind -> faithful now (r :: h) kept.
Proof.
  intros [Hu He Hl] Hr Hne. split; [by constructor | |].
  - intros k o e Hk Hs. destruct (He k o e Hk Hs) as (r' & ? & ?). exists r'. split; [by right | done].
  - intros r' [-> | Hin]%elem_of_cons Hk Hlt; [done | by apply Hl].
Qed.
(** An entry already as great stays. *)
Lemma faithful_kept now h kept r o e : faithful now h kept -> uniform r -> rv_Kind r = kind ->
  kept (key r) = Some (o, e) -> unit (rv_OccurredAt r) <= o -> faithful now (r :: h) kept.
Proof.
  intros [Hu He Hl] Hr Hk Hs Hle. split; [by constructor | |].
  - intros k o' e' Hid Hs'. destruct (He k o' e' Hid Hs') as (r' & ? & ?). exists r'. split; [by right | done].
  - intros r' [-> | Hin]%elem_of_cons Hk' Hlt; [by exists o, e | by apply Hl].
Qed.
(** A greater one takes its place. *)
Lemma faithful_raised now h kept kept' r : faithful now h kept -> uniform r -> rv_Kind r = kind ->
  (forall o e, kept (key r) = Some (o, e) -> o <= unit (rv_OccurredAt r)) ->
  kept' (key r) = Some (unit (rv_OccurredAt r), unit (rv_ExpiresAt r)) ->
  (forall k, k <> key r -> kept' k = kept k) -> faithful now (r :: h) kept'.
Proof.
  intros [Hu He Hl] Hr Hk Hle Hnew Hothers. split; [by constructor | |].
  - intros k o e Hid Hs. destruct (decide (k = key r)) as [-> | Hne].
    + rewrite Hnew in Hs. injection Hs as <- <-. exists r. split_and!; [by left | done..].
    + rewrite (Hothers k Hne) in Hs. destruct (He k o e Hid Hs) as (r' & ? & ?). exists r'. split; [by right | done].
  - intros r' [-> | Hin]%elem_of_cons Hk' Hlt; [by exists (unit (rv_OccurredAt r)), (unit (rv_ExpiresAt r)) |].
    destruct (Hl r' Hin Hk' Hlt) as (o & e & Hs & Hle'). destruct (decide (key r' = key r)) as [Heq | Hne].
    + rewrite Heq in Hs. rewrite Heq. exists (unit (rv_OccurredAt r)), (unit (rv_ExpiresAt r)).
      split; [done |]. specialize (Hle o e Hs). lia.
    + exists o, e. by rewrite Hothers.
Qed.
(** A revocation that is over leaves nothing to keep. *)
Lemma faithful_over now h kept r : faithful now h kept -> uniform r -> unit (rv_ExpiresAt r) <= now ->
  faithful now (r :: h) kept.
Proof.
  intros [Hu He Hl] Hr Hover. split; [by constructor | |].
  - intros k o e Hid Hs. destruct (He k o e Hid Hs) as (r' & ? & ?). exists r'. split; [by right | done].
  - intros r' [-> | Hin]%elem_of_cons Hk' Hlt; [lia | by apply Hl].
Qed.
Lemma faithful_nil now : faithful now [] (fun _ => None).
Proof. split; [done | done |]. by intros r ?%elem_of_nil. Qed.

(** ** Reading: [visible] says of an end whether a read still shows the entry *)
Context (visible : Z -> bool) (now : Z).
Context (visible_now : forall e, visible e = true -> now <= e) (visible_live : forall e, now < e -> visible e = true).
Definition shown (kept : option (Z * Z)) : option Z :=
  match kept with Some (o, e) => if visible e then Some o else None | None => None end.
Lemma shown_live h kept r : faithful now h kept -> r ∈ h -> rv_Kind r = kind -> now < unit (rv_ExpiresAt r) ->
  exists o, shown (kept (key r)) = Some o /\ unit (rv_OccurredAt r) <= o.
Proof.
  intros Hf Hr Hk Hlt. destruct (ft_live _ _ _ Hf r Hr Hk Hlt) as (o & e & Hs & Hle). exists o.
  pose proof (ft_uniform _ _ _ Hf) as Hu. rewrite Forall_forall in Hu. destruct (Hu r Hr) as [Hexp Hid].
  pose proof (faithful_span _ _ _ _ _ _ Hf (Hid Hk) Hs). split; [| done].
  unfold shown. rewrite Hs, visible_live by lia. done.
Qed.
Lemma shown_entry h kept k o : faithful now h kept -> ids k -> shown (kept k) = Some o ->
  exists r, r ∈ h /\ rv_Kind r = kind /\ key r = k /\ o = unit (rv_OccurredAt r) /\ now <= unit (rv_ExpiresAt r).
Proof.
  intros Hf Hid Hs. unfold shown in Hs. destruct (kept k) as [[o' e] |] eqn:Hk; [| done].
  destruct (visible e) eqn:Hv; [| done]. injection Hs as ->.
  destruct (ft_entry _ _ _ Hf k o e Hid Hk) as (r & ? & ? & ? & ? & ->). exists r. split_and!; auto.
Qed.
End Table.

(** * The answer of two tables *)
Section Answer.
Context (unit : Instant -> Z) (K : Z) (ids : string -> Prop).
Context (unit_mono : forall a b, a <= b -> unit a <= unit b).
Context (unit_fine : forall a b, unit a <= unit b -> UnixMilli a <= UnixMilli b).
Context (visible : Z -> bool) (now : Instant).
Context (visible_now : forall e, visible e = true -> unit now <= e) (visible_live : forall e, unit now < e -> visible e = true).
Context (nonempty : forall k, ids k -> k <> ""%string).
Definition answer_of (sessions subjects : string -> option (Z * Z)) (ref : SessionRef) : RevocationKind :=
  match (if String.eqb (sr_ID ref) "" then None else shown visible (sessions (sr_ID ref))) with
  | Some _ => RevocationSession
  | None =>
      match shown visible (subjects (sr_Subject ref)) with
      | Some o => if unit (sr_IssuedAt ref) <=? o then RevocationSubject else ""
      | None => ""
      end
  end.
Definition asks (ref : SessionRef) : Prop := ids (sr_Subject ref) /\ (sr_ID ref <> ""%string -> ids (sr_ID ref)).

Lemma answer_honest h sessions subjects ref :
  faithful unit K ids RevocationSession rv_SessionID (unit now) h sessions ->
  faithful unit K ids RevocationSubject rv_Subject (unit now) h subjects ->
  asks ref -> honest now h ref (Ok (answer_of sessions subjects ref)).
Proof.
  intros Hs Hu [Hsub Hid]. unfold honest, answer_of.
  assert (forall a b, UnixMilli a < UnixMilli b -> unit a < unit b) as Hstrict.
  { intros a b Hlt. destruct (Z.lt_ge_cases (unit a) (unit b)) as [| Hge%unit_fine]; [done | lia]. }
  assert (forall r, r ∈ h -> denies r ref -> UnixMilli now < UnixMilli (rv_ExpiresAt r) ->
    (rv_Kind r = RevocationSession /\ exists o, (if String.eqb (sr_ID ref) "" then None else shown visible (sessions (sr_ID ref))) = Some o) \/
    (rv_Kind r = RevocationSubject /\ exists o, shown visible (subjects (sr_Subject ref)) = Some o /\ unit (sr_IssuedAt ref) <= o)) as Hlive.
  { intros r Hr [[Hk Hm] | (Hk & Hm & Hi)] Hlt%Hstrict; [left | right]; (split; [done |]).
    - destruct (shown_live _ _ _ _ _ _ _ visible_live _ _ r Hs Hr Hk Hlt) as (o & Ho & _). exists o. rewrite Hm in Ho.
      destruct (String.eqb_spec (sr_ID ref) "") as [He |]; [| done].
      pose proof (ft_uniform _ _ _ _ _ _ _ _ Hs) as Hun. rewrite Forall_forall in Hun.
      destruct (Hun r Hr) as [_ Hids]. specialize (nonempty _ (Hids Hk)). congruence.
    - destruct (shown_live _ _ _ _ _ _ _ visible_live _ _ r Hu Hr Hk Hlt) as (o & Ho & Hle). exists o. rewrite Hm in Ho.
      split; [done |]. apply unit_mono in Hi. lia. }
  split.
  - intros r Hr Hd Hlt. destruct (Hlive r Hr Hd Hlt) as [[Hk [o ->]] | [Hk (o & -> & Hle)]]; [done |].
    destruct (if String.eqb _ _ then None else _); [done |]. apply Z.leb_le in Hle. rewrite Hle. split; [done |]. by rewrite Hk.
  - destruct (String.eqb_spec (sr_ID ref) "") as [He | Hne]; [| destruct (shown visible (sessions _)) as [o |] eqn:Ho].
    2:{ right. destruct (shown_entry _ _ _ _ _ _ _ visible_now _ _ _ _ Hs (Hid Hne) Ho) as (r & ? & ? & ? & _ & ?).
        exists r. split_and!; [done | done | by left | by apply unit_fine]. }
    all: destruct (shown visible (subjects _)) as [o' |] eqn:Ho'; [| by left].
    all: destruct (Z.leb_spec (unit (sr_IssuedAt ref)) o') as [Hle |]; [right | by left].
    all: destruct (shown_entry _ _ _ _ _ _ _ visible_now _ _ _ _ Hu Hsub Ho') as (r & ? & ? & ? & -> & ?).
    all: exists r; split_and!; [done | done | right; split_and!; [done | done | by apply unit_fine] | by apply unit_fine].
Qed.
End Answer.

(** * In memory *)
Section Memory.
Context (keep : Z).
Definition entry_of (m : gmap string memoryEntry) (k : string) : option (Z * Z) :=
  (fun e => (me_revokedAt e, me_expiresAt e)) <$> m !! k.
Notation table := (faithful (fun t => t) keep (fun k => k <> ""%string)).
Record memory_holds (now : Instant) (h : list Revocation) (s : MemoryStore) : Prop := mkMemoryHolds {
  mh_clock : zero_time <= now;
  mh_sessions : table RevocationSession rv_SessionID now h (entry_of (ms_sessions s));
  mh_subjects : table RevocationSubject rv_Subject now h (entry_of (ms_subjects s))
}.
Definition memory_admits (r : Revocation) : Prop := keyed r = Ok () /\ rv_ExpiresAt r = rv_OccurredAt r + keep.

Lemma forget_table kind key now h m : table kind key now h (entry_of m) -> table kind key now h (entry_of (forget now m)).
Proof.
  intros Hf. eapply faithful_forget; [exact Hf |]. intros k _. unfold entry_of, forget.
  destruct (m !! k) as [e |] eqn:Hm.
  - destruct (live e now) eqn:Hl.
    + left. by rewrite (map_lookup_filter_Some_2 _ m k e).
    + right. split; [| cbn; exists (me_revokedAt e), (me_expiresAt e); split; [done | by apply Z.ltb_ge in Hl]].
      rewrite (proj2 (map_lookup_filter_None _ m k)); [done |]. right. cbn. intros e' He'. congruence.
  - left. rewrite (proj2 (map_lookup_filter_None _ m k)); auto.
Qed.
Lemma keepGreatest_table kind (key : Revocation -> string) now h m r changed m' :
  zero_time <= now -> now < rv_ExpiresAt r -> rv_ExpiresAt r = rv_OccurredAt r + keep -> rv_Kind r = kind -> key r <> ""%string ->
  table kind key now h (entry_of m) -> keepGreatest m (key r) r = (changed, m') -> table kind key now (r :: h) (entry_of m').
Proof.
  intros Hc Hlt Hexp Hk Hne Hf. assert (uniform (fun t => t) keep (fun k => k <> ""%string) kind key r) as Hr by by split.
  unfold keepGreatest. destruct (m !! key r) as [cur |] eqn:Hm; cbn [default from_option id].
  - rewrite bool_decide_eq_true_2 by eauto. cbn [andb].
    assert (entry_of m (key r) = Some (me_revokedAt cur, me_expiresAt cur)) as He by (unfold entry_of; by rewrite Hm).
    pose proof (faithful_span _ _ _ _ _ _ _ _ _ _ _ Hf Hne He) as Hspan.
    destruct (Z.ltb_spec (me_revokedAt cur) (rv_OccurredAt r)) as [Hgt | Hle]; cbn [negb]; intros [= <- <-].
    + eapply faithful_raised; [exact Hf | done | done | | |].
      * intros o e. rewrite He. intros [= <- <-]. lia.
      * unfold entry_of. rewrite lookup_insert_eq. cbn. unfold later.
        destruct (Z.ltb_spec (rv_ExpiresAt r) (me_expiresAt cur)); [lia | done].
      * intros k Hk'. unfold entry_of. by rewrite lookup_insert_ne.
    + by eapply faithful_kept.
  - rewrite bool_decide_eq_false_2 by (intros []; done). intros [= <- <-].
    eapply faithful_raised; [exact Hf | done | done | | |].
    + intros o e. unfold entry_of. by rewrite Hm.
    + unfold entry_of. rewrite lookup_insert_eq. cbn. unfold later.
      destruct (Z.ltb_spec (rv_ExpiresAt r) zero_time); [lia | done].
    + intros k Hk'. unfold entry_of. by rewrite lookup_insert_ne.
Qed.

Lemma memory_revoke now h r s res s' :
  memory_holds now h s -> memory_admits r -> memory_Revoke now r s = (res, s') ->
  match res with
  | Ok _ => memory_holds now (r :: h) s'
  | Err _ => memory_holds now h s' \/ memory_holds now (r :: h) s'
  | Panic _ => False
  end.
Proof.
  intros [Hc Hs Hu] [Hkeyed Hexp]. unfold memory_Revoke. rewrite Hkeyed. cbv zeta.
  apply forget_table in Hs, Hu. set (s0 := forgetExpired now s).
  change (forget now (ms_sessions s)) with (ms_sessions s0) in Hs.
  change (forget now (ms_subjects s)) with (ms_subjects s0) in Hu.
  destruct (Z.ltb_spec now (rv_ExpiresAt r)) as [Hlt | Hge]; cbn [negb].
  2:{ intros [= <- <-]. split; [done | |]; (apply faithful_over; [done | | done]); (split; [done |]);
      [by apply keyed_session | by apply keyed_subject]. }
  destruct (keyed_kind r Hkeyed) as [[Hk Hne] | [Hk Hne]]; rewrite Hk.
  - change (String.eqb RevocationSession RevocationSession) with true. cbn iota.
    destruct (keepGreatest _ _ _) as [changed m] eqn:Hkg. intros [= <- <-]. split; [done | |].
    + by eapply keepGreatest_table.
    + apply faithful_other; [done | split; [done | by rewrite Hk] | by rewrite Hk].
  - change (String.eqb RevocationSubject RevocationSession) with false. cbn iota.
    destruct (keepGreatest _ _ _) as [changed m] eqn:Hkg. intros [= <- <-]. split; [done | |].
    + apply faithful_other; [done | split; [done | by rewrite Hk] | by rewrite Hk].
    + by eapply keepGreatest_table.
Qed.

Lemma memory_revoked now h ref s : memory_holds now h s -> asks (fun k => k <> ""%string) ref ->
  honest now h ref (Ok (memory_Revoked now ref s)).
Proof.
  intros [_ Hs Hu] Ha.
  assert (memory_Revoked now ref s =
    answer_of (fun t => t) (fun e => now <? e) (entry_of (ms_sessions s)) (entry_of (ms_subjects s)) ref) as ->.
  { unfold memory_Revoked, answer_of, entry_of, shown, live, SubjectID.
    destruct (String.eqb_spec (sr_ID ref) "") as [-> | Hne]; cbn [negb andb].
    all: destruct (ms_sessions s !! sr_ID ref) as [e |]; cbn; try destruct (now <? me_expiresAt e); try done.
    all: match goal with |- context [@lookup ?K ?A ?M ?i ?k ?m] => destruct (@lookup K A M i k m) as [e' |] end; [| done]; cbn [fmap option_fmap option_map].
    all: destruct (now <? me_expiresAt e'); [| done]; cbn [andb]; by rewrite Z.leb_antisym. }
  eapply (answer_honest (fun t => t) keep (fun k => k <> ""%string)); [done | apply UnixMilli_mono | | | done | exact Hs | exact Hu | exact Ha].
  - intros e He%Z.ltb_lt. lia.
  - intros e He. by apply Z.ltb_lt.
Qed.
Lemma memory_later now now' h s : memory_holds now h s -> now <= now' -> memory_holds now' h s.
Proof. intros [Hc Hs Hu] Hle. split; [lia | |]; by eapply faithful_later. Qed.

#[export] Program Instance memory_deny_list : DenyList memoryStore := {|
  dl_admits := memory_admits; dl_asks := asks (fun k => k <> ""%string);
  dl_holds := memory_holds; dl_later := memory_later
|}.
Next Obligation. intros now h r s res s' Hh Ha Hr. by eapply memory_revoke. Qed.
Next Obligation. intros now h ref s res s' Hh Ha [= <- <-]. split; [done | by apply memory_revoked]. Qed.
Lemma memory_holds_nil now : zero_time <= now -> memory_holds now [] NewMemoryStore.
Proof. intros Hc. split; [done | |]; (split; [done | |]); [done | by intros r ?%elem_of_nil | done | by intros r ?%elem_of_nil]. Qed.
End Memory.
