(* ===== verification/RedisRevocation.v ===== *)
(** The revocation store over Redis ([src/libs/backend/go/redis/revocation.go]).

    The server is a keyspace of texts with the millisecond each is kept until;
    the script runs in one step.  What the source leaves to Redis and Lua is a
    parameter: how Lua reads and compares numbers, how the server reads the
    argument of [PXAT] and when a key is gone.  A call may be lost before the
    server runs it, or after, with its answer. *)

From S2P Require Import Prelude GoTime GoStrings DomainKernel Errors Ports Sessions.

Definition ErrUnreadableEntry : error := Sentinel "redis.ErrUnreadableEntry".
Definition sessionPrefix : string := "dmpf:revocation:sid:".
Definition subjectPrefix : string := "dmpf:revocation:sub:".

Notation keyspace := (gmap string (string * Z)).
Inductive call_fault := CallFine | CallLost (ran : bool).
Record RedisWorld := mkRedisWorld { rw_keys : keyspace; rw_faults : list call_fault }.

Section Redis.
Context {Num : Type} (tonumber : string -> option Num) (num_leb num_ltb : Num -> Num -> bool).
Context (pxat : string -> option Z) (gone : Z -> Z -> bool).
(** The digest of a key, and what the server's clock reads in milliseconds when
    the store's reads an instant. *)
Context (digest : string -> string) (server_ms : Instant -> Z).

Definition sessionKey (id : string) : string := (sessionPrefix ++ digest id)%string.
Definition subjectKey (subject : SubjectID) : string := (subjectPrefix ++ digest subject)%string.

(** ** The server *)
Definition redis_get (ms : Z) (db : keyspace) (key : string) : option string :=
  match db !! key with
  | Some (value, at_) => if gone ms at_ then None else Some value
  | None => None
  end.
Inductive script_reply := ReplyInt (n : Z) | ReplyUnreadable | ReplyFailed.
Definition entry_text (revoked expires : string) : string := (revoked ++ String ":" expires)%string.
Definition set_entry (db : keyspace) (key revoked expires : string) : script_reply * keyspace :=
  match pxat expires with
  | Some at_ => (ReplyInt 1, <[key := (entry_text revoked expires, at_)]> db)
  | None => (ReplyFailed, db)
  end.
Definition revokeScript (ms : Z) (key revoked expires : string) (db : keyspace) : script_reply * keyspace :=
  match redis_get ms db key with
  | None => set_entry db key revoked expires
  | Some current =>
      match Cut ":" current with
      | None => (ReplyUnreadable, db)
      | Some (head, tail) =>
          match tonumber head, tonumber tail with
          | Some currentRevoked, Some currentExpires =>
              match tonumber revoked with
              | Some r =>
                  if num_leb r currentRevoked then (ReplyInt 0, db)
                  else match tonumber expires with
                       | Some e => set_entry db key revoked (if num_ltb e currentExpires then tail else expires)
                       | None => (ReplyFailed, db)
                       end
              | None => (ReplyFailed, db)
              end
          | _, _ => (ReplyUnreadable, db)
          end
      end
  end.

(** ** The client *)
Definition next_fault (w : RedisWorld) : call_fault * RedisWorld :=
  match rw_faults w with
  | [] => (CallFine, w)
  | f :: fs => (f, mkRedisWorld (rw_keys w) fs)
  end.
(** A call of the server; [None] is an error of the connection. *)
Definition redis_call {A} (f : keyspace -> A * keyspace) (w : RedisWorld) : option A * RedisWorld :=
  let '(fault, w) := next_fault w in
  match fault with
  | CallFine => let '(a, db) := f (rw_keys w) in (Some a, mkRedisWorld db (rw_faults w))
  | CallLost true => (None, mkRedisWorld (f (rw_keys w)).2 (rw_faults w))
  | CallLost false => (None, w)
  end.

(** ** The store *)
Definition revokedAt (value : string) : result error Z :=
  match Cut ":" value with
  | None => Err ErrUnreadableEntry
  | Some (head, _) => match Atoi head with Some at_ => Ok at_ | None => Err ErrUnreadableEntry end
  end.

(** [values[1]], the session's, is there when the reference names one. *)
Definition revoked_of (ref : SessionRef) (values : list (option string)) : result error RevocationKind :=
  match values with
  | [_; Some session] => _ ← revokedAt session; Ok RevocationSession
  | None :: _ => Ok ""%string
  | Some subject :: _ =>
      at_ ← revokedAt subject;
      Ok (if UnixMilli (sr_IssuedAt ref) <=? at_ then RevocationSubject else ""%string)
  | [] => Err ErrUnreadableEntry
  end.
Definition revoked_keys (ref : SessionRef) : list string :=
  subjectKey (sr_Subject ref) :: (if String.eqb (sr_ID ref) "" then [] else [sessionKey (sr_ID ref)]).
Definition redis_Revoked (now : Instant) (ref : SessionRef) : M RedisWorld error RevocationKind := fun w =>
  match redis_call (fun db => (map (redis_get (server_ms now) db) (revoked_keys ref), db)) w with
  | (None, w') => (Err (Opaque "redis: revocation lookup"), w')
  | (Some values, w') =>
      (if negb (Nat.eqb (length values) (length (revoked_keys ref))) then Err ErrUnreadableEntry
       else revoked_of ref values, w')
  end.

Definition keyOf (r : Revocation) : result error string :=
  if String.eqb (rv_Kind r) RevocationSession && negb (String.eqb (rv_SessionID r) "") then Ok (sessionKey (rv_SessionID r))
  else if String.eqb (rv_Kind r) RevocationSubject && negb (String.eqb (rv_Subject r) "") then Ok (subjectKey (rv_Subject r))
  else Err (Wrap "kind" ErrInvalidRevocation).

Definition redis_Revoke (now : Instant) (r : Revocation) : M RedisWorld error bool := fun w =>
  match keyOf r with
  | Err e => (Err e, w)
  | Panic p => (Panic p, w)
  | Ok key =>
      if negb (now <? rv_ExpiresAt r) then (Ok false, w)
      else
        match redis_call (revokeScript (server_ms now) key (Itoa (UnixMilli (rv_OccurredAt r)))
                            (Itoa (UnixMilli (rv_ExpiresAt r)))) w with
        | (None, w') => (Err (Opaque "redis: revocation write"), w')
        | (Some ReplyUnreadable, w') => (Err ErrUnreadableEntry, w')
        | (Some ReplyFailed, w') => (Err (Opaque "redis: revocation write"), w')
        | (Some (ReplyInt changed), w') => (Ok (changed =? 1), w')
        end
  end.
Definition redisStore : RevocationStore RedisWorld := mkRevocationStore _ redis_Revoked redis_Revoke.
End Redis.

(** The revocation store over Redis keeps the contract of a revocation store. *)

(** * What Redis and Lua document *)

(** A Lua number is a double: an integer within 53 bits is read exactly and
    compared as such. *)
Definition lua_exact (n : Z) : Prop := - 2 ^ 53 < n < 2 ^ 53.
Class LuaNumbers {Num : Type} (tonumber : string -> option Num) (num_leb num_ltb : Num -> Num -> bool) := {
  lua_reads n : lua_exact n -> is_Some (tonumber (Itoa n));
  lua_compares n m a b : lua_exact n -> lua_exact m -> tonumber (Itoa n) = Some a -> tonumber (Itoa m) = Some b ->
    num_leb a b = (n <=? m) /\ num_ltb a b = (n <? m)
}.
(** [PXAT] takes a positive integer; a key is there before its millisecond and
    not after it. *)
Class KeyExpiry (pxat : string -> option Z) (gone : Z -> Z -> bool) := {
  pxat_reads n : 0 < n <= max_int64 -> pxat (Itoa n) = Some n;
  gone_before ms at_ : ms < at_ -> gone ms at_ = false;
  gone_after ms at_ : at_ < ms -> gone ms at_ = true
}.

Lemma Itoa_no_colon n : in_int64 n -> ~ In ":"%char (list_ascii_of_string (Itoa n)).
Proof.
  intros Hn Hin. assert (In 58 (bytes_of (Itoa n))) as Hb.
  { unfold bytes_of. apply in_map_iff. by exists ":"%char. }
  assert (forall d, 0 <= d < 10 ^ 19 -> ~ In 58 (map digit_char (digits d))) as Hdigits.
  { intros d Hd Hc. apply in_map_iff in Hc as (x & Hx & Hx'). pose proof (digits_range 19 d ltac:(lia)) as Hr.
    rewrite List.Forall_forall in Hr. specialize (Hr x Hx'). unfold digit_char in Hx. lia. }
  destruct Hn as [Hl Hu]. unfold min_int64, max_int64 in *. unfold Itoa in Hb.
  destruct (Z.ltb_spec n 0).
  - assert (bytes_of (String "-" (string_of (map digit_char (digits (- n))))) = 45 :: map digit_char (digits (- n))) as Heq.
    { transitivity (45 :: bytes_of (string_of (map digit_char (digits (- n))))); [done |]. by rewrite digit_bytes by lia. }
    rewrite Heq in Hb. destruct Hb as [| Hb]; [done |]. by apply (Hdigits (- n)); [lia |].
  - rewrite digit_bytes in Hb by lia. by apply (Hdigits n); [lia |].
Qed.

Section RedisStore.
Context {Num : Type} (tonumber : string -> option Num) (num_leb num_ltb : Num -> Num -> bool).
Context (pxat : string -> option Z) (gone : Z -> Z -> bool) (digest : string -> string).
Context `{!LuaNumbers tonumber num_leb num_ltb, !KeyExpiry pxat gone}.
(** The length of a revocation in milliseconds, and the identifiers in play:
    their digests tell them apart. *)
Context (keep_ms : Z) (ids : string -> Prop).
Context (ids_nonempty : forall k, ids k -> k <> ""%string).
Context (digest_apart : forall a b, ids a -> ids b -> digest a = digest b -> a = b).
Notation store := (redisStore tonumber num_leb num_ltb pxat gone digest UnixMilli).
Notation key_of_session := (sessionKey digest).
Notation key_of_subject := (subjectKey digest).

Lemma session_keys_apart a b : ids a -> ids b -> key_of_session a = key_of_session b -> a = b.
Proof. intros Ha Hb Heq. unfold sessionKey in Heq. apply (inj (String.append sessionPrefix)) in Heq. auto. Qed.
Lemma subject_keys_apart a b : ids a -> ids b -> key_of_subject a = key_of_subject b -> a = b.
Proof. intros Ha Hb Heq. unfold subjectKey in Heq. apply (inj (String.append subjectPrefix)) in Heq. auto. Qed.
Lemma kinds_apart a b : key_of_session a <> key_of_subject b.
Proof. done. Qed.

(** ** The keyspace as two tables *)
Definition stored (o e : Z) : string * Z := (entry_text (Itoa o) (Itoa e), e).
Definition stores (db : keyspace) (key : string -> string) (kept : string -> option (Z * Z)) : Prop :=
  forall k, ids k -> db !! key k = (fun oe => stored oe.1 oe.2) <$> kept k.
Notation table kind key := (faithful UnixMilli keep_ms ids kind key).
Definition timely (r : Revocation) : Prop :=
  lua_exact (UnixMilli (rv_OccurredAt r)) /\ lua_exact (UnixMilli (rv_ExpiresAt r)).
Record redis_holds (now : Instant) (h : list Revocation) (w : RedisWorld) : Prop := mkRedisHolds {
  rh_clock : Millisecond <= now;
  rh_timely : Forall timely h;
  rh_tables : exists sessions subjects,
    stores (rw_keys w) key_of_session sessions /\ stores (rw_keys w) key_of_subject subjects /\
    table RevocationSession rv_SessionID (UnixMilli now) h sessions /\
    table RevocationSubject rv_Subject (UnixMilli now) h subjects
}.
Record redis_admits (r : Revocation) : Prop := mkRedisAdmits {
  ra_keyed : keyed r = Ok ();
  ra_expires : rv_ExpiresAt r = rv_OccurredAt r + keep_ms * Millisecond;
  ra_timely : timely r;
  ra_session : rv_Kind r = RevocationSession -> ids (rv_SessionID r);
  ra_subject : rv_Kind r = RevocationSubject -> ids (rv_Subject r)
}.

Lemma lua_exact_int64 n : lua_exact n -> in_int64 n.
Proof. unfold lua_exact, in_int64, min_int64, max_int64. lia. Qed.
Lemma stored_cut o e : lua_exact o -> Cut ":" (stored o e).1 = Some (Itoa o, Itoa e).
Proof. intros Ho. cbn [stored fst]. unfold entry_text. apply Cut_app. by apply Itoa_no_colon, lua_exact_int64. Qed.
Lemma stored_revokedAt o e : lua_exact o -> revokedAt (stored o e).1 = Ok o.
Proof. intros Ho. unfold revokedAt. rewrite stored_cut by done. by rewrite Atoi_Itoa by by apply lua_exact_int64. Qed.

(** An entry in the tables is one of the history's. *)
Lemma table_timely kind key now h kept k o e :
  Forall timely h -> table kind key now h kept -> ids k -> kept k = Some (o, e) -> lua_exact o /\ lua_exact e.
Proof.
  intros Ht Hf Hk Hs. destruct (ft_entry _ _ _ _ _ _ _ _ Hf k o e Hk Hs) as (r & Hr & _ & _ & -> & ->).
  rewrite Forall_forall in Ht. by apply Ht.
Qed.
Lemma redis_get_shown db key kept k ms : stores db key kept -> ids k ->
  redis_get gone ms db (key k) =
    match kept k with Some (o, e) => if gone ms e then None else Some (stored o e).1 | None => None end.
Proof. intros Hst Hk. unfold redis_get. rewrite (Hst k Hk). by destruct (kept k) as [[o e] |]. Qed.

(** ** The script *)
Definition upd (kept : string -> option (Z * Z)) (k : string) (v : Z * Z) : string -> option (Z * Z) :=
  fun j => if decide (j = k) then Some v else kept j.

Lemma stores_insert db key kept k o e : (forall a b, ids a -> ids b -> key a = key b -> a = b) ->
  stores db key kept -> ids k -> stores (<[key k := stored o e]> db) key (upd kept k (o, e)).
Proof.
  intros Hinj Hst Hk j Hj. unfold upd. destruct (decide (j = k)) as [-> | Hne]; [by rewrite lookup_insert_eq |].
  rewrite lookup_insert_ne by (intros Heq; by apply Hne, Hinj). by apply Hst.
Qed.
Lemma stores_insert_other (db : keyspace) (key : string -> string) kept other v : (forall j, other <> key j) ->
  stores db key kept -> stores (<[other := v]> db) key kept.
Proof. intros Hne Hst j Hj. rewrite lookup_insert_ne by apply Hne. by apply Hst. Qed.

Lemma script_table kind key K now h db kept r :
  (forall a b, ids a -> ids b -> K a = K b -> a = b) ->
  stores db K kept -> table kind key (UnixMilli now) h kept -> Forall timely h -> timely r ->
  uniform UnixMilli keep_ms ids kind key r -> rv_Kind r = kind -> Millisecond <= now -> now < rv_ExpiresAt r ->
  exists n db' kept',
    revokeScript tonumber num_leb num_ltb pxat gone (UnixMilli now) (K (key r))
      (Itoa (UnixMilli (rv_OccurredAt r))) (Itoa (UnixMilli (rv_ExpiresAt r))) db = (ReplyInt n, db') /\
    stores db' K kept' /\ table kind key (UnixMilli now) (r :: h) kept' /\
    (db' = db \/ exists v, db' = <[K (key r) := v]> db).
Proof.
  intros Hinj Hst Hf Ht [Hro Hre] Hun Hk Hc Hlt. pose proof Hun as [Hexp Hid]. specialize (Hid Hk).
  set (o := UnixMilli (rv_OccurredAt r)) in *. set (e := UnixMilli (rv_ExpiresAt r)) in *.
  assert (0 < e <= max_int64) as Hpos.
  { split; [| destruct (lua_exact_int64 _ Hre); lia]. assert (1 <= e) as He; [| lia].
    change 1 with (UnixMilli Millisecond). apply UnixMilli_mono. lia. }
  assert (UnixMilli now <= e) as Hnow by (apply UnixMilli_mono; lia).
  assert (forall db, set_entry pxat db (K (key r)) (Itoa o) (Itoa e) = (ReplyInt 1, <[K (key r) := stored o e]> db)) as Hset
    by (intros db0; unfold set_entry; by rewrite pxat_reads).
  assert ((forall o' e', kept (key r) = Some (o', e') -> o' <= o) ->
    table kind key (UnixMilli now) (r :: h) (upd kept (key r) (o, e))) as Hraise.
  { intros Hle. eapply faithful_raised; [exact Hf | done | done | done | |].
    - unfold upd. by rewrite decide_True.
    - intros k Hne. unfold upd. by rewrite decide_False. }
  unfold revokeScript. rewrite (redis_get_shown _ _ _ _ _ Hst Hid).
  destruct (kept (key r)) as [[o' e'] |] eqn:Hkept.
  2:{ rewrite Hset. exists 1, (<[K (key r) := stored o e]> db), (upd kept (key r) (o, e)).
      split_and!; [done | by apply stores_insert | by apply Hraise | by eauto]. }
  pose proof (faithful_span _ _ _ _ _ _ _ _ _ _ _ Hf Hid Hkept) as Hspan.
  destruct (table_timely _ _ _ _ _ _ _ _ Ht Hf Hid Hkept) as [Ho' He'].
  destruct (gone (UnixMilli now) e') eqn:Hgone.
  { rewrite Hset. exists 1, (<[K (key r) := stored o e]> db), (upd kept (key r) (o, e)).
    split_and!; [done | by apply stores_insert | apply Hraise | by eauto].
    intros o2 e2 [= <- <-]. destruct (Z.lt_ge_cases (UnixMilli now) e') as [Hb%gone_before |]; [congruence | lia]. }
  rewrite stored_cut by done.
  destruct (lua_reads o' Ho') as [a Ha], (lua_reads e' He') as [b Hb], (lua_reads o Hro) as [a2 Ha2], (lua_reads e Hre) as [b2 Hb2].
  rewrite Ha, Hb, Ha2, Hb2. destruct (lua_compares o o' a2 a Hro Ho' Ha2 Ha) as [-> _].
  destruct (lua_compares e e' b2 b Hre He' Hb2 Hb) as [_ ->].
  destruct (Z.leb_spec o o') as [Hle | Hgt].
  - exists 0, db, kept. split_and!; [done | done | by eapply faithful_kept | by left].
  - destruct (Z.ltb_spec e e'); [lia |]. rewrite Hset. exists 1, (<[K (key r) := stored o e]> db), (upd kept (key r) (o, e)).
    split_and!; [done | by apply stores_insert | apply Hraise | by eauto]. intros o2 e2 [= <- <-]. lia.
Qed.
Lemma redis_later now now' h w : redis_holds now h w -> now <= now' -> redis_holds now' h w.
Proof.
  intros [Hc Ht (s & u & Hs & Hu & Hfs & Hfu)] Hle. split; [lia | done |]. exists s, u.
  split_and!; [done | done | |]; eapply faithful_later; try done; by apply UnixMilli_mono.
Qed.
Lemma redis_holds_keys now h w w' : rw_keys w' = rw_keys w -> redis_holds now h w -> redis_holds now h w'.
Proof. intros Heq [Hc Ht Hx]. split; [done | done |]. by rewrite Heq. Qed.

Lemma script_holds now h w r :
  redis_holds now h w -> redis_admits r -> now < rv_ExpiresAt r ->
  exists key n db', keyOf digest r = Ok key /\
    revokeScript tonumber num_leb num_ltb pxat gone (UnixMilli now) key
      (Itoa (UnixMilli (rv_OccurredAt r))) (Itoa (UnixMilli (rv_ExpiresAt r))) (rw_keys w) = (ReplyInt n, db') /\
    forall faults, redis_holds now (r :: h) (mkRedisWorld db' faults).
Proof.
  intros [Hc Ht (s & u & Hs & Hu & Hfs & Hfu)] [Hkeyed Hexp Htr His Hiu] Hlt.
  assert (UnixMilli (rv_ExpiresAt r) = UnixMilli (rv_OccurredAt r) + keep_ms) as Hms by (by rewrite Hexp, UnixMilli_shift).
  unfold keyOf. destruct (keyed_kind r Hkeyed) as [[Hk Hne] | [Hk Hne]]; rewrite Hk; apply String.eqb_neq in Hne; rewrite Hne.
  - destruct (script_table _ _ key_of_session _ _ _ _ r session_keys_apart Hs Hfs Ht Htr ltac:(by split) Hk Hc Hlt)
      as (n & db' & s' & Hrun & Hs' & Hfs' & Hdb). exists (key_of_session (rv_SessionID r)), n, db'.
    split_and!; [done | done |]. intros faults. split; [done | by constructor |]. exists s', u. split_and!; [done | | done |].
    + destruct Hdb as [-> | [v ->]]; [done | by apply stores_insert_other].
    + apply faithful_other; [done | split; [done | by rewrite Hk] | by rewrite Hk].
  - destruct (script_table _ _ key_of_subject _ _ _ _ r subject_keys_apart Hu Hfu Ht Htr ltac:(by split) Hk Hc Hlt)
      as (n & db' & u' & Hrun & Hu' & Hfu' & Hdb). exists (key_of_subject (rv_Subject r)), n, db'.
    split_and!; [done | done |]. intros faults. split; [done | by constructor |]. exists s, u'. split_and!; [| done | | done].
    + destruct Hdb as [-> | [v ->]]; [done | by apply stores_insert_other].
    + apply faithful_other; [done | split; [done | by rewrite Hk] | by rewrite Hk].
Qed.

Lemma redis_revoke now h r w res w' :
  redis_holds now h w -> redis_admits r -> store_Revoke store now r w = (res, w') ->
  match res with
  | Ok _ => redis_holds now (r :: h) w'
  | Err _ => redis_holds now h w' \/ redis_holds now (r :: h) w'
  | Panic _ => False
  end.
Proof.
  intros Hh Ha. cbn. unfold redis_Revoke. destruct (Z.ltb_spec now (rv_ExpiresAt r)) as [Hlt | Hge]; cbn [negb].
  - destruct (script_holds now h w r Hh Ha Hlt) as (key & n & db' & -> & Hrun & Hnew).
    unfold redis_call, next_fault. destruct (rw_faults w) as [| [| []] fs] eqn:Hf; cbn [rw_keys rw_faults]; rewrite ?Hrun.
    + intros [= <- <-]. apply Hnew.
    + intros [= <- <-]. apply Hnew.
    + intros [= <- <-]. right. apply Hnew.
    + intros [= <- <-]. left. by apply (redis_holds_keys _ _ w).
  - destruct Ha as [Hkeyed Hexp Htr His Hiu].
    assert (UnixMilli (rv_ExpiresAt r) = UnixMilli (rv_OccurredAt r) + keep_ms) as Hms by (by rewrite Hexp, UnixMilli_shift).
    assert (redis_holds now (r :: h) w) as Hold.
    { destruct Hh as [Hc Ht (s & u & Hs & Hu & Hfs & Hfu)]. split; [done | by constructor |]. exists s, u.
      split_and!; [done | done | |]; (apply faithful_over; [done | by split | by apply UnixMilli_mono]). }
    unfold keyOf. destruct (keyed_kind r Hkeyed) as [[-> Hne] | [-> Hne]]; apply String.eqb_neq in Hne; rewrite Hne;
      by intros [= <- <-].
Qed.

Lemma redis_read now h ref w : redis_holds now h w -> asks ids ref ->
  exists kind, honest now h ref (Ok kind) /\
    revoked_of ref (map (redis_get gone (UnixMilli now) (rw_keys w)) (revoked_keys digest ref)) = Ok kind.
Proof.
  intros [Hc Ht (s & u & Hs & Hu & Hfs & Hfu)] [Hsub Hid].
  exists (answer_of UnixMilli (fun e => negb (gone (UnixMilli now) e)) s u ref). split.
  { eapply (answer_honest UnixMilli keep_ms ids); [apply UnixMilli_mono | done | | | done | exact Hfs | exact Hfu | by split].
    - intros e He%negb_true_iff. destruct (Z.lt_ge_cases e (UnixMilli now)) as [Ha%gone_after |]; [congruence | done].
    - intros e He. by rewrite gone_before. }
  unfold answer_of, revoked_keys. destruct (String.eqb_spec (sr_ID ref) "") as [He | Hne]; cbn [map].
  all: rewrite (redis_get_shown _ _ _ _ _ Hu Hsub). 2: rewrite (redis_get_shown _ _ _ _ _ Hs (Hid Hne)).
  all: unfold shown, revoked_of.
  2: destruct (s (sr_ID ref)) as [[o e] |] eqn:Hks; [destruct (table_timely _ _ _ _ _ _ _ _ Ht Hfs (Hid Hne) Hks); destruct (gone _ e) eqn:Hg |].
  all: destruct (u (sr_Subject ref)) as [[o' e'] |] eqn:Hku;
    [destruct (table_timely _ _ _ _ _ _ _ _ Ht Hfu Hsub Hku); destruct (gone _ e') eqn:Hg' |]; cbn [negb]; try done.
  all: rewrite stored_revokedAt by done; done.
Qed.

Lemma redis_revoked now h ref w res w' :
  redis_holds now h w -> asks ids ref -> store_Revoked store now ref w = (res, w') ->
  redis_holds now h w' /\ honest now h ref res.
Proof.
  intros Hh Ha. destruct (redis_read now h ref w Hh Ha) as (kind & Hhon & Hread).
  cbn [store_Revoked redisStore]. unfold redis_Revoked, redis_call, next_fault.
  destruct (rw_faults w) as [| [| []] fs] eqn:Hf; cbn [rw_keys rw_faults fst snd]; rewrite ?length_map, ?Nat.eqb_refl; cbn [negb];
    rewrite ?Hread; intros [<- <-]%pair_equal_spec; (split; [by apply (redis_holds_keys _ _ w) | done]).
Qed.

#[export] Program Instance redis_deny_list : DenyList store := {|
  dl_admits := redis_admits; dl_asks := asks ids;
  dl_holds := redis_holds; dl_later := redis_later
|}.
Next Obligation. intros now h r s res s' Hh Ha Hr. by eapply redis_revoke. Qed.
Next Obligation. intros now h ref s res s' Hh Ha Hr. by eapply redis_revoked. Qed.
Lemma redis_holds_nil now faults : Millisecond <= now -> redis_holds now [] (mkRedisWorld ∅ faults).
Proof.
  intros Hc. split; [done | done |]. exists (fun _ => None), (fun _ => None).
  split_and!; [by intros k _ | by intros k _ | apply faithful_nil | apply faithful_nil].
Qed.
End RedisStore.
