(* ===== verification/Authn.v ===== *)
(** Authentication at the edge ([src/libs/backend/go/authn]): the credential and
    the identity of [ports/authn.go], the claims of a token ([claims.go]), the
    verifier and its look-up of revoked sessions ([oidc.go]), the development
    authenticator ([identity.go]), the configuration ([config.go]) and the
    back-channel logout.

    Verifying a token's signature, issuer, audience and expiry is the OIDC
    library's: a parameter, as is what [encoding/json] reads in a text. *)

From S2P Require Import Prelude GoTime GoStrings GoSlices DomainKernel Errors Ports Sessions.

(** * [ports/authn.go] *)
Record Credential := mkCredential { cr_Scheme : string; cr_Value : string }.
Definition Presented (c : Credential) : bool := negb (String.eqb (cr_Value c) "").
Record Identity := mkIdentity { id_Subject : SubjectID; id_Tenant : option TenantID; id_Permissions : list Permission }.
Definition ErrCredentialAbsent : error := Sentinel "ports.ErrCredentialAbsent".
Definition ErrCredentialRejected : error := Sentinel "ports.ErrCredentialRejected".
Definition ErrSubjectUnresolved : error := Sentinel "ports.ErrSubjectUnresolved".

(** * Claims ([claims.go]) *)

(** What [encoding/json] decodes into an [any]. *)
Inductive any :=
| ANull
| ABool (b : bool)
| ANumber (text : string)
| AString (s : string)
| AList (items : list any)
| AMap (members : gmap string any).
Notation Claims := (gmap string any).

Definition childOf (object : Claims) (segment : string) : option any :=
  if negb (String.eqb segment "*") then object !! segment
  else match map_to_list object with [(_, only)] => Some only | _ => None end.
Fixpoint descend (current : any) (segments : list string) : option any :=
  match segments with
  | [] => Some current
  | segment :: rest =>
      match current with
      | AMap object => match childOf object segment with Some child => descend child rest | None => None end
      | _ => None
      end
  end.
Definition claimValue (claims : Claims) (path : string) : option any :=
  match claims !! path with
  | Some value => Some value
  | None =>
      let segments := split_on "." path in
      if Nat.eqb (length segments) 1 then None else descend (AMap claims) segments
  end.
Definition stringClaim (claims : Claims) (path : string) : option string :=
  match claimValue claims path with
  | None => None
  | Some value =>
      match (match value with AList [one] => Some one | AList _ => None | v => Some v end) with
      | Some (AString text) => if String.eqb text "" then None else Some text
      | _ => None
      end
  end.
Definition grantedIn (value : any) : list string :=
  match value with
  | AString text => Fields text
  | AList items => omap (fun item => match item with AString text => if String.eqb text "" then None else Some text | _ => None end) items
  | _ => []
  end.
Section Claims.
Context `{MapOrder}.
Definition granted_by (claims : Claims) (paths : list string) : list string :=
  concat (map (fun path => match claimValue claims path with Some value => grantedIn value | None => [] end) paths).
Definition permissionsFrom (claims : Claims) (paths : list string) : list Permission :=
  let seen : gmap string unit := foldl (fun seen granted => <[granted := ()]> seen) ∅ (granted_by claims paths) in
  sort_Strings (map fst (ranged seen)).

(** * The verifier ([oidc.go]) *)
Definition bearerScheme : string := "Bearer".
Definition claimSessionID : string := "sid".
Definition refusalExpired : string := "token_expired".
Definition refusalAudienceMismatch : string := "audience_mismatch".
Definition refusalIssuerMismatch : string := "issuer_mismatch".
Definition refusalSignatureInvalid : string := "signature_invalid".
Definition refusalMalformed : string := "malformed".
Definition refusalSessionRevoked : string := "session_revoked".

(** An error of the library: whether it is the one it types, and its text. *)
Record verify_error := mkVerifyError { ve_expired : bool; ve_message : string }.
Definition refusalOf (err : verify_error) : string * bool :=
  if ve_expired err then (refusalExpired, true)
  else if HasPrefix (ve_message err) "oidc: expected audience" then (refusalAudienceMismatch, true)
  else if HasPrefix (ve_message err) "oidc: id token issued by a different provider" then (refusalIssuerMismatch, true)
  else if HasPrefix (ve_message err) "failed to verify signature: fetching keys" then (""%string, false)
  else if HasPrefix (ve_message err) "failed to verify signature" then (refusalSignatureInvalid, true)
  else (refusalMalformed, true).

(** A verified token; its claims may still be unreadable. *)
Record Token := mkToken {
  tk_Subject : SubjectID; tk_IssuedAt : Instant; tk_Expiry : Instant; tk_claims : option Claims
}.
(** What a verifier logs and counts. *)
Inductive auth_note :=
| Refused (reason : string)
| KeysUnavailable
| StoreUnavailable
| CountRefusal (kind : RevocationKind)
| CountStoreError.

Record AuthWorld (S : Type) := mkAuthWorld { aw_store : S; aw_notes : list auth_note }.
Arguments mkAuthWorld {S}.
Arguments aw_store {S}.
Arguments aw_notes {S}.
Definition note {S} (n : auth_note) : M (AuthWorld S) error unit :=
  modify (fun w => mkAuthWorld (aw_store w) (aw_notes w ++ [n])).
Definition on_store {S A} (m : M S error A) : M (AuthWorld S) error A := fun w =>
  let '(r, s) := m (aw_store w) in (r, mkAuthWorld s (aw_notes w)).

Record Verifier := mkVerifier { vr_tenantClaim : string; vr_permissionClaims : list string; vr_checks : bool }.

Section Verifier.
Context {S : Type} (store : RevocationStore S) (Verify : Instant -> string -> result verify_error Token).
(** What the clocks read at the verification and at the look-up, and whether the
    request had been cancelled when the look-up came back. *)
Context (now store_now : Instant) (cancelled : bool).

(** [revocationMetrics.refused]. *)
Definition counted_kind (kind : RevocationKind) : RevocationKind :=
  if String.eqb kind RevocationSession then kind else RevocationSubject.
Definition checkRevocation (v : Verifier) (token : Token) (claims : Claims) : M (AuthWorld S) error unit :=
  if negb (vr_checks v) then mret ()
  else
    let ref := mkSessionRef (tk_Subject token) (default ""%string (stringClaim claims claimSessionID)) (tk_IssuedAt token) in
    answer ← attempt (on_store (store_Revoked store store_now ref));
    match answer with
    | Ok kind =>
        if negb (String.eqb kind "") then
          _ ← note (Refused refusalSessionRevoked);
          _ ← note (CountRefusal (counted_kind kind));
          throw (Wrap "session revoked" ErrCredentialRejected)
        else mret ()
    | _ =>
        if cancelled then throw (Wrap "request cancelled" ErrCredentialRejected)
        else
          _ ← note StoreUnavailable;
          _ ← note CountStoreError;
          throw (Wrap "revocation store unavailable" ErrCredentialRejected)
    end.
Definition Authenticate (v : Verifier) (credential : Credential) : M (AuthWorld S) error Identity :=
  if negb (Presented credential) then throw ErrCredentialAbsent
  else if negb (EqualFold (cr_Scheme credential) bearerScheme) then
    _ ← note (Refused refusalMalformed); throw (Wrap "unsupported scheme" ErrCredentialRejected)
  else
    match Verify now (cr_Value credential) with
    | Panic why => panic why
    | Err err =>
        let '(reason, refused) := refusalOf err in
        _ ← note (if refused then Refused reason else KeysUnavailable);
        throw (Join "" [ErrCredentialRejected; Opaque (ve_message err)])
    | Ok token =>
        if String.eqb (tk_Subject token) "" then
          _ ← note (Refused refusalMalformed); throw ErrSubjectUnresolved
        else
          match tk_claims token with
          | None => _ ← note (Refused refusalMalformed); throw (Join "claims are unreadable" [ErrCredentialRejected])
          | Some claims =>
              _ ← checkRevocation v token claims;
              mret (mkIdentity (tk_Subject token) (stringClaim claims (vr_tenantClaim v))
                      (permissionsFrom claims (vr_permissionClaims v)))
          end
    end.
End Verifier.
End Claims.
Arguments mkAuthWorld {S}.
Arguments aw_store {S}.
Arguments aw_notes {S}.

(** * What the caller presents ([identity.go]) *)
Definition CredentialFrom (header : string) : Credential :=
  let raw := TrimSpace header in
  if String.eqb raw "" then mkCredential "" ""
  else match Cut " " raw with
       | None => mkCredential raw ""
       | Some (scheme, value) => mkCredential scheme (TrimSpace value)
       end.
Record devIdentity := mkDevIdentity { dv_Subject : string; dv_Tenant : option string; dv_Permissions : list string }.
Section Dev.
Context (unmarshal : string -> option devIdentity).
Definition DevAuthenticator_Authenticate (credential : Credential) : result error Identity :=
  if negb (Presented credential) then Err ErrCredentialAbsent
  else if negb (EqualFold (cr_Scheme credential) bearerScheme) then Err (Wrap "unsupported scheme" ErrCredentialRejected)
  else match unmarshal (cr_Value credential) with
       | None => Err (Wrap "the development credential is not a declaration" ErrCredentialRejected)
       | Some declared =>
           if String.eqb (dv_Subject declared) "" then Err ErrSubjectUnresolved
           else
             let tenant := match dv_Tenant declared with
                           | Some t => if String.eqb t "" then None else Some t
                           | None => None
                           end in
             Ok (mkIdentity (dv_Subject declared) tenant (sort_Strings (dv_Permissions declared)))
       end.
End Dev.

(** * Permissions: the union of the declared claims, each once, whatever the order
    a map is ranged over. *)
Lemma seen_elements (granted : list string) (m : gmap string unit) g :
  is_Some (foldl (fun seen g => <[g := ()]> seen) m granted !! g) <-> g ∈ granted \/ is_Some (m !! g).
Proof.
  revert m. induction granted as [| x granted IH]; intros m; cbn; [set_solver |].
  rewrite IH, lookup_insert_is_Some, elem_of_cons. destruct (decide (x = g)); naive_solver.
Qed.
Lemma permissionsFrom_elem `{MapOrder} claims paths g :
  g ∈ permissionsFrom claims paths <-> g ∈ granted_by claims paths.
Proof.
  unfold permissionsFrom. cbv zeta. unfold sort_Strings. rewrite elem_of_SortStableFunc, list_elem_of_fmap. split.
  - intros ([k []] & -> & Hk%elem_of_ranged). cbn. assert (is_Some (foldl (fun seen g => <[g := ()]> seen) (∅ : gmap string unit)
      (granted_by claims paths) !! k)) as Hs by eauto. apply seen_elements in Hs as [| [? Hs]]; [done | by rewrite lookup_empty in Hs].
  - intros Hg. destruct (proj2 (seen_elements (granted_by claims paths) ∅ g) (or_introl Hg)) as [[] Hs].
    exists (g, ()). split; [done | by apply elem_of_ranged].
Qed.

(** What a process declares to authenticate: the parsers of
    [observability/envconfig], the configuration of [authn/config.go], and the
    back-channel logout of [authn/backchannel.go]. *)

(** * [envconfig.go] *)
Definition OrDefault (value fallback : string) : string := if String.eqb value "" then fallback else value.
Definition SplitList (value : string) : list string :=
  filter (fun item => negb (String.eqb item "") = true) (map TrimSpace (split_on "," value)).
Definition ParseBool (variable value : string) : result error bool :=
  if String.eqb value "" then Ok false
  else match strconv_ParseBool value with Some b => Ok b | None => Err (Wrap variable ErrInvalidVariable) end.
Definition ParsePositive (variable value : string) (fallback : Z) : result error Z :=
  if String.eqb value "" then Ok fallback
  else match Atoi value with
       | Some parsed => if parsed <=? 0 then Err (Wrap variable ErrInvalidVariable) else Ok parsed
       | None => Err (Wrap variable ErrInvalidVariable)
       end.

(** * [config.go] *)
Definition ErrVerifierNotDeclared : error := Sentinel "auth.ErrVerifierNotDeclared".
Definition ErrMockWithVerifier : error := Sentinel "auth.ErrMockWithVerifier".
Definition envAudience : string := "OIDC_AUDIENCE".
Definition envTenantClaim : string := "OIDC_TENANT_CLAIM".
Definition envPermissionClaims : string := "OIDC_PERMISSION_CLAIMS".
Definition envDiscoveryTimeout : string := "OIDC_DISCOVERY_TIMEOUT_SECONDS".
Definition envDevMock : string := "AUTH_DEV_MOCK".
Definition envRevocationTimeout : string := "OIDC_REVOCATION_TIMEOUT_MS".
Definition defaultDiscoveryTimeoutSeconds : Z := 10.
Definition defaultRevocationTimeoutMilliseconds : Z := 250.

(** [cf_Revocations]: whether a checker is given. *)
Record Config := mkConfig {
  cf_Issuer : string; cf_Audience : string; cf_TenantClaim : string; cf_PermissionClaims : list string;
  cf_DiscoveryTimeout : Z; cf_DevMock : bool; cf_Revocations : bool; cf_RevocationTimeout : Z
}.
Definition Defaults : Config :=
  mkConfig "" "" "" ["scope"; "realm_access.roles"]%string (defaultDiscoveryTimeoutSeconds * Second) false false
    (defaultRevocationTimeoutMilliseconds * Millisecond).
Definition ReadEnv (lookup : string -> string) : result error Config :=
  let claims := match SplitList (lookup envPermissionClaims) with
                | [] => cf_PermissionClaims Defaults
                | declared => declared
                end in
  discovery ← declared_or (lookup envDiscoveryTimeout) (fun v => parseSeconds envDiscoveryTimeout v 1)
                (cf_DiscoveryTimeout Defaults);
  revocation ← declared_or (lookup envRevocationTimeout) (parseMilliseconds envRevocationTimeout)
                 (cf_RevocationTimeout Defaults);
  mock ← ParseBool envDevMock (lookup envDevMock);
  Ok (mkConfig (lookup envIssuer) (lookup envAudience) (lookup envTenantClaim) claims discovery mock false revocation).
Definition Config_Validate (c : Config) : result error unit :=
  if cf_DevMock c && negb (String.eqb (cf_Issuer c) "") then Err ErrMockWithVerifier
  else if cf_DevMock c then Ok ()
  else if String.eqb (cf_Issuer c) "" then Err (Wrap "set" ErrVerifierNotDeclared)
  else if String.eqb (cf_Audience c) "" then Err (Wrap envAudience ErrMissingVariable)
  else if String.eqb (cf_TenantClaim c) "" then Err (Wrap envTenantClaim ErrMissingVariable)
  else if cf_Revocations c && (cf_RevocationTimeout c <=? 0) then Err (Wrap envRevocationTimeout ErrInvalidVariable)
  else Ok ().
Definition FromEnv (lookup : string -> string) : result error Config :=
  cfg ← ReadEnv lookup; _ ← Config_Validate cfg; Ok cfg.
Definition revocationState (c : Config) : string := if cf_Revocations c then "enabled" else "disabled".

(** * [backchannel.go] *)
Definition maxLogoutRequestBytes : Z := 64 * 1024.
Definition formLogoutToken : string := "logout_token".
Definition invalidLogoutRequestDoc : string := string_of
  [123; 34; 101; 114; 114; 111; 114; 34; 58; 34; 105; 110; 118; 97; 108; 105; 100; 95; 114; 101; 113; 117; 101; 115; 116; 34; 125].
Definition StatusOK : Z := 200.
Definition StatusBadRequest : Z := 400.
Definition StatusMethodNotAllowed : Z := 405.
Definition StatusServiceUnavailable : Z := 503.

(** A request: its method, and the value of a key of its form, absent where the
    body is no form or longer than the limit. *)
Record logout_request := mkLogoutRequest { lr_Method : string; lr_Form : option (string -> string) }.
Record logout_response := mkLogoutResponse { rs_Status : Z; rs_Headers : list (string * string); rs_Body : string }.
Record LogoutToken := mkLogoutToken {
  lt_TokenID : string; lt_Issuer : string; lt_Subject : SubjectID; lt_SessionID : string; lt_IssuedAt : Instant
}.
Definition ErrNoRevocationFeed : error := Sentinel "auth.ErrNoRevocationFeed".
Definition envBackchannelClientID : string := "OIDC_BACKCHANNEL_CLIENT_ID".

Section Backchannel.
Context {S : Type} (store : RevocationStore S) (VerifyLogout : Instant -> string -> result verify_error LogoutToken).
Context (f : Feed).
(** The clocks of the verification, of the feed and of the store. *)
Context (now feed_now store_now : Instant).
(** The metrics the feed observes, beside the store. *)
Definition BackWorld : Type := S * list observed.
Definition observe (o : list observed) : M BackWorld error unit := modify (fun w => (w.1, w.2 ++ o)).
Definition apply_event (e : SessionEvent) : M BackWorld error EventOutcome := fun w =>
  let '(r, s) := Apply store f feed_now store_now e w.1 in (r, (s, w.2)).

Definition no_store : string * string := ("Cache-Control", "no-store")%string.
Definition writeInvalidRequest : logout_response :=
  mkLogoutResponse StatusBadRequest [no_store; ("Content-Type", "application/json")%string] invalidLogoutRequestDoc.
Definition refuse : M BackWorld error logout_response :=
  _ ← observe (Record_ now zeroSessionEvent (Some EventInvalid)); mret writeInvalidRequest.
(** The event of a logout token, absent where it is refused, and whether the keys
    were read. *)
Definition verify (raw : string) : option SessionEvent * bool :=
  match VerifyLogout now raw with
  | Ok token =>
      if IsZero (lt_IssuedAt token) || (now + fd_skew f <? lt_IssuedAt token) then (None, true)
      else
        let kind := if String.eqb (lt_SessionID token) "" then SubjectRevoked else SessionEnded in
        (Some (mkSessionEvent (lt_TokenID token) kind (lt_Issuer token) (lt_Subject token) (lt_SessionID token)
                 (lt_IssuedAt token)), true)
  | Err err => (None, (refusalOf err).2)
  | Panic _ => (None, true)
  end.
Definition ServeHTTP (r : logout_request) : M BackWorld error logout_response :=
  if negb (String.eqb (lr_Method r) "POST") then
    mret (mkLogoutResponse StatusMethodNotAllowed [no_store; ("Allow", "POST")%string] "")
  else
    match lr_Form r with
    | None => refuse
    | Some form =>
        if String.eqb (form formLogoutToken) "" then refuse
        else
          match verify (form formLogoutToken) with
          | (_, false) => mret (mkLogoutResponse StatusServiceUnavailable [no_store] "")
          | (None, true) => refuse
          | (Some event, true) =>
              answer ← attempt (apply_event event);
              match answer with
              | Ok outcome =>
                  _ ← observe (Record_ now event (Some outcome));
                  mret (if bool_decide (outcome = EventInvalid) || bool_decide (outcome = EventForeignIssuer)
                        then writeInvalidRequest else mkLogoutResponse StatusOK [no_store] "")
              | _ => mret (mkLogoutResponse StatusServiceUnavailable [no_store] "")
              end
          end
    end.
End Backchannel.
