(* ===== verification/Polling.v ===== *)
(** The polling of Keycloak's events ([authn/sessionpolling.go]): every cycle
    rereads the window and applies what it finds.

    The Admin REST is a parameter: what a request is answered, over any
    environment, which also has the clock and says whether the context is done.
    [encoding/json] is a parameter for the two lists the code decodes. *)

From S2P Require Import Prelude GoStrings GoTime DomainKernel Errors Ports Sessions.

Definition ErrNotAKeycloakRealm : error := Sentinel "auth.ErrNotAKeycloakRealm".
Definition errEventsUnavailable : error := Sentinel "auth.errEventsUnavailable".
Definition errStoreUnavailable : error := Sentinel "auth.errStoreUnavailable".
Definition errTooManyPages : error := Sentinel "auth.errTooManyPages".
Definition ErrNoRevocationFeed : error := Sentinel "auth.ErrNoRevocationFeed".
Definition envSessionEventsClientID : string := "OIDC_SESSION_EVENTS_CLIENT_ID".
Definition envSessionEventsClientSecret : string := "OIDC_SESSION_EVENTS_CLIENT_SECRET".
Definition defaultPollingInterval : Z := 5 * Second.
Definition defaultPollingPageSize : Z := 100.
Definition defaultPollingTimeout : Z := 10 * Second.
Definition maxPollingPages : Z := 1000.
Definition maxPollingPageBytes : Z := 8 * 2 ^ 20.

Record SessionPollingConfig := mkPollingConfig {
  pc_ClientID : string; pc_ClientSecret : string; pc_Interval : Z; pc_PageSize : Z; pc_RequestTimeout : Z
}.
Definition withPollingDefaults (cfg : SessionPollingConfig) : SessionPollingConfig :=
  mkPollingConfig (pc_ClientID cfg) (pc_ClientSecret cfg)
    (if pc_Interval cfg <=? 0 then defaultPollingInterval else pc_Interval cfg)
    (if pc_PageSize cfg <=? 0 then defaultPollingPageSize else pc_PageSize cfg)
    (if pc_RequestTimeout cfg <=? 0 then defaultPollingTimeout else pc_RequestTimeout cfg).
Record SessionPolling := mkSessionPolling {
  sp_feed : Feed; sp_TokenURL : string; sp_admin : string; sp_interval : Z; sp_pageSize : Z; sp_timeout : Z
}.
Definition realms : string := "/realms/".
Definition NewSessionPolling (feed : option Feed) (cfg : SessionPollingConfig) : result error SessionPolling :=
  match feed with
  | None => Err ErrNoRevocationFeed
  | Some feed =>
      if String.eqb (pc_ClientID cfg) "" then Err (Wrap envSessionEventsClientID ErrMissingVariable)
      else if String.eqb (pc_ClientSecret cfg) "" then Err (Wrap envSessionEventsClientSecret ErrMissingVariable)
      else
        match CutLast realms (fd_issuer feed) with
        | None => Err (Wrap (fd_issuer feed) ErrNotAKeycloakRealm)
        | Some (before, realm) =>
            if contains "/" (default "" (CutPrefix realm realms)) then Err (Wrap (fd_issuer feed) ErrNotAKeycloakRealm)
            else
              let cfg := withPollingDefaults cfg in
              Ok (mkSessionPolling feed (fd_issuer feed ++ "/protocol/openid-connect/token")%string
                    (before ++ "/admin" ++ realm)%string
                    (pc_Interval cfg) (pc_PageSize cfg) (pc_RequestTimeout cfg))
        end
  end.

(** * Decoding *)
Record admin_event := mkAdminEvent {
  ae_ID : string; ae_Time : Z; ae_OperationType : string; ae_ResourceType : string; ae_ResourcePath : string;
  ae_Details : gmap string string
}.
Record user_event := mkUserEvent {
  ue_ID : string; ue_Time : Z; ue_Type : string; ue_UserID : string; ue_SessionID : string
}.
Definition users : string := "users/".
Definition sessions_path : string := "sessions/".
Definition adminRevocation (operation resource path : string) (details : gmap string string) : SessionEventKind * string :=
  if String.eqb resource "USER" then
    let '(user, rest) := default (TrimPrefix path users, "") (Cut "/" (TrimPrefix path users)) in
    if negb (HasPrefix path users) || String.eqb user "" then ("", "")
    else if String.eqb operation "UPDATE" && String.eqb rest "" && bool_decide (details !! "updated_enabled" = Some "false")
            || String.eqb operation "DELETE" && String.eqb rest ""
            || String.eqb operation "ACTION" && String.eqb rest "logout"
    then (SubjectRevoked, user) else ("", "")
  else if String.eqb resource "USER_SESSION" then
    match CutPrefix path sessions_path with
    | Some session =>
        if String.eqb operation "DELETE" && negb (String.eqb session "") && negb (contains "/" session)
        then (SessionEnded, session) else ("", "")
    | None => ("", "")
    end
  else ("", "").
Definition event (f : Feed) (id : string) (kind : SessionEventKind) (user session : string) (millis : Z) : SessionEvent :=
  mkSessionEvent id kind (fd_issuer f) user session (time_UnixMilli millis).
Definition admin_session_event (f : Feed) (e : admin_event) : option SessionEvent :=
  let '(kind, key) := adminRevocation (ae_OperationType e) (ae_ResourceType e) (ae_ResourcePath e) (ae_Details e) in
  if String.eqb kind SubjectRevoked then Some (event f (ae_ID e) kind key "" (ae_Time e))
  else if String.eqb kind SessionEnded then Some (event f (ae_ID e) kind "" key (ae_Time e))
  else None.
Definition user_session_event (f : Feed) (e : user_event) : option SessionEvent :=
  if String.eqb (ue_Type e) "LOGOUT" then Some (event f (ue_ID e) SessionEnded (ue_UserID e) (ue_SessionID e) (ue_Time e))
  else None.

(** * A cycle *)
Record pollSource := mkPollSource { ps_name : string; ps_path : string; ps_filter : gmap string (list string) }.
Definition adminSource : pollSource :=
  mkPollSource "admin" "/admin-events"
    {[ "resourceTypes" := ["USER"; "USER_SESSION"]; "operationTypes" := ["UPDATE"; "ACTION"; "DELETE"] ]}.
Definition userSource : pollSource := mkPollSource "user" "/events" {[ "type" := ["LOGOUT"] ]}.
Definition sources : list pollSource := [adminSource; userSource].

Record events_request := mkEventsRequest { rq_path : string; rq_query : gmap string (list string) }.
Inductive events_answer := NoAnswer | Answer (status : Z) (body : option bytes).

Section Polling.
Context {St E : Type} (store : RevocationStore St) (p : SessionPolling).
(** The environment: whether the context is done, its clock, the passing of time,
    and the answer to a request under the n-th client. *)
Context (done_ : E -> bool) (clock : E -> Instant) (tick : E -> E).
Context (Do : Z -> events_request -> E -> events_answer * E).
Context (json_admin : bytes -> option (list admin_event)) (json_user : bytes -> option (list user_event)).

Record PollWorld := mkPollWorld {
  pw_store : St; pw_env : E; pw_seen : gmap string Instant;
  (** What was counted, under the key it was counted by. *)
  pw_counted : list (string * SessionEvent * EventOutcome);
  (** How many clients were built. *)
  pw_clients : Z
}.
Notation act := (M PollWorld error).
Definition ctx_done : act bool := gets (fun w => done_ (pw_env w)).

Definition adminEvents (body : bytes) : result error (list (option SessionEvent)) :=
  match json_admin body with
  | Some events => Ok (map (admin_session_event (sp_feed p)) events)
  | None => Err (Wrap "the admin events are not a JSON list" errEventsUnavailable)
  end.
Definition userEvents (body : bytes) : result error (list (option SessionEvent)) :=
  match json_user body with
  | Some events => Ok (map (user_session_event (sp_feed p)) events)
  | None => Err (Wrap "the user events are not a JSON list" errEventsUnavailable)
  end.
Definition decode (source : pollSource) : bytes -> result error (list (option SessionEvent)) :=
  if String.eqb (ps_name source) "admin" then adminEvents else userEvents.

Definition request_of (source : pollSource) (from to_ : Instant) (first : Z) : events_request :=
  mkEventsRequest (sp_admin p ++ ps_path source)%string
    (ps_filter source ∪ {[ "dateFrom" := [Itoa (UnixMilli from)]; "dateTo" := [Itoa (UnixMilli to_)];
                           "first" := [Itoa first]; "max" := [Itoa (sp_pageSize p)] ]}).
(** [io.LimitReader]. *)
Definition limited (body : bytes) : bytes :=
  if len body <=? maxPollingPageBytes then body else take (Z.to_nat maxPollingPageBytes) body.
Definition authorize (w : PollWorld) : PollWorld :=
  mkPollWorld (pw_store w) (pw_env w) (pw_seen w) (pw_counted w) (pw_clients w + 1).
Definition fetch (source : pollSource) (from to_ : Instant) (first : Z) : act (list (option SessionEvent)) := fun w =>
  let '(answer, env) := Do (pw_clients w) (request_of source from to_ first) (pw_env w) in
  let w := mkPollWorld (pw_store w) env (pw_seen w) (pw_counted w) (pw_clients w) in
  match answer with
  | NoAnswer => (Err errEventsUnavailable, w)
  | Answer status body =>
      let w := if status =? 401 then authorize w else w in
      if negb (status =? 200) then (Err (Wrap (Itoa status) errEventsUnavailable), w)
      else match body with
           | None => (Err errEventsUnavailable, w)
           | Some body => (decode source (limited body), w)
           end
  end.

Definition seen_key (source : pollSource) (id : string) : string := (ps_name source ++ ":" ++ id)%string.
Definition apply (source : pollSource) (e : SessionEvent) : act unit := fun w =>
  let now := clock (pw_env w) in
  let '(r, s) := Apply store (sp_feed p) now now e (pw_store w) in
  match r with
  | Ok outcome =>
      let key := seen_key source (se_EventID e) in
      (Ok (), match pw_seen w !! key with
              | Some _ => mkPollWorld s (tick (pw_env w)) (pw_seen w) (pw_counted w) (pw_clients w)
              | None => mkPollWorld s (tick (pw_env w)) (<[key := se_OccurredAt e]> (pw_seen w))
                          (pw_counted w ++ [(key, e, outcome)]) (pw_clients w)
              end)
  | _ => (Err errStoreUnavailable, mkPollWorld s (tick (pw_env w)) (pw_seen w) (pw_counted w) (pw_clients w))
  end.
Fixpoint apply_all (source : pollSource) (events : list (option SessionEvent)) : act unit :=
  match events with
  | [] => mret ()
  | None :: rest => apply_all source rest
  | Some e :: rest => _ ← apply source e; apply_all source rest
  end.

(** [for page := range maxPollingPages]: [left_] pages are left. *)
Fixpoint poll_pages (left_ : nat) (page : Z) (source : pollSource) (from to_ : Instant) : act unit :=
  match left_ with
  | O => throw errTooManyPages
  | S left' =>
      answer ← attempt (fetch source from to_ (page *! sp_pageSize p));
      over ← ctx_done;
      if over : bool then throw ContextCanceled
      else
        events ← lift answer;
        _ ← apply_all source events;
        if len events <? sp_pageSize p then mret () else poll_pages left' (page + 1) source from to_
  end.
Definition poll_source (source : pollSource) (from to_ : Instant) : act unit :=
  poll_pages (Z.to_nat maxPollingPages) 0 source from to_.

Definition forgetBefore (from : Instant) (w : PollWorld) : PollWorld :=
  mkPollWorld (pw_store w) (pw_env w) (filter (fun kv => negb (kv.2 <? from) = true) (pw_seen w)) (pw_counted w) (pw_clients w).
Fixpoint poll_sources (rest : list pollSource) (from to_ : Instant) (failures : list error) : act unit :=
  match rest with
  | [] => match failures with [] => mret () | _ => throw (Join "" failures) end
  | source :: rest =>
      over ← ctx_done;
      if over : bool then throw ContextCanceled
      else
        r ← attempt (poll_source source from to_);
        poll_sources rest from to_
          (failures ++ match r with Err err => [Wrap (ps_name source) err] | _ => [] end)
  end.
Definition Poll : act unit := fun w =>
  let to_ := clock (pw_env w) in
  let from := to_ - fd_keep (sp_feed p) in
  poll_sources sources from to_ [] (forgetBefore from w).
Definition Tracked (w : PollWorld) : Z := Z.of_nat (size (pw_seen w)).

(** [Run], for as many turns as [fuel]: [wait] is the interval, cut short where it
    answers true. *)
Context (wait : Z -> E -> bool * E).
Fixpoint Run (fuel : nat) (w : PollWorld) : PollWorld :=
  match fuel with
  | O => w
  | S fuel' =>
      if done_ (pw_env w) then w
      else
        let w := (Poll w).2 in
        let '(cut, env) := wait (sp_interval p) (pw_env w) in
        let w := mkPollWorld (pw_store w) env (pw_seen w) (pw_counted w) (pw_clients w) in
        if cut then w else Run fuel' w
  end.
End Polling.
