(* ===== verification/SessionsTheorems.v ===== *)
(** What the revocation of sessions promises: a session that was ended never
    authenticates again, over any store that keeps the contract, and the store
    over Redis answers exactly what was recorded. *)

From stdpp Require Import relations.
From S2P Require Import Prelude GoStrings GoTime GoSlices DomainKernel Errors Ports Sessions RedisRevocation Authn.

(** * Runs of a store *)
Section Runs.
Context {S : Type} (store : RevocationStore S) `{!DenyList store}.

(** Calls in any order while time passes; [must] is what the store answered as
    recorded and [may] what it may have recorded, those whose answer was lost
    included. *)
Inductive run (s0 : S) (start : Instant) : Instant -> list Revocation -> list Revocation -> S -> Prop :=
| run_start : run s0 start start [] [] s0
| run_time now now' must may s : run s0 start now must may s -> now <= now' -> run s0 start now' must may s
| run_recorded now must may s r changed s' : run s0 start now must may s -> dl_admits r ->
    store_Revoke store now r s = (Ok changed, s') -> run s0 start now (r :: must) (r :: may) s'
| run_lost now must may s r e s' : run s0 start now must may s -> dl_admits r ->
    store_Revoke store now r s = (Err e, s') -> run s0 start now must (r :: may) s'
| run_asked now must may s ref res s' : run s0 start now must may s -> dl_asks ref ->
    store_Revoked store now ref s = (res, s') -> run s0 start now must may s'.

Lemma run_holds s0 start now must may s : dl_holds start [] s0 -> run s0 start now must may s ->
  exists h, must ⊆ h /\ h ⊆ may /\ dl_holds now h s.
Proof.
  intros H0. induction 1 as [| now now' must may s _ (h & Hm & Hs & Hh) Hle
    | now must may s r changed s' _ (h & Hm & Hs & Hh) Ha Hr | now must may s r e s' _ (h & Hm & Hs & Hh) Ha Hr
    | now must may s ref res s' _ (h & Hm & Hs & Hh) Ha Hr].
  - by exists [].
  - exists h. split_and!; [done | done | by eapply dl_later].
  - exists (r :: h). split_and!; [set_solver | set_solver |]. by apply (dl_revoke _ _ _ _ _ _ Hh Ha Hr).
  - destruct (dl_revoke _ _ _ _ _ _ Hh Ha Hr) as [Hh' | Hh']; [exists h | exists (r :: h)]; split_and!; try done; set_solver.
  - exists h. split_and!; [done | done |]. by destruct (dl_revoked _ _ _ _ _ _ Hh Ha Hr).
Qed.
End Runs.

(** ** The store over Redis *)
Section Redis.
Context {Num : Type} (tonumber : string -> option Num) (num_leb num_ltb : Num -> Num -> bool).
Context (pxat : string -> option Z) (gone : Z -> Z -> bool) (digest : string -> string).
Context `{!LuaNumbers tonumber num_leb num_ltb, !KeyExpiry pxat gone}.
Context (keep_ms : Z) (ids : string -> Prop).
Context (ids_nonempty : forall k, ids k -> k <> ""%string).
Context (digest_apart : forall a b, ids a -> ids b -> digest a = digest b -> a = b).
Notation store := (redisStore tonumber num_leb num_ltb pxat gone digest UnixMilli).
Notation inst := (redis_deny_list tonumber num_leb num_ltb pxat gone digest keep_ms ids ids_nonempty digest_apart).

(** C15: What the store over Redis answers, whatever calls are lost and whatever
    order the revocations come in: a token a recorded revocation denies is denied
    until its last millisecond, by session first, and a token is denied only where
    a revocation that may have been recorded denies it; no entry is unreadable. *)
Theorem redis_answers_exactly start faults now must may w ref res w'
  (Hstart : Millisecond <= start)
  (Hrun : run store (DenyList0 := inst) (mkRedisWorld ∅ faults) start now must may w)
  (Hasks : asks ids ref)
  (Hans : store_Revoked store now ref w = (res, w')) :
  match res with
  | Ok kind =>
      (forall r, r ∈ must -> denies r ref -> UnixMilli now < UnixMilli (rv_ExpiresAt r) ->
         kind <> ""%string /\ (rv_Kind r = RevocationSession -> kind = RevocationSession)) /\
      (kind = ""%string \/ exists r, r ∈ may /\ rv_Kind r = kind /\ denies_ms r ref /\
         UnixMilli now <= UnixMilli (rv_ExpiresAt r))
  | Err e => e = Opaque "redis: revocation lookup" /\ exists ran rest, rw_faults w = CallLost ran :: rest
  | Panic _ => False
  end.
Proof.
  destruct (run_holds store (DenyList0 := inst) _ _ _ _ _ _ (redis_holds_nil digest keep_ms ids start faults Hstart) Hrun) as (h & Hm & Hs & Hh).
  destruct (dl_revoked (DenyList := inst) _ _ _ _ _ _ Hh Hasks Hans) as [_ Hhon].
  destruct res as [kind | e | p]; [| | done].
  - destruct Hhon as [Hlive Hmay]. split; [intros r Hr; apply Hlive; set_solver |].
    destruct Hmay as [| (r & Hr & ?)]; [by left | right; exists r; split; [set_solver | done]].
  - destruct (redis_read pxat gone digest keep_ms ids ids_nonempty now h ref w Hh Hasks) as (kind & _ & Hread).
    cbn [store_Revoked redisStore] in Hans. unfold redis_Revoked, redis_call, next_fault in Hans.
    destruct (rw_faults w) as [| [| ran] fs] eqn:Hf; [| | by destruct ran; apply pair_equal_spec in Hans as [[= <-] _]; eauto].
    all: cbn [rw_keys rw_faults] in Hans; rewrite length_map, Nat.eqb_refl in Hans; cbn [negb] in Hans;
      rewrite Hread in Hans; by apply pair_equal_spec in Hans as [? _].
Qed.
End Redis.

(** * A session that was ended *)
Section Ended.
Context {S : Type} (store : RevocationStore S) `{!DenyList store} `{MapOrder} (f : Feed).

(** What the feed and the verifiers do to the store while time passes. *)
Inductive deny_step : Instant * S -> Instant * S -> Prop :=
| deny_time now now' s : now <= now' -> deny_step (now, s) (now', s)
| deny_apply now now' e s res s' : now <= now' -> (forall r, revocationOf f e = inl r -> dl_admits r) ->
    Apply store f now now' e s = (res, s') -> deny_step (now, s) (now', s')
| deny_ask now ref s res s' : dl_asks ref -> store_Revoked store now ref s = (res, s') -> deny_step (now, s) (now, s').

(** The tokens an event ends. *)
Definition ends (e : SessionEvent) (ref : SessionRef) : Prop :=
  (se_Kind e = SessionEnded /\ se_SessionID e = sr_ID ref) \/
  (se_Kind e = SubjectRevoked /\ se_Subject e = sr_Subject ref /\ sr_IssuedAt ref <= se_OccurredAt e).
Definition ref_of (token : Token) (claims : Claims) : SessionRef :=
  mkSessionRef (tk_Subject token) (default ""%string (stringClaim claims claimSessionID)) (tk_IssuedAt token).

Lemma revocationOf_ends e r ref : revocationOf f e = inl r -> ends e ref ->
  denies r ref /\ rv_ExpiresAt r = se_OccurredAt e + fd_keep f.
Proof.
  unfold revocationOf, ends, denies. cbv zeta. destruct (_ || _); [done |]. destruct (negb _); [done |].
  intros [= <-]. intros [[Hk Hid] | (Hk & Hs & Hi)]; rewrite Hk; cbn; auto.
Qed.
Lemma Apply_holds now store_now h e s res s' : now <= store_now ->
  (forall r, revocationOf f e = inl r -> dl_admits r) -> dl_holds now h s ->
  Apply store f now store_now e s = (res, s') ->
  exists h', h ⊆ h' /\ dl_holds store_now h' s' /\
    forall outcome r, res = Ok outcome -> revocationOf f e = inl r -> now < rv_ExpiresAt r -> r ∈ h'.
Proof.
  intros Hle Hadm Hh%(fun Hh => dl_later now store_now h s Hh Hle). unfold Apply.
  destruct (revocationOf f e) as [r | o] eqn:Hr; [| intros [= <- <-]; exists h; by split_and!].
  specialize (Hadm r eq_refl). destruct (Z.ltb_spec now (rv_ExpiresAt r)) as [Hlt | Hge]; cbn [negb].
  2:{ intros [= <- <-]. exists h. split_and!; [done | done |]. intros o r' _ [= <-]. lia. }
  unfold mbind, M_bind, map_err. destruct (store_Revoke store store_now r s) as [[changed | err | why] s1] eqn:Hrv;
    pose proof (dl_revoke _ _ _ _ _ _ Hh Hadm Hrv) as Hnew; cbn in Hnew; [| | done]; cbn; intros [= <- <-].
  - exists (r :: h). split_and!; [set_solver | done |]. intros o r' _ [= <-] _. by left.
  - destruct Hnew; [exists h | exists (r :: h)]; (split_and!; [set_solver | done | done]).
Qed.
Lemma deny_step_holds w w' : rtc deny_step w w' -> forall h, dl_holds w.1 h w.2 ->
  w.1 <= w'.1 /\ exists h', h ⊆ h' /\ dl_holds w'.1 h' w'.2.
Proof.
  induction 1 as [w | w1 w2 w3 Hs _ IH]; intros h Hh; [split; [lia | by exists h] |].
  assert (w1.1 <= w2.1 /\ exists h', h ⊆ h' /\ dl_holds w2.1 h' w2.2) as (Hle & h' & Hsub & Hh').
  { destruct Hs as [now now' s Hle | now now' e s res s' Hle Hadm Ha | now ref s res s' Hask Hr]; cbn in *.
    - split; [done |]. exists h. split; [done |]. by eapply dl_later.
    - split; [done |]. destruct (Apply_holds _ _ _ _ _ _ _ Hle Hadm Hh Ha) as (h' & ? & ? & _). by exists h'.
    - split; [lia |]. exists h. split; [done |]. by destruct (dl_revoked _ _ _ _ _ _ Hh Hask Hr). }
  destruct (IH h' Hh') as (Hle' & h2 & Hsub' & Hh2). split; [lia |]. exists h2. split; [by etrans | done].
Qed.

Lemma NewFeed_keep cfg : NewFeed true cfg = Ok f -> fd_keep f = fc_TTL cfg + fc_Skew cfg.
Proof.
  unfold NewFeed. cbn [negb]. destruct (String.eqb _ _); [done |]. destruct (Z.leb_spec (fc_TTL cfg) 0); [done |].
  destruct (Z.ltb_spec (fc_Skew cfg) 0); [done |]. destruct (Z.ltb_spec (max_int64 - fc_Skew cfg) (fc_TTL cfg)); [done |].
  intros [= <-]. cbn. apply wrap64_id. unfold in_int64, min_int64. lia.
Qed.

Context (Verify : Instant -> string -> result verify_error Token).
Lemma Authenticate_Ok now store_now cancelled v credential w identity w' :
  Authenticate store Verify now store_now cancelled v credential w = (Ok identity, w') ->
  exists token claims, Verify now (cr_Value credential) = Ok token /\ tk_claims token = Some claims /\
    tk_Subject token <> ""%string /\
    (vr_checks v = true -> exists s', store_Revoked store store_now (ref_of token claims) (aw_store w) = (Ok ""%string, s')).
Proof.
  unfold Authenticate. destruct (negb (Presented _)); [done |]. destruct (negb (EqualFold _ _)); [done |].
  destruct (Verify now (cr_Value credential)) as [token | err | why]; [| by destruct (refusalOf err) as [? []] | done].
  destruct (String.eqb_spec (tk_Subject token) ""); [done |]. destruct (tk_claims token) as [claims |] eqn:Hc; [| done].
  intros ([] & w1 & Hcheck & _)%bind_inv. exists token, claims. split_and!; [done | done | done |]. intros Hv.
  unfold checkRevocation in Hcheck. rewrite Hv in Hcheck. cbn [negb] in Hcheck.
  apply bind_inv in Hcheck as (answer & w2 & Hans & Hkind). unfold attempt, on_store in Hans. fold (ref_of token claims) in Hans.
  destruct (store_Revoked store store_now (ref_of token claims) (aw_store w)) as [[kind | err | why] s'];
    simplify_eq; [| by destruct cancelled].
  exists s'. destruct (String.eqb_spec kind ""); [by subst | done].
Qed.

(** C3: A session that was ended never authenticates again. Once the feed answered
    that an event was applied, was a duplicate or was over, whatever else is
    applied and asked and however long passes, no token the event ends is
    accepted: while it may still be valid the store denies it, and the store
    keeps the entry past the expiry of the longest token issued before the event,
    by the skew less what the look-up takes. *)
Theorem revoked_never_authenticates (start applied now store_now : Instant) h s0 e outcome s1 s2 cfg slack cancelled v
    credential identity notes w'
  (Hheld : dl_holds start h s0)
  (Hadmits : forall r, revocationOf f e = inl r -> dl_admits r)
  (Hclock : start <= applied)
  (Happly : Apply store f start applied e s0 = (Ok outcome, s1))
  (Houtcome : outcome = EventApplied \/ outcome = EventDuplicate \/ outcome = EventExpired)
  (Hrun : rtc deny_step (applied, s1) (now, s2))
  (Hfeed : NewFeed true cfg = Ok f)
  (Hlookup : now <= store_now <= now + slack)
  (Hexpiry : forall token, Verify now (cr_Value credential) = Ok token ->
     now <= tk_Expiry token <= tk_IssuedAt token + fc_TTL cfg)
  (Hended : forall token claims, Verify now (cr_Value credential) = Ok token -> tk_claims token = Some claims ->
     dl_asks (ref_of token claims) /\ ends e (ref_of token claims) /\
     tk_IssuedAt token + slack + Millisecond <= se_OccurredAt e + fc_Skew cfg)
  (Hchecks : vr_checks v = true) :
  Authenticate store Verify now store_now cancelled v credential (mkAuthWorld s2 notes) <> (Ok identity, w').
Proof.
  intros (token & claims & Hv & Hc & _ & Hlook)%Authenticate_Ok. destruct (Hlook Hchecks) as [s3 Hans].
  destruct (Hended token claims Hv Hc) as (Hasks & Hends & Hissued). destruct (Hexpiry token Hv) as [Hvalid Hlife].
  destruct (Apply_holds _ _ _ _ _ _ _ Hclock Hadmits Hheld Happly) as (h1 & _ & Hh1 & Hin).
  destruct (deny_step_holds _ _ Hrun h1 Hh1) as (Hlater & h2 & Hsub & Hh2). cbn in Hlater, Hh2, Hans.
  destruct (revocationOf f e) as [r | o] eqn:Hr.
  2:{ unfold Apply in Happly. rewrite Hr in Happly. injection Happly as -> _.
      unfold revocationOf in Hr. cbv zeta in Hr. destruct (_ || _) in Hr; [by injection Hr as <-; naive_solver |].
      destruct (negb _) in Hr; [by injection Hr as <-; naive_solver | done]. }
  destruct (revocationOf_ends e r _ Hr Hends) as [Hden Hexp]. rewrite (NewFeed_keep cfg Hfeed) in Hexp.
  assert (store_now + Millisecond <= rv_ExpiresAt r) as Hlive by lia. assert (0 < Millisecond) by done.
  assert (r ∈ h2) as Hr2 by (apply Hsub, (Hin outcome r); [done | done | lia]).
  destruct (dl_revoked _ _ _ _ _ _ (dl_later _ _ _ _ Hh2 (proj1 Hlookup)) Hasks Hans) as [_ [Hhon _]].
  destruct (Hhon r Hr2 Hden) as [Hne _]; [| done].
  apply Z.lt_le_trans with (UnixMilli store_now + 1); [lia |].
  rewrite <- UnixMilli_shift. apply UnixMilli_mono. lia.
Qed.
End Ended.

(** * Concrete runs *)
Module SessionFixture.
Definition t0 : Instant := 1700000000 * Second.
Definition cfg : FeedConfig := mkFeedConfig "https://idp/realms/acme" (3600 * Second) (60 * Second).
Definition feed : Feed := mkFeed "https://idp/realms/acme" (3660 * Second) (60 * Second).
Definition logout : SessionEvent := mkSessionEvent "e-1" SessionEnded "https://idp/realms/acme" "u-1" "s-1" t0.
Definition claims : Claims := {[ "sid"%string := AString "s-1"; "tenant"%string := AString "t-1" ]}.
Definition token : Token := mkToken "u-1" (t0 - 100 * Second) (t0 + 3500 * Second) (Some claims).
Definition expired_error : verify_error := mkVerifyError true "oidc: token is expired".
Definition Verify (now : Instant) (raw : string) : result verify_error Token :=
  if String.eqb raw "t-1" then if now <=? tk_Expiry token then Ok token else Err expired_error
  else Err (mkVerifyError false "oidc: malformed jwt").
Definition bearer : Credential := mkCredential "bearer" "t-1".
Definition verifier : Verifier := mkVerifier "tenant" ["scope"%string] true.
Definition identity : Identity := mkIdentity "u-1" (Some "t-1"%string) [].
Definition ended : MemoryStore := (Apply memoryStore feed (t0 + Second) (t0 + Second) logout NewMemoryStore).2.
Definition at_ (n : Z) : Instant := t0 + n * Second.
#[export] Instance order : MapOrder := by_key.
End SessionFixture.
Import SessionFixture.

(** Before the logout the token is accepted. *)
Example token_accepted_before :
  (Authenticate memoryStore Verify (at_ 2) (at_ 2) false verifier bearer (mkAuthWorld NewMemoryStore [])).1 = Ok identity.
Proof. vm_compute. reflexivity. Qed.

Lemma revoked_never_authenticates_witness :
  Apply memoryStore feed (at_ 1) (at_ 1) logout NewMemoryStore = (Ok EventApplied, ended) /\
  Authenticate memoryStore Verify (at_ 2) (at_ 2) false verifier bearer (mkAuthWorld ended []) <>
    (Ok identity, mkAuthWorld ended []).
Proof.
  assert (Apply memoryStore feed (at_ 1) (at_ 1) logout NewMemoryStore = (Ok EventApplied, ended)) as Happly
    by (apply pair_equal_spec; split; [vm_compute; reflexivity | reflexivity]).
  split; [exact Happly |].
  refine (revoked_never_authenticates memoryStore (DenyList0 := memory_deny_list (3660 * Second)) feed Verify
    (at_ 1) (at_ 1) (at_ 2) (at_ 2) [] NewMemoryStore logout EventApplied ended ended cfg 0 false verifier bearer
    identity [] (mkAuthWorld ended []) _ _ _ Happly _ _ _ _ _ _ _).
  - apply memory_holds_nil. vm_compute. discriminate.
  - intros r Hr. vm_compute in Hr. injection Hr as <-. by split.
  - lia.
  - by left.
  - eapply rtc_once, deny_time. vm_compute. discriminate.
  - vm_compute. reflexivity.
  - split; vm_compute; discriminate.
  - intros tk Htk. vm_compute in Htk. injection Htk as <-. split; vm_compute; discriminate.
  - intros tk cl Htk Hcl. change (Verify (at_ 2) "t-1") with (@Ok verify_error Token token) in Htk. injection Htk as <-.
    injection Hcl as <-. split; [| split].
    + split; [done |]. intros _. vm_compute. discriminate.
    + left. split; vm_compute; reflexivity.
    + vm_compute. discriminate.
  - reflexivity.
Defined.

(** A Redis that reads numbers as they are written and drops a key after its
    millisecond; the identifiers are their own digests. *)
Module RedisFixture.
Definition gone (ms at_ : Z) : bool := at_ <? ms.
Definition plain (s : string) : string := s.
#[export] Instance numbers : LuaNumbers Atoi Z.leb Z.ltb.
Proof.
  assert (forall n, lua_exact n -> Atoi (Itoa n) = Some n) as Hread by (intros n Hn; by apply Atoi_Itoa, lua_exact_int64).
  split.
  - intros n Hn. rewrite Hread by done. by eexists.
  - intros n m a b Hn Hm. rewrite !Hread by done. by intros [= <-] [= <-].
Qed.
#[export] Instance expiry : KeyExpiry Atoi gone.
Proof.
  split.
  - intros n Hn. apply Atoi_Itoa. unfold in_int64, min_int64. lia.
  - intros ms a Hlt. apply Z.ltb_ge. lia.
  - intros ms a Hlt. by apply Z.ltb_lt.
Qed.
Definition store : RevocationStore RedisWorld := redisStore Atoi Z.leb Z.ltb Atoi gone plain UnixMilli.
Definition entry : Revocation := mkRevocation "e-1" RevocationSession "u-1" "s-1" t0 (t0 + 3660 * Second).
Definition empty : RedisWorld := mkRedisWorld ∅ [CallFine; CallFine; CallLost true].
Definition recorded : RedisWorld := (store_Revoke store (at_ 1) entry empty).2.
Definition asked : SessionRef := mkSessionRef "u-1" "s-1" (t0 - Second).
Definition answered : RedisWorld := (store_Revoked store (at_ 2) asked recorded).2.
End RedisFixture.
Import RedisFixture.

Lemma redis_answers_exactly_witness :
  store_Revoked RedisFixture.store (at_ 2) asked recorded = (Ok RevocationSession, RedisFixture.answered) /\
  (forall r, r ∈ [entry] -> denies r asked -> UnixMilli (at_ 2) < UnixMilli (rv_ExpiresAt r) ->
     RevocationSession <> ""%string /\ (rv_Kind r = RevocationSession -> RevocationSession = RevocationSession)) /\
  (RevocationSession = ""%string \/ exists r, r ∈ [entry] /\ rv_Kind r = RevocationSession /\ denies_ms r asked /\
     UnixMilli (at_ 2) <= UnixMilli (rv_ExpiresAt r)).
Proof.
  assert (store_Revoked RedisFixture.store (at_ 2) asked recorded = (Ok RevocationSession, RedisFixture.answered)) as Hans
    by (apply injective_projections; [vm_compute; reflexivity | reflexivity]).
  split; [exact Hans |].
  refine (redis_answers_exactly Atoi Z.leb Z.ltb Atoi RedisFixture.gone plain (3660 * 1000) (fun k => k <> ""%string)
    (fun k Hk => Hk) (fun a b _ _ Hab => Hab) (at_ 0) [CallFine; CallFine; CallLost true] (at_ 2) [entry] [entry] recorded
    asked (Ok RevocationSession) RedisFixture.answered _ _ _ Hans).
  - vm_compute. discriminate.
  - eapply run_time with (now := at_ 1); [| vm_compute; discriminate].
    eapply run_recorded with (changed := true) (s := empty).
    + eapply run_time; [apply run_start | vm_compute; discriminate].
    + split; [done | done | split; split; vm_compute; reflexivity | done | done].
    + apply injective_projections; [vm_compute; reflexivity | reflexivity].
  - split; [done |]. done.
Defined.
