(* ===== verification/PollingTheorems.v ===== *)
(** What a polling cycle promises: one that reads the whole window leaves every
    event of it in force, and each event is counted once. *)

From stdpp Require Import relations.
From S2P Require Import Prelude GoTime GoStrings GoSlices DomainKernel Errors Ports Sessions Authn Polling SessionsTheorems.

(** * A cycle *)
Section Cycle.
Context {St E : Type} (store : RevocationStore St) `{!DenyList store} (p : SessionPolling).
Context (done_ : E -> bool) (clock : E -> Instant) (tick : E -> E).
Context (Do : Z -> events_request -> E -> events_answer * E).
Context (json_admin : bytes -> option (list admin_event)) (json_user : bytes -> option (list user_event)).
Notation world := (@PollWorld St E).
Notation act_apply := (apply store p clock tick).
Notation all := (apply_all store p clock tick).
Notation pages := (poll_pages store p done_ clock tick Do json_admin json_user).
Notation feed := (sp_feed p).

(** The server has the events [L] of a source in the window, whatever is asked
    first; the context stays live and the clock goes forward. *)
Definition serves (source : pollSource) (from to_ : Instant) (L : list (option SessionEvent)) : Prop :=
  forall n first env, 0 <= first <= max_int64 -> exists body env',
    Do n (request_of p source from to_ first) env = (Answer 200 (Some body), env') /\
    decode p json_admin json_user source (limited body) =
      Ok (take (Z.to_nat (sp_pageSize p)) (drop (Z.to_nat first) L)) /\
    clock env <= clock env'.
Context (never_done : forall env, done_ env = false) (tick_later : forall env, clock env <= clock (tick env)).
Context (store_answers : forall now r s, dl_admits r -> exists changed s', store_Revoke store now r s = (Ok changed, s')).
Definition admitted (L : list (option SessionEvent)) : Prop :=
  forall e r, Some e ∈ L -> revocationOf feed e = inl r -> dl_admits r.

(** What one step leaves: the history grows, the clock goes forward, and the live
    events of a list are in the history. *)
Definition restored (L : list (option SessionEvent)) (h : list Revocation) (w w' : world) (h' : list Revocation) : Prop :=
  h ⊆ h' /\ clock (pw_env w) <= clock (pw_env w') /\ dl_holds (clock (pw_env w')) h' (pw_store w') /\
  forall e r, Some e ∈ L -> revocationOf feed e = inl r -> clock (pw_env w') < rv_ExpiresAt r -> r ∈ h'.

Lemma restored_nil h w : dl_holds (clock (pw_env w)) h (pw_store w) -> restored [] h w w h.
Proof. intros Hh. split_and!; [done | lia | done |]. by intros e r ?%elem_of_nil. Qed.
Lemma restored_app L1 L2 h w w1 h1 w2 h2 :
  restored L1 h w w1 h1 -> restored L2 h1 w1 w2 h2 -> restored (L1 ++ L2) h w w2 h2.
Proof.
  intros (Hs1 & Hc1 & Hh1 & Hin1) (Hs2 & Hc2 & Hh2 & Hin2). split_and!; [by etrans | lia | done |].
  intros e r [Hin | Hin]%elem_of_app Hr Hlt; [| by eapply Hin2]. apply Hs2, (Hin1 e); [done | done | lia].
Qed.
Lemma restored_env L h w w' h' env' seen counted n : restored L h w w' h' -> clock (pw_env w') <= clock env' ->
  restored L h w (mkPollWorld (pw_store w') env' seen counted n) h'.
Proof.
  intros (Hs & Hc & Hh & Hin) Hle. split_and!; cbn; [done | lia | by eapply dl_later |].
  intros e r He Hr Hlt. apply (Hin e r He Hr). lia.
Qed.

Lemma apply_restores source e h w : admitted [Some e] -> dl_holds (clock (pw_env w)) h (pw_store w) ->
  exists w' h', act_apply source e w = (Ok (), w') /\ restored [Some e] h w w' h'.
Proof.
  intros Ha Hh. assert (forall r, revocationOf feed e = inl r -> dl_admits r) as Hadm by (intros r; apply (Ha e r); by left).
  unfold apply. destruct (Apply store feed (clock (pw_env w)) (clock (pw_env w)) e (pw_store w)) as [res s'] eqn:Hap.
  destruct (Apply_holds store feed _ _ _ _ _ _ _ (Z.le_refl _) Hadm Hh Hap) as (h' & Hsub & Hh' & Hin).
  destruct res as [outcome | err | why].
  - exists (match pw_seen w !! seen_key source (se_EventID e) with
            | Some _ => mkPollWorld s' (tick (pw_env w)) (pw_seen w) (pw_counted w) (pw_clients w)
            | None => mkPollWorld s' (tick (pw_env w)) (<[seen_key source (se_EventID e) := se_OccurredAt e]> (pw_seen w))
                        (pw_counted w ++ [(seen_key source (se_EventID e), e, outcome)]) (pw_clients w)
            end), h'. split; [done |].
    assert (restored [Some e] h w (mkPollWorld s' (tick (pw_env w)) (pw_seen w) (pw_counted w) (pw_clients w)) h') as Hres.
    { split_and!; cbn; [done | done | by eapply dl_later |]. intros e' r [= ->]%list_elem_of_singleton Hr Hlt.
      apply (Hin outcome r eq_refl Hr). specialize (tick_later (pw_env w)). lia. }
    by destruct (pw_seen w !! _).
  - exfalso. unfold Apply in Hap. destruct (revocationOf feed e) as [r |]; [| done].
    destruct (negb _); [done |]. unfold mbind, M_bind, map_err in Hap.
    destruct (store_answers (clock (pw_env w)) r (pw_store w) (Hadm r eq_refl)) as (c & s2 & Hc). by rewrite Hc in Hap.
  - exfalso. unfold Apply in Hap. destruct (revocationOf feed e) as [r |]; [| done].
    destruct (negb _); [done |]. unfold mbind, M_bind, map_err in Hap.
    destruct (store_answers (clock (pw_env w)) r (pw_store w) (Hadm r eq_refl)) as (c & s2 & Hc). by rewrite Hc in Hap.
Qed.
Lemma apply_all_restores source events h w : admitted events -> dl_holds (clock (pw_env w)) h (pw_store w) ->
  exists w' h', all source events w = (Ok (), w') /\ restored events h w w' h'.
Proof.
  revert h w. induction events as [| [e |] events IH]; intros h w Ha Hh; cbn [apply_all].
  - exists w, h. split; [done | by apply restored_nil].
  - assert (admitted [Some e]) as Ha1 by (intros e' r [= ->]%list_elem_of_singleton; apply Ha; by left).
    destruct (apply_restores source e h w Ha1 Hh) as (w1 & h1 & Hap & Hr1).
    destruct (IH h1 w1) as (w2 & h2 & Hall & Hr2); [by intros e' r Hin; apply Ha; right | by destruct Hr1 as (_ & _ & ? & _) |].
    exists w2, h2. unfold mbind, M_bind. rewrite Hap, Hall. split; [done |]. by apply (restored_app [Some e] _ _ _ w1 h1).
  - destruct (IH h w) as (w1 & h1 & Hall & Hs & Hc & Hh1 & Hin); [by intros e' r Hin; apply Ha; right | done |].
    exists w1, h1. split; [done |]. split_and!; [done | done | done |].
    intros e r [? | He]%elem_of_cons; [done | by apply Hin].
Qed.

(** A source whose events fit the page limit is read to its end. *)
Context (page_size : 0 < sp_pageSize p) (page_fits : 1000 * sp_pageSize p <= max_int64).
Lemma pages_restore source from to_ L left_ page h w :
  serves source from to_ L -> admitted L -> 0 <= page -> page + Z.of_nat left_ <= 1000 ->
  0 <= len L - page * sp_pageSize p < Z.of_nat left_ * sp_pageSize p ->
  dl_holds (clock (pw_env w)) h (pw_store w) ->
  exists w' h', pages left_ page source from to_ w = (Ok (), w') /\
    restored (drop (Z.to_nat (page * sp_pageSize p)) L) h w w' h'.
Proof.
  intros Hserves Ha. revert page h w. induction left_ as [| left_ IH]; intros page h w Hp Hbound Hlen Hh; [lia |].
  cbn [poll_pages]. set (first := page * sp_pageSize p) in *.
  assert (0 <= first <= max_int64) as Hfirst by (unfold first; nia).
  assert (wrap64 first = first) as Hwrap by (apply wrap64_id; unfold in_int64, min_int64; lia).
  destruct (Hserves (pw_clients w) first (pw_env w) Hfirst) as (body & env & Hdo & Hdec & Hclock).
  set (w1 := mkPollWorld (pw_store w) env (pw_seen w) (pw_counted w) (pw_clients w)).
  set (events := take (Z.to_nat (sp_pageSize p)) (drop (Z.to_nat first) L)) in *.
  assert (fetch p Do json_admin json_user source from to_ first w = (Ok events, w1)) as Hfetch
    by (unfold fetch; rewrite Hdo; cbn; by rewrite Hdec).
  assert (dl_holds (clock (pw_env w1)) h (pw_store w1)) as Hh1 by (cbn; by eapply dl_later).
  assert (admitted events) as Hae.
  { intros e r Hin. apply Ha. unfold events in Hin. apply elem_of_take in Hin as (i & Hi & _).
    rewrite lookup_drop in Hi. by eapply list_elem_of_lookup_2. }
  destruct (apply_all_restores source events h w1 Hae Hh1) as (w2 & h2 & Hall & Hr2).
  assert (restored events h w w2 h2) as Hr by (destruct Hr2 as (? & ? & ? & ?); split_and!; try done; cbn in *; lia).
  rewrite Hwrap. unfold mbind, M_bind, attempt, ctx_done, gets, lift. rewrite Hfetch. cbn [w1 pw_env]. rewrite never_done. rewrite Hall.
  assert (len events = Z.min (sp_pageSize p) (len L - first)) as Hle.
  { unfold events, len in *. rewrite length_take, length_drop. lia. }
  destruct (Z.ltb_spec (len events) (sp_pageSize p)) as [Hshort | Hfull].
  - exists w2, h2. split; [done |]. unfold events in Hr. rewrite take_ge in Hr; [done |].
    unfold len in *. rewrite length_drop. lia.
  - destruct (IH (page + 1) h2 w2) as (w3 & h3 & Hpages & Hr3); [lia | lia | unfold first in *; lia | by destruct Hr as (_ & _ & ? & _) |].
    exists w3, h3. split; [done |].
    rewrite <- (take_drop (Z.to_nat (sp_pageSize p)) (drop (Z.to_nat first) L)), drop_drop.
    eapply restored_app; [exact Hr |]. replace (Z.to_nat first + Z.to_nat (sp_pageSize p))%nat
      with (Z.to_nat ((page + 1) * sp_pageSize p)) by (unfold first in *; lia). exact Hr3.
Qed.
Lemma source_restores source from to_ L h w :
  serves source from to_ L -> admitted L -> len L < 1000 * sp_pageSize p -> dl_holds (clock (pw_env w)) h (pw_store w) ->
  exists w' h', poll_source store p done_ clock tick Do json_admin json_user source from to_ w = (Ok (), w') /\
    restored L h w w' h'.
Proof.
  intros Hs Ha Hl Hh. unfold poll_source. pose proof (len_nonneg L).
  destruct (pages_restore source from to_ L (Z.to_nat maxPollingPages) 0 h w Hs Ha) as (w' & h' & Hp & Hr);
    [lia | done | unfold maxPollingPages; lia | done |]. exists w', h'. by rewrite Z.mul_0_l, drop_0 in Hr.
Qed.

(** C16: A cycle restores the window. Where the Admin REST answers every page, each
    source has fewer events in the window than the page limit allows and the store
    takes what it is given, the cycle succeeds and every event of the window that
    is not over is in force afterwards, whatever the store had lost; nothing in
    force before is lifted. *)
Theorem poll_restores w h admin_events user_events
  (Hheld : dl_holds (clock (pw_env w)) h (pw_store w))
  (Hadmin : serves adminSource (clock (pw_env w) - fd_keep feed) (clock (pw_env w)) admin_events)
  (Huser : serves userSource (clock (pw_env w) - fd_keep feed) (clock (pw_env w)) user_events)
  (Hadmits : admitted (admin_events ++ user_events))
  (Hfew : len admin_events < 1000 * sp_pageSize p /\ len user_events < 1000 * sp_pageSize p) :
  exists w' h', Poll store p done_ clock tick Do json_admin json_user w = (Ok (), w') /\
    h ⊆ h' /\ dl_holds (clock (pw_env w')) h' (pw_store w') /\
    forall e r, Some e ∈ admin_events ++ user_events -> revocationOf feed e = inl r ->
      clock (pw_env w') < rv_ExpiresAt r -> r ∈ h'.
Proof.
  unfold Poll. set (from := clock (pw_env w) - fd_keep feed) in *. set (to_ := clock (pw_env w)) in *.
  set (w0 := forgetBefore from w). assert (dl_holds (clock (pw_env w0)) h (pw_store w0)) as Hh0 by done.
  destruct (source_restores adminSource from to_ admin_events h w0 Hadmin) as (w1 & h1 & Hp1 & Hr1);
    [by intros e r Hin; apply Hadmits, elem_of_app; left | tauto | done |].
  destruct (source_restores userSource from to_ user_events h1 w1 Huser) as (w2 & h2 & Hp2 & Hr2);
    [by intros e r Hin; apply Hadmits, elem_of_app; right | tauto | by destruct Hr1 as (_ & _ & ? & _) |].
  exists w2, h2. split.
  - cbn [sources poll_sources]. unfold mbind, M_bind, attempt, ctx_done, gets. rewrite never_done, Hp1, never_done, Hp2. done.
  - destruct (restored_app _ _ _ _ _ _ _ _ Hr1 Hr2) as (? & _ & ? & ?). by split_and!.
Qed.
End Cycle.

(** * Counting *)
Section Count.
Context {St E : Type} (store : RevocationStore St) (p : SessionPolling).
Context (done_ : E -> bool) (clock : E -> Instant) (tick : E -> E).
Context (Do : Z -> events_request -> E -> events_answer * E).
Context (json_admin : bytes -> option (list admin_event)) (json_user : bytes -> option (list user_event)).
Context (wait : Z -> E -> bool * E).
Notation world := (@PollWorld St E).

(** The server answers the window it is asked for, to the millisecond the request
    is written in, and an event has one time. *)
Context (time_of : string -> Instant).
Class HonestWindow := {
  hw_events n source from to_ first env body env' events :
    source ∈ sources -> in_int64 (UnixMilli from) -> in_int64 first ->
    Do n (request_of p source from to_ first) env = (Answer 200 (Some body), env') ->
    decode p json_admin json_user source (limited body) = Ok events ->
    forall e, Some e ∈ events ->
      UnixMilli from * Millisecond <= se_OccurredAt e /\ se_OccurredAt e = time_of (seen_key source (se_EventID e));
  hw_Do n rq env : clock env <= clock (Do n rq env).2;
  hw_tick env : clock env <= clock (tick env);
  hw_wait d env : clock env <= clock (wait d env).2
}.
Context `{!HonestWindow}.
(** Every window starts on a whole millisecond, and within what [UnixMilli] says. *)
Context (whole : forall env, (clock env - fd_keep (sp_feed p)) mod Millisecond = 0 /\
  in_int64 (UnixMilli (clock env - fd_keep (sp_feed p)))).
Definition whole_ms (from : Instant) : Prop := UnixMilli from * Millisecond = from /\ in_int64 (UnixMilli from).

Record counting (from : Instant) (w : world) : Prop := mkCounting {
  co_once : NoDup (map (fun c => c.1.1) (pw_counted w));
  co_seen key t : pw_seen w !! key = Some t -> t = time_of key;
  co_counted key : key ∈ map (fun c => c.1.1) (pw_counted w) -> is_Some (pw_seen w !! key) \/ time_of key < from
}.
Definition same_counts (w w' : world) : Prop :=
  pw_seen w' = pw_seen w /\ pw_counted w' = pw_counted w.
Lemma counting_same from w w' : same_counts w w' -> counting from w -> counting from w'.
Proof. intros [Hs Hc] [H1 H2 H3]. by split; rewrite ?Hs, ?Hc. Qed.

Lemma apply_counts source e from w r w' :
  from <= se_OccurredAt e -> se_OccurredAt e = time_of (seen_key source (se_EventID e)) ->
  apply store p clock tick source e w = (r, w') -> counting from w ->
  counting from w' /\ clock (pw_env w) <= clock (pw_env w').
Proof.
  intros Hin Htime Hap Hco. unfold apply in Hap.
  destruct (Apply _ _ _ _ _ _) as [[outcome | err | why] s'].
  2-3: injection Hap as <- <-; split; [by apply (counting_same _ w) | apply hw_tick].
  cbn in Hap. injection Hap as <- <-. destruct (pw_seen w !! _) as [t |] eqn:Hseen;
    (split; [| apply hw_tick]); [by apply (counting_same _ w) |]. destruct Hco as [Hone Hts Hcs]. split; cbn.
  - rewrite map_app. apply NoDup_app. split_and!; [done | | apply NoDup_singleton].
    intros k Hk [= ->]%list_elem_of_singleton. destruct (Hcs _ Hk) as [[t Ht] | Hlt]; [congruence |]. cbn in Hlt. lia.
  - intros k t [[<- <-] | [_ Hk]]%lookup_insert_Some; [done | by apply Hts].
  - intros k. rewrite map_app, elem_of_app. cbn. intros [Hk | ->%list_elem_of_singleton]; [| left; by rewrite lookup_insert_eq].
    destruct (Hcs k Hk) as [[t Ht] |]; [left | by right]. rewrite lookup_insert_is_Some. destruct (decide (seen_key source (se_EventID e) = k)); eauto.
Qed.
Definition within (source : pollSource) (from : Instant) (events : list (option SessionEvent)) : Prop :=
  forall e, Some e ∈ events -> from <= se_OccurredAt e /\ se_OccurredAt e = time_of (seen_key source (se_EventID e)).
(** The window from [from] was counted, and time passed. *)
Definition counted_on (from : Instant) (w w' : world) : Prop :=
  (counting from w -> counting from w') /\ clock (pw_env w) <= clock (pw_env w').
Lemma counted_trans from w1 w2 w3 : counted_on from w1 w2 -> counted_on from w2 w3 -> counted_on from w1 w3.
Proof. intros [H1 ?] [H2 ?]. split; [auto | lia]. Qed.
Lemma counted_refl from w : counted_on from w w.
Proof. split; [done | lia]. Qed.

Lemma apply_all_counts source from events w r w' :
  within source from events -> apply_all store p clock tick source events w = (r, w') -> counted_on from w w'.
Proof.
  revert w. induction events as [| [e |] events IH]; intros w Hin; cbn [apply_all].
  - intros [= <- <-]. apply counted_refl.
  - unfold mbind, M_bind. destruct (apply store p clock tick source e w) as [r1 w1] eqn:Hap.
    assert (counted_on from w w1) as Hone.
    { destruct (Hin e ltac:(by left)) as [Hf Ht]. split.
      - intros Hco. by eapply apply_counts.
      - unfold apply in Hap. destruct (Apply _ _ _ _ _ _) as [[? | ? | ?] ?]; cbn in Hap; simplify_eq; cbn;
          repeat case_match; apply hw_tick. }
    destruct r1; [| by intros [= <- <-]..]. intros Hall. eapply counted_trans; [exact Hone |].
    eapply IH; [| exact Hall]. intros e' He'. apply Hin. by right.
  - apply IH. intros e' He'. apply Hin. by right.
Qed.
Lemma fetch_counts source from to_ first w r w' : source ∈ sources -> whole_ms from -> in_int64 first ->
  fetch p Do json_admin json_user source from to_ first w = (r, w') ->
  same_counts w w' /\ clock (pw_env w) <= clock (pw_env w') /\ forall events, r = Ok events -> within source from events.
Proof.
  intros Hsource Hfrom Hfirst. unfold fetch. destruct (Do _ _ _) as [answer env] eqn:Hdo.
  assert (clock (pw_env w) <= clock env) as Hc by (pose proof (hw_Do (pw_clients w) (request_of p source from to_ first) (pw_env w)) as Hd;
    by rewrite Hdo in Hd).
  destruct answer as [| status body]; [intros [= <- <-]; by split_and! |].
  destruct (Z.eqb_spec status 401) as [-> |]; [intros [= <- <-]; by split_and! |].
  destruct (Z.eqb_spec status 200) as [-> |]; cbn [negb]; [| intros [= <- <-]; by split_and!].
  destruct body as [body |]; [| intros [= <- <-]; by split_and!]. intros [= <- <-]. split_and!; [done | done |].
  intros events Hdec e He. destruct Hfrom as [Hfrom Hrange].
  rewrite <- Hfrom. by eapply hw_events.
Qed.
Lemma pages_count left_ page source from to_ w r w' : source ∈ sources -> whole_ms from ->
  poll_pages store p done_ clock tick Do json_admin json_user left_ page source from to_ w = (r, w') -> counted_on from w w'.
Proof.
  intros Hsource Hfrom. revert page w. induction left_ as [| left_ IH]; intros page w; cbn [poll_pages].
  { intros [= <- <-]. apply counted_refl. }
  unfold mbind, M_bind, attempt, ctx_done, gets, lift, throw.
  destruct (fetch p Do json_admin json_user source from to_ _ w) as [r1 w1] eqn:Hf.
  apply fetch_counts in Hf as (Hsame & Hc & Hev); [| done | done | apply wrap64_in].
  assert (counted_on from w w1) as Hone by (split; [by apply counting_same | done]).
  destruct r1 as [events | err | why]; [| by destruct (done_ _); intros [= <- <-] | by intros [= <- <-]].
  destruct (done_ _); [by intros [= <- <-] |]. destruct (apply_all _ _ _ _ _ _ w1) as [r2 w2] eqn:Hall.
  apply apply_all_counts with (from := from) in Hall; [| by apply Hev].
  assert (counted_on from w w2) as Htwo by by eapply counted_trans.
  destruct r2; [| by intros [= <- <-]..]. destruct (_ <? _); [by intros [= <- <-] |].
  intros Hrest. eapply counted_trans; [exact Htwo |]. by eapply IH.
Qed.
Lemma sources_count rest from to_ failures w r w' : rest ⊆ sources -> whole_ms from ->
  poll_sources store p done_ clock tick Do json_admin json_user rest from to_ failures w = (r, w') -> counted_on from w w'.
Proof.
  intros Hrest Hfrom. revert failures w. induction rest as [| source rest IH]; intros failures w; cbn [poll_sources].
  { destruct failures; intros [= <- <-]; apply counted_refl. }
  unfold mbind, M_bind, attempt, ctx_done, gets, throw. destruct (done_ _); [intros [= <- <-]; apply counted_refl |].
  destruct (poll_source _ _ _ _ _ _ _ _ source from to_ w) as [r1 w1] eqn:Hp.
  apply pages_count in Hp; [| apply Hrest; by left | done]. destruct r1; [| | by intros [= <- <-]].
  all: intros Hnext; eapply counted_trans; [exact Hp | eapply IH; [| exact Hnext]].
  all: intros x Hx; apply Hrest; by right.
Qed.
Lemma forget_counting from from' w : from <= from' -> counting from w -> counting from' (forgetBefore from' w).
Proof.
  intros Hle [H1 H2 H3]. split; cbn; [done | |].
  - intros k t [Hk _]%map_lookup_filter_Some. by apply H2.
  - intros k Hk. destruct (H3 k Hk) as [[t Ht] | Hlt]; [| right; lia]. rewrite (H2 k t Ht) in Ht.
    destruct (Z.ltb_spec (time_of k) from') as [Hlt | Hge]; [by right | left]. exists (time_of k).
    apply map_lookup_filter_Some. split; [done |]. cbn. destruct (Z.ltb_spec (time_of k) from'); [lia | done].
Qed.
Lemma whole_window env : whole_ms (clock env - fd_keep (sp_feed p)).
Proof.
  split; [| apply whole]. unfold UnixMilli. rewrite Z.mul_comm, <- Z_div_exact_full_2; [done | done | apply whole].
Qed.
Lemma Poll_counts from w r w' : from <= clock (pw_env w) - fd_keep (sp_feed p) ->
  Poll store p done_ clock tick Do json_admin json_user w = (r, w') -> counting from w ->
  counting (clock (pw_env w) - fd_keep (sp_feed p)) w' /\ clock (pw_env w) <= clock (pw_env w').
Proof.
  intros Hle Hp Hco. unfold Poll in Hp. apply sources_count in Hp as [Hc Ht]; [| done | apply whole_window].
  split; [| done]. apply Hc. by eapply forget_counting.
Qed.

(** Each event is counted once.  However many cycles run, whatever fails and
    however often the same pages are read, no event of a source enters the counts
    twice, on a clock whose windows start on whole milliseconds. *)
Theorem each_event_counted_once fuel w
  (Hseen : pw_seen w = ∅) (Hcounted : pw_counted w = []) :
  NoDup (map (fun c => c.1.1)
    (pw_counted (Run store p done_ clock tick Do json_admin json_user wait fuel w))).
Proof.
  assert (counting (clock (pw_env w) - fd_keep (sp_feed p)) w) as Hco.
  { split; rewrite ?Hseen, ?Hcounted; cbn; [constructor | done | by intros k ?%elem_of_nil]. }
  assert (exists from, from <= clock (pw_env w) - fd_keep (sp_feed p) /\ counting from w) as (from & Hle & Hfrom) by (exists (clock (pw_env w) - fd_keep (sp_feed p)); split; [lia | done]).
  clear Hco Hseen Hcounted. revert w from Hle Hfrom. induction fuel as [| fuel IH]; intros w from Hle Hfrom; cbn [Run].
  { apply Hfrom. }
  destruct (done_ (pw_env w)); [apply Hfrom |].
  destruct (Poll _ _ _ _ _ _ _ _ w) as [r w1] eqn:Hp. cbn [snd].
  destruct (Poll_counts from w r w1 Hle Hp Hfrom) as [Hco Hc].
  destruct (wait _ (pw_env w1)) as [cut env] eqn:Hw.
  pose proof (hw_wait (sp_interval p) (pw_env w1)) as Hwait. rewrite Hw in Hwait. cbn in Hwait.
  assert (counting (clock (pw_env w) - fd_keep (sp_feed p))
    (mkPollWorld (pw_store w1) env (pw_seen w1) (pw_counted w1) (pw_clients w1))) as Hco' by (by apply (counting_same _ w1)).
  destruct cut; [apply Hco' |]. apply (IH _ (clock (pw_env w) - fd_keep (sp_feed p))); [cbn; lia | done].
Qed.
End Count.

(** * Concrete runs *)
Module PollingFixture.
Import SessionFixture.
Definition ms0 : Z := 1700000000 * 1000.
(** The environment is its clock, in milliseconds. *)
Definition clock (env : Z) : Instant := Z.max 0 (Z.min env (2 ^ 53)) * Millisecond.
Definition tick (env : Z) : Z := env + 1.
Definition wait (d env : Z) : bool * Z := (false, env + 5000).
Definition live (env : Z) : bool := false.
Definition polling : SessionPolling :=
  mkSessionPolling feed "https://idp/realms/acme/protocol/openid-connect/token" "https://idp/admin/realms/acme"
    (5 * Second) 2 (10 * Second).
Definition deleted : admin_event := mkAdminEvent "e-1" ms0 "DELETE" "USER_SESSION" "sessions/s-1" ∅.
(** One body has the event and the other nothing. *)
Definition json_admin (body : bytes) : option (list admin_event) :=
  match body with [1] => Some [deleted] | [0] => Some [] | _ => None end.
Definition json_user (body : bytes) : option (list user_event) := match body with [0] => Some [] | _ => None end.
Definition number (rq : events_request) (name : string) : Z :=
  match rq_query rq !! name with Some [text] => default (-1) (Atoi text) | _ => -1 end.
Definition body_of (rq : events_request) : bytes :=
  if String.eqb (rq_path rq) "https://idp/admin/realms/acme/admin-events" && (number rq "first" =? 0)
     && (number rq "dateFrom" <=? ms0) then [1] else [0].
Definition Do (n : Z) (rq : events_request) (env : Z) : events_answer * Z := (Answer 200 (Some (body_of rq)), env + 20).
Definition world0 : @PollWorld MemoryStore Z := mkPollWorld NewMemoryStore (ms0 + 1000) ∅ [] 1.
Definition found : SessionEvent := mkSessionEvent "e-1" SessionEnded "https://idp/realms/acme" "" "s-1" t0.
End PollingFixture.

(** A window that starts within a millisecond: the event of that millisecond is
    forgotten, since it comes before the window, and the request, which says the
    millisecond, brings it back: it is counted again. *)
Module LateFixture.
Import SessionFixture PollingFixture.
(** The environment is its clock, in nanoseconds: one cycle within the keep and
    one whose window starts half a millisecond after the event. *)
Definition clock (env : Z) : Instant := env.
Definition tick (env : Z) : Z := env.
Definition Do (n : Z) (rq : events_request) (env : Z) : events_answer * Z := ((PollingFixture.Do n rq 0).1, env).
Definition wait (d env : Z) : bool * Z := (false, t0 + fd_keep feed + 500000).
Definition start : @PollWorld MemoryStore Z := mkPollWorld NewMemoryStore (t0 + Second) ∅ [] 1.
Definition poll : @PollWorld MemoryStore Z :=
  Run memoryStore polling live clock tick Do json_admin json_user wait 2 start.
End LateFixture.
Example counted_twice_within_a_millisecond :
  map (fun c => (c.1.1, c.2)) (pw_counted LateFixture.poll) =
    [("admin:e-1"%string, EventApplied); ("admin:e-1"%string, EventExpired)].
Proof. vm_compute. reflexivity. Qed.

Import SessionFixture PollingFixture.
Lemma fixture_clock a b : a <= b -> PollingFixture.clock a <= PollingFixture.clock b.
Proof. intros Hab. unfold PollingFixture.clock. apply Z.mul_le_mono_nonneg_r; [done | lia]. Qed.
Lemma fixture_numbers source from to_ first :
  source ∈ sources -> in_int64 first -> in_int64 (UnixMilli from) ->
  number (request_of polling source from to_ first) "first" = first /\
  number (request_of polling source from to_ first) "dateFrom" = UnixMilli from.
Proof.
  intros Hs Hf Hw. unfold number.
  assert (rq_query (request_of polling source from to_ first) !! "first"%string = Some [Itoa first] /\
    rq_query (request_of polling source from to_ first) !! "dateFrom"%string = Some [Itoa (UnixMilli from)]) as [-> ->].
  { unfold request_of. cbn [rq_query]. apply list_elem_of_In in Hs as [<- | [<- | []]]; split; (rewrite lookup_union_r by done);
      rewrite ?lookup_insert_eq; try done; do 2 (rewrite lookup_insert_ne by done); by rewrite lookup_insert_eq. }
  by rewrite !Atoi_Itoa.
Qed.
Lemma fixture_decode source from to_ first :
  source ∈ sources -> in_int64 first -> in_int64 (UnixMilli from) ->
  decode polling json_admin json_user source (limited (body_of (request_of polling source from to_ first))) =
    Ok (if String.eqb (ps_name source) "admin" && (first =? 0) && (UnixMilli from <=? ms0) then [Some found] else []).
Proof.
  intros Hs Hf Hw. unfold body_of. destruct (fixture_numbers source from to_ first Hs Hf Hw) as [-> ->].
  apply list_elem_of_In in Hs as [<- | [<- | []]].
  - change (String.eqb (rq_path _) _) with true. change (String.eqb (ps_name adminSource) "admin") with true. cbn [andb].
    by destruct ((first =? 0) && (UnixMilli from <=? ms0)).
  - done.
Qed.
Lemma poll_restores_witness :
  exists w' h', Poll memoryStore polling live PollingFixture.clock PollingFixture.tick PollingFixture.Do json_admin json_user world0 = (Ok (), w') /\
    [] ⊆ h' /\ memory_holds (3660 * Second) (PollingFixture.clock (pw_env w')) h' (pw_store w') /\
    forall e r, Some e ∈ [Some found] ++ [] -> revocationOf feed e = inl r ->
      PollingFixture.clock (pw_env w') < rv_ExpiresAt r -> r ∈ h'.
Proof.
  refine (poll_restores memoryStore (DenyList0 := memory_deny_list (3660 * Second)) polling live PollingFixture.clock
    PollingFixture.tick PollingFixture.Do json_admin json_user (fun _ => eq_refl) _ _ _ _ world0 [] [Some found] [] _ _ _ _ _).
  - intros env. apply fixture_clock. unfold PollingFixture.tick. lia.
  - intros now r s [Hk _]. cbn. unfold memory_Revoke. rewrite Hk. cbv zeta.
    destruct (negb _); [by eexists _, _ |]. destruct (String.eqb _ _); destruct (keepGreatest _ _ _); by eexists _, _.
  - reflexivity.
  - vm_compute. discriminate.
  - apply memory_holds_nil. vm_compute. discriminate.
  - intros n first env Hfirst. exists (body_of (request_of polling adminSource
      (PollingFixture.clock (pw_env world0) - fd_keep feed) (PollingFixture.clock (pw_env world0)) first)), (env + 20).
    split; [reflexivity |]. split; [| apply fixture_clock; lia].
    rewrite fixture_decode; [| by left | unfold in_int64, min_int64; lia | split; vm_compute; discriminate].
    replace (UnixMilli _ <=? ms0) with true by (vm_compute; reflexivity). cbn [ps_name adminSource].
    destruct (Z.eqb_spec first 0) as [-> | Hne]; [vm_compute; reflexivity |].
    destruct (Z.to_nat first) as [| k] eqn:Hk; [lia |]. cbn [drop]. by rewrite drop_nil, take_nil.
  - intros n first env Hfirst. exists (body_of (request_of polling userSource
      (PollingFixture.clock (pw_env world0) - fd_keep feed) (PollingFixture.clock (pw_env world0)) first)), (env + 20).
    split; [reflexivity |]. split; [| apply fixture_clock; lia].
    rewrite fixture_decode; [| by right; left | unfold in_int64, min_int64; lia | split; vm_compute; discriminate].
    by rewrite drop_nil, take_nil.
  - intros e r [= ->]%list_elem_of_singleton Hr. vm_compute in Hr. injection Hr as <-. by split.
  - split; vm_compute; reflexivity.
Defined.

Lemma each_event_counted_once_witness :
  pw_counted (Run memoryStore polling live PollingFixture.clock PollingFixture.tick PollingFixture.Do json_admin json_user
    PollingFixture.wait 3 world0) = [("admin:e-1"%string, found, EventApplied)] /\
  NoDup (map (fun c => c.1.1) (pw_counted (Run memoryStore polling live PollingFixture.clock PollingFixture.tick
    PollingFixture.Do json_admin json_user PollingFixture.wait 3 world0))).
Proof.
  split; [vm_compute; reflexivity |].
  unshelve refine (each_event_counted_once memoryStore polling live PollingFixture.clock PollingFixture.tick PollingFixture.Do
    json_admin json_user PollingFixture.wait (fun _ => t0) _ 3 world0 eq_refl eq_refl).
  - split.
    + intros n source from to_ first env body env' events Hs Hrange Hf [= <- <-] Hdec e He.
      rewrite fixture_decode in Hdec by done. injection Hdec as <-.
      destruct (String.eqb_spec (ps_name source) "admin") as [Hadmin |]; [| by apply elem_of_nil in He].
      destruct (_ =? 0); [| by apply elem_of_nil in He]. cbn [andb] in He.
      destruct (Z.leb_spec (UnixMilli from) ms0) as [Hle |]; [| by apply elem_of_nil in He].
      apply list_elem_of_singleton in He as [= ->]. split; [| done].
      change (se_OccurredAt found) with (ms0 * Millisecond). by apply Z.mul_le_mono_nonneg_r.
    + intros n rq env. apply fixture_clock. cbn. lia.
    + intros env. apply fixture_clock. unfold PollingFixture.tick. lia.
    + intros d env. apply fixture_clock. cbn. lia.
  - intros env. unfold PollingFixture.clock. set (c := Z.max 0 (Z.min env (2 ^ 53))).
    assert (0 <= c <= 2 ^ 53) as Hc by (unfold c; lia).
    change (fd_keep (sp_feed polling)) with (3660000 * Millisecond). rewrite <- Z.mul_sub_distr_r.
    split; [by apply Z.mod_mul |]. unfold UnixMilli. rewrite Z.div_mul by done. unfold in_int64, min_int64, max_int64. lia.
Defined.

(** Which of Keycloak's admin events end sessions. *)

(** * Recognising what ends a session ([adminRevocation]) *)
Lemma contains_slash s : contains "/" s = false <-> ~ In "/"%char (list_ascii_of_string s).
Proof.
  induction s as [| c s IH]; [split; [by intros _ [] | done] |].
  change (contains "/" (String c s)) with ((if ascii_dec "/" c then String.prefix "" s else false) || contains "/" s).
  rewrite orb_false_iff, IH. cbn [list_ascii_of_string In]. destruct (ascii_dec "/" c) as [<- | Hne].
  - replace (String.prefix "" s) with true by (by destruct s). split; [by intros [] | intros Hn; by destruct Hn; left].
  - naive_solver.
Qed.

Lemma Cut_spec_none sep s : Cut sep s = None <-> ~ In sep (list_ascii_of_string s).
Proof.
  induction s as [| c s IH]; [split; [by intros _ [] | done] |]. simpl.
  destruct (Ascii.eqb_spec c sep) as [-> | Hne]; [split; [done | intros Hn; by destruct Hn; left] |].
  destruct (Cut sep s) as [[b a] |] eqn:Hc; split; try done.
  - intros Hn. assert (Some (b, a) = None); [apply IH; intros Hin; apply Hn; by right | done].
  - intros _ [-> | Hin]; [done | by apply IH].
Qed.
Lemma Cut_before sep s b a : Cut sep s = Some (b, a) -> ~ In sep (list_ascii_of_string b).
Proof.
  revert b. induction s as [| c s IH]; intros b; [done |]. simpl.
  destruct (Ascii.eqb_spec c sep) as [-> | Hne]; [by intros [= <- <-] [] |].
  destruct (Cut sep s) as [[b' a'] |]; [| done]. intros [= <- <-]. simpl. intros [-> | Hin]; [done | by apply (IH b')].
Qed.
(** A user's path: the identifier and what follows it. *)
Lemma Cut_parts t user rest :
  default (t, ""%string) (Cut "/" t) = (user, rest) <->
  ~ In "/"%char (list_ascii_of_string user) /\
  ((t = user /\ rest = ""%string) \/ t = (user ++ String "/" rest)%string).
Proof.
  split.
  - destruct (Cut "/" t) as [[b a] |] eqn:Hc; cbn; intros [= <- <-].
    + split; [by eapply Cut_before | right; by apply Cut_Some].
    + split; [by apply Cut_spec_none | by left].
  - intros [Hn [[-> ->] | ->]]; [by rewrite (proj2 (Cut_spec_none _ _) Hn) | by rewrite Cut_app].
Qed.

(** What a user's event does, read off its path. *)
Definition user_operation (operation rest : string) (details : gmap string string) : bool :=
  String.eqb operation "UPDATE" && String.eqb rest "" && bool_decide (details !! "updated_enabled"%string = Some "false"%string)
  || String.eqb operation "DELETE" && String.eqb rest ""
  || String.eqb operation "ACTION" && String.eqb rest "logout".
Lemma user_operation_spec operation rest details : user_operation operation rest details = true <->
  (rest = ""%string /\ (operation = "DELETE"%string \/
     operation = "UPDATE"%string /\ details !! "updated_enabled"%string = Some "false"%string)) \/
  (rest = "logout"%string /\ operation = "ACTION"%string).
Proof.
  unfold user_operation. rewrite !orb_true_iff, !andb_true_iff, !String.eqb_eq, bool_decide_eq_true. tauto.
Qed.
Lemma adminRevocation_user operation path details kind key :
  adminRevocation operation "USER" path details = (kind, key) /\ kind <> ""%string <->
  exists t rest, path = ("users/" ++ t)%string /\ default (t, ""%string) (Cut "/" t) = (key, rest) /\
    key <> ""%string /\ user_operation operation rest details = true /\ kind = SubjectRevoked.
Proof.
  unfold adminRevocation, TrimPrefix, users. cbn [String.eqb Ascii.eqb Bool.eqb].
  change (String.eqb "USER" "USER") with true. cbn iota. fold (user_operation operation).
  destruct (CutPrefix path "users/") as [t |] eqn:Hp; cbn [default from_option id].
  - apply CutPrefix_Some in Hp as ->.
    replace (HasPrefix ("users/" ++ t) "users/") with true by (symmetry; apply HasPrefix_spec; by exists t). cbn [negb orb].
    destruct (default _ _) as [user rest] eqn:Hcut. split.
    + destruct (String.eqb_spec user "") as [| Hne]; [by intros [[= <- <-] ?] |].
      destruct (user_operation operation rest details) eqn:Hop; unfold user_operation in Hop; rewrite Hop;
        [| by intros [[= <- <-] ?]]. intros [[= <- <-] _]. by exists t, rest.
    + intros (t' & rest' & Ht & Hc & Hne & Hop & ->). apply (inj (String.append "users/")) in Ht as <-.
      rewrite Hcut in Hc. injection Hc as -> ->. apply String.eqb_neq in Hne as ->. unfold user_operation in Hop. by rewrite Hop.
  - assert (HasPrefix path "users/" = false) as Hno.
    { unfold CutPrefix in Hp. by destruct (HasPrefix path "users/"). }
    destruct (default _ _) as [user rest]. rewrite Hno. cbn [negb orb]. split; [by intros [[= <- <-] ?] |].
    intros (t & rest' & -> & _). assert (HasPrefix ("users/" ++ t) "users/" = true) as Hyes by (apply HasPrefix_spec; by exists t).
    congruence.
Qed.
Lemma adminRevocation_session operation path details kind key :
  adminRevocation operation "USER_SESSION" path details = (kind, key) /\ kind <> ""%string <->
  path = ("sessions/" ++ key)%string /\ operation = "DELETE"%string /\ key <> ""%string /\
    ~ In "/"%char (list_ascii_of_string key) /\ kind = SessionEnded.
Proof.
  unfold adminRevocation, sessions_path. change (String.eqb "USER_SESSION" "USER") with false.
  change (String.eqb "USER_SESSION" "USER_SESSION") with true. cbn iota.
  destruct (CutPrefix path "sessions/") as [t |] eqn:Hp.
  - apply CutPrefix_Some in Hp as ->. rewrite <- contains_slash. split.
    + destruct (String.eqb_spec operation "DELETE"), (String.eqb_spec t ""), (contains "/" t) eqn:Hs; cbn;
        intros [[= <- <-] Hk]; try done.
    + intros (Ht & -> & Hne & Hs & ->). apply (inj (String.append "sessions/")) in Ht as ->.
      apply String.eqb_neq in Hne as ->. by rewrite Hs.
  - split; [by intros [[= <- <-] ?] |]. intros (-> & _). by rewrite CutPrefix_app in Hp.
Qed.

(** Which admin events end sessions. A user's does, and says which user, exactly
    when it disables the user, deletes it or logs it out, on the user's own path;
    a session's does, and says which session, exactly when it deletes it on the
    session's own path; every other event, and any path with more to it, ends
    nothing. *)
Theorem admin_events_recognised operation resource path details kind key :
  adminRevocation operation resource path details = (kind, key) /\ kind <> ""%string <->
  (kind = SubjectRevoked /\ resource = "USER"%string /\ key <> ""%string /\ ~ In "/"%char (list_ascii_of_string key) /\
   ((path = ("users/" ++ key)%string \/ path = ("users/" ++ key ++ "/")%string) /\
      (operation = "DELETE"%string \/ operation = "UPDATE"%string /\ details !! "updated_enabled"%string = Some "false"%string) \/
    path = ("users/" ++ key ++ "/logout")%string /\ operation = "ACTION"%string)) \/
  (kind = SessionEnded /\ resource = "USER_SESSION"%string /\ operation = "DELETE"%string /\ key <> ""%string /\
   ~ In "/"%char (list_ascii_of_string key) /\ path = ("sessions/" ++ key)%string).
Proof.
  destruct (String.eqb_spec resource "USER") as [-> | Hr1]; [| destruct (String.eqb_spec resource "USER_SESSION") as [-> | Hr2]].
  - rewrite adminRevocation_user. setoid_rewrite user_operation_spec. setoid_rewrite Cut_parts. split.
    + intros (t & rest & -> & [Hslash Ht] & Hne & Hop & ->). left. split_and!; try done.
      destruct Hop as [[-> Hop] | [-> Hop]]; [left | right]; destruct Ht as [[-> Hrest] | ->]; try done; auto.
    + intros [(-> & _ & Hne & Hslash & Hop) | (_ & ? & _)]; [| done].
      destruct Hop as [[[-> | ->] Hop] | [-> Hop]]; [exists key, ""%string | exists (key ++ "/")%string, ""%string | exists (key ++ "/logout")%string, "logout"%string];
        split_and!; auto.
  - rewrite adminRevocation_session. naive_solver.
  - unfold adminRevocation. apply String.eqb_neq in Hr1, Hr2. rewrite Hr1, Hr2. apply String.eqb_neq in Hr1, Hr2.
    split; [by intros [[= <- <-] ?] | naive_solver].
Qed.
