(* ===== verification/FakeClock.v ===== *)
(** The clock a test advances by hand ([src/libs/backend/go/observability/clock]:
    [fake.go], [clock.go]).

    Alarms are behind pointers, which the queue and the timers share, so they
    live in a heap.  A channel holds one value and a send on a full one blocks:
    an operation that blocks for good answers nothing ([None]).  Every operation
    holds the clock's lock or works on what it took out under it, so each is one
    step. *)

From stdpp Require Import sorting.
From S2P Require Import Prelude GoSlices DomainKernel Errors Ports.

(** * State *)
Inductive callback :=
| SendTo (channel : loc)
| CloseContext (context : loc).
Record alarm := mkAlarm { al_at : Instant; al_seq : Z; al_fire : callback; al_fired : bool }.
(** A context with a timeout: its deadline, its error once it is done, whether its
    cancel ran, and the alarm that ends it. *)
Record fakeContext := mkFakeContext {
  fx_deadline : Instant; fx_err : option error; fx_cancelled : bool; fx_alarm : option loc
}.
Record Fake := mkFake {
  fk_now : Instant; fk_alarms : gmap loc alarm; fk_pending : list loc; fk_nextSeq : Z;
  fk_channels : gmap loc (option Instant); fk_contexts : gmap loc fakeContext; fk_next : loc;
  (** The alarms that fired, in order. *)
  fk_log : list loc
}.
Definition NewFake (start : Instant) : Fake := mkFake start ∅ [] 0 ∅ ∅ 0%nat [].
Definition Fake_Now (f : Fake) : Instant := fk_now f.

Definition set_alarms (m : gmap loc alarm) (f : Fake) : Fake :=
  mkFake (fk_now f) m (fk_pending f) (fk_nextSeq f) (fk_channels f) (fk_contexts f) (fk_next f) (fk_log f).
Definition set_pending (l : list loc) (f : Fake) : Fake :=
  mkFake (fk_now f) (fk_alarms f) l (fk_nextSeq f) (fk_channels f) (fk_contexts f) (fk_next f) (fk_log f).
Definition set_channels (m : gmap loc (option Instant)) (f : Fake) : Fake :=
  mkFake (fk_now f) (fk_alarms f) (fk_pending f) (fk_nextSeq f) m (fk_contexts f) (fk_next f) (fk_log f).
Definition set_contexts (m : gmap loc fakeContext) (f : Fake) : Fake :=
  mkFake (fk_now f) (fk_alarms f) (fk_pending f) (fk_nextSeq f) (fk_channels f) m (fk_next f) (fk_log f).
Definition with_now (t : Instant) (f : Fake) : Fake :=
  mkFake t (fk_alarms f) (fk_pending f) (fk_nextSeq f) (fk_channels f) (fk_contexts f) (fk_next f) (fk_log f).
(** A new object. *)
Definition fresh (f : Fake) : loc * Fake :=
  (fk_next f, mkFake (fk_now f) (fk_alarms f) (fk_pending f) (fk_nextSeq f) (fk_channels f) (fk_contexts f)
                (S (fk_next f)) (fk_log f)).
Definition next_seq (f : Fake) : Z * Fake :=
  let seq := wrapu64 (fk_nextSeq f + 1) in
  (seq, mkFake (fk_now f) (fk_alarms f) (fk_pending f) seq (fk_channels f) (fk_contexts f) (fk_next f) (fk_log f)).
Definition mark_fired (fired : bool) (a : alarm) : alarm := mkAlarm (al_at a) (al_seq a) (al_fire a) fired.

(** * Firing *)
Definition context_close (err : error) (x : fakeContext) : fakeContext :=
  match fx_err x with
  | Some _ => x
  | None => mkFakeContext (fx_deadline x) (Some err) (fx_cancelled x) (fx_alarm x)
  end.
Definition fire (p : loc) (c : callback) (now : Instant) (f : Fake) : option Fake :=
  let logged := mkFake (fk_now f) (fk_alarms f) (fk_pending f) (fk_nextSeq f) (fk_channels f) (fk_contexts f)
                  (fk_next f) (fk_log f ++ [p]) in
  match c with
  | SendTo channel =>
      match fk_channels f !! channel with
      | Some None => Some (set_channels (<[channel := Some now]> (fk_channels f)) logged)
      | _ => None
      end
  | CloseContext x =>
      Some (match fk_contexts f !! x with
            | Some c => set_contexts (<[x := context_close ContextDeadlineExceeded c]> (fk_contexts f)) logged
            | None => logged
            end)
  end.
Fixpoint fire_all (due : list (loc * alarm)) (now : Instant) (f : Fake) : option Fake :=
  match due with
  | [] => Some f
  | (p, a) :: rest => match fire p (al_fire a) now f with Some f' => fire_all rest now f' | None => None end
  end.

(** The queue at an instant: what is due, marked as fired where it is met, and what
    stays. *)
Fixpoint drain (pending : list loc) (now : Instant) (alarms : gmap loc alarm)
    : list (loc * alarm) * list loc * gmap loc alarm :=
  match pending with
  | [] => ([], [], alarms)
  | p :: rest =>
      match alarms !! p with
      | None => drain rest now alarms
      | Some a =>
          if al_fired a then drain rest now alarms
          else if now <? al_at a then
            let '(due, kept, alarms') := drain rest now alarms in (due, p :: kept, alarms')
          else
            let '(due, kept, alarms') := drain rest now (<[p := mark_fired true a]> alarms) in
            ((p, a) :: due, kept, alarms')
      end
  end.
Definition alarm_compare (x y : loc * alarm) : comparison :=
  match al_at x.2 ?= al_at y.2 with Eq => al_seq x.2 ?= al_seq y.2 | c => c end.
Definition Advance (d : Z) (f : Fake) : option Fake :=
  if d <=? 0 then Some f
  else
    let now := fk_now f + d in
    let '(due, kept, alarms) := drain (fk_pending f) now (fk_alarms f) in
    fire_all (SortStableFunc alarm_compare due) now (set_pending kept (set_alarms alarms (with_now now f))).

Definition waiting (f : Fake) (p : loc) : bool :=
  match fk_alarms f !! p with Some a => negb (al_fired a) | None => false end.
Definition Fake_Pending (f : Fake) : Z := len (filter (fun p => waiting f p = true) (fk_pending f)).

(** * Scheduling *)
Definition schedule (d : Z) (c : callback) (f : Fake) : option (loc * Fake) :=
  let '(seq, f) := next_seq f in
  let '(p, f) := fresh f in
  let overdue := d <=? 0 in
  let a := mkAlarm (fk_now f + d) seq c overdue in
  let f := set_alarms (<[p := a]> (fk_alarms f)) f in
  if overdue then (fun f => (p, f)) <$> fire p c (fk_now f) f
  else Some (p, set_pending (fk_pending f ++ [p]) f).
Definition cancel (p : loc) (f : Fake) : bool * Fake :=
  match fk_alarms f !! p with
  | Some a => if al_fired a then (false, f) else (true, set_alarms (<[p := mark_fired true a]> (fk_alarms f)) f)
  | None => (false, f)
  end.
Definition reschedule (p : loc) (d : Z) (f : Fake) : bool * Fake :=
  match fk_alarms f !! p with
  | None => (false, f)
  | Some a =>
      let stopped := negb (al_fired a) in
      let '(seq, f) := next_seq f in
      let f := set_alarms (<[p := mkAlarm (fk_now f + d) seq (al_fire a) false]> (fk_alarms f)) f in
      (stopped, if al_fired a then set_pending (fk_pending f ++ [p]) f else f)
  end.

(** * Timers *)
Definition new_channel (f : Fake) : loc * Fake :=
  let '(ch, f) := fresh f in (ch, set_channels (<[ch := None]> (fk_channels f)) f).
Definition After (d : Z) (f : Fake) : option (loc * Fake) :=
  let '(ch, f) := new_channel f in (fun pf => (ch, pf.2)) <$> schedule d (SendTo ch) f.
Record fakeTimer := mkFakeTimer { tm_alarm : loc; tm_ch : loc }.
Definition NewTimer (d : Z) (f : Fake) : option (fakeTimer * Fake) :=
  let '(ch, f) := new_channel f in (fun pf => (mkFakeTimer pf.1 ch, pf.2)) <$> schedule d (SendTo ch) f.
Definition Timer_Stop (t : fakeTimer) (f : Fake) : bool * Fake := cancel (tm_alarm t) f.
Definition Timer_Reset (t : fakeTimer) (d : Z) (f : Fake) : bool * Fake := reschedule (tm_alarm t) d f.
(** A receive: the value, where there is one. *)
Definition receive (ch : loc) (f : Fake) : option Instant * Fake :=
  match fk_channels f !! ch with
  | Some (Some v) => (Some v, set_channels (<[ch := None]> (fk_channels f)) f)
  | _ => (None, f)
  end.

(** * Contexts *)
Definition close_at (x : loc) (err : error) (f : Fake) : Fake :=
  match fk_contexts f !! x with
  | Some c => set_contexts (<[x := context_close err c]> (fk_contexts f)) f
  | None => f
  end.
Definition WithTimeout (d : Z) (f : Fake) : option (loc * Fake) :=
  let '(x, f) := fresh f in
  let context := mkFakeContext (fk_now f + d) None false None in
  let f := set_contexts (<[x := context]> (fk_contexts f)) f in
  match schedule d (CloseContext x) f with
  | None => None
  | Some (p, f) =>
      Some (x, set_contexts (alter (fun c => mkFakeContext (fx_deadline c) (fx_err c) (fx_cancelled c) (Some p)) x
                               (fk_contexts f)) f)
  end.
(** The goroutine that watches the parent, when the parent is done first. *)
Definition parent_done (x : loc) (err : error) (f : Fake) : Fake :=
  match fk_contexts f !! x with
  | Some c => if fx_cancelled c then f else close_at x err f
  | None => f
  end.
Definition cancel_context (x : loc) (f : Fake) : Fake :=
  match fk_contexts f !! x with
  | Some c =>
      if fx_cancelled c then f
      else
        let f := match fx_alarm c with Some p => (cancel p f).2 | None => f end in
        let f := set_contexts (alter (fun c => mkFakeContext (fx_deadline c) (fx_err c) true (fx_alarm c)) x (fk_contexts f)) f in
        close_at x ContextCanceled f
  | None => f
  end.

(** * Waiting ([NewSleeper]): the wait starts a timer, or ends at once; it ends when
    the context is done or the timer fires, and stops the timer. *)
Definition sleep_start (ctx_err : option error) (d : Z) (f : Fake) : option (option error + fakeTimer) * Fake :=
  match ctx_err with
  | Some err => (Some (inl (Some err)), f)
  | None =>
      if d <=? 0 then (Some (inl None), f)
      else match NewTimer d f with Some (t, f) => (Some (inr t), f) | None => (None, f) end
  end.
Definition sleep_end (t : fakeTimer) (ctx_err : option error) (f : Fake) : option error * Fake :=
  match ctx_err with
  | Some err => (Some err, (Timer_Stop t f).2)
  | None => (None, (Timer_Stop t (receive (tm_ch t) f).2).2)
  end.

(** What the fake clock promises: an alarm fires once, at the first advance that
    reaches it, in the order of deadlines. *)

(** * Runs *)
Inductive fake_step : Fake -> Fake -> Prop :=
| step_advance d f f' : Advance d f = Some f' -> fake_step f f'
| step_after d f ch f' : After d f = Some (ch, f') -> fake_step f f'
| step_timer d f t f' : NewTimer d f = Some (t, f') -> fake_step f f'
| step_timeout d f x f' : WithTimeout d f = Some (x, f') -> fake_step f f'
| step_stop t f : fake_step f (Timer_Stop t f).2
| step_reset t d f : fake_step f (Timer_Reset t d f).2
| step_receive ch f : fake_step f (receive ch f).2
| step_parent x err f : fake_step f (parent_done x err f)
| step_cancel x f : fake_step f (cancel_context x f).
Inductive fake_run (start : Instant) : Z -> Fake -> Prop :=
| run_new : fake_run start 0 (NewFake start)
| run_step n f f' : fake_run start n f -> fake_step f f' -> fake_run start (n + 1) f'.

(** ** The queue *)
Record queued (n : Z) (f : Fake) : Prop := mkQueued {
  qd_fresh p a : fk_alarms f !! p = Some a -> (p < fk_next f)%nat;
  qd_waiting p : waiting f p = true -> p ∈ fk_pending f;
  qd_seq p a : fk_alarms f !! p = Some a -> 0 <= al_seq a <= fk_nextSeq f;
  qd_apart p q a b : fk_alarms f !! p = Some a -> fk_alarms f !! q = Some b -> al_seq a = al_seq b -> p = q;
  qd_next : 0 <= fk_nextSeq f <= n
}.
(** Only the alarms, the queue and the counters matter. *)
Definition same_queue (f f' : Fake) : Prop :=
  fk_alarms f' = fk_alarms f /\ fk_pending f' = fk_pending f /\ fk_nextSeq f' = fk_nextSeq f /\ (fk_next f <= fk_next f')%nat.
Lemma queued_same n n' f f' : same_queue f f' -> n <= n' -> queued n f -> queued n' f'.
Proof.
  intros (Ha & Hp & Hs & Hn) Hle [H1 H2 H3 H4 H5]. split; unfold waiting in *; rewrite ?Ha, ?Hp, ?Hs; try done; [| lia].
  intros p a Hpa. specialize (H1 p a Hpa). lia.
Qed.
#[export] Instance same_queue_preorder : PreOrder same_queue.
Proof.
  split; [intros f; split_and!; (done || lia) |].
  intros f g h (A1 & A2 & A3 & A4) (B1 & B2 & B3 & B4). split_and!; (congruence || lia).
Qed.
Lemma fire_same p c now f f' : fire p c now f = Some f' -> same_queue f f' /\ fk_log f' = fk_log f ++ [p] /\ fk_now f' = fk_now f.
Proof.
  unfold fire. destruct c as [ch | x].
  - destruct (fk_channels f !! ch) as [[v |] |]; [done | | done]. by intros [= <-].
  - intros [= <-]. by destruct (fk_contexts f !! x).
Qed.
Lemma fire_all_same due now f f' : fire_all due now f = Some f' ->
  same_queue f f' /\ fk_log f' = fk_log f ++ map fst due /\ fk_now f' = fk_now f.
Proof.
  revert f. induction due as [| [p a] due IH]; intros f; cbn.
  - intros [= <-]. split_and!; [done | by rewrite app_nil_r | done].
  - destruct (fire p (al_fire a) now f) as [g |] eqn:Hf; [| done]. intros Hg.
    apply fire_same in Hf as (S1 & L1 & N1). apply IH in Hg as (S2 & L2 & N2).
    split_and!; [by etrans | by rewrite L2, L1, <- app_assoc | congruence].
Qed.

(** ** Draining *)
Definition due_at (now : Instant) (a : alarm) : bool := negb (al_fired a) && (al_at a <=? now).
Definition drained (pending : list loc) (now : Instant) (alarms : gmap loc alarm) (due : list (loc * alarm))
    (kept : list loc) (alarms' : gmap loc alarm) : Prop :=
  NoDup (map fst due) /\
  (forall p a, (p, a) ∈ due <-> p ∈ pending /\ alarms !! p = Some a /\ due_at now a = true) /\
  (forall p, alarms' !! p = (fun a => if bool_decide (p ∈ pending) && due_at now a then mark_fired true a else a) <$> alarms !! p) /\
  (forall p, p ∈ kept <-> p ∈ pending /\ exists a, alarms !! p = Some a /\ al_fired a = false /\ now < al_at a).
Lemma drain_spec pending now alarms due kept alarms' :
  drain pending now alarms = (due, kept, alarms') -> drained pending now alarms due kept alarms'.
Proof.
  revert alarms due kept alarms'. induction pending as [| p pending IH]; intros alarms due kept alarms'; cbn.
  { intros [= <- <- <-]. split_and!; [constructor | set_solver | | set_solver].
    intros p. rewrite bool_decide_eq_false_2 by set_solver. cbn. by destruct (alarms !! p). }
  assert ((forall a, alarms !! p = Some a -> due_at now a = false) -> forall kept0,
    drained pending now alarms due kept0 alarms' ->
    (forall q, q ∈ kept <-> q ∈ kept0 \/ q = p /\ exists a, alarms !! p = Some a /\ al_fired a = false /\ now < al_at a) ->
    drained (p :: pending) now alarms due kept alarms') as Hskip.
  { intros Hnot kept0 (Hnd & Hdue & Hal & Hkept) Hq. split_and!; [done | | |].
    - intros q a. rewrite Hdue, elem_of_cons. split; [naive_solver |]. intros ([-> | Hin] & Ha & Hd); [| done].
      specialize (Hnot a Ha). congruence.
    - intros q. rewrite Hal. destruct (alarms !! q) as [a |] eqn:Ha; [| done]. cbn. f_equal.
      destruct (decide (q = p)) as [-> | Hne]; [by rewrite (Hnot a Ha), !andb_false_r |].
      by rewrite (bool_decide_ext (q ∈ p :: pending) (q ∈ pending)) by set_solver.
    - intros q. rewrite Hq, Hkept, elem_of_cons. naive_solver. }
  destruct (alarms !! p) as [a |] eqn:Hp.
  2:{ intros Hd. eapply Hskip; [by intros | by apply IH |]. naive_solver. }
  destruct (al_fired a) eqn:Hf.
  { intros Hd. eapply Hskip; [intros ? [= <-]; unfold due_at; by rewrite Hf | by apply IH |]. naive_solver congruence. }
  destruct (Z.ltb_spec now (al_at a)) as [Hlt | Hge].
  { destruct (drain pending now alarms) as [[due0 kept0] alarms0] eqn:Hd. intros [= -> <- ->].
    eapply Hskip; [| by apply IH |].
    - intros ? [= <-]. unfold due_at. rewrite Hf. cbn. by apply Z.leb_gt.
    - intros q. split; [intros [-> | Hin]%elem_of_cons; [right; split; [done | by exists a] | by left] |].
      intros [Hin | [-> _]]; [by right | by left]. }
  destruct (drain pending now _) as [[due0 kept0] alarms0] eqn:Hd. intros [= <- -> ->].
  apply IH in Hd as (Hnd & Hdue & Hal & Hkept). clear Hskip.
  assert (due_at now a = true) as Hda by (unfold due_at; rewrite Hf; cbn; by apply Z.leb_le).
  assert (forall b, (p, b) ∉ due0) as Hnp.
  { intros b Hin. apply Hdue in Hin as (_ & Hb & Hdb). rewrite lookup_insert_eq in Hb. by injection Hb as <-. }
  split_and!.
  - cbn. constructor; [| done]. intros ([q b] & -> & Hin)%list_elem_of_fmap. by eapply Hnp.
  - intros q b. rewrite elem_of_cons. split.
    + intros [[= -> ->] | Hin]; [split_and!; [by left | done | done] |].
      destruct (decide (q = p)) as [-> | Hne]; [by apply Hnp in Hin |].
      apply Hdue in Hin as (Hin & Hb & Hdb). rewrite lookup_insert_ne in Hb by done. split_and!; [by right | done | done].
    + intros ([-> | Hin]%elem_of_cons & Hb & Hdb); [left; congruence |].
      destruct (decide (q = p)) as [-> | Hne]; [left; congruence |]. right. apply Hdue. by rewrite lookup_insert_ne.
  - intros q. rewrite Hal. destruct (decide (q = p)) as [-> | Hne].
    + rewrite lookup_insert_eq, Hp. cbn. rewrite (bool_decide_eq_true_2 (p ∈ p :: pending)) by by left.
      rewrite Hda. cbn. unfold due_at, mark_fired. cbn. by rewrite andb_false_r.
    + rewrite lookup_insert_ne by done. destruct (alarms !! q) as [b |]; [| done]. cbn.
      by rewrite (bool_decide_ext (q ∈ p :: pending) (q ∈ pending)) by set_solver.
  - intros q. rewrite Hkept, elem_of_cons. destruct (decide (q = p)) as [-> | Hne].
    + rewrite lookup_insert_eq, Hp. split; [intros (_ & b & [= <-] & ? & _); done | intros (_ & b & [= <-] & _ & ?); lia].
    + rewrite lookup_insert_ne by done. naive_solver.
Qed.

(** ** Every operation keeps the queue *)
Lemma waiting_Some f p : waiting f p = true <-> exists a, fk_alarms f !! p = Some a /\ al_fired a = false.
Proof.
  unfold waiting. destruct (fk_alarms f !! p) as [a |]; [| split; [done | naive_solver]].
  destruct (al_fired a) eqn:Hf; split; try done; [intros (b & [= <-] & ?); congruence | eauto].
Qed.
Lemma advance_drained d f f' : Advance d f = Some f' -> 0 < d -> exists due kept alarms,
  drained (fk_pending f) (fk_now f + d) (fk_alarms f) due kept alarms /\
  fk_alarms f' = alarms /\ fk_pending f' = kept /\ fk_nextSeq f' = fk_nextSeq f /\ (fk_next f <= fk_next f')%nat /\
  fk_log f' = fk_log f ++ map fst (SortStableFunc alarm_compare due) /\ fk_now f' = fk_now f + d.
Proof.
  unfold Advance. intros Ha Hd. destruct (Z.leb_spec d 0); [lia |]. cbv zeta in Ha.
  destruct (drain _ _ _) as [[due kept] alarms] eqn:Hdr. apply drain_spec in Hdr.
  apply fire_all_same in Ha as ((H1 & H2 & H3 & H4) & Hl & Hn). exists due, kept, alarms. by split_and!.
Qed.
Lemma queued_advance n d f f' : queued n f -> Advance d f = Some f' -> queued n f'.
Proof.
  intros Hq Ha. destruct (Z.lt_ge_cases 0 d) as [Hd | Hd].
  2:{ unfold Advance in Ha. destruct (Z.leb_spec d 0); [by injection Ha as <- | lia]. }
  destruct (advance_drained d f f' Ha Hd) as (due & kept & alarms & (_ & _ & Hal & Hkept) & E1 & E2 & E3 & E4 & _).
  destruct Hq as [H1 H2 H3 H4 H5].
  assert (forall p b, fk_alarms f' !! p = Some b -> exists a, fk_alarms f !! p = Some a /\ al_seq b = al_seq a /\
    (al_fired b = false -> a = b /\ (p ∈ fk_pending f -> fk_now f + d < al_at b))) as Hback.
  { intros p b. rewrite E1, Hal. destruct (fk_alarms f !! p) as [a |]; [| done]. cbn. intros [= <-]. exists a.
    destruct (bool_decide (p ∈ fk_pending f) && due_at (fk_now f + d) a) eqn:Hb; cbn; [done |].
    split_and!; [done | done |]. intros Hf. split; [done |]. intros Hin. rewrite bool_decide_eq_true_2 in Hb by done.
    unfold due_at in Hb. rewrite Hf in Hb. by apply Z.leb_gt in Hb. }
  split.
  - intros p b Hb. destruct (Hback p b Hb) as (a & Ha' & _). specialize (H1 p a Ha'). lia.
  - intros p (b & Hb & Hf)%waiting_Some. destruct (Hback p b Hb) as (a & Ha' & _ & Heq). destruct (Heq Hf) as [<- Hat].
    assert (p ∈ fk_pending f) as Hin by (apply H2, waiting_Some; by exists a). rewrite E2, Hkept. split; [done |]. eauto.
  - intros p b Hb. destruct (Hback p b Hb) as (a & Ha' & -> & _). rewrite E3. by eapply H3.
  - intros p q b c Hb Hc Hseq. destruct (Hback p b Hb) as (a & Ha' & Hs & _), (Hback q c Hc) as (a2 & Ha2 & Hs2 & _).
    eapply H4; [exact Ha' | exact Ha2 | congruence].
  - by rewrite E3.
Qed.
Lemma next_seq_small n f : queued n f -> n < 2 ^ 64 - 1 -> wrapu64 (fk_nextSeq f + 1) = fk_nextSeq f + 1.
Proof. intros [_ _ _ _ H5] Hn. apply Z.mod_small. lia. Qed.

(** A new alarm, or one moved to a new deadline, under the next number. *)
Lemma queued_set n f g p b : queued n f -> fk_alarms g = <[p := b]> (fk_alarms f) ->
  fk_nextSeq g = fk_nextSeq f + 1 -> al_seq b = fk_nextSeq f + 1 -> (fk_next f <= fk_next g)%nat -> (p < fk_next g)%nat ->
  (forall q, q <> p -> q ∈ fk_pending f -> q ∈ fk_pending g) -> (al_fired b = false -> p ∈ fk_pending g) ->
  queued (n + 1) g.
Proof.
  intros [H1 H2 H3 H4 H5] Ea Es Hseq Hn Hp Hin Hnew. split.
  - intros q a. rewrite Ea. intros [[<- <-] | [_ Ha]]%lookup_insert_Some; [done |]. specialize (H1 q a Ha). lia.
  - intros q (a & Ha & Hf)%waiting_Some. rewrite Ea in Ha. apply lookup_insert_Some in Ha as [[<- <-] | [Hne Ha]]; [by apply Hnew |].
    apply Hin; [done |]. apply H2, waiting_Some. eauto.
  - intros q a. rewrite Ea, Es. intros [[<- <-] | [_ Ha]]%lookup_insert_Some; [lia |]. specialize (H3 q a Ha). lia.
  - intros q q' a a'. rewrite Ea. intros [[<- <-] | [Hne Ha]]%lookup_insert_Some [[<- <-] | [Hne' Ha']]%lookup_insert_Some Hs; try done.
    + specialize (H3 q' a' Ha'). lia.
    + specialize (H3 q a Ha). lia.
    + by eapply H4.
  - rewrite Es. lia.
Qed.
Lemma queued_schedule n d c f p f' : queued n f -> n < 2 ^ 64 - 1 -> schedule d c f = Some (p, f') ->
  queued (n + 1) f'.
Proof.
  intros Hq Hn. unfold schedule, next_seq, fresh. cbn. rewrite (next_seq_small n f Hq Hn).
  destruct (Z.leb_spec d 0) as [Hd | Hd].
  - intros (g & Hf & [= -> ->])%fmap_Some. apply fire_same in Hf as [Hs _]. apply (queued_same (n + 1) (n + 1) _ _ Hs); [lia |].
    eapply (queued_set n f _ (fk_next f)); [exact Hq | reflexivity | done | done | cbn; lia | cbn; lia | done | done].
  - intros [= <- <-]. eapply (queued_set n f _ (fk_next f)); [exact Hq | reflexivity | done | done | cbn; lia | cbn; lia | |].
    + intros q _ Hin. cbn. by apply elem_of_app; left.
    + intros _. cbn. apply elem_of_app. right. by left.
Qed.
Lemma queued_cancel n p f : queued n f -> queued n (cancel p f).2.
Proof.
  intros [H1 H2 H3 H4 H5]. unfold cancel. destruct (fk_alarms f !! p) as [a |] eqn:Ha; [| by split].
  destruct (al_fired a); [by split |]. cbn. split; cbn; try done.
  - intros q b [[<- <-] | [_ Hb]]%lookup_insert_Some; [by eapply H1 | by eapply H1].
  - intros q (b & Hb & Hf)%waiting_Some. cbn in Hb. apply lookup_insert_Some in Hb as [[<- <-] | [_ Hb]]; [done |].
    apply H2, waiting_Some. eauto.
  - intros q b [[<- <-] | [_ Hb]]%lookup_insert_Some; [by apply (H3 p a) | by eapply H3].
  - intros q q' b b' [[<- <-] | [Hne Hb]]%lookup_insert_Some [[<- <-] | [Hne' Hb']]%lookup_insert_Some Hs; try done.
    + by eapply (H4 p q').
    + by eapply (H4 q p).
    + by eapply H4.
Qed.
Lemma queued_reschedule n p d f : queued n f -> n < 2 ^ 64 - 1 -> queued (n + 1) (reschedule p d f).2.
Proof.
  intros Hq Hn. unfold reschedule. destruct (fk_alarms f !! p) as [a |] eqn:Ha; [| by apply (queued_same n (n + 1) f); [| lia |]].
  unfold next_seq. cbn. rewrite (next_seq_small n f Hq Hn). pose proof (qd_fresh _ _ Hq p a Ha) as Hp.
  destruct (al_fired a) eqn:Hf; cbn; (eapply (queued_set n f _ p); [exact Hq | reflexivity | done | done | cbn; lia | cbn; lia | |]).
  - intros q _ Hin. cbn. by apply elem_of_app; left.
  - intros _. cbn. apply elem_of_app. right. by left.
  - done.
  - intros _. cbn. apply (qd_waiting _ _ Hq), waiting_Some. eauto.
Qed.
Lemma fake_run_queued start n f : fake_run start n f -> n < 2 ^ 64 -> queued n f.
Proof.
  induction 1 as [| n f f' _ IH Hs]; intros Hn.
  { by split. }
  specialize (IH ltac:(lia)). assert (n < 2 ^ 64 - 1) as Hlt by lia.
  destruct Hs as [d f f' Ha | d f ch f' Ha | d f t f' Ha | d f x f' Ha | t f | t d f | ch f | x err f | x f].
  - apply (queued_same n (n + 1) f'); [done | lia | by eapply queued_advance].
  - unfold After in Ha. destruct (new_channel f) as [c g] eqn:Hc. injection Hc as <- <-.
    apply fmap_Some in Ha as ([p h] & Hsch & [= -> ->]). eapply queued_schedule; [| exact Hlt | exact Hsch].
    apply (queued_same n n f); [split_and!; cbn; (done || lia) | lia | done].
  - unfold NewTimer in Ha. destruct (new_channel f) as [c g] eqn:Hc. injection Hc as <- <-.
    apply fmap_Some in Ha as ([p h] & Hsch & [= -> ->]). eapply queued_schedule; [| exact Hlt | exact Hsch].
    apply (queued_same n n f); [split_and!; cbn; (done || lia) | lia | done].
  - unfold WithTimeout in Ha. cbn -[schedule] in Ha. destruct (schedule _ _ _) as [[p h] |] eqn:Hsch; [| done]. injection Ha as <- <-.
    apply (queued_same (n + 1) (n + 1) h); [split_and!; cbn; (done || lia) | lia |].
    eapply queued_schedule; [| exact Hlt | exact Hsch]. apply (queued_same n n f); [split_and!; cbn; (done || lia) | lia | done].
  - apply (queued_same n (n + 1) (cancel (tm_alarm t) f).2); [done | lia | by apply queued_cancel].
  - by apply queued_reschedule.
  - apply (queued_same n (n + 1) f); [| lia | done]. unfold receive. by destruct (fk_channels f !! ch) as [[v |] |].
  - apply (queued_same n (n + 1) f); [| lia | done]. unfold parent_done, close_at.
    destruct (fk_contexts f !! x) as [c |]; [| done]. by destruct (fx_cancelled c).
  - unfold cancel_context. destruct (fk_contexts f !! x) as [c |]; [| by apply (queued_same n (n + 1) f); [| lia |]].
    destruct (fx_cancelled c); [by apply (queued_same n (n + 1) f); [| lia |] |].
    destruct (fx_alarm c) as [p |].
    + apply (queued_same n (n + 1) (cancel p f).2); [| lia | by apply queued_cancel].
      unfold close_at. by destruct (_ !! x).
    + apply (queued_same n (n + 1) f); [| lia | done]. unfold close_at. by destruct (_ !! x).
Qed.

(** * The order of firing *)
Definition alarm_key (x : loc * alarm) : Z * Z := (al_at x.2, al_seq x.2).
Definition key_before (x y : Z * Z) : Prop := x.1 < y.1 \/ (x.1 = y.1 /\ x.2 < y.2).
Lemma sorted_strict (l : list (Z * Z)) : NoDup l ->
  StronglySorted (not_above (pair_compare Z.compare Z.compare)) l -> StronglySorted key_before l.
Proof.
  intros Hnd. induction 1 as [| x l Hl IH Hall]; [constructor |]. apply NoDup_cons in Hnd as [Hx Hnd].
  constructor; [by apply IH |]. rewrite Forall_forall in Hall |- *. intros y Hy. specialize (Hall y Hy).
  unfold not_above, pair_compare, cmp_or, key_before in *. assert (x <> y) as Hne by (intros ->; done).
  destruct x as [a b], y as [a' b']; cbn in *. destruct (Z.compare_spec a a') as [-> | |]; [| lia | done].
  destruct (Z.compare_spec b b'); [congruence | lia | done].
Qed.
Lemma alarms_sorted due : NoDup (map alarm_key due) -> StronglySorted key_before (map alarm_key (SortStableFunc alarm_compare due)).
Proof.
  intros Hnd. apply sorted_strict; [by rewrite (Permutation_map alarm_key (SortStableFunc_perm alarm_compare due)) |].
  rewrite (sort_map _ (pair_compare Z.compare Z.compare) alarm_key); [apply (SortStableFunc_sorted _) |].
  intros x y. unfold alarm_compare, pair_compare, cmp_or, alarm_key. cbn. by destruct (_ ?= _).
Qed.

(** An alarm fires once, at the first advance that reaches it. After any calls,
    stops and restarts included, an advance fires exactly the alarms still waiting
    whose deadline is not past the new instant, each once, by deadline and, at one
    deadline, in the order they were scheduled; what waits afterwards is what was
    waiting for a later instant. *)
Theorem Advance_fires_exactly start n f d f'
  (Hrun : fake_run start n f) (Hfew : n < 2 ^ 64) (Hd : 0 < d) (Hadvance : Advance d f = Some f') :
  exists fired,
    fk_log f' = fk_log f ++ map fst fired /\ NoDup (map fst fired) /\
    (forall p a, (p, a) ∈ fired <-> fk_alarms f !! p = Some a /\ al_fired a = false /\ al_at a <= fk_now f + d) /\
    StronglySorted key_before (map alarm_key fired) /\
    (forall p, waiting f' p = true <->
       exists a, fk_alarms f !! p = Some a /\ al_fired a = false /\ fk_now f + d < al_at a).
Proof.
  pose proof (fake_run_queued start n f Hrun Hfew) as Hq.
  destruct (advance_drained d f f' Hadvance Hd) as (due & kept & alarms & (Hnd & Hdue & Hal & Hkept) & Ea & _ & _ & _ & El & _).
  exists (SortStableFunc alarm_compare due).
  assert (forall p a, (p, a) ∈ due <-> fk_alarms f !! p = Some a /\ al_fired a = false /\ al_at a <= fk_now f + d) as Hexact.
  { intros p a. rewrite Hdue. unfold due_at. rewrite andb_true_iff, negb_true_iff, Z.leb_le. split; [tauto |].
    intros (Ha & Hf & Hle). split_and!; try done. apply (qd_waiting _ _ Hq), waiting_Some. eauto. }
  split_and!.
  - done.
  - by rewrite (Permutation_map fst (SortStableFunc_perm alarm_compare due)).
  - intros p a. by rewrite elem_of_SortStableFunc.
  - apply alarms_sorted. apply (NoDup_fmap_1 fst) in Hnd as Hnd'. apply NoDup_fmap_2_strong; [| done].
    intros [p a] [q b] Hp Hb [= _ Hseq]. apply Hexact in Hp as (Hp & _), Hb as (Hb & _). cbn in Hseq.
    pose proof (qd_apart _ _ Hq p q a b Hp Hb Hseq) as ->. congruence.
  - intros p. rewrite waiting_Some, Ea, Hal. destruct (fk_alarms f !! p) as [a |] eqn:Ha; [| naive_solver]. cbn. split.
    + intros (b & [= <-] & Hf). destruct (bool_decide _ && _) eqn:Hb; [done |]. exists a. split_and!; [done | done |].
      rewrite bool_decide_eq_true_2 in Hb by (apply (qd_waiting _ _ Hq), waiting_Some; eauto).
      unfold due_at in Hb. rewrite Hf in Hb. by apply Z.leb_gt in Hb.
    + intros (b & [= <-] & Hf & Hlt). exists a. split; [| done].
      assert (due_at (fk_now f + d) a = false) as -> by (unfold due_at; rewrite Hf; cbn; by apply Z.leb_gt).
      by rewrite andb_false_r.
Qed.

(** * Concrete runs *)
Module ClockFixture.
Definition started (d : Z) (f : Fake) : fakeTimer * Fake := default (mkFakeTimer 0%nat 0%nat, f) (NewTimer d f).
Definition one : Fake := (started 20 (NewFake 0)).2.
Definition two : Fake := (started 10 one).2.
Definition advanced : Fake := default two (Advance 15 two).
(** A timer that is stopped and restarted before the clock moves. *)
Definition restarted : Fake :=
  match NewTimer 20 (NewFake 0) with
  | Some (t, f) => (Timer_Reset t 30 (Timer_Stop t f).2).2
  | None => NewFake 0
  end.
End ClockFixture.
Import ClockFixture.

Lemma Advance_fires_exactly_witness :
  Advance 15 two = Some advanced /\ exists fired,
    fk_log advanced = fk_log two ++ map fst fired /\ NoDup (map fst fired) /\
    (forall p a, (p, a) ∈ fired <-> fk_alarms two !! p = Some a /\ al_fired a = false /\ al_at a <= fk_now two + 15) /\
    StronglySorted key_before (map alarm_key fired) /\
    (forall p, waiting advanced p = true <->
       exists a, fk_alarms two !! p = Some a /\ al_fired a = false /\ fk_now two + 15 < al_at a).
Proof.
  assert (Advance 15 two = Some advanced) as Hadv by (vm_compute; reflexivity).
  split; [exact Hadv |]. refine (Advance_fires_exactly 0 2 two 15 advanced _ _ _ Hadv); [| reflexivity | reflexivity].
  assert (NewTimer 20 (NewFake 0) = Some (started 20 (NewFake 0))) as H1 by (vm_compute; reflexivity).
  assert (NewTimer 10 one = Some (started 10 one)) as H2 by (vm_compute; reflexivity).
  change (fake_run 0 (0 + 1 + 1) two). eapply run_step; [eapply run_step; [apply run_new |] |].
  - apply (step_timer 20 _ (started 20 (NewFake 0)).1 one), H1.
  - apply (step_timer 10 _ (started 10 one).1 two), H2.
Defined.

(** A stopped alarm stays in the queue until the next advance, so restarting it
    enqueues it again, and one waiting alarm is reported as two. *)
Example pending_counts_twice :
  Fake_Pending restarted = 2 /\ filter (fun p => waiting restarted p = true) (map fst (map_to_list (fk_alarms restarted))) = [1%nat].
Proof. split; vm_compute; reflexivity. Qed.
