(* ===== verification/Platform.v ===== *)
(** Access across tenants ([ports/platform.go], [memory/platform.go],
    [postgres/platform.go]): the readers over all tenants and the projectors, with
    the audit of every access.  The trail and the policy are the caller's; over
    Postgres, so are the connections and what the paging statement answers. *)

From Stdlib Require Import OrdersEx.
From S2P Require Import Prelude GoStrings GoSlices DomainKernel Errors Ports Interfaces Memory PgServer PgTable.

(** * [ports/platform.go] *)
Definition PlatformPageMax : Z := 500.
(** The tenant and the identifier. *)
Record PlatformKey := mkPlatformKey { pk_Tenant : TenantID; pk_ID : string }.
Record PlatformRow (S : Type) := mkPlatformRow {
  pr_Tenant : TenantID; pr_ID : string; pr_State : S; pr_Version : Version
}.
Arguments mkPlatformRow {S}.
Arguments pr_Tenant {S}.
Arguments pr_ID {S}.
Arguments pr_State {S}.
Arguments pr_Version {S}.
Definition key_of {S} (r : PlatformRow S) : PlatformKey := mkPlatformKey (pr_Tenant r) (pr_ID r).

Definition AuditPlatformRead : string := "platform.cross_tenant_read".
Definition AuditProjectionWrite : string := "projection.cross_tenant_write".
Record AuditRecord := mkAuditRecord {
  ad_Action : string; ad_Subject : string; ad_Object : string; ad_Outcome : string;
  ad_Tenant : string; ad_DataTenant : string
}.
Definition outcome_text (c : OutcomeCategory) : string :=
  match c with
  | OutcomeAccepted => "accepted" | OutcomeRejected => "rejected" | OutcomeDenied => "denied" | OutcomeFailed => "failed"
  end.

Section Ports.
Context {W : Type}.
Record AuditTrail := mkAuditTrail { trail_Record : Ctx -> AuditRecord -> M W error unit }.
Definition ProjectionPolicy : Type := Ctx -> option TenantID -> TenantID -> M W error unit.
Record PlatformReader (S : Type) := mkPlatformReader {
  pr_LoadIn : Ctx -> TenantID -> string -> M W error (PlatformRow S);
  pr_List : Ctx -> option PlatformKey -> Z -> M W error (list (PlatformRow S))
}.
Record Projector (S : Type) := mkProjector {
  pj_Load : Ctx -> TenantID -> string -> M W error (S * Version);
  pj_Save : Ctx -> TenantID -> string -> S -> Version -> M W error unit
}.
End Ports.
Arguments AuditTrail : clear implicits.
Arguments ProjectionPolicy : clear implicits.
Arguments PlatformReader : clear implicits.
Arguments mkPlatformReader {W S}.
Arguments pr_LoadIn {W S}.
Arguments pr_List {W S}.
Arguments Projector : clear implicits.
Arguments mkProjector {W S}.
Arguments pj_Load {W S}.
Arguments pj_Save {W S}.

(** * What both realizations share *)
Section Shared.
Context {W : Type}.

(** [_ = m]. *)
Definition discard (m : M W error unit) : M W error unit :=
  r ← attempt m; match r with Panic p => panic p | _ => mret () end.
Definition contextTenant (ctx : Ctx) : option TenantID :=
  match ExecutionContextFrom ctx with None => None | Some execution => Tenant execution end.
Definition trailEvent (ctx : Ctx) (action object : string) (data : TenantID) (outcome : OutcomeCategory) : AuditRecord :=
  mkAuditRecord action (SubjectOf ctx) object (outcome_text outcome) (default ""%string (contextTenant ctx)) data.
(** [WithPageMax], and the options applied in order. *)
Definition withPageMax (n : Z) : result error Z := if n <=? 0 then Panic "the page ceiling is not positive" else Ok n.
Definition page_max (opts : list Z) : Z := foldl (fun _ n => n) PlatformPageMax opts.
(** One record for each run of rows of a tenant. *)
Fixpoint audit_page {S} (trail : AuditTrail W) (object : string) (ctx : Ctx) (previous : option TenantID)
    (page : list (PlatformRow S)) : M W error unit :=
  match page with
  | [] => mret ()
  | row :: page' =>
      _ ← (if bool_decide (previous = Some (pr_Tenant row)) then mret ()
           else trail_Record trail ctx (trailEvent ctx AuditPlatformRead object (pr_Tenant row) OutcomeAccepted));
      audit_page trail object ctx (Some (pr_Tenant row)) page'
  end.
Definition reach_declared (ctx : Ctx) : bool :=
  match PlatformReachFrom ctx with Some ReachAllTenants => true | _ => false end.
End Shared.

(** * In memory *)
Section InMemory.
Context {Any Event X S : Type} `{Printable} `{MapOrder}.
Notation W := (World Any Event X).
Notation prow := (Memory.row Any).

Definition requireTrail (trail : option (AuditTrail W)) : result error (AuditTrail W) :=
  match trail with None => Panic "crosses tenants without an audit trail" | Some t => Ok t end.

Section Reader.
Context (t : Memory.Table Any S) (trail : AuditTrail W) (pageMax : Z).

Definition comparePlatform (a b : rowKey) : comparison :=
  cmp_or (String_as_OT.compare a.1 b.1) (String_as_OT.compare (Quote a.2) (Quote b.2)).
Definition declared (ctx : Ctx) (asked : TenantID) : M W error unit :=
  if negb (reach_declared ctx) then
    _ ← discard (trail_Record trail ctx (trailEvent ctx AuditPlatformRead (Memory.t_Name t) asked OutcomeDenied));
    throw (Wrap "memory" ErrPlatformReachUndeclared)
  else _ ← lift (RequireExecutionContext ctx); mret ().
(** [rec.snapshot.(S)], copied. *)
Definition row_answer (key : rowKey) (rec : prow) : result error (PlatformRow S) :=
  match Memory.t_unbox t (row_snapshot rec) with
  | None => Panic "interface conversion"
  | Some s => Ok (mkPlatformRow key.1 key.2 (table_copy t s) (row_version rec))
  end.
Definition platformReader_LoadIn (ctx : Ctx) (tenant_ : TenantID) (id : string) : M W error (PlatformRow S) :=
  _ ← declared ctx tenant_;
  if String.eqb tenant_ "" then throw ErrNotFound
  else
    _ ← trail_Record trail ctx (trailEvent ctx AuditPlatformRead (Memory.t_Name t) tenant_ OutcomeAccepted);
    tables ← gets (fun w => st_tables (w_store w));
    match tables !! Memory.t_Name t with
    | None => throw ErrNotFound
    | Some rows =>
        match tbl_rows rows !! (tenant_, id) with
        | None => throw ErrNotFound
        | Some rec => lift (row_answer (tenant_, id) rec)
        end
    end.

Definition past (after : option PlatformKey) (key : rowKey) : bool :=
  match after with
  | None => true
  | Some a => match comparePlatform key (pk_Tenant a, pk_ID a) with Gt => true | _ => false end
  end.
Fixpoint answers (rows : gmap rowKey prow) (keys : list rowKey) : result error (list (PlatformRow S)) :=
  match keys with
  | [] => Ok []
  | key :: keys' =>
      match rows !! key with
      | None => Panic "nil pointer dereference"
      | Some rec => r ← row_answer key rec; rest ← answers rows keys'; Ok (r :: rest)
      end
  end.
(** Keys that print alike tie, in an order the sort does not promise. *)
Definition sorted_keys (after : option PlatformKey) (rows : gmap rowKey prow) : list rowKey :=
  SortStableFunc comparePlatform (filter (fun key => past after key = true) (map fst (ranged rows))).
Definition platform_page (after : option PlatformKey) (limit : Z) : M W error (list (PlatformRow S)) :=
  tables ← gets (fun w => st_tables (w_store w));
  match tables !! Memory.t_Name t with
  | None => mret []
  | Some rows => lift (answers (tbl_rows rows) (take (Z.to_nat limit) (sorted_keys after (tbl_rows rows))))
  end.
Definition platformReader_List (ctx : Ctx) (after : option PlatformKey) (limit : Z) : M W error (list (PlatformRow S)) :=
  _ ← declared ctx "";
  if (limit <=? 0) || (pageMax <? limit) then throw (Wrap "memory" ErrPlatformLimitInvalid)
  else
    page ← platform_page after limit;
    _ ← audit_page trail (Memory.t_Name t) ctx None page;
    mret page.
End Reader.

Definition Table_PlatformReader (t : Memory.Table Any S) (trail : option (AuditTrail W)) (opts : list Z)
    : result error (PlatformReader W S) :=
  trail ← requireTrail trail;
  Ok (mkPlatformReader (platformReader_LoadIn t trail) (platformReader_List t trail (page_max opts))).

Section Projector.
Context (id : loc) (t : Memory.Table Any S) (policy : option (ProjectionPolicy W)) (trail : AuditTrail W).

Definition permitted (ctx : Ctx) (destination : TenantID) : M W error unit :=
  let origin := contextTenant ctx in
  if bool_decide (origin = Some destination) then throw (Wrap "own tenant" ErrProjectionDenied)
  else match policy with
  | None => throw (Wrap "without a policy" ErrProjectionDenied)
  | Some policy => map_err (fun e => Join "memory" [ErrProjectionDenied; e]) (policy ctx origin destination)
  end.
Definition txProjector_event (ctx : Ctx) (destination : TenantID) (outcome : OutcomeCategory) : AuditRecord :=
  trailEvent ctx AuditProjectionWrite (Memory.t_Name t) destination outcome.
Definition txProjector_authorize (ctx : Ctx) (destination : TenantID) : M W error unit :=
  _ ← lift (RequireExecutionContext ctx);
  if String.eqb destination "" then
    _ ← discard (trail_Record trail ctx (txProjector_event ctx "" OutcomeDenied));
    throw (Wrap "memory" ErrProjectionDestinationAbsent)
  else
    answer ← attempt (permitted ctx destination);
    match answer with
    | Panic p => panic p
    | Err e => _ ← discard (trail_Record trail ctx (txProjector_event ctx destination OutcomeDenied)); throw e
    | Ok _ => trail_Record trail ctx (txProjector_event ctx destination OutcomeAccepted)
    end.
Definition txProjector_Load (ctx : Ctx) (destination : TenantID) (key : string) : M W error (S * Version) :=
  _ ← txProjector_authorize ctx destination;
  tx ← get_tx id;
  match tx_tables tx !! Memory.t_Name t with
  | None => throw ErrNotFound
  | Some rows =>
      match tbl_rows rows !! (destination, key) with
      | None => throw ErrNotFound
      | Some rec =>
          match Memory.t_unbox t (row_snapshot rec) with
          | None => panic "interface conversion"
          | Some s => mret (table_copy t s, row_version rec)
          end
      end
  end.
Definition txProjector_Save (ctx : Ctx) (destination : TenantID) (key : string) (state : S) (expected : Version)
    : M W error unit :=
  _ ← txProjector_authorize ctx destination;
  tx ← get_tx id;
  let '(err, tx') := Memory.saveAs t tx (destination, key) state expected in
  _ ← put_tx id tx';
  match err with Some e => throw e | None => mret () end.
End Projector.
Definition Table_Projector (t : Memory.Table Any S) (id : loc) (policy : option (ProjectionPolicy W))
    (trail : option (AuditTrail W)) : result error (Projector W S) :=
  trail ← requireTrail trail;
  _ ← Memory.validate t;
  Ok (mkProjector (txProjector_Load id t policy trail) (txProjector_Save id t policy trail)).
End InMemory.

(** * Over Postgres *)
(** What the paging statement is asked, and what [Query] and the rows answer: its
    failure, or rows and the error that ended them. *)
Record page_request := mkPageRequest { pq_SQL : string; pq_After : option (string * string); pq_Limit : Z }.
Definition page_answer : Type := error + (list ((string * string) * trow) * option error).

Section OverPostgres.
Context {W S : Type} (hashtextextended : string -> Z) (t : PgTable.Table S).
(** The pool and the transaction's connection run the statements of a program. *)
Context (pool : forall A, prog A -> W -> A * W) (Query : page_request -> W -> page_answer * W).

Record platformStatements := mkPlatformStatements { ps_first : string; ps_after : string }.
Definition compilePlatform : result error platformStatements :=
  _ ← PgTable.validate t;
  let head := ("SELECT tenant_id, " ++ t_IDColumn t ++ ", version, " ++ Join_strings ", " (t_Columns t) ++ " FROM "
                 ++ PgTable.t_Name t)%string in
  let order := ("ORDER BY tenant_id, " ++ t_IDColumn t)%string in
  Ok (mkPlatformStatements
    (head ++ " " ++ order ++ " LIMIT $1")
    (head ++ " WHERE (tenant_id, " ++ t_IDColumn t ++ ") > ($1, $2) " ++ order ++ " LIMIT $3")).

Section PgReader.
Context (trail : AuditTrail W) (pageMax : Z) (platform : platformStatements).
Definition pg_admit (ctx : Ctx) (asked : TenantID) : M W error unit :=
  if negb (reach_declared ctx) then
    _ ← discard (trail_Record trail ctx (trailEvent ctx AuditPlatformRead (PgTable.t_Name t) asked OutcomeDenied));
    throw (Wrap "postgres" ErrPlatformReachUndeclared)
  else _ ← lift (RequireExecutionContext ctx); mret ().
Definition pg_LoadIn (ctx : Ctx) (tenant_ : TenantID) (id : string) : M W error (PlatformRow S) :=
  _ ← pg_admit ctx tenant_;
  if String.eqb tenant_ "" then throw ErrNotFound
  else
    _ ← trail_Record trail ctx (trailEvent ctx AuditPlatformRead (PgTable.t_Name t) tenant_ OutcomeAccepted);
    answer ← run (pool _ (loadAs t tenant_ id));
    found ← lift answer;
    match found with
    | None => throw ErrNotFound
    | Some (state, version) => mret (mkPlatformRow tenant_ id state version)
    end.
Fixpoint scan_rows (rows : list ((string * string) * trow)) : result error (list (PlatformRow S)) :=
  match rows with
  | [] => Ok []
  | ((tenant_, id), r) :: rows' =>
      match decode_row t r with
      | Ok state =>
          rest ← scan_rows rows';
          Ok (mkPlatformRow tenant_ id (identify t state id) (wrapu64 (tr_version r)) :: rest)
      | Err e => Err (Wrap "scan" e)
      | Panic w => Panic w
      end
  end.
Definition page_request_of (after : option PlatformKey) (limit : Z) : page_request :=
  match after with
  | None => mkPageRequest (ps_first platform) None limit
  | Some a => mkPageRequest (ps_after platform) (Some (pk_Tenant a, pk_ID a)) limit
  end.
Definition pg_query (after : option PlatformKey) (limit : Z) : M W error (list (PlatformRow S)) :=
  answer ← run (Query (page_request_of after limit));
  match answer with
  | inl e => throw (Wrap "list" e)
  | inr (rows, ended) =>
      page ← lift (scan_rows rows);
      match ended with Some e => throw (Wrap "rows" e) | None => mret page end
  end.
Definition pg_List (ctx : Ctx) (after : option PlatformKey) (limit : Z) : M W error (list (PlatformRow S)) :=
  _ ← pg_admit ctx "";
  if (limit <=? 0) || (pageMax <? limit) then throw (Wrap "postgres" ErrPlatformLimitInvalid)
  else
    page ← pg_query after limit;
    _ ← audit_page trail (PgTable.t_Name t) ctx None page;
    mret page.
End PgReader.
Definition pg_PlatformReader (trail : option (AuditTrail W)) (opts : list Z) : result error (PlatformReader W S) :=
  match trail with
  | None => Panic "PlatformReader needs an audit trail"
  | Some trail =>
      _ ← compile t;
      platform ← compilePlatform;
      Ok (mkPlatformReader (pg_LoadIn trail) (pg_List trail (page_max opts) platform))
  end.

(** The projector works in a transaction: [tx_of] is its counters and plan. *)
Section PgProjector.
Context (conn : forall A, prog A -> W -> A * W) (tx_of : W -> PgTable.Tx) (set_tx_of : PgTable.Tx -> W -> W).
Context (stmts : statements) (policy : option (ProjectionPolicy W)) (trail : AuditTrail W).
Definition projector_event (ctx : Ctx) (destination : TenantID) (outcome : OutcomeCategory) : AuditRecord :=
  trailEvent ctx AuditProjectionWrite (PgTable.t_Name t) destination outcome.
(** The refusal of a destination, if any. *)
Definition refusal_of (ctx : Ctx) (destination : TenantID) : M W error (option error) :=
  if bool_decide (contextTenant ctx = Some destination) then mret (Some (Wrap "own tenant" ErrProjectionDenied))
  else match policy with
  | None => mret (Some ErrProjectionDenied)
  | Some policy =>
      answer ← attempt (policy ctx (contextTenant ctx) destination);
      match answer with
      | Ok _ => mret None
      | Err cause => mret (Some (Join "" [ErrProjectionDenied; cause]))
      | Panic p => panic p
      end
  end.
Definition projector_authorize (ctx : Ctx) (destination : TenantID) : M W error unit :=
  _ ← lift (RequireExecutionContext ctx);
  if String.eqb destination "" then
    _ ← discard (trail_Record trail ctx (projector_event ctx "" OutcomeDenied));
    throw (Wrap "postgres" ErrProjectionDestinationAbsent)
  else
    refusal ← refusal_of ctx destination;
    match refusal with
    | Some e => _ ← discard (trail_Record trail ctx (projector_event ctx destination OutcomeDenied)); throw (Wrap "project" e)
    | None => trail_Record trail ctx (projector_event ctx destination OutcomeAccepted)
    end.
Definition projector_Load (ctx : Ctx) (destination : TenantID) (id : string) : M W error (S * Version) :=
  _ ← projector_authorize ctx destination;
  answer ← run (conn _ (loadAs t destination id));
  found ← lift answer;
  match found with None => throw ErrNotFound | Some sv => mret sv end.
Definition projector_Save (ctx : Ctx) (destination : TenantID) (id : string) (state : S) (expected : Version)
    : M W error unit :=
  _ ← projector_authorize ctx destination;
  tx ← gets tx_of;
  answered ← run (conn _ (PgTable.saveAs hashtextextended t stmts tx destination id state expected));
  _ ← modify (set_tx_of answered.2);
  lift answered.1.
End PgProjector.
Definition pg_Projector conn tx_of set_tx_of (policy : option (ProjectionPolicy W)) (trail : option (AuditTrail W))
    : result error (Projector W S) :=
  match trail with
  | None => Panic "Projector needs an audit trail"
  | Some trail =>
      stmts ← compile t;
      Ok (mkProjector (projector_Load conn policy trail) (projector_Save conn tx_of set_tx_of stmts policy trail))
  end.
End OverPostgres.
