(* ===== verification/PlatformTheorems.v ===== *)
(** What access across tenants promises: a walk over the pages sees every row
    once, and no access escapes the audit. *)

From Stdlib Require Import OrdersEx.
From stdpp Require Import sorting.
From S2P Require Import Prelude GoStrings GoSlices DomainKernel Errors Ports Interfaces Memory PgServer PgTable PgTableTheorems Platform.

(** * The trail *)
Section Trails.
Context {W V : Type}.
(** A trail whose confirmation means the record is in its log, which only grows,
    and which leaves the data alone. *)
Class AuditLog (trail : AuditTrail W) (log : W -> list AuditRecord) (data : W -> V) := {
  record_confined : forall ctx r, Confined data (trail_Record trail ctx r);
  record_grows : forall ctx r w res w', trail_Record trail ctx r w = (res, w') -> exists l, log w' = log w ++ l;
  record_kept : forall ctx r w w', trail_Record trail ctx r w = (Ok (), w') -> log w' = log w ++ [r]
}.
(** One that confirms everything. *)
Class Confirms (trail : AuditTrail W) := record_confirms : forall ctx r w, exists w', trail_Record trail ctx r w = (Ok (), w').
End Trails.

(** * Pages by key *)
Lemma filter_keeps {A} (P : A -> Prop) `{!forall x, Decision (P x)} (l : list A) : (forall x, x ∈ l -> P x) -> filter P l = l.
Proof.
  induction l as [| x l IH]; intros HP; [done |]. rewrite filter_cons_True by (apply HP; by left).
  rewrite IH; [done |]. intros y Hy. apply HP. by right.
Qed.
Lemma filter_drops {A} (P : A -> Prop) `{!forall x, Decision (P x)} (l : list A) : (forall x, x ∈ l -> ~ P x) -> filter P l = [].
Proof.
  induction l as [| x l IH]; intros HP; [done |]. rewrite filter_cons_False by (apply HP; by left).
  apply IH. intros y Hy. apply HP. by right.
Qed.
Section Keyset.
Context {W V S : Type} (cmp : PlatformKey -> PlatformKey -> comparison) (v : V) (rows : list (PlatformRow S)).

Definition beyond (after : option PlatformKey) (r : PlatformRow S) : Prop :=
  match after with None => True | Some k => cmp (key_of r) k = Gt end.
#[export] Instance beyond_dec after r : Decision (beyond after r).
Proof. unfold beyond. destruct after; apply _. Defined.
Definition ordered (a b : PlatformRow S) : Prop := cmp (key_of a) (key_of b) = Lt.

Context (cmp_opp : forall a b, cmp b a = CompOpp (cmp a b)).
Lemma beyond_last pre r post : StronglySorted ordered (pre ++ r :: post) ->
  filter (beyond (Some (key_of r))) (pre ++ r :: post) = post.
Proof.
  intros Hs. assert (cmp (key_of r) (key_of r) = Eq) as Hr.
  { pose proof (cmp_opp (key_of r) (key_of r)). by destruct (cmp _ _). }
  rewrite filter_app, filter_cons_False by (cbn; by rewrite Hr).
  apply StronglySorted_app in Hs as (Hpre & _ & [_ Hpost]%StronglySorted_inv). rewrite Forall_forall in Hpost.
  rewrite filter_drops by (intros x Hx; cbn; by rewrite (Hpre x r Hx ltac:(by left))).
  apply filter_keeps. intros x Hx. cbn. rewrite cmp_opp. by rewrite (Hpost x Hx).
Qed.

(** A reader of pages in the order of the keys, and a client that walks them. *)
Class Paged (reader : PlatformReader W S) (ctx : Ctx) (data : W -> V) (log : W -> list AuditRecord)
    (audited : PlatformRow S -> AuditRecord) (pageMax : Z) := {
  paged_sorted : StronglySorted ordered rows;
  paged_list : forall after limit w, data w = v -> 0 < limit <= pageMax ->
    exists page w' l, pr_List reader ctx after limit w = (Ok page, w') /\
      page = take (Z.to_nat limit) (filter (beyond after) rows) /\ data w' = v /\
      log w' = log w ++ l /\ (forall r, r ∈ page -> audited r ∈ l)
}.
Fixpoint walk (reader : PlatformReader W S) (ctx : Ctx) (fuel : nat) (after : option PlatformKey) (limit : Z)
    : M W error (list (PlatformRow S)) :=
  match fuel with
  | O => throw (Opaque "the walk is longer than its fuel")
  | Datatypes.S fuel' =>
      page ← pr_List reader ctx after limit;
      match last page with
      | None => mret []
      | Some r => rest ← walk reader ctx fuel' (Some (key_of r)) limit; mret (page ++ rest)
      end
  end.
Definition reached (pre : list (PlatformRow S)) : option PlatformKey := key_of <$> last pre.
Lemma beyond_reached pre post : StronglySorted ordered (pre ++ post) -> filter (beyond (reached pre)) (pre ++ post) = post.
Proof.
  unfold reached. destruct (last pre) as [r |] eqn:Hl.
  - apply last_Some in Hl as [pre' ->]. rewrite <- app_assoc. apply beyond_last.
  - apply last_None in Hl as ->. intros _. by apply filter_keeps.
Qed.
Lemma walk_from reader ctx data log audited pageMax `{!Paged reader ctx data log audited pageMax} fuel pre post limit w :
  0 < limit <= pageMax -> data w = v -> rows = pre ++ post -> (length post < fuel)%nat ->
  exists w' l, walk reader ctx fuel (reached pre) limit w = (Ok post, w') /\ data w' = v /\
      log w' = log w ++ l /\ (forall r, r ∈ post -> audited r ∈ l).
Proof.
  intros Hlimit. revert pre post w. induction fuel as [| fuel IH]; intros pre post w Hw Hrows Hfuel; [lia |].
  destruct (paged_list (reached pre) limit w Hw Hlimit) as (page & w1 & l1 & Hlist & Hpage & Hdata & Hlog & Haudit).
  pose proof paged_sorted as Hs. rewrite Hrows in Hs, Hpage. rewrite (beyond_reached pre post Hs) in Hpage.
  cbn [walk]. rewrite (bind_Ok _ _ _ _ _ Hlist). destruct (last page) as [r |] eqn:Hlast.
  - assert (page <> []) as Hne by (intros ->; done).
    assert (post = page ++ drop (Z.to_nat limit) post) as Hpost by (by rewrite Hpage, take_drop).
    destruct (IH (pre ++ page) (drop (Z.to_nat limit) post) w1) as (w2 & l2 & Hwalk & Hdata2 & Hlog2 & Haudit2).
    + done.
    + by rewrite Hrows, <- app_assoc, <- Hpost.
    + assert (0 < length page)%nat by (destruct page; [done | cbn; lia]).
      apply (f_equal length) in Hpost. rewrite length_app in Hpost. lia.
    + assert (reached (pre ++ page) = Some (key_of r)) as Hreach.
      { unfold reached. by rewrite last_app, Hlast. }
      rewrite Hreach in Hwalk. exists w2, (l1 ++ l2). rewrite (bind_Ok _ _ _ _ _ Hwalk). split_and!.
      * cbn. by rewrite <- Hpost.
      * done.
      * by rewrite Hlog2, Hlog, <- app_assoc.
      * rewrite Hpost. intros x [Hx | Hx]%elem_of_app; apply elem_of_app; [left; by apply Haudit | right; by apply Haudit2].
  - apply last_None in Hlast as ->. assert (post = []) as ->.
    { destruct post; [done |]. cbn in Hpage. destruct (Z.to_nat limit) eqn:E; [lia | done]. }
    exists w1, l1. split_and!; try done.
Qed.
End Keyset.

(** ** The audit of a page *)
Section Audit.
Context {W V S : Type} (trail : AuditTrail W) (log : W -> list AuditRecord) (data : W -> V) `{!AuditLog trail log data}.

Lemma discard_confined m : Confined data m -> Confined data (discard m).
Proof. unfold discard. intros Hm. auto with confined. Qed.
Lemma audit_page_confined object ctx (page : list (PlatformRow S)) previous : Confined data (audit_page trail object ctx previous page).
Proof.
  revert previous. induction page as [| r page IH]; intros previous; cbn; [auto with confined |].
  apply Confined_bind; [destruct (bool_decide _); [auto with confined | apply record_confined] | auto].
Qed.
Lemma audit_page_log object ctx (page : list (PlatformRow S)) previous w w' :
  audit_page trail object ctx previous page w = (Ok (), w') ->
  exists l, log w' = log w ++ l /\ forall r, r ∈ page ->
    previous = Some (pr_Tenant r) \/ trailEvent ctx AuditPlatformRead object (pr_Tenant r) OutcomeAccepted ∈ l.
Proof.
  revert previous w. induction page as [| r page IH]; intros previous w; cbn [audit_page].
  { intros [_ <-]%pair_equal_spec. exists []. split; [by rewrite app_nil_r | by intros ? ?%elem_of_nil]. }
  intros ([] & w1 & Hhead & Htail)%bind_inv. destruct (IH _ _ Htail) as (l & Hl & Hin).
  case_bool_decide as Hp.
  - apply pair_equal_spec in Hhead as [_ ->]. exists l. split; [done |]. intros x [-> | Hx]%elem_of_cons; [by left |].
    destruct (Hin x Hx) as [[= Heq] | Hx']; [left; congruence | by right].
  - apply record_kept in Hhead as Hw1. eexists (_ :: l). split; [by rewrite Hl, Hw1, <- app_assoc |].
    intros x [-> | Hx]%elem_of_cons; [right; by left |].
    destruct (Hin x Hx) as [[= Heq] | Hx']; right; [rewrite <- Heq; by left | by right].
Qed.
Lemma audit_page_confirmed `{!Confirms trail} object ctx (page : list (PlatformRow S)) previous w :
  exists w', audit_page trail object ctx previous page w = (Ok (), w').
Proof.
  revert previous w. induction page as [| r page IH]; intros previous w; cbn [audit_page]; [by eexists |].
  case_bool_decide; [apply IH |].
  destruct (record_confirms ctx (trailEvent ctx AuditPlatformRead object (pr_Tenant r) OutcomeAccepted) w) as [w1 Hw1].
  destruct (IH (Some (pr_Tenant r)) w1) as [w2 Hw2]. exists w2. by rewrite (bind_Ok _ _ _ _ _ Hw1).
Qed.
End Audit.

(** * The reader in memory *)
Section InMemory.
Context {Any Event X S : Type} `{Printable} `{MapOrder} (t : Memory.Table Any S).
Notation W := (World Any Event X).
Definition tables (w : W) := st_tables (w_store w).

Definition rendered (key : rowKey) : string * string := (key.1, Quote key.2).
Definition row_key (r : PlatformRow S) : rowKey := (pr_Tenant r, pr_ID r).
Definition compare_keys (a b : PlatformKey) : comparison := comparePlatform (pk_Tenant a, pk_ID a) (pk_Tenant b, pk_ID b).
Lemma comparePlatform_rendered a b :
  comparePlatform a b = pair_compare String_as_OT.compare String_as_OT.compare (rendered a) (rendered b).
Proof. done. Qed.
Lemma compare_keys_opp a b : compare_keys b a = CompOpp (compare_keys a b).
Proof. unfold compare_keys. rewrite !comparePlatform_rendered. apply cmp_opp. Qed.

Definition answered_at (rows : gmap rowKey (Memory.row Any)) (key : rowKey) (r : PlatformRow S) : Prop :=
  exists rec, rows !! key = Some rec /\ row_answer t key rec = Ok r.
Lemma answered_key rows key r : answered_at rows key r -> row_key r = key.
Proof.
  intros (rec & _ & Hr). unfold row_answer in Hr. destruct (Memory.t_unbox t (row_snapshot rec)) as [s |]; [| done].
  injection Hr as <-. by destruct key.
Qed.
Lemma answers_spec rows keys l : Forall2 (answered_at rows) keys l <-> answers t rows keys = Ok l.
Proof.
  split.
  - induction 1 as [| key r keys l (rec & Hrec & Hr) _ IH]; [done |]. cbn. by rewrite Hrec, Hr, IH.
  - revert l. induction keys as [| key keys IH]; intros l; cbn; [intros [= <-]; constructor |].
    destruct (rows !! key) as [rec |] eqn:Hrec; [| done]. destruct (row_answer t key rec) as [r | |] eqn:Hr; [| done | done].
    destruct (answers t rows keys) as [l' | |]; [| done | done]. intros [= <-]. constructor; [by exists rec | by apply IH].
Qed.
Lemma answers_filter rows (P : rowKey -> Prop) `{!forall x, Decision (P x)} keys l :
  Forall2 (answered_at rows) keys l -> Forall2 (answered_at rows) (filter P keys) (filter (fun r => P (row_key r)) l).
Proof.
  induction 1 as [| key r keys l Hr _ IH]; [constructor |]. rewrite !filter_cons, (answered_key rows key r Hr).
  destruct (decide (P key)); [by constructor | done].
Qed.

(** Rows of the table's type, under identifiers that print apart. *)
Record wellFormed (rows : gmap rowKey (Memory.row Any)) : Prop := {
  wf_typed key rec : rows !! key = Some rec -> is_Some (Memory.t_unbox t (row_snapshot rec));
  wf_apart key key' : is_Some (rows !! key) -> is_Some (rows !! key') -> rendered key = rendered key' -> key = key'
}.
Definition in_order (rows : gmap rowKey (Memory.row Any)) : list (PlatformRow S) :=
  match answers t rows (sorted_keys None rows) with Ok l => l | _ => [] end.

Lemma elem_of_keys (rows : gmap rowKey (Memory.row Any)) key : key ∈ sorted_keys None rows <-> is_Some (rows !! key).
Proof.
  unfold sorted_keys. rewrite elem_of_SortStableFunc, list_elem_of_filter, list_elem_of_fmap. split.
  - intros (_ & [k rec] & -> & Hk%elem_of_ranged). by exists rec.
  - intros [rec Hrec]. split; [done |]. exists (key, rec). split; [done |]. by apply elem_of_ranged.
Qed.
Lemma sorted_keys_nodup (rows : gmap rowKey (Memory.row Any)) : NoDup (sorted_keys None rows).
Proof.
  unfold sorted_keys. rewrite (SortStableFunc_perm _ _). apply NoDup_filter. rewrite (ranged_perm rows).
  apply NoDup_fst_map_to_list.
Qed.
Lemma sorted_keys_past (after : option PlatformKey) (rows : gmap rowKey (Memory.row Any)) :
  sorted_keys after rows = filter (fun key => past after key = true) (sorted_keys None rows).
Proof.
  unfold sorted_keys. rewrite (sort_filter _ _ rendered comparePlatform_rendered).
  rewrite (filter_keeps (fun key => past None key = true)) by done. done.
Qed.
Lemma in_order_spec rows : wellFormed rows -> Forall2 (answered_at rows) (sorted_keys None rows) (in_order rows).
Proof.
  intros Hwf. unfold in_order.
  assert (exists l, Forall2 (answered_at rows) (sorted_keys None rows) l) as [l Hl].
  { assert (forall key, key ∈ sorted_keys None rows -> exists r, answered_at rows key r) as Hall.
    { intros key [rec Hrec]%elem_of_keys. destruct (wf_typed rows Hwf key rec Hrec) as [s Hs].
      eexists. exists rec. split; [done |]. unfold row_answer. by rewrite Hs. }
    induction (sorted_keys None rows) as [| key keys IH]; [by exists [] |].
    destruct (Hall key ltac:(by left)) as [r Hr]. destruct IH as [l Hl]; [intros k Hk; apply Hall; by right |].
    exists (r :: l). by constructor. }
  by rewrite (proj1 (answers_spec rows _ l) Hl).
Qed.
Lemma in_order_keys rows : wellFormed rows -> map row_key (in_order rows) = sorted_keys None rows.
Proof.
  intros Hwf. pose proof (in_order_spec rows Hwf) as Hs. induction Hs as [| key r keys l Hr _ IH]; [done |].
  cbn. by rewrite IH, (answered_key rows key r Hr).
Qed.
Lemma in_order_elem rows r : wellFormed rows -> r ∈ in_order rows <-> answered_at rows (row_key r) r.
Proof.
  intros Hwf. pose proof (in_order_spec rows Hwf) as Hs. split.
  - intros [i Hi]%list_elem_of_lookup. destruct (Forall2_lookup_r _ _ _ _ _ Hs Hi) as (key & _ & Hr).
    by rewrite (answered_key rows key r Hr).
  - intros Hr. assert (row_key r ∈ sorted_keys None rows) as [i Hi]%list_elem_of_lookup.
    { apply elem_of_keys. destruct Hr as (rec & Hrec & _). by exists rec. }
    destruct (Forall2_lookup_l _ _ _ _ _ Hs Hi) as (r' & Hr' & (rec' & Hrec' & Ha')). destruct Hr as (rec & Hrec & Ha).
    rewrite Hrec in Hrec'. injection Hrec' as <-. rewrite Ha in Ha'. injection Ha' as <-. apply list_elem_of_lookup. by exists i.
Qed.
Lemma in_order_sorted rows : wellFormed rows -> StronglySorted (ordered compare_keys) (in_order rows).
Proof.
  intros Hwf. pose proof (sort_key_sorted _ _ rendered comparePlatform_rendered
    (filter (fun key => past None key = true) (map fst (ranged rows)))) as Hs. fold (sorted_keys None rows) in Hs.
  pose proof (sorted_keys_nodup rows) as Hnd. pose proof (in_order_elem rows) as Hel.
  assert (forall r, r ∈ in_order rows -> is_Some (rows !! row_key r)) as Hin.
  { intros r (rec & Hrec & _)%Hel; [by exists rec | done]. }
  rewrite <- (in_order_keys rows Hwf) in Hs, Hnd. clear Hel. induction (in_order rows) as [| r l IH]; [constructor |].
  cbn [map] in Hs, Hnd. apply StronglySorted_inv in Hs as [Hs Hall]. apply NoDup_cons in Hnd as [Hr Hnd].
  constructor; [apply IH; [done | done | intros x Hx; apply Hin; by right] |].
  rewrite Forall_forall in Hall. apply Forall_forall. intros x Hx. specialize (Hall (row_key x) ltac:(by apply list_elem_of_fmap; eauto)).
  unfold ordered, compare_keys, key_of. cbn. unfold not_above in Hall.
  change (comparePlatform (row_key r) (row_key x) = Lt). destruct (comparePlatform (row_key r) (row_key x)) eqn:E; [| done | done].
  rewrite comparePlatform_rendered in E. apply cmp_eq in E.
  apply (wf_apart rows Hwf) in E; [| apply Hin; by left | apply Hin; by right].
  destruct Hr. rewrite E. apply list_elem_of_fmap. eauto.
Qed.
Lemma page_in_order (after : option PlatformKey) limit rows : wellFormed rows ->
  answers t rows (take limit (sorted_keys after rows)) = Ok (take limit (filter (beyond compare_keys after) (in_order rows))).
Proof.
  intros Hwf. apply answers_spec, Forall2_take. rewrite sorted_keys_past.
  replace (filter (beyond compare_keys after) (in_order rows))
    with (filter (fun r => past after (row_key r) = true) (in_order rows)).
  - by apply answers_filter, in_order_spec.
  - apply list_filter_iff. intros r. unfold beyond, past, compare_keys, row_key, key_of.
    destruct after as [a |]; [| done]. cbn. by destruct (comparePlatform _ _).
Qed.

Definition access_of (ctx : Ctx) (r : PlatformRow S) : AuditRecord :=
  trailEvent ctx AuditPlatformRead (Memory.t_Name t) (pr_Tenant r) OutcomeAccepted.
Definition declares_reach (ctx : Ctx) : Prop :=
  PlatformReachFrom ctx = Some ReachAllTenants /\ is_Some (ExecutionContextFrom ctx).
Lemma declared_passes (trail : AuditTrail W) ctx asked w : declares_reach ctx -> declared t trail ctx asked w = (Ok (), w).
Proof.
  intros [Hr [ec Hec]]. unfold declared, reach_declared. rewrite Hr. cbn. unfold mbind, M_bind, lift, RequireExecutionContext.
  by rewrite Hec.
Qed.
Lemma memory_paged (trail : AuditTrail W) log ctx pageMax db rows
    `{!AuditLog trail log tables, !Confirms trail} :
  declares_reach ctx -> db !! Memory.t_Name t = Some rows -> wellFormed (tbl_rows rows) ->
  Paged compare_keys db (in_order (tbl_rows rows))
    (mkPlatformReader (platformReader_LoadIn t trail) (platformReader_List t trail pageMax)) ctx tables log (access_of ctx) pageMax.
Proof.
  intros Hreach Hdb Hwf. split; [by apply in_order_sorted |]. intros after limit w Hw Hlimit.
  set (page := take (Z.to_nat limit) (filter (beyond compare_keys after) (in_order (tbl_rows rows)))).
  destruct (audit_page_confirmed trail (Memory.t_Name t) ctx page None w) as [w' Hw'].
  pose proof (audit_page_confined trail log tables (Memory.t_Name t) ctx page None w _ _ Hw') as Hdata.
  destruct (audit_page_log trail log tables (Memory.t_Name t) ctx page None w w' Hw') as (l & Hl & Hin).
  exists page, w', l. split_and!; [| done | congruence | done | intros r Hr; by destruct (Hin r Hr)].
  cbn [pr_List]. unfold platformReader_List. rewrite (bind_Ok _ _ _ _ _ (declared_passes trail ctx "" w Hreach)).
  replace ((limit <=? 0) || (pageMax <? limit)) with false by (destruct (Z.leb_spec limit 0), (Z.ltb_spec pageMax limit); lia || done).
  assert (platform_page t after limit w = (Ok page, w)) as Hpage.
  { unfold platform_page, mbind, M_bind, gets. unfold tables in Hw. rewrite Hw, Hdb. unfold lift. by rewrite page_in_order. }
  rewrite (bind_Ok _ _ _ _ _ Hpage). by rewrite (bind_Ok _ _ _ _ _ Hw').
Qed.

(** C39: A client that pages over a table from the first page, each next page after
    the last row of the one before, until a page is empty, sees every row of every
    tenant exactly once with its state and version, whatever the page's size, and
    every tenant it saw is in the audit trail. It holds of identifiers that print
    apart, which the reader's comment asks for. *)
Theorem walk_sees_every_row (trail : AuditTrail W) log ctx opts reader rows limit w
    `{!AuditLog trail log tables, !Confirms trail}
  (Hreader : Table_PlatformReader t (Some trail) opts = Ok reader) (Hreach : declares_reach ctx)
  (Hrows : tables w !! Memory.t_Name t = Some rows) (Hwf : wellFormed (tbl_rows rows))
  (Hlimit : 0 < limit <= page_max opts) :
  exists seen w', walk reader ctx (Datatypes.S (size (tbl_rows rows))) None limit w = (Ok seen, w') /\
    tables w' = tables w /\ NoDup (map row_key seen) /\
    (forall r, r ∈ seen <-> exists rec s, tbl_rows rows !! row_key r = Some rec /\
       Memory.t_unbox t (row_snapshot rec) = Some s /\ pr_State r = table_copy t s /\ pr_Version r = row_version rec) /\
    (forall r, r ∈ seen -> access_of ctx r ∈ log w').
Proof.
  injection Hreader as <-. pose proof (memory_paged trail log ctx (page_max opts) _ rows Hreach Hrows Hwf) as Hpaged.
  destruct (walk_from compare_keys _ _ compare_keys_opp _ ctx tables log (access_of ctx) (page_max opts)
    (Datatypes.S (size (tbl_rows rows))) [] (in_order (tbl_rows rows)) limit w Hlimit eq_refl eq_refl) as (w' & l & Hwalk & Hdata & Hlog & Hin).
  { pose proof (in_order_keys _ Hwf) as Hk. apply (f_equal length) in Hk. rewrite length_map in Hk. rewrite Hk.
    unfold sorted_keys. rewrite (Permutation_length (SortStableFunc_perm _ _)). 
    rewrite filter_keeps by done. rewrite length_map, (Permutation_length (ranged_perm _)), length_map_to_list. lia. }
  exists (in_order (tbl_rows rows)), w'. split_and!; [exact Hwalk | done | rewrite in_order_keys by done; apply sorted_keys_nodup | |].
  - intros r. rewrite in_order_elem by done. unfold answered_at, row_answer. split.
    + intros (rec & Hrec & Hr). exists rec. destruct (Memory.t_unbox t (row_snapshot rec)) as [s |]; [| done].
      exists s. injection Hr as <-. done.
    + intros (rec & s & Hrec & Hs & Hst & Hv). exists rec. rewrite Hs. split; [done |]. destruct r; cbn in *. by subst.
  - intros r Hr. rewrite Hlog. apply elem_of_app. right. by apply Hin.
Qed.
End InMemory.

(** * What is audited *)
Section Spec.
Context {W V S : Type} (trail : AuditTrail W) (log : W -> list AuditRecord) (data : W -> V) (object : string).

(** A read is answered to a caller that declared its reach, after the trail
    confirmed a record for the tenant of every row. *)
Definition audited_read (ctx : Ctx) (rows : list (PlatformRow S)) (w w' : W) : Prop :=
  declares_reach ctx /\ exists l, log w' = log w ++ l /\
    forall r, r ∈ rows -> trailEvent ctx AuditPlatformRead object (pr_Tenant r) OutcomeAccepted ∈ l.
Record audited_reader (reader : PlatformReader W S) : Prop := {
  reads_one ctx tenant_ id w r w' : pr_LoadIn reader ctx tenant_ id w = (Ok r, w') ->
    pr_Tenant r = tenant_ /\ audited_read ctx [r] w w';
  reads_page ctx after limit w page w' : pr_List reader ctx after limit w = (Ok page, w') -> audited_read ctx page w w'
}.
(** A projection goes on in [w'] when it has a destination other than the caller's
    tenant, the policy allowed it and the trail confirmed it. *)
Definition cleared (policy : option (ProjectionPolicy W)) (ctx : Ctx) (destination : TenantID) (w w' : W) : Prop :=
  is_Some (ExecutionContextFrom ctx) /\ destination <> "" /\ contextTenant ctx <> Some destination /\
  exists p w1, policy = Some p /\ p ctx (contextTenant ctx) destination w = (Ok (), w1) /\
    trail_Record trail ctx (trailEvent ctx AuditProjectionWrite object destination OutcomeAccepted) w1 = (Ok (), w').
Record audited_projector (policy : option (ProjectionPolicy W)) (projector : Projector W S) : Prop := {
  projects_load ctx destination id w sv w' : pj_Load projector ctx destination id w = (Ok sv, w') ->
    exists w1, cleared policy ctx destination w w1;
  projects_save ctx destination id state expected w r w' : pj_Save projector ctx destination id state expected w = (r, w') ->
    is_Ok r = false /\ data w' = data w \/ exists w1, cleared policy ctx destination w w1
}.

Lemma audited_list ctx page w w1 w2 `{!AuditLog trail log data} : declares_reach ctx -> log w1 = log w ->
  audit_page trail object ctx None page w1 = (Ok (), w2) -> audited_read ctx page w w2.
Proof.
  intros Hreach Hlog Ha. split; [done |]. destruct (audit_page_log trail log data _ _ _ _ _ _ Ha) as (l & Hl & Hin).
  exists l. split; [congruence |]. intros r Hr. by destruct (Hin r Hr).
Qed.
Lemma audited_one ctx (r : PlatformRow S) w w1 w2 `{!AuditLog trail log data} : declares_reach ctx ->
  trail_Record trail ctx (trailEvent ctx AuditPlatformRead object (pr_Tenant r) OutcomeAccepted) w = (Ok (), w1) ->
  log w2 = log w1 -> audited_read ctx [r] w w2.
Proof.
  intros Hreach Hr Hlog. split; [done |]. apply record_kept in Hr. eexists. split; [by rewrite Hlog, Hr |].
  intros x ->%list_elem_of_singleton. by left.
Qed.
(** What both admissions and both authorizations come to. *)
Lemma admission_passes name (w w' : W) (r : result error unit) ctx asked :
  (if negb (reach_declared ctx) then
     discard (trail_Record trail ctx (trailEvent ctx AuditPlatformRead object asked OutcomeDenied)) ≫=
       (fun _ => throw (Wrap name ErrPlatformReachUndeclared))
   else lift (RequireExecutionContext ctx) ≫= (fun _ => mret ())) w = (r, w') ->
  is_Ok r = true -> declares_reach ctx /\ w' = w.
Proof.
  unfold reach_declared, declares_reach, RequireExecutionContext.
  destruct (PlatformReachFrom ctx) as [[|] |]; cbn [negb]; unfold mbind, M_bind, throw, lift, mret, M_ret.
  1, 3: destruct (discard _ w) as [[| |] w1]; intros [<- <-]%pair_equal_spec; done.
  destruct (ExecutionContextFrom ctx) as [ec |]; intros [<- <-]%pair_equal_spec; [| done]. by intros _.
Qed.
End Spec.

(** ** Authorization: both realizations are the same refusals *)
Section Authorization.
Context {W V : Type} (trail : AuditTrail W) (log : W -> list AuditRecord) (data : W -> V) `{!AuditLog trail log data}.
Context (object : string) (policy : option (ProjectionPolicy W)).
Context (Hpolicy : forall p, policy = Some p -> forall ctx origin destination, Confined data (p ctx origin destination)).

(** What an authorization promises: it lets through exactly what is cleared, and
    leaves the data alone. *)
Definition authorizes (authorize : Ctx -> TenantID -> M W error unit) : Prop :=
  forall ctx destination, Confined data (authorize ctx destination) /\
    forall w w', authorize ctx destination w = (Ok (), w') -> cleared trail object policy ctx destination w w'.

Lemma authorized_load authorize {A} (body : M W error A) ctx destination w a w' : authorizes authorize ->
  (authorize ctx destination ≫= (fun _ => body)) w = (Ok a, w') -> exists w1, cleared trail object policy ctx destination w w1.
Proof. intros Ha ([] & w1 & Hw1 & _)%bind_inv. exists w1. by apply Ha. Qed.
Lemma authorized_save authorize (body : M W error unit) ctx destination w r w' : authorizes authorize ->
  (authorize ctx destination ≫= (fun _ => body)) w = (r, w') ->
  is_Ok r = false /\ data w' = data w \/ exists w1, cleared trail object policy ctx destination w w1.
Proof.
  intros Ha. destruct (Ha ctx destination) as [Hconf Hcl]. unfold mbind, M_bind.
  destruct (authorize ctx destination w) as [[[] | e | p] w1] eqn:E.
  - intros _. right. exists w1. by apply Hcl.
  - intros [<- <-]%pair_equal_spec. left. split; [done | by eapply Hconf].
  - intros [<- <-]%pair_equal_spec. left. split; [done | by eapply Hconf].
Qed.
End Authorization.

Section MemoryAudit.
Context {Any Event X S : Type} `{Printable} `{MapOrder} (t : Memory.Table Any S).
Notation W := (World Any Event X).
Definition stored (w : W) := (w_store w, w_txs w).
Context (trail : AuditTrail W) (log : W -> list AuditRecord) `{!AuditLog trail log stored}.

Lemma memory_reader_audited reader opts : Table_PlatformReader t (Some trail) opts = Ok reader ->
  audited_reader log (Memory.t_Name t) reader.
Proof.
  intros [= <-]. split; cbn.
  - intros ctx tenant_ id w r w' ([] & w1 & Hd & Hrest)%bind_inv.
    destruct (admission_passes trail (Memory.t_Name t) "memory" w w1 (Ok ()) ctx tenant_ Hd eq_refl) as [Hreach ->].
    case (String.eqb_spec tenant_ "") as [-> | Hne] in Hrest; [done |].
    apply bind_inv in Hrest as ([] & w1 & Hr & Hrest). unfold mbind, M_bind, gets in Hrest.
    destruct (st_tables (w_store w1) !! Memory.t_Name t) as [rows |]; [| done].
    match type of Hrest with context [@lookup ?K ?A ?M ?i ?k ?m] => destruct (@lookup K A M i k m) as [rec |] end; [| done].
    unfold row_answer, lift in Hrest. destruct (Memory.t_unbox t (row_snapshot rec)) as [s |]; [| done].
    apply pair_equal_spec in Hrest as [[= <-] <-]. split; [done |]. by eapply (audited_one trail log stored).
  - intros ctx after limit w page w' ([] & w1 & Hd & Hrest)%bind_inv.
    destruct (admission_passes trail (Memory.t_Name t) "memory" w w1 (Ok ()) ctx "" Hd eq_refl) as [Hreach ->].
    destruct ((limit <=? 0) || (page_max opts <? limit)); [done |].
    apply bind_inv in Hrest as (page' & w1 & Hp & Hrest). apply bind_inv in Hrest as ([] & w2 & Ha & Hrest).
    apply pair_equal_spec in Hrest as [[= <-] <-]. eapply (audited_list trail log stored); [apply _ | done | | exact Ha].
    unfold platform_page, mbind, M_bind, gets in Hp. destruct (st_tables (w_store w) !! Memory.t_Name t); by apply pair_equal_spec in Hp as [_ <-].
Qed.
Lemma memory_authorizes policy :
  (forall p, policy = Some p -> forall ctx origin destination, Confined stored (p ctx origin destination)) ->
  authorizes trail stored (Memory.t_Name t) policy (txProjector_authorize t policy trail).
Proof.
  intros Hp ctx destination. split.
  - unfold txProjector_authorize, permitted. apply Confined_bind; [auto with confined | intros _].
    assert (forall ev, Confined stored (discard (trail_Record trail ctx ev))) as Hd
      by (intros; apply (discard_confined stored), record_confined).
    destruct (String.eqb destination ""); [apply Confined_bind; auto with confined |].
    apply Confined_bind; [apply Confined_attempt | intros [[] | e | p]; [apply record_confined | apply Confined_bind; auto with confined | auto with confined]].
    case_bool_decide; [auto with confined |]. destruct policy as [p |]; [| auto with confined].
    apply Confined_map_err. by apply Hp.
  - intros w w'. unfold txProjector_authorize. intros (ec & w0 & Hec & Hrest)%bind_inv.
    unfold lift, RequireExecutionContext in Hec. destruct (ExecutionContextFrom ctx) as [ec' |] eqn:Hctx; [| done].
    apply pair_equal_spec in Hec as [_ <-]. case (String.eqb_spec destination "") as [-> | Hne] in Hrest.
    { apply bind_inv in Hrest as (? & ? & _ & ?). done. }
    apply bind_inv in Hrest as (r & w1 & Ha & Hrest). unfold attempt in Ha.
    destruct (permitted policy ctx destination w) as [[[] | e | p] w0] eqn:E; [| | done];
      apply pair_equal_spec in Ha as [[= <-] ->]; [| by apply bind_inv in Hrest as (? & ? & _ & ?)].
    split; [by eexists |]. split; [done |]. unfold permitted in E. case_bool_decide as Ho; [done |]. split; [done |].
    destruct policy as [p |]; [| done]. exists p, w1. split_and!; [done | | done].
    unfold map_err in E. destruct (p ctx (contextTenant ctx) destination w) as [[[] | |] w2]; try done; by apply pair_equal_spec in E as [_ ->].
Qed.
Lemma memory_projector_audited policy id projector :
  (forall p, policy = Some p -> forall ctx origin destination, Confined stored (p ctx origin destination)) ->
  Table_Projector t id policy (Some trail) = Ok projector ->
  audited_projector trail stored (Memory.t_Name t) policy projector.
Proof.
  intros Hp. unfold Table_Projector. cbn. destruct (Memory.validate t); [| done | done]. intros [= <-].
  split; cbn; intros; [eapply authorized_load | eapply authorized_save]; eauto using memory_authorizes.
Qed.
End MemoryAudit.

Section PostgresAudit.
Context {W V S : Type} (hash : string -> Z) (t : PgTable.Table S) (data : W -> V).
Context (pool : forall A, prog A -> W -> A * W) (Query : page_request -> W -> page_answer * W).
Context (trail : AuditTrail W) (log : W -> list AuditRecord) `{!AuditLog trail log data}.
(** The trail is not in the database the statements run on. *)
Context (Hpool : forall A (p : prog A) w, log (pool A p w).2 = log w) (Hquery : forall q w, log (Query q w).2 = log w).

Lemma run_inv {A} (f : W -> A * W) w a w' : run f w = (Ok a, w') -> f w = (a, w').
Proof. unfold run. destruct (f w) as [b w1]. by intros [[= ->] ->]%pair_equal_spec. Qed.
Lemma postgres_reader_audited reader opts : pg_PlatformReader t pool Query (Some trail) opts = Ok reader ->
  audited_reader log (PgTable.t_Name t) reader.
Proof.
  unfold pg_PlatformReader. cbn. destruct (compile t); [| done | done]. cbn. destruct (compilePlatform t) as [ps | |]; [| done | done].
  intros [= <-]. split; cbn.
  - intros ctx tenant_ id w r w' ([] & w1 & Hd & Hrest)%bind_inv.
    destruct (admission_passes trail (PgTable.t_Name t) "postgres" w w1 (Ok ()) ctx tenant_ Hd eq_refl) as [Hreach ->].
    case (String.eqb_spec tenant_ "") as [-> | Hne] in Hrest; [done |].
    apply bind_inv in Hrest as ([] & w1 & Hr & Hrest). apply bind_inv in Hrest as (ans & w2 & Hrun%run_inv & Hrest).
    apply bind_inv in Hrest as (found & w3 & Hf & Hrest). apply pair_equal_spec in Hf as [_ <-].
    destruct found as [[s v] |]; [| done]. apply pair_equal_spec in Hrest as [[= <-] <-]. split; [done |].
    eapply (audited_one trail log data); [apply _ | done | exact Hr |]. pose proof (Hpool _ (loadAs t tenant_ id) w1) as Hl. by rewrite Hrun in Hl.
  - intros ctx after limit w page w' ([] & w1 & Hd & Hrest)%bind_inv.
    destruct (admission_passes trail (PgTable.t_Name t) "postgres" w w1 (Ok ()) ctx "" Hd eq_refl) as [Hreach ->].
    destruct ((limit <=? 0) || (page_max opts <? limit)); [done |].
    apply bind_inv in Hrest as (page' & w1 & Hp & Hrest). apply bind_inv in Hrest as ([] & w2 & Ha & Hrest).
    apply pair_equal_spec in Hrest as [[= <-] <-]. eapply (audited_list trail log data); [apply _ | done | | exact Ha].
    apply bind_inv in Hp as (ans & w3 & Hrun%run_inv & Hp). pose proof (Hquery (page_request_of ps after limit) w) as Hl.
    rewrite Hrun in Hl. rewrite <- Hl. destruct ans as [e | [rows ended]]; [done |].
    apply bind_inv in Hp as (p & w4 & Hs & Hp). apply pair_equal_spec in Hs as [_ <-].
    destruct ended; [done |]. by apply pair_equal_spec in Hp as [_ <-].
Qed.
Lemma postgres_authorizes policy :
  (forall p, policy = Some p -> forall ctx origin destination, Confined data (p ctx origin destination)) ->
  authorizes trail data (PgTable.t_Name t) policy (projector_authorize t policy trail).
Proof.
  intros Hp ctx destination. split.
  - unfold projector_authorize, refusal_of. apply Confined_bind; [auto with confined | intros _].
    assert (forall ev, Confined data (discard (trail_Record trail ctx ev))) as Hd
      by (intros; apply (discard_confined data), record_confined).
    destruct (String.eqb destination ""); [apply Confined_bind; auto with confined |].
    apply Confined_bind; [| intros [e |]; [apply Confined_bind; auto with confined | apply record_confined]].
    case_bool_decide; [auto with confined |]. destruct policy as [p |]; [| auto with confined].
    apply Confined_bind; [by apply Confined_attempt, Hp | auto with confined].
  - intros w w'. unfold projector_authorize. intros (ec & w0 & Hec & Hrest)%bind_inv.
    unfold lift, RequireExecutionContext in Hec. destruct (ExecutionContextFrom ctx) as [ec' |] eqn:Hctx; [| done].
    apply pair_equal_spec in Hec as [_ <-]. case (String.eqb_spec destination "") as [-> | Hne] in Hrest.
    { apply bind_inv in Hrest as (? & ? & _ & ?). done. }
    apply bind_inv in Hrest as (refusal & w1 & Ha & Hrest).
    destruct refusal as [e |]; [by apply bind_inv in Hrest as (? & ? & _ & ?) |].
    split; [by eexists |]. split; [done |]. unfold refusal_of in Ha. case_bool_decide as Ho; [done |]. split; [done |].
    destruct policy as [p |]; [| done]. exists p, w1. split; [done |]. split; [| done].
    apply bind_inv in Ha as (r & w2 & Hat & Ha). unfold attempt in Hat.
    destruct (p ctx (contextTenant ctx) destination w) as [[[] | e | q] w3]; [| | done];
      apply pair_equal_spec in Hat as [[= <-] ->]; by apply pair_equal_spec in Ha as [[=] ->].
Qed.
Lemma postgres_projector_audited conn tx_of set_tx_of policy projector :
  (forall p, policy = Some p -> forall ctx origin destination, Confined data (p ctx origin destination)) ->
  pg_Projector hash t conn tx_of set_tx_of policy (Some trail) = Ok projector ->
  audited_projector trail data (PgTable.t_Name t) policy projector.
Proof.
  intros Hp. unfold pg_Projector. cbn. destruct (compile t) as [stmts | |]; [| done | done]. intros [= <-].
  split; cbn; intros; [eapply authorized_load | eapply authorized_save]; eauto using postgres_authorizes.
Qed.
End PostgresAudit.

(** C19: No access across tenants escapes the audit, in memory or over Postgres. A
    reader answers rows only to a caller that declared the reach and carries an
    execution context, after the trail confirmed a record for the tenant of each
    row. A projector reads or writes only for a destination that is there, is not
    the caller's tenant, was allowed by the policy and confirmed by the trail; a
    save that was not cleared so fails and leaves the data as it was. *)
Theorem cross_tenant_access_audited
  {Any Event X S S' W V : Type} `{Printable} `{MapOrder}
  (tm : Memory.Table Any S) (trail : AuditTrail (World Any Event X)) log `{!AuditLog trail log stored}
  opts id policy reader projector
  (Hpolicy : forall p, policy = Some p -> forall ctx origin destination, Confined stored (p ctx origin destination))
  (Hreader : Table_PlatformReader tm (Some trail) opts = Ok reader)
  (Hprojector : Table_Projector tm id policy (Some trail) = Ok projector)
  (hash : string -> Z) (tp : PgTable.Table S') (data : W -> V)
  (pool : forall A, prog A -> W -> A * W) (Query : page_request -> W -> page_answer * W)
  (conn : forall A, prog A -> W -> A * W) tx_of set_tx_of
  (trail' : AuditTrail W) log' `{!AuditLog trail' log' data} opts' policy' reader' projector'
  (Hpool : forall A (p : prog A) w, log' (pool A p w).2 = log' w) (Hquery : forall q w, log' (Query q w).2 = log' w)
  (Hpolicy' : forall p, policy' = Some p -> forall ctx origin destination, Confined data (p ctx origin destination))
  (Hreader' : pg_PlatformReader tp pool Query (Some trail') opts' = Ok reader')
  (Hprojector' : pg_Projector hash tp conn tx_of set_tx_of policy' (Some trail') = Ok projector') :
  audited_reader log (Memory.t_Name tm) reader /\ audited_projector trail stored (Memory.t_Name tm) policy projector /\
  audited_reader log' (PgTable.t_Name tp) reader' /\ audited_projector trail' data (PgTable.t_Name tp) policy' projector'.
Proof.
  split; [by eapply memory_reader_audited |]. split; [by eapply memory_projector_audited |].
  split; [by eapply postgres_reader_audited | by eapply postgres_projector_audited].
Qed.

(** * Concrete runs *)
Module PlatformFixture.
#[export] Instance prints : Printable := {| IsPrint := fun _ => true |}.
#[export] Existing Instance by_key.
Notation PW := (World string string (list AuditRecord)).

Definition orders : Memory.Table string string := Memory.mkTableDecl "orders" None [] (fun s => s) Some.
Definition with_log (l : list AuditRecord) (w : PW) : PW :=
  mkWorld (w_store w) (w_txs w) (w_next_tx w) (w_locked w) (w_pendings w) (w_next_pending w) (w_slots w) l.
Definition trail : AuditTrail PW := mkAuditTrail (fun _ r => modify (fun w => with_log (w_rest w ++ [r]) w)).
Definition db_rows : gmap rowKey (Memory.row string) :=
  list_to_map [(("t2", "o1"), mkRow "lamp" 1); (("t1", "o2"), mkRow "desk" 4); (("t1", "o1"), mkRow "book" 2)]%string.
Definition db : gmap string (Memory.table string) := {["orders" := Memory.mkTable db_rows None]}.
Definition start : PW := mkWorld (mkStore db ∅ [] ∅ 0 0 None) ∅ 0%nat false ∅ 0%nat emptySlots [].
Definition ctx : Ctx := WithPlatformReach (Fixture.Fixture.ctx "t0" "k") ReachAllTenants.
Definition reader : PlatformReader PW string :=
  mkPlatformReader (platformReader_LoadIn orders trail) (platformReader_List orders trail (page_max [2])).
Definition allow : ProjectionPolicy PW := fun _ _ destination =>
  if String.eqb destination "t2" then throw (Opaque "no") else mret ().

Definition PgW : Type := server * PgTable.Tx * list AuditRecord.
(** Statements one after the other; one that would wait fails. *)
Fixpoint serve {A} (t : nat) (p : prog A) (s : server) : A * server :=
  match p with
  | Ret a => (a, s)
  | Do st k =>
      match exec PgFixture.schema PgFixture.least false st s t with
      | Some (r, s') => serve t (k r) s'
      | None => serve t (k (inl (Foreign (Opaque "timeout")))) s
      end
  end.
Definition conn (A : Type) (p : prog A) (w : PgW) : A * PgW :=
  let '(a, s) := serve 1 p w.1.1 in (a, (s, w.1.2, w.2)).
(** The paging statement, over a collation that compares bytes. *)
Definition compare_ids : string * string -> string * string -> comparison :=
  pair_compare String_as_OT.compare String_as_OT.compare.
Definition page_query (q : page_request) (w : PgW) : page_answer * PgW :=
  let rows := (fun kr => (kr.1.2, kr.2)) <$> filter (fun kr => kr.1.1 = "rooms"%string) (map_to_list (sv_rows w.1.1)) in
  let later := filter (fun r => default Gt (compare_ids r.1 <$> pq_After q) = Gt) rows in
  (inr (take (Z.to_nat (pq_Limit q)) (SortStableFunc (fun a b => compare_ids a.1 b.1) later), None), w).
Definition pg_trail : AuditTrail PgW := mkAuditTrail (fun _ r => modify (fun w => (w.1, w.2 ++ [r]))).

Definition rooms : PgTable.Table string := PgFixture.rooms [PgFixture.taken_room] "".
Definition pg_db : PgW :=
  (mkServer {[("rooms", ("t1", "r1")) := mkTrow 1 {["room" := PgServer.Text "101"]};
              ("rooms", ("t2", "r1")) := mkTrow 3 {["room" := PgServer.Text "7"]}]}%string ∅ {[1%nat := new_session]},
   PgFixture.tx, []).
Definition pg_reader : PlatformReader PgW string :=
  match pg_PlatformReader rooms conn page_query (Some pg_trail) [] with
  | Ok r => r
  | _ => mkPlatformReader (fun _ _ _ => throw ErrNotFound) (fun _ _ _ => throw ErrNotFound)
  end.
Definition pg_allow : ProjectionPolicy PgW := fun _ _ destination =>
  if String.eqb destination "t2" then throw (Opaque "no") else mret ().
Definition set_tx_of (tx : PgTable.Tx) (w : PgW) : PgW := (w.1.1, tx, w.2).
Definition pg_projector : Projector PgW string :=
  match pg_Projector PgFixture.hash rooms conn (fun w => w.1.2) set_tx_of (Some pg_allow) (Some pg_trail) with
  | Ok p => p
  | _ => mkProjector (fun _ _ _ => throw ErrNotFound) (fun _ _ _ _ _ => throw ErrNotFound)
  end.
Definition projector : Projector PW string :=
  mkProjector (txProjector_Load 0%nat orders (Some allow) trail) (txProjector_Save 0%nat orders (Some allow) trail).

#[export] Instance trail_log : AuditLog trail w_rest stored.
Proof.
  split; [by intros ctx r w res w' [_ <-]%pair_equal_spec | |]; intros ctx r w;
    [intros res w' [_ <-]%pair_equal_spec; by exists [r] | by intros w' [_ <-]%pair_equal_spec].
Defined.
#[export] Instance trail_tables : AuditLog trail w_rest tables.
Proof.
  split; [by intros ctx r w res w' [_ <-]%pair_equal_spec | |]; intros ctx r w;
    [intros res w' [_ <-]%pair_equal_spec; by exists [r] | by intros w' [_ <-]%pair_equal_spec].
Defined.
#[export] Instance trail_confirms : Confirms trail.
Proof. intros ctx r w. by eexists. Defined.
#[export] Instance pg_trail_log : AuditLog pg_trail snd fst.
Proof.
  split; [by intros ctx r w res w' [_ <-]%pair_equal_spec | |]; intros ctx r w;
    [intros res w' [_ <-]%pair_equal_spec; by exists [r] | by intros w' [_ <-]%pair_equal_spec].
Defined.
Lemma rows_well_formed : wellFormed orders db_rows.
Proof.
  split; [by intros key [s v] _; exists s |]. intros key key'.
  rewrite <- !(elem_of_dom (M := gmap rowKey)).
  assert (dom db_rows = {[("t2", "o1"); ("t1", "o2"); ("t1", "o1")]}%string :> gset rowKey) as -> by (vm_compute; reflexivity).
  rewrite !elem_of_union, !elem_of_singleton. by intros [[-> | ->] | ->] [[-> | ->] | ->].
Qed.
End PlatformFixture.
Import PlatformFixture.

Lemma walk_sees_every_row_witness :
  (exists w', walk reader ctx 4 None 2 start = (Ok [mkPlatformRow "t1" "o1" "book" 2; mkPlatformRow "t1" "o2" "desk" 4;
     mkPlatformRow "t2" "o1" "lamp" 1]%string, w') /\ len (w_rest w') = 2) /\
  exists seen w', walk reader ctx (Datatypes.S (size db_rows)) None 2 start = (Ok seen, w') /\
    tables w' = tables start /\ NoDup (map row_key seen) /\
    (forall r, r ∈ seen <-> exists rec s, db_rows !! row_key r = Some rec /\
       Memory.t_unbox orders (row_snapshot rec) = Some s /\ pr_State r = table_copy orders s /\ pr_Version r = row_version rec) /\
    (forall r, r ∈ seen -> access_of orders ctx r ∈ w_rest w').
Proof.
  split.
  - eexists. split; [vm_compute; reflexivity | vm_compute; reflexivity].
  - apply (walk_sees_every_row orders trail w_rest ctx [2] reader (Memory.mkTable db_rows None) 2 start).
    + reflexivity.
    + split; [reflexivity | eexists; reflexivity].
    + vm_compute. reflexivity.
    + exact rows_well_formed.
    + vm_compute. split; [reflexivity | discriminate].
Defined.

(** A page of a table over Postgres, and a projection into a tenant the policy
    refuses, which fails with its record. *)
Example platform_runs :
  (pr_List pg_reader ctx None 10 pg_db).1 = Ok [mkPlatformRow "t1" "r1" "101" 1; mkPlatformRow "t2" "r1" "7" 3]%string /\
  (pr_List pg_reader (Fixture.Fixture.ctx "t0" "k") None 10 pg_db).1 = Err (Wrap "postgres" ErrPlatformReachUndeclared) /\
  (pj_Save pg_projector ctx "t1" "r2" "102" 0 pg_db).1 = Ok () /\
  len (pj_Save pg_projector ctx "t2" "r2" "102" 0 pg_db).2.2 = 1 /\
  is_Ok (pj_Save pg_projector ctx "t2" "r2" "102" 0 pg_db).1 = false.
Proof. split_and!; vm_compute; reflexivity. Qed.

Lemma cross_tenant_access_audited_witness :
  audited_reader w_rest "orders" reader /\ audited_projector trail stored "orders" (Some allow) projector /\
  audited_reader snd "rooms" pg_reader /\ audited_projector pg_trail fst "rooms" (Some pg_allow) pg_projector.
Proof.
  refine (cross_tenant_access_audited orders trail w_rest [2] 0%nat (Some allow) reader projector _ _ _
    PgFixture.hash rooms fst conn page_query conn (fun w => w.1.2) set_tx_of pg_trail snd [] (Some pg_allow) pg_reader pg_projector
    _ _ _ _ _).
  - intros p [= <-] c origin destination w r w'. unfold allow. by destruct (String.eqb destination "t2"); intros [_ <-]%pair_equal_spec.
  - reflexivity.
  - reflexivity.
  - intros A p w. unfold conn. by destruct (serve 1 p w.1.1).
  - reflexivity.
  - intros p [= <-] c origin destination w r w'. unfold pg_allow. by destruct (String.eqb destination "t2"); intros [_ <-]%pair_equal_spec.
  - reflexivity.
  - reflexivity.
Defined.
