(* ===== verification/Loops.v ===== *)
(** The loops a service runs beside its consumers ([app/sweep.go], [app/purge.go])
    and the declarations they run under ([app/external_budget.go],
    [app/policies.go], [app/idempotency.go]).

    A loop has no end of its own, so it is given how many rounds, and how many
    pages in a round, it may run; it answers [None] while it would go on.  The
    wait between rounds is the environment's: its timer fires, or the context is
    done. *)

From stdpp Require Import sorting.
From S2P Require Import Prelude GoTime DomainKernel Errors Ports Interfaces OutboundKey Outbox PgServer PgTable PgLedger Memory Ledger Application Deadline Dispatch LedgerTheorems.

(** * Declarations *)
Definition ErrInvalidExternalBudget : error := Sentinel "app.ErrInvalidExternalBudget".
Definition MinExternalMargin : Z := 1000000000.
Record ExternalBudget := mkExternalBudget {
  eb_Route : Deadline.Budget; eb_Settle : Z; eb_Processing : Z; eb_Margin : Z
}.
Definition ExternalBudget_Validate (b : ExternalBudget) : result error unit :=
  let limit := hb_Limit (eb_Route b) in
  if limit <=? 0 then Err (Wrap "route limit" ErrInvalidExternalBudget)
  else if eb_Settle b <=? 0 then Err (Wrap "settle" ErrInvalidExternalBudget)
  else if eb_Processing b <=? 0 then Err (Wrap "processing" ErrInvalidExternalBudget)
  else if eb_Margin b <? MinExternalMargin then Err (Wrap "margin" ErrInvalidExternalBudget)
  else if (eb_Processing b <=? limit) || (eb_Processing b -! limit <=? eb_Settle b)
  then Err (Wrap "does not fit processing" ErrInvalidExternalBudget)
  else if max_int64 -! limit -! eb_Settle b <? eb_Margin b then Err (Wrap "stale cut overflows" ErrInvalidExternalBudget)
  else Ok ().
Definition StaleAfter (b : ExternalBudget) : Z :=
  let limit := hb_Limit (eb_Route b) in
  if max_int64 -! limit -! eb_Settle b <? eb_Margin b then max_int64
  else limit +! eb_Settle b +! eb_Margin b.

(** A budget that validates leaves no dispatch to the sweep while it may still
    run: the cut is past the route's limit, the settling and a second. *)
Lemma StaleAfter_covers b : in_int64 (hb_Limit (eb_Route b)) -> in_int64 (eb_Settle b) -> in_int64 (eb_Processing b) ->
  in_int64 (eb_Margin b) -> ExternalBudget_Validate b = Ok () ->
  StaleAfter b = hb_Limit (eb_Route b) + eb_Settle b + eb_Margin b /\
  hb_Limit (eb_Route b) + eb_Settle b + MinExternalMargin <= StaleAfter b /\
  hb_Limit (eb_Route b) + eb_Settle b < eb_Processing b.
Proof.
  intros Hl Hs Hp Hm. unfold ExternalBudget_Validate, StaleAfter. cbv zeta.
  set (l := hb_Limit (eb_Route b)) in *. generalize dependent (eb_Margin b). generalize dependent (eb_Settle b).
  generalize dependent (eb_Processing b). generalize dependent l. intros l Hl p Hp s Hs m Hm.
  destruct (Z.leb_spec l 0); [done |]. destruct (Z.leb_spec s 0); [done |]. destruct (Z.leb_spec p 0); [done |].
  destruct (Z.ltb_spec m MinExternalMargin); [done |].
  assert (max_int64 -! l = max_int64 - l) as -> by (apply wrap64_id; solve_int64).
  destruct (Z.leb_spec p l); [done |]. assert (p -! l = p - l) as -> by (apply wrap64_id; solve_int64).
  destruct (Z.leb_spec (p - l) s); [done |]. cbn [orb].
  assert (max_int64 - l -! s = max_int64 - l - s) as -> by (apply wrap64_id; solve_int64).
  destruct (Z.ltb_spec (max_int64 - l - s) m); [done |]. intros _.
  assert (l +! s = l + s) as -> by (apply wrap64_id; solve_int64).
  assert (l + s +! m = l + s + m) as -> by (apply wrap64_id; solve_int64). unfold MinExternalMargin in *. lia.
Qed.

Record Policies := mkPolicies {
  po_IdempotencyWait : Z; po_IdempotencyRetention : Z; po_OutboxRetention : Z; po_InboxRetention : Z;
  po_PurgeInterval : Z; po_PurgeBatch : Z
}.
Definition Policies_Validate (p : Policies) (consumes : bool) (invalid : error) : result error unit :=
  let durations :=
    [("IdempotencyWait", po_IdempotencyWait p); ("IdempotencyRetention", po_IdempotencyRetention p);
     ("OutboxRetention", po_OutboxRetention p)]%string
    ++ (if consumes then [("InboxRetention"%string, po_InboxRetention p)] else [])
    ++ [("PurgeInterval"%string, po_PurgeInterval p)] in
  match find (fun d => d.2 <=? 0) durations with
  | Some d => Err (Wrap d.1 invalid)
  | None => if po_PurgeBatch p <=? 0 then Err (Wrap "PurgeBatch" invalid) else Ok ()
  end.

Definition ErrInvalidIdempotencyPolicy : error := Sentinel "app.ErrInvalidIdempotencyPolicy".
Definition idempotencyPolicy (sha256 : bytes -> Digest) (wait retention : Z) : result error IdempotencyPolicy :=
  if (wait <=? 0) || (retention <=? 0) then Err (Wrap "policy" ErrInvalidIdempotencyPolicy)
  else Ok (mkIdempotencyPolicy wait retention (Some sha256)).

(** * Loops *)
Definition ErrInvalidSweepConfig : error := Sentinel "app.ErrInvalidSweepConfig".
Definition ErrSweepPanicked : error := Sentinel "app.ErrSweepPanicked".
Definition ErrInvalidPurgeConfig : error := Sentinel "app.ErrInvalidPurgeConfig".
Definition ErrPurgePanicked : error := Sentinel "app.ErrPurgePanicked".
Record SweepConfig := mkSweepConfig { sc_Interval : Z; sc_Batch : Z; sc_StaleAfter : Z }.
Record PurgeConfig := mkPurgeConfig {
  pc_Name : string; pc_Table : string; pc_Interval : Z; pc_Batch : Z; pc_Retention : Z
}.
(** [given]: the clock, the logger and the function are not nil. *)
Definition validateSweep (c : SweepConfig) (given : bool) : result error unit :=
  if sc_Interval c <=? 0 then Err (Wrap "interval" ErrInvalidSweepConfig)
  else if sc_Batch c <=? 0 then Err (Wrap "batch" ErrInvalidSweepConfig)
  else if sc_StaleAfter c <=? 0 then Err (Wrap "stale after" ErrInvalidSweepConfig)
  else if given then Ok () else Err (Wrap "needs a clock, a logger and a sweep function" ErrInvalidSweepConfig).
Definition validatePurge (c : PurgeConfig) (given : bool) : result error unit :=
  if String.eqb (pc_Name c) "" then Err (Wrap "name empty" ErrInvalidPurgeConfig)
  else if pc_Interval c <=? 0 then Err (Wrap "interval" ErrInvalidPurgeConfig)
  else if pc_Batch c <=? 0 then Err (Wrap "batch" ErrInvalidPurgeConfig)
  else if pc_Retention c <? 0 then Err (Wrap "retention" ErrInvalidPurgeConfig)
  else if given then Ok () else Err (Wrap "needs a clock, a logger and a purge function" ErrInvalidPurgeConfig).

Section Loops.
Context {W : Type}.
(** [ctx.Err()], the clock the process reads, and the wait: whether the timer
    fired. *)
Context (cancelled : W -> option error) (clock : Clock W) (wait : Z -> W -> bool * W).

(** A loop that stops when it has nothing to wait for, or when it panics. *)
Definition ended (panicked : error) (m : M W error bool) (w : W) : option (option error) * W :=
  match m w with
  | (Ok true, w') => (Some None, w')
  | (Ok false, w') => (None, w')
  | (Err e, w') => (Some (Some e), w')
  | (Panic _, w') => (Some (Some panicked), w')
  end.

(** ** Sweep *)
Definition SweepFunc : Type := Ctx -> Instant -> AttemptCursor -> Z -> M W error (SweepPage * option error).
Fixpoint sweepCycle (pages : nat) (ctx : Ctx) (cfg : SweepConfig) (cutoff : Instant) (fn : SweepFunc)
    (after : AttemptCursor) : M W error bool :=
  match pages with
  | O => mret false
  | Datatypes.S pages' =>
      answered ← fn ctx cutoff after (sc_Batch cfg);
      stop ← gets cancelled;
      let page := answered.1 in
      if (pg_Seen page <? sc_Batch cfg) || bool_decide (pg_Next page = after) || bool_decide (is_Some stop)
      then mret true
      else sweepCycle pages' ctx cfg cutoff fn (pg_Next page)
  end.
Fixpoint sweep_rounds (rounds pages : nat) (ctx : Ctx) (cfg : SweepConfig) (fn : SweepFunc) (delay : Z)
    : M W error bool :=
  match rounds with
  | O => mret false
  | Datatypes.S rounds' =>
      fires ← run (wait delay);
      if negb fires then mret true
      else
        now ← run (Now clock);
        done_ ← sweepCycle pages ctx cfg (now -! sc_StaleAfter cfg) fn zeroCursor;
        if done_ : bool then sweep_rounds rounds' pages ctx cfg fn (sc_Interval cfg) else mret false
  end.
Definition RunSweep (rounds pages : nat) (ctx : Ctx) (cfg : SweepConfig) (fn : option SweepFunc) (w : W)
    : option (option error) * W :=
  match validateSweep cfg (bool_decide (is_Some fn)), fn with
  | Ok _, Some fn => ended ErrSweepPanicked (sweep_rounds rounds pages ctx cfg fn 0) w
  | Err e, _ => (Some (Some e), w)
  | _, _ => (Some (Some ErrInvalidSweepConfig), w)
  end.

(** ** Purge *)
Definition PurgeFunc : Type := Ctx -> Instant -> Z -> M W error Z.
Fixpoint purge_cycle (batches : nat) (ctx : Ctx) (cfg : PurgeConfig) (fn : PurgeFunc) : M W error bool :=
  match batches with
  | O => mret false
  | Datatypes.S batches' =>
      now ← run (Now clock);
      removed ← attempt (fn ctx (now -! pc_Retention cfg) (pc_Batch cfg));
      match removed with
      | Ok removed =>
          stop ← gets cancelled;
          if (removed <? pc_Batch cfg) || bool_decide (is_Some stop) then mret true
          else purge_cycle batches' ctx cfg fn
      | Err _ => mret true
      | Panic p => panic p
      end
  end.
Fixpoint purge_rounds (rounds batches : nat) (ctx : Ctx) (cfg : PurgeConfig) (fn : PurgeFunc) (delay : Z)
    : M W error bool :=
  match rounds with
  | O => mret false
  | Datatypes.S rounds' =>
      fires ← run (wait delay);
      if negb fires then mret true
      else
        done_ ← purge_cycle batches ctx cfg fn;
        if done_ : bool then purge_rounds rounds' batches ctx cfg fn (pc_Interval cfg) else mret false
  end.
Definition RunPurge (rounds batches : nat) (ctx : Ctx) (cfg : PurgeConfig) (fn : option PurgeFunc) (w : W)
    : option (option error) * W :=
  match validatePurge cfg (bool_decide (is_Some fn)), fn with
  | Ok _, Some fn => ended ErrPurgePanicked (purge_rounds rounds batches ctx cfg fn 0) w
  | Err e, _ => (Some (Some e), w)
  | _, _ => (Some (Some ErrInvalidPurgeConfig), w)
  end.

(** [StartPurge]: the goroutine it starts, which passes the error that ends the
    loop to [abort]; [stop] answers the same error once the loop has ended. *)
Definition StartPurge (rounds batches : nat) (ctx : Ctx) (cfg : PurgeConfig) (fn : option PurgeFunc) (abort_given : bool)
    : result error (W -> (option (option error) * list error) * W) :=
  match validatePurge cfg (bool_decide (is_Some fn)) with
  | Ok _ =>
      if negb abort_given then Err (Wrap "needs an abort function" ErrInvalidPurgeConfig)
      else Ok (fun w =>
        let '(ended, w') := RunPurge rounds batches ctx cfg fn w in
        ((ended, match ended with Some (Some e) => [e] | _ => [] end), w'))
  | Err e => Err e
  | Panic p => Panic p
  end.

(** * The external sweep *)
(** What closing an attempt reads around it: the wall clock of
    [context.WithTimeout], a random identifier, and the trace of its span with
    what the propagator writes of it. *)
Record Surroundings := mkSurroundings {
  su_Wall : W -> Instant * W; su_ID : W -> string * W;
  su_Trace : Ctx -> W -> (string * (string * string)) * W
}.
Record ExternalSweep := mkExternalSweep {
  es_Store : option (AttemptLedger W);
  es_Abandon : option (Ctx -> Attempt -> M W error Finished);
  es_Timeout : Z; es_Locale : string
}.
Context (around : Surroundings).

Definition with_timeout (ctx : Ctx) (timeout : Z) : M W error Ctx :=
  now ← run (su_Wall around);
  let mine := now +! timeout in
  let deadline := match ctx_Deadline ctx with None => mine | Some d => Z.min d mine end in
  mret (mkCtx (ctx_Err ctx) (Some deadline) (ctx_execution ctx) (ctx_key ctx) (ctx_message ctx)
     (ctx_reach ctx) (ctx_idempotency_slot ctx) (ctx_class_slot ctx) (ctx_conflict_slot ctx) (ctx_saturation_slot ctx)).
Definition mount (s : ExternalSweep) (ctx : Ctx) (a : Attempt) (trace : string * (string * string)) : M W error Ctx :=
  request ← run (su_ID around);
  correlation ← run (su_ID around);
  execution ← lift (NewExecutionContext {|
    spec_RequestID := request;
    spec_CorrelationID := correlation;
    spec_CausationID := Some (att_MessageID a);
    spec_TraceContext := trace.1;
    spec_Subject := None;
    spec_Tenant := if String.eqb (att_Tenant a) "" then None else Some (att_Tenant a);
    spec_Permissions := None;
    spec_Deadline := default 0 (ctx_Deadline ctx);
    spec_Locale := es_Locale s |});
  mret (WithExecutionContext
          (WithMessageContext ctx (mkMessageContext correlation (att_MessageID a) trace.2.1 trace.2.2)) execution).
Definition sweep_close (s : ExternalSweep) (abandon : Ctx -> Attempt -> M W error Finished) (ctx : Ctx) (a : Attempt)
    : M W error unit :=
  trace ← run (su_Trace around ctx);
  ctx ← with_timeout ctx (es_Timeout s);
  mounted ← map_err (Wrap "app: sweep attempt") (mount s ctx a trace);
  _ ← map_err (Wrap "app: sweep attempt") (abandon mounted a);
  mret ().
Definition SweepExternalAttempts (s : ExternalSweep) : result error SweepFunc :=
  match es_Store s, es_Abandon s with
  | Some store, Some abandon =>
      if (es_Timeout s <=? 0) || String.eqb (es_Locale s) ""
      then Err (Wrap "the external sweep" ErrInvalidSweepConfig)
      else Ok (fun ctx cutoff after batch => SweepStale ctx cancelled store cutoff after batch (sweep_close s abandon ctx))
  | _, _ => Err (Wrap "the external sweep" ErrInvalidSweepConfig)
  end.
End Loops.

(** * What a purge loop purges *)
Definition PurgeOutbox (answer : Answer) (pick : list Z -> list Z) : PurgeFunc (W := OutboxTable) :=
  fun _ cutoff batch => PurgePublished answer pick cutoff batch.
Definition removed_of {R T} (count : R -> Z) (purged : result error R * T) : result error Z * T :=
  (match purged.1 with Ok r => Ok (count r) | Err e => Err e | Panic p => Panic p end, purged.2).
Definition PurgeCommandInbox (consumer : string) (answer : option error) (picked : list ikey) : PurgeFunc (W := server) :=
  fun _ cutoff batch s => removed_of ip_Removed (PurgeExpiredInbox consumer cutoff batch answer picked s).
Definition PurgeMessageInbox (consumer : string) (answer : option error) (picked : list ikey) : PurgeFunc (W := server) :=
  fun _ cutoff batch s => removed_of ip_Removed (PurgeInbox consumer cutoff batch answer picked s).
Definition PurgeExternalAttempts (picked : list pgKey) : PurgeFunc (W := pgTable) :=
  fun _ cutoff batch tbl => removed_of pur_Count (PurgeAttempts tbl cutoff batch picked).

(** * The stale attempts of a changing ledger *)
(** Two ledgers with the same stale attempts after a cursor list them alike. *)
Lemma stale_attempts_same m m' cutoff after :
  (forall b, is_stale m' cutoff after b <-> is_stale m cutoff after b) ->
  stale_attempts m' cutoff after = stale_attempts m cutoff after.
Proof.
  intros Hsame. apply (StronglySorted_unique_strong attempt_lt).
  - intros x y _ _ H1 H2. by destruct (attempt_lt_irrefl x y).
  - apply stale_attempts_sorted.
  - apply stale_attempts_sorted.
  - apply NoDup_Permutation; [apply stale_attempts_NoDup | apply stale_attempts_NoDup |].
    intros b. by rewrite !stale_attempts_elem.
Qed.
Lemma is_stale_from m cutoff after b :
  is_stale m cutoff after b <->
  is_stale m cutoff zeroCursor b /\ (after = zeroCursor \/ compareCursor (Cursor b) after = Gt).
Proof.
  split.
  - intros (scope & rows & i & r & H1 & H2 & H3 & H4 & H5 & H6). split; [| done].
    exists scope, rows, i, r. repeat split; try done. by left.
  - intros [(scope & rows & i & r & H1 & H2 & H3 & H4 & H5 & _) H6]. exists scope, rows, i, r. by repeat split.
Qed.

Section Sweeping.
Context {Any Event X : Type}.
Notation W := (World Any Event X).
Definition ledger_of (w : W) := st_attempts (w_store w).
(** No transaction is open, and the next commit is not made to fail. *)
Definition ready (w : W) : Prop := w_locked w = false /\ st_failNextCommit (w_store w) = None.

Lemma AttemptStore_Stale ctx cutoff after batch w : ctx_Err ctx = None -> ready w -> 1 <= batch ->
  exists w', ledger_Stale NewAttemptStore ctx cutoff after batch w =
      (Ok (take (Z.to_nat batch) (stale_attempts (ledger_of w) cutoff after)), w') /\
    ledger_of w' = ledger_of w /\ ready w' /\ w_rest w' = w_rest w.
Proof.
  intros Hctx [Hl Hf] Hb. cbn. unfold memory_Within. rewrite Hctx, Hl. unfold tx_open at 1.
  set (tx := Memory.mkTx _ _ _ _ _). set (w1 := mkWorld _ _ _ _ _ _ _ _).
  assert (w_txs w1 !! w_next_tx w = Some tx) as Htx by apply lookup_insert_eq.
  change (tx_Stale (w_next_tx w) ctx cutoff after batch w1)
    with (ledger_Stale (txAttemptLedger (w_next_tx w)) ctx cutoff after batch w1).
  rewrite (tx_Stale_page _ ctx cutoff after batch w1 tx Htx Hb).
  unfold tx_commit. change (st_failNextCommit (w_store w1)) with (st_failNextCommit (w_store w)). rewrite Hf, Htx.
  eexists. split; [done |]. by split_and!.
Qed.

Context (cancelled : W -> option error) (around : Surroundings (W := W)) (calls : X -> list Attempt).
Context (abandon : Ctx -> Attempt -> M W error Finished) (timeout : Z) (locale_ : string) (cutoff : Instant).
Notation sweep := (mkExternalSweep (Some NewAttemptStore) (Some abandon) timeout locale_).

(** What surrounds a close leaves the store and the calls made so far alone, and
    it has an identifier, a trace and a wall clock in Go's range to give. *)
Definition undisturbed (w w' : W) : Prop := w_store w' = w_store w /\ w_locked w' = w_locked w /\ calls (w_rest w') = calls (w_rest w).
Record sound_surroundings : Prop := {
  sound_wall w : undisturbed w (su_Wall around w).2 /\ 0 < (su_Wall around w).1 +! timeout;
  sound_id w : undisturbed w (su_ID around w).2 /\ (su_ID around w).1 <> ""%string;
  sound_trace ctx w : undisturbed w (su_Trace around ctx w).2 /\ (su_Trace around ctx w).1.1 <> ""%string
}.
(** An abandon is recorded, ends well or not, and changes no other attempt. *)
Definition abandons_one : Prop := forall ctx a w, ready w -> exists r w', abandon ctx a w = (r, w') /\
  (forall p, r <> Panic p) /\ ready w' /\ calls (w_rest w') = calls (w_rest w) ++ [a] /\
  (forall b, b <> a -> is_stale (ledger_of w') cutoff zeroCursor b <-> is_stale (ledger_of w) cutoff zeroCursor b).

Context (Haround : sound_surroundings) (Habandon : abandons_one) (Hlocale : locale_ <> ""%string).

Instance undisturbed_preorder : PreOrder undisturbed.
Proof. split; [by intros w | intros a b c (A1 & A2 & A3) (B1 & B2 & B3); split_and!; congruence]. Qed.
Lemma ready_undisturbed w w' : undisturbed w w' -> ready w -> ready w' /\ ledger_of w' = ledger_of w.
Proof. intros (A1 & A2 & A3) [B1 B2]. unfold ready, ledger_of. by rewrite A1, A2. Qed.

Lemma mount_reaches ctx a trace w : ctx_Deadline ctx = None -> att_MessageID a <> ""%string -> trace.1 <> ""%string ->
  exists ctx' w1, with_timeout around ctx timeout w = (Ok ctx', w1) /\ undisturbed w w1 /\
  exists mounted w2, mount around sweep ctx' a trace w1 = (Ok mounted, w2) /\ undisturbed w1 w2.
Proof.
  intros Hd Hm Ht. destruct (sound_wall Haround w) as [Hw Hpos]. unfold with_timeout, mbind, M_bind, run.
  destruct (su_Wall around w) as [now w1]. rewrite Hd. do 2 eexists. split; [done |]. split; [done |].
  unfold mount, mbind, M_bind, run. destruct (sound_id Haround w1) as [Hi1 Hne1]. destruct (su_ID around w1) as [request w2].
  destruct (sound_id Haround w2) as [Hi2 Hne2]. destruct (su_ID around w2) as [correlation w3]. cbn in *.
  unfold lift. unfold NewExecutionContext. cbn [spec_RequestID spec_CorrelationID spec_CausationID spec_TraceContext spec_Subject
    spec_Tenant spec_Permissions spec_Deadline spec_Locale es_Locale ctx_Deadline default present_empty].
  rewrite (proj2 (String.eqb_neq request "") Hne1), (proj2 (String.eqb_neq correlation "") Hne2),
    (proj2 (String.eqb_neq trace.1 "") Ht), (proj2 (String.eqb_neq locale_ "") Hlocale), (proj2 (String.eqb_neq (att_MessageID a) "") Hm).
  apply Z.leb_gt in Hpos.
  destruct (String.eqb (att_Tenant a) "") eqn:Et; cbn; rewrite ?Et, Hpos; cbn.
  all: do 2 eexists; (split; [done |]); by etrans.
Qed.
Lemma close_once ctx a w : ctx_Deadline ctx = None -> att_MessageID a <> ""%string -> ready w ->
  exists r w', sweep_close around sweep abandon ctx a w = (r, w') /\ (forall p, r <> Panic p) /\ ready w' /\
    calls (w_rest w') = calls (w_rest w) ++ [a] /\
    (forall b, b <> a -> is_stale (ledger_of w') cutoff zeroCursor b <-> is_stale (ledger_of w) cutoff zeroCursor b).
Proof.
  intros Hd Hm Hr. destruct (sound_trace Haround ctx w) as [Hw1 Ht]. unfold sweep_close.
  destruct (su_Trace around ctx w) as [trace w1] eqn:Etrace. cbn in Hw1, Ht.
  rewrite (bind_Ok (run (su_Trace around ctx)) _ w trace w1) by (unfold run; by rewrite Etrace).
  destruct (mount_reaches ctx a trace w1 Hd Hm Ht) as (ctx' & w2 & Ht2 & Hw2 & mounted & w3 & Hm3 & Hw3).
  cbn [es_Timeout]. rewrite (bind_Ok _ _ _ _ _ Ht2).
  rewrite (bind_Ok (map_err _ (mount around sweep ctx' a trace)) _ w2 mounted w3) by (unfold map_err; by rewrite Hm3).
  assert (undisturbed w w3) as Hw by (etrans; [exact Hw1 |]; by etrans).
  destruct (ready_undisturbed w w3 Hw Hr) as [Hr3 Hl3].
  destruct (Habandon mounted a w3 Hr3) as (r & w' & Ha & Hp & Hr' & Hc & Hb).
  assert (calls (w_rest w') = calls (w_rest w) ++ [a]) as Hcalls by (rewrite Hc; by destruct Hw as (_ & _ & ->)).
  unfold mbind, M_bind, map_err. rewrite Ha, <- Hl3.
  destruct r as [f | e | p]; [exists (Ok ()), w' | exists (Err (Wrap "app: sweep attempt" e)), w' | by destruct (Hp p)]; by split_and!.
Qed.

Context (Hlive : forall w, cancelled w = None).
(** What a page leaves of the ledger: the attempts it did not hold. *)
Definition keeps_others (page : list Attempt) (w w' : W) : Prop :=
  forall b, b ∉ page -> is_stale (ledger_of w') cutoff zeroCursor b <-> is_stale (ledger_of w) cutoff zeroCursor b.
Lemma page_closed ctx todo page failures w : ctx_Deadline ctx = None -> Forall (fun a => att_MessageID a <> ""%string) todo ->
  ready w -> exists failures' swept w', sweep_loop cancelled (sweep_close around sweep abandon ctx) todo page failures w =
      (Ok (mkSweepPage (pg_Seen page + len todo) swept (default (pg_Next page) (Cursor <$> last todo)), failures'), w') /\
    ready w' /\ calls (w_rest w') = calls (w_rest w) ++ todo /\ keeps_others todo w w'.
Proof.
  intros Hd. revert page failures w. induction todo as [| a todo IH]; intros page failures w Hall Hr.
  { exists failures, (pg_Swept page), w. cbn [sweep_loop]. change (len (@nil Attempt)) with 0. rewrite Z.add_0_r, app_nil_r.
    split_and!; [by destruct page | done | done | by intros b]. }
  apply Forall_cons in Hall as [Ha Hall]. destruct (close_once ctx a w Hd Ha Hr) as (r & w1 & Hc & Hp & Hr1 & Hc1 & Hb1).
  cbn [sweep_loop]. rewrite (bind_Ok (gets cancelled) _ w (cancelled w) w) by done. rewrite (Hlive w).
  set (seen := match r with Ok _ => pg_Swept page + 1 | _ => pg_Swept page end).
  set (failures1 := match r with Err e => failures ++ [e] | _ => failures end).
  destruct (IH (mkSweepPage (pg_Seen page + 1) seen (Cursor a)) failures1 w1 Hall Hr1)
    as (failures2 & swept & w2 & Hloop & Hr2 & Hc2 & Hb2).
  exists failures2, swept, w2. split.
  - rewrite (bind_Ok (attempt (sweep_close around sweep abandon ctx a)) _ w r w1) by
      (unfold attempt; rewrite Hc; destruct r as [| | p]; [done | done | by destruct (Hp p)]).
    assert (len (a :: todo) = 1 + len todo) as -> by (unfold len; cbn [length]; lia). rewrite Z.add_assoc.
    replace (default (pg_Next page) (Cursor <$> last (a :: todo))) with (default (Cursor a) (Cursor <$> last todo))
      by (rewrite last_cons; by destruct (last todo)).
    destruct r as [[] | e | p]; [exact Hloop | exact Hloop | by destruct (Hp p)].
  - split_and!; [done | by rewrite Hc2, Hc1, <- app_assoc |].
    intros b [Hne Hnot]%not_elem_of_cons. by rewrite (Hb2 b Hnot), (Hb1 b Hne).
Qed.

(** A page of the sweep, over the ledger in memory. *)
Lemma page_swept ctx after batch w : ctx_Err ctx = None -> ctx_Deadline ctx = None -> ready w -> 1 <= batch ->
  (forall b, is_stale (ledger_of w) cutoff zeroCursor b -> att_MessageID b <> ""%string) ->
  let page := take (Z.to_nat batch) (stale_attempts (ledger_of w) cutoff after) in
  exists swept err w', SweepStale ctx cancelled NewAttemptStore cutoff after batch (sweep_close around sweep abandon ctx) w =
      (Ok (mkSweepPage (len page) swept (default after (Cursor <$> last page)), err), w') /\
    ready w' /\ calls (w_rest w') = calls (w_rest w) ++ page /\ keeps_others page w w'.
Proof.
  intros Hctx Hd Hr Hb Hm page. destruct (AttemptStore_Stale ctx cutoff after batch w Hctx Hr Hb) as (w1 & Hs & Hl & Hr1 & Hc).
  fold page in Hs. assert (Forall (fun a => att_MessageID a <> ""%string) page) as Hall.
  { apply Forall_forall. intros a Ha. apply Hm. assert (a ∈ stale_attempts (ledger_of w) cutoff after) as Hin.
    { unfold page in Ha. rewrite <- (take_drop (Z.to_nat batch) (stale_attempts _ _ _)). apply elem_of_app. by left. }
    apply stale_attempts_elem, is_stale_from in Hin. by destruct Hin. }
  destruct (page_closed ctx page (mkSweepPage 0 0 after) [] w1 Hd Hall Hr1) as (failures & swept & w2 & Hloop & Hr2 & Hc2 & Hk).
  unfold SweepStale. rewrite (bind_Ok (attempt _) _ w (Ok page) w1) by (unfold attempt; by rewrite Hs).
  cbn [pg_Seen pg_Next] in Hloop. rewrite Z.add_0_l in Hloop. rewrite (bind_Ok _ _ _ _ _ Hloop).
  do 3 eexists. split; [done |]. split; [done |]. split; [by rewrite Hc2, Hc |].
  intros b Hb'. rewrite (Hk b Hb'). by rewrite Hl.
Qed.
Lemma not_behind page (a b : Attempt) : StronglySorted attempt_lt page -> last page = Some a -> b ∈ page ->
  compareCursor (Cursor b) (Cursor a) = Gt -> False.
Proof.
  intros Hs [l ->]%last_Some Hb Hgt. apply elem_of_app in Hb as [Hb | ->%list_elem_of_singleton].
  - pose proof (StronglySorted_app_lt _ _ b a Hs Hb ltac:(by left)) as Hlt. unfold attempt_lt in Hlt. congruence.
  - pose proof (compareCursor_opp (Cursor a) (Cursor a)). destruct (compareCursor (Cursor a) (Cursor a)); done.
Qed.

Lemma cycle_from cfg fn ctx pages after w : SweepExternalAttempts cancelled around sweep = Ok fn ->
  ctx_Err ctx = None -> ctx_Deadline ctx = None -> ready w -> 1 <= sc_Batch cfg ->
  (forall b, is_stale (ledger_of w) cutoff zeroCursor b -> att_MessageID b <> ""%string) ->
  (length (stale_attempts (ledger_of w) cutoff after) < pages)%nat ->
  exists w', sweepCycle cancelled pages ctx cfg cutoff fn after w = (Ok true, w') /\
    calls (w_rest w') = calls (w_rest w) ++ stale_attempts (ledger_of w) cutoff after.
Proof.
  intros Hfn Hctx Hd Hr Hb Hm. unfold SweepExternalAttempts in Hfn. cbn in Hfn.
  destruct (_ || _); [done |]. injection Hfn as <-.
  revert after w Hr Hm. induction pages as [| pages IH]; intros after w Hr Hm Hlen; [lia |].
  set (all := stale_attempts (ledger_of w) cutoff after) in *.
  destruct (page_swept ctx after (sc_Batch cfg) w Hctx Hd Hr Hb Hm) as (swept & err & w1 & Hpage & Hr1 & Hc1 & Hk).
  fold all in Hpage, Hc1, Hk. set (page := take (Z.to_nat (sc_Batch cfg)) all) in *.
  cbn [sweepCycle]. rewrite (bind_Ok _ _ _ _ _ Hpage), (bind_Ok (gets cancelled) _ w1 (cancelled w1) w1) by done.
  rewrite (Hlive w1). cbn [fst pg_Seen pg_Next]. rewrite orb_false_r.
  destruct (Z.ltb_spec (len page) (sc_Batch cfg)) as [Hshort | Hfull].
  { exists w1. split; [done |]. rewrite Hc1. f_equal. unfold page, len in *. rewrite length_take in Hshort.
    rewrite take_ge by lia. done. }
  destruct (last page) as [a |] eqn:Hlast.
  2: { apply last_None in Hlast. rewrite Hlast in Hfull. unfold len in Hfull. cbn in Hfull. lia. }
  assert (is_stale (ledger_of w) cutoff after a) as Ha.
  { apply stale_attempts_elem. fold all. rewrite <- (take_drop (Z.to_nat (sc_Batch cfg)) all). fold page.
    apply last_Some in Hlast as [l ->]. apply elem_of_app. left. apply elem_of_app. right. by left. }
  change (default after (Cursor <$> Some a)) with (Cursor a). rewrite bool_decide_eq_false_2.
  2: { intros <-. pose proof (is_stale_nonzero _ _ _ _ Ha) as Hz. apply is_stale_from in Ha as (_ & [Ha | Ha]); [done |].
       by rewrite (proj2 (compareCursor_eq _ _) eq_refl) in Ha. }
  assert (stale_attempts (ledger_of w1) cutoff (Cursor a) = drop (Z.to_nat (sc_Batch cfg)) all) as Hrest.
  { transitivity (stale_attempts (ledger_of w) cutoff (Cursor a)); [| exact (stale_attempts_next _ _ _ _ _ Hlast)]. apply stale_attempts_same. intros b.
    rewrite (is_stale_from (ledger_of w1)), (is_stale_from (ledger_of w)).
    destruct (decide (b ∈ page)) as [Hin | Hout]; [| by rewrite (Hk b Hout)].
    pose proof (is_stale_nonzero _ _ _ _ Ha) as Hz. split; intros [_ [? | Hgt]]; [done | | done |];
      destruct (not_behind page a b); try done; pose proof (stale_attempts_sorted (ledger_of w) cutoff after) as Hs;
      fold all in Hs; rewrite <- (take_drop (Z.to_nat (sc_Batch cfg)) all) in Hs; by apply StronglySorted_split in Hs as [Hs _]. }
  destruct (IH (Cursor a) w1 Hr1) as (w2 & Hcycle & Hc2).
  - intros b Hb'. destruct (decide (b ∈ page)) as [Hin | Hout]; [| by apply Hm, (Hk b Hout)].
    apply Hm. assert (b ∈ all) as Hin' by (rewrite <- (take_drop (Z.to_nat (sc_Batch cfg)) all); apply elem_of_app; by left).
    apply stale_attempts_elem, is_stale_from in Hin'. by destruct Hin'.
  - rewrite Hrest, length_drop. assert (0 < length page)%nat by (destruct page; [done | cbn; lia]).
    unfold page in *. rewrite length_take in *. lia.
  - exists w2. split; [exact Hcycle |]. rewrite Hc2, Hrest, Hc1, <- app_assoc. f_equal. unfold page. apply take_drop.
Qed.

(** C40: A cycle of the external sweep abandons every stale attempt once. Over the
    ledger in memory, while the context lives, a cycle ends after at most one page
    more than there are attempts begun by the cutoff and still open, and by then it
    has called the abandon of the context once for each of them, in the ledger's
    order and under an execution context of its own, whatever the batch and even if
    every one of them fails. *)
Theorem cycle_abandons_every_stale cfg fn ctx pages w
  (Hfn : SweepExternalAttempts cancelled around sweep = Ok fn) (Hvalid : validateSweep cfg true = Ok ())
  (Hctx : ctx_Err ctx = None) (Hd : ctx_Deadline ctx = None) (Hr : ready w)
  (Hm : forall b, is_stale (ledger_of w) cutoff zeroCursor b -> att_MessageID b <> ""%string)
  (Hpages : (length (stale_attempts (ledger_of w) cutoff zeroCursor) < pages)%nat) :
  exists w', sweepCycle cancelled pages ctx cfg cutoff fn zeroCursor w = (Ok true, w') /\
    calls (w_rest w') = calls (w_rest w) ++ stale_attempts (ledger_of w) cutoff zeroCursor /\
    forall a, a ∈ stale_attempts (ledger_of w) cutoff zeroCursor <-> is_stale (ledger_of w) cutoff zeroCursor a.
Proof.
  assert (1 <= sc_Batch cfg) as Hb.
  { unfold validateSweep in Hvalid. destruct (sc_Interval cfg <=? 0); [done |].
    destruct (Z.leb_spec (sc_Batch cfg) 0); [done | lia]. }
  destruct (cycle_from cfg fn ctx pages zeroCursor w Hfn Hctx Hd Hr Hb Hm Hpages) as (w' & Hcycle & Hc).
  exists w'. split_and!; [done | done |]. intros a. apply stale_attempts_elem.
Qed.
End Sweeping.

(** * A concrete cycle: two attempts, one page each, every abandon failing *)
Module SweepFixture.
Local Open Scope string_scope.
Notation SW := (World string string (list Attempt)).
Definition with_calls (l : list Attempt) (w : SW) : SW :=
  mkWorld (w_store w) (w_txs w) (w_next_tx w) (w_locked w) (w_pendings w) (w_next_pending w) (w_slots w) l.
Definition attempts : gmap attemptKey (list attemptRow) :=
  {[("t1", "key") := [fresh_row "m1" 5]; ("", "other") := [fresh_row "m2" 4]]}.
Definition start : SW := mkWorld (mkStore ∅ ∅ [] attempts 0 0 None) ∅ 0%nat false ∅ 0%nat emptySlots [].
(** Every abandon fails. *)
Definition abandon (_ : Ctx) (a : Attempt) : M SW error Finished :=
  fun w => (Err (Opaque "the partner is away"), with_calls (w_rest w ++ [a]) w).
Definition around : Surroundings (W := SW) :=
  mkSurroundings (fun w => (100, w)) (fun w => ("id", w)) (fun _ w => (("trace", ("", "")), w)).
Definition sweep := mkExternalSweep (Some NewAttemptStore) (Some abandon) 10 "en".
Definition cfg : SweepConfig := mkSweepConfig 60 1 5.
Definition fn : SweepFunc := fun ctx cutoff after batch =>
  SweepStale ctx (fun _ => None) NewAttemptStore cutoff after batch (sweep_close around sweep abandon ctx).
Definition stale := stale_attempts attempts 10 zeroCursor.
End SweepFixture.

Lemma cycle_abandons_every_stale_witness :
  map att_MessageID SweepFixture.stale = ["m2"; "m1"]%string /\
  exists w', sweepCycle (fun _ => None) 3 Background SweepFixture.cfg 10 SweepFixture.fn zeroCursor SweepFixture.start = (Ok true, w') /\
    w_rest w' = [] ++ SweepFixture.stale /\
    forall a, a ∈ SweepFixture.stale <-> is_stale SweepFixture.attempts 10 zeroCursor a.
Proof.
  split; [vm_compute; reflexivity |].
  refine (cycle_abandons_every_stale (fun _ => None) SweepFixture.around (fun l => l) SweepFixture.abandon 10 "en" 10 _ _ _ _
    SweepFixture.cfg SweepFixture.fn Background 3 SweepFixture.start _ _ _ _ _ _ _).
  - split; intros; (split; [by split_and! | done]).
  - intros ctx a w Hr. do 2 eexists. split; [reflexivity |]. split; [done |]. by split_and!.
  - discriminate.
  - reflexivity.
  - reflexivity.
  - reflexivity.
  - reflexivity.
  - reflexivity.
  - split; reflexivity.
  - intros b Hb%stale_attempts_elem.
    assert (Forall (fun a => att_MessageID a <> ""%string) (stale_attempts (ledger_of SweepFixture.start) 10 zeroCursor)) as Hall
      by (vm_compute; repeat constructor; discriminate).
    rewrite Forall_forall in Hall. by apply Hall.
  - vm_compute. lia.
Defined.
