(* ===== verification/HttpClient.v ===== *)
(** HTTP ([src/libs/backend/go/http], [transport/compose]): routes, what the edge
    resolves and refuses about a caller's identity, the admission middleware, the
    client of a dependency over the composition of its sheet, and the class of an
    external command's answer.

    The round trip, the scheduler (which of several ready cases a [select] takes,
    how time passes, what the other calls of the dependency do meanwhile) and the
    states of contexts are the [Runtime], a parameter.  Spans, metrics and logs
    are left out: the decorators of [transport/observe] answer what the call they
    wrap answers. *)

From S2P Require Import Prelude GoTime GoStrings GoSlices DomainKernel Errors Ports Retry Breaker Resilience Deadline Admission Sessions Authn.

(** * Routes ([route.go]) *)
Definition ErrContractRequired : error := Sentinel "http.ErrContractRequired".
Definition ErrMethodNotAllowed : error := Sentinel "http.ErrMethodNotAllowed".
Definition ErrIncompleteRoute : error := Sentinel "http.ErrIncompleteRoute".
Definition ErrRequirementUnknown : error := Sentinel "http.ErrRequirementUnknown".
Definition ErrPlatformReachRequired : error := Sentinel "http.ErrPlatformReachRequired".
Definition ErrPermissionRequired : error := Sentinel "http.ErrPermissionRequired".
Definition ErrIdempotencyKeyRequired : error := Sentinel "http.ErrIdempotencyKeyRequired".

(** A [uint8]: the values no constant names are a constructor of their own. *)
Inductive Requirement :=
| RequireSubjectAndTenant | RequireSubject | RequireTenant | RequireNeither | RequireOther (n : N).
#[export] Instance Requirement_eq_dec : EqDecision Requirement.
Proof. solve_decision. Defined.
#[export] Instance PlatformReach_eq_dec : EqDecision PlatformReach.
Proof. solve_decision. Defined.

Definition MethodGet : string := "GET".
Definition MethodHead : string := "HEAD".
Definition MethodPut : string := "PUT".
Definition MethodDelete : string := "DELETE".
Definition MethodPost : string := "POST".
Definition MethodPatch : string := "PATCH".
Definition allowedMethods : list string :=
  [MethodGet; MethodHead; MethodPut; MethodDelete; MethodPost; MethodPatch].

Record Route := mkRoute {
  ru_Name : string;
  ru_Method : string;
  ru_Path : string;
  ru_ContractRef : string;
  ru_Budget : Deadline.Budget;
  ru_RetryableStatus : list Z;
  ru_IdempotencyKey : string;
  ru_Requires : Requirement;
  ru_PlatformReach : PlatformReach;
  ru_Permission : Permission
}.

Definition RequiresSubject (r : Route) : bool :=
  bool_decide (ru_Requires r = RequireSubjectAndTenant) || bool_decide (ru_Requires r = RequireSubject).
Definition RequiresTenant (r : Route) : bool :=
  bool_decide (ru_Requires r = RequireSubjectAndTenant) || bool_decide (ru_Requires r = RequireTenant).

Definition known_requirement (r : Requirement) : bool :=
  match r with RequireOther _ => false | _ => true end.
Definition Route_Validate (r : Route) : result error unit :=
  if String.eqb (ru_Name r) "" then Err (Wrap "name" ErrIncompleteRoute)
  else if String.eqb (ru_Path r) "" then Err (Wrap "path" ErrIncompleteRoute)
  else if String.eqb (ru_ContractRef r) "" then Err (Wrap (ru_Name r) ErrContractRequired)
  else if negb (bool_decide (ru_Method r ∈ allowedMethods)) then Err (Wrap (ru_Name r) ErrMethodNotAllowed)
  else
    _ ← match Budget_Validate (ru_Budget r) with Err e => Err (Wrap "http" e) | ok => ok end;
    if negb (known_requirement (ru_Requires r)) then Err (Wrap (ru_Name r) ErrRequirementUnknown)
    else if bool_decide (ru_Requires r = RequireNeither) && negb (bool_decide (ru_PlatformReach r = ReachAllTenants))
    then Err (Wrap (ru_Name r) ErrPlatformReachRequired)
    else if bool_decide (ru_PlatformReach r = ReachAllTenants) && RequiresTenant r
    then Err (Wrap (ru_Name r) ErrPlatformReachRequired)
    else Ok ().
Definition ValidateEdge (r : Route) : result error unit :=
  _ ← Route_Validate r;
  if RequiresSubject r && String.eqb (ru_Permission r) "" then Err (Wrap (ru_Name r) ErrPermissionRequired)
  else if String.eqb (ru_Method r) MethodPost && String.eqb (ru_IdempotencyKey r) ""
  then Err (Wrap (ru_Name r) ErrIdempotencyKeyRequired)
  else Ok ().

Definition WithVerifiedPlatformReach (ctx : Ctx) (route : Route) : Ctx :=
  if negb (bool_decide (ru_PlatformReach route = ReachAllTenants))
     || negb (bool_decide (ru_Requires route = RequireSubject)) || String.eqb (ru_Permission route) ""
  then ctx else WithPlatformReach ctx ReachAllTenants.

Definition Idempotent (r : Route) : bool :=
  if bool_decide (ru_Method r ∈ [MethodGet; MethodHead; MethodPut; MethodDelete]) then true
  else if String.eqb (ru_Method r) MethodPost then negb (String.eqb (ru_IdempotencyKey r) "")
  else false.

(** * Headers ([net/http]) *)

(** The bytes of a token: letters, digits and fifteen signs. *)
Definition validHeaderFieldByte (b : Z) : bool :=
  in_range 48 57 b || in_range 65 90 b || in_range 97 122 b ||
  bool_decide (b ∈ [33; 35; 36; 37; 38; 39; 42; 43; 45; 46; 94; 95; 96; 124; 126]).
Fixpoint canonical_bytes (upper : bool) (bs : list Z) : list Z :=
  match bs with
  | [] => []
  | b :: rest =>
      let b' := if upper && in_range 97 122 b then b - 32
                else if negb upper && in_range 65 90 b then b + 32 else b in
      b' :: canonical_bytes (b =? 45) rest
  end.
Definition CanonicalHeaderKey (s : string) : string :=
  if forallb validHeaderFieldByte (bytes_of s) then string_of (canonical_bytes true (bytes_of s)) else s.

Notation Header := (gmap string (list string)).
Definition Header_Values (h : Header) (key : string) : list string := default [] (h !! CanonicalHeaderKey key).
Definition Header_Get (h : Header) (key : string) : string :=
  match Header_Values h key with v :: _ => v | [] => "" end.
Definition Header_Set (key value : string) (h : Header) : Header := <[CanonicalHeaderKey key := [value]]> h.

(** * Identity at the edge ([identity.go]) *)
Record Resolved := mkResolved {
  rv_Subject : option SubjectID;
  rv_Tenant : option TenantID;
  rv_Permissions : list Permission
}.
Definition noResolved : Resolved := mkResolved None None [].
Definition StatusUnauthorized : Z := 401.
Definition StatusForbidden : Z := 403.
Definition StatusNotFound : Z := 404.
Definition StatusTooManyRequests : Z := 429.

(** A status of zero lets the request proceed. *)
Definition resolve_vouched (route : Route) (identity : Identity) : Resolved * Z * string :=
  if RequiresSubject route && String.eqb (id_Subject identity) ""
  then (noResolved, StatusUnauthorized, "unauthenticated")
  else if RequiresTenant route && bool_decide (id_Tenant identity = None)
  then (noResolved, StatusForbidden, "tenant-unresolved")
  else if RequiresSubject route && String.eqb (ru_Permission route) ""
  then (noResolved, StatusForbidden, "permission-undeclared")
  else if RequiresSubject route && negb (bool_decide (ru_Permission route ∈ id_Permissions identity))
  then (noResolved, StatusForbidden, "permission-denied")
  else (mkResolved (Some (id_Subject identity)) (id_Tenant identity) (id_Permissions identity), 0, "").
Definition ResolveIdentity {S} (authenticate : Credential -> M S error Identity) (route : Route)
    (credential : Credential) : M S error (Resolved * Z * string) :=
  if negb (Presented credential) then
    if RequiresSubject route || RequiresTenant route
    then mret (noResolved, StatusUnauthorized, "unauthenticated")
    else mret (noResolved, 0, "")
  else
    answer ← attempt (authenticate credential);
    match answer with
    | Ok identity => mret (resolve_vouched route identity)
    | _ => mret (noResolved, StatusUnauthorized, "unauthenticated")
    end.

Definition assertedSubject : list string := ["X-Subject-ID"].
Definition assertedTenant : list string := ["X-Tenant-ID"].
Definition assertedQuery : list string := ["tenant_id"].
Definition diverges (asserted : list string) (resolved : option string) : bool :=
  existsb (fun candidate => negb (bool_decide (Some candidate = resolved))) asserted.
(** [query] is what [r.URL.Query] parses. *)
Definition RefuseAssertedIdentity (header : Header) (query : gmap string (list string)) (resolved : Resolved)
    : Z * string :=
  if existsb (fun h => diverges (Header_Values header h) (rv_Subject resolved)) assertedSubject
     || existsb (fun h => diverges (Header_Values header h) (rv_Tenant resolved)) assertedTenant
     || existsb (fun key => diverges (default [] (query !! key)) (rv_Tenant resolved)) assertedQuery
  then (StatusForbidden, "identity-mismatch") else (0, "").

(** * Admission of requests ([admission.go]) *)
Inductive Reply := Served | Refusal (status : Z) (reason : string) (retry_after : bool).
Definition reason_text (reason : Admission.Reason) : string :=
  match reason with
  | Admission.Admitted_ => "admitted"
  | RateLimited_ => "rate_limited"
  | Saturated => "saturated"
  | UndeclaredRoute => "undeclared_route"
  end.
(** [next] is the handler, with whatever other requests do to the controller while
    it runs; the release is deferred past it. *)
Definition Admission_Handler (cfg : Admission.Config) (key who : string) (now : Z)
    (next : Controller -> Controller) (ctrl : Controller) : Reply * Controller :=
  let '(grant, reason, ctrl) := Admit cfg key who now ctrl in
  let release c := match grant with Some g => Release g c | None => c end in
  match reason with
  | Admission.Admitted_ => (Served, release (next ctrl))
  | UndeclaredRoute => (Refusal StatusNotFound "route declares no admission limit" false, release ctrl)
  | _ => (Refusal StatusTooManyRequests ("admission refused: " ++ reason_text reason) true, release ctrl)
  end.

(** * The classifier of attempts ([classifier.go]) *)

(** A [*RetryableStatusError]: its status and the pointer to its response. *)
Definition RetryableStatusError (status response : Z) : error :=
  Typed "http.RetryableStatusError" "" [status; response] None.
Definition as_transient : error -> option (Z * Z) :=
  errors_as (fun e => match e with
    | Typed type _ [status; response] _ =>
        if String.eqb type "http.RetryableStatusError" then Some (status, response) else None
    | _ => None
    end).
(** A [net.Error]: the errors of package [net] and [context.DeadlineExceeded]. *)
Definition OpError (op : string) (cause : option error) : error := Typed "net.OpError" op [] cause.
Definition as_net_error : error -> option unit :=
  errors_as (fun e => match e with
    | Typed type _ _ _ => if HasPrefix type "net." then Some () else None
    | Sentinel name => if String.eqb name "context.DeadlineExceeded" then Some () else None
    | _ => None
    end).
Definition as_op : error -> option string :=
  errors_as (fun e => match e with
    | Typed type op _ _ => if String.eqb type "net.OpError" then Some op else None
    | _ => None
    end).
Definition Classifier (err : error) : Retryability :=
  match as_transient err with
  | Some _ => RetryableError
  | None =>
      if errors_is err ContextCanceled || errors_is err ContextDeadlineExceeded then NotRetryable
      else match as_net_error err with Some _ => RetryableError | None => NotRetryable end
  end.

(** * The class of an answer ([outcome.go]) *)
Definition ErrInvalidOutcomeTable : error := Sentinel "http.ErrInvalidOutcomeTable".
Definition ErrOutboundKeyRequired : error := Sentinel "http.ErrOutboundKeyRequired".
Definition ErrOutboundKeyHeaderReplayable : error := Sentinel "http.ErrOutboundKeyHeaderReplayable".
Definition ErrRouteNotDeclared : error := Sentinel "http.ErrRouteNotDeclared".
Definition ErrMethodMismatch : error := Sentinel "http.ErrMethodMismatch".
Definition ErrBodyNotReplayable : error := Sentinel "http.ErrBodyNotReplayable".
Definition ErrIncompleteConfig : error := Sentinel "http.ErrIncompleteConfig".

Record OutcomeTable := mkOutcomeTable { ot_Version : string; ot_Status : gmap Z ExternalClass }.
Definition declared_class (class : ExternalClass) : bool :=
  match class with ClassNone | ClassOther _ => false | _ => true end.
(** The first entry Go ranges over that is out of place ends it; which one does not
    show in the error kept here. *)
Definition OutcomeTable_Validate `{MapOrder} (t : OutcomeTable) : result error unit :=
  if String.eqb (ot_Version t) "" then Err (Wrap "version" ErrInvalidOutcomeTable)
  else match List.find (fun entry => (entry.1 <? 100) || (599 <? entry.1) || negb (declared_class entry.2))
               (ranged (ot_Status t)) with
       | Some _ => Err (Wrap (ot_Version t) ErrInvalidOutcomeTable)
       | None => Ok ()
       end.
Definition byStatus (t : OutcomeTable) (status : Z) : ExternalClass :=
  default ClassUnknownAmbiguous (ot_Status t !! status).

Definition notSentError (err : error) : error := Typed "http.notSentError" "" [] (Some err).
Definition as_not_sent : error -> option unit :=
  errors_as (fun e => match e with
    | Typed type _ _ _ => if String.eqb type "http.notSentError" then Some () else None
    | _ => None
    end).
Definition classifyUnsent (err : error) : ExternalClass :=
  if errors_is err ErrRouteNotDeclared || errors_is err ErrMethodMismatch
     || errors_is err ErrBodyNotReplayable || errors_is err ErrNoDeadline
  then ClassFinalValidation
  else if errors_is err ErrBreakerOpen || errors_is err ErrBulkheadSaturated
     || errors_is err ErrDeadlineExhausted || errors_is err ErrDeadlineExceeded
  then ClassRetryableTransport
  else ClassUnknownSent.

Record Response := mkResponse { rp_StatusCode : Z; rp_Body : option (list Z) }.
Definition OutcomeTable_Classify (t : OutcomeTable) (resp : option Response) (err : option error) : ExternalClass :=
  match err with
  | Some err =>
      match as_transient err with
      | Some (status, _) => byStatus t status
      | None =>
          match as_not_sent err with
          | Some _ => classifyUnsent err
          | None =>
              match as_op err with
              | Some op => if String.eqb op "dial" then ClassRetryableTransport else ClassUnknownSent
              | None => ClassUnknownSent
              end
          end
      end
  | None =>
      match resp with
      | None => ClassUnknownAmbiguous
      | Some resp => byStatus t (rp_StatusCode resp)
      end
  end.

(** A request: what its body reads as, what [GetBody] answers if it has one, and
    whether its context carries the mark of [WithOutboundKey]. *)
Record Request := mkRequest {
  rq_Method : string;
  rq_Header : Header;
  rq_Body : option (list Z);
  rq_GetBody : option (error + list Z);
  rq_keyed : bool
}.
Definition with_header (f : Header -> Header) (r : Request) : Request :=
  mkRequest (rq_Method r) (f (rq_Header r)) (rq_Body r) (rq_GetBody r) (rq_keyed r).
Definition with_body (body : list Z) (r : Request) : Request :=
  mkRequest (rq_Method r) (rq_Header r) (Some body) (rq_GetBody r) (rq_keyed r).
Definition WithOutboundKey (r : Route) (req : Request) (key : OutboundKey) : result error Request :=
  if String.eqb (ru_IdempotencyKey r) "" || String.eqb key "" then Err (Wrap (ru_Name r) ErrOutboundKeyRequired)
  else if bool_decide (CanonicalHeaderKey (ru_IdempotencyKey r) ∈ ["Idempotency-Key"; "X-Idempotency-Key"])
  then Err (Wrap (ru_Name r) ErrOutboundKeyHeaderReplayable)
  else Ok (mkRequest (rq_Method req) (Header_Set (ru_IdempotencyKey r) key (rq_Header req)) (rq_Body req)
             (rq_GetBody req) true).
Definition outboundKeyed (req : Request) : bool := rq_keyed req.

(** * Calls of a dependency *)

(** Contexts by how they were derived; what one's [Err] answers at a moment is the
    runtime's. *)
Inductive Context := CallerContext (deadline : option Z) | WithDeadline (parent : Context) (d : Z).
Fixpoint Context_Deadline (ctx : Context) : option Z :=
  match ctx with
  | CallerContext deadline => deadline
  | WithDeadline parent d =>
      match Context_Deadline parent with Some p => Some (Z.min p d) | None => Some d end
  end.
Inductive ContextErr := IsCanceled | IsPast.
Definition context_error (e : ContextErr) : error :=
  match e with IsCanceled => ContextCanceled | IsPast => ContextDeadlineExceeded end.

(** What ends the wait for a slot; the slot taken is in its channel already. *)
Inductive Waited := SlotTaken | TimerFired | ContextDone (e : ContextErr).

Section World.
Context {Env : Type}.

(** What the calls of a dependency share: the clock, the budget of the execution,
    the breaker, the bulkhead, and the world beyond. *)
Record Shared := mkShared {
  sh_clock : Z;
  sh_budget : option Retry.Budget;
  sh_breaker : Breaker;
  sh_bulkhead : Bulkhead;
  sh_env : Env
}.
(** The variables of [Client.do] its closure writes; [fl_transients] holds the
    responses behind the pointers of [RetryableStatusError]s. *)
Record Flight := mkFlight { fl_final : option Response; fl_resends : Z; fl_transients : list Response }.
Definition World : Type := Shared * Flight.

(** [rt_timer] waits for a duration or the end of a context; [rt_RoundTrip] runs
    under the request's context, tied to the attempt's. *)
Record Runtime := mkRuntime {
  rt_Err : Context -> Shared -> option ContextErr;
  rt_elapse : Shared -> Shared;
  rt_select : Context -> Z -> Shared -> Waited * Shared;
  rt_timer : Context -> Z -> Shared -> option ContextErr * Shared;
  rt_Rand : Shared -> option float64;
  rt_NewKey : Shared -> string * Shared;
  rt_RoundTrip : Context -> Context -> Request -> Shared -> (error + Response) * Shared
}.

Definition Do := Context -> World -> option error * World.
Definition Call := Context -> Resilience.Operation -> Do -> World -> option error * World.
Definition Direct : Call := fun ctx _ do w => do ctx w.

Definition set_budget (b : Retry.Budget) (w : World) : World :=
  (mkShared (sh_clock w.1) (Some b) (sh_breaker w.1) (sh_bulkhead w.1) (sh_env w.1), w.2).
Definition set_breaker (b : Breaker) (w : World) : World :=
  (mkShared (sh_clock w.1) (sh_budget w.1) b (sh_bulkhead w.1) (sh_env w.1), w.2).
Definition set_bulkhead (b : Bulkhead) (w : World) : World :=
  (mkShared (sh_clock w.1) (sh_budget w.1) (sh_breaker w.1) b (sh_env w.1), w.2).

Section Decorators.
Context (rt : Runtime).

Definition elapse (w : World) : World := (rt_elapse rt w.1, w.2).
Definition Context_Err (ctx : Context) (w : World) : option error := context_error <$> rt_Err rt ctx w.1.

(** [clock.NewSleeper]. *)
Definition Sleeper (ctx : Context) (d : Z) (w : World) : option error * World :=
  match Context_Err ctx w with
  | Some err => (Some err, w)
  | None =>
      if d <=? 0 then (None, w)
      else let '(ended, s) := rt_timer rt ctx d w.1 in (context_error <$> ended, (s, w.2))
  end.

(** [Breaker.Decorate]; the closure of the composition counts every failure. *)
Definition Breaker_Decorate (policy : BreakerPolicy) (failure : option (error -> bool)) (next : Call) : Call :=
  fun ctx op do w =>
    let w := elapse w in
    let '(granted, b) := admit_call policy (sh_clock w.1) (sh_breaker w.1) in
    let w := set_breaker b w in
    match granted with
    | Err err => (Some err, w)
    | Panic why => (Some (Opaque why), w)             (* [admit_call] never panics *)
    | Ok granted =>
        let '(err, w) := next ctx op do w in
        let w := elapse w in
        (err, set_breaker (record policy failure (sh_clock w.1) granted err (sh_breaker w.1)) w)
    end.

(** [Bulkhead.acquire] and [Bulkhead.Decorate]. *)
Definition acquire (policy : BulkheadPolicy) (ctx : Context) (w : World) : option error * World :=
  match try_admission (sh_bulkhead w.1) with
  | None => (Some (Wrap "the pool and its queue are full" ErrBulkheadSaturated), w)
  | Some b =>
      let w := elapse (set_bulkhead b w) in
      match try_slot (sh_bulkhead w.1) with
      | Some b => (None, set_bulkhead b w)
      | None =>
          let acquisition := if bk_Acquisition policy <=? 0 then DefaultBulkheadAcquire
                             else bk_Acquisition policy in
          let '(waited, s) := rt_select rt ctx acquisition w.1 in
          let w := (s, w.2) in
          match waited with
          | SlotTaken => (None, w)
          | TimerFired =>
              (Some (Wrap "no slot became free within the acquisition window" ErrBulkheadSaturated),
               set_bulkhead (return_admission (sh_bulkhead w.1)) w)
          | ContextDone e =>
              (Some (context_error e), set_bulkhead (return_admission (sh_bulkhead w.1)) w)
          end
      end
  end.
Definition release (w : World) : World :=
  let w := set_bulkhead (return_slot (sh_bulkhead w.1)) (elapse w) in
  set_bulkhead (return_admission (sh_bulkhead w.1)) (elapse w).
Definition Bulkhead_Decorate (policy : BulkheadPolicy) (next : Call) : Call :=
  fun ctx op do w =>
    match acquire policy ctx w with
    | (Some err, w) => (Some err, w)
    | (None, w) => let '(err, w) := next ctx op do w in (err, release w)
    end.

(** [resilience.Timeout]. *)
Definition Timeout_Decorate (reserve : Z) (next : Call) : Call :=
  fun ctx op do w =>
    let effective := EffectiveDeadline (Context_Deadline ctx) (sh_budget w.1) (sh_clock w.1) (ro_Deadline op) reserve in
    if effective <=? 0 then (Some (Wrap "has no time left" ErrDeadlineExceeded), w)
    else
      let bounded := WithDeadline ctx (sh_clock w.1 + effective) in
      let '(err, w) := next bounded op do w in
      (timeout_classify (Context_Err ctx w) (Context_Err bounded w) err, w).

(** [resilience.NewRetry]; its ceiling bounds its rounds, so the fuel of the loop
    never runs out ([Retry_lawful]). *)
Definition Retry_Decorate (config : Retry.RetryConfig) (next : Call) : Call :=
  fun ctx op do w =>
    let '(err, w) :=
      NewRetry (fun w : World => sh_clock w.1) (fun w => sh_budget w.1) set_budget (Context_Deadline ctx)
        (next ctx op do) (Sleeper ctx) (fun w => rt_Rand rt w.1) id id config
        (match ro_Kind op with UnitOfWorkKind => true | _ => false end) (ForRetry op) w in
    (default (Some (Opaque "out of rounds")) err, w).

(** [NewDegradation]. *)
Definition Degradation_Decorate (answer : option error -> option error -> option error) (next : Call) : Call :=
  fun ctx op do w => let '(err, w) := next ctx op do w in (answer (Context_Err ctx w) err, w).

(** * The composition ([transport/compose]) *)
Record ComposeConfig := mkComposeConfig {
  cc_Sheet : Sheet;
  cc_Classifier : option Retry.Classifier;
  cc_BreakerFailure : option (error -> bool)
}.
Definition identity (next : Call) : Call := next.

Definition compose_Retry (cfg : ComposeConfig) : result error (option (Call -> Call)) :=
  match fld_value (sh_Retry (cc_Sheet cfg)) with
  | None => Ok None
  | Some false => Ok (Some identity)
  | Some true =>
      let policy := default (mkBackoffPolicy 0 0 0) (fld_value (sh_Backoff (cc_Sheet cfg))) in
      let config := mkRetryConfig (cc_Classifier cfg) (default 0 (fld_value (sh_MaxAttempts (cc_Sheet cfg))))
                      (BackoffPolicy_ForRetry policy) in
      _ ← retry_config_ok config;
      Ok (Some (Retry_Decorate config))
  end.
Definition degrading (tracing : Call -> Call) (cfg : ComposeConfig) : Call -> Call :=
  match NewDegradation (default DegradationBlank (fld_value (sh_Degradation (cc_Sheet cfg)))) with
  | Ok answer => fun next => tracing (Degradation_Decorate answer next)
  | _ => tracing
  end.
(** Every position but retry; the three of [observe.Slots] answer what they wrap. *)
Definition compose_Shared (cfg : ComposeConfig) : DecoratorSlots Call :=
  let sheet := cc_Sheet cfg in
  mkDecoratorSlots (Some (degrading identity cfg)) (Some identity) (Some identity)
    (Bulkhead_Decorate <$> fld_value (sh_Bulkhead sheet))
    ((fun policy => Breaker_Decorate policy (cc_BreakerFailure cfg)) <$> fld_value (sh_Breaker sheet))
    None None
    ((fun _ : Z => Timeout_Decorate (match fld_value (sh_Backoff sheet) with Some b => bo_Base_ b | None => 0 end))
       <$> fld_value (sh_Deadline sheet)).
Definition with_retry (retry : option (Call -> Call)) (s : DecoratorSlots Call) : DecoratorSlots Call :=
  mkDecoratorSlots (ds_Tracing s) (ds_Metrics s) (ds_Logging s) (ds_Bulkhead s) (ds_Breaker s)
    (ds_RateLimit s) retry (ds_Timeout s).
Definition compose_Build (cfg : ComposeConfig) : result error Call :=
  retry ← compose_Retry cfg;
  Compose Direct (cc_Sheet cfg) (with_retry retry (compose_Shared cfg)).
Definition maxAttempts (sheet : Sheet) : Z :=
  match fld_value (sh_Retry sheet) with
  | None => 0
  | Some false => 1
  | Some true => default 0 (fld_value (sh_MaxAttempts sheet))
  end.
End Decorators.
End World.

(** * The client ([client.go]) *)
Definition maxBufferedBody : Z := 1048576.

Record Config := mkConfig {
  cg_Routes : gmap string Route;
  cg_Sheet : Sheet;
  cg_HasClock : bool
}.
(** The routes are looked at in the order Go ranges over them. *)
Fixpoint routes_Validate (routes : list (string * Route)) : result error unit :=
  match routes with
  | [] => Ok ()
  | (name, route) :: rest =>
      if negb (String.eqb name (ru_Name route)) then Err (Wrap "key names another route" ErrIncompleteConfig)
      else _ ← Route_Validate route; routes_Validate rest
  end.
Definition Config_Validate `{MapOrder} (c : Config) : result error unit :=
  if negb (cg_HasClock c) then Err (Wrap "clock" ErrIncompleteConfig)
  else if bool_decide (cg_Routes c = ∅) then Err (Wrap "no route is declared" ErrIncompleteConfig)
  else _ ← Sheet_Validate (cg_Sheet c); routes_Validate (ranged (cg_Routes c)).

(** [buffer]: what can be read of the body, up to the bound, stays readable. *)
Definition buffer (resp : Response) : Response :=
  mkResponse (rp_StatusCode resp) (take (Z.to_nat maxBufferedBody) <$> rp_Body resp).

Section Client.
Context {Env : Type} (rt : Runtime (Env := Env)).

Record Client := mkClient { cl_cfg : Config; cl_call : Call (Env := Env) }.
Definition NewClient `{MapOrder} (cfg : Config) : result error Client :=
  _ ← Config_Validate cfg;
  call ← compose_Build rt (mkComposeConfig (cg_Sheet cfg) (Some Classifier) None);
  Ok (mkClient cfg call).

(** [Client.attempt]. *)
Definition attempt_ (outer attemptCtx : Context) (req : Request) (hasBody : bool) (s : Shared)
    : (error + Response) * Shared :=
  match (if hasBody then rq_GetBody req else None) with
  | None => rt_RoundTrip rt outer attemptCtx req s
  | Some (inr body) => rt_RoundTrip rt outer attemptCtx (with_body body req) s
  | Some (inl err) => (inl (Wrap "http: GetBody" err), s)
  end.

(** The closure [do] hands to the call: one attempt. *)
Definition attempt_of (route : Route) (outer : Context) (req : Request) (hasBody : bool) : Do (Env := Env) :=
  fun attemptCtx w =>
    let '(s, f) := w in
    let f := mkFlight (fl_final f) (fl_resends f + 1) (fl_transients f) in
    let '(answer, s) := attempt_ outer attemptCtx req hasBody s in
    match answer with
    | inl err => (Some err, (s, f))
    | inr resp =>
        if bool_decide (rp_StatusCode resp ∈ ru_RetryableStatus route) then
          (Some (RetryableStatusError (rp_StatusCode resp) (len (fl_transients f))),
           (s, mkFlight (fl_final f) (fl_resends f) (fl_transients f ++ [buffer resp])))
        else (None, (s, mkFlight (Some resp) (fl_resends f) (fl_transients f)))
    end.

(** The idempotency key of a POST without one. *)
Definition keyed_request (route : Route) (req : Request) (s : Shared) : Request * Shared :=
  if String.eqb (ru_Method route) MethodPost && negb (String.eqb (ru_IdempotencyKey route) "")
     && String.eqb (Header_Get (rq_Header req) (ru_IdempotencyKey route)) ""
  then let '(key, s) := rt_NewKey rt s in (with_header (Header_Set (ru_IdempotencyKey route) key) req, s)
  else (req, s).

Definition op_of (route : Route) (retryable : bool) : Resilience.Operation :=
  let op := Budget_Operation (ru_Budget route) in
  mkResOperation (ro_Dependency op) (ro_Method op) (ro_Kind op) retryable (ro_EffectAbsent op)
    (ro_Deadline op) (ro_EstimatedDuration op).

(** What [do] does with the call's answer: [final] is dereferenced for its body,
    which the caller reads through a wrapper that releases the call. *)
Definition finish (err : option error) (f : Flight) : result error Response :=
  let release final := match final with Some resp => Ok resp | None => Panic "nil pointer dereference: final" end in
  match err with
  | None => release (fl_final f)
  | Some err =>
      match as_transient err with
      | Some (_, response) => release (fl_transients f !! Z.to_nat response)
      | None => Err err
      end
  end.

(** [Client.do]: the answer, the attempts, and what is left. *)
Definition do_ (c : Client) (ctx : Context) (routeName : string) (req : Request) (s : Shared)
    : result error Response * Z * Shared :=
  match cg_Routes (cl_cfg c) !! routeName with
  | None => (Err (Wrap routeName ErrRouteNotDeclared), 0, s)
  | Some route =>
      if negb (String.eqb (rq_Method req) (ru_Method route))
      then (Err (Wrap (ru_Name route) ErrMethodMismatch), 0, s)
      else
        let retryable := Idempotent route && negb (outboundKeyed req) in
        let hasBody := bool_decide (is_Some (rq_Body req)) in
        if hasBody && bool_decide (rq_GetBody req = None) && retryable
        then (Err (Wrap (ru_Name route) ErrBodyNotReplayable), 0, s)
        else
          match Outgoing (Context_Deadline ctx) (sh_budget s) (sh_clock s) (sh_clock (rt_elapse rt s))
                  (ru_Budget route) with
          | Err err => (Err err, 0, s)
          | Panic why => (Panic why, 0, s)
          | Ok until =>
              let outer := WithDeadline ctx until in
              let '(req, s) := keyed_request route req (rt_elapse rt s) in
              let '(err, (s, f)) :=
                cl_call c outer (op_of route retryable) (attempt_of route outer req hasBody)
                  (s, mkFlight None 0 []) in
              (finish err f, fl_resends f, s)
          end
  end.

(** [Client.Do]. *)
Definition Client_Do (c : Client) (ctx : Context) (routeName : string) (req : Request) (s : Shared)
    : result error Response * Shared :=
  let '(answer, attempts, s) := do_ c ctx routeName req s in
  match answer with
  | Err err => (Err (if attempts =? 0 then notSentError err else err), s)
  | answer => (answer, s)
  end.
End Client.

(** * What the composition hands on *)

(** A decorator's wrapping leaves what the typed errors below answer. *)
Inductive wraps (e : error) : error -> Prop :=
| wraps_note note : wraps e (Wrap note e)
| wraps_slept c : wraps e (Join "" [e; context_error c])
| wraps_named note name : wraps e (Join note [Sentinel name; e]).
Notation carries := (rtc wraps).

Definition skips_wrappers {A} (f : error -> option A) : Prop :=
  (forall note e, f (Wrap note e) = None) /\ (forall note es, f (Join note es) = None) /\
  (forall name, f (Sentinel name) = None).
Lemma wraps_as {A} (f : error -> option A) e e' :
  skips_wrappers f -> wraps e e' -> errors_as f e' = errors_as f e.
Proof.
  intros (Hw & Hj & Hs) [note | c | note name]; cbn; rewrite ?Hw, ?Hj, ?Hs; [done | | by case_match].
  destruct (errors_as f e); [done |]. destruct c; cbn; by rewrite Hs.
Qed.
Lemma carries_as {A} (f : error -> option A) e e' :
  skips_wrappers f -> carries e e' -> errors_as f e' = errors_as f e.
Proof. intros Hf. induction 1 as [| e e1 e' H1 _ IH]; [done |]. by rewrite IH, (wraps_as f e e1). Qed.
Lemma carries_transient e e' : carries e e' -> as_transient e' = as_transient e.
Proof. by apply carries_as. Qed.
Lemma carries_not_sent e e' : carries e e' -> as_not_sent e' = as_not_sent e.
Proof. by apply carries_as. Qed.
Lemma carries_op e e' : carries e e' -> as_op e' = as_op e.
Proof. by apply carries_as. Qed.
#[export] Hint Constructors wraps : core.
Lemma carries_once e e' : wraps e e' -> carries e e'.
Proof. apply rtc_once. Qed.

Section Laws.
Context {Env : Type} (written : Env -> Z).
Notation World := (World (Env := Env)).
Notation Call := (Call (Env := Env)).
Notation Do := (Do (Env := Env)).

Definition sent (s : Shared) : Z := written (sh_env s).
(** The variables of the closure and what was sent stay. *)
Definition quiet (w w' : World) : Prop := w'.2 = w.2 /\ sent w'.1 = sent w.1.
#[local] Instance quiet_preorder : PreOrder quiet.
Proof. split; [by intros w | intros w1 w2 w3 [H1 H2] [H3 H4]; split; congruence]. Qed.

(** A run of a call: the answers of what it was given to do, the last one first. *)
Inductive Runs (do : Do) : list (option error) -> World -> World -> Prop :=
| runs_quiet w w' : quiet w w' -> Runs do [] w w'
| runs_do l w w1 ctx e w2 w3 :
    Runs do l w w1 -> do ctx w1 = (e, w2) -> quiet w2 w3 -> Runs do (e :: l) w w3.

Lemma Runs_app do l l' w w1 w2 : Runs do l w w1 -> Runs do l' w1 w2 -> Runs do (l' ++ l) w w2.
Proof.
  intros H1 H2. revert H1. induction H2 as [w1 w2 Hq | l' w1 w3 ctx e w4 w5 _ IH Hd Hq]; intros H1.
  - destruct H1 as [w w1 Hq1 | l w wa ctx e wb w1 Hr Hd Hq1]; [constructor; by etrans |].
    econstructor; [done | done | by etrans].
  - cbn. econstructor; [by apply IH | done | done].
Qed.
Lemma Runs_before do l w w1 w2 : quiet w w1 -> Runs do l w1 w2 -> Runs do l w w2.
Proof. intros Hq Hr. rewrite <- (app_nil_r l). eapply Runs_app; [by constructor | done]. Qed.
Lemma Runs_after do l w w1 w2 : Runs do l w w1 -> quiet w1 w2 -> Runs do l w w2.
Proof. intros Hr Hq. change l with ([] ++ l). eapply Runs_app; [done | by constructor]. Qed.

(** What a call answers, by the answers of its run: success only after one, unless
    failures are ignored ([ign]); a failure that carries the last answer, where it
    is not repeated, and never an attempt's transient response but its own. *)
Definition outcome (ign rep : bool) (l : list (option error)) (err : option error) : Prop :=
  match err with
  | None => ign = true \/ exists l', l = None :: l'
  | Some e' =>
      (forall l', l <> None :: l') /\
      (rep = false -> forall e l', l = Some e :: l' -> carries e e') /\
      (as_transient e' = None \/ exists e, Some e ∈ l /\ carries e e')
  end.
Definition repeats (op : Resilience.Operation) : bool :=
  ro_Idempotent op || bool_decide (is_Some (ro_EffectAbsent op)).
Definition lawful (ign : bool) (N : Z) (c : Call) : Prop :=
  forall ctx op do w err w', c ctx op do w = (err, w') ->
    exists l, Runs do l w w' /\ len l <= (if repeats op then N else 1) /\ outcome ign (repeats op) l err.

Lemma outcome_refused ign rep e : as_transient e = None -> outcome ign rep [] (Some e).
Proof. intros He. split_and!; [done | done | by left]. Qed.
Lemma outcome_carried ign rep l e e' :
  outcome ign rep l (Some e) -> carries e e' -> outcome ign rep l (Some e').
Proof.
  intros (H1 & H2 & H3) Hc. split_and!; [done | intros Hr e0 l' Hl; etrans; eauto |].
  destruct H3 as [H3 | (e0 & Hin & H3)]; [left; by rewrite (carries_transient e e') | right].
  exists e0. split; [done | by etrans].
Qed.
Lemma lawful_refuses ign N op do w w' e : 1 <= N -> as_transient e = None -> quiet w w' ->
  exists l, Runs do l w w' /\ len l <= (if repeats op then N else 1) /\ outcome ign (repeats op) l (Some e).
Proof.
  intros HN He Hq. exists []. split; [by apply runs_quiet |]. split; [destruct (repeats op); unfold len; cbn; lia | by apply outcome_refused].
Qed.

Lemma Direct_lawful : lawful false 1 Direct.
Proof.
  intros ctx op do w err w' Hd. exists [err]. split_and!.
  - econstructor; [by constructor | exact Hd | done].
  - by case_match.
  - destruct err as [e |]; [| right; by eexists]. split_and!; [congruence | | right; exists e; split; [set_solver | done]].
    by intros _ e0 l' [= <- _].
Qed.

(** The runtime moves nothing of this call's: only a round trip sends. *)
Record Discreet (rt : Runtime (Env := Env)) : Prop := {
  dc_elapse : forall s, sent (rt_elapse rt s) = sent s;
  dc_select : forall ctx d s, sent (rt_select rt ctx d s).2 = sent s;
  dc_timer : forall ctx d s, sent (rt_timer rt ctx d s).2 = sent s;
  dc_NewKey : forall s, sent (rt_NewKey rt s).2 = sent s
}.
Context (rt : Runtime (Env := Env)) (Hrt : Discreet rt).

Lemma quiet_elapse w : quiet w (elapse rt w).
Proof. split; [done | apply Hrt]. Qed.
Lemma quiet_sleep ctx d w : quiet w (Sleeper rt ctx d w).2.
Proof.
  unfold Sleeper. case_match; [done |]. case_match; [done |].
  pose proof (dc_timer rt Hrt ctx d w.1) as Ht. by destruct (rt_timer rt ctx d w.1).
Qed.
Lemma Sleeper_error ctx d w e w' : Sleeper rt ctx d w = (Some e, w') -> exists c, e = context_error c.
Proof.
  unfold Sleeper, Context_Err. destruct (rt_Err rt ctx w.1) as [c |]; cbn; [intros [= <- _]; eauto |].
  case_match; [done |]. destruct (rt_timer rt ctx d w.1) as [[c |] s]; [intros [= <- _]; eauto | done].
Qed.

(** ** The breaker and the bulkhead *)
Lemma admit_call_Err policy now b e b' : admit_call policy now b = (Err e, b') -> as_transient e = None.
Proof. unfold admit_call, admit_probe. repeat case_match; intros [= <- <-]; done. Qed.
Lemma Breaker_lawful ign N policy failure next :
  1 <= N -> lawful ign N next -> lawful ign N (Breaker_Decorate rt policy failure next).
Proof.
  intros HN Hnext ctx op do w err w'. unfold Breaker_Decorate.
  pose proof (quiet_elapse w) as Hq. set (w1 := elapse rt w) in *.
  destruct (admit_call _ _ _) as [[granted | e | why] b] eqn:Ha; cbv zeta.
  - destruct (next ctx op do (set_breaker b w1)) as [e1 w2] eqn:Hn. intros [= <- <-].
    destruct (Hnext _ _ _ _ _ _ Hn) as (l & Hr & Hl & Ho). exists l. split_and!; [| done..].
    eapply Runs_after; [eapply Runs_before; [| exact Hr] |]; [by etrans |]. by etrans; [apply quiet_elapse |].
  - intros [= <- <-]. apply lawful_refuses; [done | by eapply admit_call_Err | by etrans].
  - intros [= <- <-]. by apply lawful_refuses; [done | | etrans].
Qed.

Lemma acquire_quiet policy ctx w err w' :
  acquire rt policy ctx w = (err, w') -> quiet w w' /\ forall e, err = Some e -> as_transient e = None.
Proof.
  unfold acquire. destruct (try_admission _) as [b |]; [| intros [= <- <-]; split; [done | by intros e [= <-]]].
  cbv zeta. pose proof (quiet_elapse (set_bulkhead b w)) as Hq. set (w1 := elapse rt _) in *.
  assert (quiet w w1) as Hq1 by (by etrans; [| exact Hq]).
  destruct (try_slot _) as [b2 |]; [intros [= <- <-]; split; [by etrans; [exact Hq1 |] | done] |].
  match goal with |- context [rt_select rt ctx ?d ?s] =>
    pose proof (dc_select rt Hrt ctx d s) as Hs; destruct (rt_select rt ctx d s) as [waited s1] end.
  cbn in Hs. assert (quiet w (s1, w1.2)) as Hq2 by (etrans; [exact Hq1 | done]).
  destruct waited as [| | c]; intros [= <- <-]; (split; [by etrans; [exact Hq2 |] |]);
    intros e [= <-]; [done | by destruct c].
Qed.
Lemma quiet_release w : quiet w (release rt w).
Proof. unfold release. etrans; [apply quiet_elapse |]. etrans; [| apply (quiet_elapse (set_bulkhead _ _))]. done. Qed.
Lemma Bulkhead_lawful ign N policy next :
  1 <= N -> lawful ign N next -> lawful ign N (Bulkhead_Decorate rt policy next).
Proof.
  intros HN Hnext ctx op do w err w'. unfold Bulkhead_Decorate.
  destruct (acquire rt policy ctx w) as [refused w1] eqn:Ha. apply acquire_quiet in Ha as [Hq He].
  destruct refused as [e |]; [intros [= <- <-]; apply lawful_refuses; auto |].
  destruct (next ctx op do w1) as [e1 w2] eqn:Hn. intros [= <- <-].
  destruct (Hnext _ _ _ _ _ _ Hn) as (l & Hr & Hl & Ho). exists l. split_and!; [| done..].
  eapply Runs_after; [by eapply Runs_before | apply quiet_release].
Qed.

(** ** The timeout and the degradation *)
Lemma timeout_classify_carries ctx_err bounded_err e :
  exists e', timeout_classify ctx_err bounded_err (Some e) = Some e' /\ carries e e'.
Proof.
  unfold timeout_classify, ErrCancelled, ErrDeadlineExceeded.
  repeat case_match; eexists; (split; [reflexivity |]); first [done | by apply carries_once; constructor].
Qed.
Lemma Timeout_lawful ign N reserve next :
  1 <= N -> lawful ign N next -> lawful ign N (Timeout_Decorate rt reserve next).
Proof.
  intros HN Hnext ctx op do w err w'. unfold Timeout_Decorate. cbv zeta. case_match.
  { intros [= <- <-]. by apply lawful_refuses. }
  destruct (next _ op do w) as [e1 w2] eqn:Hn. intros [= <- <-].
  destruct (Hnext _ _ _ _ _ _ Hn) as (l & Hr & Hl & Ho). exists l. split_and!; [done | done |].
  destruct e1 as [e |]; [| done].
  destruct (timeout_classify_carries (Context_Err rt ctx w2)
    (Context_Err rt (WithDeadline ctx (sh_clock w.1 + EffectiveDeadline (Context_Deadline ctx) (sh_budget w.1)
       (sh_clock w.1) (ro_Deadline op) reserve)) w2) e) as (e' & -> & Hc).
  by eapply outcome_carried.
Qed.

Definition ignores (mode : Degradation) : bool := match mode with Ignore => true | _ => false end.
Lemma NewDegradation_answer mode answer ctx_err e :
  NewDegradation mode = Ok answer ->
  answer ctx_err None = None /\
  ((ignores mode = true /\ answer ctx_err (Some e) = None) \/
   exists e', answer ctx_err (Some e) = Some e' /\ carries e e').
Proof.
  destruct mode; intros [= <-]; (split; [done |]); cbn.
  1-2: right; by eexists.
  - right. case_match; [by eexists |]. eexists. split; [done | by apply carries_once].
  - case_match; [right; by eexists | by left].
Qed.
Lemma Degradation_lawful N mode answer next :
  NewDegradation mode = Ok answer -> lawful false N next ->
  lawful (ignores mode) N (Degradation_Decorate rt answer next).
Proof.
  intros Hmode Hnext ctx op do w err w'. unfold Degradation_Decorate.
  destruct (next _ op do w) as [e1 w2] eqn:Hn. intros [= <- <-].
  destruct (Hnext _ _ _ _ _ _ Hn) as (l & Hr & Hl & Ho). exists l. split_and!; [done | done |].
  destruct e1 as [e |].
  - destruct (NewDegradation_answer mode answer (Context_Err rt ctx w2) e Hmode)
      as [_ [[Hi ->] | (e' & -> & Hc)]]; [by left |].
    destruct (outcome_carried _ _ _ _ _ Ho Hc) as (H1 & H2 & H3). done.
  - destruct (NewDegradation_answer mode answer (Context_Err rt ctx w2) (Opaque "") Hmode) as [-> _].
    destruct Ho as [? | Ho]; [done | by right].
Qed.

(** ** The retry *)
Notation budget_of := (fun w : World => sh_budget w.1).
Lemma quiet_on_budget f w : quiet w (on_budget budget_of set_budget f w).
Proof. unfold on_budget. by case_match. Qed.
Lemma quiet_ask_budget f w : quiet w (ask_budget budget_of set_budget f w).2.
Proof. unfold ask_budget. case_match; [by destruct (f _) | done]. Qed.
Lemma quiet_report w : quiet w (report_exhaustion budget_of set_budget id w).
Proof.
  unfold report_exhaustion. pose proof (quiet_ask_budget ReportExhaustion w) as Hq.
  by destruct (ask_budget _ _ _ w) as [[] w1].
Qed.
Lemma quiet_arm deadline w : quiet w (armBudget (fun w : World => sh_clock w.1) budget_of set_budget deadline w).
Proof. unfold armBudget. case_match; [apply quiet_on_budget | done]. Qed.

Lemma Evaluate_repeatable i : v_Allowed (Evaluate i) = true -> repeatable (in_Operation i) (in_Err i) = true.
Proof.
  unfold Evaluate. cbv zeta. destruct (repeatable _ _); [done |]. repeat case_match; done.
Qed.
Lemma repeatable_repeats op e : repeatable (ForRetry op) e = true -> repeats op = true.
Proof.
  unfold repeatable, repeats. cbn. destruct (ro_Idempotent op); [done |]. by destruct (ro_EffectAbsent op).
Qed.

Section Retrying.
Context (config : Retry.RetryConfig) (next : Call) (Hnext : lawful false 1 next).
Context (ctx : Context) (op : Resilience.Operation) (do : Do).
Notation round := (retry_round (fun w : World => sh_clock w.1) budget_of set_budget (Context_Deadline ctx)
  (next ctx op do) (Sleeper rt ctx) (fun w => rt_Rand rt w.1) id id).
Notation loop := (retry_loop (fun w : World => sh_clock w.1) budget_of set_budget (Context_Deadline ctx)
  (next ctx op do) (Sleeper rt ctx) (fun w => rt_Rand rt w.1) id id).

Lemma round_traced a claimed waited w r w' :
  round config (ForRetry op) a claimed waited w = (r, w') ->
  exists l, Runs do l w w' /\ len l <= 1 /\
    match r with
    | Answer err => outcome false (repeats op) l err
    | Again _ _ => repeats op = true /\ forall l', l <> None :: l'
    end.
Proof.
  unfold retry_round. destruct (next ctx op do w) as [err w1] eqn:Hn. cbv zeta.
  destruct (Hnext _ _ _ _ _ _ Hn) as (l & Hr & Hl & Ho). assert (len l <= 1) as Hl1 by (by destruct (repeats op)).
  set (w2 := if 0 <? a then _ else w1). assert (quiet w1 w2) as Hq2 by (subst w2; destruct (0 <? a); [apply quiet_on_budget | done]).
  clearbody w2. destruct err as [e |]; [| intros [= <- <-]; exists l; split_and!; [by eapply Runs_after | done..]].
  pose proof (quiet_arm (Context_Deadline ctx) w2) as Hq3.
  set (w3 := armBudget _ _ _ _ w2) in *. clearbody w3.
  assert (Runs do l w w3) as Hr3 by (by eapply Runs_after; [exact Hr | etrans]).
  set (verdict := Evaluate _). destruct (v_Allowed verdict) eqn:Hv; cbn [negb].
  2: { intros [= <- <-]. exists l. split_and!; [| done..].
       eapply Runs_after; [exact Hr3 |]. destruct (bool_decide _); [apply quiet_report | done]. }
  apply Evaluate_repeatable, repeatable_repeats in Hv.
  pose proof (quiet_ask_budget (Reserve (v_Need verdict)) w3) as Hq4.
  destruct (ask_budget _ _ _ w3) as [reserved w4]. cbn [snd] in Hq4.
  assert (Runs do l w w4) as Hr4 by (by eapply Runs_after).
  destruct reserved; cbn [negb].
  2: { intros [= <- <-]. exists l. split_and!; [| done..]. by eapply Runs_after; [| apply quiet_report]. }
  unfold id. pose proof (quiet_sleep ctx (v_Wait verdict) w4) as Hq5.
  destruct (Sleeper rt ctx (v_Wait verdict) w4) as [[slept |] w5] eqn:Hs; cbn [snd] in Hq5; intros [= <- <-];
    exists l; (split_and!; [by eapply Runs_after | done | ..]); [| done | apply Ho].
  destruct (Sleeper_error _ _ _ _ _ Hs) as [c ->].
  eapply outcome_carried; [exact Ho | apply carries_once; constructor].
Qed.

Lemma loop_traced fuel a claimed waited w err w' :
  loop fuel config (ForRetry op) a claimed waited w = (Some err, w') ->
  exists l, Runs do l w w' /\ len l <= (if repeats op then Z.of_nat fuel else 1) /\ outcome false (repeats op) l err.
Proof.
  revert a claimed waited w. induction fuel as [| fuel IH]; intros a claimed waited w; [done |].
  cbn [retry_loop]. destruct (round config (ForRetry op) a claimed waited w) as [[answer | c x] w1] eqn:Hr;
    apply round_traced in Hr as (l & Hr & Hl & Ho).
  - intros [= <- <-]. exists l. split_and!; [done | destruct (repeats op); lia | done].
  - destruct Ho as [Hrep Hnone]. rewrite Hrep in *. intros Hloop.
    destruct (IH _ _ _ _ Hloop) as (l2 & Hr2 & Hl2 & Ho2). exists (l2 ++ l).
    split_and!; [by eapply Runs_app | rewrite len_app; lia |].
    destruct err as [e |]; [| destruct Ho2 as [| [l3 ->]]; [done | right; by eexists]].
    destruct Ho2 as (H1 & _ & H3). split_and!; [| done |].
    + intros l3. destruct l2 as [| x2 l2]; [apply Hnone |]. intros [= -> _]. by eapply H1.
    + destruct H3 as [| (e0 & Hin & Hc)]; [by left | right]. exists e0. split; [set_solver | done].
Qed.
End Retrying.

Lemma Retry_lawful config next :
  retry_config_ok config = Ok () -> lawful false 1 next ->
  lawful false (rc_MaxAttempts config) (Retry_Decorate rt config next).
Proof.
  unfold retry_config_ok. destruct (Z.leb_spec (rc_MaxAttempts config) 0); [done |]. intros _ Hnext.
  intros ctx op do w err w'. unfold Retry_Decorate, NewRetry.
  destruct (match ro_Kind op with UnitOfWorkKind => true | _ => false end).
  { intros [= <- <-]. apply lawful_refuses; [lia | done..]. }
  match goal with |- context [retry_loop ?n ?g ?s ?d ?c ?sl ?r ?c1 ?c2 ?f ?cf ?o ?a ?x ?y w] =>
    destruct (retry_loop_total n g s d c sl r c1 c2 f cf o a x y w) as (answer & w1 & Hr); [lia.. |] end.
  rewrite Hr. intros [= <- <-]. cbn. apply loop_traced in Hr; [| done].
  destruct Hr as (l & Hr & Hl & Ho). rewrite Z2Nat.id in Hl by lia. by exists l.
Qed.

(** ** The composition *)
Lemma lawful_more ign N N' c : lawful ign N c -> N <= N' -> lawful ign N' c.
Proof.
  intros Hc Hle ctx op do w err w' Hr. destruct (Hc _ _ _ _ _ _ Hr) as (l & H1 & H2 & H3).
  exists l. split_and!; [done | destruct (repeats op); lia | done].
Qed.
Lemma lawful_slot {P : Type} ign N (decorator : P -> Call -> Call) (policy : option P) c :
  (forall p c, lawful ign N c -> lawful ign N (decorator p c)) -> lawful ign N c ->
  lawful ign N (match decorator <$> policy with Some d => d c | None => c end).
Proof. intros Hd Hc. destruct policy; cbn; auto. Qed.

Lemma compose_Retry_lawful cfg slot c :
  compose_Retry rt cfg = Ok slot -> lawful false 1 c ->
  lawful false (Z.max 1 (maxAttempts (cc_Sheet cfg))) (match slot with Some d => d c | None => c end).
Proof.
  unfold compose_Retry, maxAttempts. destruct (fld_value (sh_Retry (cc_Sheet cfg))) as [[] |].
  - destruct (retry_config_ok _) as [[] | |] eqn:Hc; intros [= <-] Hl. eapply lawful_more.
    + by apply Retry_lawful.
    + cbn. lia.
  - intros [= <-] Hl. apply (lawful_more _ 1); [done | lia].
  - intros [= <-] Hl. apply (lawful_more _ 1); [done | lia].
Qed.

Definition mode_of (sheet : Sheet) : Degradation := default DegradationBlank (fld_value (sh_Degradation sheet)).
Lemma degrading_lawful N cfg c :
  lawful false N c -> lawful (ignores (mode_of (cc_Sheet cfg))) N (degrading rt identity cfg c).
Proof.
  intros Hc. unfold degrading, identity. fold (mode_of (cc_Sheet cfg)).
  destruct (NewDegradation (mode_of (cc_Sheet cfg))) as [answer | e | why] eqn:Hm; [by apply Degradation_lawful | |];
    by destruct (mode_of (cc_Sheet cfg)).
Qed.

Lemma compose_Build_lawful cfg call :
  compose_Build rt cfg = Ok call ->
  lawful (ignores (mode_of (cc_Sheet cfg))) (Z.max 1 (maxAttempts (cc_Sheet cfg))) call.
Proof.
  unfold compose_Build. destruct (compose_Retry rt cfg) as [slot | e | why] eqn:Hretry; [| done..].
  unfold mbind at 1, result_bind at 1. unfold Compose, build.
  destruct (Sheet_Validate _) as [[] | |]; [| done..]. unfold mbind, result_bind.
  destruct (requireDeclaredAbsences _ _) as [[] | |]; [| done..]. intros [= <-].
  apply degrading_lawful. unfold identity.
  apply lawful_slot; [intros; apply Bulkhead_lawful; [lia | done] |].
  apply lawful_slot; [intros; apply Breaker_lawful; [lia | done] |].
  apply (compose_Retry_lawful cfg slot _ Hretry).
  apply lawful_slot; [intros; apply Timeout_lawful; [lia | done] | apply Direct_lawful].
Qed.

(** ** The transport *)

(** [net/http]'s [Request.isReplayable]: a request its transport may send again by
    itself after it was written. *)
Definition resendable (r : Request) : bool :=
  (bool_decide (rq_Body r = None) || bool_decide (is_Some (rq_GetBody r))) &&
  (bool_decide (rq_Method r ∈ ["GET"; "HEAD"; "OPTIONS"; "TRACE"]) ||
   bool_decide (is_Some (rq_Header r !! "Idempotency-Key")) ||
   bool_decide (is_Some (rq_Header r !! "X-Idempotency-Key"))).

(** What [net/http] documents of a round trip: but for those, a request is written
    once at most, and not at all when dialling failed; the errors are not this
    package's. *)
Record Documented : Prop := {
  tp_once : forall outer a r s, resendable r = false ->
    sent s <= sent (rt_RoundTrip rt outer a r s).2 <= sent s + 1;
  tp_dial : forall outer a r s e s', resendable r = false -> rt_RoundTrip rt outer a r s = (inl e, s') ->
    as_op e = Some "dial"%string -> sent s' = sent s;
  tp_foreign : forall outer a r s e s', rt_RoundTrip rt outer a r s = (inl e, s') ->
    as_transient e = None /\ as_not_sent e = None
}.
Context (Htp : Documented).
Definition foreign_body (req : Request) : Prop :=
  forall e, rq_GetBody req = Some (inl e) -> as_transient e = None.

Lemma resendable_body body req : is_Some (rq_GetBody req) -> resendable req = false -> resendable (with_body body req) = false.
Proof.
  intros Hg. unfold resendable. cbn. rewrite (bool_decide_true (is_Some _)) by done. by rewrite !orb_true_r.
Qed.

Section Attempts.
Context (route : Route) (outer : Context) (req : Request) (hasBody : bool) (Hbody : foreign_body req).
Notation attempt := (attempt_of rt route outer req hasBody).

Lemma attempt_error a s e s' : attempt_ rt outer a req hasBody s = (inl e, s') -> as_transient e = None.
Proof.
  unfold attempt_. destruct (if hasBody then rq_GetBody req else None) as [[e0 | body] |] eqn:Hg.
  - intros [= <- <-]. rewrite <- (Hbody e0); [| by destruct hasBody]. by apply carries_transient, carries_once.
  - intros Hr. by apply (tp_foreign Htp) in Hr as [? _].
  - intros Hr. by apply (tp_foreign Htp) in Hr as [? _].
Qed.

(** The variables of the closure after a run. *)
Record flown (l : list (option error)) (f f' : Flight) : Prop := {
  fw_resends : fl_resends f' = fl_resends f + len l;
  fw_final : forall l', l = None :: l' -> is_Some (fl_final f');
  fw_prefix : exists more, fl_transients f' = fl_transients f ++ more;
  fw_pointer : forall e st p, Some e ∈ l -> as_transient e = Some (st, p) -> is_Some (fl_transients f' !! Z.to_nat p)
}.
Lemma attempt_flown a w r w' : attempt a w = (r, w') -> flown [r] w.2 w'.2.
Proof.
  unfold attempt_of. destruct w as [s f]. cbv zeta.
  destruct (attempt_ rt outer a req hasBody s) as [[e | resp] s1] eqn:Ha.
  - intros [= <- <-]. apply attempt_error in Ha. split; cbn; [done | done | exists []; by rewrite app_nil_r |].
    intros e0 st p [= ->]%list_elem_of_singleton. congruence.
  - case_bool_decide; intros [= <- <-]; (split; cbn; [done | done || (by intros; eexists) | |]).
    + by eexists.
    + intros e0 st p [= ->]%list_elem_of_singleton [= _ <-]. unfold len. rewrite Nat2Z.id.
      by rewrite lookup_app_r, Nat.sub_diag by lia.
    + exists []. by rewrite app_nil_r.
    + by intros e0 st p ?%list_elem_of_singleton.
Qed.
Lemma Runs_flown l w w' : Runs attempt l w w' -> flown l w.2 w'.2.
Proof.
  induction 1 as [w w' [Hq _] | l w w1 a r w2 w3 _ IH Hd [Hq _]].
  - rewrite Hq. split; [unfold len; cbn; lia | done | exists []; by rewrite app_nil_r | set_solver].
  - rewrite Hq. destruct IH as [H1 _ [m1 H3] H4]. apply attempt_flown in Hd as [G1 G2 [m2 G3] G4].
    split.
    + rewrite G1, H1. unfold len. cbn [length]. lia.
    + intros l' [= -> ->]. by eapply G2.
    + exists (m1 ++ m2). by rewrite G3, H3, app_assoc.
    + intros e st p [Hr0 | Hin]%elem_of_cons He; [eapply G4; [by rewrite Hr0; apply list_elem_of_singleton | done] |].
      destruct (H4 e st p Hin He) as [x Hx]. exists x. rewrite G3. by apply lookup_app_l_Some.
Qed.

Context (Hreq : resendable req = false).
Lemma attempt_sent a s r s' :
  attempt_ rt outer a req hasBody s = (r, s') ->
  sent s <= sent s' <= sent s + 1 /\
  (forall e, r = inl e -> as_op e = Some "dial"%string \/ is_Some (as_not_sent e) -> sent s' = sent s).
Proof.
  assert (forall r1 r s', resendable r1 = false -> rt_RoundTrip rt outer a r1 s = (r, s') ->
    sent s <= sent s' <= sent s + 1 /\
    (forall e, r = inl e -> as_op e = Some "dial"%string \/ is_Some (as_not_sent e) -> sent s' = sent s)) as Hrt1.
  { intros r1 r0 s1 H1 Hr. pose proof (tp_once Htp outer a r1 s H1) as Ho. rewrite Hr in Ho. split; [done |].
    intros e -> [Hop | Hns]; [by eapply (tp_dial Htp) |].
    apply (tp_foreign Htp) in Hr as [_ Hn]. rewrite Hn in Hns. by destruct Hns. }
  unfold attempt_. destruct (if hasBody then rq_GetBody req else None) as [[e0 | body] |] eqn:Hg; [| | by apply Hrt1].
  - intros [= <- <-]. split; [lia | done].
  - apply Hrt1, resendable_body; [| done]. destruct hasBody; [by rewrite Hg | done].
Qed.
Lemma Runs_sent l w w' :
  Runs attempt l w w' ->
  sent w.1 <= sent w'.1 <= sent w.1 + len l /\
  (forall e, l = [Some e] -> as_transient e = None ->
     as_op e = Some "dial"%string \/ is_Some (as_not_sent e) -> sent w'.1 = sent w.1).
Proof.
  induction 1 as [w w' [_ Hq] | l w w1 a r w2 w3 Hr [IH _] Hd [_ Hq]]; [rewrite Hq; split; [unfold len; cbn; lia | done] |].
  rewrite Hq. unfold attempt_of in Hd. destruct w1 as [s1 f1]. cbv zeta in Hd.
  destruct (attempt_ rt outer a req hasBody s1) as [answer s2] eqn:Ha. pose proof (attempt_sent _ _ _ _ Ha) as [Hs Hsame].
  assert (w2.1 = s2) as -> by (destruct answer; [| case_bool_decide]; by simplify_eq/=).
  cbn [fst] in IH. split; [unfold len in *; cbn [length]; lia |].
  intros e [= -> ->] Ht Hcase. assert (len (@nil (option error)) = 0) as Hz by done. rewrite Hz in IH.
  destruct answer as [e1 | resp]; [| case_bool_decide; simplify_eq; done]. simplify_eq/=.
  rewrite (Hsame e) by done. lia.
Qed.
End Attempts.

(** ** One request through the client *)
Definition ceiling (cfg : Config) (route : Route) (req : Request) : Z :=
  if Idempotent route && negb (outboundKeyed req) then Z.max 1 (maxAttempts (cg_Sheet cfg)) else 1.

Lemma Outgoing_returns deadline retries now later b why : Outgoing deadline retries now later b <> Panic why.
Proof.
  unfold Outgoing, Budget_Validate, operation_Validate, Require. repeat case_match; simplify_eq/=; done.
Qed.
Lemma Outgoing_Err deadline retries now later b e : Outgoing deadline retries now later b = Err e -> as_transient e = None.
Proof.
  unfold Outgoing, Budget_Validate, operation_Validate, Require. repeat case_match; intros; simplify_eq/=; done.
Qed.
Lemma NewClient_lawful `{MapOrder} cfg c :
  NewClient rt cfg = Ok c ->
  cl_cfg c = cfg /\ lawful (ignores (mode_of (cg_Sheet cfg))) (Z.max 1 (maxAttempts (cg_Sheet cfg))) (cl_call c).
Proof.
  unfold NewClient. destruct (Config_Validate cfg) as [[] | |]; [| done..]. unfold mbind, result_bind.
  destruct (compose_Build rt _) as [call | |] eqn:Hc; [| done..]. intros [= <-]. split; [done |].
  by apply compose_Build_lawful in Hc.
Qed.
Lemma quiet_keyed route req s : sent (keyed_request rt route req s).2 = sent s.
Proof.
  unfold keyed_request. case_match; [| done]. pose proof (dc_NewKey rt Hrt s) as Hk. by destruct (rt_NewKey rt s).
Qed.
Lemma repeats_op_of route retryable : repeats (op_of route retryable) = retryable.
Proof. unfold repeats, op_of. cbn. apply orb_false_r. Qed.

Lemma do_run `{MapOrder} cfg c ctx name route req s answer n s' :
  NewClient rt cfg = Ok c -> cg_Routes cfg !! name = Some route ->
  do_ rt c ctx name req s = (answer, n, s') ->
  (n = 0 /\ sent s' = sent s /\ exists e, answer = Err e /\ as_transient e = None) \/
  exists outer hasBody err l w w',
    sent w.1 = sent s /\ w.2 = mkFlight None 0 [] /\
    Runs (attempt_of rt route outer (keyed_request rt route req (rt_elapse rt s)).1 hasBody) l w w' /\
    len l <= ceiling cfg route req /\
    outcome (ignores (mode_of (cg_Sheet cfg))) (Idempotent route && negb (outboundKeyed req)) l err /\
    answer = finish err w'.2 /\ n = fl_resends w'.2 /\ s' = w'.1.
Proof.
  intros [Hcfg Hlaw]%NewClient_lawful Hroute. unfold do_. rewrite Hcfg, Hroute.
  destruct (negb (String.eqb _ _)); [intros [= <- <- <-]; left; eauto |]. cbv zeta.
  destruct (_ && _ && _); [intros [= <- <- <-]; left; eauto |].
  destruct (Outgoing _ _ _ _ _) as [until | e | why] eqn:Ho; [| | by apply Outgoing_returns in Ho].
  2: { intros [= <- <- <-]. left. apply Outgoing_Err in Ho. eauto. }
  pose proof (quiet_keyed route req (rt_elapse rt s)) as Hk. rewrite (dc_elapse rt Hrt) in Hk.
  destruct (keyed_request rt route req (rt_elapse rt s)) as [req1 s1]. cbn [snd fst] in *.
  destruct (cl_call c _ _ _ _) as [err [s2 f]] eqn:Hcall. intros [= <- <- <-]. right.
  destruct (Hlaw _ _ _ _ _ _ Hcall) as (l & Hr & Hl & Hout). rewrite repeats_op_of in *.
  exists (WithDeadline ctx until), (bool_decide (is_Some (rq_Body req))), err, l,
    (s1, mkFlight None 0 []), (s2, f). done.
Qed.

(** A failure the client answers is no transient response, and no answer of a
    finished call misses its response unless failures are ignored. *)
Lemma finish_cases route outer req hasBody ign rep l w w' err :
  foreign_body req -> w.2 = mkFlight None 0 [] ->
  Runs (attempt_of rt route outer req hasBody) l w w' -> outcome ign rep l err ->
  match finish err w'.2 with
  | Ok _ => True
  | Err e => err = Some e /\ as_transient e = None
  | Panic _ => ign = true
  end.
Proof.
  intros Hb Hw Hr Ho. apply Runs_flown in Hr as [_ Hf _ Hp]; [| done]. destruct err as [e |]; cbn.
  - destruct (as_transient e) as [[st p] |] eqn:Ht; [| done].
    destruct Ho as (_ & _ & [? | (e0 & Hin & Hc)]); [congruence |].
    destruct (Hp e0 st p Hin) as [x Hx]; [by rewrite <- (carries_transient e0 e) |]. by rewrite Hx.
  - destruct (fl_final w'.2) eqn:Hfin; [done |]. destruct Ho as [? | [l' Hl]]; [done |].
    destruct (Hf l' Hl). congruence.
Qed.
Lemma foreign_keyed route req s : foreign_body req -> foreign_body (keyed_request rt route req s).1.
Proof. unfold keyed_request. intros Hb. case_match; [by destruct (rt_NewKey rt s) | done]. Qed.

Lemma ignores_declared sheet : ignores (mode_of sheet) = true -> fld_value (sh_Degradation sheet) = Some Ignore.
Proof. unfold mode_of. by destruct (fld_value (sh_Degradation sheet)) as [[] |]. Qed.

(** The client of a dependency tries a request at most once, or, on an idempotent
    route and without an outbound key, up to its sheet's ceiling of attempts; and
    it answers, unless the sheet ignores failures. *)
Theorem attempts_within_ceiling `{MapOrder} cfg c ctx name route req s answer n s' :
  NewClient rt cfg = Ok c -> cg_Routes cfg !! name = Some route -> foreign_body req ->
  do_ rt c ctx name req s = (answer, n, s') ->
  0 <= n <= ceiling cfg route req /\
  forall why, answer = Panic why -> fld_value (sh_Degradation (cg_Sheet cfg)) = Some Ignore.
Proof.
  intros Hc Hroute Hb Hdo.
  destruct (do_run _ _ _ _ _ _ _ _ _ _ Hc Hroute Hdo)
    as [(-> & _ & e & -> & _) | (outer & hasBody & err & l & w & w' & _ & Hw & Hr & Hl & Ho & -> & -> & _)].
  { split; [unfold ceiling; case_match; lia | done]. }
  pose proof (foreign_keyed route req (rt_elapse rt s) Hb) as Hb'. split.
  - apply Runs_flown in Hr as [Hn _ _ _]; [| done]. rewrite Hn, Hw. cbn. pose proof (len_nonneg l). lia.
  - intros why Hp. pose proof (finish_cases _ _ _ _ _ _ _ _ _ _ Hb' Hw Hr Ho) as Hfin. rewrite Hp in Hfin.
    by apply ignores_declared.
Qed.

Lemma keyed_untouched route req0 key req s :
  WithOutboundKey route req0 key = Ok req -> keyed_request rt route req s = (req, s).
Proof.
  unfold WithOutboundKey, keyed_request. destruct (String.eqb_spec key ""); [by rewrite orb_true_r |].
  repeat case_match; intros [= <-]; cbn in *; [| done].
  unfold Header_Get, Header_Values, Header_Set in *. cbn in *.
  match goal with Hx : _ && _ = true |- _ => rewrite lookup_insert_eq in Hx; cbn in Hx;
    apply andb_true_iff in Hx as [_ Hx%String.eqb_eq] end. done.
Qed.
Lemma keyed_not_resendable route req0 key req :
  rq_Method req0 = MethodPost -> rq_Header req0 !! "Idempotency-Key" = None ->
  rq_Header req0 !! "X-Idempotency-Key" = None -> WithOutboundKey route req0 key = Ok req ->
  resendable req = false /\ outboundKeyed req = true /\ rq_GetBody req = rq_GetBody req0.
Proof.
  intros Hm H1 H2. unfold WithOutboundKey. case_match; [done |]. case_bool_decide as Hk; [done |]. intros [= <-].
  split; [| done]. unfold resendable, Header_Set. cbn.
  rewrite Hm, !lookup_insert_ne, H1, H2 by (intros Heq; apply Hk; rewrite Heq; set_solver).
  apply andb_false_r.
Qed.

Lemma classify_failure table e :
  as_transient e = None ->
  let class := OutcomeTable_Classify table None (Some e) in
  class ∈ [ClassFinalValidation; ClassRetryableTransport; ClassUnknownSent] /\
  (class <> ClassUnknownSent -> as_op e = Some "dial"%string \/ is_Some (as_not_sent e)).
Proof.
  intros He. cbn. rewrite He. destruct (as_not_sent e); cbn.
  - split; [| by eauto]. unfold classifyUnsent. repeat case_match; set_solver.
  - destruct (as_op e) as [op |]; [| split; [set_solver | done]].
    destruct (String.eqb_spec op "dial") as [-> |]; (split; [set_solver | first [done | by auto]]).
Qed.

(** C12: A command sent under an outbound key reaches the partner at most once, and the
    class of a failure is honest: it is one of the three that tell what was sent,
    and unless it is the one that does not know, nothing was; and the client
    answers, unless the sheet ignores failures. *)
Theorem keyed_command_classed `{MapOrder} cfg c ctx name route req0 key req table s answer s' :
  NewClient rt cfg = Ok c -> cg_Routes cfg !! name = Some route ->
  rq_Method req0 = MethodPost -> rq_Header req0 !! "Idempotency-Key" = None ->
  rq_Header req0 !! "X-Idempotency-Key" = None -> foreign_body req0 ->
  WithOutboundKey route req0 key = Ok req ->
  Client_Do rt c ctx name req s = (answer, s') ->
  sent s <= sent s' <= sent s + 1 /\
  (forall e, answer = Err e ->
     let class := OutcomeTable_Classify table None (Some e) in
     class ∈ [ClassFinalValidation; ClassRetryableTransport; ClassUnknownSent] /\
     (class <> ClassUnknownSent -> sent s' = sent s)) /\
  (forall why, answer = Panic why -> fld_value (sh_Degradation (cg_Sheet cfg)) = Some Ignore).
Proof.
  intros Hc Hroute Hm H1 H2 Hb Hkey. unfold Client_Do.
  destruct (do_ rt c ctx name req s) as [[a n] s1] eqn:Hdo.
  destruct (keyed_not_resendable _ _ _ _ Hm H1 H2 Hkey) as (Hres & Hmark & Hget).
  assert (foreign_body req) as Hbr by (unfold foreign_body; by rewrite Hget).
  assert (forall e, as_transient (notSentError e) = as_transient e) as Hns by done.
  destruct (do_run _ _ _ _ _ _ _ _ _ _ Hc Hroute Hdo)
    as [(-> & Hs & e & -> & He) | (outer & hasBody & err & l & w & w' & Hsw & Hw & Hr & Hl & Ho & -> & -> & ->)].
  { cbn. intros [= <- <-]. rewrite Hs. split_and!; [lia.. | | done]. intros e' [= <-].
    split; [| done]. by apply classify_failure. }
  unfold ceiling in Hl. rewrite Hmark, andb_false_r in *. rewrite (keyed_untouched _ _ _ _ _ Hkey) in Hr. cbn [fst] in Hr.
  pose proof (finish_cases _ _ _ _ _ _ _ _ _ _ Hbr Hw Hr Ho) as Hfin.
  pose proof (Runs_flown _ _ _ _ Hbr _ _ _ Hr) as [Hn _ _ _]. rewrite Hw in Hn. cbn in Hn.
  pose proof (Runs_sent _ _ _ _ Hres _ _ _ Hr) as [Hsent Hsame]. rewrite Hsw in *.
  destruct (finish err w'.2) as [resp | e | why]; intros [= <- <-]; (split; [lia |]); split; try done.
  2: { intros _ _. by apply ignores_declared. }
  intros e' [= <-]. destruct Hfin as [-> He]. destruct Ho as (Hnone & Hlast & _).
  destruct l as [| x l]; [rewrite Hn; cbn; split; [by apply classify_failure | unfold len in Hsent; cbn in Hsent; lia] |].
  destruct l; [| unfold len in Hl; cbn in Hl; lia]. destruct x as [e0 |]; [| by destruct (Hnone [])].
  specialize (Hlast eq_refl e0 [] eq_refl). rewrite Hn. unfold len. cbn [length].
  change (0 + Z.of_nat 1 =? 0) with false. cbv iota. pose proof (classify_failure table e He) as [Hin Hcase].
  split; [done |]. intros Hclass. specialize (Hcase Hclass).
  rewrite (carries_op e0 e), (carries_not_sent e0 e) in Hcase by done.
  apply (Hsame e0); [done | by rewrite <- (carries_transient e0 e) | done].
Qed.
End Laws.

(** * The edge *)

(** What a route demands of the identity a credential is vouched for with. *)
Definition demands_met (route : Route) (identity : Identity) : Prop :=
  (RequiresSubject route = true ->
     id_Subject identity <> "" /\ ru_Permission route <> "" /\ ru_Permission route ∈ id_Permissions identity) /\
  (RequiresTenant route = true -> is_Some (id_Tenant identity)).
(** Every field of a request that asserts a subject or a tenant says what was resolved. *)
Definition assertions_agree (header : Header) (query : gmap string (list string)) (resolved : Resolved) : Prop :=
  (forall v, v ∈ Header_Values header "X-Subject-ID" -> rv_Subject resolved = Some v) /\
  (forall v, v ∈ Header_Values header "X-Tenant-ID" -> rv_Tenant resolved = Some v) /\
  (forall v, v ∈ default [] (query !! "tenant_id"%string) -> rv_Tenant resolved = Some v).

Lemma diverges_false asserted resolved :
  diverges asserted resolved = false <-> forall v, v ∈ asserted -> resolved = Some v.
Proof.
  unfold diverges. rewrite <- not_true_iff_false, existsb_exists. split.
  - intros Hn v Hv. destruct (decide (Some v = resolved)) as [| Hne]; [done |].
    destruct Hn. exists v. rewrite bool_decide_false by done. by split; [apply list_elem_of_In |].
  - intros Hall (v & Hv%list_elem_of_In & Hd). by rewrite (Hall v Hv), bool_decide_true in Hd.
Qed.
Lemma RefuseAssertedIdentity_zero header query resolved :
  (RefuseAssertedIdentity header query resolved).1 = 0 <-> assertions_agree header query resolved.
Proof.
  unfold RefuseAssertedIdentity, assertions_agree, assertedSubject, assertedTenant, assertedQuery.
  cbn [existsb]. rewrite !orb_false_r, <- !diverges_false.
  destruct (diverges _ _), (diverges _ _), (diverges _ _); cbn; unfold StatusForbidden; split; try tauto; try done;
    intros (? & ? & ?); done.
Qed.
Lemma resolve_vouched_zero route identity :
  ((resolve_vouched route identity).1.2 = 0 <-> demands_met route identity) /\
  (demands_met route identity ->
     (resolve_vouched route identity).1.1 = mkResolved (Some (id_Subject identity)) (id_Tenant identity) (id_Permissions identity)) /\
  ((resolve_vouched route identity).1.2 = StatusUnauthorized ->
     RequiresSubject route = true /\ id_Subject identity = "").
Proof.
  unfold resolve_vouched, demands_met.
  destruct (RequiresSubject route), (RequiresTenant route); cbn [andb];
    destruct (String.eqb_spec (id_Subject identity) ""), (String.eqb_spec (ru_Permission route) "");
    destruct (bool_decide_reflect (ru_Permission route ∈ id_Permissions identity));
    destruct (id_Tenant identity) as [t |]; cbn; unfold StatusUnauthorized, StatusForbidden;
    split_and!; try done; try (split; [done |]); try (intros [H1 H2]);
    try (specialize (H1 eq_refl)); try (specialize (H2 eq_refl)); try (destruct H2); try tauto; try done; naive_solver.
Qed.

Lemma ResolveIdentity_run {S} (authenticate : Credential -> M S error Identity) route credential (w : S) resolved
    status reason w' :
  ResolveIdentity authenticate route credential w = (Ok (resolved, status, reason), w') ->
  (Presented credential = false /\ w' = w /\ resolved = noResolved /\
     ((RequiresSubject route || RequiresTenant route = true /\ status = StatusUnauthorized) \/
      (RequiresSubject route = false /\ RequiresTenant route = false /\ status = 0))) \/
  (Presented credential = true /\
     ((exists identity, authenticate credential w = (Ok identity, w') /\
         resolve_vouched route identity = (resolved, status, reason)) \/
      ((exists e, authenticate credential w = (Err e, w')) /\ status = StatusUnauthorized))).
Proof.
  unfold ResolveIdentity. destruct (Presented credential); cbn [negb].
  - unfold mbind, M_bind, attempt. destruct (authenticate credential w) as [[identity | e | why] w1]; [| | done].
    + intros [= H <-]. right. split; [done | left]. by eexists.
    + intros [= <- <- <- <-]. right. split; [done | right]. split; [by eexists | done].
  - destruct (RequiresSubject route || RequiresTenant route) eqn:Hr; intros [= <- <- <- <-]; left; split_and!; auto.
    apply orb_false_iff in Hr as [? ?]. auto.
Qed.
Lemma granted_reach ctx route :
  PlatformReachFrom ctx <> Some ReachAllTenants ->
  PlatformReachFrom (WithVerifiedPlatformReach ctx route) = Some ReachAllTenants ->
  ru_PlatformReach route = ReachAllTenants /\ RequiresSubject route = true.
Proof.
  unfold WithVerifiedPlatformReach. case_bool_decide; [| done]. case_bool_decide as Hr; [| done].
  intros _ _. split; [done |]. unfold RequiresSubject. by rewrite Hr.
Qed.

(** C21: The edge lets a request through exactly when what its route demands was vouched
    for, a named subject that holds the route's permission and a tenant, and no
    field of the request asserts another subject or tenant; it answers that the
    caller is not authenticated only to one nobody vouched for; and it grants the
    reach over all tenants only to a subject that holds the permission of a route
    declaring it. *)
Theorem edge_admits_exactly {S} (authenticate : Credential -> M S error Identity) route credential header query
    (w : S) resolved status reason w' ctx :
  ResolveIdentity authenticate route credential w = (Ok (resolved, status, reason), w') ->
  let let_through := status = 0 /\ (RefuseAssertedIdentity header query resolved).1 = 0 in
  let vouched identity := Presented credential = true /\ authenticate credential w = (Ok identity, w') in
  (let_through <->
     assertions_agree header query resolved /\
     ((Presented credential = false /\ RequiresSubject route = false /\ RequiresTenant route = false /\
       resolved = noResolved) \/
      exists identity, vouched identity /\ demands_met route identity /\
        resolved = mkResolved (Some (id_Subject identity)) (id_Tenant identity) (id_Permissions identity))) /\
  (status = StatusUnauthorized ->
     ~ exists identity, vouched identity /\ id_Subject identity <> "") /\
  (status = 0 -> PlatformReachFrom ctx <> Some ReachAllTenants ->
     PlatformReachFrom (WithVerifiedPlatformReach ctx route) = Some ReachAllTenants ->
     ru_PlatformReach route = ReachAllTenants /\
     exists identity, vouched identity /\ id_Subject identity <> "" /\ ru_Permission route ∈ id_Permissions identity).
Proof.
  intros Hres. cbv zeta. rewrite RefuseAssertedIdentity_zero.
  apply ResolveIdentity_run in Hres
    as [(Hp & -> & -> & Hcase) | (Hp & [(identity & Hauth & Hv) | [[e Hauth] ->]])].
  - rewrite Hp. split_and!.
    + destruct Hcase as [[Hor ->] | (Hs & Ht & ->)].
      * split; [by intros [? _] |]. intros [_ [(_ & Hs & Ht & _) | (? & [? _] & _)]]; [by rewrite Hs, Ht in Hor | done].
      * split; [intros [_ ?]; split; [done | by left] | by intros [? _]].
    + by intros _ (? & [? _] & _).
    + intros Hst Hn [_ Hsub]%granted_reach; [| done].
      destruct Hcase as [[_ Hst'] | (Hs & _)]; [by rewrite Hst in Hst' | congruence].
  - pose proof (resolve_vouched_zero route identity) as (Hz & Hval & Hun). rewrite Hv in Hz, Hval, Hun. cbn in *.
    rewrite Hp. assert (forall i, true = true /\ authenticate credential w = (Ok i, w') -> i = identity) as Hone.
    { intros i [_ Hi]. congruence. }
    split_and!.
    + rewrite Hz. split.
      * intros [Hd Ha]. split; [done | right]. exists identity. auto.
      * intros [Ha [(? & _) | (i & Hi & Hd & _)]]; [done |]. by rewrite (Hone i Hi) in Hd.
    + intros Hst (i & Hi & Hne). destruct (Hun Hst) as [_ Hempty]. by rewrite (Hone i Hi) in Hne.
    + intros Hst Hn [Hreach Hsub]%granted_reach; [| done]. split; [done |]. exists identity.
      apply Hz in Hst as [Hs _]. destruct (Hs Hsub) as (? & _ & ?). auto.
  - rewrite Hp. split_and!.
    + split; [by intros [? _] |]. intros [_ [(? & _) | (i & [_ Hi] & _)]]; [done | congruence].
    + intros _ (i & [_ Hi] & _). congruence.
    + done.
Qed.

(** * Witnesses *)

(** A transport that writes every request and then loses the connection. *)
Definition losing : Runtime (Env := Z) :=
  mkRuntime (fun _ _ => None) id (fun _ _ s => (TimerFired, s)) (fun _ _ s => (None, s)) (fun _ => None)
    (fun s => ("generated"%string, s))
    (fun _ _ _ s => (inl (OpError "read" None),
       mkShared (sh_clock s) (sh_budget s) (sh_breaker s) (sh_bulkhead s) (sh_env s + 1))).
Definition charge : Route :=
  mkRoute "charge" MethodPost "/charges" "payments.v1"
    (mkHopBudget "payments" "Charge" (2 * Second) DefaultSlack (500 * Millisecond)) [503] "Request-Key"
    RequireSubjectAndTenant ReachUndeclared "payments.charge".
Definition payments : Config := mkConfig {[ "charge"%string := charge ]} (Resilience.Defaults "payments") true.
Definition payments_client : Client :=
  match @NewClient Z losing by_key payments with Ok c => c | _ => mkClient payments Direct end.
Definition order_body : Request := mkRequest MethodPost ∅ (Some [49]) (Some (inr [49])) false.
Definition order_keyed : Request :=
  mkRequest MethodPost {[ "Request-Key"%string := ["k-1"%string] ]} (Some [49]) (Some (inr [49])) true.
Definition rested : Shared (Env := Z) :=
  mkShared 0 (Some (WithTotal Second newBudget)) NewBreaker (NewBulkhead (mkBulkheadPolicy 16 16 100)) 0.
Definition charge_table : OutcomeTable := mkOutcomeTable "v1" {[ 201 := ClassAccepted ]}.

Lemma losing_discreet : Discreet id losing.
Proof. by split. Qed.
Lemma losing_documented : Documented id losing.
Proof.
  split.
  - intros outer a r s _. unfold sent. cbn. lia.
  - intros outer a r s e s' _ [= <- <-] Hop. by vm_compute in Hop.
  - by intros outer a r s e s' [= <- <-].
Qed.

Lemma payments_client_new : @NewClient Z losing by_key payments = Ok payments_client.
Proof.
  assert (is_Ok (@NewClient Z losing by_key payments) = true) as Hok by (vm_compute; reflexivity).
  unfold payments_client. by destruct (@NewClient Z losing by_key payments).
Qed.

Lemma keyed_command_classed_witness :
  let answer := Client_Do losing payments_client (CallerContext (Some (5 * Second))) "charge" order_keyed rested in
  0 <= sh_env answer.2 <= 0 + 1 /\
  (forall e, answer.1 = Err e ->
     OutcomeTable_Classify charge_table None (Some e)
       ∈ [ClassFinalValidation; ClassRetryableTransport; ClassUnknownSent] /\
     (OutcomeTable_Classify charge_table None (Some e) <> ClassUnknownSent -> sh_env answer.2 = 0)) /\
  (forall why, answer.1 = Panic why -> Some Fail_ = Some Ignore).
Proof.
  intros answer. destruct answer as [a s'] eqn:Ha. subst answer.
  apply (@keyed_command_classed Z id losing losing_discreet losing_documented by_key payments payments_client
    (CallerContext (Some (5 * Second))) "charge" charge order_body "k-1" order_keyed charge_table rested a s').
  - exact payments_client_new.
  - vm_compute. reflexivity.
  - reflexivity.
  - reflexivity.
  - reflexivity.
  - intros e He. discriminate He.
  - vm_compute. reflexivity.
  - exact Ha.
Defined.
(** The connection was lost after the write: the class does not know. *)
Example lost_is_unknown :
  let answer := Client_Do losing payments_client (CallerContext (Some (5 * Second))) "charge" order_keyed rested in
  sh_env answer.2 = 1 /\
  match answer.1 with Err e => OutcomeTable_Classify charge_table None (Some e) = ClassUnknownSent | _ => False end.
Proof. vm_compute. done. Qed.
(** A sheet that ignores failures: the failed call answers nil, and the client
    dereferences the response it does not have. *)
Definition ignoring : Config :=
  let d := Resilience.Defaults "payments" in
  mkConfig {[ "charge"%string := charge ]}
    (mkSheet (sh_Dependency d) (sh_Deadline d) (sh_Retry d) (sh_Budget d) (sh_Backoff d) (sh_MaxAttempts d)
       (sh_Breaker d) (sh_Bulkhead d) (sh_RateLimit d) (sh_Cache d) (Declare_ Ignore) []) true.
Example ignored_failure_panics :
  match @NewClient Z losing by_key ignoring with
  | Ok c =>
      match (Client_Do losing c (CallerContext (Some (5 * Second))) "charge" order_keyed rested).1 with
      | Panic _ => True | _ => False end
  | _ => False
  end.
Proof. vm_compute. exact I. Qed.

Definition someone : Identity := mkIdentity "s-1" (Some "t-1"%string) ["payments.charge"].
Lemma edge_admits_exactly_witness :
  let resolved := mkResolved (Some "s-1"%string) (Some "t-1"%string) ["payments.charge"%string] in
  let authenticate : Credential -> M unit error Identity := fun _ => mret someone in
  let credential := mkCredential "Bearer" "token" in
  let let_through := 0 = 0 /\ (RefuseAssertedIdentity ∅ ∅ resolved).1 = 0 in
  let vouched identity := Presented credential = true /\ authenticate credential () = (Ok identity, ()) in
  (let_through <->
     assertions_agree ∅ ∅ resolved /\
     ((Presented credential = false /\ RequiresSubject charge = false /\ RequiresTenant charge = false /\
       resolved = noResolved) \/
      exists identity, vouched identity /\ demands_met charge identity /\
        resolved = mkResolved (Some (id_Subject identity)) (id_Tenant identity) (id_Permissions identity))) /\
  (0 = StatusUnauthorized -> ~ exists identity, vouched identity /\ id_Subject identity <> "") /\
  (0 = 0 -> PlatformReachFrom Background <> Some ReachAllTenants ->
     PlatformReachFrom (WithVerifiedPlatformReach Background charge) = Some ReachAllTenants ->
     ru_PlatformReach charge = ReachAllTenants /\
     exists identity, vouched identity /\ id_Subject identity <> "" /\ ru_Permission charge ∈ id_Permissions identity).
Proof.
  intros resolved authenticate credential.
  apply (edge_admits_exactly authenticate charge credential ∅ ∅ () resolved 0 "" () Background).
  vm_compute. reflexivity.
Defined.
