(* ===== verification/Sqs.v ===== *)
(** SQS and SNS ([src/libs/backend/go/sqs]): what is published and how a received
    body is read back, the quarantine, the publisher's configuration and its check
    of a topic, the classification of the SDK's errors; and the consumer: the
    gesture of a receipt against its heartbeat, and the slots of the workers, as
    interleavings of goroutines.

    The SDK is a parameter: a send is a function on the world, and the broker's
    answers are steps of the environment.  [time.Format], SHA-256 and what
    [encoding/json] reads in a text are parameters too. *)

From S2P Require Import Prelude GoTime GoStrings GoSlices DomainKernel Errors Ports Envelope Consumer Channel S3Store Retry Breaker Resilience HttpClient S3Theorems.

(** * Errors ([errors.go]) *)
Definition ErrNotSQSChannel : error := Sentinel "sqs.ErrNotSQSChannel".
Definition ErrIncompleteSqsConfig : error := Sentinel "sqs.ErrIncompleteConfig".
Definition ErrTLSRequired : error := Sentinel "sqs.ErrTLSRequired".
Definition ErrSinkPanicked : error := Sentinel "sqs.ErrSinkPanicked".
Definition ErrIncompleteConsumer : error := Sentinel "sqs.ErrIncompleteConsumer".
Definition ErrInvalidEnvelope : error := Sentinel "sqs.ErrInvalidEnvelope".
Definition ErrInvalidBody : error := Sentinel "sqs.ErrInvalidBody".
Definition ErrMessageTooLarge : error := Sentinel "sqs.ErrMessageTooLarge".
Definition ErrTooManyAttributes : error := Sentinel "sqs.ErrTooManyAttributes".
Definition ErrSNSEnvelopeNotRaw : error := Sentinel "sqs.ErrSNSEnvelopeNotRaw".
Definition ErrRawDeliveryRequired : error := Sentinel "sqs.ErrRawDeliveryRequired".
Definition ErrFilterOnFifoTopic : error := Sentinel "sqs.ErrFilterOnFifoTopic".
Definition ErrNoSubscriptions : error := Sentinel "sqs.ErrNoSubscriptions".
Definition ErrOrderingMismatch : error := Sentinel "sqs.ErrOrderingMismatch".
Definition ErrInlineRetryOnSQS : error := Sentinel "sqs.ErrInlineRetryOnSQS".
Definition ErrDeadlineOverVisibility : error := Sentinel "sqs.ErrDeadlineOverVisibility".
Definition ErrAlreadyDisposed : error := Sentinel "sqs.ErrAlreadyDisposed".
Definition ErrInvalidContainment : error := Sentinel "sqs.ErrInvalidContainment".

(** * Configuration ([config.go]) *)
Record SqsConfig := mkSqsConfig {
  qc_Region : string;
  qc_Endpoint : string;
  qc_Insecure : bool;
  qc_Catalog : Catalog;
  qc_Sheet : Sheet;
  qc_HasClock : bool
}.
Definition SqsConfig_Validate `{MapOrder} (c : SqsConfig) : result error unit :=
  if String.eqb (qc_Region c) "" then Err (Wrap "aws region" ErrIncompleteSqsConfig)
  else if negb (qc_HasClock c) then Err (Wrap "clock" ErrIncompleteSqsConfig)
  else if bool_decide (qc_Catalog c = ∅) then Err (Wrap "catalogue declares no channel" ErrIncompleteSqsConfig)
  else if negb (String.eqb (qc_Endpoint c) "") && negb (HasPrefix (qc_Endpoint c) "https://") && negb (qc_Insecure c)
  then Err ErrTLSRequired
  else _ ← Catalog_Validate ranged (qc_Catalog c); Sheet_Validate (qc_Sheet c).

Definition fifo_suffix : string := ".fifo".
(** The last bytes of the address, when there is more than the suffix. *)
Definition IsFIFO (ch : Channel.Channel) : bool :=
  Nat.ltb (String.length fifo_suffix) (String.length (ch_Address ch)) &&
  String.eqb (String.substring (String.length (ch_Address ch) - String.length fifo_suffix)
                (String.length fifo_suffix) (ch_Address ch)) fifo_suffix.
Definition over_sqs (ch : Channel.Channel) : bool :=
  String.eqb (ch_Transport ch) SQS || String.eqb (ch_Transport ch) SNSSQS.
Definition Config_Channel (c : SqsConfig) (destination : string) : result error Channel.Channel :=
  ch ← Catalog_Resolve (qc_Catalog c) destination;
  if negb (over_sqs ch) then Err (Wrap (ch_Name ch) ErrNotSQSChannel)
  else if negb (Bool.eqb (IsFIFO ch) (String.eqb (or_Unit (ch_Ordering ch)) Group))
  then Err (Wrap (ch_Name ch) ErrOrderingMismatch)
  else Ok ch.

(** * The body ([body.go]) *)
Definition EncodeBody (envelope : bytes) : string := S3Store.EncodeToString envelope.
Record snsNotification := mkSnsNotification { sn_Type : string; sn_TopicArn : string; sn_Message : option string }.

Section Body.
(** What [json.Valid] and [json.Unmarshal] make of a text. *)
Context (notification_in : string -> option snsNotification).
Definition isSNSNotification (body : string) : bool :=
  match body with
  | String c _ =>
      if negb (Ascii.eqb c "{"%char) then false
      else match notification_in body with
           | None => false
           | Some n => String.eqb (sn_Type n) "Notification" && negb (String.eqb (sn_TopicArn n) "")
                       && bool_decide (is_Some (sn_Message n))
           end
  | EmptyString => false
  end.
Definition DecodeBody (body : string) : result error bytes :=
  if isSNSNotification body then Err ErrSNSEnvelopeNotRaw
  else match S3Store.DecodeString body with
       | None => Err (Wrap "body" ErrInvalidBody)
       | Some raw => Ok raw
       end.
End Body.

(** * Publication ([publisher.go], [derive.go]) *)
Definition MaxMessageBytes : Z := 256 * 1024.
Definition MaxAttributes : Z := 10.
Definition AttrPublishedAt : string := "dmpf-published-at".
Definition string_len (s : string) : Z := Z.of_nat (String.length s).
Definition attributesSize (attributes : gmap string string) : Z :=
  map_fold (fun k v size => size + (string_len k + string_len v)) 0 attributes.

Record message := mkMessage {
  ms_body : string;
  ms_groupID : string;
  ms_dedupID : string;
  ms_attributes : gmap string string
}.
(** What is handed to the SDK. *)
Record SendInput := mkSendInput {
  si_Target : string;                             (* the queue's URL, or the topic's ARN *)
  si_Body : string;
  si_Group : option (string * string);            (* group and deduplication *)
  si_Attributes : gmap string string
}.

Section Publication.
Context `{ProtoCodec} (sha256 : bytes -> bytes) (rfc3339 : Instant -> string).

(** [binary.BigEndian.PutUint64] of a length. *)
Definition PutUint64 (v : Z) : bytes := map (fun i => Z.land (Z.shiftr v (8 * i)) 255) [7; 6; 5; 4; 3; 2; 1; 0].
Definition digest_input (fields : list string) : bytes :=
  fields ≫= (fun f => PutUint64 (string_len f) ++ bytes_of f).
Definition digest (fields : list string) : string := Envelope.EncodeToString (sha256 (digest_input fields)).
Definition GroupID (partitionKey : string) : string := digest [partitionKey].
Definition DedupID (source id payloadHash : string) : string := digest [source; id; payloadHash].

Definition prepare (ch : Channel.Channel) (raw : bytes) (now : Instant) (extra : gmap string string) : result error message :=
  match Unmarshal raw with
  | Panic why => Panic why
  | Err _ => Err (Wrap (ch_Name ch) ErrInvalidEnvelope)
  | Ok env =>
      let body := EncodeBody raw in
      if MaxMessageBytes <? string_len body then Err (Wrap (ch_Name ch) ErrMessageTooLarge)
      else
        let attributes := extra ∪ {[ AttrPublishedAt := rfc3339 now ]} in
        if MaxAttributes <? Z.of_nat (size attributes) then Err (Wrap (ch_Name ch) ErrTooManyAttributes)
        else if MaxMessageBytes <? string_len body + attributesSize attributes
        then Err (Wrap (ch_Name ch) ErrMessageTooLarge)
        else if IsFIFO ch then
          Ok (mkMessage body (GroupID (env_PartitionKey env))
                (DedupID (env_Source env) (env_ID env) (Sum sha256 (env_Payload env))) attributes)
        else Ok (mkMessage body "" "" attributes)
  end.
Definition send_input (ch : Channel.Channel) (m : message) : SendInput :=
  mkSendInput (ch_Address ch) (ms_body m)
    (if String.eqb (ms_groupID m) "" then None else Some (ms_groupID m, ms_dedupID m)) (ms_attributes m).

(** [compose.Operation]. *)
Definition compose_Operation (sheet : Sheet) (method : string) (idempotent : bool) : Resilience.Operation :=
  let deadline := default 0 (fld_value (sh_Deadline sheet)) in
  mkResOperation (sh_Dependency sheet) method Remote idempotent None deadline
    (Z.max (Z.quot deadline 4) Millisecond).

Section Send.
Context {Env : Type} (rt : Runtime (Env := Env)).
(** [SendMessage] and [Publish] of the SDK. *)
Context (send : SendInput -> Shared (Env := Env) -> option error * Shared (Env := Env)).

Definition send_attempt (input : SendInput) : Do (Env := Env) := fun _ w =>
  let '(err, s) := send input w.1 in (err, (s, w.2)).
(** The publisher of queues ([SQS]) and that of topics ([SNSSQS]). *)
Definition Publish (own : Transport) (c : SqsConfig) (call : Call (Env := Env)) (ctx : Context)
    (destination : string) (raw : bytes) (w : World) : result error unit * World :=
  match Config_Channel c destination with
  | Panic why => (Panic why, w)
  | Err err => (Err err, w)
  | Ok ch =>
      if negb (String.eqb (ch_Transport ch) own) then (Err (Wrap (ch_Name ch) ErrNotSQSChannel), w)
      else match prepare ch raw (sh_clock w.1) ∅ with
      | Panic why => (Panic why, w)
      | Err err => (Err err, w)
      | Ok m =>
          let '(err, w) := call ctx (compose_Operation (qc_Sheet c) ("publish " ++ ch_Name ch) true)
                             (send_attempt (send_input ch m)) w in
          (match err with Some e => Err e | None => Ok () end, w)
      end
  end.
End Send.

(** * Quarantine ([dlq.go]) *)
Definition AttrReason : string := "dmpf-reason".
Definition AttrConsumer : string := "dmpf-consumer".
Definition AttrError : string := "dmpf-error".
Definition AttrMessageID : string := "dmpf-message-id".
Definition AttrContainedAt : string := "dmpf-contained-at".
Definition AttributeValueLimit : Z := 1024.
Definition fnd07Categories : list string :=
  map category_string [Validation; DomainRejection; NotFound; Conflict; Forbidden; Unauthenticated;
    TransientDependency; RateLimited; DeadlineExceeded; Cancelled; Unexpected].
Definition categoryOfText (text : string) : string :=
  if bool_decide (text ∈ fnd07Categories) then text else "_OTHER".
(** [strings.ToValidUTF8] of the cut with nothing in place of what is invalid. *)
Definition bounded (valid : string -> string) (s : string) : string :=
  if string_len s <=? AttributeValueLimit then s
  else valid (String.substring 0 (Z.to_nat AttributeValueLimit) s).
(** The text of a reason ([ports/containment.go]). *)
Definition Reason_text (reason : Consumer.Reason) : string :=
  match reason with
  | ReasonInvalidEnvelope => "invalid-envelope"
  | ReasonTerminalFailure => "terminal-failure"
  | ReasonCollision => "collision"
  | ReasonAttemptsExhausted => "attempts-exhausted"
  | ReasonUntrustedBoundary => "untrusted-boundary"
  | ReasonUndeclaredType => "undeclared-type"
  | ReasonOther text => text
  end.
Definition with_attempt (n : option Z) (attributes : gmap string string) : gmap string string :=
  match n with Some n => <[Channel.Header := Channel.Encode n]> attributes | None => attributes end.
Definition Quarantine_input (valid : string -> string) (ch : Channel.Channel) (attempt_ : option Z) (c : Contained)
    : result error SendInput :=
  if String.eqb (con_Consumer c) "" || String.eqb (Reason_text (con_Reason c)) "" || bool_decide (con_Envelope c = [])
  then Err ErrInvalidContainment
  else
    let body := EncodeBody (con_Envelope c) in
    let attributes : gmap string string :=
      <[AttrContainedAt := rfc3339 (con_At c)]> (<[AttrMessageID := bounded valid (con_MessageID c)]>
        (<[AttrConsumer := con_Consumer c]> {[ AttrReason := Reason_text (con_Reason c) ]})) in
    let attributes := if String.eqb (con_Error c) "" then attributes
                      else <[AttrError := categoryOfText (con_Error c)]> attributes in
    let attributes := with_attempt attempt_ attributes in
    if MaxMessageBytes <? string_len body + attributesSize attributes
    then Err (Wrap "containment" ErrMessageTooLarge)
    else
      let group :=
        if IsFIFO (mkChannel "" "" (ch_Containment ch) [] 0 (mkOrdering "" "") (mkRedeliveryWindow "" ∅ 0) ""
                     (mkRetry "" 0) "" 0 "" "" "") then
          Some match Unmarshal (con_Envelope c) with
               | Ok env => (GroupID (env_PartitionKey env),
                            DedupID (env_Source env) (env_ID env) (Sum sha256 (env_Payload env)))
               | _ => ("invalid-envelope"%string, digest [con_Consumer c; body])
               end
        else None in
      Ok (mkSendInput (ch_Containment ch) body group attributes).

(** The send of the quarantine, through the composition. *)
Definition DLQ_Quarantine {Env : Type} (send : SendInput -> Shared (Env := Env) -> option error * Shared (Env := Env))
    (sheet : Sheet) (call : Call (Env := Env)) (valid : string -> string) (ch : Channel.Channel)
    (attempt_ : option Z) (c : Contained) (ctx : Context) (w : World) : result error unit * World :=
  match Quarantine_input valid ch attempt_ c with
  | Err err => (Err err, w)
  | Panic why => (Panic why, w)
  | Ok input =>
      let '(err, w) := call ctx (compose_Operation sheet ("quarantine " ++ ch_Name ch) true) (send_attempt send input) w in
      (match err with Some e => Err e | None => Ok () end, w)
  end.
End Publication.

(** * The check of a topic ([sns.go]) *)
Record Subscription := mkSubscription { sb_Protocol : string; sb_Arn : string }.
Record SubscriptionPage := mkSubscriptionPage { pg_Subscriptions : list Subscription; pg_NextToken : string }.
Section Topic.
Context (list_subscriptions : string -> result error SubscriptionPage)
        (attributes_of : string -> result error (gmap string string)).
Fixpoint verify_page (fifo : bool) (subs : list Subscription) : result error Z :=
  match subs with
  | [] => Ok 0
  | sub :: rest =>
      if negb (String.eqb (sb_Protocol sub) "sqs") then verify_page fifo rest
      else
        attrs ← match attributes_of (sb_Arn sub) with Err e => Err (Wrap "sqs" e) | r => r end;
        if negb (String.eqb (default ""%string (attrs !! "RawMessageDelivery"%string)) "true")
        then Err (Wrap (sb_Arn sub) ErrRawDeliveryRequired)
        else if fifo && negb (String.eqb (default ""%string (attrs !! "FilterPolicy"%string)) "")
        then Err (Wrap (sb_Arn sub) ErrFilterOnFifoTopic)
        else n ← verify_page fifo rest; Ok (n + 1)
  end.
(** The pages of the broker, as long as it names another one: [None] when it has
    named more than [fuel]. *)
Fixpoint verify_pages (fuel : nat) (fifo : bool) (token : string) (found : Z) : option (result error Z) :=
  match fuel with
  | O => None
  | S fuel =>
      match list_subscriptions token with
      | Err e => Some (Err (Wrap "sqs" e))
      | Panic why => Some (Panic why)
      | Ok page =>
          match verify_page fifo (pg_Subscriptions page) with
          | Ok n => if String.eqb (pg_NextToken page) "" then Some (Ok (found + n))
                    else verify_pages fuel fifo (pg_NextToken page) (found + n)
          | r => Some r
          end
      end
  end.
Definition verifyTopic (fuel : nat) (ch : Channel.Channel) : option (result error unit) :=
  match verify_pages fuel (IsFIFO ch) "" 0 with
  | None => None
  | Some (Ok n) => Some (if n =? 0 then Err (Wrap (ch_Name ch) ErrNoSubscriptions) else Ok ())
  | Some (Err e) => Some (Err e)
  | Some (Panic why) => Some (Panic why)
  end.
End Topic.

(** * The classifier ([classifier.go]) *)

(** A [smithy.APIError]: its code, and whose fault it is. *)
Definition FaultServer : Z := 1.
Definition as_api_error : error -> option (string * Z) :=
  errors_as (fun e => match e with
    | Typed type code [fault] _ => if String.eqb type "smithy.APIError" then Some (code, fault) else None
    | _ => None
    end).
Definition throttles : list string :=
  ["Throttling"; "ThrottlingException"; "RequestThrottled"; "RequestThrottledException";
   "TooManyRequestsException"; "RequestLimitExceeded"; "Throttled"; "KmsThrottled"; "KMSThrottling";
   "KMS.ThrottlingException"; "ServiceUnavailable"; "InternalError"].
Definition isThrottle (code : string) : bool := bool_decide (code ∈ throttles).
Definition SqsClassifier (err : error) : Retryability :=
  if errors_is err ContextCanceled || errors_is err ContextDeadlineExceeded then NotRetryable
  else match as_api_error err with
  | Some (code, fault) =>
      if fault =? FaultServer then RetryableError else if isThrottle code then RetryableError else NotRetryable
  | None => match as_net_error err with Some _ => RetryableError | None => NotRetryable end
  end.

(** * The consumer ([consumer.go]) *)
Definition MaxWaitTime : Z := 20 * Second.
Definition MaxVisibilitySeconds : Z := Z.quot MaxVisibility Second.
(** [visibilitySeconds] rounds up; below the ceiling [Duration.Seconds] tells any
    two durations of one nanosecond apart, so [math.Ceil] is the integer's. *)
Definition visibilitySeconds (d : Z) : Z :=
  if d <=? 0 then 0
  else
    let seconds := (d + (Second - 1)) / Second in
    if MaxVisibilitySeconds <? seconds then MaxVisibilitySeconds else seconds.

Record SqsConsumer := mkSqsConsumer {
  sc_Config : SqsConfig;
  sc_Channel : Channel.Channel;
  sc_QueueURL : string;
  sc_HasSink : bool;
  sc_Backoff : Backoff;
  sc_VisibilityBase : Z;
  sc_HeartbeatEvery : Z;
  sc_ProcessingDeadline : Z;
  sc_Concurrency : Z;
  sc_MaxInlineAttempts : Z;
  sc_WaitTime : Z
}.
Definition queueURL (c : SqsConsumer) : string :=
  if negb (String.eqb (sc_QueueURL c) "") then sc_QueueURL c
  else if String.eqb (ch_Transport (sc_Channel c)) SQS then ch_Address (sc_Channel c) else "".
Definition SqsConsumer_Validate `{MapOrder} (c : SqsConsumer) : result error unit :=
  _ ← SqsConfig_Validate (sc_Config c);
  _ ← Channel_Validate (sc_Channel c);
  if negb (over_sqs (sc_Channel c)) then Err (Wrap (ch_Name (sc_Channel c)) ErrNotSQSChannel)
  else if negb (sc_HasSink c) then Err (Wrap "sink" ErrIncompleteConsumer)
  else if String.eqb (queueURL c) "" then Err (Wrap "queue url" ErrIncompleteConsumer)
  else if sc_Concurrency c <=? 0 then Err (Wrap "concurrency" ErrIncompleteConsumer)
  else if (sc_VisibilityBase c <=? 0) || (MaxVisibility <? sc_VisibilityBase c)
  then Err (Wrap "visibility base" ErrIncompleteConsumer)
  else if (sc_HeartbeatEvery c <=? 0) || (sc_VisibilityBase c <? 2 *! sc_HeartbeatEvery c)
  then Err (Wrap "heartbeat" ErrIncompleteConsumer)
  else if (sc_WaitTime c <? Second) || (MaxWaitTime <? sc_WaitTime c) then Err (Wrap "wait time" ErrIncompleteConsumer)
  else if sc_ProcessingDeadline c <=? 0 then Err (Wrap "processing deadline" ErrIncompleteConsumer)
  else if MaxVisibility <=? sc_ProcessingDeadline c then Err (Wrap "deadline" ErrDeadlineOverVisibility)
  else if negb (sc_MaxInlineAttempts c =? 0) then Err (Wrap "MaxInlineAttempts" ErrInlineRetryOnSQS)
  else if bo_Base (sc_Backoff c) <=? 0 then Err (Wrap "backoff base" ErrIncompleteConsumer)
  else Ok ().

(** The queue's own count of deliveries, read off the message's attribute. *)
Definition receiveCount (attribute : string) : Z :=
  match Atoi attribute with
  | None => 1
  | Some n => if n <=? 0 then 1 else n
  end.
(** The bytes the sink gets of a body. *)
Definition sink_raw (notification_in : string -> option snsNotification) (body : string) : bytes :=
  match DecodeBody notification_in body with Ok raw => raw | _ => bytes_of body end.

(** ** One receipt: the gesture and the heartbeat ([acknowledger.go], [heartbeat.go], [process])

    The goroutines of a receipt are the heartbeat, those that call [Ack] or
    [Release], and [process]; a call to the broker is logged with the instant it
    is issued at, and its answer is a step of the environment. *)
Inductive Gesture := GAck | GRelease.
Inductive ApiCall := Extend (seconds : Z) | Delete | Shorten (seconds : Z).
Record Issued := mkIssued { is_at : Z; is_call : ApiCall }.

(** Where the heartbeat is: after its timer, past the ceiling with what is left, in
    the call, or over ([done] closed). *)
Inductive HbPhase := HbWaiting (due : Z) | HbAsking (since remaining : Z) | HbExtending | HbOver.
(** Where the goroutine that took the gesture is: before it closed [stop], in the
    wait for [done], or past the call. *)
Inductive GesturePhase := GNone | GTaken (g : Gesture) | GStopping (g : Gesture) | GIssued (g : Gesture).
Inductive ProcessPhase := PHandling | PStopping | POver.

Record receipt_params := mkReceiptParams {
  rp_base : Z; rp_every : Z; rp_backoff : Z; rp_ceiling : Z
}.
Record ReceiptState := mkReceiptState {
  re_now : Z;
  re_hb : HbPhase;
  re_stop : bool;                  (* [stop] closed *)
  re_done : bool;                  (* the message's context ended *)
  re_disposed : bool;
  re_gesture : GesturePhase;
  re_process : ProcessPhase;
  re_log : list Issued             (* newest first *)
}.
(** [process] at the start: the heartbeat's timer is armed. *)
Definition receipt_start (p : receipt_params) (now : Z) : ReceiptState :=
  mkReceiptState now (HbWaiting (now + rp_every p)) false false false GNone PHandling [].

Definition set_hb (h : HbPhase) (s : ReceiptState) : ReceiptState :=
  mkReceiptState (re_now s) h (re_stop s) (re_done s) (re_disposed s) (re_gesture s) (re_process s) (re_log s).
Definition cancel_attempt (s : ReceiptState) : ReceiptState :=
  mkReceiptState (re_now s) HbOver (re_stop s) true (re_disposed s) (re_gesture s) (re_process s) (re_log s).
Definition issue_call (c : ApiCall) (s : ReceiptState) : ReceiptState :=
  mkReceiptState (re_now s) (re_hb s) (re_stop s) (re_done s) (re_disposed s) (re_gesture s) (re_process s)
    (mkIssued (re_now s) c :: re_log s).
Definition set_gesture (g : GesturePhase) (s : ReceiptState) : ReceiptState :=
  mkReceiptState (re_now s) (re_hb s) (re_stop s) (re_done s) (re_disposed s) g (re_process s) (re_log s).
Definition close_stop (s : ReceiptState) : ReceiptState :=
  mkReceiptState (re_now s) (re_hb s) true (re_done s) (re_disposed s) (re_gesture s) (re_process s) (re_log s).
Definition set_disposed (s : ReceiptState) : ReceiptState :=
  mkReceiptState (re_now s) (re_hb s) (re_stop s) (re_done s) true (re_gesture s) (re_process s) (re_log s).
Definition set_process (p : ProcessPhase) (s : ReceiptState) : ReceiptState :=
  mkReceiptState (re_now s) (re_hb s) (re_stop s) (re_done s) (re_disposed s) (re_gesture s) p (re_log s).
Definition set_done (s : ReceiptState) : ReceiptState :=
  mkReceiptState (re_now s) (re_hb s) (re_stop s) true (re_disposed s) (re_gesture s) (re_process s) (re_log s).
Definition set_now (now : Z) (s : ReceiptState) : ReceiptState :=
  mkReceiptState now (re_hb s) (re_stop s) (re_done s) (re_disposed s) (re_gesture s) (re_process s) (re_log s).

(** [dispose] under the mutex. *)
Definition dispose (g : Gesture) (s : ReceiptState) : result error unit * ReceiptState :=
  if re_disposed s then (Err ErrAlreadyDisposed, s)
  else (Ok (), set_gesture (GTaken g) (set_disposed s)).
Definition gesture_call (p : receipt_params) (g : Gesture) : ApiCall :=
  match g with GAck => Delete | GRelease => Shorten (visibilitySeconds (rp_backoff p)) end.
(** The timer fired: what the heartbeat does next. *)
Definition hb_fired (p : receipt_params) (s : ReceiptState) : ReceiptState :=
  let remaining := time_sub (rp_ceiling p) (re_now s) in
  if remaining <=? 0 then cancel_attempt s else set_hb (HbAsking (re_now s) remaining) s.
Definition extension (p : receipt_params) (remaining : Z) : ApiCall :=
  Extend (visibilitySeconds (Z.min (rp_base p) remaining)).
(** The broker answered the extension. *)
Definition hb_answered (p : receipt_params) (ok : bool) (s : ReceiptState) : ReceiptState :=
  if negb ok && negb (re_done s) then cancel_attempt s else set_hb (HbWaiting (re_now s + rp_every p)) s.

Inductive receipt_step (p : receipt_params) : ReceiptState -> ReceiptState -> Prop :=
| step_time s now : re_now s <= now -> receipt_step p s (set_now now s)
| step_parent_done s : receipt_step p s (set_done s)
| step_hb_stopped s due : re_hb s = HbWaiting due -> re_stop s = true -> receipt_step p s (set_hb HbOver s)
| step_hb_done s due : re_hb s = HbWaiting due -> re_done s = true -> receipt_step p s (set_hb HbOver s)
| step_hb_fired s due : re_hb s = HbWaiting due -> due <= re_now s -> receipt_step p s (hb_fired p s)
| step_hb_refrains s t r : re_hb s = HbAsking t r -> re_stop s = true -> receipt_step p s (set_hb HbOver s)
| step_hb_extends s t r :
    re_hb s = HbAsking t r -> re_stop s = false ->
    receipt_step p s (issue_call (extension p r) (set_hb HbExtending s))
| step_hb_answered s ok : re_hb s = HbExtending -> receipt_step p s (hb_answered p ok s)
| step_hb_panicked s : re_hb s = HbExtending -> receipt_step p s (cancel_attempt s)
| step_gesture s g : receipt_step p s (dispose g s).2
| step_gesture_stops s g :
    re_gesture s = GTaken g -> receipt_step p s (set_gesture (GStopping g) (close_stop s))
| step_gesture_issued s g :
    re_gesture s = GStopping g -> re_hb s = HbOver ->
    receipt_step p s (issue_call (gesture_call p g) (set_gesture (GIssued g) s))
| step_handled s : re_process s = PHandling -> receipt_step p s (set_process PStopping (close_stop s))
| step_processed s :
    re_process s = PStopping -> re_hb s = HbOver -> receipt_step p s (set_process POver (set_done s)).

(** ** The workers ([Run], [dispatch])

    [sl_held] is what the channel of slots holds; the worker pool is fed by one
    loop, so the loop is in one place and the workers beside it. *)
Definition Message := string.
Inductive RunPhase :=
| Taking (taken : Z)                                   (* before a receive *)
| Receiving (taken : Z)                                (* the request asks for [taken] messages *)
| Dispatching (taken started : Z) (waiting : list Message)
| Sleeping
| RunOver.
Record Workers := mkWorkers {
  sl_held : Z; sl_phase : RunPhase; sl_busy : list Message; sl_received : list Message; sl_started : list Message;
  sl_left : list Message
}.
Definition workers_start : Workers := mkWorkers 0 (Taking 0) [] [] [] [].
Definition at_phase (phase : RunPhase) (held : Z) (s : Workers) : Workers :=
  mkWorkers held phase (sl_busy s) (sl_received s) (sl_started s) (sl_left s).
Definition received (taken : Z) (msgs : list Message) (s : Workers) : Workers :=
  mkWorkers (sl_held s) (Dispatching taken 0 msgs) (sl_busy s) (sl_received s ++ msgs) (sl_started s) (sl_left s).
Definition start_worker (taken started : Z) (m : Message) (rest : list Message) (s : Workers) : Workers :=
  mkWorkers (sl_held s) (Dispatching taken (started + 1) rest) (m :: sl_busy s) (sl_received s)
    (sl_started s ++ [m]) (sl_left s).
Definition leave (taken started : Z) (rest : list Message) (s : Workers) : Workers :=
  mkWorkers (sl_held s - (taken - started)) (Taking 0) (sl_busy s) (sl_received s) (sl_started s) (sl_left s ++ rest).
Definition end_worker (busy : list Message) (s : Workers) : Workers :=
  mkWorkers (sl_held s - 1) (sl_phase s) busy (sl_received s) (sl_started s) (sl_left s).

Inductive workers_step (concurrency : Z) : Workers -> Workers -> Prop :=
| run_take_first s : sl_phase s = Taking 0 -> sl_held s < concurrency ->
    workers_step concurrency s (at_phase (Taking 1) (sl_held s + 1) s)
| run_take_more s t : sl_phase s = Taking t -> 1 <= t -> t < Z.min concurrency 10 -> sl_held s < concurrency ->
    workers_step concurrency s (at_phase (Taking (t + 1)) (sl_held s + 1) s)
| run_receive s t : sl_phase s = Taking t -> 1 <= t -> (Z.min concurrency 10 <= t \/ concurrency <= sl_held s) ->
    workers_step concurrency s (at_phase (Receiving t) (sl_held s) s)
| run_received s t msgs : sl_phase s = Receiving t -> workers_step concurrency s (received t msgs s)
| run_failed s t : sl_phase s = Receiving t ->
    workers_step concurrency s (at_phase Sleeping (sl_held s - t) s)
| run_awake s : sl_phase s = Sleeping -> workers_step concurrency s (at_phase (Taking 0) (sl_held s) s)
| run_canceled s t : sl_phase s = Receiving t ->
    workers_step concurrency s (at_phase RunOver (sl_held s - t) s)
| run_canceled_early s : sl_phase s = Taking 0 \/ sl_phase s = Sleeping ->
    workers_step concurrency s (at_phase RunOver (sl_held s) s)
| run_start s t n m rest : sl_phase s = Dispatching t n (m :: rest) -> n < t ->
    workers_step concurrency s (start_worker t n m rest s)
| run_start_extra s t m rest : sl_phase s = Dispatching t t (m :: rest) -> sl_held s < concurrency ->
    workers_step concurrency s (start_worker (t + 1) t m rest (at_phase (sl_phase s) (sl_held s + 1) s))
| run_leave s t m rest : sl_phase s = Dispatching t t (m :: rest) ->
    workers_step concurrency s (leave t t (m :: rest) s)
| run_dispatched s t n : sl_phase s = Dispatching t n [] ->
    workers_step concurrency s (at_phase (Taking 0) (sl_held s - (t - n)) s)
| run_worker_over s l1 m l2 : sl_busy s = l1 ++ m :: l2 ->
    workers_step concurrency s (end_worker (l1 ++ l2) s).

(** * The body and the identifiers *)
Lemma base64_never_brace body :
  Forall byte_ok body -> match EncodeBody body with String c _ => c <> "{"%char | EmptyString => True end.
Proof.
  intros Hb. unfold EncodeBody, S3Store.EncodeToString.
  assert (forall v, 0 <= v < 64 -> b64_char v <> 123 /\ byte_ok (b64_char v)) as Hc.
  { intros v Hv. unfold b64_char, byte_ok. repeat case_match; lia. }
  assert (forall v rest, 0 <= v < 64 ->
    match string_of (b64_char v :: rest) with String c _ => c <> "{"%char | EmptyString => True end) as Hhead.
  { intros v rest Hv. destruct (Hc v Hv) as [Hne Hok]. unfold string_of. cbn. intros Heq. apply Hne.
    apply (f_equal N_of_ascii) in Heq. unfold byte_ok in Hok. rewrite N_ascii_embedding in Heq by lia.
    change (N_of_ascii "{"%char) with 123%N in Heq. lia. }
  assert (forall a, byte_ok a -> 0 <= Z.shiftr a 2 < 64) as Hr.
  { intros a Ha. unfold byte_ok in Ha. rewrite Z.shiftr_div_pow2 by lia. change (2 ^ 2) with 4.
    Z.to_euclidean_division_equations; lia. }
  destruct body as [| a [| b [| c rest]]]; [done | | |]; cbn [b64_encode];
    apply Hhead, Hr; by apply Forall_inv in Hb.
Qed.

(** A published body is read back as the envelope it encodes, whatever the envelope's
    bytes, and is never taken for SNS's wrapper. *)
Theorem DecodeBody_EncodeBody notification_in raw :
  Forall byte_ok raw -> DecodeBody notification_in (EncodeBody raw) = Ok raw.
Proof.
  intros Hb. unfold DecodeBody. pose proof (base64_never_brace raw Hb) as Hne.
  replace (isSNSNotification _ _) with false.
  - unfold EncodeBody. by rewrite DecodeString_EncodeToString.
  - unfold isSNSNotification. destruct (EncodeBody raw) as [| c rest]; [done |].
    by destruct (Ascii.eqb_spec c "{"%char).
Qed.

(** * One receipt *)
Lemma visibilitySeconds_bounds d :
  0 < d ->
  1 <= visibilitySeconds d <= MaxVisibilitySeconds /\ visibilitySeconds d * Second < d + Second /\
  (d <= MaxVisibility -> d <= visibilitySeconds d * Second).
Proof.
  intros Hd. unfold visibilitySeconds, MaxVisibilitySeconds, MaxVisibility, Channel.Hour, Second, Millisecond.
  destruct (Z.leb_spec d 0); [lia |]. cbv zeta.
  change (Z.quot (12 * (3600 * (1000 * 1000000))) (1000 * 1000000)) with 43200.
  change (1000 * 1000000) with 1000000000. case_match eqn:Hm;
    [apply Z.ltb_lt in Hm | apply Z.ltb_ge in Hm]; Z.to_euclidean_division_equations; lia.
Qed.

Section Receipt.
Context (p : receipt_params) (Hbase : 0 < rp_base p).

(** An extension asked for what was left when the heartbeat last looked. *)
Definition extends (i : Issued) : Prop :=
  exists t r, t <= is_at i /\ 0 < r <= rp_ceiling p - t /\ is_call i = extension p r.
Definition gesture_ok (s : ReceiptState) : Prop :=
  match re_gesture s with
  | GNone => re_disposed s = false /\ Forall extends (re_log s)
  | GTaken _ => re_disposed s = true /\ Forall extends (re_log s)
  | GStopping _ => re_disposed s = true /\ re_stop s = true /\ Forall extends (re_log s)
  | GIssued g =>
      re_disposed s = true /\ re_hb s = HbOver /\
      exists at_ exts, re_log s = mkIssued at_ (gesture_call p g) :: exts /\ Forall extends exts
  end.
Record receipt_ok (s : ReceiptState) : Prop := {
  ro_asking : forall t r, re_hb s = HbAsking t r -> t <= re_now s /\ 0 < r <= rp_ceiling p - t;
  ro_gesture : gesture_ok s
}.

Lemma start_receipt_ok now : receipt_ok (receipt_start p now).
Proof. split; [done |]. by split; [| constructor]. Qed.

Lemma keeps_gesture s s' :
  re_gesture s' = re_gesture s -> re_disposed s' = re_disposed s -> re_log s' = re_log s ->
  (re_stop s = true -> re_stop s' = true) -> (re_hb s = HbOver -> re_hb s' = HbOver) ->
  gesture_ok s -> gesture_ok s'.
Proof.
  intros Hg Hd Hl Hs Hh. unfold gesture_ok. rewrite Hg, Hd, Hl. destruct (re_gesture s); intuition auto.
Qed.

Lemma receipt_step_ok s s' : receipt_ok s -> receipt_step p s s' -> receipt_ok s'.
Proof.
  intros [Ha Hg] Hst. destruct Hst as [s now Hn | s | s due Hh Hs | s due Hh Hs | s due Hh Hd | s t r Hh Hs
    | s t r Hh Hs | s ok Hh | s Hh | s g | s g Hp | s g Hp Hh | s Hp | s Hp Hh].
  - split; [| by apply (keeps_gesture s)]. cbn. intros t r Hh. destruct (Ha t r Hh). split; [lia | done].
  - split; [done | by apply (keeps_gesture s)].
  - split; [done | by apply (keeps_gesture s)].
  - split; [done | by apply (keeps_gesture s)].
  - unfold hb_fired. cbv zeta. destruct (Z.leb_spec (time_sub (rp_ceiling p) (re_now s)) 0) as [| Hr].
    + split; [done | by apply (keeps_gesture s)].
    + split; [| apply (keeps_gesture s); cbn; congruence || done].
      cbn. intros t r [= <- <-]. unfold time_sub in *. split; [lia |]. unfold min_int64, max_int64 in *. lia.
  - split; [done | apply (keeps_gesture s); cbn; congruence || done].
  - split; [done |]. destruct (Ha t r Hh) as [Ht Hr]. unfold gesture_ok in *. cbn. rewrite Hs, Hh in Hg.
    assert (extends (mkIssued (re_now s) (extension p r))) as He by (exists t, r; done).
    destruct (re_gesture s); [| | by destruct Hg as (_ & ? & _) | by destruct Hg as (_ & ? & _)].
    + split; [apply Hg | constructor; [done | apply Hg]].
    + split; [apply Hg | constructor; [done | apply Hg]].
  - unfold hb_answered. destruct (negb ok && negb (re_done s)).
    + split; [done | by apply (keeps_gesture s)].
    + split; [done | apply (keeps_gesture s); cbn; congruence || done].
  - split; [done | by apply (keeps_gesture s)].
  - unfold dispose. destruct (re_disposed s) eqn:Hd; [by split |]. split; [done |]. unfold gesture_ok in *. cbn.
    destruct (re_gesture s); rewrite Hd in Hg; naive_solver.
  - split; [done |]. unfold gesture_ok in *. rewrite Hp in Hg. cbn. naive_solver.
  - split; [cbn; congruence |]. unfold gesture_ok in *. rewrite Hp in Hg. cbn. destruct Hg as (? & ? & ?).
    split_and!; [done.. |]. by eexists _, _.
  - split; [done | by apply (keeps_gesture s)].
  - split; [done | by apply (keeps_gesture s)].
Qed.
Lemma receipt_steps_ok s s' : receipt_ok s -> rtc (receipt_step p) s s' -> receipt_ok s'.
Proof. intros Hok Hr. induction Hr as [| s s1 s' Hst _ IH]; [done |]. by eapply IH, receipt_step_ok. Qed.

(** With [stop] closed the heartbeat can end by its own steps. *)
Lemma hb_can_end s : re_stop s = true ->
  exists s', rtc (receipt_step p) s s' /\ re_hb s' = HbOver /\ re_gesture s' = re_gesture s.
Proof.
  intros Hs. destruct (re_hb s) as [due | t r | |] eqn:Hh.
  - eexists. split; [apply rtc_once; by eapply step_hb_stopped | done].
  - eexists. split; [apply rtc_once; by eapply step_hb_refrains | done].
  - exists (set_hb HbOver (set_hb (HbWaiting (re_now s + rp_every p)) s)). split; [| done].
    eapply rtc_l; [by apply (step_hb_answered p s true) |].
    apply rtc_once. by eapply step_hb_stopped.
  - exists s. done.
Qed.

(** C6: Whatever the heartbeat, the sink's calls and the broker's answers do, a receipt
    is acknowledged or released once at most: the call is issued only after the
    heartbeat is over, so no extension follows it, and any gesture after it is
    refused; each extension asks for less than a second more than the visibility
    and than what was left of the twelve hours when the heartbeat looked; and a
    gesture that was taken can always be issued. *)
Theorem one_gesture_per_receipt now s :
  rtc (receipt_step p) (receipt_start p now) s ->
  (exists gesture exts,
     re_log s = gesture ++ exts /\
     (gesture = [] \/
      ((exists at_ g, gesture = [mkIssued at_ (gesture_call p g)]) /\ re_hb s = HbOver /\
       forall g, (dispose g s).1 = Err ErrAlreadyDisposed)) /\
     Forall (fun i => exists n t, is_call i = Extend n /\ 1 <= n <= MaxVisibilitySeconds /\
       n * Second < rp_base p + Second /\ t <= is_at i /\ t + n * Second < rp_ceiling p + Second) exts) /\
  (forall g, re_gesture s = GTaken g \/ re_gesture s = GStopping g ->
     exists s', rtc (receipt_step p) s s' /\ re_gesture s' = GIssued g).
Proof.
  intros Hr. assert (receipt_ok s) as [Ha Hg] by (eapply receipt_steps_ok; [apply start_receipt_ok | done]).
  assert (forall i, extends i -> exists n t, is_call i = Extend n /\ 1 <= n <= MaxVisibilitySeconds /\
    n * Second < rp_base p + Second /\ t <= is_at i /\ t + n * Second < rp_ceiling p + Second) as Hext.
  { intros i (t & r & Ht & Hrem & Hc). exists (visibilitySeconds (Z.min (rp_base p) r)), t.
    destruct (visibilitySeconds_bounds (Z.min (rp_base p) r)) as (H1 & H2 & _); [lia |].
    split_and!; [done | lia..]. }
  split.
  - unfold gesture_ok in Hg. destruct (re_gesture s) as [| g | g | g].
    1-3: exists [], (re_log s); split_and!; [done | by left |]; eapply Forall_impl; [apply Hg | done].
    destruct Hg as (Hd & Hh & at_ & exts & Hl & Hf). exists [mkIssued at_ (gesture_call p g)], exts.
    split_and!; [done | right | by eapply Forall_impl]. split_and!; [by eexists _, _ | done |].
    intros g'. unfold dispose. by rewrite Hd.
  - intros g Hgest.
    assert (exists s1, rtc (receipt_step p) s s1 /\ re_gesture s1 = GStopping g /\ re_stop s1 = true) as (s1 & Hr1 & Hg1 & Hs1).
    { destruct Hgest as [Hgest | Hgest].
      - eexists. split; [apply rtc_once; by apply step_gesture_stops | done].
      - exists s. unfold gesture_ok in Hg. rewrite Hgest in Hg. split_and!; [done | done | apply Hg]. }
    destruct (hb_can_end s1 Hs1) as (s2 & Hr2 & Hh2 & Hg2).
    eexists. split; [etrans; [exact Hr1 | etrans; [exact Hr2 |]] |].
    + apply rtc_once. apply step_gesture_issued; [by rewrite Hg2 | done].
    + done.
Qed.
End Receipt.

(** * The workers *)
Section Workers.
Context (concurrency : Z).

(** The slots the loop holds for messages it has not started. *)
Definition reserved (phase : RunPhase) : Z :=
  match phase with
  | Taking t | Receiving t => t
  | Dispatching t n _ => t - n
  | Sleeping | RunOver => 0
  end.
Definition waiting (phase : RunPhase) : list Message :=
  match phase with Dispatching _ _ ms => ms | _ => [] end.
Definition phase_ok (phase : RunPhase) : Prop :=
  match phase with
  | Taking t => 0 <= t <= Z.max 1 (Z.min concurrency 10)
  | Receiving t => 1 <= t <= Z.max 1 (Z.min concurrency 10)
  | Dispatching t n _ => 0 <= n <= t
  | Sleeping | RunOver => True
  end.
Record workers_ok (s : Workers) : Prop := {
  wo_phase : phase_ok (sl_phase s);
  wo_held : sl_held s = len (sl_busy s) + reserved (sl_phase s);
  wo_bound : sl_held s <= concurrency;
  wo_messages : sl_received s ≡ₚ sl_started s ++ sl_left s ++ waiting (sl_phase s)
}.

Lemma len_cons {A} (x : A) l : len (x :: l) = 1 + len l.
Proof. unfold len. cbn [length]. lia. Qed.
Lemma workers_step_ok s s' : workers_ok s -> workers_step concurrency s s' -> workers_ok s'.
Proof.
  intros [Hp Hh Hb Hm] Hst. pose proof (len_nonneg (sl_busy s)) as Hbusy.
  destruct Hst as [s He Hlt | s t He H1 H2 Hlt | s t He H1 H2 | s t msgs He | s t He | s He | s t He | s He
    | s t n m rest He Hn | s t m rest He Hlt | s t m rest He | s t n He | s l1 m l2 He].
  12: { rewrite He in *. split; cbn in *; [lia | lia | lia | done]. }
  12: { split; cbn; [done | | lia | done]. rewrite Hh, He, !len_app, len_cons. lia. }
  all: try (destruct He as [He | He]); rewrite He in *; split; cbn in *; rewrite ?len_cons; try lia; try done.
  - by rewrite Hm, app_nil_r, !app_assoc.
  - rewrite Hm. rewrite <- !app_assoc. cbn. f_equiv. by rewrite Permutation_middle.
  - rewrite Hm. rewrite <- !app_assoc. cbn. f_equiv. by rewrite Permutation_middle.
  - by rewrite Hm, app_nil_r.
Qed.

(** However receives, workers and the shutdown interleave, the consumer never runs
    more workers than declared; a receive asks for no more messages than it holds
    free slots, and for one to ten; and every message received is with a worker,
    ended, waiting its turn in the batch, or left to its visibility at the
    shutdown, each once. *)
Theorem workers_bounded s :
  0 < concurrency -> rtc (workers_step concurrency) workers_start s ->
  len (sl_busy s) <= concurrency /\
  (forall t, sl_phase s = Receiving t -> 1 <= t <= 10 /\ len (sl_busy s) + t <= concurrency) /\
  sl_received s ≡ₚ sl_started s ++ sl_left s ++ waiting (sl_phase s).
Proof.
  intros Hc Hr.
  assert (workers_ok s) as [Hp Hh Hb Hm].
  { assert (workers_ok workers_start) as H0 by (split; cbn; done || lia).
    induction Hr as [| s1 s2 s3 Hst _ IH]; [done |]. by eapply IH, workers_step_ok. }
  split_and!; [| intros t He | done].
  - destruct (sl_phase s); cbn in *; lia.
  - rewrite He in *. cbn in *. lia.
Qed.
End Workers.

(** * Witnesses *)
Definition sample_params : receipt_params := mkReceiptParams (30 * Second) (10 * Second) Second MaxVisibility.
(** One extension, then the acknowledgment. *)
Definition acknowledged : ReceiptState :=
  mkReceiptState (10 * Second) HbOver true false true (GIssued GAck) PHandling
    [mkIssued (10 * Second) Delete; mkIssued (10 * Second) (Extend 30)].
Lemma acknowledged_reachable : rtc (receipt_step sample_params) (receipt_start sample_params 0) acknowledged.
Proof.
  eapply rtc_l; [apply (step_time _ _ (10 * Second)); vm_compute; done |].
  eapply rtc_l; [by eapply step_hb_fired; [reflexivity | vm_compute] |].
  eapply rtc_l; [by eapply step_hb_extends |].
  eapply rtc_l; [by apply (step_gesture _ _ GAck) |].
  eapply rtc_l; [by eapply step_gesture_stops |].
  eapply rtc_l; [by apply (step_hb_answered _ _ true) |].
  eapply rtc_l; [by eapply step_hb_stopped |].
  eapply rtc_l; [by apply (step_gesture_issued _ _ GAck) |].
  apply rtc_refl.
Qed.
Lemma one_gesture_per_receipt_witness :
  (exists gesture exts,
     re_log acknowledged = gesture ++ exts /\
     (gesture = [] \/
      ((exists at_ g, gesture = [mkIssued at_ (gesture_call sample_params g)]) /\ re_hb acknowledged = HbOver /\
       forall g, (dispose g acknowledged).1 = Err ErrAlreadyDisposed)) /\
     Forall (fun i => exists n t, is_call i = Extend n /\ 1 <= n <= MaxVisibilitySeconds /\
       n * Second < rp_base sample_params + Second /\ t <= is_at i /\
       t + n * Second < rp_ceiling sample_params + Second) exts) /\
  (forall g, re_gesture acknowledged = GTaken g \/ re_gesture acknowledged = GStopping g ->
     exists s', rtc (receipt_step sample_params) acknowledged s' /\ re_gesture s' = GIssued g).
Proof.
  apply (one_gesture_per_receipt sample_params ltac:(by vm_compute) 0 acknowledged).
  exact acknowledged_reachable.
Defined.

(** Rounding up asks past the ceiling: half a second before it, for a second. *)
Definition near_ceiling : ReceiptState :=
  let now := MaxVisibility - 500 * Millisecond in
  mkReceiptState now HbExtending false false false GNone PHandling [mkIssued now (Extend 1)].
Example extension_past_the_ceiling :
  rtc (receipt_step sample_params) (receipt_start sample_params (MaxVisibility - 10500 * Millisecond)) near_ceiling /\
  rp_ceiling sample_params < MaxVisibility - 500 * Millisecond + 1 * Second.
Proof.
  split; [| by vm_compute].
  eapply rtc_l; [apply (step_time _ _ (MaxVisibility - 500 * Millisecond)); vm_compute; done |].
  eapply rtc_l; [by eapply step_hb_fired; [reflexivity | vm_compute] |].
  eapply rtc_l; [by eapply step_hb_extends |]. apply rtc_refl.
Qed.

(** Two slots, a batch of one message, which its worker is handling. *)
Definition one_busy : Workers := mkWorkers 1 (Taking 0) ["m-1"] ["m-1"] ["m-1"] [].
Lemma one_busy_reachable : rtc (workers_step 2) workers_start one_busy.
Proof.
  eapply rtc_l; [by apply run_take_first |].
  eapply rtc_l; [by apply (run_take_more _ _ 1) |].
  eapply rtc_l; [apply (run_receive _ _ 2); [done | lia | by left] |].
  eapply rtc_l; [by apply (run_received _ _ 2 ["m-1"]) |].
  eapply rtc_l; [by apply (run_start _ _ 2 0 "m-1" []) |].
  eapply rtc_l; [by apply (run_dispatched _ _ 2 1) |]. apply rtc_refl.
Qed.
Lemma workers_bounded_witness :
  len (sl_busy one_busy) <= 2 /\
  (forall t, sl_phase one_busy = Receiving t -> 1 <= t <= 10 /\ len (sl_busy one_busy) + t <= 2) /\
  sl_received one_busy ≡ₚ sl_started one_busy ++ sl_left one_busy ++ waiting (sl_phase one_busy).
Proof. apply (workers_bounded 2 one_busy); [lia | exact one_busy_reachable]. Defined.
