(* ===== verification/Grpc.v ===== *)
(** gRPC ([src/libs/backend/go/grpc]): statuses and what errors become of them,
    the policies of methods, the client of a dependency over the composition of
    its sheet, and the server: whom it trusts, and the chain of interceptors from
    a recovered panic down to the contexts a handler runs under.

    The runtime of gRPC is a parameter: a call is a function on the world, the
    metadata, the peer, the deadline and the trace of a call come with its
    context, certificates load as an argument says.  Spans, metrics and baggage
    are left out. *)

From S2P Require Import Prelude GoTime GoStrings GoSlices Regex DomainKernel Errors Ports Retry Breaker Resilience Envelope Deadline Admission Authn HttpClient.

(** * Codes and statuses ([google.golang.org/grpc/codes], [.../status]) *)

(** A code is a [uint32]. *)
Notation Code := Z (only parsing).
Definition OK : Code := 0.
Definition Canceled : Code := 1.
Definition Unknown : Code := 2.
Definition InvalidArgument : Code := 3.
Definition CodeDeadlineExceeded : Code := 4.
Definition CodeNotFound : Code := 5.
Definition AlreadyExists : Code := 6.
Definition PermissionDenied : Code := 7.
Definition ResourceExhausted : Code := 8.
Definition FailedPrecondition : Code := 9.
Definition Aborted : Code := 10.
Definition OutOfRange : Code := 11.
Definition Unimplemented : Code := 12.
Definition Internal : Code := 13.
Definition Unavailable : Code := 14.
Definition DataLoss : Code := 15.
Definition CodeUnauthenticated : Code := 16.

(** A status, with those of its details that are an [errdetails.ErrorInfo]. *)
Record ErrorInfo := mkErrorInfo { ei_Reason : string; ei_Domain : string }.
Record Status := mkStatus { st_Code : Code; st_Message : string; st_Details : list ErrorInfo }.

(** A [*status.Error] wraps nothing: its details ride where a cause would, as nodes
    of a type no target of the program asks for. *)
Fixpoint details_node (details : list ErrorInfo) : option error :=
  match details with
  | [] => None
  | d :: rest =>
      Some (Typed "errdetails.ErrorInfo" (ei_Reason d) []
              (Some (Typed "errdetails.Domain" (ei_Domain d) [] (details_node rest))))
  end.
Fixpoint node_details (node : error) : list ErrorInfo :=
  match node with
  | Typed _ reason _ (Some (Typed _ domain _ rest)) =>
      mkErrorInfo reason domain :: match rest with Some node => node_details node | None => [] end
  | _ => []
  end.
Definition status_node (s : Status) : error :=
  Typed "grpc.Status" (st_Message s) [st_Code s] (details_node (st_Details s)).
Definition as_status : error -> option Status :=
  errors_as (fun e => match e with
    | Typed type message [code] details =>
        if String.eqb type "grpc.Status"
        then Some (mkStatus code message match details with Some node => node_details node | None => [] end)
        else None
    | _ => None
    end).

(** [Status.Err]. *)
Definition Status_Err (s : Status) : option error :=
  if st_Code s =? OK then None else Some (status_node s).
(** [status.Error]. *)
Definition status_Error (code : Code) (message : string) : option error := Status_Err (mkStatus code message []).
(** [status.FromError] of an error; the text it puts in place of a wrapped status's
    message is left out. *)
Definition FromError (err : error) : Status * bool :=
  match as_status err with Some s => (s, true) | None => (mkStatus Unknown "" [], false) end.
(** [status.Code]. *)
Definition status_Code (err : option error) : Code :=
  match err with None => OK | Some err => st_Code (FromError err).1 end.
(** [status.FromContextError]. *)
Definition FromContextError (err : error) : Code :=
  if errors_is err ContextDeadlineExceeded then CodeDeadlineExceeded
  else if errors_is err ContextCanceled then Canceled else Unknown.

(** * The reasons a status carries ([idempotency_status.go]) *)
Definition ReasonMissingIdempotencyKey : string := "MISSING_IDEMPOTENCY_KEY".
Definition ReasonInvalidIdempotencyKey : string := "INVALID_IDEMPOTENCY_KEY".
Definition ReasonReusedIdempotencyKey : string := "REUSED_IDEMPOTENCY_KEY".
Definition ReasonInFlightIdempotencyKey : string := "IN_FLIGHT_IDEMPOTENCY_KEY".
Definition errorInfoDomain : string := "dmpf".

Definition withReason (code : Code) (message reason : string) : option error :=
  Status_Err (mkStatus code message [mkErrorInfo reason errorInfoDomain]).
Definition key_pattern_text : string := "^[A-Za-z0-9._-]{1,128}$".
Definition KeyStatus (reason : string) : option error :=
  let message := if String.eqb reason ReasonInvalidIdempotencyKey
                 then ("idempotency key outside " ++ key_pattern_text)%string else "idempotency key required" in
  withReason InvalidArgument message reason.
Definition IdempotencyStatus (err : error) : option (option error) :=
  if errors_is err ErrIdempotencyMismatch then
    Some (withReason FailedPrecondition "idempotency key already used by a different request" ReasonReusedIdempotencyKey)
  else if errors_is err ErrIdempotencyInFlight then
    Some (withReason Aborted "a request with this idempotency key is in flight; repeat it with the same key"
            ReasonInFlightIdempotencyKey)
  else if errors_is err ErrIdempotencyKeyAbsent then
    Some (withReason InvalidArgument "idempotency key required" ReasonMissingIdempotencyKey)
  else if errors_is err ErrIdempotencyKeyInvalid then Some (KeyStatus ReasonInvalidIdempotencyKey)
  else if errors_is err ErrAlreadyExists then Some (status_Error AlreadyExists "already exists")
  else None.
Definition ReasonOf (err : option error) : string :=
  match err with
  | None => ""
  | Some err =>
      let '(st, ok) := FromError err in
      if negb ok then ""
      else match List.find (fun d => String.eqb (ei_Domain d) errorInfoDomain) (st_Details st) with
           | Some info => ei_Reason info
           | None => ""
           end
  end.

(** * What errors become ([status.go], [classifier.go]) *)

(** [errors.As] of an [ErrorCategory]: a failure of the application, what the
    decorators of [resilience] refuse with, a degraded answer, a sink that
    panicked. *)
Definition own_category (e : error) : option string :=
  match e with
  | NewFailure category _ _ => Some (category_string category)
  | Wrap note _ => if String.eqb note "answered in degraded mode" then Some "_OTHER"%string else None
  | Sentinel name =>
      if bool_decide (name ∈ ["resilience.ErrBreakerOpen"; "resilience.ErrBulkheadSaturated"])
      then Some "TransientDependency"%string
      else if String.eqb name "resilience.ErrDeadlineExceeded" then Some "DeadlineExceeded"%string
      else if String.eqb name "resilience.ErrCancelled" then Some "Cancelled"%string
      else if bool_decide (name ∈ ["resilience.ErrDeferIsOutbox"; "resilience.ErrWrapsUnitOfWork";
             "resilience.ErrOrderReasonRequired"; "resilience.ErrBlankField"; "resilience.ErrDeadlineComposition"])
      then Some "_OTHER"%string
      else if bool_decide (name ∈ ["kafka.ErrSinkPanicked"; "sqs.ErrSinkPanicked"]) then Some "Unexpected"%string
      else None
  | _ => None
  end.
Definition as_category : error -> option string := errors_as own_category.

Definition StatusOf (err : option error) : option error :=
  let says target := match err with Some err => errors_is err target | None => false end in
  match err ≫= IdempotencyStatus with
  | Some mapped => mapped
  | None =>
      let category := default ""%string (err ≫= as_category) in
      if says ErrNotFound || String.eqb category "NotFound" then status_Error CodeNotFound "not found"
      else if says ErrUniqueViolation then status_Error AlreadyExists "already exists"
      else if says ErrVersionConflict || String.eqb category "Conflict"
      then status_Error Aborted "version conflict; replay the call"
      else if says ContextDeadlineExceeded then status_Error CodeDeadlineExceeded "deadline exceeded"
      else if says ContextCanceled then status_Error Canceled "canceled"
      else if says ErrDenied || String.eqb category "Forbidden" then status_Error PermissionDenied "permission denied"
      else if says ErrCredentialAbsent || says ErrCredentialRejected || says ErrSubjectUnresolved
              || String.eqb category "Unauthenticated"
      then status_Error CodeUnauthenticated "unauthenticated"
      else status_Error Internal "internal failure"
  end.

Definition HTTPStatus (code : Code) : Z :=
  if code =? OK then 200
  else if code =? Canceled then 499
  else if bool_decide (code ∈ [InvalidArgument; FailedPrecondition; OutOfRange]) then 400
  else if code =? CodeUnauthenticated then 401
  else if code =? PermissionDenied then 403
  else if code =? CodeNotFound then 404
  else if bool_decide (code ∈ [AlreadyExists; Aborted]) then 409
  else if code =? ResourceExhausted then 429
  else if code =? Unimplemented then 501
  else if code =? Unavailable then 503
  else if code =? CodeDeadlineExceeded then 504
  else 500.

Definition fnd07Categories : list (Code * string) :=
  [(InvalidArgument, "Validation"); (FailedPrecondition, "DomainRejection"); (CodeNotFound, "NotFound");
   (Aborted, "Conflict"); (AlreadyExists, "Conflict"); (PermissionDenied, "Forbidden");
   (CodeUnauthenticated, "Unauthenticated"); (Unavailable, "TransientDependency"); (ResourceExhausted, "RateLimited");
   (CodeDeadlineExceeded, "DeadlineExceeded"); (Canceled, "Cancelled"); (Internal, "Unexpected")].
Definition category_of_code (code : Code) : option string :=
  snd <$> List.find (fun entry => entry.1 =? code) fnd07Categories.
Definition Category (err : option error) : string :=
  match err with
  | None => "ok"
  | Some err =>
      match as_category err with
      | Some category => category
      | None =>
          if errors_is err ErrNoDeadline then "Unexpected"
          else if errors_is err ErrDeadlineExhausted || errors_is err ContextDeadlineExceeded then "DeadlineExceeded"
          else if errors_is err ContextCanceled then "Cancelled"
          else default "_OTHER"%string (category_of_code (status_Code (Some err)))
      end
  end.

Definition StatusClassifier (retryable : list Code) (err : error) : Retryability :=
  let '(s, isStatus) := FromError err in
  if negb isStatus then NotRetryable
  else if bool_decide (st_Code s ∈ retryable) then RetryableError else NotRetryable.
Definition dependencyFailure (err : error) : bool :=
  let '(s, isStatus) := FromError err in
  if negb isStatus then true
  else bool_decide (st_Code s ∈ [Unavailable; CodeDeadlineExceeded; ResourceExhausted; Internal; Unknown; DataLoss]).

(** * What crosses the hop ([hop.go]) *)
Definition correlation_char (c : ascii) : bool := key_char c.
Definition correlationFormat : re := RBetween1 128 (RChar correlation_char).
Definition letter (c : ascii) : bool := either upper lower c.
Definition localeFormat : re :=
  RSeq (RBetween1 8 (RChar letter))
       (RStar (RSeq (RChar (is_char "-"%char)) (RBetween1 8 (RChar (either letter digit))))).
Definition ValidCorrelation (correlation : string) : bool := re_match correlationFormat correlation.
Definition ValidLocale (locale : string) : bool := re_match localeFormat locale.

Notation MD := (gmap string (list string)).
Definition MetadataCarrier_Get (md : MD) (key : string) : string :=
  match default [] (md !! ToLower key) with value :: _ => value | [] => "" end.
Definition MetadataCarrier_Set (key value : string) (md : MD) : MD := <[ToLower key := [value]]> md.
Definition MetadataCarrier_Keys `{MapOrder} (md : MD) : list string := (ranged md).*1.

Definition idBytes : Z := 16.
(** [NewID]: what the entropy source reads, [None] when it fails. *)
Definition NewID {Env} (rand : Env -> option bytes * Env) (component : string) (env : Env) : result error string * Env :=
  match rand env with
  | (Some buffer, env) => (Ok (Envelope.EncodeToString buffer), env)
  | (None, env) => (Panic (component ++ ": the operating system's entropy source failed")%string, env)
  end.

(** * Methods ([methods.go]) *)
Definition FullMethod (service method : string) : string := ("/" ++ service ++ "/" ++ method)%string.
(** A descriptor and a registered service by the names of their methods. *)
Definition Method (names : list string) (name : string) : result error string :=
  if bool_decide (name ∈ names) then Ok name else Panic ("grpc: the service declares no method " ++ name)%string.
Definition registered_times (registered : list string) (name : string) : nat :=
  length (filter (fun m => m = name) registered).
Definition Uncovered (registered declared : list string) : list string :=
  filter (fun name => registered_times registered name <> 1%nat) declared.

(** * Policies and configuration ([config.go]) *)
Definition ErrTLSRequired : error := Sentinel "grpc.ErrTLSRequired".
Definition ErrTLSTooWeak : error := Sentinel "grpc.ErrTLSTooWeak".
Definition ErrMethodNotDeclared : error := Sentinel "grpc.ErrMethodNotDeclared".
Definition ErrIncompleteConfig : error := Sentinel "grpc.ErrIncompleteConfig".
Definition ErrClientCARequired : error := Sentinel "grpc.ErrClientCARequired".
Definition ErrTrustedClientsRequired : error := Sentinel "grpc.ErrTrustedClientsRequired".

Record MethodPolicy := mkMethodPolicy {
  mp_Budget : Deadline.Budget;
  mp_Idempotent : bool;
  mp_RetryableCodes : list Code
}.
Definition MethodPolicy_Validate (p : MethodPolicy) : result error unit := Budget_Validate (mp_Budget p).

Definition VersionTLS12 : Z := 771.
Definition RequireAndVerifyClientCert : Z := 4.
(** A [tls.Config]: certificates and authorities by what they were read from. *)
Record TLSConfig := mkTLSConfig {
  tls_InsecureSkipVerify : bool;
  tls_MinVersion : Z;
  tls_Certificates : list bytes;
  tls_ClientCAs : option bytes;
  tls_ClientAuth : Z
}.
Definition validateTLS (cfg : option TLSConfig) (insecureOptOut : bool) : result error unit :=
  match cfg with
  | None => if negb insecureOptOut then Err ErrTLSRequired else Ok ()
  | Some cfg =>
      if tls_InsecureSkipVerify cfg || (negb (tls_MinVersion cfg =? 0) && (tls_MinVersion cfg <? VersionTLS12))
      then Err ErrTLSTooWeak else Ok ()
  end.

Record Config := mkGrpcConfig {
  gc_TLS : option TLSConfig;
  gc_Insecure : bool;
  gc_Sheet : Sheet;
  gc_Methods : gmap string MethodPolicy;
  gc_HasClock : bool
}.
(** The methods are looked at in the order Go ranges over them. *)
Fixpoint methods_Validate (methods : list (string * MethodPolicy)) : result error unit :=
  match methods with
  | [] => Ok ()
  | (method, policy) :: rest =>
      if String.eqb method "" then Err (Wrap "empty method name" ErrIncompleteConfig)
      else
        _ ← match MethodPolicy_Validate policy with Err e => Err (Wrap "grpc" e) | ok => ok end;
        methods_Validate rest
  end.
Definition Config_Validate `{MapOrder} (c : Config) : result error unit :=
  _ ← validateTLS (gc_TLS c) (gc_Insecure c);
  if negb (gc_HasClock c) then Err (Wrap "clock" ErrIncompleteConfig)
  else if bool_decide (gc_Methods c = ∅) then Err (Wrap "no method declares a policy" ErrIncompleteConfig)
  else _ ← Sheet_Validate (gc_Sheet c); methods_Validate (ranged (gc_Methods c)).
Definition Policy (c : Config) (method : string) : result error MethodPolicy :=
  match gc_Methods c !! method with
  | Some policy => Ok policy
  | None => Err (Wrap method ErrMethodNotDeclared)
  end.

(** * The client ([interceptor_deadline.go], [interceptor_compose.go], [dial.go]) *)
Section Client.
Context {Env : Type} (rt : Runtime (Env := Env)).
Notation Call := (HttpClient.Call (Env := Env)).
Notation Shared := (HttpClient.Shared (Env := Env)).

(** One attempt on the wire. *)
Definition Invoker : Type := Context -> Shared -> option error * Shared.
Definition unary_do (invoker : Invoker) : Do (Env := Env) := fun ctx w =>
  let '(err, s) := invoker ctx w.1 in (err, (s, w.2)).

(** [outgoing]; the clock is read for the time left and again by [WithTimeout]. *)
Definition outgoing (cfg : Config) (method : string) (ctx : Context) (s : Shared) : result error Context * Shared :=
  match Policy cfg method with
  | Err err => (Err err, s)
  | Panic why => (Panic why, s)
  | Ok policy =>
      match Outgoing (Context_Deadline ctx) (sh_budget s) (sh_clock s) (sh_clock (rt_elapse rt s)) (mp_Budget policy) with
      | Err err => (Err err, s)
      | Panic why => (Panic why, s)
      | Ok until =>
          let read := rt_elapse rt (rt_elapse rt s) in
          let armed := rt_elapse rt read in
          (Ok (WithDeadline ctx (sh_clock armed + time_sub until (sh_clock read))), armed)
      end
  end.
Definition DeadlineUnaryInterceptor (cfg : Config) (method : string) (next : Invoker) : Invoker := fun ctx s =>
  match outgoing cfg method ctx s with
  | (Err err, s) => (Some err, s)
  | (Panic why, s) => (Some (Opaque why), s)          (* [outgoing] never panics *)
  | (Ok bounded, s) => next bounded s
  end.

(** A client stream, by whether its derived context was cancelled. *)
Record boundedStream := mkBoundedStream { bs_ctx : Context; bs_cancelled : bool }.
Definition DeadlineStreamInterceptor (cfg : Config) (method : string)
    (streamer : Context -> Shared -> option error * Shared) (ctx : Context) (s : Shared)
    : result error boundedStream * Shared :=
  match outgoing cfg method ctx s with
  | (Err err, s) => (Err err, s)
  | (Panic why, s) => (Panic why, s)
  | (Ok bounded, s) =>
      match streamer bounded s with
      | (Some err, s) => (Err err, s)
      | (None, s) => (Ok (mkBoundedStream bounded false), s)
      end
  end.
(** [RecvMsg], [SendMsg], [Header] and [CloseSend], by the error of the stream. *)
Definition stream_gesture (err : option error) (b : boundedStream) : option error * boundedStream :=
  (err, mkBoundedStream (bs_ctx b) (bs_cancelled b || bool_decide (is_Some err))).
(** The stream's own context ended. *)
Definition stream_ended (b : boundedStream) : boundedStream := mkBoundedStream (bs_ctx b) true.

(** The decorators of the composition but retry share the dependency's state. *)
Fixpoint calls_of (sheet : Sheet) (methods : list (string * MethodPolicy)) : result error (gmap string Call) :=
  match methods with
  | [] => Ok ∅
  | (method, policy) :: rest =>
      call ← match compose_Build rt (mkComposeConfig sheet (Some (StatusClassifier (mp_RetryableCodes policy)))
                                       (Some dependencyFailure)) with
             | Err e => Err (Wrap "grpc" e) | ok => ok end;
      calls ← calls_of sheet rest;
      Ok (<[method := call]> calls)
  end.
Definition composeCalls `{MapOrder} (cfg : Config) : result error (gmap string Call) :=
  _ ← Config_Validate cfg; calls_of (gc_Sheet cfg) (ranged (gc_Methods cfg)).

Definition op_of_policy (policy : MethodPolicy) : Resilience.Operation :=
  let op := Budget_Operation (mp_Budget policy) in
  mkResOperation (ro_Dependency op) (ro_Method op) (ro_Kind op) (mp_Idempotent policy) (ro_EffectAbsent op)
    (ro_Deadline op) (ro_EstimatedDuration op).
Definition zeroMethodPolicy : MethodPolicy := mkMethodPolicy (mkHopBudget "" "" 0 0 0) false [].
Definition compose_unary (cfg : Config) (calls : gmap string Call) (method : string) (next : Invoker) : Invoker :=
  fun ctx s =>
    match calls !! method with
    | None => (Some (Wrap method ErrMethodNotDeclared), s)
    | Some call =>
        let policy := default zeroMethodPolicy (gc_Methods cfg !! method) in
        let '(err, w) := call ctx (op_of_policy policy) (unary_do next) (s, mkFlight None 0 []) in (err, w.1)
    end.
Definition ComposeUnaryInterceptor `{MapOrder} (cfg : Config) : result error (string -> Invoker -> Invoker) :=
  calls ← composeCalls cfg; Ok (compose_unary cfg calls).

(** [Dial]: what a unary call of the connection is; [opened] is the answer of
    [grpc.NewClient]. *)
Definition Dial `{MapOrder} (cfg : Config) (opened : option error) : result error (string -> Invoker -> Invoker) :=
  _ ← Config_Validate cfg;
  compose ← ComposeUnaryInterceptor cfg;
  match opened with
  | Some err => Err (Wrap "grpc" err)
  | None => Ok (fun method invoker => DeadlineUnaryInterceptor cfg method (compose method invoker))
  end.
End Client.

(** * The declaration of a server ([api_env.go], [server.go], [server_config.go]) *)
Record APIEnv := mkAPIEnv {
  ae_Addr : string; ae_Insecure : bool; ae_CertFile : string; ae_KeyFile : string;
  ae_ClientCAFile : string; ae_TrustedClients : list string
}.
Definition ReadAPIEnv (lookup : string -> string) (defaultAddr : string) : result error APIEnv :=
  insecure ← ParseBool "GRPC_INSECURE" (lookup "GRPC_INSECURE");
  Ok (mkAPIEnv (OrDefault (lookup "GRPC_ADDR") defaultAddr) insecure (lookup "GRPC_TLS_CERT_FILE")
        (lookup "GRPC_TLS_KEY_FILE") (lookup "GRPC_CLIENT_CA_FILE") (SplitList (lookup "GRPC_TRUSTED_CLIENTS"))).
Definition APIEnv_Missing (e : APIEnv) : list string :=
  if ae_Insecure e then []
  else if String.eqb (ae_CertFile e) "" && String.eqb (ae_KeyFile e) ""
  then ["GRPC_INSECURE or GRPC_TLS_CERT_FILE and GRPC_TLS_KEY_FILE"]
  else
    fst <$> filter (fun v : string * bool => v.2 = true)
      [("GRPC_TLS_CERT_FILE", String.eqb (ae_CertFile e) ""); ("GRPC_TLS_KEY_FILE", String.eqb (ae_KeyFile e) "");
       ("GRPC_CLIENT_CA_FILE", String.eqb (ae_ClientCAFile e) "");
       ("GRPC_TRUSTED_CLIENTS", bool_decide (ae_TrustedClients e = []))]%string.

Definition HealthServices (name : string) : list string := [""; name]%string.
Definition MethodLimits (service : string) (methods : list string) (limit : Admission.Limit)
    : gmap string Admission.Limit :=
  foldl (fun limits method => <[FullMethod service method := limit]> limits) ∅ methods.

Section Certificates.
(** [tls.LoadX509KeyPair], [os.ReadFile], and whether a file holds a certificate
    in PEM. *)
Context (load_pair : string -> string -> result error bytes) (read_file : string -> result error bytes)
        (holds_pem : bytes -> bool).
Definition ServerTLS (certFile keyFile : string) : result error (option TLSConfig) :=
  if String.eqb certFile "" then Ok None
  else match load_pair certFile keyFile with
       | Err err => Err (Wrap "grpc tls" err)
       | Panic why => Panic why
       | Ok certificate => Ok (Some (mkTLSConfig false VersionTLS12 [certificate] None 0))
       end.
Definition requireClientAuth (config : TLSConfig) (caFile : string) (trusted : list string) : result error TLSConfig :=
  if String.eqb caFile "" then Err ErrClientCARequired
  else if bool_decide (trusted = []) then Err ErrTrustedClientsRequired
  else match read_file caFile with
       | Err err => Err (Wrap "grpc client ca" err)
       | Panic why => Panic why
       | Ok authority =>
           if negb (holds_pem authority) then Err (Opaque "grpc client ca: holds no PEM certificate")
           else Ok (mkTLSConfig (tls_InsecureSkipVerify config) (tls_MinVersion config) (tls_Certificates config)
                      (Some authority) RequireAndVerifyClientCert)
       end.
End Certificates.

(** A verified certificate, by its names; the peer of a call, by what its
    transport vouches for: the chains TLS verified, when it is TLS. *)
Record Certificate := mkCertificate { ct_DNSNames : list string; ct_URIs : list string }.
Record Peer := mkPeer { pe_chains : option (list (list Certificate)) }.
Definition verifiedLeaf (caller : option Peer) : option Certificate :=
  match caller ≫= pe_chains with
  | Some ((leaf :: _) :: _) => Some leaf
  | _ => None
  end.
Definition trustedPeer (caller : option Peer) (trusted : list string) : bool :=
  match verifiedLeaf caller with
  | None => false
  | Some leaf =>
      existsb (fun identity => negb (String.eqb identity "") && bool_decide (identity ∈ trusted))
        (ct_DNSNames leaf ++ ct_URIs leaf)
  end.

(** * What a call is logged with ([interceptor_context.go], [logging/severity.go]) *)
Definition outcomeOf (code : Code) : OutcomeCategory :=
  if code =? OK then OutcomeAccepted
  else if bool_decide (code ∈ [PermissionDenied; CodeUnauthenticated]) then OutcomeDenied
  else if bool_decide (code ∈ [InvalidArgument; FailedPrecondition; OutOfRange; CodeNotFound; AlreadyExists; Aborted])
  then OutcomeRejected
  else OutcomeFailed.
Inductive Level := LevelDebug | LevelInfo | LevelWarn | LevelError.
Inductive Role := ServerRole | ClientRole.
Definition Severity (role : Role) (outcome : OutcomeCategory) : Level :=
  match role, outcome with
  | ClientRole, (OutcomeAccepted | OutcomeRejected) => LevelDebug
  | ClientRole, _ => LevelWarn
  | ServerRole, (OutcomeAccepted | OutcomeRejected) => LevelInfo
  | ServerRole, OutcomeDenied => LevelWarn
  | ServerRole, OutcomeFailed => LevelError
  end.
Definition canonicalNames : list (Code * string) :=
  [(OK, "OK"); (Canceled, "CANCELLED"); (Unknown, "UNKNOWN"); (InvalidArgument, "INVALID_ARGUMENT");
   (CodeDeadlineExceeded, "DEADLINE_EXCEEDED"); (CodeNotFound, "NOT_FOUND"); (AlreadyExists, "ALREADY_EXISTS");
   (PermissionDenied, "PERMISSION_DENIED"); (ResourceExhausted, "RESOURCE_EXHAUSTED");
   (FailedPrecondition, "FAILED_PRECONDITION"); (Aborted, "ABORTED"); (OutOfRange, "OUT_OF_RANGE");
   (Unimplemented, "UNIMPLEMENTED"); (Internal, "INTERNAL"); (Unavailable, "UNAVAILABLE");
   (DataLoss, "DATA_LOSS"); (CodeUnauthenticated, "UNAUTHENTICATED")]%string.
Definition canonicalCode (code : Code) : string :=
  match List.find (fun entry => entry.1 =? code) canonicalNames with
  | Some (_, name) => name
  | None => ("CODE(" ++ Itoa code ++ ")")%string
  end.
Definition rpcMethod (fullMethod : string) : string := TrimPrefix fullMethod "/".

Inductive IdempotencyAttr := NoKey | KeyIs (key : string) | KeyInvalid.
Definition idempotencyAttrs (key : string) : IdempotencyAttr :=
  if String.eqb key "" then NoKey else if ValidIdempotencyKey key then KeyIs key else KeyInvalid.

(** [assembled]: its two contexts count once its [ok] is set, which sets both. *)
Record assembled := mkAssembled {
  as_contexts : option (ExecutionContext * MessageContext);
  as_idempotency : IdempotencyAttr
}.
Definition zeroAssembled : assembled := mkAssembled None NoKey.

(** One record "grpc call", and the execution its context names. *)
Record CallRecord := mkCallRecord {
  cr_level : Level;
  cr_method : string;
  cr_code : string;
  cr_category : string;
  cr_idempotency : IdempotencyAttr;
  cr_error : option string;                       (* error.type *)
  cr_execution : option ExecutionContext
}.
(** [errorAttr]: a categorised error's own category, or the status's. *)
Definition errorAttr (err : error) : string :=
  match as_category err with
  | Some category => if String.eqb category "" then "_OTHER" else category
  | None => Category (Some err)
  end.

Definition publicStatus (err : option error) : option error :=
  match err with
  | None => None
  | Some err =>
      match as_status err with
      | Some carried => Status_Err carried
      | None =>
          let code := FromContextError err in
          if code =? CodeDeadlineExceeded then status_Error code "deadline exceeded"
          else if code =? Canceled then status_Error code "canceled"
          else status_Error Unknown "unknown failure"
      end
  end.

Definition call_record (fullMethod : string) (slot : assembled) (ambient : option ExecutionContext) (err : option error)
    : CallRecord :=
  let code := status_Code (publicStatus err) in
  mkCallRecord (Severity ServerRole (outcomeOf code)) (rpcMethod fullMethod) (canonicalCode code) (Category err)
    (as_idempotency slot) (errorAttr <$> err)
    (match as_contexts slot with Some (execution, _) => Some execution | None => ambient end).

(** * The server ([interceptor_context.go], [admission.go], [recover.go], [access.go], [server.go])

    An interceptor is a function on the rest of its chain.  What a call leaves
    (the slot of its contexts, the mark of its log) is behind pointers its
    context carries; the admission controller, the slots of the ports and the log
    are the process's. *)
Record callNote := mkCallNote { cn_slot : loc; cn_err : option error }.
Record accessMark := mkAccessMark { am_fullMethod : string; am_note : option callNote }.
Record Span := mkSpan { sp_TraceID : string; sp_traceparent : string; sp_tracestate : string }.

Record CallCtx := mkCallCtx {
  cc_ctx : Ctx;
  cc_incoming : option MD;
  cc_peer : option Peer;
  cc_span : Span;
  cc_trusted : bool;
  cc_assembled : option loc;
  cc_mark : option loc
}.
Definition with_ctx (ctx : Ctx) (c : CallCtx) : CallCtx :=
  mkCallCtx ctx (cc_incoming c) (cc_peer c) (cc_span c) (cc_trusted c) (cc_assembled c) (cc_mark c).
Definition withTrustedPeer (c : CallCtx) : CallCtx :=
  mkCallCtx (cc_ctx c) (cc_incoming c) (cc_peer c) (cc_span c) true (cc_assembled c) (cc_mark c).
Definition with_assembled (l : loc) (c : CallCtx) : CallCtx :=
  mkCallCtx (cc_ctx c) (cc_incoming c) (cc_peer c) (cc_span c) (cc_trusted c) (Some l) (cc_mark c).
Definition with_mark (l : loc) (c : CallCtx) : CallCtx :=
  mkCallCtx (cc_ctx c) (cc_incoming c) (cc_peer c) (cc_span c) (cc_trusted c) (cc_assembled c) (Some l).

(** What a handler answers. *)
Inductive answer (R : Type) := Returned (resp : option R) (err : option error) | Panicked (why : string).
Arguments Returned {R}.
Arguments Panicked {R}.

Section Server.
Context {Env R : Type}.

Record ServerWorld := mkServerWorld {
  sw_admission : Controller;
  sw_slots : Slots;
  sw_assembled : gmap loc assembled;
  sw_marks : gmap loc accessMark;
  sw_next : loc;
  sw_log : list CallRecord;                       (* newest first *)
  sw_headers : list (string * string);
  sw_env : Env
}.
Definition set_admission (c : Controller) (w : ServerWorld) : ServerWorld :=
  mkServerWorld c (sw_slots w) (sw_assembled w) (sw_marks w) (sw_next w) (sw_log w) (sw_headers w) (sw_env w).
Definition set_slots (s : Slots) (w : ServerWorld) : ServerWorld :=
  mkServerWorld (sw_admission w) s (sw_assembled w) (sw_marks w) (sw_next w) (sw_log w) (sw_headers w) (sw_env w).
Definition set_assembled (l : loc) (a : assembled) (w : ServerWorld) : ServerWorld :=
  mkServerWorld (sw_admission w) (sw_slots w) (<[l := a]> (sw_assembled w)) (sw_marks w) (sw_next w) (sw_log w)
    (sw_headers w) (sw_env w).
Definition new_assembled (w : ServerWorld) : loc * ServerWorld :=
  (sw_next w,
   mkServerWorld (sw_admission w) (sw_slots w) (<[sw_next w := zeroAssembled]> (sw_assembled w)) (sw_marks w)
     (S (sw_next w)) (sw_log w) (sw_headers w) (sw_env w)).
Definition set_mark (l : loc) (m : accessMark) (w : ServerWorld) : ServerWorld :=
  mkServerWorld (sw_admission w) (sw_slots w) (sw_assembled w) (<[l := m]> (sw_marks w)) (sw_next w) (sw_log w)
    (sw_headers w) (sw_env w).
Definition new_mark (m : accessMark) (w : ServerWorld) : loc * ServerWorld :=
  (sw_next w,
   mkServerWorld (sw_admission w) (sw_slots w) (sw_assembled w) (<[sw_next w := m]> (sw_marks w)) (S (sw_next w))
     (sw_log w) (sw_headers w) (sw_env w)).
Definition add_log (r : CallRecord) (w : ServerWorld) : ServerWorld :=
  mkServerWorld (sw_admission w) (sw_slots w) (sw_assembled w) (sw_marks w) (sw_next w) (r :: sw_log w)
    (sw_headers w) (sw_env w).
Definition add_header (key value : string) (w : ServerWorld) : ServerWorld :=
  mkServerWorld (sw_admission w) (sw_slots w) (sw_assembled w) (sw_marks w) (sw_next w) (sw_log w)
    ((key, value) :: sw_headers w) (sw_env w).
Definition set_env (e : Env) (w : ServerWorld) : ServerWorld :=
  mkServerWorld (sw_admission w) (sw_slots w) (sw_assembled w) (sw_marks w) (sw_next w) (sw_log w) (sw_headers w) e.

(** The logger's threshold, the clock of the controller, the entropy source, and
    whether the transport takes a header. *)
Record ServerRuntime := mkServerRuntime {
  sr_Enabled : Level -> bool;
  sr_now : Env -> Z;
  sr_rand : Env -> option bytes * Env;
  sr_SetHeader : Env -> bool
}.
Context (rt : ServerRuntime).

Definition Handler : Type := CallCtx -> ServerWorld -> answer R * ServerWorld.
Definition Interceptor : Type := string -> Handler -> Handler.
Definition chain (interceptors : list Interceptor) (fullMethod : string) (handler : Handler) : Handler :=
  foldr (fun interceptor next => interceptor fullMethod next) handler interceptors.
Definition refuse (err : option error) (w : ServerWorld) : answer R * ServerWorld := (Returned None err, w).

(** ** The log of calls *)
Definition slot_at (l : loc) (w : ServerWorld) : assembled := default zeroAssembled (sw_assembled w !! l).
Definition logCall (c : CallCtx) (fullMethod : string) (slot : assembled) (err : option error) (w : ServerWorld)
    : ServerWorld :=
  let record := call_record fullMethod slot (ExecutionContextFrom (cc_ctx c)) err in
  if sr_Enabled rt (cr_level record) then add_log record w else w.
Definition noteCall (c : CallCtx) (fullMethod : string) (slot : loc) (err : option error) (w : ServerWorld)
    : ServerWorld :=
  match cc_mark c with
  | Some m =>
      let fullMethod := match sw_marks w !! m with Some mark => am_fullMethod mark | None => "" end in
      set_mark m (mkAccessMark fullMethod (Some (mkCallNote slot err))) w
  | None => logCall c fullMethod (slot_at slot w) err w
  end.
(** [TagRPC] under the filter of the traffic, and [HandleRPC] at the call's end. *)
Definition TagRPC (filtered : bool) (fullMethod : string) (c : CallCtx) (w : ServerWorld) : CallCtx * ServerWorld :=
  if negb filtered then (c, w)
  else let '(m, w) := new_mark (mkAccessMark fullMethod None) w in (with_mark m c, w).
Definition HandleRPC_End (c : CallCtx) (end_error : option error) (w : ServerWorld) : ServerWorld :=
  match cc_mark c ≫= fun m => sw_marks w !! m with
  | None => w
  | Some mark =>
      match am_note mark with
      | None => logCall c (am_fullMethod mark) zeroAssembled end_error w
      | Some note =>
          let err := if status_Code (publicStatus (cn_err note)) =? status_Code end_error
                     then cn_err note else end_error in
          logCall c (am_fullMethod mark) (slot_at (cn_slot note) w) err w
      end
  end.

(** ** The interceptors *)
Definition recoverUnary : Interceptor := fun fullMethod next c w =>
  let '(slot, w) := new_assembled w in
  match next (with_assembled slot c) w with
  | (Panicked _, w) =>
      let err := status_Error Internal "internal failure" in
      (Returned None err, noteCall c fullMethod slot err w)
  | answered => answered
  end.
Definition TrustedPeers (trusted : list string) : Interceptor := fun _ next c w =>
  if negb (trustedPeer (cc_peer c) trusted)
  then refuse (status_Error PermissionDenied "the calling workload is not trusted") w
  else next (withTrustedPeer c) w.

Definition ownMethods (service : string) (interceptor : Interceptor) : Interceptor := fun fullMethod next c w =>
  if negb (HasPrefix fullMethod ("/" ++ service ++ "/")) then next c w else interceptor fullMethod next c w.
Definition serverOutcome : Interceptor := fun _ next c w =>
  match next c w with
  | (Returned resp err, w) => (Returned resp (publicStatus err), w)
  | panicked => panicked
  end.
Definition callLog : Interceptor := fun fullMethod next c w =>
  let '(slot, c, w) := match cc_assembled c with
                       | Some slot => (slot, c, w)
                       | None => let '(slot, w) := new_assembled w in (slot, with_assembled slot c, w)
                       end in
  match next c w with
  | (Returned resp err, w) => (Returned resp err, noteCall c fullMethod slot err w)
  | panicked => panicked
  end.

Definition TenantKey : string := "x-tenant-id".
Definition CorrelationKey : string := "x-correlation-id".
Definition CausationKey : string := "x-causation-id".
Definition IdempotencyKey : string := "idempotency-key".
Definition ReplayedHeader : string := "idempotent-replayed".
Definition LocaleKey : string := "x-locale".
Definition DefaultLocale : string := "en".
Definition incoming (c : CallCtx) : MD := default ∅ (cc_incoming c).
Definition admissionTenant (c : CallCtx) : string := MetadataCarrier_Get (incoming c) TenantKey.

(** The release is deferred: it runs when the handler panics too. *)
Definition Admission_ (cfg : Admission.Config) (tenant : CallCtx -> string) : Interceptor := fun fullMethod next c w =>
  let '(grant, reason, ctrl) := Admit cfg fullMethod (tenant c) (sr_now rt (sw_env w)) (sw_admission w) in
  let release w := match grant with Some g => set_admission (Release g (sw_admission w)) w | None => w end in
  let w := set_admission ctrl w in
  match reason with
  | Admission.Admitted_ => let '(answered, w) := next c w in (answered, release w)
  | UndeclaredRoute => refuse (status_Error Unimplemented "grpc: the method declares no admission limit") (release w)
  | _ => refuse (status_Error ResourceExhausted ("grpc: admission refused: " ++ reason_text reason)) (release w)
  end.
Definition requireDeadline : Interceptor := fun _ next c w =>
  match Deadline.Require (ctx_Deadline (cc_ctx c)) with
  | Ok _ => next c w
  | _ => refuse (status_Error InvalidArgument "the call declares no deadline (GRP-04)") w
  end.

Definition maxMessageTracestate : Z := 512.
Definition messageTracestate (tracestate : string) : string :=
  if maxMessageTracestate <? Z.of_nat (String.length tracestate) then "" else tracestate.
Definition optional (value : string) : option string := if String.eqb value "" then None else Some value.
Definition tenantOf (md : MD) : option TenantID := optional (MetadataCarrier_Get md TenantKey).
Definition localeOf (md : MD) : string :=
  let locale := MetadataCarrier_Get md LocaleKey in if ValidLocale locale then locale else DefaultLocale.
Definition deadlineOf (ctx : Ctx) : Instant := default 0 (ctx_Deadline ctx).

(** The two contexts of the execution, from what crossed the hop. *)
Definition execution_spec (c : CallCtx) (correlation requestID : string) : ExecutionContextSpec :=
  let md := incoming c in
  mkExecutionContextSpec requestID correlation (optional (MetadataCarrier_Get md CausationKey))
    (sp_TraceID (cc_span c)) None (tenantOf md) None (deadlineOf (cc_ctx c)) (localeOf md).
Definition message_context (c : CallCtx) (correlation requestID : string) : MessageContext :=
  mkMessageContext correlation requestID (sp_traceparent (cc_span c)) (messageTracestate (sp_tracestate (cc_span c))).
Definition new_id (w : ServerWorld) : result error string * ServerWorld :=
  let '(id, env) := NewID (sr_rand rt) "grpc" (sw_env w) in (id, set_env env w).
Definition chain_correlation (c : CallCtx) (w : ServerWorld) : result error string * ServerWorld :=
  let correlation := MetadataCarrier_Get (incoming c) CorrelationKey in
  if ValidCorrelation correlation then (Ok correlation, w) else new_id w.

(** The answer of a command, with the header of a replay. *)
Definition replay_header (c : CallCtx) (answered : answer R) (w : ServerWorld) : ServerWorld :=
  match answered with
  | Returned _ None =>
      if bool_decide ((IdempotencyOutcomeFrom (cc_ctx c) (sw_slots w)).1 = IdempotencyReplayed) && sr_SetHeader rt (sw_env w)
      then add_header ReplayedHeader "true" w else w
  | _ => w
  end.
(** The handler under the contexts of its execution. *)
Definition run_assembled (reach command : bool) (key : string) (execution : ExecutionContext) (message : MessageContext)
    (next : Handler) (c : CallCtx) (w : ServerWorld) : answer R * ServerWorld :=
  let ctx := WithMessageContext (WithExecutionContext (cc_ctx c) execution) message in
  let ctx := if reach then WithPlatformReach ctx ReachAllTenants else ctx in
  if negb command then next (with_ctx ctx c) w
  else
    let '(ctx, slots) := WithIdempotencySlot (WithIdempotencyKey ctx key) (sw_slots w) in
    let c := with_ctx ctx c in
    let '(answered, w) := next c (set_slots slots w) in
    (answered, replay_header c answered w).
(** The slot [callLog] or [recoverUnary] left; without one, a slot nobody reads. *)
Definition note_slot (c : CallCtx) (a : assembled) (w : ServerWorld) : ServerWorld :=
  match cc_assembled c with Some l => set_assembled l a w | None => w end.
Definition key_refusal (command : bool) (key : string) : option (option error) :=
  if negb command then None
  else if String.eqb key "" then Some (KeyStatus ReasonMissingIdempotencyKey)
  else if negb (ValidIdempotencyKey key) then Some (KeyStatus ReasonInvalidIdempotencyKey)
  else None.
Definition requestContext (commands platform : gset string) : Interceptor := fun fullMethod next c w =>
  let reach := bool_decide (fullMethod ∈ platform) in
  if reach && negb (cc_trusted c)
  then refuse (status_Error PermissionDenied "a platform method answers only a workload the server trusts (IDN-03)") w
  else
    let command := bool_decide (fullMethod ∈ commands) in
    let key := MetadataCarrier_Get (incoming c) IdempotencyKey in
    let found := match cc_assembled c with Some l => slot_at l w | None => zeroAssembled end in
    let w := note_slot c (mkAssembled (as_contexts found) (idempotencyAttrs key)) w in
    match key_refusal command key with
    | Some refusal => refuse refusal w
    | None =>
        match chain_correlation c w with
        | (Panic why, w) => (Panicked why, w)
        | (Err err, w) => refuse (Some err) w                 (* [NewID] has no error *)
        | (Ok correlation, w) =>
            match new_id w with
            | (Panic why, w) => (Panicked why, w)
            | (Err err, w) => refuse (Some err) w
            | (Ok requestID, w) =>
                match NewExecutionContext (execution_spec c correlation requestID) with
                | Ok execution =>
                    let message := message_context c correlation requestID in
                    let w := note_slot c (mkAssembled (Some (execution, message)) (idempotencyAttrs key)) w in
                    run_assembled reach command key execution message next c w
                | _ => refuse (status_Error Internal "the execution context could not be assembled") w
                end
            end
        end
    end.

(** ** The chain of a service *)
Record serverOptions := mkServerOptions { so_commands : gset string; so_platform : gset string }.
Definition ServerOption : Type := string -> serverOptions -> serverOptions.
Definition full_methods (service : string) (methods : list string) : gset string :=
  list_to_set (FullMethod service <$> methods).
Definition WithCommands (methods : list string) : ServerOption := fun service o =>
  mkServerOptions (so_commands o ∪ full_methods service methods) (so_platform o).
Definition WithPlatformMethods (methods : list string) : ServerOption := fun service o =>
  mkServerOptions (so_commands o) (so_platform o ∪ full_methods service methods).
Definition ServerInterceptors (service : string) (ctrl : Admission.Config) (opts : list ServerOption) : list Interceptor :=
  let options := foldl (fun o opt => opt service o) (mkServerOptions ∅ ∅) opts in
  let own := ownMethods service in
  [own serverOutcome; own callLog; own (Admission_ ctrl admissionTenant); own requireDeadline;
   own (requestContext (so_commands options) (so_platform options))].

Record ServerConfig := mkServerConfig {
  svc_TLS : option TLSConfig;
  svc_Insecure : bool;
  svc_Services : list string;
  svc_UnaryInterceptors : list Interceptor
}.
Definition ServerConfig_Validate (c : ServerConfig) : result error unit :=
  _ ← validateTLS (svc_TLS c) (svc_Insecure c);
  match svc_TLS c with
  | Some tls => if negb (tls_ClientAuth tls =? RequireAndVerifyClientCert) then Err ErrClientCARequired else Ok ()
  | None => Ok ()
  end.
(** [NewServer]: how it serves a unary call, and the health it starts with. *)
Record Server := mkServer { sv_serve : string -> Handler -> Handler; sv_health : gmap string bool }.
Definition NewServer (cfg : ServerConfig) : result error Server :=
  _ ← ServerConfig_Validate cfg;
  Ok (mkServer (chain (recoverUnary :: svc_UnaryInterceptors cfg))
        (foldl (fun health service => <[service := false]> health) ∅ (svc_Services cfg))).

Record APIServer := mkAPIServer {
  as_CertFile : string; as_KeyFile : string; as_Insecure : bool; as_ClientCAFile : string;
  as_TrustedClients : list string; as_Services : list string; as_Interceptors : list Interceptor
}.
Definition APIServerConfig (load_pair : string -> string -> result error bytes) (read_file : string -> result error bytes)
    (holds_pem : bytes -> bool) (api : APIServer) : result error ServerConfig :=
  tlsConfig ← ServerTLS load_pair (as_CertFile api) (as_KeyFile api);
  match tlsConfig with
  | None => Ok (mkServerConfig None (as_Insecure api) (as_Services api) (as_Interceptors api))
  | Some tls =>
      tls ← requireClientAuth read_file holds_pem tls (as_ClientCAFile api) (as_TrustedClients api);
      Ok (mkServerConfig (Some tls) false (as_Services api)
            (TrustedPeers (as_TrustedClients api) :: as_Interceptors api))
  end.

(** ** A command's method ([command.go]) *)
Definition ExecutionOf (c : CallCtx) : result error ExecutionContext :=
  match ExecutionContextFrom (cc_ctx c) with
  | Some execution => Ok execution
  | None => Err (status_node (mkStatus Internal "the execution context was not assembled" []))
  end.
(** The outcome of a use case: its response, or a refusal of the domain. *)
Definition Command {A} (run : CallCtx -> ServerWorld -> result error (Rejection + A) * ServerWorld)
    (refused : Rejection -> R) (accepted : A -> R) : Handler := fun c w =>
  match ExecutionOf c with
  | Err err => (Returned None (Some err), w)
  | Panic why => (Panicked why, w)
  | Ok _ =>
      match run c w with
      | (Panic why, w) => (Panicked why, w)
      | (Err err, w) => (Returned None (StatusOf (Some err)), w)
      | (Ok (inl rejection), w) => (Returned (Some (refused rejection)) None, w)
      | (Ok (inr response), w) => (Returned (Some (accepted response)) None, w)
      end
  end.
End Server.
