(* ===== verification/GrpcTheorems.v ===== *)
(** What gRPC's side of the kernel promises: a status is what the client is told
    and nothing else, a server runs a method only for a call it vetted, under the
    contexts it authored, and the client of a dependency repeats only what its
    policy declares repeatable. *)

From S2P Require Import Prelude GoTime GoStrings GoSlices Regex DomainKernel Errors Ports Retry Breaker Resilience Envelope Deadline Admission Authn HttpClient Grpc.

(** * Statuses *)
Definition is_status (err : option error) : Prop := exists s, err = Some (status_node s) /\ st_Code s <> OK.

Lemma node_details_of details :
  match details_node details with Some node => node_details node | None => [] end = details.
Proof.
  induction details as [| d rest IH]; [done |]. cbn. rewrite <- IH at 2. by destruct d.
Qed.
Lemma as_status_node s : as_status (status_node s) = Some s.
Proof. unfold as_status, status_node. cbn. rewrite node_details_of. by destruct s. Qed.
Lemma Status_Err_is_status s : st_Code s <> OK -> is_status (Status_Err s).
Proof. intros Hs. unfold Status_Err. rewrite (proj2 (Z.eqb_neq _ _)) by done. by exists s. Qed.
Create HintDb grpc.
#[export] Hint Resolve Status_Err_is_status : grpc.
Lemma status_Error_is_status code message : code <> OK -> is_status (status_Error code message).
Proof. intros. by apply Status_Err_is_status. Qed.
#[export] Hint Extern 1 (is_status (status_Error _ _)) => by apply status_Error_is_status : grpc.
#[export] Hint Extern 1 (is_status (withReason _ _ _)) => by apply Status_Err_is_status : grpc.
#[export] Hint Extern 1 (is_status (KeyStatus _)) => by apply Status_Err_is_status : grpc.

Lemma IdempotencyStatus_status e mapped : IdempotencyStatus e = Some mapped -> is_status mapped.
Proof. unfold IdempotencyStatus. repeat case_match; intros [= <-]; auto with grpc. Qed.
(** A use case's failure always reaches the client as a status. *)
Lemma StatusOf_status err : is_status (StatusOf err).
Proof.
  unfold StatusOf. destruct (err ≫= IdempotencyStatus) as [mapped |] eqn:Hm.
  - destruct err as [e |]; [| done]. by apply (IdempotencyStatus_status e).
  - repeat case_match; auto with grpc.
Qed.
(** The reason of an idempotency refusal is what the other side of the hop reads. *)
Lemma ReasonOf_KeyStatus reason : ReasonOf (KeyStatus reason) = reason.
Proof.
  unfold KeyStatus, withReason, ReasonOf, Status_Err. cbn [st_Code]. change (InvalidArgument =? OK) with false.
  unfold FromError. rewrite as_status_node. reflexivity.
Qed.

(** What leaves a server: a status the chain below answered, or one of three that
    say nothing of the failure. *)
Definition tells_nothing : list string := ["deadline exceeded"; "canceled"; "unknown failure"]%string.
Lemma publicStatus_public err :
  match err with
  | None => publicStatus err = None
  | Some e =>
      match as_status e with
      | Some carried => publicStatus err = Status_Err carried
      | None => exists s, publicStatus err = Some (status_node s) /\ st_Code s <> OK /\
                  st_Message s ∈ tells_nothing /\ st_Details s = []
      end
  end.
Proof.
  destruct err as [e |]; [| done]. unfold publicStatus. destruct (as_status e) as [carried |] eqn:Hc; [done |].
  unfold FromContextError. destruct (errors_is e ContextDeadlineExceeded);
    [| destruct (errors_is e ContextCanceled)]; cbn; eexists; (split; [reflexivity |]); unfold tells_nothing; set_solver.
Qed.

(** * The server *)
Section Server.
Context {Env R : Type} (rt : ServerRuntime (Env := Env)).
Notation World := (ServerWorld (Env := Env)).
Notation Handler := (Handler (Env := Env) (R := R)).
Notation Interceptor := (Interceptor (Env := Env) (R := R)).
Notation TrustedPeers := (TrustedPeers (Env := Env) (R := R)).

(** What a chain around a handler does to one call: it answers without the
    handler, or runs it once and answers from what it answered. *)
Definition stops (K : Handler -> answer R * World) (a : answer R) (w' : World) : Prop :=
  forall handler, K handler = (a, w').
Definition runs (K : Handler -> answer R * World) (c' : CallCtx) (w1 : World)
    (after : answer R -> World -> answer R * World) : Prop :=
  forall handler, K handler = let '(a, w2) := handler c' w1 in after a w2.

Lemma Admit_grant cfg route tenant now c grant reason c' :
  Admit cfg route tenant now c = (grant, reason, c') ->
  (reason = Admission.Admitted_ /\ exists g, grant = Some g) \/ (reason <> Admission.Admitted_ /\ grant = None).
Proof. unfold Admit. repeat case_match; intros [= <- <- <-]; eauto. Qed.

Lemma new_id_admission (w w' : World) r : new_id rt w = (r, w') ->
  sw_admission w' = sw_admission w /\ (forall e, r <> Err e).
Proof.
  unfold new_id, NewID. destruct (sr_rand rt (sw_env w)) as [[buffer |] env]; by intros [= <- <-].
Qed.
Lemma chain_correlation_admission c (w w' : World) r : chain_correlation rt c w = (r, w') ->
  sw_admission w' = sw_admission w /\ (forall e, r <> Err e) /\
  forall correlation, r = Ok correlation ->
    ValidCorrelation (MetadataCarrier_Get (incoming c) CorrelationKey) = true ->
    correlation = MetadataCarrier_Get (incoming c) CorrelationKey.
Proof.
  unfold chain_correlation. destruct (ValidCorrelation _).
  - intros [= <- <-]. split_and!; [done | done | by intros ? [= <-]].
  - intros [H1 H2]%new_id_admission. done.
Qed.
Lemma note_slot_admission c a (w : World) : sw_admission (note_slot c a w) = sw_admission w.
Proof. unfold note_slot. by destruct (cc_assembled c). Qed.

(** The contexts a handler runs under. *)
Record authored (trusted_ : bool) (commands platform : gset string) (fullMethod : string) (md : MD) (ctx ctx' : Ctx)
    (w1 : World) : Prop := {
  au_execution : exists execution message,
    ExecutionContextFrom ctx' = Some execution /\ MessageContextFrom ctx' = Some message /\
    Tenant execution = tenantOf md /\ Subject execution = None /\
    CausationID execution = optional (MetadataCarrier_Get md CausationKey) /\
    deadline execution = deadlineOf ctx /\
    (ValidCorrelation (MetadataCarrier_Get md CorrelationKey) = true ->
       correlationID execution = MetadataCarrier_Get md CorrelationKey) /\
    mc_CorrelationID message = correlationID execution /\ mc_CausationID message = requestID execution;
  au_reach : PlatformReachFrom ctx' = if bool_decide (fullMethod ∈ platform) then Some ReachAllTenants
                                      else PlatformReachFrom ctx;
  au_trusted : fullMethod ∈ platform -> trusted_ = true;
  au_key : fullMethod ∈ commands ->
    ValidIdempotencyKey (MetadataCarrier_Get md IdempotencyKey) = true /\
    IdempotencyKeyFrom ctx' = Some (MetadataCarrier_Get md IdempotencyKey) /\
    IdempotencyOutcomeFrom ctx' (sw_slots w1) = (IdempotencyNone, false)
}.

Lemma optional_some v : default "" (optional v) = v.
Proof. unfold optional. by destruct (String.eqb_spec v "") as [-> |]. Qed.
Lemma execution_of_spec c correlation requestID_ execution :
  NewExecutionContext (execution_spec c correlation requestID_) = Ok execution ->
  Tenant execution = tenantOf (incoming c) /\ Subject execution = None /\
  CausationID execution = optional (MetadataCarrier_Get (incoming c) CausationKey) /\
  deadline execution = deadlineOf (cc_ctx c) /\ correlationID execution = correlation /\ requestID execution = requestID_.
Proof.
  unfold NewExecutionContext, execution_spec, tenantOf.
  set (cause := optional (MetadataCarrier_Get _ CausationKey)). set (who := optional (MetadataCarrier_Get _ TenantKey)).
  cbn [spec_RequestID spec_CorrelationID spec_CausationID spec_TraceContext spec_Subject spec_Tenant spec_Permissions
       spec_Deadline spec_Locale].
  repeat (destruct (String.eqb _ _); [done |]). destruct (_ <=? 0); [done |].
  repeat (destruct (String.eqb _ _); [done |]). destruct (present_empty cause); [done |].
  cbn [present_empty]. destruct (present_empty who); [done |]. intros [= <-].
  unfold Tenant, Subject, CausationID. by destruct cause, who.
Qed.

Lemma key_refusal_none command key : key_refusal command key = None -> command = true -> ValidIdempotencyKey key = true.
Proof. unfold key_refusal. intros H ->. cbn in H. repeat case_match; try done. by destruct (ValidIdempotencyKey key). Qed.
Lemma key_refusal_status command key refusal : key_refusal command key = Some refusal -> is_status refusal.
Proof. unfold key_refusal. repeat case_match; intros [= <-]; auto with grpc. Qed.

Lemma run_assembled_shape reach command key execution message c (w : World) :
  exists ctx' w1,
    runs (fun next => run_assembled rt reach command key execution message next c w) (with_ctx ctx' c) w1
      (fun a w2 => (a, if command then replay_header rt (with_ctx ctx' c) a w2 else w2)) /\
    sw_admission w1 = sw_admission w /\
    ExecutionContextFrom ctx' = Some execution /\ MessageContextFrom ctx' = Some message /\
    PlatformReachFrom ctx' = (if reach then Some ReachAllTenants else PlatformReachFrom (cc_ctx c)) /\
    (command = true -> IdempotencyKeyFrom ctx' = Some key /\
                       IdempotencyOutcomeFrom ctx' (sw_slots w1) = (IdempotencyNone, false)).
Proof.
  unfold run_assembled. set (ctx1 := if reach then _ else _).
  assert (ExecutionContextFrom ctx1 = Some execution /\ MessageContextFrom ctx1 = Some message /\
    PlatformReachFrom ctx1 = (if reach then Some ReachAllTenants else PlatformReachFrom (cc_ctx c))) as (H1 & H2 & H3)
    by (unfold ctx1; by destruct reach).
  destruct command; cbn [negb].
  - exists (WithIdempotencySlot (WithIdempotencyKey ctx1 key) (sw_slots w)).1,
      (set_slots (WithIdempotencySlot (WithIdempotencyKey ctx1 key) (sw_slots w)).2 w).
    split; [intros handler; reflexivity |]. split_and!; try done. intros _. split; [done |].
    unfold IdempotencyOutcomeFrom. cbn. by rewrite lookup_insert_eq.
  - exists ctx1, w. split; [intros handler; by destruct (handler _ _) |]. by split_and!.
Qed.

(** A chain that stops here, with what it answers left to prove. *)
Ltac stopped :=
  left; do 2 eexists; split; [by intros handler |]; split; [by rewrite ?note_slot_admission |].

(** [requestContext] *)
Lemma requestContext_shape commands platform fullMethod c (w : World) :
  let K (next : Handler) := requestContext rt commands platform fullMethod next c w in
  (exists a w', stops K a w' /\ sw_admission w' = sw_admission w /\
     ((exists why, a = Panicked why) \/ exists err, a = Returned None err /\ is_status err)) \/
  (exists ctx' w1, runs K (with_ctx ctx' c) w1 (fun a w2 =>
       (a, if bool_decide (fullMethod ∈ commands) then replay_header rt (with_ctx ctx' c) a w2 else w2)) /\
     sw_admission w1 = sw_admission w /\ authored (cc_trusted c) commands platform fullMethod (incoming c) (cc_ctx c) ctx' w1).
Proof.
  cbv zeta. unfold requestContext. destruct (bool_decide _ && negb _) eqn:Htrust.
  { stopped. right. eexists. split; [done | auto with grpc]. }
  cbv zeta. set (key := MetadataCarrier_Get _ IdempotencyKey). set (a0 := mkAssembled _ _).
  destruct (key_refusal _ key) as [refusal |] eqn:Hkey.
  { stopped. right. eexists. split; [done | by eapply key_refusal_status]. }
  destruct (chain_correlation _ _ _) as [r wc] eqn:Hc. apply chain_correlation_admission in Hc as (Hwc & Hnc & Hcorr).
  rewrite note_slot_admission in Hwc. destruct r as [correlation | e | why]; [| by destruct (Hnc e) | stopped; eauto].
  destruct (new_id rt wc) as [r wr] eqn:Hn. apply new_id_admission in Hn as [Hwr Hnn]. rewrite Hwc in Hwr.
  destruct r as [requestID_ | e | why]; [| by destruct (Hnn e) | stopped; eauto].
  destruct (NewExecutionContext _) as [execution | |] eqn:He.
  2, 3: stopped; right; eexists; (split; [done | auto with grpc]).
  right. apply execution_of_spec in He as (H1 & H2 & H3 & H4 & H5 & H6).
  destruct (run_assembled_shape (bool_decide (fullMethod ∈ platform)) (bool_decide (fullMethod ∈ commands)) key execution
    (message_context c correlation requestID_) c (note_slot c (mkAssembled (Some (execution,
       message_context c correlation requestID_)) (idempotencyAttrs key)) wr)) as (ctx' & w1 & Hrun & Hw1 & G1 & G2 & G3 & G4).
  exists ctx', w1. split; [exact Hrun |]. rewrite note_slot_admission in Hw1. split; [congruence |]. split.
  - exists execution, (message_context c correlation requestID_). rewrite H5, H6. split_and!; try assumption.
    + by apply Hcorr.
    + reflexivity.
    + reflexivity.
  - exact G3.
  - intros Hin. rewrite bool_decide_true in Htrust by exact Hin. by destruct (cc_trusted c).
  - intros Hin. rewrite bool_decide_true in * by exact Hin. split; [by eapply key_refusal_none | by apply G4].
Qed.

(** ** The chain *)
Definition admission_of (cfg : Admission.Config) (fullMethod : string) (c : CallCtx) (w : World)
    : option nat * Admission.Reason * Controller :=
  Admit cfg fullMethod (admissionTenant c) (sr_now rt (sw_env w)) (sw_admission w).
(** The controller of a call that ended: what the call was granted is given back. *)
Definition settled (cfg : Admission.Config) (fullMethod : string) (c : CallCtx) (w w' : World) : Prop :=
  let '(grant, _, ctrl) := admission_of cfg fullMethod c w in
  sw_admission w' = match grant with Some g => Release g ctrl | None => ctrl end.
Definition failed (a : answer R) : Prop :=
  (exists why, a = Panicked why) \/ exists err, a = Returned None err /\ is_status err.
Lemma failed_status err : is_status err -> failed (Returned None err).
Proof. right. eauto. Qed.
#[local] Hint Resolve failed_status : grpc.

Lemma noteCall_keeps c fullMethod slot err (w : World) :
  sw_admission (noteCall rt c fullMethod slot err w) = sw_admission w /\
  sw_headers (noteCall rt c fullMethod slot err w) = sw_headers w.
Proof. unfold noteCall, logCall. by repeat case_match. Qed.

(** Admission over the deadline and the contexts: a call of the service's own. *)
Lemma admitted_shape cfg commands platform fullMethod c (w : World) :
  let K (next : Handler) :=
    Admission_ rt cfg admissionTenant fullMethod
      (requireDeadline fullMethod (requestContext rt commands platform fullMethod next)) c w in
  (exists a w', stops K a w' /\ failed a /\ settled cfg fullMethod c w w') \/
  (exists ctx' w1 g, admission_of cfg fullMethod c w = (Some g, Admission.Admitted_, sw_admission w1) /\
     is_Some (ctx_Deadline (cc_ctx c)) /\ authored (cc_trusted c) commands platform fullMethod (incoming c) (cc_ctx c) ctx' w1 /\
     runs K (with_ctx ctx' c) w1 (fun a w2 =>
       let w3 := if bool_decide (fullMethod ∈ commands) then replay_header rt (with_ctx ctx' c) a w2 else w2 in
       (a, set_admission (Release g (sw_admission w3)) w3))).
Proof.
  cbv zeta. unfold Admission_, settled. fold (admission_of cfg fullMethod c w).
  destruct (admission_of cfg fullMethod c w) as [[grant reason] ctrl] eqn:Ha.
  pose proof (Admit_grant _ _ _ _ _ _ _ _ Ha) as [[-> [g ->]] | [Hne ->]]; cycle 1.
  { left. destruct reason; [done | ..]; do 2 eexists; (split; [by intros handler |]); (split; [auto with grpc | done]). }
  set (wa := set_admission ctrl w). unfold requireDeadline at 1 2. destruct (ctx_Deadline (cc_ctx c)) as [d |] eqn:Hd; cycle 1.
  { left. do 2 eexists. split; [by intros handler |]. split; [auto with grpc | done]. }
  cbn [Deadline.Require].
  destruct (requestContext_shape commands platform fullMethod c wa)
    as [(a & w' & Hs & Hw & Hf) | (ctx' & w1 & Hr & Hw & Hau)].
  - left. do 2 eexists. split; [intros handler; by rewrite (Hs handler) |]. split; [exact Hf | cbn; by rewrite Hw].
  - right. exists ctx', w1, g. rewrite Hw. split_and!; [done | eauto | done |].
    intros handler. rewrite (Hr handler). by destruct (handler _ _).
Qed.

Lemma publicStatus_status err : is_status err -> publicStatus err = err.
Proof.
  intros (s & -> & Hs). unfold publicStatus. rewrite as_status_node. unfold Status_Err.
  by rewrite (proj2 (Z.eqb_neq _ _)).
Qed.
Lemma service_unfold service cfg opts fullMethod c slot (w : World) (handler : Handler) :
  HasPrefix fullMethod ("/" ++ service ++ "/") = true -> cc_assembled c = Some slot ->
  let options := foldl (fun o opt => opt service o) (mkServerOptions ∅ ∅) opts in
  chain (ServerInterceptors rt service cfg opts) fullMethod handler c w =
  match Admission_ rt cfg admissionTenant fullMethod
          (requireDeadline fullMethod
             (requestContext rt (so_commands options) (so_platform options) fullMethod handler)) c w with
  | (Returned resp err, w) => (Returned resp (publicStatus err), noteCall rt c fullMethod slot err w)
  | panicked => panicked
  end.
Proof.
  intros Hown Hslot options. unfold ServerInterceptors. fold options. unfold chain. cbn [foldr].
  unfold ownMethods. rewrite Hown. cbn [negb]. unfold serverOutcome, callLog. rewrite Hslot.
  match goal with |- _ = match ?x with _ => _ end =>
    match goal with |- match (match ?y with _ => _ end) with _ => _ end = _ => change y with x end;
    by destruct x as [[] ?] end.
Qed.
Lemma service_shape service cfg opts fullMethod c slot (w : World) :
  HasPrefix fullMethod ("/" ++ service ++ "/") = true -> cc_assembled c = Some slot ->
  let options := foldl (fun o opt => opt service o) (mkServerOptions ∅ ∅) opts in
  let K (handler : Handler) := chain (ServerInterceptors rt service cfg opts) fullMethod handler c w in
  (exists a w', stops K a w' /\ failed a /\ settled cfg fullMethod c w w') \/
  (exists ctx' w1 g, admission_of cfg fullMethod c w = (Some g, Admission.Admitted_, sw_admission w1) /\
     is_Some (ctx_Deadline (cc_ctx c)) /\ authored (cc_trusted c) (so_commands options) (so_platform options) fullMethod (incoming c) (cc_ctx c) ctx' w1 /\
     runs K (with_ctx ctx' c) w1 (fun a w2 =>
       let w3 := if bool_decide (fullMethod ∈ so_commands options) then replay_header rt (with_ctx ctx' c) a w2 else w2 in
       let w3 := set_admission (Release g (sw_admission w3)) w3 in
       match a with
       | Returned resp err => (Returned resp (publicStatus err), noteCall rt c fullMethod slot err w3)
       | panicked => (panicked, w3)
       end)).
Proof.
  intros Hown Hslot options. cbv zeta.
  pose proof (fun handler => service_unfold service cfg opts fullMethod c slot w handler Hown Hslot) as Hu.
  cbv zeta in Hu. fold options in Hu.
  destruct (admitted_shape cfg (so_commands options) (so_platform options) fullMethod c w)
    as [(a & w' & Hs & Hf & Hw) | (ctx' & w1 & g & Ha & Hd & Hau & Hr)].
  - left. destruct Hf as [[why ->] | (err & -> & Herr)].
    + exists (Panicked why), w'. split_and!; [| left; eauto | done].
      intros handler. by rewrite (Hu handler), (Hs handler).
    + exists (Returned None err), (noteCall rt c fullMethod slot err w'). split_and!; [| auto with grpc |].
      * intros handler. rewrite (Hu handler), (Hs handler).
        by rewrite publicStatus_status.
      * unfold settled in *. by rewrite (proj1 (noteCall_keeps c fullMethod slot err w')).
  - right. exists ctx', w1, g. split_and!; [done.. |]. intros handler.
    rewrite (Hu handler), (Hr handler).
    by destruct (handler _ _) as [[] ?].
Qed.

(** ** The server *)

(** What a call was vetted for when its handler ran. *)
Record vetted (secured : bool) (trusted : list string) (commands platform : gset string) (cfg : Admission.Config)
    (fullMethod : string) (c : CallCtx) (w : World) (ctx' : Ctx) (w1 : World) (g : nat) : Prop := {
  ve_peer : secured = true -> trustedPeer (cc_peer c) trusted = true;
  ve_admitted : admission_of cfg fullMethod c w = (Some g, Admission.Admitted_, sw_admission w1);
  ve_deadline : is_Some (ctx_Deadline (cc_ctx c));
  ve_authored : authored secured commands platform fullMethod (incoming c) (cc_ctx c) ctx' w1
}.

(** What the header of a replay is sent for. *)
Definition replays (commands : gset string) (fullMethod : string) (ctx' : Ctx) (a : answer R) (w2 : World) : Prop :=
  fullMethod ∈ commands /\ (exists resp, a = Returned resp None) /\
  (IdempotencyOutcomeFrom ctx' (sw_slots w2)).1 = IdempotencyReplayed /\ sr_SetHeader rt (sw_env w2) = true.
(** What the client is answered, by what the handler did. *)
Definition answered (a : answer R) : option R * option error :=
  match a with
  | Returned resp err => (resp, publicStatus err)
  | Panicked _ => (None, status_Error Internal "internal failure")
  end.
Record finished (commands : gset string) (fullMethod : string) (ctx' : Ctx) (g : nat) (a : answer R) (w2 : World)
    (final : answer R) (w3 : World) : Prop := {
  fi_answer : final = Returned (answered a).1 (answered a).2;
  fi_released : sw_admission w3 = Release g (sw_admission w2);
  fi_header : (replays commands fullMethod ctx' a w2 /\ sw_headers w3 = (ReplayedHeader, "true") :: sw_headers w2) \/
              (~ replays commands fullMethod ctx' a w2 /\ sw_headers w3 = sw_headers w2)
}.

Lemma replay_header_finished commands fullMethod ctx' c a w2 :
  cc_ctx c = ctx' ->
  let w3 := if bool_decide (fullMethod ∈ commands) then replay_header rt c a w2 else w2 in
  sw_admission w3 = sw_admission w2 /\
  ((replays commands fullMethod ctx' a w2 /\ sw_headers w3 = (ReplayedHeader, "true") :: sw_headers w2) \/
   (~ replays commands fullMethod ctx' a w2 /\ sw_headers w3 = sw_headers w2)).
Proof.
  intros <-. cbv zeta. unfold replays. case_bool_decide as Hin; [| split; [done | right; split; [tauto | done]]].
  unfold replay_header. destruct a as [resp [err |] | why]; [split; [done | right] | | ].
  - split; [| done]. intros (_ & [? ?] & _). done.
  - destruct (bool_decide_reflect ((IdempotencyOutcomeFrom (cc_ctx c) (sw_slots w2)).1 = IdempotencyReplayed)) as [Ho | Ho],
      (sr_SetHeader rt (sw_env w2)) eqn:Hset; cbn [andb].
    + split; [done | left]. split; [by eauto | done].
    + split; [done | right]. split; [| done]. intros (_ & _ & _ & ?). congruence.
    + split; [done | right]. split; [| done]. by intros (_ & _ & ? & _).
    + split; [done | right]. split; [| done]. by intros (_ & _ & ? & _).
  - split; [done | right]. split; [| done]. intros (_ & [? ?] & _). done.
Qed.

(** A service's interceptors under the recovery of a panic, and behind the trusted
    peers when the server is secured. *)
Lemma recovered_shape service ctrl opts (secured : bool) trusted fullMethod c (w : World) :
  HasPrefix fullMethod ("/" ++ service ++ "/") = true -> cc_trusted c = false ->
  let options := foldl (fun o opt => opt service o) (mkServerOptions ∅ ∅) opts in
  let front : list Interceptor := if secured then [TrustedPeers trusted] else [] in
  let serve (handler : Handler) :=
    chain (recoverUnary rt :: front ++ ServerInterceptors rt service ctrl opts) fullMethod handler c w in
  (exists err w', is_status err /\ stops serve (Returned None err) w' /\
     (sw_admission w' = sw_admission w \/ settled ctrl fullMethod c w w')) \/
  (exists c' w1 g,
     vetted secured trusted (so_commands options) (so_platform options) ctrl fullMethod c w (cc_ctx c') w1 g /\
     forall handler, let '(a, w2) := handler c' w1 in let '(final, w3) := serve handler in
       finished (so_commands options) fullMethod (cc_ctx c') g a w2 final w3).
Proof.
  intros Hown Htrust options. cbv zeta.
  set (wn := (new_assembled w).2). set (slot := sw_next w).
  set (cn := with_assembled slot c). set (ci := if secured then withTrustedPeer cn else cn).
  assert (forall handler : Handler, secured && negb (trustedPeer (cc_peer c) trusted) = false ->
    chain (recoverUnary rt :: (if secured then [TrustedPeers trusted] else []) ++ ServerInterceptors rt service ctrl opts)
      fullMethod handler c w =
    match chain (ServerInterceptors rt service ctrl opts) fullMethod handler ci wn with
    | (Panicked _, w) => (Returned None (status_Error Internal "internal failure"),
                          noteCall rt c fullMethod slot (status_Error Internal "internal failure") w)
    | answered => answered
    end) as Hserve.
  { intros handler Hp. unfold ci. destruct secured; [| done].
    change (chain (recoverUnary rt :: [TrustedPeers trusted] ++ ServerInterceptors rt service ctrl opts) fullMethod handler)
      with (recoverUnary rt fullMethod (TrustedPeers trusted fullMethod
              (chain (ServerInterceptors rt service ctrl opts) fullMethod handler))).
    unfold recoverUnary, Grpc.TrustedPeers. cbn in Hp |- *. by rewrite Hp. }
  destruct (secured && negb (trustedPeer (cc_peer c) trusted)) eqn:Hp.
  { left. apply andb_true_iff in Hp as [-> Hp].
    exists (status_Error PermissionDenied "the calling workload is not trusted"), wn.
    split; [auto with grpc |]. split; [intros handler | by left].
    change (chain (recoverUnary rt :: [TrustedPeers trusted] ++ ServerInterceptors rt service ctrl opts) fullMethod handler)
        with (recoverUnary rt fullMethod (TrustedPeers trusted fullMethod
                (chain (ServerInterceptors rt service ctrl opts) fullMethod handler))).
      unfold recoverUnary, Grpc.TrustedPeers. cbn. by rewrite Hp. }
  assert (cc_assembled ci = Some slot /\ cc_ctx ci = cc_ctx c /\ cc_peer ci = cc_peer c /\ incoming ci = incoming c /\
          cc_trusted ci = secured /\ cc_mark ci = cc_mark c) as (Hslot & Hctx & Hpeer & Hinc & Htr & Hmark)
    by (unfold ci; by destruct secured).
  assert (admission_of ctrl fullMethod ci wn = admission_of ctrl fullMethod c w) as Hadm
    by (unfold admission_of, admissionTenant; by rewrite Hinc).
  pose proof (service_shape service ctrl opts fullMethod ci slot wn Hown Hslot) as Hshape.
  cbv zeta in Hshape. fold options in Hshape. destruct Hshape
    as [(a & w' & Hs & Hf & Hw) | (ctx' & w1 & g & Ha & Hd & Hau & Hr)].
  - left. unfold settled in Hw. rewrite Hadm in Hw. destruct Hf as [[why ->] | (err & -> & Herr)]; do 2 eexists.
    + split; [| split; [intros handler; by rewrite Hserve, (Hs handler) | right]]; [auto with grpc |].
      unfold settled. by rewrite (proj1 (noteCall_keeps _ _ _ _ _)).
    + split; [exact Herr |]. split; [intros handler; by rewrite Hserve, (Hs handler) | by right].
  - right. exists (with_ctx ctx' ci), w1, g. rewrite Hadm in Ha. rewrite Hctx in Hd. split.
    { rewrite Htr, Hinc, Hctx in Hau. split; [intros -> | done..].
      cbn in Hp. by destruct (trustedPeer (cc_peer c) trusted). }
    intros handler. rewrite Hserve, (Hr handler) by done. destruct (handler _ _) as [a w2]. cbv zeta.
    pose proof (replay_header_finished (so_commands options) fullMethod ctx' (with_ctx ctx' ci) a w2 eq_refl) as [Hra Hrh].
    cbv zeta in Hra, Hrh. cbn [cc_ctx with_ctx].
    destruct a as [resp err | why]; (split; [done | |]).
    1, 3: rewrite (proj1 (noteCall_keeps _ _ _ _ _)); cbn [sw_admission set_admission]; by rewrite Hra.
    all: rewrite (proj2 (noteCall_keeps _ _ _ _ _)); exact Hrh.
Qed.

(** A configured server is secured or opted out, and serves under its chain. *)
Lemma served_by load_pair read_file holds_pem api cfg srv :
  APIServerConfig load_pair read_file holds_pem api = Ok cfg -> NewServer rt cfg = Ok srv ->
  (svc_TLS cfg = None -> as_Insecure api = true) /\
  sv_serve srv = chain (recoverUnary rt ::
    (if bool_decide (is_Some (svc_TLS cfg)) then [TrustedPeers (as_TrustedClients api)] else []) ++
    as_Interceptors api : list Interceptor).
Proof.
  unfold APIServerConfig, NewServer, ServerConfig_Validate.
  destruct (ServerTLS _ _ _) as [[tls |] | |]; [| | done..]; unfold mbind, result_bind.
  - destruct (requireClientAuth _ _ _ _ _) as [tls' | |]; [| done..]. intros [= <-]. cbn [svc_TLS svc_Insecure].
    repeat case_match; intros; by simplify_eq.
  - intros [= <-]. cbn. destruct (as_Insecure api); [| done]. by intros [= <-].
Qed.

(** C20: A server of the kernel runs a method of its service only for a call it vetted,
    and once: the caller's certificate, when the server has one, names a workload
    it trusts, the controller admitted the call under the tenant it carries, a
    deadline came with it, a command has a valid key and an empty slot for its
    outcome, and the handler's contexts are the ones the server authored, with the
    reach over all tenants only on a declared method of a server that verified its
    caller.  Every call is answered, whatever the handler does, a panic included,
    with a public status for an error; what the controller granted is given back;
    and the header of a replay is sent exactly with a replayed outcome.  A call
    that is not vetted is refused with a status, and nothing is run. *)
Theorem own_call_served load_pair read_file holds_pem api cfg srv service ctrl opts fullMethod c (w : World) :
  as_Interceptors api = ServerInterceptors rt service ctrl opts ->
  APIServerConfig load_pair read_file holds_pem api = Ok cfg -> NewServer rt cfg = Ok srv ->
  HasPrefix fullMethod ("/" ++ service ++ "/") = true -> cc_trusted c = false ->
  let options := foldl (fun o opt => opt service o) (mkServerOptions ∅ ∅) opts in
  let secured := bool_decide (is_Some (svc_TLS cfg)) in
  let serve (handler : Handler) := sv_serve srv fullMethod handler c w in
  (secured = false -> as_Insecure api = true) /\
  ((exists err w', is_status err /\ stops serve (Returned None err) w' /\
      (sw_admission w' = sw_admission w \/ settled ctrl fullMethod c w w')) \/
   (exists c' w1 g,
      vetted secured (as_TrustedClients api) (so_commands options) (so_platform options) ctrl fullMethod c w
        (cc_ctx c') w1 g /\
      forall handler, let '(a, w2) := handler c' w1 in let '(final, w3) := serve handler in
        finished (so_commands options) fullMethod (cc_ctx c') g a w2 final w3)).
Proof.
  intros Hint Hcfg Hsrv Hown Htrust. cbv zeta.
  destruct (served_by _ _ _ _ _ _ Hcfg Hsrv) as [Hopt Hserve]. split.
  - case_bool_decide as Htls; [done |]. intros _. apply Hopt. by apply eq_None_not_Some.
  - rewrite Hserve, Hint. by apply recovered_shape.
Qed.
End Server.

(** * A server of orders *)
Module Orders.
Definition rt : ServerRuntime (Env := Z) :=
  mkServerRuntime (fun _ => true) id (fun e => (Some (repeat e 16), e + 1)) (fun _ => true).
Definition service : string := "orders.v1.Orders".
Definition place : string := FullMethod service "PlaceOrder".
Definition list_all : string := FullMethod service "ListAll".
Definition ctrl : Admission.Config :=
  Admission.mkConfig (MethodLimits service ["PlaceOrder"; "ListAll"]%string (mkLimit (float_of_Z 1) 1 1)) 16 true.
Definition opts : list ServerOption := [WithCommands ["PlaceOrder"]; WithPlatformMethods ["ListAll"]]%string.
Definition interceptors : list (Interceptor (Env := Z) (R := string)) := ServerInterceptors rt service ctrl opts.
Definition api : APIServer := mkAPIServer "tls.crt" "tls.key" false "ca.crt" ["bff"]%string (HealthServices service) interceptors.
Definition loads (_ _ : string) : result error bytes := Ok [1].
Definition reads (_ : string) : result error bytes := Ok [2].
Definition cfg : ServerConfig :=
  mkServerConfig (Some (mkTLSConfig false VersionTLS12 [[1]] (Some [2]) RequireAndVerifyClientCert)) false
    (HealthServices service) (TrustedPeers ["bff"]%string :: interceptors).
Definition srv : Server :=
  mkServer (chain (recoverUnary rt :: svc_UnaryInterceptors cfg))
    (foldl (fun health service => <[service := false]> health) ∅ (svc_Services cfg)).
Definition call (key : string) (names : list string) : CallCtx :=
  mkCallCtx (mkCtx None (Some (5 * Second)) None None None None None None None None)
    (Some {[ "idempotency-key" := [key]; "x-tenant-id" := ["acme"]; "x-correlation-id" := ["chain-1"] ]}%string)
    (Some (mkPeer (Some [[mkCertificate names []]]))) (mkSpan "0af7" "00-0af7-b7ad-01" "") false None None.
Definition world : ServerWorld :=
  mkServerWorld Admission.New emptySlots ∅ ∅ 0%nat [] [] 0.
(** A handler that marks its outcome a replay, and one that panics. *)
Definition replaying : Handler (Env := Z) (R := string) := fun c w =>
  (Returned (Some "placed"%string) None, set_slots (MarkIdempotency (cc_ctx c) IdempotencyReplayed (sw_slots w)) w).
Definition panicking : Handler (Env := Z) (R := string) := fun _ w => (Panicked "nil pointer dereference", w).

Example replay_is_told :
  let '(a, w) := sv_serve srv place replaying (call "k-1" ["bff"]%string) world in
  a = Returned (Some "placed"%string) None /\ sw_headers w = [(ReplayedHeader, "true"%string)] /\
  (cr_level <$> sw_log w) = [LevelInfo] /\ Admission.in_flight (place, "acme"%string) (sw_admission w) = 0.
Proof. vm_compute. done. Qed.
Example panic_is_answered :
  let '(a, w) := sv_serve srv place panicking (call "k-1" ["bff"]%string) world in
  a = Returned None (status_Error Internal "internal failure") /\
  (cr_code <$> sw_log w) = ["INTERNAL"%string] /\ Admission.in_flight (place, "acme"%string) (sw_admission w) = 0.
Proof. vm_compute. done. Qed.
Example stranger_is_refused :
  (sv_serve srv place replaying (call "k-1" ["partner"]%string) world).1 =
    Returned None (status_Error PermissionDenied "the calling workload is not trusted").
Proof. vm_compute. done. Qed.
Example key_is_required :
  (sv_serve srv place replaying (call "" ["bff"]%string) world).1 =
    Returned None (KeyStatus ReasonMissingIdempotencyKey).
Proof. vm_compute. done. Qed.

Lemma own_call_served_witness :
  let options := foldl (fun o (opt : ServerOption) => opt service o) (mkServerOptions ∅ ∅) opts in
  let serve (handler : Handler (Env := Z) (R := string)) := sv_serve srv place handler (call "k-1" ["bff"]%string) world in
  (true = false -> as_Insecure api = true) /\
  ((exists err w', is_status err /\ stops serve (Returned None err) w' /\
      (sw_admission w' = sw_admission world \/ settled rt ctrl place (call "k-1" ["bff"]%string) world w')) \/
   (exists c' w1 g,
      vetted rt true ["bff"]%string (so_commands options) (so_platform options) ctrl place (call "k-1" ["bff"]%string) world
        (cc_ctx c') w1 g /\
      forall handler, let '(a, w2) := handler c' w1 in let '(final, w3) := serve handler in
        finished rt (so_commands options) place (cc_ctx c') g a w2 final w3)).
Proof.
  exact (own_call_served rt loads reads (fun _ => true) api cfg srv service ctrl opts place
    (call "k-1" ["bff"]%string) world eq_refl eq_refl eq_refl eq_refl eq_refl).
Defined.
End Orders.

(** * The client of a dependency *)
Section Client.
Context {Env : Type} (written : Env -> Z) (rt : Runtime (Env := Env)) (Hrt : Discreet written rt) `{MapOrder}.
Notation Shared := (HttpClient.Shared (Env := Env)).
Notation sent := (HttpClient.sent written).

(** What gRPC promises of one attempt with its own retry off: it is put on the wire
    once at most. *)
Definition once (invoker : Invoker) : Prop := forall ctx s, sent s <= sent (invoker ctx s).2 <= sent s + 1.

Lemma calls_of_lawful sheet methods calls method call :
  calls_of rt sheet methods = Ok calls -> calls !! method = Some call ->
  lawful written (ignores (mode_of sheet)) (Z.max 1 (maxAttempts sheet)) call.
Proof.
  revert calls. induction methods as [| [name policy] rest IH]; intros calls; cbn.
  - by intros [= <-].
  - destruct (compose_Build rt _) as [built | |] eqn:Hb; [| done..]. unfold mbind, result_bind.
    destruct (calls_of rt sheet rest) as [others | |]; [| done..]. intros [= <-] Hl.
    apply lookup_insert_Some in Hl as [[_ <-] | [_ Hl]]; [| by eapply IH].
    apply (compose_Build_lawful written rt Hrt) in Hb. exact Hb.
Qed.

Lemma Runs_unary invoker l w w' : once invoker -> Runs written (unary_do invoker) l w w' ->
  sent w.1 <= sent w'.1 <= sent w.1 + len l /\
  (forall l', l = None :: l' -> exists ctx s1 s2, invoker ctx s1 = (None, s2)).
Proof.
  intros Hinv. induction 1 as [w w' [_ Hq] | l w w1 ctx r w2 w3 _ [IH _] Hd [_ Hq]].
  { rewrite Hq. unfold len. cbn. split; [lia | done]. }
  rewrite Hq. unfold unary_do in Hd. pose proof (Hinv ctx w1.1) as Ho.
  destruct (invoker ctx w1.1) as [err s] eqn:Hi. injection Hd as <- <-. cbn [snd fst] in *. split.
  - unfold len in *. cbn [length]. lia.
  - intros l' [= -> ->]. eauto.
Qed.

Lemma outgoing_sent cfg method ctx s r s' : outgoing rt cfg method ctx s = (r, s') ->
  sent s' = sent s /\ (forall why, r <> Panic why) /\
  ((gc_Methods cfg !! method = None \/ Context_Deadline ctx = None) -> forall bounded, r <> Ok bounded).
Proof.
  unfold outgoing, Policy. destruct (gc_Methods cfg !! method) as [policy |] eqn:Hm; [| intros [= <- <-]; naive_solver].
  destruct (Outgoing _ _ _ _ _) as [until | e | why] eqn:Ho; [| | by apply Outgoing_returns in Ho].
  - intros [= <- <-]. split_and!; [by rewrite !(dc_elapse written rt Hrt) | done |].
    intros [Hn | Hn]; [done |]. rewrite Hn in Ho. unfold Outgoing in Ho. by repeat case_match.
  - intros [= <- <-]. naive_solver.
Qed.

(** C22: A unary call is refused before the wire when its method declares no policy or
    its context no deadline; else it is tried once, or up to the sheet's ceiling of
    attempts when its method declares itself idempotent; and it succeeds only when
    an attempt did, unless the sheet ignores failures. *)
Theorem unary_call_tries cfg conn method invoker ctx s err s' :
  Dial rt cfg None = Ok conn -> once invoker -> conn method invoker ctx s = (err, s') ->
  match gc_Methods cfg !! method, Context_Deadline ctx with
  | Some policy, Some _ =>
      sent s <= sent s' <= sent s + (if mp_Idempotent policy then Z.max 1 (maxAttempts (gc_Sheet cfg)) else 1) /\
      (err = None -> fld_value (sh_Degradation (gc_Sheet cfg)) = Some Ignore \/
                     exists ctx' s1 s2, invoker ctx' s1 = (None, s2))
  | _, _ => is_Some err /\ sent s' = sent s
  end.
Proof.
  unfold Dial, ComposeUnaryInterceptor, composeCalls. destruct (Config_Validate cfg) as [[] | |]; [| done..].
  unfold mbind, result_bind. destruct (calls_of rt _ _) as [calls | |] eqn:Hcalls; [| done..]. intros [= <-] Hinv.
  unfold DeadlineUnaryInterceptor. destruct (outgoing rt cfg method ctx s) as [r s0] eqn:Ho.
  apply outgoing_sent in Ho as (Hs & Hp & Hrefused). destruct r as [bounded | e | why]; [| | by destruct (Hp why)].
  2: { intros [= <- <-]. rewrite Hs.
       assert (forall n, 1 <= n -> sent s <= sent s <= sent s + n) by lia.
       destruct (gc_Methods cfg !! method) as [policy |], (Context_Deadline ctx); try (by split; [eauto |]).
       split; [case_match; lia | done]. }
  destruct (gc_Methods cfg !! method) as [policy |] eqn:Hm; [| by destruct (Hrefused (or_introl eq_refl) bounded)].
  destruct (Context_Deadline ctx); [| by destruct (Hrefused (or_intror eq_refl) bounded)].
  unfold compose_unary. destruct (calls !! method) as [call |] eqn:Hc; cycle 1.
  { intros [= <- <-]. rewrite Hs. split; [case_match; lia | done]. }
  pose proof (calls_of_lawful _ _ _ _ _ Hcalls Hc) as Hlaw. rewrite Hm.
  change (default zeroMethodPolicy (Some policy)) with policy.
  destruct (call bounded _ _ _) as [err' w'] eqn:Hrun. intros [= <- <-].
  destruct (Hlaw _ _ _ _ _ _ Hrun) as (l & Hr & Hl & Hout).
  apply Runs_unary in Hr as [Hsent Hsuccess]; [| done]. cbn [fst] in Hsent. rewrite Hs in Hsent.
  assert (repeats (op_of_policy policy) = mp_Idempotent policy) as Hrep by (unfold repeats, op_of_policy; cbn; apply orb_false_r).
  rewrite Hrep in Hl. split; [lia |]. intros ->. destruct Hout as [Hig | [l' ->]]; [left; by apply ignores_declared | right].
  by eapply Hsuccess.
Qed.
End Client.

(** A client whose transport is never reachable. *)
Module Partner.
Definition lost : Runtime (Env := Z) := HttpClient.losing.
Definition cfg : Config :=
  mkGrpcConfig (Some (mkTLSConfig false VersionTLS12 [] None 0)) false (Resilience.Defaults "partner")
    {[ "/partner.v1.Partner/Submit"%string :=
         mkMethodPolicy (mkHopBudget "partner" "Submit" (2 * Second) DefaultSlack (500 * Millisecond)) false [Unavailable] ]}
    true.
Definition invoker : Invoker (Env := Z) := fun _ s =>
  (status_Error Unavailable "connection refused",
   mkShared (sh_clock s) (sh_budget s) (sh_breaker s) (sh_bulkhead s) (sh_env s + 1)).
Definition conn : string -> Invoker (Env := Z) -> Invoker :=
  match @Dial Z lost by_key cfg None with Ok conn => conn | _ => fun _ invoker => invoker end.
Definition rested : Shared (Env := Z) := HttpClient.rested.

Example tried_once : sh_env (conn "/partner.v1.Partner/Submit" invoker (CallerContext (Some (5 * Second))) rested).2 = 1.
Proof. vm_compute. reflexivity. Qed.
Example undeclared_is_refused :
  sh_env (conn "/partner.v1.Partner/Cancel" invoker (CallerContext (Some (5 * Second))) rested).2 = 0.
Proof. vm_compute. reflexivity. Qed.

Lemma conn_dialled : @Dial Z lost by_key cfg None = Ok conn.
Proof.
  assert (is_Ok (@Dial Z lost by_key cfg None) = true) as Hok by (vm_compute; reflexivity).
  unfold conn. by destruct (@Dial Z lost by_key cfg None).
Qed.
Lemma unary_call_tries_witness :
  let run := conn "/partner.v1.Partner/Submit" invoker (CallerContext (Some (5 * Second))) rested in
  0 <= sh_env run.2 <= 0 + 1 /\
  (run.1 = None -> fld_value (sh_Degradation (gc_Sheet cfg)) = Some Ignore \/
                   exists ctx' s1 s2, invoker ctx' s1 = (None, s2)).
Proof.
  intros run. destruct run as [err s'] eqn:Hrun.
  apply (@unary_call_tries Z id lost HttpClient.losing_discreet by_key cfg conn "/partner.v1.Partner/Submit" invoker
    (CallerContext (Some (5 * Second))) rested err s').
  - exact conn_dialled.
  - intros ctx s. unfold sent. cbn. lia.
  - exact Hrun.
Defined.
End Partner.
