(* ===== verification/KafkaPublish.v ===== *)
(** The producing side of Kafka ([src/libs/backend/go/kafka]): the configuration of
    a process and its identity towards the broker, what is published and what is
    quarantined, and the classification of the broker's errors.

    The client is a parameter, a production a function on the world; files,
    certificates and the layout of an instant are parameters too.  Logs and the
    attributes of spans are left out; the observer sees copies and changes
    nothing. *)

From S2P Require Import Prelude GoTime GoStrings GoSlices DomainKernel Errors Ports Retry Breaker Resilience Envelope Consumer Channel HttpClient Sqs Grpc GrpcTheorems.

(** * Errors ([errors.go]) *)
Definition ErrNotKafkaChannel : error := Sentinel "kafka.ErrNotKafkaChannel".
Definition ErrTLSRequired : error := Sentinel "kafka.ErrTLSRequired".
Definition ErrTLSTooWeak : error := Sentinel "kafka.ErrTLSTooWeak".
Definition ErrClientAuthRequired : error := Sentinel "kafka.ErrClientAuthRequired".
Definition ErrSASLMechanism : error := Sentinel "kafka.ErrSASLMechanism".
Definition ErrSASLCredentials : error := Sentinel "kafka.ErrSASLCredentials".
Definition ErrIncompleteKafkaConfig : error := Sentinel "kafka.ErrIncompleteConfig".
Definition ErrInvalidEnvelope : error := Sentinel "kafka.ErrInvalidEnvelope".
Definition ErrInvalidContainment : error := Sentinel "kafka.ErrInvalidContainment".

(** * Identity towards the broker ([auth.go]) *)
Definition ScramSHA256 : string := "SCRAM-SHA-256".
Definition ScramSHA512 : string := "SCRAM-SHA-512".
Record SASL := mkSASL { sl_Mechanism : string; sl_Username : string; sl_Password : string }.
Definition known_mechanism (s : SASL) : bool :=
  String.eqb (sl_Mechanism s) ScramSHA256 || String.eqb (sl_Mechanism s) ScramSHA512.
Definition mechanism (s : SASL) : result error string :=
  if known_mechanism s then Ok (sl_Mechanism s) else Err ErrSASLMechanism.
Record ClientAuth := mkClientAuth {
  ca_SASL : option SASL; ca_CertFile : string; ca_KeyFile : string; ca_CAFile : string
}.
Definition unset : string := "unset".
Definition presence (value : string) : string := if String.eqb value "" then unset else "set".
Definition orUnset (value : string) : string := if String.eqb value "" then unset else value.
(** What a log says of it: never the password, nor who the principal is. *)
Definition LogValue (a : ClientAuth) : list (string * string) :=
  let '(mechanism, username, password) :=
    match ca_SASL a with
    | None => (unset, unset, unset)
    | Some s => (orUnset (sl_Mechanism s), presence (sl_Username s),
                 if String.eqb (sl_Password s) "" then unset else "<redacted>"%string)
    end in
  [("sasl_mechanism", mechanism); ("sasl_username", username); ("sasl_password", password);
   ("cert_file", orUnset (ca_CertFile a)); ("key_file", presence (ca_KeyFile a)); ("ca_file", orUnset (ca_CAFile a))]%string.
Definition ReadClientAuth (lookup : string -> string) : ClientAuth :=
  let mechanism := lookup "KAFKA_SASL_MECHANISM"%string in
  mkClientAuth
    (if String.eqb mechanism "" then None
     else Some (mkSASL mechanism (lookup "KAFKA_SASL_USERNAME"%string) (lookup "KAFKA_SASL_PASSWORD"%string)))
    (lookup "KAFKA_CLIENT_CERT_FILE"%string) (lookup "KAFKA_CLIENT_KEY_FILE"%string) (lookup "KAFKA_CA_FILE"%string).
Definition ClientAuth_Missing (a : ClientAuth) (insecure : bool) : list string :=
  if negb insecure && negb (bool_decide (is_Some (ca_SASL a))) && String.eqb (ca_CertFile a) ""
  then ["KAFKA_SASL_MECHANISM or KAFKA_CLIENT_CERT_FILE"]%string else [].

(** * Configuration ([config.go], [newconfig.go])

    The grace of a revocation, a field the producers do not read, is with the
    consumer's ([KafkaWorker]). *)
Record KafkaConfig := mkKafkaConfig {
  kc_Brokers : list string;
  kc_TLS : option TLSConfig;
  kc_SASL : option SASL;
  kc_Insecure : bool;
  kc_Catalog : Catalog;
  kc_Sheet : Sheet;
  kc_HasClock : bool
}.
Definition security_refusal (c : KafkaConfig) : option error :=
  match kc_TLS c with
  | None => if negb (kc_Insecure c) then Some ErrTLSRequired else None
  | Some tls =>
      if tls_InsecureSkipVerify tls || (negb (tls_MinVersion tls =? 0) && (tls_MinVersion tls <? VersionTLS12))
      then Some ErrTLSTooWeak
      else if bool_decide (kc_SASL c = None) && bool_decide (tls_Certificates tls = []) then Some ErrClientAuthRequired
      else None
  end.
Definition sasl_refusal (c : KafkaConfig) : option error :=
  match kc_SASL c with
  | None => None
  | Some s =>
      if negb (known_mechanism s) then Some ErrSASLMechanism
      else if String.eqb (sl_Username s) "" || String.eqb (sl_Password s) "" then Some ErrSASLCredentials
      else None
  end.
Definition KafkaConfig_Validate `{MapOrder} (c : KafkaConfig) : result error unit :=
  if bool_decide (kc_Brokers c = []) then Err (Wrap "brokers" ErrIncompleteKafkaConfig)
  else if negb (kc_HasClock c) then Err (Wrap "clock" ErrIncompleteKafkaConfig)
  else if bool_decide (kc_Catalog c = ∅) then Err (Wrap "catalogue declares no channel" ErrIncompleteKafkaConfig)
  else match security_refusal c with
  | Some err => Err err
  | None =>
      match sasl_refusal c with
      | Some err => Err err
      | None => _ ← Catalog_Validate ranged (kc_Catalog c); Sheet_Validate (kc_Sheet c)
      end
  end.
Definition ClientAuthenticated (c : KafkaConfig) : bool :=
  match kc_TLS c with
  | None => false
  | Some tls => bool_decide (is_Some (kc_SASL c)) || negb (bool_decide (tls_Certificates tls = []))
  end.
Definition Config_Channel (c : KafkaConfig) (destination : string) : result error Channel.Channel :=
  ch ← Catalog_Resolve (kc_Catalog c) destination;
  if negb (String.eqb (ch_Transport ch) Channel.Kafka) then Err (Wrap (ch_Name ch) ErrNotKafkaChannel) else Ok ch.

(** [newClient]; [opened] is the answer of [kgo.NewClient]. *)
Definition newClient (c : KafkaConfig) (opened : option error) : result error unit :=
  _ ← match kc_SASL c with Some s => _ ← mechanism s; Ok () | None => Ok () end;
  match opened with Some err => Err err | None => Ok () end.

Section Identity.
(** [os.ReadFile], whether a file holds a certificate in PEM, [tls.LoadX509KeyPair]. *)
Context (read_file : string -> result error bytes) (holds_pem : bytes -> bool)
        (load_pair : string -> string -> result error bytes).
Definition with_identity (tls : option TLSConfig) (sasl : option SASL) (c : KafkaConfig) : KafkaConfig :=
  mkKafkaConfig (kc_Brokers c) tls sasl (kc_Insecure c) (kc_Catalog c) (kc_Sheet c) (kc_HasClock c).
(** The authority of the broker, kept where a [tls.Config] of a client has its
    [RootCAs]; what fails leaves no configuration to [NewConfig]. *)
Definition apply (a : ClientAuth) (cfg : KafkaConfig) : result error (KafkaConfig * option bytes) :=
  match kc_TLS cfg with
  | None => Ok (with_identity None (ca_SASL a) cfg, None)
  | Some tls =>
      roots ←
        (if String.eqb (ca_CAFile a) "" then Ok None
         else match read_file (ca_CAFile a) with
              | Err err => Err (Wrap "kafka ca" err)
              | Panic why => Panic why
              | Ok authority => if negb (holds_pem authority) then Err (Opaque "kafka ca: holds no PEM certificate")
                                else Ok (Some authority)
              end);
      if String.eqb (ca_CertFile a) "" then Ok (with_identity (Some tls) (ca_SASL a) cfg, roots)
      else match load_pair (ca_CertFile a) (ca_KeyFile a) with
           | Err err => Err (Wrap "kafka client certificate" err)
           | Panic why => Panic why
           | Ok loaded =>
               Ok (with_identity (Some (mkTLSConfig (tls_InsecureSkipVerify tls) (tls_MinVersion tls) [loaded]
                                          (tls_ClientCAs tls) (tls_ClientAuth tls))) (ca_SASL a) cfg, roots)
           end
  end.
Definition NewConfig (catalog : Catalog) (brokers : list string) (insecure : bool) (auth : ClientAuth)
    : result error (KafkaConfig * option bytes) :=
  apply auth
    (mkKafkaConfig brokers (if insecure then None else Some (mkTLSConfig false VersionTLS12 [] None 0)) None insecure
       catalog (Resilience.Defaults "kafka") true).
End Identity.

(** * The classifier ([classifier.go]) *)

(** A [kerr.Error]: its code, and whether Kafka calls it retriable. *)
Definition BrokerError (code : Z) (retriable : bool) : error :=
  Typed "kerr.Error" "" [code; if retriable then 1 else 0] None.
Definition as_broker : error -> option (Z * bool) :=
  errors_as (fun e => match e with
    | Typed type _ [code; retriable] _ => if String.eqb type "kerr.Error" then Some (code, retriable =? 1) else None
    | _ => None
    end).
Definition KafkaClassifier (err : error) : Retryability :=
  if errors_is err ContextCanceled || errors_is err ContextDeadlineExceeded then NotRetryable
  else match as_broker err with
  | Some (_, retriable) => if retriable then RetryableError else NotRetryable
  | None => match as_net_error err with Some _ => RetryableError | None => NotRetryable end
  end.
(** The codes of the protocol. *)
Definition fnd07BrokerCodes : list (Z * string) :=
  [(89, "RateLimited"); (29, "Forbidden"); (30, "Forbidden"); (31, "Forbidden"); (53, "Forbidden"); (65, "Forbidden");
   (58, "Unauthenticated"); (87, "Validation")]%string.
Definition brokerCategory (code : Z) (retriable : bool) : string :=
  match List.find (fun entry => entry.1 =? code) fnd07BrokerCodes with
  | Some (_, category) => category
  | None => if retriable then "TransientDependency" else "_OTHER"
  end.
Definition categoryOf (err : option error) : string :=
  match err with
  | None => "ok"
  | Some err =>
      match as_category err with
      | Some category => category
      | None =>
          if errors_is err ContextDeadlineExceeded then "DeadlineExceeded"
          else if errors_is err ContextCanceled then "Cancelled"
          else match as_broker err with
          | Some (code, retriable) => brokerCategory code retriable
          | None => match as_net_error err with Some _ => "TransientDependency" | None => "_OTHER" end
          end
      end
  end.

(** * Publication ([publisher.go], [record.go]) *)
Definition HeaderPublishedAt : string := "dmpf-published-at".
Definition headerContentType : string := "content-type".
Definition cloudEventsStructured : string := "application/cloudevents+protobuf".
(** A [kgo.Record]; a nil key is [None]. *)
Record KafkaRecord := mkKafkaRecord {
  kr_Topic : string;
  kr_Key : option bytes;
  kr_Value : bytes;
  kr_Headers : list (string * bytes)
}.

Section Publication.
Context `{ProtoCodec} (rfc3339 : Instant -> string).

Definition published_record (ch : Channel.Channel) (env : Envelope) (now : Instant) (raw : bytes) : KafkaRecord :=
  mkKafkaRecord (ch_Address ch) (Some (bytes_of (env_PartitionKey env))) raw
    [(HeaderPublishedAt, bytes_of (rfc3339 now)); (headerContentType, bytes_of cloudEventsStructured)].
(** The record of a message, by the channel its destination names. *)
Definition route (c : KafkaConfig) (destination : string) (now : Instant) (raw : bytes)
    : result error (Channel.Channel * KafkaRecord) :=
  ch ← Config_Channel c destination;
  match Unmarshal raw with
  | Panic why => Panic why
  | Err _ => Err (Wrap destination ErrInvalidEnvelope)
  | Ok env => Ok (ch, published_record ch env now raw)
  end.

Section Produce.
Context {Env : Type} (rt : Runtime (Env := Env)).
(** [ProduceSync] of one record: its first error. *)
Context (produce : KafkaRecord -> Shared (Env := Env) -> option error * Shared (Env := Env)).
Definition producing (record : KafkaRecord) : Invoker (Env := Env) := fun _ s => produce record s.

Definition kafka_composition (sheet : Sheet) : ComposeConfig := mkComposeConfig sheet (Some KafkaClassifier) None.
Record Publisher := mkPublisher {
  pb_cfg : KafkaConfig;
  pb_call : HttpClient.Call (Env := Env);
  pb_ops : gmap string Resilience.Operation
}.
(** [operations]: one per channel of the transport. *)
Definition operations `{MapOrder} (c : KafkaConfig) (prefix : string) (transport : Transport)
    : gmap string Resilience.Operation :=
  foldl (fun ops entry =>
           if String.eqb (ch_Transport entry.2) transport
           then <[ch_Name entry.2 := compose_Operation (kc_Sheet c) (prefix ++ " " ++ ch_Name entry.2) true]> ops else ops)
    ∅ (ranged (kc_Catalog c)).
Definition newPublisher `{MapOrder} (c : KafkaConfig) : result error Publisher :=
  _ ← KafkaConfig_Validate c;
  call ← compose_Build rt (kafka_composition (kc_Sheet c));
  Ok (mkPublisher c call (operations c "publish" Channel.Kafka)).
Definition NewPublisher `{MapOrder} (c : KafkaConfig) (opened : option error) : result error Publisher :=
  _ ← KafkaConfig_Validate c;
  _ ← match newClient c opened with Err err => Err (Wrap "kafka: producer" err) | ok => ok end;
  newPublisher c.
Definition zeroOperation : Resilience.Operation := mkResOperation "" "" KindBlank false None 0 0.
Definition Publish (p : Publisher) (ctx : Context) (destination : string) (raw : bytes) (w : World (Env := Env))
    : result error unit * World (Env := Env) :=
  match route (pb_cfg p) destination (sh_clock w.1) raw with
  | Panic why => (Panic why, w)
  | Err err => (Err err, w)
  | Ok (ch, record) =>
      let '(err, w) := pb_call p ctx (default zeroOperation (pb_ops p !! ch_Name ch)) (unary_do (producing record)) w in
      (match err with Some e => Err e | None => Ok () end, w)
  end.

(** * Quarantine ([dlq.go]) *)
Definition HeaderReason : string := "dmpf-reason".
Definition HeaderConsumer : string := "dmpf-consumer".
Definition HeaderError : string := "dmpf-error".
Definition HeaderMessageID : string := "dmpf-message-id".
Definition HeaderContainedAt : string := "dmpf-contained-at".
Definition HeaderValueLimit : Z := 1024.
Definition fnd07Categories : list string :=
  map category_string [Validation; DomainRejection; NotFound; Conflict; Forbidden; Unauthenticated;
    TransientDependency; RateLimited; DeadlineExceeded; Cancelled; Unexpected].
Definition categoryOfText (text : string) : string :=
  if bool_decide (text ∈ fnd07Categories) then text else "_OTHER".
Definition bounded (valid : string -> string) (s : string) : string :=
  if string_len s <=? HeaderValueLimit then s else valid (String.substring 0 (Z.to_nat HeaderValueLimit) s).
Record DLQ := mkDLQ { dq_ch : Channel.Channel; dq_call : HttpClient.Call (Env := Env); dq_op : Resilience.Operation }.
Definition newDLQ `{MapOrder} (c : KafkaConfig) (ch : Channel.Channel) : result error DLQ :=
  if negb (String.eqb (ch_Transport ch) Channel.Kafka) then Err (Wrap (ch_Name ch) ErrNotKafkaChannel)
  else
    call ← compose_Build rt (kafka_composition (kc_Sheet c));
    Ok (mkDLQ ch call (compose_Operation (kc_Sheet c) ("quarantine " ++ ch_Name ch) true)).
Definition NewDLQ `{MapOrder} (c : KafkaConfig) (ch : Channel.Channel) (opened : option error) : result error DLQ :=
  _ ← KafkaConfig_Validate c;
  _ ← Channel_Validate ch;
  _ ← match newClient c opened with Err err => Err (Wrap "kafka: dlq producer" err) | ok => ok end;
  newDLQ c ch.
Definition contained_record (valid : string -> string) (ch : Channel.Channel) (attempt_ : option Z) (c : Contained)
    : result error KafkaRecord :=
  if String.eqb (con_Consumer c) "" || String.eqb (Reason_text (con_Reason c)) "" || bool_decide (con_Envelope c = [])
  then Err ErrInvalidContainment
  else
    let key := match Unmarshal (con_Envelope c) with Ok env => Some (bytes_of (env_PartitionKey env)) | _ => None end in
    Ok (mkKafkaRecord (ch_Containment ch) key (con_Envelope c)
          ([(HeaderReason, bytes_of (Reason_text (con_Reason c))); (HeaderConsumer, bytes_of (con_Consumer c));
            (HeaderMessageID, bytes_of (bounded valid (con_MessageID c)));
            (HeaderContainedAt, bytes_of (rfc3339 (con_At c)))]
           ++ (if String.eqb (con_Error c) "" then [] else [(HeaderError, bytes_of (categoryOfText (con_Error c)))])
           ++ match attempt_ with Some n => [(Channel.Header, bytes_of (Channel.Encode n))] | None => [] end)).
Definition Quarantine (valid : string -> string) (d : DLQ) (attempt_ : option Z) (c : Contained) (ctx : Context)
    (w : World (Env := Env)) : result error unit * World (Env := Env) :=
  match contained_record valid (dq_ch d) attempt_ c with
  | Panic why => (Panic why, w)
  | Err err => (Err err, w)
  | Ok record =>
      let '(err, w) := dq_call d ctx (dq_op d) (unary_do (producing record)) w in
      (match err with Some e => Err e | None => Ok () end, w)
  end.
End Produce.
End Publication.

(** * What is promised *)

(** A configuration that validates without the opt-out verifies its broker and
    authenticates to it. *)
Lemma validated_is_authenticated `{MapOrder} c :
  KafkaConfig_Validate c = Ok () -> kc_Insecure c = false ->
  ClientAuthenticated c = true /\ validateTLS (kc_TLS c) false = Ok ().
Proof.
  unfold KafkaConfig_Validate, security_refusal, ClientAuthenticated, validateTLS. intros Hv Hi. rewrite Hi in Hv.
  destruct (bool_decide (kc_Brokers c = [])); [done |]. destruct (negb (kc_HasClock c)); [done |].
  destruct (bool_decide (kc_Catalog c = ∅)); [done |]. destruct (kc_TLS c) as [tls |]; [| done].
  destruct (tls_InsecureSkipVerify tls || _); [done |]. split; [| done].
  destruct (kc_SASL c); [done |]. by destruct (bool_decide (tls_Certificates tls = [])).
Qed.
(** What is logged of an identity does not depend on a secret it holds, on who the
    principal is, or on where the key is kept. *)
Lemma LogValue_discreet mechanism u1 u2 p1 p2 cert k1 k2 ca :
  u1 <> "" -> u2 <> "" -> p1 <> "" -> p2 <> "" -> k1 <> "" -> k2 <> "" ->
  LogValue (mkClientAuth (Some (mkSASL mechanism u1 p1)) cert k1 ca) =
  LogValue (mkClientAuth (Some (mkSASL mechanism u2 p2)) cert k2 ca).
Proof.
  intros Hu1 Hu2 Hp1 Hp2 Hk1 Hk2. unfold LogValue, presence. cbn.
  by rewrite !(proj2 (String.eqb_neq _ _)) by done.
Qed.
(** A failure the broker could not have answered is never repeated. *)
Lemma KafkaClassifier_ended err :
  errors_is err ContextCanceled = true \/ errors_is err ContextDeadlineExceeded = true ->
  KafkaClassifier err = NotRetryable.
Proof. unfold KafkaClassifier. intros [-> | ->]; [done | by rewrite orb_true_r]. Qed.

Section Promises.
Context `{ProtoCodec} `{MapOrder} (rfc3339 : Instant -> string) {Env : Type} (written : Env -> Z).
Context (rt : Runtime (Env := Env)) (Hrt : Discreet written rt).
Context (produce : KafkaRecord -> Shared (Env := Env) -> option error * Shared (Env := Env)).
Notation sent := (HttpClient.sent written).
(** One production puts one record on the wire at most. *)
Context (Hproduce : forall record s, sent s <= sent (produce record s).2 <= sent s + 1).

Definition attempts_of (sheet : Sheet) : Z := Z.max 1 (maxAttempts sheet).
(** A production through the composition: up to the sheet's attempts, and success
    only when the client acknowledged the record. *)
Definition acknowledged (sheet : Sheet) (record : KafkaRecord) (r : result error unit) (w w' : World (Env := Env)) : Prop :=
  sent w.1 <= sent w'.1 <= sent w.1 + attempts_of sheet /\
  (r = Ok () -> fld_value (sh_Degradation sheet) = Some Ignore \/ exists s1 s2, produce record s1 = (None, s2)).
Lemma produced sheet call ctx op record w err w' :
  compose_Build rt (kafka_composition sheet) = Ok call ->
  call ctx op (unary_do (producing produce record)) w = (err, w') ->
  acknowledged sheet record (match err with Some e => Err e | None => Ok () end) w w'.
Proof.
  intros Hb Hc. apply (compose_Build_lawful written rt Hrt) in Hb.
  destruct (Hb _ _ _ _ _ _ Hc) as (l & Hr & Hl & Ho). cbn [kafka_composition cc_Sheet] in *.
  apply Runs_unary in Hr as [Hs Hok]; [| intros ctx0 s; apply Hproduce]. unfold acknowledged, attempts_of. split.
  - destruct (repeats op); lia.
  - destruct err as [e |]; [done |]. intros _. destruct Ho as [Hi | [l' ->]]; [left; by apply ignores_declared | right].
    destruct (Hok l' eq_refl) as (ctx' & s1 & s2 & Hp). by exists s1, s2.
Qed.

(** A message is published to the topic of the channel its destination names, under
    its partition key and byte for byte, or refused before anything is produced. *)
Theorem Publish_faithful c p ctx destination raw (w : World (Env := Env)) r w' :
  newPublisher rt c = Ok p -> Publish rfc3339 produce p ctx destination raw w = (r, w') ->
  match Config_Channel c destination, Unmarshal raw with
  | Ok ch, Ok env =>
      let record := published_record rfc3339 ch env (sh_clock w.1) raw in
      kr_Topic record = ch_Address ch /\ kr_Key record = Some (bytes_of (env_PartitionKey env)) /\ kr_Value record = raw /\
      acknowledged (kc_Sheet c) record r w w'
  | _, _ => w' = w /\ r <> Ok ()
  end.
Proof.
  unfold newPublisher. destruct (KafkaConfig_Validate c) as [[] | |]; [| done..]. unfold mbind, result_bind.
  destruct (compose_Build rt _) as [call | |] eqn:Hb; [| done..]. intros [= <-].
  unfold Publish, route. cbn [pb_cfg pb_call pb_ops]. unfold mbind, result_bind.
  destruct (Config_Channel c destination) as [ch | |]; [| by intros [= <- <-]..].
  destruct (Unmarshal raw) as [env | |]; [| by intros [= <- <-]..].
  destruct (call _ _ _ _) as [err w1] eqn:Hc. intros [= <- <-]. split_and!; [done.. |]. by eapply produced.
Qed.
(** A contained message goes to the containment of its channel byte for byte, with
    its diagnosis, or is refused before anything is produced. *)
Theorem Quarantine_faithful valid c d ch attempt_ contained ctx (w : World (Env := Env)) r w' :
  newDLQ rt c ch = Ok d -> Quarantine rfc3339 produce valid d attempt_ contained ctx w = (r, w') ->
  match contained_record rfc3339 valid ch attempt_ contained with
  | Ok record =>
      kr_Topic record = ch_Containment ch /\ kr_Value record = con_Envelope contained /\
      (HeaderReason, bytes_of (Reason_text (con_Reason contained))) ∈ kr_Headers record /\
      acknowledged (kc_Sheet c) record r w w'
  | _ => w' = w /\ r <> Ok ()
  end.
Proof.
  unfold newDLQ. destruct (negb _); [done |]. unfold mbind, result_bind.
  destruct (compose_Build rt _) as [call | |] eqn:Hb; [| done..]. intros [= <-].
  unfold Quarantine. cbn [dq_ch dq_call dq_op].
  destruct (contained_record rfc3339 valid ch attempt_ contained) as [record | |] eqn:Hrec; [| by intros [= <- <-]..].
  destruct (call _ _ _ _) as [err w1] eqn:Hc. intros [= <- <-].
  pose proof (produced _ _ _ _ _ _ _ _ Hb Hc) as Hp. unfold contained_record in Hrec.
  destruct (_ || _ || _); [done |]. injection Hrec as <-. split_and!; [done | done | | exact Hp]. cbn. set_solver.
Qed.
End Promises.

(** A throttled client waits its turn; a broker that calls its error final is believed. *)
Example throttled : KafkaClassifier (BrokerError 89 true) = RetryableError /\ categoryOf (Some (BrokerError 89 true)) = "RateLimited"%string.
Proof. vm_compute. done. Qed.
Example forbidden : KafkaClassifier (BrokerError 29 false) = NotRetryable /\ categoryOf (Some (BrokerError 29 false)) = "Forbidden"%string.
Proof. vm_compute. done. Qed.
Example password_stays :
  LogValue (ReadClientAuth (fun name => if String.eqb name "KAFKA_SASL_MECHANISM" then ScramSHA512 else "s3cret"))
  = [("sasl_mechanism", ScramSHA512); ("sasl_username", "set"); ("sasl_password", "<redacted>"); ("cert_file", "s3cret");
     ("key_file", "set"); ("ca_file", "s3cret")]%string.
Proof. vm_compute. done. Qed.
